(* ===== verification/_CoqProject ===== *)
-Q . S2P
Prelude.v
ReadSafety.v
ProtoWire.v
Roaring.v
Json.v
Int128.v
Decimal.v
Expr.v
Pb.v
RowIds.v
RowMeta.v
BasePaths.v
DeletionVector.v
RowIdIndex.v
Operation.v
CommitConflicts.v
FragReuse.v
BoolPack.v
Rle.v
IndexMaintenance.v
Overlays.v
TransactionChecks.v
Transaction.v
TransactionFile.v
ManifestFile.v
PutIfAbsent.v
Publish.v
MergeDeletions.v
CommitLoop.v
DatasetCommit.v
Lz4Block.v
Bitpack.v
MiniBlock.v
FullZip.v
Dictionary.v
ScalarValue.v
General.v
RepDef.v
RepDefRead.v
RepDefStages.v
RepDefLayers.v
RepDefWrite.v
RepDefRoundtrip.v
DatasetFiles.v
Refs.v
RefsText.v
Cleanup.v
CleanupSafe.v
AutoCleanup.v
DatasetTrees.v
Clone.v
CloneSafe.v
Bloom.v
RowSets.v
StableSort.v
ScalarSort.v
KeyOrder.v
ScalarIndex.v
ZoneMap.v
SegmentSearch.v
IndexSearch.v
IndexAnswers.v
Fst.v
FstRead.v
FstSafe.v
FstBuild.v
FstMaps.v
FstChecksum.v
