(* ===== verification/Prelude.v ===== *)
(** * A verification library for nanolance (prelude and root)

    nanolance is a C++ implementation of the Lance columnar table format. A dataset is a directory of
    immutable files: a manifest per version names fragments, each with data files, an optional deletion
    file and metadata the generated protobuf types do not know; a commit adds a version, and a commit that
    loses a race is checked against the ones that won. This library models the table layer (src/table),
    the codecs it rests on (src/base, include/nanolance), the value encodings and the page layouts
    (src/encoding), the evaluation of filters (src/expr) and the scalar indices that answer them (src/index),
    and proves that they do what they are for.

    ** The parts and the files that model them

    - [Prelude] (this file): machine integers as [Z] with explicit wrap-around ([u8] to [u64]), the result
      type [res] for functions that return [bool] and set [error], early-return loops ([fold_res]),
      little-endian integers, ascending lists, the [Codec] class (a valid value decodes from its own
      encoding), strings and paths, [std::sort]/[std::unique], and the shared tactics and hints.
    - [ReadSafety]: include/nanolance/read_safety.hpp. Checked arithmetic, bounds checks, buffer growth and
      the scoped read limits.
    - [ProtoWire]: src/base/proto_wire.hpp. [put_varint], [put_key], [put_bytes_field], [put_u64_field] and
      [Reader]; a message is the list of its bytes, a writer the bytes it appends, and [fields] the fields
      a [while (r.next(f))] loop sees with [ok()] after it. A [Field] keeps members that a wire type does
      not set, as the C++ object does.
    - [Roaring]: src/base/roaring_bitmap.cpp. Portable Roaring bitmaps and treemaps, both directions.
    - [Json]: src/base/fts_json.hpp. The JSON reader and [quote]; a double is a dyadic number rounded half to
      even.
    - [Pb]: the records of generated/lance_minimal.pb.hpp the modelled code reads and writes.
    - [RowIds]: src/table/row_ids.cpp, [RowIdSequence]: the five segment forms and the three encoded arrays.
    - [RowMeta]: the same file, [RowVersionSequence] and the fragment's row metadata, which lives in the
      fragment's unknown protobuf fields.
    - [RowIdIndex]: the same file, the index from stable row ids to addresses, [resolve_row_ids],
      [row_versions_at], [AddressToRowId] and [RowIdToAddress].
    - [BasePaths]: src/table/base_paths.cpp. Base paths and branch in the manifest's unknown fields, base
      ids of files, and the directories they resolve to.
    - [DeletionVector]: src/table/deletion_vector.cpp. The Arrow IPC and the Roaring reader of deletion
      files, with their budgets.
    - [Operation]: src/table/dataset_operation.hpp and .cpp. The transaction's wire reader, update maps and
      [decode_operation] for every operation.
    - [CommitConflicts]: src/table/commit_conflicts.cpp. The verdict between a commit of ours and one that
      won: one definition per arm of [check_txn].
    - [FragReuse]: src/table/frag_reuse.cpp and src/base/shared_cache.hpp. The fragment reuse index of a
      deferred compaction: reading, building the remap, resolving, writing, and the cache.
    - [BoolPack]: include/nanolance/bool_bitpack.hpp. Bit packing of bools by multiply and table.
    - [Rle]: src/encoding/values/rle.cpp. Run-length values, page chunks and definition levels.
    - [IndexMaintenance]: src/table/index_maintenance.cpp. Which index entries a commit keeps, and the
      coverage of those it keeps.
    - [Overlays]: src/table/overlays.cpp. The data overlays in a fragment's unknown fields.
    - [TransactionChecks] and [Transaction]: src/table/dataset_transaction.cpp. The checks on an operation,
      the numbering and stamping of new fragments, data replacement; then [apply_operation], one definition
      per arm of its switch, and [rebase_operation].
    - [TransactionFile]: src/table/transaction_file.cpp. The operation a commit records: given by the
      writer, or derived from the manifests before and after; and the file it is written to.
    - [ManifestFile]: src/table/manifest_reader.cpp and manifest_writer.cpp. Manifest names of both schemes,
      feature flags, and the bytes of a manifest file around the protobuf body.
    - [PutIfAbsent]: src/io/byte_sink.cpp, [put_if_absent] of a local path, a step per file system call, for
      any number of concurrent calls.
    - [Publish]: the version directory as a [store] of named files, with the faults of the I/O layer as an
      argument; loading, listing, [publish_manifest] and the migration of the names.
    - [MergeDeletions] and [CommitLoop]: src/dataset/dataset.cpp and include/nanolance/commit_backoff.hpp.
      The commit of a manifest: publish, and on a lost race classify what was committed, merge the deletion
      files, rebase and try again. Other writers are a function [env] applied between its phases.
    - [DatasetCommit]: the dataset writer's own commits (manifest_writer.cpp, include/nanolance/schema_mapper.hpp)
      and hand-built transactions (dataset_transaction.cpp).
    - [Lz4Block]: src/encoding/lz4_block.cpp. The LZ4 compressor (greedy matches from a hash table) and the
      readers around nanom's block decoder.
    - [Bitpack]: src/encoding/values/bitpack.cpp. Inline blocks, series of blocks and out-of-line buffers
      around nanom's FastLanes kernels.
    - [MiniBlock] and [FullZip]: src/encoding/layout. The two page layouts: chunks of padded buffers with
      their metadata words, and rows of levels and values with the repetition index.
    - [Dictionary] and [ScalarValue]: src/encoding/values. Dictionary blocks; the value of a constant page.
    - [General]: src/encoding/values/general.cpp. Buffers compressed with zstd or LZ4 behind their size.
    - [RepDef]: src/encoding/repdef.cpp. The repetition and definition levels of nested columns: [unravel] and
      [serialize]. [RepDefRead] proves what [unravel] accepts well typed; [RepDefStages] and [RepDefLayers]
      give the levels of a nested column as a function of its rows and undo them layer by layer;
      [RepDefWrite] shows the two passes of [serialize] compute that function, [RepDefRoundtrip] joins them.
    - [DatasetFiles], [Refs] and [Cleanup]: src/table/dataset_refs.cpp. The directories of datasets as a [tree]
      of files under their paths, local or of an object store, with the faults of the I/O layer as an
      argument ([Io]); tags and branches; the clean-up of old versions, the one after a commit, and dropping a
      dataset. [Clone]: branches, shallow and deep clones. [DatasetTrees] proves what operations on a directory
      change and that the walks over it end, [CloneSafe] what branches and clones keep; [RefsText] proves the reference files round trip, [CleanupSafe] what a clean-up keeps,
      [AutoCleanup] that it keeps what [Publish] relies on.
    - [Int128]: src/base/int128.hpp. The 128-bit integer class of two words and its overflow checks.
    - [Decimal] and [Expr]: src/expr/expr.cpp. Decimals of 256 bits as limbs, rescaled and compared; then
      values, their comparison, the nodes of a filter, [eval] on a row, [fast_eval] on a column at a time and
      [filter], which takes the first that applies.
    - [Bloom]: src/index/scalar/bloom_filter.cpp. XXH64 and the split block bloom filter.
    - [RowSets]: the sets of rows of src/index/index_search.cpp (rows by fragment, with the fragments they
      answer for), and the addresses src/index/scalar/scalar_index.cpp serializes.
    - [StableSort] and [ScalarSort]: the sorts of scalar_index.cpp: radix, parallel, and grouping through a hash
      table, over the keys of each type. [KeyOrder] relates the order of the keys to the filter's comparison.
    - [ScalarIndex]: what scalar_index.cpp writes for a BTREE, a BITMAP and a ZONEMAP, and the searches of
      index_search.cpp over them: bounds, pages, zones. [ZoneMap] proves a zone map loses no match,
      [SegmentSearch] a BITMAP exact and the rows of a zone map in order.
    - [IndexSearch]: a filter as conditions on columns (expr.cpp) and the rest of index_search.cpp: bloom
      filters, trigrams and JSON indices, the segments of an index, the translation of their rows to where
      they are now, AND and OR, and the candidates of a scan. [IndexAnswers] proves them sound.
    - [Fst]: src/index/fts/fts_fst.cpp and .hpp, the maps a full text index keeps its vocabulary in: the reader,
      the builder with its registry of nodes, and the checksum. [FstRead] proves that a node written is the node
      read, [FstSafe] what the reader does on any bytes, [FstBuild] what the builder keeps, [FstMaps] that they
      round trip, and [FstChecksum] the checksum.

    ** How they interact

    [RowMeta], [BasePaths] and [Overlays] store their data with [ProtoWire] in the [unknown] bytes of [Pb]
    records and are proved through its lemma on rewritten unknown fields ([fields_rewritten]). [RowIdIndex]
    reads a fragment's sequence through [RowMeta.fragment_row_ids] and its deletions through
    [DeletionVector.read_manifest_deletion_vector], which finds the file through [BasePaths]. [FragReuse]
    encodes moved addresses with [Roaring]'s treemaps. [Roaring]'s codecs are instances of [Codec], and
    [FragReuse] uses only its law.

    A commit goes through [CommitLoop.commit_next_version] or [DatasetCommit.commit_dataset_version]; both
    publish with [Publish.publish_manifest], which writes the transaction file of [TransactionFile] first and
    then the bytes of [ManifestFile] under the name of the next version, only if it is absent
    ([Publish.put_if_absent], which [PutIfAbsent] refines into steps). When the name is taken, the loop loads
    the versions committed meanwhile, decodes their transaction files with [Operation.decode_operation],
    decides with [CommitConflicts.check_txn] and rebases with [Transaction.rebase_operation], which numbers
    and stamps the new fragments again ([TransactionChecks], [RowMeta]) and keeps the indices that still
    apply ([IndexMaintenance]). After a commit [Publish] runs a clean-up, a parameter of its theorems with the
    contract [Publish.cleanup_keeps]; [AutoCleanup.auto_cleanup_keeps] shows that [Cleanup.run_auto_cleanup]
    meets it, on the tree whose [_versions] directory is the store ([DatasetFiles.store_at],
    [DatasetFiles.with_store]). [Cleanup] reads manifests with [ManifestFile], the base paths of branches with
    [BasePaths], and tags and branches with [Refs], which parses them with [Json].

    A page is framed by [MiniBlock] or [FullZip] over buffers of [Bitpack], [Rle], [BoolPack] or [Dictionary]
    (which unpacks its entries with [Bitpack]), each behind [General]'s compression, which calls [Lz4Block].
    The levels in it are those of [RepDef].

    A filter is evaluated by [Expr], which compares decimals with [Decimal]. [IndexSearch.index_candidates]
    asks the indices first: it splits the filter into conditions, searches each segment ([ScalarIndex],
    [Bloom]) into a [RowSets.RowSet], moves the rows through the fragment reuse index ([FragReuse]) or the
    stable row ids ([RowIdIndex]), leaves out the fragments an overlay made stale ([Overlays]), and combines
    the answers. A BTREE is built by sorting with [ScalarSort] and is searched by evaluating the predicate
    with [Expr] on the bounds of its pages and on the pages that are left. [IndexAnswers]
    assumes what the files of the segments hold, as the writers of [ScalarIndex] leave them
    ([IndexAnswers.IndexFiles]); what a search of a segment promises the rest of the search
    ([IndexAnswers.SegmentsAnswer]) is proved of BTREE, ZONEMAP and BITMAP indices by the lemmas of
    [ScalarIndex], [ZoneMap] and [SegmentSearch] ([index_files_answer]).

    ** What the theorems show

    - Commits lose nothing: a successful commit was published on the version it was read at or rebased over
      every version since, each checked ([commit_loses_no_update]); publishing adds the one version, also when
      the reply is lost, and an error adds it or nothing ([publish_manifest_correct]), atomically among concurrent writers ([put_if_absent_atomic],
      [put_if_absent_once]); compatible changes merge ([concurrent_changes_merge],
      [merge_deletions_union]); a commit left alone in one attempt gets through ([commit_progress]) and the
      attempts and pauses are bounded ([commit_retries_bounded]).
    - Versions stay valid: [apply_operation_invariant], [stamped_row_ids], [retain_relevant_indices_spec]; the
      two ways to append build the same version ([writer_append_is_transaction]).
    - What a commit records is what it did: a change of rows, derived from the versions around it, replays to the
      new version ([derived_rows_replay]), the configuration change too ([update_map_roundtrip]), and a concurrent commit
      reads back what was written ([transaction_file_readable]).
    - The verdict: row changes conflict exactly when they touch a common fragment ([conflict_iff_overlap]);
      it is symmetric where both commits can be rebased ([check_txn_symmetric]); affected rows only relax a
      retry ([affected_rows_refines]); nothing survives a replaced table ([replaced_table_incompatible]).
    - Codecs: what is written is read back ([row_id_sequence_roundtrip], [row_versions_roundtrip],
      [roaring_roundtrip], [treemap_roundtrip], [message_roundtrip], [varint_roundtrip],
      [frag_reuse_entry_appends], [rle_roundtrip], [bool_pack_roundtrip], [manifest_name_roundtrip],
      [append_fragment_overlays_correct]); rewriting one group of unknown fields keeps every other one
      ([fragment_row_meta_roundtrip], [base_paths_roundtrip], [base_id_roundtrip], [fields_partition]);
      renaming the manifests keeps every version readable ([migrate_keeps_versions]).
    - Clean-up: at every point of a removal each manifest that is left has all its files
      ([cleanup_never_orphans]); the current and later versions, unselected and tagged ones stay
      ([cleanup_keeps_versions]), and so do the files the branches its registry lists take from
      this dataset ([cleanup_keeps_forks]); the clean-up after a commit keeps the contract publishing relies on
      ([auto_cleanup_keeps]); dropping a dataset removes it and nothing else ([drop_dataset_exact]).
    - Branches and clones: what a shallow one reads is what its source reads ([shallow_reads_source]), and no
      clean-up of the source takes it away once the branch is there ([create_branch_protects]); a deep clone
      has the source's bytes ([deep_clone_copies]); no clone of a manifest with relative paths that do not
      climb changes a file outside its target, and a failed one into a new local directory is undone where
      the removals succeed ([clone_contained]).
    - Tags and branches: a created tag is read back and nothing else changes ([create_tag_reads_back]); a
      branch's file is read back under the name its file name decodes to ([branch_file_roundtrip]).
    - Encodings: an LZ4 block decodes to what it was made of by the format's own rules ([lz4_roundtrip]); packed
      values, chunks, rows and dictionary entries are read back ([bitpack_roundtrip], [miniblock_roundtrip],
      [full_zip_roundtrip], [dictionary_roundtrip], [decode_encode_variable]); on any bytes the readers end
      and stay inside ([miniblock_split_safe], [full_zip_reads_inside], [dictionary_entries_inside],
      [decompress_bounded]).
    - Nested columns: the levels [serialize] writes are read back by [unravel] as the same rows
      ([repdef_roundtrip]), whatever the number of threads and the order of their parts
      ([serialize_parallel]); any levels [unravel] accepts give a well-typed column ([unravel_well_typed]).
    - Readers on any input: what is accepted is well formed and within its budget ([roaring_decode_sound],
      [deletion_parsers_bounded], [read_deletion_vector_sound], [rle_levels_exact],
      [frag_reuse_resolve_safe], [range_in_bounds_exact]); no read leaves the manifest file
      ([manifest_reads_inside]); two readers of one format agree ([roaring_readers_agree],
      [wire_readers_agree]).
    - Refinement: the row id index finds exactly the live rows ([row_id_index_correct],
      [resolve_row_ids_correct]); the remap of a compaction sends the row of each rank to the row of the same
      rank ([frag_reuse_resolve_correct], [frag_reuse_coverage]); loading through the cache is decoding
      ([frag_reuse_load_cached]).
    - Filters and indices: evaluating a column at a time gives what evaluating each row gives, on a
      batch without an offset or null rows of its own ([fast_filter_agrees]); decimals compare as the rationals they stand for ([compare_decimal_exact]) and
      fit a type exactly when their rounded value does ([fit_decimal_exact]); the items of an index come in
      the reference order whatever the sort ([sort_items_reference]); searching a BTREE or a BITMAP answers a
      predicate exactly ([btree_search_exact], [bitmap_search_exact]), a zone map and a bloom filter lose no match
      ([zonemap_search_complete], [bloom_no_false_negatives]); row sets are the sets they stand for
      ([row_sets_are_sets], [treemap_addresses_roundtrip]); and the candidates of a filter hold every row it
      passes, only those when they say so ([index_candidates_sound]).
    - Transducer maps: what was inserted in order is found, nothing else is, and a walk gives it back in order
      ([fst_map_roundtrip]); on any bytes the reader stays inside and its walk ends ([fst_reader_safe]); the
      checksum by tables is the one by bits ([crc32c_bitwise]).
    - Arithmetic, cost and termination: [wide128_is_int128], [overflow_checks_exact], [reserve_more_linear],
      [rle_chunk_rows], [row_versions_from_values], [field_path_terminates].
    - Where the code does not do what it means to: [delete_rebase_loses_overlay],
      [failed_listing_mixes_schemes], [put_if_absent_without_links_replaces], [unravel_orphan_child],
      [hidden_branch_loses_files], [delete_branch_removes_nested], [store_branch_scope],
      [failed_ref_blocks_branch], [deep_clone_merges_names], [negative_nan_pruned],
      [fast_eval_ignores_offset], [landed_put_drops_transaction], [unlisted_fork_loses_files],
      [deep_clone_escapes], [append_duplicates_id], [merge_duplicates_id] and the second half of [field_path_terminates].

    ** Conventions

    A [std::vector<std::uint8_t>] is a [list Z] of bytes ([bytes_ok]); a [std::map] or [std::set] is a
    [gmap] or [gset], a [std::unordered_map]'s order is a parameter where the code depends on it; unsigned
    arithmetic that can wrap is wrapped where the code computes it. A loop over the bytes of a message has
    the number of bytes as fuel, since a field takes at least one ([fields_loop_fuel],
    [DeletionVector.parse_messages_fuel] show more fuel changes nothing); [put_varint] has ten groups, which
    hold any 64-bit value ([put_varint_loop_fuel]); the fills and chunk loops of [Rle] advance by at least
    one byte or row per iteration and are proved to finish ([fill_copies], [chunk_loop_spec]). The walks over
    the parent ids of a schema ([TransactionChecks.field_path], [replaced_closure],
    [TransactionFile.subtree]) take one step per field where the ids have no cycle; with a cycle the code
    does not return, and the model gives [None]. The loops of [Lz4Block] advance through the input
    ([compress_loop_fuel]), those of [MiniBlock] and [FullZip] by at least a header or a control word
    ([miniblock_split_safe], [full_zip_reads_inside]), and a zstd stream consumes a byte or writes one per
    step ([stream_loop_bounded]): their fuel is the input's length, with the output bound for the stream. In [RepDef] the passes over
    the levels read at least one per iteration ([list_loop_levels]) and a visit goes one layer inward per call
    ([visit_count], [visit_emit]); the parts of [serialize] write disjoint stretches, and are run whole, in an
    order that is an argument. The commit loops count down the attempts the code allows.
    [Json]'s loops take a character per iteration and its values nest to the depth the code allows
    ([elements_fuel]); the walks over directories have as fuel the longest path of the tree, or the characters
    of its paths, which is enough where no name is empty ([objects_under_complete], [walk_store_ends]).

    [Decimal]'s loops take nine digits per round and [Bloom]'s a stripe of its input; the merge rounds of
    [StableSort.parallel_sort] halve the number of parts. [Expr]'s doubles are NaNs with a sign or dyadic
    numbers; what the processor computes of two of them (the arithmetic of float columns) is a parameter. A walk
    of a transducer map goes to lower addresses only, so some fuel is enough for any bytes ([fst_reader_safe]).

    Parameters stand for code outside the repository: zstd's frame size, decompression and stream,
    nanom's FastLanes kernels (class [Bitpack.FastLanes]) and LZ4 block decoder, reading and writing deletion files, nanom's protobuf codec behind the generated messages, an object store's replies,
    the clock and random uuids, and for [IndexSearch] the index files as they are loaded, the conversion of a
    constant to a column's type and the trigrams of a text ([IndexSearch.Env]). Each theorem with such a parameter is instantiated by its witness.

    ** Not modelled

    Writing deletion files (nanoarrow), the cache of open files and the pauses of a rate-limited clean-up,
    finding an index by name and the in-memory WAL of src/table; byte stream split and FSST (nanom's kernels),
    the choice of an encoding, the column decoders and the file layer, which work on Arrow data through
    nanoarrow; of the expressions the parser, functions, casts, LIKE and text; of the scalar indices the
    Arrow tables of their files and the collection of items from the fragments; of full text indices all but
    their vocabulary; scans and vector indices, the rest of the dataset API, the C API and the bindings. *)

From Stdlib Require Ascii String.
From stdpp Require Export base list strings pretty numbers gmap sorting list_numbers.

#[global] Open Scope Z_scope.

(** ** Machine integers

    A [w]-bit unsigned integer is a [Z] in [0, 2^w); [wrap] is the reduction every unsigned C++
    operation of that width performs. *)

Definition wrap (w z : Z) : Z := z mod 2 ^ w.
Definition u8 (z : Z) : Z := wrap 8 z.
Definition u16 (z : Z) : Z := wrap 16 z.
Definition u32 (z : Z) : Z := wrap 32 z.
Definition u64 (z : Z) : Z := wrap 64 z.

(** [std::numeric_limits<std::uint64_t>::max()]. *)
Definition U64_MAX : Z := 2 ^ 64 - 1.

Definition is_u8 (z : Z) : Prop := 0 <= z < 2 ^ 8.
Definition is_u16 (z : Z) : Prop := 0 <= z < 2 ^ 16.
Definition is_u32 (z : Z) : Prop := 0 <= z < 2 ^ 32.
Definition is_u64 (z : Z) : Prop := 0 <= z < 2 ^ 64.

(** A byte buffer: every element is a byte. *)
Definition bytes_ok (bs : list Z) : Prop := Forall is_u8 bs.

(** The length of a vector, as the [size_t] the code compares with. *)
Definition zlen {A} (l : list A) : Z := Z.of_nat (length l).
Arguments zlen : simpl never.

(** ** Results

    A C++ function that returns [bool] and sets [std::string& error] is a [res]. *)

Inductive res (A : Type) : Type :=
  | Ok (a : A)
  | Err (error : string).
Arguments Ok {A} _.
Arguments Err {A} _.

#[export] Instance res_ret : MRet res := fun A => @Ok A.
#[export] Instance res_bind : MBind res :=
  fun A B k m => match m with Ok a => k a | Err e => Err e end.
#[export] Instance res_fmap : FMap res :=
  fun A B f m => match m with Ok a => Ok (f a) | Err e => Err e end.

(** Inverting a result without computing its parts. *)
Lemma Ok_pair_inv {A B} (a c : A) (b d : B) : Ok (a, b) = Ok (c, d) -> a = c /\ b = d.
Proof. intros [= -> ->]. done. Qed.

(** A loop over a vector whose body may return early with an error. *)
Fixpoint fold_res {A S} (body : S -> A -> res S) (l : list A) (s : S) : res S :=
  match l with
  | [] => Ok s
  | x :: l => s' ← body s x; fold_res body l s'
  end.

(** ** Tactics *)

(** [lia] that also knows division and remainder by constants. *)
Ltac dlia := Z.to_euclidean_division_equations; lia.

(** Turns boolean comparisons of the context into propositions. *)
Ltac bool_prop :=
  repeat match goal with
  | H : (_ && _)%bool = true |- _ => apply andb_true_iff in H as [? ?]
  | H : (_ || _)%bool = false |- _ => apply orb_false_iff in H as [? ?]
  | H : negb _ = true |- _ => apply negb_true_iff in H
  | H : negb _ = false |- _ => apply negb_false_iff in H
  | H : (_ <=? _) = true |- _ => apply Z.leb_le in H
  | H : (_ <=? _) = false |- _ => apply Z.leb_gt in H
  | H : (_ <? _) = true |- _ => apply Z.ltb_lt in H
  | H : (_ <? _) = false |- _ => apply Z.ltb_ge in H
  | H : (_ =? _) = true |- _ => apply Z.eqb_eq in H
  | H : (_ =? _) = false |- _ => apply Z.eqb_neq in H
  end.

(** Splits on every boolean comparison of the goal. *)
Ltac case_bool :=
  match goal with
  | |- context [if ?b then _ else _] => let E := fresh "E" in destruct b eqn:E; bool_prop
  end.

(** Splits on the comparisons and results a hypothesis scrutinises. *)
Ltac case_hyp H :=
  match type of H with
  | context [if ?b then _ else _] => let E := fresh "E" in destruct b eqn:E; bool_prop; try discriminate H
  | context [match ?m with Ok _ => _ | Err _ => _ end] =>
      let E := fresh "E" in destruct m eqn:E; try discriminate H
  | context [match ?m with Some _ => _ | None => _ end] =>
      let E := fresh "E" in destruct m eqn:E; try discriminate H
  end.

(** Rewrites a comparison of the goal to the value [lia] can show it has. *)
Ltac known_true b := replace b with true by (symmetry; first [apply Z.ltb_lt | apply Z.leb_le | apply Z.eqb_eq]; lia).
Ltac known_false b := replace b with false by (symmetry; first [apply Z.ltb_ge | apply Z.leb_gt | apply Z.eqb_neq]; lia).

Create HintDb nano.

(** ** Integers *)

Lemma wrap_small w z : 0 <= z < 2 ^ w -> wrap w z = z.
Proof. apply Z.mod_small. Qed.

Lemma wrap_range w z : 0 <= w -> 0 <= wrap w z < 2 ^ w.
Proof. intros. apply Z.mod_pos_bound, Z.pow_pos_nonneg; lia. Qed.

Lemma u8_small z : is_u8 z -> u8 z = z.
Proof. apply wrap_small. Qed.
Lemma u16_small z : is_u16 z -> u16 z = z.
Proof. apply wrap_small. Qed.
Lemma u32_small z : is_u32 z -> u32 z = z.
Proof. apply wrap_small. Qed.
Lemma u64_small z : is_u64 z -> u64 z = z.
Proof. apply wrap_small. Qed.

Lemma u8_range z : is_u8 (u8 z).
Proof. apply wrap_range; lia. Qed.
Lemma u16_range z : is_u16 (u16 z).
Proof. apply wrap_range; lia. Qed.
Lemma u32_range z : is_u32 (u32 z).
Proof. apply wrap_range; lia. Qed.
Lemma u64_range z : is_u64 (u64 z).
Proof. apply wrap_range; lia. Qed.

#[export] Hint Resolve u8_range u16_range u32_range u64_range : nano.

(** Or-ing values whose bits do not overlap is adding them. *)
Lemma lor_shiftl_add a b n :
  0 <= n -> 0 <= a < 2 ^ n -> Z.lor a (Z.shiftl b n) = a + b * 2 ^ n.
Proof.
  intros Hn Ha.
  assert (Z.land a (Z.shiftl b n) = 0) as Hz.
  { apply Z.bits_inj'. intros i Hi. rewrite Z.land_spec, Z.bits_0, Z.shiftl_spec by lia.
    destruct (Z.lt_ge_cases i n).
    - rewrite (Z.testbit_neg_r b) by lia. apply andb_false_r.
    - rewrite <- (Z.mod_small a (2 ^ n)), Z.mod_pow2_bits_high by lia. done. }
  rewrite <- Z.lxor_lor, <- Z.add_nocarry_lxor by done.
  by rewrite Z.shiftl_mul_pow2.
Qed.

Lemma land_low a n : 0 <= n -> Z.land a (2 ^ n - 1) = a mod 2 ^ n.
Proof. intros. rewrite <- Z.land_ones, Z.ones_equiv by lia. done. Qed.

Lemma land_pow2_testbit a n : 0 <= n -> (Z.land a (2 ^ n) =? 0) = negb (Z.testbit a n).
Proof.
  intros Hn. destruct (Z.testbit a n) eqn:E; simpl.
  - apply Z.eqb_neq. intros H0. apply (f_equal (fun z => Z.testbit z n)) in H0.
    rewrite Z.land_spec, E, Z.pow2_bits_true, Z.bits_0 in H0 by lia. done.
  - apply Z.eqb_eq, Z.bits_inj'. intros i Hi. rewrite Z.land_spec, Z.bits_0.
    destruct (Z.eq_dec i n) as [->|Hne]; [by rewrite E|].
    rewrite Z.pow2_bits_false by lia. apply andb_false_r.
Qed.

(** ** Little-endian integers *)

(** The [n] low bytes of [v], least significant first: [static_cast<uint8_t>(v >> (8 * b))] for
    [b = 0 .. n-1]. *)
Fixpoint le_bytes (n : nat) (v : Z) : list Z :=
  match n with
  | O => []
  | S n => u8 v :: le_bytes n (Z.shiftr v 8)
  end.

(** The integer whose little-endian bytes are [bs]: [v |= b[i] << (8 * i)]. *)
Fixpoint le_value (bs : list Z) : Z :=
  match bs with
  | [] => 0
  | b :: bs => Z.lor b (Z.shiftl (le_value bs) 8)
  end.

Lemma length_le_bytes n v : length (le_bytes n v) = n.
Proof. revert v. induction n; simpl; intros; [done|]. by rewrite IHn. Qed.

Lemma le_bytes_ok n v : bytes_ok (le_bytes n v).
Proof. revert v. induction n; constructor; [apply u8_range | apply IHn]. Qed.

Lemma le_value_cons b bs : is_u8 b -> le_value (b :: bs) = b + le_value bs * 256.
Proof. intros. simpl. by rewrite lor_shiftl_add by (unfold is_u8 in *; lia). Qed.

Lemma le_value_le_bytes n v : 0 <= v < 2 ^ (8 * Z.of_nat n) -> le_value (le_bytes n v) = v.
Proof.
  revert v. induction n as [|n IH]; intros v Hv.
  { simpl in *. lia. }
  cbn [le_bytes]. rewrite le_value_cons by apply u8_range.
  rewrite Z.shiftr_div_pow2 by lia. rewrite IH.
  - unfold u8, wrap. change (2 ^ 8) with 256. dlia.
  - replace (8 * Z.of_nat (S n)) with (8 + 8 * Z.of_nat n) in Hv by lia.
    rewrite Z.pow_add_r in Hv by lia. change (2 ^ 8) with 256 in *.
    split; [apply Z.div_pos; lia | apply Z.div_lt_upper_bound; lia].
Qed.

Lemma le_bytes_le_value bs : bytes_ok bs -> le_bytes (length bs) (le_value bs) = bs.
Proof.
  induction 1 as [|b bs Hb Hbs IH]; [done|]. cbn [length le_bytes]. rewrite le_value_cons by done. unfold is_u8 in Hb.
  rewrite Z.shiftr_div_pow2 by lia. change (2 ^ 8) with 256 in *. rewrite Z.div_add, (Z.div_small b), Z.add_0_l, IH by lia. f_equal.
  unfold u8, wrap. change (2 ^ 8) with 256. rewrite Z.mod_add, Z.mod_small by lia. done.
Qed.

Lemma le_value_range bs : bytes_ok bs -> 0 <= le_value bs < 2 ^ (8 * zlen bs).
Proof.
  unfold zlen. induction 1 as [|b bs Hb Hbs IH]; [done|].
  rewrite le_value_cons by done. unfold is_u8 in Hb. cbn [length].
  replace (8 * Z.of_nat (S (length bs))) with (8 + 8 * Z.of_nat (length bs)) by lia.
  rewrite Z.pow_add_r by lia. change (2 ^ 8) with 256 in *. nia.
Qed.

(** ** Lists *)

Lemma zlen_app {A} (l1 l2 : list A) : zlen (l1 ++ l2) = zlen l1 + zlen l2.
Proof. unfold zlen. rewrite length_app. lia. Qed.

Lemma zlen_cons {A} (x : A) l : zlen (x :: l) = 1 + zlen l.
Proof. unfold zlen. simpl. lia. Qed.

Lemma zlen_nonneg {A} (l : list A) : 0 <= zlen l.
Proof. unfold zlen. lia. Qed.

Lemma zlen_le_bytes n v : zlen (le_bytes n v) = Z.of_nat n.
Proof. unfold zlen. by rewrite length_le_bytes. Qed.

#[export] Hint Rewrite @zlen_app @zlen_cons @length_app length_le_bytes : nano.
#[export] Hint Resolve @zlen_nonneg : nano.

Lemma bytes_ok_app bs1 bs2 : bytes_ok (bs1 ++ bs2) <-> bytes_ok bs1 /\ bytes_ok bs2.
Proof. apply Forall_app. Qed.

Lemma fold_res_app {A S} (body : S -> A -> res S) l1 l2 s :
  fold_res body (l1 ++ l2) s = (s' ← fold_res body l1 s; fold_res body l2 s').
Proof.
  revert s. induction l1 as [|x l1 IH]; intros s; [done|].
  cbn. destruct (body s x); [apply IH | done].
Qed.

(** Ascending and distinct, as the id lists of the table layer are. *)
Definition ascending (l : list Z) : Prop := StronglySorted Z.lt l.

Lemma ascending_cons x l : ascending (x :: l) <-> ascending l /\ Forall (Z.lt x) l.
Proof. split; [apply StronglySorted_inv | intros [? ?]; by constructor]. Qed.

Lemma ascending_app l1 l2 :
  ascending (l1 ++ l2) <->
  ascending l1 /\ ascending l2 /\ (forall x y, x ∈ l1 -> y ∈ l2 -> x < y).
Proof.
  induction l1 as [|a l1 IH]; simpl.
  - split; [intros; repeat split; [constructor|done|set_solver] | tauto].
  - rewrite !ascending_cons, IH, Forall_app. split.
    + intros ((? & ? & Hx) & Hf1 & Hf). split_and!; try done. intros x y [->|Hx']%elem_of_cons Hy; [|eauto].
      rewrite Forall_forall in Hf. auto.
    + intros ((? & Hf) & ? & Hx). split_and!; try done.
      * intros x y ??. apply Hx; [by right | done].
      * apply Forall_forall. intros y ?. apply Hx; [by left | done].
Qed.

Lemma ascending_NoDup l : ascending l -> NoDup l.
Proof.
  induction 1 as [|x l Hl IH Hx]; constructor; [|done].
  intros Hin. rewrite Forall_forall in Hx. specialize (Hx _ Hin). lia.
Qed.

(** An ascending list is determined by its members. *)
Lemma ascending_ext l1 l2 : ascending l1 -> ascending l2 -> (forall x, x ∈ l1 <-> x ∈ l2) -> l1 = l2.
Proof.
  intros H1. revert l2. induction H1 as [|x l1 Hl IH Hx]; intros l2 H2 Hext.
  - destruct l2 as [|y l2]; [done|]. exfalso. apply (not_elem_of_nil y), Hext. by left.
  - destruct l2 as [|y l2]; [exfalso; apply (not_elem_of_nil x), Hext; by left|].
    apply ascending_cons in H2 as [H2 Hy]. rewrite Forall_forall in Hx, Hy.
    assert (x = y) as ->.
    { assert (x ∈ y :: l2) as Hin by (apply Hext; by left).
      assert (y ∈ x :: l1) as Hin' by (apply Hext; by left).
      apply elem_of_cons in Hin as [?|Hin]; [done|]. apply elem_of_cons in Hin' as [?|Hin']; [done|].
      specialize (Hx _ Hin'). specialize (Hy _ Hin). lia. }
    f_equal. apply IH; [done|]. intros z. split; intros Hz.
    + assert (z ∈ y :: l2) as Hin by (apply Hext; by right).
      apply elem_of_cons in Hin as [->|?]; [|done]. specialize (Hx _ Hz). lia.
    + assert (z ∈ y :: l1) as Hin by (apply Hext; by right).
      apply elem_of_cons in Hin as [->|?]; [|done]. specialize (Hy _ Hz). lia.
Qed.

Lemma ascending_filter (P : Z -> Prop) `{!forall x, Decision (P x)} l : ascending l -> ascending (filter P l).
Proof.
  induction 1 as [|x l Hl IH Hx]; [constructor|]. rewrite filter_cons. case_decide; [|done].
  constructor; [done|]. rewrite Forall_forall in *. intros y [_ ?]%list_elem_of_filter. auto.
Qed.

Lemma ascending_map f l :
  (forall x y, x ∈ l -> y ∈ l -> x < y -> f x < f y) -> ascending l -> ascending (f <$> l).
Proof.
  intros Hf Hl. induction Hl as [|x l Hl IH Hx]; [constructor|]. rewrite fmap_cons. constructor.
  - apply IH. intros; apply Hf; try (by right); done.
  - rewrite Forall_forall in *. intros y (z & -> & Hz)%list_elem_of_fmap. apply Hf; [by left | by right | auto].
Qed.

Lemma seqZ_ascending m n : ascending (seqZ m n).
Proof.
  assert (forall k m, 0 <= k -> ascending (seqZ m k)) as Hn.
  { clear. intros k m Hk. revert m. pattern k. apply natlike_ind; [intros; constructor | | done].
    clear k Hk. intros k Hk IH m. rewrite seqZ_cons by lia. constructor.
    - replace (Z.pred (Z.succ k)) with k by lia. apply IH.
    - apply Forall_forall. intros x Hx%elem_of_seqZ. lia. }
  destruct (Z.lt_ge_cases n 0); [|auto]. rewrite seqZ_nil by lia. constructor.
Qed.

(** Consecutive elements sharing a key, grouped: the spans [i, j) of a scan that extends [j] while the
    key is the one at [i]. *)
Fixpoint group_by (key : Z -> Z) (l : list Z) : list (list Z) :=
  match l with
  | [] => []
  | x :: l =>
      match group_by key l with
      | (y :: g) :: gs => if key x =? key y then (x :: y :: g) :: gs else [x] :: (y :: g) :: gs
      | gs => [x] :: gs
      end
  end.

Lemma concat_group_by key l : concat (group_by key l) = l.
Proof.
  induction l as [|x l IH]; [done|]. cbn. destruct (group_by key l) as [|[|y g] gs]; cbn in *.
  - by rewrite IH.
  - by rewrite IH.
  - case_bool; cbn; by rewrite IH.
Qed.

(** Every group is a non-empty run of one key. *)
Definition one_key (key : Z -> Z) (g : list Z) : Prop :=
  match g with [] => False | x :: _ => Forall (fun y => key y = key x) g end.

Lemma group_by_one_key key l : Forall (one_key key) (group_by key l).
Proof.
  induction l as [|x l IH]; [constructor|]. cbn.
  destruct (group_by key l) as [|[|y g] gs]; [|inversion IH; done|].
  - constructor; [|constructor]. repeat constructor.
  - inversion IH as [|? ? Hg Hgs]; subst. case_bool.
    + constructor; [|done]. cbn in *. constructor; [done|].
      eapply Forall_impl; [exact Hg|]. simpl. congruence.
    + constructor; [repeat constructor | by constructor].
Qed.

(** The keys of the groups of a list with ascending keys are ascending. *)
Lemma group_by_keys key l (d : Z) :
  StronglySorted (fun x y => key x <= key y) l ->
  ascending ((fun g => key (default d (head g))) <$> group_by key l).
Proof.
  induction 1 as [|x l Hl IH Hx]; [constructor|]. cbn.
  pose proof (concat_group_by key l) as Hc. pose proof (group_by_one_key key l) as Hk.
  destruct (group_by key l) as [|[|y g] gs]; [cbn; repeat constructor | inversion Hk; done |].
  rewrite fmap_cons in IH. cbn in IH. assert (key x <= key y) as Hxy.
  { rewrite Forall_forall in Hx. apply Hx. rewrite <- Hc. cbn. by left. }
  case_bool; cbn in *; rewrite ascending_cons in *; [by rewrite E in * |].
  rewrite ascending_cons. split; [done|]. constructor; [lia|].
  destruct IH as [_ IH]. eapply Forall_impl; [exact IH|]. simpl. lia.
Qed.

(** ** Splitting integers at a bit *)

Lemma lor_split x n : 0 <= n -> Z.lor (Z.shiftl (Z.shiftr x n) n) (x mod 2 ^ n) = x.
Proof.
  intros Hn. assert (0 < 2 ^ n) by (apply Z.pow_pos_nonneg; lia).
  rewrite Z.lor_comm, lor_shiftl_add by (auto using Z.mod_pos_bound; lia).
  rewrite Z.shiftr_div_pow2 by lia. pose proof (Z.div_mod x (2 ^ n) ltac:(lia)). lia.
Qed.

(** [high << n | low] for a [low] of [n] bits. *)
Lemma lor_high_low high low n :
  0 <= n -> 0 <= low < 2 ^ n -> Z.lor (Z.shiftl high n) low = high * 2 ^ n + low.
Proof. intros. rewrite Z.lor_comm, lor_shiftl_add by lia. lia. Qed.

Lemma shiftr_bound x n m : 0 <= n -> 0 <= x < 2 ^ (n + m) -> 0 <= m -> 0 <= Z.shiftr x n < 2 ^ m.
Proof.
  intros Hn Hx Hm. rewrite Z.shiftr_div_pow2 by lia. rewrite Z.pow_add_r in Hx by lia.
  assert (0 < 2 ^ n) by (apply Z.pow_pos_nonneg; lia).
  split; [apply Z.div_pos; lia | apply Z.div_lt_upper_bound; lia].
Qed.

Lemma shiftr_mono x y n : 0 <= n -> x <= y -> Z.shiftr x n <= Z.shiftr y n.
Proof. intros. rewrite !Z.shiftr_div_pow2 by lia. apply Z.div_le_mono; [|done]. apply Z.pow_pos_nonneg; lia. Qed.

Lemma lor_bound a b n : 0 <= n -> 0 <= a < 2 ^ n -> 0 <= b < 2 ^ n -> 0 <= Z.lor a b < 2 ^ n.
Proof.
  intros Hn Ha Hb. split; [apply Z.lor_nonneg; lia|]. apply Z.bounded_iff_bits_nonneg; [lia | apply Z.lor_nonneg; lia|].
  intros l Hl. rewrite Z.lor_spec, (proj1 (Z.bounded_iff_bits_nonneg n a ltac:(lia) ltac:(lia)) ltac:(lia)) by lia.
  by rewrite (proj1 (Z.bounded_iff_bits_nonneg n b ltac:(lia) ltac:(lia)) ltac:(lia)) by lia.
Qed.

(** ** Ascending lists of a bounded range *)

Lemma ascending_bounded l a b :
  ascending l -> Forall (fun x => a <= x < b) l -> a <= b -> zlen l <= b - a.
Proof.
  intros Hl. revert a. induction Hl as [|x l Hl IH Hx]; intros a Hb Hab; [unfold zlen; simpl; lia|].
  inversion Hb as [|? ? Hx0 Hb']; subst. rewrite zlen_cons. specialize (IH (x + 1)).
  rewrite Forall_forall in *. assert (zlen l <= b - (x + 1)); [|lia].
  apply IH; [|lia]. intros y Hy. specialize (Hx y Hy). specialize (Hb' y Hy). lia.
Qed.

Lemma ascending_concat gs : ascending (concat gs) -> Forall ascending gs.
Proof.
  induction gs as [|g gs IH]; [constructor|]. cbn. intros (? & ? & _)%ascending_app. constructor; auto.
Qed.

Lemma Forall_concat_iff {A} (P : A -> Prop) ls : Forall P (concat ls) <-> Forall (Forall P) ls.
Proof. apply Forall_concat. Qed.

Lemma StronglySorted_weaken {A} (R S : A -> A -> Prop) l :
  (forall x y, R x y -> S x y) -> StronglySorted R l -> StronglySorted S l.
Proof.
  intros HRS. induction 1 as [|x l Hl IH Hx]; constructor; [done|].
  eapply Forall_impl; [exact Hx|]. auto.
Qed.

(** ** Codecs

    What one component promises to another about a serialized form: a [valid] value decodes from its
    own encoding. Clients are proved against the class; the components provide the instances. *)
Class Codec {A : Type} (encode : A -> list Z) (decode : list Z -> res A) (valid : A -> Prop) : Prop :=
  codec_roundtrip : forall a, valid a -> decode (encode a) = Ok a.

Lemma codec_inj {A} (encode : A -> list Z) decode valid `{!Codec encode decode valid} a b :
  valid a -> valid b -> encode a = encode b -> a = b.
Proof.
  intros Ha Hb E. pose proof (codec_roundtrip a Ha) as H1. rewrite E, (codec_roundtrip b Hb) in H1. congruence.
Qed.

(** An ascending list that fills its range is the range. *)
Lemma ascending_full l a n : ascending l -> Forall (fun x => a <= x < a + n) l -> zlen l = n -> l = seqZ a n.
Proof.
  intros Hl. revert a n. induction Hl as [|x l Hl IH Hx]; intros a n Hb Hn.
  - rewrite seqZ_nil; [done|]. unfold zlen in Hn. simpl in Hn. lia.
  - inversion Hb as [|? ? Hx0 Hb']; subst. rewrite zlen_cons in *. pose proof (zlen_nonneg l).
    rewrite Forall_forall in *.
    assert (zlen l <= a + (1 + zlen l) - (x + 1)) as Hle.
    { apply ascending_bounded; [done| |lia]. apply Forall_forall. intros y Hy.
      specialize (Hx y Hy). specialize (Hb' y Hy). lia. }
    assert (x = a) as -> by lia. rewrite seqZ_cons by lia. f_equal.
    replace (Z.pred (1 + zlen l)) with (zlen l) by lia. apply IH; [|done].
    apply Forall_forall. intros y Hy. specialize (Hx y Hy). specialize (Hb' y Hy). lia.
Qed.

Lemma zlen_seqZ m n : 0 <= n -> zlen (seqZ m n) = n.
Proof. intros. unfold zlen. rewrite length_seqZ. lia. Qed.

(** ** Strings

    A [std::string] is its bytes; the source moves between the two by [assign] and iterators. *)

Definition string_of_bytes (bs : list Z) : string :=
  String.string_of_list_ascii ((fun b => Ascii.ascii_of_N (Z.to_N b)) <$> bs).
Definition bytes_of_string (s : string) : list Z :=
  (fun c => Z.of_N (Ascii.N_of_ascii c)) <$> String.list_ascii_of_string s.

Lemma string_of_bytes_of_string s : string_of_bytes (bytes_of_string s) = s.
Proof.
  unfold string_of_bytes, bytes_of_string. rewrite <- list_fmap_compose.
  rewrite (list_fmap_ext _ id) by (intros i c _; cbn; by rewrite N2Z.id, Ascii.ascii_N_embedding).
  rewrite list_fmap_id. apply String.string_of_list_ascii_of_string.
Qed.

Lemma append_cons c (a b : string) : String c a +:+ b = String c (a +:+ b).
Proof. done. Qed.

Lemma append_assoc (a b c : string) : (a +:+ b) +:+ c = a +:+ (b +:+ c).
Proof. induction a as [|x a IH]; [done|]. by rewrite !append_cons, IH. Qed.

Lemma append_nil (a : string) : a +:+ "" = a.
Proof. induction a as [|x a IH]; [done|]. by rewrite append_cons, IH. Qed.

Lemma string_length_app a b : String.length (a +:+ b) = (String.length a + String.length b)%nat.
Proof. induction a as [|c a IH]; [done|]. exact (f_equal S IH). Qed.

(** ** Decimal digits *)

Definition is_digit (c : Ascii.ascii) : bool := let n := Z.of_N (Ascii.N_of_ascii c) in (48 <=? n) && (n <=? 57).

Fixpoint all_digits (s : string) : bool :=
  match s with "" => true | String c s => is_digit c && all_digits s end.

Fixpoint digits_value (acc : Z) (s : string) : Z :=
  match s with "" => acc | String c s => digits_value (10 * acc + (Z.of_N (Ascii.N_of_ascii c) - 48)) s end.

Definition digit (c : Ascii.ascii) (d : Z) : Prop := is_digit c = true /\ Z.of_N (Ascii.N_of_ascii c) - 48 = d.

Lemma pretty_char_digit x : (x < 10)%N -> digit (pretty_N_char x) (Z.of_N x).
Proof.
  intros Hx. assert (x = 0 \/ x = 1 \/ x = 2 \/ x = 3 \/ x = 4 \/ x = 5 \/ x = 6 \/ x = 7 \/ x = 8 \/ x = 9)%N as Hin by lia.
  repeat destruct Hin as [->|Hin]; try subst x; by vm_compute.
Qed.

(** What one reads of a number's digits before [s]. *)
Lemma pretty_N_go_spec x s :
  digits_value 0 (pretty_N_go x s) = digits_value (Z.of_N x) s /\ all_digits (pretty_N_go x s) = all_digits s.
Proof.
  revert s. induction (N.lt_wf_0 x) as [x _ IH]. intros s. destruct (decide (0 < x)%N) as [Hx|Hx].
  - rewrite pretty_N_go_step by done. destruct (IH (x `div` 10)%N (N.div_lt x 10 Hx eq_refl) (String (pretty_N_char (x `mod` 10)) s)) as [-> ->].
    destruct (pretty_char_digit (x `mod` 10)) as [Hd Hv]; [by apply N.mod_lt|]. cbn [digits_value all_digits]. rewrite Hd, Hv. split; [|done].
    f_equal. pose proof (N.div_mod' x 10). lia.
  - assert (x = 0%N) as -> by lia. by rewrite pretty_N_go_0.
Qed.

Lemma pretty_N_go_length x s (n : nat) :
  Z.of_N x < 10 ^ Z.of_nat n -> (String.length s <= String.length (pretty_N_go x s) <= n + String.length s)%nat.
Proof.
  revert s n. induction (N.lt_wf_0 x) as [x _ IH]. intros s n Hn. destruct (decide (0 < x)%N) as [Hx|Hx].
  - rewrite pretty_N_go_step by done. destruct n as [|n]; [cbn in Hn; lia|].
    assert (Z.of_N (x `div` 10) < 10 ^ Z.of_nat n) as Hq.
    { rewrite Nat2Z.inj_succ, Z.pow_succ_r in Hn by lia. rewrite N2Z.inj_div. apply Z.div_lt_upper_bound; lia. }
    specialize (IH (x `div` 10)%N (N.div_lt x 10 Hx eq_refl) (String (pretty_N_char (x `mod` 10)) s) n Hq). cbn [String.length] in IH. lia.
  - assert (x = 0%N) as -> by lia. rewrite pretty_N_go_0. lia.
Qed.

Lemma pretty_Z_of_N v : 0 <= v -> pretty v = (if decide (v = 0) then "0" else pretty_N_go (Z.to_N v) "").
Proof. intros Hv. destruct v as [|p|p]; [done | by rewrite decide_False | done]. Qed.

Lemma pretty_digits v : 0 <= v -> digits_value 0 (pretty v) = v /\ all_digits (pretty v) = true.
Proof.
  intros Hv. rewrite pretty_Z_of_N by done. case_decide; [by subst|]. destruct (pretty_N_go_spec (Z.to_N v) "") as [-> ->]. cbn. split; [lia | done].
Qed.

Lemma pretty_length v (n : nat) : 0 <= v < 10 ^ Z.of_nat n -> (0 < n)%nat -> (String.length (pretty v) <= n)%nat.
Proof.
  intros Hv Hn. rewrite pretty_Z_of_N by lia. case_decide; [cbn; lia|]. pose proof (pretty_N_go_length (Z.to_N v) "" n ltac:(lia)). cbn [String.length] in *. lia.
Qed.

(** [std::filesystem::path::operator/] for a relative right-hand side. *)
Definition path_join (a b : string) : string :=
  match last (String.list_ascii_of_string a) with
  | None => b
  | Some c => if bool_decide (c = Ascii.ascii_of_N 47) then a +:+ b else a +:+ "/" +:+ b
  end.

(** A loop that keeps the last value, or fails on the first bad one. *)
Lemma fold_res_ext {A S} (f g : S -> A -> res S) l s :
  (forall s x, x ∈ l -> f s x = g s x) -> fold_res f l s = fold_res g l s.
Proof.
  revert s. induction l as [|x l IH]; intros s H; [done|]. cbn. rewrite H by (by left).
  destruct (g s x); cbn; [|done]. apply IH. intros. apply H. by right.
Qed.

(** ** [std::sort] and [std::unique] *)

(** [std::unique]: the first of each run of equal elements; [x] is the last one kept. *)
Fixpoint unique_after (x : Z) (l : list Z) : list Z :=
  match l with
  | [] => [x]
  | y :: l => if x =? y then unique_after x l else x :: unique_after y l
  end.
Definition unique (l : list Z) : list Z := match l with [] => [] | x :: l => unique_after x l end.

(** [std::sort] followed by [erase(std::unique(...))]. *)
Definition sort_unique (l : list Z) : list Z := unique (merge_sort Z.le l).

Lemma unique_after_elem l a x : x ∈ unique_after a l <-> x ∈ a :: l.
Proof.
  revert a. induction l as [|b l IH]; intros a; [done|]. cbn [unique_after]. case_bool.
  - rewrite IH, !elem_of_cons. subst. tauto.
  - rewrite elem_of_cons, IH. by rewrite (elem_of_cons (b :: l)).
Qed.

Lemma unique_elem l x : x ∈ unique l <-> x ∈ l.
Proof. destruct l; [done | apply unique_after_elem]. Qed.

Lemma unique_after_sorted l a : StronglySorted Z.le (a :: l) -> ascending (unique_after a l).
Proof.
  revert a. induction l as [|b l IH]; intros a [Hl Ha]%StronglySorted_inv; [repeat constructor|]. cbn [unique_after].
  apply Forall_cons_1 in Ha as [Hab Ha]. apply StronglySorted_inv in Hl as [Hl Hb]. case_bool.
  - apply IH. by constructor.
  - apply ascending_cons. split; [apply IH; by constructor|]. apply Forall_forall. intros x Hx%unique_after_elem.
    rewrite Forall_forall in Hb. apply elem_of_cons in Hx as [->|Hx]; [lia|]. specialize (Hb x Hx). lia.
Qed.

Lemma unique_sorted l : StronglySorted Z.le l -> ascending (unique l).
Proof. destruct l; [constructor | apply unique_after_sorted]. Qed.

Lemma sort_unique_spec l : ascending (sort_unique l) /\ forall x, x ∈ sort_unique l <-> x ∈ l.
Proof.
  unfold sort_unique. split.
  - apply unique_sorted, StronglySorted_merge_sort; [apply _ | intros x y; lia].
  - intros x. rewrite unique_elem. by rewrite merge_sort_Permutation.
Qed.

Lemma sort_unique_id l : ascending l -> sort_unique l = l.
Proof. intros. destruct (sort_unique_spec l). by apply ascending_ext. Qed.

Lemma sort_unique_length l : zlen (sort_unique l) <= zlen l.
Proof.
  unfold sort_unique. assert (forall l a, zlen (unique_after a l) <= zlen (a :: l)) as Hu.
  { clear l. induction l as [|b l IH]; intros a; [done|]. cbn [unique_after].
    case_bool; [specialize (IH a) | specialize (IH b)]; rewrite !zlen_cons in *; lia. }
  assert (zlen l = zlen (merge_sort Z.le l)) as -> by (unfold zlen; by rewrite merge_sort_Permutation).
  destruct (merge_sort Z.le l); [done | apply Hu].
Qed.

(** ** Positions and parts of lists *)

Lemma ascending_last l x y : ascending l -> last l = Some y -> x ∈ l -> x <= y.
Proof.
  induction 1 as [|a l Hl IH Ha]; [done|]. intros Hy Hx. destruct l as [|b l].
  - cbn in Hy. injection Hy as ->. apply list_elem_of_singleton in Hx as ->. lia.
  - rewrite last_cons_cons in Hy. apply elem_of_cons in Hx as [->|Hx]; [|by apply IH].
    rewrite Forall_forall in Ha. apply last_Some in Hy as (l' & Hy). specialize (Ha y). rewrite Hy in Ha.
    assert (a < y) by (apply Ha, elem_of_app; right; by left). lia.
Qed.

Lemma concat_lookup {A B} (f : A -> list B) l i x :
  concat (f <$> l) !! i = Some x ->
  exists pre y post p, l = pre ++ y :: post /\ i = (length (concat (f <$> pre)) + p)%nat /\ f y !! p = Some x.
Proof.
  revert i. induction l as [|y l IH]; intros i; [done|]. cbn. intros [H|[Hlen H]]%lookup_app_Some.
  - by exists [], y, l, i.
  - destruct (IH _ H) as (pre & z & post & p & -> & Hi & Hz). exists (y :: pre), z, post, p. split_and!; [done| |done].
    cbn. rewrite length_app. lia.
Qed.

Lemma filter_split (P : Z -> Prop) `{!forall x, Decision (P x)} l :
  zlen (filter P l) + zlen (filter (fun x => ~ P x) l) = zlen l.
Proof.
  induction l as [|x l IH]; [done|]. rewrite !filter_cons. destruct (decide (P x)), (decide (~ P x)); try tauto; rewrite !zlen_cons; lia.
Qed.

Lemma zlen_concat_elem (x : list Z) ls : x ∈ ls -> zlen x <= zlen (concat ls).
Proof.
  induction ls as [|y ls IH]; [by intros ?%elem_of_nil|]. cbn. rewrite zlen_app.
  pose proof (zlen_nonneg (concat ls)). pose proof (zlen_nonneg y). intros [->|Hx]%elem_of_cons; [lia|]. specialize (IH Hx). lia.
Qed.

Lemma NoDup_fmap_inj {A B} (f : A -> B) l x y : NoDup (f <$> l) -> x ∈ l -> y ∈ l -> f x = f y -> x = y.
Proof.
  induction l as [|a l IH]; [by intros _ ?%elem_of_nil|]. rewrite fmap_cons. intros [Ha Hn]%NoDup_cons Hx Hy E.
  apply elem_of_cons in Hx as [->|Hx], Hy as [->|Hy]; [done | | | by apply IH]; exfalso; apply Ha, list_elem_of_fmap; eauto.
Qed.

Lemma filter_ext_in {A} (P Q : A -> Prop) `{!forall x, Decision (P x), !forall x, Decision (Q x)} (l : list A) :
  (forall x, x ∈ l -> P x <-> Q x) -> filter P l = filter Q l.
Proof.
  induction l as [|x l IH]; intros Hl; [done|]. rewrite !filter_cons, IH by (intros; apply Hl; by right).
  specialize (Hl x ltac:(by left)). destruct (decide (P x)), (decide (Q x)); tauto.
Qed.

Lemma elem_of_concat {A} (x : A) (ls : list (list A)) : x ∈ concat ls <-> exists l, l ∈ ls /\ x ∈ l.
Proof.
  rewrite list_elem_of_In, in_concat. split; intros (l & Hl & Hx); exists l; rewrite !list_elem_of_In in *; done.
Qed.

Lemma nth_byte l i : bytes_ok l -> 0 <= nth i l 0 < 2 ^ 8.
Proof. intros Hl. rewrite nth_lookup. destruct (l !! i) eqn:E; [|done]. exact (proj1 (Forall_lookup _ _) Hl _ _ E). Qed.

Lemma sorted_nodup_ascending l : StronglySorted Z.le l -> NoDup l -> ascending l.
Proof.
  induction 1 as [|x l Hl IH Hx]; intros Hn; [constructor|]. inversion Hn; subst. constructor; [by apply IH|].
  rewrite Forall_forall in Hx. apply Forall_forall. intros y Hy. specialize (Hx y Hy).
  assert (x <> y) by (intros ->; done). lia.
Qed.

Lemma Forall_filter {A} (P Q : A -> Prop) `{!forall x, Decision (Q x)} (l : list A) : Forall P l -> Forall P (filter Q l).
Proof. rewrite !Forall_forall. intros HP x [_ Hx]%list_elem_of_filter. auto. Qed.

(** A loop whose steps keep a property of their state. *)
Lemma fold_res_invariant {A S} (P : S -> Prop) (Q : A -> Prop) (step : S -> A -> res S) l s out :
  (forall s a s', P s -> Q a -> step s a = Ok s' -> P s') -> Forall Q l -> P s -> fold_res step l s = Ok out -> P out.
Proof.
  intros Hstep Hl. revert s. induction Hl as [|a l Ha Hl IH]; intros s Hs; cbn [fold_res]; [by intros [= <-]|].
  unfold mbind, res_bind. destruct (step s a) as [s'|] eqn:E; [|done]. apply IH. by eapply Hstep.
Qed.

(** ** [std::stable_sort] by an integer key *)

Section stable_sort.
  Context {A : Type} (key : A -> Z).

Fixpoint insert_by (x : A) (l : list A) : list A :=
  match l with
  | [] => [x]
  | y :: l' => if key x <=? key y then x :: l else y :: insert_by x l'
  end.

(** Elements with one key stay in their order: each is inserted before the later ones. *)
Definition stable_sort_by (l : list A) : list A := foldr insert_by [] l.

Definition key_le (a b : A) : Prop := key a <= key b.

Lemma insert_by_perm x l : insert_by x l ≡ₚ x :: l.
Proof. induction l as [|y l IH]; cbn; [done|]. case_bool; [done|]. rewrite IH. apply perm_swap. Qed.

Lemma stable_sort_by_perm l : stable_sort_by l ≡ₚ l.
Proof. unfold stable_sort_by. induction l as [|x l IH]; cbn; [done|]. by rewrite insert_by_perm, IH. Qed.

Lemma insert_by_sorted x l : StronglySorted key_le l -> StronglySorted key_le (insert_by x l).
Proof.
  induction 1 as [|y l Hl IH Hy]; cbn; [repeat constructor|]. case_bool.
  - constructor; [by constructor|]. constructor; [done|]. eapply Forall_impl; [exact Hy|]. unfold key_le. intros. lia.
  - constructor; [done|]. rewrite insert_by_perm. constructor; [unfold key_le; lia | done].
Qed.

Lemma stable_sort_by_sorted l : StronglySorted key_le (stable_sort_by l).
Proof. induction l as [|x l IH]; cbn; [constructor | by apply insert_by_sorted]. Qed.

(** Sorting sorted elements changes nothing. *)
Lemma stable_sort_by_id l : StronglySorted key_le l -> stable_sort_by l = l.
Proof.
  unfold stable_sort_by. induction 1 as [|x l Hl IH Hx]; [done|]. cbn. rewrite IH. destruct l as [|y l]; [done|]. cbn.
  apply Forall_cons in Hx as [Hx _]. unfold key_le in Hx. rewrite (proj2 (Z.leb_le _ _)) by done. done.
Qed.

End stable_sort.
