(* ===== verification/ReadSafety.v ===== *)
(** * ReadSafety: the checks of the read path (include/nanolance/read_safety.hpp)

    Overflow-checked unsigned arithmetic, the slice bounds check every disk offset goes through, the
    byte-assembly integer load, the growth policy of the decode buffers and the read limits. *)

From S2P Require Import Prelude.

(** ** Read limits *)

(** [ReadLimits]: what a hostile file can make the reader allocate. *)
Record ReadLimits := {
  max_uncompressed_bytes : Z;
  max_rows_per_column : Z;
  max_columns : Z;
  max_manifest_elements : Z
}.

(** The limits a thread starts with. *)
Definition initial_read_limits : ReadLimits := {|
  max_uncompressed_bytes := Z.shiftl 8 30;
  max_rows_per_column := Z.shiftl 1 34;
  max_columns := Z.shiftl 1 20;
  max_manifest_elements := Z.shiftl 1 24
|}.

Definition trusted_read_limits : ReadLimits := {|
  max_uncompressed_bytes := U64_MAX;
  max_rows_per_column := U64_MAX;
  max_columns := 2 ^ 32 - 1;
  max_manifest_elements := U64_MAX
|}.

(** A computation that reads and may swap the thread's active limits. *)
Definition limited (A : Type) : Type := ReadLimits -> A * ReadLimits.

(** [ScopedReadLimits]: run [body] under [limits], then restore what was active before. *)
Definition with_scoped_limits {A} (limits : ReadLimits) (body : limited A) : limited A :=
  fun active =>
    let previous := active in
    let '(a, _) := body limits in
    (a, previous).

(** The most a zstd frame can expand. *)
Definition kZstdMaxExpansion : Z := 32768.

(** ** Checked arithmetic: [None] is [false] *)

Definition checked_add (a b : Z) : option Z :=
  if U64_MAX - b <? a then None else Some (u64 (a + b)).

Definition checked_mul (a b : Z) : option Z :=
  if negb (a =? 0) && (U64_MAX / a <? b) then None else Some (u64 (a * b)).

Definition fits_size_t (v : Z) : bool := v <=? U64_MAX.

Definition range_in_bounds (offset len total : Z) : bool :=
  match checked_add offset len with
  | Some end_ => end_ <=? total
  | None => false
  end.

(** [load_le<T>(p)] with [n = sizeof(T)] for an unsigned [T]; [p] has at least [n] bytes. *)
Definition load_le (n : nat) (p : list Z) : Z := le_value (take n p).

(** [reserve_more]: the capacity after making room for [extra] more elements. *)
Definition reserve_more (size capacity extra : Z) : Z :=
  let needed := size + extra in
  if capacity <? needed then
    (if capacity * 2 <? needed then needed else capacity * 2)
  else capacity.

(** ** Lemmas *)

Lemma checked_add_spec a b :
  is_u64 a -> is_u64 b ->
  checked_add a b = if a + b <? 2 ^ 64 then Some (a + b) else None.
Proof.
  unfold checked_add, is_u64, U64_MAX. intros Ha Hb.
  destruct (Z.ltb_spec (2 ^ 64 - 1 - b) a), (Z.ltb_spec (a + b) (2 ^ 64)); try lia; [done|].
  rewrite u64_small; [done | unfold is_u64; lia].
Qed.

Lemma checked_mul_spec a b :
  is_u64 a -> is_u64 b ->
  checked_mul a b = if a * b <? 2 ^ 64 then Some (a * b) else None.
Proof.
  unfold checked_mul, is_u64, U64_MAX. intros Ha Hb.
  destruct (Z.eqb_spec a 0) as [->|Hne]; [done|]. cbn [negb andb].
  pose proof (Z.div_mod (2 ^ 64 - 1) a Hne) as Hdm.
  pose proof (Z.mod_pos_bound (2 ^ 64 - 1) a ltac:(lia)) as Hm.
  destruct (Z.ltb_spec ((2 ^ 64 - 1) / a) b), (Z.ltb_spec (a * b) (2 ^ 64)); try nia; [done|].
  rewrite u64_small; [done | unfold is_u64; nia].
Qed.

Lemma checked_mul_Some a b c : 0 <= a -> 0 <= b -> checked_mul a b = Some c -> c = a * b /\ a * b < 2 ^ 64.
Proof.
  unfold checked_mul, U64_MAX. intros Ha Hb. destruct (Z.eqb_spec a 0) as [->|Hne]; [by intros [= <-]|]. cbn [negb andb].
  case_bool; [done|]. intros [= <-]. pose proof (Z.mul_div_le (2 ^ 64 - 1) a ltac:(lia)).
  assert (a * b < 2 ^ 64) by nia. rewrite u64_small by (unfold is_u64; nia). done.
Qed.

Lemma range_in_bounds_spec offset len total :
  is_u64 offset -> is_u64 len -> is_u64 total ->
  range_in_bounds offset len total = true <-> offset + len <= total.
Proof.
  intros Ho Hl Ht. unfold range_in_bounds. rewrite checked_add_spec by done.
  unfold is_u64 in *. destruct (Z.ltb_spec (offset + len) (2 ^ 64)).
  - apply Z.leb_le.
  - split; [done | lia].
Qed.

Lemma load_le_le_bytes n v rest :
  0 <= v < 2 ^ (8 * Z.of_nat n) -> load_le n (le_bytes n v ++ rest) = v.
Proof.
  intros Hv. unfold load_le.
  rewrite take_app_length' by (symmetry; apply length_le_bytes). by apply le_value_le_bytes.
Qed.

Lemma with_scoped_limits_restores {A} limits (body : limited A) active :
  (with_scoped_limits limits body active).2 = active.
Proof. unfold with_scoped_limits. by destruct (body limits). Qed.

(** ** Properties *)

Section Growth.

(** [n] single-element appends through [reserve_more]: the final capacity and how many elements the
    reallocations copied. *)
Fixpoint append_cost (n : nat) (size capacity : Z) : Z * Z :=
  match n with
  | O => (capacity, 0)
  | S n =>
      let capacity' := reserve_more size capacity 1 in
      let copied := if capacity' =? capacity then 0 else size in
      let '(final, rest) := append_cost n (size + 1) capacity' in
      (final, copied + rest)
  end.

Lemma append_cost_bound n size capacity :
  0 <= size <= capacity ->
  let '(final, copied) := append_cost n size capacity in
  size + Z.of_nat n <= final <= Z.max capacity (2 * (size + Z.of_nat n)) /\
  0 <= copied <= final - capacity.
Proof.
  revert size capacity. induction n as [|n IH]; intros size capacity H; cbn [append_cost].
  { lia. }
  assert (size + 1 <= reserve_more size capacity 1) as Hroom by (unfold reserve_more; repeat case_bool; lia).
  specialize (IH (size + 1) (reserve_more size capacity 1) ltac:(lia)).
  destruct (append_cost _ _ _) as [final copied].
  destruct (Z.eqb_spec (reserve_more size capacity 1) capacity) as [Heq|Hne]; [lia|].
  unfold reserve_more in *.
  destruct (Z.ltb_spec capacity (size + 1)), (Z.ltb_spec (capacity * 2) (size + 1)); lia.
Qed.

End Growth.

(** growing a decode buffer one element at a time through [reserve_more] copies, over [n]
    appends to an empty vector, at most [2 * n] elements in all: reading is linear in the column, where
    an exact [reserve] per append was quadratic. The buffer always has room for what was appended. *)
Theorem reserve_more_linear (n : nat) :
  let '(final, copied) := append_cost n 0 0 in
  Z.of_nat n <= final /\ copied <= 2 * Z.of_nat n.
Proof.
  pose proof (append_cost_bound n 0 0 ltac:(lia)) as H.
  destruct (append_cost n 0 0) as [final copied]. lia.
Qed.

(** the slice check the reader makes of every disk offset is exact: for 64-bit operands it
    accepts the slice if and only if the slice, computed without wrapping, ends inside the buffer -- so a
    size that would wrap around is refused, and no slice of the buffer is. *)
Theorem range_in_bounds_exact offset len total :
  is_u64 offset -> is_u64 len -> is_u64 total ->
  range_in_bounds offset len total = true <-> offset + len <= total.
Proof. apply range_in_bounds_spec. Qed.

Lemma range_in_bounds_exact_witness :
  range_in_bounds (2 ^ 64 - 8) 16 4096 = true <-> (2 ^ 64 - 8) + 16 <= 4096.
Proof. apply (range_in_bounds_exact (2 ^ 64 - 8) 16 4096); unfold is_u64; lia. Defined.
