(* ===== verification/ProtoWire.v ===== *)
(** * ProtoWire: the protobuf wire format (src/base/proto_wire.hpp)

    Writers append bytes; [Reader] iterates the fields of one message. A message here is the list of
    its bytes, and a writer is the function giving the bytes it appends. *)

From S2P Require Import Prelude.

(** ** Writers *)

(** [put_varint]: [fuel] is how often [v] can still be shifted; ten groups of seven bits hold any
    64-bit value, so nine continuations are enough ([put_varint_loop_fuel]). *)
Fixpoint put_varint_loop (fuel : nat) (v : Z) : list Z :=
  match fuel with
  | O => [u8 v]
  | S fuel =>
      if 128 <=? v then u8 (Z.lor v 128) :: put_varint_loop fuel (Z.shiftr v 7)
      else [u8 v]
  end.

Definition put_varint (v : Z) : list Z := put_varint_loop 9 v.

Definition put_key (field wire : Z) : list Z :=
  put_varint (Z.lor (u64 (Z.shiftl field 3)) wire).

Definition put_bytes_field (field : Z) (bytes : list Z) : list Z :=
  put_key field 2 ++ put_varint (zlen bytes) ++ bytes.

Definition put_u64_field (field v : Z) : list Z :=
  if v =? 0 then [] else put_key field 0 ++ put_varint v.

(** ** Reader *)

(** [Field]: [data] is [None] for the null pointer, else the [size] bytes it points at; [raw] is the
    field's whole encoding, [begin] to [end]. *)
Record Field := mkField {
  number : Z;
  wire : Z;
  value : Z;
  data : option (list Z);
  raw : list Z
}.

(** A default-constructed [Field]. *)
Definition Field0 : Field := mkField 0 0 0 None [].

(** [f.data, f.data + f.size], also when the pointer is null and the size is zero. *)
Definition field_bytes (f : Field) : list Z := default [] (data f).

(** [Reader]: the bytes from [at_] to [end_], and [ok_]. *)
Record Reader := mkReader { at_ : list Z; ok_ : bool }.

Definition Reader_new (bytes : list Z) : Reader := mkReader bytes true.

(** [Reader::varint]: whether it succeeded, [out], and the bytes left. [n] counts the shifts left
    below 70. *)
Fixpoint varint_loop (n : nat) (shift out : Z) (at_ : list Z) : bool * Z * list Z :=
  match n with
  | O => (false, out, at_)
  | S n =>
      match at_ with
      | [] => (false, out, [])
      | b :: rest =>
          let out := Z.lor out (u64 (Z.shiftl (Z.land b 127) shift)) in
          if Z.land b 128 =? 0 then (true, out, rest)
          else varint_loop n (shift + 7) out rest
      end
  end.

Definition varint (at_ : list Z) : bool * Z * list Z := varint_loop 10 0 0 at_.

(** [take_bytes n at_]: the [n] bytes at [at_] and what follows, when there are that many. *)
Definition take_bytes (n : Z) (at_ : list Z) : option (list Z * list Z) :=
  if zlen at_ <? n then None else Some (take (Z.to_nat n) at_, drop (Z.to_nat n) at_).

(** [Reader::next(f)]: the value returned, the reader and [f] after the call. [f] keeps the members
    the field's wire type does not set. *)
Definition next (r : Reader) (f : Field) : bool * Reader * Field :=
  match at_ r, ok_ r with
  | [], _ | _, false => (false, r, f)
  | begin, true =>
      let '(ok, key, rest) := varint begin in
      if negb ok then (false, mkReader rest false, mkField (number f) (wire f) (value f) (data f) (raw f))
      else
        let num := u32 (Z.shiftr key 3) in
        let wt := Z.land key 7 in
        let done_at rest value data :=
          (true, mkReader rest true,
           mkField num wt value data (take (length begin - length rest) begin)) in
        let failed rest value := (false, mkReader rest false, mkField num wt value (data f) (raw f)) in
        if wt =? 0 then
          let '(ok, v, rest) := varint rest in
          if ok then done_at rest v (data f) else failed rest v
        else if wt =? 1 then
          match take_bytes 8 rest with
          | Some (d, rest) => done_at rest (value f) (Some d)
          | None => failed rest (value f)
          end
        else if wt =? 2 then
          let '(ok, n, rest) := varint rest in
          if ok then
            match take_bytes n rest with
            | Some (d, rest) => done_at rest (value f) (Some d)
            | None => failed rest (value f)
            end
          else failed rest (value f)
        else if wt =? 5 then
          match take_bytes 4 rest with
          | Some (d, rest) => done_at rest (value f) (Some d)
          | None => failed rest (value f)
          end
        else failed rest (value f)
  end.

(** [while (r.next(f)) ...]: the fields the loop body sees, in order, and the reader when the loop
    ends. Every field takes at least one byte, so the number of bytes bounds the iterations. *)
Fixpoint fields_loop (fuel : nat) (r : Reader) (f : Field) : list Field * Reader :=
  match fuel with
  | O => ([], r)
  | S fuel =>
      match next r f with
      | (true, r', f') => let '(fs, r'') := fields_loop fuel r' f' in (f' :: fs, r'')
      | (false, r', _) => ([], r')
      end
  end.

(** The fields of a message, read into a fresh [Field], and [ok()] after the last. *)
Definition fields_from (f : Field) (bytes : list Z) : list Field * bool :=
  let '(fs, r) := fields_loop (S (length bytes)) (Reader_new bytes) f in (fs, ok_ r).
Definition fields (bytes : list Z) : list Field * bool := fields_from Field0 bytes.

(** The writers and readers stay folded in larger proofs. *)
Arguments put_varint : simpl never.
Arguments put_key : simpl never.
Arguments put_bytes_field : simpl never.
Arguments put_u64_field : simpl never.
Arguments varint : simpl never.
Arguments next : simpl never.
Arguments fields_from : simpl never.
Arguments fields : simpl never.

(** ** Varints *)

(** Ten groups of seven bits hold any 64-bit value: more fuel changes nothing. *)
Lemma put_varint_loop_fuel n k v :
  0 <= v < 2 ^ (7 * (Z.of_nat n + 1)) -> put_varint_loop (n + k) v = put_varint_loop n v.
Proof.
  revert v. induction n as [|n IH]; intros v Hv.
  - destruct k; [done|]. cbn [Nat.add put_varint_loop]. case_bool; [simpl in *; lia | done].
  - cbn [Nat.add put_varint_loop]. case_bool; [|done]. f_equal. apply IH.
    rewrite Z.shiftr_div_pow2 by lia.
    replace (7 * (Z.of_nat (S n) + 1)) with (7 + 7 * (Z.of_nat n + 1)) in Hv by lia.
    rewrite Z.pow_add_r in Hv by lia. change (2 ^ 7) with 128 in *.
    split; [apply Z.div_pos; lia | apply Z.div_lt_upper_bound; lia].
Qed.

Lemma put_varint_ok v : 0 <= v -> bytes_ok (put_varint v).
Proof.
  unfold put_varint. generalize 9%nat. intros n. revert v.
  induction n as [|n IH]; intros v Hv; cbn [put_varint_loop].
  - repeat constructor; apply u8_range.
  - case_bool; repeat constructor; try apply u8_range. apply IH. by apply Z.shiftr_nonneg.
Qed.

Lemma length_put_varint v : (1 <= length (put_varint v) <= 10)%nat.
Proof.
  unfold put_varint. cut (forall n v, (1 <= length (put_varint_loop n v) <= S n)%nat).
  { intros H. specialize (H 9%nat v). lia. }
  clear v. induction n as [|n IH]; intros v; cbn [put_varint_loop]; [simpl; lia|].
  case_bool; simpl; [|lia]. specialize (IH (Z.shiftr v 7)). lia.
Qed.

(** The group byte [put_varint] writes: its low bits, and its continuation bit. *)
Lemma group_byte v :
  0 <= v -> Z.land (u8 (Z.lor v 128)) 127 = v mod 128 /\ Z.land (u8 (Z.lor v 128)) 128 = 128.
Proof.
  intros Hv. unfold u8, wrap. rewrite <- Z.land_ones by lia.
  split; apply Z.bits_inj'; intros i Hi.
  - change 128 with (2 ^ 7) at 2. change 127 with (Z.ones 7). rewrite <- (Z.land_ones v) by lia.
    rewrite !Z.land_spec, Z.lor_spec. change 128 with (2 ^ 7). rewrite Z.pow2_bits_eqb by lia.
    rewrite !Z.testbit_ones_nonneg by lia.
    destruct (Z.ltb_spec i 7), (Z.ltb_spec i 8), (Z.eqb_spec 7 i); try lia; by rewrite ?orb_false_r, ?andb_true_r, ?andb_false_r.
  - change 128 with (2 ^ 7). rewrite !Z.land_spec, Z.lor_spec, !Z.pow2_bits_eqb by lia.
    rewrite Z.testbit_ones_nonneg by lia.
    destruct (Z.eqb_spec 7 i) as [<-|]; [|apply andb_false_r]. by rewrite orb_true_r.
Qed.

Lemma last_byte v : 0 <= v < 128 -> Z.land (u8 v) 127 = v /\ Z.land (u8 v) 128 = 0.
Proof.
  intros Hv. rewrite u8_small by (unfold is_u8; lia). split.
  - change 127 with (2 ^ 7 - 1). rewrite land_low by lia. apply Z.mod_small. lia.
  - apply Z.eqb_eq. change 128 with (2 ^ 7). rewrite land_pow2_testbit by lia.
    apply negb_true_iff. rewrite <- (Z.mod_small v (2 ^ 7)) by lia. by rewrite Z.mod_pow2_bits_high by lia.
Qed.

Lemma varint_loop_put n v shift out rest :
  0 <= v < 2 ^ (7 * (Z.of_nat n + 1)) -> 0 <= shift -> 0 <= out < 2 ^ shift -> out + v * 2 ^ shift < 2 ^ 64 ->
  varint_loop (S n) shift out (put_varint_loop n v ++ rest) = (true, out + v * 2 ^ shift, rest).
Proof.
  revert v shift out. induction n as [|n IH]; intros v shift out Hv Hs Ho Hsum.
  - change (2 ^ (7 * (Z.of_nat 0 + 1))) with 128 in Hv. cbn [put_varint_loop app varint_loop].
    destruct (last_byte v Hv) as [-> ->]. simpl.
    rewrite u64_small by (unfold is_u64; rewrite Z.shiftl_mul_pow2 by lia; nia).
    by rewrite lor_shiftl_add.
  - cbn [put_varint_loop]. destruct (Z.leb_spec 128 v).
    + cbn [app]. remember (S n) as m. cbn [varint_loop].
      destruct (group_byte v ltac:(lia)) as [-> ->]. cbn [Z.eqb].
      assert (v mod 128 * 2 ^ shift < 2 ^ 64) by (pose proof (Z.mod_le v 128); nia).
      rewrite u64_small
        by (unfold is_u64; rewrite Z.shiftl_mul_pow2 by lia; pose proof (Z.mod_pos_bound v 128); nia).
      rewrite lor_shiftl_add by lia. subst m.
      assert (2 ^ (shift + 7) = 128 * 2 ^ shift) as Hp by (rewrite Z.pow_add_r by lia; lia).
      pose proof (Z.mod_pos_bound v 128 ltac:(lia)). pose proof (Z.div_mod v 128 ltac:(lia)).
      assert (0 < 2 ^ shift) by (apply Z.pow_pos_nonneg; lia).
      rewrite IH.
      * rewrite Z.shiftr_div_pow2, Hp by lia. change (2 ^ 7) with 128. f_equal. f_equal. nia.
      * rewrite Z.shiftr_div_pow2 by lia.
        replace (7 * (Z.of_nat (S n) + 1)) with (7 + 7 * (Z.of_nat n + 1)) in Hv by lia.
        rewrite Z.pow_add_r in Hv by lia. change (2 ^ 7) with 128 in *.
        split; [apply Z.div_pos; lia | apply Z.div_lt_upper_bound; lia].
      * lia.
      * nia.
      * rewrite Z.shiftr_div_pow2, Hp by lia. change (2 ^ 7) with 128. nia.
    + cbn [app varint_loop]. destruct (last_byte v ltac:(lia)) as [-> ->]. simpl.
      rewrite u64_small by (unfold is_u64; rewrite Z.shiftl_mul_pow2 by lia; nia).
      by rewrite lor_shiftl_add.
Qed.

Lemma varint_put v rest : is_u64 v -> varint (put_varint v ++ rest) = (true, v, rest).
Proof.
  unfold is_u64. intros Hv. unfold varint, put_varint.
  rewrite (varint_loop_put 9 v 0 0) by (simpl; lia). by rewrite Z.pow_0_r, Z.mul_1_r.
Qed.

(** A varint read takes a prefix, at least one byte of it when it succeeds. *)
Lemma varint_loop_suffix n shift out bs ok v rest :
  varint_loop n shift out bs = (ok, v, rest) ->
  exists used, bs = used ++ rest /\ (ok = true -> used <> []).
Proof.
  revert shift out bs. induction n as [|n IH]; intros shift out bs; cbn [varint_loop].
  { intros [= <- <- <-]. by exists []. }
  destruct bs as [|b bs]; [intros [= <- <- <-]; by exists []|].
  case_bool; [intros [= <- <- <-]; by exists [b]|].
  intros (used & -> & _)%IH. by exists (b :: used).
Qed.

Lemma varint_suffix bs ok v rest :
  varint bs = (ok, v, rest) -> exists used, bs = used ++ rest /\ (ok = true -> used <> []).
Proof. apply varint_loop_suffix. Qed.

Lemma lor_u64 a b : is_u64 a -> is_u64 b -> is_u64 (Z.lor a b).
Proof.
  unfold is_u64. intros Ha Hb. split; [apply Z.lor_nonneg; lia|].
  apply Z.log2_lt_cancel. rewrite Z.log2_lor by lia. rewrite Z.log2_pow2 by lia.
  apply Z.max_lub_lt; destruct (Z.eq_dec a 0), (Z.eq_dec b 0); subst;
    try (apply Z.log2_lt_pow2; lia); rewrite ?Z.log2_nonpos by lia; lia.
Qed.

Lemma varint_loop_range n shift out bs ok v rest :
  is_u64 out -> varint_loop n shift out bs = (ok, v, rest) -> is_u64 v.
Proof.
  revert shift out bs. induction n as [|n IH]; intros shift out bs Ho; cbn [varint_loop].
  { by intros [= <- <- <-]. }
  destruct bs as [|b bs]; [by intros [= <- <- <-]|].
  pose proof (lor_u64 out (u64 (Z.shiftl (Z.land b 127) shift)) Ho (u64_range _)).
  case_bool; [by intros [= <- <- <-]|]. by apply IH.
Qed.

Lemma varint_range bs ok v rest : varint bs = (ok, v, rest) -> is_u64 v.
Proof. apply varint_loop_range. unfold is_u64. lia. Qed.

(** ** Keys *)

Definition field_number (n : Z) : Prop := 0 <= n < 2 ^ 29.

Lemma put_key_value n w :
  field_number n -> 0 <= w < 8 -> Z.lor (u64 (Z.shiftl n 3)) w = n * 8 + w.
Proof.
  intros Hn Hw. unfold field_number in Hn.
  rewrite u64_small by (unfold is_u64; rewrite Z.shiftl_mul_pow2 by lia; lia).
  rewrite Z.lor_comm, lor_shiftl_add by lia. lia.
Qed.

Lemma put_key_read n w rest :
  field_number n -> 0 <= w < 8 -> varint (put_key n w ++ rest) = (true, n * 8 + w, rest).
Proof.
  intros Hn Hw. unfold put_key. rewrite put_key_value by done.
  apply varint_put. unfold field_number, is_u64 in *. lia.
Qed.

Lemma key_number n w : field_number n -> 0 <= w < 8 -> u32 (Z.shiftr (n * 8 + w) 3) = n.
Proof.
  intros Hn Hw. unfold field_number in Hn. rewrite Z.shiftr_div_pow2 by lia. change (2 ^ 3) with 8.
  rewrite Z.div_add_l, (Z.div_small w 8), Z.add_0_r by lia. apply u32_small. unfold is_u32. lia.
Qed.

Lemma key_wire n w : 0 <= w < 8 -> Z.land (n * 8 + w) 7 = w.
Proof.
  intros Hw. change 7 with (2 ^ 3 - 1). rewrite land_low by lia. change (2 ^ 3) with 8.
  rewrite Z.add_comm, Z.mod_add by lia. apply Z.mod_small. lia.
Qed.

Lemma put_key_ne n w rest : put_key n w ++ rest <> [].
Proof.
  pose proof (length_put_varint (Z.lor (u64 (Z.shiftl n 3)) w)).
  unfold put_key. destruct (put_varint _); simpl in *; [lia | done].
Qed.

(** ** Fields *)

Lemma take_bytes_app (d rest : list Z) : take_bytes (zlen d) (d ++ rest) = Some (d, rest).
Proof.
  unfold take_bytes, zlen. rewrite length_app.
  destruct (Z.ltb_spec (Z.of_nat (length d + length rest)) (Z.of_nat (length d))); [lia|].
  by rewrite Nat2Z.id, take_app_length, drop_app_length.
Qed.

Lemma take_bytes_split n (bs d rest : list Z) : take_bytes n bs = Some (d, rest) -> bs = d ++ rest.
Proof. unfold take_bytes. case_bool; [done|]. intros [= <- <-]. by rewrite take_drop. Qed.

(** What [next] leaves in [f] for the field a writer wrote. *)
Definition bytes_field (f : Field) (n : Z) (b : list Z) : Field :=
  mkField n 2 (value f) (Some b) (put_bytes_field n b).
Definition u64_field (f : Field) (n v : Z) : Field :=
  mkField n 0 v (data f) (put_u64_field n v).

(** The bytes of the field just read are the ones before what is left. *)
Lemma raw_taken (x rest : list Z) : take (length (x ++ rest) - length rest) (x ++ rest) = x.
Proof. rewrite length_app. replace (length x + length rest - length rest)%nat with (length x) by lia. apply take_app_length. Qed.

Lemma next_bytes_field n b rest f :
  field_number n -> zlen b < 2 ^ 64 ->
  next (mkReader (put_bytes_field n b ++ rest) true) f = (true, mkReader rest true, bytes_field f n b).
Proof.
  intros Hn Hb. unfold next. cbn [at_ ok_].
  destruct (put_bytes_field n b ++ rest) as [|x l] eqn:El.
  { unfold put_bytes_field in El. rewrite <- !app_assoc in El. by apply put_key_ne in El. }
  rewrite <- El. clear x l El. unfold put_bytes_field at 1. rewrite <- !app_assoc.
  rewrite put_key_read by (done || lia). cbn [negb]. rewrite key_number, key_wire by (done || lia).
  cbn [Z.eqb Pos.eqb]. rewrite varint_put by (unfold is_u64; pose proof (zlen_nonneg b); lia).
  rewrite take_bytes_app. unfold bytes_field. by rewrite raw_taken.
Qed.

(** A varint field written with its key, also when the value is zero. *)
Definition varint_field (f : Field) (n v : Z) : Field := mkField n 0 v (data f) (put_key n 0 ++ put_varint v).

Lemma next_varint_field n v rest f :
  field_number n -> is_u64 v ->
  next (mkReader ((put_key n 0 ++ put_varint v) ++ rest) true) f = (true, mkReader rest true, varint_field f n v).
Proof.
  intros Hn Hv. unfold next. cbn [at_ ok_].
  destruct ((put_key n 0 ++ put_varint v) ++ rest) as [|x l] eqn:El.
  { rewrite <- app_assoc in El. by apply put_key_ne in El. }
  rewrite <- El. clear x l El. rewrite <- app_assoc at 1.
  rewrite put_key_read by (done || lia). cbn [negb]. rewrite key_number, key_wire by (done || lia).
  cbn [Z.eqb]. rewrite varint_put by done. unfold varint_field. by rewrite raw_taken.
Qed.

Lemma next_u64_field n v rest f :
  field_number n -> is_u64 v -> v <> 0 ->
  next (mkReader (put_u64_field n v ++ rest) true) f = (true, mkReader rest true, u64_field f n v).
Proof.
  intros Hn Hv Hv0. assert (put_u64_field n v = put_key n 0 ++ put_varint v) as Hw
    by (unfold put_u64_field; case_bool; [done | done]).
  unfold u64_field. rewrite Hw. by apply next_varint_field.
Qed.

(** What a successful [next] consumes: the field's own bytes, at least one. *)
Lemma next_consumes r f r' f' :
  next r f = (true, r', f') -> at_ r = raw f' ++ at_ r' /\ raw f' <> [] /\ ok_ r' = true.
Proof.
  destruct r as [bs ok]. unfold next. cbn [at_ ok_].
  destruct bs as [|x l]; [done|]. destruct ok; [|done].
  generalize (x :: l). clear x l. intros bs.
  destruct (varint bs) as [[okk key] rest] eqn:Ek. apply varint_suffix in Ek as (used & -> & Hne).
  destruct okk; [|done]. cbn [negb]. specialize (Hne eq_refl).
  assert (forall used2 rest2 num wt v d,
    (true, mkReader rest2 true, mkField num wt v d (take (length (used ++ used2 ++ rest2) - length rest2) (used ++ used2 ++ rest2)))
      = (true, r', f') ->
    used ++ used2 ++ rest2 = raw f' ++ at_ r' /\ raw f' <> [] /\ ok_ r' = true) as Hdone.
  { intros used2 rest2 num wt v d [= <- <-]. cbn [raw at_ ok_]. rewrite app_assoc, raw_taken.
    split; [done|]. split; [|done]. by destruct used. }
  repeat match goal with |- (if ?b then _ else _) = _ -> _ => destruct b; [|] end; try done.
  - destruct (varint rest) as [[ok2 v] rest2] eqn:E2. apply varint_suffix in E2 as (u2 & -> & _).
    destruct ok2; [apply Hdone | done].
  - destruct (take_bytes 8 rest) as [[d rest2]|] eqn:E2; [|done]. apply take_bytes_split in E2 as ->. apply Hdone.
  - destruct (varint rest) as [[ok2 v] rest2] eqn:E2. apply varint_suffix in E2 as (u2 & -> & _).
    destruct ok2; [|done]. destruct (take_bytes v rest2) as [[d rest3]|] eqn:E3; [|done].
    apply take_bytes_split in E3 as ->. rewrite (app_assoc u2). apply Hdone.
  - destruct (take_bytes 4 rest) as [[d rest2]|] eqn:E2; [|done]. apply take_bytes_split in E2 as ->. apply Hdone.
Qed.

Lemma next_length r f r' f' : next r f = (true, r', f') -> (length (at_ r') < length (at_ r))%nat.
Proof.
  intros (-> & Hne & _)%next_consumes. rewrite length_app. destruct (raw f'); [done | simpl; lia].
Qed.

(** The loop's iterations are bounded by the bytes left: more fuel changes nothing. *)
Lemma fields_loop_fuel n1 n2 r f :
  (length (at_ r) < n1)%nat -> (length (at_ r) < n2)%nat -> fields_loop n1 r f = fields_loop n2 r f.
Proof.
  revert n2 r f. induction n1 as [|n1 IH]; intros n2 r f H1 H2; [lia|].
  destruct n2 as [|n2]; [lia|]. cbn [fields_loop].
  destruct (next r f) as [[[] r'] f'] eqn:E; [|done].
  apply next_length in E. by rewrite (IH n2) by lia.
Qed.

Lemma fields_from_step f bs rest f' :
  next (Reader_new bs) f = (true, mkReader rest true, f') ->
  fields_from f bs = let '(fs, ok) := fields_from f' rest in (f' :: fs, ok).
Proof.
  intros H. unfold fields_from. remember (S (length rest)) as m eqn:Em. cbn [fields_loop]. rewrite H.
  apply next_length in H. cbn [at_ Reader_new] in H.
  rewrite (fields_loop_fuel (length bs) m) by (simpl in *; lia).
  unfold Reader_new. by destruct (fields_loop m _ _).
Qed.

Lemma fields_nil f : fields_from f [] = ([], true).
Proof. done. Qed.

Lemma fields_bytes_field f n b rest :
  field_number n -> zlen b < 2 ^ 64 ->
  fields_from f (put_bytes_field n b ++ rest) =
  let '(fs, ok) := fields_from (bytes_field f n b) rest in (bytes_field f n b :: fs, ok).
Proof. intros. by apply fields_from_step, next_bytes_field. Qed.

Lemma fields_u64_field f n v rest :
  field_number n -> is_u64 v -> v <> 0 ->
  fields_from f (put_u64_field n v ++ rest) =
  let '(fs, ok) := fields_from (u64_field f n v) rest in (u64_field f n v :: fs, ok).
Proof. intros. by apply fields_from_step, next_u64_field. Qed.

Lemma fields_varint_field f n v :
  field_number n -> is_u64 v -> fields_from f (put_key n 0 ++ put_varint v) = ([varint_field f n v], true).
Proof.
  intros. rewrite <- (app_nil_r (put_key n 0 ++ put_varint v)).
  by rewrite (fields_from_step _ _ _ _ (next_varint_field n v [] f ltac:(done) ltac:(done))).
Qed.

Lemma put_u64_field_0 n : put_u64_field n 0 = [].
Proof. done. Qed.

(** A proto3 default is not written. *)
Lemma fields_u64_field_opt f n v rest :
  field_number n -> is_u64 v ->
  fields_from f (put_u64_field n v ++ rest) =
  if v =? 0 then fields_from f rest
  else let '(fs, ok) := fields_from (u64_field f n v) rest in (u64_field f n v :: fs, ok).
Proof.
  intros Hn Hv. destruct (Z.eqb_spec v 0) as [->|Hv0]; [done | by apply fields_u64_field].
Qed.

Lemma fields_single f n b :
  field_number n -> zlen b < 2 ^ 64 -> fields_from f (put_bytes_field n b) = ([bytes_field f n b], true).
Proof. intros. rewrite <- (app_nil_r (put_bytes_field n b)), fields_bytes_field by done. done. Qed.

Lemma next_single f n b :
  field_number n -> zlen b < 2 ^ 64 ->
  next (Reader_new (put_bytes_field n b)) f = (true, mkReader [] true, bytes_field f n b).
Proof. intros. rewrite <- (app_nil_r (put_bytes_field n b)). by apply next_bytes_field. Qed.

Lemma zlen_put_varint v : 1 <= zlen (put_varint v) <= 10.
Proof. pose proof (length_put_varint v). unfold zlen. lia. Qed.

Lemma zlen_put_bytes_field n b : zlen b < zlen (put_bytes_field n b) <= 20 + zlen b.
Proof.
  unfold put_bytes_field, put_key. rewrite !zlen_app.
  pose proof (zlen_put_varint (Z.lor (u64 (Z.shiftl n 3)) 2)). pose proof (zlen_put_varint (zlen b)). lia.
Qed.

Lemma zlen_put_u64_field n v : 0 <= zlen (put_u64_field n v) <= 20.
Proof.
  unfold put_u64_field, put_key. case_bool; [done|]. rewrite !zlen_app.
  pose proof (zlen_put_varint (Z.lor (u64 (Z.shiftl n 3)) 0)). pose proof (zlen_put_varint v). lia.
Qed.

(** Everything the reader took before it stopped is the fields it returned, in order. *)
Lemma fields_loop_raw n r f fs r' :
  fields_loop n r f = (fs, r') -> ok_ r = true -> (length (at_ r) < n)%nat -> ok_ r' = true ->
  concat (raw <$> fs) = at_ r.
Proof.
  revert r f fs. induction n as [|n IH]; intros r f fs; [lia|]. cbn [fields_loop].
  destruct (next r f) as [[[] r1] f1] eqn:E.
  - destruct (fields_loop n r1 f1) as [fs1 r2] eqn:E2. intros [= <- <-] Hok Hlen Hok'.
    pose proof (next_length _ _ _ _ E). apply next_consumes in E as (-> & _ & Hok1).
    cbn [fmap list_fmap concat]. f_equal. eapply IH; [done | done | lia | done].
  - intros [= <- <-] Hok Hlen Hok'. destruct r as [bs ok]. cbn in *. subst ok.
    unfold next in E. cbn [at_ ok_] in E. destruct bs as [|x l]; [done|]. exfalso.
    revert E Hok'. generalize (x :: l). clear. intros bs.
    destruct (varint bs) as [[okk key] rest]. destruct okk; cbn [negb]; [|by intros [= <- <-]].
    repeat match goal with |- (if ?b then _ else _) = _ -> _ => destruct b; [|] end;
      repeat match goal with
      | |- context [varint ?x] => destruct (varint x) as [[[] ?] ?]
      | |- context [take_bytes ?n ?x] => destruct (take_bytes n x) as [[? ?]|]
      end; by intros [= <- <-].
Qed.

Lemma fields_concat_raw bytes fs : fields bytes = (fs, true) -> concat (raw <$> fs) = bytes.
Proof.
  unfold fields, fields_from. destruct (fields_loop _ _ _) as [fs' r] eqn:E. intros [= -> Hr].
  by apply fields_loop_raw in E; [| |simpl; lia|].
Qed.

Lemma fields_loop_raw_le n r f : zlen (concat (raw <$> (fields_loop n r f).1)) <= zlen (at_ r).
Proof.
  revert r f. induction n as [|n IH]; intros r f; cbn [fields_loop]; [apply zlen_nonneg|].
  destruct (next r f) as [[[] r1] f1] eqn:E; [|apply zlen_nonneg].
  specialize (IH r1 f1). destruct (fields_loop n r1 f1) as [fs r2]. apply next_consumes in E as (-> & _ & _).
  cbn [fst] in *. rewrite fmap_cons. cbn [concat]. rewrite !zlen_app. lia.
Qed.

(** A message as a list of written fields. *)
Inductive wfield :=
  | WBytes (n : Z) (b : list Z)
  | WU64 (n v : Z).

Definition put_wfield (w : wfield) : list Z :=
  match w with WBytes n b => put_bytes_field n b | WU64 n v => put_u64_field n v end.

Definition wfield_ok (w : wfield) : Prop :=
  match w with
  | WBytes n b => field_number n /\ zlen b < 2 ^ 64
  | WU64 n v => field_number n /\ is_u64 v /\ v <> 0
  end.

(** What a reader sees of a field: number and payload. *)
Definition field_view (f : Field) : wfield :=
  if wire f =? 2 then WBytes (number f) (field_bytes f) else WU64 (number f) (value f).

Lemma fields_wfields f ws :
  Forall wfield_ok ws ->
  exists fs, fields_from f (concat (put_wfield <$> ws)) = (fs, true) /\ field_view <$> fs = ws.
Proof.
  intros H. revert f. induction H as [|w ws Hw Hws IH]; intros f; [by exists []|].
  cbn [fmap list_fmap concat]. destruct w as [n b | n v]; cbn [put_wfield wfield_ok] in *.
  - destruct Hw as [Hn Hb]. rewrite fields_bytes_field by done.
    destruct (IH (bytes_field f n b)) as (fs & -> & Hfs). eexists. split; [done|].
    cbn. by rewrite Hfs.
  - destruct Hw as (Hn & Hv & Hv0). rewrite fields_u64_field by done.
    destruct (IH (u64_field f n v)) as (fs & -> & Hfs). eexists. split; [done|].
    cbn. by rewrite Hfs.
Qed.

(** ** Fields on their own

    A field the reader accepted is accepted again wherever its bytes are copied to. *)

Lemma varint_loop_local n shift out bs v rest :
  varint_loop n shift out bs = (true, v, rest) ->
  exists used, bs = used ++ rest /\ forall rest', varint_loop n shift out (used ++ rest') = (true, v, rest').
Proof.
  revert shift out bs. induction n as [|n IH]; intros shift out bs; cbn [varint_loop]; [done|].
  destruct bs as [|b bs]; [done|]. case_bool.
  - intros [= <- <-]. exists [b]. split; [done|]. intros rest'. cbn. by rewrite E.
  - intros (used & -> & H)%IH. exists (b :: used). split; [done|]. intros rest'.
    rewrite <- app_comm_cons. apply Z.eqb_neq in E. by rewrite E.
Qed.

Lemma varint_local bs v rest :
  varint bs = (true, v, rest) -> exists used, bs = used ++ rest /\ forall rest', varint (used ++ rest') = (true, v, rest').
Proof. apply varint_loop_local. Qed.

Lemma take_bytes_local n (bs d rest : list Z) :
  take_bytes n bs = Some (d, rest) -> 0 <= n -> bs = d ++ rest /\ forall rest', take_bytes n (d ++ rest') = Some (d, rest').
Proof.
  intros H Hn. pose proof (take_bytes_split _ _ _ _ H) as Hs. split; [done|]. intros rest'.
  assert (n = zlen d) as ->; [|apply take_bytes_app].
  unfold take_bytes in H. case_hyp H. injection H as Hd _. rewrite <- Hd. unfold zlen in *. rewrite length_take. lia.
Qed.

(** [f] without what its wire type did not set: the same wherever the field stands. *)
Definition field_key (f : Field) : Field :=
  mkField (number f) (wire f) (if wire f =? 0 then value f else 0) (if wire f =? 0 then None else data f) (raw f).

(** The bytes of [f] read as [f] before any continuation. *)
Definition whole (f : Field) : Prop :=
  raw f <> [] /\
  forall g rest, exists f', next (mkReader (raw f ++ rest) true) g = (true, mkReader rest true, f') /\ field_key f' = field_key f.

(** Unfolds [next] on bytes [bs] known not to be empty. *)
Ltac open_next bs tac :=
  let Eb := fresh "Eb" in destruct bs eqn:Eb; [exfalso; revert Eb; tac | rewrite <- Eb in *; clear Eb].

Lemma next_whole r f r' f' : next r f = (true, r', f') -> whole f'.
Proof.
  intros H. pose proof (next_consumes _ _ _ _ H) as (_ & Hne & _). split; [done|]. intros g rest'.
  revert H. destruct r as [bs ok]. unfold next at 1. cbn [at_ ok_].
  destruct bs as [|x l]; [done|]. destruct ok; [|done].
  generalize (x :: l). clear x l. intros bs.
  destruct (varint bs) as [[okk key] rest] eqn:Ek. destruct okk; [|done]. cbn [negb].
  apply varint_local in Ek as (used & -> & Hk).
  assert (forall u2 rest2, take (length (used ++ u2 ++ rest2) - length rest2) (used ++ u2 ++ rest2) = used ++ u2) as Hraw
    by (intros; by rewrite app_assoc, raw_taken).
  assert (forall u2 rest2 num wt v d, (true, mkReader rest2 true,
      mkField num wt v d (take (length (used ++ u2 ++ rest2) - length rest2) (used ++ u2 ++ rest2))) = (true, r', f') ->
    f' = mkField num wt v d (used ++ u2)) as Hinv.
  { intros u2 rest2 num wt v d [= _ <-]. by rewrite Hraw. }
  unfold next. cbn [at_ ok_].
  repeat match goal with |- (if ?b then _ else _) = _ -> _ => destruct b eqn:?; [|] end; try done.
  - destruct (varint rest) as [[[] v] rest2] eqn:E2; [|done]. apply varint_local in E2 as (u2 & -> & H2).
    intros ->%Hinv. cbn [raw]. rewrite <- app_assoc.
    open_next (used ++ u2 ++ rest') ltac:(by destruct used, u2). rewrite Hk. cbn [negb]. rewrite Heqb, H2. eexists. split; [done|].
    unfold field_key. cbn. by rewrite Hraw, ?Heqb, ?Heqb0, ?Heqb1, ?Heqb2.
  - destruct (take_bytes 8 rest) as [[d rest2]|] eqn:E2; [|done]. apply take_bytes_local in E2 as (-> & H2); [|lia].
    intros ->%Hinv. cbn [raw]. rewrite <- app_assoc.
    open_next (used ++ d ++ rest') ltac:(by destruct used, d). rewrite Hk. cbn [negb]. rewrite Heqb, Heqb0, H2. eexists. split; [done|].
    unfold field_key. cbn. by rewrite Hraw, ?Heqb, ?Heqb0, ?Heqb1, ?Heqb2.
  - destruct (varint rest) as [[[] v] rest2] eqn:E2; [|done]. pose proof (varint_range _ _ _ _ E2) as Hv.
    apply varint_local in E2 as (u2 & -> & H2).
    destruct (take_bytes v rest2) as [[d rest3]|] eqn:E3; [|done].
    apply take_bytes_local in E3 as (-> & H3); [|unfold is_u64 in Hv; lia]. rewrite (app_assoc u2).
    intros ->%Hinv. cbn [raw]. rewrite <- !app_assoc.
    open_next (used ++ u2 ++ d ++ rest') ltac:(by destruct used, u2, d). rewrite Hk. cbn [negb]. rewrite Heqb, Heqb0, Heqb1, H2, H3. eexists. split; [done|].
    unfold field_key. cbn. by rewrite (app_assoc u2), Hraw, Heqb.
  - destruct (take_bytes 4 rest) as [[d rest2]|] eqn:E2; [|done]. apply take_bytes_local in E2 as (-> & H2); [|lia].
    intros ->%Hinv. cbn [raw]. rewrite <- app_assoc.
    open_next (used ++ d ++ rest') ltac:(by destruct used, d). rewrite Hk. cbn [negb]. rewrite Heqb, Heqb0, Heqb1, Heqb2, H2. eexists. split; [done|].
    unfold field_key. cbn. by rewrite Hraw, ?Heqb, ?Heqb0, ?Heqb1, ?Heqb2.
Qed.

Lemma fields_loop_whole n r f : Forall whole (fields_loop n r f).1.
Proof.
  revert r f. induction n as [|n IH]; intros r f; cbn [fields_loop]; [constructor|].
  destruct (next r f) as [[[] r1] f1] eqn:E; [|constructor].
  specialize (IH r1 f1). destruct (fields_loop n r1 f1). constructor; [by eapply next_whole | done].
Qed.

Lemma fields_whole bytes : Forall whole (fields bytes).1.
Proof.
  unfold fields, fields_from. pose proof (fields_loop_whole (S (length bytes)) (Reader_new bytes) Field0).
  by destruct (fields_loop _ _ _).
Qed.

(** Copied fields are read back, up to the members a wire type does not set, and the rest of the
    message after them. *)
Lemma fields_copied fs g rest :
  Forall whole fs ->
  exists fs' g', field_key <$> fs' = field_key <$> fs /\
    fields_from g (concat (raw <$> fs) ++ rest) = (let '(gs, ok) := fields_from g' rest in (fs' ++ gs, ok)).
Proof.
  intros Hw. revert g. induction Hw as [|f fs [Hne Hf] Hw IH]; intros g.
  { exists [], g. split; [done|]. cbn. by destruct (fields_from g rest). }
  rewrite !fmap_cons. cbn [concat]. rewrite <- app_assoc.
  destruct (Hf g (concat (raw <$> fs) ++ rest)) as (f' & Hn & Hk). destruct (IH f') as (fs' & g' & Hfs & Hrest).
  exists (f' :: fs'), g'. split; [by rewrite fmap_cons, Hk, Hfs|].
  rewrite (fields_from_step _ _ _ _ Hn), Hrest. by destruct (fields_from g' rest).
Qed.

(** ** Rewriting unknown fields

    Several components keep part of their state in the unknown fields of a message: they drop the fields
    with some numbers and append new ones. *)

(** The fields of [u] whose numbers are not in [dropped]. *)
Definition kept (dropped : list Z) (u : list Z) : list Field := filter (fun f => number f ∉ dropped) (fields u).1.

(** [u] without the fields numbered in [dropped]: the whole of each other field, in order. *)
Definition without_fields (u dropped : list Z) : list Z := concat (raw <$> kept dropped u).

Lemma kept_whole dropped u : Forall whole (kept dropped u).
Proof.
  apply Forall_forall. intros f [_ H]%list_elem_of_filter. pose proof (fields_whole u) as Hw. rewrite Forall_forall in Hw. auto.
Qed.

Lemma kept_numbers dropped u : Forall (fun f => number f ∉ dropped) (kept dropped u).
Proof. apply Forall_forall. intros f [H _]%list_elem_of_filter. done. Qed.

Lemma keys_project {B} (p : Field -> B) (fs fs' : list Field) :
  (forall f, p (field_key f) = p f) -> field_key <$> fs' = field_key <$> fs -> p <$> fs' = p <$> fs.
Proof.
  intros Hp H. rewrite <- (list_fmap_ext (fun f => p (field_key f)) p fs'), <- (list_fmap_ext (fun f => p (field_key f)) p fs) by auto.
  rewrite !(list_fmap_compose field_key p). by rewrite H.
Qed.

Lemma keys_numbers (P : Z -> Prop) (fs fs' : list Field) :
  field_key <$> fs' = field_key <$> fs -> Forall (fun f => P (number f)) fs -> Forall (fun f => P (number f)) fs'.
Proof.
  intros H. apply (keys_project number) in H; [|done]. 
  rewrite <- (Forall_fmap number P fs), <- (Forall_fmap number P fs'). by rewrite H.
Qed.

Lemma kept_of_keys dropped u (fs : list Field) :
  field_key <$> fs = field_key <$> kept dropped u -> Forall (fun f => number f ∉ dropped) fs.
Proof. intros Hk. apply (keys_numbers (fun n => n ∉ dropped) _ _ Hk), kept_numbers. Qed.

Lemma filter_kept (dropped : list Z) (fs : list Field) :
  Forall (fun f => number f ∉ dropped) fs -> filter (fun f => number f ∉ dropped) fs = fs.
Proof. induction 1 as [|f fs Hf Hfs IH]; [done|]. by rewrite filter_cons_True, IH. Qed.

Lemma filter_dropped (dropped : list Z) (fs : list Field) :
  Forall (fun f => number f ∈ dropped) fs -> filter (fun f => number f ∉ dropped) fs = [].
Proof. induction 1 as [|f fs Hf Hfs IH]; [done|]. rewrite filter_cons_False by (intros Hn; by apply Hn). done. Qed.

(** What is kept is no longer than the message. *)
Lemma zlen_without_fields u dropped : zlen (without_fields u dropped) <= zlen u.
Proof.
  unfold without_fields, kept. assert (zlen (concat (raw <$> (fields u).1)) <= zlen u) as H.
  { unfold fields, fields_from. pose proof (fields_loop_raw_le (S (length u)) (Reader_new u) Field0) as H. by destruct (fields_loop _ _ _). }
  etrans; [|exact H]. clear H. induction (fields u).1 as [|f fs IH]; [done|]. rewrite filter_cons, fmap_cons. cbn [concat]. rewrite zlen_app.
  pose proof (zlen_nonneg (raw f)). case_decide; [rewrite fmap_cons; cbn [concat]; rewrite zlen_app|]; lia.
Qed.

(** The fields of the rewritten bytes: the kept ones, then those of what was appended, read from some
    leftover [g]. *)
Lemma fields_rewritten dropped u rest :
  exists fs g, field_key <$> fs = field_key <$> kept dropped u /\ Forall (fun f => number f ∉ dropped) fs /\
    fields (without_fields u dropped ++ rest) = (let '(gs, ok) := fields_from g rest in (fs ++ gs, ok)).
Proof.
  destruct (fields_copied (kept dropped u) Field0 rest (kept_whole dropped u)) as (fs & g & Hk & Hf).
  exists fs, g. split_and!; [done | by eapply kept_of_keys | done].
Qed.

(** Appending only fields that are dropped keeps what is kept. *)
Lemma without_fields_appended dropped u fs gs w ok :
  fields w = (fs ++ gs, ok) -> field_key <$> fs = field_key <$> kept dropped u ->
  Forall (fun f => number f ∈ dropped) gs -> without_fields w dropped = without_fields u dropped.
Proof.
  intros Hw Hk Hg. unfold without_fields. unfold kept at 1. rewrite Hw. cbn [fst].
  rewrite filter_app, (filter_dropped dropped gs), app_nil_r, (filter_kept dropped fs) by (done || by eapply kept_of_keys).
  by rewrite (keys_project raw _ _ (fun _ => eq_refl) Hk).
Qed.

(** A loop body that ignores the dropped numbers and depends on no leftover sees the same message. *)
Lemma foldl_rewritten {A} (body : A -> Field -> A) dropped u fs a :
  (forall a f, body a (field_key f) = body a f) -> (forall a f, number f ∈ dropped -> body a f = a) ->
  field_key <$> fs = field_key <$> kept dropped u -> foldl body a fs = foldl body a (fields u).1.
Proof.
  intros Hb Hd Hk.
  assert (forall gs a, foldl body a (field_key <$> gs) = foldl body a gs) as Hn.
  { clear -Hb. induction gs as [|g gs IH]; intros a; [done|]. rewrite fmap_cons. cbn. by rewrite Hb, IH. }
  rewrite <- Hn, Hk, Hn. unfold kept. clear -Hd. revert a. induction (fields u).1 as [|f gs IH]; intros a; [done|].
  rewrite filter_cons. case_decide as Hin; cbn [foldl]; [done|]. rewrite IH. f_equal. symmetry. apply Hd.
  destruct (decide (number f ∈ dropped)); [done|]. by exfalso.
Qed.

Lemma fold_res_keys {A} (body : A -> Field -> res A) (fs fs' : list Field) a :
  (forall a f, body a (field_key f) = body a f) -> field_key <$> fs' = field_key <$> fs ->
  fold_res body fs' a = fold_res body fs a.
Proof.
  intros Hb Hk. assert (forall gs a, fold_res body (field_key <$> gs) a = fold_res body gs a) as Hn.
  { clear -Hb. induction gs as [|g gs IH]; intros a; [done|]. rewrite fmap_cons. cbn. rewrite Hb. destruct (body a g); [apply IH | done]. }
  by rewrite <- Hn, Hk, Hn.
Qed.

Lemma fold_res_skip {A} (body : A -> Field -> res A) (dropped : list Z) (fs : list Field) a :
  (forall a f, number f ∉ dropped -> body a f = Ok a) -> Forall (fun f => number f ∉ dropped) fs ->
  fold_res body fs a = Ok a.
Proof. intros Hb H. revert a. induction H as [|f fs Hf H IH]; intros a; [done|]. cbn. rewrite Hb by done. apply IH. Qed.

(** ** Properties *)

(** a varint written by [put_varint] and read by [Reader::varint] is the same 64-bit
    value, for every value and whatever bytes follow it; the read stops exactly after the write. *)
Theorem varint_roundtrip v rest : is_u64 v -> varint (put_varint v ++ rest) = (true, v, rest).
Proof. apply varint_put. Qed.

Lemma varint_roundtrip_witness :
  varint (put_varint (2 ^ 64 - 1) ++ [7]) = (true, 2 ^ 64 - 1, [7]).
Proof. apply (varint_roundtrip (2 ^ 64 - 1) [7]). unfold is_u64. lia. Defined.

(** the fields a message is written from ([put_bytes_field], [put_u64_field]) are the
    fields [Reader::next] iterates, in order, with the same numbers and payloads, and the reader ends
    with [ok()]. *)
Theorem message_roundtrip ws :
  Forall wfield_ok ws ->
  exists fs, fields (concat (put_wfield <$> ws)) = (fs, true) /\ field_view <$> fs = ws.
Proof. apply fields_wfields. Qed.

Lemma message_roundtrip_witness :
  exists fs, fields (concat (put_wfield <$> [WU64 1 300; WBytes 5 [1; 2; 3]; WBytes 7 []])) = (fs, true) /\
    field_view <$> fs = [WU64 1 300; WBytes 5 [1; 2; 3]; WBytes 7 []].
Proof.
  apply (message_roundtrip [WU64 1 300; WBytes 5 [1; 2; 3]; WBytes 7 []]).
  repeat constructor; vm_compute; congruence.
Defined.

(** the byte ranges [begin, end) of the fields of a well-formed message, in order,
    are the message: no byte is skipped and none is read twice, so copying the fields one wants to keep
    (as the rewriting of a fragment's unknown fields does) keeps exactly their bytes. *)
Theorem fields_partition bytes fs :
  fields bytes = (fs, true) -> concat (raw <$> fs) = bytes.
Proof. apply fields_concat_raw. Qed.

Lemma fields_partition_witness :
  concat (raw <$> (fields [8; 172; 2; 18; 1; 9]).1) = [8; 172; 2; 18; 1; 9].
Proof. apply (fields_partition [8; 172; 2; 18; 1; 9]). vm_compute. reflexivity. Defined.
