(* ===== verification/Roaring.v ===== *)
(** * Roaring: portable Roaring bitmaps (src/base/roaring_bitmap.cpp)

    32-bit bitmaps read and written as ascending id lists, and the 64-bit treemaps over them. The
    position [r.at] of the C++ reader is the list of the bytes from it to the end, so [size - r.at] is
    that list's length. *)

From S2P Require Import Prelude ProtoWire.

Module Roaring.

Definition kCookieNoRuns : Z := 12346.
Definition kCookie : Z := 12347.
Definition kNoOffsetThreshold : Z := 4.
Definition kArrayMax : Z := 4096.
Definition kBitmapBytes : Z := 8192.

(** ** Reader *)

Definition get_u16 (at_ : list Z) : option (Z * list Z) :=
  match at_ with
  | b0 :: b1 :: rest => Some (u16 (Z.lor b0 (Z.shiftl b1 8)), rest)
  | _ => None
  end.

Definition get_u32 (at_ : list Z) : option (Z * list Z) :=
  match at_ with
  | b0 :: b1 :: b2 :: b3 :: rest =>
      Some (Z.lor (Z.lor (Z.lor b0 (Z.shiftl b1 8)) (Z.shiftl b2 16)) (Z.shiftl b3 24), rest)
  | _ => None
  end.

Definition skip (n : Z) (at_ : list Z) : option (list Z) :=
  if zlen at_ <? n then None else Some (drop (Z.to_nat n) at_).

(** ** Writers *)

Definition put16 (v : Z) : list Z := [u8 (Z.land v 255); u8 (Z.land (Z.shiftr v 8) 255)].
Definition put32 (v : Z) : list Z := put16 (Z.land v 65535) ++ put16 (Z.shiftr v 16).

(** ** decode_prefix *)

(** The cookie, the container count, the run flags and whether offsets follow. *)
Definition decode_cookie (data : list Z) : res (Z * list Z * bool * list Z) :=
  match get_u32 data with
  | None => Err "roaring bitmap: no cookie"
  | Some (cookie, at_) =>
      if cookie =? kCookieNoRuns then
        match get_u32 at_ with
        | None => Err "roaring bitmap: no container count"
        | Some (containers, at_) => Ok (containers, [], true, at_)
        end
      else if Z.land cookie 65535 =? kCookie then
        let containers := Z.shiftr cookie 16 + 1 in
        let flag_bytes := (containers + 7) / 8 in
        match take_bytes flag_bytes at_ with
        | None => Err "roaring bitmap: truncated run flags"
        | Some (run_flags, at_) => Ok (containers, run_flags, kNoOffsetThreshold <=? containers, at_)
        end
      else Err ("roaring bitmap: unknown cookie " +:+ pretty cookie)
  end.

(** The descriptive header: [n] more (key, cardinality) pairs after the key [prev]. *)
Fixpoint decode_headers (n : nat) (prev : option Z) (at_ : list Z) : res (list (Z * Z) * list Z) :=
  match n with
  | O => Ok ([], at_)
  | S n =>
      match get_u16 at_ with
      | None => Err "roaring bitmap: truncated header"
      | Some (key, at_) =>
          match get_u16 at_ with
          | None => Err "roaring bitmap: truncated header"
          | Some (card_minus_one, at_) =>
              if match prev with Some p => key <=? p | None => false end
              then Err "roaring bitmap: container keys out of order"
              else
                '(hs, at_) ← decode_headers n (Some key) at_;
                Ok ((key, card_minus_one + 1) :: hs, at_)
          end
      end
  end.

(** The runs of a run container; [previous_end] is [None] before the first. *)
Fixpoint decode_runs (n : nat) (high : Z) (previous_end : option Z) (at_ : list Z)
    : res (list Z * list Z) :=
  match n with
  | O => Ok ([], at_)
  | S n =>
      match get_u16 at_ with
      | None => Err "roaring bitmap: truncated run container"
      | Some (start, at_) =>
          match get_u16 at_ with
          | None => Err "roaring bitmap: truncated run container"
          | Some (length_minus_one, at_) =>
              let end_ := start + length_minus_one in
              if (65535 <? end_) || match previous_end with Some p => start <=? p | None => false end
              then Err "roaring bitmap: malformed run"
              else
                '(vs, at_) ← decode_runs n high (Some end_) at_;
                Ok ((Z.lor high <$> seqZ start (length_minus_one + 1)) ++ vs, at_)
          end
      end
  end.

(** The values of an array container; [back] is [out.back()], [None] for the first. *)
Fixpoint decode_array (n : nat) (high : Z) (back : option Z) (at_ : list Z) : res (list Z * list Z) :=
  match n with
  | O => Ok ([], at_)
  | S n =>
      match get_u16 at_ with
      | None => Err "roaring bitmap: truncated array container"
      | Some (v, at_) =>
          if match back with Some b => Z.lor high v <=? b | None => false end
          then Err "roaring bitmap: array container out of order"
          else
            '(vs, at_) ← decode_array n high (Some (Z.lor high v)) at_;
            Ok (Z.lor high v :: vs, at_)
      end
  end.

(** [(bits[v / 8] & (1 << (v % 8))) != 0]. *)
Definition bit_at (bits : list Z) (v : Z) : bool :=
  negb (Z.land (nth (Z.to_nat (v / 8)) bits 0) (Z.shiftl 1 (v mod 8)) =? 0).

Definition decode_bitmap (high : Z) (at_ : list Z) : res (list Z * list Z) :=
  match take_bytes kBitmapBytes at_ with
  | None => Err "roaring bitmap: truncated bitmap container"
  | Some (bits, at_) => Ok (Z.lor high <$> filter (fun v => bit_at bits v = true) (seqZ 0 65536), at_)
  end.

Definition decode_container (run : bool) (high cardinality : Z) (at_ : list Z) : res (list Z * list Z) :=
  if run then
    match get_u16 at_ with
    | None => Err "roaring bitmap: truncated run container"
    | Some (runs, at_) => decode_runs (Z.to_nat runs) high None at_
    end
  else if cardinality <=? kArrayMax then decode_array (Z.to_nat cardinality) high None at_
  else decode_bitmap high at_.

(** The containers from index [c] on: the values they append, and what follows. *)
Fixpoint decode_containers (c : Z) (run_flags : list Z) (hs : list (Z * Z)) (at_ : list Z)
    : res (list Z * list Z) :=
  match hs with
  | [] => Ok ([], at_)
  | (key, cardinality) :: hs =>
      let high := Z.shiftl key 16 in
      let run := match run_flags with [] => false | _ => bit_at run_flags c end in
      '(vs, at_) ← decode_container run high cardinality at_;
      if negb (zlen vs =? cardinality)
      then Err "roaring bitmap: a container holds other than its declared cardinality"
      else
        '(rest, at_) ← decode_containers (c + 1) run_flags hs at_;
        Ok (vs ++ rest, at_)
  end.

(** [decode_prefix], with what follows the bitmap in place of [consumed]. *)
Definition decode_rest (data : list Z) : res (list Z * list Z) :=
  '(containers, run_flags, offsets, at_) ← decode_cookie data;
  if (65536 <? containers) || (zlen at_ / 4 <? containers)
  then Err "roaring bitmap: implausible container count"
  else
    '(hs, at_) ← decode_headers (Z.to_nat containers) None at_;
    match (if offsets : bool then skip (containers * 4) at_ else Some at_) with
    | None => Err "roaring bitmap: truncated offsets"
    | Some at_ => decode_containers 0 run_flags hs at_
    end.

Definition decode_prefix (data : list Z) : res (list Z * Z) :=
  '(out, rest) ← decode_rest data;
  Ok (out, zlen data - zlen rest).

Definition decode (data : list Z) : res (list Z) :=
  '(out, _) ← decode_prefix data;
  Ok out.

(** ** encode *)

Definition spans (ids : list Z) : list (list Z) := group_by (fun v => Z.shiftr v 16) ids.

Definition span_header (g : list Z) : list Z :=
  put16 (Z.shiftr (nth 0 g 0) 16) ++ put16 (u32 (zlen g - 1)).

Definition span_bytes (g : list Z) : Z := if zlen g <=? kArrayMax then zlen g * 2 else kBitmapBytes.

Fixpoint span_offsets (at_ : Z) (gs : list (list Z)) : list Z :=
  match gs with
  | [] => []
  | g :: gs => put32 (u32 at_) ++ span_offsets (at_ + span_bytes g) gs
  end.

(** [bits[v / 8] |= 1 << (v % 8)] for the low half [v] of an id. *)
Definition set_bit (bits : list Z) (id : Z) : list Z :=
  let v := Z.land id 65535 in
  let i := Z.to_nat (v / 8) in
  <[i := u8 (Z.lor (nth i bits 0) (Z.shiftl 1 (v mod 8)))]> bits.

Definition span_body (g : list Z) : list Z :=
  if zlen g <=? kArrayMax then concat ((fun id => put16 (Z.land id 65535)) <$> g)
  else foldl set_bit (replicate (Z.to_nat kBitmapBytes) 0) g.

Definition encode (ids : list Z) : list Z :=
  let gs := spans ids in
  put32 kCookieNoRuns ++ put32 (u32 (zlen gs)) ++ concat (span_header <$> gs) ++
  span_offsets (8 + zlen gs * 4 + zlen gs * 4) gs ++ concat (span_body <$> gs).

(** ** Treemaps *)

(** [k] more keys of a treemap. *)
Fixpoint decode_treemap_keys (k : nat) (at_ : list Z) : res (list Z) :=
  match k with
  | O => Ok []
  | S k =>
      match get_u32 at_ with
      | None => Err "roaring treemap: truncated key"
      | Some (high, at_) =>
          '(low, consumed) ← decode_prefix at_;
          rest ← decode_treemap_keys k (drop (Z.to_nat consumed) at_);
          Ok (((fun v => Z.lor (Z.shiftl high 32) v) <$> low) ++ rest)
      end
  end.

Definition decode_treemap (data : list Z) : res (list Z) :=
  match take_bytes 8 data with
  | None => Err "roaring treemap: no key count"
  | Some (count, at_) =>
      let keys := le_value count in
      if (zlen data - 8) / 4 <? keys then Err "roaring treemap: implausible key count"
      else decode_treemap_keys (Z.to_nat keys) at_
  end.

Definition treemap_key (g : list Z) : list Z :=
  le_bytes 4 (u32 (Z.shiftr (nth 0 g 0) 32)) ++ encode (u32 <$> g).

Definition encode_treemap (ids : list Z) : list Z :=
  let gs := group_by (fun v => u32 (Z.shiftr v 32)) ids in
  le_bytes 8 (zlen gs) ++ concat (treemap_key <$> gs).

(** ** Reading what was written *)

Lemma get_u16_put16 v rest : is_u16 v -> get_u16 (put16 v ++ rest) = Some (v, rest).
Proof.
  unfold is_u16. intros Hv. unfold put16, get_u16. cbn [app]. change 255 with (2 ^ 8 - 1).
  rewrite !land_low, Z.shiftr_div_pow2 by lia.
  assert (0 <= v / 2 ^ 8 < 2 ^ 8) by (split; [apply Z.div_pos | apply Z.div_lt_upper_bound]; lia).
  rewrite (Z.mod_small (v / 2 ^ 8)) by lia. pose proof (Z.mod_pos_bound v (2 ^ 8) ltac:(lia)).
  rewrite !u8_small by done. rewrite lor_shiftl_add by lia.
  rewrite u16_small by (unfold is_u16; dlia). do 2 f_equal. dlia.
Qed.

Lemma put32_le_bytes v : is_u32 v -> put32 v = le_bytes 4 v.
Proof.
  unfold is_u32. intros Hv. unfold put32, put16. cbn [app le_bytes].
  rewrite !Z.shiftr_shiftr by lia. change 255 with (2 ^ 8 - 1). change 65535 with (2 ^ 16 - 1).
  rewrite !land_low, !Z.shiftr_div_pow2 by lia. unfold u8, wrap.
  change (2 ^ (8 + 8)) with 65536. change (2 ^ (8 + 8 + 8)) with 16777216.
  change (2 ^ 16) with 65536 in *. change (2 ^ 8) with 256 in *.
  repeat (apply (f_equal2 cons); [dlia|]). done.
Qed.

Lemma get_u32_le_bytes v rest : is_u32 v -> get_u32 (le_bytes 4 v ++ rest) = Some (v, rest).
Proof.
  intros Hv. cbn [le_bytes app get_u32]. do 2 f_equal.
  transitivity (le_value (le_bytes 4 v)); [|by apply le_value_le_bytes]. cbn [le_value le_bytes].
  rewrite !Z.shiftl_lor, !Z.shiftl_shiftl, Z.shiftl_0_l, Z.lor_0_r, !Z.lor_assoc by lia. done.
Qed.

Lemma get_u32_put32 v rest : is_u32 v -> get_u32 (put32 v ++ rest) = Some (v, rest).
Proof. intros. rewrite put32_le_bytes by done. by apply get_u32_le_bytes. Qed.

Lemma length_put32 v : length (put32 v) = 4%nat.
Proof. done. Qed.

(** ** The spans of an ascending id list *)

Definition key_of (g : list Z) : Z := Z.shiftr (nth 0 g 0) 16.

(** A container's ids: ascending, in one block of 65536. *)
Definition span_ok (g : list Z) : Prop :=
  ascending g /\ Forall (fun x => key_of g * 65536 <= x < key_of g * 65536 + 65536) g /\
  0 <= key_of g < 65536 /\ 1 <= zlen g.

Lemma spans_ok ids : ascending ids -> Forall is_u32 ids -> Forall span_ok (spans ids).
Proof.
  intros Ha Hr. pose proof (group_by_one_key (fun v => Z.shiftr v 16) ids) as Hk.
  rewrite <- (concat_group_by (fun v => Z.shiftr v 16) ids) in Ha, Hr.
  apply ascending_concat in Ha. apply Forall_concat_iff in Hr. fold (spans ids) in *.
  rewrite Forall_forall in *. intros g Hg. specialize (Hk g Hg). specialize (Ha g Hg). specialize (Hr g Hg).
  destruct g as [|x g]; [done|]. unfold span_ok, key_of. cbn [nth].
  split; [done|]. assert (is_u32 x) as Hx by (by inversion Hr). unfold is_u32 in Hx.
  split_and!; [|apply (shiftr_bound x 16 16); lia|apply (shiftr_bound x 16 16); lia|
    rewrite zlen_cons; pose proof (zlen_nonneg g); lia].
  cbn in Hk. eapply Forall_impl; [exact Hk|]. intros y Hy. cbn in Hy. rewrite <- Hy.
  rewrite Z.shiftr_div_pow2 by lia. change (2 ^ 16) with 65536. dlia.
Qed.

Lemma spans_keys ids : ascending ids -> ascending (key_of <$> spans ids).
Proof.
  intros Ha. unfold spans. replace (key_of <$> group_by (fun v => Z.shiftr v 16) ids)
    with ((fun g => Z.shiftr (default 0 (head g)) 16) <$> group_by (fun v => Z.shiftr v 16) ids).
  - apply (group_by_keys (fun v => Z.shiftr v 16) ids 0). eapply StronglySorted_weaken; [|exact Ha].
    intros. apply shiftr_mono; lia.
  - apply list_fmap_ext. intros i [|x g] _; done.
Qed.

Lemma span_length g : span_ok g -> 1 <= zlen g <= 65536.
Proof.
  intros (Ha & Hr & Hk & Hl). split; [done|].
  pose proof (ascending_bounded g _ _ Ha Hr ltac:(lia)). lia.
Qed.

Lemma spans_length ids : ascending ids -> Forall is_u32 ids -> zlen (spans ids) <= 65536.
Proof.
  intros Ha Hr. pose proof (spans_keys ids Ha) as Hk.
  assert (zlen (key_of <$> spans ids) <= 65536 - 0); [|unfold zlen in *; rewrite length_fmap in *; lia].
  apply ascending_bounded; [done | | lia]. apply Forall_fmap.
  eapply Forall_impl; [by apply spans_ok|]. intros g (_ & _ & ? & _). done.
Qed.

Lemma span_id g x : span_ok g -> x ∈ g -> Z.lor (Z.shiftl (key_of g) 16) (Z.land x 65535) = x.
Proof.
  intros (_ & Hr & _ & _) Hx. rewrite Forall_forall in Hr. specialize (Hr x Hx). cbn in Hr.
  change 65535 with (2 ^ 16 - 1). rewrite land_low by lia.
  rewrite <- (lor_split x 16) at 2 by lia. f_equal. f_equal.
  rewrite Z.shiftr_div_pow2 by lia. change (2 ^ 16) with 65536. dlia.
Qed.

Lemma land_u16 x : is_u16 (Z.land x 65535).
Proof. change 65535 with (2 ^ 16 - 1). rewrite land_low by lia. apply Z.mod_pos_bound. lia. Qed.

(** ** Containers *)

Lemma decode_array_body g rest back :
  forall g0, span_ok g0 -> (forall x, x ∈ g -> x ∈ g0) -> ascending g ->
  (forall b x, back = Some b -> x ∈ g -> b < x) ->
  decode_array (length g) (Z.shiftl (key_of g0) 16) back
    (concat ((fun id => put16 (Z.land id 65535)) <$> g) ++ rest) = Ok (g, rest).
Proof.
  intros g0 Hg0. revert back. induction g as [|x g IH]; intros back Hin Ha Hb; [done|].
  cbn [length decode_array]. rewrite fmap_cons. cbn [concat]. rewrite <- app_assoc.
  rewrite get_u16_put16 by apply land_u16. rewrite span_id by (done || (apply Hin; by left)).
  assert ((match back with Some b => x <=? b | None => false end) = false) as ->.
  { destruct back as [b|]; [|done]. apply Z.leb_gt. apply (Hb b x eq_refl). by left. }
  apply ascending_cons in Ha as [Ha Hx]. rewrite IH; [done | | done |].
  - intros y Hy. apply Hin. by right.
  - intros b y [= <-] Hy. rewrite Forall_forall in Hx. auto.
Qed.

Lemma set_bit_length bits id : length (set_bit bits id) = length bits.
Proof. apply length_insert. Qed.

Lemma foldl_set_bit_length ids bits : length (foldl set_bit bits ids) = length bits.
Proof. revert bits. induction ids as [|x ids IH]; intros bits; [done|]. cbn. by rewrite IH, set_bit_length. Qed.

Lemma bit_at_testbit bits v : 0 <= v -> bit_at bits v = Z.testbit (nth (Z.to_nat (v / 8)) bits 0) (v mod 8).
Proof.
  intros Hv. unfold bit_at. rewrite Z.shiftl_1_l, land_pow2_testbit by dlia. apply negb_involutive.
Qed.

Lemma nth_insert (l : list Z) i j (x : Z) :
  (i < length l)%nat -> nth j (<[i := x]> l) 0 = if decide (i = j) then x else nth j l 0.
Proof.
  intros Hi. rewrite !nth_lookup, list_lookup_insert. repeat case_decide; try lia; done.
Qed.

Lemma set_bit_testbit bits id v :
  length bits = Z.to_nat 8192 -> bytes_ok bits -> 0 <= v < 65536 ->
  bit_at (set_bit bits id) v = bit_at bits v || (v =? Z.land id 65535).
Proof.
  intros Hl Hok Hv. rewrite !bit_at_testbit by lia. unfold set_bit.
  pose proof (land_u16 id) as Hw. unfold is_u16 in Hw. set (w := Z.land id 65535) in *.
  rewrite nth_insert by (rewrite Hl; dlia). case_decide as Hd.
  - rewrite <- Hd. unfold u8, wrap. rewrite Z.mod_pow2_bits_low by dlia. rewrite Z.lor_spec. f_equal.
    rewrite Z.shiftl_1_l, Z.pow2_bits_eqb by dlia.
    apply Z2Nat.inj in Hd; [|dlia|dlia].
    destruct (Z.eqb_spec (w mod 8) (v mod 8)), (Z.eqb_spec v w); try done; exfalso; dlia.
  - destruct (Z.eqb_spec v w) as [->|]; [done|]. by rewrite orb_false_r.
Qed.

Lemma set_bit_ok bits id : bytes_ok bits -> bytes_ok (set_bit bits id).
Proof. intros. apply Forall_insert; [done|]. apply u8_range. Qed.

Lemma foldl_set_bit_at ids bits v :
  length bits = Z.to_nat 8192 -> bytes_ok bits -> 0 <= v < 65536 ->
  bit_at (foldl set_bit bits ids) v = true <-> bit_at bits v = true \/ exists x, x ∈ ids /\ Z.land x 65535 = v.
Proof.
  revert bits. induction ids as [|x ids IH]; intros bits Hl Hok Hv; cbn [foldl].
  - split; [auto | intros [?|(x & ?%elem_of_nil & _)]; done].
  - rewrite IH by (rewrite ?set_bit_length; auto using set_bit_ok).
    rewrite set_bit_testbit by done. rewrite orb_true_iff, Z.eqb_eq.
    setoid_rewrite elem_of_cons. split.
    + intros [[?|?]|(y & ? & ?)]; eauto.
    + intros [?|(y & [->|?] & ?)]; eauto.
Qed.

Lemma bit_at_zeros v : 0 <= v -> bit_at (replicate (Z.to_nat 8192) 0) v = false.
Proof.
  intros. rewrite bit_at_testbit, nth_lookup by lia.
  destruct (replicate _ _ !! _) eqn:E; cbn; [apply lookup_replicate in E as [-> _]|]; apply Z.bits_0.
Qed.

Lemma zeros_ok n : bytes_ok (replicate n 0).
Proof. apply Forall_replicate. unfold is_u8. lia. Qed.

Lemma decode_bitmap_body g rest :
  span_ok g -> decode_bitmap (Z.shiftl (key_of g) 16) (foldl set_bit (replicate (Z.to_nat 8192) 0) g ++ rest) = Ok (g, rest).
Proof.
  intros Hg. unfold decode_bitmap. set (bits := foldl set_bit _ g).
  assert (length bits = Z.to_nat 8192) as Hl by (unfold bits; by rewrite foldl_set_bit_length, length_replicate).
  replace kBitmapBytes with (zlen bits) by (unfold zlen; by rewrite Hl).
  rewrite take_bytes_app. do 2 f_equal. pose proof Hg as (Ha & Hr & Hk & _). apply ascending_ext; [|done|].
  - apply ascending_map; [|apply ascending_filter, seqZ_ascending].
    intros x y [_ Hx]%list_elem_of_filter [_ Hy]%list_elem_of_filter Hxy. apply elem_of_seqZ in Hx, Hy.
    rewrite !lor_high_low by lia. lia.
  - intros x. rewrite list_elem_of_fmap. split.
    + intros (v & -> & [Hb Hv]%list_elem_of_filter). apply elem_of_seqZ in Hv.
      unfold bits in Hb. rewrite foldl_set_bit_at in Hb by (auto using length_replicate, zeros_ok; lia).
      rewrite bit_at_zeros in Hb by lia. destruct Hb as [?|(y & Hy & <-)]; [done|]. by rewrite span_id.
    + intros Hx. exists (Z.land x 65535). split; [by rewrite span_id|].
      pose proof (land_u16 x) as Hu. unfold is_u16 in Hu. apply list_elem_of_filter.
      split; [|apply elem_of_seqZ; lia].
      unfold bits. rewrite foldl_set_bit_at by (auto using length_replicate, zeros_ok; lia). right. by exists x.
Qed.

Lemma decode_container_body g rest :
  span_ok g -> decode_container false (Z.shiftl (key_of g) 16) (zlen g) (span_body g ++ rest) = Ok (g, rest).
Proof.
  intros Hg. unfold decode_container, span_body. destruct (zlen g <=? kArrayMax).
  - replace (Z.to_nat (zlen g)) with (length g) by (unfold zlen; lia).
    apply decode_array_body; [done | auto | by destruct Hg | done].
  - change kBitmapBytes with 8192. by apply decode_bitmap_body.
Qed.

Lemma decode_containers_bodies c gs rest :
  Forall span_ok gs ->
  decode_containers c [] ((fun g => (key_of g, zlen g)) <$> gs) (concat (span_body <$> gs) ++ rest)
  = Ok (concat gs, rest).
Proof.
  intros H. revert c. induction H as [|g gs Hg Hgs IH]; intros c; [done|].
  rewrite !fmap_cons. cbn [concat decode_containers]. rewrite <- app_assoc, decode_container_body by done.
  cbn. rewrite Z.eqb_refl. cbn. by rewrite IH.
Qed.

(** ** Headers *)

Lemma decode_headers_spans prev gs rest :
  Forall span_ok gs -> ascending (key_of <$> gs) ->
  (forall p g, prev = Some p -> g ∈ gs -> p < key_of g) ->
  decode_headers (length gs) prev (concat (span_header <$> gs) ++ rest)
  = Ok ((fun g => (key_of g, zlen g)) <$> gs, rest).
Proof.
  intros H. revert prev. induction H as [|g gs Hg Hgs IH]; intros prev Hk Hp; [done|].
  rewrite !fmap_cons in *. cbn [length concat decode_headers]. unfold span_header at 1.
  fold (key_of g). rewrite <- !app_assoc. pose proof (span_length g Hg) as Hl.
  destruct Hg as (_ & _ & Hkey & _). rewrite get_u16_put16 by (unfold is_u16; lia).
  rewrite u32_small by (unfold is_u32; lia). rewrite get_u16_put16 by (unfold is_u16; lia).
  assert ((match prev with Some p => key_of g <=? p | None => false end) = false) as ->.
  { destruct prev as [p|]; [|done]. apply Z.leb_gt. apply (Hp p g eq_refl). by left. }
  apply ascending_cons in Hk as [Hk Hx]. rewrite IH; [| done |].
  - cbn. do 3 f_equal. f_equal. lia.
  - intros p g' [= <-] Hg'. rewrite Forall_forall in Hx. apply Hx. apply list_elem_of_fmap. eauto.
Qed.

Lemma length_headers gs : length (concat (span_header <$> gs)) = (4 * length gs)%nat.
Proof. induction gs as [|g gs IH]; [done|]. rewrite fmap_cons. cbn [concat]. rewrite length_app, IH. simpl. lia. Qed.

Lemma length_span_offsets at_ gs : length (span_offsets at_ gs) = (4 * length gs)%nat.
Proof. revert at_. induction gs as [|g gs IH]; intros at_; [done|]. cbn [span_offsets]. rewrite length_app, IH. simpl. lia. Qed.

Lemma skip_app n (l rest : list Z) : n = zlen l -> skip n (l ++ rest) = Some rest.
Proof.
  intros ->. unfold skip. rewrite zlen_app. pose proof (zlen_nonneg rest). case_bool; [lia|].
  unfold zlen. by rewrite Nat2Z.id, drop_app_length.
Qed.

Lemma decode_rest_encode ids rest :
  ascending ids -> Forall is_u32 ids -> decode_rest (encode ids ++ rest) = Ok (ids, rest).
Proof.
  intros Ha Hr. pose proof (spans_ok ids Ha Hr) as Hok. pose proof (spans_keys ids Ha) as Hk.
  pose proof (spans_length ids Ha Hr) as Hl.
  rewrite <- (concat_group_by (fun v => Z.shiftr v 16) ids) at 2. fold (spans ids).
  unfold decode_rest, encode. generalize dependent (spans ids). clear ids Ha Hr. intros gs Hok Hk Hl.
  rewrite <- !app_assoc. unfold decode_cookie. pose proof (zlen_nonneg gs).
  rewrite get_u32_put32 by (unfold is_u32, kCookieNoRuns; lia). rewrite Z.eqb_refl.
  rewrite u32_small by (unfold is_u32; lia). rewrite get_u32_put32 by (unfold is_u32; lia). cbn [mbind res_bind].
  assert (4 * zlen gs <= zlen (concat (span_header <$> gs) ++
     span_offsets (8 + zlen gs * 4 + zlen gs * 4) gs ++ concat (span_body <$> gs) ++ rest)) as Hlen.
  { rewrite !zlen_app. unfold zlen at 2. rewrite length_headers.
    pose proof (zlen_nonneg (span_offsets (8 + zlen gs * 4 + zlen gs * 4) gs)).
    pose proof (zlen_nonneg (concat (span_body <$> gs))). pose proof (zlen_nonneg rest).
    unfold zlen at 1. lia. }
  destruct (Z.ltb_spec 65536 (zlen gs)); [lia|]. cbn [orb].
  match goal with |- context [zlen ?x / 4 <? _] => destruct (Z.ltb_spec (zlen x / 4) (zlen gs)) end; [dlia|].
  replace (Z.to_nat (zlen gs)) with (length gs) by (unfold zlen; lia).
  rewrite decode_headers_spans by done. cbn.
  rewrite skip_app by (unfold zlen; rewrite length_span_offsets; lia).
  by apply decode_containers_bodies.
Qed.

(** ** What a successful decode returns *)

(** The ids of one container: ascending, in the block of [key]. *)
Definition block (key : Z) (vs : list Z) : Prop :=
  ascending vs /\ Forall (fun x => key * 65536 <= x < key * 65536 + 65536) vs.

Lemma get_u16_range at_ v rest : get_u16 at_ = Some (v, rest) -> is_u16 v /\ rest `suffix_of` at_.
Proof.
  destruct at_ as [|b0 [|b1 l]]; try done. intros [= <- <-]. split; [apply u16_range | by exists [b0; b1]].
Qed.

Lemma get_u32_suffix at_ v rest : get_u32 at_ = Some (v, rest) -> rest `suffix_of` at_.
Proof. destruct at_ as [|b0 [|b1 [|b2 [|b3 l]]]]; try done. intros [= <- <-]. by exists [b0; b1; b2; b3]. Qed.

Lemma take_bytes_suffix n (at_ d rest : list Z) : take_bytes n at_ = Some (d, rest) -> rest `suffix_of` at_.
Proof. intros ->%take_bytes_split. by exists d. Qed.

Lemma skip_suffix n at_ rest : skip n at_ = Some rest -> rest `suffix_of` at_.
Proof. unfold skip. case_bool; [done|]. intros [= <-]. apply suffix_drop. Qed.

Lemma block_ids key l : ascending l -> Forall is_u16 l -> block key (Z.lor (Z.shiftl key 16) <$> l).
Proof.
  intros Ha Hr. rewrite Forall_forall in Hr. unfold is_u16 in Hr. split.
  - apply ascending_map; [|done]. intros x y Hx%Hr Hy%Hr Hxy. rewrite !lor_high_low by lia. lia.
  - apply Forall_fmap, Forall_forall. intros x Hx%Hr. cbn. rewrite lor_high_low by lia. lia.
Qed.

Lemma decode_array_sound n key back at_ vs rest :
  decode_array n (Z.shiftl key 16) back at_ = Ok (vs, rest) ->
  block key vs /\ Forall (fun x => match back with Some b => b < x | None => True end) vs /\ rest `suffix_of` at_.
Proof.
  revert back at_ vs. induction n as [|n IH]; intros back at_ vs; cbn [decode_array].
  { intros [= <- <-]. split_and!; [split; constructor | constructor | done]. }
  destruct (get_u16 at_) as [[v at1]|] eqn:Ev; [|done]. apply get_u16_range in Ev as [Hv Hs].
  destruct (match back with Some b => _ | None => _ end) eqn:Eb; [done|].
  destruct (decode_array n _ _ at1) as [[vs' at2]|e] eqn:E; [|done]. cbn. intros [= <- <-].
  apply IH in E as ([Ha Hr] & Hb & Hs'). cbn in Hb. unfold is_u16 in Hv.
  assert (Z.lor (Z.shiftl key 16) v = key * 65536 + v) as Hx by (rewrite lor_high_low by lia; lia).
  split_and!; [split|..].
  - by apply ascending_cons.
  - constructor; [rewrite Hx; lia | done].
  - destruct back as [b|]; [|by apply Forall_true]. bool_prop. constructor; [done|].
    eapply Forall_impl; [exact Hb|]. simpl. lia.
  - by transitivity at1.
Qed.

Lemma decode_runs_sound n key previous_end at_ vs rest :
  decode_runs n (Z.shiftl key 16) previous_end at_ = Ok (vs, rest) ->
  block key vs /\
  Forall (fun x => match previous_end with Some p => key * 65536 + p < x | None => True end) vs /\
  rest `suffix_of` at_.
Proof.
  revert previous_end at_ vs. induction n as [|n IH]; intros pe at_ vs; cbn [decode_runs].
  { intros [= <- <-]. split_and!; [split; constructor | constructor | done]. }
  destruct (get_u16 at_) as [[start at1]|] eqn:Ev; [|done]. apply get_u16_range in Ev as [Hv Hs].
  destruct (get_u16 at1) as [[len at2]|] eqn:Ev2; [|done]. apply get_u16_range in Ev2 as [Hv2 Hs2].
  destruct (_ || _) eqn:Eb; [done|]. apply orb_false_iff in Eb as [Eend Epe]. bool_prop.
  destruct (decode_runs n _ _ at2) as [[vs' at3]|e] eqn:E; [|done]. cbn. intros [= <- <-].
  apply IH in E as ([Ha Hr] & Hb & Hs'). cbn in Hb. unfold is_u16 in *.
  assert (Forall is_u16 (seqZ start (len + 1))) as Hu.
  { apply Forall_forall. intros x Hx%elem_of_seqZ. unfold is_u16. lia. }
  destruct (block_ids key _ (seqZ_ascending start (len + 1)) Hu) as [Ha0 Hr0].
  assert (forall x, x ∈ (Z.lor (Z.shiftl key 16) <$> seqZ start (len + 1)) ->
    key * 65536 + start <= x <= key * 65536 + (start + len)) as Hseq.
  { intros x (y & -> & Hy)%list_elem_of_fmap. apply elem_of_seqZ in Hy. rewrite lor_high_low by lia. lia. }
  rewrite Forall_forall in Hb. split_and!; [split|..].
  - apply ascending_app. split_and!; [done | done |]. intros x y Hx%Hseq Hy%Hb. lia.
  - apply Forall_app; done.
  - destruct pe as [p|]; [|by apply Forall_true]. bool_prop. apply Forall_app. split; apply Forall_forall.
    + intros x Hx%Hseq. lia.
    + intros x Hx%Hb. lia.
  - by transitivity at2; [|transitivity at1].
Qed.

Lemma decode_container_sound run key card at_ vs rest :
  decode_container run (Z.shiftl key 16) card at_ = Ok (vs, rest) -> block key vs /\ rest `suffix_of` at_.
Proof.
  unfold decode_container. destruct run; [|destruct (_ <=? _)].
  - destruct (get_u16 at_) as [[runs at1]|] eqn:E; [|done]. apply get_u16_range in E as [_ Hs].
    intros (Hb & _ & Hs2)%decode_runs_sound. split; [done | by transitivity at1].
  - by intros (Hb & _ & Hs)%decode_array_sound.
  - unfold decode_bitmap. destruct (take_bytes _ _) as [[bits at1]|] eqn:E; [|done].
    apply take_bytes_suffix in E. intros [= <- <-]. split; [|done].
    apply block_ids; [apply ascending_filter, seqZ_ascending|].
    apply Forall_forall. intros x [_ Hx%elem_of_seqZ]%list_elem_of_filter. unfold is_u16. lia.
Qed.

Lemma decode_headers_sound n prev at_ hs rest :
  decode_headers n prev at_ = Ok (hs, rest) ->
  ascending (fst <$> hs) /\
  Forall (fun h => is_u16 h.1 /\ 1 <= h.2 <= 65536 /\ match prev with Some p => p < h.1 | None => True end) hs /\
  rest `suffix_of` at_ /\ length hs = n.
Proof.
  revert prev at_ hs. induction n as [|n IH]; intros prev at_ hs; cbn [decode_headers].
  { intros [= <- <-]. split_and!; [constructor | constructor | done | done]. }
  destruct (get_u16 at_) as [[key at1]|] eqn:E1; [|done]. apply get_u16_range in E1 as [Hkey Hs1].
  destruct (get_u16 at1) as [[card at2]|] eqn:E2; [|done]. apply get_u16_range in E2 as [Hc Hs2].
  destruct (match prev with Some p => _ | None => _ end) eqn:Ep; [done|].
  destruct (decode_headers n _ at2) as [[hs' at3]|e] eqn:E; [|done]. cbn. intros [= <- <-].
  apply IH in E as (Ha & Hf & Hs & Hl). rewrite Forall_forall in Hf. unfold is_u16 in *. split_and!.
  - rewrite fmap_cons. apply ascending_cons. split; [done|]. apply Forall_fmap, Forall_forall.
    intros h Hh%Hf. by destruct Hh as (_ & _ & ?).
  - constructor; [cbn; split_and!; try lia; destruct prev; bool_prop; lia|].
    apply Forall_forall. intros h Hh%Hf. destruct Hh as (? & ? & ?). split_and!; try lia.
    destruct prev; [bool_prop; lia | done].
  - by transitivity at2; [|transitivity at1].
  - simpl. by f_equal.
Qed.

Lemma decode_containers_sound c run_flags hs at_ vs rest :
  decode_containers c run_flags hs at_ = Ok (vs, rest) ->
  ascending (fst <$> hs) -> Forall (fun h => is_u16 h.1) hs ->
  ascending vs /\ Forall is_u32 vs /\ rest `suffix_of` at_ /\
  (forall x, x ∈ vs -> exists h, h ∈ hs /\ h.1 * 65536 <= x) /\ zlen vs = foldr Z.add 0 (snd <$> hs).
Proof.
  revert c at_ vs. induction hs as [|[key card] hs IH]; intros c at_ vs; cbn [decode_containers].
  { intros [= <- <-] _ _. split_and!; [constructor | constructor | done | set_solver | done]. }
  destruct (decode_container _ _ _ at_) as [[vs1 at1]|e] eqn:E1; [|done]. cbn.
  destruct (Z.eqb_spec (zlen vs1) card) as [Hcard|]; [|done]. cbn.
  destruct (decode_containers _ _ _ at1) as [[vs2 at2]|e] eqn:E2; [|done]. cbn. intros [= <- <-] Ha Hu.
  apply decode_container_sound in E1 as [[Ha1 Hr1] Hs1].
  apply ascending_cons in Ha as [Ha Hk]. inversion Hu as [|? ? Hkey Hu']; subst. cbn in Hkey.
  apply IH in E2 as (Ha2 & Hr2 & Hs2 & Hin & Hlen); [|done..]. rewrite Forall_forall in Hr1, Hk. unfold is_u16 in Hkey.
  split_and!.
  - apply ascending_app. split_and!; [done | done |]. intros x y Hx%Hr1 (h & Hh & Hy)%Hin.
    assert (key < h.1) by (apply Hk, list_elem_of_fmap; eauto). lia.
  - apply Forall_app. split; [|done]. apply Forall_forall. intros x Hx%Hr1. unfold is_u32. lia.
  - by transitivity at1.
  - intros x [Hx|Hx]%elem_of_app.
    + exists (key, zlen vs1). split; [by left|]. apply Hr1 in Hx. cbn. lia.
    + apply Hin in Hx as (h & Hh & Hx). exists h. split; [by right | done].
  - rewrite zlen_app, Hlen. done.
Qed.

Lemma decode_rest_sound data out rest :
  decode_rest data = Ok (out, rest) -> ascending out /\ Forall is_u32 out /\ rest `suffix_of` data.
Proof.
  unfold decode_rest. destruct (decode_cookie data) as [[[[n flags] offs] at1]|e] eqn:E0; [|done]. cbn.
  assert (at1 `suffix_of` data) as Hs0.
  { unfold decode_cookie in E0. destruct (get_u32 data) as [[ck a1]|] eqn:E1; [|done].
    apply get_u32_suffix in E1. transitivity a1; [|done]. destruct (_ =? _) in E0; [|destruct (_ =? _) in E0; [|done]].
    - destruct (get_u32 a1) as [[? ?]|] eqn:E3; [|done]. apply get_u32_suffix in E3. by simplify_eq.
    - destruct (take_bytes _ a1) as [[? ?]|] eqn:E3; [|done]. apply take_bytes_suffix in E3. by simplify_eq. }
  destruct (_ || _); [done|]. destruct (decode_headers _ _ at1) as [[hs at2]|e] eqn:E1; [|done]. cbn.
  apply decode_headers_sound in E1 as (Ha & Hf & Hs1 & _).
  destruct (if offs : bool then _ else _) as [at3|] eqn:E2; [|done].
  assert (at3 `suffix_of` at2) as Hs2 by (destruct offs; [by eapply skip_suffix | by simplify_eq]).
  intros (? & ? & Hs3 & _)%decode_containers_sound; [|done | eapply Forall_impl; [exact Hf|]; by intros h (? & _)].
  split_and!; [done | done |]. by transitivity at3; [|transitivity at2; [|transitivity at1]].
Qed.

Lemma decode_prefix_rest data out consumed :
  decode_prefix data = Ok (out, consumed) ->
  0 <= consumed <= zlen data /\ decode_rest data = Ok (out, drop (Z.to_nat consumed) data).
Proof.
  unfold decode_prefix. destruct (decode_rest data) as [[o rest]|e] eqn:E; [|done]. cbn. intros [= <- <-].
  apply decode_rest_sound in E as (_ & _ & [used ->]). rewrite zlen_app. pose proof (zlen_nonneg used).
  pose proof (zlen_nonneg rest). split; [lia|]. do 3 f_equal.
  replace (Z.to_nat (zlen used + zlen rest - zlen rest)) with (length used) by (unfold zlen; lia).
  by rewrite drop_app_length.
Qed.

(** ** Treemaps *)

Lemma decode_prefix_encode ids rest :
  ascending ids -> Forall is_u32 ids -> decode_prefix (encode ids ++ rest) = Ok (ids, zlen (encode ids)).
Proof.
  intros. unfold decode_prefix. rewrite decode_rest_encode by done. cbn [mbind res_bind].
  rewrite zlen_app. do 2 f_equal. lia.
Qed.

#[global] Instance roaring_codec : Codec encode decode (fun ids => ascending ids /\ Forall is_u32 ids).
Proof.
  intros ids [Ha Hr]. unfold decode. pose proof (decode_prefix_encode ids [] Ha Hr) as H.
  rewrite app_nil_r in H. by rewrite H.
Qed.

Definition high_key (g : list Z) : Z := u32 (Z.shiftr (nth 0 g 0) 32).

(** The ids of one high key of a treemap. *)
Definition treemap_group (g : list Z) : Prop :=
  ascending g /\ Forall (fun x => is_u64 x /\ Z.shiftr x 32 = high_key g) g /\ 0 <= high_key g < 2 ^ 32.

Lemma high_of_u64 x : is_u64 x -> u32 (Z.shiftr x 32) = Z.shiftr x 32.
Proof. intros. apply u32_small. apply (shiftr_bound x 32 32); unfold is_u64 in *; lia. Qed.

Lemma treemap_groups ids :
  ascending ids -> Forall is_u64 ids ->
  Forall treemap_group (group_by (fun v => u32 (Z.shiftr v 32)) ids) /\
  ascending (high_key <$> group_by (fun v => u32 (Z.shiftr v 32)) ids).
Proof.
  intros Ha Hr. set (key := fun v => u32 (Z.shiftr v 32)). split.
  - pose proof (group_by_one_key key ids) as Hk. rewrite <- (concat_group_by key ids) in Ha, Hr.
    apply ascending_concat in Ha. apply Forall_concat_iff in Hr. rewrite Forall_forall in *.
    intros g Hg. specialize (Hk g Hg). specialize (Ha g Hg). specialize (Hr g Hg).
    destruct g as [|x g]; [done|]. cbn in Hk. split_and!; [done | | apply u32_range | apply u32_range].
    rewrite Forall_forall in *. intros y Hy. specialize (Hk y Hy). specialize (Hr y Hy). split; [done|].
    rewrite <- high_of_u64 by done. exact Hk.
  - replace (high_key <$> group_by key ids) with ((fun g => key (default 0 (head g))) <$> group_by key ids).
    + apply group_by_keys. clear - Ha Hr. induction Ha as [|x l Hl IH Hx]; [constructor|].
      inversion Hr; subst. constructor; [auto|]. rewrite Forall_forall in *. intros y Hy.
      unfold key. rewrite !high_of_u64 by auto. apply shiftr_mono; [lia|]. specialize (Hx y Hy). lia.
    + apply list_fmap_ext. intros i [|x g] _; done.
Qed.

Lemma treemap_low g : treemap_group g -> ascending (u32 <$> g) /\ Forall is_u32 (u32 <$> g).
Proof.
  intros (Ha & Hr & _). rewrite Forall_forall in Hr. split.
  - apply ascending_map; [|done]. intros x y [_ Hx]%Hr [_ Hy]%Hr Hxy. rewrite Z.shiftr_div_pow2 in Hx, Hy by lia.
    unfold u32, wrap. dlia.
  - apply Forall_fmap, Forall_forall. intros x _. apply u32_range.
Qed.

Lemma treemap_join g : treemap_group g -> (fun v => Z.lor (Z.shiftl (high_key g) 32) v) <$> (u32 <$> g) = g.
Proof.
  intros (_ & Hr & _). rewrite Forall_forall in Hr. rewrite <- list_fmap_compose.
  transitivity (id <$> g); [|apply list_fmap_id].
  apply list_fmap_ext. intros i x Hx%list_elem_of_lookup_2. destruct (Hr x Hx) as [_ Hs]. cbn.
  rewrite <- Hs. apply lor_split. lia.
Qed.

Lemma decode_treemap_keys_groups gs :
  Forall treemap_group gs ->
  decode_treemap_keys (length gs) (concat (treemap_key <$> gs)) = Ok (concat gs).
Proof.
  induction 1 as [|g gs Hg Hgs IH]; [done|]. rewrite fmap_cons. cbn [concat length decode_treemap_keys].
  unfold treemap_key at 1. fold (high_key g). rewrite <- !app_assoc.
  rewrite get_u32_le_bytes by apply Hg. destruct (treemap_low g Hg) as [Ha Hr].
  rewrite decode_prefix_encode by done. cbn [mbind res_bind].
  rewrite drop_app_length' by (unfold zlen; lia). rewrite IH. cbn. by rewrite treemap_join.
Qed.

Lemma treemap_keys_room gs : 4 * zlen gs <= zlen (concat (treemap_key <$> gs)).
Proof.
  induction gs as [|g gs IH]; [done|]. rewrite fmap_cons. cbn [concat]. unfold treemap_key at 1.
  rewrite !zlen_app, zlen_cons, zlen_le_bytes.
  pose proof (zlen_nonneg (encode (u32 <$> g))). lia.
Qed.

Lemma decode_encode_treemap ids :
  ascending ids -> Forall is_u64 ids -> decode_treemap (encode_treemap ids) = Ok ids.
Proof.
  intros Ha Hr. destruct (treemap_groups ids Ha Hr) as [Hg Hk]. unfold encode_treemap.
  pose proof (concat_group_by (fun v => u32 (Z.shiftr v 32)) ids) as Hc.
  set (gs := group_by _ ids) in *.
  assert (zlen gs <= 2 ^ 32) as Hn.
  { assert (zlen (high_key <$> gs) <= 2 ^ 32 - 0); [|unfold zlen in *; rewrite length_fmap in *; lia].
    apply ascending_bounded; [done | | lia]. apply Forall_fmap. eapply Forall_impl; [exact Hg|]. by intros g (_ & _ & ?). }
  pose proof (zlen_nonneg gs). unfold decode_treemap.
  replace 8 with (zlen (le_bytes 8 (zlen gs))) at 1 by done. rewrite take_bytes_app.
  rewrite le_value_le_bytes by (change (8 * Z.of_nat 8) with 64; lia).
  rewrite zlen_app. replace (zlen (le_bytes 8 (zlen gs))) with 8 by done.
  pose proof (treemap_keys_room gs). destruct (Z.ltb_spec ((8 + zlen (concat (treemap_key <$> gs)) - 8) / 4) (zlen gs)); [dlia|].
  replace (Z.to_nat (zlen gs)) with (length gs) by (unfold zlen; lia).
  rewrite decode_treemap_keys_groups by done. by rewrite Hc.
Qed.

#[global] Instance treemap_codec : Codec encode_treemap decode_treemap (fun ids => ascending ids /\ Forall is_u64 ids).
Proof. intros ids [Ha Hr]. by apply decode_encode_treemap. Qed.

(** ** Properties *)

(** every ascending list of distinct 32-bit ids, written by [encode] as array and
    bitmap containers, is read back by [decode_prefix], which consumes exactly the bytes written,
    whatever follows them. *)
Theorem roaring_roundtrip ids rest :
  ascending ids -> Forall is_u32 ids -> decode_prefix (encode ids ++ rest) = Ok (ids, zlen (encode ids)).
Proof. apply decode_prefix_encode. Qed.

Lemma roaring_roundtrip_witness :
  decode_prefix (encode [1; 5; 65535; 65536; 4294967295] ++ [9]) =
    Ok ([1; 5; 65535; 65536; 4294967295], zlen (encode [1; 5; 65535; 65536; 4294967295])).
Proof.
  apply (roaring_roundtrip [1; 5; 65535; 65536; 4294967295] [9]); repeat constructor; try lia; by unfold is_u32.
Defined.

(** whatever bytes a bitmap is read from, what [decode_prefix] accepts is an ascending list
    of distinct 32-bit ids, and it consumed no more bytes than there are. *)
Theorem roaring_decode_sound data out consumed :
  decode_prefix data = Ok (out, consumed) ->
  ascending out /\ Forall is_u32 out /\ 0 <= consumed <= zlen data.
Proof.
  intros [Hc Hr]%decode_prefix_rest. apply decode_rest_sound in Hr as (? & ? & _). done.
Qed.

Lemma roaring_decode_sound_witness :
  ascending [10; 11; 12] /\ Forall is_u32 [10; 11; 12] /\ 0 <= 15 <= 15.
Proof.
  apply (roaring_decode_sound ([59; 48; 0; 0] ++ [1] ++ [0; 0; 2; 0] ++ [1; 0] ++ [10; 0; 2; 0]) [10; 11; 12] 15).
  vm_compute. reflexivity.
Defined.

(** every ascending list of distinct 64-bit ids survives [encode_treemap] and
    [decode_treemap]. *)
Theorem treemap_roundtrip ids :
  ascending ids -> Forall is_u64 ids -> decode_treemap (encode_treemap ids) = Ok ids.
Proof. apply decode_encode_treemap. Qed.

Lemma treemap_roundtrip_witness :
  decode_treemap (encode_treemap [3; 4294967299; 4294967300; 2 ^ 63]) = Ok [3; 4294967299; 4294967300; 2 ^ 63].
Proof.
  apply (treemap_roundtrip [3; 4294967299; 4294967300; 2 ^ 63]); repeat constructor; try lia; by unfold is_u64.
Defined.

(** A treemap's ids are NOT always ascending: [decode_treemap] does not order its high keys, so a
    treemap listing key 1 before key 0 is accepted with its ids in that order. *)
Theorem treemap_decode_unordered :
  decode_treemap (le_bytes 8 2 ++ (le_bytes 4 1 ++ encode [7]) ++ (le_bytes 4 0 ++ encode [9]))
  = Ok [4294967303; 9].
Proof. vm_compute. reflexivity. Qed.

End Roaring.
