(* ===== verification/Json.v ===== *)
(** * Json: the JSON reader and writer (src/base/fts_json.hpp)

    The reader [Reader::parse] with its depth limit, on a text that is what is left to read; strings with
    their escapes; numbers as [std::strtod] reads them; and the writer of strings. The lemmas say what a
    text of the shape the library writes is read as, piece by piece, whatever follows it. *)

From S2P Require Import Prelude.

Module Json.

(** ** Characters *)

Definition chr (n : N) : Ascii.ascii := Ascii.ascii_of_N n.
Definition code (c : Ascii.ascii) : Z := Z.of_N (Ascii.N_of_ascii c).
Definition char_is (c : Ascii.ascii) (n : Z) : bool := code c =? n.

Definition dquote : Ascii.ascii := chr 34.
Definition backslash : Ascii.ascii := chr 92.

(** [std::isspace] and [std::isdigit] of the C locale. *)
Definition isspace (c : Ascii.ascii) : bool := (code c =? 32) || ((9 <=? code c) && (code c <=? 13)).
Definition isdigit : Ascii.ascii -> bool := is_digit.

(** ** Numbers

    A [double] that is not a NaN: [m * 2^e], or an infinity. *)

Inductive double := Finite (m e : Z) | Infinite (negative : bool).

(** [a / b] rounded to the nearest integer, ties to even. *)
Definition round_half_even (a b : Z) : Z :=
  let q := a / b in
  let r := 2 * (a mod b) in
  if r <? b then q else if b <? r then q + 1 else if Z.even q then q else q + 1.

(** The exponent of the last place of [num / den] > 0 in a double. *)
Definition last_place (num den : Z) : Z :=
  let l := Z.log2 num - Z.log2 den in
  let below := if l <? 0 then num * 2 ^ (- l) <? den else num <? den * 2 ^ l in
  Z.max (-1074) ((if below then l - 1 else l) - 52).

Definition round_double (negative : bool) (num den : Z) : double :=
  if num =? 0 then Finite 0 0
  else
    let e := last_place num den in
    let m := if e <? 0 then round_half_even (num * 2 ^ (- e)) den else round_half_even num (den * 2 ^ e) in
    if (0 <? e) && (2 ^ 1024 <=? m * 2 ^ e) then Infinite negative else Finite (if negative then - m else m) e.

(** The digits at the front of a text, and the text after them. *)
Fixpoint span_digits (t : string) : string * string :=
  match t with
  | String c rest => if isdigit c then let '(digits, rest) := span_digits rest in (String c digits, rest) else ("", t)
  | "" => ("", "")
  end.

(** An optional sign. *)
Definition sign (t : string) : bool * string :=
  match t with
  | String c rest => if char_is c 45 then (true, rest) else if char_is c 43 then (false, rest) else (false, t)
  | "" => (false, "")
  end.

(** The exponent of a number: all of what is left, or none of it. *)
Definition exponent (t : string) : option Z :=
  match t with
  | "" => Some 0
  | String c rest =>
      if char_is c 101 || char_is c 69 then
        let '(negative, rest) := sign rest in
        let '(digits, rest) := span_digits rest in
        if negb (String.eqb digits "") && String.eqb rest "" then Some (if negative then - digits_value 0 digits else digits_value 0 digits) else None
      else None
  end.

(** [std::strtod] of a text of digits, signs, points and exponents: the number when all of the text is one. *)
Definition strtod (t : string) : option double :=
  let '(negative, t) := sign t in
  let '(whole, t) := span_digits t in
  let '(fraction, t) := match t with String c rest => if char_is c 46 then span_digits rest else ("", t) | "" => ("", "") end in
  if String.eqb (whole +:+ fraction) "" then None
  else
    e ← exponent t;
    let m := digits_value 0 (whole +:+ fraction) in
    let e := e - Z.of_nat (String.length fraction) in
    Some (if 0 <=? e then round_double negative (m * 10 ^ e) 1 else round_double negative m (10 ^ (- e))).

(** [static_cast<std::uint64_t>] of a double; [undefined] is what it gives when the value does not fit. *)
Definition to_u64 (undefined : double -> Z) (d : double) : Z :=
  match d with
  | Infinite _ => undefined d
  | Finite m e =>
      let v := if 0 <=? e then m * 2 ^ e else Z.quot m (2 ^ (- e)) in
      if (0 <=? v) && (v <? 2 ^ 64) then v else undefined d
  end.

(** [m * 2^e], rounded; the product and the sum of doubles, and their order. An infinity absorbs. *)
Definition of_dyadic (m e : Z) : double :=
  if 0 <=? e then round_double (m <? 0) (Z.abs m * 2 ^ e) 1 else round_double (m <? 0) (Z.abs m) (2 ^ (- e)).

Definition mul_double (a b : double) : double :=
  match a, b with
  | Finite m1 e1, Finite m2 e2 => of_dyadic (m1 * m2) (e1 + e2)
  | Finite m _, Infinite negative | Infinite negative, Finite m _ => Infinite (xorb negative (m <? 0))
  | Infinite n1, Infinite n2 => Infinite (xorb n1 n2)
  end.

Definition add_double (a b : double) : double :=
  match a, b with
  | Finite m1 e1, Finite m2 e2 => let e := Z.min e1 e2 in of_dyadic (m1 * 2 ^ (e1 - e) + m2 * 2 ^ (e2 - e)) e
  | Infinite _, _ => a
  | _, Infinite _ => b
  end.

Definition exceeds (a : double) (bound : Z) : bool :=
  match a with
  | Finite m e => if 0 <=? e then bound <? m * 2 ^ e else bound * 2 ^ (- e) <? m
  | Infinite negative => negb negative
  end.

Definition truncate (a : double) : Z :=
  match a with Finite m e => if 0 <=? e then m * 2 ^ e else Z.quot m (2 ^ (- e)) | Infinite _ => 0 end.

(** ** Values *)

Inductive Value :=
  | Null
  | Bool (b : bool)
  | Number (n : double)
  | Str (s : string)
  | Array (items : list Value)
  | Object (fields : list (string * Value)).

(** [Value::get]: the first member of that name. *)
Fixpoint get_field (key : string) (fields : list (string * Value)) : option Value :=
  match fields with
  | [] => None
  | (k, v) :: fields => if bool_decide (k = key) then Some v else get_field key fields
  end.

Definition get (v : Value) (key : string) : option Value :=
  match v with Object fields => get_field key fields | _ => None end.

(** ** The reader *)

Fixpoint space (t : string) : string :=
  match t with String c rest => if isspace c then space rest else t | "" => "" end.

(** The text after [word], when it starts with it. *)
Fixpoint literal (word t : string) : option string :=
  match word, t with
  | "", _ => Some t
  | String a word, String b t => if bool_decide (a = b) then literal word t else None
  | _, "" => None
  end.

Definition hex_value (c : Ascii.ascii) : option Z :=
  if isdigit c then Some (code c - 48)
  else if (97 <=? code c) && (code c <=? 102) then Some (code c - 97 + 10)
  else if (65 <=? code c) && (code c <=? 70) then Some (code c - 65 + 10)
  else None.

Definition hex4 (a b c d : Ascii.ascii) : option Z :=
  a ← hex_value a; b ← hex_value b; c ← hex_value c; d ← hex_value d;
  Some (((a * 16 + b) * 16 + c) * 16 + d).

Definition byte_char (z : Z) : Ascii.ascii := chr (Z.to_N (u8 z)).

Definition utf8 (cp : Z) : string :=
  let low (shift : Z) := byte_char (Z.lor 128 (Z.land (Z.shiftr cp shift) 63)) in
  if cp <? 128 then String (byte_char cp) ""
  else if cp <? 2048 then String (byte_char (Z.lor 192 (Z.shiftr cp 6))) (String (low 0) "")
  else if cp <? 65536 then String (byte_char (Z.lor 224 (Z.shiftr cp 12))) (String (low 6) (String (low 0) ""))
  else String (byte_char (Z.lor 240 (Z.shiftr cp 18))) (String (low 12) (String (low 6) (String (low 0) ""))).

(** The character an escape stands for, [\u] apart. *)
Definition unescape (c : Ascii.ascii) : Ascii.ascii :=
  if char_is c 110 then chr 10 else if char_is c 116 then chr 9 else if char_is c 114 then chr 13
  else if char_is c 98 then chr 8 else if char_is c 102 then chr 12 else c.

Definition push (front : string) (r : option (string * string)) : option (string * string) :=
  '(s, rest) ← r; Some (front +:+ s, rest).

(** A string's characters up to its closing quote, and the text after it. *)
Fixpoint string_body (t : string) : option (string * string) :=
  match t with
  | "" => None
  | String c t =>
      if bool_decide (c = dquote) then Some ("", t)
      else if bool_decide (c = backslash) then
        match t with
        | "" => None
        | String c t =>
            if char_is c 117 then
              match t with
              | String a (String b (String c (String d t))) =>
                  match hex4 a b c d with
                  | None => None
                  | Some cp =>
                      let alone := push (utf8 cp) (string_body t) in
                      if (55296 <=? cp) && (cp <? 56320) then
                        match t with
                        | String s (String u (String a (String b (String c (String d t))))) =>
                            if bool_decide (s = backslash) && char_is u 117 then
                              match hex4 a b c d with
                              | Some lo =>
                                  if (56320 <=? lo) && (lo <? 57344)
                                  then push (utf8 (65536 + Z.shiftl (cp - 55296) 10 + (lo - 56320))) (string_body t)
                                  else alone
                              | None => alone
                              end
                            else alone
                        | _ => alone
                        end
                      else alone
                  end
              | _ => None
              end
            else push (String (unescape c) "") (string_body t)
        end
      else push (String c "") (string_body t)
  end.

(** [Reader::string] *)
Definition read_string (t : string) : option (string * string) :=
  match space t with
  | String c t => if bool_decide (c = dquote) then string_body t else None
  | "" => None
  end.

Definition number_char (c : Ascii.ascii) : bool :=
  isdigit c || char_is c 45 || char_is c 43 || char_is c 46 || char_is c 101 || char_is c 69.

Fixpoint span_number (t : string) : string * string :=
  match t with
  | String c rest => if number_char c then let '(number, rest) := span_number rest in (String c number, rest) else ("", t)
  | "" => ("", "")
  end.

Definition read_number (t : string) : option (Value * string) :=
  let '(number, rest) := span_number t in
  if String.eqb number "" then None else n ← strtod number; Some (Number n, rest).

(** The key of a member and its colon. *)
Definition read_key (t : string) : option (string * string) :=
  '(key, t) ← read_string t;
  match space t with String c t => if char_is c 58 then Some (key, t) else None | "" => None end.

(** The elements of an array or the members of an object, each of them [item]; every one but the last is
    followed by a comma. *)
Fixpoint elements (item : string -> option (Value * string)) (object : bool) (fuel : nat) (t : string)
    (done : list (string * Value)) : option (list (string * Value) * string) :=
  match fuel with
  | O => None
  | S fuel =>
      '(key, t) ← (if object then read_key t else Some ("", t));
      '(v, t) ← item t;
      match space t with
      | String c t =>
          if char_is c 44 then elements item object fuel t (done ++ [(key, v)])
          else if char_is c (if object then 125 else 93) then Some (done ++ [(key, v)], t)
          else None
      | "" => None
      end
  end.

Definition collect (object : bool) (fields : list (string * Value)) : Value :=
  if object then Object fields else Array fields.*2.

(** [Reader::value], with [levels] to go before the depth limit. *)
Fixpoint value (levels : nat) (t : string) : option (Value * string) :=
  match levels with
  | O => None
  | S levels =>
      let t := space t in
      match t with
      | "" => None
      | String c rest =>
          if bool_decide (c = dquote) then '(s, t) ← read_string t; Some (Str s, t)
          else match literal "null" t with Some t => Some (Null, t) | None =>
          match literal "true" t with Some t => Some (Bool true, t) | None =>
          match literal "false" t with Some t => Some (Bool false, t) | None =>
          if char_is c 91 || char_is c 123 then
            let object := char_is c 123 in
            let empty := match space rest with
                         | String d t => if char_is d (if object then 125 else 93) then Some t else None
                         | "" => None
                         end in
            match empty with
            | Some t => Some (collect object [], t)
            | None => '(fields, t) ← elements (value levels) object (S (String.length rest)) (space rest) []; Some (collect object fields, t)
            end
          else read_number t
          end end end
      end
  end.

(** The levels a value may nest: the limit fails at depth 65. *)
Definition kLevels : nat := 65.

Definition parse (text : string) : option Value :=
  '(v, t) ← value kLevels text;
  if String.eqb (space t) "" then Some v else None.

(** ** The writer *)

Definition hex_char (d : Z) : Ascii.ascii := nth (Z.to_nat d) (String.list_ascii_of_string "0123456789abcdef") Ascii.zero.

Definition quote_char (c : Ascii.ascii) : string :=
  if bool_decide (c = dquote) || bool_decide (c = backslash) then String backslash (String c "")
  else if code c <? 32 then
    String backslash ("u00" +:+ String (hex_char (Z.land (Z.shiftr (code c) 4) 15)) (String (hex_char (Z.land (code c) 15)) ""))
  else String c "".

Fixpoint escaped (quote_char : Ascii.ascii -> string) (s : string) : string :=
  match s with "" => "" | String c s => quote_char c +:+ escaped quote_char s end.

Definition quoted (quote_char : Ascii.ascii -> string) (s : string) : string := String dquote (escaped quote_char s +:+ String dquote "").

Definition quote (s : string) : string := quoted quote_char s.

(** ** What a written text is read as *)

(** A text of spaces. *)
Definition blank (t : string) : Prop := space t = "".

Lemma space_idem t : space (space t) = space t.
Proof. induction t as [|c t IH]; [done|]. cbn. destruct (isspace c) eqn:E; [done|]. cbn. by rewrite E. Qed.

Lemma space_app ws t : blank ws -> space (ws +:+ t) = space t.
Proof. unfold blank. induction ws as [|c ws IH]; [done|]. rewrite append_cons. cbn. destruct (isspace c); [apply IH | done]. Qed.

Lemma read_string_space t : read_string (space t) = read_string t.
Proof. unfold read_string. by rewrite space_idem. Qed.

Lemma read_key_space t : read_key (space t) = read_key t.
Proof. unfold read_key. by rewrite read_string_space. Qed.

Lemma value_space n t : value n (space t) = value n t.
Proof. destruct n; [done|]. cbn [value]. by rewrite space_idem. Qed.

Lemma value_blank n ws t : blank ws -> value n (ws +:+ t) = value n t.
Proof. intros H. by rewrite <- (value_space n (ws +:+ t)), space_app, value_space. Qed.

(** An escape of single characters that the reader undoes. *)
Definition escapes (f : Ascii.ascii -> string) : Prop := forall c t, string_body (f c +:+ t) = push (String c "") (string_body t).

Lemma quote_char_escapes : escapes quote_char.
Proof. intros [[] [] [] [] [] [] [] []] t; reflexivity. Qed.

Lemma string_body_escaped f s rest :
  escapes f -> string_body (escaped f s +:+ String dquote rest) = Some (s, rest).
Proof.
  intros Hf. induction s as [|c s IH]; [done|]. cbn [escaped]. rewrite append_assoc, Hf, IH. done.
Qed.

Lemma read_quoted f s rest :
  escapes f -> read_string (quoted f s +:+ rest) = Some (s, rest).
Proof. intros Hf. unfold quoted. rewrite append_cons, append_assoc. exact (string_body_escaped f s rest Hf). Qed.

(** What may follow a number: a character no number has, or the end. *)
Definition stops (rest : string) : Prop := match rest with "" => True | String c _ => number_char c = false end.

(** [t] is read as [v] with [n] levels to go, whatever follows it. *)
Definition renders (n : nat) (v : Value) (t : string) : Prop :=
  forall rest, stops rest -> value n (t +:+ rest) = Some (v, rest).

Lemma renders_string n f s : escapes f -> renders (S n) (Str s) (quoted f s).
Proof.
  intros Hf rest _. pose proof (read_quoted f s rest Hf) as H. unfold quoted in *. rewrite append_cons in *.
  change (('(s, t) ← read_string (String dquote ((escaped f s +:+ String dquote "") +:+ rest)); Some (Str s, t)) = Some (Str s, rest)). by rewrite H.
Qed.

Lemma renders_null n : renders (S n) Null "null".
Proof. intros rest _. done. Qed.

(** *** Numbers *)

Lemma round_whole a : round_half_even a 1 = a.
Proof. unfold round_half_even. rewrite Z.mod_1_r, Z.div_1_r. done. Qed.

(** Integers up to 2^53 are doubles. *)
Lemma round_double_exact undefined v : 0 <= v <= 2 ^ 53 -> to_u64 undefined (round_double false v 1) = v.
Proof.
  intros Hv. unfold round_double. destruct (Z.eqb_spec v 0) as [->|Hne]; [done|].
  destruct (Z.log2_spec v) as [Hlo Hhi]; [lia|]. set (l := Z.log2 v) in *.
  assert (0 <= l <= 53) as Hl. { split; [apply Z.log2_nonneg|]. change 53 with (Z.log2 (2 ^ 53)). apply Z.log2_le_mono. lia. }
  assert (last_place v 1 = l - 52) as He.
  { unfold last_place. change (Z.log2 1) with 0. fold l. rewrite Z.sub_0_r. destruct (Z.ltb_spec l 0); [lia|].
    destruct (Z.ltb_spec v (1 * 2 ^ l)); lia. }
  assert ((0 <=? v) && (v <? 2 ^ 64) = true) as Hfit by (apply andb_true_intro; split; [apply Z.leb_le | apply Z.ltb_lt]; lia).
  rewrite He. destruct (Z.ltb_spec (l - 52) 0) as [Hneg|Hpos].
  - rewrite round_whole. destruct (Z.ltb_spec 0 (l - 52)); [lia|]. rewrite andb_false_l. cbn [to_u64]. destruct (Z.leb_spec 0 (l - 52)); [lia|].
    rewrite Z.quot_mul by (apply Z.pow_nonzero; lia). by rewrite Hfit.
  - assert (l = 52 \/ l = 53 /\ v = 2 ^ 53) as [H52|[H53 Hv53]].
    { destruct (Z.eq_dec l 52); [by left|]. right. assert (l = 53) as -> by lia. split; [done | lia]. }
    + rewrite H52. change (1 * 2 ^ (52 - 52)) with 1. change (52 - 52) with 0. rewrite round_whole. change (0 <? 0) with false. rewrite andb_false_l. cbn [to_u64]. change (0 <=? 0) with true. cbv iota.
      change (2 ^ 0) with 1. by rewrite Z.mul_1_r, Hfit.
    + rewrite H53, Hv53. done.
Qed.

Lemma span_digits_app digits rest :
  all_digits digits = true -> match rest with "" => True | String c _ => isdigit c = false end ->
  span_digits (digits +:+ rest) = (digits, rest).
Proof.
  intros Hd Hr. induction digits as [|c digits IH]; [destruct rest as [|c rest]; [done|]; change ("" +:+ String c rest) with (String c rest); cbn [span_digits]; by rewrite Hr|].
  cbn [all_digits] in Hd. apply andb_prop in Hd as [Hc Hd]. rewrite append_cons. cbn [span_digits]. unfold isdigit. by rewrite Hc, IH.
Qed.

Lemma span_number_digits digits rest :
  all_digits digits = true -> stops rest -> span_number (digits +:+ rest) = (digits, rest).
Proof.
  intros Hd Hr. induction digits as [|c digits IH]; [destruct rest as [|c rest]; [done|]; change ("" +:+ String c rest) with (String c rest); cbn [span_number]; unfold stops in Hr; by rewrite Hr|].
  cbn [all_digits] in Hd. apply andb_prop in Hd as [Hc Hd]. rewrite append_cons. cbn [span_number]. unfold number_char, isdigit. by rewrite Hc, IH.
Qed.

Lemma sign_digit c t : is_digit c = true -> sign (String c t) = (false, String c t).
Proof. unfold is_digit, sign, char_is, code. intros H. bool_prop. destruct (Z.eqb_spec (Z.of_N (Ascii.N_of_ascii c)) 45); [lia|]. destruct (Z.eqb_spec (Z.of_N (Ascii.N_of_ascii c)) 43); [lia | done]. Qed.

Lemma strtod_digits digits :
  digits <> "" -> all_digits digits = true -> strtod digits = Some (round_double false (digits_value 0 digits) 1).
Proof.
  intros Hne Hd. destruct digits as [|c digits]; [done|]. pose proof Hd as Hc. cbn [all_digits] in Hc. apply andb_prop in Hc as [Hc _].
  unfold strtod. rewrite sign_digit by done. rewrite <- (append_nil (String c digits)) at 1. rewrite span_digits_app by done.
  rewrite append_nil. cbn [String.eqb exponent mbind option_bind String.length Z.of_nat]. f_equal. change (0 <=? 0 - Z.of_nat 0) with true. cbv iota.
  f_equal. change (10 ^ (0 - Z.of_nat 0)) with 1. lia.
Qed.

(** The double an integer is written and read as. *)
Definition number (v : Z) : double := round_double false v 1.

Lemma pretty_nonempty (v : Z) : pretty v <> "".
Proof.
  destruct (decide (0 <= v)) as [Hv|Hv].
  - rewrite pretty_Z_of_N by done. case_decide; [done|]. rewrite pretty_N_go_step by lia.
    pose proof (pretty_N_go_length (Z.to_N v `div` 10) (String (pretty_N_char (Z.to_N v `mod` 10)) "") (Z.to_nat (Z.of_N (Z.to_N v `div` 10)))) as H1.
    intros H2. rewrite H2 in H1. cbn in H1. rewrite Z2Nat.id in H1 by lia. pose proof (Z.pow_gt_lin_r 10 (Z.of_N (Z.to_N v `div` 10))). lia.
  - destruct v as [|p|p]; [lia|lia|]. done.
Qed.

Lemma renders_number n v : 0 <= v -> renders (S n) (Number (number v)) (pretty v).
Proof.
  intros Hv rest Hr. destruct (pretty_digits v Hv) as [Hval Hd]. pose proof (pretty_nonempty v) as Hne. pose proof (strtod_digits _ Hne Hd) as Hs. rewrite Hval in Hs.
  pose proof (span_number_digits _ _ Hd Hr) as Hspan. destruct (pretty v) as [|c digits]; [done|]. cbn [all_digits] in Hd. apply andb_prop in Hd as [Hc _].
  assert (read_number (String c digits +:+ rest) = Some (Number (number v), rest)) as H.
  { unfold read_number. rewrite Hspan, Hs. done. }
  rewrite append_cons in *. destruct c as [[] [] [] [] [] [] [] []]; try discriminate Hc; exact H.
Qed.

(** *** Arrays and objects *)

Lemma renders_blank n v ws t : blank ws -> renders n v t -> renders n v (ws +:+ t).
Proof. intros Hw Ht rest Hr. rewrite append_assoc, value_blank by done. by apply Ht. Qed.

(** An element as it is written: blanks, the key of a member with its colon, and the value. *)
Record piece := mkPiece { p_before : string; p_key : string; p_text : string; p_name : string; p_value : Value }.

Definition piece_text (p : piece) : string := p_before p +:+ p_key p +:+ p_text p.

Fixpoint joined (ps : list piece) : string :=
  match ps with
  | [] => ""
  | [p] => piece_text p
  | p :: ps => piece_text p +:+ "," +:+ joined ps
  end.

Definition fields_of (ps : list piece) : list (string * Value) := (fun p => (p_name p, p_value p)) <$> ps.

(** A text whose first character is neither a blank nor the end of an array. *)
Definition opens (t : string) : Prop := match t with "" => False | String c _ => isspace c = false /\ char_is c 93 = false end.

Record piece_ok (n : nat) (object : bool) (p : piece) : Prop := {
  po_before : blank (p_before p);
  po_key : if object then opens (p_key p) /\ char_is (default dquote (String.get 0 (p_key p))) 125 = false /\
                          forall rest, read_key (p_key p +:+ rest) = Some (p_name p, rest)
           else p_key p = "" /\ p_name p = "" /\ opens (p_text p);
  po_value : renders n (p_value p) (p_text p)
}.

(** What ends the elements. *)
Definition close_char (object : bool) : Ascii.ascii := chr (if object then 125 else 93).

Lemma stops_close (object : bool) ws rest : blank ws -> stops (ws +:+ String (close_char object) rest).
Proof.
  destruct ws as [|c ws]; [by destruct object|]. intros H. rewrite append_cons. unfold blank in H. cbn [space] in H. unfold stops.
  destruct c as [[] [] [] [] [] [] [] []]; try reflexivity; discriminate H.
Qed.

Lemma element_read n (object : bool) p rest :
  piece_ok n object p -> stops rest ->
  (if object then read_key (piece_text p +:+ rest) else Some ("", piece_text p +:+ rest)) ≫= (fun '(key, t) => '(v, t) ← value n t; Some (key, v, t)) =
  Some (p_name p, p_value p, rest).
Proof.
  intros [Hb Hk Hv] Hr. unfold piece_text. destruct object.
  - destruct Hk as (_ & _ & Hk). rewrite !append_assoc. rewrite <- read_key_space, space_app, read_key_space by done. rewrite Hk. cbn. by rewrite Hv.
  - destruct Hk as (-> & -> & _). rewrite !append_assoc. cbn [mbind option_bind]. rewrite value_blank by done. change ("" +:+ p_text p +:+ rest) with (p_text p +:+ rest). by rewrite Hv.
Qed.

Lemma elements_step (item : string -> option (Value * string)) (object : bool) fuel t acc key v t' :
  (if object then read_key t else Some ("", t)) ≫= (fun '(key, t) => '(v, t) ← item t; Some (key, v, t)) = Some (key, v, t') ->
  elements item object (S fuel) t acc =
  match space t' with
  | String c t =>
      if char_is c 44 then elements item object fuel t (acc ++ [(key, v)])
      else if char_is c (if object then 125 else 93) then Some (acc ++ [(key, v)], t)
      else None
  | "" => None
  end.
Proof.
  intros H. cbn [elements]. destruct (if object then read_key t else Some ("", t)) as [[k u]|]; [|discriminate H]. cbn [mbind option_bind] in *.
  destruct (item u) as [[w u']|]; [|discriminate H]. cbn in H. by injection H as -> -> ->.
Qed.

Lemma elements_pieces n object ps ws rest fuel acc :
  Forall (piece_ok n object) ps -> ps <> [] -> blank ws -> (length ps <= fuel)%nat ->
  elements (value n) object fuel (joined ps +:+ ws +:+ String (close_char object) rest) acc = Some (acc ++ fields_of ps, rest).
Proof.
  intros Hps Hne Hws. revert fuel acc. induction Hps as [|p ps Hp Hps IH]; intros fuel acc Hfuel; [done|].
  destruct fuel as [|fuel]; [cbn in Hfuel; lia|]. destruct ps as [|q ps].
  - cbn [joined]. rewrite (elements_step _ _ _ _ _ (p_name p) (p_value p) (ws +:+ String (close_char object) rest)).
    + rewrite space_app by done. by destruct object.
    + apply element_read; [done | by apply stops_close].
  - change (joined (p :: q :: ps)) with (piece_text p +:+ "," +:+ joined (q :: ps)). rewrite !append_assoc.
    rewrite (elements_step _ _ _ _ _ (p_name p) (p_value p) ("," +:+ joined (q :: ps) +:+ ws +:+ String (close_char object) rest)) by (by apply element_read).
    change (elements (value n) object fuel (joined (q :: ps) +:+ ws +:+ String (close_char object) rest) (acc ++ [(p_name p, p_value p)]) = Some (acc ++ fields_of (p :: q :: ps), rest)).
    rewrite IH; [|done|cbn in Hfuel |- *; lia]. by rewrite <- app_assoc.
Qed.

(** Where the text of the elements starts. *)
Lemma joined_opens n object ps rest :
  Forall (piece_ok n object) ps -> ps <> [] ->
  exists c t, space (joined ps +:+ rest) = String c t /\ char_is c (if object then 125 else 93) = false.
Proof.
  intros Hps Hne. destruct Hps as [|p ps [Hb Hk Hv] _]; [done|].
  assert (exists more, joined (p :: ps) +:+ rest = p_before p +:+ (p_key p +:+ p_text p +:+ more)) as [more ->].
  { destruct ps as [|q ps]; [exists rest | exists ("," +:+ joined (q :: ps) +:+ rest)].
    - cbn [joined]. unfold piece_text. by rewrite !append_assoc.
    - change (joined (p :: q :: ps)) with (piece_text p +:+ "," +:+ joined (q :: ps)). unfold piece_text. by rewrite !append_assoc. }
  rewrite space_app by done. destruct object.
  - destruct Hk as (Ho & Hc & _). destruct (p_key p) as [|c k]; [done|]. destruct Ho as [Hs _]. exists c, (k +:+ p_text p +:+ more). split; [|exact Hc].
    rewrite append_cons. cbn [space]. by rewrite Hs.
  - destruct Hk as (-> & _ & Ho). destruct (p_text p) as [|c k]; [done|]. destruct Ho as [Hs Hc]. exists c, (k +:+ more). split; [|exact Hc].
    change ("" +:+ String c k +:+ more) with (String c (k +:+ more)). cbn [space]. by rewrite Hs.
Qed.

Lemma joined_length ps : (length ps <= S (String.length (joined ps)))%nat.
Proof.
  induction ps as [|p ps IH]; [cbn; lia|]. destruct ps as [|q ps]; [cbn; lia|].
  change (joined (p :: q :: ps)) with (piece_text p +:+ "," +:+ joined (q :: ps)). rewrite !string_length_app. cbn [length String.length] in *. lia.
Qed.

Definition brackets (object : bool) (ps : list piece) (ws : string) : string :=
  String (chr (if object then 123 else 91)) (joined ps +:+ ws +:+ String (close_char object) "").

Lemma renders_brackets n object ps ws :
  Forall (piece_ok n object) ps -> blank ws -> renders (S n) (collect object (fields_of ps)) (brackets object ps ws).
Proof.
  intros Hps Hws rest Hr. unfold brackets. rewrite append_cons, !append_assoc, append_cons. change ("" +:+ rest) with rest.
  set (body := joined ps +:+ ws +:+ String (close_char object) rest).
  assert (value (S n) (String (chr (if object then 123 else 91)) body) =
    match match space body with String d t => if char_is d (if object then 125 else 93) then Some t else None | "" => None end with
    | Some t => Some (collect object [], t)
    | None => '(fields, t) ← elements (value n) object (S (String.length body)) (space body) []; Some (collect object fields, t)
    end) as -> by (by destruct object).
  destruct (decide (ps = [])) as [->|Hne].
  - subst body. change (joined []) with "". change ("" +:+ ws +:+ String (close_char object) rest) with (ws +:+ String (close_char object) rest).
    rewrite space_app by done. by destruct object.
  - destruct (joined_opens n object ps (ws +:+ String (close_char object) rest) Hps Hne) as (c & t & Hsp & Hc). fold body in Hsp. rewrite Hsp, Hc.
    assert (forall fuel, elements (value n) object fuel (String c t) [] = elements (value n) object fuel body []) as Heq.
    { intros [|fuel]; [done|]. rewrite <- Hsp. cbn [elements]. destruct object; [by rewrite read_key_space|]. cbn [mbind option_bind]. by rewrite value_space. }
    rewrite Heq. subst body. rewrite elements_pieces; [done|done|done|done|].
    rewrite !string_length_app. pose proof (joined_length ps). lia.
Qed.

(** *** The fuel of the elements

    Reading never gives back more text than it was given, and every element but the last takes a comma. *)

Definition shrinks {A} (read : string -> option (A * string)) : Prop :=
  forall t a t', read t = Some (a, t') -> (String.length t' <= String.length t)%nat.

Lemma space_length t : (String.length (space t) <= String.length t)%nat.
Proof. induction t as [|c t IH]; [done|]. cbn [space]. destruct (isspace c); cbn [String.length]; lia. Qed.

Lemma push_inv front r s rest : push front r = Some (s, rest) -> exists s', r = Some (s', rest).
Proof. destruct r as [[s' u]|]; [|done]. cbn. intros [= <- <-]. eauto. Qed.

Lemma string_body_shrinks : shrinks string_body.
Proof.
  intros t. induction t as [t IH] using (induction_ltof1 _ String.length). unfold ltof in IH. intros a t' H.
  assert (forall front u, (String.length u < String.length t)%nat -> push front (string_body u) = Some (a, t') -> (String.length t' <= String.length t)%nat) as Hp.
  { intros front u Hu Hpush. apply push_inv in Hpush as [s' Hs]. apply IH in Hs; lia. }
  destruct t as [|c t]; [done|]. cbn [string_body] in H. case_hyp H; [injection H as <- <-; cbn; lia|]. case_hyp H; [|eapply Hp; [|exact H]; cbn; lia].
  destruct t as [|c1 t]; [done|]. case_hyp H; [|eapply Hp; [|exact H]; cbn; lia].
  destruct t as [|d1 [|d2 [|d3 [|d4 t]]]]; try discriminate H. case_hyp H. case_hyp H; [|eapply Hp; [|exact H]; cbn; lia].
  destruct t as [|b [|u [|e1 [|e2 [|e3 [|e4 t]]]]]]; repeat case_hyp H; (eapply Hp; [|exact H]; cbn; lia).
Qed.

Lemma read_string_shrinks : shrinks read_string.
Proof.
  intros t a t' H. unfold read_string in H. pose proof (space_length t). destruct (space t) as [|c u]; [done|]. case_hyp H.
  apply string_body_shrinks in H. cbn in *. lia.
Qed.

Lemma read_key_shrinks : shrinks read_key.
Proof.
  intros t a t' H. unfold read_key, mbind, option_bind in H. destruct (read_string t) as [[k u]|] eqn:E; [|done]. apply read_string_shrinks in E.
  pose proof (space_length u). destruct (space u) as [|c w]; [done|]. case_hyp H. injection H as <- <-. cbn in *. lia.
Qed.

Lemma literal_shrinks word t t' : literal word t = Some t' -> (String.length t' <= String.length t)%nat.
Proof.
  revert t. induction word as [|a word IH]; intros t; [by intros [= ->]|]. destruct t as [|b t]; [done|]. cbn. case_bool_decide; [|done].
  intros H1%IH. lia.
Qed.

Lemma read_number_shrinks : shrinks read_number.
Proof.
  intros t a t' H. unfold read_number in H.
  assert (forall t, (String.length (span_number t).2 <= String.length t)%nat) as Hs.
  { clear. induction t as [|c t IH]; [done|]. cbn [span_number]. destruct (number_char c); [|done]. destruct (span_number t). cbn in *. lia. }
  specialize (Hs t). destruct (span_number t) as [number rest]. case_hyp H. destruct (strtod number); [|done]. cbn in *. injection H as <- <-. done.
Qed.

Lemma elements_shrinks item object fuel t acc fields t' :
  shrinks item -> elements item object fuel t acc = Some (fields, t') -> (String.length t' <= String.length t)%nat.
Proof.
  intros Hi. revert t acc. induction fuel as [|fuel IH]; intros t acc H; [done|]. cbn [elements] in H.
  assert (exists k u, (if object then read_key t else Some ("", t)) = Some (k, u) /\ (String.length u <= String.length t)%nat) as (k & u & E & Hu).
  { destruct object; [|by exists "", t]. destruct (read_key t) as [[k u]|] eqn:E; [|done]. exists k, u. split; [done|]. by apply read_key_shrinks in E. }
  rewrite E in H. cbn [mbind option_bind] in H. destruct (item u) as [[v w]|] eqn:Ei; [|done]. apply Hi in Ei. cbn in H. pose proof (space_length w).
  destruct (space w) as [|c x]; [done|]. cbn [String.length] in *. case_hyp H; [apply IH in H; lia|]. case_hyp H. injection H as <- <-. lia.
Qed.

Lemma value_shrinks n : shrinks (value n).
Proof.
  induction n as [|n IH]; intros t a t' H; [done|]. cbn [value] in H. pose proof (space_length t) as Hs. destruct (space t) as [|c rest] eqn:Et; [done|].
  case_hyp H.
  { unfold mbind, option_bind in H. destruct (read_string (String c rest)) as [[s u]|] eqn:E1; [|done]. apply read_string_shrinks in E1. injection H as <- <-. cbn in *. lia. }
  destruct (literal "null" (String c rest)) eqn:E1; [injection H as <- <-; apply literal_shrinks in E1; lia|].
  destruct (literal "true" (String c rest)) eqn:E2; [injection H as <- <-; apply literal_shrinks in E2; lia|].
  destruct (literal "false" (String c rest)) eqn:E3; [injection H as <- <-; apply literal_shrinks in E3; lia|].
  case_hyp H; [|apply read_number_shrinks in H; lia]. pose proof (space_length rest). cbn [String.length] in *.
  destruct (match space rest with String d t => if char_is d (if char_is c 123 then 125 else 93) then Some t else None | "" => None end) as [u|] eqn:Ee.
  { destruct (space rest) as [|d x]; [done|]. case_hyp Ee. injection Ee as <-. injection H as <- <-. cbn in *. lia. }
  unfold mbind, option_bind in H. destruct (elements (value n) (char_is c 123) (S (String.length rest)) (space rest) []) as [[fs u]|] eqn:Ef; [|done].
  injection H as <- <-. apply elements_shrinks in Ef; [lia | exact IH].
Qed.

(** Fuel beyond the text's length is never used. *)
Lemma elements_fuel n object fuel more t acc :
  (String.length t < fuel)%nat -> elements (value n) object (fuel + more) t acc = elements (value n) object fuel t acc.
Proof.
  revert t acc. induction fuel as [|fuel IH]; intros t acc Hf; [lia|]. cbn [Nat.add elements].
  destruct (if object then read_key t else Some ("", t)) as [[k u]|] eqn:E; [|done]. cbn [mbind option_bind].
  assert (String.length u <= String.length t)%nat as Hu by (destruct object; [by apply read_key_shrinks in E | by injection E as <- <-]).
  destruct (value n u) as [[v w]|] eqn:Ei; [|done]. apply value_shrinks in Ei. cbn. pose proof (space_length w).
  destruct (space w) as [|c x]; [done|]. cbn [String.length] in *. destruct (char_is c 44); [|done]. apply IH. lia.
Qed.

End Json.
