(* ===== verification/Int128.v ===== *)
(** * 128-bit integers (src/base/int128.hpp)

    Where the compiler has no [__int128] the decimal paths use a two-word class [Wide128] with the same
    operators. This file models the class: [Wide128] is the pair of words, [sg] the template argument
    [Signed], and every operator is translated word by word, with the wrap-around of [std::uint64_t]
    written out. [IntModel] is what the paths rely on (two's complement wrapping, truncating division,
    arithmetic right shift), stated over the integer an object stands for; the class is proved to have
    it. *)

From S2P Require Import Prelude.

Module Int128.

(** A 64-bit pattern read as [std::int64_t]. *)
Definition s64 (z : Z) : Z := if z <? 2 ^ 63 then z else z - 2 ^ 64.

Record Wide128 := wide { lo : Z; hi : Z }.

(** [Wide128()] and the implicit constructor from an integer of type [T]; [tsigned] is
    [std::is_signed_v<T>], and [v] the integer's value. *)
Definition zero : Wide128 := wide 0 0.
Definition of_int (tsigned : bool) (v : Z) : Wide128 :=
  wide (u64 v) (if tsigned && (s64 (u64 v) <? 0) then U64_MAX else 0).

Definition negative (sg : bool) (a : Wide128) : bool := sg && negb (Z.shiftr (hi a) 63 =? 0).

Definition bit (a : Wide128) (i : Z) : bool :=
  if 64 <=? i then negb (Z.land (Z.shiftr (hi a) (i - 64)) 1 =? 0)
  else negb (Z.land (Z.shiftr (lo a) i) 1 =? 0).

Definition eqb (a b : Wide128) : bool := (lo a =? lo b) && (hi a =? hi b).

Definition ltb (sg : bool) (a b : Wide128) : bool :=
  if negb (hi a =? hi b) then (if sg then s64 (hi a) <? s64 (hi b) else hi a <? hi b)
  else lo a <? lo b.

Definition gtb (sg : bool) (a b : Wide128) : bool := ltb sg b a.
Definition leb (sg : bool) (a b : Wide128) : bool := negb (ltb sg b a).
Definition geb (sg : bool) (a b : Wide128) : bool := negb (ltb sg a b).

Definition add (a b : Wide128) : Wide128 :=
  let lo_sum := u64 (lo a + lo b) in
  wide lo_sum (u64 (hi a + hi b + (if lo_sum <? lo a then 1 else 0))).

Definition sub (a b : Wide128) : Wide128 :=
  wide (u64 (lo a - lo b)) (u64 (hi a - hi b - (if lo a <? lo b then 1 else 0))).

Definition neg (a : Wide128) : Wide128 := sub zero a.

(** 64 x 64 -> 128 bits, by 32-bit limbs; the [Product] is the pair (lo, hi). *)
Definition mul64 (a b : Z) : Z * Z :=
  let mask := 0xFFFFFFFF in
  let a0 := Z.land a mask in
  let a1 := Z.shiftr a 32 in
  let b0 := Z.land b mask in
  let b1 := Z.shiftr b 32 in
  let p00 := u64 (a0 * b0) in
  let p01 := u64 (a0 * b1) in
  let p10 := u64 (a1 * b0) in
  let p11 := u64 (a1 * b1) in
  let mid := u64 (Z.shiftr p00 32 + Z.land p01 mask + Z.land p10 mask) in
  (Z.lor (u64 (Z.shiftl mid 32)) (Z.land p00 mask),
   u64 (p11 + Z.shiftr p01 32 + Z.shiftr p10 32 + Z.shiftr mid 32)).

Definition mul (a b : Wide128) : Wide128 :=
  let p := mul64 (lo a) (lo b) in
  wide p.1 (u64 (p.2 + u64 (lo a * hi b) + u64 (hi a * lo b))).

Definition band (a b : Wide128) : Wide128 := wide (Z.land (lo a) (lo b)) (Z.land (hi a) (hi b)).
Definition bor (a b : Wide128) : Wide128 := wide (Z.lor (lo a) (lo b)) (Z.lor (hi a) (hi b)).
Definition bxor (a b : Wide128) : Wide128 := wide (Z.lxor (lo a) (lo b)) (Z.lxor (hi a) (hi b)).

Definition shl (a : Wide128) (n : Z) : Wide128 :=
  if n =? 0 then a
  else if 128 <=? n then zero
  else if 64 <=? n then wide 0 (u64 (Z.shiftl (lo a) (n - 64)))
  else wide (u64 (Z.shiftl (lo a) n)) (Z.lor (u64 (Z.shiftl (hi a) n)) (Z.shiftr (lo a) (64 - n))).

Definition shr64 (x s fill : Z) : Z :=
  if s =? 0 then x else Z.lor (Z.shiftr x s) (u64 (Z.shiftl fill (64 - s))).

Definition shr (sg : bool) (a : Wide128) (n : Z) : Wide128 :=
  if n =? 0 then a
  else
    let fill := if sg && negative sg a then U64_MAX else 0 in
    if 128 <=? n then wide fill fill
    else if 64 <=? n then wide (shr64 (hi a) (n - 64) fill) fill
    else wide (Z.lor (Z.shiftr (lo a) n) (u64 (Z.shiftl (hi a) (64 - n)))) (shr64 (hi a) n fill).

(** |v| as the unsigned value with the same bits. *)
Definition magnitude (sg : bool) (v : Wide128) : Wide128 := if negative sg v then sub zero v else v.

(** One bit of the restoring division: the quotient and the remainder after bit [i]. *)
Definition udivmod_step (n d : Wide128) (i : Z) (q r : Wide128) : Wide128 * Wide128 :=
  let top := negb (Z.shiftr (hi r) 63 =? 0) in
  let r1 := shl r 1 in
  let r2 := wide (Z.lor (lo r1) (if bit n i then 1 else 0)) (hi r1) in
  let ge := top || negb ((hi r2 <? hi d) || ((hi r2 =? hi d) && (lo r2 <? lo d))) in
  if ge then (bor q (shl (wide 1 0) i), sub r2 d) else (q, r2).

(** The bits [k-1 .. 0]. *)
Fixpoint udivmod_bits (n d : Wide128) (k : nat) (q r : Wide128) : Wide128 * Wide128 :=
  match k with
  | O => (q, r)
  | S k => let '(q, r) := udivmod_step n d (Z.of_nat k) q r in udivmod_bits n d k q r
  end.

Definition udivmod (n d : Wide128) : Wide128 * Wide128 := udivmod_bits n d 128 zero zero.

Definition div (sg : bool) (a b : Wide128) : Wide128 :=
  let '(q, _) := udivmod (magnitude sg a) (magnitude sg b) in
  if negb (Bool.eqb (negative sg a) (negative sg b)) then neg q else q.

Definition rem (sg : bool) (a b : Wide128) : Wide128 :=
  let '(_, r) := udivmod (magnitude sg a) (magnitude sg b) in
  if negative sg a then neg r else r.

(** The overflow-checked operations: the wrapped value and whether it overflowed. *)
Definition add_overflow (a b : Wide128) : Wide128 * bool :=
  let r := add a b in
  (r, Bool.eqb (negative true a) (negative true b) && negb (Bool.eqb (negative true r) (negative true a))).

Definition sub_overflow (a b : Wide128) : Wide128 * bool :=
  let r := sub a b in
  (r, negb (Bool.eqb (negative true a) (negative true b)) && negb (Bool.eqb (negative true r) (negative true a))).

Definition mul_overflow (a b : Wide128) : Wide128 * bool :=
  let ma := magnitude true a in
  let mb := magnitude true b in
  let p00 := mul64 (lo ma) (lo mb) in
  let c1 := mul64 (hi ma) (lo mb) in
  let c2 := mul64 (lo ma) (hi mb) in
  let mid := u64 (c1.1 + c2.1) in
  let top := u64 (p00.2 + mid) in
  let ovf := (negb (hi ma =? 0) && negb (hi mb =? 0)) || negb (c1.2 =? 0) || negb (c2.2 =? 0)
            || (mid <? c1.1) || (top <? mid) in
  let r := mul a b in
  if ovf then (r, true)
  else
    let p := wide p00.1 top in
    let isneg := negb (Bool.eqb (negative true a) (negative true b)) in
    let fits := (Z.shiftr (hi p) 63 =? 0) || (isneg && (hi p =? u64 (Z.shiftl 1 63)) && (lo p =? 0)) in
    (r, negb fits).

(** ** What a 128-bit integer type promises *)

(** The integer of a 128-bit pattern, and the reduction of a result to the type. *)
Definition interp (sg : bool) (u : Z) : Z := if sg && (2 ^ 127 <=? u) then u - 2 ^ 128 else u.
Definition reduce (sg : bool) (z : Z) : Z := interp sg (z mod 2 ^ 128).
Definition in_range (sg : bool) (z : Z) : bool :=
  if sg then (- 2 ^ 127 <=? z) && (z <? 2 ^ 127) else (0 <=? z) && (z <? 2 ^ 128).

(** The arithmetic of a type [I], over the integer [val] an object stands for. *)
Record IntOps (I : Type) := {
  op_add : I -> I -> I; op_sub : I -> I -> I; op_neg : I -> I; op_mul : I -> I -> I;
  op_div : I -> I -> I; op_rem : I -> I -> I;
  op_and : I -> I -> I; op_or : I -> I -> I; op_xor : I -> I -> I;
  op_shl : I -> Z -> I; op_shr : I -> Z -> I;
  op_eqb : I -> I -> bool; op_ltb : I -> I -> bool;
}.
Arguments op_add {I}. Arguments op_sub {I}. Arguments op_neg {I}. Arguments op_mul {I}.
Arguments op_div {I}. Arguments op_rem {I}. Arguments op_and {I}. Arguments op_or {I}. Arguments op_xor {I}.
Arguments op_shl {I}. Arguments op_shr {I}. Arguments op_eqb {I}. Arguments op_ltb {I}.

(** Two's complement wrapping, truncating division (the remainder takes the dividend's sign), arithmetic
    right shift for the signed type. *)
Record IntModel {I : Type} (sg : bool) (wf : I -> Prop) (val : I -> Z) (o : IntOps I) : Prop := {
  m_range a : wf a -> in_range sg (val a) = true;
  m_inj a b : wf a -> wf b -> val a = val b -> a = b;
  m_add a b : wf a -> wf b -> wf (op_add o a b) /\ val (op_add o a b) = reduce sg (val a + val b);
  m_sub a b : wf a -> wf b -> wf (op_sub o a b) /\ val (op_sub o a b) = reduce sg (val a - val b);
  m_neg a : wf a -> wf (op_neg o a) /\ val (op_neg o a) = reduce sg (- val a);
  m_mul a b : wf a -> wf b -> wf (op_mul o a b) /\ val (op_mul o a b) = reduce sg (val a * val b);
  m_div a b : wf a -> wf b -> val b <> 0 ->
    wf (op_div o a b) /\ val (op_div o a b) = reduce sg (Z.quot (val a) (val b));
  m_rem a b : wf a -> wf b -> val b <> 0 -> wf (op_rem o a b) /\ val (op_rem o a b) = Z.rem (val a) (val b);
  m_and a b : wf a -> wf b -> wf (op_and o a b) /\ val (op_and o a b) = Z.land (val a) (val b);
  m_or a b : wf a -> wf b -> wf (op_or o a b) /\ val (op_or o a b) = Z.lor (val a) (val b);
  m_xor a b : wf a -> wf b -> wf (op_xor o a b) /\ val (op_xor o a b) = Z.lxor (val a) (val b);
  m_shl a n : wf a -> 0 <= n < 128 -> wf (op_shl o a n) /\ val (op_shl o a n) = reduce sg (val a * 2 ^ n);
  m_shr a n : wf a -> 0 <= n < 128 -> wf (op_shr o a n) /\ val (op_shr o a n) = val a / 2 ^ n;
  m_eqb a b : wf a -> wf b -> op_eqb o a b = (val a =? val b);
  m_ltb a b : wf a -> wf b -> op_ltb o a b = (val a <? val b);
}.

Definition wide_ops (sg : bool) : IntOps Wide128 := {|
  op_add := add; op_sub := sub; op_neg := neg; op_mul := mul; op_div := div sg; op_rem := rem sg;
  op_and := band; op_or := bor; op_xor := bxor; op_shl := shl; op_shr := shr sg; op_eqb := eqb; op_ltb := ltb sg |}.

(** An object of the class: two 64-bit words; the integer it stands for. *)
Definition wf (a : Wide128) : Prop := is_u64 (lo a) /\ is_u64 (hi a).
Definition uval (a : Wide128) : Z := lo a + hi a * 2 ^ 64.
Definition val (sg : bool) (a : Wide128) : Z := interp sg (uval a).

(** ** Words *)

Lemma wf_wide l h : is_u64 l -> is_u64 h -> wf (wide l h).
Proof. done. Qed.

#[local] Hint Resolve wf_wide u64_range : core.

Lemma uval_range a : wf a -> 0 <= uval a < 2 ^ 128.
Proof. unfold wf, uval, is_u64. intros. change (2 ^ 128) with (2 ^ 64 * 2 ^ 64). nia. Qed.

Lemma uval_inj a b : wf a -> wf b -> uval a = uval b -> a = b.
Proof.
  destruct a as [la ha], b as [lb hb]. unfold wf, uval, is_u64; cbn. intros.
  assert (ha = hb) by nia. f_equal; nia.
Qed.

Lemma shiftr63 h : is_u64 h -> negb (Z.shiftr h 63 =? 0) = (2 ^ 63 <=? h).
Proof.
  intros Hh. rewrite Z.shiftr_div_pow2 by lia. unfold is_u64 in Hh.
  destruct (Z.leb_spec (2 ^ 63) h); [|rewrite Z.div_small by lia; done].
  apply negb_true_iff, Z.eqb_neq. dlia.
Qed.

(** The sign bit is what [interp] looks at. *)
Lemma negative_spec sg a : wf a -> negative sg a = sg && (2 ^ 127 <=? uval a).
Proof.
  intros [Hl Hh]. unfold negative. rewrite shiftr63 by done. f_equal. unfold uval, is_u64 in *.
  destruct (Z.leb_spec (2 ^ 63) (hi a)), (Z.leb_spec (2 ^ 127) (lo a + hi a * 2 ^ 64)); lia.
Qed.

Lemma val_negative sg a : wf a -> val sg a = uval a - (if negative sg a then 2 ^ 128 else 0).
Proof. intros Ha. unfold val, interp. rewrite negative_spec by done. destruct (sg && _); lia. Qed.

Lemma negative_val sg a : wf a -> negative sg a = (val sg a <? 0).
Proof.
  intros Ha. rewrite val_negative by done. pose proof (uval_range a Ha). rewrite negative_spec by done.
  destruct sg; cbn [andb]; repeat case_bool; symmetry; (apply Z.ltb_lt || apply Z.ltb_ge); lia.
Qed.

Lemma mod128_add z k : (z + k * 2 ^ 128) mod 2 ^ 128 = z mod 2 ^ 128.
Proof. apply Z.mod_add. lia. Qed.

(** [val] and [uval] agree modulo 2^128. *)
Lemma val_mod sg a : wf a -> exists k, val sg a = uval a + k * 2 ^ 128.
Proof.
  intros Ha. rewrite val_negative by done. destruct (negative sg a); [exists (-1) | exists 0]; lia.
Qed.

Lemma reduce_interp sg z u : 0 <= u < 2 ^ 128 -> (exists k, z = u + k * 2 ^ 128) -> reduce sg z = interp sg u.
Proof. intros Hu [k ->]. unfold reduce. rewrite mod128_add, Z.mod_small by done. done. Qed.

Lemma reduce_id sg z : in_range sg z = true -> reduce sg z = z.
Proof.
  unfold in_range. intros H. destruct sg; bool_prop.
  - unfold reduce, interp. destruct (Z.lt_ge_cases z 0).
    + replace (z mod 2 ^ 128) with (z + 2 ^ 128) by (apply Z.mod_unique with (-1); lia).
      cbn [andb]. case_bool; lia.
    + rewrite Z.mod_small by lia. cbn [andb]. case_bool; lia.
  - unfold reduce. rewrite Z.mod_small by lia. done.
Qed.

Lemma val_range sg a : wf a -> in_range sg (val sg a) = true.
Proof.
  intros Ha. pose proof (uval_range a Ha). unfold in_range, val, interp.
  destruct sg; cbn [andb]; [destruct (Z.leb_spec (2 ^ 127) (uval a))|]; apply andb_true_iff; split;
    (apply Z.leb_le || apply Z.ltb_lt); lia.
Qed.

Lemma val_inj sg a b : wf a -> wf b -> val sg a = val sg b -> a = b.
Proof.
  intros Ha Hb E. apply uval_inj; try done. pose proof (uval_range a Ha). pose proof (uval_range b Hb).
  rewrite !val_negative in E by done. destruct (negative sg a), (negative sg b); lia.
Qed.

(** ** Addition, subtraction, multiplication *)

Lemma add_uval a b : wf a -> wf b -> wf (add a b) /\ exists k, uval (add a b) = uval a + uval b + k * 2 ^ 128.
Proof.
  intros [Hla Hha] [Hlb Hhb]. split; [apply wf_wide; apply u64_range|]. unfold add, uval, u64, wrap, is_u64 in *. cbn [lo hi].
  set (c := if _ <? _ then 1 else 0).
  assert (lo a + lo b = (lo a + lo b) mod 2 ^ 64 + c * 2 ^ 64) as Hc.
  { subst c. destruct (Z.ltb_spec ((lo a + lo b) mod 2 ^ 64) (lo a)); dlia. }
  exists (- ((hi a + hi b + c) / 2 ^ 64)). pose proof (Z.div_mod (hi a + hi b + c) (2 ^ 64) ltac:(lia)). lia.
Qed.

Lemma sub_uval a b : wf a -> wf b -> wf (sub a b) /\ exists k, uval (sub a b) = uval a - uval b + k * 2 ^ 128.
Proof.
  intros [Hla Hha] [Hlb Hhb]. split; [apply wf_wide; apply u64_range|]. unfold sub, uval, u64, wrap, is_u64 in *. cbn [lo hi].
  set (c := if _ <? _ then 1 else 0).
  assert (lo a - lo b = (lo a - lo b) mod 2 ^ 64 - c * 2 ^ 64) as Hc.
  { subst c. destruct (Z.ltb_spec (lo a) (lo b)); dlia. }
  exists (- ((hi a - hi b - c) / 2 ^ 64)). pose proof (Z.div_mod (hi a - hi b - c) (2 ^ 64) ltac:(lia)). lia.
Qed.

(** The 32-bit limbs give the exact product. *)
Lemma mul64_exact a b : is_u64 a -> is_u64 b ->
  is_u64 (mul64 a b).1 /\ is_u64 (mul64 a b).2 /\ (mul64 a b).1 + (mul64 a b).2 * 2 ^ 64 = a * b.
Proof.
  unfold is_u64. intros Ha Hb. unfold mul64. cbn [fst snd]. change 0xFFFFFFFF with (2 ^ 32 - 1).
  rewrite !land_low, !Z.shiftr_div_pow2 by lia.
  set (a0 := a mod 2 ^ 32). set (a1 := a / 2 ^ 32). set (b0 := b mod 2 ^ 32). set (b1 := b / 2 ^ 32).
  assert (a = a1 * 2 ^ 32 + a0 /\ b = b1 * 2 ^ 32 + b0) as [Ea Eb] by (subst a0 a1 b0 b1; split; dlia).
  assert (0 <= a0 < 2 ^ 32 /\ 0 <= a1 < 2 ^ 32 /\ 0 <= b0 < 2 ^ 32 /\ 0 <= b1 < 2 ^ 32) as (H0 & H1 & H2 & H3)
    by (subst a0 a1 b0 b1; split_and!; dlia).
  clearbody a0 a1 b0 b1. subst a b.
  rewrite (u64_small (a0 * b0)), (u64_small (a0 * b1)), (u64_small (a1 * b0)), (u64_small (a1 * b1)) by (unfold is_u64; nia).
  set (p00 := a0 * b0) in *. set (p01 := a0 * b1) in *. set (p10 := a1 * b0) in *. set (p11 := a1 * b1) in *.
  assert (0 <= p00 <= (2 ^ 32 - 1) * (2 ^ 32 - 1) /\ 0 <= p01 <= (2 ^ 32 - 1) * (2 ^ 32 - 1) /\
          0 <= p10 <= (2 ^ 32 - 1) * (2 ^ 32 - 1) /\ 0 <= p11 <= (2 ^ 32 - 1) * (2 ^ 32 - 1)) as (? & ? & ? & ?)
    by (subst p00 p01 p10 p11; split_and!; nia).
  replace ((a1 * 2 ^ 32 + a0) * (b1 * 2 ^ 32 + b0)) with (p11 * 2 ^ 64 + (p01 + p10) * 2 ^ 32 + p00)
    by (subst p00 p01 p10 p11; ring).
  clearbody p00 p01 p10 p11. clear H0 H1 H2 H3 a0 a1 b0 b1 Ha Hb.
  rewrite (u64_small (p00 / 2 ^ 32 + _ + _)) by (unfold is_u64; dlia).
  set (mid := p00 / 2 ^ 32 + p01 mod 2 ^ 32 + p10 mod 2 ^ 32).
  rewrite (u64_small (p11 + _ + _ + _)) by (unfold is_u64; subst mid; dlia).
  assert (u64 (Z.shiftl mid 32) = Z.shiftl (mid mod 2 ^ 32) 32) as ->.
  { unfold u64, wrap. rewrite !Z.shiftl_mul_pow2 by lia. change (2 ^ 64) with (2 ^ 32 * 2 ^ 32).
    rewrite Z.mul_mod_distr_r by lia. done. }
  rewrite lor_high_low by (try lia; apply Z.mod_pos_bound; lia).
  subst mid. split_and!; dlia.
Qed.

Lemma mul_uval a b : wf a -> wf b -> wf (mul a b) /\ exists k, uval (mul a b) = uval a * uval b + k * 2 ^ 128.
Proof.
  intros [Hla Hha] [Hlb Hhb]. destruct (mul64_exact (lo a) (lo b)) as (H1 & H2 & E); [done..|].
  split; [apply wf_wide; [done | apply u64_range]|]. unfold mul, uval, u64, wrap. cbn [lo hi].
  set (h := (mul64 (lo a) (lo b)).2 + _ + _).
  pose proof (Z.div_mod h (2 ^ 64) ltac:(lia)) as Dh.
  pose proof (Z.div_mod (lo a * hi b) (2 ^ 64) ltac:(lia)) as D1. pose proof (Z.div_mod (hi a * lo b) (2 ^ 64) ltac:(lia)) as D2.
  exists (- (h / 2 ^ 64) - lo a * hi b / 2 ^ 64 - hi a * lo b / 2 ^ 64 - hi a * hi b).
  change (2 ^ 128) with (2 ^ 64 * 2 ^ 64). subst h. lia.
Qed.

(** ** Bits *)

Lemma testbit_word x i : is_u64 x -> 64 <= i -> Z.testbit x i = false.
Proof.
  intros Hx Hi. rewrite <- (Z.mod_small x (2 ^ 64)) by exact Hx. apply Z.mod_pow2_bits_high. lia.
Qed.

Lemma negative_bit sg a : wf a -> negative sg a = sg && Z.testbit (hi a) 63.
Proof.
  intros [_ Hh]. unfold negative. rewrite shiftr63 by done. f_equal.
  rewrite Z.testbit_eqb by lia. unfold is_u64 in Hh.
  destruct (Z.leb_spec (2 ^ 63) (hi a)); symmetry; [apply Z.eqb_eq | apply Z.eqb_neq]; dlia.
Qed.

(** The bits of the integer an object stands for: those of its words, then its sign. *)
Lemma val_bits sg a i : wf a -> 0 <= i ->
  Z.testbit (val sg a) i =
    (if i <? 64 then Z.testbit (lo a) i else if i <? 128 then Z.testbit (hi a) (i - 64) else negative sg a).
Proof.
  intros Ha Hi. pose proof (uval_range a Ha) as Hr. destruct Ha as [Hl Hh].
  assert (forall j, 0 <= j < 128 ->
    Z.testbit (uval a) j = if j <? 64 then Z.testbit (lo a) j else Z.testbit (hi a) (j - 64)) as Hu.
  { intros j Hj. unfold uval. rewrite <- lor_shiftl_add by (exact Hl || lia). rewrite Z.lor_spec, Z.shiftl_spec by lia.
    destruct (Z.ltb_spec j 64).
    - rewrite (Z.testbit_neg_r (hi a)) by lia. apply orb_false_r.
    - rewrite (testbit_word (lo a)) by (done || lia). done. }
  rewrite val_negative by done. destruct (Z.lt_ge_cases i 128) as [H128|H128].
  - rewrite <- (Z.mod_pow2_bits_low (uval a - _) 128 i) by lia.
    replace ((uval a - _) mod 2 ^ 128) with (uval a).
    + rewrite Hu by lia. repeat case_bool; try done; lia.
    + destruct (negative sg a); [|rewrite Z.sub_0_r, Z.mod_small by lia; done].
      apply Z.mod_unique with (-1); lia.
  - known_false (i <? 64).
    known_false (i <? 128).
    destruct (negative sg a).
    + rewrite <- (Z.lnot_involutive (uval a - 2 ^ 128)), Z.lnot_spec by lia. apply negb_true_iff.
      rewrite <- (Z.mod_small (Z.lnot _) (2 ^ 128)) by (unfold Z.lnot; lia). apply Z.mod_pow2_bits_high. lia.
    + rewrite Z.sub_0_r, <- (Z.mod_small (uval a) (2 ^ 128)) by lia. apply Z.mod_pow2_bits_high. lia.
Qed.

Lemma word_bits x : 0 <= x -> (forall i, 64 <= i -> Z.testbit x i = false) -> is_u64 x.
Proof. intros Hx Hb. split; [done|]. apply Z.bounded_iff_bits_nonneg; [lia | done | auto]. Qed.

Lemma land_word x y : is_u64 x -> is_u64 y -> is_u64 (Z.land x y).
Proof.
  intros Hx Hy. apply word_bits; [apply Z.land_nonneg; left; apply Hx|].
  intros i Hi. by rewrite Z.land_spec, testbit_word.
Qed.

Lemma lor_word x y : is_u64 x -> is_u64 y -> is_u64 (Z.lor x y).
Proof. intros Hx Hy. apply lor_bound; (exact Hx || exact Hy || lia). Qed.

Lemma lxor_word x y : is_u64 x -> is_u64 y -> is_u64 (Z.lxor x y).
Proof.
  intros Hx Hy. apply word_bits; [apply Z.lxor_nonneg; split; intros; [apply Hy | apply Hx]|].
  intros i Hi. by rewrite Z.lxor_spec, !testbit_word.
Qed.

Lemma shiftr_word x n : is_u64 x -> 0 <= n -> is_u64 (Z.shiftr x n).
Proof.
  intros Hx Hn. apply word_bits; [apply Z.shiftr_nonneg, Hx|]. intros i Hi.
  rewrite Z.shiftr_spec by lia. apply testbit_word; [done | lia].
Qed.

Lemma u64_max_word : is_u64 U64_MAX.
Proof. done. Qed.

#[local] Hint Resolve land_word lor_word lxor_word shiftr_word u64_max_word : core.

Lemma fill_word (b : bool) : is_u64 (if b then U64_MAX else 0).
Proof. by destruct b. Qed.

Lemma fill_bits (b : bool) i : 0 <= i -> Z.testbit (if b then U64_MAX else 0) i = b && (i <? 64).
Proof.
  intros Hi. destruct b; [|by rewrite Z.bits_0]. change U64_MAX with (Z.ones 64). cbn [andb].
  destruct (Z.ltb_spec i 64); [apply Z.ones_spec_low; lia | apply Z.ones_spec_high; lia].
Qed.

Lemma u64_bits x i : 0 <= i -> Z.testbit (u64 x) i = (i <? 64) && Z.testbit x i.
Proof.
  intros Hi. unfold u64, wrap. destruct (Z.ltb_spec i 64); cbn [andb];
    [apply Z.mod_pow2_bits_low; lia | apply Z.mod_pow2_bits_high; lia].
Qed.

(** Two objects whose bits are combined by [f]. *)
Lemma bitwise_val sg (g : Z -> Z -> Z) (f : bool -> bool -> bool) a b :
  (forall x y i, 0 <= i -> Z.testbit (g x y) i = f (Z.testbit x i) (Z.testbit y i)) ->
  (forall x y, is_u64 x -> is_u64 y -> is_u64 (g x y)) -> f false false = false -> wf a -> wf b ->
  let r := wide (g (lo a) (lo b)) (g (hi a) (hi b)) in wf r /\ val sg r = g (val sg a) (val sg b).
Proof.
  intros Hg Hw Hf Ha Hb r. assert (wf r) as Hr by (destruct Ha, Hb; apply wf_wide; auto). split; [done|].
  apply Z.bits_inj'. intros i Hi. rewrite Hg, !val_bits by done. unfold r at 1 2; cbn [lo hi].
  case_bool; [by rewrite Hg|]. case_bool; [rewrite Hg by lia; done|].
  rewrite !negative_bit by done. unfold r; cbn [hi]. rewrite Hg by lia. by destruct sg.
Qed.

Lemma band_val sg a b : wf a -> wf b -> wf (band a b) /\ val sg (band a b) = Z.land (val sg a) (val sg b).
Proof. intros. apply (bitwise_val sg Z.land andb); auto. intros. apply Z.land_spec. Qed.

Lemma bor_val sg a b : wf a -> wf b -> wf (bor a b) /\ val sg (bor a b) = Z.lor (val sg a) (val sg b).
Proof. intros. apply (bitwise_val sg Z.lor orb); auto. intros. apply Z.lor_spec. Qed.

Lemma bxor_val sg a b : wf a -> wf b -> wf (bxor a b) /\ val sg (bxor a b) = Z.lxor (val sg a) (val sg b).
Proof. intros. apply (bitwise_val sg Z.lxor xorb); auto. intros. apply Z.lxor_spec. Qed.

Lemma shr64_bits x s (b : bool) i : is_u64 x -> 0 <= s < 64 -> 0 <= i < 64 ->
  Z.testbit (shr64 x s (if b then U64_MAX else 0)) i = if i + s <? 64 then Z.testbit x (i + s) else b.
Proof.
  intros Hx Hs Hi. unfold shr64. destruct (Z.eqb_spec s 0) as [->|].
  { rewrite Z.add_0_r. case_bool; [done | lia]. }
  rewrite Z.lor_spec, Z.shiftr_spec, u64_bits, Z.shiftl_spec by lia.
  known_true (i <? 64). cbn [andb]. destruct (Z.ltb_spec (i + s) 64).
  - rewrite (Z.testbit_neg_r (if b then _ else _)) by lia. apply orb_false_r.
  - rewrite testbit_word, fill_bits by (done || lia). cbn [orb]. known_true (i - (64 - s) <? 64).
    apply andb_true_r.
Qed.

Lemma shr64_word x s (b : bool) : is_u64 x -> 0 <= s -> is_u64 (shr64 x s (if b then U64_MAX else 0)).
Proof. intros. unfold shr64. case_bool; auto. Qed.

(** The arithmetic right shift. *)
Lemma shr_val sg a n : wf a -> 0 <= n < 128 -> wf (shr sg a n) /\ val sg (shr sg a n) = val sg a / 2 ^ n.
Proof.
  intros Ha Hn. pose proof Ha as [Hl Hh]. unfold shr. destruct (Z.eqb_spec n 0) as [->|Hn0].
  { split; [done|]. by rewrite Z.pow_0_r, Z.div_1_r. }
  known_false (128 <=? n).
  replace (sg && negative sg a) with (negative sg a) by (unfold negative; by destruct sg).
  set (r := if 64 <=? n then _ else _).
  assert (wf r) as Hr.
  { unfold r. case_bool; apply wf_wide; auto using shr64_word, fill_word with lia. }
  split; [done|]. rewrite <- Z.shiftr_div_pow2 by lia. apply Z.bits_inj'. intros i Hi.
  rewrite Z.shiftr_spec, !val_bits by (done || lia).
  assert (negative sg r = negative sg a) as ->.
  { rewrite (negative_bit sg r) by done. unfold r. case_bool; cbn [hi].
    - rewrite fill_bits by lia. rewrite andb_true_r. unfold negative. by destruct sg.
    - rewrite shr64_bits by (done || lia). known_false (63 + n <? 64).
      unfold negative. by destruct sg. }
  unfold r. destruct (Z.leb_spec 64 n); cbn [lo hi].
  - known_false (i + n <? 64).
    destruct (Z.ltb_spec i 64).
    + rewrite shr64_bits by (done || lia). repeat case_bool; try lia; try done. f_equal. lia.
    + known_false (i + n <? 128).
      case_bool; [|done]. rewrite fill_bits by lia. known_true (i - 64 <? 64).
      apply andb_true_r.
  - destruct (Z.ltb_spec i 64).
    + rewrite Z.lor_spec, Z.shiftr_spec, u64_bits, Z.shiftl_spec by lia.
      known_true (i <? 64). cbn [andb].
      destruct (Z.ltb_spec (i + n) 64).
      * rewrite (Z.testbit_neg_r (hi a)) by lia. apply orb_false_r.
      * rewrite testbit_word by (done || lia). known_true (i + n <? 128).
        cbn [orb]. f_equal. lia.
    + known_false (i + n <? 64). destruct (Z.ltb_spec i 128).
      * rewrite shr64_bits by (done || lia). repeat case_bool; try lia; try done. f_equal. lia.
      * known_false (i + n <? 128). done.
Qed.

(** The left shift drops what leaves the high word. *)
Lemma shl_uval a n : wf a -> 0 <= n < 128 -> wf (shl a n) /\ uval (shl a n) = (uval a * 2 ^ n) mod 2 ^ 128.
Proof.
  intros Ha Hn. pose proof Ha as [Hl Hh].
  assert (wf (shl a n)) as Hr.
  { unfold shl. repeat case_bool; try done; apply wf_wide; auto with lia; try apply (fill_word false). }
  split; [done|]. change (uval (shl a n)) with (val false (shl a n)). change (uval a) with (val false a).
  rewrite <- Z.shiftl_mul_pow2 by lia. apply Z.bits_inj'. intros i Hi.
  destruct (Z.lt_ge_cases i 128) as [H128|H128].
  2: { rewrite Z.mod_pow2_bits_high, val_bits by (done || lia). repeat case_bool; try lia. done. }
  rewrite Z.mod_pow2_bits_low, Z.shiftl_spec by lia. rewrite (val_bits _ (shl a n)) by done.
  known_true (i <? 128).
  destruct (Z.lt_ge_cases (i - n) 0) as [Hneg|Hpos].
  - rewrite (Z.testbit_neg_r (val false a)) by lia. unfold shl. repeat case_bool; try lia; cbn [lo hi].
    + apply Z.bits_0.
    + rewrite u64_bits, Z.shiftl_spec, (Z.testbit_neg_r (lo a)) by lia. apply andb_false_r.
    + rewrite u64_bits, Z.shiftl_spec, (Z.testbit_neg_r (lo a)) by lia. apply andb_false_r.
  - rewrite val_bits by (done || lia). known_true (i - n <? 128).
    unfold shl. destruct (Z.eqb_spec n 0) as [->|]; [by rewrite Z.sub_0_r|].
    destruct (Z.leb_spec 128 n); [lia|]. destruct (Z.leb_spec 64 n); cbn [lo hi].
    + destruct (Z.ltb_spec i 64); [lia|]. rewrite u64_bits, Z.shiftl_spec by lia.
      known_true (i - 64 <? 64). cbn [andb].
      known_true (i - n <? 64). f_equal. lia.
    + destruct (Z.ltb_spec i 64).
      * known_true (i - n <? 64). rewrite u64_bits, Z.shiftl_spec by lia.
        known_true (i <? 64). done.
      * rewrite Z.lor_spec, u64_bits, Z.shiftl_spec, Z.shiftr_spec by lia.
        known_true (i - 64 <? 64). cbn [andb].
        destruct (Z.ltb_spec (i - n) 64).
        -- rewrite (Z.testbit_neg_r (hi a)) by lia. cbn [orb]. f_equal. lia.
        -- rewrite (testbit_word (lo a)) by (done || lia). rewrite orb_false_r. f_equal. lia.
Qed.

(** ** Comparison *)

Lemma s64_interp x : is_u64 x -> s64 x = x - (if 2 ^ 63 <=? x then 2 ^ 64 else 0).
Proof. intros. unfold s64. repeat case_bool; lia. Qed.

Lemma ltb_val sg a b : wf a -> wf b -> ltb sg a b = (val sg a <? val sg b).
Proof.
  intros Ha Hb. rewrite !val_negative by done. unfold negative. pose proof Ha as [? Hha]. pose proof Hb as [? Hhb].
  rewrite !shiftr63 by done. unfold ltb, uval. rewrite !s64_interp by done. unfold is_u64 in *.
  destruct sg; cbn [andb]; destruct (Z.eqb_spec (hi a) (hi b)) as [E|E]; cbn [negb];
    [rewrite E|..]; repeat case_bool; match goal with |- (?x <? ?y) = (?z <? ?w) => destruct (Z.ltb_spec x y), (Z.ltb_spec z w) end;
    done || (exfalso; lia).
Qed.

Lemma eqb_val sg a b : wf a -> wf b -> eqb a b = (val sg a =? val sg b).
Proof.
  intros Ha Hb. unfold eqb. destruct (Z.eqb_spec (val sg a) (val sg b)) as [E|E].
  - apply val_inj in E as ->; [|done..]. by rewrite !Z.eqb_refl.
  - destruct (Z.eqb_spec (lo a) (lo b)), (Z.eqb_spec (hi a) (hi b)); try done. destruct E. destruct a, b; cbn in *; by subst.
Qed.

(** ** Division *)

Lemma bit_val a i : wf a -> 0 <= i < 128 -> (if bit a i then 1 else 0) = uval a / 2 ^ i mod 2.
Proof.
  intros Ha Hi. assert (bit a i = Z.testbit (uval a) i) as ->.
  { change (uval a) with (val false a). rewrite val_bits by (done || lia). unfold bit.
    known_true (i <? 128). change 1 with (2 ^ 0).
    destruct (Z.leb_spec 64 i); [known_false (i <? 64) | known_true (i <? 64)];
      rewrite land_pow2_testbit, negb_involutive, Z.shiftr_spec by lia; f_equal; lia. }
  rewrite <- Z.testbit_spec' by lia. by destruct (Z.testbit _ _).
Qed.

Lemma uval_ltb a b : wf a -> wf b -> (hi a <? hi b) || ((hi a =? hi b) && (lo a <? lo b)) = (uval a <? uval b).
Proof.
  intros [? ?] [? ?]. unfold uval, is_u64 in *.
  destruct (Z.ltb_spec (hi a) (hi b)), (Z.eqb_spec (hi a) (hi b)), (Z.ltb_spec (lo a) (lo b)); cbn [andb orb]; symmetry;
    (apply Z.ltb_lt; lia) || (apply Z.ltb_ge; lia).
Qed.

(** One step doubles the remainder, takes the next bit of the dividend and subtracts the divisor when it fits. *)
Lemma udivmod_step_spec n d i q r : wf n -> wf d -> wf q -> wf r -> 0 <= i < 128 ->
  uval r < uval d -> (uval q) mod 2 ^ (i + 1) = 0 ->
  let '(q', r') := udivmod_step n d i q r in
  let R := 2 * uval r + uval n / 2 ^ i mod 2 in
  wf q' /\ wf r' /\ uval r' < uval d /\ uval q' mod 2 ^ i = 0 /\
  exists c, R = c * uval d + uval r' /\ uval q' = uval q + c * 2 ^ i.
Proof.
  intros Hn Hd Hq Hr Hi Hlt Hmod. unfold udivmod_step. destruct (shl_uval r 1 Hr ltac:(lia)) as [Hw1 Hv1].
  rewrite Z.pow_1_r in Hv1. set (r1 := shl r 1) in *. pose proof (bit_val n i Hn Hi) as Hb. set (b := if bit n i then 1 else 0) in *.
  assert (0 <= b < 2) as Hb01 by (subst b; destruct (bit n i); lia).
  pose proof (uval_range r Hr) as Rr. pose proof (uval_range d Hd) as Rd. pose proof (uval_range q Hq) as Rq.
  assert (lo r1 mod 2 = 0) as Heven.
  { unfold uval in Hv1. change (2 ^ 128) with (2 * 2 ^ 127) in Hv1. destruct Hw1. unfold is_u64 in *. dlia. }
  assert (Z.lor (lo r1) b = lo r1 + b) as Hlor.
  { rewrite Z.lor_comm. replace (lo r1) with (Z.shiftl (lo r1 / 2) 1) by (rewrite Z.shiftl_mul_pow2 by lia; dlia).
    rewrite lor_shiftl_add, Z.shiftl_mul_pow2 by lia. lia. }
  set (r2 := wide (Z.lor (lo r1) b) (hi r1)).
  assert (wf r2) as Hw2 by (destruct Hw1; apply wf_wide; [apply lor_word; [done | unfold is_u64; lia] | done]).
  assert (uval r2 = (uval r * 2) mod 2 ^ 128 + b) as Hv2 
    by (rewrite <- Hv1; unfold r2, uval; cbn [lo hi]; rewrite Hlor; lia).
  rewrite uval_ltb, (shiftr63 (hi r)) by (done || apply Hr).
  assert ((2 ^ 63 <=? hi r) = (2 ^ 127 <=? uval r)) as ->.
  { destruct Hr. unfold uval, is_u64 in *.
    destruct (Z.leb_spec (2 ^ 63) (hi r)); symmetry; (apply Z.leb_le; lia) || (apply Z.leb_gt; lia). }
  assert (uval r * 2 = (uval r * 2) mod 2 ^ 128 + (if 2 ^ 127 <=? uval r then 2 ^ 128 else 0)) as Htop
    by (destruct (Z.leb_spec (2 ^ 127) (uval r)); dlia).
  assert (0 < 2 ^ i) as Hp by (apply Z.pow_pos_nonneg; lia).
  rewrite Z.pow_add_r, Z.pow_1_r in Hmod by lia.
  assert ((uval q) mod 2 ^ i = 0) as Hmod'.
  { apply Z.mod_divide in Hmod as [k Hk]; [|lia]. rewrite Hk. replace (k * (2 ^ i * 2)) with (k * 2 * 2 ^ i) by lia. apply Z.mod_mul. lia. }
  destruct ((2 ^ 127 <=? uval r) || negb (uval r2 <? uval d)) eqn:Ege.
  - destruct (sub_uval r2 d Hw2 Hd) as [Hws [k Hvs]]. pose proof (uval_range _ Hws) as Rs.
    destruct (shl_uval (wide 1 0) i) as [Hwo Hvo]; [done | done |]. change (uval (wide 1 0)) with 1 in Hvo.
    rewrite Z.mul_1_l, Z.mod_small in Hvo by (split; [lia | apply Z.pow_lt_mono_r; lia]).
    assert (uval (bor q (shl (wide 1 0) i)) = uval q + 2 ^ i) as Hvq.
    { change (uval (bor q (shl (wide 1 0) i))) with (val false (bor q (shl (wide 1 0) i))).
      rewrite (proj2 (bor_val false q _ Hq Hwo)).
      change (val false) with uval. rewrite Hvo. apply Z.mod_divide in Hmod as [j Hj]; [|lia].
      rewrite Hj, Z.lor_comm. replace (j * (2 ^ i * 2)) with (Z.shiftl j (i + 1))
        by (rewrite Z.shiftl_mul_pow2, Z.pow_add_r by lia; lia).
      assert (2 ^ (i + 1) = 2 * 2 ^ i) by (rewrite Z.pow_add_r by lia; lia).
      rewrite lor_shiftl_add, Z.shiftl_mul_pow2 by lia. lia. }
    assert (uval r2 - uval d + (if 2 ^ 127 <=? uval r then 2 ^ 128 else 0) = uval (sub r2 d)) as Hs.
    { destruct (2 ^ 127 <=? uval r) eqn:E1; bool_prop; [assert (k = 1) by lia | cbn [orb] in Ege; bool_prop; assert (k = 0) by lia]; lia. }
    split_and!; [by apply (bor_val false) | done | lia | |].
    + rewrite Hvq. rewrite <- (Z.mul_1_l (2 ^ i)) at 1. rewrite Z.mod_add by lia. done.
    + exists 1. lia.
  - apply orb_false_iff in Ege as [E1 E2]. bool_prop. rewrite (proj2 (Z.leb_gt _ _)) in Htop by lia.
    split_and!; [done | done | lia | done |]. exists 0. lia.
Qed.

Lemma udivmod_bits_spec n d k q r : wf n -> wf d -> wf q -> wf r -> (k <= 128)%nat ->
  uval r < uval d -> (uval q) mod 2 ^ Z.of_nat k = 0 -> uval n / 2 ^ Z.of_nat k = uval q / 2 ^ Z.of_nat k * uval d + uval r ->
  let '(q', r') := udivmod_bits n d k q r in
  wf q' /\ wf r' /\ uval r' < uval d /\ uval n = uval q' * uval d + uval r'.
Proof.
  intros Hn Hd. revert q r. induction k as [|k IH]; intros q r Hq Hr Hk Hlt Hmod Hinv.
  { cbn. rewrite !Z.div_1_r in Hinv. done. }
  cbn [udivmod_bits]. replace (Z.of_nat (S k)) with (Z.of_nat k + 1) in * by lia.
  pose proof (udivmod_step_spec n d (Z.of_nat k) q r Hn Hd Hq Hr ltac:(lia) Hlt Hmod) as Hs.
  destruct (udivmod_step n d (Z.of_nat k) q r) as [q' r']. destruct Hs as (Hq' & Hr' & Hlt' & Hmod' & c & Hc & Hvq).
  apply IH; [done | done | lia | done | done |].
  rewrite Z.pow_add_r, Z.pow_1_r in * by lia. assert (0 < 2 ^ Z.of_nat k) as Hp by (apply Z.pow_pos_nonneg; lia).
  rewrite <- !Z.div_div in Hinv by lia.
  apply Z.mod_divide in Hmod as [j Hj]; [|lia].
  assert (uval q / 2 ^ Z.of_nat k = 2 * j) as Hq2 by (rewrite Hj; symmetry; apply Z.div_unique_exact; lia).
  rewrite Hvq, Z.div_add, Hq2 by lia. rewrite Hq2 in Hinv.
  replace (2 * j / 2) with j in Hinv by (apply Z.div_unique_exact; lia).
  pose proof (Z.div_mod (uval n / 2 ^ Z.of_nat k) 2 ltac:(lia)). nia.
Qed.

Lemma udivmod_spec n d : wf n -> wf d -> 0 < uval d ->
  let '(q, r) := udivmod n d in wf q /\ wf r /\ uval q = uval n / uval d /\ uval r = uval n mod uval d.
Proof.
  intros Hn Hd H0. unfold udivmod. pose proof (uval_range n Hn).
  pose proof (udivmod_bits_spec n d 128 zero zero Hn Hd ltac:(done) ltac:(done) ltac:(lia)) as Hs.
  change (uval zero) with 0 in Hs. change (Z.of_nat 128) with 128 in Hs.
  rewrite (Z.div_small (uval n)) in Hs by lia. specialize (Hs H0 eq_refl eq_refl).
  destruct (udivmod_bits n d 128 zero zero) as [q r]. destruct Hs as (Hq & Hr & Hlt & E). pose proof (uval_range r Hr).
  split_and!; [done | done | |]; [apply Z.div_unique with (uval r) | apply Z.mod_unique with (uval q)]; lia.
Qed.

Lemma neg_uval a : wf a -> wf (neg a) /\ exists k, uval (neg a) = - uval a + k * 2 ^ 128.
Proof. intros Ha. destruct (sub_uval zero a ltac:(done) Ha) as [Hw [k Hk]]. split; [done|]. exists k. unfold neg. rewrite Hk. done. Qed.

Lemma magnitude_spec sg v : wf v -> wf (magnitude sg v) /\ uval (magnitude sg v) = Z.abs (val sg v).
Proof.
  intros Hv. pose proof (uval_range v Hv). rewrite val_negative by done.
  unfold magnitude. destruct (negative sg v) eqn:En; [|split; [done | lia]].
  destruct (neg_uval v Hv) as [Hw [k Hk]]. pose proof (uval_range _ Hw). split; [done|].
  rewrite negative_spec in En by done. bool_prop. unfold neg in *. assert (k = 1) by lia. lia.
Qed.

(** An operation whose result's pattern is right modulo 2^128 has the reduced value. *)
Lemma val_reduce sg r z : wf r -> (exists k, uval r = z + k * 2 ^ 128) -> val sg r = reduce sg z.
Proof.
  intros Hr [k Hk]. unfold val. symmetry. apply reduce_interp; [by apply uval_range|]. exists (- k). lia.
Qed.

Lemma quot_abs x y : y <> 0 -> Z.quot x y = (if xorb (x <? 0) (y <? 0) then -1 else 1) * (Z.abs x / Z.abs y).
Proof.
  intros Hy. rewrite <- Z.quot_div_nonneg by lia.
  destruct (Z.ltb_spec x 0), (Z.ltb_spec y 0); cbn [xorb];
    rewrite ?(Z.abs_neq x), ?(Z.abs_eq x), ?(Z.abs_neq y), ?(Z.abs_eq y) by lia;
    rewrite ?Z.quot_opp_opp, ?Z.quot_opp_l, ?Z.quot_opp_r by lia; lia.
Qed.

Lemma rem_abs x y : y <> 0 -> Z.rem x y = (if x <? 0 then -1 else 1) * (Z.abs x mod Z.abs y).
Proof.
  intros Hy. rewrite <- Z.rem_mod_nonneg by lia.
  destruct (Z.ltb_spec x 0), (Z.ltb_spec y 0);
    rewrite ?(Z.abs_neq x), ?(Z.abs_eq x), ?(Z.abs_neq y), ?(Z.abs_eq y) by lia;
    rewrite ?Z.rem_opp_opp, ?Z.rem_opp_l, ?Z.rem_opp_r by lia; lia.
Qed.

Lemma div_val sg a b : wf a -> wf b -> val sg b <> 0 ->
  wf (div sg a b) /\ val sg (div sg a b) = reduce sg (Z.quot (val sg a) (val sg b)).
Proof.
  intros Ha Hb H0. destruct (magnitude_spec sg a Ha) as [Hwa Hva], (magnitude_spec sg b Hb) as [Hwb Hvb].
  unfold div. pose proof (udivmod_spec _ _ Hwa Hwb ltac:(lia)) as Hs.
  destruct (udivmod _ _) as [q r]. destruct Hs as (Hq & _ & Eq & _). rewrite Hva, Hvb in Eq.
  rewrite quot_abs, !negative_val by done.
  destruct (val sg a <? 0), (val sg b <? 0); cbn [Bool.eqb negb xorb];
    try (split; [done|]; apply val_reduce; [done | exists 0; lia]);
    destruct (neg_uval q Hq) as [Hw [k Hk]]; (split; [done|]); apply val_reduce; [done | exists k; lia | done | exists k; lia].
Qed.

Lemma rem_val sg a b : wf a -> wf b -> val sg b <> 0 -> wf (rem sg a b) /\ val sg (rem sg a b) = Z.rem (val sg a) (val sg b).
Proof.
  intros Ha Hb H0. destruct (magnitude_spec sg a Ha) as [Hwa Hva], (magnitude_spec sg b Hb) as [Hwb Hvb].
  assert (in_range sg (Z.rem (val sg a) (val sg b)) = true) as Hrange.
  { pose proof (val_range sg a Ha) as R. rewrite rem_abs by done. pose proof (Z.mod_pos_bound (Z.abs (val sg a)) (Z.abs (val sg b)) ltac:(lia)).
    pose proof (Z.mod_le (Z.abs (val sg a)) (Z.abs (val sg b)) ltac:(lia) ltac:(lia)).
    unfold in_range in *. destruct sg; bool_prop; apply andb_true_iff; split;
      (apply Z.leb_le || apply Z.ltb_lt); destruct (Z.ltb_spec (val true a) 0), (Z.ltb_spec (val false a) 0); lia. }
  rewrite <- (reduce_id sg _ Hrange), rem_abs by done.
  unfold rem. pose proof (udivmod_spec _ _ Hwa Hwb ltac:(lia)) as Hs.
  destruct (udivmod _ _) as [q r]. destruct Hs as (_ & Hr & _ & Er). rewrite Hva, Hvb in Er.
  rewrite negative_val by done. destruct (val sg a <? 0).
  - destruct (neg_uval r Hr) as [Hw [k Hk]]. split; [done|]. apply val_reduce; [done | exists k; lia].
  - split; [done|]. apply val_reduce; [done | exists 0; lia].
Qed.

(** ** The class is the type *)

Lemma shl_val sg a n : wf a -> 0 <= n < 128 -> wf (shl a n) /\ val sg (shl a n) = reduce sg (val sg a * 2 ^ n).
Proof.
  intros Ha Hn. destruct (shl_uval a n Ha Hn) as [Hw Hv]. split; [done|]. apply val_reduce; [done|].
  destruct (val_mod sg a Ha) as [k Hk]. rewrite Hv, Hk, Z.mod_eq by lia.
  exists (- (uval a * 2 ^ n / 2 ^ 128) - k * 2 ^ n). lia.
Qed.

(** Results that are right modulo 2^128 on the patterns are right on the integers. *)
Lemma lift2 sg (f : Wide128 -> Wide128 -> Wide128) (g : Z -> Z -> Z) a b :
  (forall x y j k, exists m, g (x + j * 2 ^ 128) (y + k * 2 ^ 128) = g x y + m * 2 ^ 128) ->
  wf a -> wf b -> wf (f a b) /\ (exists k, uval (f a b) = g (uval a) (uval b) + k * 2 ^ 128) ->
  wf (f a b) /\ val sg (f a b) = reduce sg (g (val sg a) (val sg b)).
Proof.
  intros Hg Ha Hb [Hw [k Hk]]. split; [done|]. apply val_reduce; [done|].
  destruct (val_mod sg a Ha) as [ka Ea], (val_mod sg b Hb) as [kb Eb]. destruct (Hg (uval a) (uval b) ka kb) as [m Hm].
  exists (k - m). rewrite Ea, Eb, Hm. lia.
Qed.

Lemma add_val sg a b : wf a -> wf b -> wf (add a b) /\ val sg (add a b) = reduce sg (val sg a + val sg b).
Proof. intros. apply (lift2 sg add Z.add); auto using add_uval. intros x y j k. exists (j + k). lia. Qed.

Lemma sub_val sg a b : wf a -> wf b -> wf (sub a b) /\ val sg (sub a b) = reduce sg (val sg a - val sg b).
Proof. intros. apply (lift2 sg sub Z.sub); auto using sub_uval. intros x y j k. exists (j - k). lia. Qed.

Lemma mul_val sg a b : wf a -> wf b -> wf (mul a b) /\ val sg (mul a b) = reduce sg (val sg a * val sg b).
Proof.
  intros. apply (lift2 sg mul Z.mul); auto using mul_uval.
  intros x y j k. exists (x * k + y * j + j * k * 2 ^ 128). ring.
Qed.

Lemma neg_val sg a : wf a -> wf (neg a) /\ val sg (neg a) = reduce sg (- val sg a).
Proof.
  intros Ha. destruct (sub_val sg zero a ltac:(done) Ha) as [Hw Hv]. split; [done|]. unfold neg. rewrite Hv.
  replace (val sg zero) with 0 by (by destruct sg). done.
Qed.

(** C35: (refinement): the two-word class is a 128-bit integer type, signed or unsigned: addition,
    subtraction, negation and multiplication wrap, division truncates and the remainder takes the
    dividend's sign, the bitwise operators and the shifts act on the two's complement representation (the
    right shift is arithmetic for the signed type), and the comparisons order the integers. *)
Theorem wide128_is_int128 (sg : bool) : IntModel sg wf (val sg) (wide_ops sg).
Proof.
  constructor; cbn [op_add op_sub op_neg op_mul op_div op_rem op_and op_or op_xor op_shl op_shr op_eqb op_ltb wide_ops];
    auto using val_range, add_val, sub_val, neg_val, mul_val, div_val, rem_val, band_val, bor_val, bxor_val, shl_val,
      shr_val, eqb_val, ltb_val.
  intros a b. apply val_inj.
Qed.

(** ** Overflow checks *)

Lemma in_range_reduce z : in_range true (reduce true z) = true.
Proof.
  pose proof (Z.mod_pos_bound z (2 ^ 128) ltac:(lia)). unfold in_range, reduce, interp. cbn [andb].
  destruct (Z.leb_spec (2 ^ 127) (z mod 2 ^ 128)); apply andb_true_iff; split; (apply Z.leb_le || apply Z.ltb_lt); lia.
Qed.

(** A sum of two integers of the type is off by at most one turn. *)
Lemma reduce_near z : - 2 ^ 128 <= z < 2 ^ 128 ->
  reduce true z = z + (if z <? - 2 ^ 127 then 2 ^ 128 else if z <? 2 ^ 127 then 0 else - 2 ^ 128).
Proof.
  intros Hz. set (z' := z + _). rewrite <- (reduce_id true z').
  - unfold reduce. f_equal. subst z'. repeat case_bool; [rewrite <- (mod128_add z 1) | | rewrite <- (mod128_add z (-1))]; f_equal; lia.
  - subst z'. unfold in_range. repeat case_bool; apply andb_true_iff; split; (apply Z.leb_le || apply Z.ltb_lt); lia.
Qed.

Lemma in_range_true z : in_range true z = true -> - 2 ^ 127 <= z < 2 ^ 127.
Proof. unfold in_range. intros. bool_prop. lia. Qed.

Lemma in_range_false z : z < - 2 ^ 127 \/ 2 ^ 127 <= z -> in_range true z = false.
Proof. unfold in_range. intros []; apply andb_false_iff; [left; apply Z.leb_gt | right; apply Z.ltb_ge]; lia. Qed.

(** The sign test of a sum: both operands on one side and the result on the other. *)
Lemma sign_test x y z : - 2 ^ 127 <= x < 2 ^ 127 -> - 2 ^ 127 <= y < 2 ^ 127 -> z = x + y ->
  Bool.eqb (x <? 0) (y <? 0) && negb (Bool.eqb (reduce true z <? 0) (x <? 0)) = negb (in_range true z).
Proof.
  intros Hx Hy ->. rewrite reduce_near by lia. unfold in_range.
  destruct (Z.ltb_spec (x + y) (- 2 ^ 127)); [|destruct (Z.ltb_spec (x + y) (2 ^ 127))].
  - known_false (- 2 ^ 127 <=? x + y). known_true (x <? 0). known_true (y <? 0). known_false (x + y + 2 ^ 128 <? 0). done.
  - known_true (- 2 ^ 127 <=? x + y). rewrite Z.add_0_r. cbn [andb negb].
    destruct (Z.ltb_spec x 0), (Z.ltb_spec y 0), (Z.ltb_spec (x + y) 0); cbn; try done; lia.
  - known_true (- 2 ^ 127 <=? x + y). known_false (x <? 0). known_false (y <? 0). known_true (x + y + - 2 ^ 128 <? 0). done.
Qed.

Lemma add_overflow_spec a b : wf a -> wf b ->
  add_overflow a b = (add a b, negb (in_range true (val true a + val true b))).
Proof.
  intros Ha Hb. unfold add_overflow. destruct (add_val true a b Ha Hb) as [Hw Hv]. rewrite !negative_val by done. rewrite Hv.
  f_equal. apply sign_test; [apply in_range_true, (val_range true); done..|done].
Qed.

Lemma sub_overflow_spec a b : wf a -> wf b ->
  sub_overflow a b = (sub a b, negb (in_range true (val true a - val true b))).
Proof.
  intros Ha Hb. unfold sub_overflow. destruct (sub_val true a b Ha Hb) as [Hw Hv]. rewrite !negative_val by done. rewrite Hv.
  f_equal. pose proof (in_range_true _ (val_range true a Ha)) as Hx. pose proof (in_range_true _ (val_range true b Hb)) as Hy.
  set (x := val true a) in *. set (y := val true b) in *. clearbody x y. clear Hw Hv Ha Hb.
  rewrite reduce_near by lia. unfold in_range.
  destruct (Z.ltb_spec (x - y) (- 2 ^ 127)); [|destruct (Z.ltb_spec (x - y) (2 ^ 127))].
  - known_false (- 2 ^ 127 <=? x - y). known_true (x <? 0). known_false (y <? 0). known_false (x - y + 2 ^ 128 <? 0). done.
  - known_true (- 2 ^ 127 <=? x - y). rewrite Z.add_0_r. cbn [andb negb].
    destruct (Z.ltb_spec x 0), (Z.ltb_spec y 0), (Z.ltb_spec (x - y) 0); cbn; try done; lia.
  - known_true (- 2 ^ 127 <=? x - y). known_false (x <? 0). known_true (y <? 0). known_true (x - y + - 2 ^ 128 <? 0). done.
Qed.

(** The word arithmetic of [mul_overflow] on magnitudes: overflow, or the exact product in two words. *)
Lemma mul_words (ma mb : Wide128) : wf ma -> wf mb ->
  let p00 := mul64 (lo ma) (lo mb) in let c1 := mul64 (hi ma) (lo mb) in let c2 := mul64 (lo ma) (hi mb) in
  let mid := u64 (c1.1 + c2.1) in let top := u64 (p00.2 + mid) in
  if (negb (hi ma =? 0) && negb (hi mb =? 0)) || negb (c1.2 =? 0) || negb (c2.2 =? 0) || (mid <? c1.1) || (top <? mid)
  then 2 ^ 128 <= uval ma * uval mb
  else wf (wide p00.1 top) /\ uval (wide p00.1 top) = uval ma * uval mb.
Proof.
  intros [Hla Hha] [Hlb Hhb] p00 c1 c2 mid top. unfold uval; cbn [lo hi].
  destruct (mul64_exact (lo ma) (lo mb) Hla Hlb) as (P1 & P2 & P3), (mul64_exact (hi ma) (lo mb) Hha Hlb) as (Q1 & Q2 & Q3),
    (mul64_exact (lo ma) (hi mb) Hla Hhb) as (R1 & R2 & R3). fold p00 in P1, P2, P3. fold c1 in Q1, Q2, Q3. fold c2 in R1, R2, R3.
  assert ((lo ma + hi ma * 2 ^ 64) * (lo mb + hi mb * 2 ^ 64) =
          p00.1 + (p00.2 + (c1.1 + c2.1)) * 2 ^ 64 + (c1.2 + c2.2 + hi ma * hi mb) * 2 ^ 128) as E.
  { change (2 ^ 128) with (2 ^ 64 * 2 ^ 64). nia. }
  rewrite E. unfold is_u64 in *. assert (0 <= hi ma * hi mb) by nia. clear P3 Q3 R3 E.
  clearbody p00 c1 c2. set (hh := hi ma * hi mb) in *.
  destruct (_ || _ || _ || _ || _) eqn:Eo.
  - rewrite !orb_true_iff, andb_true_iff, !negb_true_iff, !Z.eqb_neq, !Z.ltb_lt in Eo.
    destruct Eo as [[[[[? ?]|?]|?]|Hm]|Ht].
    + assert (1 <= hh) by (subst hh; nia). lia.
    + lia.
    + lia.
    + unfold mid, u64, wrap in Hm. assert (2 ^ 64 <= c1.1 + c2.1) by dlia. lia.
    + unfold top, mid, u64, wrap in Ht. assert (2 ^ 64 <= p00.2 + (c1.1 + c2.1)) by dlia. lia.
  - rewrite !orb_false_iff, andb_false_iff, !negb_false_iff, !Z.eqb_eq, !Z.ltb_ge in Eo.
    destruct Eo as [[[[Hz ?] ?] Hm] Ht]. assert (hh = 0) as Hh by (subst hh; destruct Hz as [-> | ->]; lia).
    rewrite Hh. clearbody hh.
    assert (c1.1 + c2.1 < 2 ^ 64) by (unfold mid, u64, wrap in Hm; dlia).
    assert (mid = c1.1 + c2.1) as Emid by (apply u64_small; unfold is_u64; lia).
    assert (p00.2 + mid < 2 ^ 64) by (unfold top, u64, wrap in Ht; clearbody mid; dlia).
    assert (top = p00.2 + mid) as -> by (apply u64_small; unfold is_u64; lia).
    split; [split; unfold is_u64; cbn; lia | lia].
Qed.

Lemma fits_spec p0 top z (same : bool) : is_u64 p0 -> is_u64 top -> p0 + top * 2 ^ 64 = Z.abs z ->
  z = (if same then Z.abs z else - Z.abs z) ->
  (Z.shiftr top 63 =? 0) || (negb same && (top =? u64 (Z.shiftl 1 63)) && (p0 =? 0)) = in_range true z.
Proof.
  intros Hp0 Htop Hp Hs. rewrite <- (negb_involutive (Z.shiftr top 63 =? 0)), shiftr63 by done.
  change (u64 (Z.shiftl 1 63)) with (2 ^ 63). unfold in_range, is_u64 in *.
  destruct same; cbn [negb andb]; destruct (Z.leb_spec (2 ^ 63) top); cbn [negb orb];
    repeat match goal with |- context [?u =? ?v] => destruct (Z.eqb_spec u v) end; cbn [andb orb]; symmetry;
    solve [apply andb_true_iff; split; (apply Z.leb_le || apply Z.ltb_lt); lia
          | apply andb_false_iff; (left; apply Z.leb_gt; lia) || (right; apply Z.ltb_ge; lia)].
Qed.

Lemma sign_product x y : x * y = if Bool.eqb (x <? 0) (y <? 0) then Z.abs (x * y) else - Z.abs (x * y).
Proof. destruct (Z.ltb_spec x 0), (Z.ltb_spec y 0); cbn [Bool.eqb]; nia. Qed.

Lemma mul_overflow_spec a b : wf a -> wf b ->
  mul_overflow a b = (mul a b, negb (in_range true (val true a * val true b))).
Proof.
  intros Ha Hb. unfold mul_overflow. destruct (magnitude_spec true a Ha) as [Hwa Hva], (magnitude_spec true b Hb) as [Hwb Hvb].
  pose proof (mul_words _ _ Hwa Hwb) as Hm. cbn zeta in Hm. rewrite Hva, Hvb, <- Z.abs_mul in Hm.
  rewrite !negative_val by done. destruct (_ || _ || _ || _ || _).
  - rewrite in_range_false by lia. done.
  - destruct Hm as [[Hp0 Htop] Hp]. f_equal. f_equal. cbn [hi lo] in *. apply fits_spec; [done.. | apply sign_product].
Qed.

(** the overflow-checked operations on the signed class give the wrapped result and report
    overflow exactly when the sum, difference or product of the two integers is not a 128-bit signed
    integer, the minimum included; without overflow the result is the exact one. *)
Theorem overflow_checks_exact a b r ovf : wf a -> wf b ->
  (add_overflow a b = (r, ovf) -> ovf = negb (in_range true (val true a + val true b)) /\
     (ovf = false -> val true r = val true a + val true b)) /\
  (sub_overflow a b = (r, ovf) -> ovf = negb (in_range true (val true a - val true b)) /\
     (ovf = false -> val true r = val true a - val true b)) /\
  (mul_overflow a b = (r, ovf) -> ovf = negb (in_range true (val true a * val true b)) /\
     (ovf = false -> val true r = val true a * val true b)).
Proof.
  intros Ha Hb. rewrite add_overflow_spec, sub_overflow_spec, mul_overflow_spec by done.
  split_and!; intros [= <- <-]; (split; [done|]); intros Hr%negb_false_iff.
  - rewrite (proj2 (add_val true a b Ha Hb)). by apply reduce_id.
  - rewrite (proj2 (sub_val true a b Ha Hb)). by apply reduce_id.
  - rewrite (proj2 (mul_val true a b Ha Hb)). by apply reduce_id.
Qed.

(** The minimum times minus one overflows; times one it does not. *)
Lemma overflow_checks_witness :
  mul_overflow (wide 0 (2 ^ 63)) (of_int true (-1)) = (wide 0 (2 ^ 63), true) /\
  true = negb (in_range true (val true (wide 0 (2 ^ 63)) * val true (of_int true (-1)))).
Proof.
  split; [vm_compute; reflexivity|].
  apply (overflow_checks_exact (wide 0 (2 ^ 63)) (of_int true (-1)) (wide 0 (2 ^ 63)) true);
    [split; done | split; done | vm_compute; reflexivity].
Defined.

End Int128.
