(* ===== verification/Decimal.v ===== *)
(** * Decimal arithmetic of expressions (src/expr/expr.cpp, values)

    A decimal's unscaled value is 256 bits of two's complement in four 64-bit limbs; exact arithmetic runs on
    a [Magnitude], 1024 bits in 32-bit limbs. Limbs are lists, least significant first; every loop over them
    is translated with its carry. [mval] is the integer of a magnitude, [lval] of a decimal's limbs: the
    routines are proved against them. *)

From S2P Require Import Prelude Json.

Module Decimal.

Definition Limbs256 := list Z.
Definition Magnitude := list Z.

Definition mag_zero : Magnitude := replicate 32 0.

(** The loop of [mag_mul_small] from a limb on, with the carry into it. *)
Fixpoint mul_limbs (f carry : Z) (w : list Z) : list Z :=
  match w with
  | [] => []
  | limb :: w => let t := u64 (limb * f + carry) in u32 t :: mul_limbs f (Z.shiftr t 32) w
  end.
Definition mag_mul_small (m : Magnitude) (f : Z) : Magnitude := mul_limbs f 0 m.

Fixpoint add_limbs (carry : Z) (w : list Z) : list Z :=
  match w with
  | [] => []
  | limb :: w => let t := u64 (limb + carry) in u32 t :: add_limbs (Z.shiftr t 32) w
  end.
Definition mag_add_small (m : Magnitude) (f : Z) : Magnitude := add_limbs f m.

(** The limbs from the most significant on, with the remainder so far. *)
Fixpoint div_limbs (d rem : Z) (rw : list Z) : list Z * Z :=
  match rw with
  | [] => ([], rem)
  | limb :: rw =>
      let cur := Z.lor (u64 (Z.shiftl rem 32)) limb in
      let '(q, r) := div_limbs d (cur mod d) rw in
      (u32 (cur / d) :: q, r)
  end.
Definition mag_div_small (m : Magnitude) (d : Z) : Magnitude * Z :=
  let '(q, r) := div_limbs d 0 (reverse m) in (reverse q, u32 r).

Fixpoint pow10_loop (k : nat) (p : Z) : Z := match k with O => p | S k => pow10_loop k (u32 (p * 10)) end.
Definition pow10_small (k : Z) : Z := pow10_loop (Z.to_nat k) 1.

(** [for (; k >= 9; k -= 9)], as many rounds as the fuel; [k] itself is enough. *)
Fixpoint mul_nines (fuel : nat) (m : Magnitude) (k : Z) : Magnitude * Z :=
  match fuel with
  | O => (m, k)
  | S fuel => if 9 <=? k then mul_nines fuel (mag_mul_small m 1000000000) (k - 9) else (m, k)
  end.
Definition mag_mul_pow10 (m : Magnitude) (k : Z) : Magnitude :=
  let '(m, k) := mul_nines (Z.to_nat k) m k in
  if 0 <? k then mag_mul_small m (pow10_small k) else m.

Fixpoint div_nines (fuel : nat) (m : Magnitude) (rest : Z) : Magnitude * Z :=
  match fuel with
  | O => (m, rest)
  | S fuel => if 9 <=? rest then div_nines fuel (mag_div_small m 1000000000).1 (rest - 9) else (m, rest)
  end.
Definition mag_div_pow10_round (m : Magnitude) (k : Z) : Magnitude :=
  if k <=? 0 then m
  else
    let '(m, rest) := div_nines (Z.to_nat (k - 1)) m (k - 1) in
    let m := if 0 <? rest then (mag_div_small m (pow10_small rest)).1 else m in
    let '(m, digit) := mag_div_small m 10 in
    if 5 <=? digit then mag_add_small m 1 else m.

(** From the most significant limb down. *)
Fixpoint cmp_limbs (ra rb : list Z) : Z :=
  match ra, rb with
  | x :: ra, y :: rb => if negb (x =? y) then (if x <? y then -1 else 1) else cmp_limbs ra rb
  | _, _ => 0
  end.
Definition mag_cmp (a b : Magnitude) : Z := cmp_limbs (reverse a) (reverse b).

(** The remainders of repeated division by 10^9, least significant first; 1024 bits have at most 35 of them
    (10^9 > 2^29). *)
Fixpoint digit_chunks (fuel : nat) (m : Magnitude) : list Z :=
  match fuel with
  | O => []
  | S fuel =>
      let '(m, c) := mag_div_small m 1000000000 in
      c :: (if existsb (fun x => negb (x =? 0)) m then digit_chunks fuel m else [])
  end.

Definition zeros (n : nat) : string := String.string_of_list_ascii (replicate n (Json.chr 48)).

(** [%09u]. *)
Definition pad9 (c : Z) : string := let t := pretty c in zeros (9 - String.length t) +:+ t.

Definition mag_digits (m : Magnitude) : string :=
  match reverse (digit_chunks 36 m) with
  | [] => ""
  | c :: cs => foldl (fun out c => out +:+ pad9 c) (pretty c) cs
  end.

Definition mag_text (m : Magnitude) (scale : Z) (negative : bool) : string :=
  let digits := mag_digits m in
  let digits :=
    if 0 <? scale then
      let digits := if Z.of_nat (String.length digits) <=? scale
                    then zeros (Z.to_nat (scale + 1) - String.length digits) +:+ digits else digits in
      let at_ := (String.length digits - Z.to_nat scale)%nat in
      String.substring 0 at_ digits +:+ "." +:+ String.substring at_ (Z.to_nat scale) digits
    else digits in
  (if negative then "-" else "") +:+ digits.

Definition limbs_negative (l : Limbs256) : bool := negb (Z.shiftr (nth 3 l 0) 63 =? 0).

(** [if (++x != 0) break]. *)
Fixpoint increment (l : list Z) : list Z :=
  match l with
  | [] => []
  | x :: l => let x := u64 (x + 1) in if negb (x =? 0) then x :: l else x :: increment l
  end.
Definition negate_limbs (l : Limbs256) : Limbs256 := increment ((fun x => U64_MAX - x) <$> l).

(** The two halves of each limb. *)
Definition split_limbs (l : list Z) : list Z := concat ((fun x => [u32 x; Z.shiftr x 32]) <$> l).

Definition limbs_magnitude (l : Limbs256) : Magnitude :=
  let l := if limbs_negative l then negate_limbs l else l in
  split_limbs l ++ replicate 24 0.

Fixpoint join_limbs (w : list Z) : list Z :=
  match w with
  | lo :: hi :: w => Z.lor lo (Z.shiftl hi 32) :: join_limbs w
  | _ => []
  end.
Definition magnitude_limbs (m : Magnitude) (negative : bool) : Limbs256 :=
  let l := join_limbs (take 8 m) in if negative then negate_limbs l else l.

(** [parse_decimal_text], its three loops and the result (magnitude, negative, scale). The digit loop stops
    at the first other character, or fails on the 77th digit. *)
Fixpoint parse_digits (t : string) (m : Magnitude) (digits frac : Z) (point : bool)
    : option (string * Magnitude * Z * Z) :=
  match t with
  | "" => Some ("", m, digits, frac)
  | String c t' =>
      if (Json.code c =? 46) && negb point then parse_digits t' m digits frac true
      else if is_digit c then
        if 76 <? digits + 1 then None
        else parse_digits t' (mag_add_small (mag_mul_small m 10) (Json.code c - 48)) (digits + 1)
               (frac + (if point then 1 else 0)) point
      else Some (t, m, digits, frac)
  end.

Fixpoint parse_exponent (t : string) (e : Z) : option Z :=
  match t with
  | "" => Some e
  | String c t => if negb (is_digit c) || (1000 <? e) then None else parse_exponent t (e * 10 + (Json.code c - 48))
  end.

Definition parse_decimal_text (text : string) : option (Magnitude * bool * Z) :=
  let '(negative, t) := Json.sign text in
  '(t, m, digits, frac) ← parse_digits t mag_zero 0 0 false;
  if digits =? 0 then None
  else
    exponent ← match t with
      | "" => Some 0
      | String c t =>
          if (Json.code c =? 101) || (Json.code c =? 69) then
            let '(exp_negative, t) := Json.sign t in
            match t with
            | "" => None
            | _ => e ← parse_exponent t 0; Some (if exp_negative then - e else e)
            end
          else None
      end;
    let scale := frac - exponent in
    if (scale <? -160) || (160 <? scale) then None
    else if scale <? 0 then Some (mag_mul_pow10 m (- scale), negative, 0)
    else Some (m, negative, scale).

(** [x--] until a limb does not borrow. *)
Fixpoint decrement (w : list Z) : list Z :=
  match w with
  | [] => []
  | x :: w => if negb (x =? 0) then u32 (x - 1) :: w else u32 (x - 1) :: decrement w
  end.

Definition fit_decimal (m : Magnitude) (negative : bool) (scale to_scale precision : Z) (width : string)
    : res Limbs256 :=
  let m := if scale <=? to_scale then mag_mul_pow10 m (to_scale - scale) else mag_div_pow10_round m (scale - to_scale) in
  let limit := mag_mul_pow10 (<[0%nat := 1]> mag_zero) precision in
  if 0 <=? mag_cmp m limit then
    let nines := decrement limit in
    Err (mag_text m to_scale negative +:+ " is too large to store in a " +:+ width +:+ " of precision " +:+
         pretty precision +:+ ". Max is " +:+ mag_text nines to_scale negative)
  else Ok (magnitude_limbs m negative).

Definition compare_decimal (a : Limbs256) (sa : Z) (b : Limbs256) (sb : Z) : Z :=
  let na := limbs_negative a in
  let nb := limbs_negative b in
  if negb (Bool.eqb na nb) then (if na then -1 else 1)
  else
    let s := Z.max sa sb in
    let c := mag_cmp (mag_mul_pow10 (limbs_magnitude a) (s - sa)) (mag_mul_pow10 (limbs_magnitude b) (s - sb)) in
    if na then - c else c.

(** ** The integers of limbs *)

Definition limb_ok (x : Z) : Prop := is_u32 x.
Definition mag_ok (m : Magnitude) : Prop := Forall is_u32 m /\ length m = 32%nat.

(** Of 32-bit limbs, least significant first; and most significant first, after [acc]. *)
Fixpoint mval (w : list Z) : Z := match w with [] => 0 | x :: w => x + mval w * 2 ^ 32 end.
Fixpoint rval (acc : Z) (rw : list Z) : Z := match rw with [] => acc | x :: rw => rval (acc * 2 ^ 32 + x) rw end.

(** Of a decimal's limbs, unsigned and signed. *)
Fixpoint lval (l : list Z) : Z := match l with [] => 0 | x :: l => x + lval l * 2 ^ 64 end.
Definition limbs_ok (l : Limbs256) : Prop := Forall is_u64 l /\ length l = 4%nat.
Definition signed (l : Limbs256) : Z := if limbs_negative l then lval l - 2 ^ 256 else lval l.

Lemma mval_app a b : mval (a ++ b) = mval a + mval b * 2 ^ (32 * zlen a).
Proof.
  induction a as [|x a IH]; [change (32 * zlen []) with 0; cbn; lia|]. cbn [mval app]. rewrite IH, zlen_cons.
  replace (32 * (1 + zlen a)) with (32 + 32 * zlen a) by lia. rewrite Z.pow_add_r by (pose proof (zlen_nonneg a); lia). lia.
Qed.

Lemma rval_spec acc rw : rval acc rw = acc * 2 ^ (32 * zlen rw) + mval (reverse rw).
Proof.
  revert acc. induction rw as [|x rw IH]; intros acc; [change (32 * zlen []) with 0; cbn; lia|]. cbn [rval]. rewrite IH, reverse_cons, mval_app, zlen_cons. cbn [mval].
  replace (zlen (reverse rw)) with (zlen rw) by (unfold zlen; by rewrite length_reverse).
  replace (32 * (1 + zlen rw)) with (32 + 32 * zlen rw) by lia. rewrite Z.pow_add_r by (pose proof (zlen_nonneg rw); lia). lia.
Qed.

Lemma pow32_pos (w : list Z) : 0 < 2 ^ (32 * zlen w).
Proof. apply Z.pow_pos_nonneg; [lia | pose proof (zlen_nonneg w); lia]. Qed.

Lemma pow32_cons (x : Z) w : 2 ^ (32 * zlen (x :: w)) = 2 ^ 32 * 2 ^ (32 * zlen w).
Proof. rewrite zlen_cons, <- Z.pow_add_r by (pose proof (zlen_nonneg w); lia). f_equal. lia. Qed.

Lemma mval_range w : Forall is_u32 w -> 0 <= mval w < 2 ^ (32 * zlen w).
Proof.
  induction 1 as [|x w Hx Hw IH]; [done|]. rewrite pow32_cons. cbn [mval]. unfold is_u32 in Hx. pose proof (pow32_pos w). nia.
Qed.

Lemma mval_inj a b : Forall is_u32 a -> Forall is_u32 b -> length a = length b -> mval a = mval b -> a = b.
Proof.
  intros Ha. revert b. induction Ha as [|x a Hx Ha IH]; intros [|y b] Hb Hl E; [done..|]. inversion Hb as [|? ? Hy Hb']; subst.
  cbn [mval] in E. unfold is_u32 in Hx, Hy. assert (mval a = mval b) by lia. f_equal; [lia|]. apply IH; [done | by injection Hl | done].
Qed.

(** ** Small products, sums and quotients *)

Lemma mul_limbs_spec f c w : Forall is_u32 w -> is_u32 f -> is_u32 c ->
  Forall is_u32 (mul_limbs f c w) /\ length (mul_limbs f c w) = length w /\
  exists k, mval w * f + c = mval (mul_limbs f c w) + k * 2 ^ (32 * zlen w).
Proof.
  intros Hw Hf. revert c. induction Hw as [|x w Hx Hw IH]; intros c Hc; [split_and!; try done; exists c; change (32 * zlen []) with 0; cbn; lia|].
  cbn [mul_limbs mval length]. unfold is_u32 in *.
  rewrite (u64_small (x * f + c)) by (unfold is_u64; nia). set (t := x * f + c).
  assert (0 <= t < 2 ^ 64) as Ht by (subst t; nia). rewrite Z.shiftr_div_pow2 by lia.
  destruct (IH (t / 2 ^ 32) ltac:(clearbody t; dlia)) as (Hok & Hl & k & Hk).
  split_and!; [constructor; [apply u32_range | done] | by rewrite Hl |]. exists k. rewrite pow32_cons. unfold u32, wrap.
  pose proof (Z.div_mod t (2 ^ 32) ltac:(lia)). subst t. nia.
Qed.

Lemma add_limbs_spec c w : Forall is_u32 w -> is_u32 c ->
  Forall is_u32 (add_limbs c w) /\ length (add_limbs c w) = length w /\
  exists k, mval w + c = mval (add_limbs c w) + k * 2 ^ (32 * zlen w).
Proof.
  intros Hw. revert c. induction Hw as [|x w Hx Hw IH]; intros c Hc; [split_and!; try done; exists c; change (32 * zlen []) with 0; cbn; lia|].
  cbn [add_limbs mval length]. unfold is_u32 in *.
  rewrite (u64_small (x + c)) by (unfold is_u64; lia). rewrite Z.shiftr_div_pow2 by lia.
  destruct (IH ((x + c) / 2 ^ 32) ltac:(dlia)) as (Hok & Hl & k & Hk).
  split_and!; [constructor; [apply u32_range | done] | by rewrite Hl |]. exists k. rewrite pow32_cons. unfold u32, wrap.
  pose proof (Z.div_mod (x + c) (2 ^ 32) ltac:(lia)). nia.
Qed.

Lemma div_limbs_spec d r w : Forall is_u32 w -> 0 < d < 2 ^ 32 -> 0 <= r < d ->
  let '(q, r') := div_limbs d r w in
  Forall is_u32 q /\ length q = length w /\ 0 <= r' < d /\ rval r w = rval 0 q * d + r'.
Proof.
  intros Hw Hd. revert r. induction Hw as [|x w Hx Hw IH]; intros r Hr; [cbn; split_and!; try done; lia|].
  cbn [div_limbs]. unfold is_u32 in Hx. assert (r < 2 ^ 32) by lia.
  assert (Z.lor (u64 (Z.shiftl r 32)) x = r * 2 ^ 32 + x) as ->.
  { rewrite u64_small by (unfold is_u64; rewrite Z.shiftl_mul_pow2 by lia; lia). apply lor_high_low; lia. }
  set (cur := r * 2 ^ 32 + x). pose proof (Z.mod_pos_bound cur d ltac:(lia)) as Hm.
  pose proof (Z.div_mod cur d ltac:(lia)) as Hdm.
  assert (0 <= cur / d < 2 ^ 32) as Hq by (split; [apply Z.div_pos; subst cur; lia | apply Z.div_lt_upper_bound; subst cur; nia]).
  specialize (IH (cur mod d) Hm). destruct (div_limbs d (cur mod d) w) as [q r']. destruct IH as (Hok & Hl & Hr' & Hv).
  split_and!; [constructor; [apply u32_range | done] | cbn; by rewrite Hl | lia | lia |].
  cbn [rval]. rewrite u32_small by done. fold cur. rewrite !rval_spec in Hv |- *. unfold zlen in *. rewrite Hl in *. rewrite Hdm at 1. nia.
Qed.

Lemma mag_ok_len m : mag_ok m -> 32 * zlen m = 1024.
Proof. intros [_ Hl]. unfold zlen. rewrite Hl. done. Qed.

Lemma mval_mag_range m : mag_ok m -> 0 <= mval m < 2 ^ 1024.
Proof. intros Hm. rewrite <- (mag_ok_len m Hm). apply mval_range, Hm. Qed.

Lemma mod_unique_small a b k n : 0 <= b < n -> a = b + k * n -> b = a mod n.
Proof. intros Hb ->. rewrite Z.mod_add, Z.mod_small by lia. done. Qed.

Lemma mag_mul_small_spec m f : mag_ok m -> is_u32 f ->
  mag_ok (mag_mul_small m f) /\ mval (mag_mul_small m f) = (mval m * f) mod 2 ^ 1024.
Proof.
  intros Hm Hf. destruct (mul_limbs_spec f 0 m (proj1 Hm) Hf ltac:(done)) as (H1 & H2 & k & Hk).
  rewrite mag_ok_len in Hk by done. assert (mag_ok (mul_limbs f 0 m)) as Hok by (split; [done | rewrite H2; apply Hm]).
  split; [done|]. apply (mod_unique_small _ _ k); [by apply mval_mag_range | unfold mag_mul_small; lia].
Qed.

Lemma mag_add_small_spec m f : mag_ok m -> is_u32 f ->
  mag_ok (mag_add_small m f) /\ mval (mag_add_small m f) = (mval m + f) mod 2 ^ 1024.
Proof.
  intros Hm Hf. destruct (add_limbs_spec f m (proj1 Hm) Hf) as (H1 & H2 & k & Hk).
  rewrite mag_ok_len in Hk by done. assert (mag_ok (add_limbs f m)) as Hok by (split; [done | rewrite H2; apply Hm]).
  split; [done|]. apply (mod_unique_small _ _ k); [by apply mval_mag_range | unfold mag_add_small; lia].
Qed.

Lemma mag_div_small_spec m d : mag_ok m -> 0 < d < 2 ^ 32 ->
  let '(q, r) := mag_div_small m d in mag_ok q /\ mval q = mval m / d /\ r = mval m mod d.
Proof.
  intros [Hm Hl] Hd. unfold mag_div_small.
  pose proof (div_limbs_spec d 0 (reverse m) ltac:(by apply Forall_reverse) Hd ltac:(lia)) as Hs.
  destruct (div_limbs d 0 (reverse m)) as [q r]. destruct Hs as (Hq & Hlq & Hr & Hv). rewrite !rval_spec, reverse_involutive in Hv.
  rewrite !Z.mul_0_l, !Z.add_0_l in Hv. rewrite length_reverse in Hlq.
  split_and!; [split; [by apply Forall_reverse | rewrite length_reverse; lia] | apply Z.div_unique with r; lia |].
  rewrite u32_small by (unfold is_u32; lia). apply Z.mod_unique with (mval (reverse q)); lia.
Qed.

(** ** Powers of ten *)

Lemma pow10_loop_spec k p : 0 <= p -> p * 10 ^ Z.of_nat k < 2 ^ 32 -> pow10_loop k p = p * 10 ^ Z.of_nat k.
Proof.
  revert p. induction k as [|k IH]; intros p Hp Hb; [cbn; lia|]. cbn [pow10_loop].
  rewrite Nat2Z.inj_succ, Z.pow_succ_r in Hb |- * by lia. assert (0 < 10 ^ Z.of_nat k) by (apply Z.pow_pos_nonneg; lia).
  rewrite u32_small by (unfold is_u32; nia). rewrite IH by nia. lia.
Qed.

Lemma pow10_small_spec k : 0 <= k <= 9 -> pow10_small k = 10 ^ k /\ 0 < 10 ^ k < 2 ^ 32.
Proof.
  intros Hk. assert (10 ^ k <= 10 ^ 9) by (apply Z.pow_le_mono_r; lia). assert (0 < 10 ^ k) by (apply Z.pow_pos_nonneg; lia).
  split; [|lia]. unfold pow10_small. rewrite pow10_loop_spec; rewrite ?Z2Nat.id by lia; lia.
Qed.

Lemma mul_mod_l a b c n : 0 < n -> ((a * b) mod n * c) mod n = (a * (b * c)) mod n.
Proof. intros. rewrite Z.mul_mod_idemp_l by lia. f_equal. lia. Qed.

Lemma mul_nines_spec fuel m k : mag_ok m -> 0 <= k <= Z.of_nat fuel ->
  let '(m', k') := mul_nines fuel m k in
  mag_ok m' /\ 0 <= k' < 9 /\ k' <= k /\ mval m' = (mval m * 10 ^ (k - k')) mod 2 ^ 1024.
Proof.
  revert m k. induction fuel as [|fuel IH]; intros m k Hm Hk; cbn [mul_nines].
  { pose proof (mval_mag_range m Hm). assert (k = 0) as -> by lia. split_and!; try done; try lia. rewrite Z.mul_1_r, Z.mod_small by lia. done. }
  destruct (Z.leb_spec 9 k).
  - destruct (mag_mul_small_spec m 1000000000 Hm ltac:(done)) as [Hm' Hv]. specialize (IH _ (k - 9) Hm' ltac:(lia)).
    destruct (mul_nines fuel _ (k - 9)) as [m' k']. destruct IH as (? & ? & ? & ->). split_and!; try done; try lia.
    rewrite Hv, mul_mod_l by lia. change 1000000000 with (10 ^ 9). rewrite <- Z.pow_add_r by lia. do 3 f_equal. lia.
  - pose proof (mval_mag_range m Hm). split_and!; try done; try lia. rewrite Z.sub_diag, Z.mul_1_r, Z.mod_small by lia. done.
Qed.

Lemma mag_mul_pow10_spec m k : mag_ok m -> 0 <= k ->
  mag_ok (mag_mul_pow10 m k) /\ mval (mag_mul_pow10 m k) = (mval m * 10 ^ k) mod 2 ^ 1024.
Proof.
  intros Hm Hk. unfold mag_mul_pow10. pose proof (mul_nines_spec (Z.to_nat k) m k Hm ltac:(lia)) as Hs.
  destruct (mul_nines _ m k) as [m' k']. destruct Hs as (Hm' & Hk' & Hle & Hv). destruct (Z.ltb_spec 0 k').
  - destruct (pow10_small_spec k' ltac:(lia)) as [-> Hp]. destruct (mag_mul_small_spec m' (10 ^ k') Hm' ltac:(unfold is_u32; lia)) as [Hm2 Hv2].
    split; [done|]. rewrite Hv2, Hv, mul_mod_l by lia. rewrite <- Z.pow_add_r by lia. do 3 f_equal. lia.
  - assert (k' = 0) as -> by lia. rewrite Z.sub_0_r in Hv. done.
Qed.

(** A product that fits is exact: below 2^256, up to 10^231. *)
Lemma mag_mul_pow10_exact m k : mag_ok m -> 0 <= k <= 231 -> mval m <= 2 ^ 256 -> mval (mag_mul_pow10 m k) = mval m * 10 ^ k.
Proof.
  intros Hm Hk Hb. destruct (mag_mul_pow10_spec m k Hm ltac:(lia)) as [_ ->]. pose proof (mval_mag_range m Hm).
  assert (10 ^ k <= 10 ^ 231) by (apply Z.pow_le_mono_r; lia). assert (0 < 10 ^ k) by (apply Z.pow_pos_nonneg; lia).
  apply Z.mod_small. assert (2 ^ 256 * 10 ^ 231 < 2 ^ 1024) by done. nia.
Qed.

Lemma div_nines_spec fuel m k : mag_ok m -> 0 <= k <= Z.of_nat fuel ->
  let '(m', k') := div_nines fuel m k in
  mag_ok m' /\ 0 <= k' < 9 /\ k' <= k /\ mval m' = mval m / 10 ^ (k - k').
Proof.
  revert m k. induction fuel as [|fuel IH]; intros m k Hm Hk; cbn [div_nines].
  { assert (k = 0) as -> by lia. split_and!; try done; try lia. by rewrite Z.div_1_r. }
  destruct (Z.leb_spec 9 k).
  - pose proof (mag_div_small_spec m 1000000000 Hm ltac:(lia)) as Hs. destruct (mag_div_small m 1000000000) as [q r]. destruct Hs as (Hq & Hv & _).
    cbn [fst]. specialize (IH q (k - 9) Hq ltac:(lia)).
    destruct (div_nines fuel q (k - 9)) as [m' k']. destruct IH as (? & ? & ? & ->). split_and!; try done; try lia.
    assert (0 < 10 ^ (k - 9 - k')) by (apply Z.pow_pos_nonneg; lia).
    rewrite Hv, Z.div_div by lia. change 1000000000 with (10 ^ 9). rewrite <- Z.pow_add_r by lia. do 2 f_equal. lia.
  - split_and!; try done; try lia. by rewrite Z.sub_diag, Z.div_1_r.
Qed.

(** Rounding half away from zero, on the magnitude. *)
Definition round_half_up (n d : Z) : Z := (2 * n + d) / (2 * d).

Lemma mag_div_pow10_round_spec m k : mag_ok m -> 0 < k ->
  mag_ok (mag_div_pow10_round m k) /\ mval (mag_div_pow10_round m k) = round_half_up (mval m) (10 ^ k).
Proof.
  intros Hm Hk. unfold mag_div_pow10_round. known_false (k <=? 0).
  pose proof (div_nines_spec (Z.to_nat (k - 1)) m (k - 1) Hm ltac:(lia)) as Hs.
  destruct (div_nines _ m (k - 1)) as [m1 k1]. destruct Hs as (Hm1 & Hk1 & Hle & Hv1).
  set (m2 := if 0 <? k1 then _ else _).
  assert (mag_ok m2 /\ mval m2 = mval m / 10 ^ (k - 1)) as [Hm2 Hv2].
  { subst m2. destruct (Z.ltb_spec 0 k1).
    - destruct (pow10_small_spec k1 ltac:(lia)) as [-> Hp]. pose proof (mag_div_small_spec m1 (10 ^ k1) Hm1 Hp) as Hs.
      destruct (mag_div_small m1 (10 ^ k1)) as [q r]. destruct Hs as (Hq & Hv & _). split; [done|]. cbn [fst].
      assert (0 < 10 ^ (k - 1 - k1)) by (apply Z.pow_pos_nonneg; lia).
      rewrite Hv, Hv1, Z.div_div, <- Z.pow_add_r by lia. do 2 f_equal. lia.
    - assert (k1 = 0) as -> by lia. rewrite Z.sub_0_r in Hv1. done. }
  clearbody m2. pose proof (mag_div_small_spec m2 10 Hm2 ltac:(lia)) as Hs. destruct (mag_div_small m2 10) as [q digit].
  destruct Hs as (Hq & Hvq & Hd). pose proof (mval_mag_range m Hm) as Rm. pose proof (mval_mag_range q Hq) as Rq.
  assert (0 < 10 ^ (k - 1)) by (apply Z.pow_pos_nonneg; lia).
  assert (10 ^ k = 10 * 10 ^ (k - 1)) as Hp by (rewrite <- Z.pow_succ_r by lia; f_equal; lia).
  set (p := 10 ^ (k - 1)) in *. rewrite Hv2 in Hvq, Hd. unfold round_half_up. rewrite Hp.
  assert ((2 * mval m + 10 * p) / (2 * (10 * p)) = (if 5 <=? digit then mval q + 1 else mval q)) as ->.
  { pose proof (Z.div_mod (mval m) p ltac:(lia)) as D1. pose proof (Z.mod_pos_bound (mval m) p ltac:(lia)) as B1.
    pose proof (Z.div_mod (mval m / p) 10 ltac:(lia)) as D2. pose proof (Z.mod_pos_bound (mval m / p) 10 ltac:(lia)) as B2.
    symmetry. destruct (Z.leb_spec 5 digit).
    - apply Z.div_unique with (2 * mval m + 10 * p - 2 * (10 * p) * (mval q + 1)); [left|]; nia.
    - apply Z.div_unique with (2 * mval m + 10 * p - 2 * (10 * p) * mval q); [left|]; nia. }
  destruct (Z.leb_spec 5 digit); [|done]. destruct (mag_add_small_spec q 1 Hq ltac:(done)) as [Ha Hva]. split; [done|].
  rewrite Hva. apply Z.mod_small. assert (mval q <= mval m / 10).
  { rewrite Hvq, Z.div_div by lia. apply Z.div_le_compat_l; lia. }
  dlia.
Qed.

(** ** Comparison *)

Definition sgn (z : Z) : Z := if z <? 0 then -1 else if z =? 0 then 0 else 1.

Lemma sgn_spec z : (z < 0 /\ sgn z = -1) \/ (z = 0 /\ sgn z = 0) \/ (0 < z /\ sgn z = 1).
Proof. unfold sgn. destruct (Z.ltb_spec z 0), (Z.eqb_spec z 0); lia. Qed.

Lemma cmp_limbs_spec ra rb : Forall is_u32 ra -> Forall is_u32 rb -> length ra = length rb ->
  cmp_limbs ra rb = sgn (mval (reverse ra) - mval (reverse rb)).
Proof.
  intros Ha. revert rb. induction Ha as [|x ra Hx Ha IH]; intros [|y rb] Hb Hl; try done. inversion Hb as [|? ? Hy Hb']; subst.
  injection Hl as Hl. cbn [cmp_limbs]. rewrite !reverse_cons, !mval_app. cbn [mval].
  replace (zlen (reverse ra)) with (zlen ra) by (unfold zlen; by rewrite length_reverse).
  replace (zlen (reverse rb)) with (zlen ra) by (unfold zlen; rewrite length_reverse; lia).
  pose proof (mval_range (reverse ra) ltac:(by apply Forall_reverse)) as Ra. pose proof (mval_range (reverse rb) ltac:(by apply Forall_reverse)) as Rb.
  replace (zlen (reverse ra)) with (zlen ra) in Ra by (unfold zlen; by rewrite length_reverse).
  replace (zlen (reverse rb)) with (zlen ra) in Rb by (unfold zlen; rewrite length_reverse; lia).
  specialize (IH rb Hb' Hl). pose proof (sgn_spec (mval (reverse ra) - mval (reverse rb))) as S1.
  set (p := 2 ^ (32 * zlen ra)) in *. pose proof (sgn_spec (mval (reverse ra) + (x + 0 * 2 ^ 32) * p - (mval (reverse rb) + (y + 0 * 2 ^ 32) * p))) as S2.
  destruct (Z.eqb_spec x y) as [->|Hne]; cbn [negb]; [rewrite IH; f_equal; lia|]. destruct (Z.ltb_spec x y); nia.
Qed.

Lemma mag_cmp_spec a b : mag_ok a -> mag_ok b -> mag_cmp a b = sgn (mval a - mval b).
Proof.
  intros [Ha La] [Hb Lb]. unfold mag_cmp. rewrite cmp_limbs_spec, !reverse_involutive; [done | by apply Forall_reverse.. |].
  rewrite !length_reverse. lia.
Qed.

(** ** Two's complement limbs *)

Lemma lval_range l : Forall is_u64 l -> 0 <= lval l < 2 ^ (64 * zlen l).
Proof.
  induction 1 as [|x l Hx Hl IH]; [done|]. cbn [lval]. rewrite zlen_cons. replace (64 * (1 + zlen l)) with (64 + 64 * zlen l) by lia.
  rewrite Z.pow_add_r by (pose proof (zlen_nonneg l); lia). unfold is_u64 in Hx. assert (0 < 2 ^ (64 * zlen l)) by lia. nia.
Qed.

Lemma lval_limbs l : limbs_ok l -> 0 <= lval l < 2 ^ 256.
Proof. intros [H Hl]. pose proof (lval_range l H) as R. unfold zlen in R. rewrite Hl in R. exact R. Qed.

Lemma limbs_negative_spec l : limbs_ok l -> limbs_negative l = (2 ^ 255 <=? lval l).
Proof.
  intros [H Hl]. destruct l as [|a [|b [|c [|d [|? ?]]]]]; try done. unfold limbs_negative. cbn [nth lval].
  repeat match goal with H : Forall _ (_ :: _) |- _ => inversion H; clear H; subst end. unfold is_u64 in *.
  rewrite Z.shiftr_div_pow2 by lia.
  destruct (Z.leb_spec (2 ^ 255) (a + (b + (c + (d + 0 * 2 ^ 64) * 2 ^ 64) * 2 ^ 64) * 2 ^ 64)) as [Hle|Hlt].
  - apply negb_true_iff, Z.eqb_neq. assert (2 ^ 63 <= d) by lia. dlia.
  - apply negb_false_iff, Z.eqb_eq. apply Z.div_small. lia.
Qed.

Lemma signed_range l : limbs_ok l -> - 2 ^ 255 <= signed l < 2 ^ 255.
Proof.
  intros Hl. pose proof (lval_limbs l Hl). unfold signed. rewrite limbs_negative_spec by done. case_bool; lia.
Qed.

Lemma increment_spec l : Forall is_u64 l ->
  Forall is_u64 (increment l) /\ length (increment l) = length l /\ lval (increment l) = (lval l + 1) mod 2 ^ (64 * zlen l).
Proof.
  induction 1 as [|x l Hx Hl (IH1 & IH2 & IH3)]; [split_and!; done|]. cbn [increment]. unfold is_u64 in Hx.
  pose proof (lval_range l Hl) as Rl. assert (0 < 2 ^ (64 * zlen l)) as Hp by lia.
  assert (2 ^ (64 * zlen (x :: l)) = 2 ^ 64 * 2 ^ (64 * zlen l)) as ->
    by (rewrite zlen_cons, <- Z.pow_add_r by (pose proof (zlen_nonneg l); lia); f_equal; lia).
  destruct (Z.eqb_spec (u64 (x + 1)) 0) as [E|E]; cbn [negb].
  - assert (x = 2 ^ 64 - 1) as -> by (unfold u64, wrap in E; dlia).
    split_and!; [constructor; [apply u64_range | done] | cbn; lia |]. cbn [lval]. rewrite E, IH3.
    replace (2 ^ 64 - 1 + lval l * 2 ^ 64 + 1) with (2 ^ 64 * (lval l + 1)) by lia. rewrite Z.mul_mod_distr_l by lia. lia.
  - assert (x + 1 < 2 ^ 64) by (destruct (Z.eq_dec x (2 ^ 64 - 1)) as [->|]; [done | lia]).
    rewrite u64_small in E |- * by (unfold is_u64; lia).
    split_and!; [constructor; [unfold is_u64; lia | done] | done |]. cbn [lval]. rewrite Z.mod_small by nia. lia.
Qed.

Lemma lval_complement l : Forall is_u64 l -> lval ((fun x => U64_MAX - x) <$> l) = 2 ^ (64 * zlen l) - 1 - lval l.
Proof.
  induction 1 as [|x l Hx Hl IH]; [done|]. rewrite fmap_cons. cbn [lval]. rewrite IH, zlen_cons.
  replace (64 * (1 + zlen l)) with (64 + 64 * zlen l) by lia. rewrite Z.pow_add_r by (pose proof (zlen_nonneg l); lia).
  unfold U64_MAX. lia.
Qed.

Lemma negate_limbs_spec l : limbs_ok l -> limbs_ok (negate_limbs l) /\ lval (negate_limbs l) = (- lval l) mod 2 ^ 256.
Proof.
  intros [H Hl]. unfold negate_limbs.
  assert (Forall is_u64 ((fun x => U64_MAX - x) <$> l)) as Hc.
  { apply Forall_fmap. eapply Forall_impl; [exact H|]. unfold is_u64, U64_MAX. cbn. lia. }
  destruct (increment_spec _ Hc) as (H1 & H2 & H3). rewrite length_fmap in H2.
  split; [split; [done | lia]|]. rewrite H3, lval_complement by done.
  replace (zlen ((fun x => U64_MAX - x) <$> l)) with 4 by (unfold zlen; rewrite length_fmap, Hl; done).
  replace (zlen l) with 4 by (unfold zlen; rewrite Hl; done). change (64 * 4) with 256.
  replace (2 ^ 256 - 1 - lval l + 1) with (- lval l + 1 * 2 ^ 256) by lia. apply Z.mod_add. lia.
Qed.

Lemma split_limbs_spec l : Forall is_u64 l ->
  Forall is_u32 (split_limbs l) /\ length (split_limbs l) = (2 * length l)%nat /\ mval (split_limbs l) = lval l.
Proof.
  unfold split_limbs. induction 1 as [|x l Hx Hl (IH1 & IH2 & IH3)]; [done|]. rewrite fmap_cons. cbn [concat app length lval mval].
  unfold is_u64 in Hx. rewrite Z.shiftr_div_pow2 by lia.
  split_and!; [constructor; [apply u32_range | constructor; [unfold is_u32; dlia | done]] | lia |].
  rewrite IH3. unfold u32, wrap. pose proof (Z.div_mod x (2 ^ 32) ltac:(lia)). lia.
Qed.

Lemma mval_zeros n : mval (replicate n 0) = 0.
Proof. induction n as [|n IH]; [done|]. cbn [replicate mval]. rewrite IH. done. Qed.

Lemma limbs_magnitude_spec l : limbs_ok l -> mag_ok (limbs_magnitude l) /\ mval (limbs_magnitude l) = Z.abs (signed l).
Proof.
  intros Hl. unfold limbs_magnitude. set (l' := if limbs_negative l then negate_limbs l else l).
  assert (limbs_ok l' /\ lval l' = Z.abs (signed l)) as [Hl' Hv].
  { pose proof (lval_limbs l Hl). subst l'. unfold signed. rewrite limbs_negative_spec by done.
    destruct (Z.leb_spec (2 ^ 255) (lval l)); [|split; [done | lia]].
    destruct (negate_limbs_spec l Hl) as [Hn ->]. split; [done|].
    symmetry. apply Z.mod_unique with (-1); lia. }
  destruct (split_limbs_spec l' (proj1 Hl')) as (H1 & H2 & H3). destruct Hl' as [_ Hlen].
  split; [split|].
  - apply Forall_app. split; [done|]. apply Forall_replicate. done.
  - rewrite length_app, length_replicate, H2, Hlen. done.
  - rewrite mval_app, mval_zeros, H3. lia.
Qed.

Lemma compare_decimal_sgn a sa b sb : limbs_ok a -> limbs_ok b -> Z.abs (sa - sb) <= 231 ->
  compare_decimal a sa b sb =
    sgn (signed a * 10 ^ (Z.max sa sb - sa) - signed b * 10 ^ (Z.max sa sb - sb)).
Proof.
  intros Ha Hb Hs. unfold compare_decimal. destruct (limbs_magnitude_spec a Ha) as [Ma Va], (limbs_magnitude_spec b Hb) as [Mb Vb].
  pose proof (signed_range a Ha) as Ra. pose proof (signed_range b Hb) as Rb.
  set (s := Z.max sa sb) in *. assert (0 <= s - sa <= 231 /\ 0 <= s - sb <= 231) as [Ha' Hb'] by lia.
  assert (0 < 10 ^ (s - sa)) as Pa by (apply Z.pow_pos_nonneg; lia). assert (0 < 10 ^ (s - sb)) as Pb by (apply Z.pow_pos_nonneg; lia).
  rewrite mag_cmp_spec by (apply mag_mul_pow10_spec; (done || lia)). rewrite !mag_mul_pow10_exact by (done || lia). rewrite Va, Vb.
  pose proof (lval_limbs a Ha). pose proof (lval_limbs b Hb).
  assert (forall l, limbs_ok l -> limbs_negative l = (signed l <? 0)) as Hneg.
  { intros l Hl. pose proof (lval_limbs l Hl). unfold signed. rewrite limbs_negative_spec by done.
    destruct (Z.leb_spec (2 ^ 255) (lval l)); symmetry; (apply Z.ltb_lt; lia) || (apply Z.ltb_ge; lia). }
  rewrite !Hneg by done. set (x := signed a) in *. set (y := signed b) in *. set (p := 10 ^ (s - sa)) in *. set (q := 10 ^ (s - sb)) in *.
  clearbody x y p q. clear Hneg Va Vb Ma Mb. pose proof (sgn_spec (x * p - y * q)) as S1. pose proof (sgn_spec (Z.abs x * p - Z.abs y * q)) as S2.
  destruct (Z.ltb_spec x 0), (Z.ltb_spec y 0); cbn [Bool.eqb negb]; nia.
Qed.

(** C34: (equivalence): comparing two decimals by their magnitudes rescaled to the larger scale is comparing
    the rational numbers they stand for: the result is the sign of [a * 10^-sa - b * 10^-sb], for any 256-bit
    values, as long as the scales are at most 231 apart (the 1024 bits hold the rescaled values). *)
Theorem compare_decimal_exact a sa b sb : limbs_ok a -> limbs_ok b -> Z.abs (sa - sb) <= 231 ->
  compare_decimal a sa b sb =
    sgn (signed a * 10 ^ (Z.max sa sb - sa) - signed b * 10 ^ (Z.max sa sb - sb)).
Proof. apply compare_decimal_sgn. Qed.

(** 0.05 at scale 2 against 0.050 at scale 3, and against a larger one. *)
Lemma compare_decimal_witness :
  compare_decimal [5; 0; 0; 0] 2 [50; 0; 0; 0] 3 = 0 /\
  compare_decimal [5; 0; 0; 0] 2 (negate_limbs [51; 0; 0; 0]) 3 =
    sgn (signed [5; 0; 0; 0] * 10 ^ (3 - 2) - signed (negate_limbs [51; 0; 0; 0]) * 10 ^ (3 - 3)).
Proof.
  split; [vm_compute; reflexivity|].
  apply (compare_decimal_exact [5; 0; 0; 0] 2 (negate_limbs [51; 0; 0; 0]) 3);
    [split; [repeat constructor; done | done] | split; [repeat constructor; done | done] | done].
Defined.

(** ** Fitting a decimal into a type *)

Lemma join_limbs_spec w n : Forall is_u32 w -> length w = (2 * n)%nat ->
  Forall is_u64 (join_limbs w) /\ length (join_limbs w) = n /\ lval (join_limbs w) = mval w.
Proof.
  revert w. induction n as [|n IH]; intros w Hw Hl.
  { destruct w; [done | discriminate]. }
  destruct w as [|x [|y w]]; [discriminate | cbn in Hl; lia |]. inversion Hw as [|? ? Hx Hw1]; subst. inversion Hw1 as [|? ? Hy Hw2]; subst.
  cbn in Hl. destruct (IH w Hw2 ltac:(lia)) as (H1 & H2 & H3). cbn [join_limbs lval mval length]. unfold is_u32 in *.
  rewrite lor_shiftl_add by lia. split_and!; [constructor; [unfold is_u64; lia | done] | lia | rewrite H3; lia].
Qed.

Lemma magnitude_limbs_spec m (negative : bool) : mag_ok m -> mval m < 2 ^ 255 ->
  limbs_ok (magnitude_limbs m negative) /\ signed (magnitude_limbs m negative) = (if negative then - mval m else mval m).
Proof.
  intros [Hm Hl] Hb. unfold magnitude_limbs.
  assert (Forall is_u32 (take 8 m)) as Ht by (by apply Forall_take).
  destruct (join_limbs_spec (take 8 m) 4 Ht) as (H1 & H2 & H3); [rewrite length_take; lia|].
  assert (mval (take 8 m) = mval m) as E.
  { rewrite <- (take_drop 8 m) at 2. rewrite mval_app. pose proof (mval_range (drop 8 m) ltac:(by apply Forall_drop)) as Rd.
    pose proof (mval_range (take 8 m) Ht) as Rt. rewrite <- (take_drop 8 m), mval_app in Hb.
    replace (zlen (take 8 m)) with 8 in * by (unfold zlen; rewrite length_take; lia). change (32 * 8) with 256 in *.
    assert (mval (drop 8 m) = 0) by nia. lia. }
  pose proof (mval_range m Hm) as R0.
  assert (limbs_ok (join_limbs (take 8 m))) as Hok by (split; [done | lia]).
  destruct negative.
  - destruct (negate_limbs_spec _ Hok) as [Hn Hv]. split; [done|]. unfold signed. rewrite limbs_negative_spec, Hv, H3, E by done.
    destruct (Z.eq_dec (mval m) 0) as [->|].
    + done.
    + replace ((- mval m) mod 2 ^ 256) with (2 ^ 256 - mval m) by (apply Z.mod_unique with (-1); lia).
      known_true (2 ^ 255 <=? 2 ^ 256 - mval m). lia.
  - split; [done|]. unfold signed. rewrite limbs_negative_spec, H3, E by done. known_false (2 ^ 255 <=? mval m). done.
Qed.

(** The value of a magnitude at a scale, moved to another scale: exact upwards, rounded half away from zero
    downwards. *)
Definition rescaled (v scale to_scale : Z) : Z :=
  if scale <=? to_scale then v * 10 ^ (to_scale - scale) else round_half_up v (10 ^ (scale - to_scale)).

(** A magnitude of one limb. *)
Lemma mag_small v : is_u32 v -> mag_ok (<[0%nat := v]> mag_zero) /\ mval (<[0%nat := v]> mag_zero) = v.
Proof.
  intros Hv. change (<[0%nat := v]> mag_zero) with (v :: replicate 31 0). split; [split|].
  - constructor; [done|]. apply Forall_replicate. done.
  - done.
  - cbn [mval]. rewrite mval_zeros. lia.
Qed.

(** a decimal fits a type of [precision] digits exactly when its value, rescaled with rounding
    half away from zero, is below 10^precision; then the limbs stand for that rounded value with its sign,
    and otherwise the conversion is an error. *)
Theorem fit_decimal_exact m negative scale to_scale precision width :
  mag_ok m -> mval m <= 2 ^ 256 -> to_scale - scale <= 231 -> 0 <= precision <= 76 ->
  match fit_decimal m negative scale to_scale precision width with
  | Ok l => limbs_ok l /\ rescaled (mval m) scale to_scale < 10 ^ precision /\
            signed l = (if negative then - rescaled (mval m) scale to_scale else rescaled (mval m) scale to_scale)
  | Err _ => 10 ^ precision <= rescaled (mval m) scale to_scale
  end.
Proof.
  intros Hm Hb Hd Hp. unfold fit_decimal, rescaled. pose proof (mval_mag_range m Hm) as Rm.
  set (m' := if scale <=? to_scale then mag_mul_pow10 m (to_scale - scale) else mag_div_pow10_round m (scale - to_scale)).
  assert (mag_ok m' /\ mval m' = rescaled (mval m) scale to_scale) as [Hm' Hv'].
  { subst m'. unfold rescaled. destruct (Z.leb_spec scale to_scale).
    - split; [apply mag_mul_pow10_spec; (done || lia) | apply mag_mul_pow10_exact; (done || lia)].
    - apply mag_div_pow10_round_spec; [done | lia]. }
  unfold rescaled in Hv'. rewrite <- Hv'. clearbody m'.
  destruct (mag_small 1 ltac:(done)) as [Hone Vone].
  assert (mval (mag_mul_pow10 (<[0%nat := 1]> mag_zero) precision) = 10 ^ precision) as Vl.
  { rewrite mag_mul_pow10_exact, Vone by (done || lia). lia. }
  destruct (mag_mul_pow10_spec _ precision Hone ltac:(lia)) as [Hlim _].
  rewrite mag_cmp_spec, Vl by done. pose proof (sgn_spec (mval m' - 10 ^ precision)) as S.
  destruct (Z.leb_spec 0 (sgn (mval m' - 10 ^ precision))); [lia|].
  assert (10 ^ precision <= 10 ^ 76) by (apply Z.pow_le_mono_r; lia). assert (10 ^ 76 < 2 ^ 255) by done.
  destruct (magnitude_limbs_spec m' negative Hm' ltac:(lia)) as [Hl Hs]. split_and!; [done | lia | done].
Qed.

(** 2.555 as a decimal(4, 2) is 2.56; 99.995 rounds to 100.00, which does not fit. *)
Lemma fit_decimal_witness :
  (limbs_ok [256; 0; 0; 0] /\ rescaled (mval (<[0%nat := 2555]> mag_zero)) 3 2 < 10 ^ 4 /\
   signed [256; 0; 0; 0] = rescaled (mval (<[0%nat := 2555]> mag_zero)) 3 2) /\
  10 ^ 4 <= rescaled (mval (<[0%nat := 99995]> mag_zero)) 3 2.
Proof.
  split.
  - assert (fit_decimal (<[0%nat := 2555]> mag_zero) false 3 2 4 "Decimal128" = Ok [256; 0; 0; 0]) as E by (vm_compute; reflexivity).
    destruct (mag_small 2555 ltac:(unfold is_u32; lia)) as [Hok Hv].
    pose proof (fit_decimal_exact (<[0%nat := 2555]> mag_zero) false 3 2 4 "Decimal128" Hok ltac:(rewrite Hv; lia) ltac:(lia) ltac:(lia)) as H.
    rewrite E in H. exact H.
  - vm_compute. discriminate.
Defined.

End Decimal.
