(* ===== verification/Expr.v ===== *)
(** * Filter expressions (src/expr/expr.cpp)

    [Value] is a value of an expression and [compare] the three-way comparison of two; [Node] is the part of
    the tree filters are built of: literals, columns, AND, OR and NOT, comparisons, null and truth tests, IN,
    BETWEEN, integer and float arithmetic. [eval] evaluates a node on one row and [fast_eval] on all the rows
    of a batch, a column at a time; [filter] takes the first that applies.

    A failed evaluation is an [Err] (the source records the first error and goes on with NULL, and the filter
    fails in the end). A string or binary is its bytes; a double is a NaN with its sign or a [Json.double].
    Signed products that overflow wrap. Functions, casts, LIKE and text concatenation are not in [Node]:
    [fast_eval] never takes them. *)

From S2P Require Import Prelude Json Int128 Decimal.

Module Expr.

(** ** Values *)

Inductive TimeUnit := Second | Milli | Micro | Nano.
#[export] Instance TimeUnit_eq_dec : EqDecision TimeUnit.
Proof. solve_decision. Defined.

Definition unit_to_ns (u : TimeUnit) : Z :=
  match u with Second => 1000000000 | Milli => 1000000 | Micro => 1000 | Nano => 1 end.

Inductive Double := NaN (negative : bool) | Num (d : Json.double).

Inductive Value :=
  | VNull
  | VBool (b : bool)
  | VInt (i : Z)
  | VUInt (u : Z)
  | VDouble (d : Double)
  | VString (s : list Z)
  | VBinary (s : list Z)
  | VDate (days : Z)
  | VTimestamp (ns : Z) (unit : TimeUnit)
  | VList (items : list Value)
  | VDecimal (dec : Decimal.Limbs256) (scale : Z)
  | VDuration (count : Z) (unit : TimeUnit).

(** A 64-bit pattern as [std::int64_t]. *)
Definition i64 (z : Z) : Z := Int128.s64 (u64 z).

Definition kNsPerDay : Z := 86400 * 1000000000.

Definition is_null (v : Value) : bool := match v with VNull => true | _ => false end.
Definition numeric (v : Value) : bool := match v with VInt _ | VUInt _ | VDouble _ => true | _ => false end.
Definition temporal (v : Value) : bool := match v with VDate _ | VTimestamp _ _ => true | _ => false end.

Definition kind_name (v : Value) : string :=
  match v with
  | VNull => "null" | VBool _ => "boolean" | VInt _ | VUInt _ => "integer" | VDouble _ => "float"
  | VString _ => "string" | VBinary _ => "binary" | VDate _ => "date" | VTimestamp _ _ => "timestamp"
  | VList _ => "list" | VDecimal _ _ => "decimal" | VDuration _ _ => "duration"
  end.

(** [static_cast<double>] of an integer. *)
Definition double_of_int (z : Z) : Double := Num (Json.round_double (z <? 0) (Z.abs z) 1).

(** [std::strtod] on the decimal's exact digits. *)
Definition decimal_as_double (limbs : Decimal.Limbs256) (scale : Z) : Double :=
  let text := (if Decimal.limbs_negative limbs then "-" else "") +:+
              Decimal.mag_digits (Decimal.limbs_magnitude limbs) +:+ "e" +:+ pretty (- scale) in
  Num (default (Json.Finite 0 0) (Json.strtod text)).

Definition as_double (v : Value) : Double :=
  match v with
  | VInt i => double_of_int i
  | VUInt u => double_of_int u
  | VDouble d => d
  | VDecimal dec scale => decimal_as_double dec scale
  | _ => Num (Json.Finite 0 0)
  end.

Definition as_ns (v : Value) : Z :=
  match v with VDate days => i64 (days * 86400 * 1000000000) | VTimestamp ns _ => ns | _ => 0 end.

(** ** Comparison *)

Definition three_way (a b : Z) : Z := if a <? b then -1 else if b <? a then 1 else 0.

(** [x < y] of two doubles that are not NaN. *)
Definition num_ltb (x y : Json.double) : bool :=
  match x, y with
  | Json.Finite m1 e1, Json.Finite m2 e2 => let e := Z.min e1 e2 in m1 * 2 ^ (e1 - e) <? m2 * 2 ^ (e2 - e)
  | Json.Finite _ _, Json.Infinite negative => negb negative
  | Json.Infinite negative, Json.Finite _ _ => negative
  | Json.Infinite n1, Json.Infinite n2 => n1 && negb n2
  end.

Definition nan_rank (d : Double) : Z := match d with NaN negative => if negative then -1 else 1 | Num _ => 0 end.

Definition float_way (x y : Double) : Z :=
  match x, y with
  | Num a, Num b => if num_ltb a b then -1 else if num_ltb b a then 1 else 0
  | _, _ => let rx := nan_rank x in let ry := nan_rank y in if rx <? ry then -1 else if ry <? rx then 1 else 0
  end.

(** The four limbs and the scale of an integer or a decimal. *)
Definition sign_limb (i : Z) : Z := if i <? 0 then U64_MAX else 0.
Definition exact_limbs (v : Value) : option (Decimal.Limbs256 * Z) :=
  match v with
  | VDecimal dec scale => Some (dec, scale)
  | VInt i => Some ([u64 i; sign_limb i; sign_limb i; sign_limb i], 0)
  | VUInt u => Some ([u; 0; 0; 0], 0)
  | _ => None
  end.

(** The sign of [x * k - y], by the quotient and remainder of [y] (C++'s truncating division). *)
Definition compare_scaled (x k y : Z) : Z :=
  let qy := Z.quot y k in
  let ry := Z.rem y k in
  let '(qy, ry) := if ry <? 0 then (qy - 1, ry + k) else (qy, ry) in
  if qy <? x then 1 else if x <? qy then -1 else if 0 <? ry then -1 else 0.

Definition compare_duration (count_a : Z) (unit_a : TimeUnit) (count_b : Z) (unit_b : TimeUnit) : Z :=
  let fa := unit_to_ns unit_a in
  let fb := unit_to_ns unit_b in
  if fa =? fb then (if count_a <? count_b then -1 else if count_b <? count_a then 1 else 0)
  else if fb <? fa then compare_scaled count_a (Z.quot fa fb) count_b
  else - compare_scaled count_b (Z.quot fb fa) count_a.

(** [std::string_view::compare], its sign. *)
Fixpoint bytes_way (a b : list Z) : Z :=
  match a, b with
  | [], [] => 0
  | [], _ :: _ => -1
  | _ :: _, [] => 1
  | x :: a, y :: b => if x <? y then -1 else if y <? x then 1 else bytes_way a b
  end.

Definition int_way (a b : Value) : Z :=
  match a, b with
  | VInt x, VInt y => three_way x y
  | VUInt x, VUInt y => three_way x y
  | VInt x, VUInt y => if x <? 0 then -1 else three_way x y
  | VUInt x, VInt y => if y <? 0 then 1 else three_way x y
  | _, _ => 0
  end.

Definition is_double (v : Value) : bool := match v with VDouble _ => true | _ => false end.
Definition is_decimal (v : Value) : bool := match v with VDecimal _ _ => true | _ => false end.
Definition text_of (v : Value) : option (list Z) := match v with VString s | VBinary s => Some s | _ => None end.

(** -1, 0, 1, or nothing when the two cannot be compared. *)
Definition compare (a b : Value) : option Z :=
  match a, b with
  | VDuration x ux, VDuration y uy => Some (compare_duration x ux y uy)
  | VDuration _ _, _ | _, VDuration _ _ => None
  | _, _ =>
      if is_decimal a || is_decimal b then
        if is_double a || is_double b then Some (float_way (as_double a) (as_double b))
        else match exact_limbs a, exact_limbs b with
             | Some (x, sx), Some (y, sy) => Some (Decimal.compare_decimal x sx y sy)
             | _, _ => None
             end
      else if numeric a && numeric b then
        if is_double a || is_double b then Some (float_way (as_double a) (as_double b)) else Some (int_way a b)
      else
        match text_of a, text_of b with
        | Some x, Some y => Some (bytes_way x y)
        | _, _ =>
            match a, b with
            | VBool x, VBool y => Some (if Bool.eqb x y then 0 else if x then 1 else -1)
            | _, _ => if temporal a && temporal b then Some (three_way (as_ns a) (as_ns b)) else None
            end
        end
  end.

(** ** Batches

    A view of an Arrow array: absolute slots, read at [offset + i], with the validity of each slot (no
    validity buffer: none is null). *)

Inductive Slot := SInt (z : Z) | SFloat (bits : Z) | SBytes (b : list Z) | SLimbs (l : Decimal.Limbs256) | SNone.

Inductive ArrowType :=
  | BOOL | INT8 | INT16 | INT32 | INT64 | UINT8 | UINT16 | UINT32 | UINT64 | HALF_FLOAT | FLOAT | DOUBLE
  | STRING | LARGE_STRING | BINARY | LARGE_BINARY | FIXED_SIZE_BINARY | DATE32 | DATE64 | TIME32 | TIME64
  | TIMESTAMP | DURATION | DECIMAL128 | DECIMAL256 | NESTED.

Inductive ArrayView := View {
  v_struct : bool; v_offset : Z; v_null_count : Z; v_validity : option (list bool); v_slots : list Slot;
  v_children : list ArrayView }.

Definition no_view : ArrayView := View false 0 0 None [] [].

Definition view_is_null (v : ArrayView) (i : Z) : bool :=
  match v_validity v with None => false | Some bits => negb (nth (Z.to_nat (v_offset v + i)) bits true) end.
Definition slot_at (v : ArrayView) (i : Z) : Slot := nth (Z.to_nat (v_offset v + i)) (v_slots v) SNone.

Definition get_int (s : Slot) : Z := match s with SInt z => z | _ => 0 end.

(** The IEEE number of a pattern with [mbits] bits of mantissa and [ebits] of exponent. *)
Definition decode_float (ebits mbits bits : Z) : Double :=
  let negative := Z.testbit bits (ebits + mbits) in
  let e := Z.shiftr bits mbits mod 2 ^ ebits in
  let f := bits mod 2 ^ mbits in
  let bias := 2 ^ (ebits - 1) - 1 in
  let signed m := if negative then - m else m in
  if e =? 2 ^ ebits - 1 then (if f =? 0 then Num (Json.Infinite negative) else NaN negative)
  else if e =? 0 then Num (Json.Finite (signed f) (1 - bias - mbits))
  else Num (Json.Finite (signed (f + 2 ^ mbits)) (e - bias - mbits)).

(** A float column's value, widened. *)
Definition get_bits (s : Slot) : Z := match s with SFloat bits => bits | _ => 0 end.
Definition get_double (type : ArrowType) (s : Slot) : Double :=
  match type with
  | HALF_FLOAT => decode_float 5 10 (get_bits s)
  | FLOAT => decode_float 8 23 (get_bits s)
  | _ => decode_float 11 52 (get_bits s)
  end.
Definition get_bytes (s : Slot) : list Z := match s with SBytes b => b | _ => [] end.
Definition get_limbs (s : Slot) : Decimal.Limbs256 := match s with SLimbs l => l | _ => [0; 0; 0; 0] end.

(** A bound column: the child indices from the batch down, the leaf's type, its time unit and its scale. *)
Record ColumnRef := mkColumn { c_indices : list nat; c_type : ArrowType; c_unit : TimeUnit; c_scale : Z }.

Definition read_scalar (s : Slot) (type : ArrowType) (unit : TimeUnit) (scale : Z) : Value :=
  match type with
  | DECIMAL128 =>
      let w := get_limbs s in
      let fill := if Int128.s64 (nth 1 w 0) <? 0 then U64_MAX else 0 in
      VDecimal [nth 0 w 0; nth 1 w 0; fill; fill] scale
  | DECIMAL256 => VDecimal (get_limbs s) scale
  | BOOL => VBool (negb (get_int s =? 0))
  | INT8 | INT16 | INT32 | INT64 | TIME32 | TIME64 => VInt (get_int s)
  | DURATION => VDuration (get_int s) unit
  | UINT8 | UINT16 | UINT32 | UINT64 => VUInt (get_int s)
  | HALF_FLOAT | FLOAT | DOUBLE => VDouble (get_double type s)
  | STRING | LARGE_STRING => VString (get_bytes s)
  | BINARY | LARGE_BINARY | FIXED_SIZE_BINARY => VBinary (get_bytes s)
  | DATE32 => VDate (get_int s)
  | DATE64 => VTimestamp (i64 (get_int s * 1000000)) Nano
  | TIMESTAMP => VTimestamp (i64 (get_int s * unit_to_ns unit)) unit
  | NESTED => VBool true
  end.

(** [read_column]'s walk: [None] where a struct on the way is null. *)
Fixpoint walk_column (view : ArrayView) (at_ : Z) (indices : list nat) : option (ArrayView * Z) :=
  match indices with
  | [] => Some (view, at_)
  | k :: indices =>
      if v_struct view && view_is_null view at_ then None
      else walk_column (nth k (v_children view) no_view) (at_ + v_offset view) indices
  end.

Definition read_column (c : ColumnRef) (batch : ArrayView) (row : Z) : Value :=
  match walk_column batch row (c_indices c) with
  | None => VNull
  | Some (view, at_) =>
      if view_is_null view at_ then VNull else read_scalar (slot_at view at_) (c_type c) (c_unit c) (c_scale c)
  end.

(** ** The tree *)

Inductive CmpOp := Eq | Ne | Lt | Le | Gt | Ge.
Inductive ArithOp := Add | Sub | Mul | Div | Mod.
Inductive TruthOp := IsTrue | IsFalse | IsNotTrue | IsNotFalse.

Inductive Node :=
  | Literal (v : Value)
  | Column (c : ColumnRef)
  | And (a b : Node)
  | Or (a b : Node)
  | Not (a : Node)
  | Compare (op : CmpOp) (a b : Node)
  | IsNull (a : Node)
  | IsNotNull (a : Node)
  | Truth (op : TruthOp) (a : Node)
  | In (negated : bool) (a : Node) (items : list Node)
  | Between (negated : bool) (a lo hi : Node)
  | Arith (op : ArithOp) (a b : Node)
  | Neg (a : Node).

Definition wanted (op : CmpOp) (c : Z) : bool :=
  match op with
  | Eq => c =? 0 | Ne => negb (c =? 0) | Lt => c <? 0 | Le => c <=? 0 | Gt => 0 <? c | Ge => 0 <=? c
  end.

Definition flip (op : CmpOp) : CmpOp :=
  match op with Lt => Gt | Le => Ge | Gt => Lt | Ge => Le | Eq => Eq | Ne => Ne end.

Definition arith_text (op : ArithOp) : string :=
  match op with Add => "+" | Sub => "-" | Mul => "*" | Div => "/" | Mod => "%" end.

Definition truth (v : Value) : res Value :=
  match v with
  | VNull | VBool _ => Ok v
  | _ => Err ("expected a boolean, got " +:+ kind_name v)
  end.

Definition cannot_compare (a b : Value) : string := "cannot compare " +:+ kind_name a +:+ " with " +:+ kind_name b.

Definition eval_compare (op : CmpOp) (a b : Value) : res Value :=
  if is_null a || is_null b then Ok VNull
  else match compare a b with
       | None => Err (cannot_compare a b)
       | Some c => Ok (VBool (wanted op c))
       end.

Definition eval_truth (op : TruthOp) (a : Value) : Value :=
  let is_true := match a with VBool b => b | _ => false end in
  let is_false := match a with VBool b => negb b | _ => false end in
  match op with
  | IsTrue => VBool is_true
  | IsFalse => VBool is_false
  | IsNotTrue => VBool (negb is_true)
  | IsNotFalse => VBool (negb is_false)
  end.

Definition eval_between (negated : bool) (a lo hi : Value) : res Value :=
  if is_null a || is_null lo || is_null hi then Ok VNull
  else match compare a lo, compare a hi with
       | Some c1, Some c2 => let within := (0 <=? c1) && (c2 <=? 0) in Ok (VBool (if negated then negb within else within))
       | _, _ => Err "cannot compare in BETWEEN"
       end.

(** IN over the items' values from one on; [saw_null] whether one before was NULL. *)
Fixpoint eval_in (negated : bool) (a : Value) (items : list (res Value)) (saw_null : bool) : res Value :=
  match items with
  | [] => Ok (if saw_null then VNull else VBool negated)
  | item :: items =>
      b ← item;
      if is_null b then eval_in negated a items true
      else match compare a b with
           | None => Err (cannot_compare a b)
           | Some c => if c =? 0 then Ok (VBool (negb negated)) else eval_in negated a items saw_null
           end
  end.

Section Eval.

(** IEEE arithmetic of doubles. *)
Context (float_op : ArithOp -> Double -> Double -> Double).

Definition arith (op : ArithOp) (a b : Value) : res Value :=
  if is_null a || is_null b then Ok VNull
  else if negb (numeric a) || negb (numeric b) then
    Err ("cannot apply '" +:+ arith_text op +:+ "' to " +:+ kind_name a +:+ " and " +:+ kind_name b)
  else if is_double a || is_double b then Ok (VDouble (float_op op (as_double a) (as_double b)))
  else
    let x := match a with VInt i => i | VUInt u => i64 u | _ => 0 end in
    let y := match b with VInt i => i | VUInt u => i64 u | _ => 0 end in
    match op with
    | Add => Ok (VInt (i64 (x + y)))
    | Sub => Ok (VInt (i64 (x - y)))
    | Mul => Ok (VInt (i64 (x * y)))
    | Div => if y =? 0 then Err "division by zero" else Ok (VInt (i64 (Z.quot x y)))
    | Mod => if y =? 0 then Err "division by zero" else Ok (VInt (Z.rem x y))
    end.

Definition negate (a : Value) : res Value :=
  match a with
  | VNull => Ok VNull
  | VInt i => Ok (VInt (i64 (- i)))
  | VUInt u => Ok (VInt (i64 (- i64 u)))
  | VDouble (NaN negative) => Ok (VDouble (NaN (negb negative)))
  | VDouble (Num (Json.Finite m e)) => Ok (VDouble (Num (Json.Finite (- m) e)))
  | VDouble (Num (Json.Infinite negative)) => Ok (VDouble (Num (Json.Infinite (negb negative))))
  | _ => Err ("cannot negate a " +:+ kind_name a)
  end.

(** One row. *)
Fixpoint eval (batch : ArrayView) (row : Z) (n : Node) : res Value :=
  match n with
  | Literal v => Ok v
  | Column c => Ok (read_column c batch row)
  | And a b =>
      a ← (v ← eval batch row a; truth v);
      match a with
      | VBool false => Ok a
      | _ =>
          b ← (v ← eval batch row b; truth v);
          match b with
          | VBool false => Ok b
          | _ => Ok (if is_null a || is_null b then VNull else VBool true)
          end
      end
  | Or a b =>
      a ← (v ← eval batch row a; truth v);
      match a with
      | VBool true => Ok a
      | _ =>
          b ← (v ← eval batch row b; truth v);
          match b with
          | VBool true => Ok b
          | _ => Ok (if is_null a || is_null b then VNull else VBool false)
          end
      end
  | Not a =>
      a ← (v ← eval batch row a; truth v);
      Ok (match a with VBool b => VBool (negb b) | _ => a end)
  | Compare op a b => a ← eval batch row a; b ← eval batch row b; eval_compare op a b
  | IsNull a => a ← eval batch row a; Ok (VBool (is_null a))
  | IsNotNull a => a ← eval batch row a; Ok (VBool (negb (is_null a)))
  | Truth op a => a ← (v ← eval batch row a; truth v); Ok (eval_truth op a)
  | In negated a items =>
      a ← eval batch row a;
      if is_null a then Ok a else eval_in negated a ((fun i => eval batch row i) <$> items) false
  | Between negated a lo hi =>
      a ← eval batch row a; lo ← eval batch row lo; hi ← eval batch row hi; eval_between negated a lo hi
  | Arith op a b => a ← eval batch row a; b ← eval batch row b; arith op a b
  | Neg a => a ← eval batch row a; negate a
  end.

End Eval.

(** ** A column at a time

    A state per row. *)

Inductive Tri := kFalse | kTrue | kNull.
#[export] Instance Tri_eq_dec : EqDecision Tri.
Proof. solve_decision. Defined.

Definition tri_of (b : bool) : Tri := if b then kTrue else kFalse.

(** A top-level column's view, or nothing. *)
Definition fast_column (n : Node) (batch : ArrayView) : option ArrayView :=
  match n with
  | Column c => match c_indices c with [k] => Some (nth k (v_children batch) no_view) | _ => None end
  | _ => None
  end.

Definition rows (length : Z) : list Z := seqZ 0 length.

Definition compare_column (v : ArrayView) (type : ArrowType) (unit : TimeUnit) (lit : Value) (n : Z) : option (list Z) :=
  let int_at r := get_int (slot_at v r) in
  match type with
  | INT8 | INT16 | INT32 | INT64 | TIME32 | TIME64 =>
      match lit with
      | VInt i => Some ((fun r => three_way (int_at r) i) <$> rows n)
      | VUInt u => Some ((fun r => if int_at r <? 0 then -1 else three_way (int_at r) u) <$> rows n)
      | VDouble d => Some ((fun r => float_way (double_of_int (int_at r)) d) <$> rows n)
      | _ => None
      end
  | DURATION =>
      match lit with
      | VDuration i u => Some ((fun r => compare_duration (int_at r) unit i u) <$> rows n)
      | _ => None
      end
  | UINT8 | UINT16 | UINT32 | UINT64 =>
      match lit with
      | VUInt u => Some ((fun r => three_way (int_at r) u) <$> rows n)
      | VInt i => Some ((fun r => if i <? 0 then 1 else three_way (int_at r) i) <$> rows n)
      | VDouble d => Some ((fun r => float_way (double_of_int (int_at r)) d) <$> rows n)
      | _ => None
      end
  | FLOAT | DOUBLE =>
      if negb (numeric lit) then None
      else Some ((fun r => float_way (get_double type (slot_at v r)) (as_double lit)) <$> rows n)
  | DATE32 | DATE64 | TIMESTAMP =>
      if negb (temporal lit) then None
      else
        let scale := match type with DATE32 => kNsPerDay | DATE64 => 1000000 | _ => unit_to_ns unit end in
        Some ((fun r => three_way (i64 (int_at r * scale)) (as_ns lit)) <$> rows n)
  | STRING | LARGE_STRING =>
      match text_of lit with
      | Some s => Some ((fun r => bytes_way (get_bytes (slot_at v r)) s) <$> rows n)
      | None => None
      end
  | _ => None
  end.

(** [set_nulls]: the null rows of the column. *)
Definition set_nulls (v : ArrayView) (n : Z) (state : list Tri) : list Tri :=
  if (v_null_count v =? 0) || bool_decide (v_validity v = None) then state
  else zip_with (fun r s => if view_is_null v r then kNull else s) (rows n) state.

Definition int64_max : Z := 2 ^ 63 - 1.

Definition fast_int_literal (v : Value) : option Z :=
  match v with
  | VInt i => Some i
  | VUInt u => if u <=? int64_max then Some u else None
  | _ => None
  end.

Definition small_int (t : ArrowType) : bool :=
  match t with INT8 | INT16 | INT32 | INT64 | UINT8 | UINT16 | UINT32 => true | _ => false end.

Definition is_division (op : ArithOp) : bool := match op with Div | Mod => true | _ => false end.

(** [(column op literal)], or the literal first: the column, the literal and whether the column is first. *)
Definition arith_operands (a b : Node) : option (ColumnRef * Value * bool) :=
  match a, b with
  | Column c, Literal k => Some (c, k, true)
  | Literal k, Column c => Some (c, k, false)
  | _, _ => None
  end.

Definition fast_arith_value (op : ArithOp) (col_first : bool) (x k : Z) : Z :=
  match op with
  | Add => i64 (x + k)
  | Sub => i64 (if col_first then x - k else k - x)
  | Mul => i64 (x * k)
  | Div => Z.quot x k
  | Mod => Z.rem x k
  end.

(** The arithmetic side, the literal side and whether the arithmetic is on the left. *)
Definition arith_side (a b : Node) : option (Node * Value * bool) :=
  match a, b with
  | Literal _, Literal _ => None
  | _, Literal c => Some (a, c, true)
  | Literal c, _ => Some (b, c, false)
  | _, _ => None
  end.

Definition fast_arith_compare (cmp : CmpOp) (a b : Node) (batch : ArrayView) (length : Z) : option (list Tri) :=
  match arith_side a b with
  | None => None
  | Some (side, lit, arith_left) =>
      match fast_int_literal lit, side with
      | Some c, Arith op x y =>
          match arith_operands x y with
          | None => None
          | Some (col, klit, col_first) =>
              match fast_int_literal klit with
              | None => None
              | Some k =>
                  if negb (small_int (c_type col)) then None
                  else if is_division op && (negb col_first || (k =? 0) || (k =? -1)) then None
                  else match fast_column (Column col) batch with
                       | None => None
                       | Some v =>
                           let cmp := if arith_left then cmp else flip cmp in
                           let state r := tri_of (wanted cmp (three_way (fast_arith_value op col_first (get_int (slot_at v r)) k) c)) in
                           Some (set_nulls v length (state <$> rows length))
                       end
              end
          end
      | _, _ => None
      end
  end.

Definition tri_and (x y : Tri) : Tri :=
  match x, y with kFalse, _ | _, kFalse => kFalse | kNull, _ | _, kNull => kNull | _, _ => kTrue end.
Definition tri_or (x y : Tri) : Tri :=
  match x, y with kTrue, _ | _, kTrue => kTrue | kNull, _ | _, kNull => kNull | _, _ => kFalse end.
Definition tri_not (x : Tri) : Tri := match x with kNull => kNull | kTrue => kFalse | kFalse => kTrue end.

(** A column against a literal. *)
Definition column_literal (a b : Node) : option (ColumnRef * Value * bool) :=
  match a, b with
  | Column c, Literal v => Some (c, v, true)
  | Literal v, Column c => Some (c, v, false)
  | _, _ => None
  end.

Definition literals (items : list Node) : option (list Value) :=
  mapM (M := option) (fun i => match i with Literal v => Some v | _ => None end) items.

(** The rows that equal an item, over the items from one on; and whether an item is NULL. *)
Fixpoint in_items (v : ArrayView) (c : ColumnRef) (n : Z) (lits : list Value) (out : list Tri) (null_item : bool)
    : option (list Tri * bool) :=
  match lits with
  | [] => Some (out, null_item)
  | lit :: lits =>
      if is_null lit then in_items v c n lits out true
      else match compare_column v (c_type c) (c_unit c) lit n with
           | None => None
           | Some ways => in_items v c n lits (zip_with (fun w (s : Tri) => if w =? 0 then kTrue else s) ways out) null_item
           end
  end.

Definition in_state (negated null_item : bool) (x : Tri) : Tri :=
  let x := match x with kFalse => if null_item then kNull else kFalse | _ => x end in
  if negated then tri_not x else x.

Fixpoint fast_eval (batch : ArrayView) (length : Z) (n : Node) : option (list Tri) :=
  match n with
  | And a b =>
      match fast_eval batch length a, fast_eval batch length b with
      | Some x, Some y => Some (zip_with tri_and x y)
      | _, _ => None
      end
  | Or a b =>
      match fast_eval batch length a, fast_eval batch length b with
      | Some x, Some y => Some (zip_with tri_or x y)
      | _, _ => None
      end
  | Not a => match fast_eval batch length a with Some x => Some (tri_not <$> x) | None => None end
  | IsNull a =>
      match fast_column a batch with
      | None => None
      | Some v => Some ((fun r => tri_of (negb (v_null_count v =? 0) && view_is_null v r)) <$> rows length)
      end
  | IsNotNull a =>
      match fast_column a batch with
      | None => None
      | Some v => Some ((fun r => tri_of (negb (negb (v_null_count v =? 0) && view_is_null v r))) <$> rows length)
      end
  | Compare op a b =>
      match column_literal a b with
      | None => fast_arith_compare op a b batch length
      | Some (c, lit, col_left) =>
          match fast_column (Column c) batch with
          | None => None
          | Some v =>
              let op := if col_left then op else flip op in
              if is_null lit then Some ((fun _ => kNull) <$> rows length)
              else match compare_column v (c_type c) (c_unit c) lit length with
                   | None => None
                   | Some ways => Some (set_nulls v length ((fun w => tri_of (wanted op w)) <$> ways))
                   end
          end
      end
  | In negated a items =>
      match a, fast_column a batch, literals items with
      | Column c, Some v, Some lits =>
          match in_items v c length lits ((fun _ => kFalse) <$> rows length) false with
          | None => None
          | Some (out, null_item) => Some (set_nulls v length (in_state negated null_item <$> out))
          end
      | _, _, _ => None
      end
  | Between negated a lo hi =>
      match a, fast_column a batch, lo, hi with
      | Column c, Some v, Literal lo, Literal hi =>
          if is_null lo || is_null hi then None
          else match compare_column v (c_type c) (c_unit c) lo length, compare_column v (c_type c) (c_unit c) hi length with
               | Some ways, Some upper =>
                   Some (set_nulls v length
                     (zip_with (fun w u => tri_of (xorb ((0 <=? w) && (u <=? 0)) negated)) ways upper))
               | _, _ => None
               end
      | _, _, _, _ => None
      end
  | _ => None
  end.

(** The filter of a batch: which rows to keep. *)
Definition keep_row (v : Value) : res bool :=
  match v with
  | VBool b => Ok b
  | VNull => Ok false
  | _ => Err ("a filter must be a boolean expression, not " +:+ kind_name v)
  end.

Definition slow_filter float_op (batch : ArrayView) (length : Z) (n : Node) : res (list bool) :=
  fold_res (fun keep r => v ← eval float_op batch r n; b ← keep_row v; Ok (keep ++ [b])) (rows length) [].

Definition filter float_op (batch : ArrayView) (length : Z) (n : Node) : res (list bool) :=
  match fast_eval batch length n with
  | Some state => Ok ((fun s => bool_decide (s = kTrue)) <$> state)
  | None => slow_filter float_op batch length n
  end.

(** ** The two evaluations agree *)

Definition value_of (s : Tri) : Value := match s with kFalse => VBool false | kTrue => VBool true | kNull => VNull end.

(** The integers a column of the type can hold, and a literal. *)
Definition slot_ok (t : ArrowType) (s : Slot) : Prop :=
  match t with
  | UINT8 | UINT16 | UINT32 => 0 <= get_int s < 2 ^ 32
  | _ => - 2 ^ 63 <= get_int s < 2 ^ 63 \/ t = UINT64
  end.
Definition literal_ok (v : Value) : Prop :=
  match v with VInt i => - 2 ^ 63 <= i < 2 ^ 63 | VUInt u => is_u64 u | _ => True end.

(** A column's view: its null count is right, and its slots are of its type. *)
Definition view_ok (v : ArrayView) (t : ArrowType) (length : Z) : Prop :=
  (v_null_count v = 0 -> forall r, 0 <= r < length -> view_is_null v r = false) /\
  (forall r, 0 <= r < length -> slot_ok t (slot_at v r)).

Definition column_ok (batch : ArrayView) (length : Z) (c : ColumnRef) : Prop :=
  match c_indices c with [k] => view_ok (nth k (v_children batch) no_view) (c_type c) length | _ => True end.

Fixpoint node_ok (batch : ArrayView) (length : Z) (n : Node) : Prop :=
  match n with
  | Literal v => literal_ok v
  | Column c => column_ok batch length c
  | And a b | Or a b | Compare _ a b | Arith _ a b => node_ok batch length a /\ node_ok batch length b
  | Not a | IsNull a | IsNotNull a | Truth _ a | Neg a => node_ok batch length a
  | In _ a items => node_ok batch length a
  | Between _ a lo hi => node_ok batch length a /\ node_ok batch length lo /\ node_ok batch length hi
  end.

(** A batch as the readers build it: no offset and no null rows of its own. *)
Definition plain (batch : ArrayView) : Prop := v_offset batch = 0 /\ v_validity batch = None.

Lemma i64_small z : - 2 ^ 63 <= z < 2 ^ 63 -> i64 z = z.
Proof.
  intros Hz. unfold i64, Int128.s64, u64, wrap. destruct (Z.lt_ge_cases z 0).
  - replace (z mod 2 ^ 64) with (z + 2 ^ 64) by (apply Z.mod_unique with (-1); lia).
    known_false (z + 2 ^ 64 <? 2 ^ 63). lia.
  - rewrite Z.mod_small by lia. known_true (z <? 2 ^ 63). done.
Qed.

Lemma three_way_opp a b : three_way b a = - three_way a b.
Proof. unfold three_way. destruct (Z.ltb_spec a b), (Z.ltb_spec b a); lia. Qed.

Lemma num_ltb_asym a b : num_ltb a b = true -> num_ltb b a = false.
Proof.
  destruct a as [m1 e1|n1], b as [m2 e2|n2]; cbn; [|by destruct n2|by destruct n1|by destruct n1, n2].
  rewrite (Z.min_comm e2 e1). intros H%Z.ltb_lt. apply Z.ltb_ge. lia.
Qed.

Lemma float_way_opp a b : float_way b a = - float_way a b.
Proof.
  destruct a as [[]|a], b as [[]|b]; try done. cbn.
  destruct (num_ltb a b) eqn:E; [by rewrite (num_ltb_asym _ _ E)|]. by destruct (num_ltb b a).
Qed.

Lemma compare_duration_opp x ux y uy : compare_duration y uy x ux = - compare_duration x ux y uy.
Proof.
  unfold compare_duration. rewrite (Z.eqb_sym (unit_to_ns uy)).
  destruct (Z.eqb_spec (unit_to_ns ux) (unit_to_ns uy)); [destruct (Z.ltb_spec x y), (Z.ltb_spec y x); lia|].
  destruct (Z.ltb_spec (unit_to_ns ux) (unit_to_ns uy)), (Z.ltb_spec (unit_to_ns uy) (unit_to_ns ux)); try lia.
Qed.

Lemma bytes_way_opp a b : bytes_way b a = - bytes_way a b.
Proof.
  revert b. induction a as [|x a IH]; intros [|y b]; try done. cbn.
  destruct (Z.ltb_spec x y), (Z.ltb_spec y x); try lia; apply IH.
Qed.

Lemma wanted_flip op c : wanted (flip op) c = wanted op (- c).
Proof.
  destruct op; cbn; try (destruct (Z.eqb_spec c 0), (Z.eqb_spec (- c) 0); lia || done);
    repeat match goal with |- context [?x <? ?y] => destruct (Z.ltb_spec x y) | |- context [?x <=? ?y] => destruct (Z.leb_spec x y) end; lia || done.
Qed.

(** The comparison of one slot with a literal, as [compare_column] makes it. *)
Definition slot_way (type : ArrowType) (unit : TimeUnit) (lit : Value) (s : Slot) : option Z :=
  match type with
  | INT8 | INT16 | INT32 | INT64 | TIME32 | TIME64 =>
      match lit with
      | VInt i => Some (three_way (get_int s) i)
      | VUInt u => Some (if get_int s <? 0 then -1 else three_way (get_int s) u)
      | VDouble d => Some (float_way (double_of_int (get_int s)) d)
      | _ => None
      end
  | DURATION => match lit with VDuration i u => Some (compare_duration (get_int s) unit i u) | _ => None end
  | UINT8 | UINT16 | UINT32 | UINT64 =>
      match lit with
      | VUInt u => Some (three_way (get_int s) u)
      | VInt i => Some (if i <? 0 then 1 else three_way (get_int s) i)
      | VDouble d => Some (float_way (double_of_int (get_int s)) d)
      | _ => None
      end
  | FLOAT | DOUBLE => if negb (numeric lit) then None else Some (float_way (get_double type s) (as_double lit))
  | DATE32 | DATE64 | TIMESTAMP =>
      if negb (temporal lit) then None
      else Some (three_way (i64 (get_int s * match type with DATE32 => kNsPerDay | DATE64 => 1000000 | _ => unit_to_ns unit end)) (as_ns lit))
  | STRING | LARGE_STRING => match text_of lit with Some t => Some (bytes_way (get_bytes s) t) | None => None end
  | _ => None
  end.

Lemma days_ns x : x * 86400 * 1000000000 = x * kNsPerDay.
Proof. unfold kNsPerDay. lia. Qed.

#[local] Opaque three_way float_way compare_duration bytes_way double_of_int i64 kNsPerDay decimal_as_double get_double.

Lemma compare_column_slots v type unit lit n ways : compare_column v type unit lit n = Some ways ->
  Forall2 (fun r w => slot_way type unit lit (slot_at v r) = Some w) (rows n) ways.
Proof.
  intros Hc.
  assert (forall f : Z -> Z, Some (f <$> rows n) = Some ways -> (forall r, slot_way type unit lit (slot_at v r) = Some (f r)) ->
    Forall2 (fun r w => slot_way type unit lit (slot_at v r) = Some w) (rows n) ways) as Hmap.
  { intros f [= <-] Hf. apply Forall2_fmap_r, Forall_Forall2_diag, Forall_forall. intros r _. apply Hf. }
  destruct type; cbn [compare_column] in Hc; try discriminate Hc; destruct lit; cbn in Hc; try discriminate Hc;
    (eapply Hmap; [exact Hc | intros r; reflexivity]).
Qed.

(** It is [compare] of the slot's value with the literal, both ways around. *)
Lemma slot_way_spec type unit scale lit s w : slot_way type unit lit s = Some w ->
  compare (read_scalar s type unit scale) lit = Some w /\ compare lit (read_scalar s type unit scale) = Some (- w).
Proof.
  destruct type; cbn [slot_way]; try discriminate; destruct lit; cbn; try discriminate; intros [= <-]; rewrite ?days_ns; (split; [reflexivity|]);
    first [reflexivity
          | f_equal; first [apply three_way_opp | apply float_way_opp | apply compare_duration_opp | apply bytes_way_opp]
          | case_bool; [reflexivity | f_equal; apply three_way_opp] ].
Qed.

Lemma read_scalar_not_null s t u sc : is_null (read_scalar s t u sc) = false.
Proof. by destruct t. Qed.

(** *** Rows *)

Definition agrees {A} (f : Z -> A) (state : list A) (n : Z) : Prop := Forall2 (fun r s => f r = s) (rows n) state.

Lemma zip_rows {A B C} (P : Z -> A -> Prop) (Q : Z -> B -> Prop) (f : A -> B -> C) l x y :
  Forall2 P l x -> Forall2 Q l y -> Forall2 (fun r s => exists a b, P r a /\ Q r b /\ s = f a b) l (zip_with f x y).
Proof.
  intros Hx. revert y. induction Hx as [|r a l x Hr Hx IH]; intros y Hy; inversion Hy; subst; [constructor|].
  constructor; [eauto | by apply IH].
Qed.

Lemma map_rows {A B} (P : Z -> A -> Prop) (f : A -> B) l x :
  Forall2 P l x -> Forall2 (fun r s => exists a, P r a /\ s = f a) l (f <$> x).
Proof. induction 1; constructor; eauto. Qed.

Lemma const_rows {A} (P : Z -> A -> Prop) (f : Z -> A) n :
  (forall r, 0 <= r < n -> P r (f r)) -> Forall2 P (rows n) (f <$> rows n).
Proof. intros H. apply Forall2_fmap_r, Forall_Forall2_diag, Forall_forall. intros r Hr%elem_of_seqZ. apply H. lia. Qed.

Lemma rows_impl {A} (P Q : Z -> A -> Prop) n x :
  Forall2 P (rows n) x -> (forall r s, 0 <= r < n -> P r s -> Q r s) -> Forall2 Q (rows n) x.
Proof.
  intros H HPQ. assert (Forall (fun r => 0 <= r < n) (rows n)) as Hr by (apply Forall_forall; intros r Hr%elem_of_seqZ; lia).
  revert Hr. induction H as [|r s l x Hp H IH]; intros Hr; inversion Hr; subst; constructor; auto.
Qed.

(** The null rows of a column overwrite a state that is right on the others. *)
Lemma set_nulls_rows (P : Z -> Tri -> Prop) v t n state : view_ok v t n ->
  (forall r, 0 <= r < n -> view_is_null v r = true -> P r kNull) ->
  Forall2 (fun r s => view_is_null v r = false -> P r s) (rows n) state -> Forall2 P (rows n) (set_nulls v n state).
Proof.
  intros [Hc _] Hnull Hs. unfold set_nulls. destruct ((v_null_count v =? 0) || bool_decide (v_validity v = None)) eqn:E.
  - apply orb_true_iff in E. eapply rows_impl; [exact Hs|]. intros r s Hr H. apply H.
    destruct E as [E|E]; [apply Hc; [by apply Z.eqb_eq | done]|]. apply bool_decide_eq_true in E. unfold view_is_null. by rewrite E.
  - eapply rows_impl; [apply (zip_rows (fun r a => r = a) _ _ _ _ _ ltac:(apply Forall_Forall2_diag, Forall_true; done) Hs)|].
    intros r s Hr (a & b & <- & Hb & ->). cbn. destruct (view_is_null v r) eqn:Er; auto.
Qed.

Section Agree.
Context (float_op : ArithOp -> Double -> Double -> Double) (batch : ArrayView) (n : Z).
Hypothesis Hplain : plain batch.

Lemma read_top c k r : c_indices c = [k] -> let v := nth k (v_children batch) no_view in
  read_column c batch r = if view_is_null v r then VNull else read_scalar (slot_at v r) (c_type c) (c_unit c) (c_scale c).
Proof.
  intros Hk v. destruct Hplain as [Ho Hv]. unfold read_column. rewrite Hk. cbn. unfold view_is_null at 1. rewrite Hv, andb_false_r, Ho, Z.add_0_r. done.
Qed.

Lemma fast_column_spec c v : fast_column (Column c) batch = Some v -> column_ok batch n c ->
  view_ok v (c_type c) n /\
  forall r, read_column c batch r = if view_is_null v r then VNull else read_scalar (slot_at v r) (c_type c) (c_unit c) (c_scale c).
Proof.
  cbn. unfold column_ok. destruct (c_indices c) as [|k [|? ?]] eqn:E; try done. intros [= <-] Hok. split; [done|].
  intros r. by apply read_top.
Qed.

(** [eval] on the row gives the state. *)
Definition row_is (m : Node) (r : Z) (s : Tri) : Prop := eval float_op batch r m = Ok (value_of s).

Lemma compare_rows op a b state : column_literal a b <> None -> node_ok batch n a -> node_ok batch n b ->
  fast_eval batch n (Compare op a b) = Some state -> Forall2 (row_is (Compare op a b)) (rows n) state.
Proof.
  intros Hcl Ha Hb. cbn [fast_eval]. destruct (column_literal a b) as [[[c lit] col_left]|] eqn:E; [clear Hcl | done].
  assert (column_ok batch n c /\
          forall r, eval float_op batch r (Compare op a b) =
            if col_left then eval_compare op (read_column c batch r) lit else eval_compare op lit (read_column c batch r)) as [Hc Hev].
  { destruct a, b; try discriminate; cbn in E; injection E as <- <- <-; split; done. }
  destruct (fast_column (Column c) batch) as [v|] eqn:Ev; [|done]. destruct (fast_column_spec c v Ev Hc) as [Hv Hr].
  destruct (is_null lit) eqn:El.
  - intros [= <-]. apply const_rows. intros r _. unfold row_is. rewrite Hev. destruct lit; try discriminate. unfold eval_compare. cbn.
    rewrite orb_true_r. by destruct col_left.
  - destruct (compare_column v (c_type c) (c_unit c) lit n) as [ways|] eqn:Ec; [|done]. intros [= <-].
    apply compare_column_slots in Ec. apply (set_nulls_rows _ v (c_type c) n _ Hv).
    + intros r _ Hn. unfold row_is. rewrite Hev, Hr, Hn. unfold eval_compare. cbn. rewrite orb_true_r. by destruct col_left.
    + eapply rows_impl; [apply map_rows, Ec|]. intros r s _ (w & Hw & ->) Hn. unfold row_is. rewrite Hev, Hr, Hn. unfold eval_compare.
      apply (slot_way_spec _ _ (c_scale c)) in Hw as [H1 H2]. rewrite read_scalar_not_null, El. cbn [orb].
      destruct col_left; rewrite ?H1, ?H2; [by destruct (wanted op w)|]. rewrite wanted_flip. by destruct (wanted op (- w)).
Qed.

Lemma between_rows negated a lo hi state : node_ok batch n a ->
  fast_eval batch n (Between negated a lo hi) = Some state -> Forall2 (row_is (Between negated a lo hi)) (rows n) state.
Proof.
  intros Ha. cbn [fast_eval]. destruct a; try done. destruct (fast_column (Column c) batch) as [v|] eqn:Ev; [|done].
  destruct lo as [lo| | | | | | | | | | | |]; try done. destruct hi as [hi| | | | | | | | | | | |]; try done.
  destruct (is_null lo) eqn:El; [done|]. destruct (is_null hi) eqn:Eh; [done|]. cbn [orb].
  destruct (compare_column v (c_type c) (c_unit c) lo n) as [ways|] eqn:E1; [|done].
  destruct (compare_column v (c_type c) (c_unit c) hi n) as [upper|] eqn:E2; [|done]. intros [= <-].
  destruct (fast_column_spec c v Ev Ha) as [Hv Hr]. apply compare_column_slots in E1, E2.
  apply (set_nulls_rows _ v (c_type c) n _ Hv).
  - intros r _ Hn. unfold row_is. cbn. rewrite Hr, Hn. done.
  - eapply rows_impl; [apply (zip_rows _ _ _ _ _ _ E1 E2)|]. intros r s _ (w & u & Hw & Hu & ->) Hn. unfold row_is. cbn. rewrite Hr, Hn.
    apply (slot_way_spec _ _ (c_scale c)) in Hw as [Hw _], Hu as [Hu _]. unfold eval_between. rewrite read_scalar_not_null, El, Eh. cbn [orb].
    rewrite Hw, Hu. destruct ((0 <=? w) && (u <=? 0)), negated; done.
Qed.

(** *** IN *)

(** Whether a row's slot equals an item. *)
Definition hit (t : ArrowType) (u : TimeUnit) (s : Slot) (lit : Value) : bool :=
  negb (is_null lit) && match slot_way t u lit s with Some w => w =? 0 | None => false end.

Definition comparable (t : ArrowType) (u : TimeUnit) (s : Slot) (lit : Value) : Prop :=
  is_null lit = true \/ is_Some (slot_way t u lit s).

Lemma in_items_spec v c lits out ni out' ni' (h : Z -> bool) :
  in_items v c n lits out ni = Some (out', ni') -> Forall2 (fun r s => s = tri_of (h r)) (rows n) out ->
  ni' = ni || existsb is_null lits /\
  Forall2 (fun r s => s = tri_of (h r || existsb (hit (c_type c) (c_unit c) (slot_at v r)) lits) /\
                      Forall (comparable (c_type c) (c_unit c) (slot_at v r)) lits) (rows n) out'.
Proof.
  revert out ni h. induction lits as [|lit lits IH]; intros out ni h; cbn [in_items existsb].
  { intros [= <- <-] Ho. rewrite orb_false_r. split; [done|]. eapply rows_impl; [exact Ho|]. intros r s _ ->. by rewrite orb_false_r. }
  destruct (is_null lit) eqn:El.
  - intros Hi Ho. destruct (IH out true h Hi Ho) as [-> H]. split; [by destruct ni|]. eapply rows_impl; [exact H|].
    intros r s _ [-> Hc].
    assert (hit (c_type c) (c_unit c) (slot_at v r) lit = false) as -> by (unfold hit; by rewrite El). split; [done|]. constructor; [by left | done].
  - destruct (compare_column v (c_type c) (c_unit c) lit n) as [ways|] eqn:Ec; [|done]. apply compare_column_slots in Ec. intros Hi Ho.
    assert (Forall2 (fun r s => s = tri_of (h r || hit (c_type c) (c_unit c) (slot_at v r) lit) /\ comparable (c_type c) (c_unit c) (slot_at v r) lit) (rows n)
      (zip_with (fun w (s : Tri) => if w =? 0 then kTrue else s) ways out)) as Ho'.
    { eapply rows_impl; [apply (zip_rows _ _ _ _ _ _ Ec Ho)|]. intros r s _ (w & o & Hw & -> & ->). unfold hit, comparable. rewrite El, Hw. cbn [negb andb].
      split; [|right; by eexists]. destruct (w =? 0); [by rewrite orb_true_r | by rewrite orb_false_r]. }
    destruct (IH _ ni (fun r => h r || hit (c_type c) (c_unit c) (slot_at v r) lit) Hi) as [-> H]; [eapply rows_impl; [exact Ho'|]; intros r s _ [Hs _]; exact Hs|]. split; [done|].
    assert (Forall (fun r => comparable (c_type c) (c_unit c) (slot_at v r) lit) (rows n)) as Hcl.
    { clear -Ho'. induction Ho' as [|r s l x [_ H] Hf IH]; constructor; done. }
    assert (forall P Q l x, Forall P l -> Forall2 (Q : Z -> Tri -> Prop) l x -> Forall2 (fun r s => P r /\ Q r s) l x) as Hzip.
    { clear. intros P Q l x HP H. induction H; inversion HP; subst; constructor; auto. }
    eapply rows_impl; [apply (Hzip _ _ _ _ Hcl H)|]. intros r s _ [Hcl' [-> Hc]]. split; [by rewrite orb_assoc | by constructor].
Qed.

Lemma eval_in_spec negated t u sc s lits saw : Forall (comparable t u s) lits ->
  eval_in negated (read_scalar s t u sc) (Ok <$> lits) saw =
    Ok (if existsb (hit t u s) lits then VBool (negb negated)
        else if saw || existsb is_null lits then VNull else VBool negated).
Proof.
  intros H. revert saw. induction H as [|lit lits Hl H IH]; intros saw; cbn [fmap list_fmap eval_in existsb].
  { by rewrite orb_false_r. }
  unfold mbind, res_bind. unfold hit at 1. destruct (is_null lit) eqn:El; cbn [negb andb orb].
  - rewrite IH. cbn [orb]. by rewrite orb_true_r.
  - destruct Hl as [|[w Hw]]; [congruence|]. rewrite Hw. apply (slot_way_spec _ _ sc) in Hw as [-> _].
    destruct (w =? 0); [done|]. apply IH.
Qed.

Lemma literals_eval items lits r : literals items = Some lits -> ((fun i => eval float_op batch r i) <$> items) = Ok <$> lits.
Proof.
  revert lits. induction items as [|i items IH]; intros lits; cbn.
  { by intros [= <-]. }
  intros H. destruct i; try discriminate H. destruct (literals items) as [ls|] eqn:E; unfold literals in E; cbn in H; rewrite E in H; [|discriminate].
  injection H as <-. cbn. f_equal. by apply IH.
Qed.

Lemma in_rows negated a items state : node_ok batch n a ->
  fast_eval batch n (In negated a items) = Some state -> Forall2 (row_is (In negated a items)) (rows n) state.
Proof.
  intros Ha. cbn [fast_eval]. destruct a; try done. destruct (fast_column (Column c) batch) as [v|] eqn:Ev; [|done].
  destruct (literals items) as [lits|] eqn:El; [|done]. destruct (in_items v c n lits _ false) as [[out ni]|] eqn:Ei; [|done]. intros [= <-].
  destruct (fast_column_spec c v Ev Ha) as [Hv Hr].
  apply (in_items_spec v c lits _ _ _ _ (fun _ => false)) in Ei as [-> Ho]; [|by apply const_rows].
  apply (set_nulls_rows _ v (c_type c) n _ Hv).
  - intros r _ Hn. unfold row_is. cbn [eval]. unfold mbind, res_bind. rewrite Hr, Hn. done.
  - eapply rows_impl; [apply map_rows, Ho|]. intros r s _ (o & [-> Hc] & ->) Hn. unfold row_is. cbn [eval]. unfold mbind, res_bind.
    rewrite Hr, Hn, read_scalar_not_null, (literals_eval _ _ _ El), eval_in_spec by done. cbn [orb].
    destruct (existsb (hit _ _ _) lits), (existsb is_null lits), negated; done.
Qed.

(** *** Integer arithmetic against a literal *)

Lemma fast_int_literal_spec lit k : literal_ok lit -> fast_int_literal lit = Some k ->
  - 2 ^ 63 <= k < 2 ^ 63 /\ is_null lit = false /\ numeric lit = true /\ is_double lit = false /\
  (match lit with VInt i => i | VUInt u => i64 u | _ => 0 end) = k /\
  (forall y, compare (VInt y) lit = Some (three_way y k) /\ compare lit (VInt y) = Some (three_way k y)).
Proof.
  destruct lit; cbn; try done.
  - intros Hl [= <-]. split_and!; try done; lia.
  - unfold int64_max, is_u64. destruct (Z.leb_spec u (2 ^ 63 - 1)); [|done]. intros Hl [= <-].
    split_and!; try done; try lia; [rewrite i64_small by lia; done|]. intros y.
    #[local] Transparent three_way. unfold three_way. #[local] Opaque three_way.
    destruct (Z.ltb_spec y 0); [|done]. known_true (y <? u). known_false (u <? y). done.
Qed.

Lemma small_int_value t s u sc : small_int t = true -> slot_ok t s ->
  let x := get_int s in - 2 ^ 63 <= x < 2 ^ 63 /\ (read_scalar s t u sc = VInt x \/ (read_scalar s t u sc = VUInt x /\ 0 <= x)).
Proof. destruct t; try discriminate; cbn; intros _ H; (split; [destruct H; try discriminate; lia|]); auto; right; (split; [done | lia]). Qed.

Lemma arith_value op t s u sc klit k col_first : small_int t = true -> slot_ok t s -> literal_ok klit -> fast_int_literal klit = Some k ->
  is_division op && (negb col_first || (k =? 0) || (k =? -1)) = false ->
  (if col_first then arith float_op op (read_scalar s t u sc) klit else arith float_op op klit (read_scalar s t u sc)) =
    Ok (VInt (fast_arith_value op col_first (get_int s) k)).
Proof.
  intros Ht Hs Hl Hk Hd. destruct (fast_int_literal_spec klit k Hl Hk) as (Rk & Hn & Hnum & Hdbl & Hval & _).
  destruct (small_int_value t s u sc Ht Hs) as [Rx Hv]. set (x := get_int s) in *.
  assert (is_null (read_scalar s t u sc) = false /\ numeric (read_scalar s t u sc) = true /\ is_double (read_scalar s t u sc) = false /\
    match read_scalar s t u sc with VInt i => i | VUInt u => i64 u | _ => 0 end = x) as (H1 & H2 & H3 & H4).
  { destruct Hv as [-> | [-> H0]]; split_and!; try done. by apply i64_small. }
  unfold arith. rewrite H1, H2, H3, H4, Hn, Hnum, Hdbl, Hval. clear H1 H2 H3 H4 Hn Hnum Hdbl Hval Hv Ht Hs.
  destruct col_first; cbn [negb orb andb] in *; destruct op; cbn [is_division andb fast_arith_value] in *; try done; bool_prop.
  - known_false (k =? 0). rewrite i64_small; [done|].
    destruct (Z.eq_dec k 1) as [->|]; [rewrite Z.quot_1_r; lia|].
    assert (Z.abs (Z.quot x k) <= Z.abs x / 2); [|dlia].
    rewrite <- Z.quot_abs, Z.quot_div_nonneg by lia. apply Z.div_le_compat_l; lia.
  - by known_false (k =? 0).
  - by rewrite Z.add_comm.
  - by rewrite Z.mul_comm.
Qed.

Lemma arith_compare_rows cmp a b state : node_ok batch n a -> node_ok batch n b ->
  fast_arith_compare cmp a b batch n = Some state -> Forall2 (row_is (Compare cmp a b)) (rows n) state.
Proof.
  intros Ha Hb. unfold fast_arith_compare. destruct (arith_side a b) as [[[side lit] arith_left]|] eqn:Es; [|done].
  assert ((arith_left = true /\ a = side /\ b = Literal lit) \/ (arith_left = false /\ b = side /\ a = Literal lit)) as Hside.
  { destruct a, b; cbn in Es; try discriminate; injection Es as <- <- <-; auto. }
  assert (node_ok batch n side /\ literal_ok lit) as [Hside_ok Hlit] by (destruct Hside as [(_ & -> & ->)|(_ & -> & ->)]; done).
  destruct (fast_int_literal lit) as [c|] eqn:Ec; [|done]. destruct side; try done.
  destruct (arith_operands side1 side2) as [[[col klit] col_first]|] eqn:Eo; [|done]. destruct (fast_int_literal klit) as [k|] eqn:Ek; [|done].
  destruct (small_int (c_type col)) eqn:Et; [|done]. destruct (is_division op && _) eqn:Ed; [done|]. cbn [negb].
  destruct (fast_column (Column col) batch) as [v|] eqn:Ev; [|done]. intros [= <-].
  assert (column_ok batch n col /\ literal_ok klit /\ forall r, eval float_op batch r (Arith op side1 side2) =
    if col_first then arith float_op op (read_column col batch r) klit else arith float_op op klit (read_column col batch r)) as (Hc & Hkl & Hev).
  { destruct Hside_ok as [H1 H2]. destruct side1, side2; cbn in Eo; try discriminate; injection Eo as <- <- <-; done. }
  destruct (fast_column_spec col v Ev Hc) as [Hv Hr]. pose proof (fast_int_literal_spec lit c Hlit Ec) as (_ & Hnl & _ & _ & _ & Hcmp).
  assert (forall r w, eval float_op batch r (Arith op side1 side2) = Ok w -> eval float_op batch r (Compare cmp a b) =
    if arith_left then eval_compare cmp w lit else eval_compare cmp lit w) as Hcmp_ev.
  { intros r w Hw. destruct Hside as [(-> & -> & ->)|(-> & -> & ->)]; cbn [eval] in *; unfold mbind, res_bind in *; by rewrite Hw. }
  apply (set_nulls_rows _ v (c_type col) n _ Hv).
  - intros r _ Hn. unfold row_is. rewrite (Hcmp_ev r VNull).
    + unfold eval_compare. cbn. rewrite orb_true_r. by destruct arith_left.
    + rewrite Hev, Hr, Hn. unfold arith. cbn. rewrite orb_true_r. by destruct col_first.
  - apply const_rows. intros r Hrange Hn. unfold row_is. rewrite (Hcmp_ev r (VInt (fast_arith_value op col_first (get_int (slot_at v r)) k))).
    2: { rewrite Hev, Hr, Hn. apply arith_value; try done. by apply Hv. }
    unfold eval_compare. rewrite Hnl. destruct (Hcmp (fast_arith_value op col_first (get_int (slot_at v r)) k)) as [C1 C2]. cbn [is_null orb].
    destruct arith_left; rewrite ?C1, ?C2; [by destruct (wanted _ _)|]. rewrite wanted_flip, <- three_way_opp. by destruct (wanted _ _).
Qed.

(** *** Any node *)

Lemma null_test_rows (neg : bool) a state : node_ok batch n a ->
  fast_eval batch n (if neg then IsNotNull a else IsNull a) = Some state -> Forall2 (row_is (if neg then IsNotNull a else IsNull a)) (rows n) state.
Proof.
  intros Ha Hf. destruct a; try by destruct neg.
  destruct (fast_column (Column c) batch) as [v|] eqn:Ev; [|destruct neg; cbn [fast_eval] in Hf; by rewrite Ev in Hf].
  destruct (fast_column_spec c v Ev Ha) as [Hv Hr].
  assert (state = (fun r => tri_of (xorb neg (negb (v_null_count v =? 0) && view_is_null v r))) <$> rows n) as ->.
  { destruct neg; cbn [fast_eval] in Hf; rewrite Ev in Hf; injection Hf as <-; apply list_fmap_ext; intros i r _;
      by destruct (negb (v_null_count v =? 0) && view_is_null v r). }
  apply const_rows. intros r Hrange. unfold row_is.
  assert (eval float_op batch r (if neg then IsNotNull (Column c) else IsNull (Column c)) = Ok (VBool (xorb neg (is_null (read_column c batch r))))) as ->
    by (by destruct neg).
  rewrite Hr. assert (is_null (if view_is_null v r then VNull else read_scalar (slot_at v r) (c_type c) (c_unit c) (c_scale c)) = view_is_null v r) as ->
    by (destruct (view_is_null v r); [done | apply read_scalar_not_null]).
  destruct (Z.eqb_spec (v_null_count v) 0) as [E|E]; cbn [negb andb]; [rewrite (proj1 Hv E r Hrange)|]; by destruct (xorb neg _).
Qed.

Lemma fast_eval_rows m state : node_ok batch n m -> fast_eval batch n m = Some state -> Forall2 (row_is m) (rows n) state.
Proof.
  revert state. induction m as [| |a IHa b IHb|a IHa b IHb|a IHa|op a IHa b IHb|a IHa|a IHa| |negated a IHa items|negated a IHa lo IHlo hi IHhi| |];
    intros state Hok; try (cbn; done).
  - cbn [fast_eval]. destruct Hok as [Ha Hb]. destruct (fast_eval batch n a) as [x|] eqn:Ex; [|done]. destruct (fast_eval batch n b) as [y|] eqn:Ey; [|done].
    intros [= <-]. eapply rows_impl; [apply (zip_rows _ _ _ _ _ _ (IHa _ Ha eq_refl) (IHb _ Hb eq_refl))|].
    intros r s _ (p & q & Hp & Hq & ->). unfold row_is in *. cbn [eval]. unfold mbind, res_bind. rewrite Hp, Hq. by destruct p, q.
  - cbn [fast_eval]. destruct Hok as [Ha Hb]. destruct (fast_eval batch n a) as [x|] eqn:Ex; [|done]. destruct (fast_eval batch n b) as [y|] eqn:Ey; [|done].
    intros [= <-]. eapply rows_impl; [apply (zip_rows _ _ _ _ _ _ (IHa _ Ha eq_refl) (IHb _ Hb eq_refl))|].
    intros r s _ (p & q & Hp & Hq & ->). unfold row_is in *. cbn [eval]. unfold mbind, res_bind. rewrite Hp, Hq. by destruct p, q.
  - cbn [fast_eval]. destruct (fast_eval batch n a) as [x|] eqn:Ex; [|done]. intros [= <-].
    eapply rows_impl; [apply map_rows, (IHa _ Hok eq_refl)|]. intros r s _ (p & Hp & ->). unfold row_is in *. cbn [eval]. unfold mbind, res_bind. rewrite Hp. by destruct p.
  - destruct Hok as [Ha Hb]. destruct (column_literal a b) eqn:E; [apply compare_rows; [by rewrite E | done..]|].
    cbn [fast_eval]. rewrite E. by apply arith_compare_rows.
  - apply (null_test_rows false). done.
  - apply (null_test_rows true). done.
  - apply in_rows. done.
  - apply between_rows. apply Hok.
Qed.

Lemma slow_filter_rows m state : Forall2 (row_is m) (rows n) state ->
  slow_filter float_op batch n m = Ok ((fun s => bool_decide (s = kTrue)) <$> state).
Proof.
  intros H. unfold slow_filter.
  assert (forall l x acc, Forall2 (row_is m) l x ->
    fold_res (fun keep r => v ← eval float_op batch r m; b ← keep_row v; Ok (keep ++ [b])) l acc =
      Ok (acc ++ ((fun s => bool_decide (s = kTrue)) <$> x))) as Hg.
  { clear. intros l x acc Hf. revert acc. induction Hf as [|r s l x Hr Hf IH]; intros acc; cbn [fold_res fmap list_fmap]; [by rewrite app_nil_r|].
    unfold mbind, res_bind. rewrite Hr. destruct s; cbn [value_of keep_row]; rewrite IH, <- app_assoc; done. }
  rewrite (Hg _ _ _ H). done.
Qed.

End Agree.

Lemma filter_slow float_op batch n m : plain batch -> node_ok batch n m ->
  filter float_op batch n m = slow_filter float_op batch n m.
Proof.
  intros Hp Hok. unfold filter. destruct (fast_eval batch n m) as [state|] eqn:E; [|done].
  by rewrite (slow_filter_rows float_op batch n m state (fast_eval_rows float_op batch n Hp m state Hok E)).
Qed.

(** C21: (equivalence): the filter of a batch that has no offset and no null rows of its own ([plain]), as the readers
    build it, keeps exactly the rows the row-at-a-time evaluation keeps: where the column-at-a-time evaluation of
    comparisons, IN, BETWEEN, null tests and integer arithmetic joined by AND, OR and NOT applies, it gives every
    row the three-valued result [eval] gives it, without error, NULLs of the columns, NaNs, literals on either side
    and mixed number types included. (On other batches it does not: [fast_eval_ignores_offset].) *)
Theorem fast_filter_agrees float_op batch n m : plain batch -> node_ok batch n m ->
  filter float_op batch n m = slow_filter float_op batch n m.
Proof. apply filter_slow. Qed.

Definition sample_column : ArrayView := View false 0 1 (Some [true; true; false]) [SInt 3; SInt 250; SInt 7] [].
Definition sample_batch (offset : Z) : ArrayView := View true offset 0 None [] [sample_column].
Definition sample_ref : ColumnRef := mkColumn [0%nat] UINT8 Second 0.
Definition sample_filter : Node :=
  And (Not (In false (Column sample_ref) [Literal (VInt 5); Literal (VInt 250)]))
      (Compare Lt (Arith Mod (Column sample_ref) (Literal (VInt 100))) (Literal (VInt 60))).

Lemma fast_filter_witness : filter (fun _ x _ => x) (sample_batch 0) 3 sample_filter = Ok [true; false; false].
Proof.
  rewrite (fast_filter_agrees (fun _ x _ => x) (sample_batch 0) 3 sample_filter).
  - vm_compute. reflexivity.
  - split; reflexivity.
  - assert (column_ok (sample_batch 0) 3 sample_ref).
    { split; [discriminate|]. intros r Hr. assert (r = 0 \/ r = 1 \/ r = 2) as [-> | [-> | ->]] by lia; (split; [vm_compute; discriminate | vm_compute; reflexivity]). }
    split; [done|]. split; [split; [done|]|]; (split; [vm_compute; discriminate | vm_compute; reflexivity]).
Defined.

(** On a batch with an offset, or with null rows, of its own the two differ: the row path adds the offset and sees the
    null, the column path does neither. *)
Lemma fast_eval_ignores_offset :
  filter (fun _ x _ => x) (sample_batch 1) 1 (Compare Eq (Column sample_ref) (Literal (VInt 3))) = Ok [true] /\
  slow_filter (fun _ x _ => x) (sample_batch 1) 1 (Compare Eq (Column sample_ref) (Literal (VInt 3))) = Ok [false] /\
  (let batch := View true 0 1 (Some [false]) [] [sample_column] in
   filter (fun _ x _ => x) batch 1 (Compare Eq (Column sample_ref) (Literal (VInt 3))) = Ok [true] /\
   slow_filter (fun _ x _ => x) batch 1 (Compare Eq (Column sample_ref) (Literal (VInt 3))) = Ok [false]).
Proof. cbv zeta. split_and!; vm_compute; reflexivity. Qed.

End Expr.
