(* ===== verification/Pb.v ===== *)
(** * Pb: Lance's metadata records (generated/lance_minimal.pb.hpp)

    The owned structs the table layer works on, member for member. Their wire conversion is nanom's
    protobuf codec, which is outside the repository: it is a parameter where it is used. *)

From S2P Require Import Prelude.

Module pb.

(** [pb::Field]: one schema field. *)
Record Field := mkField {
  fld_name : string;
  fld_logical_type : string;
  fld_id : Z;
  fld_parent_id : Z;
  fld_type : Z;
  fld_nullable : bool;
  fld_encoding : Z;
  fld_metadata : gmap string (list Z);
  fld_unenforced_primary_key : bool;
  fld_unenforced_primary_key_position : Z;
  fld_unenforced_clustering_key_position : Z;
  fld_unknown : list Z
}.

(** [pb::DataFile]. *)
Record DataFile := mkDataFile {
  df_path : string;
  df_fields : list Z;
  df_column_indices : list Z;
  df_file_major_version : Z;
  df_file_minor_version : Z;
  df_file_size_bytes : Z;
  df_unknown : list Z
}.

(** [pb::DeletionFile]. *)
Record DeletionFile := mkDeletionFile {
  del_present : bool;
  del_file_type : Z;
  del_read_version : Z;
  del_id : Z;
  del_num_deleted_rows : Z;
  del_unknown : list Z
}.

Definition no_deletion_file : DeletionFile := mkDeletionFile false 0 0 0 0 [].

(** [pb::DataFragment]. *)
Record DataFragment := mkDataFragment {
  fr_id : Z;
  fr_files : list DataFile;
  fr_physical_rows : Z;
  fr_deletion_file : DeletionFile;
  fr_unknown : list Z
}.

(** [pb::IndexMetadata]. *)
Record IndexMetadata := mkIndexMetadata {
  ix_raw : list Z;
  ix_fields : list Z;
  ix_name : string;
  ix_dataset_version : Z;
  ix_has_fragment_bitmap : bool;
  ix_fragment_ids : list Z;
  ix_fragment_bitmap_changed : bool;
  ix_uuid : list Z;
  ix_details_type_url : string;
  ix_details_value : list Z;
  ix_index_version : Z;
  ix_created_at : Z;
  ix_files : list (string * Z)
}.

(** [pb::DataStorageFormat]. *)
Record DataStorageFormat := mkDataStorageFormat { file_format : string; format_version : string }.

(** [pb::Manifest::Operation]: what a commit does, where the change does not say it alone. *)
Inductive ManifestOperation := Derive | Append | Overwrite | Restore | Rewrite | Update | Reserve.

(** [pb::Manifest]. A member with a [has_] flag of its own is an [option]. *)
Record Manifest := mkManifest {
  mf_fields : list Field;
  mf_fragments : list DataFragment;
  mf_version : Z;
  mf_data_format : DataStorageFormat;
  mf_max_fragment_id : option Z;
  mf_schema_metadata : gmap string (list Z);
  mf_timestamp : option (Z * Z);
  mf_tag : string;
  mf_reader_feature_flags : Z;
  mf_writer_feature_flags : Z;
  mf_transaction_file : string;
  mf_writer_library : string;
  mf_writer_version : string;
  mf_next_row_id : Z;
  mf_config : gmap string string;
  mf_table_metadata : gmap string string;
  mf_index_section : option Z;
  mf_indices : list IndexMetadata;
  mf_transaction_section : option Z;
  mf_index_section_error : string;
  mf_unknown : list Z;
  mf_operation : ManifestOperation;
  mf_restored_version : Z;
  mf_first_new_fragment : Z;
  mf_reserved_fragments : Z;
  mf_explicit_operation_field : Z;
  mf_explicit_operation : list Z;
  mf_explicit_read_version : Z;
  mf_transaction_properties : gmap string string
}.

(** A default-constructed manifest, and the assignment of each member. *)
Definition Manifest0 : Manifest :=
  mkManifest [] [] 0 (mkDataStorageFormat "" "") None ∅ None "" 0 0 "" "" "" 0 ∅
    ∅ None [] None "" [] Derive 0 0 0 0 [] 0 ∅.

Definition set_fields (v : list Field) (m : Manifest) : Manifest :=
  mkManifest v (mf_fragments m) (mf_version m) (mf_data_format m) (mf_max_fragment_id m) (mf_schema_metadata m)
    (mf_timestamp m) (mf_tag m) (mf_reader_feature_flags m) (mf_writer_feature_flags m) (mf_transaction_file m)
    (mf_writer_library m) (mf_writer_version m) (mf_next_row_id m) (mf_config m) (mf_table_metadata m)
    (mf_index_section m) (mf_indices m) (mf_transaction_section m) (mf_index_section_error m) (mf_unknown m)
    (mf_operation m) (mf_restored_version m) (mf_first_new_fragment m) (mf_reserved_fragments m)
    (mf_explicit_operation_field m) (mf_explicit_operation m) (mf_explicit_read_version m)
    (mf_transaction_properties m).
Definition set_fragments (v : list DataFragment) (m : Manifest) : Manifest :=
  mkManifest (mf_fields m) v (mf_version m) (mf_data_format m) (mf_max_fragment_id m) (mf_schema_metadata m)
    (mf_timestamp m) (mf_tag m) (mf_reader_feature_flags m) (mf_writer_feature_flags m) (mf_transaction_file m)
    (mf_writer_library m) (mf_writer_version m) (mf_next_row_id m) (mf_config m) (mf_table_metadata m)
    (mf_index_section m) (mf_indices m) (mf_transaction_section m) (mf_index_section_error m) (mf_unknown m)
    (mf_operation m) (mf_restored_version m) (mf_first_new_fragment m) (mf_reserved_fragments m)
    (mf_explicit_operation_field m) (mf_explicit_operation m) (mf_explicit_read_version m)
    (mf_transaction_properties m).
Definition set_version (v : Z) (m : Manifest) : Manifest :=
  mkManifest (mf_fields m) (mf_fragments m) v (mf_data_format m) (mf_max_fragment_id m) (mf_schema_metadata m)
    (mf_timestamp m) (mf_tag m) (mf_reader_feature_flags m) (mf_writer_feature_flags m) (mf_transaction_file m)
    (mf_writer_library m) (mf_writer_version m) (mf_next_row_id m) (mf_config m) (mf_table_metadata m)
    (mf_index_section m) (mf_indices m) (mf_transaction_section m) (mf_index_section_error m) (mf_unknown m)
    (mf_operation m) (mf_restored_version m) (mf_first_new_fragment m) (mf_reserved_fragments m)
    (mf_explicit_operation_field m) (mf_explicit_operation m) (mf_explicit_read_version m)
    (mf_transaction_properties m).
Definition set_data_format (v : DataStorageFormat) (m : Manifest) : Manifest :=
  mkManifest (mf_fields m) (mf_fragments m) (mf_version m) v (mf_max_fragment_id m) (mf_schema_metadata m)
    (mf_timestamp m) (mf_tag m) (mf_reader_feature_flags m) (mf_writer_feature_flags m) (mf_transaction_file m)
    (mf_writer_library m) (mf_writer_version m) (mf_next_row_id m) (mf_config m) (mf_table_metadata m)
    (mf_index_section m) (mf_indices m) (mf_transaction_section m) (mf_index_section_error m) (mf_unknown m)
    (mf_operation m) (mf_restored_version m) (mf_first_new_fragment m) (mf_reserved_fragments m)
    (mf_explicit_operation_field m) (mf_explicit_operation m) (mf_explicit_read_version m)
    (mf_transaction_properties m).
Definition set_max_fragment_id (v : option Z) (m : Manifest) : Manifest :=
  mkManifest (mf_fields m) (mf_fragments m) (mf_version m) (mf_data_format m) v (mf_schema_metadata m)
    (mf_timestamp m) (mf_tag m) (mf_reader_feature_flags m) (mf_writer_feature_flags m) (mf_transaction_file m)
    (mf_writer_library m) (mf_writer_version m) (mf_next_row_id m) (mf_config m) (mf_table_metadata m)
    (mf_index_section m) (mf_indices m) (mf_transaction_section m) (mf_index_section_error m) (mf_unknown m)
    (mf_operation m) (mf_restored_version m) (mf_first_new_fragment m) (mf_reserved_fragments m)
    (mf_explicit_operation_field m) (mf_explicit_operation m) (mf_explicit_read_version m)
    (mf_transaction_properties m).
Definition set_schema_metadata (v : gmap string (list Z)) (m : Manifest) : Manifest :=
  mkManifest (mf_fields m) (mf_fragments m) (mf_version m) (mf_data_format m) (mf_max_fragment_id m) v
    (mf_timestamp m) (mf_tag m) (mf_reader_feature_flags m) (mf_writer_feature_flags m) (mf_transaction_file m)
    (mf_writer_library m) (mf_writer_version m) (mf_next_row_id m) (mf_config m) (mf_table_metadata m)
    (mf_index_section m) (mf_indices m) (mf_transaction_section m) (mf_index_section_error m) (mf_unknown m)
    (mf_operation m) (mf_restored_version m) (mf_first_new_fragment m) (mf_reserved_fragments m)
    (mf_explicit_operation_field m) (mf_explicit_operation m) (mf_explicit_read_version m)
    (mf_transaction_properties m).
Definition set_timestamp (v : option (Z * Z)) (m : Manifest) : Manifest :=
  mkManifest (mf_fields m) (mf_fragments m) (mf_version m) (mf_data_format m) (mf_max_fragment_id m)
    (mf_schema_metadata m) v (mf_tag m) (mf_reader_feature_flags m) (mf_writer_feature_flags m)
    (mf_transaction_file m) (mf_writer_library m) (mf_writer_version m) (mf_next_row_id m) (mf_config m)
    (mf_table_metadata m) (mf_index_section m) (mf_indices m) (mf_transaction_section m) (mf_index_section_error m)
    (mf_unknown m) (mf_operation m) (mf_restored_version m) (mf_first_new_fragment m) (mf_reserved_fragments m)
    (mf_explicit_operation_field m) (mf_explicit_operation m) (mf_explicit_read_version m)
    (mf_transaction_properties m).
Definition set_tag (v : string) (m : Manifest) : Manifest :=
  mkManifest (mf_fields m) (mf_fragments m) (mf_version m) (mf_data_format m) (mf_max_fragment_id m)
    (mf_schema_metadata m) (mf_timestamp m) v (mf_reader_feature_flags m) (mf_writer_feature_flags m)
    (mf_transaction_file m) (mf_writer_library m) (mf_writer_version m) (mf_next_row_id m) (mf_config m)
    (mf_table_metadata m) (mf_index_section m) (mf_indices m) (mf_transaction_section m) (mf_index_section_error m)
    (mf_unknown m) (mf_operation m) (mf_restored_version m) (mf_first_new_fragment m) (mf_reserved_fragments m)
    (mf_explicit_operation_field m) (mf_explicit_operation m) (mf_explicit_read_version m)
    (mf_transaction_properties m).
Definition set_reader_feature_flags (v : Z) (m : Manifest) : Manifest :=
  mkManifest (mf_fields m) (mf_fragments m) (mf_version m) (mf_data_format m) (mf_max_fragment_id m)
    (mf_schema_metadata m) (mf_timestamp m) (mf_tag m) v (mf_writer_feature_flags m) (mf_transaction_file m)
    (mf_writer_library m) (mf_writer_version m) (mf_next_row_id m) (mf_config m) (mf_table_metadata m)
    (mf_index_section m) (mf_indices m) (mf_transaction_section m) (mf_index_section_error m) (mf_unknown m)
    (mf_operation m) (mf_restored_version m) (mf_first_new_fragment m) (mf_reserved_fragments m)
    (mf_explicit_operation_field m) (mf_explicit_operation m) (mf_explicit_read_version m)
    (mf_transaction_properties m).
Definition set_writer_feature_flags (v : Z) (m : Manifest) : Manifest :=
  mkManifest (mf_fields m) (mf_fragments m) (mf_version m) (mf_data_format m) (mf_max_fragment_id m)
    (mf_schema_metadata m) (mf_timestamp m) (mf_tag m) (mf_reader_feature_flags m) v (mf_transaction_file m)
    (mf_writer_library m) (mf_writer_version m) (mf_next_row_id m) (mf_config m) (mf_table_metadata m)
    (mf_index_section m) (mf_indices m) (mf_transaction_section m) (mf_index_section_error m) (mf_unknown m)
    (mf_operation m) (mf_restored_version m) (mf_first_new_fragment m) (mf_reserved_fragments m)
    (mf_explicit_operation_field m) (mf_explicit_operation m) (mf_explicit_read_version m)
    (mf_transaction_properties m).
Definition set_transaction_file (v : string) (m : Manifest) : Manifest :=
  mkManifest (mf_fields m) (mf_fragments m) (mf_version m) (mf_data_format m) (mf_max_fragment_id m)
    (mf_schema_metadata m) (mf_timestamp m) (mf_tag m) (mf_reader_feature_flags m) (mf_writer_feature_flags m) v
    (mf_writer_library m) (mf_writer_version m) (mf_next_row_id m) (mf_config m) (mf_table_metadata m)
    (mf_index_section m) (mf_indices m) (mf_transaction_section m) (mf_index_section_error m) (mf_unknown m)
    (mf_operation m) (mf_restored_version m) (mf_first_new_fragment m) (mf_reserved_fragments m)
    (mf_explicit_operation_field m) (mf_explicit_operation m) (mf_explicit_read_version m)
    (mf_transaction_properties m).
Definition set_writer_library (v : string) (m : Manifest) : Manifest :=
  mkManifest (mf_fields m) (mf_fragments m) (mf_version m) (mf_data_format m) (mf_max_fragment_id m)
    (mf_schema_metadata m) (mf_timestamp m) (mf_tag m) (mf_reader_feature_flags m) (mf_writer_feature_flags m)
    (mf_transaction_file m) v (mf_writer_version m) (mf_next_row_id m) (mf_config m) (mf_table_metadata m)
    (mf_index_section m) (mf_indices m) (mf_transaction_section m) (mf_index_section_error m) (mf_unknown m)
    (mf_operation m) (mf_restored_version m) (mf_first_new_fragment m) (mf_reserved_fragments m)
    (mf_explicit_operation_field m) (mf_explicit_operation m) (mf_explicit_read_version m)
    (mf_transaction_properties m).
Definition set_writer_version (v : string) (m : Manifest) : Manifest :=
  mkManifest (mf_fields m) (mf_fragments m) (mf_version m) (mf_data_format m) (mf_max_fragment_id m)
    (mf_schema_metadata m) (mf_timestamp m) (mf_tag m) (mf_reader_feature_flags m) (mf_writer_feature_flags m)
    (mf_transaction_file m) (mf_writer_library m) v (mf_next_row_id m) (mf_config m) (mf_table_metadata m)
    (mf_index_section m) (mf_indices m) (mf_transaction_section m) (mf_index_section_error m) (mf_unknown m)
    (mf_operation m) (mf_restored_version m) (mf_first_new_fragment m) (mf_reserved_fragments m)
    (mf_explicit_operation_field m) (mf_explicit_operation m) (mf_explicit_read_version m)
    (mf_transaction_properties m).
Definition set_next_row_id (v : Z) (m : Manifest) : Manifest :=
  mkManifest (mf_fields m) (mf_fragments m) (mf_version m) (mf_data_format m) (mf_max_fragment_id m)
    (mf_schema_metadata m) (mf_timestamp m) (mf_tag m) (mf_reader_feature_flags m) (mf_writer_feature_flags m)
    (mf_transaction_file m) (mf_writer_library m) (mf_writer_version m) v (mf_config m) (mf_table_metadata m)
    (mf_index_section m) (mf_indices m) (mf_transaction_section m) (mf_index_section_error m) (mf_unknown m)
    (mf_operation m) (mf_restored_version m) (mf_first_new_fragment m) (mf_reserved_fragments m)
    (mf_explicit_operation_field m) (mf_explicit_operation m) (mf_explicit_read_version m)
    (mf_transaction_properties m).
Definition set_config (v : gmap string string) (m : Manifest) : Manifest :=
  mkManifest (mf_fields m) (mf_fragments m) (mf_version m) (mf_data_format m) (mf_max_fragment_id m)
    (mf_schema_metadata m) (mf_timestamp m) (mf_tag m) (mf_reader_feature_flags m) (mf_writer_feature_flags m)
    (mf_transaction_file m) (mf_writer_library m) (mf_writer_version m) (mf_next_row_id m) v (mf_table_metadata m)
    (mf_index_section m) (mf_indices m) (mf_transaction_section m) (mf_index_section_error m) (mf_unknown m)
    (mf_operation m) (mf_restored_version m) (mf_first_new_fragment m) (mf_reserved_fragments m)
    (mf_explicit_operation_field m) (mf_explicit_operation m) (mf_explicit_read_version m)
    (mf_transaction_properties m).
Definition set_table_metadata (v : gmap string string) (m : Manifest) : Manifest :=
  mkManifest (mf_fields m) (mf_fragments m) (mf_version m) (mf_data_format m) (mf_max_fragment_id m)
    (mf_schema_metadata m) (mf_timestamp m) (mf_tag m) (mf_reader_feature_flags m) (mf_writer_feature_flags m)
    (mf_transaction_file m) (mf_writer_library m) (mf_writer_version m) (mf_next_row_id m) (mf_config m) v
    (mf_index_section m) (mf_indices m) (mf_transaction_section m) (mf_index_section_error m) (mf_unknown m)
    (mf_operation m) (mf_restored_version m) (mf_first_new_fragment m) (mf_reserved_fragments m)
    (mf_explicit_operation_field m) (mf_explicit_operation m) (mf_explicit_read_version m)
    (mf_transaction_properties m).
Definition set_index_section (v : option Z) (m : Manifest) : Manifest :=
  mkManifest (mf_fields m) (mf_fragments m) (mf_version m) (mf_data_format m) (mf_max_fragment_id m)
    (mf_schema_metadata m) (mf_timestamp m) (mf_tag m) (mf_reader_feature_flags m) (mf_writer_feature_flags m)
    (mf_transaction_file m) (mf_writer_library m) (mf_writer_version m) (mf_next_row_id m) (mf_config m)
    (mf_table_metadata m) v (mf_indices m) (mf_transaction_section m) (mf_index_section_error m) (mf_unknown m)
    (mf_operation m) (mf_restored_version m) (mf_first_new_fragment m) (mf_reserved_fragments m)
    (mf_explicit_operation_field m) (mf_explicit_operation m) (mf_explicit_read_version m)
    (mf_transaction_properties m).
Definition set_indices (v : list IndexMetadata) (m : Manifest) : Manifest :=
  mkManifest (mf_fields m) (mf_fragments m) (mf_version m) (mf_data_format m) (mf_max_fragment_id m)
    (mf_schema_metadata m) (mf_timestamp m) (mf_tag m) (mf_reader_feature_flags m) (mf_writer_feature_flags m)
    (mf_transaction_file m) (mf_writer_library m) (mf_writer_version m) (mf_next_row_id m) (mf_config m)
    (mf_table_metadata m) (mf_index_section m) v (mf_transaction_section m) (mf_index_section_error m)
    (mf_unknown m) (mf_operation m) (mf_restored_version m) (mf_first_new_fragment m) (mf_reserved_fragments m)
    (mf_explicit_operation_field m) (mf_explicit_operation m) (mf_explicit_read_version m)
    (mf_transaction_properties m).
Definition set_transaction_section (v : option Z) (m : Manifest) : Manifest :=
  mkManifest (mf_fields m) (mf_fragments m) (mf_version m) (mf_data_format m) (mf_max_fragment_id m)
    (mf_schema_metadata m) (mf_timestamp m) (mf_tag m) (mf_reader_feature_flags m) (mf_writer_feature_flags m)
    (mf_transaction_file m) (mf_writer_library m) (mf_writer_version m) (mf_next_row_id m) (mf_config m)
    (mf_table_metadata m) (mf_index_section m) (mf_indices m) v (mf_index_section_error m) (mf_unknown m)
    (mf_operation m) (mf_restored_version m) (mf_first_new_fragment m) (mf_reserved_fragments m)
    (mf_explicit_operation_field m) (mf_explicit_operation m) (mf_explicit_read_version m)
    (mf_transaction_properties m).
Definition set_index_section_error (v : string) (m : Manifest) : Manifest :=
  mkManifest (mf_fields m) (mf_fragments m) (mf_version m) (mf_data_format m) (mf_max_fragment_id m)
    (mf_schema_metadata m) (mf_timestamp m) (mf_tag m) (mf_reader_feature_flags m) (mf_writer_feature_flags m)
    (mf_transaction_file m) (mf_writer_library m) (mf_writer_version m) (mf_next_row_id m) (mf_config m)
    (mf_table_metadata m) (mf_index_section m) (mf_indices m) (mf_transaction_section m) v (mf_unknown m)
    (mf_operation m) (mf_restored_version m) (mf_first_new_fragment m) (mf_reserved_fragments m)
    (mf_explicit_operation_field m) (mf_explicit_operation m) (mf_explicit_read_version m)
    (mf_transaction_properties m).
Definition set_manifest_unknown (m : Manifest) (v : list Z) : Manifest :=
  mkManifest (mf_fields m) (mf_fragments m) (mf_version m) (mf_data_format m) (mf_max_fragment_id m)
    (mf_schema_metadata m) (mf_timestamp m) (mf_tag m) (mf_reader_feature_flags m) (mf_writer_feature_flags m)
    (mf_transaction_file m) (mf_writer_library m) (mf_writer_version m) (mf_next_row_id m) (mf_config m)
    (mf_table_metadata m) (mf_index_section m) (mf_indices m) (mf_transaction_section m) (mf_index_section_error m)
    v (mf_operation m) (mf_restored_version m) (mf_first_new_fragment m) (mf_reserved_fragments m)
    (mf_explicit_operation_field m) (mf_explicit_operation m) (mf_explicit_read_version m)
    (mf_transaction_properties m).
Definition set_operation (v : ManifestOperation) (m : Manifest) : Manifest :=
  mkManifest (mf_fields m) (mf_fragments m) (mf_version m) (mf_data_format m) (mf_max_fragment_id m)
    (mf_schema_metadata m) (mf_timestamp m) (mf_tag m) (mf_reader_feature_flags m) (mf_writer_feature_flags m)
    (mf_transaction_file m) (mf_writer_library m) (mf_writer_version m) (mf_next_row_id m) (mf_config m)
    (mf_table_metadata m) (mf_index_section m) (mf_indices m) (mf_transaction_section m) (mf_index_section_error m)
    (mf_unknown m) v (mf_restored_version m) (mf_first_new_fragment m) (mf_reserved_fragments m)
    (mf_explicit_operation_field m) (mf_explicit_operation m) (mf_explicit_read_version m)
    (mf_transaction_properties m).
Definition set_restored_version (v : Z) (m : Manifest) : Manifest :=
  mkManifest (mf_fields m) (mf_fragments m) (mf_version m) (mf_data_format m) (mf_max_fragment_id m)
    (mf_schema_metadata m) (mf_timestamp m) (mf_tag m) (mf_reader_feature_flags m) (mf_writer_feature_flags m)
    (mf_transaction_file m) (mf_writer_library m) (mf_writer_version m) (mf_next_row_id m) (mf_config m)
    (mf_table_metadata m) (mf_index_section m) (mf_indices m) (mf_transaction_section m) (mf_index_section_error m)
    (mf_unknown m) (mf_operation m) v (mf_first_new_fragment m) (mf_reserved_fragments m)
    (mf_explicit_operation_field m) (mf_explicit_operation m) (mf_explicit_read_version m)
    (mf_transaction_properties m).
Definition set_first_new_fragment (v : Z) (m : Manifest) : Manifest :=
  mkManifest (mf_fields m) (mf_fragments m) (mf_version m) (mf_data_format m) (mf_max_fragment_id m)
    (mf_schema_metadata m) (mf_timestamp m) (mf_tag m) (mf_reader_feature_flags m) (mf_writer_feature_flags m)
    (mf_transaction_file m) (mf_writer_library m) (mf_writer_version m) (mf_next_row_id m) (mf_config m)
    (mf_table_metadata m) (mf_index_section m) (mf_indices m) (mf_transaction_section m) (mf_index_section_error m)
    (mf_unknown m) (mf_operation m) (mf_restored_version m) v (mf_reserved_fragments m)
    (mf_explicit_operation_field m) (mf_explicit_operation m) (mf_explicit_read_version m)
    (mf_transaction_properties m).
Definition set_reserved_fragments (v : Z) (m : Manifest) : Manifest :=
  mkManifest (mf_fields m) (mf_fragments m) (mf_version m) (mf_data_format m) (mf_max_fragment_id m)
    (mf_schema_metadata m) (mf_timestamp m) (mf_tag m) (mf_reader_feature_flags m) (mf_writer_feature_flags m)
    (mf_transaction_file m) (mf_writer_library m) (mf_writer_version m) (mf_next_row_id m) (mf_config m)
    (mf_table_metadata m) (mf_index_section m) (mf_indices m) (mf_transaction_section m) (mf_index_section_error m)
    (mf_unknown m) (mf_operation m) (mf_restored_version m) (mf_first_new_fragment m) v
    (mf_explicit_operation_field m) (mf_explicit_operation m) (mf_explicit_read_version m)
    (mf_transaction_properties m).
Definition set_explicit_operation_field (v : Z) (m : Manifest) : Manifest :=
  mkManifest (mf_fields m) (mf_fragments m) (mf_version m) (mf_data_format m) (mf_max_fragment_id m)
    (mf_schema_metadata m) (mf_timestamp m) (mf_tag m) (mf_reader_feature_flags m) (mf_writer_feature_flags m)
    (mf_transaction_file m) (mf_writer_library m) (mf_writer_version m) (mf_next_row_id m) (mf_config m)
    (mf_table_metadata m) (mf_index_section m) (mf_indices m) (mf_transaction_section m) (mf_index_section_error m)
    (mf_unknown m) (mf_operation m) (mf_restored_version m) (mf_first_new_fragment m) (mf_reserved_fragments m) v
    (mf_explicit_operation m) (mf_explicit_read_version m) (mf_transaction_properties m).
Definition set_explicit_operation (v : list Z) (m : Manifest) : Manifest :=
  mkManifest (mf_fields m) (mf_fragments m) (mf_version m) (mf_data_format m) (mf_max_fragment_id m)
    (mf_schema_metadata m) (mf_timestamp m) (mf_tag m) (mf_reader_feature_flags m) (mf_writer_feature_flags m)
    (mf_transaction_file m) (mf_writer_library m) (mf_writer_version m) (mf_next_row_id m) (mf_config m)
    (mf_table_metadata m) (mf_index_section m) (mf_indices m) (mf_transaction_section m) (mf_index_section_error m)
    (mf_unknown m) (mf_operation m) (mf_restored_version m) (mf_first_new_fragment m) (mf_reserved_fragments m)
    (mf_explicit_operation_field m) v (mf_explicit_read_version m) (mf_transaction_properties m).
Definition set_explicit_read_version (v : Z) (m : Manifest) : Manifest :=
  mkManifest (mf_fields m) (mf_fragments m) (mf_version m) (mf_data_format m) (mf_max_fragment_id m)
    (mf_schema_metadata m) (mf_timestamp m) (mf_tag m) (mf_reader_feature_flags m) (mf_writer_feature_flags m)
    (mf_transaction_file m) (mf_writer_library m) (mf_writer_version m) (mf_next_row_id m) (mf_config m)
    (mf_table_metadata m) (mf_index_section m) (mf_indices m) (mf_transaction_section m) (mf_index_section_error m)
    (mf_unknown m) (mf_operation m) (mf_restored_version m) (mf_first_new_fragment m) (mf_reserved_fragments m)
    (mf_explicit_operation_field m) (mf_explicit_operation m) v (mf_transaction_properties m).
Definition set_transaction_properties (v : gmap string string) (m : Manifest) : Manifest :=
  mkManifest (mf_fields m) (mf_fragments m) (mf_version m) (mf_data_format m) (mf_max_fragment_id m)
    (mf_schema_metadata m) (mf_timestamp m) (mf_tag m) (mf_reader_feature_flags m) (mf_writer_feature_flags m)
    (mf_transaction_file m) (mf_writer_library m) (mf_writer_version m) (mf_next_row_id m) (mf_config m)
    (mf_table_metadata m) (mf_index_section m) (mf_indices m) (mf_transaction_section m) (mf_index_section_error m)
    (mf_unknown m) (mf_operation m) (mf_restored_version m) (mf_first_new_fragment m) (mf_reserved_fragments m)
    (mf_explicit_operation_field m) (mf_explicit_operation m) (mf_explicit_read_version m) v.

(** The feature flags of a manifest. *)
Definition kFlagDeletionFiles : Z := Z.shiftl 1 0.
Definition kFlagStableRowIds : Z := Z.shiftl 1 1.
Definition kFlagUseV2Format : Z := Z.shiftl 1 2.
Definition kFlagTableConfig : Z := Z.shiftl 1 3.
Definition kFlagMultipleBasePaths : Z := Z.shiftl 1 4.
Definition kFlagMixedDataFileVersions : Z := Z.shiftl 1 8.
Definition kSupportedFeatureFlags : Z := Z.shiftl 1 9 - 1.

(** Assigning a fragment's [id] and [files], a data file's members and a field's [metadata]. *)
Definition set_fragment_id (f : DataFragment) (id : Z) : DataFragment :=
  mkDataFragment id (fr_files f) (fr_physical_rows f) (fr_deletion_file f) (fr_unknown f).
Definition set_files (f : DataFragment) (files : list DataFile) : DataFragment :=
  mkDataFragment (fr_id f) files (fr_physical_rows f) (fr_deletion_file f) (fr_unknown f).
Definition set_path_size (f : DataFile) (path : string) (size : Z) : DataFile :=
  mkDataFile path (df_fields f) (df_column_indices f) (df_file_major_version f) (df_file_minor_version f) size (df_unknown f).
Definition set_file_fields (f : DataFile) (fields : list Z) : DataFile :=
  mkDataFile (df_path f) fields (df_column_indices f) (df_file_major_version f) (df_file_minor_version f)
    (df_file_size_bytes f) (df_unknown f).
Definition set_metadata (f : Field) (metadata : gmap string (list Z)) : Field :=
  mkField (fld_name f) (fld_logical_type f) (fld_id f) (fld_parent_id f) (fld_type f) (fld_nullable f) (fld_encoding f)
    metadata (fld_unenforced_primary_key f) (fld_unenforced_primary_key_position f)
    (fld_unenforced_clustering_key_position f) (fld_unknown f).

(** Assigning a fragment's [unknown]. *)
Definition set_unknown (f : DataFragment) (u : list Z) : DataFragment :=
  mkDataFragment (fr_id f) (fr_files f) (fr_physical_rows f) (fr_deletion_file f) u.

(** [uuid_string]: the sixteen bytes in hexadecimal, with dashes before the fifth, seventh, ninth and
    eleventh. *)
Definition hex_digit (d : Z) : Ascii.ascii := nth (Z.to_nat d) (String.list_ascii_of_string "0123456789abcdef") Ascii.zero.

Fixpoint uuid_chars (i : nat) (uuid : list Z) : list Ascii.ascii :=
  match uuid with
  | [] => []
  | b :: uuid =>
      (if bool_decide (i = 4 \/ i = 6 \/ i = 8 \/ i = 10)%nat then [Ascii.ascii_of_N 45] else []) ++
      [hex_digit (Z.shiftr b 4); hex_digit (Z.land b 15)] ++ uuid_chars (S i) uuid
  end.

Definition uuid_string (uuid : list Z) : string := String.string_of_list_ascii (uuid_chars 0 uuid).

#[global] Instance Field_eq_dec : EqDecision Field.
Proof. solve_decision. Defined.
#[global] Instance DataFile_eq_dec : EqDecision DataFile.
Proof. solve_decision. Defined.
#[global] Instance DeletionFile_eq_dec : EqDecision DeletionFile.
Proof. solve_decision. Defined.
#[global] Instance DataFragment_eq_dec : EqDecision DataFragment.
Proof. solve_decision. Defined.
#[global] Instance IndexMetadata_eq_dec : EqDecision IndexMetadata.
Proof. solve_decision. Defined.
#[global] Instance ManifestOperation_eq_dec : EqDecision ManifestOperation.
Proof. solve_decision. Defined.

End pb.
