(* ===== verification/RowIds.v ===== *)
(** * RowIds: row id and row version sequences (src/table/row_ids.cpp)

    Lance's [U64Segment], [RowIdSequence] and [RowDatasetVersionSequence] messages, and the row
    metadata of a fragment, which lives in the unknown fields of its message. *)

From S2P Require Import Prelude ProtoWire Pb.

Module RowIds.

(** ** EncodedU64Array *)

(** [n] little-endian integers of [width] bytes at [bs]. *)
Fixpoint le_array (n width : nat) (bs : list Z) : list Z :=
  match n with
  | O => []
  | S n => le_value (take width bs) :: le_array n width (drop width bs)
  end.

(** The loop over the inner message: the last [base] and the last [offsets] win. *)
Definition array_field (s : Z * option (list Z)) (g : Field) : Z * option (list Z) :=
  let '(base, offsets) := s in
  if (number g =? 1) && (wire g =? 0) then (value g, offsets)
  else if (number g =? 2) && (wire g =? 2) then (base, data g)
  else s.

(** [out.push_back(base + v)] for each offset, refusing one that wraps around. *)
Fixpoint add_base (base : Z) (vs : list Z) : res (list Z) :=
  match vs with
  | [] => Ok []
  | v :: vs =>
      if U64_MAX - v <? base then Err "row id array base plus offset overflows"
      else out ← add_base base vs; Ok (u64 (base + v) :: out)
  end.

(** One field of the array message: [s] is [seen] and the values appended so far. *)
Definition decode_array_field (s : bool * list Z) (f : Field) : res (bool * list Z) :=
  if negb (wire f =? 2) || (number f <? 1) || (3 <? number f) then Ok s
  else
    let '(gs, inner_ok) := fields (field_bytes f) in
    let '(base, offsets) := foldl array_field (0, None) gs in
    if negb inner_ok then Err "malformed row id array"
    else
      let width := if number f =? 1 then 2%nat else if number f =? 2 then 4%nat else 8%nat in
      let offsets := default [] offsets in
      if negb (zlen offsets mod Z.of_nat width =? 0)
      then Err "row id array length is not a multiple of its element width"
      else
        let n := Nat.div (length offsets) width in
        let vs := le_array n width offsets in
        out ← (if number f =? 3 then Ok vs else add_base base vs);
        Ok (true, s.2 ++ out).

Definition decode_encoded_array (bytes : list Z) : res (list Z) :=
  let '(fs, ok) := fields bytes in
  '(seen, out) ← fold_res decode_array_field fs (false, []);
  if negb ok || negb seen then Err "malformed row id array" else Ok out.

Definition list_min (l : list Z) : Z := match l with [] => 0 | x :: l => foldl Z.min x l end.
Definition list_max (l : list Z) : Z := match l with [] => 0 | x :: l => foldl Z.max x l end.

Definition encode_encoded_array (values : list Z) : list Z :=
  let min := list_min values in
  let max := list_max values in
  match values with
  | [] => put_bytes_field 3 (put_bytes_field 2 [])
  | _ =>
      if max - min <=? 65535 then
        put_bytes_field 1
          (put_u64_field 1 min ++ put_bytes_field 2 (concat ((fun v => le_bytes 2 (u16 (v - min))) <$> values)))
      else if max - min <=? 4294967295 then
        put_bytes_field 2
          (put_u64_field 1 min ++ put_bytes_field 2 (concat ((fun v => le_bytes 4 (u32 (v - min))) <$> values)))
      else put_bytes_field 3 (put_bytes_field 2 (concat (le_bytes 8 <$> values)))
  end.

(** ** U64Segment *)

(** The loop over a segment's inner message. *)
Definition segment_field (s : Z * Z * option (list Z)) (g : Field) : Z * Z * option (list Z) :=
  let '(start, end_, extra) := s in
  if (number g =? 1) && (wire g =? 0) then (value g, end_, extra)
  else if (number g =? 2) && (wire g =? 0) then (start, value g, extra)
  else if (number g =? 3) && (wire g =? 2) then (start, end_, data g)
  else s.

(** RangeWithHoles: the values from [v] on, [n] of them, skipping the next hole when it comes. *)
Fixpoint skip_holes (n : nat) (v : Z) (holes : list Z) : list Z :=
  match n with
  | O => []
  | S n =>
      match holes with
      | h :: holes' => if h =? v then skip_holes n (v + 1) holes' else v :: skip_holes n (v + 1) holes
      | [] => v :: skip_holes n (v + 1) []
      end
  end.

(** [(bits[i / 8] >> (i % 8)) & 1]. *)
Definition lsb_bit (bits : list Z) (i : Z) : bool :=
  negb (Z.land (Z.shiftr (nth (Z.to_nat (i / 8)) bits 0) (i mod 8)) 1 =? 0).

Definition decode_range (kind start end_ : Z) (extra : option (list Z)) : res (list Z) :=
  if end_ <? start then Err "row id segment range start exceeds end"
  else
    let span := end_ - start in
    if Z.shiftl 1 40 <? span then Err "row id segment range is too long"
    else if kind =? 1 then Ok (seqZ start span)
    else if kind =? 2 then
      match extra with
      | None => Err "RangeWithHoles is missing its holes array"
      | Some extra =>
          holes ← decode_encoded_array extra;
          Ok (skip_holes (Z.to_nat span) start holes)
      end
    else
      match extra with
      | None => Err "RangeWithBitmap bitmap is too short"
      | Some bits =>
          if zlen bits <? (span + 7) / 8 then Err "RangeWithBitmap bitmap is too short"
          else Ok ((fun i => start + i) <$> filter (fun i => lsb_bit bits i = true) (seqZ 0 span))
      end.

Definition decode_segment (bytes : list Z) : res (list Z) :=
  let '(ok, _, f) := next (Reader_new bytes) Field0 in
  if negb ok || negb (wire f =? 2) then Err "missing row id segment type"
  else
    let '(gs, inner_ok) := fields (field_bytes f) in
    let '(start, end_, extra) := foldl segment_field (0, 0, None) gs in
    if negb inner_ok then Err "malformed row id segment"
    else if (number f =? 1) || (number f =? 2) || (number f =? 3) then decode_range (number f) start end_ extra
    else if (number f =? 4) || (number f =? 5) then decode_encoded_array (field_bytes f)
    else Err "unknown row id segment type".

Definition segment_range (start end_ : Z) : list Z :=
  put_bytes_field 1 (put_u64_field 1 start ++ put_u64_field 2 end_).

(** The scan of [encode_segment]: sorted, min, max, count. *)
Definition scan_step (s : bool * Z * Z * Z) (v : Z) : bool * Z * Z * Z :=
  let '(sorted, min, max, count) := s in
  let count := count + 1 in
  let min := Z.min min v in
  let max := Z.max max v in
  ((if sorted && (1 <? count) && (v <? max) then false else sorted), min, max, count).

(** The values of [v, v + n) that are not the next of [values]. *)
Fixpoint hole_values (n : nat) (v : Z) (values : list Z) : list Z :=
  match n with
  | O => []
  | S n =>
      match values with
      | x :: values' => if x =? v then hole_values n (v + 1) values' else v :: hole_values n (v + 1) values
      | [] => v :: hole_values n (v + 1) []
      end
  end.

(** All of [total] bits set. *)
Definition full_bitmap (total : Z) : list Z :=
  let bitmap := replicate (Z.to_nat ((total + 7) / 8)) 255 in
  if negb (total mod 8 =? 0)
  then <[Nat.pred (length bitmap) := u8 (Z.shiftl 1 (total mod 8) - 1)]> bitmap
  else bitmap.

(** [bitmap[bit / 8] &= ~(1 << (bit % 8))]. *)
Definition clear_bit (bitmap : list Z) (bit : Z) : list Z :=
  let i := Z.to_nat (bit / 8) in
  <[i := Z.land (nth i bitmap 0) (u8 (Z.lnot (Z.shiftl 1 (bit mod 8))))]> bitmap.

(** The bits from [bit] on, [n] of them, cleared where [v] is not the next of [values]. *)
Fixpoint clear_missing (n : nat) (v bit : Z) (values bitmap : list Z) : list Z :=
  match n with
  | O => bitmap
  | S n =>
      match values with
      | x :: values' =>
          if x =? v then clear_missing n (v + 1) (bit + 1) values' bitmap
          else clear_missing n (v + 1) (bit + 1) values (clear_bit bitmap bit)
      | [] => clear_missing n (v + 1) (bit + 1) [] (clear_bit bitmap bit)
      end
  end.

Definition encode_segment (values : list Z) : list Z :=
  let '(sorted, min, max, count) := foldl scan_step (true, U64_MAX, 0, 0) values in
  if count =? 0 then segment_range 0 0
  else if negb sorted then put_bytes_field 5 (encode_encoded_array values)
  else if max =? U64_MAX then put_bytes_field 4 (encode_encoded_array values)
  else
    let total := u64 (max - min + 1) in
    let holes := u64 (total - count) in
    if holes =? 0 then segment_range min (max + 1)
    else
      let holes_size := 24 + 4 * holes in
      let bitmap_size := 24 + (total + 7) / 8 in
      let array_size := 24 + 2 * count in
      if (holes_size <=? bitmap_size) && (holes_size <=? array_size) then
        put_bytes_field 2 (put_u64_field 1 min ++ put_u64_field 2 (max + 1) ++
          put_bytes_field 3 (encode_encoded_array (hole_values (Z.to_nat total) min values)))
      else if bitmap_size <=? array_size then
        put_bytes_field 3 (put_u64_field 1 min ++ put_u64_field 2 (max + 1) ++
          put_bytes_field 3 (clear_missing (Z.to_nat total) min 0 values (full_bitmap total)))
      else put_bytes_field 4 (encode_encoded_array values).

(** ** RowIdSequence *)

Record RowIdSequence := mkRowIdSequence {
  compact_ : bool;
  start_ : Z;
  count_ : Z;
  values_ : list Z
}.

Definition range (start count : Z) : RowIdSequence := mkRowIdSequence true start count [].

(** Whether each id is its predecessor plus one (in 64 bits). *)
Fixpoint consecutive (values : list Z) : bool :=
  match values with
  | x :: ((y :: _) as rest) => (y =? u64 (x + 1)) && consecutive rest
  | _ => true
  end.

Definition from_values (values : list Z) : RowIdSequence :=
  if consecutive values
  then mkRowIdSequence true (match values with [] => 0 | x :: _ => x end) (zlen values) []
  else mkRowIdSequence false 0 0 values.

Definition size (s : RowIdSequence) : Z := if compact_ s then count_ s else zlen (values_ s).

Definition at_index (s : RowIdSequence) (index : Z) : Z :=
  if compact_ s then u64 (start_ s + index) else nth (Z.to_nat index) (values_ s) 0.

Definition is_range (s : RowIdSequence) : option Z := if compact_ s then Some (start_ s) else None.

Definition decode (bytes : list Z) : res RowIdSequence :=
  let '(fs, ok) := fields bytes in
  all ← fold_res (fun all f =>
          if (number f =? 1) && (wire f =? 2)
          then vs ← decode_segment (field_bytes f); Ok (all ++ vs)
          else Ok all) fs [];
  if negb ok then Err "malformed row id sequence" else Ok (from_values all).

Definition encode (s : RowIdSequence) : list Z :=
  put_bytes_field 1
    (if compact_ s then segment_range (start_ s) (u64 (start_ s + count_ s)) else encode_segment (values_ s)).

(** [select]: the ids at [offsets], [None] when one is out of range. *)
Fixpoint select (s : RowIdSequence) (offsets : list Z) : option (list Z) :=
  match offsets with
  | [] => Some []
  | o :: offsets =>
      if size s <=? o then None
      else out ← select s offsets; Some (at_index s o :: out)
  end.

Definition to_vector (s : RowIdSequence) : list Z :=
  if compact_ s then (fun i => u64 (start_ s + i)) <$> seqZ 0 (count_ s) else values_ s.

Definition max_id (s : RowIdSequence) : option Z :=
  if size s =? 0 then None
  else if compact_ s then Some (u64 (start_ s + count_ s - 1))
  else Some (list_max (values_ s)).

Example encode_shapes :
  (fun vs => decode (encode (from_values vs))) <$>
    [[]; [7; 8; 9]; [7; 9]; [9; 7]; [1; 2; 3; 4; 5; 6; 7; 8; 10; 11; 12; 13; 14; 15; 16; 17; 18];
     [1; 3; 5; 7; 9; 11; 13; 15; 16; 17]; [5; 1000000; 3]; [5; 10000000000; 3]]
  = (fun vs => Ok (from_values vs)) <$>
    [[]; [7; 8; 9]; [7; 9]; [9; 7]; [1; 2; 3; 4; 5; 6; 7; 8; 10; 11; 12; 13; 14; 15; 16; 17; 18];
     [1; 3; 5; 7; 9; 11; 13; 15; 16; 17]; [5; 1000000; 3]; [5; 10000000000; 3]].
Proof. vm_compute. reflexivity. Qed.

(** ** Arrays *)

Lemma le_array_concat w vs rest :
  Forall (fun v => 0 <= v < 2 ^ (8 * Z.of_nat w)) vs ->
  le_array (length vs) w (concat (le_bytes w <$> vs) ++ rest) = vs.
Proof.
  induction 1 as [|v vs Hv Hvs IH]; [done|]. rewrite fmap_cons. cbn [length le_array concat].
  rewrite <- app_assoc. rewrite take_app_length', drop_app_length' by (symmetry; apply length_le_bytes).
  by rewrite IH, le_value_le_bytes.
Qed.

Lemma length_concat_le_bytes w vs : length (concat (le_bytes w <$> vs)) = (length vs * w)%nat.
Proof.
  induction vs as [|v vs IH]; [done|]. rewrite fmap_cons. cbn [concat length].
  rewrite length_app, IH, length_le_bytes. lia.
Qed.

Lemma foldl_min_le l a : foldl Z.min a l <= a /\ Forall (fun x => foldl Z.min a l <= x) l /\
  (foldl Z.min a l = a \/ foldl Z.min a l ∈ l).
Proof.
  revert a. induction l as [|x l IH]; intros a; cbn [foldl]; [split_and!; [lia | constructor | by left]|].
  destruct (IH (Z.min a x)) as (H1 & H2 & H3). split_and!; [lia | constructor; [lia | done]|].
  rewrite elem_of_cons. destruct H3 as [H3|H3]; [|tauto].
  destruct (Z.min_spec a x) as [[_ Hm]|[_ Hm]]; rewrite Hm in H3 at 2; tauto.
Qed.

Lemma foldl_max_le l a : a <= foldl Z.max a l /\ Forall (fun x => x <= foldl Z.max a l) l /\
  (foldl Z.max a l = a \/ foldl Z.max a l ∈ l).
Proof.
  revert a. induction l as [|x l IH]; intros a; cbn [foldl]; [split_and!; [lia | constructor | by left]|].
  destruct (IH (Z.max a x)) as (H1 & H2 & H3). split_and!; [lia | constructor; [lia | done]|].
  rewrite elem_of_cons. destruct H3 as [H3|H3]; [|tauto].
  destruct (Z.max_spec a x) as [[_ Hm]|[_ Hm]]; rewrite Hm in H3 at 2; tauto.
Qed.

Lemma list_min_max l :
  Forall (fun x => list_min l <= x <= list_max l) l /\ (l <> [] -> list_min l ∈ l /\ list_max l ∈ l).
Proof.
  destruct l as [|a l]; [split; [constructor | done]|]. cbn.
  destruct (foldl_min_le l a) as (A1 & A2 & A3), (foldl_max_le l a) as (B1 & B2 & B3). split.
  - constructor; [lia|]. rewrite Forall_forall in *. auto.
  - intros _. rewrite !elem_of_cons. tauto.
Qed.

Lemma add_base_offsets base vs :
  Forall (fun v => base <= v <= U64_MAX) vs -> 0 <= base ->
  add_base base ((fun v => v - base) <$> vs) = Ok vs.
Proof.
  intros H Hb. induction H as [|v vs Hv Hvs IH]; [done|]. rewrite fmap_cons. cbn [add_base].
  unfold U64_MAX in *. case_bool; [lia|]. rewrite IH. cbn. rewrite u64_small by (unfold is_u64; lia).
  do 2 f_equal. lia.
Qed.

(** The two inner messages the array writer makes, as the reader's loop sees them. *)
Lemma array_fields base raw :
  is_u64 base -> zlen raw < 2 ^ 63 ->
  (let '(gs, ok) := fields (put_u64_field 1 base ++ put_bytes_field 2 raw) in
   (foldl array_field (0, None) gs, ok)) = ((base, Some raw), true).
Proof.
  intros Hb Hr. unfold fields. rewrite fields_u64_field_opt by (done || unfold field_number; lia).
  destruct (Z.eqb_spec base 0) as [->|]; rewrite fields_single by (unfold field_number; lia); done.
Qed.

Lemma array_fields_raw raw :
  zlen raw < 2 ^ 63 ->
  (let '(gs, ok) := fields (put_bytes_field 2 raw) in (foldl array_field (0, None) gs, ok)) = ((0, Some raw), true).
Proof. intros Hr. unfold fields. by rewrite fields_single by (unfold field_number; lia). Qed.

(** One array message of width [w] and its decoding. *)
Lemma decode_array_message k w inner base vs :
  (k = 1 /\ w = 2%nat \/ k = 2 /\ w = 4%nat \/ k = 3 /\ w = 8%nat) -> zlen inner < 2 ^ 64 ->
  (let '(gs, ok) := fields inner in (foldl array_field (0, None) gs, ok)) = ((base, Some (concat (le_bytes w <$> vs))), true) ->
  Forall (fun v => 0 <= v < 2 ^ (8 * Z.of_nat w)) vs ->
  decode_encoded_array (put_bytes_field k inner) = (if k =? 3 then Ok vs else add_base base vs).
Proof.
  intros Hk Hl Hf Hvs. assert (field_number k) as Hkn by (unfold field_number; lia).
  unfold decode_encoded_array, fields. rewrite fields_single by done. cbn [fold_res].
  unfold decode_array_field. change (field_bytes (bytes_field Field0 k inner)) with inner. cbn [bytes_field wire number].
  assert ((negb (2 =? 2) || (k <? 1) || (3 <? k)) = false) as -> by (destruct Hk as [[-> _]|[[-> _]|[-> _]]]; done).
  destruct (fields inner) as [gs ok]. injection Hf as Hf1 Hf2. subst ok. rewrite Hf1. cbn [negb].
  set (width := if k =? 1 then 2%nat else if k =? 2 then 4%nat else 8%nat).
  assert (width = w) as -> by (unfold width; destruct Hk as [[-> ->]|[[-> ->]|[-> ->]]]; done). cbn [from_option id].
  assert ((w <> 0)%nat) as Hw by lia.
  assert (zlen (concat (le_bytes w <$> vs)) mod Z.of_nat w = 0) as ->.
  { unfold zlen. rewrite length_concat_le_bytes, Nat2Z.inj_mul. apply Z.mod_mul. lia. }
  cbn [Z.eqb negb]. rewrite length_concat_le_bytes, Nat.div_mul by done.
  rewrite <- (app_nil_r (concat _)), le_array_concat by done.
  destruct (k =? 3); [done|]. by destruct (add_base base vs).
Qed.

Lemma encoded_array_roundtrip vs :
  Forall is_u64 vs -> zlen vs < 2 ^ 40 -> decode_encoded_array (encode_encoded_array vs) = Ok vs.
Proof.
  intros Hu Hl. unfold encode_encoded_array. destruct vs as [|v0 vs0] eqn:Evs; [done|]. rewrite <- Evs in *.
  destruct (list_min_max vs) as [Hmm Hin]. destruct Hin as [Hmin Hmax]; [by subst|]. clear Evs.
  assert (0 <= list_min vs) as Hpos by (rewrite Forall_forall in Hu; specialize (Hu _ Hmin); unfold is_u64 in Hu; lia).
  assert (is_u64 (list_min vs)) as Hmin64 by (rewrite Forall_forall in Hu; by apply Hu).
  set (mn := list_min vs) in *. set (mx := list_max vs) in *.
  assert (forall w f, (w <= 8)%nat -> zlen (concat (le_bytes w <$> (f <$> vs))) < 2 ^ 44) as Hraw.
  { intros w f Hw. unfold zlen in *. rewrite length_concat_le_bytes, length_fmap. nia. }
  assert (forall w f, (w <= 8)%nat ->
    zlen (put_u64_field 1 mn ++ put_bytes_field 2 (concat (le_bytes w <$> (f <$> vs)))) < 2 ^ 64) as Hinner.
  { intros w f Hw. rewrite zlen_app. specialize (Hraw w f Hw).
    pose proof (zlen_put_u64_field 1 mn). pose proof (zlen_put_bytes_field 2 (concat (le_bytes w <$> (f <$> vs)))). lia. }
  assert (Forall (fun v => mn <= v <= U64_MAX) vs) as Hb.
  { rewrite Forall_forall in *. intros x Hx. specialize (Hmm x Hx). specialize (Hu x Hx). unfold is_u64, U64_MAX in *. lia. }
  repeat case_bool.
  - rewrite (list_fmap_compose (fun v => u16 (v - mn)) (le_bytes 2)).
    assert ((fun v => u16 (v - mn)) <$> vs = (fun v => v - mn) <$> vs) as ->.
    { apply list_fmap_ext. intros i x Hx%list_elem_of_lookup_2. rewrite Forall_forall in Hmm.
      specialize (Hmm x Hx). apply u16_small. unfold is_u16. lia. }
    rewrite (decode_array_message 1 2 _ mn ((fun v => v - mn) <$> vs)); [| lia | apply Hinner; lia | |].
    + by apply add_base_offsets.
    + apply array_fields; [done|]. specialize (Hraw 2%nat (fun v => v - mn)). lia.
    + apply Forall_fmap. eapply Forall_impl; [exact Hmm|]. cbn. lia.
  - rewrite (list_fmap_compose (fun v => u32 (v - mn)) (le_bytes 4)).
    assert ((fun v => u32 (v - mn)) <$> vs = (fun v => v - mn) <$> vs) as ->.
    { apply list_fmap_ext. intros i x Hx%list_elem_of_lookup_2. rewrite Forall_forall in Hmm.
      specialize (Hmm x Hx). apply u32_small. unfold is_u32. lia. }
    rewrite (decode_array_message 2 4 _ mn ((fun v => v - mn) <$> vs)); [| lia | apply Hinner; lia | |].
    + by apply add_base_offsets.
    + apply array_fields; [done|]. specialize (Hraw 4%nat (fun v => v - mn)). lia.
    + apply Forall_fmap. eapply Forall_impl; [exact Hmm|]. cbn. lia.
  - pose proof (Hraw 8%nat id) as Hr8. rewrite list_fmap_id in Hr8.
    rewrite (decode_array_message 3 8 _ 0 vs); [done | lia | | |].
    + pose proof (zlen_put_bytes_field 2 (concat (le_bytes 8 <$> vs))). lia.
    + apply array_fields_raw. lia.
    + done.
Qed.

(** ** Segments *)

Lemma scan_spec vs sorted mn mx c :
  exists sorted', foldl scan_step (sorted, mn, mx, c) vs = (sorted', foldl Z.min mn vs, foldl Z.max mx vs, c + zlen vs) /\
    (sorted' = true -> 0 <= c -> sorted = true /\ StronglySorted Z.le vs /\ (1 <= c -> Forall (Z.le mx) vs)).
Proof.
  revert sorted mn mx c. induction vs as [|v vs IH]; intros sorted mn mx c; cbn [foldl].
  { exists sorted. unfold zlen. rewrite Z.add_0_r. split; [done|]. intros -> _. split_and!; [done | constructor | constructor]. }
  cbn [scan_step]. destruct (IH (if sorted && (1 <? c + 1) && (v <? Z.max mx v) then false else sorted)
    (Z.min mn v) (Z.max mx v) (c + 1)) as (s' & -> & Hs). exists s'. rewrite zlen_cons. split; [f_equal; lia|].
  intros Hs' Hc. destruct (Hs Hs' ltac:(lia)) as (H1 & H2 & H3). specialize (H3 ltac:(lia)).
  destruct sorted; cbn in H1; [|by destruct (1 <? c + 1)].
  assert (1 <= c -> mx <= v) as Hmx.
  { intros Hc1. destruct (Z.ltb_spec 1 (c + 1)); [|lia]. destruct (Z.ltb_spec v (Z.max mx v)); [done | lia]. }
  rewrite Forall_forall in H3. split_and!; [done | |].
  - constructor; [done|]. apply Forall_forall. intros x Hx%H3. lia.
  - intros Hc1. constructor; [auto|]. apply Forall_forall. intros x Hx%H3. lia.
Qed.

(** The inner message of a range segment, as the reader's loop sees it. *)
Lemma range_fields start end_ :
  is_u64 start -> is_u64 end_ ->
  (let '(gs, ok) := fields (put_u64_field 1 start ++ put_u64_field 2 end_) in
   (foldl segment_field (0, 0, None) gs, ok)) = ((start, end_, None), true).
Proof.
  intros Hs He. unfold fields. rewrite fields_u64_field_opt by (done || unfold field_number; lia).
  rewrite <- (app_nil_r (put_u64_field 2 end_)).
  destruct (Z.eqb_spec start 0) as [->|]; rewrite fields_u64_field_opt by (done || unfold field_number; lia);
    destruct (Z.eqb_spec end_ 0) as [->|]; done.
Qed.

Lemma range_extra_fields start end_ extra :
  is_u64 start -> is_u64 end_ -> zlen extra < 2 ^ 63 ->
  (let '(gs, ok) := fields (put_u64_field 1 start ++ put_u64_field 2 end_ ++ put_bytes_field 3 extra) in
   (foldl segment_field (0, 0, None) gs, ok)) = ((start, end_, Some extra), true).
Proof.
  intros Hs He Hx. unfold fields. rewrite fields_u64_field_opt by (done || unfold field_number; lia).
  destruct (Z.eqb_spec start 0) as [->|]; rewrite fields_u64_field_opt by (done || unfold field_number; lia);
    destruct (Z.eqb_spec end_ 0) as [->|]; rewrite fields_single by (unfold field_number; lia); done.
Qed.

Lemma decode_range_segment k inner start end_ extra :
  1 <= k <= 3 -> zlen inner < 2 ^ 64 ->
  (let '(gs, ok) := fields inner in (foldl segment_field (0, 0, None) gs, ok)) = ((start, end_, extra), true) ->
  decode_segment (put_bytes_field k inner) = decode_range k start end_ extra.
Proof.
  intros Hk Hl Hf. unfold decode_segment. rewrite next_single by (done || unfold field_number; lia).
  change (field_bytes (bytes_field Field0 k inner)) with inner. cbn [bytes_field wire number negb orb Z.eqb Pos.eqb].
  destruct (fields inner) as [gs ok]. injection Hf as Hf1 Hf2. subst ok. rewrite Hf1. cbn [negb].
  by assert (((k =? 1) || (k =? 2) || (k =? 3)) = true) as -> by lia.
Qed.

Lemma decode_array_segment k vs :
  k = 4 \/ k = 5 -> Forall is_u64 vs -> zlen vs < 2 ^ 40 ->
  zlen (encode_encoded_array vs) < 2 ^ 60 /\
  decode_segment (put_bytes_field k (encode_encoded_array vs)) = Ok vs.
Proof.
  intros Hk Hu Hl.
  assert (zlen (encode_encoded_array vs) < 2 ^ 60) as Hlen.
  { unfold encode_encoded_array. destruct vs as [|v0 vs0] eqn:E; [by vm_compute|]. rewrite <- E in *.
    assert (forall w f, (w <= 8)%nat -> zlen (concat ((fun v => le_bytes w (f v)) <$> vs)) < 2 ^ 44) as Hraw.
    { intros w f Hw. rewrite (list_fmap_compose f (le_bytes w)). unfold zlen in *.
      rewrite length_concat_le_bytes, length_fmap. nia. }
    repeat case_bool; match goal with |- zlen (put_bytes_field ?a (?b ++ put_bytes_field ?c ?d)) < _ =>
        pose proof (zlen_put_bytes_field a (b ++ put_bytes_field c d)); pose proof (zlen_put_bytes_field c d);
        rewrite zlen_app in *
      | |- zlen (put_bytes_field ?a (put_bytes_field ?c ?d)) < _ =>
        pose proof (zlen_put_bytes_field a (put_bytes_field c d)); pose proof (zlen_put_bytes_field c d) end;
      pose proof (zlen_put_u64_field 1 (list_min vs)).
    - specialize (Hraw 2%nat (fun v => u16 (v - list_min vs)) ltac:(lia)). lia.
    - specialize (Hraw 4%nat (fun v => u32 (v - list_min vs)) ltac:(lia)). lia.
    - specialize (Hraw 8%nat id ltac:(lia)). change (zlen (concat (le_bytes 8 <$> vs)) < 2 ^ 44) in Hraw. lia. }
  split; [done|]. unfold decode_segment. rewrite next_single by (unfold field_number; lia).
  change (field_bytes (bytes_field Field0 k (encode_encoded_array vs))) with (encode_encoded_array vs).
  cbn [bytes_field wire number negb orb Z.eqb Pos.eqb].
  pose proof (encoded_array_roundtrip vs Hu Hl) as Hr.
  assert (exists gs, fields (encode_encoded_array vs) = (gs, true)) as [gs Hgs].
  { unfold decode_encoded_array in Hr. destruct (fields _) as [gs ok]. exists gs. f_equal.
    destruct (fold_res _ _ _) as [[seen out]|]; cbn in Hr; [|done]. by destruct ok. }
  rewrite Hgs. destruct (foldl segment_field (0, 0, None) gs) as [[? ?] ?].
  destruct Hk as [-> | ->]; cbn [Z.eqb Pos.eqb orb negb]; exact Hr.
Qed.

(** Holes and values are complementary. *)
Lemma hole_values_range n v values : Forall (fun x => v <= x < v + Z.of_nat n) (hole_values n v values).
Proof.
  revert v values. induction n as [|n IH]; intros v values; cbn [hole_values]; [constructor|].
  assert (forall vs, Forall (fun x => v <= x < v + Z.of_nat (S n)) (hole_values n (v + 1) vs)) as H.
  { intros vs. eapply Forall_impl; [apply (IH (v + 1) vs)|]. cbn. lia. }
  destruct values as [|x values]; [constructor; [lia | apply H]|].
  case_bool; [apply H | constructor; [lia | apply H]].
Qed.

Lemma hole_values_length n v values : (length (hole_values n v values) <= n)%nat.
Proof.
  revert v values. induction n as [|n IH]; intros v values; cbn [hole_values]; [done|].
  destruct values as [|x values]; [specialize (IH (v + 1) []); simpl; lia|].
  case_bool; [specialize (IH (v + 1) values) | specialize (IH (v + 1) (x :: values))]; simpl; lia.
Qed.

Lemma skip_hole_values n v values :
  ascending values -> Forall (fun x => v <= x < v + Z.of_nat n) values ->
  skip_holes n v (hole_values n v values) = values.
Proof.
  revert v values. induction n as [|n IH]; intros v values Ha Hb.
  { destruct values as [|x values]; [done|]. inversion Hb; subst. lia. }
  assert (forall vs, v :: skip_holes n (v + 1) (hole_values n (v + 1) vs) = skip_holes (S n) v (hole_values n (v + 1) vs)) as Hkeep.
  { intros vs. cbn [skip_holes]. pose proof (hole_values_range n (v + 1) vs) as Hr.
    destruct (hole_values n (v + 1) vs) as [|h hs]; [done|]. inversion Hr; subst. case_bool; [lia | done]. }
  cbn [hole_values]. destruct values as [|x values].
  - cbn [skip_holes]. rewrite Z.eqb_refl. apply IH; [done | constructor].
  - apply ascending_cons in Ha as [Ha Hx]. inversion Hb as [|? ? Hx0 Hb']; subst. rewrite Forall_forall in *.
    destruct (Z.eqb_spec x v) as [->|Hne].
    + rewrite <- Hkeep, IH; [done | done |]. apply Forall_forall. intros y Hy.
      specialize (Hx y Hy). specialize (Hb' y Hy). lia.
    + cbn [skip_holes]. rewrite Z.eqb_refl. apply IH; [by apply ascending_cons; split; [|apply Forall_forall]|].
      apply Forall_forall. intros y [->|Hy]%elem_of_cons; [lia|]. specialize (Hx y Hy). specialize (Hb' y Hy). lia.
Qed.

(** ** Bitmaps of ranges *)

Lemma lsb_bit_testbit bits i : 0 <= i -> lsb_bit bits i = Z.testbit (nth (Z.to_nat (i / 8)) bits 0) (i mod 8).
Proof.
  intros Hi. unfold lsb_bit. change 1 with (2 ^ 0) at 1. rewrite land_pow2_testbit, negb_involutive, Z.shiftr_spec by lia.
  f_equal.
Qed.

Lemma nth_insert_Z (l : list Z) i j (x : Z) :
  (i < length l)%nat -> nth j (<[i := x]> l) 0 = if decide (i = j) then x else nth j l 0.
Proof. intros Hi. rewrite !nth_lookup, list_lookup_insert. repeat case_decide; try lia; done. Qed.

Lemma clear_bit_length bitmap bit : length (clear_bit bitmap bit) = length bitmap.
Proof. apply length_insert. Qed.

Lemma clear_bit_at bitmap bit i :
  0 <= bit -> bit / 8 < zlen bitmap -> 0 <= i ->
  lsb_bit (clear_bit bitmap bit) i = lsb_bit bitmap i && negb (i =? bit).
Proof.
  intros Hb Hl Hi. rewrite !lsb_bit_testbit by lia. unfold clear_bit, zlen in *.
  rewrite nth_insert_Z by (assert (0 <= bit / 8) by dlia; lia). case_decide as Hd.
  - rewrite Hd, Z.land_spec. f_equal. unfold u8, wrap. rewrite Z.mod_pow2_bits_low by dlia.
    rewrite Z.lnot_spec, Z.shiftl_1_l, Z.pow2_bits_eqb by dlia. f_equal.
    apply Z2Nat.inj in Hd; [|dlia..]. destruct (Z.eqb_spec (bit mod 8) (i mod 8)), (Z.eqb_spec i bit); try done; exfalso; dlia.
  - destruct (Z.eqb_spec i bit) as [->|]; [done|]. by rewrite andb_true_r.
Qed.

Lemma clear_missing_at n v bit values bitmap i :
  0 <= bit -> bit + Z.of_nat n <= 8 * zlen bitmap -> 0 <= i ->
  ascending values -> Forall (fun x => v <= x < v + Z.of_nat n) values ->
  lsb_bit (clear_missing n v bit values bitmap) i = true <->
  lsb_bit bitmap i = true /\ (bit <= i < bit + Z.of_nat n -> v + (i - bit) ∈ values).
Proof.
  revert v bit values bitmap. induction n as [|n IH]; intros v bit values bitmap Hb Hl Hi Ha Hf; cbn [clear_missing].
  { split; [intros; split; [done | lia] | by intros [? _]]. }
  assert (0 <= bit / 8 < zlen bitmap) as Hbit by dlia.
  assert (Hclear : forall vs, ascending vs -> Forall (fun x => v + 1 <= x < v + 1 + Z.of_nat n) vs -> vs = values ->
    lsb_bit (clear_missing n (v + 1) (bit + 1) vs (clear_bit bitmap bit)) i = true <->
    lsb_bit bitmap i = true /\ (bit <= i < bit + Z.of_nat (S n) -> v + (i - bit) ∈ values)).
  { intros vs Hva Hvf <-. rewrite IH; [| lia | unfold zlen in *; rewrite clear_bit_length; lia | done..].
    rewrite clear_bit_at by lia. rewrite andb_true_iff, negb_true_iff, Z.eqb_neq.
    replace (v + 1 + (i - (bit + 1))) with (v + (i - bit)) by lia. split.
    - intros ((? & ?) & Hin). split; [done|]. intros. apply Hin. lia.
    - intros (? & Hin). split_and!; [done | | intros; apply Hin; lia]. intros ->.
      specialize (Hin ltac:(lia)). rewrite Forall_forall in Hvf. specialize (Hvf _ Hin). lia. }
  destruct values as [|x values]; [by apply Hclear|].
  pose proof Ha as Ha0. apply ascending_cons in Ha as [Ha Hx]. inversion Hf as [|? ? Hx0 Hf']; subst.
  rewrite Forall_forall in Hx, Hf'. destruct (Z.eqb_spec x v) as [->|Hne].
  - rewrite IH; [| lia | lia | done | done |].
    + replace (v + 1 + (i - (bit + 1))) with (v + (i - bit)) by lia. setoid_rewrite elem_of_cons. split.
      * intros (? & Hin). split; [done|]. intros. destruct (Z.eq_dec i bit); [left; lia | right; apply Hin; lia].
      * intros (? & Hin). split; [done|]. intros. destruct (Hin ltac:(lia)); [lia | done].
    + apply Forall_forall. intros y Hy. specialize (Hx y Hy). specialize (Hf' y Hy). lia.
  - apply Hclear; [done | | done]. apply Forall_forall.
    intros y [->|Hy]%elem_of_cons; [lia|]. specialize (Hx y Hy). specialize (Hf' y Hy). lia.
Qed.

Lemma clear_missing_length n v bit values bitmap : length (clear_missing n v bit values bitmap) = length bitmap.
Proof.
  revert v bit values bitmap. induction n as [|n IH]; intros v bit values bitmap; cbn [clear_missing]; [done|].
  destruct values as [|x values]; [by rewrite IH, clear_bit_length|].
  case_bool; [apply IH | by rewrite IH, clear_bit_length].
Qed.

Lemma full_bitmap_length total : 0 <= total -> zlen (full_bitmap total) = (total + 7) / 8.
Proof.
  intros. unfold full_bitmap, zlen.
  destruct (negb _); rewrite ?length_insert, length_replicate; rewrite Z2Nat.id by dlia; done.
Qed.

Lemma nth_replicate_Z n i (x : Z) : (i < n)%nat -> nth i (replicate n x) 0 = x.
Proof. intros. rewrite nth_lookup, lookup_replicate_2 by done. done. Qed.

Lemma testbit_ff k : 0 <= k < 8 -> Z.testbit 255 k = true.
Proof. intros. change 255 with (Z.ones 8). apply Z.ones_spec_low. lia. Qed.

Lemma full_bitmap_at total i : 0 <= i < total -> lsb_bit (full_bitmap total) i = true.
Proof.
  intros Hi. rewrite lsb_bit_testbit by lia. unfold full_bitmap.
  assert ((Z.to_nat (i / 8) < Z.to_nat ((total + 7) / 8))%nat) as Hlt
    by (assert (0 <= i / 8 < (total + 7) / 8) by dlia; lia).
  destruct (Z.eqb_spec (total mod 8) 0) as [Hz|Hz]; cbn [negb].
  { rewrite nth_replicate_Z by done. apply testbit_ff. dlia. }
  rewrite length_replicate, nth_insert_Z by (rewrite length_replicate; lia). case_decide as Hd.
  - unfold u8, wrap. rewrite Z.mod_pow2_bits_low by dlia.
    assert (i / 8 = (total + 7) / 8 - 1) as Hib by (assert (0 <= i / 8) by dlia; lia).
    replace (Z.shiftl 1 (total mod 8) - 1) with (Z.ones (total mod 8))
      by (rewrite Z.ones_equiv, Z.shiftl_1_l; lia).
    apply Z.ones_spec_low. dlia.
  - rewrite nth_replicate_Z by done. apply testbit_ff. dlia.
Qed.

Lemma bitmap_values values mn total :
  0 <= total -> ascending values -> Forall (fun x => mn <= x < mn + total) values ->
  (fun i => mn + i) <$> filter (fun i => lsb_bit (clear_missing (Z.to_nat total) mn 0 values (full_bitmap total)) i = true)
    (seqZ 0 total) = values.
Proof.
  intros Ht Ha Hf. pose proof (full_bitmap_length total Ht) as Hfl. apply ascending_ext; [|done|].
  - apply ascending_map; [intros; lia|]. apply ascending_filter, seqZ_ascending.
  - intros x. rewrite list_elem_of_fmap. setoid_rewrite list_elem_of_filter. setoid_rewrite elem_of_seqZ.
    assert (forall i, 0 <= i < total ->
      lsb_bit (clear_missing (Z.to_nat total) mn 0 values (full_bitmap total)) i = true <-> mn + i ∈ values) as Hbit.
    { intros i Hi. rewrite clear_missing_at; [| lia | rewrite Z2Nat.id, Hfl by lia; dlia | lia | done | by rewrite Z2Nat.id by lia].
      rewrite full_bitmap_at by lia. rewrite Z.sub_0_r. split; [intros [_ H]; apply H; lia | tauto]. }
    split.
    + intros (i & -> & Hb & Hi). apply Hbit; [lia | done].
    + intros Hx. rewrite Forall_forall in Hf. specialize (Hf x Hx). exists (x - mn).
      split; [lia|]. split; [|lia]. apply Hbit; [lia|]. by replace (mn + (x - mn)) with x by lia.
Qed.

(** What a fragment's row ids are: distinct, 64-bit, never the last 64-bit value, at most one per row
    offset (offsets are 32-bit). *)
Definition row_ids_ok (vs : list Z) : Prop :=
  NoDup vs /\ Forall (fun x => 0 <= x < U64_MAX) vs /\ zlen vs <= 2 ^ 32.

(** A segment's bytes that are short enough to nest and that decode to [vs]. *)
Definition segment_of (seg vs : list Z) : Prop := zlen seg < 2 ^ 62 /\ decode_segment seg = Ok vs.

Lemma segment_range_of start n :
  0 <= start -> 0 <= n <= 2 ^ 40 -> start + n < 2 ^ 64 ->
  segment_of (segment_range start (start + n)) (seqZ start n).
Proof.
  intros Hs Hn Hsum. unfold segment_of, segment_range.
  assert (zlen (put_u64_field 1 start ++ put_u64_field 2 (start + n)) <= 40) as Hl.
  { rewrite zlen_app. pose proof (zlen_put_u64_field 1 start). pose proof (zlen_put_u64_field 2 (start + n)). lia. }
  split.
  { pose proof (zlen_put_bytes_field 1 (put_u64_field 1 start ++ put_u64_field 2 (start + n))). lia. }
  rewrite (decode_range_segment 1 _ start (start + n) None); [| lia | lia | apply range_fields; unfold is_u64; lia].
  unfold decode_range. case_bool; [lia|]. replace (start + n - start) with n by lia.
  change (Z.shiftl 1 40) with (2 ^ 40). case_bool; [lia|]. done.
Qed.

(** A range with holes or a bitmap, for any payload that decodes. *)
Lemma segment_extra_of k mn mx extra vs :
  k = 2 \/ k = 3 -> 0 <= mn -> mx < U64_MAX -> mn <= mx -> zlen extra < 2 ^ 61 ->
  decode_range k mn (mx + 1) (Some extra) = Ok vs ->
  segment_of (put_bytes_field k (put_u64_field 1 mn ++ put_u64_field 2 (mx + 1) ++ put_bytes_field 3 extra)) vs.
Proof.
  unfold U64_MAX. intros Hk Hmn Hmx Hle Hx Hd.
  set (inner := put_u64_field 1 mn ++ put_u64_field 2 (mx + 1) ++ put_bytes_field 3 extra).
  assert (zlen inner <= 60 + zlen extra) as Hl.
  { unfold inner. rewrite !zlen_app. pose proof (zlen_put_u64_field 1 mn). pose proof (zlen_put_u64_field 2 (mx + 1)).
    pose proof (zlen_put_bytes_field 3 extra). lia. }
  split; [pose proof (zlen_put_bytes_field k inner); lia|]. rewrite <- Hd. apply decode_range_segment; [lia | lia |].
  apply range_extra_fields; unfold is_u64; lia.
Qed.

Lemma segment_array_of k vs :
  k = 4 \/ k = 5 -> Forall is_u64 vs -> zlen vs < 2 ^ 40 -> segment_of (put_bytes_field k (encode_encoded_array vs)) vs.
Proof.
  intros Hk Hu Hl. destruct (decode_array_segment k vs Hk Hu Hl) as [Hb Hd]. split; [|done].
  pose proof (zlen_put_bytes_field k (encode_encoded_array vs)). lia.
Qed.

Lemma row_ids_u64 vs : row_ids_ok vs -> Forall is_u64 vs.
Proof. intros (_ & Hu & _). eapply Forall_impl; [exact Hu|]. unfold is_u64, U64_MAX. simpl. lia. Qed.

Section sorted_segment.
  Context (vs : list Z) (mn mx : Z).
  Context (Hok : row_ids_ok vs) (Ha : ascending vs) (Hmm : Forall (fun x => mn <= x <= mx) vs).
  Context (Hmn : mn ∈ vs) (Hmx : mx ∈ vs).
Let total := mx - mn + 1.

Lemma sorted_bounds : 0 <= mn <= mx /\ mx < U64_MAX /\ 1 <= zlen vs <= total /\ zlen vs <= 2 ^ 32.
Proof.
  destruct Hok as (_ & Hu & Hlen). rewrite Forall_forall in Hu. rewrite Forall_forall in Hmm.
  pose proof (Hu _ Hmn) as H1. pose proof (Hu _ Hmx) as H2. pose proof (Hmm _ Hmn) as H3. cbn in H1, H2, H3.
  assert (zlen vs <= mx + 1 - mn).
  { apply ascending_bounded; [done| |lia]. apply Forall_forall. intros x Hx. specialize (Hmm x Hx). lia. }
  assert (1 <= zlen vs).
  { destruct vs; [by apply not_elem_of_nil in Hmn|]. rewrite zlen_cons. pose proof (zlen_nonneg l). lia. }
  unfold total. lia.
Qed.

Lemma sorted_in_span : Forall (fun x => mn <= x < mn + total) vs.
Proof. eapply Forall_impl; [exact Hmm|]. cbn. unfold total. lia. Qed.

Lemma full_segment_of : total - zlen vs = 0 -> segment_of (segment_range mn (mx + 1)) vs.
Proof.
  intros Hz. pose proof sorted_bounds as (? & ? & ? & ?). unfold U64_MAX in *.
  replace (mx + 1) with (mn + total) by (unfold total; lia).
  rewrite (ascending_full vs mn total) by (done || apply sorted_in_span || lia). apply segment_range_of; lia.
Qed.

Lemma holes_segment_of :
  4 * (total - zlen vs) <= 2 * zlen vs ->
  segment_of (put_bytes_field 2 (put_u64_field 1 mn ++ put_u64_field 2 (mx + 1) ++
    put_bytes_field 3 (encode_encoded_array (hole_values (Z.to_nat total) mn vs)))) vs.
Proof.
  intros Hh. pose proof sorted_bounds as (? & ? & ? & ?).
  assert (total < 2 ^ 38) as Ht by lia.
  pose proof (hole_values_range (Z.to_nat total) mn vs) as Hr.
  pose proof (hole_values_length (Z.to_nat total) mn vs) as Hl.
  assert (Forall is_u64 (hole_values (Z.to_nat total) mn vs)) as Hhu.
  { eapply Forall_impl; [exact Hr|]. cbn. unfold is_u64, total, U64_MAX in *. lia. }
  assert (zlen (hole_values (Z.to_nat total) mn vs) < 2 ^ 40) as Hhl by (unfold zlen, total in *; lia).
  destruct (decode_array_segment 4 _ (or_introl eq_refl) Hhu Hhl) as [Hal _].
  apply segment_extra_of; [auto | lia | lia | lia | lia |].
  unfold decode_range. case_bool; [lia|]. replace (mx + 1 - mn) with total by (unfold total; lia).
  change (Z.shiftl 1 40) with (2 ^ 40). case_bool; [lia|]. cbn [Z.eqb Pos.eqb].
  rewrite encoded_array_roundtrip by done. cbn [mbind res_bind].
  rewrite skip_hole_values; [done | done | rewrite Z2Nat.id by lia; apply sorted_in_span].
Qed.

Lemma bitmap_segment_of :
  (total + 7) / 8 <= 2 * zlen vs ->
  segment_of (put_bytes_field 3 (put_u64_field 1 mn ++ put_u64_field 2 (mx + 1) ++
    put_bytes_field 3 (clear_missing (Z.to_nat total) mn 0 vs (full_bitmap total)))) vs.
Proof.
  intros Hh. pose proof sorted_bounds as (? & ? & ? & ?).
  assert (total < 2 ^ 38) as Ht by dlia.
  pose proof (full_bitmap_length total ltac:(lia)) as Hfl.
  assert (zlen (clear_missing (Z.to_nat total) mn 0 vs (full_bitmap total)) = (total + 7) / 8) as Hbl
    by (rewrite <- Hfl; unfold zlen; by rewrite clear_missing_length).
  apply segment_extra_of; [auto | lia | lia | lia | rewrite Hbl; dlia |].
  unfold decode_range. case_bool; [lia|]. replace (mx + 1 - mn) with total by (unfold total; lia).
  change (Z.shiftl 1 40) with (2 ^ 40). case_bool; [lia|]. cbn [Z.eqb Pos.eqb].
  rewrite Hbl, Z.ltb_irrefl. f_equal. apply bitmap_values; [lia | done | apply sorted_in_span].
Qed.

End sorted_segment.

Lemma encode_segment_of vs : row_ids_ok vs -> segment_of (encode_segment vs) vs.
Proof.
  intros Hok. pose proof (row_ids_u64 vs Hok) as Hu. unfold encode_segment.
  destruct (scan_spec vs true U64_MAX 0 0) as (sorted & -> & Hsort). rewrite Z.add_0_l.
  destruct (Z.eqb_spec (zlen vs) 0) as [Hz|Hz].
  { destruct vs; [by vm_compute|]. rewrite zlen_cons in Hz. pose proof (zlen_nonneg vs). lia. }
  pose proof Hok as (Hnd & Hr & Hl).
  destruct sorted; cbn [negb]; [|apply segment_array_of; [auto | done | lia]].
  destruct (foldl_min_le vs U64_MAX) as (_ & Hmn & Hmn'). destruct (foldl_max_le vs 0) as (_ & Hmx & Hmx').
  assert (foldl Z.min U64_MAX vs ∈ vs) as Hmnin.
  { destruct Hmn' as [E|?]; [|done]. destruct vs as [|v vs]; [done|].
    apply Forall_cons_1 in Hmn as [Hv _]. apply Forall_cons_1 in Hr as [Hv' _]. lia. }
  assert (foldl Z.max 0 vs ∈ vs) as Hmxin.
  { destruct Hmx' as [E|?]; [|done]. destruct vs as [|v vs]; [done|].
    apply Forall_cons_1 in Hmx as [Hv _]. apply Forall_cons_1 in Hr as [Hv' _].
    rewrite E. replace v with 0 by lia. by left. }
  set (mn := foldl Z.min U64_MAX vs) in *. set (mx := foldl Z.max 0 vs) in *.
  destruct (Hsort eq_refl ltac:(lia)) as (_ & Hs & _).
  assert (ascending vs) as Ha by (by apply sorted_nodup_ascending).
  assert (Forall (fun x => mn <= x <= mx) vs) as Hmm.
  { apply Forall_forall. intros x Hx. rewrite Forall_forall in Hmn. rewrite Forall_forall in Hmx.
    specialize (Hmn x Hx). specialize (Hmx x Hx). lia. }
  pose proof (sorted_bounds vs mn mx Hok Ha Hmm Hmnin Hmxin) as (? & ? & ? & ?).
  case_bool; [lia|]. unfold U64_MAX in *.
  rewrite !(u64_small (mx - mn + 1)) by (unfold is_u64; lia).
  rewrite !(u64_small (mx - mn + 1 - zlen vs)) by (unfold is_u64; lia).
  repeat case_bool.
  - by apply full_segment_of.
  - apply holes_segment_of; auto. lia.
  - apply bitmap_segment_of; auto. lia.
  - apply segment_array_of; [auto | done | lia].
Qed.

(** ** Sequences *)

Lemma consecutive_seqZ vs :
  Forall (fun x => 0 <= x < U64_MAX) vs -> consecutive vs = true ->
  vs = seqZ (match vs with [] => 0 | x :: _ => x end) (zlen vs).
Proof.
  induction vs as [|x vs IH]; intros Hr Hc; [done|]. inversion Hr as [|? ? Hx Hr']; subst. cbn in Hx.
  rewrite zlen_cons, seqZ_cons by (pose proof (zlen_nonneg vs); lia).
  f_equal. replace (Z.pred (1 + zlen vs)) with (zlen vs) by lia.
  destruct vs as [|y vs]; [done|]. cbn [consecutive] in Hc. apply andb_true_iff in Hc as [Hy Hc].
  rewrite u64_small in Hy by (unfold is_u64, U64_MAX in *; lia). bool_prop. subst y.
  rewrite IH at 1 by done. done.
Qed.

(** The sequence [from_values] builds stands for the ids it was given, and its encoding decodes to it. *)
Lemma encode_from_values_of vs :
  row_ids_ok vs ->
  segment_of (if consecutive vs then segment_range (start_ (from_values vs)) (u64 (start_ (from_values vs) + count_ (from_values vs)))
              else encode_segment vs) vs.
Proof.
  intros Hok. unfold from_values. destruct (consecutive vs) eqn:E; cbn [start_ count_]; [|by apply encode_segment_of].
  destruct Hok as (Hnd & Hr & Hl). pose proof (consecutive_seqZ vs Hr E) as Hseq.
  destruct vs as [|x vs]; [by vm_compute|]. set (n := zlen (x :: vs)) in *.
  assert (1 <= n) as Hn by (unfold n; rewrite zlen_cons; pose proof (zlen_nonneg vs); lia).
  assert (x + n - 1 ∈ x :: vs) as Hlast by (rewrite Hseq; apply elem_of_seqZ; lia).
  rewrite Forall_forall in Hr. pose proof (Hr _ Hlast) as H1. pose proof (Hr x ltac:(left)) as H2. cbn in H1, H2.
  unfold U64_MAX in *. rewrite u64_small by (unfold is_u64; lia). rewrite Hseq. apply segment_range_of; lia.
Qed.

Lemma decode_encode vs :
  row_ids_ok vs -> decode (encode (from_values vs)) = Ok (from_values vs).
Proof.
  intros Hok. pose proof (encode_from_values_of vs Hok) as [Hl Hd]. unfold decode, encode, fields.
  assert (compact_ (from_values vs) = consecutive vs) as Hc by (unfold from_values; by destruct (consecutive vs)).
  assert (consecutive vs = false -> values_ (from_values vs) = vs) as Hv by (unfold from_values; by destruct (consecutive vs)).
  rewrite Hc. destruct (consecutive vs) eqn:E; [|rewrite Hv by done];
    rewrite fields_single by (unfold field_number; lia); cbn [fold_res number wire bytes_field Z.eqb Pos.eqb andb];
    match goal with |- context [field_bytes (bytes_field Field0 1 ?b)] => change (field_bytes (bytes_field Field0 1 b)) with b end;
    rewrite Hd; done.
Qed.

(** C14. A fragment's row id sequence survives being written and read: for any distinct 64-bit row ids,
    in any order, with whichever of the five segment forms the writer chooses, decoding the encoded
    sequence gives the sequence back. *)
Theorem row_id_sequence_roundtrip vs :
  row_ids_ok vs -> decode (encode (from_values vs)) = Ok (from_values vs).
Proof. apply decode_encode. Qed.

Lemma row_id_sequence_roundtrip_witness :
  decode (encode (from_values [7; 3; 18; 4])) = Ok (from_values [7; 3; 18; 4]).
Proof.
  apply row_id_sequence_roundtrip. split_and!.
  - repeat (constructor; [set_solver|]). constructor.
  - repeat (constructor; [by vm_compute|]). constructor.
  - by vm_compute.
Defined.

End RowIds.
