(* ===== verification/RowMeta.v ===== *)
(** * RowMeta: row versions and a fragment's row metadata (src/table/row_ids.cpp)

    [RowVersionSequence], the run-length encoded versions of a fragment's rows, and the functions that
    read and replace the row metadata kept in a fragment's unknown protobuf fields. *)

From S2P Require Import Prelude ProtoWire Pb RowIds.

Module RowVersions.

(** [VersionRun]. *)
Record VersionRun := mkVersionRun { length_ : Z; version : Z }.

(** [RowVersionSequence]: its [runs_]. *)
Definition RowVersionSequence : Type := list VersionRun.

Definition uniform (rows version : Z) : RowVersionSequence :=
  if negb (rows =? 0) then [mkVersionRun rows version] else [].

(** One field of a run's message: [span], [version] and [have_span]. *)
Definition run_field (s : list Z * Z * bool) (g : Field) : res (list Z * Z * bool) :=
  let '(span, version, have_span) := s in
  if (number g =? 1) && (wire g =? 2) then
    vs ← RowIds.decode_segment (field_bytes g); Ok (span ++ vs, version, true)
  else if (number g =? 2) && (wire g =? 0) then Ok (span, value g, have_span)
  else Ok s.

(** One field of the sequence's message. *)
Definition sequence_field (runs_ : RowVersionSequence) (f : Field) : res RowVersionSequence :=
  if negb (number f =? 1) || negb (wire f =? 2) then Ok runs_
  else
    let '(gs, inner_ok) := fields (field_bytes f) in
    '(span, version, have_span) ← fold_res run_field gs ([], 0, false);
    if negb inner_ok || negb have_span then Err "malformed row version run"
    else Ok (runs_ ++ [mkVersionRun (zlen span) version]).

Definition decode (bytes : list Z) : res RowVersionSequence :=
  let '(fs, ok) := fields bytes in
  runs_ ← fold_res sequence_field fs [];
  if negb ok then Err "malformed row version sequence" else Ok runs_.

Definition encode_run (at_ : Z) (run : VersionRun) : list Z :=
  put_bytes_field 1 (put_bytes_field 1 (RowIds.segment_range at_ (u64 (at_ + length_ run))) ++ put_u64_field 2 (version run)).

Fixpoint encode_runs (at_ : Z) (runs : RowVersionSequence) : list Z :=
  match runs with
  | [] => []
  | run :: runs => encode_run at_ run ++ encode_runs (u64 (at_ + length_ run)) runs
  end.

Definition encode (s : RowVersionSequence) : list Z := encode_runs 0 s.

Definition size (s : RowVersionSequence) : Z := foldl (fun n run => u64 (n + length_ run)) 0 s.

Fixpoint at_index (s : RowVersionSequence) (index : Z) : Z :=
  match s with
  | [] => 0
  | run :: s => if index <? length_ run then version run else at_index s (u64 (index - length_ run))
  end.

Definition to_vector (s : RowVersionSequence) : list Z :=
  concat ((fun run => replicate (Z.to_nat (length_ run)) (version run)) <$> s).

(** The body of the loop of [from_values]: [++runs_.back().length] or a new run. *)
Definition push_version (runs_ : RowVersionSequence) (v : Z) : RowVersionSequence :=
  match last runs_ with
  | Some run =>
      if version run =? v
      then <[Nat.pred (length runs_) := mkVersionRun (u64 (length_ run + 1)) (version run)]> runs_
      else runs_ ++ [mkVersionRun 1 v]
  | None => runs_ ++ [mkVersionRun 1 v]
  end.

Definition from_values (values : list Z) : RowVersionSequence := foldl push_version [] values.

Example runs_of_values :
  (fun r => (length_ r, version r)) <$> from_values [4; 4; 4; 9; 9; 4] = [(3, 4); (2, 9); (1, 4)].
Proof. reflexivity. Qed.

(** ** Facts *)

(** The runs of a fragment: each is a span the reader accepts, the rows together are counted in 64 bits. *)
Definition runs_ok (s : RowVersionSequence) : Prop :=
  Forall (fun r => 0 <= length_ r <= 2 ^ 40 /\ is_u64 (version r)) s.

Fixpoint rows (s : RowVersionSequence) : Z :=
  match s with [] => 0 | r :: s => length_ r + rows s end.

Lemma rows_nonneg s : runs_ok s -> 0 <= rows s.
Proof. induction 1 as [|r s [Hr _] Hs IH]; cbn; lia. Qed.

Lemma decode_run_field at_ run :
  0 <= at_ -> 0 <= length_ run <= 2 ^ 40 -> is_u64 (version run) -> at_ + length_ run < 2 ^ 64 ->
  let inner := put_bytes_field 1 (RowIds.segment_range at_ (at_ + length_ run)) ++ put_u64_field 2 (version run) in
  zlen inner < 2 ^ 63 /\
  exists gs, fields inner = (gs, true) /\ fold_res run_field gs ([], 0, false) = Ok (seqZ at_ (length_ run), version run, true).
Proof.
  intros Ha Hl Hv Hs inner. destruct (RowIds.segment_range_of at_ (length_ run) Ha Hl Hs) as [Hz Hd].
  set (seg := RowIds.segment_range at_ (at_ + length_ run)) in *. split.
  { unfold inner. rewrite zlen_app. pose proof (zlen_put_bytes_field 1 seg). pose proof (zlen_put_u64_field 2 (version run)). lia. }
  unfold inner, fields. rewrite fields_bytes_field by (unfold field_number; lia).
  rewrite <- (app_nil_r (put_u64_field 2 _)), fields_u64_field_opt by (done || unfold field_number; lia).
  assert (run_field ([], 0, false) (bytes_field Field0 1 seg) = Ok (seqZ at_ (length_ run), 0, true)) as Hr.
  { unfold run_field. cbn [number wire bytes_field Z.eqb Pos.eqb andb].
    change (field_bytes (bytes_field Field0 1 seg)) with seg. by rewrite Hd. }
  destruct (Z.eqb_spec (version run) 0) as [E|E]; eexists; (split; [reflexivity|]); cbn [fold_res]; rewrite Hr;
    cbn [mbind res_bind fold_res]; [by rewrite E | done].
Qed.

Lemma decode_runs f runs at_ acc :
  runs_ok runs -> 0 <= at_ -> at_ + rows runs < 2 ^ 64 ->
  exists fs, fields_from f (encode_runs at_ runs) = (fs, true) /\ fold_res sequence_field fs acc = Ok (acc ++ runs).
Proof.
  intros Hok. revert f at_ acc. induction Hok as [|run runs [Hl Hv] Hok IH]; intros f at_ acc Ha Hs.
  { exists []. cbn. by rewrite app_nil_r. }
  pose proof (rows_nonneg runs Hok) as Hn. cbn [rows] in Hs.
  cbn [encode_runs]. unfold encode_run. rewrite !(u64_small (at_ + length_ run)) by (unfold is_u64; lia).
  destruct (decode_run_field at_ run Ha Hl Hv ltac:(lia)) as (Hz & gs & Hgs & Hfold).
  set (inner := put_bytes_field 1 _ ++ _) in *. rewrite fields_bytes_field by (unfold field_number; lia).
  destruct (IH (bytes_field f 1 inner) (at_ + length_ run) (acc ++ [run]) ltac:(lia) ltac:(lia)) as (fs & Hfs & Hrest).
  rewrite Hfs. eexists. split; [reflexivity|]. cbn [fold_res].
  assert (sequence_field acc (bytes_field f 1 inner) = Ok (acc ++ [run])) as ->.
  { unfold sequence_field. cbn [number wire bytes_field Z.eqb Pos.eqb negb orb].
    change (field_bytes (bytes_field f 1 inner)) with inner. rewrite Hgs, Hfold. cbn [mbind res_bind negb orb].
    rewrite zlen_seqZ by lia. by destruct run. }
  cbn [mbind res_bind]. rewrite Hrest. by rewrite <- app_assoc.
Qed.

Lemma versions_codec : Codec encode decode (fun s => runs_ok s /\ rows s < 2 ^ 64).
Proof.
  intros s [Hok Hr]. unfold decode, encode, fields.
  destruct (decode_runs Field0 s 0 [] Hok ltac:(lia) ltac:(lia)) as (fs & -> & ->). done.
Qed.
#[export] Existing Instance versions_codec.

Lemma at_index_nth s i :
  runs_ok s -> 0 <= i < 2 ^ 64 -> at_index s i = nth (Z.to_nat i) (to_vector s) 0.
Proof.
  intros Hok. revert i. induction Hok as [|run runs [Hl _] Hok IH]; intros i Hi; cbn [at_index].
  { by destruct (Z.to_nat i). }
  unfold to_vector. rewrite fmap_cons. cbn [concat]. case_bool.
  - rewrite app_nth1 by (rewrite length_replicate; lia). rewrite nth_lookup, lookup_replicate_2 by lia. done.
  - rewrite app_nth2 by (rewrite length_replicate; lia). rewrite length_replicate.
    rewrite u64_small by (unfold is_u64; lia). rewrite IH by lia. unfold to_vector. f_equal. lia.
Qed.

Lemma to_vector_app s t : to_vector (s ++ t) = to_vector s ++ to_vector t.
Proof. unfold to_vector. by rewrite fmap_app, concat_app. Qed.

Lemma to_vector_one n v : to_vector [mkVersionRun n v] = replicate (Z.to_nat n) v.
Proof. unfold to_vector. cbn. apply app_nil_r. Qed.

(** No two runs in a row have the same version, and no run is empty. *)
Inductive canonical : RowVersionSequence -> Prop :=
  | canonical_nil : canonical []
  | canonical_snoc s r :
      canonical s -> 1 <= length_ r -> (forall p, last s = Some p -> version p <> version r) -> canonical (s ++ [r]).

Lemma push_version_spec s v :
  canonical s -> Forall (fun r => length_ r < 2 ^ 64 - 1) s ->
  canonical (push_version s v) /\ to_vector (push_version s v) = to_vector s ++ [v].
Proof.
  intros Hc Hb. unfold push_version. destruct Hc as [|s r Hc Hr Hne].
  { split; [|done]. apply (canonical_snoc []); [constructor | done | done]. }
  rewrite last_snoc. apply Forall_app in Hb as [_ Hb]. rewrite Forall_singleton in Hb. case_bool.
  - assert (forall x, <[Nat.pred (length (s ++ [r])) := x]> (s ++ [r]) = s ++ [x]) as ->.
    { intros x. rewrite length_app. cbn [length]. replace (Nat.pred (length s + 1)) with (length s) by lia.
      rewrite insert_app_r_alt by done. by rewrite Nat.sub_diag. }
    rewrite u64_small by (unfold is_u64; lia). split.
    + apply canonical_snoc; [done | cbn; lia | done].
    + rewrite !to_vector_app, <- app_assoc. f_equal. destruct r as [n w]. cbn [length_ version] in *. subst w. rewrite !to_vector_one.
      replace (Z.to_nat (n + 1)) with (Z.to_nat n + 1)%nat by lia. by rewrite replicate_add.
  - split; [|by rewrite to_vector_app].
    apply canonical_snoc; [by apply canonical_snoc | done |]. intros p. rewrite last_snoc. by intros [= <-].
Qed.

Lemma length_to_vector s r : r ∈ s -> length_ r <= zlen (to_vector s).
Proof.
  intros (a & b & ->)%list_elem_of_split. change (r :: b) with ([r] ++ b). rewrite !to_vector_app.
  destruct r as [n v]. rewrite to_vector_one. unfold zlen. cbn [length_]. rewrite !length_app, length_replicate. lia.
Qed.

Lemma from_values_spec vs :
  zlen vs < 2 ^ 63 -> canonical (from_values vs) /\ to_vector (from_values vs) = vs.
Proof.
  unfold from_values. induction vs as [|v vs IH] using rev_ind; intros Hl; [split; [constructor | done]|].
  rewrite zlen_app in Hl. change (zlen [v]) with 1 in Hl. rewrite foldl_app. cbn [foldl].
  destruct IH as [Hc Hv]; [lia|]. pose proof (push_version_spec (foldl push_version [] vs) v Hc) as Hp. rewrite Hv in Hp.
  apply Hp. apply Forall_forall. intros r Hr%length_to_vector. rewrite Hv in Hr. lia.
Qed.

(** the row versions of a fragment survive being written and read, and each row's
    version can be looked up: [decode] of [encode] of any runs of rows gives them back, and [at] is the
    entry of [to_vector] at that row (0 past the end). *)
Theorem row_versions_roundtrip s :
  runs_ok s -> rows s < 2 ^ 64 ->
  decode (encode s) = Ok s /\ forall i, 0 <= i < 2 ^ 64 -> at_index s i = nth (Z.to_nat i) (to_vector s) 0.
Proof. intros. split; [by apply versions_codec | intros; by apply at_index_nth]. Qed.

Lemma row_versions_roundtrip_witness :
  decode (encode [mkVersionRun 3 1; mkVersionRun 2 7]) = Ok [mkVersionRun 3 1; mkVersionRun 2 7] /\
  at_index [mkVersionRun 3 1; mkVersionRun 2 7] 4 = 7.
Proof.
  destruct (row_versions_roundtrip [mkVersionRun 3 1; mkVersionRun 2 7]) as [H1 H2].
  - unfold runs_ok, is_u64. repeat constructor; cbn; lia.
  - by vm_compute.
  - split; [exact H1|]. rewrite H2 by lia. reflexivity.
Defined.

(** [from_values] is the run-length encoding: expanding it gives the versions back,
    no run is empty and neighbouring runs differ. *)
Theorem row_versions_from_values vs :
  zlen vs < 2 ^ 63 -> to_vector (from_values vs) = vs /\ canonical (from_values vs).
Proof. intros H. destruct (from_values_spec vs H). done. Qed.

Lemma row_versions_from_values_witness :
  to_vector (from_values [5; 5; 6; 5]) = [5; 5; 6; 5] /\ canonical (from_values [5; 5; 6; 5]).
Proof. apply (row_versions_from_values [5; 5; 6; 5]). by vm_compute. Defined.

End RowVersions.

(** ** The row metadata of a fragment *)

Module RowMeta.

Record FragmentRowMeta := mkFragmentRowMeta {
  has_row_ids : bool;
  row_ids : list Z;
  has_last_updated : bool;
  last_updated : list Z;
  has_created : bool;
  created : list Z;
  external : bool
}.

Definition FragmentRowMeta0 : FragmentRowMeta := mkFragmentRowMeta false [] false [] false [] false.

(** The switch over a field's number. A field of another wire type leaves [f.data] as the previous field
    set it, and that is what is copied. *)
Definition meta_field (out : FragmentRowMeta) (f : Field) : FragmentRowMeta :=
  let n := number f in
  if n =? 5 then
    mkFragmentRowMeta true (field_bytes f) (has_last_updated out) (last_updated out) (has_created out) (created out) (external out)
  else if n =? 7 then
    mkFragmentRowMeta (has_row_ids out) (row_ids out) true (field_bytes f) (has_created out) (created out) (external out)
  else if n =? 9 then
    mkFragmentRowMeta (has_row_ids out) (row_ids out) (has_last_updated out) (last_updated out) true (field_bytes f) (external out)
  else if (n =? 6) || (n =? 8) || (n =? 10) then
    mkFragmentRowMeta (has_row_ids out) (row_ids out) (has_last_updated out) (last_updated out) (has_created out) (created out) true
  else out.

Definition read_fragment_row_meta (fragment : pb.DataFragment) : res FragmentRowMeta :=
  let '(fs, ok) := fields (pb.fr_unknown fragment) in
  let out := foldl meta_field FragmentRowMeta0 fs in
  if negb ok then Err "malformed fragment row metadata" else Ok out.

Definition row_meta_fields : list Z := [5; 6; 7; 8; 9; 10].

Definition clear_fragment_row_meta (fragment : pb.DataFragment) : pb.DataFragment :=
  pb.set_unknown fragment (without_fields (pb.fr_unknown fragment) row_meta_fields).

Definition write_fragment_row_meta (fragment : pb.DataFragment) (meta : FragmentRowMeta) : pb.DataFragment :=
  let fragment := clear_fragment_row_meta fragment in
  pb.set_unknown fragment
    (pb.fr_unknown fragment ++
     (if has_row_ids meta then put_bytes_field 5 (row_ids meta) else []) ++
     (if has_last_updated meta then put_bytes_field 7 (last_updated meta) else []) ++
     (if has_created meta then put_bytes_field 9 (created meta) else [])).

Definition fragment_row_ids (fragment : pb.DataFragment) : res RowIds.RowIdSequence :=
  meta ← read_fragment_row_meta fragment;
  if external meta then Err "row ids stored in an external file are not supported"
  else if negb (has_row_ids meta) then Err ("fragment " +:+ pretty (pb.fr_id fragment) +:+ " has no row ids")
  else
    out ← RowIds.decode (row_ids meta);
    if negb (RowIds.size out =? pb.fr_physical_rows fragment)
    then Err ("fragment " +:+ pretty (pb.fr_id fragment) +:+ " has " +:+ pretty (pb.fr_physical_rows fragment)
              +:+ " rows but " +:+ pretty (RowIds.size out) +:+ " row ids")
    else Ok out.

(** ** Facts *)

(** Metadata the writer can write: no external file, bytes that fit, nothing kept for an absent part. *)
Definition meta_ok (m : FragmentRowMeta) : Prop :=
  external m = false /\
  zlen (row_ids m) < 2 ^ 64 /\ zlen (last_updated m) < 2 ^ 64 /\ zlen (created m) < 2 ^ 64 /\
  (has_row_ids m = false -> row_ids m = []) /\ (has_last_updated m = false -> last_updated m = []) /\
  (has_created m = false -> created m = []).

Lemma meta_field_skip m fs : Forall (fun f => number f ∉ row_meta_fields) fs -> foldl meta_field m fs = m.
Proof.
  intros H. revert m. induction H as [|f fs Hf Hfs IH]; intros m; [done|]. cbn [foldl]. rewrite <- (IH m) at 2. f_equal.
  unfold row_meta_fields in Hf. rewrite !not_elem_of_cons in Hf. destruct Hf as (? & ? & ? & ? & ? & ? & _).
  unfold meta_field. by rewrite !(proj2 (Z.eqb_neq _ _)) by done.
Qed.

(** The three fields the writer appends, as the reader sees them. *)
Lemma appended_fields g m :
  meta_ok m ->
  exists gs, fields_from g ((if has_row_ids m then put_bytes_field 5 (row_ids m) else []) ++
     (if has_last_updated m then put_bytes_field 7 (last_updated m) else []) ++
     (if has_created m then put_bytes_field 9 (created m) else [])) = (gs, true) /\
   foldl meta_field FragmentRowMeta0 gs = m /\ Forall (fun f => number f ∈ row_meta_fields) gs.
Proof.
  destruct m as [h5 b5 h7 b7 h9 b9 ext]. unfold meta_ok. cbn. intros (-> & H5 & H7 & H9 & E5 & E7 & E9).
  destruct h5, h7, h9; cbn [app]; rewrite ?app_nil_r;
    repeat first [rewrite fields_bytes_field by (unfold field_number; lia)
                 | rewrite fields_single by (unfold field_number; lia)];
    eexists; (split; [reflexivity|]);
    (split; [cbn; rewrite ?E5, ?E7, ?E9 by done; done
            | repeat (constructor; [unfold row_meta_fields; cbn; rewrite !elem_of_cons; tauto|]); constructor]).
Qed.

Lemma written_row_meta fragment m :
  meta_ok m ->
  let fragment' := write_fragment_row_meta fragment m in
  read_fragment_row_meta fragment' = Ok m /\
  without_fields (pb.fr_unknown fragment') row_meta_fields = without_fields (pb.fr_unknown fragment) row_meta_fields /\
  pb.set_unknown fragment' (pb.fr_unknown fragment) = fragment.
Proof.
  intros Hm fragment'. unfold fragment', write_fragment_row_meta, clear_fragment_row_meta, read_fragment_row_meta, pb.set_unknown.
  cbn [pb.fr_unknown].
  set (rest := _ ++ _ ++ (if has_created m then _ else _)).
  destruct (fields_rewritten row_meta_fields (pb.fr_unknown fragment) rest) as (fs & g & Hk & Hkeep & Hf).
  destruct (appended_fields g m Hm) as (gs & Hg & Hfold & Hin). fold rest in Hg. rewrite Hg in Hf. split_and!.
  - rewrite Hf. cbn [negb].
    by rewrite foldl_app, (meta_field_skip _ fs), Hfold.
  - by eapply without_fields_appended.
  - by destruct fragment.
Qed.

(** replacing a fragment's row metadata and reading it back gives the metadata that was
    written, whatever the fragment's unknown bytes held before, and every unknown field other than the
    six of the row metadata keeps its bytes and its place; the rest of the fragment is unchanged. *)
Theorem fragment_row_meta_roundtrip fragment m :
  meta_ok m ->
  let fragment' := write_fragment_row_meta fragment m in
  read_fragment_row_meta fragment' = Ok m /\
  without_fields (pb.fr_unknown fragment') row_meta_fields = without_fields (pb.fr_unknown fragment) row_meta_fields /\
  pb.set_unknown fragment' (pb.fr_unknown fragment) = fragment.
Proof. apply written_row_meta. Qed.

Definition sample_fragment : pb.DataFragment :=
  pb.mkDataFragment 3 [] 2 pb.no_deletion_file (put_bytes_field 6 [1] ++ put_u64_field 12 9 ++ put_bytes_field 5 [4; 4]).

Lemma fragment_row_meta_roundtrip_witness :
  let m := mkFragmentRowMeta true (RowIds.encode (RowIds.range 4 2)) false [] true [1; 2] false in
  read_fragment_row_meta (write_fragment_row_meta sample_fragment m) = Ok m /\
  without_fields (pb.fr_unknown (write_fragment_row_meta sample_fragment m)) row_meta_fields = put_u64_field 12 9.
Proof.
  intros m. destruct (fragment_row_meta_roundtrip sample_fragment m) as (H1 & H2 & _).
  - unfold meta_ok. vm_compute. repeat split; congruence.
  - split; [exact H1|]. rewrite H2. vm_compute. reflexivity.
Defined.

(** What a fragment whose row ids are [vs] carries: the encoded sequence, and as many rows. *)
Definition carries (fragment : pb.DataFragment) (vs : list Z) : Prop :=
  RowIds.row_ids_ok vs /\ pb.fr_physical_rows fragment = zlen vs /\
  exists m, read_fragment_row_meta fragment = Ok m /\ external m = false /\ has_row_ids m = true /\
    row_ids m = RowIds.encode (RowIds.from_values vs).

Lemma size_from_values vs : RowIds.size (RowIds.from_values vs) = zlen vs.
Proof. unfold RowIds.size, RowIds.from_values. by destruct (RowIds.consecutive vs). Qed.

Lemma fragment_row_ids_carries fragment vs :
  carries fragment vs -> fragment_row_ids fragment = Ok (RowIds.from_values vs).
Proof.
  intros (Hok & Hn & m & Hr & He & Hh & Hi). unfold fragment_row_ids. rewrite Hr. cbn [mbind res_bind]. rewrite He, Hh, Hi. cbn [negb].
  rewrite RowIds.decode_encode by done. cbn [mbind res_bind]. by rewrite size_from_values, Hn, Z.eqb_refl.
Qed.

End RowMeta.
