(* ===== verification/BasePaths.v ===== *)
(** * BasePaths: base paths, branches and the directories files are in (src/table/base_paths.cpp)

    A manifest's base paths and branch, and the base id of a data file, a deletion file or an index, all
    kept in unknown protobuf fields; and which directory a file is looked up in. *)

From S2P Require Import Prelude ProtoWire Pb.

Module BasePaths.

Definition kManifestBasePaths : Z := 18.
Definition kManifestBranch : Z := 20.
Definition kBaseIdField : Z := 7.
Definition kIndexBaseIdField : Z := 9.

Record BasePath := mkBasePath {
  id : Z;
  name : string;
  has_name : bool;
  is_dataset_root : bool;
  path : string
}.

Definition BasePath0 : BasePath := mkBasePath 0 "" false false "".

Definition without_field (unknown : list Z) (n : Z) : list Z := without_fields unknown [n].

(** The loop both base id readers run: the last varint field [n] wins, one over 32 bits fails. *)
Definition id_field (n : Z) (too_big : string) (out : option Z) (f : Field) : res (option Z) :=
  if (number f =? n) && (wire f =? 0)
  then (if 2 ^ 32 - 1 <? value f then Err too_big else Ok (Some (u32 (value f))))
  else Ok out.

Definition find_varint (unknown : list Z) (n : Z) : res (option Z) :=
  let '(fs, ok) := fields unknown in
  out ← fold_res (id_field n "base_id does not fit in 32 bits") fs None;
  if negb ok then Err "malformed base_id" else Ok out.

Definition put_base_id (unknown : list Z) (id : option Z) : list Z :=
  without_field unknown kBaseIdField ++
  match id with Some v => put_key kBaseIdField 0 ++ put_varint v | None => [] end.

(** The switch of [decode_base_path]. *)
Definition base_path_field (out : BasePath) (f : Field) : res BasePath :=
  let n := number f in
  if n =? 1 then
    if negb (wire f =? 0) || (2 ^ 32 - 1 <? value f) then Err "malformed base path id"
    else Ok (mkBasePath (u32 (value f)) (name out) (has_name out) (is_dataset_root out) (path out))
  else if n =? 2 then
    Ok (mkBasePath (id out) (string_of_bytes (field_bytes f)) true (is_dataset_root out) (path out))
  else if n =? 3 then Ok (mkBasePath (id out) (name out) (has_name out) (negb (value f =? 0)) (path out))
  else if n =? 4 then
    Ok (mkBasePath (id out) (name out) (has_name out) (is_dataset_root out) (string_of_bytes (field_bytes f)))
  else Ok out.

Definition decode_base_path (data : list Z) : res BasePath :=
  let '(fs, ok) := fields data in
  out ← fold_res base_path_field fs BasePath0;
  if negb ok then Err "malformed base path" else Ok out.

Definition manifest_base_field (out : list BasePath) (f : Field) : res (list BasePath) :=
  if negb (number f =? kManifestBasePaths) then Ok out
  else if negb (wire f =? 2) then Err "malformed base paths"
  else base ← decode_base_path (field_bytes f); Ok (out ++ [base]).

Definition read_base_paths (manifest : pb.Manifest) : res (list BasePath) :=
  let '(fs, ok) := fields (pb.mf_unknown manifest) in
  out ← fold_res manifest_base_field fs [];
  if negb ok then Err "malformed manifest base paths" else Ok out.

Definition branch_field (out : string) (f : Field) : string :=
  if (number f =? kManifestBranch) && (wire f =? 2) then string_of_bytes (field_bytes f) else out.

Definition read_manifest_branch (manifest : pb.Manifest) : res string :=
  let '(fs, ok) := fields (pb.mf_unknown manifest) in
  let out := foldl branch_field "" fs in
  if negb ok then Err "malformed manifest branch" else Ok out.

Definition encode_base_path (base : BasePath) : list Z :=
  (if negb (id base =? 0) then put_key 1 0 ++ put_varint (id base) else []) ++
  (if has_name base then put_bytes_field 2 (bytes_of_string (name base)) else []) ++
  put_u64_field 3 (if is_dataset_root base then 1 else 0) ++
  put_bytes_field 4 (bytes_of_string (path base)).

Definition write_base_paths (manifest : pb.Manifest) (bases : list BasePath) : pb.Manifest :=
  pb.set_manifest_unknown manifest
    (without_field (pb.mf_unknown manifest) kManifestBasePaths ++
     concat ((fun base => put_bytes_field kManifestBasePaths (encode_base_path base)) <$> bases)).

Definition write_manifest_branch (manifest : pb.Manifest) (branch : string) : pb.Manifest :=
  pb.set_manifest_unknown manifest
    (without_field (pb.mf_unknown manifest) kManifestBranch ++
     match branch with "" => [] | _ => put_bytes_field kManifestBranch (bytes_of_string branch) end).

Definition data_file_base_id (file : pb.DataFile) : res (option Z) := find_varint (pb.df_unknown file) kBaseIdField.

Definition set_data_file_base_id (file : pb.DataFile) (id : option Z) : pb.DataFile :=
  pb.mkDataFile (pb.df_path file) (pb.df_fields file) (pb.df_column_indices file) (pb.df_file_major_version file)
    (pb.df_file_minor_version file) (pb.df_file_size_bytes file) (put_base_id (pb.df_unknown file) id).

Definition deletion_file_base_id (file : pb.DeletionFile) : res (option Z) := find_varint (pb.del_unknown file) kBaseIdField.

Definition set_deletion_file_base_id (file : pb.DeletionFile) (id : option Z) : pb.DeletionFile :=
  pb.mkDeletionFile (pb.del_present file) (pb.del_file_type file) (pb.del_read_version file) (pb.del_id file)
    (pb.del_num_deleted_rows file) (put_base_id (pb.del_unknown file) id).

(** [index.raw] is the whole message, so the base id is field 9 of it. *)
Definition set_index_base_id_raw (raw_ : list Z) (id : option Z) : list Z :=
  without_field raw_ kIndexBaseIdField ++
  match id with Some v => put_key kIndexBaseIdField 0 ++ put_varint v | None => [] end.

Definition set_index_base_id (index : pb.IndexMetadata) (id : option Z) : pb.IndexMetadata :=
  pb.mkIndexMetadata (set_index_base_id_raw (pb.ix_raw index) id) (pb.ix_fields index) (pb.ix_name index)
    (pb.ix_dataset_version index) (pb.ix_has_fragment_bitmap index) (pb.ix_fragment_ids index)
    (pb.ix_fragment_bitmap_changed index) (pb.ix_uuid index) (pb.ix_details_type_url index)
    (pb.ix_details_value index) (pb.ix_index_version index) (pb.ix_created_at index) (pb.ix_files index).

Definition index_base_id (index : pb.IndexMetadata) : res (option Z) :=
  let '(fs, ok) := fields (pb.ix_raw index) in
  out ← fold_res (id_field kIndexBaseIdField "index base_id does not fit in 32 bits") fs None;
  if negb ok then Err "malformed index base_id" else Ok out.

(** ** Directories *)

Definition find_base (bases : list BasePath) (base_id : Z) : res BasePath :=
  match list_find (fun b => id b = base_id) bases with
  | Some (_, b) => Ok b
  | None => Err ("refers to unknown base path " +:+ pretty base_id)
  end.

(** [error = what + error]. *)
Definition prefixed {A} (what : string) (r : res A) : res A :=
  match r with Ok a => Ok a | Err e => Err (what +:+ e) end.

Definition data_file_dir (dataset_path : string) (bases : list BasePath) (file : pb.DataFile) : res string :=
  base_id ← data_file_base_id file;
  match base_id with
  | None => Ok (path_join dataset_path "data")
  | Some base_id =>
      base ← prefixed "data file " (find_base bases base_id);
      Ok (if is_dataset_root base then path_join (path base) "data" else path base)
  end.

Definition deletion_dir (dataset_path : string) (bases : list BasePath) (base_id : option Z) : res string :=
  match base_id with
  | None => Ok (path_join dataset_path "_deletions")
  | Some base_id =>
      base ← prefixed "deletion file " (find_base bases base_id);
      if negb (is_dataset_root base)
      then Err ("deletion file names base path " +:+ pretty base_id +:+ ", which is not a dataset root")
      else Ok (path_join (path base) "_deletions")
  end.

(** The overload that is given the base paths. *)
Definition deletion_file_dir_in (dataset_path : string) (bases : list BasePath) (file : pb.DeletionFile) : res string :=
  base_id ← deletion_file_base_id file;
  deletion_dir dataset_path bases base_id.

(** The overload that reads them from the manifest, only when the file names one. *)
Definition deletion_file_dir (dataset_path : string) (manifest : pb.Manifest) (file : pb.DeletionFile) : res string :=
  base_id ← deletion_file_base_id file;
  match base_id with
  | None => deletion_dir dataset_path [] base_id
  | Some _ =>
      bases ← read_base_paths manifest;
      deletion_dir dataset_path bases base_id
  end.

Definition indices_dir (dataset_path : string) (bases : list BasePath) (base_id : option Z) : res string :=
  match base_id with
  | None => Ok (path_join dataset_path "_indices")
  | Some base_id =>
      base ← prefixed "index " (find_base bases base_id);
      Ok (if is_dataset_root base then path_join (path base) "_indices" else path base)
  end.

Definition index_dir_of (dataset_path : string) (manifest : pb.Manifest) (index : pb.IndexMetadata) : res string :=
  base_id ← index_base_id index;
  bases ← match base_id with Some _ => read_base_paths manifest | None => Ok [] end;
  dir ← indices_dir dataset_path bases base_id;
  Ok (path_join dir (pb.uuid_string (pb.ix_uuid index))).

(** ** Facts *)

Definition short (s : string) : Prop := zlen (bytes_of_string s) < 2 ^ 60.

(** What a writer is given: a 32-bit id, and a name only when there is one. *)
Definition base_ok (b : BasePath) : Prop :=
  is_u32 (id b) /\ short (name b) /\ short (path b) /\ (has_name b = false -> name b = "").

Lemma put_u64_field_key n v : (if negb (v =? 0) then put_key n 0 ++ put_varint v else []) = put_u64_field n v.
Proof. unfold put_u64_field. by destruct (v =? 0). Qed.

Lemma decode_encode_base_path b :
  base_ok b -> zlen (encode_base_path b) < 2 ^ 62 /\ decode_base_path (encode_base_path b) = Ok b.
Proof.
  intros (Hid & Hn & Hp & Hnn). unfold short in *. unfold encode_base_path. rewrite put_u64_field_key. split.
  { rewrite !zlen_app. pose proof (zlen_put_u64_field 1 (id b)).
    pose proof (zlen_put_bytes_field 2 (bytes_of_string (name b))). pose proof (zlen_put_bytes_field 4 (bytes_of_string (path b))).
    pose proof (zlen_put_u64_field 3 (if is_dataset_root b then 1 else 0)).
    destruct (has_name b); [lia|]. change (zlen (@nil Z)) with 0. lia. }
  destruct b as [i nm h root p]. cbn [id name has_name is_dataset_root path] in *. unfold is_u32 in Hid.
  unfold decode_base_path, fields. rewrite fields_u64_field_opt by (unfold field_number, is_u64; lia).
  destruct (Z.eqb_spec i 0) as [->|Hi]; destruct h; rewrite ?app_nil_l;
    rewrite ?fields_bytes_field by (unfold field_number; lia);
    rewrite fields_u64_field_opt by (destruct root; unfold field_number, is_u64; lia);
    destruct root; cbn [Z.eqb]; rewrite fields_single by (unfold field_number; lia);
    cbn [fold_res]; unfold base_path_field; cbn -[string_of_bytes bytes_of_string Z.pow Z.sub];
    rewrite ?string_of_bytes_of_string, ?u32_small by (unfold is_u32; lia);
    rewrite ?Hnn by done; try done;
    (case_bool; [lia|]); cbn; by rewrite ?string_of_bytes_of_string.
Qed.

Lemma id_field_skip n too_big a f : number f ∉ [n] -> id_field n too_big a f = Ok a.
Proof. intros H. unfold id_field. by rewrite (proj2 (Z.eqb_neq (number f) n)) by (intros E; apply H; rewrite E; by left). Qed.

(** The id written into unknown bytes is the one read back, whatever was there. *)
Lemma rewritten_id n too_big u id :
  field_number n -> match id with Some v => is_u32 v | None => True end ->
  exists fs gs,
    fields (without_field u n ++ match id with Some v => put_key n 0 ++ put_varint v | None => [] end) = (fs ++ gs, true) /\
    field_key <$> fs = field_key <$> kept [n] u /\ Forall (fun f => number f ∈ [n]) gs /\
    fold_res (id_field n too_big) (fs ++ gs) None = Ok id.
Proof.
  intros Hn Hid. unfold without_field.
  destruct (fields_rewritten [n] u (match id with Some v => put_key n 0 ++ put_varint v | None => [] end)) as (fs & g & Hk & Hkeep & Hf).
  exists fs, (match id with Some v => [varint_field g n v] | None => [] end). rewrite fold_res_app.
  rewrite (fold_res_skip _ [n] fs) by (done || apply id_field_skip). cbn [mbind res_bind].
  destruct id as [v|]; [|rewrite Hf; done]. unfold is_u32 in Hid.
  rewrite fields_varint_field in Hf by (done || unfold is_u64; lia). split_and!; [done | done | |].
  - constructor; [by left | constructor].
  - cbn [fold_res]. unfold id_field. cbn [number wire value varint_field]. rewrite !Z.eqb_refl. cbn [andb].
    case_bool; [lia|]. by rewrite u32_small.
Qed.

Lemma find_varint_put u id :
  match id with Some v => is_u32 v | None => True end ->
  find_varint (put_base_id u id) kBaseIdField = Ok id /\
  without_field (put_base_id u id) kBaseIdField = without_field u kBaseIdField.
Proof.
  intros Hid. unfold find_varint, put_base_id, kBaseIdField.
  destruct (rewritten_id 7 "base_id does not fit in 32 bits" u id ltac:(unfold field_number; lia) Hid) as (fs & gs & Hf & Hk & Hg & Hr).
  split; [by rewrite Hf, Hr | by eapply without_fields_appended].
Qed.

(** the base id set on a data file, a deletion file or an index is the one read back,
    also when it is 0 or is being removed, and no other unknown field of the message is touched. *)
Theorem base_id_roundtrip data_file deletion_file index id :
  match id with Some v => is_u32 v | None => True end ->
  data_file_base_id (set_data_file_base_id data_file id) = Ok id /\
  deletion_file_base_id (set_deletion_file_base_id deletion_file id) = Ok id /\
  index_base_id (set_index_base_id index id) = Ok id /\
  without_field (pb.df_unknown (set_data_file_base_id data_file id)) kBaseIdField
    = without_field (pb.df_unknown data_file) kBaseIdField /\
  without_field (pb.ix_raw (set_index_base_id index id)) kIndexBaseIdField
    = without_field (pb.ix_raw index) kIndexBaseIdField.
Proof.
  intros Hid.
  destruct (rewritten_id 9 "index base_id does not fit in 32 bits" (pb.ix_raw index) id ltac:(unfold field_number; lia) Hid)
    as (fs & gs & Hf & Hk & Hg & Hr).
  split_and!.
  - by apply find_varint_put.
  - by apply find_varint_put.
  - unfold index_base_id, set_index_base_id, set_index_base_id_raw, kIndexBaseIdField. cbn [pb.ix_raw]. by rewrite Hf, Hr.
  - by apply find_varint_put.
  - by eapply without_fields_appended.
Qed.

Lemma base_id_roundtrip_witness :
  data_file_base_id (set_data_file_base_id (pb.mkDataFile "a.lance" [] [] 2 0 9 (put_u64_field 7 3)) (Some 0)) = Ok (Some 0).
Proof.
  apply (base_id_roundtrip (pb.mkDataFile "a.lance" [] [] 2 0 9 (put_u64_field 7 3)) pb.no_deletion_file
    (pb.mkIndexMetadata [] [] "i" 0 false [] false [] "" [] 0 0 []) (Some 0)).
  cbn. unfold is_u32. lia.
Defined.

(** ** Base paths and branch *)

Lemma manifest_base_field_key a f : manifest_base_field a (field_key f) = manifest_base_field a f.
Proof.
  unfold manifest_base_field, field_key, field_bytes. cbn [number wire value data]. case_bool; [done|].
  destruct (Z.eqb_spec (wire f) 2) as [->|]; done.
Qed.

Lemma branch_field_key a f : branch_field a (field_key f) = branch_field a f.
Proof.
  unfold branch_field, field_key, field_bytes. cbn. destruct (Z.eqb_spec (wire f) 2) as [->|]; [done|].
  by rewrite !andb_false_r.
Qed.

Lemma written_bases g bases acc :
  Forall base_ok bases ->
  exists gs, fields_from g (concat ((fun base => put_bytes_field kManifestBasePaths (encode_base_path base)) <$> bases)) = (gs, true) /\
    Forall (fun f => number f ∈ [kManifestBasePaths]) gs /\
    fold_res manifest_base_field gs acc = Ok (acc ++ bases).
Proof.
  intros H. revert g acc. induction H as [|b bases Hb H IH]; intros g acc.
  { exists []. split_and!; [done | constructor | by rewrite app_nil_r]. }
  rewrite fmap_cons. cbn [concat]. destruct (decode_encode_base_path b Hb) as [Hl Hd].
  rewrite fields_bytes_field by (unfold field_number, kManifestBasePaths; lia).
  destruct (IH (bytes_field g kManifestBasePaths (encode_base_path b)) (acc ++ [b])) as (gs & -> & Hin & Hr).
  eexists. split; [reflexivity|]. split; [constructor; [by left | done]|]. cbn [fold_res].
  assert (manifest_base_field acc (bytes_field g kManifestBasePaths (encode_base_path b)) = Ok (acc ++ [b])) as ->.
  { unfold manifest_base_field. cbn [number wire bytes_field]. rewrite !Z.eqb_refl. cbn [negb].
    change (field_bytes (bytes_field g kManifestBasePaths (encode_base_path b))) with (encode_base_path b). by rewrite Hd. }
  cbn [mbind res_bind]. by rewrite Hr, <- app_assoc.
Qed.

(** writing a manifest's base paths and reading them gives them back, in order; the
    branch and every other unknown field stay. *)
Theorem base_paths_roundtrip manifest bases :
  Forall base_ok bases -> (fields (pb.mf_unknown manifest)).2 = true ->
  read_base_paths (write_base_paths manifest bases) = Ok bases /\
  read_manifest_branch (write_base_paths manifest bases) = read_manifest_branch manifest /\
  without_field (pb.mf_unknown (write_base_paths manifest bases)) kManifestBasePaths
    = without_field (pb.mf_unknown manifest) kManifestBasePaths.
Proof.
  intros Hb Hok. unfold read_base_paths, read_manifest_branch, write_base_paths, without_field. cbn [pb.mf_unknown pb.set_manifest_unknown].
  set (rest := concat _). destruct (fields_rewritten [kManifestBasePaths] (pb.mf_unknown manifest) rest) as (fs & g & Hk & Hkeep & Hf).
  destruct (written_bases g bases [] Hb) as (gs & Hg & Hin & Hr). fold rest in Hg. rewrite Hg in Hf. split_and!.
  - rewrite Hf, fold_res_app, (fold_res_skip _ [kManifestBasePaths] fs); [cbn [mbind res_bind]; by rewrite Hr | | done].
    intros a f Hn. unfold manifest_base_field. by rewrite (proj2 (Z.eqb_neq (number f) kManifestBasePaths)) by (intros E; apply Hn; rewrite E; by left).
  - rewrite Hf. destruct (fields (pb.mf_unknown manifest)) as [us ok] eqn:Eu. cbn in Hok. subst ok. cbn [negb]. f_equal.
    assert (forall a f, number f ∈ [kManifestBasePaths] -> branch_field a f = a) as Hd.
    { intros a f Hn%list_elem_of_singleton. unfold branch_field. by rewrite Hn. }
    rewrite foldl_app, (foldl_rewritten branch_field [kManifestBasePaths] (pb.mf_unknown manifest) fs) by (done || apply branch_field_key).
    rewrite Eu. cbn [fst]. generalize (foldl branch_field "" us). clear -Hin Hd.
    induction Hin as [|f gs Hf Hin IH]; intros a; [done|]. cbn. by rewrite Hd.
  - by eapply without_fields_appended.
Qed.

Lemma base_paths_roundtrip_witness :
  let m := pb.set_manifest_unknown pb.Manifest0 (put_bytes_field 20 (bytes_of_string "dev") ++ put_bytes_field 18 [8; 1]) in
  let bases := [mkBasePath 0 "" false true "/data/a"; mkBasePath 7 "x" true false "/data/b"] in
  read_base_paths (write_base_paths m bases) = Ok bases /\ read_manifest_branch (write_base_paths m bases) = Ok "dev".
Proof.
  intros m bases. destruct (base_paths_roundtrip m bases) as (H1 & H2 & _).
  - unfold bases, base_ok, short, is_u32. repeat constructor; cbn; try congruence; by vm_compute.
  - by vm_compute.
  - split; [exact H1|]. rewrite H2. vm_compute. reflexivity.
Defined.

(** where a deletion file is looked up: in the dataset's own [_deletions] directory
    when it names no base path, in the one of the base path it names when that is a dataset root, and
    refused with an error otherwise (no such base path, or one that is no dataset root). *)
Theorem deletion_file_dir_spec dataset_path manifest file base_id bases :
  deletion_file_base_id file = Ok base_id -> read_base_paths manifest = Ok bases ->
  deletion_file_dir dataset_path manifest file = deletion_file_dir_in dataset_path bases file /\
  deletion_file_dir dataset_path manifest file =
    match base_id with
    | None => Ok (path_join dataset_path "_deletions")
    | Some v =>
        match list_find (fun b => id b = v) bases with
        | None => Err ("deletion file refers to unknown base path " +:+ pretty v)
        | Some (_, b) =>
            if is_dataset_root b then Ok (path_join (path b) "_deletions")
            else Err ("deletion file names base path " +:+ pretty v +:+ ", which is not a dataset root")
        end
    end.
Proof.
  intros Hb Hm. unfold deletion_file_dir, deletion_file_dir_in. rewrite Hb. cbn [mbind res_bind].
  destruct base_id as [v|]; [|done]. rewrite Hm. cbn [mbind res_bind]. split; [done|].
  unfold deletion_dir, find_base. destruct (list_find _ bases) as [[i b]|]; cbn; [|done]. by destruct (is_dataset_root b).
Qed.

Lemma deletion_file_dir_spec_witness :
  let m := write_base_paths pb.Manifest0 [mkBasePath 4 "" false true "s3://b/x"] in
  let f := set_deletion_file_base_id pb.no_deletion_file (Some 4) in
  deletion_file_dir "/ds" m f = Ok "s3://b/x/_deletions".
Proof.
  intros m f. destruct (deletion_file_dir_spec "/ds" m f (Some 4) [mkBasePath 4 "" false true "s3://b/x"]) as [_ H].
  - vm_compute. reflexivity.
  - vm_compute. reflexivity.
  - rewrite H. vm_compute. reflexivity.
Defined.

End BasePaths.
