(* ===== verification/DeletionVector.v ===== *)
(** * DeletionVector: a fragment's deleted row offsets (src/table/deletion_vector.cpp)

    The two file formats, the budget that bounds what a hostile file can expand to, and the reader that
    checks the result against the manifest. zstd is outside the repository: its two functions are
    parameters. Offsets into the file are sums of a position in the buffer and numbers below 2^33, so no
    [size_t] sum here wraps for a buffer memory can hold. *)

From S2P Require Import Prelude ReadSafety ProtoWire Pb BasePaths Roaring.

Module DeletionVector.

(** ** Bounds-checked little-endian readers *)

(** The [n] bytes of [b] at offset [at_]. *)
Definition slice (b : list Z) (at_ n : Z) : list Z := take (Z.to_nat n) (drop (Z.to_nat at_) b).

Definition read_u16 (b : list Z) (at_ : Z) : option Z :=
  if zlen b <? at_ + 2 then None
  else match slice b at_ 2 with
       | b0 :: b1 :: _ => Some (u16 (Z.lor b0 (Z.shiftl b1 8)))
       | _ => None
       end.

Definition read_u32 (b : list Z) (at_ : Z) : option Z :=
  if zlen b <? at_ + 4 then None
  else match slice b at_ 4 with
       | b0 :: b1 :: b2 :: b3 :: _ =>
           Some (Z.lor (Z.lor (Z.lor b0 (Z.shiftl b1 8)) (Z.shiftl b2 16)) (Z.shiftl b3 24))
       | _ => None
       end.

(** [std::memcpy] of the bits into a signed integer of [w] bits. *)
Definition to_signed (w v : Z) : Z := if 2 ^ (w - 1) <=? v then v - 2 ^ w else v.

Definition read_i32 (b : list Z) (at_ : Z) : option Z := to_signed 32 <$> read_u32 b at_.

Definition read_i64 (b : list Z) (at_ : Z) : option Z :=
  if zlen b <? at_ + 8 then None else Some (to_signed 64 (le_value (slice b at_ 8))).

(** ** Flatbuffers *)

Definition flatbuffer_byte (b : list Z) (at_ fallback : Z) : option Z :=
  if at_ =? 0 then Some fallback
  else if zlen b <=? at_ then None
  else Some (nth (Z.to_nat at_) b 0).

(** The absolute offset of a field, 0 when it is absent; [None] when the table is malformed. *)
Definition flatbuffer_field (b : list Z) (table field_id : Z) : option Z :=
  vtable_delta ← read_i32 b table;
  let vtable := table - vtable_delta in
  if (vtable <? 0) || (zlen b <? vtable) then None
  else
    vtable_bytes ← read_u16 b vtable;
    if vtable_bytes <? 4 then None
    else
      let slot := 4 + field_id * 2 in
      if vtable_bytes <? slot + 2 then Some 0
      else
        field_offset ← read_u16 b (vtable + slot);
        if field_offset =? 0 then Some 0
        else if table + field_offset <? zlen b then Some (table + field_offset) else None.

Definition flatbuffer_indirect (b : list Z) (at_ : Z) : option Z :=
  delta ← read_u32 b at_;
  if at_ + delta <=? zlen b then Some (at_ + delta) else None.

Definition kArrowIpcAlignment : Z := 8.
Definition kIpcContinuation : Z := 4294967295.
Definition kCompressionZstd : Z := 1.

(** [ZSTD_getFrameContentSize]: an error, no size in the frame, or the size. *)
Inductive frame_content := ContentError | ContentUnknown | ContentSize (n : Z).

Section arrow.
  (** zstd: the frame's declared content size, and its decompression into a buffer of a given size
      ([None] for an error). *)
  Context (ZSTD_getFrameContentSize : list Z -> frame_content).
  Context (ZSTD_decompress : Z -> list Z -> option (list Z)).

Definition materialize_ipc_buffer (body : list Z) (offset length_ : Z) (compressed : bool) (max_bytes : Z) : res (list Z) :=
  if (zlen body <? offset) || (zlen body - offset <? length_)
  then Err "deletion file buffer runs past the message body"
  else if negb compressed then Ok (slice body offset length_)
  else if length_ =? 0 then Ok []
  else if length_ <? 8 then Err "deletion file buffer is too short for its compression prefix"
  else
    match read_i64 body offset with
    | None => Err "deletion file buffer is too short for its compression prefix"
    | Some uncompressed =>
        let payload := slice body (offset + 8) (length_ - 8) in
        if uncompressed <? 0 then Ok payload
        else if u64 ((length_ - 8) * kZstdMaxExpansion) <? uncompressed
        then Err "deletion file declares more uncompressed bytes than its zstd frame can produce"
        else if max_bytes <? uncompressed then Err "deletion file declares an implausible uncompressed size"
        else
          match ZSTD_getFrameContentSize payload with
          | ContentError => Err "deletion file buffer is not a valid zstd frame"
          | ContentUnknown => Err "deletion file buffer's zstd frame declares no content size"
          | ContentSize content =>
              if negb (content =? uncompressed)
              then Err ("deletion file buffer's zstd frame holds " +:+ pretty content +:+
                        " bytes but its Arrow prefix declares " +:+ pretty uncompressed)
              else
                match ZSTD_decompress uncompressed payload with
                | Some out => if zlen out =? uncompressed then Ok out else Err "failed to decompress a deletion file buffer"
                | None => Err "failed to decompress a deletion file buffer"
                end
          end
    end.

(** ** The Arrow IPC file *)

Definition kMagic : list Z := [65; 82; 82; 79; 87; 49; 0; 0].

(** An [error] message for a step that returned [false]. *)
Definition require {A} (error : string) (o : option A) : res A :=
  match o with Some a => Ok a | None => Err error end.

(** Skipping the zero padding after the magic, eight bytes at a time. *)
Fixpoint skip_padding (fuel : nat) (bytes : list Z) (pos : Z) : res Z :=
  match fuel with
  | O => Ok pos
  | S fuel =>
      if pos + 8 <=? zlen bytes then
        match read_u32 bytes pos with
        | None => Ok pos
        | Some peek =>
            if peek =? kIpcContinuation then Ok pos
            else if negb (peek =? 0) then Err "unexpected bytes between the Arrow IPC magic and its first message"
            else skip_padding fuel bytes (pos + 8)
        end
      else Ok pos
  end.

Definition codec_of (bytes : list Z) (record_batch : Z) : res bool :=
  compression_at ← require "malformed Arrow IPC compression" (flatbuffer_field bytes record_batch 3);
  if compression_at =? 0 then Ok false
  else
    compression ← require "malformed Arrow IPC compression" (flatbuffer_indirect bytes compression_at);
    codec_at ← require "malformed Arrow IPC compression codec" (flatbuffer_field bytes compression 0);
    codec_byte ← require "malformed Arrow IPC compression codec" (flatbuffer_byte bytes codec_at 0);
    if negb (to_signed 8 codec_byte =? kCompressionZstd)
    then Err "deletion file uses an Arrow IPC compression codec nanolance does not read"
    else Ok true.

Definition batch_rows (bytes : list Z) (record_batch : Z) : res Z :=
  let malformed := "malformed Arrow IPC record batch length" in
  length_at ← require malformed (flatbuffer_field bytes record_batch 0);
  rows ← (if negb (length_at =? 0) then require malformed (read_i64 bytes length_at) else Ok 0);
  if rows <? 0 then Err malformed else Ok rows.

(** The offset and length of the values buffer, the second of the batch. *)
Definition values_buffer (bytes : list Z) (record_batch : Z) : res (Z * Z) :=
  buffers_at ← require "Arrow IPC record batch has no buffers" (flatbuffer_field bytes record_batch 2);
  if buffers_at =? 0 then Err "Arrow IPC record batch has no buffers"
  else
    buffers ← require "malformed Arrow IPC buffer vector" (flatbuffer_indirect bytes buffers_at);
    let shape := "Arrow IPC record batch does not look like one uint32 column" in
    buffer_count ← require shape (read_u32 bytes buffers);
    if buffer_count <? 2 then Err shape
    else
      let values_entry := buffers + 4 + 16 in
      let malformed := "malformed Arrow IPC values buffer descriptor" in
      values_offset ← require malformed (read_i64 bytes values_entry);
      values_length ← require malformed (read_i64 bytes (values_entry + 8));
      if (values_offset <? 0) || (values_length <? 0) then Err malformed else Ok (values_offset, values_length).

(** The [rows] values at the start of a buffer, four bytes each. *)
Fixpoint load_values (n : nat) (values : list Z) : list Z :=
  match n with
  | O => []
  | S n => load_le 4 values :: load_values n (drop 4 values)
  end.

Definition value_budget (limits : ReadLimits) (max_values : Z) : Z :=
  if negb (max_values =? 0) then max_values else max_uncompressed_bytes limits / 4.

Definition parse_record_batch (limits : ReadLimits) (bytes : list Z) (message padded_metadata body_length max_values : Z)
    : res (list Z) :=
  let malformed := "malformed Arrow IPC record batch" in
  header_at ← require malformed (flatbuffer_field bytes message 2);
  if header_at =? 0 then Err malformed
  else
    record_batch ← require malformed (flatbuffer_indirect bytes header_at);
    rows ← batch_rows bytes record_batch;
    compressed ← codec_of bytes record_batch;
    '(values_offset, values_length) ← values_buffer bytes record_batch;
    let body := slice bytes padded_metadata body_length in
    budget_bytes ← require "deletion file value budget overflows" (checked_mul (value_budget limits max_values) 4);
    values ← materialize_ipc_buffer body values_offset values_length compressed budget_bytes;
    let short := "Arrow IPC values buffer is shorter than its row count" in
    needed_bytes ← require short (checked_mul rows 4);
    if (zlen values <? needed_bytes) || negb (fits_size_t rows) then Err short
    else Ok (load_values (Z.to_nat rows) values).

(** The header of the message at [pos]: its metadata's offset and length, [message], the header type,
    the padded end of the metadata and the body's length. *)
Definition message_header (bytes : list Z) (pos metadata_len : Z) : res (Z * Z * Z * Z) :=
  let metadata_at := pos + 8 in
  if zlen bytes - metadata_at <? metadata_len then Err "Arrow IPC message header runs past the file"
  else
    message ← require "malformed Arrow IPC message" (flatbuffer_indirect bytes metadata_at);
    header_type_at ← require "malformed Arrow IPC message header" (flatbuffer_field bytes message 1);
    header_type ← require "malformed Arrow IPC message header" (flatbuffer_byte bytes header_type_at 0);
    body_length_at ← require "malformed Arrow IPC body length" (flatbuffer_field bytes message 3);
    body_length ← (if negb (body_length_at =? 0)
                   then require "malformed Arrow IPC body length" (read_i64 bytes body_length_at) else Ok 0);
    if body_length <? 0 then Err "negative Arrow IPC body length"
    else
      let padded_metadata :=
        Z.land (metadata_at + metadata_len + kArrowIpcAlignment - 1) (Z.lnot (kArrowIpcAlignment - 1)) in
      if (zlen bytes <? padded_metadata) || (zlen bytes - padded_metadata <? body_length)
      then Err "Arrow IPC message body runs past the file"
      else Ok (message, header_type, padded_metadata, body_length).

(** The loop over the messages; each takes at least eight bytes. *)
Fixpoint parse_messages (fuel : nat) (limits : ReadLimits) (bytes : list Z) (pos max_values : Z) : res (list Z) :=
  match fuel with
  | O => Err "Arrow IPC file holds no record batch"
  | S fuel =>
      if pos + 8 <=? zlen bytes then
        continuation ← require "truncated Arrow IPC message" (read_u32 bytes pos);
        if negb (continuation =? kIpcContinuation) then Err "Arrow IPC file holds no record batch"
        else
          metadata_len ← require "truncated Arrow IPC message header" (read_u32 bytes (pos + 4));
          if metadata_len =? 0 then Err "Arrow IPC file holds no record batch"
          else
            '(message, header_type, padded_metadata, body_length) ← message_header bytes pos metadata_len;
            if header_type =? 3 then parse_record_batch limits bytes message padded_metadata body_length max_values
            else parse_messages fuel limits bytes (padded_metadata + body_length) max_values
      else Err "Arrow IPC file holds no record batch"
  end.

Definition parse_arrow_ipc_uint32_column (limits : ReadLimits) (bytes : list Z) (max_values : Z) : res (list Z) :=
  if (zlen bytes <? zlen kMagic) || negb (bool_decide (take 8 bytes = kMagic))
  then Err "deletion file is not an Arrow IPC file"
  else
    pos ← skip_padding (length bytes) bytes (zlen kMagic);
    parse_messages (length bytes) limits bytes pos max_values.

End arrow.

(** ** The Roaring bitmap file

    [pos] is the list of the bytes from it to the end. *)

Definition kOverBudget : string := "deletion bitmap expands past the read budget".
Definition kCookieWithRuns : Z := 12347.
Definition kCookieNoRuns : Z := 12346.
Definition kNoOffsetThreshold : Z := 4.
Definition kBitmapContainerBytes : Z := 8192.

(** The cookie: [has_runs], the container count and the run flags. *)
Definition parse_cookie (bytes : list Z) : res (bool * Z * list Z * list Z) :=
  match read_u32 bytes 0 with
  | None => Err "deletion bitmap is truncated"
  | Some cookie =>
      let pos := drop 4 bytes in
      if Z.land cookie 65535 =? kCookieWithRuns then
        let container_count := Z.land (Z.shiftr cookie 16) 65535 + 1 in
        let flag_bytes := (container_count + 7) / 8 in
        if zlen pos <? flag_bytes then Err "deletion bitmap run header is truncated"
        else Ok (true, container_count, take (Z.to_nat flag_bytes) pos, drop (Z.to_nat flag_bytes) pos)
      else if cookie =? kCookieNoRuns then
        match read_u32 pos 0 with
        | None => Err "deletion bitmap is truncated"
        | Some container_count => Ok (false, container_count, [], drop 4 pos)
        end
      else Err "deletion bitmap has an unrecognized cookie"
  end.

(** The [n] descriptors (key and cardinality) at [pos]. *)
Fixpoint parse_descriptors (n : nat) (pos : list Z) : res (list (Z * Z) * list Z) :=
  match n with
  | O => Ok ([], pos)
  | S n =>
      match read_u16 pos 0, read_u16 pos 2 with
      | Some key, Some cardinality_minus_one =>
          '(ds, pos) ← parse_descriptors n (drop 4 pos);
          Ok ((key, cardinality_minus_one + 1) :: ds, pos)
      | _, _ => Err "deletion bitmap descriptor header is truncated"
      end
  end.

(** The runs of a run container; [have] values are out already. *)
Fixpoint parse_runs (n : nat) (base budget have : Z) (pos : list Z) : res (list Z * list Z) :=
  match n with
  | O => Ok ([], pos)
  | S n =>
      match read_u16 pos 0, read_u16 pos 2 with
      | Some start, Some length_minus_one =>
          if negb (have + (length_minus_one + 1) <=? budget) then Err kOverBudget
          else
            '(vs, pos) ← parse_runs n base budget (have + (length_minus_one + 1)) (drop 4 pos);
            Ok ((Z.lor base <$> seqZ start (length_minus_one + 1)) ++ vs, pos)
      | _, _ => Err "deletion bitmap run container is truncated"
      end
  end.

Definition popcount (b : Z) : Z := zlen (filter (fun i => Z.testbit b i = true) (seqZ 0 8)).

(** The [n] values of an array container. *)
Fixpoint parse_array (n : nat) (base : Z) (pos : list Z) : res (list Z) :=
  match n with
  | O => Ok []
  | S n =>
      match read_u16 pos 0 with
      | Some value => vs ← parse_array n base (drop 2 pos); Ok (Z.lor base value :: vs)
      | None => Err "deletion bitmap array container is truncated"
      end
  end.

Definition parse_container (is_run : bool) (base cardinality budget have : Z) (pos : list Z) : res (list Z * list Z) :=
  if is_run then
    match read_u16 pos 0 with
    | None => Err "deletion bitmap run container is truncated"
    | Some run_count =>
        '(vs, pos) ← parse_runs (Z.to_nat run_count) base budget have (drop 2 pos);
        if negb (zlen vs =? cardinality)
        then Err ("deletion bitmap run container holds " +:+ pretty (zlen vs) +:+
                  " values but its header declares " +:+ pretty cardinality)
        else Ok (vs, pos)
    end
  else if 4096 <? cardinality then
    if zlen pos <? kBitmapContainerBytes then Err "deletion bitmap container is truncated"
    else
      let bits := take (Z.to_nat kBitmapContainerBytes) pos in
      let set_bits := foldl (fun n b => u32 (n + popcount b)) 0 bits in
      if negb (set_bits =? cardinality)
      then Err ("deletion bitmap container holds " +:+ pretty set_bits +:+
                " values but its header declares " +:+ pretty cardinality)
      else if negb (have + set_bits <=? budget) then Err kOverBudget
      else
        Ok (Z.lor base <$> filter (fun bit => Roaring.bit_at pos bit = true) (seqZ 0 65536),
            drop (Z.to_nat kBitmapContainerBytes) pos)
  else
    let needed := cardinality * 2 in
    if zlen pos <? needed then Err "deletion bitmap array container is truncated"
    else if negb (have + cardinality <=? budget) then Err kOverBudget
    else
      vs ← parse_array (Z.to_nat cardinality) base pos;
      Ok (vs, drop (Z.to_nat needed) pos).

(** The containers from index [i] on; [out] is what the ones before gave. *)
Fixpoint parse_containers (i : Z) (has_runs : bool) (run_flags : list Z) (budget : Z) (ds : list (Z * Z))
    (out pos : list Z) : res (list Z) :=
  match ds with
  | [] => Ok out
  | (key, cardinality) :: ds =>
      let base := Z.shiftl key 16 in
      let is_run := has_runs && Roaring.bit_at run_flags i in
      '(vs, pos) ← parse_container is_run base cardinality budget (zlen out) pos;
      parse_containers (i + 1) has_runs run_flags budget ds (out ++ vs) pos
  end.

Definition parse_roaring_bitmap (limits : ReadLimits) (bytes : list Z) (max_values : Z) : res (list Z) :=
  '(has_runs, container_count, run_flags, pos) ← parse_cookie bytes;
  if 65536 <? container_count then Err "deletion bitmap declares an implausible container count"
  else
    '(descriptors, pos) ← parse_descriptors (Z.to_nat container_count) pos;
    let offset_bytes := container_count * 4 in
    let has_offsets := negb has_runs || (kNoOffsetThreshold <=? container_count) in
    if has_offsets && (zlen pos <? offset_bytes) then Err "deletion bitmap offset header is truncated"
    else
      let pos := if has_offsets then drop (Z.to_nat offset_bytes) pos else pos in
      let budget := value_budget limits max_values in
      let declared_total := foldl (fun n d => u64 (n + d.2)) 0 descriptors in
      if budget <? declared_total then Err kOverBudget
      else
        out ← parse_containers 0 has_runs run_flags budget descriptors [] pos;
        Ok (sort_unique out).

(** ** Reading a deletion file *)

(** What opening and reading a path of the storage gives. *)
Inductive file := NoFile | Unreadable | Bytes (bytes : list Z).

Section reader.
  Context (ZSTD_getFrameContentSize : list Z -> frame_content).
  Context (ZSTD_decompress : Z -> list Z -> option (list Z)).
  Context (storage : string -> file).

Definition deletion_file_name (fragment_id : Z) (f : pb.DeletionFile) : string :=
  pretty fragment_id +:+ "-" +:+ pretty (pb.del_read_version f) +:+ "-" +:+ pretty (pb.del_id f) +:+
  (if pb.del_file_type f =? 1 then ".bin" else ".arrow").

Definition read_deletion_vector (limits : ReadLimits) (deletions_dir : string) (fragment_id : Z) (f : pb.DeletionFile)
    : res (list Z) :=
  if negb (pb.del_present f) then Ok []
  else
    let name := deletion_file_name fragment_id f in
    match storage (path_join deletions_dir name) with
    | NoFile => Err ("failed to open deletion file " +:+ name)
    | Unreadable => Err ("failed to read deletion file " +:+ name)
    | Bytes bytes =>
        offsets ←
          (if pb.del_file_type f =? 1 then parse_roaring_bitmap limits bytes (pb.del_num_deleted_rows f)
           else sort_unique <$> parse_arrow_ipc_uint32_column ZSTD_getFrameContentSize ZSTD_decompress
                  limits bytes (pb.del_num_deleted_rows f));
        if negb (pb.del_num_deleted_rows f =? 0) && negb (zlen offsets =? pb.del_num_deleted_rows f)
        then Err ("deletion file holds " +:+ pretty (zlen offsets) +:+ " offsets but the manifest claims "
                  +:+ pretty (pb.del_num_deleted_rows f))
        else Ok offsets
    end.

Definition read_manifest_deletion_vector (limits : ReadLimits) (dataset_path : string) (manifest : pb.Manifest)
    (fragment_id : Z) (f : pb.DeletionFile) : res (list Z) :=
  deletions_dir ← BasePaths.deletion_file_dir dataset_path manifest f;
  read_deletion_vector limits deletions_dir fragment_id f.

End reader.

(** ** The Roaring parser *)

Lemma count_fmap (P : Z -> Prop) `{!forall x, Decision (P x)} (f : Z -> Z) l :
  zlen (filter P (f <$> l)) = zlen (filter (fun x => P (f x)) l).
Proof.
  induction l as [|x l IH]; [done|]. rewrite fmap_cons, !filter_cons. case_decide; [|done]. by rewrite !zlen_cons, IH.
Qed.

Lemma count_ext (P Q : Z -> Prop) `{!forall x, Decision (P x)} `{!forall x, Decision (Q x)} (l : list Z) :
  (forall x, x ∈ l -> P x <-> Q x) -> filter P l = filter Q l.
Proof.
  induction l as [|x l IH]; intros Hpq; [done|]. rewrite !filter_cons, IH by (intros; apply Hpq; by right).
  pose proof (Hpq x ltac:(by left)). repeat case_decide; tauto.
Qed.

(** The bits of a byte string, counted byte by byte. *)
Fixpoint bit_count (bits : list Z) : Z := match bits with [] => 0 | b :: bits => popcount b + bit_count bits end.

Lemma bit_at_cons b bits v : 0 <= v -> Roaring.bit_at (b :: bits) (8 + v) = Roaring.bit_at bits v.
Proof.
  intros Hv. unfold Roaring.bit_at. replace ((8 + v) / 8) with (1 + v / 8) by dlia.
  replace ((8 + v) mod 8) with (v mod 8) by dlia. replace (Z.to_nat (1 + v / 8)) with (S (Z.to_nat (v / 8))) by dlia. done.
Qed.

Lemma bit_count_filter bits :
  zlen (filter (fun v => Roaring.bit_at bits v = true) (seqZ 0 (8 * zlen bits))) = bit_count bits.
Proof.
  induction bits as [|b bits IH]; [done|]. pose proof (zlen_nonneg bits). rewrite zlen_cons.
  replace (8 * (1 + zlen bits)) with (8 + 8 * zlen bits) by lia. rewrite seqZ_app by lia.
  rewrite filter_app, zlen_app. cbn [bit_count]. f_equal.
  - unfold popcount. f_equal. apply count_ext. intros x Hx%elem_of_seqZ. rewrite Roaring.bit_at_testbit by lia.
    rewrite Z.div_small, Z.mod_small by lia. done.
  - replace (0 + 8) with (8 + 0) by lia. rewrite <- fmap_add_seqZ, count_fmap, <- IH. f_equal. apply count_ext.
    intros x Hx%elem_of_seqZ. rewrite bit_at_cons by lia. done.
Qed.

Lemma popcount_range b : 0 <= popcount b <= 8.
Proof.
  unfold popcount. pose proof (length_filter (fun i => Z.testbit b i = true) (seqZ 0 8)) as H. rewrite length_seqZ in H.
  unfold zlen. lia.
Qed.

Lemma bit_count_range bits : 0 <= bit_count bits <= 8 * zlen bits.
Proof.
  induction bits as [|b bits IH]; cbn [bit_count]; [done|]. pose proof (popcount_range b). rewrite zlen_cons. lia.
Qed.

Lemma foldl_popcount bits n :
  0 <= n -> n + 8 * zlen bits < 2 ^ 32 -> foldl (fun n b => u32 (n + popcount b)) n bits = n + bit_count bits.
Proof.
  revert n. induction bits as [|b bits IH]; intros n Hn Hl; cbn [foldl bit_count]; [lia|]. rewrite zlen_cons in Hl.
  pose proof (popcount_range b). pose proof (zlen_nonneg bits).
  rewrite u32_small by (unfold is_u32; lia). rewrite IH by lia. lia.
Qed.

(** What the bitmap container's count says of its values. *)
Lemma bitmap_values_length pos base :
  kBitmapContainerBytes <= zlen pos ->
  zlen (Z.lor base <$> filter (fun bit => Roaring.bit_at pos bit = true) (seqZ 0 65536))
  = foldl (fun n b => u32 (n + popcount b)) 0 (take (Z.to_nat kBitmapContainerBytes) pos).
Proof.
  intros Hl. unfold kBitmapContainerBytes in *. set (bits := take _ pos).
  assert (zlen bits = 8192) as Hb by (unfold bits, zlen in *; rewrite length_take; lia).
  rewrite foldl_popcount by lia. rewrite <- (bit_count_filter bits), Hb. unfold zlen. rewrite length_fmap.
  change (8 * 8192) with 65536. rewrite Z.add_0_l. do 2 f_equal. apply count_ext. intros v Hv%elem_of_seqZ. unfold Roaring.bit_at, bits.
  rewrite (nth_lookup (take _ pos)), lookup_take_lt, <- nth_lookup by dlia. done.
Qed.

Lemma parse_runs_bound n base budget have pos vs rest :
  parse_runs n base budget have pos = Ok (vs, rest) -> have <= budget -> have + zlen vs <= budget.
Proof.
  revert have pos vs. induction n as [|n IH]; intros have pos vs; cbn [parse_runs].
  { intros [= <- <-]. unfold zlen. simpl. lia. }
  destruct (read_u16 pos 0) as [start|]; [|done]. destruct (read_u16 pos 2) as [len|] eqn:El; [|done].
  case_bool; [done|]. destruct (parse_runs n base budget (have + (len + 1)) (drop 4 pos)) as [[vs' rest']|e] eqn:Er; [|done].
  cbn. intros [= <- <-] Hh. apply IH in Er; [|lia]. rewrite zlen_app. unfold zlen at 1. rewrite length_fmap, length_seqZ.
  assert (0 <= len); [|lia]. unfold read_u16 in El. case_hyp El. destruct (slice pos 2 2) as [|b0 [|b1 ?]]; try done.
  injection El as <-. apply u16_range.
Qed.

Lemma parse_array_length n base pos vs : parse_array n base pos = Ok vs -> zlen vs = Z.of_nat n.
Proof.
  revert pos vs. induction n as [|n IH]; intros pos vs; cbn [parse_array]; [by intros [= <-]|].
  destruct (read_u16 pos 0); [|done]. destruct (parse_array n base (drop 2 pos)) as [vs'|] eqn:E; [|done].
  cbn. intros [= <-]. rewrite zlen_cons. apply IH in E. lia.
Qed.

Lemma parse_container_bound is_run base cardinality budget have pos vs rest :
  parse_container is_run base cardinality budget have pos = Ok (vs, rest) -> 0 <= cardinality -> have <= budget ->
  have + zlen vs <= budget.
Proof.
  unfold parse_container. intros H Hc Hh. destruct is_run; [|case_hyp H].
  - case_hyp H. destruct (parse_runs _ _ _ _ _) as [[vs' rest']|] eqn:E2; [|done]. cbn in H. case_hyp H.
    injection H as <- <-. by eapply parse_runs_bound.
  - case_hyp H. cbn zeta in H. repeat case_hyp H. injection H as <- <-.
    rewrite bitmap_values_length by done. lia.
  - cbn zeta in H. repeat case_hyp H. destruct (parse_array _ _ _) as [vs'|] eqn:Ea; [|done]. cbn in H. injection H as <- <-.
    apply parse_array_length in Ea. lia.
Qed.

Lemma parse_containers_bound i has_runs flags budget ds out pos vs :
  parse_containers i has_runs flags budget ds out pos = Ok vs -> Forall (fun d => 0 <= d.2) ds -> zlen out <= budget ->
  zlen vs <= budget.
Proof.
  intros H Hd. revert i out pos H. induction Hd as [|[key card] ds Hc Hd IH]; intros i out pos; cbn [parse_containers].
  { by intros [= <-]. }
  destruct (parse_container _ _ _ _ _ _) as [[vs' rest]|] eqn:E; [|done]. cbn. intros H Hl. eapply IH; [exact H|].
  rewrite zlen_app. by eapply parse_container_bound in E.
Qed.

Lemma parse_descriptors_range n pos ds rest :
  parse_descriptors n pos = Ok (ds, rest) -> Forall (fun d => is_u16 d.1 /\ 1 <= d.2 <= 65536) ds.
Proof.
  assert (forall b a v, read_u16 b a = Some v -> is_u16 v) as Hu.
  { intros b a v. unfold read_u16. case_bool; [done|]. destruct (slice b a 2) as [|b0 [|b1 ?]]; try done. intros [= <-]. apply u16_range. }
  revert pos ds. induction n as [|n IH]; intros pos ds; cbn [parse_descriptors]; [intros [= <- <-]; constructor|].
  destruct (read_u16 pos 0) as [k|] eqn:Ek; [|done]. destruct (read_u16 pos 2) as [c|] eqn:Ec; [|done].
  destruct (parse_descriptors n (drop 4 pos)) as [[ds' r]|] eqn:E; [|done]. cbn. intros [= <- <-].
  apply Hu in Ek, Ec. constructor; [|by eapply IH]. cbn. unfold is_u16 in *. lia.
Qed.

(** ** Agreement with the other Roaring reader *)

Lemma get_u16_read at_ v rest : Roaring.get_u16 at_ = Some (v, rest) -> read_u16 at_ 0 = Some v /\ rest = drop 2 at_.
Proof.
  destruct at_ as [|b0 [|b1 l]]; try done. intros [= <- <-]. split; [|done]. unfold read_u16.
  rewrite !zlen_cons. pose proof (zlen_nonneg l). case_bool; [lia|]. done.
Qed.

Lemma get_u16_read2 at_ v1 at1 v2 at2 :
  Roaring.get_u16 at_ = Some (v1, at1) -> Roaring.get_u16 at1 = Some (v2, at2) ->
  read_u16 at_ 0 = Some v1 /\ read_u16 at_ 2 = Some v2 /\ at2 = drop 4 at_.
Proof.
  intros H1 H2. split; [by apply get_u16_read in H1 as [? _]|]. destruct at_ as [|b0 [|b1 l]]; try done.
  injection H1 as _ <-. destruct l as [|b2 [|b3 l]]; try done. injection H2 as <- <-. split; [|done].
  unfold read_u16. rewrite !zlen_cons. pose proof (zlen_nonneg l). case_bool; [lia|]. done.
Qed.

Lemma get_u32_read at_ v rest : Roaring.get_u32 at_ = Some (v, rest) -> read_u32 at_ 0 = Some v /\ rest = drop 4 at_.
Proof.
  destruct at_ as [|b0 [|b1 [|b2 [|b3 l]]]]; try done. intros [= <- <-]. split; [|done]. unfold read_u32.
  rewrite !zlen_cons. pose proof (zlen_nonneg l). case_bool; [lia|]. done.
Qed.

Lemma headers_agree n prev at_ hs rest :
  Roaring.decode_headers n prev at_ = Ok (hs, rest) -> parse_descriptors n at_ = Ok (hs, rest).
Proof.
  revert prev at_ hs. induction n as [|n IH]; intros prev at_ hs; cbn [Roaring.decode_headers parse_descriptors]; [done|].
  destruct (Roaring.get_u16 at_) as [[k at1]|] eqn:E1; [|done]. destruct (Roaring.get_u16 at1) as [[c at2]|] eqn:E2; [|done].
  destruct (get_u16_read2 _ _ _ _ _ E1 E2) as (-> & -> & ->). case_bool; [done|].
  destruct (Roaring.decode_headers n (Some k) (drop 4 at_)) as [[hs' r]|] eqn:E3; [|done]. cbn. intros [= <- <-].
  apply IH in E3. by rewrite E3.
Qed.

Lemma runs_agree n base prev at_ vs rest budget have :
  Roaring.decode_runs n base prev at_ = Ok (vs, rest) -> have + zlen vs <= budget ->
  parse_runs n base budget have at_ = Ok (vs, rest).
Proof.
  revert prev at_ vs have. induction n as [|n IH]; intros prev at_ vs have; cbn [Roaring.decode_runs parse_runs]; [done|].
  destruct (Roaring.get_u16 at_) as [[k at1]|] eqn:E1; [|done]. destruct (Roaring.get_u16 at1) as [[c at2]|] eqn:E2; [|done].
  pose proof (Roaring.get_u16_range _ _ _ E2) as [Hc _]. unfold is_u16 in Hc.
  destruct (get_u16_read2 _ _ _ _ _ E1 E2) as (-> & -> & ->). case_bool; [done|].
  destruct (Roaring.decode_runs n base _ (drop 4 at_)) as [[vs' r]|] eqn:E3; [|done]. cbn. intros [= <- <-] Hb.
  rewrite zlen_app in Hb. unfold zlen at 1 in Hb. rewrite length_fmap, length_seqZ in Hb. pose proof (zlen_nonneg vs').
  case_bool; [lia|]. apply (IH _ _ _ (have + (c + 1))) in E3; [|lia]. by rewrite E3.
Qed.

Lemma array_agree n base back at_ vs rest :
  Roaring.decode_array n base back at_ = Ok (vs, rest) ->
  parse_array n base at_ = Ok vs /\ rest = drop (2 * n) at_ /\ (2 * n <= length at_)%nat.
Proof.
  revert back at_ vs. induction n as [|n IH]; intros back at_ vs; cbn [Roaring.decode_array parse_array].
  { intros [= <- <-]. split_and!; [done | done | lia]. }
  destruct (Roaring.get_u16 at_) as [[v at1]|] eqn:E1; [|done]. pose proof E1 as E1'. apply get_u16_read in E1 as (-> & ->). case_bool; [done|].
  destruct (Roaring.decode_array n base _ (drop 2 at_)) as [[vs' r]|] eqn:E3; [|done]. cbn. intros [= <- <-].
  apply IH in E3 as (-> & -> & Hl). rewrite drop_drop. rewrite length_drop in Hl. cbn. split_and!; [done | f_equal; lia|].
  destruct at_ as [|b0 [|b1 l]]; try done. cbn in *. lia.
Qed.

Lemma bitmap_agree base at_ vs rest :
  Roaring.decode_bitmap base at_ = Ok (vs, rest) ->
  kBitmapContainerBytes <= zlen at_ /\ rest = drop (Z.to_nat kBitmapContainerBytes) at_ /\
  vs = Z.lor base <$> filter (fun bit => Roaring.bit_at at_ bit = true) (seqZ 0 65536).
Proof.
  unfold Roaring.decode_bitmap, take_bytes. change Roaring.kBitmapBytes with kBitmapContainerBytes. case_bool; [done|].
  intros (<- & <-)%Ok_pair_inv. split_and!; [done | reflexivity|]. f_equal. apply count_ext. intros v Hv%elem_of_seqZ.
  unfold Roaring.bit_at, kBitmapContainerBytes in *. rewrite (nth_lookup (take _ at_)), lookup_take_lt, <- nth_lookup by dlia. done.
Qed.

Lemma container_agree run base card at_ vs rest budget have :
  Roaring.decode_container run base card at_ = Ok (vs, rest) -> zlen vs = card -> have + zlen vs <= budget ->
  parse_container run base card budget have at_ = Ok (vs, rest).
Proof.
  intros Hd Hc Hb. unfold Roaring.decode_container, parse_container in *. change Roaring.kArrayMax with 4096 in Hd.
  destruct run; [|destruct (Z.leb_spec card 4096)].
  - destruct (Roaring.get_u16 at_) as [[n at1]|] eqn:E1; [|done]. apply get_u16_read in E1 as (-> & ->).
    rewrite (runs_agree _ _ _ _ _ _ budget have Hd Hb). cbn. by rewrite Hc, Z.eqb_refl.
  - apply array_agree in Hd as (Ha & -> & Hl). case_bool; [lia|]. cbn zeta.
    pose proof (zlen_nonneg vs). case_bool; [unfold zlen in *; lia|].
    case_bool; [lia|]. rewrite Ha. cbn. do 3 f_equal. lia.
  - apply bitmap_agree in Hd as (Hl & -> & Hvs). case_bool; [|lia]. case_bool; [lia|]. cbn zeta.
    rewrite <- (bitmap_values_length at_ base) by done. rewrite <- Hvs, Hc, Z.eqb_refl. cbn [negb].
    case_bool; [lia | done].
Qed.

Lemma containers_agree c (has_runs : bool) flags hs at_ vs rest budget out :
  (if has_runs then flags <> [] else flags = []) ->
  Roaring.decode_containers c flags hs at_ = Ok (vs, rest) -> zlen out + zlen vs <= budget ->
  parse_containers c has_runs flags budget hs out at_ = Ok (out ++ vs).
Proof.
  intros Hf. revert c at_ vs out. induction hs as [|[key card] hs IH]; intros c at_ vs out;
    cbn [Roaring.decode_containers parse_containers].
  { intros [= <- <-] _. by rewrite app_nil_r. }
  assert (match flags with [] => false | _ => Roaring.bit_at flags c end = has_runs && Roaring.bit_at flags c) as ->
    by (destruct has_runs, flags; done).
  destruct (Roaring.decode_container _ _ card at_) as [[vs1 at1]|] eqn:E1; [|done]. cbn. case_bool; [done|].
  destruct (Roaring.decode_containers (c + 1) flags hs at1) as [[vs2 at2]|] eqn:E2; [|done]. cbn. intros [= <- <-] Hb.
  rewrite zlen_app in Hb. pose proof (zlen_nonneg vs2).
  rewrite (container_agree _ _ _ _ _ _ budget (zlen out) E1 E ltac:(lia)). cbn.
  rewrite (IH _ _ _ _ E2) by (rewrite zlen_app; lia). by rewrite <- app_assoc.
Qed.

Lemma cookie_agree data n flags offsets at_ :
  bytes_ok data -> Roaring.decode_cookie data = Ok (n, flags, offsets, at_) ->
  exists has_runs, parse_cookie data = Ok (has_runs, n, flags, at_) /\
    offsets = negb has_runs || (kNoOffsetThreshold <=? n) /\
    (0 <= n) /\ (if has_runs then flags <> [] else flags = []).
Proof.
  intros Hok. unfold Roaring.decode_cookie, parse_cookie. destruct (Roaring.get_u32 data) as [[cookie at1]|] eqn:E1; [|done].
  assert (forall d v r, bytes_ok d -> Roaring.get_u32 d = Some (v, r) -> 0 <= v < 2 ^ 32) as Hr.
  { clear. intros d v r Hd. destruct d as [|b0 [|b1 [|b2 [|b3 l]]]]; try done. intros [= <- <-].
    pose proof (le_value_range [b0; b1; b2; b3]) as H.
    replace (Z.lor _ _) with (le_value [b0; b1; b2; b3]); [apply H; apply (Forall_take is_u8 4) in Hd; exact Hd|].
    cbn [le_value]. rewrite !Z.shiftl_lor, !Z.shiftl_shiftl, Z.shiftl_0_l, Z.lor_0_r, !Z.lor_assoc by lia. done. }
  pose proof (Hr _ _ _ Hok E1) as Hck. pose proof E1 as E1'. apply get_u32_read in E1 as (-> & ->).
  change Roaring.kCookie with kCookieWithRuns. change Roaring.kCookieNoRuns with kCookieNoRuns.
  change Roaring.kNoOffsetThreshold with kNoOffsetThreshold.
  destruct (Z.eqb_spec cookie kCookieNoRuns) as [->|Hne].
  - change (Z.land kCookieNoRuns 65535 =? kCookieWithRuns) with false. cbv iota beta.
    destruct (Roaring.get_u32 (drop 4 data)) as [[m at2]|] eqn:E2; [|done].
    pose proof (Hr _ _ _ (Forall_drop _ 4 _ Hok) E2) as Hm. apply get_u32_read in E2 as (-> & ->).
    intros [= <- <- <- <-]. exists false. cbn. split_and!; [done | done | lia | done].
  - destruct (Z.eqb_spec (Z.land cookie 65535) kCookieWithRuns) as [Hlow|]; [|done].
    assert (Z.land (Z.shiftr cookie 16) 65535 = Z.shiftr cookie 16) as ->.
    { change 65535 with (2 ^ 16 - 1). rewrite land_low by lia. apply Z.mod_small, (shiftr_bound cookie 16 16); lia. }
    pose proof (shiftr_bound cookie 16 16 ltac:(lia) Hck ltac:(lia)) as Hs. unfold take_bytes. case_bool; [done|].
    intros (([<- <-]%pair_equal_spec & <-)%pair_equal_spec & <-)%Ok_pair_inv. exists true. split_and!; [done | done | lia|]. cbv iota. intros H%(f_equal length).
    rewrite length_take in H. cbn in H. unfold zlen in *. dlia.
Qed.

Lemma declared_total hs n :
  0 <= n -> Forall (fun h : Z * Z => 0 <= h.2) hs -> n + foldr Z.add 0 (snd <$> hs) < 2 ^ 64 ->
  foldl (fun n d => u64 (n + d.2)) n hs = n + foldr Z.add 0 (snd <$> hs).
Proof.
  intros Hn H. revert n Hn. induction H as [|h hs Hh H IH]; intros n Hn Hl; cbn in *; [lia|].
  assert (0 <= foldr Z.add 0 (snd <$> hs)) by (clear -H; induction H; cbn in *; lia).
  rewrite u64_small by (unfold is_u64; lia). rewrite IH by lia. lia.
Qed.

(** ** Values are 32-bit offsets *)

Lemma read_u16_range b a v : read_u16 b a = Some v -> is_u16 v.
Proof.
  unfold read_u16. case_bool; [done|]. destruct (slice b a 2) as [|b0 [|b1 ?]]; try done. intros [= <-]. apply u16_range.
Qed.

Lemma base_range key : is_u16 key -> 0 <= Z.shiftl key 16 < 2 ^ 32.
Proof. unfold is_u16. intros. rewrite Z.shiftl_mul_pow2 by lia. lia. Qed.

Lemma lor_base key v : is_u16 key -> 0 <= v < 2 ^ 32 -> is_u32 (Z.lor (Z.shiftl key 16) v).
Proof. intros Hk Hv. apply (lor_bound _ _ 32); [lia | by apply base_range | done]. Qed.

Lemma parse_runs_u32 n key budget have pos vs rest :
  is_u16 key -> parse_runs n (Z.shiftl key 16) budget have pos = Ok (vs, rest) -> Forall is_u32 vs.
Proof.
  intros Hk. revert have pos vs. induction n as [|n IH]; intros have pos vs; cbn [parse_runs]; [intros [= <- <-]; constructor|].
  destruct (read_u16 pos 0) as [start|] eqn:Es; [|done]. destruct (read_u16 pos 2) as [len|] eqn:El; [|done].
  apply read_u16_range in Es, El. unfold is_u16 in Es, El. case_bool; [done|].
  destruct (parse_runs n _ _ _ _) as [[vs' r]|] eqn:E2; [|done]. cbn. intros [= <- <-]. apply Forall_app. split; [|by eapply IH].
  apply Forall_fmap, Forall_forall. intros x Hx%elem_of_seqZ. apply lor_base; [done | lia].
Qed.

Lemma parse_array_u32 n key pos vs : is_u16 key -> parse_array n (Z.shiftl key 16) pos = Ok vs -> Forall is_u32 vs.
Proof.
  intros Hk. revert pos vs. induction n as [|n IH]; intros pos vs; cbn [parse_array]; [intros [= <-]; constructor|].
  destruct (read_u16 pos 0) as [v|] eqn:Ev; [|done]. apply read_u16_range in Ev. unfold is_u16 in Ev.
  destruct (parse_array n _ _) as [vs'|] eqn:E2; [|done]. cbn. intros [= <-]. constructor; [apply lor_base; [done | lia] | by eapply IH].
Qed.

Lemma parse_container_u32 is_run key card budget have pos vs rest :
  is_u16 key -> parse_container is_run (Z.shiftl key 16) card budget have pos = Ok (vs, rest) -> Forall is_u32 vs.
Proof.
  unfold parse_container. intros Hk H. destruct is_run; [|case_hyp H].
  - case_hyp H. destruct (parse_runs _ _ _ _ _) as [[vs' rest']|] eqn:E2; [|done]. cbn in H. case_hyp H.
    injection H as <- <-. by eapply parse_runs_u32.
  - case_hyp H. cbn zeta in H. repeat case_hyp H. apply Ok_pair_inv in H as [<- _].
    apply Forall_fmap, Forall_forall. intros x [_ Hx%elem_of_seqZ]%list_elem_of_filter. apply lor_base; [done | lia].
  - cbn zeta in H. repeat case_hyp H. destruct (parse_array _ _ _) as [vs'|] eqn:Ea; [|done]. cbn in H. apply Ok_pair_inv in H as [<- _].
    by eapply parse_array_u32.
Qed.

Lemma parse_containers_u32 i has_runs flags budget ds out pos vs :
  Forall (fun d => is_u16 d.1) ds -> parse_containers i has_runs flags budget ds out pos = Ok vs -> Forall is_u32 out ->
  Forall is_u32 vs.
Proof.
  intros Hd. revert i out pos. induction Hd as [|[key card] ds Hc Hd IH]; intros i out pos; cbn [parse_containers]; [by intros [= <-]|].
  destruct (parse_container _ _ _ _ _ _) as [[vs' rest]|] eqn:E; [|done]. cbn. intros H Ho. eapply IH; [exact H|].
  apply Forall_app. split; [done | by eapply parse_container_u32].
Qed.

(** ** Arrow IPC *)

Lemma load_values_length n values : length (load_values n values) = n.
Proof. revert values. induction n as [|n IH]; intros; [done|]. cbn. by rewrite IH. Qed.

Lemma slice_length b a n : zlen (slice b a n) <= zlen b.
Proof. unfold slice, zlen. rewrite length_take, length_drop. lia. Qed.

Lemma materialize_bound content decompress body offset n compressed max_bytes out :
  materialize_ipc_buffer content decompress body offset n compressed max_bytes = Ok out ->
  zlen out <= Z.max (zlen body) max_bytes.
Proof.
  unfold materialize_ipc_buffer. intros H.
  case_hyp H. case_hyp H; [injection H as <-; etransitivity; [apply slice_length | lia]|].
  case_hyp H; [injection H as <-; change (zlen (@nil Z)) with 0; pose proof (zlen_nonneg body); lia|]. case_hyp H.
  destruct (read_i64 body offset) as [u|]; [|done]. cbn zeta in H.
  case_hyp H; [injection H as <-; etransitivity; [apply slice_length | lia]|].
  case_hyp H. case_hyp H. destruct (content _) as [| |c]; try done. repeat case_hyp H. injection H as <-. lia.
Qed.

Lemma parse_record_batch_bound content decompress limits bytes message padded blen max_values out :
  0 <= value_budget limits max_values ->
  parse_record_batch content decompress limits bytes message padded blen max_values = Ok out ->
  4 * zlen out <= Z.max (zlen bytes) (4 * value_budget limits max_values).
Proof.
  intros Hb. unfold parse_record_batch. intros H.
  destruct (flatbuffer_field bytes message 2); [|done]. cbn in H. case_hyp H.
  destruct (flatbuffer_indirect bytes z) as [rb|]; [|done]. cbn in H.
  destruct (batch_rows bytes rb) as [rows|] eqn:Er; [|done]. destruct (codec_of bytes rb) as [cmp|]; [|done].
  destruct (values_buffer bytes rb) as [[off len]|]; [|done]. cbn in H.
  destruct (checked_mul (value_budget limits max_values) 4) as [budget|] eqn:Ebud; [|done]. cbn in H.
  apply checked_mul_Some in Ebud as [-> _]; [|lia|lia].
  destruct (materialize_ipc_buffer _ _ _ _ _ _ _) as [values|] eqn:Em; [|done]. cbn in H. apply materialize_bound in Em.
  assert (0 <= rows) as Hrows.
  { unfold batch_rows in Er. destruct (flatbuffer_field bytes rb 0) as [la|]; [|done]. cbn in Er.
    destruct (if negb (la =? 0) then _ else _); [|done]. cbn in Er. case_hyp Er. by injection Er as <-. }
  destruct (checked_mul rows 4) as [needed|] eqn:En; [|done]. cbn in H.
  apply checked_mul_Some in En as [-> _]; [|lia|lia]. case_hyp H. injection H as <-.
  unfold zlen at 1. rewrite load_values_length. pose proof (slice_length bytes padded blen). lia.
Qed.

Lemma parse_messages_bound content decompress fuel limits bytes pos max_values out :
  0 <= value_budget limits max_values -> parse_messages content decompress fuel limits bytes pos max_values = Ok out ->
  4 * zlen out <= Z.max (zlen bytes) (4 * value_budget limits max_values).
Proof.
  intros Hb. revert pos. induction fuel as [|fuel IH]; intros pos; cbn [parse_messages]; [done|]. intros H. case_hyp H.
  destruct (read_u32 bytes pos); [|done]. cbn in H. case_hyp H.
  destruct (read_u32 bytes (pos + 4)); [|done]. cbn in H. case_hyp H.
  destruct (message_header bytes pos z0) as [[[[m t] p] b]|]; [|done]. cbn in H. case_hyp H; [by eapply parse_record_batch_bound | by eapply IH].
Qed.

(** The padded end of a message's metadata is past its start, so the loop advances. *)
Lemma align_up_ge x : 0 <= x -> x <= Z.land (x + 8 - 1) (Z.lnot (8 - 1)).
Proof.
  intros Hx. replace (x + 8 - 1) with (x + 7) by lia. change (8 - 1) with (Z.ones 3).
  rewrite <- Z.ldiff_land, Z.ldiff_ones_r, Z.shiftl_mul_pow2, Z.shiftr_div_pow2 by lia. change (2 ^ 3) with 8. dlia.
Qed.

Lemma message_header_advances bytes pos len m t p b :
  0 <= pos -> 0 <= len -> message_header bytes pos len = Ok (m, t, p, b) -> pos + 8 <= p + b.
Proof.
  intros Hp Hl. unfold message_header. intros H. case_hyp H.
  destruct (flatbuffer_indirect _ _) as [m'|]; [|done]. cbn in H. destruct (flatbuffer_field bytes m' 1) as [ht|]; [|done]. cbn in H.
  destruct (flatbuffer_byte _ _ _) as [t'|]; [|done]. cbn in H. destruct (flatbuffer_field bytes m' 3) as [ba|]; [|done]. cbn in H.
  destruct (if negb (ba =? 0) then _ else _) as [bl|]; [|done]. cbn in H. repeat case_hyp H.
  apply Ok_pair_inv in H as [(_ & <-)%pair_equal_spec <-].
  pose proof (align_up_ge (pos + 8 + len) ltac:(lia)). unfold kArrowIpcAlignment. lia.
Qed.

Lemma read_u32_nonneg b a v : bytes_ok b -> read_u32 b a = Some v -> 0 <= v.
Proof.
  unfold read_u32. case_bool; [done|]. intros Hb. assert (bytes_ok (slice b a 4)) as Hs by (apply Forall_take, Forall_drop; done).
  destruct (slice b a 4) as [|b0 [|b1 [|b2 [|b3 l]]]]; try done. intros [= <-].
  repeat match goal with H : bytes_ok (_ :: _) |- _ => apply Forall_cons_1 in H as [? H] | H : Forall is_u8 (_ :: _) |- _ => apply Forall_cons_1 in H as [? H] end.
  unfold is_u8 in *. rewrite !Z.lor_nonneg, !Z.shiftl_nonneg. lia.
Qed.

(** Every message takes eight bytes at least: as much fuel as bytes always reaches the end. *)
Lemma parse_messages_fuel content decompress n1 n2 limits bytes pos max_values :
  bytes_ok bytes -> 0 <= pos -> zlen bytes - pos < 8 * Z.of_nat n1 -> zlen bytes - pos < 8 * Z.of_nat n2 ->
  parse_messages content decompress n1 limits bytes pos max_values =
  parse_messages content decompress n2 limits bytes pos max_values.
Proof.
  intros Hok. revert n2 pos. induction n1 as [|n1 IH]; intros n2 pos Hp H1 H2; (destruct n2 as [|n2]; [|]); cbn [parse_messages];
    [done | case_bool; [lia | done] | case_bool; [lia | done] |].
  case_bool; [|done]. destruct (read_u32 bytes pos); [|done]. cbn. case_bool; [done|].
  destruct (read_u32 bytes (pos + 4)) as [len|] eqn:El; [|done]. cbn. apply read_u32_nonneg in El; [|done]. case_bool; [done|].
  destruct (message_header bytes pos len) as [[[[m t] p] b]|] eqn:E3; [|done]. cbn. case_bool; [done|].
  apply message_header_advances in E3; [|done|done]. apply IH; lia.
Qed.

Lemma value_budget_nonneg limits max_values :
  0 <= max_uncompressed_bytes limits -> 0 <= max_values -> 0 <= value_budget limits max_values.
Proof. unfold value_budget. intros. case_bool; [lia|]. apply Z.div_pos; lia. Qed.

Lemma parse_roaring_bitmap_sound limits bytes max_values out :
  0 <= value_budget limits max_values -> parse_roaring_bitmap limits bytes max_values = Ok out ->
  ascending out /\ Forall is_u32 out /\ zlen out <= value_budget limits max_values.
Proof.
  intros Hb. unfold parse_roaring_bitmap. destruct (parse_cookie bytes) as [[[[hr n] flags] pos]|]; [|done]. cbn. case_bool; [done|].
  destruct (parse_descriptors (Z.to_nat n) pos) as [[ds pos1]|] eqn:Ed; [|done]. cbn. apply parse_descriptors_range in Ed.
  destruct (_ && (_ <? _)); [done|]. case_bool; [done|].
  destruct (parse_containers _ _ _ _ _ _ _) as [vs|] eqn:Ec; [|done]. cbn. intros [= <-]. split_and!.
  - apply sort_unique_spec.
  - apply Forall_forall. intros x. rewrite (proj2 (sort_unique_spec vs)). revert x. apply Forall_forall.
    eapply parse_containers_u32; [|exact Ec | constructor]. eapply Forall_impl; [exact Ed|]. cbn. tauto.
  - etransitivity; [apply sort_unique_length|]. eapply parse_containers_bound; [exact Ec | | done].
    eapply Forall_impl; [exact Ed|]. cbn. lia.
Qed.

(** the two Roaring readers agree: whatever bytes the reader of roaring_bitmap.cpp
    accepts, the deletion file parser accepts with the same ids, unless they are more than its budget. *)
Theorem roaring_readers_agree limits data out max_values :
  bytes_ok data -> Roaring.decode data = Ok out -> zlen out <= value_budget limits max_values ->
  parse_roaring_bitmap limits data max_values = Ok out.
Proof.
  intros Hok Hd Hb. unfold Roaring.decode, Roaring.decode_prefix in Hd.
  destruct (Roaring.decode_rest data) as [[o r]|] eqn:E; [|done]. cbn in Hd. injection Hd as ->.
  unfold Roaring.decode_rest in E. destruct (Roaring.decode_cookie data) as [[[[n flags] offs] at1]|] eqn:Eck; [|done]. cbn in E.
  destruct (cookie_agree _ _ _ _ _ Hok Eck) as (hr & Hc & -> & Hn & Hf). case_hyp E.
  destruct (Roaring.decode_headers (Z.to_nat n) None at1) as [[hs at2]|] eqn:Eh; [|done]. cbn in E.
  pose proof (Roaring.decode_headers_sound _ _ _ _ _ Eh) as (Hka & Hh & _ & Hlen).
  destruct (match (if _ || _ then _ else _) with Some _ => _ | None => _ end) as [[o' r']|] eqn:E2; [|done]. injection E as -> ->.
  destruct (if negb hr || (kNoOffsetThreshold <=? n) then Roaring.skip (n * 4) at2 else Some at2) as [at3|] eqn:Es; [|done].
  pose proof (Roaring.decode_containers_sound _ _ _ _ _ _ E2 Hka ltac:(eapply Forall_impl; [exact Hh|]; cbn; tauto)) as (Ha & _ & _ & _ & Hcount).
  unfold parse_roaring_bitmap. rewrite Hc. cbn. case_bool; [lia|]. rewrite (headers_agree _ _ _ _ _ Eh). cbn.
  assert (declared_le : foldl (fun n d => u64 (n + d.2)) 0 hs = zlen out).
  { rewrite declared_total; [lia | lia | eapply Forall_impl; [exact Hh|]; cbn; lia|]. rewrite <- Hcount.
    pose proof (Roaring.decode_rest_sound data out r) as Hs. unfold Roaring.decode_rest in Hs. rewrite Eck in Hs. cbn in Hs.
    rewrite (proj2 (orb_false_iff _ _)) in Hs by (split; apply Z.ltb_ge; lia). rewrite Eh in Hs. cbn in Hs. rewrite Es in Hs.
    destruct (Hs E2) as (Hasc & Hu & _). pose proof (ascending_bounded out 0 (2 ^ 32) Hasc Hu ltac:(lia)). lia. }
  rewrite declared_le. destruct (negb hr || (kNoOffsetThreshold <=? n)).
  - unfold Roaring.skip in Es. case_hyp Es. injection Es as <-. cbn [andb]. case_bool; [lia|].
    rewrite (containers_agree _ _ _ _ _ _ _ _ [] Hf E2) by (change (zlen (@nil Z)) with 0; lia). cbn. by rewrite sort_unique_id.
  - injection Es as <-. cbn [andb]. case_bool; [lia|].
    rewrite (containers_agree _ _ _ _ _ _ _ _ [] Hf E2) by (change (zlen (@nil Z)) with 0; lia). cbn. by rewrite sort_unique_id.
Qed.

Lemma roaring_readers_agree_witness :
  parse_roaring_bitmap initial_read_limits (Roaring.encode [3; 70000; 70001]) 3 = Ok [3; 70000; 70001].
Proof.
  apply (roaring_readers_agree initial_read_limits (Roaring.encode [3; 70000; 70001]) [3; 70000; 70001] 3).
  - apply (bool_decide_unpack (Forall is_u8 (Roaring.encode [3; 70000; 70001]))). vm_compute. exact I.
  - vm_compute. reflexivity.
  - vm_compute. congruence.
Defined.

(** the deletion file parsers keep a hostile file within its budget, whatever the bytes:
    a bitmap gives ascending 32-bit offsets, never more than the budget; an Arrow column never takes
    more memory than the file itself or the budget of four bytes a value. *)
Theorem deletion_parsers_bounded content decompress limits bytes max_values out :
  0 <= max_uncompressed_bytes limits -> 0 <= max_values ->
  (parse_roaring_bitmap limits bytes max_values = Ok out ->
     ascending out /\ Forall is_u32 out /\ zlen out <= value_budget limits max_values) /\
  (parse_arrow_ipc_uint32_column content decompress limits bytes max_values = Ok out ->
     4 * zlen out <= Z.max (zlen bytes) (4 * value_budget limits max_values)).
Proof.
  intros Hm Hv. pose proof (value_budget_nonneg limits max_values Hm Hv) as Hb.
  split; [by apply parse_roaring_bitmap_sound|]. unfold parse_arrow_ipc_uint32_column. case_bool; [done|].
  destruct (skip_padding _ _ _); [|done]. cbn. by apply parse_messages_bound.
Qed.

(** An Arrow IPC file with one record batch of the values 9, 2 and 5. *)
Definition sample_ipc : list Z :=
  kMagic ++ [255; 255; 255; 255] ++ le_bytes 4 100 ++
  (** Message: its vtable, then the table. *)
  le_bytes 4 16 ++ le_bytes 2 12 ++ le_bytes 2 20 ++ le_bytes 2 0 ++ le_bytes 2 4 ++ le_bytes 2 8 ++ le_bytes 2 12 ++
  le_bytes 4 12 ++ [3; 0; 0; 0] ++ le_bytes 4 24 ++ le_bytes 8 16 ++
  (** RecordBatch: its vtable, the table and the buffers. *)
  le_bytes 2 12 ++ le_bytes 2 16 ++ le_bytes 2 4 ++ le_bytes 2 0 ++ le_bytes 2 12 ++ le_bytes 2 0 ++
  le_bytes 4 12 ++ le_bytes 8 3 ++ le_bytes 4 4 ++
  le_bytes 4 2 ++ le_bytes 8 0 ++ le_bytes 8 0 ++ le_bytes 8 0 ++ le_bytes 8 12 ++
  le_bytes 4 0 ++ le_bytes 4 9 ++ le_bytes 4 2 ++ le_bytes 4 5 ++ le_bytes 4 0.

Example sample_ipc_values :
  parse_arrow_ipc_uint32_column (fun _ => ContentError) (fun _ _ => None) initial_read_limits sample_ipc 3 = Ok [9; 2; 5].
Proof. vm_compute. reflexivity. Qed.

Lemma deletion_parsers_bounded_witness : 4 * 3 <= Z.max (zlen sample_ipc) (4 * value_budget initial_read_limits 3).
Proof.
  apply (deletion_parsers_bounded (fun _ => ContentError) (fun _ _ => None) initial_read_limits sample_ipc 3 [9; 2; 5]).
  - vm_compute. congruence.
  - lia.
  - vm_compute. reflexivity.
Defined.

Lemma read_deletion_vector_spec content decompress storage limits dir fragment_id f out :
  0 <= max_uncompressed_bytes limits -> 0 <= pb.del_num_deleted_rows f ->
  read_deletion_vector content decompress storage limits dir fragment_id f = Ok out ->
  ascending out /\
  (pb.del_present f = false -> out = []) /\
  (pb.del_present f = true -> pb.del_num_deleted_rows f <> 0 -> zlen out = pb.del_num_deleted_rows f).
Proof.
  intros Hm Hn. unfold read_deletion_vector. intros H. case_hyp H; [injection H as <-; split_and!; [constructor | done | congruence]|].
  cbn zeta in H. destruct (storage _) as [| |bytes]; try done.
  match type of H with (?r ≫= _) = _ => destruct r as [offsets|] eqn:Er end; [|done]. cbn in H. case_hyp H. injection H as <-.
  split_and!; [|congruence|].
  - case_hyp Er; [|destruct (parse_arrow_ipc_uint32_column _ _ _ _ _); [|done]; injection Er as <-; apply sort_unique_spec].
    by apply parse_roaring_bitmap_sound in Er as (? & _); [|apply value_budget_nonneg].
  - intros _ Hz. apply andb_false_iff in E0 as [E0|E0]; bool_prop; lia.
Qed.

(** the offsets a reader filters by are ascending without duplicates, and exactly as many
    as the manifest states: a file that disagrees with its manifest is an error, never a shorter or
    longer filter. *)
Theorem read_deletion_vector_sound content decompress storage limits dir fragment_id f out :
  0 <= max_uncompressed_bytes limits -> 0 <= pb.del_num_deleted_rows f ->
  read_deletion_vector content decompress storage limits dir fragment_id f = Ok out ->
  ascending out /\
  (pb.del_present f = false -> out = []) /\
  (pb.del_present f = true -> pb.del_num_deleted_rows f <> 0 -> zlen out = pb.del_num_deleted_rows f).
Proof. apply read_deletion_vector_spec. Qed.

Lemma read_deletion_vector_sound_witness :
  ascending [2; 5; 9] /\ zlen [2; 5; 9] = 3.
Proof.
  pose (f := pb.mkDeletionFile true 0 4 77 3 []).
  destruct (read_deletion_vector_sound (fun _ => ContentError) (fun _ _ => None)
    (fun path => if String.eqb path "/ds/_deletions/6-4-77.arrow" then Bytes sample_ipc else NoFile)
    initial_read_limits "/ds/_deletions" 6 f [2; 5; 9]) as (H1 & _ & H3).
  - vm_compute. congruence.
  - vm_compute. congruence.
  - vm_compute. reflexivity.
  - split; [exact H1 | apply H3; vm_compute; congruence].
Defined.

End DeletionVector.
