(* ===== verification/RowIdIndex.v ===== *)
(** * RowIdIndex: row ids to row addresses and back (src/table/row_ids.cpp)

    [RowIdIndex] (the live rows of a dataset version, by stable id), the functions that resolve ids
    through it, and the version lookup of rows by address. The storage the deletion files are read
    from, zstd and the manifest loader are parameters. *)

From S2P Require Import Prelude ReadSafety ProtoWire Pb RowIds RowMeta DeletionVector.

Module RowIdIndex.

(** [RowIdIndex::Run]: [count] consecutive ids whose rows are consecutive in a fragment. *)
Record Run := mkRun { first_id : Z; count : Z; run_fragment : Z; first_offset : Z }.

Record RowIdIndex := mkRowIdIndex { by_id_ : gmap Z Z; runs_ : list Run; sorted_ : bool }.

Definition RowIdIndex0 : RowIdIndex := mkRowIdIndex ∅ [] false.

(** [(fragment_id << 32U) | offset]. *)
Definition address (fragment_id offset : Z) : Z := Z.lor (u64 (Z.shiftl fragment_id 32)) offset.

(** [flush(to)]: the run of the live rows [from, to). *)
Definition flush (start fragment_id from to : Z) (runs : list Run) : list Run :=
  if from <? to then runs ++ [mkRun (u64 (start + from)) (to - from) fragment_id from] else runs.

(** The loop over the deleted offsets of a fragment whose ids are a range: [from] and the runs. *)
Definition deleted_step (start total fragment_id : Z) (s : Z * list Run) (d : Z) : Z * list Run :=
  let '(from, runs) := s in
  if total <=? d then s else (d + 1, flush start fragment_id from d runs).

Definition range_runs (start total fragment_id : Z) (deleted : list Z) (runs : list Run) : list Run :=
  let '(from, runs) := foldl (deleted_step start total fragment_id) (0, runs) deleted in
  flush start fragment_id from total runs.

(** [while (deleted[next_deleted] < i) ++next_deleted]. *)
Fixpoint skip_below (i : Z) (deleted : list Z) : list Z :=
  match deleted with
  | d :: deleted' => if d <? i then skip_below i deleted' else deleted
  | [] => []
  end.

(** The loop over the ids of a fragment that are no range, from offset [i] on. *)
Fixpoint index_values (i fragment_id : Z) (values deleted : list Z) (by_id : gmap Z Z) : gmap Z Z :=
  match values with
  | [] => by_id
  | v :: values =>
      let deleted := skip_below i deleted in
      if match deleted with d :: _ => d =? i | [] => false end
      then index_values (i + 1) fragment_id values deleted by_id
      else index_values (i + 1) fragment_id values deleted (<[v := address fragment_id i]> by_id)
  end.

Definition run_le (a b : Run) : Prop := first_id a <= first_id b.
#[export] Instance run_le_dec a b : Decision (run_le a b).
Proof. unfold run_le. apply _. Defined.

Section index.
  Context (ZSTD_getFrameContentSize : list Z -> DeletionVector.frame_content).
  Context (ZSTD_decompress : Z -> list Z -> option (list Z)).
  Context (storage : string -> DeletionVector.file).
  Context (limits : ReadLimits).

(** [read_manifest_deletion_vector], as everything here calls it. *)
Definition read_deleted (dataset_path : string) (manifest : pb.Manifest) (fragment : pb.DataFragment) : res (list Z) :=
  DeletionVector.read_manifest_deletion_vector ZSTD_getFrameContentSize ZSTD_decompress storage limits
    dataset_path manifest (pb.fr_id fragment) (pb.fr_deletion_file fragment).

(** The body of the loop of [build] over the fragments. *)
Definition index_fragment (dataset_path : string) (manifest : pb.Manifest) (out : RowIdIndex) (fragment : pb.DataFragment)
    : res RowIdIndex :=
  ids ← RowMeta.fragment_row_ids fragment;
  deleted ← (if pb.del_present (pb.fr_deletion_file fragment) then read_deleted dataset_path manifest fragment else Ok []);
  match RowIds.is_range ids with
  | Some start =>
      Ok (mkRowIdIndex (by_id_ out)
            (range_runs start (RowIds.size ids) (pb.fr_id fragment) deleted (runs_ out)) (sorted_ out))
  | None =>
      Ok (mkRowIdIndex (index_values 0 (pb.fr_id fragment) (RowIds.values_ ids) deleted (by_id_ out)) (runs_ out) (sorted_ out))
  end.

Definition build (dataset_path : string) (manifest : pb.Manifest) : res RowIdIndex :=
  out ← fold_res (index_fragment dataset_path manifest) (pb.mf_fragments manifest) RowIdIndex0;
  Ok (mkRowIdIndex (by_id_ out) (merge_sort run_le (runs_ out)) true).

(** The element before [std::upper_bound] of [row_id], if any: [prev] is the one before [runs]. *)
Fixpoint before_upper_bound (row_id : Z) (runs : list Run) (prev : option Run) : option Run :=
  match runs with
  | [] => prev
  | run :: runs => if row_id <? first_id run then prev else before_upper_bound row_id runs (Some run)
  end.

Definition find (index : RowIdIndex) (row_id : Z) : option Z :=
  match before_upper_bound row_id (runs_ index) None with
  | Some it =>
      if u64 (row_id - first_id it) <? count it
      then Some (address (run_fragment it) (first_offset it + u64 (row_id - first_id it)))
      else by_id_ index !! row_id
  | None => by_id_ index !! row_id
  end.

(** ** Resolving ids *)

(** [load_manifest_version], or [load_latest_manifest] when no version is given. *)
Context (load_manifest : option Z -> res pb.Manifest).

Definition is_stable (manifest : pb.Manifest) : bool :=
  negb (Z.land (pb.mf_reader_feature_flags manifest) pb.kFlagStableRowIds =? 0).

(** [fragments.emplace(f.id, &f)] for every fragment: the first with an id stays. *)
Definition fragment_map (manifest : pb.Manifest) : gmap Z pb.DataFragment :=
  foldl (fun m f => match m !! pb.fr_id f with Some _ => m | None => <[pb.fr_id f := f]> m end) ∅ (pb.mf_fragments manifest).

Definition not_in_dataset (id : Z) : string := "row id " +:+ pretty id +:+ " is not in the dataset".

(** One id: the state is the cache of deleted offsets and the addresses so far. *)
Definition resolve_step (dataset_path : string) (manifest : pb.Manifest) (stable : bool) (index : RowIdIndex)
    (fragments : gmap Z pb.DataFragment) (skip_missing skip_deleted : bool)
    (s : gmap Z (list Z) * list Z) (id : Z) : res (gmap Z (list Z) * list Z) :=
  let '(deleted, addresses) := s in
  let missing := if skip_missing then Ok s else Err (not_in_dataset id) in
  match (if stable then find index id else Some id) with
  | None => missing
  | Some addr =>
      match fragments !! Z.shiftr addr 32 with
      | None => missing
      | Some fragment =>
          if pb.fr_physical_rows fragment <=? Z.land addr 4294967295 then missing
          else if pb.del_present (pb.fr_deletion_file fragment) then
            '(deleted, offsets) ←
              match deleted !! Z.shiftr addr 32 with
              | Some offsets => Ok (deleted, offsets)
              | None =>
                  offsets ← read_deleted dataset_path manifest fragment;
                  Ok (<[Z.shiftr addr 32 := offsets]> deleted, offsets)
              end;
            if bool_decide (u32 (Z.land addr 4294967295) ∈ offsets) then
              (if skip_missing || skip_deleted then Ok (deleted, addresses)
               else Err (not_in_dataset id +:+ " (its row was deleted)"))
            else Ok (deleted, addresses ++ [addr])
          else Ok (deleted, addresses ++ [addr])
      end
  end.

Definition resolve_row_ids (dataset_path : string) (version : option Z) (ids : list Z) (skip_missing skip_deleted : bool)
    : res (list Z) :=
  manifest ← load_manifest version;
  let stable := is_stable manifest in
  index ← (if stable then build dataset_path manifest else Ok RowIdIndex0);
  '(_, addresses) ← fold_res (resolve_step dataset_path manifest stable index (fragment_map manifest) skip_missing skip_deleted)
                      ids (∅, []);
  Ok addresses.

(** ** Row versions by address *)

Record Versions := mkVersions { v_created : list Z; v_updated : list Z }.

Definition fragment_versions (fragment : pb.DataFragment) : res Versions :=
  meta ← RowMeta.read_fragment_row_meta fragment;
  created ← (if RowMeta.has_created meta
             then seq ← RowVersions.decode (RowMeta.created meta); Ok (RowVersions.to_vector seq) else Ok []);
  updated ← (if RowMeta.has_last_updated meta
             then seq ← RowVersions.decode (RowMeta.last_updated meta); Ok (RowVersions.to_vector seq) else Ok []);
  Ok (mkVersions created updated).

(** [offset < v.size() ? v[offset] : 1U]. *)
Definition version_at (v : list Z) (offset : Z) : Z := if offset <? zlen v then nth (Z.to_nat offset) v 0 else 1.

Definition versions_step (fragments : gmap Z pb.DataFragment) (s : gmap Z Versions * list Z * list Z) (addr : Z)
    : res (gmap Z Versions * list Z * list Z) :=
  let '(cache, created, last_updated) := s in
  let fragment_id := Z.shiftr addr 32 in
  '(cache, v) ←
    match cache !! fragment_id with
    | Some v => Ok (cache, v)
    | None =>
        v ← match fragments !! fragment_id with
            | Some fragment => fragment_versions fragment
            | None => Ok (mkVersions [] [])
            end;
        Ok (<[fragment_id := v]> cache, v)
    end;
  let offset := Z.land addr 4294967295 in
  Ok (cache, created ++ [version_at (v_created v) offset], last_updated ++ [version_at (v_updated v) offset]).

Definition row_versions_at (version : option Z) (addresses : list Z) : res (list Z * list Z) :=
  manifest ← load_manifest version;
  '(_, created, last_updated) ← fold_res (versions_step (fragment_map manifest)) addresses (∅, [], []);
  Ok (created, last_updated).

End index.

(** ** AddressToRowId *)

Record AddressToRowId := mkAddressToRowId { stable_ : bool; by_fragment_ : gmap Z RowIds.RowIdSequence }.

Definition AddressToRowId_build (manifest : pb.Manifest) : res AddressToRowId :=
  if negb (is_stable manifest) then Ok (mkAddressToRowId false ∅)
  else
    by_fragment ← fold_res (fun (m : gmap Z RowIds.RowIdSequence) fragment =>
        ids ← RowMeta.fragment_row_ids fragment;
        Ok (match m !! pb.fr_id fragment with Some _ => m | None => <[pb.fr_id fragment := ids]> m end))
      (pb.mf_fragments manifest) ∅;
    Ok (mkAddressToRowId true by_fragment).

Definition AddressToRowId_call (t : AddressToRowId) (addr : Z) : Z :=
  if negb (stable_ t) then addr
  else
    let offset := Z.land addr 4294967295 in
    match by_fragment_ t !! Z.shiftr addr 32 with
    | Some ids => if offset <? RowIds.size ids then RowIds.at_index ids offset else addr
    | None => addr
    end.

(** ** RowIdToAddress *)

Record RowIdToAddress := mkRowIdToAddress { to_stable : bool; index_ : RowIdIndex }.

Definition RowIdToAddress_build content decompress storage limits (dataset_path : string) (manifest : pb.Manifest)
    : res RowIdToAddress :=
  if is_stable manifest
  then index ← build content decompress storage limits dataset_path manifest; Ok (mkRowIdToAddress true index)
  else Ok (mkRowIdToAddress false RowIdIndex0).

Definition RowIdToAddress_find (t : RowIdToAddress) (row_id : Z) : option Z :=
  if negb (to_stable t) then Some row_id else find (index_ t) row_id.

(** ** What the index stands for *)

(** The (id, address) pairs of a run. *)
Definition run_rows (r : Run) : list (Z * Z) :=
  (fun k => (first_id r + k, address (run_fragment r) (first_offset r + k))) <$> seqZ 0 (count r).

(** The (id, address) pairs an index holds. *)
Definition index_rows (index : RowIdIndex) : list (Z * Z) :=
  concat (run_rows <$> runs_ index) ++ map_to_list (by_id_ index).

Definition live_offsets (total : Z) (deleted : list Z) : list Z := filter (fun o => o ∉ deleted) (seqZ 0 total).

(** The live rows of a fragment: the reference the index is measured against. *)
Definition live_rows (fragment_id : Z) (vs deleted : list Z) : list (Z * Z) :=
  (fun o => (nth (Z.to_nat o) vs 0, address fragment_id o)) <$> live_offsets (zlen vs) deleted.

(** *** A range's runs *)

Section range_runs.
  Context (start total fragment_id : Z) (Hs : 0 <= start) (Ht : start + total <= 2 ^ 64).
Let row o := (start + o, address fragment_id o).

Lemma flush_rows from to runs :
  0 <= from -> to <= total ->
  concat (run_rows <$> flush start fragment_id from to runs) = concat (run_rows <$> runs) ++ (row <$> seqZ from (to - from)).
Proof.
  intros Hf Hto. unfold flush. case_bool.
  - rewrite fmap_app, concat_app. f_equal. cbn. rewrite app_nil_r. unfold run_rows. cbn.
    rewrite u64_small by (unfold is_u64; lia). replace (seqZ from (to - from)) with (seqZ (from + 0) (to - from)) by (f_equal; lia).
    rewrite <- fmap_add_seqZ, <- list_fmap_compose.
    apply list_fmap_ext. intros k x _. cbn. unfold row. f_equal. lia.
  - rewrite seqZ_nil by lia. by rewrite app_nil_r.
Qed.

Lemma filter_keep (ds l : list Z) : (forall x, x ∈ l -> x ∉ ds) -> filter (fun o => o ∉ ds) l = l.
Proof.
  induction l as [|x l IH]; intros H; [done|]. rewrite filter_cons_True by (apply H; by left). f_equal. apply IH. intros; apply H; by right.
Qed.

Lemma filter_weaken (d : Z) (ds l : list Z) : d ∉ l -> filter (fun o => o ∉ d :: ds) l = filter (fun o => o ∉ ds) l.
Proof.
  intros Hd. induction l as [|x l IH]; [done|]. rewrite elem_of_cons in Hd. rewrite !filter_cons, IH by tauto.
  repeat case_decide; try done; set_solver.
Qed.

Lemma deleted_steps from runs deleted :
  ascending deleted -> Forall (Z.le from) deleted -> 0 <= from ->
  concat (run_rows <$> (let '(from, runs) := foldl (deleted_step start total fragment_id) (from, runs) deleted in
                        flush start fragment_id from total runs))
  = concat (run_rows <$> runs) ++ (row <$> filter (fun o => o ∉ deleted) (seqZ from (total - from))).
Proof.
  intros Ha. revert from runs. induction Ha as [|d ds Ha IH Hd]; intros from runs Hf H0; cbn [foldl].
  { rewrite flush_rows by lia. rewrite filter_keep by set_solver. done. }
  apply Forall_cons_1 in Hf as [Hfd Hf]. unfold deleted_step at 2. case_bool.
  - rewrite IH by done. rewrite filter_weaken; [done|]. rewrite elem_of_seqZ. lia.
  - rewrite IH; [|eapply Forall_impl; [exact Hd|]; cbn; lia | lia]. rewrite flush_rows by lia. rewrite <- app_assoc. f_equal.
    replace (total - from) with ((d - from) + (1 + (total - (d + 1)))) by lia. rewrite !seqZ_app by lia.
    replace (from + (d - from)) with d by lia. rewrite !filter_app, !fmap_app. f_equal.
    + rewrite filter_keep; [done|]. intros x Hx%elem_of_seqZ. rewrite elem_of_cons. rewrite Forall_forall in Hd.
      intros [->|Hx']; [lia|]. specialize (Hd x Hx'). lia.
    + change (seqZ d 1) with [d]. rewrite filter_cons_False by set_solver. cbn.
      rewrite filter_weaken; [done|]. rewrite elem_of_seqZ. lia.
Qed.

Lemma range_runs_rows deleted runs :
  ascending deleted -> Forall (Z.le 0) deleted ->
  concat (run_rows <$> range_runs start total fragment_id deleted runs)
  = concat (run_rows <$> runs) ++ (row <$> live_offsets total deleted).
Proof. intros. unfold range_runs. rewrite deleted_steps by done. by rewrite Z.sub_0_r. Qed.

(** The runs' bounds, which the 64-bit arithmetic of [find] relies on. *)
Definition run_ok (r : Run) : Prop := 0 <= first_id r /\ 0 < count r /\ first_id r + count r <= 2 ^ 64.

Lemma flush_ok from to runs : 0 <= from -> to <= total -> Forall run_ok runs -> Forall run_ok (flush start fragment_id from to runs).
Proof.
  intros Hf Hto H. unfold flush. case_bool; [|done]. apply Forall_app. split; [done|]. constructor; [|constructor].
  unfold run_ok. cbn. rewrite u64_small by (unfold is_u64; lia). lia.
Qed.

Lemma range_runs_ok deleted runs : Forall (Z.le 0) deleted -> Forall run_ok runs -> Forall run_ok (range_runs start total fragment_id deleted runs).
Proof.
  intros Hd Hr. unfold range_runs.
  cut (forall from, 0 <= from -> Forall run_ok (let '(from, runs) := foldl (deleted_step start total fragment_id) (from, runs) deleted in
                        flush start fragment_id from total runs)); [intros H; apply (H 0); lia|].
  revert runs Hr. induction Hd as [|d ds Hd Hds IH]; intros runs Hr from Hf; cbn [foldl]; [apply flush_ok; auto; lia|].
  unfold deleted_step at 2. case_bool; [by apply IH|]. apply IH; [apply flush_ok; auto; lia | lia].
Qed.

End range_runs.

(** *** The ids of a fragment that are no range *)

Lemma skip_below_elem i deleted j : i <= j -> j ∈ skip_below i deleted <-> j ∈ deleted.
Proof.
  intros Hj. induction deleted as [|d ds IH]; [done|]. cbn. case_bool; [|done]. rewrite IH, elem_of_cons. intuition lia.
Qed.

Lemma skip_below_ascending i deleted : ascending deleted -> ascending (skip_below i deleted) /\ Forall (Z.le i) (skip_below i deleted).
Proof.
  induction 1 as [|d ds Ha IH Hd]; [split; constructor|]. cbn. case_bool; [done|]. split; [by constructor|].
  constructor; [done|]. eapply Forall_impl; [exact Hd|]. cbn. lia.
Qed.

(** The rows from offset [i] on. *)
Fixpoint rows_from (i fragment_id : Z) (values deleted : list Z) : list (Z * Z) :=
  match values with
  | [] => []
  | v :: values =>
      (if bool_decide (i ∈ deleted) then [] else [(v, address fragment_id i)]) ++ rows_from (i + 1) fragment_id values deleted
  end.

Lemma rows_from_live i fragment_id values deleted :
  rows_from i fragment_id values deleted
  = (fun o => (nth (Z.to_nat (o - i)) values 0, address fragment_id o)) <$> filter (fun o => o ∉ deleted) (seqZ i (zlen values)).
Proof.
  revert i. induction values as [|v vs IH]; intros i; [done|]. cbn [rows_from]. pose proof (zlen_nonneg vs).
  rewrite zlen_cons, seqZ_cons by lia. replace (Z.pred (1 + zlen vs)) with (zlen vs) by lia.
  assert ((fun o => (nth (Z.to_nat (o - i)) (v :: vs) 0, address fragment_id o)) <$> filter (fun o => o ∉ deleted) (seqZ (Z.succ i) (zlen vs))
    = rows_from (i + 1) fragment_id vs deleted) as Hrest.
  { rewrite IH. replace (Z.succ i) with (i + 1) by lia. apply list_fmap_ext. intros k o Ho%list_elem_of_lookup_2.
    apply list_elem_of_filter in Ho as [_ Ho%elem_of_seqZ]. f_equal.
    replace (Z.to_nat (o - i)) with (S (Z.to_nat (o - (i + 1)))) by lia. done. }
  rewrite filter_cons. case_bool_decide; case_decide; try done; rewrite ?fmap_cons, Hrest, ?Z.sub_diag; done.
Qed.

Lemma index_values_rows i fragment_id values deleted (m : gmap Z Z) :
  ascending deleted ->
  NoDup (fst <$> (map_to_list m ++ rows_from i fragment_id values deleted)) ->
  map_to_list (index_values i fragment_id values deleted m) ≡ₚ map_to_list m ++ rows_from i fragment_id values deleted.
Proof.
  intros Ha. revert i deleted m Ha. induction values as [|v vs IH]; intros i deleted m Ha Hn; cbn [index_values rows_from] in *.
  { by rewrite app_nil_r. }
  destruct (skip_below_ascending i deleted Ha) as [Ha' Hle].
  assert (match skip_below i deleted with d :: _ => d =? i | [] => false end = bool_decide (i ∈ deleted)) as Hdel.
  { apply eq_bool_prop_intro. rewrite bool_decide_spec, <- (skip_below_elem i deleted i) by lia. clear -Ha' Hle.
    destruct (skip_below i deleted) as [|d ds]; [split; [done | by intros ?%elem_of_nil]|].
    rewrite Is_true_true, Z.eqb_eq. split; [intros ->; by left|]. intros [->|Hin]%elem_of_cons; [done|].
    apply ascending_cons in Ha' as [_ Hd]. rewrite Forall_forall in Hd. specialize (Hd i Hin). apply Forall_cons_1 in Hle as [? _]. lia. }
  assert (rows_from (i + 1) fragment_id vs deleted = rows_from (i + 1) fragment_id vs (skip_below i deleted)) as Hrest.
  { rewrite !rows_from_live. f_equal. apply DeletionVector.count_ext. intros o Ho%elem_of_seqZ. by rewrite skip_below_elem by lia. }
  rewrite Hdel. rewrite Hrest in *. case_bool_decide; cbn [app] in *; [by apply IH|].
  assert (m !! v = None) as Hv.
  { apply eq_None_not_Some. intros [a Hm]. rewrite fmap_app in Hn. apply NoDup_app in Hn as (_ & Hdis & _).
    apply (Hdis v); [apply list_elem_of_fmap; exists (v, a); split; [done | by apply elem_of_map_to_list]|]. by left. }
  rewrite IH; [|done|].
  - rewrite map_to_list_insert by done. apply Permutation_middle.
  - rewrite map_to_list_insert by done. cbn [app]. by rewrite Permutation_middle.
Qed.

(** *** Finding a row *)

Lemma before_upper_bound_spec row_id runs prev :
  StronglySorted run_le runs ->
  (forall p, prev = Some p -> first_id p <= row_id /\ Forall (run_le p) runs) ->
  match before_upper_bound row_id runs prev with
  | Some p => first_id p <= row_id /\ (prev = Some p \/ p ∈ runs) /\ Forall (fun r => first_id r <= row_id -> first_id r <= first_id p) runs
  | None => prev = None /\ Forall (fun r => row_id < first_id r) runs
  end.
Proof.
  intros Hs. revert prev. induction Hs as [|r runs Hs IH Hr]; intros prev Hp; cbn [before_upper_bound].
  { destruct prev as [p|]; [|by split]. destruct (Hp p eq_refl). split_and!; [done | by left | constructor]. }
  case_bool.
  - destruct prev as [p|].
    + destruct (Hp p eq_refl) as [H1 H2]. split_and!; [done | by left|]. rewrite Forall_forall in *. intros x Hx Hle.
      assert (first_id r <= first_id x); [|lia]. apply elem_of_cons in Hx as [->|Hx]; [lia | by apply Hr].
    + split; [done|]. constructor; [done|]. eapply Forall_impl; [exact Hr|]. unfold run_le. cbn. lia.
  - specialize (IH (Some r) ltac:(intros p [= <-]; done)). destruct (before_upper_bound row_id runs (Some r)) as [p|]; [|by destruct IH].
    destruct IH as (H1 & H2 & H3). split_and!; [done | | constructor; [|done]].
    + right. destruct H2 as [[= ->]|H2]; [by left | by right].
    + intros _. destruct H2 as [[= ->]|H2]; [lia|]. rewrite Forall_forall in Hr. by apply Hr.
Qed.

Lemma NoDup_concat_inj {A B} (f : A -> list B) l p r x :
  NoDup (concat (f <$> l)) -> p ∈ l -> r ∈ l -> x ∈ f p -> x ∈ f r -> p = r.
Proof.
  induction l as [|a l IH]; [intros _ []%elem_of_nil|]. rewrite fmap_cons. cbn [concat].
  intros (_ & Hdis & Hn)%NoDup_app Hp Hr Hxp Hxr. assert (forall q, q ∈ l -> x ∈ f q -> x ∈ concat (f <$> l)) as Hin.
  { intros q Hq Hx. apply list_elem_of_In, in_concat. exists (f q). split; [|by apply list_elem_of_In].
    apply list_elem_of_In, list_elem_of_fmap. eauto. }
  apply elem_of_cons in Hp as [->|Hp]; apply elem_of_cons in Hr as [->|Hr]; [done | | |by apply IH].
  - exfalso. by apply (Hdis x Hxp), (Hin r).
  - exfalso. by apply (Hdis x Hxr), (Hin p).
Qed.

Lemma run_rows_keys r : fst <$> run_rows r = seqZ (first_id r) (count r).
Proof.
  unfold run_rows. rewrite <- list_fmap_compose. replace (seqZ (first_id r) (count r)) with (seqZ (first_id r + 0) (count r)) by (f_equal; lia).
  rewrite <- fmap_add_seqZ. done.
Qed.

Lemma run_rows_elem r id a :
  (id, a) ∈ run_rows r <-> first_id r <= id < first_id r + count r /\ a = address (run_fragment r) (first_offset r + (id - first_id r)).
Proof.
  unfold run_rows. rewrite list_elem_of_fmap. setoid_rewrite elem_of_seqZ. split.
  - intros (k & [= -> ->] & Hk). split; [lia|]. do 2 f_equal. lia.
  - intros [Hid ->]. exists (id - first_id r). split; [f_equal; lia | lia].
Qed.

Lemma elem_of_run_rows runs (x : Z * Z) : x ∈ concat (run_rows <$> runs) <-> exists r, r ∈ runs /\ x ∈ run_rows r.
Proof.
  rewrite list_elem_of_In, in_concat. split.
  - intros (l & Hl & Hx). apply list_elem_of_In, list_elem_of_fmap in Hl as (r & -> & Hr). exists r. split; [done | by apply list_elem_of_In].
  - intros (r & Hr & Hx). exists (run_rows r). split; [|by apply list_elem_of_In]. apply list_elem_of_In, list_elem_of_fmap. eauto.
Qed.

Lemma find_rows index id a :
  StronglySorted run_le (runs_ index) -> Forall run_ok (runs_ index) -> NoDup (fst <$> index_rows index) -> is_u64 id ->
  find index id = Some a <-> (id, a) ∈ index_rows index.
Proof.
  intros Hs Hok Hn Hid. unfold index_rows in *. rewrite elem_of_app, elem_of_map_to_list, elem_of_run_rows.
  rewrite fmap_app in Hn. apply NoDup_app in Hn as (Hnr & Hdis & _).
  assert (NoDup (concat ((fun r => seqZ (first_id r) (count r)) <$> runs_ index))) as Hnr'.
  { replace (concat _) with (fst <$> concat (run_rows <$> runs_ index)); [done|]. clear.
    induction (runs_ index) as [|r rs IH]; [done|]. rewrite !fmap_cons. cbn [concat]. by rewrite fmap_app, run_rows_keys, IH. }
  assert (forall r, r ∈ runs_ index -> (first_id r <= id < first_id r + count r) -> by_id_ index !! id = None) as Hrun.
  { intros r Hr Hin. apply eq_None_not_Some. intros [a' Ha]. apply (Hdis id).
    - apply list_elem_of_fmap. exists (id, address (run_fragment r) (first_offset r + (id - first_id r))). split; [done|].
      apply elem_of_run_rows. exists r. split; [done|]. by apply run_rows_elem.
    - apply list_elem_of_fmap. exists (id, a'). split; [done|]. by apply elem_of_map_to_list. }
  rewrite Forall_forall in Hok. unfold find.
  pose proof (before_upper_bound_spec id (runs_ index) None Hs ltac:(done)) as Hub.
  destruct (before_upper_bound id (runs_ index) None) as [p|].
  - destruct Hub as (Hp & [|Hpin] & Hmax); [done|]. pose proof (Hok p Hpin) as (Hp1 & Hp2 & Hp3). unfold is_u64 in Hid.
    rewrite u64_small by (unfold is_u64; lia).
    assert (forall r, r ∈ runs_ index -> first_id r <= id < first_id r + count r -> r = p) as Huniq.
    { intros r Hr Hin. rewrite Forall_forall in Hmax. specialize (Hmax r Hr ltac:(lia)). destruct (Hok r Hr) as (? & ? & ?).
      apply (NoDup_concat_inj (fun r => seqZ (first_id r) (count r)) (runs_ index) r p (first_id p)); try done; apply elem_of_seqZ; lia. }
    case_bool.
    + rewrite (Hrun p) by (done || lia). split.
      * intros [= <-]. left. exists p. split; [done|]. apply run_rows_elem. split; [lia | done].
      * intros [(r & Hr & [Hin ->]%run_rows_elem)|]; [|done]. by rewrite (Huniq r).
    + split; [auto|]. intros [(r & Hr & [Hin ->]%run_rows_elem)|]; [|done]. apply Huniq in Hr as Heq; [|done]. subst r. lia.
  - destruct Hub as [_ Hub]. rewrite Forall_forall in Hub. split; [auto|].
    intros [(r & Hr & [Hin _]%run_rows_elem)|]; [|done]. specialize (Hub r Hr). lia.
Qed.

(** *** Building the index *)

Section build.
  Context (content : list Z -> DeletionVector.frame_content) (decompress : Z -> list Z -> option (list Z)).
  Context (storage : string -> DeletionVector.file) (limits : ReadLimits).
  Context (dataset_path : string) (manifest : pb.Manifest).

(** A fragment with its rows: [vs] are its row ids in row order, [deleted] the offsets of its deletion
    file. *)
Record fragment_rows := mkFragmentRows { fragment : pb.DataFragment; ids : list Z; deleted : list Z }.

(** What a fragment of a dataset with stable row ids is: it carries its ids, and its deletion file, when
    it has one, reads as 32-bit offsets that the manifest counts. *)
Definition rows_ok (r : fragment_rows) : Prop :=
  RowMeta.carries (fragment r) (ids r) /\
  (if pb.del_present (pb.fr_deletion_file (fragment r))
   then read_deleted content decompress storage limits dataset_path manifest (fragment r) = Ok (deleted r)
   else deleted r = []) /\
  Forall is_u32 (deleted r) /\ ascending (deleted r).

Definition live (rows : list fragment_rows) : list (Z * Z) :=
  concat ((fun r => live_rows (pb.fr_id (fragment r)) (ids r) (deleted r)) <$> rows).

Definition index_ok (out : RowIdIndex) (l : list (Z * Z)) : Prop :=
  index_rows out ≡ₚ l /\ Forall run_ok (runs_ out).

Lemma index_fragment_rows out l r :
  rows_ok r -> index_ok out l -> NoDup (fst <$> (l ++ live_rows (pb.fr_id (fragment r)) (ids r) (deleted r))) ->
  exists out', index_fragment content decompress storage limits dataset_path manifest out (fragment r) = Ok out' /\
    index_ok out' (l ++ live_rows (pb.fr_id (fragment r)) (ids r) (deleted r)).
Proof.
  destruct r as [f vs ds]. cbn [fragment ids deleted]. intros (Hc & Hd & Hu & Ha) [Hrows Hruns] Hn.
  cbn [fragment ids deleted] in Hc, Hd, Hu, Ha.
  unfold index_fragment. rewrite (RowMeta.fragment_row_ids_carries _ _ Hc). cbn [mbind res_bind].
  assert ((if pb.del_present (pb.fr_deletion_file f) then read_deleted content decompress storage limits dataset_path manifest f else Ok [])
    = Ok ds) as -> by (destruct (pb.del_present _); [done | by rewrite Hd]).
  cbn [mbind res_bind]. destruct Hc as ((Hnd & Hr & Hl) & _). unfold RowIds.is_range, RowIds.from_values.
  assert (Forall (Z.le 0) ds) as Hd0 by (eapply Forall_impl; [exact Hu|]; unfold is_u32; cbn; lia).
  destruct (RowIds.consecutive vs) eqn:E; cbn [RowIds.compact_ RowIds.start_ RowIds.values_];
    (eexists; split; [reflexivity|]); unfold index_ok, index_rows in *; cbn [runs_ by_id_].
  - unfold RowIds.size. cbn [RowIds.compact_ RowIds.count_]. pose proof (RowIds.consecutive_seqZ vs Hr E) as Hseq.
    set (start := match vs with [] => 0 | x :: _ => x end) in *. set (n := zlen vs) in *.
    assert (0 <= start /\ start + n <= 2 ^ 64) as [Hs0 Hs1].
    { rewrite Forall_forall in Hr. destruct vs as [|x vs']; [unfold start, n, zlen; cbn; lia|].
      assert (0 < n) by (unfold n; rewrite zlen_cons; pose proof (zlen_nonneg vs'); lia).
      assert (start + n - 1 ∈ x :: vs') as Hlast by (rewrite Hseq; apply elem_of_seqZ; lia).
      pose proof (Hr _ Hlast) as H1. pose proof (Hr x ltac:(by left)) as H2. unfold U64_MAX in *. unfold start. cbn in H1, H2. lia. }
    split; [|by apply range_runs_ok]. rewrite (range_runs_rows start n (pb.fr_id f) Hs0 Hs1 ds (runs_ out) Ha Hd0).
    assert ((fun o => (start + o, address (pb.fr_id f) o)) <$> live_offsets n ds = live_rows (pb.fr_id f) vs ds) as ->.
    { unfold live_rows, live_offsets. fold n. apply list_fmap_ext. intros k o Ho%list_elem_of_lookup_2.
      apply list_elem_of_filter in Ho as [_ Ho%elem_of_seqZ]. f_equal. rewrite Hseq, nth_lookup.
      rewrite (lookup_seqZ_lt start n (Z.to_nat o)) by lia. cbn. lia. }
    rewrite <- Hrows. rewrite <- !app_assoc. by rewrite (Permutation_app_comm (live_rows _ _ _)).
  - split; [|done].
    assert (rows_from 0 (pb.fr_id f) vs ds = live_rows (pb.fr_id f) vs ds) as Hlive.
    { rewrite rows_from_live. unfold live_rows, live_offsets. apply list_fmap_ext. intros. by rewrite Z.sub_0_r. }
    rewrite index_values_rows; [by rewrite Hlive, app_assoc, Hrows | done |]. rewrite Hlive.
    rewrite <- Hrows, <- app_assoc, fmap_app in Hn. by apply NoDup_app in Hn as (_ & _ & Hn).
Qed.

Lemma index_fragments_rows out l rows :
  Forall rows_ok rows -> index_ok out l -> NoDup (fst <$> (l ++ live rows)) ->
  exists out', fold_res (index_fragment content decompress storage limits dataset_path manifest) (fragment <$> rows) out = Ok out' /\
    index_ok out' (l ++ live rows).
Proof.
  intros H. revert out l. induction H as [|r rows Hr H IH]; intros out l Ho Hn.
  { exists out. split; [done|]. unfold live. cbn. by rewrite app_nil_r. }
  unfold live in *. rewrite !fmap_cons in *. cbn [concat] in *. rewrite app_assoc in Hn. rewrite fmap_app in Hn. apply NoDup_app in Hn as (H1 & H2 & H3).
  destruct (index_fragment_rows out l r Hr Ho H1) as (out1 & Hf & Ho1).
  destruct (IH out1 _ Ho1) as (out2 & Hf2 & Ho2).
  { rewrite fmap_app. apply NoDup_app. done. }
  exists out2. cbn [fold_res]. rewrite Hf. cbn [mbind res_bind]. by rewrite app_assoc.
Qed.

Lemma build_spec rows :
  pb.mf_fragments manifest = fragment <$> rows -> Forall rows_ok rows -> NoDup (fst <$> live rows) ->
  exists index, build content decompress storage limits dataset_path manifest = Ok index /\
    forall id a, is_u64 id -> find index id = Some a <-> (id, a) ∈ live rows.
Proof.
  intros Hm Hr Hn. unfold build. rewrite Hm.
  destruct (index_fragments_rows RowIdIndex0 [] rows Hr) as (out & -> & Hrows & Hruns); [by split | done|].
  cbn [mbind res_bind]. eexists. split; [done|]. intros id a Hid. cbn [app] in Hrows.
  assert (index_rows (mkRowIdIndex (by_id_ out) (merge_sort run_le (runs_ out)) true) ≡ₚ live rows) as Hp.
  { rewrite <- Hrows. unfold index_rows. cbn [runs_ by_id_]. by rewrite (merge_sort_Permutation run_le (runs_ out)). }
  rewrite find_rows; [by rewrite Hp | | | by rewrite Hp | done]; cbn [runs_].
  - apply StronglySorted_merge_sort; unfold run_le; [intros x y z; lia | intros x y; lia].
  - by rewrite merge_sort_Permutation.
Qed.

End build.

(** C11 (refinement): the row id index is the map of the live rows: for a dataset version whose fragments
    carry their row ids and whose live ids are distinct, building the index succeeds, and looking an id
    up gives exactly the address (fragment and offset) of the live row with that id, or nothing when no
    live row has it: an id whose row was deleted is not found, and an id that moved is found where it is
    now. The index's runs, hash entries, deletion skipping, sort and binary search are all behind this. *)
Theorem row_id_index_correct content decompress storage limits dataset_path manifest rows :
  pb.mf_fragments manifest = fragment <$> rows ->
  Forall (rows_ok content decompress storage limits dataset_path manifest) rows ->
  NoDup (fst <$> live rows) ->
  exists index, build content decompress storage limits dataset_path manifest = Ok index /\
    forall id a, is_u64 id -> find index id = Some a <-> (id, a) ∈ live rows.
Proof. apply build_spec. Qed.

(** A dataset version with two fragments: ids 10 to 12 with row 1 deleted, and 11 (moved there), 3. *)
Definition sample_storage (path : string) : DeletionVector.file :=
  if String.eqb path "/ds/_deletions/0-4-77.bin" then DeletionVector.Bytes (Roaring.Roaring.encode [1]) else DeletionVector.NoFile.

Definition sample_fragment (id : Z) (vs : list Z) (df : pb.DeletionFile) : pb.DataFragment :=
  pb.mkDataFragment id [] (zlen vs) df (put_bytes_field 5 (RowIds.encode (RowIds.from_values vs))).

Definition sample_rows : list fragment_rows :=
  [mkFragmentRows (sample_fragment 0 [10; 11; 12] (pb.mkDeletionFile true 1 4 77 1 [])) [10; 11; 12] [1];
   mkFragmentRows (sample_fragment 1 [11; 3] pb.no_deletion_file) [11; 3] []].

Definition sample_manifest : pb.Manifest :=
  pb.set_fragments (fragment <$> sample_rows) (pb.set_reader_feature_flags 2 pb.Manifest0).

Lemma sample_carries id vs df :
  NoDup vs -> Forall (fun x => 0 <= x < U64_MAX) vs -> zlen vs <= 2 ^ 32 ->
  zlen (RowIds.encode (RowIds.from_values vs)) < 2 ^ 64 -> RowMeta.carries (sample_fragment id vs df) vs.
Proof.
  intros Hn Hv Hz Hl. split; [done|]. split; [done|]. unfold RowMeta.read_fragment_row_meta, fields, sample_fragment.
  cbn [pb.fr_unknown]. rewrite fields_single by (unfold field_number; lia). cbn. eexists. split; [reflexivity|]. done.
Qed.

Lemma sample_rows_ok :
  Forall (rows_ok (fun _ => DeletionVector.ContentError) (fun _ _ => None) sample_storage initial_read_limits "/ds" sample_manifest)
    sample_rows.
Proof.
  constructor; [|constructor; [|constructor]]; unfold rows_ok; cbn [fragment ids deleted].
  - split; [apply sample_carries | split; [|split]].
    + by apply (bool_decide_unpack (NoDup [10; 11; 12])).
    + repeat constructor; vm_compute; congruence.
    + vm_compute. congruence.
    + vm_compute. congruence.
    + vm_compute. reflexivity.
    + repeat constructor; vm_compute; congruence.
    + repeat constructor.
  - split; [apply sample_carries | split; [|split]].
    + by apply (bool_decide_unpack (NoDup [11; 3])).
    + repeat constructor; vm_compute; congruence.
    + vm_compute. congruence.
    + vm_compute. congruence.
    + reflexivity.
    + constructor.
    + constructor.
Qed.

Lemma row_id_index_correct_witness :
  exists index,
    build (fun _ => DeletionVector.ContentError) (fun _ _ => None) sample_storage initial_read_limits "/ds" sample_manifest = Ok index /\
    find index 11 = Some (address 1 0) /\ find index 13 = None.
Proof.
  assert (live sample_rows = [(10, 0); (12, 2); (11, 4294967296); (3, 4294967297)]) as Hl by (vm_compute; reflexivity).
  destruct (row_id_index_correct (fun _ => DeletionVector.ContentError) (fun _ _ => None) sample_storage initial_read_limits "/ds"
    sample_manifest sample_rows) as (index & Hb & Hf).
  - reflexivity.
  - exact sample_rows_ok.
  - rewrite Hl. by apply (bool_decide_unpack (NoDup [10; 12; 11; 3])).
  - exists index. split; [exact Hb|]. rewrite Hl in Hf. split.
    + apply Hf; [unfold is_u64; lia|]. right. right. left.
    + destruct (find index 13) as [a|] eqn:E; [|reflexivity]. exfalso. apply Hf in E; [|unfold is_u64; lia].
      repeat (apply elem_of_cons in E as [[=]|E]). by apply elem_of_nil in E.
Defined.

(** ** Resolving ids through the index *)

Lemma address_split fragment_id o :
  0 <= fragment_id < 2 ^ 32 -> 0 <= o < 2 ^ 32 ->
  Z.shiftr (address fragment_id o) 32 = fragment_id /\ Z.land (address fragment_id o) 4294967295 = o.
Proof.
  intros Hf Ho. unfold address. rewrite u64_small by (unfold is_u64; rewrite Z.shiftl_mul_pow2 by lia; lia).
  rewrite lor_high_low by lia. change 4294967295 with (2 ^ 32 - 1). rewrite land_low, Z.shiftr_div_pow2 by lia. split; dlia.
Qed.

Definition emplace (m : gmap Z pb.DataFragment) (f : pb.DataFragment) : gmap Z pb.DataFragment :=
  match m !! pb.fr_id f with Some _ => m | None => <[pb.fr_id f := f]> m end.

Lemma fragment_map_lookup (fs : list pb.DataFragment) m f :
  NoDup (pb.fr_id <$> fs) -> f ∈ fs -> m !! pb.fr_id f = None -> foldl emplace m fs !! pb.fr_id f = Some f.
Proof.
  revert m. induction fs as [|g fs IH]; intros m; [intros _ []%elem_of_nil|]. rewrite fmap_cons. intros [Hg Hn]%NoDup_cons Hf Hm. cbn [foldl].
  apply elem_of_cons in Hf as [->|Hf].
  - assert (emplace m g !! pb.fr_id g = Some g) as He by (unfold emplace; rewrite Hm; apply lookup_insert_eq).
    revert He. generalize (emplace m g). clear -Hg. induction fs as [|h fs IH]; intros m Hm; [done|]. cbn [foldl].
    rewrite fmap_cons, not_elem_of_cons in Hg. destruct Hg as [Hgh Hg]. apply IH; [done|]. unfold emplace.
    destruct (m !! pb.fr_id h); [done|]. by rewrite lookup_insert_ne by congruence.
  - apply IH; [done | done|]. unfold emplace. destruct (m !! pb.fr_id g); [done|].
    rewrite lookup_insert_ne; [done|]. intros E. apply Hg. rewrite E. apply list_elem_of_fmap. eauto.
Qed.

Section resolve.
  Context (content : list Z -> DeletionVector.frame_content) (decompress : Z -> list Z -> option (list Z)).
  Context (storage : string -> DeletionVector.file) (limits : ReadLimits).
  Context (dataset_path : string) (manifest : pb.Manifest) (rows : list fragment_rows).
  Context (Hm : pb.mf_fragments manifest = fragment <$> rows).
  Context (Hr : Forall (rows_ok content decompress storage limits dataset_path manifest) rows).
  Context (Hids : NoDup (pb.fr_id <$> pb.mf_fragments manifest)).
  Context (Hf32 : Forall (fun f => 0 <= pb.fr_id f < 2 ^ 32) (pb.mf_fragments manifest)).

(** What a cached entry is: the deleted offsets of its fragment. *)
Definition cache_ok (cache : gmap Z (list Z)) : Prop :=
  forall r, r ∈ rows -> forall l, cache !! pb.fr_id (fragment r) = Some l -> l = deleted r.

Lemma live_row_of id a :
  (id, a) ∈ live rows ->
  exists r o, r ∈ rows /\ a = address (pb.fr_id (fragment r)) o /\ 0 <= o < pb.fr_physical_rows (fragment r) /\ o < 2 ^ 32 /\ o ∉ deleted r.
Proof.
  unfold live. rewrite list_elem_of_In, in_concat. intros (l & Hl & Hin). apply list_elem_of_In, list_elem_of_fmap in Hl as (r & -> & Hrin).
  apply list_elem_of_In, list_elem_of_fmap in Hin as (o & [= _ ->] & [Hd Ho%elem_of_seqZ]%list_elem_of_filter).
  exists r, o. rewrite Forall_forall in Hr. destruct (Hr r Hrin) as (((_ & _ & Hlen) & Hn & _) & _). rewrite Hn.
  split_and!; [done | done | lia | lia | lia | done].
Qed.

Lemma resolve_live index id a skip_missing skip_deleted cache out :
  (id, a) ∈ live rows -> find index id = Some a -> cache_ok cache ->
  exists cache', cache_ok cache' /\
    resolve_step content decompress storage limits dataset_path manifest true index (fragment_map manifest) skip_missing skip_deleted
      (cache, out) id = Ok (cache', out ++ [a]).
Proof.
  intros Hl Hfind Hc. destruct (live_row_of id a Hl) as (r & o & Hrin & -> & Ho & Ho32 & Hd).
  assert (fragment r ∈ pb.mf_fragments manifest) as Hfin by (rewrite Hm; apply list_elem_of_fmap; eauto).
  rewrite Forall_forall in Hf32. destruct (address_split _ o (Hf32 _ Hfin) ltac:(lia)) as [Hhi Hlo].
  rewrite Forall_forall in Hr. destruct (Hr r Hrin) as (_ & Hdel & _ & _).
  unfold resolve_step. rewrite Hfind, Hhi, Hlo. unfold fragment_map.
  change (foldl _ ∅ (pb.mf_fragments manifest)) with (foldl emplace ∅ (pb.mf_fragments manifest)).
  rewrite (fragment_map_lookup _ ∅ _ Hids Hfin) by apply lookup_empty. case_bool; [lia|].
  destruct (pb.del_present (pb.fr_deletion_file (fragment r))) eqn:Ep; [|by exists cache].
  rewrite u32_small by (unfold is_u32; lia).
  destruct (cache !! pb.fr_id (fragment r)) as [l|] eqn:El; cbn [mbind res_bind].
  - rewrite (Hc r Hrin l El). rewrite bool_decide_false by done. by exists cache.
  - rewrite Hdel. cbn [mbind res_bind]. rewrite bool_decide_false by done. eexists. split; [|done].
    intros r' Hr' l. destruct (decide (pb.fr_id (fragment r') = pb.fr_id (fragment r))) as [Ei|Ei].
    + rewrite Ei, lookup_insert_eq. intros [= <-]. f_equal.
      assert (r' = r) as ->; [|done]. rewrite Hm, <- list_fmap_compose in Hids.
      apply list_elem_of_lookup in Hr' as [i Hi], Hrin as [j Hj].
      assert (i = j) as ->; [|congruence]. eapply (NoDup_lookup ((pb.fr_id ∘ fragment) <$> rows)); [done | |];
        rewrite list_lookup_fmap, ?Hi, ?Hj; cbn; by rewrite ?Ei.
    + rewrite lookup_insert_ne by congruence. by apply Hc.
Qed.

(** The addresses of the live rows, by id. *)
Definition live_map : gmap Z Z := list_to_map (live rows).

Lemma live_map_lookup id a : NoDup (fst <$> live rows) -> live_map !! id = Some a <-> (id, a) ∈ live rows.
Proof. intros Hn. symmetry. by apply elem_of_list_to_map. Qed.

(** Where the live row with an id is. *)
Definition locate (id : Z) : option Z := live_map !! id.

Lemma resolve_steps index idl skip_missing skip_deleted cache out :
  NoDup (fst <$> live rows) -> Forall is_u64 idl ->
  (forall id a, is_u64 id -> find index id = Some a <-> (id, a) ∈ live rows) -> cache_ok cache ->
  let r := fold_res (resolve_step content decompress storage limits dataset_path manifest true index (fragment_map manifest)
                       skip_missing skip_deleted) idl (cache, out) in
  if skip_missing then exists cache', r = Ok (cache', out ++ omap locate idl) else
  match mapM locate idl with
  | Some l => exists cache', r = Ok (cache', out ++ l)
  | None => exists id, id ∈ idl /\ locate id = None /\ r = Err (not_in_dataset id)
  end.
Proof.
  intros Hn Hu Hfind. revert cache out. induction Hu as [|id idl Hid Hu IH]; intros cache out Hc; cbn [fold_res].
  { destruct skip_missing; exists cache; cbn; by rewrite app_nil_r. }
  destruct (locate id) as [a|] eqn:El.
  - apply live_map_lookup in El as Hlive; [|done]. pose proof (proj2 (Hfind id a Hid) Hlive) as Hf.
    destruct (resolve_live index id a skip_missing skip_deleted cache out Hlive Hf Hc) as (cache' & Hc' & ->). cbn [mbind res_bind].
    specialize (IH cache' (out ++ [a]) Hc'). cbn [omap list_omap mapM]. rewrite El.
    destruct skip_missing; [destruct IH as [c ->]; exists c; by rewrite <- app_assoc|]. cbn.
    destruct (mapM locate idl) as [l|]; cbn.
    + destruct IH as [c ->]. exists c. by rewrite <- app_assoc.
    + destruct IH as (i & Hi & Hl & ->). exists i. split; [by right | done].
  - assert (find index id = None) as Hf.
    { apply eq_None_not_Some. intros [a Ha]. apply Hfind in Ha; [|done]. apply live_map_lookup in Ha; [|done]. unfold locate in El. congruence. }
    assert (resolve_step content decompress storage limits dataset_path manifest true index (fragment_map manifest) skip_missing skip_deleted
      (cache, out) id = if skip_missing then Ok (cache, out) else Err (not_in_dataset id)) as -> by (unfold resolve_step; by rewrite Hf).
    destruct skip_missing; cbn.
    + rewrite El. by apply IH.
    + rewrite El. cbn. exists id. split; [by left | done].
Qed.

End resolve.

(** resolving stable row ids: on a dataset with stable ids, each id gives the address
    of its live row, in order; ids without one are left out when missing ids are skipped, and are an
    error naming the first of them otherwise. *)
Theorem resolve_row_ids_correct content decompress storage limits load_manifest dataset_path version manifest rows idl
    skip_missing skip_deleted :
  load_manifest version = Ok manifest -> is_stable manifest = true ->
  pb.mf_fragments manifest = fragment <$> rows ->
  Forall (rows_ok content decompress storage limits dataset_path manifest) rows ->
  NoDup (pb.fr_id <$> pb.mf_fragments manifest) ->
  Forall (fun f => 0 <= pb.fr_id f < 2 ^ 32) (pb.mf_fragments manifest) ->
  NoDup (fst <$> live rows) -> Forall is_u64 idl ->
  let r := resolve_row_ids content decompress storage limits load_manifest dataset_path version idl skip_missing skip_deleted in
  if skip_missing then r = Ok (omap (locate rows) idl)
  else match mapM (locate rows) idl with
       | Some addresses => r = Ok addresses
       | None => exists id, id ∈ idl /\ locate rows id = None /\ r = Err (not_in_dataset id)
       end.
Proof.
  intros Hl Hst Hm Hr Hids Hf32 Hn Hu. cbn zeta. unfold resolve_row_ids. rewrite Hl. cbn [mbind res_bind]. rewrite Hst.
  destruct (build_spec content decompress storage limits dataset_path manifest rows Hm Hr Hn) as (index & -> & Hfind). cbn [mbind res_bind].
  pose proof (resolve_steps content decompress storage limits dataset_path manifest rows Hm Hr Hids Hf32 index idl skip_missing skip_deleted
    ∅ [] Hn Hu Hfind ltac:(intros r _ l; by rewrite lookup_empty)) as H. cbn zeta in H.
  destruct skip_missing; [destruct H as [c ->]; done|]. destruct (mapM (locate rows) idl) as [l|].
  - destruct H as [c ->]. done.
  - destruct H as (id & Hin & Hloc & ->). eauto.
Qed.

Lemma resolve_row_ids_correct_witness :
  resolve_row_ids (fun _ => DeletionVector.ContentError) (fun _ _ => None) sample_storage initial_read_limits
    (fun _ => Ok sample_manifest) "/ds" None [11; 99; 10] true false = Ok [4294967296; 0].
Proof.
  pose proof (resolve_row_ids_correct (fun _ => DeletionVector.ContentError) (fun _ _ => None) sample_storage initial_read_limits
    (fun _ => Ok sample_manifest) "/ds" None sample_manifest sample_rows [11; 99; 10] true false eq_refl eq_refl eq_refl sample_rows_ok) as H.
  cbn zeta iota in H. rewrite H.
  - vm_compute. reflexivity.
  - by apply (bool_decide_unpack (NoDup [0; 1])).
  - repeat constructor; vm_compute; congruence.
  - by apply (bool_decide_unpack (NoDup [10; 12; 11; 3])).
  - repeat constructor; vm_compute; congruence.
Defined.

End RowIdIndex.
