(* ===== verification/Operation.v ===== *)
(** * Operation: a transaction's operation (src/table/dataset_operation.hpp and .cpp)

    The wire reader of the transaction layer, the decoded [Operation] and its decoder, and the merging
    of update maps. The decoders of the generated messages are nanom's protobuf codec behind
    generated/lance_minimal.pb.cpp, outside the repository: they are parameters. *)

From S2P Require Import Prelude ProtoWire Pb.

Module Operation.

(** ** The wire reader *)

(** [WireField]: [w_data] is [data, data + size). *)
Record WireField := mkWireField { w_number : Z; w_wire : Z; w_value : Z; w_data : list Z }.

(** [f.text()]. *)
Definition text (f : WireField) : string := string_of_bytes (w_data f).

(** [WireReader::varint] on the bytes from [at_]: [n] counts the shifts left below 64. [None] is
    [false]; the bytes after it are returned too, for [append_varints] calls it in a loop. *)
Fixpoint wire_varint_loop (n : nat) (shift out : Z) (at_ : list Z) : option Z * list Z :=
  match n, at_ with
  | S n, b :: rest =>
      let out := Z.lor out (u64 (Z.shiftl (Z.land b 127) shift)) in
      if Z.land b 128 =? 0 then (Some out, rest) else wire_varint_loop n (shift + 7) out rest
  | _, _ => (None, at_)
  end.

Definition wire_varint (at_ : list Z) : option Z * list Z := wire_varint_loop 10 0 0 at_.

(** [f.value = (f.value << 8) | at_[i]] from the last byte to the first. *)
Definition fixed_value (bs : list Z) : Z := foldr (fun b v => Z.lor (u64 (Z.shiftl v 8)) b) 0 bs.

Inductive wire_next :=
  | NextEnd
  | NextBad
  | NextField (f : WireField) (rest : list Z).

(** [WireReader::next]. *)
Definition next_wire (at_ : list Z) : wire_next :=
  match at_ with
  | [] => NextEnd
  | _ =>
      match wire_varint at_ with
      | (None, _) => NextBad
      | (Some key, rest) =>
          let number := u32 (Z.shiftr key 3) in
          let wire := Z.land key 7 in
          if wire =? 0 then
            match wire_varint rest with
            | (Some v, rest) => NextField (mkWireField number wire v []) rest
            | (None, _) => NextBad
            end
          else if wire =? 1 then
            match take_bytes 8 rest with
            | Some (d, rest) => NextField (mkWireField number wire (fixed_value d) []) rest
            | None => NextBad
            end
          else if wire =? 2 then
            match wire_varint rest with
            | (Some n, rest) =>
                match take_bytes n rest with
                | Some (d, rest) => NextField (mkWireField number wire 0 d) rest
                | None => NextBad
                end
            | (None, _) => NextBad
            end
          else if wire =? 5 then
            match take_bytes 4 rest with
            | Some (d, rest) => NextField (mkWireField number wire (fixed_value d) []) rest
            | None => NextBad
            end
          else NextBad
      end
  end.

(** [while (r.next(f))]: the fields seen, and [bad()] after the loop. *)
Fixpoint wire_fields_loop (fuel : nat) (at_ : list Z) : list WireField * bool :=
  match fuel with
  | O => ([], false)
  | S fuel =>
      match next_wire at_ with
      | NextEnd => ([], false)
      | NextBad => ([], true)
      | NextField f rest => let '(fs, bad) := wire_fields_loop fuel rest in (f :: fs, bad)
      end
  end.

Definition wire_fields (bytes : list Z) : list WireField * bool := wire_fields_loop (S (length bytes)) bytes.

(** The fields of a nested message, whose reader's [bad()] is not looked at. *)
Definition inner_fields (f : WireField) : list WireField := (wire_fields (w_data f)).1.

(** [while (r.varint(v)) out.push_back(v)]. *)
Fixpoint packed_varints (fuel : nat) (at_ : list Z) : list Z :=
  match fuel with
  | O => []
  | S fuel =>
      match wire_varint at_ with
      | (Some v, rest) => v :: packed_varints fuel rest
      | (None, _) => []
      end
  end.

Definition append_varints (f : WireField) (out : list Z) : list Z :=
  if w_wire f =? 0 then out ++ [w_value f] else out ++ packed_varints (S (length (w_data f))) (w_data f).

(** A map<string, bytes> entry. *)
Definition map_entry (f : WireField) : string * list Z :=
  foldl (fun out e => if w_number e =? 1 then (text e, out.2) else if w_number e =? 2 then (out.1, w_data e) else out)
    ("", []) (inner_fields f).

(** ** Update maps *)

Record UpdateMap := mkUpdateMap { entries : list (string * option string); replace_ : bool }.

Definition UpdateMap0 : UpdateMap := mkUpdateMap [] false.

Definition update_entry (e : WireField) : string * option string :=
  foldl (fun kv g => if w_number g =? 1 then (text g, kv.2) else if w_number g =? 2 then (kv.1, Some (text g)) else kv)
    ("", None) (inner_fields e).

Definition decode_update_map (f : WireField) : UpdateMap :=
  foldl (fun out e =>
      if w_number e =? 1 then mkUpdateMap (entries out ++ [update_entry e]) (replace_ out)
      else if w_number e =? 2 then mkUpdateMap (entries out) (negb (w_value e =? 0))
      else out)
    UpdateMap0 (inner_fields f).

Definition apply_entry {V} (convert : string -> V) (target : gmap string V) (e : string * option string) : gmap string V :=
  match e.2 with
  | Some value => <[e.1 := convert value]> target
  | None => delete e.1 target
  end.

Definition apply_update_map {V} (convert : string -> V) (target : gmap string V) (update : UpdateMap) : gmap string V :=
  foldl (apply_entry convert) (if replace_ update then ∅ else target) (entries update).

(** ** Operations *)

Definition kAppend : Z := 100.
Definition kDelete : Z := 101.
Definition kOverwrite : Z := 102.
Definition kCreateIndex : Z := 103.
Definition kRewrite : Z := 104.
Definition kMerge : Z := 105.
Definition kRestore : Z := 106.
Definition kReserveFragments : Z := 107.
Definition kUpdate : Z := 108.
Definition kProject : Z := 109.
Definition kUpdateConfig : Z := 110.
Definition kDataReplacement : Z := 111.
Definition kCloneField : Z := 113.
Definition kUpdateBases : Z := 114.
Definition kDataOverlay : Z := 115.
Definition kFirstOperationField : Z := 100.
Definition kLastOperationField : Z := 115.

Definition operation_names : list (Z * string) :=
  [(kAppend, "Append"); (kDelete, "Delete"); (kOverwrite, "Overwrite"); (kCreateIndex, "CreateIndex");
   (kRewrite, "Rewrite"); (kMerge, "Merge"); (kRestore, "Restore"); (kReserveFragments, "ReserveFragments");
   (kUpdate, "Update"); (kProject, "Project"); (kUpdateConfig, "UpdateConfig");
   (kDataReplacement, "DataReplacement"); (kUpdateBases, "UpdateBases"); (kDataOverlay, "DataOverlay")].

Definition operation_name (field : Z) : string :=
  match list_find (fun p => p.1 = field) operation_names with Some (_, p) => p.2 | None => "an operation" end.

Record RewriteGroup := mkRewriteGroup { old_fragments : list pb.DataFragment; new_fragments : list pb.DataFragment }.

Record RewrittenIndex := mkRewrittenIndex {
  old_id : list Z;
  new_id : list Z;
  details_type_url : string;
  details_value : list Z;
  index_version : Z
}.

Record Operation := mkOperation {
  kind : Z;
  fragments : list pb.DataFragment;
  updated_fragments : list pb.DataFragment;
  removed_ids : list Z;
  has_schema : bool;
  schema : list pb.Field;
  has_schema_metadata : bool;
  schema_metadata : gmap string (list Z);
  config_upserts : gmap string string;
  initial_bases : list (list Z);
  fields_modified : list Z;
  rewrite_columns : bool;
  updated_fragment_offsets : list (Z * list Z);
  groups : list RewriteGroup;
  rewritten_indices : list RewrittenIndex;
  restore_version : Z;
  reserve : Z;
  config_updates : option UpdateMap;
  table_metadata_updates : option UpdateMap;
  schema_metadata_updates : option UpdateMap;
  field_metadata_updates : gmap Z UpdateMap;
  replacements : list (Z * pb.DataFile);
  new_bases : list (list Z);
  overlay_groups : list (Z * list (list Z));
  new_indices : list pb.IndexMetadata;
  removed_indices : list pb.IndexMetadata;
  preserves_nullability : bool
}.

(** A default-constructed operation, and one assignment per member the decoder writes. *)
Definition Operation0 : Operation :=
  mkOperation 0 [] [] [] false [] false ∅ ∅ [] [] false [] [] [] 0 0 None None None ∅ [] [] [] [] [] false.

Definition set_kind (v : Z) (op : Operation) : Operation :=
  mkOperation v (fragments op) (updated_fragments op) (removed_ids op) (has_schema op) (schema op)
    (has_schema_metadata op) (schema_metadata op) (config_upserts op) (initial_bases op) (fields_modified op)
    (rewrite_columns op) (updated_fragment_offsets op) (groups op) (rewritten_indices op) (restore_version op)
    (reserve op) (config_updates op) (table_metadata_updates op) (schema_metadata_updates op)
    (field_metadata_updates op) (replacements op) (new_bases op) (overlay_groups op) (new_indices op)
    (removed_indices op) (preserves_nullability op).
Definition set_fragments (v : list pb.DataFragment) (op : Operation) : Operation :=
  mkOperation (kind op) v (updated_fragments op) (removed_ids op) (has_schema op) (schema op)
    (has_schema_metadata op) (schema_metadata op) (config_upserts op) (initial_bases op) (fields_modified op)
    (rewrite_columns op) (updated_fragment_offsets op) (groups op) (rewritten_indices op) (restore_version op)
    (reserve op) (config_updates op) (table_metadata_updates op) (schema_metadata_updates op)
    (field_metadata_updates op) (replacements op) (new_bases op) (overlay_groups op) (new_indices op)
    (removed_indices op) (preserves_nullability op).
Definition set_updated_fragments (v : list pb.DataFragment) (op : Operation) : Operation :=
  mkOperation (kind op) (fragments op) v (removed_ids op) (has_schema op) (schema op) (has_schema_metadata op)
    (schema_metadata op) (config_upserts op) (initial_bases op) (fields_modified op) (rewrite_columns op)
    (updated_fragment_offsets op) (groups op) (rewritten_indices op) (restore_version op) (reserve op)
    (config_updates op) (table_metadata_updates op) (schema_metadata_updates op) (field_metadata_updates op)
    (replacements op) (new_bases op) (overlay_groups op) (new_indices op) (removed_indices op)
    (preserves_nullability op).
Definition set_removed_ids (v : list Z) (op : Operation) : Operation :=
  mkOperation (kind op) (fragments op) (updated_fragments op) v (has_schema op) (schema op)
    (has_schema_metadata op) (schema_metadata op) (config_upserts op) (initial_bases op) (fields_modified op)
    (rewrite_columns op) (updated_fragment_offsets op) (groups op) (rewritten_indices op) (restore_version op)
    (reserve op) (config_updates op) (table_metadata_updates op) (schema_metadata_updates op)
    (field_metadata_updates op) (replacements op) (new_bases op) (overlay_groups op) (new_indices op)
    (removed_indices op) (preserves_nullability op).
Definition set_has_schema (v : bool) (op : Operation) : Operation :=
  mkOperation (kind op) (fragments op) (updated_fragments op) (removed_ids op) v (schema op)
    (has_schema_metadata op) (schema_metadata op) (config_upserts op) (initial_bases op) (fields_modified op)
    (rewrite_columns op) (updated_fragment_offsets op) (groups op) (rewritten_indices op) (restore_version op)
    (reserve op) (config_updates op) (table_metadata_updates op) (schema_metadata_updates op)
    (field_metadata_updates op) (replacements op) (new_bases op) (overlay_groups op) (new_indices op)
    (removed_indices op) (preserves_nullability op).
Definition set_schema (v : list pb.Field) (op : Operation) : Operation :=
  mkOperation (kind op) (fragments op) (updated_fragments op) (removed_ids op) (has_schema op) v
    (has_schema_metadata op) (schema_metadata op) (config_upserts op) (initial_bases op) (fields_modified op)
    (rewrite_columns op) (updated_fragment_offsets op) (groups op) (rewritten_indices op) (restore_version op)
    (reserve op) (config_updates op) (table_metadata_updates op) (schema_metadata_updates op)
    (field_metadata_updates op) (replacements op) (new_bases op) (overlay_groups op) (new_indices op)
    (removed_indices op) (preserves_nullability op).
Definition set_has_schema_metadata (v : bool) (op : Operation) : Operation :=
  mkOperation (kind op) (fragments op) (updated_fragments op) (removed_ids op) (has_schema op) (schema op) v
    (schema_metadata op) (config_upserts op) (initial_bases op) (fields_modified op) (rewrite_columns op)
    (updated_fragment_offsets op) (groups op) (rewritten_indices op) (restore_version op) (reserve op)
    (config_updates op) (table_metadata_updates op) (schema_metadata_updates op) (field_metadata_updates op)
    (replacements op) (new_bases op) (overlay_groups op) (new_indices op) (removed_indices op)
    (preserves_nullability op).
Definition set_schema_metadata (v : gmap string (list Z)) (op : Operation) : Operation :=
  mkOperation (kind op) (fragments op) (updated_fragments op) (removed_ids op) (has_schema op) (schema op)
    (has_schema_metadata op) v (config_upserts op) (initial_bases op) (fields_modified op)
    (rewrite_columns op) (updated_fragment_offsets op) (groups op) (rewritten_indices op) (restore_version op)
    (reserve op) (config_updates op) (table_metadata_updates op) (schema_metadata_updates op)
    (field_metadata_updates op) (replacements op) (new_bases op) (overlay_groups op) (new_indices op)
    (removed_indices op) (preserves_nullability op).
Definition set_config_upserts (v : gmap string string) (op : Operation) : Operation :=
  mkOperation (kind op) (fragments op) (updated_fragments op) (removed_ids op) (has_schema op) (schema op)
    (has_schema_metadata op) (schema_metadata op) v (initial_bases op) (fields_modified op)
    (rewrite_columns op) (updated_fragment_offsets op) (groups op) (rewritten_indices op) (restore_version op)
    (reserve op) (config_updates op) (table_metadata_updates op) (schema_metadata_updates op)
    (field_metadata_updates op) (replacements op) (new_bases op) (overlay_groups op) (new_indices op)
    (removed_indices op) (preserves_nullability op).
Definition set_initial_bases (v : list (list Z)) (op : Operation) : Operation :=
  mkOperation (kind op) (fragments op) (updated_fragments op) (removed_ids op) (has_schema op) (schema op)
    (has_schema_metadata op) (schema_metadata op) (config_upserts op) v (fields_modified op)
    (rewrite_columns op) (updated_fragment_offsets op) (groups op) (rewritten_indices op) (restore_version op)
    (reserve op) (config_updates op) (table_metadata_updates op) (schema_metadata_updates op)
    (field_metadata_updates op) (replacements op) (new_bases op) (overlay_groups op) (new_indices op)
    (removed_indices op) (preserves_nullability op).
Definition set_fields_modified (v : list Z) (op : Operation) : Operation :=
  mkOperation (kind op) (fragments op) (updated_fragments op) (removed_ids op) (has_schema op) (schema op)
    (has_schema_metadata op) (schema_metadata op) (config_upserts op) (initial_bases op) v
    (rewrite_columns op) (updated_fragment_offsets op) (groups op) (rewritten_indices op) (restore_version op)
    (reserve op) (config_updates op) (table_metadata_updates op) (schema_metadata_updates op)
    (field_metadata_updates op) (replacements op) (new_bases op) (overlay_groups op) (new_indices op)
    (removed_indices op) (preserves_nullability op).
Definition set_rewrite_columns (v : bool) (op : Operation) : Operation :=
  mkOperation (kind op) (fragments op) (updated_fragments op) (removed_ids op) (has_schema op) (schema op)
    (has_schema_metadata op) (schema_metadata op) (config_upserts op) (initial_bases op) (fields_modified op)
    v (updated_fragment_offsets op) (groups op) (rewritten_indices op) (restore_version op) (reserve op)
    (config_updates op) (table_metadata_updates op) (schema_metadata_updates op) (field_metadata_updates op)
    (replacements op) (new_bases op) (overlay_groups op) (new_indices op) (removed_indices op)
    (preserves_nullability op).
Definition set_updated_fragment_offsets (v : list (Z * list Z)) (op : Operation) : Operation :=
  mkOperation (kind op) (fragments op) (updated_fragments op) (removed_ids op) (has_schema op) (schema op)
    (has_schema_metadata op) (schema_metadata op) (config_upserts op) (initial_bases op) (fields_modified op)
    (rewrite_columns op) v (groups op) (rewritten_indices op) (restore_version op) (reserve op)
    (config_updates op) (table_metadata_updates op) (schema_metadata_updates op) (field_metadata_updates op)
    (replacements op) (new_bases op) (overlay_groups op) (new_indices op) (removed_indices op)
    (preserves_nullability op).
Definition set_groups (v : list RewriteGroup) (op : Operation) : Operation :=
  mkOperation (kind op) (fragments op) (updated_fragments op) (removed_ids op) (has_schema op) (schema op)
    (has_schema_metadata op) (schema_metadata op) (config_upserts op) (initial_bases op) (fields_modified op)
    (rewrite_columns op) (updated_fragment_offsets op) v (rewritten_indices op) (restore_version op)
    (reserve op) (config_updates op) (table_metadata_updates op) (schema_metadata_updates op)
    (field_metadata_updates op) (replacements op) (new_bases op) (overlay_groups op) (new_indices op)
    (removed_indices op) (preserves_nullability op).
Definition set_rewritten_indices (v : list RewrittenIndex) (op : Operation) : Operation :=
  mkOperation (kind op) (fragments op) (updated_fragments op) (removed_ids op) (has_schema op) (schema op)
    (has_schema_metadata op) (schema_metadata op) (config_upserts op) (initial_bases op) (fields_modified op)
    (rewrite_columns op) (updated_fragment_offsets op) (groups op) v (restore_version op) (reserve op)
    (config_updates op) (table_metadata_updates op) (schema_metadata_updates op) (field_metadata_updates op)
    (replacements op) (new_bases op) (overlay_groups op) (new_indices op) (removed_indices op)
    (preserves_nullability op).
Definition set_restore_version (v : Z) (op : Operation) : Operation :=
  mkOperation (kind op) (fragments op) (updated_fragments op) (removed_ids op) (has_schema op) (schema op)
    (has_schema_metadata op) (schema_metadata op) (config_upserts op) (initial_bases op) (fields_modified op)
    (rewrite_columns op) (updated_fragment_offsets op) (groups op) (rewritten_indices op) v (reserve op)
    (config_updates op) (table_metadata_updates op) (schema_metadata_updates op) (field_metadata_updates op)
    (replacements op) (new_bases op) (overlay_groups op) (new_indices op) (removed_indices op)
    (preserves_nullability op).
Definition set_reserve (v : Z) (op : Operation) : Operation :=
  mkOperation (kind op) (fragments op) (updated_fragments op) (removed_ids op) (has_schema op) (schema op)
    (has_schema_metadata op) (schema_metadata op) (config_upserts op) (initial_bases op) (fields_modified op)
    (rewrite_columns op) (updated_fragment_offsets op) (groups op) (rewritten_indices op) (restore_version op)
    v (config_updates op) (table_metadata_updates op) (schema_metadata_updates op) (field_metadata_updates op)
    (replacements op) (new_bases op) (overlay_groups op) (new_indices op) (removed_indices op)
    (preserves_nullability op).
Definition set_config_updates (v : option UpdateMap) (op : Operation) : Operation :=
  mkOperation (kind op) (fragments op) (updated_fragments op) (removed_ids op) (has_schema op) (schema op)
    (has_schema_metadata op) (schema_metadata op) (config_upserts op) (initial_bases op) (fields_modified op)
    (rewrite_columns op) (updated_fragment_offsets op) (groups op) (rewritten_indices op) (restore_version op)
    (reserve op) v (table_metadata_updates op) (schema_metadata_updates op) (field_metadata_updates op)
    (replacements op) (new_bases op) (overlay_groups op) (new_indices op) (removed_indices op)
    (preserves_nullability op).
Definition set_table_metadata_updates (v : option UpdateMap) (op : Operation) : Operation :=
  mkOperation (kind op) (fragments op) (updated_fragments op) (removed_ids op) (has_schema op) (schema op)
    (has_schema_metadata op) (schema_metadata op) (config_upserts op) (initial_bases op) (fields_modified op)
    (rewrite_columns op) (updated_fragment_offsets op) (groups op) (rewritten_indices op) (restore_version op)
    (reserve op) (config_updates op) v (schema_metadata_updates op) (field_metadata_updates op)
    (replacements op) (new_bases op) (overlay_groups op) (new_indices op) (removed_indices op)
    (preserves_nullability op).
Definition set_schema_metadata_updates (v : option UpdateMap) (op : Operation) : Operation :=
  mkOperation (kind op) (fragments op) (updated_fragments op) (removed_ids op) (has_schema op) (schema op)
    (has_schema_metadata op) (schema_metadata op) (config_upserts op) (initial_bases op) (fields_modified op)
    (rewrite_columns op) (updated_fragment_offsets op) (groups op) (rewritten_indices op) (restore_version op)
    (reserve op) (config_updates op) (table_metadata_updates op) v (field_metadata_updates op)
    (replacements op) (new_bases op) (overlay_groups op) (new_indices op) (removed_indices op)
    (preserves_nullability op).
Definition set_field_metadata_updates (v : gmap Z UpdateMap) (op : Operation) : Operation :=
  mkOperation (kind op) (fragments op) (updated_fragments op) (removed_ids op) (has_schema op) (schema op)
    (has_schema_metadata op) (schema_metadata op) (config_upserts op) (initial_bases op) (fields_modified op)
    (rewrite_columns op) (updated_fragment_offsets op) (groups op) (rewritten_indices op) (restore_version op)
    (reserve op) (config_updates op) (table_metadata_updates op) (schema_metadata_updates op) v
    (replacements op) (new_bases op) (overlay_groups op) (new_indices op) (removed_indices op)
    (preserves_nullability op).
Definition set_replacements (v : list (Z * pb.DataFile)) (op : Operation) : Operation :=
  mkOperation (kind op) (fragments op) (updated_fragments op) (removed_ids op) (has_schema op) (schema op)
    (has_schema_metadata op) (schema_metadata op) (config_upserts op) (initial_bases op) (fields_modified op)
    (rewrite_columns op) (updated_fragment_offsets op) (groups op) (rewritten_indices op) (restore_version op)
    (reserve op) (config_updates op) (table_metadata_updates op) (schema_metadata_updates op)
    (field_metadata_updates op) v (new_bases op) (overlay_groups op) (new_indices op) (removed_indices op)
    (preserves_nullability op).
Definition set_new_bases (v : list (list Z)) (op : Operation) : Operation :=
  mkOperation (kind op) (fragments op) (updated_fragments op) (removed_ids op) (has_schema op) (schema op)
    (has_schema_metadata op) (schema_metadata op) (config_upserts op) (initial_bases op) (fields_modified op)
    (rewrite_columns op) (updated_fragment_offsets op) (groups op) (rewritten_indices op) (restore_version op)
    (reserve op) (config_updates op) (table_metadata_updates op) (schema_metadata_updates op)
    (field_metadata_updates op) (replacements op) v (overlay_groups op) (new_indices op) (removed_indices op)
    (preserves_nullability op).
Definition set_overlay_groups (v : list (Z * list (list Z))) (op : Operation) : Operation :=
  mkOperation (kind op) (fragments op) (updated_fragments op) (removed_ids op) (has_schema op) (schema op)
    (has_schema_metadata op) (schema_metadata op) (config_upserts op) (initial_bases op) (fields_modified op)
    (rewrite_columns op) (updated_fragment_offsets op) (groups op) (rewritten_indices op) (restore_version op)
    (reserve op) (config_updates op) (table_metadata_updates op) (schema_metadata_updates op)
    (field_metadata_updates op) (replacements op) (new_bases op) v (new_indices op) (removed_indices op)
    (preserves_nullability op).
Definition set_new_indices (v : list pb.IndexMetadata) (op : Operation) : Operation :=
  mkOperation (kind op) (fragments op) (updated_fragments op) (removed_ids op) (has_schema op) (schema op)
    (has_schema_metadata op) (schema_metadata op) (config_upserts op) (initial_bases op) (fields_modified op)
    (rewrite_columns op) (updated_fragment_offsets op) (groups op) (rewritten_indices op) (restore_version op)
    (reserve op) (config_updates op) (table_metadata_updates op) (schema_metadata_updates op)
    (field_metadata_updates op) (replacements op) (new_bases op) (overlay_groups op) v (removed_indices op)
    (preserves_nullability op).
Definition set_removed_indices (v : list pb.IndexMetadata) (op : Operation) : Operation :=
  mkOperation (kind op) (fragments op) (updated_fragments op) (removed_ids op) (has_schema op) (schema op)
    (has_schema_metadata op) (schema_metadata op) (config_upserts op) (initial_bases op) (fields_modified op)
    (rewrite_columns op) (updated_fragment_offsets op) (groups op) (rewritten_indices op) (restore_version op)
    (reserve op) (config_updates op) (table_metadata_updates op) (schema_metadata_updates op)
    (field_metadata_updates op) (replacements op) (new_bases op) (overlay_groups op) (new_indices op) v
    (preserves_nullability op).
Definition set_preserves_nullability (v : bool) (op : Operation) : Operation :=
  mkOperation (kind op) (fragments op) (updated_fragments op) (removed_ids op) (has_schema op) (schema op)
    (has_schema_metadata op) (schema_metadata op) (config_upserts op) (initial_bases op) (fields_modified op)
    (rewrite_columns op) (updated_fragment_offsets op) (groups op) (rewritten_indices op) (restore_version op)
    (reserve op) (config_updates op) (table_metadata_updates op) (schema_metadata_updates op)
    (field_metadata_updates op) (replacements op) (new_bases op) (overlay_groups op) (new_indices op)
    (removed_indices op) v.

(** ** The decoder *)

Section decoder.
  (** nanom's codecs of the generated messages. *)
  Context (decode_data_fragment : list Z -> option pb.DataFragment).
  Context (decode_field : list Z -> option pb.Field).
  Context (decode_data_file : list Z -> option pb.DataFile).
  Context (decode_index_message : list Z -> option pb.IndexMetadata).

Definition decode_fragment (f : WireField) : res pb.DataFragment :=
  match decode_data_fragment (w_data f) with
  | Some out => Ok out
  | None => Err "Invalid user input: a fragment of the transaction could not be decoded"
  end.

Fixpoint decode_fields (protos : list WireField) : res (list pb.Field) :=
  match protos with
  | [] => Ok []
  | p :: protos =>
      match decode_field (w_data p) with
      | Some field => out ← decode_fields protos; Ok (field :: out)
      | None => Err "Invalid user input: a schema field of the transaction could not be decoded"
      end
  end.

(** [uuid_of]: the first 16-byte field 1, into [out]. *)
Definition uuid_of (f : WireField) (out : list Z) : list Z :=
  match list_find (fun e => w_number e = 1 /\ zlen (w_data e) = 16) (inner_fields f) with
  | Some (_, e) => w_data e
  | None => out
  end.

(** [fragment_into]: decode [f] and append it with [add]. *)
Definition fragment_into (f : WireField) (add : pb.DataFragment -> Operation) : res Operation :=
  frag ← decode_fragment f; Ok (add frag).

Definition add_fragment (op : Operation) (frag : pb.DataFragment) : Operation := set_fragments (fragments op ++ [frag]) op.
Definition add_updated (op : Operation) (frag : pb.DataFragment) : Operation :=
  set_updated_fragments (updated_fragments op ++ [frag]) op.

(** The state of the loop: the operation and the schema fields seen. *)
Definition op_state : Type := Operation * list WireField.

Definition append_field (s : op_state) (f : WireField) : res op_state :=
  if w_number f =? 1 then op ← fragment_into f (add_fragment s.1); Ok (op, s.2) else Ok s.

Definition delete_field (s : op_state) (f : WireField) : res op_state :=
  op ← (if w_number f =? 1 then fragment_into f (add_updated s.1) else Ok s.1);
  Ok (if w_number f =? 2 then set_removed_ids (append_varints f (removed_ids op)) op else op, s.2).

(** Overwrite and Merge. *)
Definition overwrite_field (kind_ : Z) (s : op_state) (f : WireField) : res op_state :=
  let n := w_number f in
  op ← (if n =? 1 then fragment_into f (add_fragment s.1) else Ok s.1);
  let schema_ := if n =? 2 then s.2 ++ [f] else s.2 in
  let op :=
    if n =? 3 then
      let '(k, v) := map_entry f in
      set_schema_metadata (match schema_metadata op !! k with Some _ => schema_metadata op | None => <[k := v]> (schema_metadata op) end)
        (set_has_schema_metadata true op)
    else op in
  let op :=
    if (kind_ =? kOverwrite) && (n =? 4)
    then let '(k, v) := map_entry f in set_config_upserts (<[k := string_of_bytes v]> (config_upserts op)) op else op in
  let op := if (kind_ =? kOverwrite) && (n =? 5) then set_initial_bases (initial_bases op ++ [w_data f]) op else op in
  let op := if (kind_ =? kMerge) && (n =? 4) then set_preserves_nullability (negb (w_value f =? 0)) op else op in
  Ok (op, schema_).

Definition project_field (s : op_state) (f : WireField) : res op_state :=
  Ok (if w_number f =? 2 then set_preserves_nullability (negb (w_value f =? 0)) s.1 else s.1,
      if w_number f =? 1 then s.2 ++ [f] else s.2).

Definition create_index_field (s : op_state) (f : WireField) : res op_state :=
  if (w_number f =? 1) || (w_number f =? 2) then
    match decode_index_message (w_data f) with
    | None => Err "Invalid user input: an index of the transaction could not be decoded"
    | Some index =>
        Ok (if w_number f =? 1 then set_new_indices (new_indices s.1 ++ [index]) s.1
            else set_removed_indices (removed_indices s.1 ++ [index]) s.1, s.2)
    end
  else Ok s.

Definition restore_field (s : op_state) (f : WireField) : res op_state :=
  Ok (if w_number f =? 1 then set_restore_version (w_value f) s.1 else s.1, s.2).

Definition reserve_field (s : op_state) (f : WireField) : res op_state :=
  Ok (if w_number f =? 1 then set_reserve (w_value f) s.1 else s.1, s.2).

(** The entry of an Update's offsets: the fragment and a Roaring bitmap. *)
Definition offsets_entry (f : WireField) : Z * list Z :=
  foldl (fun e g => let e := if w_number g =? 1 then (w_value g, e.2) else e in
                    if w_number g =? 2 then (e.1, w_data g) else e) (0, []) (inner_fields f).

Definition update_field (s : op_state) (f : WireField) : res op_state :=
  let n := w_number f in
  let op := if n =? 1 then set_removed_ids (append_varints f (removed_ids s.1)) s.1 else s.1 in
  op ← (if n =? 2 then fragment_into f (add_updated op) else Ok op);
  op ← (if n =? 3 then fragment_into f (add_fragment op) else Ok op);
  let op := if n =? 4 then set_fields_modified (append_varints f (fields_modified op)) op else op in
  let op := if n =? 7 then set_rewrite_columns (w_value f =? 1) op else op in
  let op := if n =? 10 then set_updated_fragment_offsets (updated_fragment_offsets op ++ [offsets_entry f]) op else op in
  Ok (op, s.2).

(** The deprecated single group: the first group, made when there is none. *)
Definition first_group (op : Operation) (change : RewriteGroup -> RewriteGroup) : Operation :=
  match groups op with
  | [] => set_groups [change (mkRewriteGroup [] [])] op
  | g :: gs => set_groups (change g :: gs) op
  end.

Definition group_field (group : RewriteGroup) (g : WireField) : res RewriteGroup :=
  if w_number g =? 1 then
    frag ← decode_fragment g; Ok (mkRewriteGroup (old_fragments group ++ [frag]) (new_fragments group))
  else if w_number g =? 2 then
    frag ← decode_fragment g; Ok (mkRewriteGroup (old_fragments group) (new_fragments group ++ [frag]))
  else Ok group.

Definition rewritten_index_field (ri : RewrittenIndex) (g : WireField) : RewrittenIndex :=
  let n := w_number g in
  if n =? 1 then mkRewrittenIndex (uuid_of g (old_id ri)) (new_id ri) (details_type_url ri) (details_value ri) (index_version ri)
  else if n =? 2 then mkRewrittenIndex (old_id ri) (uuid_of g (new_id ri)) (details_type_url ri) (details_value ri) (index_version ri)
  else if n =? 3 then
    let '(url, value) := foldl (fun a h => if w_number h =? 1 then (text h, a.2) else if w_number h =? 2 then (a.1, w_data h) else a)
                           (details_type_url ri, details_value ri) (inner_fields g) in
    mkRewrittenIndex (old_id ri) (new_id ri) url value (index_version ri)
  else if n =? 4 then mkRewrittenIndex (old_id ri) (new_id ri) (details_type_url ri) (details_value ri) (u32 (w_value g))
  else ri.

Definition no_uuid : list Z := replicate 16 0.

Definition rewrite_field (s : op_state) (f : WireField) : res op_state :=
  let n := w_number f in
  let op := s.1 in
  if (n =? 1) || (n =? 2) then
    frag ← decode_fragment f;
    Ok (first_group op (fun g => if n =? 1 then mkRewriteGroup (old_fragments g ++ [frag]) (new_fragments g)
                                 else mkRewriteGroup (old_fragments g) (new_fragments g ++ [frag])), s.2)
  else if n =? 3 then
    group ← fold_res group_field (inner_fields f) (mkRewriteGroup [] []);
    Ok (set_groups (groups op ++ [group]) op, s.2)
  else if n =? 4 then
    Ok (set_rewritten_indices (rewritten_indices op ++
          [foldl rewritten_index_field (mkRewrittenIndex no_uuid no_uuid "" [] 0) (inner_fields f)]) op, s.2)
  else Ok s.

Definition update_bases_field (s : op_state) (f : WireField) : res op_state :=
  Ok (if w_number f =? 1 then set_new_bases (new_bases s.1 ++ [w_data f]) s.1 else s.1, s.2).

(** The value of a varint cast to [std::int32_t]. *)
Definition to_int32 (v : Z) : Z := let w := u32 v in if 2 ^ 31 <=? w then w - 2 ^ 32 else w.

(** [maps->entries.emplace_back(k, v)], after making the map when there is none. *)
Definition push_entry (m : option UpdateMap) (fresh : UpdateMap) (e : string * option string) : option UpdateMap :=
  let m := default fresh m in Some (mkUpdateMap (entries m ++ [e]) (replace_ m)).

Definition update_config_field (s : op_state) (f : WireField) : res op_state :=
  let n := w_number f in
  let op := s.1 in
  let op := if n =? 6 then set_config_updates (Some (decode_update_map f)) op else op in
  let op := if n =? 7 then set_table_metadata_updates (Some (decode_update_map f)) op else op in
  let op := if n =? 8 then set_schema_metadata_updates (Some (decode_update_map f)) op else op in
  let op :=
    if n =? 9 then
      let '(id, m) := foldl (fun a e => let a := if w_number e =? 1 then (to_int32 (w_value e), a.2) else a in
                                        if w_number e =? 2 then (a.1, decode_update_map e) else a) (0, UpdateMap0) (inner_fields f) in
      set_field_metadata_updates (<[id := m]> (field_metadata_updates op)) op
    else op in
  let op :=
    if n =? 1 then let '(k, v) := map_entry f in
      set_config_updates (push_entry (config_updates op) UpdateMap0 (k, Some (string_of_bytes v))) op else op in
  let op := if n =? 2 then set_config_updates (push_entry (config_updates op) UpdateMap0 (text f, None)) op else op in
  let op :=
    if n =? 3 then let '(k, v) := map_entry f in
      set_schema_metadata_updates (push_entry (schema_metadata_updates op) (mkUpdateMap [] true) (k, Some (string_of_bytes v))) op
    else op in
  Ok (op, s.2).

(** A DataReplacementGroup's fragment and its new file: the last file field decides whether there is one. *)
Definition replacement_of (f : WireField) : Z * option pb.DataFile :=
  foldl (fun a g => let a := if w_number g =? 1 then (w_value g, a.2) else a in
                    if w_number g =? 2 then (a.1, decode_data_file (w_data g)) else a) (0, None) (inner_fields f).

Definition data_replacement_field (s : op_state) (f : WireField) : res op_state :=
  if w_number f =? 1 then
    match replacement_of f with
    | (id, Some file) => Ok (set_replacements (replacements s.1 ++ [(id, file)]) s.1, s.2)
    | (_, None) => Err "Invalid user input: a DataReplacementGroup has no new file"
    end
  else Ok s.

Definition overlay_group (f : WireField) : Z * list (list Z) :=
  foldl (fun a g => let a := if w_number g =? 1 then (w_value g, a.2) else a in
                    if w_number g =? 2 then (a.1, a.2 ++ [w_data g]) else a) (0, []) (inner_fields f).

Definition data_overlay_field (s : op_state) (f : WireField) : res op_state :=
  Ok (if w_number f =? 1 then set_overlay_groups (overlay_groups s.1 ++ [overlay_group f]) s.1 else s.1, s.2).

Definition unsupported {A} (kind_ : Z) : res A := Err ("LanceDataset.commit of " +:+ operation_name kind_ +:+ " is not supported").

(** The kinds the decoder reads: the switch before the loop refuses every other, fields or none. *)
Definition decodes (kind_ : Z) : bool :=
  existsb (Z.eqb kind_) [kAppend; kDelete; kOverwrite; kMerge; kProject; kCreateIndex; kRestore; kReserveFragments; kUpdate; kRewrite;
    kUpdateBases; kUpdateConfig; kDataReplacement; kDataOverlay].

(** The switch in the loop's body. *)
Definition operation_field (kind_ : Z) (s : op_state) (f : WireField) : res op_state :=
  if kind_ =? kAppend then append_field s f
  else if kind_ =? kDelete then delete_field s f
  else if (kind_ =? kOverwrite) || (kind_ =? kMerge) then overwrite_field kind_ s f
  else if kind_ =? kProject then project_field s f
  else if kind_ =? kCreateIndex then create_index_field s f
  else if kind_ =? kRestore then restore_field s f
  else if kind_ =? kReserveFragments then reserve_field s f
  else if kind_ =? kUpdate then update_field s f
  else if kind_ =? kRewrite then rewrite_field s f
  else if kind_ =? kUpdateBases then update_bases_field s f
  else if kind_ =? kUpdateConfig then update_config_field s f
  else if kind_ =? kDataReplacement then data_replacement_field s f
  else if kind_ =? kDataOverlay then data_overlay_field s f
  else unsupported kind_.

Definition decode_operation (kind_ : Z) (message : list Z) : res Operation :=
  if negb (decodes kind_) then unsupported kind_
  else
    let '(fs, bad) := wire_fields message in
    '(op, schema_) ← fold_res (operation_field kind_) fs (set_kind kind_ Operation0, []);
    if bad : bool then Err "Invalid user input: the transaction's operation could not be decoded"
    else
      let op := set_has_schema (negb (bool_decide (schema_ = [])) || (kind_ =? kOverwrite) || (kind_ =? kMerge) || (kind_ =? kProject)) op in
      fields_ ← decode_fields schema_;
      Ok (set_schema fields_ op).

End decoder.

Definition transaction_file_operation (file : list Z) : res (Z * list Z) :=
  let '(fs, bad) := wire_fields file in
  match list_find (fun f => kFirstOperationField <= w_number f <= kLastOperationField /\ w_wire f = 2) fs with
  | Some (_, f) => Ok (w_number f, w_data f)
  | None => Err (if bad : bool then "a transaction file could not be decoded" else "a transaction file has no operation")
  end.

(** ** The two wire readers *)

Lemma wire_varint_loop_spec n shift out bs :
  wire_varint_loop n shift out bs =
  match varint_loop n shift out bs with (true, v, rest) => (Some v, rest) | (false, _, rest) => (None, rest) end.
Proof.
  revert shift out bs. induction n as [|n IH]; intros shift out bs; cbn [wire_varint_loop varint_loop]; [by destruct bs|].
  destruct bs as [|b bs]; [done|]. case_bool; [done | apply IH].
Qed.

Lemma wire_varint_spec bs :
  wire_varint bs = match varint bs with (true, v, rest) => (Some v, rest) | (false, _, rest) => (None, rest) end.
Proof. apply wire_varint_loop_spec. Qed.

(** A field as the transaction layer's reader presents it. *)
Definition wire_view (f : Field) : WireField :=
  mkWireField (number f) (wire f)
    (if wire f =? 0 then value f else if wire f =? 2 then 0 else fixed_value (field_bytes f))
    (if wire f =? 2 then field_bytes f else []).

Lemma next_wire_spec bs f :
  next_wire bs =
  match next (Reader_new bs) f with
  | (true, r, f') => NextField (wire_view f') (at_ r)
  | (false, r, _) => if ok_ r then NextEnd else NextBad
  end.
Proof.
  unfold next_wire, next, Reader_new. cbn [at_ ok_]. destruct bs as [|b bs]; [done|]. generalize (b :: bs). clear b bs. intros bs.
  rewrite wire_varint_spec. destruct (varint bs) as [[[] key] rest]; [|done]. cbn [negb].
  destruct (Z.eqb_spec (Z.land key 7) 0) as [E0|E0].
  { rewrite wire_varint_spec. destruct (varint rest) as [[[] v] r2]; [|done]. unfold wire_view. cbn. by rewrite !E0. }
  destruct (Z.eqb_spec (Z.land key 7) 1) as [E1|E1].
  { destruct (take_bytes 8 rest) as [[d r2]|]; [|done]. unfold wire_view. cbn. by rewrite !E1. }
  destruct (Z.eqb_spec (Z.land key 7) 2) as [E2|E2].
  { rewrite wire_varint_spec. destruct (varint rest) as [[[] v] r2]; [|done]. destruct (take_bytes v r2) as [[d r3]|]; [|done].
    unfold wire_view. cbn. by rewrite !E2. }
  destruct (Z.eqb_spec (Z.land key 7) 5) as [E5|E5]; [|done].
  destruct (take_bytes 4 rest) as [[d r2]|]; [|done]. unfold wire_view. cbn. by rewrite !E5.
Qed.

Lemma wire_fields_loop_spec n bs f :
  (length bs < n)%nat ->
  wire_fields_loop n bs = (let '(fs, r) := fields_loop n (Reader_new bs) f in (wire_view <$> fs, negb (ok_ r))).
Proof.
  revert bs f. induction n as [|n IH]; intros bs f Hn; [lia|]. cbn [wire_fields_loop fields_loop]. rewrite (next_wire_spec bs f).
  destruct (next (Reader_new bs) f) as [[[] r] f'] eqn:E.
  - pose proof (next_length _ _ _ _ E) as Hl. apply next_consumes in E as (_ & _ & Hok). destruct r as [bs' ok']. cbn in Hok, Hl. subst ok'.
    cbn [at_]. rewrite (IH bs' f') by lia. unfold Reader_new. by destruct (fields_loop n (mkReader bs' true) f').
  - destruct (ok_ r) eqn:Eok; cbn; by rewrite ?Eok.
Qed.

Lemma wire_fields_spec bytes : wire_fields bytes = (let '(fs, ok) := fields bytes in (wire_view <$> fs, negb ok)).
Proof.
  unfold wire_fields, fields, fields_from. rewrite (wire_fields_loop_spec _ _ Field0) by lia. by destruct (fields_loop _ _ _).
Qed.

(** the two protobuf readers of the table layer agree on every input: the reader of
    transactions sees the same fields as [proto_wire::Reader] (number, wire type, varint and bytes), in
    the same order, and reports a malformed message exactly when the other does. *)
Theorem wire_readers_agree bytes :
  (wire_fields bytes).1 = wire_view <$> (fields bytes).1 /\ (wire_fields bytes).2 = negb (fields bytes).2.
Proof. rewrite wire_fields_spec. by destruct (fields bytes). Qed.

(** ** Update maps *)

(** The last entry of a key. *)
Definition last_entry (k : string) (es : list (string * option string)) : option (option string) :=
  last (snd <$> filter (fun e => e.1 = k) es).

(** applying an update map is "last entry wins, per key": a key with an entry ends as
    its last entry says (its converted value, or gone), and a key without one keeps its value, or loses
    it when the update replaces the map. *)
Theorem apply_update_map_lookup {V} (convert : string -> V) target update k :
  apply_update_map convert target update !! k =
  match last_entry k (entries update) with
  | Some (Some v) => Some (convert v)
  | Some None => None
  | None => if replace_ update then None else target !! k
  end.
Proof.
  unfold apply_update_map, last_entry. set (m0 := if replace_ update then ∅ else target).
  assert ((if replace_ update then None else target !! k) = m0 !! k) as -> by (unfold m0; destruct (replace_ update); [by rewrite lookup_empty | done]).
  generalize m0. clear m0. induction (entries update) as [|[k' v] es IH] using rev_ind; intros m; [done|].
  rewrite foldl_app, filter_app, fmap_app. cbn [foldl]. rewrite filter_cons, filter_nil. unfold apply_entry. cbn [fst snd].
  case_decide as Hk.
  - subst k'. cbn. rewrite last_snoc. destruct v; [apply lookup_insert_eq | apply lookup_delete_eq].
  - cbn. rewrite app_nil_r, <- IH. destruct v; [by apply lookup_insert_ne | by apply lookup_delete_ne].
Qed.

End Operation.
