(* ===== verification/CommitConflicts.v ===== *)
(** * CommitConflicts: whether a commit can be rebased over another (src/table/commit_conflicts.cpp)

    One function per arm of the resolver, the dispatch [check_txn], and the refinement for commits that
    know the rows they affect. *)

From S2P Require Import Prelude ProtoWire Pb Operation.
Import Operation.

Module CommitConflicts.

Inductive Verdict := Compatible | Retryable | Incompatible.

#[export] Instance Verdict_eq_dec : EqDecision Verdict.
Proof. solve_decision. Defined.

(** ** Sets of fragments *)

Definition fragment_ids (fs : list pb.DataFragment) : gset Z := list_to_set (pb.fr_id <$> fs).

Definition delete_update_ids (op : Operation) : gset Z :=
  fragment_ids (updated_fragments op) ∪ list_to_set (removed_ids op).

Definition rewrite_ids (op : Operation) : gset Z :=
  list_to_set (concat ((fun g => pb.fr_id <$> old_fragments g) <$> groups op)).

Definition replacement_ids (op : Operation) : gset Z := list_to_set (fst <$> replacements op).

Definition overlay_ids (op : Operation) : gset Z := list_to_set (fst <$> overlay_groups op).

Definition intersects (a b : gset Z) : bool := existsb (fun id => bool_decide (id ∈ a)) (elements b).

(** The fragments the indices cover; [None] when one records no coverage. *)
Fixpoint index_fragments (indices : list pb.IndexMetadata) : option (gset Z) :=
  match indices with
  | [] => Some ∅
  | index :: indices =>
      if negb (pb.ix_has_fragment_bitmap index) then None
      else out ← index_fragments indices; Some (list_to_set (pb.ix_fragment_ids index) ∪ out)
  end.

(** ** What an operation does *)

Definition may_alter_nullability (op : Operation) : bool :=
  ((kind op =? kProject) || (kind op =? kMerge)) && negb (preserves_nullability op).

Definition supplies_values (op : Operation) : bool :=
  (kind op =? kAppend) || (kind op =? kUpdate) || (kind op =? kDataReplacement) || (kind op =? kDataOverlay).

Definition nonempty_update (u : UpdateMap) : bool := replace_ u || negb (bool_decide (entries u = [])).

Definition updates_schema_or_field_metadata (op : Operation) : bool :=
  if negb (kind op =? kUpdateConfig) then false
  else if match schema_metadata_updates op with Some u => nonempty_update u | None => false end then true
  else existsb (fun kv => nonempty_update kv.2) (map_to_list (field_metadata_updates op)).

(** The keys of the entries of [u] that satisfy [p]. *)
Definition entry_keys (p : option string -> bool) (u : UpdateMap) : gset string :=
  list_to_set (fst <$> filter (fun e => p e.2 = true) (entries u)).

Definition is_set (v : option string) : bool := match v with Some _ => true | None => false end.

Definition upserted_config_keys (op : Operation) : gset string :=
  (if kind op =? kOverwrite then dom (config_upserts op) else ∅) ∪
  (if kind op =? kUpdateConfig then match config_updates op with Some u => entry_keys is_set u | None => ∅ end else ∅).

Definition deleted_config_keys (op : Operation) : gset string :=
  if kind op =? kUpdateConfig
  then match config_updates op with Some u => entry_keys (fun v => negb (is_set v)) u | None => ∅ end else ∅.

Definition upsert_key_conflict (a b : Operation) : bool :=
  let a_up := upserted_config_keys a in
  let b_up := upserted_config_keys b in
  let a_del := deleted_config_keys a in
  let b_del := deleted_config_keys b in
  existsb (fun k => bool_decide (k ∈ b_up) || bool_decide (k ∈ b_del)) (elements a_up) ||
  existsb (fun k => bool_decide (k ∈ a_up) || bool_decide (k ∈ a_del)) (elements b_up).

Definition update_maps_conflict (a b : option UpdateMap) : bool :=
  match a, b with
  | Some a, Some b =>
      if replace_ a || replace_ b then true
      else
        let keys : gset string := list_to_set (fst <$> entries a) in
        existsb (fun e => bool_decide (e.1 ∈ keys)) (entries b)
  | _, _ => false
  end.

Definition is_some_map (m : option UpdateMap) : bool := match m with Some _ => true | None => false end.

Definition modifies_same_metadata (a b : Operation) : bool :=
  if negb (kind a =? kUpdateConfig) || negb (kind b =? kUpdateConfig) then false
  else if update_maps_conflict (table_metadata_updates a) (table_metadata_updates b) then true
  else if is_some_map (schema_metadata_updates a) && is_some_map (schema_metadata_updates b) then true
  else existsb (fun k => bool_decide (k ∈ dom (field_metadata_updates b))) (elements (dom (field_metadata_updates a))).

Definition named (l : list pb.IndexMetadata) (name : string) : bool := existsb (fun i => String.eqb (pb.ix_name i) name) l.

(** Two removals of the same index, when either side adds one of its name. *)
Definition removed_conflict (ours theirs : Operation) (r cr : pb.IndexMetadata) : bool :=
  bool_decide (pb.ix_uuid cr = pb.ix_uuid r) &&
  let touches l := existsb (fun i => String.eqb (pb.ix_name i) (pb.ix_name r) || String.eqb (pb.ix_name i) (pb.ix_name cr)) l in
  touches (new_indices ours) || touches (new_indices theirs).

Definition index_names_conflict (ours theirs : Operation) : bool :=
  existsb (fun n =>
      named (new_indices theirs) (pb.ix_name n) ||
      (negb (named (removed_indices ours) (pb.ix_name n)) && named (removed_indices theirs) (pb.ix_name n)))
    (new_indices ours) ||
  existsb (fun c => negb (named (removed_indices theirs) (pb.ix_name c)) && named (removed_indices ours) (pb.ix_name c))
    (new_indices theirs) ||
  existsb (fun r => existsb (removed_conflict ours theirs r) (removed_indices theirs)) (removed_indices ours).

(** ** One arm per operation of ours *)

(** [case] labels that share a result. *)
Definition one_of (k : Z) (ks : list Z) : bool := existsb (Z.eqb k) ks.

(** [conflict ? Verdict::Retryable : Verdict::Compatible]. *)
Definition retryable_if (conflict : bool) : Verdict := if conflict then Retryable else Compatible.
Definition incompatible_if (conflict : bool) : Verdict := if conflict then Incompatible else Compatible.

Definition delete_check (ours theirs : Operation) : Verdict :=
  let k := kind theirs in
  if one_of k [kAppend; kReserveFragments; kProject; kUpdateConfig; kCreateIndex; kDataOverlay; kUpdateBases] then Compatible
  else if k =? kRewrite then retryable_if (intersects (delete_update_ids ours) (rewrite_ids theirs))
  else if k =? kDataReplacement then retryable_if (intersects (delete_update_ids ours) (replacement_ids theirs))
  else if one_of k [kUpdate; kDelete] then retryable_if (intersects (delete_update_ids ours) (delete_update_ids theirs))
  else if k =? kMerge then Retryable
  else if one_of k [kOverwrite; kRestore] then Incompatible
  else Retryable.

Definition update_check (ours theirs : Operation) : Verdict :=
  let k := kind theirs in
  if one_of k [kCreateIndex; kReserveFragments; kProject; kUpdateConfig; kUpdateBases; kAppend] then Compatible
  else if k =? kDataOverlay then
    (if bool_decide (fragments ours = []) then Compatible
     else retryable_if (intersects (delete_update_ids ours) (overlay_ids theirs)))
  else if k =? kRewrite then retryable_if (intersects (delete_update_ids ours) (rewrite_ids theirs))
  else if k =? kDataReplacement then retryable_if (intersects (delete_update_ids ours) (replacement_ids theirs))
  else if one_of k [kUpdate; kDelete] then retryable_if (intersects (delete_update_ids ours) (delete_update_ids theirs))
  else if k =? kMerge then Retryable
  else if one_of k [kOverwrite; kRestore] then Incompatible
  else Retryable.

(** The fields the new indices of an operation are over. *)
Definition depended_fields (op : Operation) : gset Z := list_to_set (concat (pb.ix_fields <$> new_indices op)).

Definition create_index_check (ours theirs : Operation) : Verdict :=
  let k := kind theirs in
  if one_of k [kAppend; kDataOverlay; kUpdateBases; kDelete; kUpdate; kMerge; kReserveFragments; kProject; kUpdateConfig]
  then Compatible
  else if k =? kCreateIndex then retryable_if (index_names_conflict ours theirs)
  else if k =? kRewrite then
    match index_fragments (new_indices ours) with
    | None => Retryable
    | Some covered => retryable_if (intersects covered (rewrite_ids theirs))
    end
  else if k =? kDataReplacement then
    retryable_if (existsb (fun r => existsb (fun field => bool_decide (field ∈ depended_fields ours)) (pb.df_fields r.2)) (replacements theirs))
  else if one_of k [kOverwrite; kRestore] then Incompatible
  else Retryable.

Definition rewrite_check (ours theirs : Operation) : Verdict :=
  let replaced := rewrite_ids ours in
  let k := kind theirs in
  if one_of k [kAppend; kReserveFragments; kProject; kUpdateConfig; kUpdateBases] then Compatible
  else if one_of k [kDelete; kUpdate] then retryable_if (intersects replaced (delete_update_ids theirs))
  else if k =? kDataOverlay then retryable_if (intersects replaced (overlay_ids theirs))
  else if k =? kRewrite then retryable_if (intersects replaced (rewrite_ids theirs))
  else if k =? kDataReplacement then retryable_if (intersects replaced (replacement_ids theirs))
  else if k =? kMerge then Retryable
  else if k =? kCreateIndex then
    match index_fragments (new_indices theirs) with
    | None => Retryable
    | Some covered => retryable_if (intersects replaced covered)
    end
  else if one_of k [kOverwrite; kRestore] then Incompatible
  else Retryable.

Definition merge_check (theirs : Operation) : Verdict :=
  let k := kind theirs in
  if one_of k [kCreateIndex; kReserveFragments; kUpdateConfig; kUpdateBases] then Compatible
  else if one_of k [kUpdate; kAppend; kDelete; kRewrite; kMerge; kDataReplacement; kDataOverlay] then Retryable
  else if one_of k [kOverwrite; kRestore; kProject] then Incompatible
  else Retryable.

Definition project_check (theirs : Operation) : Verdict :=
  let k := kind theirs in
  if one_of k [kAppend; kUpdate; kDelete; kUpdateConfig; kCreateIndex; kDataReplacement; kDataOverlay; kRewrite;
               kReserveFragments; kUpdateBases] then Compatible
  else if one_of k [kMerge; kProject] then Retryable
  else if one_of k [kOverwrite; kRestore] then Incompatible
  else Retryable.

Definition reserve_check (theirs : Operation) : Verdict :=
  let k := kind theirs in
  if one_of k [kOverwrite; kRestore] then Incompatible
  else if one_of k [kAppend; kDelete; kCreateIndex; kRewrite; kDataReplacement; kDataOverlay; kMerge; kReserveFragments;
                    kUpdate; kProject; kUpdateConfig; kUpdateBases] then Compatible
  else Retryable.

Definition restore_check (theirs : Operation) : Verdict :=
  if one_of (kind theirs) [kAppend; kDelete; kOverwrite; kCreateIndex; kRewrite; kDataReplacement; kDataOverlay; kMerge;
                           kRestore; kReserveFragments; kUpdateBases; kUpdate; kProject; kUpdateConfig] then Compatible
  else Retryable.

Definition update_config_check (ours theirs : Operation) : Verdict :=
  let k := kind theirs in
  if k =? kOverwrite then
    incompatible_if (is_some_map (schema_metadata_updates ours) || negb (bool_decide (field_metadata_updates ours = ∅)) ||
                     upsert_key_conflict ours theirs)
  else if k =? kUpdateConfig then incompatible_if (upsert_key_conflict ours theirs || modifies_same_metadata ours theirs)
  else if one_of k [kAppend; kDelete; kCreateIndex; kRewrite; kDataReplacement; kDataOverlay; kMerge; kRestore;
                    kReserveFragments; kUpdate; kProject; kUpdateBases] then Compatible
  else Retryable.

Definition overwrite_check (ours theirs : Operation) : Verdict :=
  let k := kind theirs in
  if k =? kOverwrite then (if upsert_key_conflict ours theirs then Incompatible else Retryable)
  else if k =? kUpdateConfig then incompatible_if (upsert_key_conflict ours theirs)
  else if one_of k [kAppend; kDelete; kCreateIndex; kRewrite; kDataReplacement; kDataOverlay; kMerge; kRestore;
                    kReserveFragments; kUpdate; kProject; kUpdateBases] then Compatible
  else Retryable.

Definition append_check (theirs : Operation) : Verdict :=
  let k := kind theirs in
  if one_of k [kOverwrite; kRestore] then Incompatible
  else if one_of k [kAppend; kRewrite; kCreateIndex; kDelete; kUpdate; kReserveFragments; kProject; kUpdateBases; kMerge;
                    kUpdateConfig; kDataReplacement; kDataOverlay] then Compatible
  else Retryable.

(** ** The checks *)

Definition check_txn (ours theirs : Operation) : Verdict :=
  let k := kind ours in
  if (may_alter_nullability ours && supplies_values theirs) || (supplies_values ours && may_alter_nullability theirs)
  then Retryable
  else if ((k =? kMerge) && updates_schema_or_field_metadata theirs) ||
          (updates_schema_or_field_metadata ours && (kind theirs =? kMerge)) then Retryable
  else if kind theirs =? kCloneField then Compatible
  else if k =? kDelete then delete_check ours theirs
  else if k =? kUpdate then update_check ours theirs
  else if k =? kCreateIndex then create_index_check ours theirs
  else if k =? kRewrite then rewrite_check ours theirs
  else if k =? kMerge then merge_check theirs
  else if k =? kProject then project_check theirs
  else if k =? kReserveFragments then reserve_check theirs
  else if k =? kRestore then restore_check theirs
  else if k =? kUpdateConfig then update_config_check ours theirs
  else if k =? kOverwrite then overwrite_check ours theirs
  else if k =? kAppend then append_check theirs
  else Retryable.

(** What [same_data_files] compares of a file. *)
Definition data_file_key (f : pb.DataFile) : string * list Z * list Z * Z * Z * Z :=
  (pb.df_path f, pb.df_fields f, pb.df_column_indices f, pb.df_file_major_version f, pb.df_file_minor_version f,
   pb.df_file_size_bytes f).

Definition same_data_files (a b : pb.DataFragment) : bool :=
  bool_decide (data_file_key <$> pb.fr_files a = data_file_key <$> pb.fr_files b).

(** [std::find_if] over the base manifest's fragments. *)
Definition base_fragment (base : pb.Manifest) (id : Z) : option pb.DataFragment :=
  snd <$> list_find (fun b => pb.fr_id b = id) (pb.mf_fragments base).

(** Whether the other change rewrote the data of a fragment [f] this one deletes from. *)
Definition data_rewritten (base : pb.Manifest) (f : pb.DataFragment) : bool :=
  match base_fragment base (pb.fr_id f) with
  | None => true
  | Some was => negb (same_data_files was f)
  end.

Definition check_txn_with_affected_rows (ours theirs : Operation) (base : pb.Manifest) : Verdict :=
  let plain := check_txn ours theirs in
  let both := one_of (kind ours) [kDelete; kUpdate] && one_of (kind theirs) [kDelete; kUpdate] in
  if negb (bool_decide (plain = Retryable)) || negb both then plain
  else
    let mine := delete_update_ids ours in
    if existsb (fun id => bool_decide (id ∈ mine)) (removed_ids theirs) then Retryable
    else if existsb (fun f => bool_decide (pb.fr_id f ∈ mine) && data_rewritten base f) (updated_fragments theirs)
    then Retryable
    else Compatible.

(** [commit_verdict]: 0, 1 or 2 for two encoded operations. *)
Definition commit_verdict decode_data_fragment decode_field decode_data_file decode_index_message
    (ours_field : Z) (ours_message : list Z) (theirs_field : Z) (theirs_message : list Z) : res Z :=
  let decode := decode_operation decode_data_fragment decode_field decode_data_file decode_index_message in
  ours ← decode ours_field ours_message;
  theirs ← decode theirs_field theirs_message;
  Ok (match check_txn ours theirs with Compatible => 0 | Retryable => 1 | Incompatible => 2 end).

(** ** Facts *)

Lemma intersects_spec a b : intersects a b = negb (bool_decide (a ## b)).
Proof.
  apply eq_bool_prop_intro. rewrite negb_True, bool_decide_spec. unfold intersects. rewrite Is_true_true, existsb_exists. split.
  - intros (x & Hx & Ha). apply list_elem_of_In, elem_of_elements in Hx. apply bool_decide_eq_true in Ha. set_solver.
  - intros Hn. destruct (decide (exists x, x ∈ a /\ x ∈ b)) as [(x & Hxa & Hxb)|Hno].
    + exists x. rewrite <- list_elem_of_In, elem_of_elements. split; [done | by apply bool_decide_eq_true].
    + exfalso. apply Hn. set_solver.
Qed.

Lemma intersects_comm a b : intersects a b = intersects b a.
Proof. rewrite !intersects_spec. f_equal. apply bool_decide_ext. split; set_solver. Qed.

Lemma existsb_ext {A} (p q : A -> bool) l : (forall x, p x = q x) -> existsb p l = existsb q l.
Proof. intros H. induction l as [|x l IH]; [done|]. cbn. by rewrite H, IH. Qed.

Lemma existsb_swap {A B} (p : A -> B -> bool) la lb :
  existsb (fun a => existsb (p a) lb) la = existsb (fun b => existsb (fun a => p a b) la) lb.
Proof.
  apply eq_bool_prop_intro. rewrite !Is_true_true, !existsb_exists. split.
  - intros (a & Ha & (b & Hb & Hp)%existsb_exists). exists b. split; [done|]. apply existsb_exists. eauto.
  - intros (b & Hb & (a & Ha & Hp)%existsb_exists). exists a. split; [done|]. apply existsb_exists. eauto.
Qed.

Lemma existsb_orb {A} (p q : A -> bool) l : existsb (fun x => p x || q x) l = existsb p l || existsb q l.
Proof. induction l as [|x l IH]; [done|]. cbn. rewrite IH. by destruct (p x), (q x), (existsb p l). Qed.

Lemma upsert_key_conflict_comm a b : upsert_key_conflict a b = upsert_key_conflict b a.
Proof. unfold upsert_key_conflict. apply orb_comm. Qed.

Lemma index_names_conflict_comm a b : index_names_conflict a b = index_names_conflict b a.
Proof.
  unfold index_names_conflict. rewrite !existsb_orb.
  assert (existsb (fun n => named (new_indices b) (pb.ix_name n)) (new_indices a) =
          existsb (fun n => named (new_indices a) (pb.ix_name n)) (new_indices b)) as ->.
  { unfold named. rewrite existsb_swap. apply existsb_ext. intros y. apply existsb_ext. intros x. apply String.eqb_sym. }
  assert (existsb (fun r => existsb (removed_conflict a b r) (removed_indices b)) (removed_indices a) =
          existsb (fun r => existsb (removed_conflict b a r) (removed_indices a)) (removed_indices b)) as ->.
  { rewrite existsb_swap. apply existsb_ext. intros y. apply existsb_ext. intros x. unfold removed_conflict. f_equal.
    - apply bool_decide_ext. split; congruence.
    - rewrite orb_comm. f_equal; apply existsb_ext; intros i; apply orb_comm. }
  rewrite <- !orb_assoc. f_equal. rewrite !orb_assoc. f_equal. apply orb_comm.
Qed.

Lemma modifies_same_metadata_comm a b : modifies_same_metadata a b = modifies_same_metadata b a.
Proof.
  unfold modifies_same_metadata. rewrite (orb_comm (negb (kind a =? _))). destruct (_ || _); [done|].
  assert (update_maps_conflict (table_metadata_updates a) (table_metadata_updates b) =
          update_maps_conflict (table_metadata_updates b) (table_metadata_updates a)) as ->.
  { unfold update_maps_conflict. destruct (table_metadata_updates a) as [x|], (table_metadata_updates b) as [y|]; try done.
    rewrite orb_comm. destruct (_ || _); [done|]. apply eq_bool_prop_intro. rewrite !Is_true_true, !existsb_exists.
    assert (forall (u w : UpdateMap), (exists e, In e (entries w) /\ bool_decide (e.1 ∈ (list_to_set (fst <$> entries u) : gset string)) = true)
      -> exists e, In e (entries u) /\ bool_decide (e.1 ∈ (list_to_set (fst <$> entries w) : gset string)) = true) as Hsym.
    { intros u w (e & He & Hin%bool_decide_eq_true). apply elem_of_list_to_set, list_elem_of_fmap in Hin as (e' & Heq & He').
      exists e'. split; [by apply list_elem_of_In|]. apply bool_decide_eq_true, elem_of_list_to_set, list_elem_of_fmap.
      exists e. split; [done | by apply list_elem_of_In]. }
    split; apply Hsym. }
  rewrite (andb_comm (is_some_map (schema_metadata_updates a))). destruct (update_maps_conflict _ _); [done|]. destruct (_ && _); [done|].
  apply eq_bool_prop_intro. rewrite !Is_true_true, !existsb_exists.
  assert (forall (u w : gset Z), (exists k, In k (elements u) /\ bool_decide (k ∈ w) = true) -> exists k, In k (elements w) /\ bool_decide (k ∈ u) = true) as Hsym.
  { intros u w (k & Hk & Hw%bool_decide_eq_true). exists k. rewrite <- !list_elem_of_In, !elem_of_elements in *.
    split; [done | by apply bool_decide_eq_true]. }
  split; apply Hsym.
Qed.

Lemma nullability_guard_comm a b :
  (may_alter_nullability a && supplies_values b) || (supplies_values a && may_alter_nullability b) =
  (may_alter_nullability b && supplies_values a) || (supplies_values b && may_alter_nullability a).
Proof. rewrite (andb_comm (supplies_values a)), (andb_comm (supplies_values b)). apply orb_comm. Qed.

(** The kinds a change of rows, columns, indices or configuration commits as. *)
Definition rebasable : list Z :=
  [kAppend; kDelete; kUpdate; kRewrite; kCreateIndex; kProject; kReserveFragments; kUpdateConfig].

(** The dispatch, once past the guards that do not depend on the order. *)
Definition dispatch (ours theirs : Operation) : Verdict :=
  let k := kind ours in
  if k =? kDelete then delete_check ours theirs
  else if k =? kUpdate then update_check ours theirs
  else if k =? kCreateIndex then create_index_check ours theirs
  else if k =? kRewrite then rewrite_check ours theirs
  else if k =? kMerge then merge_check theirs
  else if k =? kProject then project_check theirs
  else if k =? kReserveFragments then reserve_check theirs
  else if k =? kRestore then restore_check theirs
  else if k =? kUpdateConfig then update_config_check ours theirs
  else if k =? kOverwrite then overwrite_check ours theirs
  else if k =? kAppend then append_check theirs
  else Retryable.

Lemma check_txn_dispatch ours theirs :
  kind ours <> kMerge -> kind theirs <> kMerge -> kind theirs <> kCloneField ->
  check_txn ours theirs =
  if (may_alter_nullability ours && supplies_values theirs) || (supplies_values ours && may_alter_nullability theirs)
  then Retryable else dispatch ours theirs.
Proof.
  intros H1 H2 H3. unfold check_txn. destruct (_ || _); [done|]. rewrite !(proj2 (Z.eqb_neq _ _) H1), !(proj2 (Z.eqb_neq _ _) H2), !(proj2 (Z.eqb_neq _ _) H3).
  rewrite andb_false_r. cbn [andb orb]. unfold dispatch. by rewrite (proj2 (Z.eqb_neq _ _) H1).
Qed.

Ltac kinds H := repeat (apply elem_of_cons in H as [H|H]); [..|by apply elem_of_nil in H].

Lemma dispatch_comm a b : kind a ∈ rebasable -> kind b ∈ rebasable -> dispatch a b = dispatch b a.
Proof.
  intros Ha Hb. unfold rebasable in *. unfold dispatch, delete_check, update_check, create_index_check, rewrite_check, project_check,
    reserve_check, update_config_check, append_check.
  kinds Ha; rewrite Ha; kinds Hb; rewrite Hb; cbn -[intersects index_fragments index_names_conflict upsert_key_conflict modifies_same_metadata];
    try done; try (by rewrite intersects_comm).
  - destruct (index_fragments (new_indices b)); [by rewrite intersects_comm | done].
  - destruct (index_fragments (new_indices a)); [by rewrite intersects_comm | done].
  - by rewrite index_names_conflict_comm.
  - by rewrite upsert_key_conflict_comm, modifies_same_metadata_comm.
Qed.

(** ** Properties *)

(** The existing fragments an operation changes, removes or replaces. *)
Definition touched (op : Operation) : gset Z :=
  if kind op =? kRewrite then rewrite_ids op
  else if kind op =? kDataReplacement then replacement_ids op
  else delete_update_ids op.

Lemma check_txn_overlap ours theirs :
  kind ours ∈ [kDelete; kUpdate; kRewrite] -> kind theirs ∈ [kDelete; kUpdate; kRewrite; kDataReplacement] ->
  check_txn ours theirs = if bool_decide (touched ours ## touched theirs) then Compatible else Retryable.
Proof.
  intros Ha Hb. unfold check_txn, may_alter_nullability, updates_schema_or_field_metadata, delete_check, update_check, rewrite_check, touched.
  kinds Ha; rewrite Ha; kinds Hb; rewrite Hb; cbn -[intersects rewrite_ids replacement_ids delete_update_ids];
    rewrite ?andb_false_r; cbn [orb]; rewrite intersects_spec; by destruct (bool_decide _).
Qed.

(** C25 (functional): two changes of rows conflict exactly when they touch a common fragment: for a
    Delete, an Update or a Rewrite against a committed Delete, Update, Rewrite or DataReplacement, the
    verdict is Compatible when the existing fragments the two change, remove or replace are disjoint,
    and Retryable when they share one. *)
Theorem conflict_iff_overlap ours theirs :
  kind ours ∈ [kDelete; kUpdate; kRewrite] -> kind theirs ∈ [kDelete; kUpdate; kRewrite; kDataReplacement] ->
  check_txn ours theirs = if bool_decide (touched ours ## touched theirs) then Compatible else Retryable.
Proof. apply check_txn_overlap. Qed.

Definition frag (id : Z) : pb.DataFragment := pb.mkDataFragment id [] 10 pb.no_deletion_file [].

(** An operation of a kind that changes the given fragments and removes the given ids. *)
Definition sample_change (k : Z) (updated removed : list Z) : Operation :=
  set_removed_ids removed (set_updated_fragments (frag <$> updated) (set_kind k Operation0)).

Lemma conflict_iff_overlap_witness :
  check_txn (sample_change kDelete [1; 2] [3]) (sample_change kUpdate [4] [3]) = Retryable /\
  check_txn (sample_change kDelete [1; 2] [3]) (sample_change kUpdate [4] [5]) = Compatible.
Proof.
  split.
  - rewrite (conflict_iff_overlap (sample_change kDelete [1; 2] [3]) (sample_change kUpdate [4] [3])) by set_solver. vm_compute. reflexivity.
  - rewrite (conflict_iff_overlap (sample_change kDelete [1; 2] [3]) (sample_change kUpdate [4] [5])) by set_solver. vm_compute. reflexivity.
Defined.

(** the order of two commits does not matter: among appends, deletes, updates,
    rewrites, index builds, projections, reservations and configuration updates, a conflicts with b
    exactly as b conflicts with a, so which of two concurrent writers commits first does not decide
    whether the other one can. *)
Theorem check_txn_symmetric a b :
  kind a ∈ rebasable -> kind b ∈ rebasable -> check_txn a b = check_txn b a.
Proof.
  intros Ha Hb.
  assert (forall op, kind op ∈ rebasable -> kind op <> kMerge /\ kind op <> kCloneField) as Hk.
  { intros op H. unfold rebasable in H. kinds H; rewrite H; split; discriminate. }
  rewrite !check_txn_dispatch by (by apply Hk). by rewrite nullability_guard_comm, dispatch_comm.
Qed.

Lemma check_txn_symmetric_witness :
  check_txn (set_kind kProject Operation0) (sample_change kUpdate [4] []) = Retryable /\
  check_txn (sample_change kUpdate [4] []) (set_kind kProject Operation0) = Retryable.
Proof.
  split; [|rewrite (check_txn_symmetric (sample_change kUpdate [4] []) (set_kind kProject Operation0)) by (vm_compute; set_solver)];
    vm_compute; reflexivity.
Defined.

(** nothing is rebased over a replaced table: against a committed Overwrite or Restore,
    every commit that builds on the rows, fragments or schema it read (an append, delete, update,
    rewrite, merge, projection, index build or reservation) is Incompatible. *)
Theorem replaced_table_incompatible ours theirs :
  kind ours ∈ [kAppend; kDelete; kUpdate; kRewrite; kMerge; kProject; kCreateIndex; kReserveFragments] ->
  kind theirs ∈ [kOverwrite; kRestore] ->
  check_txn ours theirs = Incompatible.
Proof.
  intros Ha Hb. unfold check_txn, may_alter_nullability, supplies_values, updates_schema_or_field_metadata, delete_check, update_check,
    rewrite_check, merge_check, project_check, create_index_check, reserve_check, append_check.
  kinds Ha; rewrite Ha; kinds Hb; rewrite Hb; cbn; rewrite ?andb_false_r; reflexivity.
Qed.

Lemma replaced_table_incompatible_witness :
  check_txn (set_kind kAppend Operation0) (set_kind kRestore Operation0) = Incompatible.
Proof. apply (replaced_table_incompatible (set_kind kAppend Operation0) (set_kind kRestore Operation0)); cbn; set_solver. Defined.

(** knowing the affected rows only ever turns a retry into a rebase, and only when the
    other commit kept the data this one deletes from: the verdict with affected rows is the plain one,
    except that a Retryable pair of Delete or Update commits becomes Compatible when the other removed
    none of our fragments and left the data files of each one it changed as they were in the base. *)
Theorem affected_rows_refines ours theirs base :
  check_txn_with_affected_rows ours theirs base = check_txn ours theirs \/
  (check_txn ours theirs = Retryable /\ check_txn_with_affected_rows ours theirs base = Compatible /\
   kind ours ∈ [kDelete; kUpdate] /\ kind theirs ∈ [kDelete; kUpdate] /\
   (forall id, id ∈ removed_ids theirs -> id ∉ delete_update_ids ours) /\
   (forall f, f ∈ updated_fragments theirs -> pb.fr_id f ∈ delete_update_ids ours ->
      exists was, base_fragment base (pb.fr_id f) = Some was /\ data_file_key <$> pb.fr_files was = data_file_key <$> pb.fr_files f)).
Proof.
  unfold check_txn_with_affected_rows. destruct (decide (check_txn ours theirs = Retryable)) as [E|E];
    [|left; by rewrite bool_decide_false by done].
  rewrite E. change (bool_decide (Retryable = Retryable)) with true. cbn [negb orb].
  destruct (one_of (kind ours) [kDelete; kUpdate] && one_of (kind theirs) [kDelete; kUpdate]) eqn:Eb; [|by left]. cbn [negb].
  destruct (existsb _ (removed_ids theirs)) eqn:Er; [by left|]. destruct (existsb _ (updated_fragments theirs)) eqn:Eu; [by left|].
  right. apply andb_true_iff in Eb as [Ho Ht]. assert (forall k ks, one_of k ks = true -> k ∈ ks) as Hone.
  { intros k ks (x & Hx & ->%Z.eqb_eq)%existsb_exists. by apply list_elem_of_In. }
  split_and!; [done | done | by apply Hone | by apply Hone | |].
  - intros id Hid Hin. assert (existsb (fun id => bool_decide (id ∈ delete_update_ids ours)) (removed_ids theirs) = true); [|congruence].
    apply existsb_exists. exists id. split; [by apply list_elem_of_In | by apply bool_decide_eq_true].
  - intros f Hf Hin. destruct (data_rewritten base f) eqn:Ed.
    + assert (existsb (fun f => bool_decide (pb.fr_id f ∈ delete_update_ids ours) && data_rewritten base f) (updated_fragments theirs) = true); [|congruence].
      apply existsb_exists. exists f. split; [by apply list_elem_of_In|]. rewrite Ed, andb_true_r. by apply bool_decide_eq_true.
    + unfold data_rewritten in Ed. destruct (base_fragment base (pb.fr_id f)) as [was|]; [|done]. exists was. split; [done|].
      apply negb_false_iff, bool_decide_eq_true in Ed. done.
Qed.

End CommitConflicts.
