(* ===== verification/FragReuse.v ===== *)
(** * FragReuse: the fragment reuse index (src/table/frag_reuse.cpp, include/nanolance/frag_reuse.hpp)

    How the rows a deferred compaction rewrote moved: the reader of the index's details, the remap
    steps built from them, the resolution of old row addresses and of index coverage, the writer of
    the index entry, and the cache of loaded indices (src/base/shared_cache.hpp). Reading a file,
    the clock, the random uuid and the generated message codec are parameters. *)

From S2P Require Import Prelude ProtoWire Roaring Pb BasePaths.

Module FragReuse.

(** ** The wire reader *)

(** [Field], reset at every field: [f_data] is [data, data + size). *)
Record Field := mkField { f_number : Z; f_wire : Z; f_value : Z; f_data : list Z }.

(** [Wire::varint]: [n] counts the shifts left below 64. *)
Fixpoint wire_varint_loop (n : nat) (shift v : Z) (at_ : list Z) : option (Z * list Z) :=
  match n, at_ with
  | S n, byte :: rest =>
      let v := Z.lor v (u64 (Z.shiftl (Z.land byte 127) shift)) in
      if byte <? 128 then Some (v, rest) else wire_varint_loop n (shift + 7) v rest
  | _, _ => None
  end.

Definition wire_varint (at_ : list Z) : option (Z * list Z) := wire_varint_loop 10 0 0 at_.
Arguments wire_varint : simpl never.

(** [Wire::skip]. *)
Definition wire_skip (n : Z) (at_ : list Z) : option (list Z) :=
  if zlen at_ <? n then None else Some (drop (Z.to_nat n) at_).

(** [Wire::next] where there are bytes left: [None] is [fail()]. *)
Definition next_field (at_ : list Z) : option (Field * list Z) :=
  '(key, rest) ← wire_varint at_;
  let number := u32 (Z.shiftr key 3) in
  let wire := Z.land key 7 in
  if wire =? 0 then '(v, rest) ← wire_varint rest; Some (mkField number wire v [], rest)
  else if wire =? 1 then rest ← wire_skip 8 rest; Some (mkField number wire 0 [], rest)
  else if wire =? 5 then rest ← wire_skip 4 rest; Some (mkField number wire 0 [], rest)
  else if wire =? 2 then
    '(n, rest) ← wire_varint rest;
    if zlen rest <? n then None
    else Some (mkField number wire 0 (take (Z.to_nat n) rest), drop (Z.to_nat n) rest)
  else None.

(** [while (w.next(f))]: the fields seen and [bad()] after the loop. A field takes at least a byte. *)
Fixpoint wire_loop (fuel : nat) (at_ : list Z) : list Field * bool :=
  match fuel, at_ with
  | O, _ | _, [] => ([], false)
  | S fuel, _ =>
      match next_field at_ with
      | None => ([], true)
      | Some (f, rest) => let '(fs, bad) := wire_loop fuel rest in (f :: fs, bad)
      end
  end.

Definition wire_fields (bytes : list Z) : list Field * bool := wire_loop (S (length bytes)) bytes.
Arguments wire_fields : simpl never.

(** A message whose fields are folded by [body], and refused as [error] when it is malformed. *)
Definition read_message {A} (body : A -> Field -> res A) (error : string) (bytes : list Z) (a : A) : res A :=
  let '(fs, bad) := wire_fields bytes in
  a ← fold_res body fs a;
  if bad : bool then Err error else Ok a.

(** ** The details message *)

Record Digest := mkDigest { d_id : Z; d_physical : Z }.
Record RawGroup := mkRawGroup { changed : list Z; old_frags : list Digest; new_frags : list Digest }.
Record RawVersion := mkRawVersion { raw_dataset_version : Z; raw_groups : list RawGroup }.

Definition digest_field (d : Digest) (g : Field) : res Digest :=
  Ok (if f_number g =? 1 then mkDigest (f_value g) (d_physical d)
      else if f_number g =? 2 then mkDigest (d_id d) (f_value g) else d).

Definition read_digest (f : Field) : res Digest :=
  read_message digest_field "malformed fragment digest in the fragment reuse index" (f_data f) (mkDigest 0 0).

Definition group_field (out : RawGroup) (g : Field) : res RawGroup :=
  if (f_number g =? 1) && (f_wire g =? 2) then Ok (mkRawGroup (f_data g) (old_frags out) (new_frags out))
  else if ((f_number g =? 2) || (f_number g =? 3)) && (f_wire g =? 2) then
    d ← read_digest g;
    Ok (if f_number g =? 2 then mkRawGroup (changed out) (old_frags out ++ [d]) (new_frags out)
        else mkRawGroup (changed out) (old_frags out) (new_frags out ++ [d]))
  else Ok out.

Definition read_group (f : Field) : res RawGroup :=
  read_message group_field "malformed group in the fragment reuse index" (f_data f) (mkRawGroup [] [] []).

Definition version_field (out : RawVersion) (g : Field) : res RawVersion :=
  if (f_number g =? 1) && (f_wire g =? 0) then Ok (mkRawVersion (f_value g) (raw_groups out))
  else if (f_number g =? 3) && (f_wire g =? 2) then
    group ← read_group g;
    Ok (mkRawVersion (raw_dataset_version out) (raw_groups out ++ [group]))
  else Ok out.

Definition read_version (f : Field) : res RawVersion :=
  read_message version_field "malformed version in the fragment reuse index" (f_data f) (mkRawVersion 0 []).

Definition inline_field (versions : list RawVersion) (f : Field) : res (list RawVersion) :=
  if (f_number f =? 1) && (f_wire f =? 2) then v ← read_version f; Ok (versions ++ [v]) else Ok versions.

Definition read_inline (content : list Z) : res (list RawVersion) :=
  read_message inline_field "malformed InlineContent in the fragment reuse index" content [].

(** ** Remap steps *)

Record NewRange := mkNewRange { nr_fragment : Z; nr_rows_before : Z; nr_physical : Z }.
Record Group := mkGroup { new_ranges : list NewRange; old_ids : list Z; new_ids : list Z }.
Record OldFragment := mkOldFragment { of_group : nat; of_rows_before : Z; of_physical : Z; of_kept : list Z }.
Record Step := mkStep { groups : list Group; frags : gmap Z OldFragment }.

(** The loop over a group's new fragments: [new_ranges] and [total_new]. *)
Definition range_step (s : list NewRange * Z) (nf : Digest) : list NewRange * Z :=
  let '(ranges, total_new) := s in
  if d_physical nf =? 0 then s
  else (ranges ++ [mkNewRange (u32 (d_id nf)) total_new (d_physical nf)], u64 (total_new + d_physical nf)).

(** [kept[addr >> 32].push_back(addr)]. *)
Definition keep_address (kept : gmap Z (list Z)) (addr : Z) : gmap Z (list Z) :=
  <[u32 (Z.shiftr addr 32) := default [] (kept !! u32 (Z.shiftr addr 32)) ++ [u32 addr]]> kept.

(** The loop's variables over a group's old fragments: [rewritten_before], [seen], [kept] and
    [step.frags]. *)
Record OldState := mkOldState { os_before : Z; os_seen : gset Z; os_kept : gmap Z (list Z); os_frags : gmap Z OldFragment }.

Definition old_step (gi : nat) (s : OldState) (f : Digest) : res OldState :=
  if bool_decide (d_id f ∈ os_seen s) then Err ("fragment reuse index: old fragment " +:+ pretty (d_id f) +:+ " listed twice")
  else
    let key := u32 (d_id f) in
    let kept := default [] (os_kept s !! key) in
    if match last kept with Some offset => d_physical f <=? offset | None => false end
    then Err ("fragment reuse index: a row beyond old fragment " +:+ pretty (d_id f))
    else if bool_decide (is_Some (os_frags s !! key))
    then Err ("fragment reuse index: old fragment " +:+ pretty (d_id f) +:+ " in two groups")
    else Ok (mkOldState (u64 (os_before s + zlen kept)) ({[d_id f]} ∪ os_seen s) (delete key (os_kept s))
               (<[key := mkOldFragment gi (os_before s) (d_physical f) kept]> (os_frags s))).

Definition build_group (step : Step) (rg : RawGroup) : res Step :=
  let gi := length (groups step) in
  let '(ranges, total_new) := foldl range_step ([], 0) (new_frags rg) in
  let group := mkGroup ranges ((fun d => u32 (d_id d)) <$> old_frags rg) ((fun d => u32 (d_id d)) <$> new_frags rg) in
  changed_rows ← BasePaths.prefixed "fragment reuse index: " (Roaring.Roaring.decode_treemap (changed rg));
  s ← fold_res (old_step gi) (old_frags rg) (mkOldState 0 ∅ (foldl keep_address ∅ changed_rows) (frags step));
  if negb (bool_decide (os_kept s = ∅)) then Err "fragment reuse index: rewritten rows from fragments not in their group"
  else if negb (os_before s =? total_new)
  then Err ("fragment reuse index: a group rewrote " +:+ pretty (os_before s) +:+ " rows into fragments holding " +:+ pretty total_new)
  else Ok (mkStep (groups step ++ [group]) (os_frags s)).

Definition build_step (raw : RawVersion) : res Step := fold_res build_group (raw_groups raw) (mkStep [] ∅).

(** ** Resolution *)

(** [std::lower_bound(kept, offset) - kept.begin()]. *)
Fixpoint lower_bound (kept : list Z) (offset : Z) : nat :=
  match kept with
  | k :: kept => if k <? offset then S (lower_bound kept offset) else O
  | [] => O
  end.

(** The element before [std::upper_bound] by [rows_before]. *)
Fixpoint before_upper_bound (index : Z) (ranges : list NewRange) (prev : option NewRange) : option NewRange :=
  match ranges with
  | [] => prev
  | r :: ranges => if index <? nr_rows_before r then prev else before_upper_bound index ranges (Some r)
  end.

(** Where an address goes: [Gone] is [return false]; [Stray] is a read before the first range, which the
    code does not guard against ([resolve_in_range] shows it does not happen). *)
Inductive Resolved := Gone | Stray | At (address : Z).

(** One iteration of [resolve]'s loop. *)
Definition resolve_step (step : Step) (current : Z) : Resolved :=
  match frags step !! u32 (Z.shiftr current 32) with
  | None => At current
  | Some old =>
      let offset := u32 current in
      if of_physical old <=? offset then At current
      else
        let pos := lower_bound (of_kept old) offset in
        if negb (bool_decide (of_kept old !! pos = Some offset)) then Gone
        else
          let index := u64 (of_rows_before old + Z.of_nat pos) in
          match groups step !! of_group old ≫= fun g => before_upper_bound index (new_ranges g) None with
          | Some target => At (Z.lor (Z.shiftl (nr_fragment target) 32) (u64 (index - nr_rows_before target)))
          | None => Stray
          end
  end.

(** [FragReuse::resolve]. *)
Fixpoint resolve (steps_ : list Step) (current : Z) : Resolved :=
  match steps_ with
  | [] => At current
  | step :: steps_ => match resolve_step step current with At current => resolve steps_ current | r => r end
  end.

(** The loop over a group's old ids: [covered] and [removed]. *)
Definition erase_step (s : gset Z * Z) (id : Z) : gset Z * Z :=
  if bool_decide (id ∈ s.1) then (s.1 ∖ {[id]}, s.2 + 1) else s.

Definition cover_group (covered : gset Z) (g : Group) : gset Z :=
  let '(covered, removed) := foldl erase_step (covered, 0) (old_ids g) in
  if (removed =? zlen (old_ids g)) && negb (removed =? 0) then covered ∪ list_to_set (new_ids g) else covered.

Definition remap_coverage (steps_ : list Step) (ids : list Z) : list Z :=
  if bool_decide (steps_ = []) then ids
  else merge_sort Z.le (elements (foldl (fun c step => foldl cover_group c (groups step)) (list_to_set ids) steps_)).

Definition touches (steps_ : list Step) (fragment : Z) : bool :=
  existsb (fun s => bool_decide (is_Some (frags s !! fragment))) steps_.

(** ** Loading *)

Definition kFragReuseName : string := "__lance_frag_reuse".
Definition kFragReuseDetails : string := "FragmentReuseIndexDetails".

(** [url] ends in [suffix], compared from [url.size() - suffix.size()]. *)
Definition ends_in (suffix url : string) : bool :=
  let u := String.list_ascii_of_string url in
  let s := String.list_ascii_of_string suffix in
  negb (length u <? length s)%nat && bool_decide (drop (length u - length s) u = s).

(** An ExternalFile message: path, offset and size. *)
Definition external_field (s : string * Z * Z) (x : Field) : string * Z * Z :=
  let '(path, offset, size) := s in
  if (f_number x =? 1) && (f_wire x =? 2) then (string_of_bytes (f_data x), offset, size)
  else if f_number x =? 2 then (path, f_value x, size)
  else if f_number x =? 3 then (path, offset, f_value x)
  else s.

Section loading.
  (** [io::read_all]. *)
  Context (read_all : string -> res (list Z)).

(** The content an ExternalFile names, in the index's directory. *)
Definition external_content (index_dir : string) (f : Field) : res (list Z) :=
  let '(xs, bad) := wire_fields (f_data f) in
  let '(path, offset, size) := foldl external_field ("", 0, 0) xs in
  let unreadable := "fragment reuse index: unreadable external details" in
  if bad || bool_decide (path = "") then Err unreadable
  else
    match read_all (path_join index_dir path) with
    | Err error => Err (if bool_decide (error = "") then unreadable else error)
    | Ok file =>
        if (zlen file <? offset) || (zlen file - offset <? size) then Err "fragment reuse index: external details out of range"
        else Ok (take (Z.to_nat size) (drop (Z.to_nat offset) file))
    end.

Definition details_field (index_dir : string) (content : option (list Z)) (f : Field) : res (option (list Z)) :=
  if (f_number f =? 1) && (f_wire f =? 2) then Ok (Some (f_data f))
  else if (f_number f =? 2) && (f_wire f =? 2) then Some <$> external_content index_dir f
  else Ok content.

(** [FragReuse::from_details]: the steps of the remap. *)
Definition from_details (dataset_path : string) (manifest : pb.Manifest) (index : pb.IndexMetadata) : res (list Step) :=
  index_dir ← BasePaths.index_dir_of dataset_path manifest index;
  if negb (ends_in kFragReuseDetails (pb.ix_details_type_url index))
  then Err ("index '" +:+ pb.ix_name index +:+ "' is not a fragment reuse index")
  else
    let '(fs, bad) := wire_fields (pb.ix_details_value index) in
    content ← fold_res (details_field index_dir) fs None;
    match content, bad with
    | Some content, false =>
        raw ← read_inline content;
        fold_res (fun steps v => step ← build_step v; Ok (steps ++ [step])) raw []
    | _, _ => Err "fragment reuse index: no content"
    end.

(** The newest entry named [kFragReuseName]; of equal versions, the later one. *)
Definition newest_step (newest : option pb.IndexMetadata) (index : pb.IndexMetadata) : option pb.IndexMetadata :=
  if bool_decide (pb.ix_name index = kFragReuseName) &&
     match newest with None => true | Some n => pb.ix_dataset_version n <=? pb.ix_dataset_version index end
  then Some index else newest.

Definition newest_index (manifest : pb.Manifest) : option pb.IndexMetadata := foldl newest_step None (pb.mf_indices manifest).

(** [SharedCache]: the entries; [begin_] picks the entry [entries_.begin()] is, which the container
    leaves open. *)
Context (begin_ : gmap string (list Step) -> string).

Definition cache_find (entries_ : gmap string (list Step)) (key : string) : option (list Step) := entries_ !! key.

Definition cache_put (entries_ : gmap string (list Step)) (key : string) (value : list Step) : gmap string (list Step) :=
  let entries_ := if (64 <=? Z.of_nat (size entries_)) && bool_decide (entries_ !! key = None)
                  then delete (begin_ entries_) entries_ else entries_ in
  <[key := value]> entries_.

Definition cache_key (dataset_path : string) (index : pb.IndexMetadata) : string :=
  dataset_path +:+ String.String (Ascii.ascii_of_N 10) (pb.uuid_string (pb.ix_uuid index)).

(** [FragReuse::load] with the state of its static cache: [None] is the null pointer. *)
Definition load (cache : gmap string (list Step)) (dataset_path : string) (manifest : pb.Manifest)
    : res (option (list Step)) * gmap string (list Step) :=
  match newest_index manifest with
  | None => (Ok None, cache)
  | Some newest =>
      let key := cache_key dataset_path newest in
      match cache_find cache key with
      | Some loaded => (Ok (Some loaded), cache)
      | None =>
          match from_details dataset_path manifest newest with
          | Err error => (Err error, cache)
          | Ok loaded => (Ok (Some loaded), cache_put cache key loaded)
          end
      end
  end.

End loading.

(** ** Writing *)

(** [FragReuseWriteGroup]: a fragment is its id, physical rows and deleted rows. *)
Record FragReuseWriteGroup := mkWriteGroup {
  changed_row_addrs : list Z;
  old_fragments : list (Z * Z * Z);
  new_fragments : list (Z * Z * Z)
}.

Definition put_digest (d : Z * Z * Z) : list Z :=
  put_u64_field 1 d.1.1 ++ put_u64_field 2 d.1.2 ++ put_u64_field 3 d.2.

Definition put_group (g : FragReuseWriteGroup) : list Z :=
  put_bytes_field 1 (Roaring.Roaring.encode_treemap (changed_row_addrs g)) ++
  concat ((fun d => put_bytes_field 2 (put_digest d)) <$> old_fragments g) ++
  concat ((fun d => put_bytes_field 3 (put_digest d)) <$> new_fragments g).

Definition put_version (version : Z) (gs : list FragReuseWriteGroup) : list Z :=
  put_u64_field 1 version ++ concat ((fun g => put_bytes_field 3 (put_group g)) <$> gs).

(** The versions an InlineContent holds, copied. *)
Definition copy_version (versions : list Z) (v : Field) : list Z :=
  if (f_number v =? 1) && (f_wire v =? 2) then versions ++ put_bytes_field 1 (f_data v) else versions.

Definition prior_field (versions : list Z) (f : Field) : res (list Z) :=
  if f_number f =? 2 then Err "the fragment reuse index keeps its versions in an external file: not written yet"
  else if negb (f_number f =? 1) || negb (f_wire f =? 2) then Ok versions
  else
    let '(vs, bad) := wire_fields (f_data f) in
    if bad : bool then Err "the fragment reuse index's details are malformed" else Ok (foldl copy_version versions vs).

Definition prior_versions (prior : option pb.IndexMetadata) : res (list Z) :=
  match prior with
  | None => Ok []
  | Some prior => read_message prior_field "the fragment reuse index's details are malformed" (pb.ix_details_value prior) []
  end.

Section writing.
  (** [pb::make_index_metadata], [new_uuid()] and [system_clock::now()]. *)
  Context (make_index_metadata :
    list Z -> list Z -> string -> Z -> list Z -> string -> Z -> Z -> list (string * Z) -> list Z -> pb.IndexMetadata).
  Context (new_uuid : list Z) (now : Z).

Definition fragment_reuse_index_entry (prior : option pb.IndexMetadata) (version : Z) (gs : list FragReuseWriteGroup)
    (coverage : list Z) : res pb.IndexMetadata :=
  versions ← prior_versions prior;
  let versions := versions ++ put_bytes_field 1 (put_version version gs) in
  let details := put_bytes_field 1 versions in
  Ok (make_index_metadata new_uuid [] kFragReuseName version (sort_unique coverage)
        ("/lance.table." +:+ kFragReuseDetails) 3 (u64 now) [] details).

End writing.

(** ** Reading what was written *)

Lemma wire_varint_loop_read n shift out used v rest :
  bytes_ok used -> varint_loop n shift out (used ++ rest) = (true, v, rest) ->
  wire_varint_loop n shift out (used ++ rest) = Some (v, rest).
Proof.
  intros Hu. revert n shift out. induction Hu as [|b used Hb Hu IH]; intros n shift out H.
  - apply varint_loop_suffix in H as (used & Hs & Hne). apply (f_equal length) in Hs. rewrite !length_app in Hs. simpl in Hs.
    destruct used; [by specialize (Hne eq_refl) | simpl in Hs; lia].
  - destruct n as [|n]; [done|]. cbn in *. change 128 with (2 ^ 7) in H at 1. rewrite land_pow2_testbit in H by lia.
    unfold is_u8 in Hb. replace (Z.testbit b 7) with (128 <=? b) in H.
    + destruct (Z.leb_spec 128 b), (Z.ltb_spec b 128); try lia; cbn in H; [by apply IH|]. injection H as <- ->; done.
    + rewrite Z.testbit_eqb by lia. change (2 ^ 7) with 128. change (2 ^ 8) with 256 in Hb.
      destruct (Z.leb_spec 128 b).
      * replace (b / 128) with 1 by (apply (Z.div_unique _ _ _ (b - 128)); lia). done.
      * by rewrite Z.div_small by lia.
Qed.

Lemma wire_varint_put v rest : is_u64 v -> wire_varint (put_varint v ++ rest) = Some (v, rest).
Proof.
  intros Hv. apply wire_varint_loop_read; [apply put_varint_ok; unfold is_u64 in Hv; lia | by apply varint_put].
Qed.

Lemma wire_key n w rest :
  field_number n -> 0 <= w < 8 -> wire_varint (put_key n w ++ rest) = Some (n * 8 + w, rest).
Proof.
  intros Hn Hw. unfold put_key. rewrite put_key_value by done. apply wire_varint_put.
  unfold field_number in Hn. unfold is_u64. lia.
Qed.

(** A written field as this reader presents it. *)
Definition wview (w : wfield) : Field :=
  match w with WBytes n b => mkField n 2 0 b | WU64 n v => mkField n 0 v [] end.

Lemma next_field_put w rest : wfield_ok w -> next_field (put_wfield w ++ rest) = Some (wview w, rest).
Proof.
  destruct w as [n b|n v]; cbn [wfield_ok put_wfield wview]; unfold next_field.
  - intros [Hn Hb]. unfold put_bytes_field. rewrite <- !app_assoc, wire_key by (done || lia). cbn -[take drop].
    rewrite key_number, key_wire by (done || lia). cbn -[take drop].
    rewrite wire_varint_put by (unfold is_u64; pose proof (zlen_nonneg b); lia). cbn -[take drop].
    rewrite zlen_app. pose proof (zlen_nonneg rest). destruct (Z.ltb_spec (zlen b + zlen rest) (zlen b)); [lia|].
    unfold zlen. by rewrite Nat2Z.id, take_app_length, drop_app_length.
  - intros (Hn & Hv & Hv0). unfold put_u64_field. destruct (Z.eqb_spec v 0); [done|].
    rewrite <- app_assoc, wire_key by (done || lia). cbn. rewrite key_number, key_wire by (done || lia). cbn.
    by rewrite wire_varint_put.
Qed.

Lemma put_wfield_ne w rest : wfield_ok w -> exists b l, put_wfield w ++ rest = b :: l.
Proof.
  destruct w as [n b|n v]; cbn [wfield_ok put_wfield]; intros H.
  - unfold put_bytes_field. rewrite <- app_assoc. pose proof (put_key_ne n 2 ((put_varint (zlen b) ++ b) ++ rest)) as Hk.
    destruct (put_key n 2 ++ _); [done | by eauto].
  - destruct H as (_ & _ & Hv). unfold put_u64_field. destruct (Z.eqb_spec v 0); [done|]. rewrite <- app_assoc.
    pose proof (put_key_ne n 0 (put_varint v ++ rest)) as Hk. destruct (put_key n 0 ++ _); [done | by eauto].
Qed.

(** The fields a message is written from are those [Wire] iterates. *)
Lemma wire_fields_written ws :
  Forall wfield_ok ws -> wire_fields (concat (put_wfield <$> ws)) = (wview <$> ws, false).
Proof.
  intros H. unfold wire_fields. set (n := S _).
  assert (length (concat (put_wfield <$> ws)) < n)%nat as Hn by (unfold n; lia). clearbody n. revert n Hn.
  induction H as [|w ws Hw Hws IH]; intros n Hn; [by destruct n|].
  rewrite fmap_cons in *. cbn [concat] in *. destruct n as [|n]; [lia|].
  destruct (put_wfield_ne w (concat (put_wfield <$> ws)) Hw) as (b & l & E).
  rewrite E. cbn [wire_loop]. rewrite <- E, next_field_put by done. rewrite IH; [done|].
  rewrite length_app in Hn. assert (0 < length (put_wfield w))%nat; [|lia].
  destruct (put_wfield_ne w [] Hw) as (b' & l' & E'). rewrite app_nil_r in E'. rewrite E'. simpl. lia.
Qed.

Lemma read_message_written {A} (body : A -> Field -> res A) error ws a :
  Forall wfield_ok ws -> read_message body error (concat (put_wfield <$> ws)) a = fold_res body (wview <$> ws) a.
Proof. intros H. unfold read_message. rewrite wire_fields_written by done. by destruct (fold_res _ _ _). Qed.

(** ** The written entry *)

Definition opt_u64 (n v : Z) : list wfield := if v =? 0 then [] else [WU64 n v].

Lemma put_opt_u64 n v : concat (put_wfield <$> opt_u64 n v) = put_u64_field n v.
Proof. unfold opt_u64. case_bool; [by subst | cbn; apply app_nil_r]. Qed.

Lemma opt_u64_ok n v : field_number n -> is_u64 v -> Forall wfield_ok (opt_u64 n v).
Proof. intros. unfold opt_u64. case_bool; [apply Forall_nil_2 | apply Forall_singleton; done]. Qed.

Lemma put_bytes_fields {A} n (enc : A -> list Z) l :
  concat ((fun x => put_bytes_field n (enc x)) <$> l) = concat (put_wfield <$> ((fun x => WBytes n (enc x)) <$> l)).
Proof. by rewrite <- list_fmap_compose. Qed.

Lemma bytes_fields_ok {A} n (enc : A -> list Z) l :
  field_number n -> zlen (concat ((fun x => put_bytes_field n (enc x)) <$> l)) < 2 ^ 64 ->
  Forall wfield_ok ((fun x => WBytes n (enc x)) <$> l).
Proof.
  intros Hn Hl. apply Forall_fmap, Forall_forall. intros x Hx. split; [done|].
  assert (zlen (put_bytes_field n (enc x)) <= zlen (concat ((fun x => put_bytes_field n (enc x)) <$> l))).
  { apply zlen_concat_elem, list_elem_of_fmap. by exists x. }
  pose proof (zlen_put_bytes_field n (enc x)). lia.
Qed.

(** What the reader makes of a written digest, group and version. *)
Definition digest_of (d : Z * Z * Z) : Digest := mkDigest d.1.1 d.1.2.
Definition raw_group (g : FragReuseWriteGroup) : RawGroup :=
  mkRawGroup (Roaring.Roaring.encode_treemap (changed_row_addrs g)) (digest_of <$> old_fragments g) (digest_of <$> new_fragments g).
Definition raw_version (version : Z) (gs : list FragReuseWriteGroup) : RawVersion := mkRawVersion version (raw_group <$> gs).

Definition digest_ok (d : Z * Z * Z) : Prop := is_u64 d.1.1 /\ is_u64 d.1.2 /\ is_u64 d.2.

Lemma read_digest_put n d : digest_ok d -> read_digest (mkField n 2 0 (put_digest d)) = Ok (digest_of d).
Proof.
  intros (H1 & H2 & H3). unfold read_digest, put_digest. cbn [f_data]. rewrite <- !put_opt_u64, <- !concat_app, <- !fmap_app.
  rewrite read_message_written by (repeat apply Forall_app_2; apply opt_u64_ok; done).
  destruct d as [[id ph] del]. unfold opt_u64, digest_of. cbn in *.
  destruct (Z.eqb_spec id 0), (Z.eqb_spec ph 0), (Z.eqb_spec del 0); subst; done.
Qed.

Lemma read_digests n (add : RawGroup -> Digest -> RawGroup) ds out :
  (n = 2 /\ add = (fun out d => mkRawGroup (changed out) (old_frags out ++ [d]) (new_frags out)) \/
   n = 3 /\ add = (fun out d => mkRawGroup (changed out) (old_frags out) (new_frags out ++ [d]))) ->
  Forall digest_ok ds ->
  fold_res group_field (wview <$> ((fun d => WBytes n (put_digest d)) <$> ds)) out = Ok (foldl add out (digest_of <$> ds)).
Proof.
  intros Hn H. revert out. induction H as [|d ds Hd Hds IH]; intros out; [done|]. cbn [fmap list_fmap fold_res foldl wview].
  assert (group_field out (mkField n 2 0 (put_digest d)) = Ok (add out (digest_of d))) as ->; [|apply IH].
  destruct Hn as [[-> ->]|[-> ->]]; unfold group_field; cbn -[read_digest put_digest]; by rewrite read_digest_put.
Qed.

Lemma foldl_old out ds :
  foldl (fun out d => mkRawGroup (changed out) (old_frags out ++ [d]) (new_frags out)) out ds =
  mkRawGroup (changed out) (old_frags out ++ ds) (new_frags out).
Proof. revert out. induction ds as [|d ds IH]; intros [c o n]; cbn; [by rewrite app_nil_r|]. rewrite IH. cbn. by rewrite <- app_assoc. Qed.

Lemma foldl_new out ds :
  foldl (fun out d => mkRawGroup (changed out) (old_frags out) (new_frags out ++ [d])) out ds =
  mkRawGroup (changed out) (old_frags out) (new_frags out ++ ds).
Proof. revert out. induction ds as [|d ds IH]; intros [c o n]; cbn; [by rewrite app_nil_r|]. rewrite IH. cbn. by rewrite <- app_assoc. Qed.

Definition digests_ok (g : FragReuseWriteGroup) : Prop := Forall digest_ok (old_fragments g) /\ Forall digest_ok (new_fragments g).

Lemma read_group_put n g :
  digests_ok g -> zlen (put_group g) < 2 ^ 64 -> read_group (mkField n 2 0 (put_group g)) = Ok (raw_group g).
Proof.
  intros [Ho Hn] Hl. unfold read_group, put_group in *. cbn [f_data]. rewrite !zlen_app in Hl.
  set (c := Roaring.Roaring.encode_treemap _) in *. pose proof (zlen_put_bytes_field 1 c).
  pose proof (zlen_nonneg c). set (os := concat ((fun d => put_bytes_field 2 _) <$> _)) in *. set (ns := concat ((fun d => put_bytes_field 3 _) <$> _)) in *.
  pose proof (zlen_nonneg os). pose proof (zlen_nonneg ns).
  replace (put_bytes_field 1 c) with (concat (put_wfield <$> [WBytes 1 c])) by apply app_nil_r.
  unfold os, ns in *. rewrite !put_bytes_fields, <- !concat_app, <- !fmap_app.
  rewrite read_message_written.
  - rewrite !fmap_app, !fold_res_app. change (fold_res group_field (wview <$> [WBytes 1 c]) (mkRawGroup [] [] [])) with (Ok (mkRawGroup c [] [])).
    unfold mbind, res_bind. rewrite fold_res_app.
    rewrite (read_digests 2 _ (old_fragments g) _ (or_introl (conj eq_refl eq_refl))), foldl_old by done. unfold mbind, res_bind.
    by rewrite (read_digests 3 _ (new_fragments g) _ (or_intror (conj eq_refl eq_refl))), foldl_new.
  - apply Forall_app_2; [|apply Forall_app_2; apply bytes_fields_ok; done || lia]. repeat constructor; [done.. | lia].
Qed.

Lemma read_version_put n version gs :
  is_u64 version -> Forall digests_ok gs -> zlen (put_version version gs) < 2 ^ 64 ->
  read_version (mkField n 2 0 (put_version version gs)) = Ok (raw_version version gs).
Proof.
  intros Hv Hg Hl. unfold read_version, put_version in *. cbn [f_data]. rewrite zlen_app in Hl.
  pose proof (zlen_put_u64_field 1 version). assert (zlen (concat ((fun g => put_bytes_field 3 (put_group g)) <$> gs)) < 2 ^ 64) as Hc by lia.
  rewrite <- put_opt_u64, put_bytes_fields, <- concat_app, <- fmap_app.
  rewrite read_message_written by (apply Forall_app_2; [by apply opt_u64_ok | by apply bytes_fields_ok]).
  rewrite fmap_app, fold_res_app.
  assert (fold_res version_field (wview <$> opt_u64 1 version) (mkRawVersion 0 []) = Ok (mkRawVersion version [])) as ->.
  { unfold opt_u64. destruct (Z.eqb_spec version 0); [by subst | done]. }
  unfold mbind, res_bind, raw_version.
  assert (forall acc, fold_res version_field (wview <$> ((fun g => WBytes 3 (put_group g)) <$> gs)) (mkRawVersion version acc) =
    Ok (mkRawVersion version (acc ++ (raw_group <$> gs)))) as H'; [|apply H'].
  clear Hl. induction Hg as [|g gs Hd Hg IH]; intros acc; [cbn; by rewrite app_nil_r|].
  cbn [fmap list_fmap concat] in Hc. rewrite zlen_app in Hc. pose proof (zlen_put_bytes_field 3 (put_group g)).
  pose proof (zlen_nonneg (put_group g)). pose proof (zlen_nonneg (concat ((fun g => put_bytes_field 3 (put_group g)) <$> gs))).
  cbn [fmap list_fmap fold_res wview]. unfold version_field at 1. cbn -[fold_res read_group put_group].
  rewrite read_group_put by (done || lia). unfold mbind, res_bind. rewrite IH by lia. cbn. by rewrite <- app_assoc.
Qed.

(** The version fields of an InlineContent. *)
Definition is_version (f : Field) : bool := (f_number f =? 1) && (f_wire f =? 2).
Definition version_bytes (fs : list Field) : list (list Z) := f_data <$> filter (fun f => is_version f = true) fs.

Lemma copied_versions fs acc :
  foldl copy_version acc fs = acc ++ concat ((fun b => put_bytes_field 1 b) <$> version_bytes fs).
Proof.
  revert acc. induction fs as [|f fs IH]; intros acc; [cbn; by rewrite app_nil_r|]. cbn [foldl].
  unfold copy_version at 2, version_bytes. fold (is_version f). rewrite filter_cons, IH.
  destruct (is_version f); cbn; [by rewrite <- app_assoc | done].
Qed.

Lemma inline_version_bytes fs versions :
  fold_res inline_field fs versions = fold_res inline_field ((fun b => mkField 1 2 0 b) <$> version_bytes fs) versions.
Proof.
  revert versions. induction fs as [|f fs IH]; intros versions; [done|]. cbn [fold_res]. unfold version_bytes in *.
  assert (inline_field versions f = if is_version f then v ← read_version f; Ok (versions ++ [v]) else Ok versions) as -> by done.
  rewrite filter_cons. destruct (is_version f) eqn:E; cbn [decide]; [|apply IH].
  destruct (decide (true = true)); [|done]. cbn [fmap list_fmap fold_res].
  change (inline_field versions (mkField 1 2 0 (f_data f))) with (v ← read_version f; Ok (versions ++ [v])).
  destruct (read_version f); [apply IH | done].
Qed.

Lemma wire_varint_rest l v r : wire_varint l = Some (v, r) -> zlen r <= zlen l.
Proof.
  unfold wire_varint. assert (forall n s o l, wire_varint_loop n s o l = Some (v, r) -> zlen r <= zlen l) as H; [|apply H].
  clear l. induction n as [|n IH]; intros s o l; [done|]. destruct l as [|b l]; [done|]. cbn. rewrite zlen_cons.
  case_bool; [intros [= _ <-]; lia|]. intros ?%IH. lia.
Qed.

Lemma wire_skip_rest n l r : wire_skip n l = Some r -> zlen r <= zlen l.
Proof. unfold wire_skip. case_bool; [done|]. intros [= <-]. unfold zlen. rewrite length_drop. lia. Qed.

Lemma next_field_rest bs f rest : next_field bs = Some (f, rest) -> zlen (f_data f) <= zlen bs /\ zlen rest <= zlen bs.
Proof.
  unfold next_field. destruct (wire_varint bs) as [[key r1]|] eqn:E1; [|done]. apply wire_varint_rest in E1. cbn.
  pose proof (zlen_nonneg bs). assert (zlen (@nil Z) = 0) as H0 by done. repeat (case_bool; [|try done]).
  - destruct (wire_varint r1) as [[v r2]|] eqn:Ev; [|done]. apply wire_varint_rest in Ev. intros [= <- <-]. cbn [f_data]. lia.
  - destruct (wire_skip 8 r1) as [r2|] eqn:Ev; [|done]. apply wire_skip_rest in Ev. intros [= <- <-]. cbn [f_data]. lia.
  - destruct (wire_skip 4 r1) as [r2|] eqn:Ev; [|done]. apply wire_skip_rest in Ev. intros [= <- <-]. cbn [f_data]. lia.
  - destruct (wire_varint r1) as [[v r2]|] eqn:Ev; [|done]. apply wire_varint_rest in Ev. cbn. case_bool; [done|].
    intros [= <- <-]. cbn [f_data]. unfold zlen in *. rewrite length_take, length_drop. lia.
Qed.

Lemma wire_loop_data n bytes : Forall (fun f => zlen (f_data f) <= zlen bytes) (wire_loop n bytes).1.
Proof.
  revert bytes. induction n as [|n IH]; intros bytes; [constructor|]. cbn [wire_loop]. destruct bytes as [|b bytes]; [constructor|].
  destruct (next_field (b :: bytes)) as [[f rest]|] eqn:E; [|constructor]. apply next_field_rest in E as [Hf Hr].
  specialize (IH rest). destruct (wire_loop n rest). constructor; [done|].
  eapply Forall_impl; [exact IH|]. cbn. lia.
Qed.

(** Appending a version to an InlineContent's copied versions. *)
Lemma read_inline_appended content olds version gs :
  read_inline content = Ok olds -> zlen content < 2 ^ 64 ->
  is_u64 version -> Forall digests_ok gs -> zlen (put_version version gs) < 2 ^ 64 ->
  read_inline (concat ((fun b => put_bytes_field 1 b) <$> version_bytes (wire_fields content).1) ++
               put_bytes_field 1 (put_version version gs)) = Ok (olds ++ [raw_version version gs]) /\
  (wire_fields content).2 = false.
Proof.
  intros Hc Hl Hv Hg Hvl. unfold read_inline at 1, read_message in Hc.
  pose proof (wire_loop_data (S (length content)) content) as Hd. unfold wire_fields in *.
  destruct (wire_loop _ content) as [fs bad]. cbn [fst snd] in *.
  destruct (fold_res inline_field fs []) as [vs|] eqn:Ef; [|done]. cbn in Hc. destruct bad; [done|]. injection Hc as ->.
  split; [|done]. rewrite (put_bytes_fields 1 (fun b => b)).
  replace (put_bytes_field 1 (put_version version gs)) with (concat (put_wfield <$> [WBytes 1 (put_version version gs)])) by apply app_nil_r.
  rewrite <- concat_app, <- fmap_app. unfold read_inline. rewrite read_message_written.
  - rewrite fmap_app, fold_res_app, <- list_fmap_compose.
    change (wview ∘ (fun b => WBytes 1 b)) with (fun b => mkField 1 2 0 b). rewrite <- inline_version_bytes, Ef.
    unfold mbind, res_bind. cbn [fmap list_fmap fold_res wview]. unfold inline_field. cbn -[read_version put_version].
    by rewrite read_version_put.
  - apply Forall_app_2; [|by repeat constructor]. apply Forall_fmap, Forall_fmap, Forall_forall. intros f [_ Hf]%list_elem_of_filter.
    rewrite Forall_forall in Hd. specialize (Hd f Hf). repeat constructor; cbn; [done..|lia].
Qed.

(** [build_step] on each version, in order. *)
Definition build_steps (raw : list RawVersion) : res (list Step) :=
  fold_res (fun steps v => step ← build_step v; Ok (steps ++ [step])) raw [].

Lemma from_details_inline read_all dataset_path manifest index dir content :
  BasePaths.index_dir_of dataset_path manifest index = Ok dir ->
  ends_in kFragReuseDetails (pb.ix_details_type_url index) = true ->
  pb.ix_details_value index = put_bytes_field 1 content -> zlen content < 2 ^ 64 ->
  from_details read_all dataset_path manifest index = (raw ← read_inline content; build_steps raw).
Proof.
  intros Hd Hu Hv Hl. unfold from_details. rewrite Hd, Hu, Hv. cbn -[put_bytes_field].
  replace (put_bytes_field 1 content) with (concat (put_wfield <$> [WBytes 1 content])) by apply app_nil_r.
  by rewrite wire_fields_written by (by repeat constructor).
Qed.

(** [pb::make_index_metadata] decodes what it encoded: the members are the arguments. *)
Definition makes_index
    (make : list Z -> list Z -> string -> Z -> list Z -> string -> Z -> Z -> list (string * Z) -> list Z -> pb.IndexMetadata) : Prop :=
  forall uuid fields name version ids url index_version created files details,
    let ix := make uuid fields name version ids url index_version created files details in
    pb.ix_name ix = name /\ pb.ix_dataset_version ix = version /\ pb.ix_fragment_ids ix = ids /\
    pb.ix_details_type_url ix = url /\ pb.ix_details_value ix = details.

(** The steps of the entry there is already; its details are one inline content. *)
Definition prior_steps (read_all : string -> res (list Z)) dataset_path manifest (prior : option pb.IndexMetadata)
    (steps : list Step) : Prop :=
  match prior with
  | None => steps = []
  | Some p =>
      from_details read_all dataset_path manifest p = Ok steps /\
      exists content, pb.ix_details_value p = put_bytes_field 1 content /\ zlen content < 2 ^ 64
  end.

Lemma prior_content read_all dataset_path manifest prior steps :
  prior_steps read_all dataset_path manifest prior steps ->
  exists content olds, zlen content < 2 ^ 64 /\ read_inline content = Ok olds /\ build_steps olds = Ok steps /\
    prior_versions prior = if (wire_fields content).2 then Err "the fragment reuse index's details are malformed"
                           else Ok (concat ((fun b => put_bytes_field 1 b) <$> version_bytes (wire_fields content).1)).
Proof.
  destruct prior as [p|]; cbn [prior_steps]; [|intros ->; by exists [], []].
  intros (Hf & content & Hv & Hl). exists content.
  unfold from_details in Hf. destruct (BasePaths.index_dir_of _ _ p) as [dir|] eqn:Ed; [|done]. cbn -[wire_fields] in Hf.
  destruct (ends_in _ _) eqn:Eu; [|done]. cbn [negb] in Hf. fold (from_details read_all dataset_path manifest p) in Hf.
  assert (from_details read_all dataset_path manifest p = Ok steps) as Hf' by (unfold from_details; rewrite Ed, Eu; exact Hf).
  rewrite (from_details_inline _ _ _ _ _ _ Ed Eu Hv Hl) in Hf'. destruct (read_inline content) as [olds|] eqn:Er; [|done].
  exists olds. split_and!; [done..|]. unfold prior_versions. rewrite Hv.
  replace (put_bytes_field 1 content) with (concat (put_wfield <$> [WBytes 1 content])) by apply app_nil_r.
  rewrite read_message_written by (by repeat constructor). cbn [fmap list_fmap fold_res wview]. unfold prior_field.
  cbn [f_number f_wire f_data Z.eqb Pos.eqb negb orb]. destruct (wire_fields content) as [vs []]; [done|]. cbn.
  by rewrite copied_versions.
Qed.

(** the entry written after a deferred compaction is read back as the steps of the entry
    before it followed by the step of the new version, and it covers the sorted fragment ids. *)
Theorem frag_reuse_entry_appends make new_uuid now read_all dataset_path manifest prior steps version gs coverage step ix dir :
  makes_index make -> prior_steps read_all dataset_path manifest prior steps ->
  is_u64 version -> Forall digests_ok gs -> build_step (raw_version version gs) = Ok step ->
  fragment_reuse_index_entry make new_uuid now prior version gs coverage = Ok ix ->
  zlen (pb.ix_details_value ix) < 2 ^ 64 -> BasePaths.index_dir_of dataset_path manifest ix = Ok dir ->
  from_details read_all dataset_path manifest ix = Ok (steps ++ [step]) /\
  pb.ix_name ix = kFragReuseName /\ pb.ix_fragment_ids ix = sort_unique coverage.
Proof.
  intros Hm Hp Hv Hg Hs. destruct (prior_content _ _ _ _ _ Hp) as (content & olds & Hl & Hr & Hb & Hc).
  unfold fragment_reuse_index_entry. rewrite Hc. destruct (wire_fields content).2 eqn:Eb; [done|]. cbn -[put_version put_bytes_field].
  set (versions := concat _ ++ _). intros Hi Hd Hdir.
  destruct (Hm new_uuid [] kFragReuseName version (sort_unique coverage) ("/lance.table." +:+ kFragReuseDetails) 3 (u64 now) []
              (put_bytes_field 1 versions)) as (Hn & _ & Hids & Hu & Hx).
  injection Hi as <-. rewrite Hx in Hd. split; [|done]. pose proof (zlen_put_bytes_field 1 versions).
  rewrite (from_details_inline _ _ _ _ _ versions Hdir); [| by rewrite Hu; vm_compute | done | lia].
  destruct (read_inline_appended content olds version gs) as [Ha _]; try done.
  { unfold versions in *. rewrite zlen_app in *. pose proof (zlen_put_bytes_field 1 (put_version version gs)).
    pose proof (zlen_nonneg (concat ((fun b => put_bytes_field 1 b) <$> version_bytes (wire_fields content).1))). lia. }
  fold versions in Ha. rewrite Ha. unfold build_steps in *. unfold mbind at 1, res_bind at 1.
  rewrite fold_res_app, Hb. unfold mbind at 1, res_bind at 1. cbn [fold_res]. by rewrite Hs.
Qed.

(** ** The remap steps *)

Definition address (fragment offset : Z) : Z := Z.lor (Z.shiftl fragment 32) offset.
Definition fragment_of (addr : Z) : Z := u32 (Z.shiftr addr 32).
Definition key (d : Digest) : Z := u32 (d_id d).

(** The surviving offsets of fragment [k] among the rewritten [rows]. *)
Definition kept_of (rows : list Z) (k : Z) : list Z := u32 <$> filter (fun a => fragment_of a = k) rows.

(** The surviving rows of a group, in the order of its old fragments, and the rows of its new ones. *)
Definition old_rows (rows : list Z) (olds : list Digest) : list Z :=
  concat ((fun d => address (key d) <$> kept_of rows (key d)) <$> olds).
Definition new_rows (news : list Digest) : list Z :=
  concat ((fun d => address (key d) <$> seqZ 0 (d_physical d)) <$> news).

Lemma keep_lookup rows M k :
  default [] (foldl keep_address M rows !! k) = default [] (M !! k) ++ kept_of rows k.
Proof.
  revert M. induction rows as [|a rows IH]; intros M; cbn [foldl]; [by rewrite app_nil_r|]. rewrite IH. unfold kept_of.
  rewrite filter_cons. unfold keep_address. fold (fragment_of a). destruct (decide (fragment_of a = k)) as [<-|Hne].
  - rewrite lookup_insert. destruct (decide _); [|done]. cbn. by rewrite <- app_assoc.
  - by rewrite lookup_insert_ne.
Qed.

Lemma keep_dom rows M k :
  is_Some (foldl keep_address M rows !! k) -> is_Some (M !! k) \/ exists a, a ∈ rows /\ fragment_of a = k.
Proof.
  revert M. induction rows as [|a rows IH]; intros M; cbn [foldl]; [by left|]. intros [H|(b & Hb & <-)]%IH.
  - unfold keep_address in H. fold (fragment_of a) in H. destruct (decide (fragment_of a = k)) as [<-|Hne].
    + right. exists a. by split; [left|].
    + rewrite lookup_insert_ne in H by done. by left.
  - right. exists b. by split; [right|].
Qed.

(** The old fragments of a group as the loop records them. *)
Fixpoint place (gi : nat) (before : Z) (K : Z -> list Z) (olds : list Digest) : list (Z * OldFragment) :=
  match olds with
  | [] => []
  | d :: olds =>
      (key d, mkOldFragment gi before (d_physical d) (K (key d))) :: place gi (before + zlen (K (key d))) K olds
  end.

Lemma place_keys gi b K olds : (place gi b K olds).*1 = key <$> olds.
Proof. revert b. induction olds as [|d olds IH]; intros b; [done|]. cbn. by rewrite IH. Qed.

Lemma place_ext gi b K K' olds : (forall k, k ∈ key <$> olds -> K k = K' k) -> place gi b K olds = place gi b K' olds.
Proof.
  revert b. induction olds as [|d olds IH]; intros b H; [done|]. cbn. rewrite (H (key d)) by (by left).
  rewrite (IH _ (fun k Hk => H k (list_elem_of_further _ _ _ Hk))). done.
Qed.

Lemma old_step_inv gi s d s' :
  old_step gi s d = Ok s' ->
  os_frags s !! key d = None /\
  (forall o, last (default [] (os_kept s !! key d)) = Some o -> o < d_physical d) /\
  s' = mkOldState (u64 (os_before s + zlen (default [] (os_kept s !! key d)))) ({[d_id d]} ∪ os_seen s) (delete (key d) (os_kept s))
         (<[key d := mkOldFragment gi (os_before s) (d_physical d) (default [] (os_kept s !! key d))]> (os_frags s)).
Proof.
  unfold old_step. fold (key d). case_bool_decide; [done|]. intros Hs. case_hyp Hs. case_bool_decide as Hf; [done|].
  injection Hs as <-. split_and!; [by apply eq_None_not_Some | | done].
  intros o Ho. rewrite Ho in E. bool_prop. lia.
Qed.

Lemma old_steps_keys gi olds s s' :
  fold_res (old_step gi) olds s = Ok s' -> NoDup (key <$> olds) /\ Forall (fun d => os_frags s !! key d = None) olds.
Proof.
  revert s. induction olds as [|d olds IH]; intros s H; [split; constructor|]. cbn [fold_res] in H.
  destruct (old_step gi s d) as [s1|] eqn:E; [|done]. apply old_step_inv in E as (Hn & _ & ->). apply IH in H as [Hd Hf]. cbn [os_frags] in Hf.
  rewrite Forall_forall in Hf. split.
  - rewrite fmap_cons. constructor; [|done]. intros (d' & Hk & Hd')%list_elem_of_fmap. specialize (Hf d' Hd').
    rewrite Hk, lookup_insert_eq in Hf. done.
  - constructor; [done|]. apply Forall_forall. intros d' Hd'. specialize (Hf d' Hd').
    apply lookup_insert_None in Hf. tauto.
Qed.

Definition kept_total (K : Z -> list Z) (olds : list Digest) : Z := zlen (concat ((fun d => K (key d)) <$> olds)).

Lemma kept_total_cons K d olds : kept_total K (d :: olds) = zlen (K (key d)) + kept_total K olds.
Proof. unfold kept_total. cbn. by rewrite zlen_app. Qed.

Lemma kept_total_app K pre post : kept_total K (pre ++ post) = kept_total K pre + kept_total K post.
Proof. unfold kept_total. by rewrite fmap_app, concat_app, zlen_app. Qed.

Lemma kept_total_nonneg K olds : 0 <= kept_total K olds.
Proof. apply zlen_nonneg. Qed.

Lemma kept_total_ext K K' olds : (forall k, k ∈ key <$> olds -> K k = K' k) -> kept_total K olds = kept_total K' olds.
Proof.
  intros H. unfold kept_total. do 2 f_equal. apply list_fmap_ext. intros i d Hi. apply H, list_elem_of_fmap.
  exists d. split; [done | by eapply list_elem_of_lookup_2].
Qed.

Definition kept_map (kept : gmap Z (list Z)) (k : Z) : list Z := default [] (kept !! k).

Lemma old_steps_inv gi olds s s' :
  fold_res (old_step gi) olds s = Ok s' -> 0 <= os_before s -> os_before s + kept_total (kept_map (os_kept s)) olds < 2 ^ 64 ->
  os_before s' = os_before s + kept_total (kept_map (os_kept s)) olds /\
  os_frags s' = list_to_map (place gi (os_before s) (kept_map (os_kept s)) olds) ∪ os_frags s /\
  os_kept s' = foldr delete (os_kept s) (key <$> olds) /\
  Forall (fun d => forall o, last (kept_map (os_kept s) (key d)) = Some o -> o < d_physical d) olds.
Proof.
  revert s. induction olds as [|d olds IH]; intros s H Hb Ht.
  { injection H as <-. cbn. rewrite (left_id ∅ (∪)). unfold kept_total. cbn. rewrite Z.add_0_r. split_and!; [done..|constructor]. }
  pose proof (old_steps_keys _ _ _ _ H) as [Hnd _]. rewrite fmap_cons in Hnd. apply NoDup_cons in Hnd as [Hd Hnd].
  cbn [fold_res] in H. destruct (old_step gi s d) as [s1|] eqn:E; [|done]. apply old_step_inv in E as (Hn & Hlast & ->). cbn in H.
  fold (kept_map (os_kept s) (key d)) in *. rewrite kept_total_cons in *.
  assert (forall k, k ∈ key <$> olds -> kept_map (delete (key d) (os_kept s)) k = kept_map (os_kept s) k) as Hext.
  { intros k Hk. unfold kept_map. rewrite lookup_delete_ne; [done|]. intros <-. by apply Hd. }
  pose proof (zlen_nonneg (kept_map (os_kept s) (key d))). pose proof (kept_total_nonneg (kept_map (os_kept s)) olds).
  rewrite u64_small in H by (unfold is_u64; lia).
  apply IH in H; cbn [os_before os_kept os_frags] in *; [| lia | rewrite (kept_total_ext _ _ _ Hext); lia].
  rewrite (kept_total_ext _ _ _ Hext), (place_ext _ _ _ _ _ Hext) in H. destruct H as (Hs1 & H2 & H3 & H4). split_and!.
  - lia.
  - rewrite H2. cbn [place list_to_map]. rewrite <- insert_union_r; [by rewrite insert_union_l|].
    apply not_elem_of_list_to_map_1. by rewrite place_keys.
  - rewrite H3. cbn. clear. induction olds as [|d' olds IH]; [done|]. cbn. by rewrite IH, delete_delete.
  - constructor; [done|]. rewrite Forall_forall in *. intros d' Hd' o Ho. apply (H4 d' Hd' o). rewrite Hext; [done|].
    apply list_elem_of_fmap. by exists d'.
Qed.

Lemma filter_ne_kept rows k k' : k <> k' -> kept_of (filter (fun a => fragment_of a <> k) rows) k' = kept_of rows k'.
Proof.
  intros Hne. unfold kept_of. rewrite list_filter_filter. f_equal. apply list_filter_iff. intros a. split; [tauto|].
  intros <-. split; [done | congruence].
Qed.

(** The kept rows of distinct fragments are distinct rows; of all the fragments of [rows], all of them. *)
Lemma kept_total_rows rows olds :
  NoDup (key <$> olds) ->
  kept_total (kept_of rows) olds <= zlen rows /\
  (Forall (fun a => fragment_of a ∈ key <$> olds) rows -> kept_total (kept_of rows) olds = zlen rows).
Proof.
  revert rows. induction olds as [|d olds IH]; intros rows Hnd.
  { split; [apply zlen_nonneg|]. intros H. destruct rows as [|a rows]; [done|]. apply Forall_cons_1 in H as [H _]. by apply elem_of_nil in H. }
  rewrite fmap_cons in *. apply NoDup_cons in Hnd as [Hd Hnd]. rewrite kept_total_cons.
  specialize (IH (filter (fun a => fragment_of a <> key d) rows) Hnd). pose proof (filter_split (fun a => fragment_of a = key d) rows) as Hs.
  rewrite (kept_total_ext _ (kept_of rows)) in IH by (intros k Hk; apply filter_ne_kept; intros E; by rewrite E in Hd).
  assert (zlen (kept_of rows (key d)) = zlen (filter (fun a => fragment_of a = key d) rows)) as ->
    by (unfold kept_of, zlen; by rewrite length_fmap).
  destruct IH as [IH1 IH2]. split; [cbv beta in *; lia|]. intros H. rewrite IH2; [done|]. apply Forall_forall. intros a [Hne Ha]%list_elem_of_filter.
  rewrite Forall_forall in H. specialize (H a Ha). apply elem_of_cons in H as [?|?]; done.
Qed.

(** [new_ranges] when the row counts do not wrap. *)
Fixpoint ranges_of (before : Z) (news : list Digest) : list NewRange :=
  match news with
  | [] => []
  | d :: news =>
      if d_physical d =? 0 then ranges_of before news
      else mkNewRange (key d) before (d_physical d) :: ranges_of (before + d_physical d) news
  end.

Definition rows_total (news : list Digest) : Z := foldr (fun d n => d_physical d + n) 0 news.

Lemma rows_total_nonneg news : Forall (fun d => 0 <= d_physical d) news -> 0 <= rows_total news.
Proof. unfold rows_total. induction 1; cbn in *; lia. Qed.

Lemma range_steps news ranges b :
  Forall (fun d => 0 <= d_physical d) news -> 0 <= b -> b + rows_total news < 2 ^ 64 ->
  foldl range_step (ranges, b) news = (ranges ++ ranges_of b news, b + rows_total news).
Proof.
  intros H. revert ranges b. induction H as [|d news Hd H IH]; intros ranges b Hb Ht; cbn [foldl ranges_of rows_total foldr] in *.
  { by rewrite app_nil_r, Z.add_0_r. }
  fold (rows_total news) in *. pose proof (rows_total_nonneg news H). unfold range_step at 2.
  destruct (Z.eqb_spec (d_physical d) 0) as [E|E].
  - rewrite IH by lia. f_equal. lia.
  - rewrite u64_small by (unfold is_u64; lia). rewrite IH by lia. f_equal; [by rewrite <- app_assoc | lia].
Qed.

Lemma length_new_rows news : Forall (fun d => 0 <= d_physical d) news -> zlen (new_rows news) = rows_total news.
Proof.
  unfold new_rows. induction 1 as [|d news Hd H IH]; [done|]. cbn. rewrite zlen_app, IH. f_equal.
  unfold zlen. rewrite length_fmap, length_seqZ. lia.
Qed.

Lemma before_first news i b prev :
  Forall (fun d => 0 <= d_physical d) news -> i < b -> before_upper_bound i (ranges_of b news) prev = prev.
Proof.
  induction 1 as [|d news Hd H IH]; intros Hi; cbn [ranges_of]; [done|]. case_bool; [by apply IH|]. cbn.
  destruct (Z.ltb_spec i b); [done | lia].
Qed.

(** The range an index falls in is the new fragment that holds that row. *)
Lemma find_range news i b prev :
  Forall (fun d => 0 <= d_physical d) news -> b <= i < b + rows_total news ->
  exists r, before_upper_bound i (ranges_of b news) prev = Some r /\ b <= nr_rows_before r <= i /\
    new_rows news !! Z.to_nat (i - b) = Some (address (nr_fragment r) (i - nr_rows_before r)).
Proof.
  intros H. revert b prev. induction H as [|d news Hd H IH]; intros b prev Hi; cbn [ranges_of rows_total foldr] in *; [lia|].
  fold (rows_total news) in *. unfold new_rows. cbn [fmap list_fmap concat]. fold (new_rows news).
  destruct (Z.eqb_spec (d_physical d) 0) as [E|E].
  { rewrite E. rewrite seqZ_nil by lia. cbn. apply IH. lia. }
  cbn [before_upper_bound nr_rows_before]. destruct (Z.ltb_spec i b); [lia|].
  assert (length (address (key d) <$> seqZ 0 (d_physical d)) = Z.to_nat (d_physical d)) as Hl by (by rewrite length_fmap, length_seqZ).
  destruct (Z.lt_ge_cases i (b + d_physical d)).
  - rewrite before_first by (done || lia). eexists. split; [done|]. cbn [nr_rows_before nr_fragment]. split; [lia|].
    rewrite lookup_app_l by lia. rewrite list_lookup_fmap, lookup_seqZ_lt by lia. cbn. do 2 f_equal. lia.
  - destruct (IH (b + d_physical d) (Some (mkNewRange (key d) b (d_physical d))) ltac:(lia)) as (r & -> & Hr & Hl').
    exists r. split; [done|]. split; [lia|]. rewrite lookup_app_r by lia. rewrite <- Hl'. f_equal. lia.
Qed.

(** The rewritten rows of a group, as many as a vector can hold. *)
Definition group_rows (rg : RawGroup) (rows : list Z) : Prop :=
  Roaring.Roaring.decode_treemap (changed rg) = Ok rows /\ zlen rows < 2 ^ 64.
Definition group_sized (rg : RawGroup) : Prop :=
  forall rows, Roaring.Roaring.decode_treemap (changed rg) = Ok rows -> zlen rows < 2 ^ 64.

(** What a group leaves in the step, as group number [gi]. *)
Definition group_at (step : Step) (gi : nat) (rg : RawGroup) : Prop :=
  exists rows ranges, group_rows rg rows /\ NoDup (key <$> old_frags rg) /\
    foldl range_step ([], 0) (new_frags rg) = (ranges, kept_total (kept_of rows) (old_frags rg)) /\
    Forall (fun d => forall o, last (kept_of rows (key d)) = Some o -> o < d_physical d) (old_frags rg) /\
    groups step !! gi = Some (mkGroup ranges (key <$> old_frags rg) (key <$> new_frags rg)) /\
    forall k old, (k, old) ∈ place gi 0 (kept_of rows) (old_frags rg) -> frags step !! k = Some old.

(** A step that a later group extends. *)
Definition extends (step step' : Step) : Prop :=
  groups step `prefix_of` groups step' /\ frags step ⊆ frags step'.

#[export] Instance extends_preorder : PreOrder extends.
Proof.
  split; [intros s; split; done|]. intros s1 s2 s3 [? ?] [? ?]. split; by etrans.
Qed.

Lemma group_at_extends step step' gi rg : group_at step gi rg -> extends step step' -> group_at step' gi rg.
Proof.
  intros (rows & ranges & Hr & Hnd & Hf & Hl & Hg & Hp) [Hpre Hsub]. exists rows, ranges. split_and!; try done.
  - by eapply prefix_lookup_Some.
  - intros k old Hk. eapply lookup_weaken; [by apply Hp | done].
Qed.

Lemma kept_map_rows rows k : kept_map (foldl keep_address ∅ rows) k = kept_of rows k.
Proof. unfold kept_map. rewrite keep_lookup, lookup_empty. done. Qed.

Lemma build_group_inv step rg step' :
  build_group step rg = Ok step' -> group_sized rg ->
  extends step step' /\ length (groups step') = S (length (groups step)) /\ group_at step' (length (groups step)) rg /\
  exists rows, group_rows rg rows /\
    frags step' = list_to_map (place (length (groups step)) 0 (kept_of rows) (old_frags rg)) ∪ frags step.
Proof.
  intros H Hsz. unfold build_group in H. destruct (foldl range_step ([], 0) (new_frags rg)) as [ranges total] eqn:Er.
  destruct (Roaring.Roaring.decode_treemap (changed rg)) as [rows|] eqn:Ed; [|done].
  specialize (Hsz rows Ed). unfold BasePaths.prefixed, mbind, res_bind in H.
  destruct (fold_res (old_step _) _ _) as [s|] eqn:Es; [|done]. case_hyp H. case_hyp H. injection H as <-.
  destruct (old_steps_keys _ _ _ _ Es) as [Hnd Hfresh]. cbn [os_frags] in Hfresh.
  destruct (kept_total_rows rows (old_frags rg) Hnd) as [Hle _].
  apply old_steps_inv in Es; cbn [os_before os_kept os_frags] in *;
    [|done | rewrite (kept_total_ext _ (kept_of rows)) by (intros; apply kept_map_rows); lia].
  rewrite (kept_total_ext _ (kept_of rows)), (place_ext _ _ _ (kept_of rows)) in Es by (intros; apply kept_map_rows).
  destruct Es as (Hb & Hf & _ & Hlast). split_and!.
  - split; cbn [groups frags]; [by eexists|]. rewrite Hf. apply map_union_subseteq_r. apply map_disjoint_spec.
    intros k x y Hx%elem_of_list_to_map_2 Hy. apply (list_elem_of_fmap_2 fst) in Hx.
    rewrite place_keys in Hx. apply list_elem_of_fmap in Hx as (d & Hk & Hd). rewrite Forall_forall in Hfresh.
    cbn in Hk. rewrite Hk, (Hfresh d Hd) in Hy. done.
  - cbn. rewrite length_app. cbn. lia.
  - exists rows, ranges. split_and!; [done..| | | |].
    + rewrite Er. f_equal. lia.
    + eapply Forall_impl; [exact Hlast|]. cbn. intros d Hd. by rewrite kept_map_rows in Hd.
    + cbn. by rewrite list_lookup_middle.
    + cbn [frags]. intros k old Hk. rewrite Hf. apply lookup_union_Some_l, elem_of_list_to_map_1; [by rewrite place_keys | done].
  - by exists rows.
Qed.

Lemma build_groups_inv rgs step step' :
  fold_res build_group rgs step = Ok step' -> Forall group_sized rgs ->
  extends step step' /\
  (forall i rg, rgs !! i = Some rg -> group_at step' (length (groups step) + i) rg) /\
  (forall k old, frags step' !! k = Some old -> frags step !! k = Some old \/
     exists i rg rows, rgs !! i = Some rg /\ group_rows rg rows /\
       (k, old) ∈ place (length (groups step) + i) 0 (kept_of rows) (old_frags rg)).
Proof.
  intros H Hs. revert step H. induction Hs as [|rg rgs Hr Hs IH]; intros step H.
  { injection H as <-. split_and!; [done | by intros | by left]. }
  cbn [fold_res] in H. destruct (build_group step rg) as [s1|] eqn:E; [|done]. unfold mbind, res_bind in H.
  apply build_group_inv in E as (He & Hl & Hat & rows & Hrows & Hf); [|done].
  destruct (IH s1 H) as (He' & Hat' & Hinv). split_and!.
  - by etrans.
  - intros [|i] rg' Hi; cbn in Hi.
    + injection Hi as <-. rewrite Nat.add_0_r. by eapply group_at_extends.
    + specialize (Hat' i rg' Hi). by rewrite Hl, Nat.add_succ_comm in Hat'.
  - intros k old Hk. destruct (Hinv k old Hk) as [Hk'|(i & rg' & rows' & Hi & Hr' & Hp)].
    + rewrite Hf in Hk'. apply lookup_union_Some_raw in Hk' as [Hk'|[_ Hk']]; [|by left]. right.
      exists 0%nat, rg, rows. rewrite Nat.add_0_r. split_and!; [done..|]. by apply elem_of_list_to_map_2.
    + right. exists (S i), rg', rows'. rewrite Hl, Nat.add_succ_comm in Hp. done.
Qed.

(** ** Addresses *)

Lemma address_parts k o : is_u32 k -> is_u32 o -> fragment_of (address k o) = k /\ u32 (address k o) = o.
Proof.
  unfold is_u32. intros Hk Ho. unfold fragment_of, address. rewrite lor_high_low, Z.shiftr_div_pow2 by lia.
  rewrite Z.div_add_l, Z.div_small, Z.add_0_r by lia. split; [by apply u32_small|].
  unfold u32, wrap. rewrite Z.add_comm, Z.mod_add by lia. by apply Z.mod_small.
Qed.

Lemma address_of a : is_u64 a -> a = fragment_of a * 2 ^ 32 + u32 a.
Proof.
  unfold is_u64. intros Ha. unfold fragment_of. rewrite u32_small by (apply (shiftr_bound a 32 32); lia).
  rewrite Z.shiftr_div_pow2 by lia. unfold u32, wrap. pose proof (Z.div_mod a (2 ^ 32)). lia.
Qed.

Lemma address_join a : is_u64 a -> address (fragment_of a) (u32 a) = a.
Proof.
  intros Ha. unfold address. rewrite lor_high_low by (try lia; apply u32_range). symmetry. by apply address_of.
Qed.

Lemma kept_ascending rows k : ascending rows -> Forall is_u64 rows -> ascending (kept_of rows k).
Proof.
  intros Ha Hu. unfold kept_of. apply ascending_map; [|by apply ascending_filter].
  intros x y [Hx Hx']%list_elem_of_filter [Hy Hy']%list_elem_of_filter Hlt. rewrite Forall_forall in Hu.
  pose proof (address_of x (Hu x Hx')). pose proof (address_of y (Hu y Hy')). rewrite Hx in *. rewrite Hy in *. lia.
Qed.

Lemma kept_elem rows k o : is_u32 k -> is_u32 o -> Forall is_u64 rows -> o ∈ kept_of rows k <-> address k o ∈ rows.
Proof.
  intros Hk Ho Hu. destruct (address_parts k o Hk Ho) as [H1 H2]. unfold kept_of. rewrite list_elem_of_fmap. split.
  - intros (a & -> & [<- Ha]%list_elem_of_filter). rewrite Forall_forall in Hu. by rewrite address_join by auto.
  - intros Ha. exists (address k o). rewrite list_elem_of_filter. done.
Qed.

Lemma lower_bound_at kept p o : ascending kept -> kept !! p = Some o -> lower_bound kept o = p.
Proof.
  intros H. revert p. induction H as [|x l Hl IH Hx]; intros p Hp; [done|]. destruct p as [|p]; cbn in *.
  - injection Hp as ->. by rewrite Z.ltb_irrefl.
  - rewrite Forall_forall in Hx. assert (x < o) as Hlt by (apply Hx; by eapply list_elem_of_lookup_2).
    apply Z.ltb_lt in Hlt. rewrite Hlt. by rewrite (IH p).
Qed.

(** ** Positions in the old and the new rows *)

Lemma place_split gi b K pre d post :
  (key d, mkOldFragment gi (b + kept_total K pre) (d_physical d) (K (key d))) ∈ place gi b K (pre ++ d :: post).
Proof.
  revert b. induction pre as [|e pre IH]; intros b; cbn [place app].
  - unfold kept_total. cbn. rewrite Z.add_0_r. by left.
  - right. rewrite kept_total_cons, Z.add_assoc. apply IH.
Qed.

Lemma place_elem gi b K olds k old :
  (k, old) ∈ place gi b K olds ->
  exists pre d post, olds = pre ++ d :: post /\ k = key d /\
    old = mkOldFragment gi (b + kept_total K pre) (d_physical d) (K (key d)).
Proof.
  revert b. induction olds as [|d olds IH]; intros b; cbn [place]; [by intros ?%elem_of_nil|].
  intros [[= -> ->]|H]%elem_of_cons.
  - exists [], d, olds. unfold kept_total. cbn. by rewrite Z.add_0_r.
  - destruct (IH _ H) as (pre & e & post & -> & -> & ->). exists (d :: pre), e, post. by rewrite kept_total_cons, Z.add_assoc.
Qed.

Lemma length_old_rows rows olds : zlen (old_rows rows olds) = kept_total (kept_of rows) olds.
Proof.
  unfold old_rows, kept_total. induction olds as [|d olds IH]; [done|]. cbn. rewrite !zlen_app, IH. f_equal.
  unfold zlen. by rewrite length_fmap.
Qed.

(** ** Resolution *)

(** A group as a compaction writes it: rewritten rows ascending, row counts that do not wrap. *)
Definition group_wf (rg : RawGroup) (rows : list Z) : Prop :=
  group_rows rg rows /\ ascending rows /\ Forall is_u64 rows /\
  Forall (fun d => 0 <= d_physical d) (new_frags rg) /\ rows_total (new_frags rg) < 2 ^ 64.

Lemma group_wf_sized rg rows : group_wf rg rows -> group_sized rg.
Proof. intros ([Hd Hl] & _) rows' Hd'. rewrite Hd in Hd'. by injection Hd' as <-. Qed.

(** A surviving row goes to the row of the same rank in the new fragments. *)
Lemma resolve_kept step gi rg rows pre d post p o :
  group_at step gi rg -> group_wf rg rows -> old_frags rg = pre ++ d :: post -> kept_of rows (key d) !! p = Some o ->
  exists b, new_rows (new_frags rg) !! Z.to_nat (kept_total (kept_of rows) pre + Z.of_nat p) = Some b /\
    resolve_step step (address (key d) o) = At b.
Proof.
  intros (rows' & ranges & [Hd Hsz] & Hnd & Hrange & Hlast & Hg & Hp) ([Hd' _] & Hasc & Hu & Hph & Ht) Holds Hk.
  rewrite Hd' in Hd. injection Hd as <-. rewrite range_steps in Hrange by (done || lia). injection Hrange as <- Htot.
  rewrite Holds in *. pose proof (place_split gi 0 (kept_of rows) pre d post) as Hpl. apply Hp in Hpl. rewrite Z.add_0_l in Hpl.
  pose proof (kept_ascending rows (key d) Hasc Hu) as Hka.
  assert (o ∈ kept_of rows (key d)) as Hin by (by eapply list_elem_of_lookup_2).
  assert (is_u32 o) as Ho by (unfold kept_of in Hin; apply list_elem_of_fmap in Hin as (? & -> & _); apply u32_range).
  assert (is_u32 (key d)) as Hkey by apply u32_range.
  destruct (address_parts _ _ Hkey Ho) as [Ha1 Ha2].
  assert (o < d_physical d) as Hlt.
  { rewrite Forall_forall in Hlast. specialize (Hlast d ltac:(apply elem_of_app; right; by left)).
    destruct (last (kept_of rows (key d))) as [m|] eqn:Em; [|apply last_None in Em; rewrite Em in Hin; by apply elem_of_nil in Hin].
    pose proof (ascending_last _ _ _ Hka Em Hin). specialize (Hlast m eq_refl). lia. }
  assert (0 <= kept_total (kept_of rows) pre + Z.of_nat p < rows_total (new_frags rg)) as Hidx.
  { pose proof (kept_total_nonneg (kept_of rows) pre). pose proof (kept_total_nonneg (kept_of rows) post).
    assert (Z.of_nat p < zlen (kept_of rows (key d))) by (apply lookup_lt_Some in Hk; unfold zlen; lia).
    rewrite kept_total_app, kept_total_cons in Htot. lia. }
  destruct (find_range (new_frags rg) (kept_total (kept_of rows) pre + Z.of_nat p) 0 None Hph ltac:(lia)) as (r & Hr & Hrb & Hnew).
  rewrite Z.sub_0_r in Hnew. eexists. split; [exact Hnew|]. unfold resolve_step. fold (fragment_of (address (key d) o)).
  rewrite Ha1, Ha2, Hpl. cbn [of_physical of_kept of_rows_before of_group].
  destruct (Z.leb_spec (d_physical d) o); [lia|]. rewrite (lower_bound_at _ p o Hka Hk), bool_decide_eq_true_2 by done. cbn [negb].
  rewrite Hg. cbn [mbind option_bind new_ranges]. rewrite u64_small by (unfold is_u64; lia). rewrite Hr.
  unfold address. by rewrite u64_small by (unfold is_u64; lia).
Qed.

(** A row of an old fragment that was not rewritten is gone. *)
Lemma resolve_deleted step gi rg rows d o :
  group_at step gi rg -> group_wf rg rows -> d ∈ old_frags rg -> is_u32 o -> o < d_physical d -> address (key d) o ∉ rows ->
  resolve_step step (address (key d) o) = Gone.
Proof.
  intros (rows' & ranges & [Hd _] & _ & _ & _ & _ & Hp) ([Hd' _] & Hasc & Hu & _) Hin Ho Hlt Hn.
  rewrite Hd' in Hd. injection Hd as <-. apply list_elem_of_split in Hin as (pre & post & Holds). rewrite Holds in Hp.
  pose proof (Hp _ _ (place_split gi 0 (kept_of rows) pre d post)) as Hpl.
  assert (is_u32 (key d)) as Hkey by apply u32_range. destruct (address_parts _ _ Hkey Ho) as [Ha1 Ha2].
  unfold resolve_step. fold (fragment_of (address (key d) o)). rewrite Ha1, Ha2, Hpl. cbn [of_physical of_kept].
  destruct (Z.leb_spec (d_physical d) o); [lia|]. rewrite bool_decide_eq_false_2; [done|]. intros Hl.
  apply list_elem_of_lookup_2 in Hl. apply kept_elem in Hl; done.
Qed.

(** ** A compaction's groups *)

(** What a deferred compaction records of a group: the surviving rows ascending, each in one of the old
    fragments, and as many as the new fragments hold. *)
Definition old_ids_of (g : FragReuseWriteGroup) : list Z := (fun d => d.1.1) <$> old_fragments g.

Definition write_group_ok (g : FragReuseWriteGroup) : Prop :=
  ascending (changed_row_addrs g) /\ Forall is_u64 (changed_row_addrs g) /\ digests_ok g /\ Forall is_u32 (old_ids_of g) /\
  Forall (fun a => exists d, d ∈ old_fragments g /\ d.1.1 = fragment_of a /\ u32 a < d.1.2) (changed_row_addrs g) /\
  rows_total (digest_of <$> new_fragments g) = zlen (changed_row_addrs g) /\ zlen (changed_row_addrs g) < 2 ^ 64.

Lemma old_steps_ok gi olds s :
  Forall (fun d => is_u32 (d_id d)) olds -> NoDup (d_id <$> olds) -> Forall (fun d => d_id d ∉ os_seen s) olds ->
  Forall (fun d => os_frags s !! key d = None) olds ->
  Forall (fun d => forall o, last (kept_map (os_kept s) (key d)) = Some o -> o < d_physical d) olds ->
  exists s', fold_res (old_step gi) olds s = Ok s'.
Proof.
  intros Hu. revert s. induction Hu as [|d olds Hd Hu IH]; intros s Hnd Hseen Hf Hl; [by eexists|].
  rewrite fmap_cons in Hnd. apply NoDup_cons in Hnd as [Hd' Hnd].
  apply Forall_cons_1 in Hseen as [Hs1 Hseen]. apply Forall_cons_1 in Hf as [Hf1 Hf]. apply Forall_cons_1 in Hl as [Hl1 Hl].
  cbn [fold_res]. destruct (old_step gi s d) as [s1|e] eqn:E.
  2: { exfalso. unfold old_step in E. fold (key d) (kept_map (os_kept s) (key d)) in E. rewrite bool_decide_eq_false_2 in E by done.
    destruct (last _) as [o|]; [specialize (Hl1 o eq_refl); apply Z.leb_gt in Hl1; rewrite Hl1 in E|];
      rewrite bool_decide_eq_false_2 in E by (rewrite Hf1; by intros []); done. }
  apply old_step_inv in E as (_ & _ & ->).
  apply IH; [done|..]; cbn [os_seen os_frags os_kept]; apply Forall_forall; intros e He.
  - rewrite Forall_forall in Hseen. specialize (Hseen e He). intros Hin. apply elem_of_union in Hin as [Hin|?]; [|done].
    apply elem_of_singleton in Hin. apply Hd'. rewrite <- Hin. apply list_elem_of_fmap. by exists e.
  - rewrite Forall_forall in Hf, Hu. rewrite lookup_insert_ne; [by apply Hf|]. unfold key. rewrite !u32_small by auto.
    intros E. apply Hd'. rewrite E. apply list_elem_of_fmap. by exists e.
  - rewrite Forall_forall in Hl, Hu. intros o. unfold kept_map. rewrite lookup_delete_ne; [by apply Hl|].
    unfold key. rewrite !u32_small by auto. intros E. apply Hd'. rewrite E. apply list_elem_of_fmap. by exists e.
Qed.

Lemma foldr_delete_empty (M : gmap Z (list Z)) ks :
  (forall k, is_Some (M !! k) -> k ∈ ks) -> foldr delete M ks = ∅.
Proof.
  intros H. apply map_empty. intros k. destruct (decide (k ∈ ks)) as [Hk|Hk].
  - clear H. induction ks as [|x ks IH]; [by apply elem_of_nil in Hk|]. cbn. destruct (decide (x = k)) as [->|Hne]; [apply lookup_delete_eq|].
    rewrite lookup_delete_ne by done. apply IH. apply elem_of_cons in Hk as [->|?]; done.
  - destruct (foldr delete M ks !! k) as [x|] eqn:E; [|done]. exfalso. apply Hk, H. exists x. revert E. clear.
    induction ks as [|y ks IH]; [done|]. cbn. intros E. apply lookup_delete_Some in E as [_ E]. by apply IH.
Qed.

Lemma keys_of_write g : Forall is_u32 (old_ids_of g) -> key <$> (digest_of <$> old_fragments g) = old_ids_of g.
Proof.
  unfold old_ids_of. rewrite <- list_fmap_compose. intros H. apply list_fmap_ext. intros i d Hd. unfold compose, key, digest_of. cbn.
  apply u32_small. rewrite Forall_fmap, Forall_forall in H. apply (H d). by eapply list_elem_of_lookup_2.
Qed.

Lemma write_group_wf g : write_group_ok g -> group_wf (raw_group g) (changed_row_addrs g).
Proof.
  intros (Ha & Hu & [_ Hn] & _ & _ & Ht & Hl). repeat split; try done; cbn [raw_group changed new_frags].
  - by apply (codec_roundtrip (changed_row_addrs g)).
  - apply Forall_fmap. eapply Forall_impl; [exact Hn|]. intros d (_ & H & _). unfold is_u64 in H. cbn. lia.
  - lia.
Qed.

Lemma build_group_ok step g :
  write_group_ok g -> NoDup (old_ids_of g) -> Forall (fun k => frags step !! k = None) (old_ids_of g) ->
  exists step', build_group step (raw_group g) = Ok step'.
Proof.
  intros Hok Hnd Hf. pose proof (write_group_wf g Hok) as (_ & _ & _ & Hph & Hsz).
  destruct Hok as (Ha & Hu & _ & H32 & Hin & Ht & Hl). pose proof (keys_of_write g H32) as Hkeys.
  unfold build_group. cbn [raw_group changed new_frags old_frags] in *. rewrite range_steps by (done || lia).
  rewrite (codec_roundtrip (changed_row_addrs g)) by done. unfold BasePaths.prefixed, mbind, res_bind.
  set (s0 := mkOldState _ _ _ _). set (olds := digest_of <$> old_fragments g) in *.
  assert (Forall (fun a => fragment_of a ∈ key <$> olds) (changed_row_addrs g)) as Hfrag.
  { eapply Forall_impl; [exact Hin|]. cbn. intros a (d & Hd & <- & _). rewrite Hkeys. apply list_elem_of_fmap. by exists d. }
  destruct (old_steps_ok (length (groups step)) olds s0) as [s Es].
  - unfold olds. apply Forall_fmap. unfold old_ids_of in H32. rewrite Forall_fmap in H32. exact H32.
  - unfold olds. rewrite <- list_fmap_compose. exact Hnd.
  - apply Forall_forall. intros d _. cbn. set_solver.
  - rewrite <- Hkeys in Hf. by apply Forall_fmap in Hf.
  - apply Forall_forall. intros d Hd o Ho. cbn [os_kept s0] in Ho. rewrite kept_map_rows in Ho.
    apply list_elem_of_fmap in Hd as (e & -> & He). apply last_Some_elem_of in Ho.
    apply list_elem_of_fmap in Ho as (a & -> & [Hk Ha']%list_elem_of_filter). rewrite Forall_forall in Hin.
    destruct (Hin a Ha') as (e' & He' & Hid & Hlt). assert (e' = e) as ->; [|done].
    apply (NoDup_fmap_inj (fun d : Z * Z * Z => d.1.1) (old_fragments g)); [done..|]. rewrite Hid, Hk. unfold key, digest_of. cbn.
    apply u32_small. rewrite Forall_forall in H32. apply H32, list_elem_of_fmap. by exists e.
  - rewrite Es. pose proof (old_steps_keys _ _ _ _ Es) as [Hnd' _]. destruct (kept_total_rows (changed_row_addrs g) olds Hnd') as [_ Htot].
    specialize (Htot Hfrag). apply old_steps_inv in Es; cbn [os_before os_kept s0] in *;
      rewrite ?(kept_total_ext _ (kept_of (changed_row_addrs g))) in * by (intros; apply kept_map_rows); [|lia..].
    destruct Es as (Hb & _ & Hk & _). rewrite Hk, foldr_delete_empty.
    + rewrite bool_decide_eq_true_2 by done. cbn [negb]. replace (os_before s) with (0 + rows_total (digest_of <$> new_fragments g)) by lia.
      rewrite Z.eqb_refl. by eexists.
    + intros k [[? ?]|(a & Ha' & <-)]%keep_dom; [done|]. rewrite Forall_forall in Hfrag. by apply Hfrag.
Qed.

Lemma build_groups_ok gs step :
  Forall write_group_ok gs -> NoDup (concat (old_ids_of <$> gs)) ->
  Forall (fun k => frags step !! k = None) (concat (old_ids_of <$> gs)) ->
  exists step', fold_res build_group (raw_group <$> gs) step = Ok step'.
Proof.
  intros H. revert step. induction H as [|g gs Hg H IH]; intros step Hnd Hf; [by eexists|].
  cbn [fmap list_fmap concat fold_res] in *. apply NoDup_app in Hnd as (Hnd1 & Hdis & Hnd2). apply Forall_app in Hf as [Hf1 Hf2].
  destruct (build_group_ok step g Hg Hnd1 Hf1) as [s1 Es]. rewrite Es. unfold mbind, res_bind. apply IH; [done|].
  apply build_group_inv in Es as (_ & _ & _ & rows & _ & Hfr); [|by eapply group_wf_sized, write_group_wf].
  apply Forall_forall. intros k Hk. rewrite Forall_forall in Hf2. rewrite Hfr. apply lookup_union_None. split; [|by apply Hf2].
  apply not_elem_of_list_to_map_1. rewrite place_keys. cbn [raw_group old_frags]. rewrite keys_of_write by apply Hg.
  intros Hin. by apply (Hdis k).
Qed.

Lemma range_first news ranges total :
  foldl range_step ([], 0) news = (ranges, total) -> total <> 0 -> exists r rs, ranges = r :: rs /\ nr_rows_before r = 0.
Proof.
  assert (forall s, s = ([], 0) \/ (exists r rs, s.1 = r :: rs /\ nr_rows_before r = 0) ->
    let s' := foldl range_step s news in s' = ([], 0) \/ (exists r rs, s'.1 = r :: rs /\ nr_rows_before r = 0)) as H.
  { induction news as [|d news IH]; intros s Hs; [done|]. cbn [foldl]. apply IH. unfold range_step. destruct s as [rs b].
    case_bool; [done|]. right. cbn in *. destruct Hs as [[= -> ->]|(r & rs' & -> & Hr)]; [by eexists _, _ | by exists r; eexists]. }
  intros E Ht. specialize (H ([], 0) (or_introl eq_refl)). cbn zeta in H. rewrite E in H. destruct H as [[= -> ->]|H]; [done | exact H].
Qed.

Lemma before_some i ranges r : is_Some (before_upper_bound i ranges (Some r)).
Proof. revert r. induction ranges as [|x ranges IH]; intros r; cbn; [done|]. case_bool; [done | apply IH]. Qed.

Lemma resolve_step_safe raw step a :
  build_step raw = Ok step -> Forall group_sized (raw_groups raw) -> resolve_step step a <> Stray.
Proof.
  intros H Hs. apply build_groups_inv in H as (_ & Hat & Hinv); [|done]. unfold resolve_step.
  destruct (frags step !! _) as [old|] eqn:Ef; [|done]. case_bool; [done|]. case_bool_decide as Hk; [|done]. cbn [negb].
  destruct (Hinv _ _ Ef) as [Hn|(i & rg & rows & Hi & [Hd _] & (pre & d & post & Holds & _ & ->)%place_elem)]; [done|].
  destruct (Hat i rg Hi) as (rows' & ranges & [Hd' _] & _ & Hr & _ & Hg & _). rewrite Hd in Hd'. injection Hd' as <-.
  cbn [groups length Nat.add of_group of_kept] in *. rewrite Hg. cbn [mbind option_bind new_ranges].
  apply range_first in Hr as (r & rs & -> & Hr0).
  - cbn [before_upper_bound]. rewrite Hr0. destruct (Z.ltb_spec (u64 (of_rows_before
      (mkOldFragment i (0 + kept_total (kept_of rows) pre) (d_physical d) (kept_of rows (key d))) +
      Z.of_nat (lower_bound (kept_of rows (key d)) (u32 a)))) 0) as [Hlt|_].
    + pose proof (u64_range (of_rows_before (mkOldFragment i (0 + kept_total (kept_of rows) pre) (d_physical d) (kept_of rows (key d))) +
        Z.of_nat (lower_bound (kept_of rows (key d)) (u32 a)))) as Hrg. unfold is_u64 in Hrg. lia.
    + destruct (before_some (u64 (of_rows_before (mkOldFragment i (0 + kept_total (kept_of rows) pre) (d_physical d) (kept_of rows (key d))) +
        Z.of_nat (lower_bound (kept_of rows (key d)) (u32 a)))) rs r) as [x ->]. done.
  - rewrite Holds, kept_total_app, kept_total_cons. pose proof (kept_total_nonneg (kept_of rows) pre). pose proof (kept_total_nonneg (kept_of rows) post).
    apply lookup_lt_Some in Hk. assert (0 < zlen (kept_of rows (key d))) by (unfold zlen; lia). lia.
Qed.

Lemma build_steps_each raw steps : build_steps raw = Ok steps -> Forall2 (fun v s => build_step v = Ok s) raw steps.
Proof.
  unfold build_steps. assert (forall acc, fold_res (fun steps v => step ← build_step v; Ok (steps ++ [step])) raw acc = Ok steps ->
    exists new, steps = acc ++ new /\ Forall2 (fun v s => build_step v = Ok s) raw new) as H.
  { induction raw as [|v raw IH]; intros acc; cbn [fold_res]; [intros [= <-]; exists []; by rewrite app_nil_r|].
    destruct (build_step v) as [s|] eqn:E; [|done]. intros (new & -> & Hn)%IH. exists (s :: new). rewrite <- app_assoc. by repeat constructor. }
  intros (new & -> & Hn)%H. done.
Qed.

(** whatever details were accepted, resolving an address never reads before the first range
    of a group: the unguarded [*(r - 1)] is always inside the vector. *)
Theorem frag_reuse_resolve_safe raw steps address :
  build_steps raw = Ok steps -> Forall (fun v => Forall group_sized (raw_groups v)) raw -> resolve steps address <> Stray.
Proof.
  intros H%build_steps_each Hs. revert address. induction H as [|v s raw steps Hv H IH]; intros a; cbn [resolve]; [done|].
  apply Forall_cons_1 in Hs as [Hs1 Hs2]. pose proof (resolve_step_safe v s a Hv Hs1).
  destruct (resolve_step s a); [done.. | by apply IH].
Qed.

Lemma kept_addresses rows k : Forall is_u64 rows -> address k <$> kept_of rows k = filter (fun a => fragment_of a = k) rows.
Proof.
  intros H. unfold kept_of. rewrite <- list_fmap_compose. rewrite <- (list_fmap_id (filter _ rows)) at 2.
  apply list_fmap_ext. intros i a Hi%list_elem_of_lookup_2. apply list_elem_of_filter in Hi as [<- Ha].
  rewrite Forall_forall in H. unfold compose. by rewrite address_join by auto.
Qed.

(** The rows of a group's old fragments are its surviving rows. *)
Lemma old_rows_all rows olds :
  Forall is_u64 rows -> NoDup (key <$> olds) -> Forall (fun a => fragment_of a ∈ key <$> olds) rows -> old_rows rows olds ≡ₚ rows.
Proof.
  revert rows. induction olds as [|d olds IH]; intros rows Hu Hnd H.
  { destruct rows as [|a rows]; [done|]. apply Forall_cons_1 in H as [H _]. by apply elem_of_nil in H. }
  rewrite fmap_cons in *. apply NoDup_cons in Hnd as [Hd Hnd]. unfold old_rows. cbn [fmap list_fmap concat]. rewrite kept_addresses by done.
  etrans; [|apply (filter_app_complement (fun a => fragment_of a = key d) rows)]. apply Permutation_app_head.
  etrans; [|apply (IH (filter (fun a => fragment_of a <> key d) rows))]; [| |done|].
  - unfold old_rows. erewrite list_fmap_ext; [done|]. intros i e He%list_elem_of_lookup_2. cbn beta. rewrite filter_ne_kept; [done|].
    intros E. apply Hd. rewrite E. apply list_elem_of_fmap. by exists e.
  - apply Forall_forall. intros a [_ Ha]%list_elem_of_filter. rewrite Forall_forall in Hu. auto.
  - apply Forall_forall. intros a [Hne Ha]%list_elem_of_filter. rewrite Forall_forall in H. specialize (H a Ha).
    by apply elem_of_cons in H as [?|?].
Qed.

Lemma write_rows_all g :
  write_group_ok g -> NoDup (key <$> (digest_of <$> old_fragments g)) ->
  old_rows (changed_row_addrs g) (digest_of <$> old_fragments g) ≡ₚ changed_row_addrs g /\
  length (old_rows (changed_row_addrs g) (digest_of <$> old_fragments g)) = length (new_rows (digest_of <$> new_fragments g)).
Proof.
  intros Hok Hnd. pose proof (write_group_wf g Hok) as (_ & _ & Hu & Hph & _). destruct Hok as (_ & _ & _ & H32 & Hin & Ht & _).
  assert (old_rows (changed_row_addrs g) (digest_of <$> old_fragments g) ≡ₚ changed_row_addrs g) as Hp.
  { apply old_rows_all; [done..|]. rewrite keys_of_write by done. eapply Forall_impl; [exact Hin|]. cbn.
    intros a (d & Hd & <- & _). apply list_elem_of_fmap. by exists d. }
  split; [done|]. rewrite Hp. pose proof (length_new_rows _ Hph) as Hn. cbn [raw_group new_frags] in Hn. unfold zlen in *. lia.
Qed.

(** C15 (functional): the index of a deferred compaction moves its rows. For groups as a compaction writes
    them, building the step succeeds; each surviving row of a group resolves to the row of the same rank
    in the group's new fragments, which hold exactly as many; a row of an old fragment that did not
    survive resolves to nothing; and addresses of other fragments stay. *)
Theorem frag_reuse_resolve_correct version gs :
  Forall write_group_ok gs -> NoDup (concat (old_ids_of <$> gs)) ->
  exists step, build_step (raw_version version gs) = Ok step /\
    (forall g, g ∈ gs ->
      let olds := old_rows (changed_row_addrs g) (digest_of <$> old_fragments g) in
      let news := new_rows (digest_of <$> new_fragments g) in
      olds ≡ₚ changed_row_addrs g /\ length olds = length news /\
      forall i a, olds !! i = Some a -> exists b, news !! i = Some b /\ resolve [step] a = At b) /\
    (forall g d offset, g ∈ gs -> d ∈ old_fragments g -> is_u32 offset -> offset < d.1.2 ->
      address d.1.1 offset ∉ changed_row_addrs g -> resolve [step] (address d.1.1 offset) = Gone) /\
    (forall a, fragment_of a ∉ concat (old_ids_of <$> gs) -> resolve [step] a = At a).
Proof.
  intros Hok Hnd. destruct (build_groups_ok gs (mkStep [] ∅) Hok Hnd) as [step Hstep].
  { apply Forall_forall. intros k _. apply lookup_empty. }
  exists step. split; [exact Hstep|].
  assert (Forall group_sized (raw_group <$> gs)) as Hsz.
  { apply Forall_fmap. eapply Forall_impl; [exact Hok|]. intros g Hg. by eapply group_wf_sized, write_group_wf. }
  destruct (build_groups_inv _ _ _ Hstep Hsz) as (_ & Hat & Hinv). rewrite Forall_forall in Hok.
  assert (forall g, g ∈ gs -> exists gi, group_at step gi (raw_group g)) as Hat'.
  { intros g (i & Hi)%list_elem_of_lookup_1. exists i. apply (Hat i). by rewrite list_lookup_fmap, Hi. }
  clear Hat. split_and!.
  - intros g Hg olds news. destruct (Hat' g Hg) as [gi Hgi]. pose proof (write_group_wf g (Hok g Hg)) as Hwf.
    destruct (write_rows_all g (Hok g Hg)) as [Hperm Hlen]; [by destruct Hgi as (? & ? & _ & ? & _)|].
    split_and!; [done..|]. intros i a Hi.
    unfold olds, old_rows in Hi. apply concat_lookup in Hi as (pre & d & post & p & Hsplit & -> & Hd).
    rewrite list_lookup_fmap in Hd. destruct (kept_of _ (key d) !! p) as [o|] eqn:Eo; [|done]. injection Hd as <-.
    destruct (resolve_kept step gi (raw_group g) _ pre d post p o Hgi Hwf Hsplit Eo) as (b & Hb & Hres).
    exists b. cbn [resolve]. rewrite Hres. split; [|done]. rewrite <- Hb. f_equal.
    rewrite <- length_old_rows. unfold zlen, old_rows. lia.
  - intros g d o Hg Hd Ho Hlt Hn. destruct (Hat' g Hg) as [gi Hgi]. cbn [resolve].
    assert (key (digest_of d) = d.1.1) as Hkey.
    { apply u32_small. destruct (Hok g Hg) as (_ & _ & _ & H32 & _). rewrite Forall_forall in H32. apply H32, list_elem_of_fmap. by exists d. }
    rewrite <- Hkey in *. rewrite (resolve_deleted step gi (raw_group g) (changed_row_addrs g)); try done; [by apply write_group_wf, Hok|].
    apply list_elem_of_fmap. by exists d.
  - intros a Ha. cbn [resolve]. unfold resolve_step. fold (fragment_of a). destruct (frags step !! fragment_of a) as [old|] eqn:Ef; [|done].
    exfalso. destruct (Hinv _ _ Ef) as [Hn|(i & rg & rows & Hi & _ & Hp)]; [done|]. rewrite list_lookup_fmap in Hi.
    destruct (gs !! i) as [g|] eqn:Eg; [|done]. injection Hi as <-. apply list_elem_of_lookup_2 in Eg.
    apply (list_elem_of_fmap_2 fst) in Hp. cbn [fst] in Hp. rewrite place_keys in Hp. cbn [raw_group old_frags] in Hp.
    rewrite keys_of_write in Hp by apply (Hok g Eg). apply Ha, elem_of_concat. exists (old_ids_of g).
    split; [|done]. apply list_elem_of_fmap. by exists g.
Qed.

(** ** Loading through the cache *)

Lemma newest_elem indices newest ix :
  foldl newest_step newest indices = Some ix -> newest = Some ix \/ ix ∈ indices.
Proof.
  revert newest. induction indices as [|i indices IH]; intros newest; cbn [foldl]; [by left|].
  intros [H|H]%IH; [|right; by right]. unfold newest_step in H. destruct (_ && _); [|by left]. injection H as ->. right. by left.
Qed.

Definition picks_entry (begin_ : gmap string (list Step) -> string) : Prop := forall m, m <> ∅ -> is_Some (m !! begin_ m).

Lemma cache_put_bound begin_ (cache : gmap string (list Step)) k v :
  picks_entry begin_ -> (size cache <= 64)%nat -> (size (cache_put begin_ cache k v) <= 64)%nat.
Proof.
  intros Hb Hs. unfold cache_put. case_bool_decide as Hk; [|destruct (cache !! k) as [w|] eqn:E; [|done]].
  - destruct (Z.leb_spec 64 (Z.of_nat (size cache))); cbn [andb].
    + assert (cache <> ∅) as Hne by (intros ->; rewrite map_size_empty in H; lia). specialize (Hb cache Hne).
      rewrite map_size_insert_None, map_size_delete.
      * destruct (cache !! begin_ cache); [lia | by destruct Hb].
      * apply lookup_delete_None. by right.
    + rewrite map_size_insert_None by done. lia.
  - rewrite andb_false_r, (map_size_insert_Some k v cache); [lia|]. by rewrite E.
Qed.

Lemma cache_put_find begin_ cache k v k' w :
  cache_put begin_ cache k v !! k' = Some w -> (k' = k /\ w = v) \/ cache !! k' = Some w.
Proof.
  unfold cache_put. intros [[-> ->]|[Hne H]]%lookup_insert_Some; [by left|]. right.
  destruct (_ && _); [|done]. by apply lookup_delete_Some in H as [_ H].
Qed.

(** Every cached remap of the manifest's indices is the one their details give. *)
Definition coherent (read_all : string -> res (list Z)) dataset_path manifest (cache : gmap string (list Step)) : Prop :=
  forall index steps, index ∈ pb.mf_indices manifest -> cache !! cache_key dataset_path index = Some steps ->
    from_details read_all dataset_path manifest index = Ok steps.

(** loading through the shared cache gives what decoding the newest entry's details gives,
    keeps the cache coherent, and keeps it within its bound of 64 entries. *)
Theorem frag_reuse_load_cached read_all begin_ cache dataset_path manifest :
  picks_entry begin_ -> (size cache <= 64)%nat -> coherent read_all dataset_path manifest cache ->
  (forall i j, i ∈ pb.mf_indices manifest -> j ∈ pb.mf_indices manifest ->
     cache_key dataset_path i = cache_key dataset_path j -> i = j) ->
  let '(r, cache') := load read_all begin_ cache dataset_path manifest in
  r = match newest_index manifest with
      | None => Ok None
      | Some index => Some <$> from_details read_all dataset_path manifest index
      end /\
  coherent read_all dataset_path manifest cache' /\ (size cache' <= 64)%nat.
Proof.
  intros Hb Hs Hc Hinj. unfold load. destruct (newest_index manifest) as [index|] eqn:En; [|done].
  apply newest_elem in En as [|Hin]; [done|]. unfold cache_find. destruct (cache !! cache_key dataset_path index) as [steps|] eqn:Ek.
  { by rewrite (Hc index steps Hin Ek). }
  destruct (from_details read_all dataset_path manifest index) as [steps|] eqn:Ef; [|done].
  split_and!; [done | | by apply cache_put_bound]. intros i w Hi [[Hk ->]|Hw]%cache_put_find; [|by apply Hc].
  by rewrite (Hinj i index Hi Hin Hk).
Qed.

(** ** Coverage *)

Lemma erase_steps ids c n :
  NoDup ids ->
  foldl erase_step (c, n) ids = (c ∖ list_to_set ids, n + zlen (filter (fun id => id ∈ c) ids)).
Proof.
  intros H. revert c n. induction H as [|id ids Hid H IH]; intros c n; cbn [foldl list_to_set].
  { change (zlen (filter _ [])) with 0. rewrite Z.add_0_r. f_equal. set_solver. }
  unfold erase_step at 2. cbn [fst snd]. rewrite filter_cons. destruct (decide (id ∈ c)) as [Hc|Hc].
  - rewrite bool_decide_eq_true_2, IH, zlen_cons by done. f_equal; [set_solver|].
    rewrite (filter_ext_in (fun x => x ∈ c ∖ {[id]}) (fun x => x ∈ c)); [lia|]. set_solver.
  - rewrite bool_decide_eq_false_2, IH by done. f_equal. set_solver.
Qed.

Lemma filter_all (P : Z -> Prop) `{!forall x, Decision (P x)} l : zlen (filter P l) = zlen l <-> Forall P l.
Proof.
  split.
  - intros Hz. pose proof (filter_split P l) as Hs. rewrite Hz in Hs. apply Forall_forall. intros x Hx.
    destruct (decide (P x)); [done|]. assert (x ∈ filter (fun x => ~ P x) l) as Hin by (by apply list_elem_of_filter).
    destruct (filter (fun x => ~ P x) l); [by apply elem_of_nil in Hin|]. rewrite zlen_cons in Hs. pose proof (zlen_nonneg l0). lia.
  - intros Hf. f_equal. induction Hf as [|x l Hx Hf IH]; [done|]. by rewrite filter_cons_True, IH.
Qed.

Lemma cover_group_elem c g x :
  NoDup (old_ids g) ->
  x ∈ cover_group c g <->
  (x ∈ c /\ x ∉ old_ids g) \/ (old_ids g <> [] /\ Forall (fun id => id ∈ c) (old_ids g) /\ x ∈ new_ids g).
Proof.
  intros Hnd. unfold cover_group. rewrite erase_steps by done. rewrite Z.add_0_l.
  pose proof (filter_all (fun id => id ∈ c) (old_ids g)) as Hall.
  destruct (Z.eqb_spec (zlen (filter (fun id => id ∈ c) (old_ids g))) (zlen (old_ids g))) as [E|E]; cbn [andb].
  - apply Hall in E as Hf. rewrite E. destruct (Z.eqb_spec (zlen (old_ids g)) 0) as [E0|E0]; cbn [negb].
    + destruct (old_ids g); [|rewrite zlen_cons in E0; pose proof (zlen_nonneg l); lia]. cbn. set_solver.
    + assert (old_ids g <> []) by (intros Hn; by rewrite Hn in E0). set_solver.
  - split; [set_solver|]. intros [H|(_ & Hf & _)]; [set_solver|]. by apply Hall in Hf.
Qed.

Lemma cover_groups_elem gs c x :
  NoDup (concat (old_ids <$> gs)) ->
  (forall g g', g ∈ gs -> g' ∈ gs -> Forall (fun id => id ∉ old_ids g') (new_ids g)) ->
  x ∈ foldl cover_group c gs <->
  (x ∈ c /\ x ∉ concat (old_ids <$> gs)) \/
  exists g, g ∈ gs /\ old_ids g <> [] /\ Forall (fun id => id ∈ c) (old_ids g) /\ x ∈ new_ids g.
Proof.
  revert c. induction gs as [|g gs IH]; intros c Hnd Hnew; cbn [foldl fmap list_fmap concat] in *.
  { split; [intros H; left; split; [done | by apply not_elem_of_nil]|]. intros [[H _]|(g & Hg & _)]; [done | by apply elem_of_nil in Hg]. }
  apply NoDup_app in Hnd as (Hnd1 & Hdis & Hnd2).
  assert (forall y, y ∈ new_ids g -> forall g', g' ∈ g :: gs -> y ∉ old_ids g') as Hng.
  { intros y Hy g' Hg'. specialize (Hnew g g' ltac:(by left) Hg'). rewrite Forall_forall in Hnew. by apply Hnew. }
  rewrite IH by (done || (intros; apply Hnew; by right)). rewrite cover_group_elem by done.
  assert (forall g', g' ∈ gs -> Forall (fun id => id ∈ cover_group c g) (old_ids g') <-> Forall (fun id => id ∈ c) (old_ids g')) as Hsame.
  { intros g' Hg'. rewrite !Forall_forall. apply forall_proper. intros id. apply forall_proper. intros Hid.
    rewrite cover_group_elem by done. assert (id ∉ old_ids g) by (intros Hin; apply (Hdis id Hin), elem_of_concat; exists (old_ids g');
      split; [apply list_elem_of_fmap; by exists g' | done]).
    assert (id ∉ new_ids g) by (intros Hin; by apply (Hng id Hin g'); [right|]). tauto. }
  assert (forall y, y ∈ new_ids g -> y ∉ concat (old_ids <$> gs)) as Hrest.
  { intros y Hy (l & (g' & -> & Hg')%list_elem_of_fmap & Hin)%elem_of_concat. by apply (Hng y Hy g'); [right|]. }
  rewrite elem_of_app. split.
  - intros [[[[Hx Hg]|(Hne & Hf & Hx)] Hc]|(g' & Hg' & Hne & Hf & Hx)].
    + left. split; [done | tauto].
    + right. exists g. split_and!; [by left | done..].
    + right. exists g'. split_and!; [by right | done | by apply Hsame | done].
  - intros [[Hx Hc]|(g' & [->|Hg']%elem_of_cons & Hne & Hf & Hx)].
    + left. split; [left|]; tauto.
    + left. split; [by right | by apply Hrest].
    + right. exists g'. split_and!; [done.. | by apply Hsame | done].
Qed.

(** an index's coverage after a compaction: a fragment is covered exactly when it was and
    was not rewritten, or when it is a new fragment of a group all of whose old fragments were covered. *)
Theorem frag_reuse_coverage step ids :
  NoDup (concat (old_ids <$> groups step)) ->
  (forall g g', g ∈ groups step -> g' ∈ groups step -> Forall (fun id => id ∉ old_ids g') (new_ids g)) ->
  ascending (remap_coverage [step] ids) /\
  forall x, x ∈ remap_coverage [step] ids <->
    (x ∈ ids /\ x ∉ concat (old_ids <$> groups step)) \/
    exists g, g ∈ groups step /\ old_ids g <> [] /\ Forall (fun id => id ∈ ids) (old_ids g) /\ x ∈ new_ids g.
Proof.
  intros Hnd Hnew. unfold remap_coverage. rewrite bool_decide_eq_false_2 by done. cbn [foldl].
  set (S := foldl cover_group _ _). split.
  - apply sorted_nodup_ascending; [apply StronglySorted_merge_sort; [apply _ | intros ??; lia]|].
    rewrite merge_sort_Permutation. apply NoDup_elements.
  - intros x. rewrite merge_sort_Permutation, elem_of_elements. unfold S. rewrite cover_groups_elem, elem_of_list_to_set by done.
    setoid_rewrite Forall_forall. setoid_rewrite elem_of_list_to_set. done.
Qed.

(** A compaction of fragments 0 (row 1 deleted) and 1 into fragments 2 and 3. *)
Definition sample_group : FragReuseWriteGroup :=
  mkWriteGroup [0; 2; 3; 2 ^ 32; 2 ^ 32 + 1] [(0, 4, 1); (1, 2, 0)] [(2, 3, 0); (3, 2, 0)].

Lemma sample_group_ok : write_group_ok sample_group.
Proof.
  unfold write_group_ok, digests_ok. split_and!.
  - repeat constructor.
  - repeat constructor; done.
  - repeat constructor; done.
  - repeat constructor; done.
  - repeat constructor; done.
  - repeat (apply Forall_cons_2; [first [by (exists (0, 4, 1); split_and!; [left | done..]) |
      by (exists (1, 2, 0); split_and!; [right; left | done..])]|]). constructor.
  - done.
  - done.
Qed.

Lemma sample_builds : exists step, build_step (raw_version 7 [sample_group]) = Ok step.
Proof. eexists. vm_compute. reflexivity. Qed.

Definition sample_make (uuid fields : list Z) (name : string) (version : Z) (ids : list Z) (url : string) (index_version created : Z)
    (files : list (string * Z)) (details : list Z) : pb.IndexMetadata :=
  pb.mkIndexMetadata [] fields name version true ids false uuid url details index_version created files.

Lemma frag_reuse_entry_appends_witness :
  exists ix step, fragment_reuse_index_entry sample_make (replicate 16 7) 5 None 7 [sample_group] [3; 2] = Ok ix /\
    from_details (fun _ => Err "") "/d" (pb.set_version 7 pb.Manifest0) ix = Ok ([] ++ [step]) /\
    pb.ix_fragment_ids ix = [2; 3].
Proof.
  destruct sample_builds as [step Hs]. eexists _, step. split; [reflexivity|].
  edestruct (frag_reuse_entry_appends sample_make (replicate 16 7) 5 (fun _ => Err "") "/d" (pb.set_version 7 pb.Manifest0)
    None [] 7 [sample_group] [3; 2] step) as (H1 & _ & H3).
  - clear. by unfold makes_index.
  - reflexivity.
  - clear. done.
  - constructor; [apply sample_group_ok | constructor].
  - exact Hs.
  - reflexivity.
  - vm_compute. reflexivity.
  - vm_compute. reflexivity.
  - split; [exact H1 | exact H3].
Defined.

Definition sample_entry : pb.IndexMetadata :=
  sample_make (replicate 16 7) [] kFragReuseName 7 [2; 3] ("/lance.table." +:+ kFragReuseDetails) 3 5 []
    (put_bytes_field 1 (put_bytes_field 1 (put_version 7 [sample_group]))).
Definition sample_manifest : pb.Manifest := pb.set_indices [sample_entry] (pb.set_version 7 pb.Manifest0).

(** The least key there is. *)
Definition sample_begin (m : gmap string (list Step)) : string := default "" (head (map_to_list m).*1).

Lemma sample_begin_picks : picks_entry sample_begin.
Proof.
  intros m Hm. unfold sample_begin. destruct (map_to_list m) as [|[k v] l] eqn:E; [by apply map_to_list_empty_iff in E|].
  cbn. exists v. apply elem_of_map_to_list. rewrite E. by left.
Qed.

Lemma frag_reuse_load_cached_witness :
  (load (fun _ => Err "") sample_begin ∅ "/d" sample_manifest).1 =
  Some <$> from_details (fun _ => Err "") "/d" sample_manifest sample_entry.
Proof.
  pose proof (frag_reuse_load_cached (fun _ => Err "") sample_begin ∅ "/d" sample_manifest sample_begin_picks) as H.
  destruct (load (fun _ => Err "") sample_begin ∅ "/d" sample_manifest) as [r cache'].
  destruct H as (-> & _ & _); [| | | reflexivity].
  - rewrite map_size_empty. lia.
  - intros index steps _ Hn. by rewrite lookup_empty in Hn.
  - intros i j [->|[]%elem_of_nil]%elem_of_cons [->|[]%elem_of_nil]%elem_of_cons _. reflexivity.
Defined.

Lemma frag_reuse_resolve_safe_witness :
  exists step, build_step (raw_version 7 [sample_group]) = Ok step /\ resolve [step] 3 <> Stray.
Proof.
  destruct sample_builds as [step Hs]. exists step. split; [exact Hs|].
  apply (frag_reuse_resolve_safe [raw_version 7 [sample_group]]).
  - unfold build_steps. cbn [fold_res]. rewrite Hs. done.
  - repeat constructor. by apply (group_wf_sized _ (changed_row_addrs sample_group)), write_group_wf, sample_group_ok.
Defined.

Lemma frag_reuse_resolve_correct_witness :
  exists step, build_step (raw_version 7 [sample_group]) = Ok step /\
    resolve [step] (2 ^ 32) = At (address 3 0) /\ resolve [step] (address 0 1) = Gone /\ resolve [step] (2 ^ 35) = At (2 ^ 35).
Proof.
  destruct (frag_reuse_resolve_correct 7 [sample_group]) as (step & Hs & Hkept & Hgone & Hstay).
  - constructor; [apply sample_group_ok | constructor].
  - apply (bool_decide_unpack (NoDup (concat (old_ids_of <$> [sample_group])))). vm_compute. exact I.
  - exists step. split; [exact Hs|]. split_and!.
    + destruct (Hkept sample_group ltac:(by left)) as (_ & _ & H). destruct (H 3%nat (2 ^ 32) eq_refl) as (b & Hb & ->).
      vm_compute in Hb. injection Hb as <-. done.
    + clear Hs Hkept Hstay. apply (Hgone sample_group (0, 4, 1)); [by left | by left | clear; done | clear; done |].
      apply (bool_decide_unpack (address 0 1 ∉ changed_row_addrs sample_group)). vm_compute. exact I.
    + apply Hstay. apply (bool_decide_unpack (fragment_of (2 ^ 35) ∉ concat (old_ids_of <$> [sample_group]))). vm_compute. exact I.
Defined.

Definition sample_step : Step := mkStep [mkGroup [mkNewRange 9 0 4] [1; 2] [9]; mkGroup [mkNewRange 8 0 2] [3; 4] [8]] ∅.

Lemma frag_reuse_coverage_witness :
  remap_coverage [sample_step] [1; 2; 3; 5] = [5; 9] /\ (9 ∈ remap_coverage [sample_step] [1; 2; 3; 5]).
Proof.
  split; [vm_compute; reflexivity|]. apply (frag_reuse_coverage sample_step [1; 2; 3; 5]).
  - apply (bool_decide_unpack (NoDup (concat (old_ids <$> groups sample_step)))). vm_compute. exact I.
  - intros g g' [->|[->|[]%elem_of_nil]%elem_of_cons]%elem_of_cons [->|[->|[]%elem_of_nil]%elem_of_cons]%elem_of_cons;
      (apply (bool_decide_unpack (Forall _ _)); vm_compute; exact I).
  - right. eexists. split; [by left|]. split; [done|]. split; [|by left].
    apply (bool_decide_unpack (Forall _ _)). vm_compute. exact I.
Defined.

End FragReuse.
