(* ===== verification/BoolPack.v ===== *)
(** * BoolPack: bit packing of bool columns (include/nanolance/bool_bitpack.hpp)

    LSB-first packing of byte-per-value bools by a multiply, and unpacking by a table; both are proved
    to be the bit-by-bit conversion, for any bit offset, and inverse to each other. *)

From S2P Require Import Prelude.

Module BoolPack.

(** [packed[i]]. *)
Definition byte_at (packed : list Z) (i : Z) : Z := nth (Z.to_nat i) packed 0.

(** ** Packing *)

(** [detail::pack8]: [v] is the eight bytes read. *)
Definition pack8 (v : list Z) : Z :=
  let x := le_value v in
  u8 (Z.shiftr (u64 (Z.land x 0x0101010101010101 * 0x0102040810204080)) 56).

(** The loop over the values after the last full byte: [i] to [count]. *)
Fixpoint pack_tail (i : Z) (values : list Z) (b : Z) : Z :=
  match values with
  | [] => b
  | v :: values => pack_tail (i + 1) values (u8 (Z.lor b (Z.shiftl (Z.land v 1) (i mod 8))))
  end.

(** The full bytes, [j] from 0 to [full_bytes]. *)
Fixpoint pack_full (full_bytes : nat) (values : list Z) : list Z :=
  match full_bytes with
  | O => []
  | S n => pack8 (take 8 values) :: pack_full n (drop 8 values)
  end.

(** [pack_lsb_first(values, count)], [count] the number of values. *)
Definition pack_lsb_first (values : list Z) : list Z :=
  let count := zlen values in
  let full_bytes := count / 8 in
  pack_full (Z.to_nat full_bytes) values ++
  if full_bytes * 8 <? count then [pack_tail (full_bytes * 8) (drop (Z.to_nat (full_bytes * 8)) values) 0] else [].

(** ** Unpacking *)

(** [UnpackTable::entry[b]]. *)
Definition unpack_entry (b : Z) : Z :=
  foldl (fun e k => Z.lor e (u64 (Z.shiftl (Z.land (Z.shiftr b k) 1) (8 * k)))) 0 (seqZ 0 8).

(** [(packed[bit >> 3] >> (bit & 7)) & 1]. *)
Definition unpack_bit (packed : list Z) (bit : Z) : Z :=
  u8 (Z.land (Z.shiftr (byte_at packed (Z.shiftr bit 3)) (Z.land bit 7)) 1).

(** The first loop, up to a byte boundary: what it writes and [i] after it. [fuel] is at least the values
    left; at most seven iterations run. *)
Fixpoint unpack_head (fuel : nat) (packed : list Z) (bit_offset i count : Z) : list Z * Z :=
  match fuel with
  | O => ([], i)
  | S fuel =>
      if (i <? count) && negb (Z.land (bit_offset + i) 7 =? 0)
      then let '(out, i') := unpack_head fuel packed bit_offset (i + 1) count in (unpack_bit packed (bit_offset + i) :: out, i')
      else ([], i)
  end.

(** The table loop: eight values per byte of [packed] from index [src]. *)
Fixpoint unpack_middle (fuel : nat) (packed : list Z) (src i count : Z) : list Z * Z :=
  match fuel with
  | O => ([], i)
  | S fuel =>
      if i + 8 <=? count
      then let '(out, i') := unpack_middle fuel packed (src + 1) (i + 8) count in (le_bytes 8 (unpack_entry (byte_at packed src)) ++ out, i')
      else ([], i)
  end.

(** The last loop. *)
Fixpoint unpack_tail (fuel : nat) (packed : list Z) (bit_offset i count : Z) : list Z :=
  match fuel with
  | O => []
  | S fuel => if i <? count then unpack_bit packed (bit_offset + i) :: unpack_tail fuel packed bit_offset (i + 1) count else []
  end.

(** [unpack_lsb_first(packed, bit_offset, count, out)]: the bytes written. *)
Definition unpack_lsb_first (packed : list Z) (bit_offset count : Z) : list Z :=
  let fuel := Z.to_nat count in
  let '(head, i) := unpack_head fuel packed bit_offset 0 count in
  let '(middle, i) := unpack_middle fuel packed (Z.shiftr (bit_offset + i) 3) i count in
  head ++ middle ++ unpack_tail fuel packed bit_offset i count.

(** ** Bits *)

(** Bit [bit] of the packed bytes, as 0 or 1. *)
Definition bit_of (packed : list Z) (bit : Z) : Z := Z.b2z (Z.testbit (byte_at packed (bit / 8)) (bit mod 8)).

Lemma land_1 z : Z.land z 1 = Z.b2z (Z.testbit z 0).
Proof. rewrite Z.bit0_mod. apply (Z.land_ones z 1). lia. Qed.

Lemma unpack_bit_of packed bit : 0 <= bit -> unpack_bit packed bit = bit_of packed bit.
Proof.
  intros Hb. unfold unpack_bit, bit_of. rewrite (Z.shiftr_div_pow2 bit 3) by lia. change 7 with (2 ^ 3 - 1). rewrite land_low by lia.
  rewrite land_1, Z.shiftr_spec by lia. rewrite Z.add_0_l. change (2 ^ 3) with 8. apply u8_small.
  unfold is_u8. destruct (Z.testbit _ _); cbn; lia.
Qed.

(** A table entry holds the bits of its byte, one per byte. *)
Lemma unpack_entry_bits b : is_u8 b -> le_bytes 8 (unpack_entry b) = (fun k => Z.b2z (Z.testbit b k)) <$> seqZ 0 8.
Proof.
  intros Hb. assert (forallb (fun n => bool_decide (le_bytes 8 (unpack_entry n) = (fun k => Z.b2z (Z.testbit n k)) <$> seqZ 0 8))
    (seqZ 0 256) = true) as H by (vm_compute; reflexivity).
  rewrite forallb_forall in H. assert (b ∈ seqZ 0 256) as Hin by (apply elem_of_seqZ; unfold is_u8 in Hb; lia).
  apply list_elem_of_In, H, bool_decide_eq_true_1 in Hin. done.
Qed.

Lemma byte_at_ok packed i : bytes_ok packed -> is_u8 (byte_at packed i).
Proof.
  intros H. unfold byte_at. destruct (nth_in_or_default (Z.to_nat i) packed 0) as [Hin| ->]; [|done].
  unfold bytes_ok in H. rewrite Forall_forall in H. by apply H, list_elem_of_In.
Qed.

Lemma unpack_head_spec fuel packed off i count :
  0 <= off -> 0 <= i <= count -> count - i <= Z.of_nat fuel ->
  exists i', unpack_head fuel packed off i count = ((fun j => bit_of packed (off + j)) <$> seqZ i (i' - i), i') /\
    i <= i' <= count /\ (i' < count -> (off + i') mod 8 = 0).
Proof.
  revert i. induction fuel as [|fuel IH]; intros i Ho Hi Hf.
  { exists i. cbn. rewrite Z.sub_diag. split_and!; [done|lia|lia|]. intros. lia. }
  cbn [unpack_head]. change 7 with (2 ^ 3 - 1). rewrite land_low by lia. change (2 ^ 3) with 8.
  destruct (Z.ltb_spec i count), (Z.eqb_spec ((off + i) mod 8) 0); cbn [andb negb];
    try (exists i; rewrite Z.sub_diag; split_and!; [done | lia | lia | intros; first [done | lia]]).
  destruct (IH (i + 1)) as (i' & -> & Hi' & Hm); [lia..|]. exists i'. split_and!; [|lia|lia|done].
  rewrite unpack_bit_of by lia. replace (i' - i) with (Z.succ (i' - (i + 1))) by lia. rewrite (seqZ_cons i) by lia.
  rewrite Z.pred_succ. cbn. do 3 f_equal. 
Qed.

Lemma seqZ_split a m n : 0 <= m -> 0 <= n -> seqZ a (m + n) = seqZ a m ++ seqZ (a + m) n.
Proof. intros. apply seqZ_app; lia. Qed.

Lemma unpack_middle_spec fuel packed off i count :
  bytes_ok packed -> 0 <= off -> 0 <= i <= count -> count - i <= Z.of_nat fuel -> (i < count -> (off + i) mod 8 = 0) ->
  exists i', unpack_middle fuel packed (Z.shiftr (off + i) 3) i count = ((fun j => bit_of packed (off + j)) <$> seqZ i (i' - i), i') /\
    i <= i' <= count.
Proof.
  intros Hp Ho. revert i. induction fuel as [|fuel IH]; intros i Hi Hf Hm.
  { exists i. cbn. rewrite Z.sub_diag. split; [done|lia]. }
  cbn [unpack_middle]. destruct (Z.leb_spec (i + 8) count); [|exists i; rewrite Z.sub_diag; split; [done|lia]].
  specialize (Hm ltac:(lia)). rewrite Z.shiftr_div_pow2 by lia. change (2 ^ 3) with 8.
  assert ((off + i) / 8 + 1 = Z.shiftr (off + (i + 8)) 3) as -> by (rewrite Z.shiftr_div_pow2 by lia; change (2 ^ 3) with 8; dlia).
  destruct (IH (i + 8)) as (i' & -> & Hi'); [lia..|intros; dlia|]. exists i'. split; [|lia].
  rewrite unpack_entry_bits by (by apply byte_at_ok). f_equal. replace (i' - i) with (8 + (i' - (i + 8))) by lia.
  rewrite seqZ_split by lia. rewrite fmap_app. f_equal.
  assert (seqZ i 8 = Z.add i <$> seqZ 0 8) as -> by (rewrite fmap_add_seqZ; f_equal; lia). rewrite <- list_fmap_compose. apply list_fmap_ext. intros n k Hk%lookup_seqZ. unfold compose, bit_of.
  rewrite (Z.add_assoc off i k). replace ((off + i + k) / 8) with ((off + i) / 8) by dlia. replace ((off + i + k) mod 8) with k by dlia. done.
Qed.

Lemma unpack_tail_spec fuel packed off i count :
  0 <= off -> 0 <= i <= count -> count - i <= Z.of_nat fuel ->
  unpack_tail fuel packed off i count = (fun j => bit_of packed (off + j)) <$> seqZ i (count - i).
Proof.
  intros Ho. revert i. induction fuel as [|fuel IH]; intros i Hi Hf; cbn [unpack_tail].
  { by rewrite seqZ_nil by lia. }
  destruct (Z.ltb_spec i count); [|by rewrite seqZ_nil by lia]. rewrite IH, unpack_bit_of by lia. rewrite (seqZ_cons i) by lia.
  cbn. do 3 f_equal; lia.
Qed.

Lemma unpack_spec packed off count :
  bytes_ok packed -> 0 <= off -> 0 <= count ->
  unpack_lsb_first packed off count = (fun j => bit_of packed (off + j)) <$> seqZ 0 count.
Proof.
  intros Hp Ho Hc. unfold unpack_lsb_first. destruct (unpack_head_spec (Z.to_nat count) packed off 0 count) as (i1 & -> & H1 & Hm); [lia..|].
  destruct (unpack_middle_spec (Z.to_nat count) packed off i1 count Hp Ho) as (i2 & -> & H2); [lia..|done|].
  rewrite unpack_tail_spec by lia. rewrite <- !fmap_app. f_equal. replace count with ((i1 - 0) + ((i2 - i1) + (count - i2))) at 2 by lia.
  rewrite !seqZ_split by lia. repeat f_equal; lia.
Qed.

(** ** Packing *)

Lemma land_bytes b c x y : is_u8 b -> is_u8 c ->
  Z.land (Z.lor b (Z.shiftl x 8)) (Z.lor c (Z.shiftl y 8)) = Z.lor (Z.land b c) (Z.shiftl (Z.land x y) 8).
Proof.
  unfold is_u8. intros Hb Hc. apply Z.bits_inj'. intros i Hi. rewrite !Z.land_spec, !Z.lor_spec, !Z.shiftl_spec by lia.
  rewrite !Z.land_spec. destruct (Z.lt_ge_cases i 8).
  - rewrite (Z.testbit_neg_r x), (Z.testbit_neg_r y) by lia. by rewrite !orb_false_r.
  - rewrite <- (Z.mod_small b (2 ^ 8)), <- (Z.mod_small c (2 ^ 8)), !Z.mod_pow2_bits_high by lia. done.
Qed.

Lemma land_le_value v w : length v = length w -> bytes_ok v -> bytes_ok w ->
  Z.land (le_value v) (le_value w) = le_value (zip_with Z.land v w).
Proof.
  intros Hl Hv. revert w Hl. induction Hv as [|b v Hb Hv IH]; intros [|c w] Hl Hw; try done.
  apply Forall_cons_1 in Hw as [Hc Hw]. cbn [le_value zip_with]. rewrite land_bytes, IH by (done || (simpl in Hl; lia)). done.
Qed.

(** The multiply gathers the eight low bits. *)
Lemma pack8_bits v k :
  length v = 8%nat -> bytes_ok v -> 0 <= k < 8 ->
  is_u8 (pack8 v) /\ Z.testbit (pack8 v) k = Z.testbit (byte_at v k) 0.
Proof.
  intros Hl Hv Hk. split; [apply u8_range|]. unfold pack8. cbn zeta. change 0x0101010101010101 with (le_value (replicate 8 1)).
  rewrite land_le_value; [|done|done|by repeat constructor].
  repeat (destruct v as [|? v]; [done|]). destruct v; [|done]. clear Hl Hv. cbn [replicate zip_with]. rewrite !land_1.
  assert (k = 0 \/ k = 1 \/ k = 2 \/ k = 3 \/ k = 4 \/ k = 5 \/ k = 6 \/ k = 7) as Hc by lia.
  clear Hk. destruct Hc as [->|[->|[->|[->|[->|[->|[->| ->]]]]]]]; cbv [byte_at nth Z.to_nat Pos.to_nat Pos.iter_op Nat.add];
  repeat match goal with |- context [Z.testbit ?z 0] => is_var z; destruct (Z.testbit z 0) end; vm_compute; reflexivity.
Qed.

Lemma pack_tail_bits values i b m :
  i mod 8 = m -> 0 <= b < 2 ^ m -> m + zlen values <= 8 -> 0 <= m ->
  is_u8 (pack_tail i values b) /\
  forall k, 0 <= k < 8 -> Z.testbit (pack_tail i values b) k =
    if k <? m then Z.testbit b k else Z.testbit (byte_at values (k - m)) 0.
Proof.
  revert i b m. induction values as [|v values IH]; intros i b m Hi Hb Hl Hm; cbn [pack_tail].
  - assert (b < 2 ^ 8) by (apply (Z.lt_le_trans _ (2 ^ m)); [lia|]; apply Z.pow_le_mono_r; unfold zlen in Hl; simpl in Hl; lia).
    split; [unfold is_u8; lia|]. intros k Hk. destruct (Z.ltb_spec k m); [done|]. unfold byte_at. destruct (Z.to_nat (k - m)); cbn;
      rewrite <- (Z.mod_small b (2 ^ m)), Z.mod_pow2_bits_high by lia; done.
  - rewrite zlen_cons in Hl. pose proof (zlen_nonneg values). rewrite Hi, land_1.
    rewrite (lor_shiftl_add b (Z.b2z (Z.testbit v 0)) m) by lia.
    assert (0 <= b + Z.b2z (Z.testbit v 0) * 2 ^ m < 2 ^ (m + 1)) as Hr by (rewrite Z.pow_add_r by lia; destruct (Z.testbit v 0); cbn [Z.b2z]; lia).
    assert (2 ^ (m + 1) <= 2 ^ 8) by (apply Z.pow_le_mono_r; lia).
    rewrite u8_small by (unfold is_u8; lia).
    destruct (Z.eq_dec m 7) as [->|Hm7].
    + destruct values as [|? ?]; [|rewrite zlen_cons in Hl; pose proof (zlen_nonneg values); lia]. cbn [pack_tail]. split; [unfold is_u8; lia|].
      intros k Hk. rewrite <- lor_shiftl_add, Z.lor_spec, Z.shiftl_spec by lia. destruct (Z.ltb_spec k 7).
      * rewrite (Z.testbit_neg_r (Z.b2z _)) by lia. apply orb_false_r.
      * assert (k = 7) as -> by lia. rewrite <- (Z.mod_small b (2 ^ 7)), Z.mod_pow2_bits_high, Z.sub_diag, Z.b2z_bit0 by lia. done.
    + destruct (IH (i + 1) (b + Z.b2z (Z.testbit v 0) * 2 ^ m) (m + 1)) as [Hu Hbits]; [dlia | lia..|]. split; [done|].
      intros k Hk. rewrite Hbits by done. destruct (Z.ltb_spec k (m + 1)), (Z.ltb_spec k m); try lia.
      * rewrite <- lor_shiftl_add, Z.lor_spec, Z.shiftl_spec, (Z.testbit_neg_r (Z.b2z _)) by lia. apply orb_false_r.
      * assert (k = m) as -> by lia. rewrite <- lor_shiftl_add, Z.lor_spec, Z.shiftl_spec by lia.
        rewrite <- (Z.mod_small b (2 ^ m)), Z.mod_pow2_bits_high, Z.sub_diag, Z.b2z_bit0 by lia. done.
      * unfold byte_at. replace (Z.to_nat (k - m)) with (S (Z.to_nat (k - (m + 1)))) by lia. done.
Qed.

Lemma byte_at_drop l n k : 0 <= n -> 0 <= k -> byte_at (drop (Z.to_nat n) l) k = byte_at l (n + k).
Proof. intros. unfold byte_at. rewrite !nth_lookup, lookup_drop. do 2 f_equal. lia. Qed.

Lemma byte_at_take l n k : 0 <= k < n -> byte_at (take (Z.to_nat n) l) k = byte_at l k.
Proof. intros. unfold byte_at. rewrite !nth_lookup, lookup_take_lt by lia. done. Qed.

Lemma pack_full_bits n values :
  8 * Z.of_nat n <= zlen values -> bytes_ok values ->
  length (pack_full n values) = n /\ bytes_ok (pack_full n values) /\
  forall q k, 0 <= q < Z.of_nat n -> 0 <= k < 8 ->
    Z.testbit (byte_at (pack_full n values) q) k = Z.testbit (byte_at values (8 * q + k)) 0.
Proof.
  revert values. induction n as [|n IH]; intros values Hl Hv; cbn [pack_full]; [split_and!; [done | constructor | lia]|].
  assert (length (take 8 values) = 8%nat) as H8 by (rewrite length_take; unfold zlen in Hl; lia).
  assert (bytes_ok (take 8 values) /\ bytes_ok (drop 8 values)) as [Ht Hd] by (by apply Forall_app; rewrite take_drop).
  destruct (IH (drop 8 values)) as (IH1 & IH2 & IH3); [unfold zlen in *; rewrite length_drop; lia | done|].
  split_and!; [cbn; by rewrite IH1 | constructor; [apply u8_range | done] |]. intros q k Hq Hk.
  destruct (Z.eq_dec q 0) as [->|Hq0].
  - change (byte_at (pack8 (take 8 values) :: _) 0) with (pack8 (take 8 values)).
    rewrite (proj2 (pack8_bits (take 8 values) k H8 Ht Hk)). change 8%nat with (Z.to_nat 8). rewrite byte_at_take by lia. f_equal.
  - unfold byte_at at 1. replace (Z.to_nat q) with (S (Z.to_nat (q - 1))) by lia. cbn [nth]. fold (byte_at (pack_full n (drop 8 values)) (q - 1)).
    rewrite IH3 by lia. change 8%nat with (Z.to_nat 8). rewrite byte_at_drop by lia. do 2 f_equal. lia.
Qed.

(** Packing puts value [j] at bit [j], in as many bytes as that takes. *)
Lemma pack_bits values :
  bytes_ok values ->
  zlen (pack_lsb_first values) = (zlen values + 7) / 8 /\ bytes_ok (pack_lsb_first values) /\
  forall j, 0 <= j < zlen values -> bit_of (pack_lsb_first values) j = Z.land (byte_at values j) 1.
Proof.
  intros Hv. pose proof (zlen_nonneg values) as Hn. unfold pack_lsb_first. set (full := zlen values / 8).
  assert (0 <= full /\ 8 * full <= zlen values < 8 * full + 8) as Hfull by (unfold full; dlia).
  destruct (pack_full_bits (Z.to_nat full) values) as (Hlen & Hok & Hbits); [lia | done|].
  set (rest := drop (Z.to_nat (full * 8)) values).
  assert (zlen rest = zlen values - full * 8) as Hrest by (unfold rest, zlen in *; rewrite length_drop; lia).
  assert (forall j, 0 <= j < full * 8 -> Z.testbit (byte_at (pack_full (Z.to_nat full) values) (j / 8)) (j mod 8) = Z.testbit (byte_at values j) 0) as Hfb.
  { intros j Hj. rewrite Hbits by dlia. do 2 f_equal. dlia. }
  destruct (Z.ltb_spec (full * 8) (zlen values)) as [Hlt|Hge].
  - destruct (pack_tail_bits rest (full * 8) 0 0) as [Hu Ht]; [dlia | lia..|]. split_and!.
    + rewrite zlen_app. unfold zlen at 1 2. rewrite Hlen. cbn [length]. dlia.
    + apply Forall_app_2; [done | by constructor].
    + intros j Hj. unfold bit_of. rewrite land_1. f_equal. destruct (Z.lt_ge_cases j (full * 8)).
      * rewrite <- Hfb by lia. f_equal. unfold byte_at. rewrite app_nth1 by (rewrite Hlen; dlia). done.
      * unfold byte_at at 1. rewrite app_nth2 by (rewrite Hlen; dlia). rewrite Hlen. replace (Z.to_nat (j / 8) - Z.to_nat full)%nat with 0%nat by dlia.
        cbn [nth]. rewrite Ht by dlia. destruct (Z.ltb_spec (j mod 8) 0); [dlia|]. unfold rest. rewrite byte_at_drop by dlia. do 2 f_equal. dlia.
  - rewrite app_nil_r. split_and!; [unfold zlen at 1; rewrite Hlen; dlia | done|]. intros j Hj. unfold bit_of. rewrite land_1, <- Hfb by lia. done.
Qed.

(** any run of rows of a packed bool column unpacks to those rows: the multiply that packs
    eight values at a time and the table that unpacks them are inverse, at any bit offset. *)
Theorem bool_pack_roundtrip values offset count :
  Forall (fun v => v = 0 \/ v = 1) values -> 0 <= offset -> 0 <= count -> offset + count <= zlen values ->
  unpack_lsb_first (pack_lsb_first values) offset count = take (Z.to_nat count) (drop (Z.to_nat offset) values).
Proof.
  intros Hv Ho Hc Hle. assert (bytes_ok values) as Hb by (eapply Forall_impl; [exact Hv|]; intros v [-> | ->]; done).
  destruct (pack_bits values Hb) as (_ & Hok & Hbits). rewrite unpack_spec by done. apply list_eq. intros i.
  rewrite list_lookup_fmap. destruct (decide (i < Z.to_nat count)%nat) as [Hi|Hi].
  - rewrite lookup_seqZ_lt by lia. cbn. rewrite Hbits by lia. rewrite lookup_take_lt, lookup_drop by done.
    destruct (values !! (Z.to_nat offset + i)%nat) as [v|] eqn:E.
    + unfold byte_at. rewrite nth_lookup. replace (Z.to_nat (offset + (0 + Z.of_nat i))) with (Z.to_nat offset + i)%nat by lia. rewrite E. cbn.
      rewrite Forall_forall in Hv. apply list_elem_of_lookup_2 in E. destruct (Hv v E) as [-> | ->]; done.
    + apply lookup_ge_None_1 in E. unfold zlen in Hle. lia.
  - rewrite lookup_seqZ_ge by lia. cbn. rewrite lookup_take_ge by lia. done.
Qed.

Lemma bool_pack_roundtrip_witness :
  unpack_lsb_first (pack_lsb_first [1; 0; 1; 1; 0; 0; 0; 1; 1; 1; 0]) 3 7 = [1; 0; 0; 0; 1; 1; 1].
Proof.
  apply (bool_pack_roundtrip [1; 0; 1; 1; 0; 0; 0; 1; 1; 1; 0] 3 7); [|lia|lia|vm_compute; discriminate].
  repeat (apply Forall_cons_2; [first [by left | by right]|]). constructor.
Defined.

End BoolPack.
