(* ===== verification/Rle.v ===== *)
(** * Rle: run-length encoded values (src/encoding/values/rle.cpp)

    Runs are split into lengths of at most 255 and decoded by a doubling fill; pages of runs are cut into
    chunks; definition levels use the same runs in one block. *)

From S2P Require Import Prelude ReadSafety.

Module Rle.

(** ** Expansion *)

(** The doubling fill: [dst] is what is written so far, [filled] its size. Every iteration writes at least
    a byte, so [total] bounds them. *)
Fixpoint fill (fuel : nat) (total : Z) (dst : list Z) : list Z :=
  match fuel with
  | O => dst
  | S fuel =>
      if zlen dst <? total
      then fill fuel total (dst ++ take (Z.to_nat (Z.min (zlen dst) (total - zlen dst))) dst)
      else dst
  end.

(** [append_repeated]: the new [out], or [None] for [false]. *)
Definition append_repeated (limits : ReadLimits) (out val : list Z) (count : Z) : option (list Z) :=
  if (count =? 0) || (zlen val =? 0) then Some out
  else
    added ← checked_mul (zlen val) count;
    new_size ← checked_add (zlen out) added;
    if negb (fits_size_t new_size) || (max_uncompressed_bytes limits <? new_size) then None
    else Some (out ++ fill (Z.to_nat added) added val).

(** The loop over the runs: [values] from run [r] on. *)
Fixpoint decode_runs (limits : ReadLimits) (width : Z) (values lengths out : list Z) : res (list Z) :=
  match lengths with
  | [] => Ok out
  | run :: lengths =>
      match append_repeated limits out (take (Z.to_nat width) values) run with
      | None => Err "rle run expansion overflows"
      | Some out => decode_runs limits width (drop (Z.to_nat width) values) lengths out
      end
  end.

Definition decode (limits : ReadLimits) (values lengths : list Z) (width : Z) (out : list Z) : res (list Z) :=
  if (width =? 0) || negb (zlen values mod width =? 0) then Err "rle chunk buffer sizes invalid"
  else if negb (zlen values / width =? zlen lengths) then Err "rle run count mismatch between values and lengths"
  else decode_runs limits width values lengths out.

(** ** Encoding *)

(** The loop over [remaining]: the values and the lengths it appends. A step takes 255 rows or the rest. *)
Fixpoint append_run_loop (fuel : nat) (value : list Z) (remaining : Z) : list Z * list Z :=
  match fuel with
  | O => ([], [])
  | S fuel =>
      if 0 <? remaining then
        let taken := u8 (Z.min 255 remaining) in
        let '(values, lengths) := append_run_loop fuel value (remaining - taken) in (value ++ values, taken :: lengths)
      else ([], [])
  end.

Definition append_run (value : list Z) (length : Z) (s : list Z * list Z) : list Z * list Z :=
  let '(values, lengths) := append_run_loop (Z.to_nat (length / 255 + 1)) value length in (s.1 ++ values, s.2 ++ lengths).

Definition append_index_run (index length : Z) (s : list Z * list Z) : list Z * list Z := append_run (le_bytes 4 index) length s.

(** ** Chunks *)

Definition kChunkMaxRows : Z := 4096.
Definition kChunkMaxBytes : Z := 8192.
Definition kChunkHeaderBytes : Z := 8.

Definition chunk_bytes (pieces value_bytes : Z) : Z :=
  let raw := u64 (kChunkHeaderBytes + u64 (pieces * u64 (value_bytes + 1))) in u64 (u64 (raw + 7) / 8 * 8).

(** [while (target <= rows + seg)]: [done], [target] and [chosen] after it. The target grows up to [last]. *)
Fixpoint try_targets (fuel : nat) (value_bytes last rows seg pieces target chosen : Z) : bool * Z * Z :=
  match fuel with
  | O => (false, target, chosen)
  | S fuel =>
      if target <=? rows + seg then
        let in_seg := target - rows in
        if kChunkMaxBytes <? chunk_bytes (pieces + (in_seg + 254) / 255) value_bytes then (true, target, chosen)
        else if target =? last then (true, target, target)
        else try_targets fuel value_bytes last rows seg pieces (Z.min (target * 2) last) target
      else (false, target, chosen)
  end.

(** [while (!done && r < run_lengths.size())]: [runs] are the runs from [r] on; the result is [chosen]. *)
Fixpoint walk (value_bytes last : Z) (runs : list Z) (off rows pieces target chosen : Z) : Z :=
  match runs with
  | [] => chosen
  | run :: runs =>
      let seg := Z.min (run - off) (last - rows) in
      match try_targets (S (Z.to_nat last)) value_bytes last rows seg pieces target chosen with
      | (true, _, chosen) => chosen
      | (false, target, chosen) => walk value_bytes last runs 0 (rows + seg) (pieces + (seg + 254) / 255) target chosen
      end
  end.

(** Advancing [left] rows: the runs from [run] on, and [offset]. A run that is not used up holds all of
    [left], so the loop ends there. *)
Fixpoint advance (runs : list Z) (offset left : Z) : list Z * Z :=
  match runs with
  | [] => ([], offset)
  | run :: runs' =>
      if 0 <? left then
        let taken := Z.min (run - offset) left in
        if offset + taken =? run then advance runs' 0 (left - taken) else (runs, offset + taken)
      else (runs, offset)
  end.

(** [while (remaining > 0)]: a chunk takes at least one row. *)
Fixpoint chunk_loop (fuel : nat) (value_bytes max_rows : Z) (runs : list Z) (offset remaining : Z) : list Z :=
  match fuel with
  | O => []
  | S fuel =>
      if 0 <? remaining then
        let last := Z.min remaining (Z.min kChunkMaxRows max_rows) in
        let chosen := walk value_bytes last runs offset 0 0 1 1 in
        let '(runs, offset) := advance runs offset chosen in
        chosen :: chunk_loop fuel value_bytes max_rows runs offset (remaining - chosen)
      else []
  end.

Definition chunk_rows (run_lengths : list Z) (value_bytes max_rows : Z) : list Z :=
  let remaining := foldl (fun n length => u64 (n + length)) 0 run_lengths in
  chunk_loop (Z.to_nat remaining) value_bytes max_rows run_lengths 0 remaining.

(** ** Definition levels *)

(** The loop over the runs: [values] and [lengths] from run [r] on, [levels] what is written so far. *)
Fixpoint levels_loop (runs : nat) (value_bytes length_bytes count : Z) (values lengths levels : list Z) : res (list Z) :=
  match runs with
  | O => Ok levels
  | S runs =>
      let level := load_le (Z.to_nat value_bytes) values in
      let run := load_le (Z.to_nat length_bytes) lengths in
      if (count <? run) || (count <? zlen levels + run)
      then Err ("run-length definition levels cover more than the chunk's " +:+ pretty count +:+ " values")
      else levels_loop runs value_bytes length_bytes count (drop (Z.to_nat value_bytes) values) (drop (Z.to_nat length_bytes) lengths)
             (levels ++ replicate (Z.to_nat run) level)
  end.

Definition decode_levels (block : list Z) (value_bits length_bits count : Z) : res (list Z) :=
  if (negb (value_bits =? 8) && negb (value_bits =? 16)) ||
     (negb (length_bits =? 8) && negb (length_bits =? 16) && negb (length_bits =? 32))
  then Err ("run-length-encoded definition levels declare unsupported widths (" +:+ pretty value_bits +:+ "-bit values, " +:+
            pretty length_bits +:+ "-bit run lengths)")
  else
    let value_bytes := value_bits / 8 in
    let length_bytes := length_bits / 8 in
    if zlen block <? 8 then Err "run-length definition-level buffer is too short for its header"
    else
      let values_size := load_le 8 block in
      if negb (fits_size_t values_size) || (zlen block - 8 <? values_size)
      then Err "run-length definition-level values buffer runs past the end of the block"
      else if negb (values_size mod value_bytes =? 0)
      then Err "run-length definition-level values buffer is not a whole number of values"
      else
        let runs := values_size / value_bytes in
        let lengths_size := zlen block - 8 - values_size in
        if negb (lengths_size =? runs * length_bytes)
        then Err ("run-length definition-level block has " +:+ pretty runs +:+ " run values but " +:+ pretty lengths_size +:+
                  " bytes of run lengths")
        else
          let values := drop 8 block in
          levels ← levels_loop (Z.to_nat runs) value_bytes length_bytes count values (drop (Z.to_nat values_size) values) [];
          if negb (zlen levels =? count)
          then Err ("run-length definition levels cover " +:+ pretty (zlen levels) +:+ " of the chunk's " +:+ pretty count +:+ " values")
          else Ok levels.

Example chunk_example : chunk_rows [5000; 3; 200] 4 4096 = [4096; 1107].
Proof. vm_compute. reflexivity. Qed.

(** ** Expanding runs *)

(** [n] copies of [v], one after the other. *)
Definition copies (n : nat) (v : list Z) : list Z := concat (replicate n v).

Lemma copies_app n m v : copies (n + m) v = copies n v ++ copies m v.
Proof. unfold copies. by rewrite replicate_add, concat_app. Qed.

Lemma zlen_copies n v : zlen (copies n v) = Z.of_nat n * zlen v.
Proof. unfold copies. induction n as [|n IH]; [done|]. cbn [replicate concat]. rewrite zlen_app, IH. lia. Qed.

Lemma take_copies n m v : (m <= n)%nat -> take (Z.to_nat (Z.of_nat m * zlen v)) (copies n v) = copies m v.
Proof.
  intros Hm. replace n with (m + (n - m))%nat by lia. rewrite copies_app, <- zlen_copies. unfold zlen. rewrite Nat2Z.id. apply take_app_length.
Qed.

(** The doubling fill writes the copies. *)
Lemma fill_copies fuel count n v :
  0 < zlen v -> (1 <= n <= count)%nat -> (count - n <= fuel)%nat ->
  fill fuel (Z.of_nat count * zlen v) (copies n v) = copies count v.
Proof.
  intros Hv. revert n. induction fuel as [|fuel IH]; intros n Hn Hf; cbn [fill]; [by replace count with n by lia|].
  rewrite zlen_copies. destruct (Z.ltb_spec (Z.of_nat n * zlen v) (Z.of_nat count * zlen v)) as [Hlt|Hge]; [|by replace count with n by nia].
  replace (Z.min (Z.of_nat n * zlen v) (Z.of_nat count * zlen v - Z.of_nat n * zlen v)) with (Z.of_nat (Nat.min n (count - n)) * zlen v) by nia.
  rewrite take_copies by lia. rewrite <- copies_app. assert (n < count)%nat by nia. apply IH; lia.
Qed.

Lemma append_repeated_spec limits out v n :
  is_u64 (max_uncompressed_bytes limits) -> zlen out <= max_uncompressed_bytes limits -> is_u64 (zlen v) -> is_u64 n ->
  append_repeated limits out v n =
  if zlen out + n * zlen v <=? max_uncompressed_bytes limits then Some (out ++ copies (Z.to_nat n) v) else None.
Proof.
  unfold is_u64. intros HL Ho Hv Hn. unfold append_repeated. pose proof (zlen_nonneg out). pose proof (zlen_nonneg v).
  destruct (Z.eqb_spec n 0) as [->|Hn0]; cbn [orb].
  { rewrite Z.mul_0_l, Z.add_0_r. destruct (Z.leb_spec (zlen out) (max_uncompressed_bytes limits)); [|lia]. by rewrite app_nil_r. }
  destruct (Z.eqb_spec (zlen v) 0) as [Hv0|Hv0].
  { rewrite Hv0, Z.mul_0_r, Z.add_0_r. destruct (Z.leb_spec (zlen out) (max_uncompressed_bytes limits)); [|lia].
    assert (copies (Z.to_nat n) v = []) as ->; [|by rewrite app_nil_r]. apply length_zero_iff_nil.
    pose proof (zlen_copies (Z.to_nat n) v) as Hz. unfold zlen in *. lia. }
  rewrite checked_mul_spec by done. rewrite (Z.mul_comm n). destruct (Z.ltb_spec (zlen v * n) (2 ^ 64)) as [Hm|Hm]; cbn [mbind option_bind].
  2: { destruct (Z.leb_spec (zlen out + zlen v * n) (max_uncompressed_bytes limits)); [lia | done]. }
  rewrite checked_add_spec by (unfold is_u64; nia). destruct (Z.ltb_spec (zlen out + zlen v * n) (2 ^ 64)) as [Ha|Ha]; cbn [mbind option_bind].
  2: { destruct (Z.leb_spec (zlen out + zlen v * n) (max_uncompressed_bytes limits)); [lia | done]. }
  unfold fits_size_t, U64_MAX. destruct (Z.leb_spec (zlen out + zlen v * n) (2 ^ 64 - 1)); [|lia]. cbn [negb orb].
  destruct (Z.ltb_spec (max_uncompressed_bytes limits) (zlen out + zlen v * n)), (Z.leb_spec (zlen out + zlen v * n) (max_uncompressed_bytes limits)); try lia; [done|].
  do 2 f_equal. rewrite <- (app_nil_r v) at 3. change (v ++ []) with (copies 1 v).
  replace (zlen v * n) with (Z.of_nat (Z.to_nat n) * zlen v) at 2 by lia. apply fill_copies; [lia|lia|nia].
Qed.

(** The rows the runs [(value, length)] stand for. *)
Definition expand (runs : list (list Z * Z)) : list Z := concat ((fun r => copies (Z.to_nat r.2) r.1) <$> runs).

Lemma decode_runs_spec limits width runs out :
  is_u64 (max_uncompressed_bytes limits) -> zlen out <= max_uncompressed_bytes limits -> is_u64 width ->
  Forall (fun r => zlen r.1 = width /\ is_u64 r.2) runs ->
  decode_runs limits width (concat runs.*1) runs.*2 out =
  if zlen out + zlen (expand runs) <=? max_uncompressed_bytes limits then Ok (out ++ expand runs) else Err "rle run expansion overflows".
Proof.
  intros HL Ho Hw H. revert out Ho. induction H as [|[v n] runs [Hv Hn] H IH]; intros out Ho; cbn [fst snd] in *.
  { cbn. change (zlen (expand [])) with 0. rewrite Z.add_0_r. destruct (Z.leb_spec (zlen out) (max_uncompressed_bytes limits)); [|lia].
    by rewrite app_nil_r. }
  cbn [fmap list_fmap concat decode_runs fst snd]. unfold expand. cbn [fmap list_fmap concat fst snd]. fold (expand runs).
  assert (length v = Z.to_nat width) as Hl by (unfold zlen in Hv; lia). rewrite <- Hl, take_app_length, drop_app_length.
  rewrite append_repeated_spec by (done || by rewrite Hv). rewrite zlen_app, zlen_copies. unfold is_u64 in *. pose proof (zlen_nonneg (expand runs)).
  rewrite Z2Nat.id by lia. destruct (Z.leb_spec (zlen out + n * zlen v) (max_uncompressed_bytes limits)).
  - rewrite IH by (rewrite zlen_app, zlen_copies, Z2Nat.id by lia; lia). rewrite zlen_app, zlen_copies, Z2Nat.id by lia.
    rewrite Z.add_assoc, app_assoc. done.
  - destruct (Z.leb_spec (zlen out + (n * zlen v + zlen (expand runs))) (max_uncompressed_bytes limits)); [lia | done].
Qed.

(** The pieces of at most 255 rows a run is split into. *)
Lemma append_run_loop_pieces fuel value remaining :
  0 <= remaining <= 255 * Z.of_nat fuel ->
  exists ns, append_run_loop fuel value remaining = (concat (replicate (length ns) value), ns) /\
    Forall (fun n => 1 <= n <= 255) ns /\ expand ((value,.) <$> ns) = copies (Z.to_nat remaining) value.
Proof.
  revert remaining. induction fuel as [|fuel IH]; intros remaining Hr; [exists []; by replace remaining with 0 by lia|].
  cbn [append_run_loop].
  destruct (Z.ltb_spec 0 remaining) as [Hp|Hp].
  - rewrite u8_small by (unfold is_u8; lia). destruct (IH (remaining - Z.min 255 remaining)) as (ns & -> & Hns & He); [lia|].
    exists (Z.min 255 remaining :: ns). split_and!; [done | constructor; [lia | done]|].
    unfold expand in *. cbn [fmap list_fmap concat fst snd]. rewrite He, <- copies_app. f_equal. lia.
  - exists []. replace remaining with 0 by lia. done.
Qed.

(** The buffers the runs are encoded to. *)
Definition encode_runs (runs : list (list Z * Z)) : list Z * list Z :=
  foldl (fun s r => append_run r.1 r.2 s) ([], []) runs.

Lemma encode_runs_pieces width runs s :
  Forall (fun r => zlen r.1 = width /\ is_u64 r.2) runs ->
  exists pieces, foldl (fun s r => append_run r.1 r.2 s) s runs = (s.1 ++ concat pieces.*1, s.2 ++ pieces.*2) /\
    Forall (fun r => zlen r.1 = width /\ is_u64 r.2) pieces /\ Forall is_u8 pieces.*2 /\ expand pieces = expand runs.
Proof.
  intros H. revert s. induction H as [|[v n] runs [Hv Hn] H IH]; intros s; cbn [foldl fst snd] in *.
  { exists []. cbn. rewrite !app_nil_r. destruct s. split_and!; done || constructor. }
  unfold append_run at 2. unfold is_u64 in Hn.
  destruct (append_run_loop_pieces (Z.to_nat (n / 255 + 1)) v n) as (ns & -> & Hns & He); [dlia|].
  destruct (IH (s.1 ++ concat (replicate (length ns) v), s.2 ++ ns)) as (pieces & -> & Hp & Hp8 & Hpe).
  exists (((v,.) <$> ns) ++ pieces). rewrite !fmap_app, concat_app, <- !list_fmap_compose. cbn [fst snd].
  assert (fst ∘ (v,.) <$> ns = replicate (length ns) v) as -> by (clear; induction ns as [|? ns IH]; [done|]; cbn; by rewrite <- IH).
  assert (snd ∘ (v,.) <$> ns = ns) as -> by (clear; induction ns as [|? ns IH]; [done|]; cbn; by rewrite IH).
  rewrite <- !app_assoc. split_and!; [done| | |].
  - apply Forall_app_2; [|done]. apply Forall_fmap. eapply Forall_impl; [exact Hns|]. cbn. intros x Hx. unfold is_u64. split; [done | lia].
  - apply Forall_app_2; [|done]. eapply Forall_impl; [exact Hns|]. cbn. intros x Hx. unfold is_u8. lia.
  - unfold expand in *. rewrite fmap_app, concat_app, He, Hpe. done.
Qed.

(** decoding the runs a column was encoded to gives its rows back, however long the runs,
    and fails exactly when the rows pass the decoded-size limit. *)
Theorem rle_roundtrip limits width runs :
  is_u64 (max_uncompressed_bytes limits) -> 0 < width < 2 ^ 64 -> Forall (fun r => zlen r.1 = width /\ is_u64 r.2) runs ->
  let '(values, lengths) := encode_runs runs in
  bytes_ok lengths /\
  decode limits values lengths width [] =
    if zlen (expand runs) <=? max_uncompressed_bytes limits then Ok (expand runs) else Err "rle run expansion overflows".
Proof.
  intros HL Hw H. unfold encode_runs. destruct (encode_runs_pieces width runs ([], []) H) as (pieces & -> & Hp & H8 & <-).
  cbn [fst snd]. rewrite !app_nil_l. split; [done|]. unfold decode.
  assert (zlen (concat pieces.*1) = zlen pieces.*2 * width) as Hz.
  { clear -Hp. induction Hp as [|[v n] pieces [Hv _] Hp IH]; [done|]. cbn [fmap list_fmap concat fst snd] in *. rewrite zlen_app, zlen_cons. lia. }
  rewrite Hz, Z.mod_mul, Z.div_mul by lia. destruct (Z.eqb_spec width 0); [lia|]. rewrite !Z.eqb_refl. cbn [orb negb].
  assert (zlen (@nil Z) = 0) as H0 by done. rewrite decode_runs_spec by (first [done | unfold is_u64 in *; lia]). by rewrite H0.
Qed.

Lemma rle_roundtrip_witness :
  let '(values, lengths) := encode_runs [([7; 7], 300); ([1; 2], 2)] in
  bytes_ok lengths /\ decode trusted_read_limits values lengths 2 [] = Ok (expand [([7; 7], 300); ([1; 2], 2)]).
Proof.
  apply (rle_roundtrip trusted_read_limits 2 [([7; 7], 300); ([1; 2], 2)]); [by vm_compute | lia |].
  repeat constructor; done.
Defined.

(** ** Chunks *)

Definition zsum (l : list Z) : Z := foldr Z.add 0 l.

Lemma zsum_nonneg l : Forall (Z.le 0) l -> 0 <= zsum l.
Proof. unfold zsum. induction 1; cbn in *; lia. Qed.

(** The (value, length) pairs the next [n] rows encode to, from [off] rows into the first of [runs]. *)
Fixpoint pieces_of (runs : list Z) (off n : Z) : Z :=
  match runs with
  | [] => 0
  | run :: runs => let seg := Z.min (run - off) n in (seg + 254) / 255 + pieces_of runs 0 (n - seg)
  end.

Definition fits (value_bytes pieces : Z) : Prop := chunk_bytes pieces value_bytes <= kChunkMaxBytes.

(** The choice of a chunk's rows among at most [last]: all of them when they fit, else the last candidate
    before one that does not fit, and at least one row. *)
Definition chunk_choice (value_bytes last : Z) (P : Z -> Z) (chosen : Z) : Prop :=
  1 <= chosen <= last /\
  ((chosen = last /\ fits value_bytes (P last)) \/
   (chosen < last /\ fits value_bytes (P chosen) /\ ~ fits value_bytes (P (Z.min (2 * chosen) last))) \/
   (chosen = 1 /\ ~ fits value_bytes (P 1))).

(** What the walk knows of its next candidate. *)
Definition candidate (value_bytes last : Z) (P : Z -> Z) (target chosen : Z) : Prop :=
  (target = 1 /\ chosen = 1) \/
  (1 <= chosen < target /\ target = Z.min (2 * chosen) last /\ fits value_bytes (P chosen)).

Section walk.
  Context (value_bytes last : Z) (P : Z -> Z) (Hlast : 1 <= last).

Lemma try_targets_spec fuel rows seg pieces target chosen :
  (forall n, rows < n <= rows + seg -> P n = pieces + (n - rows + 254) / 255) ->
  candidate value_bytes last P target chosen -> rows < target <= last -> last - target < Z.of_nat fuel ->
  match try_targets fuel value_bytes last rows seg pieces target chosen with
  | (true, _, chosen') => chunk_choice value_bytes last P chosen'
  | (false, target', chosen') => candidate value_bytes last P target' chosen' /\ rows + seg < target' <= last
  end.
Proof.
  intros HP. revert target chosen. induction fuel as [|fuel IH]; intros target chosen Hc Ht Hf; [lia|]. cbn [try_targets].
  destruct (Z.leb_spec target (rows + seg)) as [Hin|Hout]; [|split; [done | lia]].
  rewrite <- HP by lia. unfold candidate, chunk_choice in *.
  destruct (Z.ltb_spec kChunkMaxBytes (chunk_bytes (P target) value_bytes)) as [Hbig|Hfit].
  - assert (~ fits value_bytes (P target)) by (unfold fits; lia).
    destruct Hc as [[-> ->]|(Hc & -> & Hok)]; (split; [lia|]); [by right; right|]. right; left. split_and!; [lia | done..].
  - destruct (Z.eqb_spec target last) as [->|Hne]; [split; [lia|]; by left|].
    apply IH; [|lia|lia]. right. split; [destruct Hc as [[-> ->]|(? & -> & _)]; lia|]. split; [lia | done].
Qed.

Lemma pieces_of_0 runs : Forall (Z.le 0) runs -> pieces_of runs 0 0 = 0.
Proof.
  induction 1 as [|r runs Hr H IH]; [done|]. cbn [pieces_of]. rewrite Z.min_r by lia. cbn -[pieces_of]. exact IH.
Qed.

Lemma walk_spec runs off rows pieces target chosen :
  Forall (Z.le 0) runs -> match runs with [] => True | r :: _ => 0 <= off <= r end -> 0 <= rows -> last - rows <= zsum runs - off ->
  (forall n, rows <= n -> P n = pieces + pieces_of runs off (n - rows)) ->
  candidate value_bytes last P target chosen -> rows < target <= last -> (runs = [] -> off = 0) ->
  chunk_choice value_bytes last P (walk value_bytes last runs off rows pieces target chosen).
Proof.
  intros H. revert off rows pieces target chosen. induction H as [|run runs Hr H IH]; intros off rows pieces target chosen Hoff Hrows Hsum HP Hc Ht He.
  { specialize (He eq_refl). cbn in Hsum. lia. }
  cbn [walk]. set (seg := Z.min (run - off) (last - rows)).
  pose proof (try_targets_spec (S (Z.to_nat last)) rows seg pieces target chosen) as Hs.
  destruct (try_targets _ _ _ _ _ _ _ _) as [[[] target'] chosen'].
  - apply Hs; [|done|lia|lia]. intros n Hn. rewrite HP by lia. cbn [pieces_of]. rewrite Z.min_r by lia.
    rewrite Z.sub_diag, pieces_of_0 by done. lia.
  - destruct Hs as [Hc' Ht']; [|done|lia|lia|].
    { intros n Hn. rewrite HP by lia. cbn [pieces_of]. rewrite Z.min_r by lia. rewrite Z.sub_diag, pieces_of_0 by done. lia. }
    assert (seg = run - off) as Hseg by lia. cbn [zsum foldr] in Hsum. fold (zsum runs) in Hsum. apply IH; try done; try lia.
    + destruct runs; [done|]. inversion H; lia.
    + intros n Hn. rewrite HP by lia. cbn [pieces_of]. rewrite Z.min_l by lia. rewrite <- Hseg.
      replace (n - rows - seg) with (n - (rows + seg)) by lia. lia.
Qed.

End walk.

(** A position in the runs: [off] rows into the first of those left. *)
Definition position_ok (runs : list Z) (off : Z) : Prop :=
  Forall (Z.le 0) runs /\ match runs with [] => off = 0 | r :: _ => 0 <= off <= r end.

Lemma advance_spec runs off n :
  position_ok runs off -> 0 <= n <= zsum runs - off ->
  let '(runs', off') := advance runs off n in position_ok runs' off' /\ zsum runs' - off' = zsum runs - off - n.
Proof.
  intros [H Ho]. revert off n Ho. induction H as [|run runs Hr H IH]; intros off n Ho Hn; cbn [advance].
  { cbn in *. split; [split; [constructor | done] | lia]. }
  destruct (Z.ltb_spec 0 n); [|split; [split; [by constructor | done] | lia]].
  cbn [zsum foldr] in *. fold (zsum runs) in *. destruct (Z.eqb_spec (off + Z.min (run - off) n) run).
  - specialize (IH 0 (n - Z.min (run - off) n)). destruct (advance runs 0 _) as [runs' off'].
    destruct IH as [? ?]; [destruct runs; [done | inversion H; lia] | lia|]. split; [done | lia].
  - split; [split; [by constructor | lia]|]. cbn [zsum foldr]. fold (zsum runs). lia.
Qed.

Lemma advance_advance runs off a b :
  position_ok runs off -> 0 <= a -> 0 <= b ->
  (let '(runs', off') := advance runs off a in advance runs' off' b) = advance runs off (a + b).
Proof.
  intros [H Ho]. revert off a Ho. induction H as [|run runs Hr H IH]; intros off a Ho Ha Hb; cbn [advance]; [done|].
  destruct (Z.ltb_spec 0 a) as [Ha0|Ha0]; [|by replace (a + b) with b by lia].
  destruct (Z.ltb_spec 0 (a + b)); [|lia]. destruct (Z.eqb_spec (off + Z.min (run - off) a) run) as [E|E].
  - rewrite (Z.min_l (run - off) a), (Z.min_l (run - off) (a + b)) by lia. replace (off + (run - off)) with run by lia.
    rewrite Z.eqb_refl, IH by (first [lia | destruct runs; [done | inversion H; lia]]).
    f_equal. lia.
  - cbn [advance]. destruct (Z.ltb_spec 0 b).
    + rewrite Z.min_r by lia. replace (Z.min (run - off) (a + b)) with (a + Z.min (run - (off + a)) b) by lia. rewrite !Z.add_assoc.
      destruct (Z.eqb_spec (off + a + Z.min (run - (off + a)) b) run); [|done]. f_equal. lia.
    + replace b with 0 in * by lia. rewrite Z.add_0_r. destruct (Z.eqb_spec (off + Z.min (run - off) a) run); [done | done].
Qed.

(** The pairs of the [n] rows from row [start] on. *)
Definition pieces_at (runs : list Z) (start n : Z) : Z := let '(rest, off) := advance runs 0 start in pieces_of rest off n.

Lemma chunk_loop_spec all value_bytes max_rows fuel runs off start :
  1 <= max_rows -> position_ok all 0 -> 0 <= start -> advance all 0 start = (runs, off) -> start <= zsum all ->
  zsum all - start <= Z.of_nat fuel ->
  let out := chunk_loop fuel value_bytes max_rows runs off (zsum all - start) in
  start + zsum out = zsum all /\
  forall i c, out !! i = Some c ->
    let s := start + zsum (take i out) in
    chunk_choice value_bytes (Z.min (zsum all - s) (Z.min kChunkMaxRows max_rows)) (pieces_at all s) c.
Proof.
  intros Hmax Hall. revert runs off start. induction fuel as [|fuel IH]; intros runs off start Hs Hadv Hle Hf; cbn [chunk_loop].
  { cbn. split; [lia | done]. }
  destruct (Z.ltb_spec 0 (zsum all - start)) as [Hpos|Hend]; [|cbn; split; [lia | done]].
  pose proof (advance_spec all 0 start Hall ltac:(lia)) as Hp. rewrite Hadv in Hp. destruct Hp as [[Hruns Hoff] Hsum].
  set (last := Z.min (zsum all - start) (Z.min kChunkMaxRows max_rows)). assert (1 <= last) as Hlast by (unfold last, kChunkMaxRows; lia).
  assert (chunk_choice value_bytes last (pieces_at all start) (walk value_bytes last runs off 0 0 1 1)) as Hc.
  { apply walk_spec; try done; try lia.
    - destruct runs; [done | lia].
    - intros n Hn. unfold pieces_at. rewrite Hadv, Z.sub_0_r. lia.
    - by left.
    - by intros ->. }
  set (chosen := walk value_bytes last runs off 0 0 1 1) in *.
  assert (1 <= chosen <= last) as Hch by apply Hc. pose proof (advance_advance all 0 start chosen Hall Hs ltac:(lia)) as Hadv'. rewrite Hadv in Hadv'.
  destruct (advance runs off chosen) as [runs' off'].
  replace (zsum all - start - chosen) with (zsum all - (start + chosen)) by lia.
  destruct (IH runs' off' (start + chosen)) as [IH1 IH2]; [lia | done | lia | lia|]. cbn [zsum foldr]. split.
  - fold (zsum (chunk_loop fuel value_bytes max_rows runs' off' (zsum all - (start + chosen)))). lia.
  - intros [|i] c Hi; cbn [lookup list_lookup take] in *.
    + injection Hi as <-. cbn. rewrite Z.add_0_r. done.
    + specialize (IH2 i c Hi). cbn [zsum foldr]. cbn zeta in *. rewrite <- Z.add_assoc in IH2. exact IH2.
Qed.

(** the chunks of a run-length page cover its rows exactly; each is the whole rest when
    that fits in 8192 bytes and 4096 rows, and otherwise the largest candidate before one that does not
    fit, never empty. *)
Theorem rle_chunk_rows runs value_bytes max_rows :
  Forall (Z.le 0) runs -> zsum runs < 2 ^ 64 -> 1 <= max_rows ->
  let out := chunk_rows runs value_bytes max_rows in
  zsum out = zsum runs /\
  forall i c, out !! i = Some c ->
    let start := zsum (take i out) in
    chunk_choice value_bytes (Z.min (zsum runs - start) (Z.min kChunkMaxRows max_rows)) (pieces_at runs start) c.
Proof.
  intros H Hs Hm. pose proof (zsum_nonneg runs H) as Hn. unfold chunk_rows.
  assert (forall n, 0 <= n -> n + zsum runs < 2 ^ 64 -> foldl (fun n length => u64 (n + length)) n runs = n + zsum runs) as Hfold.
  { clear -H. induction H as [|r runs Hr H IH]; intros n Hn Ht; cbn [foldl zsum foldr] in *; [lia|]. fold (zsum runs) in *.
    pose proof (zsum_nonneg runs H). rewrite u64_small by (unfold is_u64; lia). rewrite IH by lia. lia. }
  rewrite Hfold, Z.add_0_l by lia.
  pose proof (chunk_loop_spec runs value_bytes max_rows (Z.to_nat (zsum runs)) runs 0 0 Hm) as Hc. rewrite !Z.sub_0_r in Hc.
  destruct Hc as [H1 H2]; [| lia | by destruct runs | lia | lia |].
  - split; [done|]. destruct runs; [done|]. inversion H; lia.
  - cbn zeta in *. split; [lia|]. intros i c Hi. apply H2 in Hi. rewrite Z.add_0_l in Hi. exact Hi.
Qed.

Lemma rle_chunk_rows_witness :
  zsum (chunk_rows [5000; 3; 200] 4 4096) = 5203 /\
  chunk_choice 4 1107 (pieces_at [5000; 3; 200] 4096) 1107.
Proof.
  destruct (rle_chunk_rows [5000; 3; 200] 4 4096) as [H1 H2]; [repeat constructor; done | done | done|].
  split; [exact H1|]. apply (H2 1%nat). vm_compute. reflexivity.
Defined.

(** ** Definition levels *)

(** The runs [(level, length)] of the two buffers. *)
Fixpoint runs_of (n vb lb : nat) (values lengths : list Z) : list (Z * Z) :=
  match n with
  | O => []
  | S n => (load_le vb values, load_le lb lengths) :: runs_of n vb lb (drop vb values) (drop lb lengths)
  end.

Definition expand_levels (runs : list (Z * Z)) : list Z := concat ((fun r => replicate (Z.to_nat r.2) r.1) <$> runs).

(** The block of runs of [vb]-byte levels and [lb]-byte lengths. *)
Definition encode_levels (vb lb : nat) (runs : list (Z * Z)) : list Z :=
  let values := concat (le_bytes vb <$> runs.*1) in
  le_bytes 8 (zlen values) ++ values ++ concat (le_bytes lb <$> runs.*2).

Definition level_run_ok (vb lb : nat) (r : Z * Z) : Prop := 0 <= r.1 < 2 ^ (8 * Z.of_nat vb) /\ 0 <= r.2 < 2 ^ (8 * Z.of_nat lb).

Lemma load_le_nonneg n bs : bytes_ok bs -> 0 <= load_le n bs < 2 ^ (8 * Z.of_nat n).
Proof.
  intros H. unfold load_le. assert (bytes_ok (take n bs)) as Ht by (by apply Forall_take).
  pose proof (le_value_range _ Ht) as Hr. split; [lia|]. eapply Z.lt_le_trans; [apply Hr|]. apply Z.pow_le_mono_r; [lia|].
  unfold zlen. rewrite length_take. lia.
Qed.

Lemma runs_of_ok n vb lb values lengths :
  bytes_ok values -> bytes_ok lengths -> Forall (level_run_ok vb lb) (runs_of n vb lb values lengths).
Proof.
  revert values lengths. induction n as [|n IH]; intros values lengths Hv Hl; constructor.
  - split; by apply load_le_nonneg.
  - apply IH; by apply Forall_drop.
Qed.

Lemma length_runs_of n vb lb values lengths : length (runs_of n vb lb values lengths) = n.
Proof. revert values lengths. induction n as [|n IH]; intros; cbn; [done | by rewrite IH]. Qed.

Lemma levels_loop_spec n vb lb count values lengths levels :
  bytes_ok values -> bytes_ok lengths -> zlen levels <= count ->
  let runs := runs_of n vb lb values lengths in
  if zlen levels + zlen (expand_levels runs) <=? count
  then levels_loop n (Z.of_nat vb) (Z.of_nat lb) count values lengths levels = Ok (levels ++ expand_levels runs)
  else exists e, levels_loop n (Z.of_nat vb) (Z.of_nat lb) count values lengths levels = Err e.
Proof.
  revert values lengths levels. induction n as [|n IH]; intros values lengths levels Hv Hl Hc; cbn [runs_of levels_loop].
  { cbn zeta. change (expand_levels []) with (@nil Z). change (zlen (@nil Z)) with 0. destruct (Z.leb_spec (zlen levels + 0) count); [|lia]. by rewrite app_nil_r. }
  rewrite !Nat2Z.id. pose proof (load_le_nonneg lb lengths Hl) as Hrun. pose proof (zlen_nonneg levels).
  specialize (IH (drop vb values) (drop lb lengths) (levels ++ replicate (Z.to_nat (load_le lb lengths)) (load_le vb values))
    ltac:(by apply Forall_drop) ltac:(by apply Forall_drop)).
  cbn zeta in *. set (rest := runs_of n vb lb (drop vb values) (drop lb lengths)) in *.
  assert (zlen (replicate (Z.to_nat (load_le lb lengths)) (load_le vb values)) = load_le lb lengths) as Hrep
    by (unfold zlen; rewrite length_replicate; lia).
  unfold expand_levels in *. cbn [fmap list_fmap concat fst snd] in *. fold (expand_levels rest) in *. pose proof (zlen_nonneg (expand_levels rest)).
  rewrite zlen_app, Hrep in *. rewrite app_assoc.
  destruct (Z.ltb_spec count (load_le lb lengths)), (Z.ltb_spec count (zlen levels + load_le lb lengths)); cbn [orb];
    try (destruct (Z.leb_spec (zlen levels + (load_le lb lengths + zlen (expand_levels rest))) count); [lia | by eexists]).
  rewrite Z.add_assoc. apply IH. lia.
Qed.

Lemma runs_of_encoded vb lb runs rest rest' :
  Forall (level_run_ok vb lb) runs ->
  runs_of (length runs) vb lb (concat (le_bytes vb <$> runs.*1) ++ rest) (concat (le_bytes lb <$> runs.*2) ++ rest') = runs.
Proof.
  induction 1 as [|[v l] runs [Hv Hl] H IH]; [done|]. cbn [length runs_of fmap list_fmap concat fst snd] in *. rewrite <- !app_assoc.
  rewrite !load_le_le_bytes by done. rewrite !drop_app_length' by (by rewrite length_le_bytes). by rewrite IH.
Qed.

Lemma encoded_runs_of n vb lb values lengths :
  length values = (n * vb)%nat -> length lengths = (n * lb)%nat -> bytes_ok values -> bytes_ok lengths ->
  concat (le_bytes vb <$> (runs_of n vb lb values lengths).*1) = values /\
  concat (le_bytes lb <$> (runs_of n vb lb values lengths).*2) = lengths.
Proof.
  assert (forall w bs, (w <= length bs)%nat -> bytes_ok bs -> le_bytes w (load_le w bs) ++ drop w bs = bs) as Hsplit.
  { intros w bs Hw Hb. unfold load_le. replace w with (length (take w bs)) at 1 by (rewrite length_take; lia).
    rewrite le_bytes_le_value by (by apply Forall_take). apply take_drop. }
  revert values lengths. induction n as [|n IH]; intros values lengths Hlv Hll Hv Hl.
  { destruct values, lengths; done. }
  cbn [runs_of fmap list_fmap concat fst snd]. destruct (IH (drop vb values) (drop lb lengths)) as [H1 H2];
    [rewrite length_drop; lia | rewrite length_drop; lia | by apply Forall_drop | by apply Forall_drop|].
  rewrite H1, H2. split; apply Hsplit; done || lia.
Qed.

(** A block of [n] runs whose loop gives [levels], [count] of them. *)
Definition levels_accepted (block : list Z) (vb lb : nat) (count : Z) (levels : list Z) (n : nat) : Prop :=
  length block = (8 + n * vb + n * lb)%nat /\ load_le 8 block = Z.of_nat (n * vb) /\
  levels_loop n (Z.of_nat vb) (Z.of_nat lb) count (drop 8 block) (drop (8 + n * vb) block) [] = Ok levels /\ zlen levels = count.

(** The checks of the block's sizes. *)
Lemma decode_levels_sized block vb lb count levels :
  (vb = 1 \/ vb = 2)%nat -> (lb = 1 \/ lb = 2 \/ lb = 4)%nat -> bytes_ok block ->
  decode_levels block (8 * Z.of_nat vb) (8 * Z.of_nat lb) count = Ok levels <->
  exists n : nat, levels_accepted block vb lb count levels n.
Proof.
  intros Hvb Hlb Hb. unfold decode_levels.
  assert ((negb (8 * Z.of_nat vb =? 8) && negb (8 * Z.of_nat vb =? 16) ||
    negb (8 * Z.of_nat lb =? 8) && negb (8 * Z.of_nat lb =? 16) && negb (8 * Z.of_nat lb =? 32))%bool = false) as ->
    by (destruct Hvb as [-> | ->], Hlb as [->|[-> | ->]]; reflexivity).
  rewrite !(Z.mul_comm 8), !Z.div_mul by lia. pose proof (load_le_nonneg 8 block Hb) as Hvs.
  assert (0 < Z.of_nat vb) as Hvb0 by lia. split.
  - case_bool; [done|]. intros H. cbn zeta in H. case_hyp H. case_hyp H. case_hyp H.
    set (vs := load_le 8 block) in *. set (n := Z.to_nat (vs / Z.of_nat vb)) in *.
    assert (vs = Z.of_nat (n * vb)) as Hn.
    { unfold n. rewrite Nat2Z.inj_mul, Z2Nat.id by (apply Z.div_pos; lia). pose proof (Z.div_mod vs (Z.of_nat vb)). lia. }
    destruct (levels_loop _ _ _ _ _ _ _) as [out|] eqn:El; [|done]. cbn in H. case_hyp H. injection H as <-.
    exists n. assert (vs / Z.of_nat vb = Z.of_nat n) as Hdiv by (unfold n; rewrite Z2Nat.id; [done | apply Z.div_pos; lia]).
    split_and!; [unfold zlen in *; nia | done | | done].
    rewrite drop_drop in El. rewrite <- El. f_equal. f_equal. lia.
  - intros (n & Hl & Hv & Hloop & Hc). unfold fits_size_t, U64_MAX.
    destruct (Z.ltb_spec (zlen block) 8); [unfold zlen in *; lia|]. rewrite Hv in *.
    destruct (Z.leb_spec (Z.of_nat (n * vb)) (2 ^ 64 - 1)); [|lia].
    destruct (Z.ltb_spec (zlen block - 8) (Z.of_nat (n * vb))); [unfold zlen in *; lia|]. cbn [negb orb].
    rewrite Nat2Z.inj_mul, Z.mod_mul, Z.div_mul by lia. rewrite Z.eqb_refl. cbn [negb].
    destruct (Z.eqb_spec (zlen block - 8 - Z.of_nat n * Z.of_nat vb) (Z.of_nat n * Z.of_nat lb)); [|unfold zlen in *; nia]. cbn [negb].
    rewrite Nat2Z.id, <- Nat2Z.inj_mul, Nat2Z.id, drop_drop, Hloop. cbn. rewrite Hc, Z.eqb_refl. done.
Qed.

Lemma levels_sound block vb lb count levels n :
  bytes_ok block -> 0 <= count -> levels_accepted block vb lb count levels n ->
  exists runs, Forall (level_run_ok vb lb) runs /\ zlen (concat (le_bytes vb <$> runs.*1)) < 2 ^ 64 /\
    block = encode_levels vb lb runs /\ levels = expand_levels runs /\ zlen levels = count.
Proof.
  intros Hb Hc. assert (zlen (@nil Z) = 0) as H0 by done.
  intros (Hl & Hv & Hloop & Hz). set (values := take (n * vb) (drop 8 block)). set (lengths := drop (8 + n * vb) block).
  assert (block = take 8 block ++ values ++ lengths) as Hsplit.
  { unfold values, lengths. rewrite <- drop_drop, take_drop, take_drop. done. }
  assert (bytes_ok values /\ bytes_ok lengths) as [Hbv Hbl] by (split; [by apply Forall_take, Forall_drop | by apply Forall_drop]).
  destruct (encoded_runs_of n vb lb values lengths) as [E1 E2]; [|unfold lengths; rewrite length_drop; lia|done|done|].
  { unfold values. rewrite length_take, length_drop. lia. }
  assert (drop 8 block = values ++ lengths) as Hd by (unfold values, lengths; by rewrite <- drop_drop, take_drop).
  assert (runs_of n vb lb (drop 8 block) lengths = runs_of n vb lb values lengths) as Hruns.
  { pose proof (runs_of_encoded vb lb (runs_of n vb lb values lengths) lengths []) as Hr.
    rewrite length_runs_of, E1, E2, app_nil_r in Hr. rewrite Hd. apply Hr, runs_of_ok; done. }
  pose proof (levels_loop_spec n vb lb count (drop 8 block) lengths [] ltac:(by apply Forall_drop) Hbl ltac:(lia)) as Hs.
  cbn zeta in Hs. rewrite H0, Z.add_0_l, Hruns in Hs. fold lengths in Hloop. rewrite Hloop in Hs.
  destruct (_ <=? _); [|by destruct Hs]. injection Hs as ->. exists (runs_of n vb lb values lengths).
  split_and!; [by apply runs_of_ok | | | done | done].
  + unfold zlen. rewrite E1. unfold values. rewrite length_take. pose proof (load_le_nonneg 8 block Hb). lia.
  + unfold encode_levels. rewrite E1, E2. rewrite Hsplit at 1. f_equal.
    replace (zlen values) with (load_le 8 block) by (rewrite Hv; unfold zlen, values; rewrite length_take, length_drop; lia).
    unfold load_le. replace 8%nat with (length (take 8 block)) at 2 by (rewrite length_take; lia).
    symmetry. apply le_bytes_le_value. by apply Forall_take.
Qed.

Lemma levels_complete vb lb runs :
  Forall (level_run_ok vb lb) runs -> zlen (concat (le_bytes vb <$> runs.*1)) < 2 ^ 64 -> bytes_ok (encode_levels vb lb runs) ->
  levels_accepted (encode_levels vb lb runs) vb lb (zlen (expand_levels runs)) (expand_levels runs) (length runs).
Proof.
  assert (forall w ls, length (concat (le_bytes w <$> ls)) = (length ls * w)%nat) as Hlen.
  { intros w ls. induction ls as [|x ls IH]; [done|]. cbn. rewrite length_app, length_le_bytes, IH. lia. }
  assert (zlen (@nil Z) = 0) as H0 by done.
  intros Hr Hsz Hb. unfold levels_accepted, encode_levels in *. set (values := concat (le_bytes vb <$> runs.*1)) in *.
  set (lengths := concat (le_bytes lb <$> runs.*2)) in *.
  assert (length values = (length runs * vb)%nat /\ length lengths = (length runs * lb)%nat) as [Hlv Hll]
    by (unfold values, lengths; rewrite !Hlen, !length_fmap; done).
  rewrite !length_app, length_le_bytes, load_le_le_bytes by (change (8 * Z.of_nat 8) with 64; pose proof (zlen_nonneg values); lia).
  assert (drop 8 (le_bytes 8 (zlen values) ++ values ++ lengths) = values ++ lengths) as Hd by (apply drop_app_length'; by rewrite length_le_bytes).
  split_and!; [lia | unfold zlen; lia | | done]. rewrite <- drop_drop, Hd, drop_app_length' by lia.
  apply bytes_ok_app in Hb as [_ Hb]. pose proof Hb as Hb'. apply bytes_ok_app in Hb as [Hbv Hbl].
  pose proof (levels_loop_spec (length runs) vb lb (zlen (expand_levels runs)) (values ++ lengths) lengths [] Hb' Hbl ltac:(rewrite H0; apply zlen_nonneg)) as Hs. cbn zeta in Hs.
  assert (runs_of (length runs) vb lb (values ++ lengths) lengths = runs) as Hruns.
  { unfold values at 1. rewrite <- (app_nil_r lengths) at 2. apply runs_of_encoded. done. }
  rewrite Hruns, H0, Z.add_0_l in Hs. destruct (Z.leb_spec (zlen (expand_levels runs)) (zlen (expand_levels runs))); [done | lia].
Qed.

(** a block of run-length levels is accepted exactly when it is the encoding of runs that
    cover the chunk, and then it gives the levels of those runs. *)
Theorem rle_levels_exact block vb lb count levels :
  (vb = 1 \/ vb = 2)%nat -> (lb = 1 \/ lb = 2 \/ lb = 4)%nat -> bytes_ok block -> 0 <= count ->
  decode_levels block (8 * Z.of_nat vb) (8 * Z.of_nat lb) count = Ok levels <->
  exists runs, Forall (level_run_ok vb lb) runs /\ zlen (concat (le_bytes vb <$> runs.*1)) < 2 ^ 64 /\
    block = encode_levels vb lb runs /\ levels = expand_levels runs /\ zlen levels = count.
Proof.
  intros Hvb Hlb Hb Hc. rewrite decode_levels_sized by done. split.
  - intros [n Hn]. by eapply levels_sound.
  - intros (runs & Hr & Hsz & -> & -> & <-). exists (length runs). by apply levels_complete.
Qed.

Lemma rle_levels_exact_witness :
  decode_levels (encode_levels 1 1 [(1, 3); (0, 2)]) 8 8 5 = Ok [1; 1; 1; 0; 0].
Proof.
  apply (rle_levels_exact (encode_levels 1 1 [(1, 3); (0, 2)]) 1 1 5 [1; 1; 1; 0; 0]); [by left | by left | | lia |].
  - apply (bool_decide_unpack (Forall (fun z => 0 <= z < 2 ^ 8) _)). vm_compute. exact I.
  - exists [(1, 3); (0, 2)]. split; [repeat constructor; done|]. split; [vm_compute; reflexivity|]. done.
Defined.

End Rle.
