(* ===== verification/IndexMaintenance.v ===== *)
(** * IndexMaintenance: keeping indices across commits (src/table/index_maintenance.cpp)

    An index claims fields and fragments; these are the rules that keep the claim honest when a commit
    drops fields or fragments, and the one that keeps a new fragment from taking a claimed id. *)

From S2P Require Import Prelude Pb.

Module IndexMaintenance.

Definition kFragReuseIndex : string := "__lance_frag_reuse".
Definition kMemWalIndex : string := "__lance_mem_wal".

Definition is_system_index (index : pb.IndexMetadata) : bool :=
  bool_decide (pb.ix_name index = kFragReuseIndex) || bool_decide (pb.ix_name index = kMemWalIndex).

(** Not removed by the first [remove_if]: a system index, or one whose fields the schema all has. *)
Definition relevant (field_ids : gset Z) (index : pb.IndexMetadata) : bool :=
  is_system_index index || forallb (fun id => bool_decide (id ∈ field_ids)) (pb.ix_fields index).

Definition covers_nothing (existing : gset Z) (index : pb.IndexMetadata) : bool :=
  forallb (fun id => negb (bool_decide (id ∈ existing))) (pb.ix_fragment_ids index).

(** Unknown coverage is not empty coverage, and the fragment reuse index is kept. *)
Definition always_kept (index : pb.IndexMetadata) : bool :=
  bool_decide (pb.ix_name index = kFragReuseIndex) || negb (pb.ix_has_fragment_bitmap index).

(** The loop that fills [keep] (the positions whose flag is set) and [by_name]. *)
Definition segment_step (s : gset nat * gmap string (list nat)) (p : nat * pb.IndexMetadata)
    : gset nat * gmap string (list nat) :=
  let '(keep, by_name) := s in
  let '(i, index) := p in
  if always_kept index then ({[i]} ∪ keep, by_name)
  else (keep, <[pb.ix_name index := default [] (by_name !! pb.ix_name index) ++ [i]]> by_name).

(** [std::min_element] by [dataset_version]: the first of the smallest. *)
Definition dataset_version_at (indices : list pb.IndexMetadata) (i : nat) : Z :=
  default 0 (pb.ix_dataset_version <$> indices !! i).

Definition oldest (indices : list pb.IndexMetadata) (first : nat) (rest : list nat) : nat :=
  foldl (fun best i => if dataset_version_at indices i <? dataset_version_at indices best then i else best) first rest.

Definition covers_nothing_at (indices : list pb.IndexMetadata) (existing : gset Z) (i : nat) : bool :=
  match indices !! i with Some index => covers_nothing existing index | None => true end.

(** The segments of one name that stay: a single one, those that cover a fragment that exists, else the
    oldest. *)
Definition kept_segments (indices : list pb.IndexMetadata) (existing : gset Z) (segments : list nat) : list nat :=
  match segments with
  | [] => []
  | [i] => [i]
  | i :: rest =>
      match filter (fun i => covers_nothing_at indices existing i = false) segments with
      | [] => [oldest indices i rest]
      | live => live
      end
  end.

Definition keep_positions (indices : list pb.IndexMetadata) (existing : gset Z) : gset nat :=
  let '(keep, by_name) := foldl segment_step (∅, ∅) (imap pair indices) in
  foldl (fun keep p => list_to_set (kept_segments indices existing p.2) ∪ keep) keep (map_to_list by_name).

Definition retain_relevant_indices (indices : list pb.IndexMetadata) (fields : list pb.Field)
    (fragments : list pb.DataFragment) : list pb.IndexMetadata :=
  let field_ids : gset Z := list_to_set (pb.fld_id <$> fields) in
  let indices := filter (fun index => relevant field_ids index = true) indices in
  let existing : gset Z := list_to_set ((fun f => u32 (pb.fr_id f)) <$> fragments) in
  let keep := keep_positions indices existing in
  (filter (fun p : nat * pb.IndexMetadata => p.1 ∈ keep) (imap pair indices)).*2.

(** Assigning an index's coverage: [fragment_ids] and [fragment_bitmap_changed]. *)
Definition set_coverage (index : pb.IndexMetadata) (ids : list Z) (changed : bool) : pb.IndexMetadata :=
  pb.mkIndexMetadata (pb.ix_raw index) (pb.ix_fields index) (pb.ix_name index) (pb.ix_dataset_version index)
    (pb.ix_has_fragment_bitmap index) ids changed (pb.ix_uuid index) (pb.ix_details_type_url index)
    (pb.ix_details_value index) (pb.ix_index_version index) (pb.ix_created_at index) (pb.ix_files index).

(** Removing from an index's coverage the ids that satisfy [gone]; the flag is raised when one was there. *)
Definition remove_coverage (gone : Z -> bool) (index : pb.IndexMetadata) : pb.IndexMetadata :=
  let ids := filter (fun id => gone id = false) (pb.ix_fragment_ids index) in
  set_coverage index ids
    (pb.ix_fragment_bitmap_changed index || negb (bool_decide (length ids = length (pb.ix_fragment_ids index)))).

Definition drop_fragments_from_indices (indices : list pb.IndexMetadata) (fragment_ids : list Z) : list pb.IndexMetadata :=
  let gone : gset Z := list_to_set fragment_ids in
  (fun index => if pb.ix_has_fragment_bitmap index then remove_coverage (fun id => bool_decide (id ∈ gone)) index else index)
  <$> indices.

Definition first_fragment_id_after_indices (indices : list pb.IndexMetadata) : Z :=
  foldl (fun next index => match last (pb.ix_fragment_ids index) with Some id => Z.max next (id + 1) | None => next end) 0 indices.

(** ** What is retained *)

Lemma forallb_elem_of (ids : gset Z) (l : list Z) :
  forallb (fun id => bool_decide (id ∈ ids)) l = true <-> Forall (fun id => id ∈ ids) l.
Proof. induction l as [|x l IH]; cbn [forallb]; [done|]. by rewrite andb_true_iff, bool_decide_eq_true, IH, Forall_cons. Qed.

Lemma covers_nothing_false existing index :
  covers_nothing existing index = false <-> exists id, id ∈ pb.ix_fragment_ids index /\ id ∈ existing.
Proof.
  unfold covers_nothing. induction (pb.ix_fragment_ids index) as [|id ids IH]; cbn [forallb].
  - split; [done | intros (? & H & _); by apply elem_of_nil in H].
  - rewrite andb_false_iff, negb_false_iff, bool_decide_eq_true, IH. setoid_rewrite elem_of_cons. naive_solver.
Qed.

(** The loop over the indices: positions kept outright, and those of each name. *)
Lemma segment_loop indices keep by_name :
  foldl segment_step (∅, ∅) (imap pair indices) = (keep, by_name) ->
  (forall i, i ∈ keep <-> exists x, indices !! i = Some x /\ always_kept x = true) /\
  (forall n i, i ∈ default [] (by_name !! n) <-> exists x, indices !! i = Some x /\ always_kept x = false /\ pb.ix_name x = n).
Proof.
  revert keep by_name. induction indices as [|x l IH] using rev_ind; intros keep by_name.
  - cbn. intros [= <- <-]. split; [set_solver by (rewrite lookup_nil; naive_solver)|].
    intros n i. rewrite lookup_empty. cbn. setoid_rewrite lookup_nil. split; [by intros ?%elem_of_nil | naive_solver].
  - rewrite imap_app, foldl_app. cbn [imap foldl]. destruct (foldl segment_step (∅, ∅) (imap pair l)) as [keep' by_name'] eqn:E.
    destruct (IH _ _ eq_refl) as [IHk IHn]. unfold compose, segment_step. rewrite Nat.add_0_r.
    assert (forall Q i,
      (exists y, (l ++ [x]) !! i = Some y /\ Q y) <-> (exists y, l !! i = Some y /\ Q y) \/ i = length l /\ Q x) as HP.
    { intros Q i. setoid_rewrite lookup_app. split.
      - intros (y & Hy & HQ). destruct (l !! i) eqn:Ei; [left; naive_solver|]. apply list_lookup_singleton_Some in Hy as [? ->].
        apply lookup_ge_None in Ei. right. split; [lia | done].
      - intros [(y & Hy & HQ) | [-> HQ]]; [exists y; by rewrite Hy|]. rewrite lookup_ge_None_2 by lia. exists x.
        by rewrite Nat.sub_diag. }
    destruct (always_kept x) eqn:Ex; intros [= <- <-]; (split; [intros i; rewrite (HP (fun y => always_kept y = true) i) | intros n i; rewrite (HP (fun y => always_kept y = false /\ pb.ix_name y = n) i)]).
    + rewrite elem_of_union, IHk, elem_of_singleton. tauto.
    + rewrite IHn. intuition congruence.
    + rewrite IHk. intuition congruence.
    + destruct (decide (n = pb.ix_name x)) as [->|Hn].
      * rewrite lookup_insert_eq. cbn. rewrite elem_of_app, IHn, list_elem_of_singleton. tauto.
      * rewrite lookup_insert_ne by done. rewrite IHn. intuition congruence.
Qed.

Lemma oldest_elem indices i rest : oldest indices i rest ∈ i :: rest.
Proof.
  unfold oldest. revert i. induction rest as [|j rest IH]; intros i; cbn [foldl]; [set_solver|].
  case_bool; [specialize (IH j) | specialize (IH i)]; set_solver.
Qed.

Lemma kept_segments_subset indices existing segments i : i ∈ kept_segments indices existing segments -> i ∈ segments.
Proof.
  unfold kept_segments. destruct segments as [|j [|k rest]]; [done | done |].
  destruct (filter _ _) as [|f fs] eqn:E.
  - intros ->%list_elem_of_singleton. apply oldest_elem.
  - rewrite <- E. by intros [_ ?]%list_elem_of_filter.
Qed.

Lemma kept_segments_live indices existing segments i :
  i ∈ segments -> covers_nothing_at indices existing i = false -> i ∈ kept_segments indices existing segments.
Proof.
  intros Hi Hc. unfold kept_segments. destruct segments as [|j [|k rest]]; [done | done |].
  assert (i ∈ filter (fun i => covers_nothing_at indices existing i = false) (j :: k :: rest)) as Hf by by apply list_elem_of_filter.
  destruct (filter _ _); [by apply elem_of_nil in Hf | done].
Qed.

Lemma kept_segments_nonempty indices existing segments i :
  i ∈ segments -> exists j, j ∈ kept_segments indices existing segments.
Proof.
  intros Hi. unfold kept_segments. destruct segments as [|j [|k rest]]; [by apply elem_of_nil in Hi | exists j; set_solver |].
  destruct (filter _ _) as [|f fs]; eexists; by apply list_elem_of_here.
Qed.

(** The positions kept: those kept outright, and the kept segments of each name. *)
Lemma keep_positions_spec indices existing :
  exists by_name : gmap string (list nat),
    (forall n i, i ∈ default [] (by_name !! n) <-> exists x, indices !! i = Some x /\ always_kept x = false /\ pb.ix_name x = n) /\
    (forall i, i ∈ keep_positions indices existing <->
      (exists x, indices !! i = Some x /\ always_kept x = true) \/
      (exists n, i ∈ kept_segments indices existing (default [] (by_name !! n)))).
Proof.
  unfold keep_positions. destruct (foldl segment_step _ _) as [keep by_name] eqn:E. apply segment_loop in E as [Hk Hn].
  exists by_name. split; [done|]. intros i.
  assert (forall l (k0 : gset nat), i ∈ foldl (fun keep p => list_to_set (kept_segments indices existing p.2) ∪ keep) k0 l <->
    i ∈ k0 \/ exists p : string * list nat, p ∈ l /\ i ∈ kept_segments indices existing p.2) as Hfold.
  { induction l as [|p l IH]; intros k0; cbn [foldl]; [set_solver|]. rewrite IH. set_solver. }
  rewrite Hfold, Hk. f_equiv. split.
  - intros ([n segs] & Hp%elem_of_map_to_list & Hi). exists n. by rewrite Hp.
  - intros (n & Hi). destruct (by_name !! n) as [segs|] eqn:Eb; [|by apply elem_of_nil in Hi].
    exists (n, segs). split; [by apply elem_of_map_to_list | done].
Qed.

Lemma keep_positions_live indices existing i x :
  indices !! i = Some x -> pb.ix_has_fragment_bitmap x = false \/ covers_nothing existing x = false ->
  i ∈ keep_positions indices existing.
Proof.
  intros Hx Hc. destruct (keep_positions_spec indices existing) as (by_name & Hn & Hkeep). rewrite Hkeep.
  destruct (always_kept x) eqn:Ea; [left; by exists x|]. right. exists (pb.ix_name x). apply kept_segments_live; [apply Hn; by exists x|].
  unfold covers_nothing_at. rewrite Hx. destruct Hc as [Hc|Hc]; [|done]. unfold always_kept in Ea. rewrite Hc, orb_true_r in Ea. done.
Qed.

Lemma keep_positions_name indices existing i x :
  indices !! i = Some x -> exists j y, j ∈ keep_positions indices existing /\ indices !! j = Some y /\ pb.ix_name y = pb.ix_name x.
Proof.
  intros Hx. destruct (keep_positions_spec indices existing) as (by_name & Hn & Hkeep). setoid_rewrite Hkeep.
  destruct (always_kept x) eqn:Ea; [exists i, x; split; [left; by exists x | done]|].
  destruct (kept_segments_nonempty indices existing (default [] (by_name !! pb.ix_name x)) i) as [j Hj]; [apply Hn; by exists x|].
  destruct (proj1 (Hn _ _) (kept_segments_subset _ _ _ _ Hj)) as (y & Hy & _ & Hname). exists j, y. eauto.
Qed.

(** Position [i] of a filtered enumeration. *)
Lemma kept_index_elem {A} (keep : gset nat) (l : list A) x :
  x ∈ (filter (fun p : nat * A => p.1 ∈ keep) (imap pair l)).*2 <-> exists i, i ∈ keep /\ l !! i = Some x.
Proof.
  rewrite list_elem_of_fmap. split.
  - intros ([i y] & -> & [Hk (j & z & [= -> ->] & Hz)%elem_of_lookup_imap]%list_elem_of_filter). eauto.
  - intros (i & Hk & Hx). exists (i, x). split; [done|]. apply list_elem_of_filter. split; [done|]. apply elem_of_lookup_imap. eauto.
Qed.

Lemma kept_sublist {A} (keep : gset nat) (l : list A) : (filter (fun p : nat * A => p.1 ∈ keep) (imap pair l)).*2 `sublist_of` l.
Proof.
  assert ((imap pair l).*2 = l) as E by (rewrite fmap_imap; apply list_eq; intros i; rewrite list_lookup_imap; by destruct (l !! i)).
  rewrite <- E at 2. apply fmap_sublist, sublist_filter.
Qed.

(** retaining the relevant indices keeps, in order, indices it was given: a system index or one
    whose fields the schema has; never loses one of those that covers a fragment still there or whose
    coverage is unknown; and leaves at least one segment of every such index's name. *)
Theorem retain_relevant_indices_spec indices fields fragments :
  let kept := retain_relevant_indices indices fields fragments in
  let ids : gset Z := list_to_set (pb.fld_id <$> fields) in
  let ok index := is_system_index index = true \/ Forall (fun id => id ∈ pb.fld_id <$> fields) (pb.ix_fields index) in
  kept `sublist_of` indices /\
  Forall ok kept /\
  (forall index, index ∈ indices -> ok index ->
     (pb.ix_has_fragment_bitmap index = false \/ exists f, f ∈ fragments /\ u32 (pb.fr_id f) ∈ pb.ix_fragment_ids index) ->
     index ∈ kept) /\
  (forall index, index ∈ indices -> ok index -> exists index', index' ∈ kept /\ pb.ix_name index' = pb.ix_name index).
Proof.
  intros kept ids ok. unfold kept, retain_relevant_indices. set (l := filter _ indices).
  set (existing := list_to_set _ : gset Z). set (keep := keep_positions l existing).
  assert (forall index, relevant ids index = true <-> ok index) as Hok.
  { intros index. unfold relevant, ok, ids. rewrite orb_true_iff, forallb_elem_of. by setoid_rewrite elem_of_list_to_set. }
  assert (forall index, index ∈ indices -> ok index -> exists i, l !! i = Some index) as Hl.
  { intros index Hi Ho. apply list_elem_of_lookup, list_elem_of_filter. split; [by apply Hok | done]. }
  split; [|split; [|split]].
  - etrans; [apply kept_sublist | apply sublist_filter].
  - apply Forall_forall. intros x (i & _ & Hx)%kept_index_elem. apply Hok.
    by apply list_elem_of_lookup_2, list_elem_of_filter in Hx as [? _].
  - intros index Hi Ho Hc. destruct (Hl _ Hi Ho) as [i Hx]. apply kept_index_elem. exists i. split; [|done].
    apply (keep_positions_live _ _ _ _ Hx). destruct Hc as [|(f & Hf & Hid)]; [by left|]. right. apply covers_nothing_false.
    exists (u32 (pb.fr_id f)). split; [done|]. apply elem_of_list_to_set, list_elem_of_fmap. eauto.
  - intros index Hi Ho. destruct (Hl _ Hi Ho) as [i Hx]. destruct (keep_positions_name _ existing _ _ Hx) as (j & y & Hj & Hy & Hn).
    exists y. split; [|done]. apply kept_index_elem. eauto.
Qed.

(** ** Coverage *)

(** A filter that drops nothing is the list. *)
Lemma list_filter_all_length {A} (P : A -> Prop) `{!forall x, Decision (P x)} (l : list A) :
  (length l <= length (filter P l))%nat -> filter P l = l.
Proof.
  intros Hl. induction l as [|x l IH]; [done|]. rewrite filter_cons in *. pose proof (length_filter P l). case_decide; cbn in Hl; [|lia].
  f_equal. apply IH. lia.
Qed.

(** Removing fragments from the coverage. *)
Lemma remove_coverage_elem gone index id :
  id ∈ pb.ix_fragment_ids (remove_coverage gone index) <-> id ∈ pb.ix_fragment_ids index /\ gone id = false.
Proof. unfold remove_coverage, set_coverage. cbn. rewrite list_elem_of_filter. tauto. Qed.

Lemma remove_coverage_unchanged gone index :
  pb.ix_fragment_bitmap_changed (remove_coverage gone index) = false ->
  remove_coverage gone index = index.
Proof.
  unfold remove_coverage. cbn. rewrite orb_false_iff, negb_false_iff, bool_decide_eq_true. intros [Hc Hl].
  assert (filter (fun id => gone id = false) (pb.ix_fragment_ids index) = pb.ix_fragment_ids index) as ->.
  { apply list_filter_all_length. lia. }
  rewrite bool_decide_eq_true_2 by done. cbn. rewrite orb_false_r. by destruct index.
Qed.

Lemma remove_coverage_ascending gone index :
  ascending (pb.ix_fragment_ids index) -> ascending (pb.ix_fragment_ids (remove_coverage gone index)).
Proof. apply ascending_filter. Qed.

(** No index covers an id from [first_fragment_id_after_indices] on. *)
Lemma first_fragment_id_after_indices_fresh indices index id :
  Forall (fun index => ascending (pb.ix_fragment_ids index)) indices ->
  index ∈ indices -> id ∈ pb.ix_fragment_ids index -> id < first_fragment_id_after_indices indices.
Proof.
  intros Hs Hi Hid. unfold first_fragment_id_after_indices.
  set (step := fun _ _ => _).
  assert (forall l n, n <= foldl step n l) as Hmono.
  { induction l as [|x l IH]; intros n; cbn [foldl]; [lia|]. etrans; [|apply IH]. unfold step. destruct (last _); lia. }
  generalize 0. induction Hs as [|x l Hx Hs IH]; [by apply elem_of_nil in Hi|]. intros n. cbn [foldl].
  apply elem_of_cons in Hi as [->|Hi]; [|by apply IH].
  apply Z.lt_le_trans with (step n x); [|apply Hmono]. unfold step.
  destruct (last (pb.ix_fragment_ids x)) as [m|] eqn:E; [|by apply last_None in E; rewrite E in Hid; apply elem_of_nil in Hid].
  apply last_Some in E as [l' E]. rewrite E in Hx, Hid. apply ascending_app in Hx as (_ & _ & Hx).
  apply elem_of_app in Hid as [Hid | ->%list_elem_of_singleton]; [|lia].
  enough (id < m) by lia. apply Hx; [done | set_solver].
Qed.

Lemma first_fragment_id_range indices :
  Forall (fun index => ascending (pb.ix_fragment_ids index) /\ Forall is_u32 (pb.ix_fragment_ids index)) indices ->
  0 <= first_fragment_id_after_indices indices <= 2 ^ 32.
Proof.
  intros H. unfold first_fragment_id_after_indices. set (step := fun _ _ => _).
  assert (forall n, 0 <= n <= 2 ^ 32 -> 0 <= foldl step n indices <= 2 ^ 32) as Hn; [|apply Hn; lia].
  induction H as [|x l [_ Hx] Hl IH]; intros n Hn; [done|]. cbn [foldl]. apply IH. unfold step.
  destruct (last (pb.ix_fragment_ids x)) as [id|] eqn:E; [|done]. rewrite Forall_forall in Hx.
  specialize (Hx id (last_Some_elem_of _ _ E)). unfold is_u32 in Hx. lia.
Qed.

End IndexMaintenance.
