(* ===== verification/Overlays.v ===== *)
(** * Overlays: data overlay files of a fragment (src/table/overlays.cpp)

    An overlay supplies new values for some cells of a fragment; the messages live in the fragment's
    unknown fields (field 11), each stamped with the version that committed it. Decoding the nested data
    file is nanom's and a parameter. *)

From S2P Require Import Prelude ProtoWire Roaring Pb.

Module Overlays.

Definition kOverlaysField : Z := 11.
Definition kDataFileField : Z := 1.
Definition kSharedBitmapField : Z := 2.
Definition kCommittedVersionField : Z := 3.
Definition kFieldCoverageField : Z := 4.
Definition kOffsetBitmapsField : Z := 1.
Definition kFlagDataOverlays : Z := 64.

Record DataOverlay := mkDataOverlay {
  ov_data_file : pb.DataFile;
  ov_shared : bool;
  ov_shared_offsets : list Z;
  ov_field_offsets : list (list Z);
  ov_committed_version : Z
}.

(** A default-constructed overlay. *)
Definition DataOverlay0 : DataOverlay := mkDataOverlay (pb.mkDataFile "" [] [] 0 0 0 []) true [] [] 0.

Definition offsets_for (o : DataOverlay) (index : nat) : list Z :=
  if ov_shared o || bool_decide (length (ov_field_offsets o) <= index)%nat then ov_shared_offsets o
  else default [] (ov_field_offsets o !! index).

Definition set_committed_version (v : Z) (o : DataOverlay) : DataOverlay :=
  mkDataOverlay (ov_data_file o) (ov_shared o) (ov_shared_offsets o) (ov_field_offsets o) v.

Section decoding.
  Context (decode_data_file : list Z -> option pb.DataFile).

(** The field coverage message: one offset set per field. *)
Definition coverage_field (out : list (list Z)) (g : Field) : res (list (list Z)) :=
  if (number g =? kOffsetBitmapsField) && (wire g =? 2)
  then offsets ← Roaring.decode (field_bytes g); Ok (out ++ [offsets]) else Ok out.

Definition decode_coverage (bytes : list Z) : res (list (list Z)) :=
  let '(gs, ok) := fields bytes in
  out ← fold_res coverage_field gs [];
  if ok : bool then Ok out else Err "malformed data overlay field coverage".

(** The body of [decode_overlay]'s loop: [out] and [has_file]. *)
Definition overlay_field (s : DataOverlay * bool) (f : Field) : res (DataOverlay * bool) :=
  let '(out, has_file) := s in
  if (number f =? kDataFileField) && (wire f =? 2) then
    match decode_data_file (field_bytes f) with
    | None => Err "malformed data overlay: its data file"
    | Some file => Ok (mkDataOverlay file (ov_shared out) (ov_shared_offsets out) (ov_field_offsets out) (ov_committed_version out), true)
    end
  else if (number f =? kSharedBitmapField) && (wire f =? 2) then
    offsets ← Roaring.decode (field_bytes f);
    Ok (mkDataOverlay (ov_data_file out) true offsets (ov_field_offsets out) (ov_committed_version out), has_file)
  else if (number f =? kCommittedVersionField) && (wire f =? 0) then Ok (set_committed_version (value f) out, has_file)
  else if (number f =? kFieldCoverageField) && (wire f =? 2) then
    offsets ← decode_coverage (field_bytes f);
    Ok (mkDataOverlay (ov_data_file out) false (ov_shared_offsets out) offsets (ov_committed_version out), has_file)
  else Ok (out, has_file).

Definition decode_overlay (bytes : list Z) : res DataOverlay :=
  let '(fs, ok) := fields bytes in
  s ← fold_res overlay_field fs (DataOverlay0, false);
  if negb ok || negb s.2 then Err "malformed data overlay" else Ok s.1.

Definition fragment_overlay_field (out : list DataOverlay) (f : Field) : res (list DataOverlay) :=
  if (number f =? kOverlaysField) && (wire f =? 2) then o ← decode_overlay (field_bytes f); Ok (out ++ [o]) else Ok out.

Definition read_fragment_overlays (fragment : pb.DataFragment) : res (list DataOverlay) :=
  let '(fs, ok) := fields (pb.fr_unknown fragment) in
  out ← fold_res fragment_overlay_field fs [];
  if ok : bool then Ok out else Err "malformed fragment metadata".

Definition fragment_has_overlays (fragment : pb.DataFragment) : bool :=
  existsb (fun f => number f =? kOverlaysField) (fields (pb.fr_unknown fragment)).1.

(** The fields of the overlays committed after [version]. *)
Definition overlaid_fields (version : Z) (overlays : list DataOverlay) : gset Z :=
  foldl (fun fields_ o => if version <? ov_committed_version o then list_to_set (pb.df_fields (ov_data_file o)) ∪ fields_ else fields_)
    ∅ overlays.

Definition fragment_overlaid_fields_after (fragment : pb.DataFragment) (version : Z) : res (gset Z) :=
  if negb (fragment_has_overlays fragment) then Ok ∅
  else overlays ← read_fragment_overlays fragment; Ok (overlaid_fields version overlays).

Definition stale_step (fields_ : list Z) (index_version : Z) (out : gset Z) (fragment : pb.DataFragment) : gset Z :=
  if negb (fragment_has_overlays fragment) then out
  else
    match fragment_overlaid_fields_after fragment index_version with
    | Err _ => {[u32 (pb.fr_id fragment)]} ∪ out
    | Ok touched =>
        if existsb (fun f => bool_decide (f ∈ touched)) fields_ then {[u32 (pb.fr_id fragment)]} ∪ out else out
    end.

Definition fragments_stale_for_index (manifest : pb.Manifest) (fields_ : list Z) (index_version : Z) : gset Z :=
  foldl (stale_step fields_ index_version) ∅ (pb.mf_fragments manifest).

(** The message as given, its [committed_version] replaced by the commit's. *)
Definition stamped (message : list Z) (committed_version : Z) : list Z :=
  without_fields message [kCommittedVersionField] ++ put_u64_field kCommittedVersionField committed_version.

Definition append_overlay (committed_version : Z) (fragment : pb.DataFragment) (message : list Z) : res pb.DataFragment :=
  overlay ← decode_overlay message;
  if negb (ov_shared overlay) && negb (bool_decide (length (ov_field_offsets overlay) = length (pb.df_fields (ov_data_file overlay))))
  then Err ("Invalid user input: a sparse data overlay needs one offset set per field (" +:+
            pretty (length (pb.df_fields (ov_data_file overlay))) +:+ " fields, " +:+
            pretty (length (ov_field_offsets overlay)) +:+ " offset sets)")
  else Ok (pb.set_unknown fragment (pb.fr_unknown fragment ++ put_bytes_field kOverlaysField (stamped message committed_version))).

(** [overlays] before an error stay appended in the C++ fragment, which the caller then discards. *)
Definition append_fragment_overlays (fragment : pb.DataFragment) (overlays : list (list Z)) (committed_version : Z)
    : res pb.DataFragment :=
  fold_res (append_overlay committed_version) overlays fragment.

(** ** Stamping *)

Definition strip (s : DataOverlay * bool) : DataOverlay * bool := (set_committed_version 0 s.1, s.2).

(** The loop over the fields without the committed version: everything else is decoded alike. *)
Lemma overlay_field_strip s f :
  (if decide (number f ∉ [kCommittedVersionField]) then overlay_field (strip s) f else Ok (strip s)) = strip <$> overlay_field s f.
Proof.
  destruct s as [o hf]. unfold overlay_field, strip. cbn [fst snd]. case_decide as Hd.
  - assert (number f <> kCommittedVersionField) as Hn by set_solver. apply Z.eqb_neq in Hn. rewrite Hn. cbn [andb].
    repeat case_bool; try done.
    + by destruct (decode_data_file _).
    + by destruct (Roaring.decode _).
    + by destruct (decode_coverage _).
  - assert (number f = kCommittedVersionField) as -> by (destruct (decide (number f = kCommittedVersionField)); set_solver).
    cbn. by case_bool.
Qed.

Lemma overlay_fields_strip fs s :
  fold_res overlay_field (filter (fun f => number f ∉ [kCommittedVersionField]) fs) (strip s) =
  strip <$> fold_res overlay_field fs s.
Proof.
  revert s. induction fs as [|f fs IH]; intros s; [done|]. rewrite filter_cons. pose proof (overlay_field_strip s f) as Hf.
  cbn [fold_res]. case_decide; cbn [fold_res].
  - rewrite Hf. destruct (overlay_field s f) as [s'|e]; [apply IH | done].
  - destruct (overlay_field s f) as [s'|e]; [|done]. assert (strip s = strip s') as -> by (cbn in Hf; congruence). apply IH.
Qed.

Lemma overlay_field_key s f : overlay_field s (field_key f) = overlay_field s f.
Proof.
  unfold overlay_field. destruct s as [o hf]. destruct f as [n w v d r]. unfold field_key, field_bytes. cbn.
  destruct (Z.eqb_spec w 0) as [->|]; [cbn; by rewrite ?andb_false_r|].
  destruct (Z.eqb_spec w 2) as [->|]; cbn; by rewrite ?andb_false_r.
Qed.

(** The message stamped at commit decodes to the overlay it carried, with the commit's version. *)
Lemma decode_stamped message v o :
  is_u64 v -> decode_overlay message = Ok o -> decode_overlay (stamped message v) = Ok (set_committed_version v o).
Proof.
  intros Hv. unfold decode_overlay, stamped.
  destruct (fields_rewritten [kCommittedVersionField] message (put_u64_field kCommittedVersionField v)) as (fs & g & Hk & _ & ->).
  unfold kept in Hk. destruct (fields message) as [ms ok]. cbn [fst] in Hk.
  rewrite <- (app_nil_r (put_u64_field _ v)), fields_u64_field_opt by (done || (unfold field_number, kCommittedVersionField; lia)).
  pose proof (overlay_fields_strip ms (DataOverlay0, false)) as Hs. change (strip (DataOverlay0, false)) with (DataOverlay0, false) in Hs.
  rewrite <- (fold_res_keys overlay_field _ _ _ overlay_field_key Hk) in Hs.
  destruct (fold_res overlay_field ms _) as [[o' hf]|]; [|done]. cbn [mbind res_bind snd fst].
  destruct ok; [|done]. destruct hf; [|done]. cbn [negb orb]. intros [= ->].
  case_bool.
  - subst v. rewrite fields_nil, app_nil_r, Hs. done.
  - rewrite fields_nil, fold_res_app, Hs. done.
Qed.

Lemma fragment_overlay_key out f : fragment_overlay_field out (field_key f) = fragment_overlay_field out f.
Proof.
  unfold fragment_overlay_field. destruct f as [n w v d r]. unfold field_key, field_bytes. cbn.
  destruct (Z.eqb_spec w 0) as [->|]; [cbn; by rewrite ?andb_false_r|].
  destruct (Z.eqb_spec w 2) as [->|]; cbn; by rewrite ?andb_false_r.
Qed.

(** The fields of a well-formed message with one more field at its end. *)
Lemma fields_snoc u fs n b :
  fields u = (fs, true) -> field_number n -> zlen b < 2 ^ 64 ->
  exists fs' g, field_key <$> fs' = field_key <$> fs /\ fields (u ++ put_bytes_field n b) = (fs' ++ [bytes_field g n b], true).
Proof.
  intros Hu Hn Hb. pose proof (fields_concat_raw _ _ Hu) as <-.
  assert (Forall whole fs) as Hw by (pose proof (fields_whole (concat (raw <$> fs))) as Hw; by rewrite Hu in Hw).
  destruct (fields_copied fs Field0 (put_bytes_field n b) Hw) as (fs' & g & Hk & Hf). exists fs', g. split; [done|].
  unfold fields. rewrite Hf, fields_single by done. done.
Qed.

(** One overlay appended: the overlays read are those before and the new one, at the commit's version. *)
Lemma append_overlay_read fragment message v fragment' os o :
  is_u64 v -> zlen message < 2 ^ 63 ->
  read_fragment_overlays fragment = Ok os -> decode_overlay message = Ok o ->
  append_overlay v fragment message = Ok fragment' ->
  read_fragment_overlays fragment' = Ok (os ++ [set_committed_version v o]) /\
  fragment_has_overlays fragment' = true /\ fragment' = pb.set_unknown fragment (pb.fr_unknown fragment').
Proof.
  intros Hv Hm Hr Ho. unfold append_overlay. rewrite Ho. cbn [mbind res_bind]. case_bool; [done|]. intros [= <-].
  set (u := pb.fr_unknown fragment) in *. unfold read_fragment_overlays, fragment_has_overlays in *. cbn [pb.fr_unknown pb.set_unknown].
  fold u in Hr. destruct (fields u) as [fs ok] eqn:Eu. destruct (fold_res _ fs []) as [os'|] eqn:Ef; [|done]. cbn in Hr.
  destruct ok; [|done]. injection Hr as ->.
  assert (zlen (stamped message v) < 2 ^ 64) as Hz.
  { unfold stamped. rewrite zlen_app. pose proof (zlen_put_u64_field kCommittedVersionField v).
    pose proof (zlen_without_fields message [kCommittedVersionField]). lia. }
  destruct (fields_snoc _ _ kOverlaysField (stamped message v) Eu) as (fs' & g & Hk & ->); [unfold field_number, kOverlaysField; lia | done |].
  split_and!; [| |done].
  - rewrite fold_res_app, (fold_res_keys _ _ _ _ fragment_overlay_key Hk), Ef. cbn [mbind res_bind fold_res].
    change (fragment_overlay_field os (bytes_field g kOverlaysField (stamped message v)))
      with (o ← decode_overlay (stamped message v); Ok (os ++ [o])).
    by rewrite (decode_stamped message v o Hv Ho).
  - cbn [fst]. rewrite existsb_app. cbn. by rewrite orb_true_r.
Qed.

Lemma overlaid_fields_spec version overlays x :
  x ∈ overlaid_fields version overlays <->
  exists o, o ∈ overlays /\ version < ov_committed_version o /\ x ∈ pb.df_fields (ov_data_file o).
Proof.
  unfold overlaid_fields. set (step := fun _ _ => _).
  assert (forall s, x ∈ foldl step s overlays <-> x ∈ s \/ exists o, o ∈ overlays /\ version < ov_committed_version o /\ x ∈ pb.df_fields (ov_data_file o)) as H.
  { induction overlays as [|o l IH]; intros s; cbn [foldl]; [set_solver|]. rewrite IH. setoid_rewrite elem_of_cons. unfold step at 1.
    case_bool; [rewrite elem_of_union, elem_of_list_to_set|]; naive_solver lia. }
  rewrite H. set_solver.
Qed.

Lemma append_fragment_overlays_read fragment messages v fragment' os :
  is_u64 v -> Forall (fun m => zlen m < 2 ^ 63) messages -> read_fragment_overlays fragment = Ok os ->
  append_fragment_overlays fragment messages v = Ok fragment' ->
  exists new, Forall2 (fun m o => decode_overlay m = Ok o) messages new /\
    read_fragment_overlays fragment' = Ok (os ++ (set_committed_version v <$> new)) /\
    (messages <> [] -> fragment_has_overlays fragment' = true) /\
    fragment' = pb.set_unknown fragment (pb.fr_unknown fragment').
Proof.
  intros Hv Hm. revert fragment os. induction Hm as [|m ms Hm Hms IH]; intros fragment os Hr.
  { cbn. intros [= <-]. exists []. rewrite app_nil_r. split_and!; [constructor | done | done | by destruct fragment]. }
  unfold append_fragment_overlays. cbn [fold_res]. destruct (append_overlay v fragment m) as [f1|] eqn:E1; [|done]. cbn [mbind res_bind]. intros E2.
  assert (exists o, decode_overlay m = Ok o) as [o Ho].
  { unfold append_overlay in E1. destruct (decode_overlay m); [eauto | done]. }
  destruct (append_overlay_read fragment m v f1 os o Hv Hm Hr Ho E1) as (Hr1 & Hh1 & Hf1).
  destruct (IH f1 _ Hr1 E2) as (new & H2 & Hr2 & Hh2 & Hf2). exists (o :: new). split_and!; [by constructor | | |].
  - rewrite Hr2. by rewrite <- app_assoc.
  - intros _. destruct ms; [|by apply Hh2]. by injection E2 as <-.
  - rewrite Hf2 at 1. rewrite Hf1 at 1. done.
Qed.

Lemma stale_elem manifest fields_ index_version fragment :
  fragment ∈ pb.mf_fragments manifest -> fragment_has_overlays fragment = true ->
  (forall touched, fragment_overlaid_fields_after fragment index_version = Ok touched -> exists f, f ∈ fields_ /\ f ∈ touched) ->
  u32 (pb.fr_id fragment) ∈ fragments_stale_for_index manifest fields_ index_version.
Proof.
  intros Hin Hh Ht. unfold fragments_stale_for_index.
  assert (forall l s x, x ∈ s -> x ∈ foldl (stale_step fields_ index_version) s l) as Hmono.
  { induction l as [|g l IH]; intros s x Hx; [done|]. cbn [foldl]. apply IH. unfold stale_step.
    repeat case_match; set_solver. }
  apply list_elem_of_split in Hin as (l1 & l2 & ->). rewrite foldl_app. cbn [foldl]. apply Hmono. unfold stale_step at 1. rewrite Hh. cbn [negb].
  destruct (fragment_overlaid_fields_after fragment index_version) as [touched|]; [|set_solver].
  destruct (Ht touched eq_refl) as (f & Hf & Hft).
  assert (existsb (fun f => bool_decide (f ∈ touched)) fields_ = true) as ->; [|set_solver].
  apply existsb_exists. exists f. split; [by apply list_elem_of_In | by apply bool_decide_eq_true].
Qed.

(** overlays committed to a fragment are the ones read from it, after those it had, each
    with the version of the commit whatever its message said; nothing else of the fragment changes; and
    every index built before that version on a field one of them holds sees the fragment as stale. *)
Theorem append_fragment_overlays_correct fragment messages v fragment' os :
  is_u64 v -> Forall (fun m => zlen m < 2 ^ 63) messages -> read_fragment_overlays fragment = Ok os ->
  append_fragment_overlays fragment messages v = Ok fragment' ->
  exists new, Forall2 (fun m o => decode_overlay m = Ok o) messages new /\
    read_fragment_overlays fragment' = Ok (os ++ (set_committed_version v <$> new)) /\
    fragment' = pb.set_unknown fragment (pb.fr_unknown fragment') /\
    forall manifest fields_ index_version o x,
      fragment' ∈ pb.mf_fragments manifest -> index_version < v -> o ∈ new -> x ∈ pb.df_fields (ov_data_file o) -> x ∈ fields_ ->
      u32 (pb.fr_id fragment) ∈ fragments_stale_for_index manifest fields_ index_version.
Proof.
  intros Hv Hm Hr Ha. destruct (append_fragment_overlays_read _ _ _ _ _ Hv Hm Hr Ha) as (new & H2 & Hr' & Hh & Hf).
  exists new. split_and!; [done | done | done |]. intros manifest fields_ index_version o x Hin Hlt Ho Hx Hxf.
  assert (pb.fr_id fragment = pb.fr_id fragment') as -> by (by rewrite Hf).
  assert (fragment_has_overlays fragment' = true) as Hh' by (apply Hh; intros ->; apply Forall2_nil_inv_l in H2 as ->; by apply elem_of_nil in Ho).
  apply stale_elem; [done | done |]. unfold fragment_overlaid_fields_after. rewrite Hh', Hr'. cbn. intros touched [= <-].
  exists x. split; [done|]. apply overlaid_fields_spec. exists (set_committed_version v o). split; [|done].
  apply elem_of_app. right. apply list_elem_of_fmap. eauto.
Qed.

End decoding.

Definition sample_file : pb.DataFile := pb.mkDataFile "o.lance" [3; 4] [0; 1] 2 1 0 [].
Definition sample_decode (bytes : list Z) : option pb.DataFile := if bool_decide (bytes = [9]) then Some sample_file else None.
Definition sample_message : list Z :=
  put_bytes_field 1 [9] ++ put_u64_field 3 77 ++ put_bytes_field 2 (Roaring.encode [1; 5]).
Definition sample_fragment : pb.DataFragment := pb.mkDataFragment 6 [] 10 pb.no_deletion_file (put_u64_field 5 1).

Lemma append_fragment_overlays_correct_witness :
  exists fragment', append_fragment_overlays sample_decode sample_fragment [sample_message] 12 = Ok fragment' /\
  exists new, Forall2 (fun m o => decode_overlay sample_decode m = Ok o) [sample_message] new /\
    read_fragment_overlays sample_decode fragment' = Ok ([] ++ (set_committed_version 12 <$> new)) /\
    fragment' = pb.set_unknown sample_fragment (pb.fr_unknown fragment') /\
    forall manifest fields_ index_version o x,
      fragment' ∈ pb.mf_fragments manifest -> index_version < 12 -> o ∈ new -> x ∈ pb.df_fields (ov_data_file o) -> x ∈ fields_ ->
      u32 (pb.fr_id sample_fragment) ∈ fragments_stale_for_index sample_decode manifest fields_ index_version.
Proof.
  eexists. split; [vm_compute; reflexivity|].
  apply (append_fragment_overlays_correct sample_decode sample_fragment [sample_message] 12); [unfold is_u64; lia | | vm_compute; reflexivity | vm_compute; reflexivity].
  repeat constructor.
Defined.
End Overlays.
