(* ===== verification/TransactionChecks.v ===== *)
(** * TransactionChecks: what a commit checks and keeps up to date (src/table/dataset_transaction.cpp)

    The validation of a transaction's operation, the coverage of indices after it, the numbering of new
    fragments, column replacement and the row metadata of stable row ids: the helpers that
    [Transaction.apply_operation] composes. *)

From S2P Require Import Prelude ReadSafety ProtoWire Roaring Pb RowIds RowMeta BasePaths DeletionVector Operation IndexMaintenance.

Module TransactionChecks.
Import Operation IndexMaintenance.

Definition kTombstone : Z := -2.

(** ** Validation *)

Definition deletion_path (f : pb.DataFragment) : string :=
  "_deletions/" +:+ pretty (pb.fr_id f) +:+ "-" +:+ pretty (pb.del_read_version (pb.fr_deletion_file f)) +:+ "-" +:+
  pretty (pb.del_id (pb.fr_deletion_file f)) +:+ (if pb.del_file_type (pb.fr_deletion_file f) =? 1 then ".bin" else ".arrow").

(** The first file without fields is the error. *)
Definition file_has_fields (_ : unit) (file : pb.DataFile) : res unit :=
  match pb.df_fields file with
  | [] => Err ("Invalid user input: Datafile " +:+ pb.df_path file +:+ " does not contain any fields")
  | _ => Ok tt
  end.

Definition files_have_fields (fragments : list pb.DataFragment) : res unit :=
  fold_res (fun u fragment => fold_res file_has_fields (pb.fr_files fragment) u) fragments tt.

Definition overwrite_fragments_valid (fragments : list pb.DataFragment) : res unit :=
  fold_res (fun _ fragment =>
      if pb.del_present (pb.fr_deletion_file fragment)
      then Err ("Invalid user input: Overwrite fragments must be newly written, but fragment " +:+ pretty (pb.fr_id fragment) +:+
                " carries deletion file " +:+ deletion_path fragment +:+
                ". Use Delete to commit deletions against existing fragments, or Merge to change their schema.")
      else Ok tt) fragments tt.

Definition id_list (ids : list Z) : string := "[" +:+ String.concat ", " (pretty <$> ids) +:+ "]".

Definition field_by_id (fields : list pb.Field) (id : Z) : option pb.Field :=
  snd <$> list_find (fun f => pb.fld_id f = id) fields.

(** [field_path]: the loop follows [parent_id] until [-1] or an id without a field. [None] when [fuel]
    iterations were not enough. *)
Fixpoint field_path_loop (fuel : nat) (fields : list pb.Field) (at_ : Z) (out : string) : option string :=
  if at_ =? -1 then Some out
  else
    match fuel with
    | O => None
    | S fuel =>
        match field_by_id fields at_ with
        | None => Some out
        | Some it =>
            field_path_loop fuel fields (pb.fld_parent_id it)
              (if bool_decide (out = "") then pb.fld_name it else pb.fld_name it +:+ "." +:+ out)
        end
    end.

(** A path has at most one component per field unless the parents form a cycle, and then the loop does not
    end at all ([field_path_cyclic]). *)
Definition field_path (fields : list pb.Field) (id : Z) : option string := field_path_loop (S (length fields)) fields id "".

(** What a call that never returns is here; no error of the code has this text. *)
Definition does_not_return : string := "the call does not return".

Definition fragments_by_id (fragments : list pb.DataFragment) : gmap Z pb.DataFragment :=
  foldl (fun m f => <[pb.fr_id f := f]> m) ∅ fragments.

(** The loop over the original fragments: the ids [op] does not have. *)
Definition merge_fragment (by_id : gmap Z pb.DataFragment) (missing : list Z) (f : pb.DataFragment) : res (list Z) :=
  match by_id !! pb.fr_id f with
  | None => Ok (missing ++ [pb.fr_id f])
  | Some it =>
      if pb.fr_physical_rows it =? pb.fr_physical_rows f then Ok missing
      else Err ("Invalid user input: Merge operation changed row count for fragment " +:+ pretty (pb.fr_id f) +:+
                ". Original: Some(" +:+ pretty (pb.fr_physical_rows f) +:+ "), New: Some(" +:+
                pretty (pb.fr_physical_rows it) +:+
                "). Merge operations should preserve fragment row counts and only add new columns.")
  end.

Definition max_field_id (fields : list pb.Field) : Z := foldl (fun m f => Z.max m (pb.fld_id f)) (-1) fields.

(** A path in an error message. *)
Definition quoted (p : string) : string := String (Ascii.ascii_of_N 34) (p +:+ String (Ascii.ascii_of_N 34) EmptyString).

(** The loop over the new schema: an id keeps its path, and a new field takes a new id. *)
Definition merge_field (manifest_fields op_schema : list pb.Field) (_ : unit) (field : pb.Field) : res unit :=
  let id := pb.fld_id field in
  match field_by_id manifest_fields id with
  | None =>
      if id <=? max_field_id manifest_fields then
        match field_path op_schema id with
        | None => Err does_not_return
        | Some path =>
            Err ("Invalid user input: Merge operation assigns id " +:+ pretty id +:+ " to new field " +:+ quoted path +:+
                 ", but ids up to " +:+ pretty (max_field_id manifest_fields) +:+
                 " are already used by current or dropped fields. New fields must use ids of at least " +:+
                 pretty (max_field_id manifest_fields + 1) +:+ ".")
        end
      else Ok tt
  | Some _ =>
      match field_path manifest_fields id, field_path op_schema id with
      | Some before, Some after =>
          if bool_decide (before = after) then Ok tt
          else Err ("Invalid user input: Merge operation remaps field id " +:+ pretty id +:+ " from " +:+ quoted before +:+
                    " to " +:+ quoted after +:+
                    ". Merge must preserve the dataset's field ids: derive the new schema from the dataset's current schema instead of renumbering fields.")
      | _, _ => Err does_not_return
      end
  end.

Definition merge_valid (manifest : pb.Manifest) (op : Operation) : res unit :=
  let original := pb.mf_fragments manifest in
  if zlen (fragments op) <? zlen original then
    Err ("Invalid user input: Merge operation reduced fragment count from " +:+ pretty (zlen original) +:+ " to " +:+
         pretty (zlen (fragments op)) +:+ ". Merge operations should only add columns, not reduce fragments.")
  else
    missing ← fold_res (merge_fragment (fragments_by_id (fragments op))) original [];
    if negb (bool_decide (missing = [])) then
      Err ("Invalid user input: Merge operation is missing original fragments: " +:+ id_list missing +:+
           ". Merge operations should preserve all original fragments and only add new columns. Expected fragments: " +:+
           id_list (pb.fr_id <$> original) +:+ ", but got: " +:+ id_list (pb.fr_id <$> fragments op))
    else fold_res (merge_field (pb.mf_fields manifest) (schema op)) (schema op) tt.

(** ** Index bookkeeping *)

Definition prune_updated_fields (indices : list pb.IndexMetadata) (fragment_ids fields_modified : list Z) : list pb.IndexMetadata :=
  if bool_decide (fields_modified = []) || bool_decide (fragment_ids = []) then indices
  else
    let modified : gset Z := list_to_set fields_modified in
    (fun index =>
       let touched := existsb (fun id => (0 <=? id) && bool_decide (id ∈ modified)) (pb.ix_fields index) in
       if negb touched || negb (pb.ix_has_fragment_bitmap index) then index
       else remove_coverage (fun id => bool_decide (id ∈ fragment_ids)) index) <$> indices.

(** Each field's data file in a fragment; a later file of a field wins. *)
Definition field_files (f : pb.DataFragment) : gmap Z string :=
  foldl (fun out file => foldl (fun out id => if 0 <=? id then <[id := pb.df_path file]> out else out) out (pb.df_fields file))
    ∅ (pb.fr_files f).

(** The fields of both whose file differs; [prune_updated_fields] takes them as a set. *)
Definition file_differs (new_paths : gmap Z string) (p : Z * string) : bool :=
  match new_paths !! p.1 with Some now => negb (bool_decide (now = p.2)) | None => false end.

Definition rewritten_fields (before after : pb.DataFragment) : list Z :=
  (filter (fun p => file_differs (field_files after) p = true) (map_to_list (field_files before))).*1.

Definition prune_merge_rewritten (indices : list pb.IndexMetadata) (before after : list pb.DataFragment) : list pb.IndexMetadata :=
  let prev := fragments_by_id before in
  foldl (fun indices f =>
      match prev !! pb.fr_id f with
      | None => indices
      | Some it => prune_updated_fields indices [pb.fr_id f] (rewritten_fields it f)
      end) indices after.

(** The elements of a set, ascending. *)
Definition set_sorted (s : gset Z) : list Z := merge_sort Z.le (elements s).

(** One group: its old fragments are all covered, or none is. *)
Definition recalculate_group (old : gset Z) (out : gset Z) (group : RewriteGroup) : res (gset Z) :=
  let olds := (fun f => u32 (pb.fr_id f)) <$> old_fragments group in
  let covered := filter (fun id => id ∈ old) olds in
  if bool_decide (covered = []) then Ok out
  else if negb (bool_decide (length covered = length (old_fragments group))) then
    Err "Invalid user input: The compaction plan included a rewrite group that was a split of indexed and non-indexed data"
  else Ok (list_to_set ((fun f => u32 (pb.fr_id f)) <$> new_fragments group) ∪ (out ∖ list_to_set olds)).

Definition recalculate_bitmap (ids : list Z) (groups : list RewriteGroup) : res (list Z) :=
  out ← fold_res (recalculate_group (list_to_set ids)) groups (list_to_set ids);
  Ok (set_sorted out).

(** ** Numbering *)

Definition next_fragment_id (m : pb.Manifest) : Z :=
  let next := match pb.mf_max_fragment_id m with Some id => id + 1 | None => 0 end in
  let next := foldl (fun next f => Z.max next (u64 (pb.fr_id f + 1))) next (pb.mf_fragments m) in
  Z.max next (first_fragment_id_after_indices (pb.mf_indices m)).

(** A fragment without an id (0) takes the next one. *)
Fixpoint assign_ids (fragments : list pb.DataFragment) (next : Z) : list pb.DataFragment * Z :=
  match fragments with
  | [] => ([], next)
  | f :: rest =>
      if pb.fr_id f =? 0 then let '(rest, next') := assign_ids rest (u64 (next + 1)) in (pb.set_fragment_id f next :: rest, next')
      else let '(rest, next') := assign_ids rest next in (f :: rest, next')
  end.

(** The version of the first data file; the loops return at it. *)
Definition storage_version_of (fragments : list pb.DataFragment) : string :=
  match concat (pb.fr_files <$> fragments) with
  | [] => "2.2"
  | file :: _ =>
      if (pb.df_file_major_version file =? 0) && (pb.df_file_minor_version file =? 0) then "0.1"
      else if (pb.df_file_major_version file =? 0) && (pb.df_file_minor_version file =? 3) then "2.0"
      else pretty (pb.df_file_major_version file) +:+ "." +:+ pretty (pb.df_file_minor_version file)
  end.

(** ** Replacing columns *)

(** One pass of the inner loop: the children of [parent] that are not there yet. *)
Definition add_children (fields : list pb.Field) (parent : Z) (replaced : list Z) : list Z :=
  foldl (fun replaced f =>
      if (0 <=? pb.fld_parent_id f) && (u64 (pb.fld_parent_id f) =? parent) && negb (bool_decide (u64 (pb.fld_id f) ∈ replaced))
      then replaced ++ [u64 (pb.fld_id f)] else replaced) replaced fields.

(** [for (k = 0; k < replaced_fields.size(); ++k)]: every element added is the id of a field that was not
    there, so the fields bound the additions. *)
Fixpoint replaced_closure (fuel : nat) (fields : list pb.Field) (k : nat) (replaced : list Z) : list Z :=
  match fuel, replaced !! k with
  | S fuel, Some parent => replaced_closure fuel fields (S k) (add_children fields parent replaced)
  | _, _ => replaced
  end.

Definition replaced_fields (fields : list pb.Field) (replacements : list (Z * pb.DataFile)) : list Z :=
  match replacements with
  | [] => []
  | (_, file) :: _ =>
      let front := filter (fun id => 0 <= id) (pb.df_fields file) in
      replaced_closure (length front + length fields) fields 0 front
  end.

(** The in-place part of the loop over a fragment's files. *)
Definition same_layout (file new_file : pb.DataFile) : bool :=
  bool_decide (pb.df_fields file = pb.df_fields new_file) &&
  (pb.df_file_major_version file =? pb.df_file_major_version new_file) &&
  (pb.df_file_minor_version file =? pb.df_file_minor_version new_file).

Definition replace_in_place (new_file file : pb.DataFile) : pb.DataFile :=
  if same_layout file new_file then pb.set_path_size file (pb.df_path new_file) (pb.df_file_size_bytes new_file) else file.

(** The replaced fields become tombstones, and a file without a live field goes. *)
Definition tombstone_files (replacement_ids live : gset Z) (files : list pb.DataFile) : list pb.DataFile :=
  filter (fun file => existsb (fun id => bool_decide (id ∈ live)) (pb.df_fields file) = true)
    ((fun file => pb.set_file_fields file
        ((fun id => if bool_decide (id ∈ replacement_ids) then kTombstone else id) <$> pb.df_fields file)) <$> files).

Definition replace_files (replacement_ids live : gset Z) (new_file : pb.DataFile) (files : list pb.DataFile) : list pb.DataFile :=
  let in_place := existsb (fun file => same_layout file new_file) files in
  let files := replace_in_place new_file <$> files in
  let covered : gset Z := list_to_set (concat (pb.df_fields <$> files)) in
  if bool_decide (replacement_ids ## covered) then files ++ [new_file]
  else if negb in_place && bool_decide (replacement_ids ⊆ covered) then tombstone_files replacement_ids live files ++ [new_file]
  else files.

(** "File i: [f, ...]" per replacement. *)
Definition replacement_info (replacements : list (Z * pb.DataFile)) : string :=
  String.concat "" (imap (fun i r => "File " +:+ pretty i +:+ ": [" +:+ String.concat ", " (pretty <$> pb.df_fields r.2) +:+ "]" +:+ String (Ascii.ascii_of_N 10) EmptyString) replacements).

Section replacing.
  (** nanom's encoder, which [data_replacement] compares fragments with. *)
  Context (encode_data_fragment : pb.DataFragment -> list Z).

(** One replacement: the fragments and the ids changed so far. *)
Definition replace_step (replacement_ids live : gset Z) (s : list pb.DataFragment * list Z) (r : Z * pb.DataFile)
    : res (list pb.DataFragment * list Z) :=
  let '(fragments, changed) := s in
  let '(frag_id, new_file) := r in
  match list_find (fun f => pb.fr_id f = frag_id) fragments with
  | None => Err "Invalid user input: Fragment being replaced not found in existing fragments"
  | Some (i, it) =>
      let it' := pb.set_files it (replace_files replacement_ids live new_file (pb.fr_files it)) in
      if bool_decide (encode_data_fragment it' = encode_data_fragment it) then
        Err ("Invalid user input: Expected to modify the fragment but no changes were made. This means the new data files does not align with any exiting datafiles. Please check if the schema of the new data files matches the schema of the old data files including the file major and minor versions")
      else Ok (<[i := it']> fragments, changed ++ [frag_id])
  end.

Definition data_replacement (next : pb.Manifest) (op : Operation) : res pb.Manifest :=
  let distinct := remove_dups ((fun r => pb.df_fields r.2) <$> replacements op) in
  if bool_decide (1 < length distinct)%nat then
    Err ("Invalid user input: All new data files must have the same fields, but found different fields:" +:+
         String (Ascii.ascii_of_N 10) EmptyString +:+ replacement_info (replacements op))
  else
    let replaced := replaced_fields (pb.mf_fields next) (replacements op) in
    let replacement_ids : gset Z := list_to_set (to_int32 <$> replaced) in
    let live : gset Z := list_to_set (pb.fld_id <$> pb.mf_fields next) in
    '(fragments, changed) ← fold_res (replace_step replacement_ids live) (replacements op) (pb.mf_fragments next, []);
    Ok (pb.set_indices (prune_updated_fields (pb.mf_indices next) changed replaced) (pb.set_fragments fragments next)).

End replacing.

(** ** Row metadata of stable row ids *)

Definition stamp_fragment (version next_row_id : Z) (fragment : pb.DataFragment) : res (pb.DataFragment * Z) :=
  meta ← RowMeta.read_fragment_row_meta fragment;
  let rows := pb.fr_physical_rows fragment in
  '(row_ids, next_row_id, changed) ←
    (if negb (RowMeta.has_row_ids meta) && negb (RowMeta.external meta) then
       Ok (Some (RowIds.encode (RowIds.range next_row_id rows)), u64 (next_row_id + rows), true)
     else if RowMeta.has_row_ids meta then
       ids ← RowIds.decode (RowMeta.row_ids meta);
       Ok (Some (RowMeta.row_ids meta),
           match RowIds.max_id ids with Some top => Z.max next_row_id (u64 (top + 1)) | None => next_row_id end, false)
     else Ok (None, next_row_id, false));
  let stamped := RowVersions.encode (RowVersions.uniform rows version) in
  let versions := negb (rows =? 0) && negb (RowMeta.external meta) in
  let stamp_created := versions && negb (RowMeta.has_created meta) in
  let stamp_updated := versions && negb (RowMeta.has_last_updated meta) in
  let meta := RowMeta.mkFragmentRowMeta
    (match row_ids with Some _ => true | None => RowMeta.has_row_ids meta end) (default (RowMeta.row_ids meta) row_ids)
    (RowMeta.has_last_updated meta || stamp_updated) (if stamp_updated then stamped else RowMeta.last_updated meta)
    (RowMeta.has_created meta || stamp_created) (if stamp_created then stamped else RowMeta.created meta)
    (RowMeta.external meta) in
  Ok (if changed || stamp_created || stamp_updated then RowMeta.write_fragment_row_meta fragment meta else fragment, next_row_id).

Fixpoint stamp_missing_row_meta (version : Z) (fragments : list pb.DataFragment) (next_row_id : Z)
    : res (list pb.DataFragment * Z) :=
  match fragments with
  | [] => Ok ([], next_row_id)
  | fragment :: rest =>
      '(fragment, next_row_id) ← stamp_fragment version next_row_id fragment;
      '(rest, next_row_id) ← stamp_missing_row_meta version rest next_row_id;
      Ok (fragment :: rest, next_row_id)
  end.

(** [versions.resize(n, 1)]. *)
Definition resize_versions (n : Z) (versions : list Z) : list Z := resize (Z.to_nat n) 1 versions.

Definition stamp_rows (limits : ReadLimits) (version : Z) (bitmap : list Z) (fragment : pb.DataFragment) : res pb.DataFragment :=
  let rows := pb.fr_physical_rows fragment in
  offsets ← DeletionVector.parse_roaring_bitmap limits bitmap rows;
  meta ← RowMeta.read_fragment_row_meta fragment;
  if RowMeta.external meta || bool_decide (offsets = []) then Ok fragment
  else
    versions ← (if RowMeta.has_last_updated meta
                then seq ← RowVersions.decode (RowMeta.last_updated meta); Ok (resize_versions rows (RowVersions.to_vector seq))
                else Ok (replicate (Z.to_nat rows) 1));
    (* [versions[offset] = version] within bounds *)
    let versions := foldl (fun vs offset => <[Z.to_nat offset := version]> vs) versions offsets in
    Ok (RowMeta.write_fragment_row_meta fragment
      (RowMeta.mkFragmentRowMeta (RowMeta.has_row_ids meta) (RowMeta.row_ids meta) true (RowVersions.encode (RowVersions.from_values versions))
         (RowMeta.has_created meta) (RowMeta.created meta) (RowMeta.external meta))).

Definition stamp_updated_step (limits : ReadLimits) (version : Z) (fragments : list pb.DataFragment) (e : Z * list Z) : res (list pb.DataFragment) :=
  match list_find (fun f => pb.fr_id f = e.1) fragments with
  | None => Ok fragments
  | Some (i, fragment) => fragment ← stamp_rows limits version e.2 fragment; Ok (<[i := fragment]> fragments)
  end.

Definition stamp_updated_rows (limits : ReadLimits) (version : Z) (fragments : list pb.DataFragment) (op : Operation) : res (list pb.DataFragment) :=
  fold_res (stamp_updated_step limits version) (updated_fragment_offsets op) fragments.

(** ** Paths of fields *)

Lemma field_by_id_Some fields id f : field_by_id fields id = Some f -> f ∈ fields /\ pb.fld_id f = id.
Proof.
  unfold field_by_id. destruct (list_find _ fields) as [[i g]|] eqn:E; [|done]. cbn. intros [= ->].
  apply list_find_Some in E as (Hi & Hid & _). split; [by eapply list_elem_of_lookup_2 | done].
Qed.

(** More iterations than needed change nothing. *)
Lemma field_path_loop_fuel n k fields at_ out path :
  field_path_loop n fields at_ out = Some path -> field_path_loop (n + k) fields at_ out = Some path.
Proof.
  revert at_ out. induction n as [|n IH]; intros at_ out; cbn [Nat.add field_path_loop].
  - destruct (at_ =? -1) eqn:E; [|done]. intros [= ->]. destruct k; cbn [field_path_loop]; by rewrite E.
  - destruct (at_ =? -1); [done|]. destruct (field_by_id fields at_); [apply IH | done].
Qed.

(** No field is its own ancestor: the parent of a field has a smaller rank. *)
Definition acyclic (fields : list pb.Field) (rank : Z -> nat) : Prop :=
  forall f, f ∈ fields -> pb.fld_parent_id f <> -1 -> (rank (pb.fld_parent_id f) < rank (pb.fld_id f))%nat.

(** The loop ends unless it goes through as many fields as it has iterations, with ranks that fall. *)
Lemma field_path_loop_visits n fields rank at_ out :
  acyclic fields rank ->
  field_path_loop n fields at_ out = None ->
  exists visited, length visited = S n /\ NoDup visited /\ head visited = Some at_ /\ Forall (fun id => (rank id <= rank at_)%nat) visited /\
    Forall (fun id => id ∈ pb.fld_id <$> fields) (take n visited).
Proof.
  intros Ha. revert at_ out. induction n as [|n IH]; intros at_ out; cbn [field_path_loop]; destruct (Z.eqb_spec at_ (-1)) as [|Hne]; try done.
  - intros _. exists [at_]. split_and!; [done | apply NoDup_singleton | done | by repeat constructor | constructor].
  - destruct (field_by_id fields at_) as [f|] eqn:E; [|done]. apply field_by_id_Some in E as [Hf Hid]. intros Hn.
    assert (pb.fld_parent_id f <> -1) as Hp by (intros Hp; rewrite Hp in Hn; by destruct n).
    specialize (Ha f Hf Hp). rewrite Hid in Ha. destruct (IH _ _ Hn) as (visited & Hl & Hnd & Hh & Hr & Hin).
    exists (at_ :: visited). split_and!; [by rewrite <- Hl | | done | |].
    + constructor; [|done]. intros Hv. rewrite Forall_forall in Hr. specialize (Hr _ Hv). lia.
    + constructor; [done|]. eapply Forall_impl; [exact Hr|]. cbn. intros. lia.
    + cbn [take]. constructor; [|done]. rewrite <- Hid. by apply list_elem_of_fmap_2.
Qed.

Lemma field_path_acyclic fields rank id : acyclic fields rank -> exists path, field_path fields id = Some path.
Proof.
  intros Ha. unfold field_path. destruct (field_path_loop _ fields id "") as [path|] eqn:E; [by exists path|]. exfalso.
  apply (field_path_loop_visits _ _ rank) in E as (visited & Hl & Hnd & _ & _ & Hin); [|done].
  assert (take (S (length fields)) visited ⊆+ (pb.fld_id <$> fields)) as Hs.
  { apply NoDup_submseteq; [by eapply sublist_NoDup, sublist_take|]. intros x Hx. rewrite Forall_forall in Hin. auto. }
  apply submseteq_length in Hs. rewrite length_take, length_fmap, Hl in Hs. lia.
Qed.

(** C40: (termination): the path of a field is found in at most one step per field of the schema when no field
    is its own ancestor, and more steps change nothing; in a schema with a field that is its own parent the
    loop never ends, however many steps it is given. *)
Theorem field_path_terminates fields :
  (forall rank id, acyclic fields rank ->
     exists path, field_path fields id = Some path /\ forall k, field_path_loop (S (length fields) + k) fields id "" = Some path) /\
  (forall f n out, field_by_id fields (pb.fld_id f) = Some f -> pb.fld_parent_id f = pb.fld_id f -> pb.fld_id f <> -1 ->
     field_path_loop n fields (pb.fld_id f) out = None).
Proof.
  split.
  - intros rank id Ha. destruct (field_path_acyclic fields rank id Ha) as [path Hp]. exists path. split; [done|]. intros k.
    by apply field_path_loop_fuel.
  - intros f n. induction n as [|n IH]; intros out Hf Hp Hne; cbn [field_path_loop]; rewrite (proj2 (Z.eqb_neq _ _) Hne); [done|].
    rewrite Hf, Hp. by apply IH.
Qed.

Definition sample_field (name : string) (id parent : Z) : pb.Field := pb.mkField name "" id parent 2 true 1 ∅ false 0 0 [].

Lemma field_path_terminates_witness :
  field_path [sample_field "a" 0 (-1); sample_field "b" 1 0; sample_field "c" 2 1] 2 = Some "a.b.c" /\
  (forall n, field_path_loop n [sample_field "a" 7 7] 7 "" = None).
Proof.
  split.
  - destruct (proj1 (field_path_terminates [sample_field "a" 0 (-1); sample_field "b" 1 0; sample_field "c" 2 1]) Z.to_nat 2) as (path & Hp & _).
    + intros f Hf. rewrite !elem_of_cons, elem_of_nil in Hf. destruct Hf as [->|[->|[->|[]]]]; cbn; lia.
    + rewrite Hp. vm_compute in Hp. by injection Hp as <-.
  - intros n. by apply (proj2 (field_path_terminates [sample_field "a" 7 7]) (sample_field "a" 7 7) n "").
Defined.

(** ** New row ids *)

(** A fragment as a writer adds it: no row metadata yet, and at least one row. *)
Definition unstamped (f : pb.DataFragment) : Prop :=
  1 <= pb.fr_physical_rows f <= 2 ^ 32 /\
  exists m, RowMeta.read_fragment_row_meta f = Ok m /\ RowMeta.has_row_ids m = false /\ RowMeta.external m = false /\
    RowMeta.has_created m = false /\ RowMeta.has_last_updated m = false.

Definition total_rows (fs : list pb.DataFragment) : Z := foldr (fun f n => pb.fr_physical_rows f + n) 0 fs.

(** Every row created and last updated at [v]. *)
Definition versions_at (f : pb.DataFragment) (v : Z) : Prop :=
  exists m, RowMeta.read_fragment_row_meta f = Ok m /\ RowMeta.has_created m = true /\ RowMeta.has_last_updated m = true /\
    RowMeta.created m = RowMeta.last_updated m /\
    exists s, RowVersions.decode (RowMeta.created m) = Ok s /\ RowVersions.to_vector s = replicate (Z.to_nat (pb.fr_physical_rows f)) v.

Lemma stamped_seqZ n k : 0 <= n -> n + Z.of_nat k < 2 ^ 64 -> RowIds.consecutive (seqZ n (Z.of_nat k)) = true.
Proof.
  revert n. induction k as [|k IH]; intros n Hn Hb; [done|]. rewrite (seqZ_cons n) by lia.
  replace (Z.pred (Z.of_nat (S k))) with (Z.of_nat k) by lia. specialize (IH (Z.succ n) ltac:(lia) ltac:(lia)).
  destruct k as [|k]; [done|]. rewrite (seqZ_cons (Z.succ n)) in * by lia. cbn [RowIds.consecutive]. rewrite u64_small by (unfold is_u64; lia).
  by rewrite (proj2 (Z.eqb_eq _ _)) by lia.
Qed.

Lemma range_from_values n rows :
  0 <= n -> 1 <= rows -> n + rows < 2 ^ 64 -> RowIds.from_values (seqZ n rows) = RowIds.range n rows.
Proof.
  intros Hn Hr Hb. unfold RowIds.from_values. replace rows with (Z.of_nat (Z.to_nat rows)) at 1 by lia. rewrite stamped_seqZ by lia.
  rewrite zlen_seqZ by lia. rewrite (seqZ_cons n) by lia. done.
Qed.

Lemma seqZ_row_ids_ok n rows : 0 <= n -> 0 <= rows <= 2 ^ 32 -> n + rows < U64_MAX -> RowIds.row_ids_ok (seqZ n rows).
Proof.
  intros Hn Hr Hb. split_and!; [apply NoDup_seqZ | | rewrite zlen_seqZ; lia]. apply Forall_forall. intros x Hx%elem_of_seqZ. lia.
Qed.

Lemma zlen_range n rows : 0 <= n -> 0 <= rows <= 2 ^ 32 -> n + rows < 2 ^ 64 -> zlen (RowIds.encode (RowIds.range n rows)) < 2 ^ 64.
Proof.
  intros Hn Hr Hb. unfold RowIds.encode, RowIds.range. cbn [RowIds.compact_ RowIds.start_ RowIds.count_]. rewrite u64_small by (unfold is_u64; lia).
  destruct (RowIds.segment_range_of n rows) as [Hz _]; [lia..|]. pose proof (zlen_put_bytes_field 1 (RowIds.segment_range n (n + rows))). lia.
Qed.

Lemma zlen_stamped rows v : zlen (RowVersions.encode (RowVersions.uniform rows v)) < 2 ^ 64.
Proof.
  unfold RowVersions.uniform. case_match; [|done]. cbn. rewrite app_nil_r. unfold RowVersions.encode_run, RowIds.segment_range.
  set (a := put_u64_field 1 _ ++ put_u64_field 2 _). assert (zlen a <= 40) as Ha.
  { unfold a. rewrite zlen_app. pose proof (zlen_put_u64_field 1 0). pose proof (zlen_put_u64_field 2 (u64 (0 + rows))). cbn in *. lia. }
  set (b := put_bytes_field 1 a). pose proof (zlen_put_bytes_field 1 a : zlen a < zlen b <= _).
  set (c := put_bytes_field 1 b ++ _). assert (zlen c <= 40 + zlen b) as Hc.
  { unfold c. rewrite zlen_app. pose proof (zlen_put_bytes_field 1 b). pose proof (zlen_put_u64_field 2 v). cbn in *. lia. }
  pose proof (zlen_put_bytes_field 1 c). lia.
Qed.

Lemma stamp_fragment_unstamped v n f :
  unstamped f -> 0 <= n -> n + pb.fr_physical_rows f < U64_MAX -> is_u64 v ->
  exists f', stamp_fragment v n f = Ok (f', n + pb.fr_physical_rows f) /\
    RowMeta.carries f' (seqZ n (pb.fr_physical_rows f)) /\ versions_at f' v.
Proof.
  intros (Hrows & m & Hm & Hr & He & Hc & Hu) Hn Hb Hv. unfold stamp_fragment, mbind, res_bind. rewrite Hm, Hr, He, Hc, Hu.
  set (rows := pb.fr_physical_rows f) in *. cbn [negb andb orb]. rewrite (proj2 (Z.eqb_neq rows 0)) by lia. cbn [negb andb orb default].
  rewrite u64_small by (unfold is_u64, U64_MAX in *; lia).
  set (meta := RowMeta.mkFragmentRowMeta _ _ _ _ _ _ _). eexists. split; [reflexivity|].
  set (stamped := RowVersions.encode (RowVersions.uniform rows v)) in *.
  assert (RowIds.encode (RowIds.range n rows) = RowIds.encode (RowIds.from_values (seqZ n rows))) as Eids by (rewrite range_from_values by (unfold U64_MAX in *; lia); done).
  assert (RowMeta.meta_ok meta) as Hmeta.
  { unfold RowMeta.meta_ok, meta. cbn. split_and!; try done; try apply zlen_stamped; try lia. apply zlen_range; unfold U64_MAX in *; lia. }
  destruct (RowMeta.written_row_meta f meta Hmeta) as (Hread & _ & _). split.
  - split_and!; [apply seqZ_row_ids_ok; lia | cbn; rewrite zlen_seqZ; unfold rows; lia |]. exists meta. split_and!; [done | done | done | exact Eids].
  - exists meta. split_and!; [done | done | done | done|]. exists (RowVersions.uniform rows v). cbn [RowMeta.created meta].
    assert (RowVersions.uniform rows v = [RowVersions.mkVersionRun rows v]) as Eu by (unfold RowVersions.uniform; by rewrite (proj2 (Z.eqb_neq rows 0)) by lia).
    split; [|rewrite Eu; apply RowVersions.to_vector_one]. unfold stamped. apply RowVersions.versions_codec. rewrite Eu.
    split; [repeat constructor; cbn; unfold is_u64 in *; lia | cbn; lia].
Qed.

(** The rows of new fragments get the next ids, in order. *)
Lemma stamp_missing_row_meta_unstamped v fs n :
  Forall unstamped fs -> 0 <= n -> n + total_rows fs < U64_MAX -> is_u64 v ->
  exists fs' ids, stamp_missing_row_meta v fs n = Ok (fs', n + total_rows fs) /\
    Forall2 RowMeta.carries fs' ids /\ Forall (fun f => versions_at f v) fs' /\
    concat ids = seqZ n (total_rows fs).
Proof.
  intros Hu. revert n. induction Hu as [|f fs Hf Hu IH]; intros n Hn Hb Hv.
  { exists [], []. change (total_rows []) with 0. rewrite Z.add_0_r. by repeat constructor. }
  change (total_rows (f :: fs)) with (pb.fr_physical_rows f + total_rows fs) in *.
  assert (0 <= total_rows fs) as Ht by (clear -Hu; induction Hu as [|g gs [Hg _] _ IHg]; [done | change (total_rows (g :: gs)) with (pb.fr_physical_rows g + total_rows gs); lia]).
  destruct Hf as [Hrows Hm]. destruct (stamp_fragment_unstamped v n f) as (f' & E1 & Hc & Hver); [by split | lia | lia | done |].
  destruct (IH (n + pb.fr_physical_rows f)) as (fs' & ids & E2 & Hcs & Hvs & Hids); [lia | lia | done |].
  exists (f' :: fs'), (seqZ n (pb.fr_physical_rows f) :: ids). cbn [stamp_missing_row_meta]. unfold mbind, res_bind. rewrite E1, E2.
  split_and!; [do 2 f_equal; lia | by constructor | by constructor |]. cbn [concat]. by rewrite Hids, <- seqZ_app by lia.
Qed.

(** the rows of fragments added to a dataset with stable row ids get the next ids of its
    counter, in order and without a gap, the counter ends after them, and every row is created and last
    updated at the version being committed. *)
Theorem stamped_row_ids v fs n :
  Forall unstamped fs -> 0 <= n -> n + total_rows fs < U64_MAX -> is_u64 v ->
  exists fs' ids, stamp_missing_row_meta v fs n = Ok (fs', n + total_rows fs) /\
    Forall2 RowMeta.carries fs' ids /\ Forall (fun f => versions_at f v) fs' /\
    concat ids = seqZ n (total_rows fs).
Proof. apply stamp_missing_row_meta_unstamped. Qed.

Definition sample_new (rows : Z) : pb.DataFragment := pb.mkDataFragment 0 [] rows pb.no_deletion_file (put_u64_field 12 4).

Lemma stamped_row_ids_witness :
  exists fs' ids, stamp_missing_row_meta 7 [sample_new 3; sample_new 2] 100 = Ok (fs', 105) /\
    Forall2 RowMeta.carries fs' ids /\ Forall (fun f => versions_at f 7) fs' /\ concat ids = [100; 101; 102; 103; 104].
Proof.
  apply (stamped_row_ids 7 [sample_new 3; sample_new 2] 100); [|lia | vm_compute; done | unfold is_u64; lia].
  repeat constructor; try (cbn; lia); eexists; (split; [vm_compute; reflexivity | done]).
Defined.

End TransactionChecks.
