(* ===== verification/Transaction.v ===== *)
(** * Transaction: applying an operation to a version (src/table/dataset_transaction.cpp)

    [apply_operation] makes the next manifest of a decoded operation, one definition per case of its switch;
    [rebase_operation] replays a commit that lost the race for a version over the latest one. *)

From S2P Require Import Prelude ReadSafety ProtoWire Roaring Pb RowIds RowMeta BasePaths DeletionVector Operation CommitConflicts IndexMaintenance Overlays TransactionChecks.

Module Transaction.
Import Operation IndexMaintenance TransactionChecks.

Section applying.
  (** nanom's codecs of the generated messages, and the read limits of the calling thread. *)
  Context (encode_data_fragment : pb.DataFragment -> list Z).
  Context (decode_data_file : list Z -> option pb.DataFile).
  Context (make_index_metadata :
    list Z -> list Z -> string -> Z -> list Z -> string -> Z -> Z -> list (string * Z) -> list Z -> pb.IndexMetadata).
  Context (limits : ReadLimits).

(** New fragments when row ids are stable: [stamp_missing_row_meta] over the manifest's counter. *)
Definition stamp_added (stable : bool) (new_version : Z) (added : list pb.DataFragment) (next : pb.Manifest)
    : res (list pb.DataFragment * pb.Manifest) :=
  if stable then
    '(added, next_row_id) ← stamp_missing_row_meta new_version added (pb.mf_next_row_id next);
    Ok (added, pb.set_next_row_id next_row_id next)
  else Ok (added, next).

Definition apply_append (stable : bool) (new_version next_id : Z) (op : Operation) (next : pb.Manifest) : res pb.Manifest :=
  let '(added, _) := assign_ids (fragments op) next_id in
  '(added, next) ← stamp_added stable new_version added next;
  Ok (pb.set_fragments (pb.mf_fragments next ++ added) next).

(** The fragments kept by a delete or an update: not removed, and replaced where updated. *)
Definition keep_fragments (removed : gset Z) (updated : gmap Z pb.DataFragment) (fragments : list pb.DataFragment) : list pb.DataFragment :=
  omap (fun f => if bool_decide (pb.fr_id f ∈ removed) then None else Some (default f (updated !! pb.fr_id f))) fragments.

Definition retain (next : pb.Manifest) : pb.Manifest :=
  pb.set_indices (retain_relevant_indices (pb.mf_indices next) (pb.mf_fields next) (pb.mf_fragments next)) next.

Definition apply_delete (op : Operation) (next : pb.Manifest) : res pb.Manifest :=
  Ok (retain (pb.set_fragments (keep_fragments (list_to_set (removed_ids op)) (fragments_by_id (updated_fragments op)) (pb.mf_fragments next)) next)).

(** [updated.emplace]: the first fragment of an id stays. *)
Definition fragments_by_id_first (fragments : list pb.DataFragment) : gmap Z pb.DataFragment :=
  foldl (fun m f => match m !! pb.fr_id f with Some _ => m | None => <[pb.fr_id f := f]> m end) ∅ fragments.

Definition apply_update (stable : bool) (new_version next_id : Z) (op : Operation) (next : pb.Manifest) : res pb.Manifest :=
  let kept := keep_fragments (list_to_set (removed_ids op)) (fragments_by_id_first (updated_fragments op)) (pb.mf_fragments next) in
  kept ← (if stable && rewrite_columns op then stamp_updated_rows limits new_version kept op else Ok kept);
  let next := pb.set_indices (prune_updated_fields (pb.mf_indices next) (pb.fr_id <$> updated_fragments op) (fields_modified op))
                (pb.set_fragments kept next) in
  let '(added, _) := assign_ids (fragments op) next_id in
  '(added, next) ← stamp_added stable new_version added next;
  Ok (retain (pb.set_fragments (pb.mf_fragments next ++ added) next)).

(** [f.id = next_id++]: every fragment of an overwrite is new. *)
Fixpoint renumber (fragments : list pb.DataFragment) (next_id : Z) : list pb.DataFragment :=
  match fragments with
  | [] => []
  | f :: rest => pb.set_fragment_id f next_id :: renumber rest (u64 (next_id + 1))
  end.

Definition initial_base_step (bases : list BasePaths.BasePath) (message : list Z) : res (list BasePaths.BasePath) :=
  base ← BasePaths.decode_base_path message;
  Ok (bases ++ [BasePaths.mkBasePath (u32 (zlen bases + 1)) (BasePaths.name base) (BasePaths.has_name base)
                  (BasePaths.is_dataset_root base) (BasePaths.path base)]).

Definition apply_overwrite (stable : bool) (new_version next_id : Z) (op : Operation) (next : pb.Manifest) : res pb.Manifest :=
  '(added, next) ← stamp_added stable new_version (renumber (fragments op) next_id) next;
  let next := pb.set_index_section_error "" (pb.set_indices [] (pb.set_fragments added next)) in
  let next := pb.set_config (config_upserts op ∪ pb.mf_config next) next in
  if bool_decide (initial_bases op = []) then Ok next
  else bases ← fold_res initial_base_step (initial_bases op) []; Ok (BasePaths.write_base_paths next bases).

(** New fragments numbered once, in group order. *)
Fixpoint assign_groups (groups : list RewriteGroup) (next_id : Z) : list RewriteGroup :=
  match groups with
  | [] => []
  | g :: rest =>
      let '(news, next_id) := assign_ids (new_fragments g) next_id in
      mkRewriteGroup (old_fragments g) news :: assign_groups rest next_id
  end.

Definition rewrite_group (fragments : list pb.DataFragment) (group : RewriteGroup) : res (list pb.DataFragment) :=
  match list_find (fun f => pb.fr_id f ∉ pb.fr_id <$> fragments) (old_fragments group) with
  | Some (_, f) =>
      Err ("commit conflict: dataset does not contain a fragment a rewrite operation wants to replace: id=" +:+ pretty (pb.fr_id f))
  | None =>
      Ok (filter (fun f => pb.fr_id f ∉ pb.fr_id <$> old_fragments group) fragments ++ new_fragments group)
  end.

Definition rewritten_step (groups : list RewriteGroup) (s : gset (list Z) * list pb.IndexMetadata) (ri : RewrittenIndex)
    : res (gset (list Z) * list pb.IndexMetadata) :=
  let '(seen, indices) := s in
  if bool_decide (old_id ri ∈ seen) then
    Err ("Invalid user input: An invalid compaction plan must have been generated because multiple tasks modified the same index: " +:+
         pb.uuid_string (old_id ri))
  else
    let seen := {[old_id ri]} ∪ seen in
    match list_find (fun i => pb.ix_uuid i = old_id ri) indices with
    | None => Ok (seen, indices)
    | Some (i, it) =>
        ids ← recalculate_bitmap (pb.ix_fragment_ids it) groups;
        let no_details := bool_decide (details_type_url ri = "") in
        Ok (seen, <[i := make_index_metadata (new_id ri) (pb.ix_fields it) (pb.ix_name it) (pb.ix_dataset_version it) ids
                     (if no_details then pb.ix_details_type_url it else details_type_url ri) (index_version ri) (pb.ix_created_at it) []
                     (if no_details then pb.ix_details_value it else details_value ri)]> indices)
    end.

Definition apply_rewrite (next_id : Z) (op : Operation) (next : pb.Manifest) : res pb.Manifest :=
  let groups := assign_groups (groups op) next_id in
  fragments ← fold_res rewrite_group groups (pb.mf_fragments next);
  '(_, indices) ← fold_res (rewritten_step groups) (rewritten_indices op) (∅, pb.mf_indices next);
  Ok (pb.set_indices indices (pb.set_fragments fragments next)).

Definition apply_merge (base : pb.Manifest) (op : Operation) (next : pb.Manifest) : res pb.Manifest :=
  Ok (retain (pb.set_fragments (fragments op)
    (pb.set_indices (prune_merge_rewritten (pb.mf_indices next) (pb.mf_fragments base) (fragments op)) next))).

Definition apply_project (next : pb.Manifest) : res pb.Manifest :=
  let remaining : gset Z := list_to_set (pb.fld_id <$> pb.mf_fields next) in
  let project f := pb.set_files f
    (filter (fun file => existsb (fun id => bool_decide (id ∈ remaining)) (pb.df_fields file) = true) (pb.fr_files f)) in
  Ok (retain (pb.set_fragments (project <$> pb.mf_fragments next) next)).

Definition apply_reserve (base : pb.Manifest) (op : Operation) (next : pb.Manifest) : res pb.Manifest :=
  Ok (pb.set_max_fragment_id (Some (u32 (default 0 (pb.mf_max_fragment_id base) + reserve op))) next).

Definition update_field_metadata (fields : list pb.Field) (e : Z * UpdateMap) : res (list pb.Field) :=
  match list_find (fun f => pb.fld_id f = e.1) fields with
  | None => Err ("Invalid user input: Field with id " +:+ pretty e.1 +:+ " does not exist")
  | Some (i, f) => Ok (<[i := pb.set_metadata f (apply_update_map bytes_of_string (pb.fld_metadata f) e.2)]> fields)
  end.

(** [std::map]'s iteration: the entries in ascending order of their ids. *)
Definition sorted_entries {V} (m : gmap Z V) : list (Z * V) := stable_sort_by fst (map_to_list m).

Definition apply_update_config (op : Operation) (next : pb.Manifest) : res pb.Manifest :=
  let next := match config_updates op with
    | Some u => pb.set_config (apply_update_map id (pb.mf_config next) u) next | None => next end in
  let next := match table_metadata_updates op with
    | Some u => pb.set_table_metadata (apply_update_map id (pb.mf_table_metadata next) u) next | None => next end in
  let next := match schema_metadata_updates op with
    | Some u => pb.set_schema_metadata (apply_update_map bytes_of_string (pb.mf_schema_metadata next) u) next | None => next end in
  fields ← fold_res update_field_metadata (sorted_entries (field_metadata_updates op)) (pb.mf_fields next);
  Ok (pb.set_fields fields next).

(** An index covers only the fragments still present. *)
Definition present_coverage (present : gset Z) (index : pb.IndexMetadata) : pb.IndexMetadata :=
  let ids := filter (fun id => id ∈ present) (pb.ix_fragment_ids index) in
  if bool_decide (length ids = length (pb.ix_fragment_ids index)) then index else set_coverage index ids true.

Definition create_step (present : gset Z) (indices : list pb.IndexMetadata) (created : pb.IndexMetadata) : res (list pb.IndexMetadata) :=
  let index := present_coverage present created in
  match list_find (fun i => pb.ix_uuid i = pb.ix_uuid index) indices with
  | Some (i, _) => Ok (<[i := index]> indices)
  | None =>
      if bool_decide (pb.ix_name index = kMemWalIndex) && existsb (fun i => bool_decide (pb.ix_name i = kMemWalIndex)) indices
      then Err "Invalid user input: MemWAL is already initialized on this dataset."
      else Ok (indices ++ [index])
  end.

Definition apply_create_index (op : Operation) (next : pb.Manifest) : res pb.Manifest :=
  let indices := foldl (fun indices gone => filter (fun i => pb.ix_uuid i <> pb.ix_uuid gone) indices)
                   (pb.mf_indices next) (removed_indices op) in
  let present : gset Z := list_to_set (pb.fr_id <$> pb.mf_fragments next) in
  indices ← fold_res (create_step present) (new_indices op) indices;
  Ok (pb.set_indices indices next).

Definition same_base (base known : BasePaths.BasePath) : bool :=
  (BasePaths.has_name base && BasePaths.has_name known && bool_decide (BasePaths.name base = BasePaths.name known)) ||
  bool_decide (BasePaths.path base = BasePaths.path known).

(** Each new base takes the next id after the largest one registered. *)
Definition new_base_step (bases : list BasePaths.BasePath) (message : list Z) : res (list BasePaths.BasePath) :=
  base ← BasePaths.decode_base_path message;
  if existsb (same_base base) bases then
    Err ("Invalid user input: Conflict detected: Base path with name '" +:+
         (if BasePaths.has_name base then BasePaths.name base else "None") +:+ "' or path '" +:+ BasePaths.path base +:+ "' already exists")
  else
    let next_id := foldl (fun next_id known => Z.max next_id (u32 (BasePaths.id known + 1))) 1 bases in
    Ok (bases ++ [BasePaths.mkBasePath next_id (BasePaths.name base) (BasePaths.has_name base)
                    (BasePaths.is_dataset_root base) (BasePaths.path base)]).

Definition apply_update_bases (op : Operation) (next : pb.Manifest) : res pb.Manifest :=
  bases ← BasePaths.read_base_paths next;
  bases ← fold_res new_base_step (new_bases op) bases;
  Ok (BasePaths.write_base_paths next bases).

Definition overlay_step (new_version : Z) (fragments : list pb.DataFragment) (g : Z * list (list Z)) : res (list pb.DataFragment) :=
  match list_find (fun f => pb.fr_id f = g.1) fragments with
  | None => Err ("Invalid user input: data overlay for fragment " +:+ pretty g.1 +:+ ", which the dataset does not have")
  | Some (i, f) =>
      f ← Overlays.append_fragment_overlays decode_data_file f g.2 new_version;
      Ok (<[i := f]> fragments)
  end.

Definition apply_data_overlay (new_version : Z) (op : Operation) (next : pb.Manifest) : res pb.Manifest :=
  fragments ← fold_res (overlay_step new_version) (overlay_groups op) (pb.mf_fragments next);
  Ok (pb.set_fragments fragments next).

(** ** After the switch *)

(** A data file left holding nothing but tombstones. *)
Definition only_tombstones (file : pb.DataFile) : bool :=
  negb (bool_decide (pb.df_fields file = [])) && forallb (fun id => id =? kTombstone) (pb.df_fields file).

Definition drop_tombstone_files (f : pb.DataFragment) : pb.DataFragment :=
  pb.set_files f (filter (fun file => only_tombstones file = false) (pb.fr_files f)).

(** [max_fragment_id] is a high-water mark over the dataset's history. *)
Definition high_water (next : pb.Manifest) : option Z :=
  match pb.mf_max_fragment_id next, pb.mf_fragments next with
  | None, [] => None
  | _, _ => Some (u32 (foldl (fun max_id f => Z.max max_id (pb.fr_id f)) (default 0 (pb.mf_max_fragment_id next)) (pb.mf_fragments next)))
  end.

Definition set_flag (flag flags : Z) : Z := Z.lor flags flag.
Definition clear_flag (flag flags : Z) : Z := Z.land flags (u64 (Z.lnot flag)).

Definition put_flag (on : bool) (flag : Z) (m : pb.Manifest) : pb.Manifest :=
  let f := if on then set_flag flag else clear_flag flag in
  pb.set_writer_feature_flags (f (pb.mf_writer_feature_flags m)) (pb.set_reader_feature_flags (f (pb.mf_reader_feature_flags m)) m).

Definition finish (stable : bool) (next : pb.Manifest) : pb.Manifest :=
  let next := pb.set_fragments (drop_tombstone_files <$> stable_sort_by pb.fr_id (pb.mf_fragments next)) next in
  let next := pb.set_max_fragment_id (high_water next) next in
  let next := if stable then put_flag true pb.kFlagStableRowIds next else next in
  let next := put_flag (existsb Overlays.fragment_has_overlays (pb.mf_fragments next)) Overlays.kFlagDataOverlays next in
  put_flag (existsb (fun f => pb.del_present (pb.fr_deletion_file f)) (pb.mf_fragments next)) pb.kFlagDeletionFiles next.

(** ** The operation *)

(** The checks before anything is built. *)
Definition validate (base : option pb.Manifest) (op : Operation) : res unit :=
  let k := kind op in
  _ ← (match base with
       | None => if k =? kOverwrite then Ok tt
                 else Err ("Invalid user input: Cannot apply operation " +:+ operation_name k +:+ " to non-existent dataset")
       | Some _ => Ok tt
       end);
  _ ← (if k =? kOverwrite then _ ← overwrite_fragments_valid (fragments op); files_have_fields (fragments op) else Ok tt);
  _ ← (if (k =? kAppend) || (k =? kMerge) then files_have_fields (fragments op) else Ok tt);
  _ ← (if k =? kUpdate then _ ← files_have_fields (updated_fragments op); files_have_fields (fragments op) else Ok tt);
  match base with
  | Some base => if k =? kMerge then merge_valid base op else Ok tt
  | None => Ok tt
  end.

(** The manifest the switch starts from. *)
Definition start (base : option pb.Manifest) (op : Operation) : pb.Manifest :=
  let next := match base with
    | Some base => base
    | None => pb.set_data_format (pb.mkDataStorageFormat "lance" (storage_version_of (fragments op))) pb.Manifest0
    end in
  let next := if has_schema op then pb.set_fields (schema op) next else next in
  if has_schema_metadata op || (kind op =? kOverwrite) then pb.set_schema_metadata (schema_metadata op) next else next.

Definition is_stable (base : option pb.Manifest) (op : Operation) (enable_stable_row_ids : bool) (next : pb.Manifest) : bool :=
  negb (Z.land (pb.mf_reader_feature_flags next) pb.kFlagStableRowIds =? 0) ||
  (enable_stable_row_ids && (match base with None => true | Some _ => kind op =? kOverwrite end)).

(** The switch; [base] is the manifest of the reads through [base->] in it. *)
Definition apply_kind (stable : bool) (new_version next_id : Z) (base : pb.Manifest) (op : Operation) (next : pb.Manifest) : res pb.Manifest :=
  let k := kind op in
  if k =? kAppend then apply_append stable new_version next_id op next
  else if k =? kDelete then apply_delete op next
  else if k =? kUpdate then apply_update stable new_version next_id op next
  else if k =? kOverwrite then apply_overwrite stable new_version next_id op next
  else if k =? kRewrite then apply_rewrite next_id op next
  else if k =? kMerge then apply_merge base op next
  else if k =? kProject then apply_project next
  else if k =? kReserveFragments then apply_reserve base op next
  else if k =? kUpdateConfig then apply_update_config op next
  else if k =? kCreateIndex then apply_create_index op next
  else if k =? kDataReplacement then data_replacement encode_data_fragment next op
  else if k =? kUpdateBases then apply_update_bases op next
  else if k =? kDataOverlay then apply_data_overlay new_version op next
  else Err ("LanceDataset.commit of " +:+ operation_name k +:+ " is not supported").

Definition apply_operation (base : option pb.Manifest) (op : Operation) (enable_stable_row_ids : bool) (new_version : Z) : res pb.Manifest :=
  _ ← validate base op;
  let next := start base op in
  let next_id := match base with Some base => next_fragment_id base | None => 0 end in
  let stable := is_stable base op enable_stable_row_ids next in
  next ← apply_kind stable new_version next_id (default pb.Manifest0 base) op next;
  Ok (finish stable next).

(** ** Rebasing *)

Definition rebase_restore (latest ours : pb.Manifest) : pb.Manifest :=
  let high := Z.max (default 0 (pb.mf_max_fragment_id latest)) (default 0 (pb.mf_max_fragment_id ours)) in
  pb.set_next_row_id (Z.max (pb.mf_next_row_id ours) (pb.mf_next_row_id latest)) (pb.set_max_fragment_id (Some (u32 high)) ours).

(** New fragments are numbered after the latest version's. *)
Definition renumbered (op : Operation) : Operation :=
  if (kind op =? kAppend) || (kind op =? kUpdate)
  then set_fragments ((fun f => pb.set_fragment_id f 0) <$> fragments op) op else op.

(** A concurrent update that rewrote a field of an index created here prunes it. *)
Definition finish_create_index (op : Operation) (theirs : list Operation) (indices : list pb.IndexMetadata) : list pb.IndexMetadata :=
  let ours : gset (list Z) := list_to_set (pb.ix_uuid <$> new_indices op) in
  let mine := filter (fun i => pb.ix_uuid i ∈ ours) indices in
  let mine := foldl (fun mine t => if kind t =? kUpdate
                                   then prune_updated_fields mine (pb.fr_id <$> updated_fragments t) (fields_modified t) else mine) mine theirs in
  foldl (fun indices index =>
      match list_find (fun i => pb.ix_uuid i = pb.ix_uuid index) indices with
      | Some (i, _) => <[i := index]> indices
      | None => indices
      end) indices mine.

Definition rebase_operation (latest ours : pb.Manifest) (op : Operation) (theirs : list Operation) (new_version : Z) : res pb.Manifest :=
  let k := kind op in
  if k =? kRestore then Ok (rebase_restore latest ours)
  else if negb (Z.land (pb.mf_reader_feature_flags latest) pb.kFlagStableRowIds =? 0) &&
          ((k =? kAppend) || (k =? kUpdate) || (k =? kMerge) || (k =? kOverwrite)) then
    Err ("commit conflict: stable row ids: a rebase of " +:+ operation_name k +:+ " is not supported")
  else
    next ← apply_operation (Some latest) (renumbered op) false new_version;
    Ok (if k =? kCreateIndex then pb.set_indices (finish_create_index op theirs (pb.mf_indices next)) next else next).

End applying.

(** ** Fragment ids *)

Definition ids_of (fragments : list pb.DataFragment) : list Z := pb.fr_id <$> fragments.
Arguments ids_of : simpl never.

Lemma list_find_insert_ids (P : pb.DataFragment -> Prop) `{!forall x, Decision (P x)} fragments i f f' :
  list_find P fragments = Some (i, f) -> pb.fr_id f' = pb.fr_id f -> ids_of (<[i := f']> fragments) = ids_of fragments.
Proof.
  intros (Hi & _ & _)%list_find_Some Hid. unfold ids_of. rewrite list_fmap_insert. apply list_insert_id.
  by rewrite list_lookup_fmap, Hi, Hid.
Qed.

(** A loop whose steps keep the ids keeps them. *)
Lemma fold_res_ids {A} (step : list pb.DataFragment -> A -> res (list pb.DataFragment)) l fragments out :
  (forall fragments a out, step fragments a = Ok out -> ids_of out = ids_of fragments) ->
  fold_res step l fragments = Ok out -> ids_of out = ids_of fragments.
Proof.
  intros Hstep. revert fragments. induction l as [|a l IH]; intros fragments; cbn [fold_res]; [by intros [= ->]|].
  destruct (step fragments a) as [mid|] eqn:E; [|done]. cbn. intros H%IH. rewrite H. by eapply Hstep.
Qed.

Lemma write_fragment_row_meta_id f m : pb.fr_id (RowMeta.write_fragment_row_meta f m) = pb.fr_id f.
Proof. done. Qed.

Lemma stamp_fragment_id version n f f' n' : stamp_fragment version n f = Ok (f', n') -> pb.fr_id f' = pb.fr_id f.
Proof.
  unfold stamp_fragment. unfold mbind, res_bind. destruct (RowMeta.read_fragment_row_meta f) as [m|]; [|done].
  match goal with |- match ?r with Ok _ => _ | Err _ => _ end = _ -> _ => destruct r as [[[r1 r2] r3]|]; [|done] end.
  intros [= <- _]. by case_match.
Qed.

Lemma stamp_missing_row_meta_ids version fs n fs' n' :
  stamp_missing_row_meta version fs n = Ok (fs', n') -> ids_of fs' = ids_of fs.
Proof.
  revert n fs' n'. induction fs as [|f fs IH]; intros n fs' n'; cbn [stamp_missing_row_meta]; [by intros [= <- _]|].
  destruct (stamp_fragment version n f) as [[f1 n1]|] eqn:E1; [|done]. cbn [mbind res_bind].
  destruct (stamp_missing_row_meta version fs n1) as [[fs2 n2]|] eqn:E2; [|done]. cbn. intros [= <- <-].
  unfold ids_of. rewrite !fmap_cons, (stamp_fragment_id _ _ _ _ _ E1). f_equal. by eapply IH.
Qed.

Lemma stamp_added_ids stable version added m added' m' :
  stamp_added stable version added m = Ok (added', m') ->
  ids_of added' = ids_of added /\ exists n, m' = pb.set_next_row_id n m.
Proof.
  unfold stamp_added. destruct stable.
  - destruct (stamp_missing_row_meta _ _ _) as [[fs n]|] eqn:E; [|done]. cbn. intros [= <- <-].
    split; [by eapply stamp_missing_row_meta_ids | eauto].
  - intros [= <- <-]. split; [done|]. exists (pb.mf_next_row_id m). by destruct m.
Qed.

Lemma stamp_updated_rows_ids limits version fragments op out :
  stamp_updated_rows limits version fragments op = Ok out -> ids_of out = ids_of fragments.
Proof.
  apply fold_res_ids. clear. intros fragments e out. unfold stamp_updated_step.
  destruct (list_find _ fragments) as [[i f]|] eqn:E; [|by intros [= <-]].
  destruct (stamp_rows _ _ _ f) as [f'|] eqn:E2; [|done]. cbn. intros [= <-]. eapply list_find_insert_ids; [done|].
  unfold stamp_rows, mbind, res_bind in E2. destruct (DeletionVector.parse_roaring_bitmap _ _ _); [|done].
  destruct (RowMeta.read_fragment_row_meta f); [|done]. destruct (_ || _); [by injection E2 as <-|].
  match type of E2 with match ?r with Ok _ => _ | Err _ => _ end = _ => destruct r; [|done] end. by injection E2 as <-.
Qed.

Lemma overlay_step_ids decode_data_file version fragments g out :
  overlay_step decode_data_file version fragments g = Ok out -> ids_of out = ids_of fragments.
Proof.
  unfold overlay_step. destruct (list_find _ fragments) as [[i f]|] eqn:E; [|done].
  destruct (Overlays.append_fragment_overlays _ _ _ _) as [f'|] eqn:E2; [|done]. cbn. intros [= <-].
  eapply list_find_insert_ids; [done|]. clear E. revert f E2. unfold Overlays.append_fragment_overlays.
  induction g.2 as [|m ms IH]; intros f; cbn; [by intros [= <-]|].
  destruct (Overlays.append_overlay _ _ f m) as [f1|] eqn:E1; [|done]. cbn. intros H%IH. rewrite H.
  unfold Overlays.append_overlay in E1. destruct (Overlays.decode_overlay _ m); [|done]. cbn in E1. case_match; [done|]. by injection E1 as <-.
Qed.

Lemma data_replacement_ids encode_data_fragment next op next' :
  data_replacement encode_data_fragment next op = Ok next' ->
  ids_of (pb.mf_fragments next') = ids_of (pb.mf_fragments next) /\
  exists changed, next' = pb.set_indices (prune_updated_fields (pb.mf_indices next) changed (replaced_fields (pb.mf_fields next) (replacements op)))
    (pb.set_fragments (pb.mf_fragments next') next).
Proof.
  unfold data_replacement. case_bool; [done|]. set (ids := list_to_set _). set (live := list_to_set _).
  assert (forall l s out, fold_res (replace_step encode_data_fragment ids live) l s = Ok out -> ids_of out.1 = ids_of s.1) as Hids.
  { induction l as [|[id file] l IH]; intros [fs ch] out; cbn [fold_res]; [by intros [= <-]|]. cbn [replace_step].
    destruct (list_find _ fs) as [[i it]|] eqn:E2; [|done]. case_bool; [done|]. cbn. intros H%IH. rewrite H. cbn.
    by eapply list_find_insert_ids. }
  destruct (fold_res _ _ _) as [[fs ch]|] eqn:E2; [|done]. cbn. intros [= <-]. apply Hids in E2. cbn in *. eauto.
Qed.

(** Maps from ids to fragments. *)
Definition keyed (m : gmap Z pb.DataFragment) : Prop := forall id f, m !! id = Some f -> pb.fr_id f = id.

Lemma fragments_by_id_keyed fs : keyed (fragments_by_id fs).
Proof.
  unfold fragments_by_id. assert (forall m, keyed m -> keyed (foldl (fun m f => <[pb.fr_id f := f]> m) m fs)) as H.
  { induction fs as [|f fs IH]; intros m Hm; [done|]. apply IH. intros id g [[<- <-]|[_ Hg]]%lookup_insert_Some; [done|]. by apply Hm. }
  apply H. intros id f. by rewrite lookup_empty.
Qed.

Lemma fragments_by_id_first_keyed fs : keyed (fragments_by_id_first fs).
Proof.
  unfold fragments_by_id_first. set (step := fun _ _ => _). assert (forall m, keyed m -> keyed (foldl step m fs)) as H.
  { induction fs as [|f fs IH]; intros m Hm; [done|]. apply IH. unfold step. destruct (m !! pb.fr_id f); [done|].
    intros id g [[<- <-]|[_ Hg]]%lookup_insert_Some; [done|]. by apply Hm. }
  apply H. intros id f. by rewrite lookup_empty.
Qed.

Lemma keep_fragments_ids removed updated fs :
  keyed updated -> ids_of (keep_fragments removed updated fs) = filter (fun id => id ∉ removed) (ids_of fs).
Proof.
  intros Hk. unfold keep_fragments, ids_of. induction fs as [|f fs IH]; [done|]. rewrite fmap_cons, filter_cons. cbn [omap list_omap].
  case_bool_decide as Hr; [by rewrite decide_False by tauto|]. rewrite decide_True by done. rewrite fmap_cons. f_equal; [|done].
  destruct (updated !! pb.fr_id f) as [g|] eqn:E; [by apply Hk | done].
Qed.

(** ** The invariant of a version *)

Definition coverage_ok (index : pb.IndexMetadata) : Prop := ascending (pb.ix_fragment_ids index) /\ Forall is_u32 (pb.ix_fragment_ids index).

(** Fragments in ascending order of distinct ids, none above the high-water mark, which fits its 32 bits; and
    coverages as the bitmaps are read. *)
Record manifest_ok (m : pb.Manifest) : Prop := {
  ok_sorted : ascending (ids_of (pb.mf_fragments m));
  ok_high : forall id, id ∈ ids_of (pb.mf_fragments m) -> exists mx, pb.mf_max_fragment_id m = Some mx /\ 0 <= id <= mx;
  ok_max : forall mx, pb.mf_max_fragment_id m = Some mx -> is_u32 mx;
  ok_indices : Forall coverage_ok (pb.mf_indices m)
}.

(** Every id in use, covered or ever used is below the next one. *)
Lemma next_fragment_id_above m :
  manifest_ok m ->
  (forall id, id ∈ ids_of (pb.mf_fragments m) -> id < next_fragment_id m) /\
  (forall mx, pb.mf_max_fragment_id m = Some mx -> mx < next_fragment_id m) /\
  (forall ix id, ix ∈ pb.mf_indices m -> id ∈ pb.ix_fragment_ids ix -> id < next_fragment_id m) /\
  0 <= next_fragment_id m <= 2 ^ 32.
Proof.
  intros [Hs Hh Hm Hi]. unfold next_fragment_id. set (n0 := match pb.mf_max_fragment_id m with Some id => id + 1 | None => 0 end).
  assert (Forall (fun f => 0 <= pb.fr_id f < n0) (pb.mf_fragments m)) as Hf.
  { apply Forall_forall. intros f Hf. destruct (Hh (pb.fr_id f)) as (mx & Hmx & Hr); [by apply list_elem_of_fmap_2|].
    unfold n0. rewrite Hmx. lia. }
  assert (0 <= n0 <= 2 ^ 32) as Hn0.
  { unfold n0. destruct (pb.mf_max_fragment_id m) eqn:E; [|lia]. specialize (Hm _ eq_refl). unfold is_u32 in Hm. lia. }
  assert (foldl (fun next f => Z.max next (u64 (pb.fr_id f + 1))) n0 (pb.mf_fragments m) = n0) as ->.
  { revert Hf Hn0. generalize n0. clear. intros n0 Hf Hn0. induction Hf as [|f l Hf Hl IH]; [done|]. cbn [foldl].
    rewrite u64_small by (unfold is_u64; lia). by rewrite Z.max_l by lia. }
  assert (0 <= first_fragment_id_after_indices (pb.mf_indices m) <= 2 ^ 32) as Hfi by by apply first_fragment_id_range.
  split_and!; [| | |lia..].
  - intros id (f & -> & Hin)%list_elem_of_fmap. rewrite Forall_forall in Hf. specialize (Hf f Hin). lia.
  - intros mx Hmx. unfold n0. rewrite Hmx. lia.
  - intros ix id Hix Hid. apply Z.lt_le_trans with (first_fragment_id_after_indices (pb.mf_indices m)); [|lia].
    eapply first_fragment_id_after_indices_fresh; [|done|done]. eapply Forall_impl; [exact Hi|]. by intros ? [? _].
Qed.

(** Unnumbered fragments take consecutive ids. *)
Definition unnumbered (fs : list pb.DataFragment) : Prop := Forall (fun f => pb.fr_id f = 0) fs.

Lemma assign_ids_unnumbered fs n :
  unnumbered fs -> 0 <= n -> n + zlen fs < 2 ^ 64 ->
  ids_of (assign_ids fs n).1 = seqZ n (zlen fs) /\ (assign_ids fs n).2 = n + zlen fs.
Proof.
  intros Hu. revert n. induction Hu as [|f fs Hf Hu IH]; intros n Hn Hb; [cbn; change (zlen (@nil pb.DataFragment)) with 0; split; [done | lia]|].
  rewrite zlen_cons in *. pose proof (zlen_nonneg fs). cbn [assign_ids]. rewrite (proj2 (Z.eqb_eq _ _) Hf), u64_small by (unfold is_u64; lia).
  destruct (IH (n + 1)) as [IH1 IH2]; [lia | lia|]. destruct (assign_ids fs (n + 1)) as [rest next']. cbn [fst snd] in *.
  split; [|lia]. rewrite (seqZ_cons n) by lia. unfold ids_of in *. rewrite fmap_cons, IH1. do 2 f_equal; lia.
Qed.

(** The ids fragments bring, and how many bring none. *)
Definition carried (fs : list pb.DataFragment) : list Z := filter (fun id => id <> 0) (ids_of fs).
Definition missing_ids (fs : list pb.DataFragment) : Z := zlen (filter (fun f => pb.fr_id f = 0) fs).

Lemma missing_ids_range fs : 0 <= missing_ids fs <= zlen fs.
Proof. unfold missing_ids, zlen. pose proof (length_filter (fun f => pb.fr_id f = 0) fs). lia. Qed.

Lemma carried_app fs gs : carried (fs ++ gs) = carried fs ++ carried gs.
Proof. unfold carried, ids_of. by rewrite fmap_app, filter_app. Qed.

Lemma missing_ids_app fs gs : missing_ids (fs ++ gs) = missing_ids fs + missing_ids gs.
Proof. unfold missing_ids. by rewrite filter_app, zlen_app. Qed.

Lemma carried_unnumbered fs : unnumbered fs -> carried fs = [].
Proof.
  unfold unnumbered, carried, ids_of. induction 1 as [|f fs Hf Hu IH]; [done|]. rewrite fmap_cons, filter_cons_False; [done|]. by intros [].
Qed.

(** A fragment keeps the id it brings; the others take consecutive ones. *)
Lemma assign_ids_ids fs n :
  0 <= n -> n + missing_ids fs < 2 ^ 64 ->
  ids_of (assign_ids fs n).1 ≡ₚ carried fs ++ seqZ n (missing_ids fs) /\ (assign_ids fs n).2 = n + missing_ids fs.
Proof.
  unfold ids_of. revert n. induction fs as [|f fs IH]; intros n Hn Hb; [cbn; split; [done | unfold missing_ids, zlen; cbn; lia]|].
  pose proof (missing_ids_range fs). cbn [assign_ids]. destruct (Z.eqb_spec (pb.fr_id f) 0) as [E|E].
  - assert (missing_ids (f :: fs) = 1 + missing_ids fs) as Hmi by (unfold missing_ids; by rewrite filter_cons_True, zlen_cons). rewrite Hmi in *.
    assert (carried (f :: fs) = carried fs) as -> by (unfold carried, ids_of; rewrite fmap_cons, filter_cons_False; tauto).
    rewrite u64_small by (unfold is_u64; lia). destruct (IH (n + 1)) as [IH1 IH2]; [lia | lia|].
    destruct (assign_ids fs (n + 1)) as [rest next']. cbn [fst snd] in *. split; [|lia].
    rewrite (seqZ_cons n), fmap_cons, IH1 by lia. cbn [pb.set_fragment_id pb.fr_id]. rewrite <- Permutation_middle.
    by replace (Z.pred _) with (missing_ids fs) by lia.
  - assert (missing_ids (f :: fs) = missing_ids fs) as Hmi by (unfold missing_ids; by rewrite filter_cons_False). rewrite Hmi in *.
    assert (carried (f :: fs) = pb.fr_id f :: carried fs) as -> by (unfold carried, ids_of; by rewrite fmap_cons, filter_cons_True).
    destruct (IH n) as [IH1 IH2]; [lia | lia|]. destruct (assign_ids fs n) as [rest next']. cbn [fst snd] in *. split; [|done].
    by rewrite fmap_cons, IH1.
Qed.

Lemma renumber_ids fs n :
  0 <= n -> n + zlen fs < 2 ^ 64 -> ids_of (renumber fs n) = seqZ n (zlen fs).
Proof.
  revert n. induction fs as [|f fs IH]; intros n Hn Hb; [done|]. rewrite zlen_cons in *. pose proof (zlen_nonneg fs).
  cbn [renumber]. rewrite u64_small by (unfold is_u64; lia). rewrite (seqZ_cons n) by lia. unfold ids_of in *.
  rewrite fmap_cons, IH by lia. do 2 f_equal; lia.
Qed.

(** ** The invariant, case by case *)

(** Ids brought by an operation that clash with nothing: distinct, no fragment's of the version, and not
    among the [k] next ones. *)
Definition apart (base : pb.Manifest) (k : Z) (brought : list Z) : Prop :=
  NoDup brought /\
  Forall (fun id => id ∉ ids_of (pb.mf_fragments base) /\ (id < next_fragment_id base \/ next_fragment_id base + k <= id)) brought.

(** The ids after a case of the switch: distinct, and each one the base's, brought, or among the [k] next ones. *)
Definition numbered (base : pb.Manifest) (brought : list Z) (k : Z) (ids : list Z) : Prop :=
  NoDup ids /\
  Forall (fun id => id ∈ ids_of (pb.mf_fragments base) \/ id ∈ brought \/ next_fragment_id base <= id < next_fragment_id base + k) ids.

Record arm_ok (base : pb.Manifest) (brought : list Z) (k : Z) (next : pb.Manifest) : Prop := {
  arm_ids : numbered base brought k (ids_of (pb.mf_fragments next));
  arm_indices : Forall coverage_ok (pb.mf_indices next);
  arm_max : forall mx, pb.mf_max_fragment_id next = Some mx -> is_u32 mx;
  arm_high : forall mx, pb.mf_max_fragment_id base = Some mx -> exists mx', pb.mf_max_fragment_id next = Some mx' /\ mx <= mx'
}.

Lemma numbered_subset base R k ids : NoDup ids -> ids ⊆ ids_of (pb.mf_fragments base) -> numbered base R k ids.
Proof. intros Hn Hs. split; [done|]. apply Forall_forall. intros id Hid. left. by apply Hs. Qed.

(** Brought and handed out ids after kept ones. *)
Lemma numbered_extend base R R' k m ids ids' news :
  manifest_ok base -> 0 <= k -> 0 <= m -> apart base (k + m) (R ++ R') ->
  numbered base R k ids -> ids' `sublist_of` ids -> news ≡ₚ R' ++ seqZ (next_fragment_id base + k) m ->
  numbered base (R ++ R') (k + m) (ids' ++ news).
Proof.
  intros Hok Hk Hm [HnR HfR] [Hn Hf] Hs Hp. destruct (next_fragment_id_above base Hok) as (Hb & _). rewrite Forall_forall in Hf, HfR.
  apply NoDup_app in HnR as (HnR & HRR & HnR'). split.
  - rewrite Hp. apply NoDup_app. split_and!; [by eapply sublist_NoDup | | apply NoDup_app; split_and!; [done | | apply NoDup_seqZ]].
    + intros id Hid%(fun H => elem_of_sublist _ _ _ H Hs) [Hin|Hin%elem_of_seqZ]%elem_of_app; destruct (Hf id Hid) as [Hid'|[Hid'|?]]; try lia.
      * destruct (HfR id) as [Hx _]; [set_solver | by destruct Hx].
      * by apply (HRR id).
      * destruct (HfR id) as [_ ?]; [set_solver | lia].
      * specialize (Hb id Hid'). lia.
      * destruct (HfR id) as [_ ?]; [set_solver | lia].
    + intros id Hid Hin%elem_of_seqZ. destruct (HfR id) as [_ ?]; [set_solver | lia].
  - rewrite Hp. apply Forall_forall. intros id [Hid|[Hid|Hid%elem_of_seqZ]%elem_of_app]%elem_of_app; [|set_solver | lia].
    destruct (Hf id (elem_of_sublist _ _ _ Hid Hs)) as [|[|]]; [by left | set_solver | lia].
Qed.

(** The case of one list of new fragments. *)
Lemma numbered_assign base fs ids :
  manifest_ok base -> apart base (missing_ids fs) (carried fs) -> next_fragment_id base + missing_ids fs < 2 ^ 64 ->
  NoDup ids -> ids ⊆ ids_of (pb.mf_fragments base) ->
  numbered base (carried fs) (missing_ids fs) (ids ++ ids_of (assign_ids fs (next_fragment_id base)).1).
Proof.
  intros Hok Ha Hb Hn Hs. pose proof (missing_ids_range fs). destruct (next_fragment_id_above base Hok) as (_ & _ & _ & Hnn).
  apply (numbered_extend base [] (carried fs) 0 (missing_ids fs) ids ids); [done | lia | lia | done | by apply numbered_subset | done|].
  rewrite Z.add_0_r. apply assign_ids_ids; lia.
Qed.

Lemma stable_sort_ids fs : ascending (ids_of (stable_sort_by pb.fr_id fs)) <-> NoDup (ids_of fs).
Proof.
  assert (ids_of (stable_sort_by pb.fr_id fs) ≡ₚ ids_of fs) as Hp by (unfold ids_of; by rewrite stable_sort_by_perm).
  split; [intros H%ascending_NoDup; by rewrite <- Hp|]. intros Hn. rewrite <- Hp in Hn. apply sorted_nodup_ascending; [|done].
  pose proof (stable_sort_by_sorted pb.fr_id fs) as Hs. unfold ids_of. clear -Hs.
  induction Hs as [|x l Hl IH Hx]; [constructor|]. rewrite fmap_cons. constructor; [done|]. apply Forall_fmap. done.
Qed.

(** Coverages stay ascending. *)
Lemma remove_coverage_ok gone index : coverage_ok index -> coverage_ok (remove_coverage gone index).
Proof. intros [Ha Hu]. split; [by apply remove_coverage_ascending | by apply Forall_filter]. Qed.

Lemma prune_updated_fields_ok indices frags mods : Forall coverage_ok indices -> Forall coverage_ok (prune_updated_fields indices frags mods).
Proof.
  intros H. unfold prune_updated_fields. case_match; [done|]. apply Forall_fmap. eapply Forall_impl; [exact H|]. intros index Hi. cbn.
  case_match; [done | by apply remove_coverage_ok].
Qed.

Lemma prune_merge_rewritten_ok indices before after :
  Forall coverage_ok indices -> Forall coverage_ok (prune_merge_rewritten indices before after).
Proof.
  unfold prune_merge_rewritten. revert indices. induction after as [|f l IH]; intros indices H; [done|]. cbn [foldl]. apply IH.
  case_match; [by apply prune_updated_fields_ok | done].
Qed.

Lemma retain_relevant_ok indices fields fragments :
  Forall coverage_ok indices -> Forall coverage_ok (retain_relevant_indices indices fields fragments).
Proof.
  intros H. unfold retain_relevant_indices. apply Forall_forall. intros ix Hix. rewrite Forall_forall in H. apply H.
  apply (elem_of_sublist _ _ _ Hix). etrans; [apply kept_sublist | apply sublist_filter].
Qed.

Lemma set_sorted_ascending (s : gset Z) : ascending (set_sorted s) /\ (forall x, x ∈ set_sorted s <-> x ∈ s).
Proof.
  unfold set_sorted. assert (merge_sort Z.le (elements s) ≡ₚ elements s) as Hp by apply merge_sort_Permutation. split.
  - apply sorted_nodup_ascending; [apply StronglySorted_merge_sort; apply _ | rewrite Hp; apply NoDup_elements].
  - intros x. by rewrite Hp, elem_of_elements.
Qed.

Lemma recalculate_bitmap_ok ids groups out :
  Forall is_u32 ids -> recalculate_bitmap ids groups = Ok out -> ascending out /\ Forall is_u32 out.
Proof.
  intros Hu. unfold recalculate_bitmap, mbind, res_bind. destruct (fold_res _ _ _) as [s|] eqn:E; [|done]. intros [= <-].
  destruct (set_sorted_ascending s) as [Ha Hin]. split; [done|]. apply Forall_forall. intros x Hx%Hin. revert x Hx.
  change (set_Forall is_u32 s). assert (set_Forall is_u32 (list_to_set ids : gset Z)) as H0.
  { intros x Hx%elem_of_list_to_set. rewrite Forall_forall in Hu. auto. }
  revert E H0. generalize (list_to_set ids : gset Z) at 1. intros old. generalize (list_to_set ids : gset Z). induction groups as [|g gs IH]; intros s0.
  - by intros [= ->].
  - cbn [fold_res]. unfold mbind, res_bind. destruct (recalculate_group old s0 g) as [s1|] eqn:E1; [|done]. intros E2 H0. apply (IH s1 E2).
    unfold recalculate_group in E1. repeat case_match; simplify_eq; [done|].
    intros x [Hx|[Hx _]%elem_of_difference]%elem_of_union; [|by apply H0].
    apply elem_of_list_to_set, list_elem_of_fmap in Hx as (f & -> & _). apply u32_range.
Qed.

Lemma present_coverage_ok present index : coverage_ok index -> coverage_ok (present_coverage present index).
Proof. intros [Ha Hu]. unfold present_coverage. case_match; [done|]. split; [by apply ascending_filter | by apply Forall_filter]. Qed.

Lemma create_step_ok present indices created out :
  coverage_ok created -> Forall coverage_ok indices -> create_step present indices created = Ok out -> Forall coverage_ok out.
Proof.
  intros Hc Hi. unfold create_step. pose proof (present_coverage_ok present created Hc). repeat case_match; intros [= <-].
  - by apply Forall_insert.
  - apply Forall_app; auto.
Qed.

Definition new_of (groups : list RewriteGroup) : list pb.DataFragment := concat (new_fragments <$> groups).

(** The groups of a rewrite: every new fragment has an id of its own. *)
Lemma rewrite_groups_ids base groups R k fs out :
  manifest_ok base -> 0 <= k -> next_fragment_id base + k + missing_ids (new_of groups) < 2 ^ 64 ->
  apart base (k + missing_ids (new_of groups)) (R ++ carried (new_of groups)) -> numbered base R k (ids_of fs) ->
  fold_res rewrite_group (assign_groups groups (next_fragment_id base + k)) fs = Ok out ->
  numbered base (R ++ carried (new_of groups)) (k + missing_ids (new_of groups)) (ids_of out).
Proof.
  intros Hok. destruct (next_fragment_id_above base Hok) as (_ & _ & _ & Hnn). revert R k fs. induction groups as [|g gs IH]; intros R k fs Hk Hb Hap Hnum.
  { cbn. intros [= <-]. change (missing_ids (new_of [])) with 0. change (carried (new_of [])) with (@nil Z). by rewrite Z.add_0_r, app_nil_r. }
  change (new_of (g :: gs)) with (new_fragments g ++ new_of gs) in *. rewrite missing_ids_app, carried_app, app_assoc, Z.add_assoc in *.
  pose proof (missing_ids_range (new_fragments g)). pose proof (missing_ids_range (new_of gs)).
  cbn [assign_groups]. destruct (assign_ids_ids (new_fragments g) (next_fragment_id base + k)) as [Hids Hnext]; [lia | lia|].
  destruct (assign_ids (new_fragments g) _) as [news next']. cbn [fst snd] in *. subst next'. cbn [fold_res]. unfold mbind, res_bind.
  destruct (rewrite_group fs _) as [fs1|] eqn:E; [|done]. rewrite <- (Z.add_assoc (next_fragment_id base)). apply IH; [lia | lia | done|].
  unfold rewrite_group in E. cbn [old_fragments new_fragments] in E. case_match; [by case_match|]. injection E as <-.
  unfold ids_of in *. rewrite fmap_app. eapply numbered_extend; [done | done | lia | | done | apply fmap_sublist, sublist_filter | done].
  destruct Hap as [Hn Hf]. apply NoDup_app in Hn as [Hn _]. apply Forall_app in Hf as [Hf _]. split; [done|].
  eapply Forall_impl; [exact Hf|]. cbn. intros id [? ?]. split; [done | lia].
Qed.

(** The ids an operation brings, and how many it is handed. *)
Definition brought (op : Operation) : list Z :=
  if (kind op =? kAppend) || (kind op =? kUpdate) then carried (fragments op)
  else if kind op =? kRewrite then carried (new_of (groups op)) else [].

Definition handed (op : Operation) : Z :=
  if (kind op =? kAppend) || (kind op =? kUpdate) then missing_ids (fragments op)
  else if kind op =? kRewrite then missing_ids (new_of (groups op))
  else if kind op =? kOverwrite then zlen (fragments op) else 0.

(** What an operation must bring: ids that clash with nothing and fit the mark (none, or reserved ones, as a
    compaction's); a merge of no more fragments than the version has; coverages as bitmaps are read; a
    reservation that fits. *)
Record op_ok (base : pb.Manifest) (op : Operation) : Prop := {
  op_brought : apart base (handed op) (brought op);
  op_fits : Forall is_u32 (brought op);
  op_merge : kind op = kMerge -> zlen (fragments op) <= zlen (pb.mf_fragments base);
  op_indices : kind op = kCreateIndex -> Forall coverage_ok (new_indices op);
  op_reserve : kind op = kReserveFragments -> 0 <= reserve op /\ default 0 (pb.mf_max_fragment_id base) + reserve op < 2 ^ 32
}.

(** How many ids it can take. *)
Definition new_count (op : Operation) : Z := zlen (fragments op) + zlen (concat (new_fragments <$> groups op)).

Lemma handed_range op : 0 <= handed op <= new_count op.
Proof.
  unfold handed, new_count, new_of. pose proof (missing_ids_range (fragments op)). pose proof (missing_ids_range (concat (new_fragments <$> groups op))).
  repeat case_match; lia.
Qed.

Lemma dom_fragments_by_id fs : dom (fragments_by_id fs) = CommitConflicts.fragment_ids fs.
Proof.
  unfold fragments_by_id, CommitConflicts.fragment_ids.
  assert (forall m : gmap Z pb.DataFragment, dom (foldl (fun m f => <[pb.fr_id f := f]> m) m fs) = dom m ∪ list_to_set (pb.fr_id <$> fs)) as H.
  { induction fs as [|f fs IH]; intros m; cbn; [set_solver|]. rewrite IH, dom_insert_L. set_solver. }
  rewrite H. set_solver.
Qed.

Lemma merge_fragments_present fs original missing :
  fold_res (merge_fragment (fragments_by_id fs)) original missing = Ok [] -> ids_of original ⊆ ids_of fs.
Proof.
  assert (forall l m out, fold_res (merge_fragment (fragments_by_id fs)) l m = Ok out -> exists rest, out = m ++ rest) as Happ.
  { induction l as [|f l IH]; intros m out; cbn [fold_res]; [intros [= <-]; exists []; by rewrite app_nil_r|].
    unfold mbind, res_bind, merge_fragment at 1. repeat case_match; intros Hr; simplify_eq; [by apply IH in Hr|].
    apply IH in Hr as [rest ->]. rewrite <- app_assoc. eauto. }
  revert missing. induction original as [|f l IH]; intros missing; [set_solver|]. cbn [fold_res]. unfold mbind, res_bind, merge_fragment at 1.
  destruct (fragments_by_id fs !! pb.fr_id f) as [it|] eqn:E.
  - case_match; [|done]. intros Hr%IH. apply elem_of_dom_2 in E. rewrite dom_fragments_by_id in E. unfold CommitConflicts.fragment_ids in E.
    apply elem_of_list_to_set in E. unfold ids_of in *. rewrite fmap_cons. set_solver.
  - intros [rest Hr]%Happ. by destruct missing.
Qed.

(** A merge that passes [merge_valid] with as many fragments as the version has the version's ids. *)
Lemma merge_valid_ids base op u :
  manifest_ok base -> zlen (fragments op) <= zlen (pb.mf_fragments base) -> merge_valid base op = Ok u ->
  ids_of (pb.mf_fragments base) ≡ₚ ids_of (fragments op).
Proof.
  intros Hok Hlen. unfold merge_valid. destruct (Z.ltb_spec (zlen (fragments op)) (zlen (pb.mf_fragments base))); [done|].
  unfold mbind, res_bind. destruct (fold_res _ _ _) as [missing|] eqn:E; [|done]. case_bool_decide as Hm; [|done]. subst missing. intros _.
  apply submseteq_length_Permutation; [|unfold ids_of, zlen in *; rewrite !length_fmap; lia].
  apply NoDup_submseteq; [apply ascending_NoDup, Hok|]. by eapply merge_fragments_present.
Qed.

(** A next manifest that differs from the base in its fragments and indices (and members without ids). *)
Lemma arm_intro base R k next :
  manifest_ok base -> numbered base R k (ids_of (pb.mf_fragments next)) -> Forall coverage_ok (pb.mf_indices next) ->
  pb.mf_max_fragment_id next = pb.mf_max_fragment_id base -> arm_ok base R k next.
Proof. intros Hok Hn Hi Hm. split; [done | done | rewrite Hm; apply Hok | intros mx Hmx; exists mx; by rewrite Hm]. Qed.

Lemma same_fragments base R k next :
  manifest_ok base -> ids_of (pb.mf_fragments next) = ids_of (pb.mf_fragments base) -> Forall coverage_ok (pb.mf_indices next) ->
  pb.mf_max_fragment_id next = pb.mf_max_fragment_id base -> arm_ok base R k next.
Proof.
  intros Hok Hids Hi Hm. apply arm_intro; [done | | done | done]. rewrite Hids. apply numbered_subset; [|done].
  apply ascending_NoDup, Hok.
Qed.

Lemma kept_numbered base removed updated :
  manifest_ok base -> keyed updated ->
  let ids := ids_of (keep_fragments removed updated (pb.mf_fragments base)) in
  NoDup ids /\ ids ⊆ ids_of (pb.mf_fragments base).
Proof.
  intros Hok Hk ids. unfold ids. rewrite keep_fragments_ids by done. split; [apply NoDup_filter, ascending_NoDup, Hok|].
  intros id [_ ?]%list_elem_of_filter. done.
Qed.

(** The manifest the switch starts from has the base's fragments. *)
Definition similar (base next : pb.Manifest) : Prop :=
  pb.mf_fragments next = pb.mf_fragments base /\ pb.mf_indices next = pb.mf_indices base /\
  pb.mf_max_fragment_id next = pb.mf_max_fragment_id base.

Lemma validate_merge base op u : validate (Some base) op = Ok u -> kind op = kMerge -> merge_valid base op = Ok u.
Proof.
  unfold validate, mbind, res_bind. intros H E. rewrite E in H. cbn [Z.eqb Pos.eqb kOverwrite kAppend kMerge kUpdate orb] in H. by destruct (files_have_fields _).
Qed.

Lemma start_similar base op : similar base (start (Some base) op).
Proof. unfold start, similar. repeat case_match; done. Qed.

Section invariant.
  Context (encode_data_fragment : pb.DataFragment -> list Z).
  Context (decode_data_file : list Z -> option pb.DataFile).
  Context (make_index_metadata :
    list Z -> list Z -> string -> Z -> list Z -> string -> Z -> Z -> list (string * Z) -> list Z -> pb.IndexMetadata).
  Context (limits : ReadLimits).
  (** [make_index_metadata] decodes the coverage it encoded. *)
  Hypothesis make_coverage : forall uuid fields name version ids url index_version created files details,
    pb.ix_fragment_ids (make_index_metadata uuid fields name version ids url index_version created files details) = ids.

Lemma apply_append_ok base stable v op next out :
  let fs := fragments op in
  manifest_ok base -> similar base next -> apart base (missing_ids fs) (carried fs) -> next_fragment_id base + missing_ids fs < 2 ^ 64 ->
  apply_append stable v (next_fragment_id base) op next = Ok out -> arm_ok base (carried fs) (missing_ids fs) out.
Proof.
  intros fs Hok (Hf & Hi & Hm) Hu Hb. unfold apply_append, mbind, res_bind. fold fs.
  pose proof (numbered_assign base fs (ids_of (pb.mf_fragments base)) Hok Hu Hb (ascending_NoDup _ (ok_sorted _ Hok)) ltac:(done)) as Hids.
  destruct (assign_ids _ _) as [added n']. cbn [fst] in Hids. destruct (stamp_added stable v added next) as [[added' next']|] eqn:E; [|done].
  apply stamp_added_ids in E as [Ha [n ->]]. intros [= <-]. apply arm_intro; cbn; [done | | by rewrite Hi; apply Hok | done].
  unfold ids_of in *. by rewrite fmap_app, Ha, Hf.
Qed.

Lemma apply_delete_ok base R k op next out :
  manifest_ok base -> similar base next -> apply_delete op next = Ok out -> arm_ok base R k out.
Proof.
  intros Hok (Hf & Hi & Hm) [= <-]. apply arm_intro; cbn; [done | | apply retain_relevant_ok; rewrite Hi; apply Hok | done].
  rewrite Hf. destruct (kept_numbered base (list_to_set (removed_ids op)) (fragments_by_id (updated_fragments op)) Hok (fragments_by_id_keyed _)).
  by apply numbered_subset.
Qed.

Lemma apply_update_ok base stable v op next out :
  let fs := fragments op in
  manifest_ok base -> similar base next -> apart base (missing_ids fs) (carried fs) -> next_fragment_id base + missing_ids fs < 2 ^ 64 ->
  apply_update limits stable v (next_fragment_id base) op next = Ok out -> arm_ok base (carried fs) (missing_ids fs) out.
Proof.
  intros fs Hok (Hf & Hi & Hm) Hu Hb. unfold apply_update, mbind, res_bind. fold fs.
  set (kept0 := keep_fragments _ _ _). destruct (if stable && rewrite_columns op then _ else _) as [kept|] eqn:Ek; [|done].
  assert (ids_of kept = ids_of kept0) as Hk by (destruct (stable && rewrite_columns op); [by eapply stamp_updated_rows_ids | by injection Ek as <-]).
  assert (numbered base (carried fs) (missing_ids fs) (ids_of kept0 ++ ids_of (assign_ids fs (next_fragment_id base)).1)) as Hids.
  { unfold kept0. rewrite Hf.
    destruct (kept_numbered base (list_to_set (removed_ids op)) (fragments_by_id_first (updated_fragments op)) Hok (fragments_by_id_first_keyed _)).
    by apply numbered_assign. }
  destruct (assign_ids _ _) as [added n']. cbn [fst] in Hids. destruct (stamp_added stable v added _) as [[added' next']|] eqn:E; [|done].
  apply stamp_added_ids in E as [Ha [n ->]]. intros [= <-]. apply arm_intro; cbn; [done | | | done].
  - unfold ids_of in *. by rewrite fmap_app, Ha, Hk.
  - apply retain_relevant_ok, prune_updated_fields_ok. rewrite Hi. apply Hok.
Qed.

Lemma apply_overwrite_ok base stable v op next out :
  manifest_ok base -> similar base next -> next_fragment_id base + zlen (fragments op) < 2 ^ 64 ->
  apply_overwrite stable v (next_fragment_id base) op next = Ok out -> arm_ok base [] (zlen (fragments op)) out.
Proof.
  intros Hok (Hf & Hi & Hm) Hb. destruct (next_fragment_id_above base Hok) as (_ & _ & _ & Hnn). unfold apply_overwrite, mbind, res_bind.
  destruct (stamp_added _ _ _ _) as [[added' next']|] eqn:E; [|done]. apply stamp_added_ids in E as [Ha [n ->]].
  rewrite renumber_ids in Ha by lia. intros Hout.
  assert (exists c u, out = pb.set_manifest_unknown (pb.set_config c (pb.set_index_section_error "" (pb.set_indices [] (pb.set_fragments added' (pb.set_next_row_id n next))))) u) as (c & u & ->).
  { case_match; [injection Hout as <-; by exists (config_upserts op ∪ pb.mf_config next), (pb.mf_unknown next)|]. destruct (fold_res _ _ _); [|done]. injection Hout as <-. by eexists _, _. }
  apply arm_intro; cbn; [done | | constructor | done]. rewrite Ha.
  pose proof (zlen_nonneg (fragments op)). split; [apply NoDup_seqZ|]. apply Forall_forall. intros id Hid%elem_of_seqZ. lia.
Qed.

Lemma apply_rewrite_ok base op next out :
  let fs := new_of (groups op) in
  manifest_ok base -> similar base next -> apart base (missing_ids fs) (carried fs) -> next_fragment_id base + missing_ids fs < 2 ^ 64 ->
  apply_rewrite make_index_metadata (next_fragment_id base) op next = Ok out -> arm_ok base (carried fs) (missing_ids fs) out.
Proof.
  intros fs Hok (Hf & Hi & Hm) Hg Hb. unfold apply_rewrite, mbind, res_bind.
  destruct (fold_res rewrite_group _ _) as [fs'|] eqn:E1; [|done]. destruct (fold_res (rewritten_step _ _) _ _) as [[seen ixs]|] eqn:E2; [|done].
  intros [= <-]. apply arm_intro; cbn; [done | | | done].
  - rewrite <- (Z.add_0_r (next_fragment_id base)) in E1. apply (rewrite_groups_ids base (groups op) [] 0) in E1; [exact E1 | done | lia | fold fs; lia | done|].
    rewrite Hf. apply numbered_subset; [apply ascending_NoDup, Hok | done].
  - eapply (fold_res_invariant (fun s => Forall coverage_ok s.2) (fun _ => True)) in E2; [done | | by apply Forall_true | cbn; rewrite Hi; apply Hok].
    intros [seen' ixs'] ri s' Hixs _. unfold rewritten_step. case_match; [done|]. case_match; [|by intros [= <-]].
    destruct p as [i it]. unfold mbind, res_bind. destruct (recalculate_bitmap _ _) as [ids|] eqn:Er; [|done]. intros [= <-]. cbn.
    apply Forall_insert; [done|]. unfold coverage_ok. rewrite make_coverage. eapply recalculate_bitmap_ok; [|done].
    match goal with H : list_find _ _ = _ |- _ => apply list_find_Some in H as (Hx & _) end. rewrite Forall_forall in Hixs. apply Hixs.
    by eapply list_elem_of_lookup_2.
Qed.

Lemma apply_project_ok base R k next out : manifest_ok base -> similar base next -> apply_project next = Ok out -> arm_ok base R k out.
Proof.
  intros Hok (Hf & Hi & Hm) [= <-]. apply same_fragments; cbn; [done | | apply retain_relevant_ok; rewrite Hi; apply Hok | done].
  unfold ids_of. rewrite Hf, <- list_fmap_compose. by apply list_fmap_ext.
Qed.

Lemma apply_create_index_ok base R k op next out :
  manifest_ok base -> similar base next -> Forall coverage_ok (new_indices op) -> apply_create_index op next = Ok out -> arm_ok base R k out.
Proof.
  intros Hok (Hf & Hi & Hm) Hc. unfold apply_create_index, mbind, res_bind. destruct (fold_res _ _ _) as [ixs|] eqn:E; [|done]. intros [= <-].
  apply same_fragments; cbn; [done | by rewrite Hf | | done].
  eapply (fold_res_invariant (Forall coverage_ok) coverage_ok) in E; [done | intros; by eapply create_step_ok | done |].
  assert (Forall coverage_ok (pb.mf_indices next)) as H0 by (rewrite Hi; apply Hok). clear -H0. revert H0. generalize (pb.mf_indices next).
  induction (removed_indices op) as [|g l IH]; intros ixs H0; [done|]. cbn [foldl]. apply IH. by apply Forall_filter.
Qed.

Lemma apply_kind_ok base stable v op next out :
  manifest_ok base -> similar base next -> op_ok base op -> next_fragment_id base + handed op < 2 ^ 64 ->
  (kind op = kMerge -> ids_of (pb.mf_fragments base) ≡ₚ ids_of (fragments op)) ->
  apply_kind encode_data_fragment decode_data_file make_index_metadata limits stable v (next_fragment_id base) base op next = Ok out ->
  arm_ok base (brought op) (handed op) out.
Proof.
  intros Hok Hsim [Hbr _ _ Hix Hres] Hb Hmg. unfold apply_kind. unfold brought, handed in *. destruct (Z.eqb_spec (kind op) kAppend) as [E|_].
  { by apply apply_append_ok. }
  destruct (Z.eqb_spec (kind op) kDelete) as [E|_]; [by apply apply_delete_ok|].
  destruct (Z.eqb_spec (kind op) kUpdate) as [E|_].
  { by apply apply_update_ok. }
  cbn [orb] in *. destruct (Z.eqb_spec (kind op) kOverwrite) as [E|_].
  { rewrite E in *. cbn [Z.eqb Pos.eqb kRewrite kOverwrite] in *. by apply apply_overwrite_ok. }
  destruct (Z.eqb_spec (kind op) kRewrite) as [E|_].
  { by apply apply_rewrite_ok. }
  destruct (Z.eqb_spec (kind op) kMerge) as [E|_].
  { intros [= <-]. destruct Hsim as (Hf & Hi & Hm). apply arm_intro; cbn; [done | | | done].
    - apply numbered_subset; rewrite <- (Hmg E); [apply ascending_NoDup, Hok | done].
    - apply retain_relevant_ok, prune_merge_rewritten_ok. rewrite Hi. apply Hok. }
  destruct (Z.eqb_spec (kind op) kProject) as [E|_]; [by apply apply_project_ok|].
  destruct Hsim as (Hf & Hi & Hm). assert (Forall coverage_ok (pb.mf_indices next)) as Hci by (rewrite Hi; apply Hok).
  assert (forall m, pb.mf_fragments m = pb.mf_fragments next -> pb.mf_indices m = pb.mf_indices next ->
    pb.mf_max_fragment_id m = pb.mf_max_fragment_id next -> arm_ok base [] 0 m) as Hsame.
  { intros m Hmf Hmi Hmm. apply same_fragments; [done | by rewrite Hmf, Hf | by rewrite Hmi | by rewrite Hmm]. }
  destruct (Z.eqb_spec (kind op) kReserveFragments) as [E|_].
  { intros [= <-]. destruct (Hres E) as [Hr1 Hr2]. assert (0 <= default 0 (pb.mf_max_fragment_id base)) as Hd.
    { destruct (pb.mf_max_fragment_id base) eqn:Em; [|done]. by destruct (ok_max _ Hok _ Em). }
    split; cbn; [| done | intros mx [= <-]; apply u32_range | intros mx Hmx].
    - rewrite Hf. apply numbered_subset; [apply ascending_NoDup, Hok | done].
    - eexists. split; [done|]. rewrite Hmx in *. cbn in *. rewrite u32_small by (unfold is_u32; lia). lia. }
  destruct (Z.eqb_spec (kind op) kUpdateConfig) as [E|_].
  { unfold apply_update_config, mbind, res_bind. destruct (fold_res _ _ _); [|done]. intros [= <-]. apply Hsame; repeat case_match; done. }
  destruct (Z.eqb_spec (kind op) kCreateIndex) as [E|_]; [apply apply_create_index_ok; auto; done|].
  destruct (Z.eqb_spec (kind op) kDataReplacement) as [E|_].
  { intros (Hids & changed & ->)%data_replacement_ids. apply same_fragments; cbn in *; [done | by rewrite Hids, Hf | by apply prune_updated_fields_ok | done]. }
  destruct (Z.eqb_spec (kind op) kUpdateBases) as [E|_].
  { unfold apply_update_bases, mbind, res_bind. destruct (BasePaths.read_base_paths next); [|done]. destruct (fold_res _ _ _); [|done].
    intros [= <-]. by apply Hsame. }
  destruct (Z.eqb_spec (kind op) kDataOverlay) as [E|_]; [|done].
  unfold apply_data_overlay, mbind, res_bind. destruct (fold_res _ _ _) as [fs|] eqn:Ef; [|done]. intros [= <-].
  apply fold_res_ids in Ef; [|intros ? ? ?; apply overlay_step_ids]. apply same_fragments; cbn; [done | by rewrite Ef, Hf | done | done].
Qed.

End invariant.

(** ** Finishing *)

Lemma foldl_max_ids fs n :
  let m := foldl (fun max_id f => Z.max max_id (pb.fr_id f)) n fs in
  n <= m /\ (forall id, id ∈ ids_of fs -> id <= m) /\ (m = n \/ m ∈ ids_of fs).
Proof.
  unfold ids_of. revert n. induction fs as [|f fs IH]; intros n; cbn [foldl].
  { split_and!; [done | by intros id ?%elem_of_nil | by left]. }
  destruct (IH (Z.max n (pb.fr_id f))) as (H1 & H2 & H3). rewrite fmap_cons. cbn zeta. split_and!; [lia | |].
  - intros id [->|Hid]%elem_of_cons; [lia | by apply H2].
  - destruct H3 as [->|H3]; [|right; by apply elem_of_cons; right]. destruct (Z.max_spec n (pb.fr_id f)) as [[_ ->]|[_ ->]]; [|by left].
    right. apply elem_of_cons. by left.
Qed.

Lemma finish_members stable next :
  pb.mf_fragments (finish stable next) = drop_tombstone_files <$> stable_sort_by pb.fr_id (pb.mf_fragments next) /\
  pb.mf_indices (finish stable next) = pb.mf_indices next /\
  pb.mf_max_fragment_id (finish stable next) =
    high_water (pb.set_fragments (drop_tombstone_files <$> stable_sort_by pb.fr_id (pb.mf_fragments next)) next).
Proof. unfold finish. destruct stable; done. Qed.

Lemma finish_ids stable next : ids_of (pb.mf_fragments (finish stable next)) = ids_of (stable_sort_by pb.fr_id (pb.mf_fragments next)).
Proof.
  destruct (finish_members stable next) as (-> & _). unfold ids_of. rewrite <- list_fmap_compose. by apply list_fmap_ext.
Qed.

Lemma finish_ok base R k stable next :
  manifest_ok base -> arm_ok base R k next -> Forall is_u32 R -> next_fragment_id base + k <= 2 ^ 32 ->
  manifest_ok (finish stable next) /\
  (forall mx, pb.mf_max_fragment_id base = Some mx -> exists mx', pb.mf_max_fragment_id (finish stable next) = Some mx' /\ mx <= mx') /\
  (forall id, id ∈ ids_of (pb.mf_fragments (finish stable next)) <-> id ∈ ids_of (pb.mf_fragments next)).
Proof.
  intros Hok [[Hn Hf] Hci Hmax Hhigh] HR Hk. destruct (next_fragment_id_above base Hok) as (Hb1 & _ & _ & Hnn).
  assert (forall id, id ∈ ids_of (pb.mf_fragments (finish stable next)) <-> id ∈ ids_of (pb.mf_fragments next)) as Hin.
  { intros id. rewrite finish_ids. unfold ids_of. by rewrite stable_sort_by_perm. }
  assert (forall id, id ∈ ids_of (pb.mf_fragments next) -> is_u32 id) as Hr.
  { intros id Hid. rewrite Forall_forall in Hf. destruct (Hf id Hid) as [Hb|[Hb|?]]; [|by rewrite Forall_forall in HR; apply HR | unfold is_u32; lia].
    destruct (ok_high _ Hok _ Hb) as (mx & Hmx & ?). pose proof (ok_max _ Hok _ Hmx). unfold is_u32 in *. lia. }
  set (fs := drop_tombstone_files <$> stable_sort_by pb.fr_id (pb.mf_fragments next)).
  destruct (finish_members stable next) as (Hfs & Hixs & Hmx). fold fs in Hfs, Hmx. unfold high_water in Hmx. cbn [pb.mf_max_fragment_id pb.mf_fragments pb.set_fragments] in Hmx.
  destruct (foldl_max_ids fs (default 0 (pb.mf_max_fragment_id next))) as (H1 & H2 & H3).
  set (M := foldl _ _ _) in *.
  assert (is_u32 M) as HM.
  { destruct H3 as [->|H3]; [|apply Hr, Hin; by rewrite Hfs]. destruct (pb.mf_max_fragment_id next) eqn:E; cbn; [by apply Hmax | done]. }
  assert (forall mx', pb.mf_max_fragment_id (finish stable next) = Some mx' -> mx' = M) as HmM.
  { intros mx'. rewrite Hmx. destruct (pb.mf_max_fragment_id next), fs; intros [= <-]; by apply u32_small. }
  assert (forall mx, pb.mf_max_fragment_id next = Some mx -> pb.mf_max_fragment_id (finish stable next) = Some M /\ mx <= M) as Hnx.
  { intros mx E. rewrite Hmx, u32_small by done. rewrite E in H1 |- *. by destruct fs. }
  split_and!; [split| |done].
  - rewrite finish_ids. by apply stable_sort_ids.
  - intros id Hid. rewrite Hfs in Hid. exists M. split; [|split; [|by apply H2]].
    + rewrite Hmx. destruct fs; [by apply elem_of_nil in Hid|]. rewrite u32_small by done. by destruct (pb.mf_max_fragment_id next).
    + rewrite <- Hfs in Hid. apply Hin, Hr in Hid. unfold is_u32 in Hid. lia.
  - intros mx' Hx. by rewrite (HmM _ Hx).
  - by rewrite Hixs.
  - intros mx E. destruct (Hhigh mx E) as (mx' & E' & Hle). destruct (Hnx mx' E') as [-> ?]. exists M. split; [done | lia].
Qed.

(** An id no fragment of the version has or ever had, and no index claims. *)
Definition fresh_id (base : pb.Manifest) (id : Z) : Prop :=
  id ∉ ids_of (pb.mf_fragments base) /\ (forall mx, pb.mf_max_fragment_id base = Some mx -> mx < id) /\
  (forall ix, ix ∈ pb.mf_indices base -> id ∉ pb.ix_fragment_ids ix).

(** The next version of a valid one: valid, its high-water mark no lower, the id of each fragment kept, brought
    by the operation, or fresh. *)
Definition next_ok (base : pb.Manifest) (op : Operation) (next : pb.Manifest) : Prop :=
  manifest_ok next /\
  (forall mx, pb.mf_max_fragment_id base = Some mx -> exists mx', pb.mf_max_fragment_id next = Some mx' /\ mx <= mx') /\
  (forall id, id ∈ ids_of (pb.mf_fragments next) -> id ∈ ids_of (pb.mf_fragments base) \/ id ∈ brought op \/ fresh_id base id).

Section theorems.
  Context (encode_data_fragment : pb.DataFragment -> list Z).
  Context (decode_data_file : list Z -> option pb.DataFile).
  Context (make_index_metadata :
    list Z -> list Z -> string -> Z -> list Z -> string -> Z -> Z -> list (string * Z) -> list Z -> pb.IndexMetadata).
  Context (limits : ReadLimits).
  Hypothesis make_coverage : forall uuid fields name version ids url index_version created files details,
    pb.ix_fragment_ids (make_index_metadata uuid fields name version ids url index_version created files details) = ids.

Lemma apply_operation_ok base op stable_ids v next :
  manifest_ok base -> op_ok base op -> next_fragment_id base + handed op <= 2 ^ 32 ->
  apply_operation encode_data_fragment decode_data_file make_index_metadata limits (Some base) op stable_ids v = Ok next ->
  next_ok base op next.
Proof.
  intros Hok Hop Hk. unfold apply_operation, mbind, res_bind. destruct (validate (Some base) op) eqn:Ev; [|done].
  change (default pb.Manifest0 (Some base)) with base.
  set (stable := is_stable _ _ _ _). destruct (apply_kind _ _ _ _ _ _ _ _ _ _) as [mid|] eqn:E; [|done]. intros [= <-].
  apply apply_kind_ok in E; [|done | done | apply start_similar | done | lia | intros Em; eapply merge_valid_ids; [done | by apply Hop | by eapply validate_merge]].
  destruct (finish_ok base (brought op) (handed op) stable mid Hok E (op_fits _ _ Hop) Hk) as (Hm & Hhigh & Hin). split_and!; [done | done|].
  intros id Hid%Hin. destruct E as [[_ Hf] _ _ _]. rewrite Forall_forall in Hf. destruct (Hf id Hid) as [|[|Hr]]; [by left | by right; left|]. do 2 right.
  destruct (next_fragment_id_above base Hok) as (H1 & H2 & H3 & _). split_and!.
  - intros Hb%H1. lia.
  - intros mx Hmx%H2. lia.
  - intros ix Hix Hc. specialize (H3 ix id Hix Hc). lia.
Qed.

(** C13: (invariant): applying an operation to a valid version gives a valid one: the fragments are in
    ascending order of distinct ids, at or below a high-water mark that never falls and fits its field,
    and the coverages of indices stay ascending; a fragment's id is one the version had, one the
    operation brought, or one that no fragment ever had and no index claims. The new fragments of an
    append, an update or a rewrite may come without ids (0), or, as a compaction's do, with reserved
    ones: distinct, no fragment's of the version and not among those handed out. Of a merge only its
    number of fragments is asked, no more than the version has: that they have the version's ids is then
    shown from the checks. New indices come with coverages as bitmaps are read, and ids are left for the
    fragments that take one or are reserved. Ids brought are not checked by the code:
    [append_duplicates_id] and [merge_duplicates_id] show what becomes of others. *)
Theorem apply_operation_invariant base op stable_ids v next :
  manifest_ok base -> op_ok base op -> next_fragment_id base + handed op <= 2 ^ 32 ->
  apply_operation encode_data_fragment decode_data_file make_index_metadata limits (Some base) op stable_ids v = Ok next ->
  next_ok base op next.
Proof. apply apply_operation_ok. Qed.

End theorems.

(** ** Concurrent changes of rows

    Appends, deletes and updates as functions on fragments: each existing one is removed, replaced or kept,
    and new ones are added. *)

Definition removes (op : Operation) : gset Z := if kind op =? kAppend then ∅ else list_to_set (removed_ids op).

Definition updates (op : Operation) : gmap Z pb.DataFragment :=
  if kind op =? kAppend then ∅ else if kind op =? kDelete then fragments_by_id (updated_fragments op)
  else fragments_by_id_first (updated_fragments op).

Definition adds (op : Operation) : list pb.DataFragment := if kind op =? kDelete then [] else fragments op.

Definition effect (op : Operation) (f : pb.DataFragment) : option pb.DataFragment :=
  if bool_decide (pb.fr_id f ∈ removes op) then None else Some (default f (updates op !! pb.fr_id f)).

(** The existing fragments an operation removes or replaces. *)
Definition touches (op : Operation) : gset Z := removes op ∪ dom (updates op).

Definition row_change (op : Operation) : Prop := kind op ∈ [kAppend; kDelete; kUpdate].

Lemma updates_keyed op : keyed (updates op).
Proof.
  unfold updates. repeat case_match; [|apply fragments_by_id_keyed | apply fragments_by_id_first_keyed].
  intros id f. by rewrite lookup_empty.
Qed.

Lemma effect_id op f g : effect op f = Some g -> pb.fr_id g = pb.fr_id f.
Proof.
  unfold effect. case_bool_decide; [done|]. intros [= <-]. destruct (updates op !! pb.fr_id f) eqn:E; [by apply updates_keyed in E | done].
Qed.

Lemma effect_untouched op f : pb.fr_id f ∉ touches op -> effect op f = Some f.
Proof.
  unfold effect, touches. rewrite not_elem_of_union, not_elem_of_dom. intros [Hr Hu]. rewrite bool_decide_eq_false_2 by done. by rewrite Hu.
Qed.

Lemma effect_touched op f g : pb.fr_id f = pb.fr_id g -> pb.fr_id f ∈ touches op -> effect op f = effect op g.
Proof.
  unfold effect, touches. intros <- [Hr|[h Hu]%elem_of_dom]%elem_of_union; [by rewrite bool_decide_eq_true_2|]. by rewrite Hu.
Qed.

Lemma omap_untouched op fs : (forall id, id ∈ ids_of fs -> id ∉ touches op) -> omap (effect op) fs = fs.
Proof.
  unfold ids_of. intros H. induction fs as [|f fs IH]; [done|]. rewrite fmap_cons in H. cbn [omap list_omap].
  rewrite effect_untouched by (apply H; set_solver). f_equal. apply IH. set_solver.
Qed.

Lemma omap_keep op fs :
  kind op <> kAppend -> keep_fragments (list_to_set (removed_ids op)) (updates op) fs = omap (effect op) fs.
Proof. intros Hk. unfold keep_fragments, effect, removes. rewrite (proj2 (Z.eqb_neq _ _)) by done. done. Qed.

Lemma omap_effect_ids op fs : ids_of (omap (effect op) fs) `sublist_of` ids_of fs.
Proof.
  unfold ids_of. induction fs as [|f fs IH]; [done|]. cbn [omap list_omap]. destruct (effect op f) as [g|] eqn:E.
  - rewrite !fmap_cons, (effect_id _ _ _ E). by constructor.
  - rewrite fmap_cons. by constructor.
Qed.

Lemma ascending_sublist l1 l2 : l1 `sublist_of` l2 -> ascending l2 -> ascending l1.
Proof.
  induction 1 as [|x l1 l2 Hs IH|x l1 l2 Hs IH]; intros H; [done | |]; apply ascending_cons in H as [H1 H2]; [|by apply IH].
  apply ascending_cons. split; [by apply IH|]. rewrite Forall_forall in H2 |- *. intros y Hy. apply H2. by eapply elem_of_sublist.
Qed.

Lemma ascending_ids_sorted fs : ascending (ids_of fs) -> StronglySorted (key_le pb.fr_id) fs.
Proof.
  unfold ids_of. induction fs as [|f fs IH]; [constructor|]. rewrite fmap_cons. intros [H1 H2]%ascending_cons. constructor; [by apply IH|].
  eapply Forall_impl; [exact (proj1 (Forall_fmap _ _ _) H2)|]. unfold key_le. cbn. intros. lia.
Qed.

Lemma only_tombstones_idemp f : drop_tombstone_files (drop_tombstone_files f) = drop_tombstone_files f.
Proof. unfold drop_tombstone_files, pb.set_files. cbn. by rewrite list_filter_filter_l by done. Qed.

(** Not a dataset with stable row ids. *)
Definition plain_ids (m : pb.Manifest) : Prop := Z.land (pb.mf_reader_feature_flags m) pb.kFlagStableRowIds = 0.

Lemma is_stable_plain base op : plain_ids base -> is_stable (Some base) op false (start (Some base) op) = false.
Proof.
  intros H. unfold is_stable. replace (pb.mf_reader_feature_flags (start (Some base) op)) with (pb.mf_reader_feature_flags base).
  - unfold plain_ids in H. by rewrite H.
  - unfold start. repeat case_match; done.
Qed.

(** New ids after those of a version. *)
Lemma changed_ids_ascending base op :
  manifest_ok base -> unnumbered (adds op) -> next_fragment_id base + zlen (adds op) < 2 ^ 64 ->
  ascending (ids_of (omap (effect op) (pb.mf_fragments base) ++ (assign_ids (adds op) (next_fragment_id base)).1)).
Proof.
  intros Hok Hu Hb. destruct (next_fragment_id_above base Hok) as (Hlt & _ & _ & Hnn).
  destruct (assign_ids_unnumbered (adds op) (next_fragment_id base) Hu) as [Hids _]; [lia | lia|].
  unfold ids_of at 1. rewrite fmap_app. fold (ids_of (omap (effect op) (pb.mf_fragments base))). fold (ids_of (assign_ids (adds op) (next_fragment_id base)).1).
  rewrite Hids. pose proof (omap_effect_ids op (pb.mf_fragments base)) as Hs. apply ascending_app. split_and!.
  - eapply ascending_sublist; [done | apply Hok].
  - apply seqZ_ascending.
  - intros x y Hx Hy%elem_of_seqZ. eapply elem_of_sublist in Hx; [|done]. specialize (Hlt x Hx). lia.
Qed.

Lemma plain_put_flag on flag m : Z.land flag pb.kFlagStableRowIds = 0 -> plain_ids m -> plain_ids (put_flag on flag m).
Proof.
  unfold plain_ids, put_flag, set_flag, clear_flag. intros Hf Hm. destruct on; cbn [pb.mf_reader_feature_flags pb.set_writer_feature_flags pb.set_reader_feature_flags].
  - by rewrite Z.land_lor_distr_l, Hm, Hf.
  - rewrite <- Z.land_assoc, (Z.land_comm (u64 _)), Z.land_assoc, Hm. done.
Qed.

Lemma plain_finish m : plain_ids m -> plain_ids (finish false m).
Proof. intros H. unfold finish. by repeat (apply plain_put_flag; [done|]). Qed.

Lemma row_change_op_ok base op : row_change op -> unnumbered (adds op) -> op_ok base op.
Proof.
  unfold row_change, adds. rewrite !elem_of_cons, elem_of_nil. intros Hk Hu.
  assert (brought op = []) as Hb.
  { unfold brought. destruct Hk as [Hk|[Hk|[Hk|[]]]]; rewrite Hk in *; cbn [Z.eqb Pos.eqb kAppend kDelete kUpdate kRewrite orb] in *;
      [by apply carried_unnumbered | done | by apply carried_unnumbered]. }
  split; rewrite ?Hb; [split; constructor | constructor | intros H; exfalso; rewrite H in Hk; unfold kAppend, kDelete, kUpdate, kMerge, kCreateIndex, kReserveFragments in *; lia..].
Qed.

Lemma dom_fragments_by_id_first fs : dom (fragments_by_id_first fs) = CommitConflicts.fragment_ids fs.
Proof.
  unfold fragments_by_id_first, CommitConflicts.fragment_ids. set (step := fun _ _ => _).
  assert (forall m : gmap Z pb.DataFragment, dom (foldl step m fs) = dom m ∪ list_to_set (pb.fr_id <$> fs)) as H.
  { induction fs as [|f fs IH]; intros m; cbn; [set_solver|]. rewrite IH. unfold step. destruct (m !! pb.fr_id f) eqn:E.
    - apply elem_of_dom_2 in E. set_solver.
    - rewrite dom_insert_L. set_solver. }
  rewrite H. set_solver.
Qed.

(** Compatible changes touch no common fragment. *)
Lemma compatible_disjoint ours theirs :
  row_change ours -> row_change theirs -> CommitConflicts.check_txn ours theirs = CommitConflicts.Compatible -> touches ours ## touches theirs.
Proof.
  unfold row_change. intros Ho Ht Hc.
  assert (forall op, kind op = kAppend -> touches op = ∅) as Happ by (intros op Hk; unfold touches, removes, updates; rewrite Hk; set_solver).
  assert (forall op, kind op ∈ [kDelete; kUpdate] -> touches op = CommitConflicts.touched op) as Htou.
  { intros op. rewrite !elem_of_cons, elem_of_nil. unfold touches, removes, updates, CommitConflicts.touched, CommitConflicts.delete_update_ids.
    intros [Hk|[Hk|[]]]; rewrite Hk; cbn [Z.eqb Pos.eqb kAppend kDelete kUpdate kRewrite kDataReplacement];
      rewrite ?dom_fragments_by_id, ?dom_fragments_by_id_first; set_solver. }
  apply elem_of_cons in Ho as [Ho|Ho]; [rewrite (Happ ours Ho); set_solver|].
  apply elem_of_cons in Ht as [Ht|Ht]; [rewrite (Happ theirs Ht); set_solver|].
  rewrite (Htou ours Ho), (Htou theirs Ht). rewrite CommitConflicts.check_txn_overlap in Hc by set_solver. by case_bool_decide.
Qed.

(** Both changes at once, fragment by fragment. *)
Definition merged_effect (ours theirs : Operation) (f : pb.DataFragment) : option pb.DataFragment :=
  if bool_decide (pb.fr_id f ∈ touches theirs) then effect theirs f else effect ours f.

Lemma omap_merged ours theirs (fs : list pb.DataFragment) :
  touches ours ## touches theirs ->
  drop_tombstone_files <$> omap (effect ours) (drop_tombstone_files <$> omap (effect theirs) fs) =
  drop_tombstone_files <$> omap (merged_effect ours theirs) fs.
Proof.
  intros Hd. induction fs as [|f fs IH]; [done|]. cbn [omap list_omap]. unfold merged_effect at 1. case_bool_decide as Ht.
  - destruct (effect theirs f) as [g|] eqn:E; [|done]. rewrite fmap_cons. cbn [omap list_omap].
    rewrite effect_untouched by (cbn; rewrite (effect_id _ _ _ E); set_solver). rewrite !fmap_cons, only_tombstones_idemp. f_equal. exact IH.
  - rewrite effect_untouched by done. rewrite fmap_cons. cbn [omap list_omap].
    destruct (decide (pb.fr_id f ∈ touches ours)) as [Hin|Hout].
    + rewrite (effect_touched ours (drop_tombstone_files f) f) by done. destruct (effect ours f); [|exact IH]. rewrite !fmap_cons. f_equal. exact IH.
    + rewrite !effect_untouched by done. rewrite !fmap_cons, only_tombstones_idemp. f_equal. exact IH.
Qed.

(** Renumbering changes neither the kind nor the fragments touched. *)
Lemma renumbered_kind op : kind (renumbered op) = kind op.
Proof. unfold renumbered. by case_match. Qed.

Lemma renumbered_effect op f : effect (renumbered op) f = effect op f.
Proof. unfold effect, removes, updates. rewrite renumbered_kind. unfold renumbered. by destruct (_ || _). Qed.

Lemma omap_renumbered op (fs : list pb.DataFragment) : omap (effect (renumbered op)) fs = omap (effect op) fs.
Proof. induction fs as [|f fs IH]; [done|]. cbn [omap list_omap]. by rewrite renumbered_effect, IH. Qed.

Lemma renumbered_adds op : row_change op -> adds (renumbered op) = (fun f => pb.set_fragment_id f 0) <$> adds op.
Proof.
  unfold row_change, adds, renumbered. rewrite !elem_of_cons, elem_of_nil. intros [Hk|[Hk|[Hk|[]]]];
    rewrite !Hk; cbn [orb Z.eqb Pos.eqb kAppend kDelete kUpdate]; cbn [kind set_fragments fragments]; by rewrite ?Hk.
Qed.

Lemma renumbered_unnumbered op : row_change op -> unnumbered (adds (renumbered op)).
Proof. intros Hr. rewrite renumbered_adds by done. unfold unnumbered. apply Forall_fmap, Forall_true. done. Qed.

(** ** The fragments after a change of rows *)

Section changes.
  Context (encode_data_fragment : pb.DataFragment -> list Z).
  Context (decode_data_file : list Z -> option pb.DataFile).
  Context (make_index_metadata :
    list Z -> list Z -> string -> Z -> list Z -> string -> Z -> Z -> list (string * Z) -> list Z -> pb.IndexMetadata).
  Context (limits : ReadLimits).

Lemma change_fragments base op v next_id b next out :
  row_change op -> similar b next ->
  apply_kind encode_data_fragment decode_data_file make_index_metadata limits false v next_id base op next = Ok out ->
  pb.mf_fragments out = omap (effect op) (pb.mf_fragments b) ++ (assign_ids (adds op) next_id).1.
Proof.
  unfold row_change. rewrite !elem_of_cons, elem_of_nil. intros [Hk|[Hk|[Hk|[]]]] (Hf & _ & _); unfold apply_kind; rewrite Hk; cbn [Z.eqb Pos.eqb kAppend kDelete kUpdate].
  - unfold apply_append, stamp_added, adds, mbind, res_bind. rewrite Hk. cbn [Z.eqb Pos.eqb kAppend kDelete].
    destruct (assign_ids (fragments op) next_id) as [added n]. intros [= <-]. cbn. by rewrite Hf, omap_untouched by (unfold touches, removes, updates; rewrite Hk; set_solver).
  - unfold apply_delete. intros [= <-]. cbn. rewrite Hf, <- omap_keep by (rewrite Hk; done). unfold updates, adds. rewrite Hk. cbn. by rewrite app_nil_r.
  - unfold apply_update, stamp_added, adds, mbind, res_bind. rewrite Hk. cbn [Z.eqb Pos.eqb kDelete kUpdate andb].
    destruct (assign_ids (fragments op) next_id) as [added n]. intros [= <-]. cbn. rewrite Hf, <- omap_keep by (rewrite Hk; done).
    unfold updates. rewrite Hk. done.
Qed.

Lemma apply_change base op v next :
  manifest_ok base -> plain_ids base -> row_change op -> unnumbered (adds op) -> next_fragment_id base + zlen (adds op) < 2 ^ 64 ->
  apply_operation encode_data_fragment decode_data_file make_index_metadata limits (Some base) op false v = Ok next ->
  pb.mf_fragments next = drop_tombstone_files <$> (omap (effect op) (pb.mf_fragments base) ++ (assign_ids (adds op) (next_fragment_id base)).1).
Proof.
  intros Hok Hp Hr Hu Hb. unfold apply_operation, mbind, res_bind. destruct (validate (Some base) op); [|done].
  rewrite (is_stable_plain base op Hp). destruct (apply_kind _ _ _ _ _ _ _ _ _ _) as [mid|] eqn:E; [|done]. intros [= <-].
  apply (change_fragments _ _ _ _ base) in E; [|done | apply start_similar].
  destruct (finish_members false mid) as (-> & _). rewrite E. f_equal. apply stable_sort_by_id, ascending_ids_sorted.
  by apply changed_ids_ascending.
Qed.

Lemma plain_apply base op v next :
  plain_ids base -> row_change op ->
  apply_operation encode_data_fragment decode_data_file make_index_metadata limits (Some base) op false v = Ok next -> plain_ids next.
Proof.
  intros Hp Hr. unfold apply_operation, mbind, res_bind. destruct (validate (Some base) op); [|done].
  rewrite (is_stable_plain base op Hp). destruct (apply_kind _ _ _ _ _ _ _ _ _ _) as [mid|] eqn:E; [|done]. intros [= <-]. apply plain_finish.
  assert (plain_ids (start (Some base) op)) as Hs by (unfold plain_ids, start in *; repeat case_match; done).
  unfold row_change in Hr. rewrite !elem_of_cons, elem_of_nil in Hr. unfold apply_kind in E.
  destruct Hr as [Hk|[Hk|[Hk|[]]]]; rewrite Hk in E; cbn [Z.eqb Pos.eqb kAppend kDelete kUpdate] in E.
  - unfold apply_append, stamp_added, mbind, res_bind in E. destruct (assign_ids _ _). by injection E as <-.
  - by injection E as <-.
  - unfold apply_update, stamp_added, mbind, res_bind in E. cbn [andb] in E. destruct (assign_ids _ _). by injection E as <-.
Qed.

Hypothesis make_coverage : forall uuid fields name version ids url index_version created files details,
  pb.ix_fragment_ids (make_index_metadata uuid fields name version ids url index_version created files details) = ids.


End changes.

(** ** Concrete versions *)

Definition sample_make (uuid fields : list Z) (name : string) (version : Z) (ids : list Z) (url : string) (index_version created : Z)
    (files : list (string * Z)) (details : list Z) : pb.IndexMetadata :=
  pb.mkIndexMetadata [] fields name version true ids false uuid url details index_version created files.

Definition sample_file (path : string) : pb.DataFile := pb.mkDataFile path [0] [0] 2 1 0 [].
Definition sample_fragment (id : Z) (path : string) : pb.DataFragment :=
  pb.mkDataFragment id [sample_file path] 10 pb.no_deletion_file [].
Definition sample_index : pb.IndexMetadata := sample_make (replicate 16 1) [0] "idx" 1 [0; 1; 5] "/lance.table.BTreeIndexDetails" 0 0 [] [].
Definition sample_base : pb.Manifest :=
  pb.set_fields [pb.mkField "x" "int64" 0 (-1) 2 true 1 ∅ false 0 0 []] (pb.set_indices [sample_index] (pb.set_max_fragment_id (Some 3)
    (pb.set_fragments [sample_fragment 0 "a"; sample_fragment 1 "b"; sample_fragment 3 "c"] pb.Manifest0))).

Lemma sample_base_ok : manifest_ok sample_base.
Proof.
  split.
  - apply ascending_cons. split; [|repeat constructor; vm_compute; done]. apply ascending_cons. split; [|repeat constructor; vm_compute; done].
    apply ascending_cons. split; constructor.
  - intros id Hid. exists 3. split; [done|]. unfold sample_base, ids_of in Hid. cbn in Hid. rewrite !elem_of_cons, elem_of_nil in Hid. lia.
  - intros mx [= <-]. unfold is_u32. lia.
  - repeat constructor; vm_compute; done.
Qed.

(** Theirs rewrites fragment 0 and removes fragment 1; ours rewrites fragment 3 and adds one. *)
Definition sample_theirs : Operation :=
  set_removed_ids [1] (set_updated_fragments [sample_fragment 0 "a2"] (set_kind kDelete Operation0)).
Definition sample_ours : Operation :=
  set_fragments [sample_fragment 4 "new"] (set_updated_fragments [sample_fragment 3 "c2"] (set_kind kUpdate Operation0)).

Definition sample_apply (base : pb.Manifest) (op : Operation) : res pb.Manifest :=
  apply_operation (fun _ => []) (fun _ => None) sample_make initial_read_limits (Some base) op false 2.
Definition sample_rebase (latest : pb.Manifest) (op : Operation) (theirs : list Operation) : res pb.Manifest :=
  rebase_operation (fun _ => []) (fun bytes => Some (sample_file "overlay")) sample_make initial_read_limits latest pb.Manifest0 op theirs 3.

(** A rewrite of fragments 0 and 1 by one that brings the reserved id 2 and one without an id. The ids 4 and 5
    were never used by a fragment, but the index claims 5: the latter takes 6. *)
Definition sample_rewrite : Operation :=
  set_groups [mkRewriteGroup [sample_fragment 0 "a"; sample_fragment 1 "b"] [sample_fragment 2 "new"; sample_fragment 0 "more"]]
    (set_kind kRewrite Operation0).

Lemma apply_operation_invariant_witness :
  exists next,
    sample_apply sample_base sample_rewrite = Ok next /\ ids_of (pb.mf_fragments next) = [2; 3; 6] /\ next_ok sample_base sample_rewrite next.
Proof.
  eexists. split; [vm_compute; reflexivity|]. split; [vm_compute; reflexivity|].
  apply (apply_operation_invariant (fun _ => []) (fun _ => None) sample_make initial_read_limits (fun _ _ _ _ _ _ _ _ _ _ => eq_refl)
    sample_base sample_rewrite false 2).
  - exact sample_base_ok.
  - split; [split; apply (bool_decide_unpack _); vm_compute; exact I | repeat constructor; vm_compute; done | done..].
  - vm_compute. done.
  - vm_compute. reflexivity.
Defined.


(** ** Findings *)

(** Ids that fragments bring are kept unchecked: an append of a fragment with an id of the version's makes a
    version with two fragments of that id. *)
Theorem append_duplicates_id :
  (next ← sample_apply sample_base (set_fragments [sample_fragment 3 "new"] (set_kind kAppend Operation0)); Ok (ids_of (pb.mf_fragments next)))
  = Ok [0; 1; 3; 3].
Proof. vm_compute. reflexivity. Qed.

(** So does a merge that names a fragment twice: its checks look each of the version's fragments up and count
    no fewer, and [3] is found. *)
Theorem merge_duplicates_id :
  (next ← sample_apply sample_base (set_fragments (pb.mf_fragments sample_base ++ [sample_fragment 3 "c"]) (set_kind kMerge Operation0));
   Ok (ids_of (pb.mf_fragments next)))
  = Ok [0; 1; 3; 3].
Proof. vm_compute. reflexivity. Qed.

Definition overlay_message : list Z := put_bytes_field 1 [] ++ put_bytes_field 2 (Roaring.encode [7]).

(** An overlay of fragment 0, against a delete from it: found compatible, and lost by the rebase, which
    puts the fragment back as the delete read it. *)
Theorem delete_rebase_loses_overlay :
  let theirs := set_overlay_groups [(0, [overlay_message])] (set_kind kDataOverlay Operation0) in
  let ours := set_updated_fragments [pb.mkDataFragment 0 [sample_file "a"] 10 (pb.mkDeletionFile true 0 1 9 1 []) []] (set_kind kDelete Operation0) in
  CommitConflicts.check_txn ours theirs = CommitConflicts.Compatible /\
  (latest ← sample_rebase sample_base theirs [];
   next ← sample_rebase latest ours [theirs];
   Ok (Overlays.fragment_has_overlays <$> pb.mf_fragments latest, Overlays.fragment_has_overlays <$> pb.mf_fragments next))
  = Ok ([true; false; false], [false; false; false]).
Proof. split; vm_compute; reflexivity. Qed.

End Transaction.
