(* ===== verification/TransactionFile.v ===== *)
(** * TransactionFile: the transaction a commit writes (src/table/transaction_file.cpp)

    The operation of a commit, read off the change from the version before or as the commit states it, and
    the transaction file it goes into. The encoders of the generated messages are nanom's and parameters. *)

From S2P Require Import Prelude ProtoWire Pb Operation TransactionChecks Transaction.

Module TransactionFile.
Import Operation.

(** ** Writers *)

Fixpoint varint_loop (fuel : nat) (v : Z) : list Z :=
  match fuel with
  | O => [u8 v]
  | S fuel => if 128 <=? v then u8 (Z.lor v 128) :: varint_loop fuel (Z.shiftr v 7) else [u8 v]
  end.

Definition varint (v : Z) : list Z := varint_loop 9 v.

Definition tag (field wire_type : Z) : list Z := varint (Z.lor (u32 (Z.shiftl field 3)) wire_type).

(** Zero is left out. *)
Definition put_uint (field v : Z) : list Z := if v =? 0 then [] else tag field 0 ++ varint v.

Definition put_bytes (field : Z) (b : list Z) : list Z := tag field 2 ++ varint (zlen b) ++ b.

Definition put_string (field : Z) (s : string) : list Z := if bool_decide (s = "") then [] else put_bytes field (bytes_of_string s).

Definition put_entry (field : Z) (key : string) (value : list Z) : list Z :=
  put_bytes field (put_string 1 key ++ put_bytes 2 value).

(** ** Maps in the order of their keys *)

Definition key_leb {V} (a b : string * V) : Prop := String.leb a.1 b.1 = true.
#[global] Instance key_leb_dec {V} : RelDecision (@key_leb V) := fun a b => bool_eq_dec _ _.

Definition map_entries {V} (m : gmap string V) : list (string * V) := merge_sort key_leb (map_to_list m).

(** An entry of an update map: a key with its value, or a key to delete. *)
Definition put_update (e : string * option string) : list Z :=
  put_bytes 1 (put_string 1 e.1 ++ match e.2 with Some v => put_bytes 2 (bytes_of_string v) | None => [] end).

(** The entries [update_map] writes: the values that are new or differ, then the keys that are gone. *)
Definition update_entries (before after : gmap string string) : list (string * option string) :=
  ((fun kv => (kv.1, Some kv.2)) <$> filter (fun kv => before !! kv.1 <> Some kv.2) (map_entries after)) ++
  ((fun kv => (kv.1, None)) <$> filter (fun kv => after !! kv.1 = None) (map_entries before)).

Definition update_map (before after : gmap string string) : list Z := concat (put_update <$> update_entries before after).

Definition as_strings (m : gmap string (list Z)) : gmap string string := string_of_bytes <$> m.

(** ** Nullability *)

Definition project_tightens_nullability (before after : pb.Manifest) : bool :=
  let nullable : gmap Z bool := foldl (fun m f => <[pb.fld_id f := pb.fld_nullable f]> m) ∅ (pb.mf_fields before) in
  existsb (fun f => match nullable !! pb.fld_id f with Some was => was && negb (pb.fld_nullable f) | None => false end) (pb.mf_fields after).

Definition children (m : pb.Manifest) (parent : Z) : list pb.Field := filter (fun f => pb.fld_parent_id f = parent) (pb.mf_fields m).

Definition named_child (fields : list pb.Field) (name : string) : option pb.Field := snd <$> list_find (fun o => pb.fld_name o = name) fields.

(** [subtree]: whether there is any new node, and any first new node that is not nullable. [None] when the
    recursion is deeper than [fuel]. *)
Fixpoint subtree (fuel : nat) (before after : pb.Manifest) (old_parent new_parent : Z) : option (bool * bool) :=
  match fuel with
  | O => None
  | S fuel =>
      let old_children := children before old_parent in
      foldl (fun acc field =>
          '(any_new, any_required) ← acc;
          match named_child old_children (pb.fld_name field) with
          | Some it =>
              '(n, r) ← subtree fuel before after (pb.fld_id it) (pb.fld_id field);
              Some (any_new || n, any_required || r)
          | None => Some (true, any_required || negb (pb.fld_nullable field))
          end) (Some (false, false)) (children after new_parent)
  end.

(** The loop over the top-level fields: [true] from the first that decides. *)
Fixpoint required_loop (fuel : nat) (before after : pb.Manifest) (old_top fields : list pb.Field) : option bool :=
  match fields with
  | [] => Some false
  | field :: rest =>
      match named_child old_top (pb.fld_name field) with
      | None => if negb (pb.fld_nullable field) then Some true else required_loop fuel before after old_top rest
      | Some it =>
          '(any_new, any_required) ← subtree fuel before after (pb.fld_id it) (pb.fld_id field);
          if any_required || (any_new && negb (pb.fld_nullable field)) then Some true
          else required_loop fuel before after old_top rest
      end
  end.

(** A schema without a cycle of parents is no deeper than it has fields; with one the recursion does not
    end ([None]). *)
Definition merge_introduces_required_field (before after : pb.Manifest) : option bool :=
  required_loop (S (length (pb.mf_fields after))) before after (children before (-1)) (children after (-1)).

(** ** The change *)

Section operation.
  Context (encode_data_fragment : pb.DataFragment -> list Z).
  Context (encode_field : pb.Field -> list Z).
  Context (encode_index_message : pb.IndexMetadata -> list Z).

Definition put_fragments (field : Z) (fs : list pb.DataFragment) : list Z :=
  concat ((fun f => put_bytes field (encode_data_fragment f)) <$> fs).

Definition put_schema (field : Z) (m : pb.Manifest) : list Z := concat ((fun f => put_bytes field (encode_field f)) <$> pb.mf_fields m).

Definition put_schema_metadata (field : Z) (m : pb.Manifest) : list Z :=
  concat ((fun kv => put_entry field kv.1 kv.2) <$> map_entries (pb.mf_schema_metadata m)).

Definition overwrite (next : pb.Manifest) (prior_config : gmap string string) : list Z :=
  put_fragments 1 (pb.mf_fragments next) ++ put_schema 2 next ++ put_schema_metadata 3 next ++
  concat ((fun kv => put_entry 4 kv.1 (bytes_of_string kv.2)) <$>
          filter (fun kv => prior_config !! kv.1 <> Some kv.2) (map_entries (pb.mf_config next))).

(** The local variables of the loop over the next version's fragments. *)
Record Changes := mkChanges {
  added : list pb.DataFragment;
  changed : list pb.DataFragment;
  kept : gset Z;
  files_changed : bool;
  modified : gset Z
}.

(** The files of a changed fragment that it did not have: their fields are modified. *)
Definition file_changes (old f : pb.DataFragment) (s : bool * gset Z) : bool * gset Z :=
  let old_files : gset string := list_to_set (pb.df_path <$> pb.fr_files old) in
  foldl (fun s file => if bool_decide (pb.df_path file ∈ old_files) then s
                       else (true, list_to_set (filter (fun id => 0 <= id) (pb.df_fields file)) ∪ s.2)) s (pb.fr_files f).

Definition change_step (parent : pb.Manifest) (before : gmap Z (list Z)) (s : Changes) (f : pb.DataFragment) : Changes :=
  match before !! pb.fr_id f with
  | None => mkChanges (added s ++ [f]) (changed s) (kept s) (files_changed s) (modified s)
  | Some bytes =>
      let kept' := {[pb.fr_id f]} ∪ kept s in
      if bool_decide (encode_data_fragment f = bytes) then mkChanges (added s) (changed s) kept' (files_changed s) (modified s)
      else
        match list_find (fun p => pb.fr_id p = pb.fr_id f) (pb.mf_fragments parent) with
        | Some (_, old) =>
            let '(fc, fm) := file_changes old f (files_changed s, modified s) in
            mkChanges (added s) (changed s ++ [f]) kept' fc fm
        | None => s
        end
  end.

Definition encoded_fragments (m : pb.Manifest) : gmap Z (list Z) :=
  foldl (fun b f => <[pb.fr_id f := encode_data_fragment f]> b) ∅ (pb.mf_fragments m).

Definition changes (parent next : pb.Manifest) : Changes :=
  foldl (change_step parent (encoded_fragments parent)) (mkChanges [] [] ∅ false ∅) (pb.mf_fragments next).

Definition removed (parent : pb.Manifest) (c : Changes) : list Z :=
  filter (fun id => id ∉ kept c) (pb.fr_id <$> pb.mf_fragments parent).

(** One field of a schema whose metadata changed alone: whether it is so, and its entry. *)
Definition field_metadata_step (s : bool * list Z) (ab : pb.Field * pb.Field) : bool * list Z :=
  if negb s.1 then s
  else
    let '(a, b) := ab in
    let updates := update_map (as_strings (pb.fld_metadata a)) (as_strings (pb.fld_metadata b)) in
    let only := bool_decide (encode_field (pb.set_metadata a ∅) = encode_field (pb.set_metadata b ∅)) in
    (only, if only && negb (bool_decide (updates = []))
           then s.2 ++ put_bytes 9 (put_uint 1 (u32 (pb.fld_id b)) ++ put_bytes 2 updates) else s.2).

(** [schema_changed] and [field_metadata] after the only-metadata test. *)
Definition schema_change (parent next : pb.Manifest) : bool * list Z :=
  let schema_changed := negb (bool_decide (put_schema 1 parent = put_schema 1 next)) in
  if schema_changed && bool_decide (length (pb.mf_fields parent) = length (pb.mf_fields next)) &&
     bool_decide (length (pb.mf_fragments parent) = length (pb.mf_fragments next)) then
    let '(only, bytes) := foldl field_metadata_step (bool_decide (pb.mf_schema_metadata parent = pb.mf_schema_metadata next), [])
                            (zip (pb.mf_fields parent) (pb.mf_fields next)) in
    if only && bool_decide ((encode_data_fragment <$> pb.mf_fragments parent) = (encode_data_fragment <$> pb.mf_fragments next))
    then (false, bytes) else (true, [])
  else (schema_changed, []).

Definition rewrite_message (parent : pb.Manifest) (c : Changes) : list Z :=
  let before := encoded_fragments parent in
  put_bytes 3
    (put_fragments 1 (filter (fun f => pb.fr_id f ∉ kept c) (pb.mf_fragments parent)) ++
     concat ((fun f => put_bytes 1 (default [] (before !! pb.fr_id f)) ++ put_bytes 2 (encode_data_fragment f)) <$> changed c) ++
     put_fragments 2 (added c)).

(** [None]: the recursion over the schema does not end. *)
Definition schema_message (parent next : pb.Manifest) (c : Changes) : option (Z * list Z) :=
  if bool_decide (added c = []) && bool_decide (removed parent c = []) && negb (files_changed c) then
    Some (kProject, put_schema 1 next ++ put_uint 2 (if project_tightens_nullability parent next then 0 else 1))
  else
    required ← merge_introduces_required_field parent next;
    Some (kMerge, put_fragments 1 (pb.mf_fragments next) ++ put_schema 2 next ++ put_schema_metadata 3 next ++
                  put_uint 4 (if required : bool then 0 else 1)).

Definition put_ids (field : Z) (ids : list Z) : list Z :=
  if bool_decide (ids = []) then [] else put_bytes field (concat (varint <$> ids)).

(** A change of rows: an append, a delete or an update; [None] when no fragment changed. *)
Definition rows_message (update : bool) (parent : pb.Manifest) (c : Changes) : option (Z * list Z) :=
  let no_added := bool_decide (added c = []) in
  let no_changed := bool_decide (changed c = []) in
  let no_removed := bool_decide (removed parent c = []) in
  if negb update && negb no_added && no_removed && no_changed then Some (kAppend, put_fragments 1 (added c))
  else if negb update && no_added && negb (files_changed c) && (negb no_changed || negb no_removed) then
    Some (kDelete, put_fragments 1 (changed c) ++ put_ids 2 (removed parent c))
  else if update || negb no_added || negb no_removed || negb no_changed then
    Some (kUpdate, put_ids 1 (removed parent c) ++ put_fragments 2 (changed c) ++ put_fragments 3 (added c) ++
                   put_ids 4 (TransactionChecks.set_sorted (modified c)))
  else None.

(** The indices created or changed, and those dropped or replaced. *)
Definition index_message (parent next : pb.Manifest) : list Z :=
  let old_indices : gmap string (list Z) :=
    foldl (fun m index => <[pb.uuid_string (pb.ix_uuid index) := encode_index_message index]> m) ∅ (pb.mf_indices parent) in
  let created := filter (fun index => old_indices !! pb.uuid_string (pb.ix_uuid index) <> Some (encode_index_message index)) (pb.mf_indices next) in
  let dropped := filter (fun index =>
      match list_find (fun i => pb.uuid_string (pb.ix_uuid i) = pb.uuid_string (pb.ix_uuid index)) (pb.mf_indices next) with
      | None => true
      | Some (_, now) => negb (bool_decide (encode_index_message now = encode_index_message index))
      end = true) (pb.mf_indices parent) in
  concat ((fun index => put_bytes 1 (encode_index_message index)) <$> created) ++
  concat ((fun index => put_bytes 2 (encode_index_message index)) <$> dropped).

Definition put_map (field : Z) (m : list Z) : list Z := if bool_decide (m = []) then [] else put_bytes field m.

Definition config_message (parent next : pb.Manifest) (field_metadata : list Z) : list Z :=
  put_map 6 (update_map (pb.mf_config parent) (pb.mf_config next)) ++
  put_map 7 (update_map (pb.mf_table_metadata parent) (pb.mf_table_metadata next)) ++
  put_map 8 (update_map (as_strings (pb.mf_schema_metadata parent)) (as_strings (pb.mf_schema_metadata next))) ++
  field_metadata.

(** The operation of a change from [parent]. *)
Definition derived (parent next : pb.Manifest) : option (Z * list Z) :=
  let c := changes parent next in
  let '(schema_changed, field_metadata) := schema_change parent next in
  if bool_decide (pb.mf_operation next = pb.Rewrite) then Some (kRewrite, rewrite_message parent c)
  else if schema_changed : bool then schema_message parent next c
  else
    match rows_message (bool_decide (pb.mf_operation next = pb.Update)) parent c with
    | Some m => Some m
    | None =>
        let indices := index_message parent next in
        if bool_decide (indices = []) then Some (kUpdateConfig, config_message parent next field_metadata)
        else Some (kCreateIndex, indices)
    end.

Definition operation (parent : option pb.Manifest) (next : pb.Manifest) : option (Z * list Z) :=
  match pb.mf_operation next, parent with
  | pb.Reserve, _ => Some (kReserveFragments, put_uint 1 (pb.mf_reserved_fragments next))
  | pb.Append, _ => Some (kAppend, put_fragments 1 (drop (Z.to_nat (pb.mf_first_new_fragment next)) (pb.mf_fragments next)))
  | pb.Restore, _ => Some (kRestore, put_uint 1 (pb.mf_restored_version next))
  | _, None => Some (kOverwrite, overwrite next ∅)
  | pb.Overwrite, Some parent => Some (kOverwrite, overwrite next (pb.mf_config parent))
  | _, Some parent => derived parent next
  end.

Definition derive_transaction_operation (parent next : pb.Manifest) : option (Z * list Z) := operation (Some parent) next.

(** ** The file *)

(** The bytes of the transaction; [operation_] is the operation's field and message. *)
Definition transaction_bytes (read_version : Z) (uuid : string) (properties : gmap string string) (operation_ : Z * list Z) : list Z :=
  put_uint 1 read_version ++ put_string 2 uuid ++
  concat ((fun kv => put_bytes 4 (put_string 1 kv.1 ++ put_string 2 kv.2)) <$> map_entries properties) ++
  put_bytes operation_.1 operation_.2.

(** Loading a version and writing an output file; the uuid is drawn at random. *)
Context (load_manifest_version : Z -> res pb.Manifest).
Context (write_output : string -> list Z -> res unit).

Definition read_version_of (next : pb.Manifest) : Z :=
  if negb (pb.mf_explicit_operation_field next =? 0) then pb.mf_explicit_read_version next
  else if 0 <? pb.mf_version next then pb.mf_version next - 1 else 0.

Definition needs_parent (next : pb.Manifest) : bool :=
  (pb.mf_explicit_operation_field next =? 0) &&
  match pb.mf_operation next with pb.Append | pb.Overwrite | pb.Restore | pb.Reserve => false | _ => true end.

(** The version before, when the operation is read off the change. *)
Definition transaction_parent (next : pb.Manifest) : res (option pb.Manifest) :=
  if (0 <? read_version_of next) && needs_parent next then
    match load_manifest_version (read_version_of next) with
    | Ok parent => Ok (Some parent)
    | Err load_error =>
        if bool_decide (pb.mf_operation next = pb.Derive)
        then Err ("cannot write the transaction of version " +:+ pretty (pb.mf_version next) +:+ ": " +:+ load_error)
        else Ok None
    end
  else Ok None.

Definition transaction_operation (next : pb.Manifest) : res (Z * list Z) :=
  parent ← transaction_parent next;
  if negb (pb.mf_explicit_operation_field next =? 0) then Ok (pb.mf_explicit_operation_field next, pb.mf_explicit_operation next)
  else match operation parent next with Some op => Ok op | None => Err TransactionChecks.does_not_return end.

Definition write_transaction_file (dataset_path uuid : string) (next : pb.Manifest) : res string :=
  op ← transaction_operation next;
  let file_name := pretty (read_version_of next) +:+ "-" +:+ uuid +:+ ".txn" in
  _ ← write_output (path_join (path_join dataset_path "_transactions") file_name)
        (transaction_bytes (read_version_of next) uuid (pb.mf_transaction_properties next) op);
  Ok file_name.

End operation.

(** ** The writers are those of the protobuf helpers *)

Lemma varint_put_varint v : varint v = put_varint v.
Proof. reflexivity. Qed.

Lemma tag_put_key n w : field_number n -> 0 <= w < 8 -> tag n w = put_key n w.
Proof.
  intros Hn Hw. unfold tag, put_key. rewrite varint_put_varint. do 2 f_equal. unfold field_number in Hn.
  rewrite Z.shiftl_mul_pow2 by lia. rewrite u32_small, u64_small by (unfold is_u32, is_u64; lia). done.
Qed.

Lemma put_bytes_wfield n b : field_number n -> put_bytes n b = put_wfield (WBytes n b).
Proof. intros Hn. unfold put_bytes. rewrite tag_put_key by (done || lia). by rewrite varint_put_varint. Qed.

(** A field left out when its value is zero, or its string empty. *)
Definition opt_uint (n v : Z) : list wfield := if v =? 0 then [] else [WU64 n v].
Definition opt_string (n : Z) (s : string) : list wfield := if bool_decide (s = "") then [] else [WBytes n (bytes_of_string s)].

Lemma put_uint_wfields n v : field_number n -> put_uint n v = concat (put_wfield <$> opt_uint n v).
Proof.
  intros Hn. unfold put_uint, opt_uint. case_bool; [done|]. cbn [fmap list_fmap concat put_wfield]. rewrite app_nil_r. unfold put_u64_field. rewrite (proj2 (Z.eqb_neq _ _)) by done.
  by rewrite tag_put_key by (done || lia).
Qed.

Lemma put_string_wfields n s : field_number n -> put_string n s = concat (put_wfield <$> opt_string n s).
Proof. intros Hn. unfold put_string, opt_string. case_bool_decide; [done|]. cbn [fmap list_fmap concat]. rewrite app_nil_r. by apply put_bytes_wfield. Qed.

Lemma put_all_wfields {A} n (enc : A -> list Z) l :
  field_number n -> concat ((fun x => put_bytes n (enc x)) <$> l) = concat (put_wfield <$> ((fun x => WBytes n (enc x)) <$> l)).
Proof. intros Hn. rewrite <- list_fmap_compose. f_equal. apply list_fmap_ext. intros _ x _. by apply put_bytes_wfield. Qed.

(** ** What the transaction's reader sees of written fields *)

Definition wire_of (w : wfield) : WireField := match w with WBytes n b => mkWireField n 2 0 b | WU64 n v => mkWireField n 0 v [] end.

Lemma next_wire_put w rest : wfield_ok w -> next_wire (put_wfield w ++ rest) = NextField (wire_of w) rest.
Proof.
  intros Hw. rewrite (next_wire_spec _ Field0). unfold Reader_new. destruct w as [n b|n v]; cbn [put_wfield wfield_ok wire_of] in *.
  - by rewrite next_bytes_field by tauto.
  - unfold put_u64_field. rewrite (proj2 (Z.eqb_neq _ _)) by tauto. by rewrite next_varint_field by tauto.
Qed.

Lemma wire_message_written ws :
  Forall wfield_ok ws -> wire_fields (concat (put_wfield <$> ws)) = (wire_of <$> ws, false).
Proof.
  intros Hws. unfold wire_fields. set (n := S _). assert (length (concat (put_wfield <$> ws)) < n)%nat as Hn by (unfold n; lia). clearbody n.
  revert n Hn. induction Hws as [|w ws Hw Hws IH]; intros n Hn; (destruct n as [|n]; [cbn in Hn; lia|]); [done|].
  rewrite !fmap_cons in *. cbn [concat wire_fields_loop] in *. rewrite next_wire_put by done. rewrite IH; [done|].
  rewrite length_app in Hn. enough (0 < length (put_wfield w))%nat by lia.
  pose proof (next_wire_put w [] Hw) as Hnx. rewrite app_nil_r in Hnx. destruct (put_wfield w); [done | cbn; lia].
Qed.

Lemma inner_fields_written n v ws : Forall wfield_ok ws -> inner_fields (mkWireField n 2 v (concat (put_wfield <$> ws))) = wire_of <$> ws.
Proof. intros H. unfold inner_fields. cbn [w_data]. by rewrite wire_message_written. Qed.

(** A string short enough for a field. *)
Definition short (s : string) : Prop := zlen (bytes_of_string s) < 2 ^ 60.

(** ** Update maps *)

Definition entry_fields (e : string * option string) : list wfield :=
  opt_string 1 e.1 ++ match e.2 with Some v => [WBytes 2 (bytes_of_string v)] | None => [] end.

Definition entry_short (e : string * option string) : Prop := short e.1 /\ match e.2 with Some v => short v | None => True end.

Lemma put_update_wfield e : put_update e = put_wfield (WBytes 1 (concat (put_wfield <$> entry_fields e))).
Proof.
  unfold put_update, entry_fields. rewrite put_bytes_wfield by (unfold field_number; lia). do 2 f_equal.
  rewrite fmap_app, concat_app, put_string_wfields by (unfold field_number; lia). f_equal. destruct e.2 as [v|]; [|done].
  cbn [fmap list_fmap concat]. rewrite app_nil_r. apply put_bytes_wfield. unfold field_number. lia.
Qed.

Lemma opt_string_ok n s : field_number n -> short s -> Forall wfield_ok (opt_string n s).
Proof. intros. unfold opt_string, short in *. case_bool_decide; [constructor | apply Forall_singleton; cbn; split; [done | lia]]. Qed.

Lemma entry_fields_ok e : entry_short e -> Forall wfield_ok (entry_fields e).
Proof.
  intros [Hk Hv]. unfold entry_fields. apply Forall_app. split; [apply opt_string_ok; [unfold field_number; lia | done]|].
  destruct e.2; [|done]. unfold short in Hv. apply Forall_singleton. cbn. unfold field_number. lia.
Qed.

Lemma zlen_opt_string n s : short s -> zlen (concat (put_wfield <$> opt_string n s)) <= 20 + 2 ^ 60.
Proof.
  intros Hs. unfold opt_string, short in *. case_bool_decide; [done|]. cbn [fmap list_fmap concat put_wfield]. rewrite app_nil_r.
  pose proof (zlen_put_bytes_field n (bytes_of_string s)). lia.
Qed.

Lemma zlen_entry e : entry_short e -> zlen (concat (put_wfield <$> entry_fields e)) < 2 ^ 63.
Proof.
  intros [Hk Hv]. unfold entry_fields. rewrite fmap_app, concat_app, zlen_app. pose proof (zlen_opt_string 1 e.1 Hk). destruct e.2 as [v|]; cbn [fmap list_fmap concat put_wfield]; [|change (zlen (@nil Z)) with 0; lia].
  rewrite app_nil_r. unfold short in Hv. pose proof (zlen_put_bytes_field 2 (bytes_of_string v)). lia.
Qed.

(** An entry is read as it was written, the empty key included. *)
Lemma update_entry_written e v :
  entry_short e -> update_entry (mkWireField 1 2 v (concat (put_wfield <$> entry_fields e))) = e.
Proof.
  intros He. unfold update_entry. rewrite inner_fields_written by by apply entry_fields_ok.
  destruct e as [k o]. unfold entry_fields, opt_string. cbn [fst snd]. case_bool_decide as Hk; destruct o as [x|];
    cbn [app fmap list_fmap foldl wire_of w_number Z.eqb Pos.eqb fst snd]; unfold text; cbn [w_data]; rewrite ?string_of_bytes_of_string; congruence.
Qed.

Definition update_wfield (e : string * option string) : wfield := WBytes 1 (concat (put_wfield <$> entry_fields e)).

Lemma put_updates_wfields es : concat (put_update <$> es) = concat (put_wfield <$> (update_wfield <$> es)).
Proof. rewrite <- list_fmap_compose. f_equal. apply list_fmap_ext. intros _ e _. apply put_update_wfield. Qed.

Lemma decode_update_map_written n v es :
  Forall entry_short es -> decode_update_map (mkWireField n 2 v (concat (put_update <$> es))) = mkUpdateMap es false.
Proof.
  intros Hes. unfold decode_update_map. rewrite put_updates_wfields.
  rewrite inner_fields_written.
  - rewrite <- list_fmap_compose. change UpdateMap0 with (mkUpdateMap [] false). assert (forall l, foldl (fun out e =>
      if w_number e =? 1 then mkUpdateMap (entries out ++ [update_entry e]) (replace_ out)
      else if w_number e =? 2 then mkUpdateMap (entries out) (negb (w_value e =? 0)) else out) (mkUpdateMap l false)
      ((wire_of ∘ update_wfield) <$> es) = mkUpdateMap (l ++ es) false) as H; [|apply H].
    induction Hes as [|e es He Hes IH]; intros l; [by rewrite app_nil_r|]. rewrite fmap_cons. cbn [foldl compose wire_of update_wfield w_number Z.eqb Pos.eqb entries replace_].
    rewrite update_entry_written by done. by rewrite IH, <- app_assoc.
  - apply Forall_fmap. eapply Forall_impl; [exact Hes|]. intros e He. cbn. pose proof (zlen_entry e He). unfold field_number. lia.
Qed.

(** ** The difference of two maps *)

Definition map_short (m : gmap string string) : Prop := map_Forall (fun k v => short k /\ short v) m.

Lemma map_entries_perm {V} (m : gmap string V) : map_entries m ≡ₚ map_to_list m.
Proof. apply merge_sort_Permutation. Qed.

Lemma map_entries_elem {V} (m : gmap string V) k v : (k, v) ∈ map_entries m <-> m !! k = Some v.
Proof. rewrite map_entries_perm. apply elem_of_map_to_list. Qed.

Lemma update_entries_short before after : map_short before -> map_short after -> Forall entry_short (update_entries before after).
Proof.
  intros Hb Ha. unfold update_entries. apply Forall_app. split; apply Forall_fmap, Forall_filter, Forall_forall; intros [k v] Hkv%map_entries_elem.
  - by destruct (Ha k v Hkv).
  - by destruct (Hb k v Hkv).
Qed.

Lemma update_entries_elem before after k o :
  (k, o) ∈ update_entries before after <->
  match o with Some v => after !! k = Some v /\ before !! k <> Some v | None => after !! k = None /\ is_Some (before !! k) end.
Proof.
  unfold update_entries. rewrite elem_of_app, !list_elem_of_fmap. setoid_rewrite list_elem_of_filter. split.
  - intros [([k' v] & [= -> ->] & Hne & Hin%map_entries_elem)|([k' v] & [= -> ->] & Hn & Hin%map_entries_elem)]; [done | cbn in Hn; eauto].
  - destruct o as [v|]; [intros [Ha Hb]; left; exists (k, v) | intros [Ha [v Hb]]; right; exists (k, v)]; by rewrite map_entries_elem.
Qed.

Lemma update_entries_keys before after : NoDup (fst <$> update_entries before after).
Proof.
  unfold update_entries. rewrite fmap_app, <- !list_fmap_compose. apply NoDup_app.
  assert (forall (P : string * string -> Prop) `{!forall x, Decision (P x)} (m : gmap string string), NoDup (fst <$> filter P (map_entries m))) as Hnd.
  { intros P HP m. eapply sublist_NoDup; [|apply fmap_sublist, sublist_filter]. rewrite map_entries_perm. apply NoDup_fst_map_to_list. }
  split_and!.
  - rewrite (list_fmap_ext _ fst) by done. apply Hnd.
  - intros k ([k1 v1] & -> & [_ H1%map_entries_elem]%list_elem_of_filter)%list_elem_of_fmap
      ([k2 v2] & Hk & [H2 _]%list_elem_of_filter)%list_elem_of_fmap. cbn in *. subst. congruence.
  - rewrite (list_fmap_ext _ fst) by done. apply Hnd.
Qed.

(** With one entry per key, the last entry of a key is its entry. *)
Lemma last_entry_elem k (es : list (string * option string)) :
  NoDup (fst <$> es) -> forall o, last_entry k es = Some o <-> (k, o) ∈ es.
Proof.
  unfold last_entry. induction es as [|[k' o'] es IH]; intros Hnd o; [split; [done | by intros ?%elem_of_nil]|].
  rewrite fmap_cons in Hnd. apply NoDup_cons in Hnd as [Hk Hnd]. rewrite filter_cons. cbn [fst]. case_decide as E.
  - subst k'. assert (filter (fun e : string * option string => e.1 = k) es = []) as ->.
    { apply elem_of_nil_inv. intros e [He1 He]%list_elem_of_filter. apply Hk, list_elem_of_fmap. by exists e. }
    cbn. split; [intros [= ->]; left | intros [[= ->]|Hin]%elem_of_cons; [done|]]. exfalso. apply Hk, list_elem_of_fmap. by exists (k, o).
  - rewrite IH by done. rewrite elem_of_cons. split; [by right | intros [[= -> ->]|]; done].
Qed.

Lemma update_entries_apply {V} (convert : string -> V) (before after : gmap string string) :
  apply_update_map convert (convert <$> before) (mkUpdateMap (update_entries before after) false) = convert <$> after.
Proof.
  apply map_eq. intros k. rewrite apply_update_map_lookup. cbn [entries replace_]. rewrite !lookup_fmap.
  pose proof (last_entry_elem k _ (update_entries_keys before after)) as Hl. setoid_rewrite update_entries_elem in Hl.
  destruct (last_entry k (update_entries before after)) as [[v|]|].
  - destruct (proj1 (Hl (Some v)) eq_refl) as [-> _]. done.
  - destruct (proj1 (Hl None) eq_refl) as [-> _]. done.
  - destruct (after !! k) as [v|] eqn:Ea.
    + destruct (decide (before !! k = Some v)) as [->|Hne]; [done|]. by pose proof (proj2 (Hl (Some v)) (conj eq_refl Hne)).
    + destruct (before !! k) as [v|] eqn:Eb; [|done]. by pose proof (proj2 (Hl None) (conj eq_refl (mk_is_Some _ _ eq_refl))).
Qed.

(** the update map written for a commit's configuration change, read back and applied to the
    configuration before it, gives the configuration after it: every key changed, added or removed,
    and no other. *)
Theorem update_map_roundtrip before after n :
  map_short before -> map_short after ->
  apply_update_map id before (decode_update_map (mkWireField n 2 0 (update_map before after))) = after.
Proof.
  intros Hb Ha. unfold update_map. rewrite decode_update_map_written by by apply update_entries_short.
  pose proof (update_entries_apply id before after) as H. by rewrite !map_fmap_id in H.
Qed.

Lemma update_map_roundtrip_witness :
  let before : gmap string string := <["a" := "1"]> (<["b" := "2"]> (<["" := "x"]> ∅)) in
  let after : gmap string string := <["a" := "1"]> (<["b" := ""]> (<["c" := "4"]> ∅)) in
  length (update_entries before after) = 3%nat /\
  apply_update_map id before (decode_update_map (mkWireField 6 2 0 (update_map before after))) = after.
Proof.
  intros before after. split; [vm_compute; reflexivity|]. apply (update_map_roundtrip before after 6); intros k v Hkv;
    repeat (apply lookup_insert_Some in Hkv as [[<- <-]|[_ Hkv]]; [split; vm_compute; reflexivity|]); by rewrite lookup_empty in Hkv.
Defined.

(** ** Decoding a change of rows *)

(** Packed ids. *)
Lemma packed_varints_written ids fuel :
  Forall is_u64 ids -> (length (concat (varint <$> ids)) < fuel)%nat -> packed_varints fuel (concat (varint <$> ids)) = ids.
Proof.
  intros Hids. revert fuel. induction Hids as [|i ids Hi Hids IH]; intros fuel Hf; (destruct fuel as [|fuel]; [cbn in Hf; lia|]); [done|].
  rewrite fmap_cons in *. cbn [concat packed_varints] in *. rewrite varint_put_varint, wire_varint_spec, varint_put by done. f_equal. apply IH.
  rewrite length_app in Hf. pose proof (length_put_varint i). rewrite varint_put_varint in Hf. lia.
Qed.

Definition ids_fields (n : Z) (ids : list Z) : list wfield := if bool_decide (ids = []) then [] else [WBytes n (concat (varint <$> ids))].

Lemma put_ids_wfields n ids : field_number n -> put_ids n ids = concat (put_wfield <$> ids_fields n ids).
Proof.
  intros Hn. unfold put_ids, ids_fields. case_bool_decide; [done|]. cbn [fmap list_fmap concat]. rewrite app_nil_r. by apply put_bytes_wfield.
Qed.

Lemma zlen_varints ids : zlen (concat (varint <$> ids)) <= 10 * zlen ids.
Proof.
  induction ids as [|i ids IH]; [done|]. rewrite fmap_cons. cbn [concat]. rewrite zlen_app, zlen_cons, varint_put_varint.
  pose proof (zlen_put_varint i). lia.
Qed.

Lemma ids_fields_ok n ids : field_number n -> zlen ids < 2 ^ 60 -> Forall wfield_ok (ids_fields n ids).
Proof.
  intros Hn Hl. unfold ids_fields. case_bool_decide; [constructor|]. apply Forall_singleton. cbn. split; [done|].
  pose proof (zlen_varints ids). lia.
Qed.

Lemma append_varints_written n v ids out : Forall is_u64 ids -> append_varints (mkWireField n 2 v (concat (varint <$> ids))) out = out ++ ids.
Proof. intros Hids. unfold append_varints. cbn [w_wire w_data Z.eqb Pos.eqb]. by rewrite packed_varints_written by (done || lia). Qed.

Section decoding.
  Context (encode_data_fragment : pb.DataFragment -> list Z).
  Context (decode_data_fragment : list Z -> option pb.DataFragment).
  Context (decode_field : list Z -> option pb.Field).
  Context (decode_data_file : list Z -> option pb.DataFile).
  Context (decode_index_message : list Z -> option pb.IndexMetadata).

(** nanom's codec on a fragment: it reads back what it wrote, which fits a field. *)
Definition fragment_codec (f : pb.DataFragment) : Prop :=
  decode_data_fragment (encode_data_fragment f) = Some f /\ zlen (encode_data_fragment f) < 2 ^ 64.

Definition fragment_fields (n : Z) (fs : list pb.DataFragment) : list wfield := (fun f => WBytes n (encode_data_fragment f)) <$> fs.

Lemma put_fragments_wfields n fs : field_number n -> put_fragments encode_data_fragment n fs = concat (put_wfield <$> fragment_fields n fs).
Proof. apply put_all_wfields. Qed.

Lemma fragment_fields_ok n fs : field_number n -> Forall fragment_codec fs -> Forall wfield_ok (fragment_fields n fs).
Proof. intros Hn Hf. apply Forall_fmap. eapply Forall_impl; [exact Hf|]. intros f [_ Hz]. by split. Qed.

(** A loop over fields of one number that each append their fragment. *)
Lemma fold_fragment_fields (handler : op_state -> WireField -> res op_state) (set : list pb.DataFragment -> Operation -> Operation) n fs s op :
  (forall l f op, fragment_codec f -> handler (set l op, s) (wire_of (WBytes n (encode_data_fragment f))) = Ok (set (l ++ [f]) op, s)) ->
  Forall fragment_codec fs -> forall l, fold_res handler (wire_of <$> fragment_fields n fs) (set l op, s) = Ok (set (l ++ fs) op, s).
Proof.
  intros Hstep Hfs. unfold fragment_fields. induction Hfs as [|f fs Hf Hfs IH]; intros l; [by rewrite app_nil_r|].
  rewrite !fmap_cons. cbn [fold_res]. rewrite Hstep by done. unfold mbind, res_bind. by rewrite IH, <- app_assoc.
Qed.

Lemma decode_fragment_written n v f :
  fragment_codec f -> decode_fragment decode_data_fragment (mkWireField n 2 v (encode_data_fragment f)) = Ok f.
Proof. intros [Hd _]. unfold decode_fragment. cbn. by rewrite Hd. Qed.

(** The end of the decoder: no schema was seen. *)
Lemma decode_operation_rows k ws op :
  k ∈ [kAppend; kDelete; kUpdate] -> Forall wfield_ok ws ->
  (exists handler, (forall s f, operation_field decode_data_fragment decode_data_file decode_index_message k s f = handler s f) /\
     fold_res handler (wire_of <$> ws) (set_kind k Operation0, []) = Ok (op, [])) ->
  decode_operation decode_data_fragment decode_field decode_data_file decode_index_message k (concat (put_wfield <$> ws))
  = Ok (set_schema [] (set_has_schema false op)).
Proof.
  intros Hk Hws (handler & Hh & Hfold). rewrite !elem_of_cons, elem_of_nil in Hk. unfold decode_operation. rewrite wire_message_written by done.
  rewrite <- (fold_res_ext (operation_field decode_data_fragment decode_data_file decode_index_message k) handler) in Hfold by (intros; apply Hh).
  destruct Hk as [->|[->|[->|[]]]]; cbn [decodes existsb negb orb Z.eqb Pos.eqb kAppend kDelete kUpdate kOverwrite kMerge kProject kCreateIndex kRestore kReserveFragments];
    unfold mbind, res_bind; rewrite Hfold; done.
Qed.

Lemma decode_append fs :
  Forall fragment_codec fs ->
  exists op, decode_operation decode_data_fragment decode_field decode_data_file decode_index_message kAppend (put_fragments encode_data_fragment 1 fs) = Ok op /\
    kind op = kAppend /\ fragments op = fs.
Proof.
  intros Hfs. rewrite put_fragments_wfields by (unfold field_number; lia).
  eexists. split; [apply decode_operation_rows; [set_solver | by apply fragment_fields_ok; [unfold field_number; lia|]|]|].
  - exists (append_field decode_data_fragment). split; [done|]. apply (fold_fragment_fields _ (fun l op => set_fragments l op) 1 fs [] (set_kind kAppend Operation0)) with (l := []); [|done].
    intros l f op Hf. unfold append_field, fragment_into. cbn [wire_of w_number Z.eqb Pos.eqb fst snd]. by rewrite decode_fragment_written.
  - done.
Qed.

(** The ids field, when there is one. *)
Lemma fold_ids_fields (handler : op_state -> WireField -> res op_state) (set : list Z -> Operation -> Operation) n ids s op :
  (forall l, handler (set [] op, s) (mkWireField n 2 0 l) = Ok (set (append_varints (mkWireField n 2 0 l) []) op, s)) -> Forall is_u64 ids ->
  fold_res handler (wire_of <$> ids_fields n ids) (set [] op, s) = Ok (set ids op, s).
Proof.
  intros Hstep Hids. unfold ids_fields. case_bool_decide as E; [by subst|]. cbn [fmap list_fmap wire_of fold_res]. unfold mbind, res_bind.
  rewrite Hstep. by rewrite append_varints_written.
Qed.

Lemma decode_delete fs ids :
  Forall fragment_codec fs -> Forall is_u64 ids -> zlen ids < 2 ^ 60 ->
  exists op, decode_operation decode_data_fragment decode_field decode_data_file decode_index_message kDelete
      (put_fragments encode_data_fragment 1 fs ++ put_ids 2 ids) = Ok op /\
    kind op = kDelete /\ updated_fragments op = fs /\ removed_ids op = ids.
Proof.
  intros Hfs Hids Hl. rewrite put_fragments_wfields, put_ids_wfields, <- concat_app, <- fmap_app by (unfold field_number; lia).
  eexists. split; [apply decode_operation_rows; [set_solver | |]|].
  - apply Forall_app. split; [apply fragment_fields_ok | apply ids_fields_ok]; unfold field_number; done || lia.
  - exists (delete_field decode_data_fragment). split; [done|]. rewrite fmap_app, fold_res_app.
    rewrite (fold_fragment_fields _ (fun l op => set_updated_fragments l op) 1 fs [] (set_kind kDelete Operation0)) with (l := []); [|clear|done].
    + unfold mbind, res_bind. apply (fold_ids_fields _ (fun l op => set_removed_ids l op) 2 ids [] (set_updated_fragments ([] ++ fs) (set_kind kDelete Operation0))); [|done].
      intros l. done.
    + intros l f op Hf. unfold delete_field, fragment_into. cbn [wire_of w_number Z.eqb Pos.eqb fst snd]. by rewrite decode_fragment_written.
  - done.
Qed.

Lemma decode_update changed_ added_ ids mods :
  Forall fragment_codec changed_ -> Forall fragment_codec added_ -> Forall is_u64 ids -> zlen ids < 2 ^ 60 ->
  Forall is_u64 mods -> zlen mods < 2 ^ 60 ->
  exists op, decode_operation decode_data_fragment decode_field decode_data_file decode_index_message kUpdate
      (put_ids 1 ids ++ put_fragments encode_data_fragment 2 changed_ ++ put_fragments encode_data_fragment 3 added_ ++ put_ids 4 mods) = Ok op /\
    kind op = kUpdate /\ updated_fragments op = changed_ /\ removed_ids op = ids /\ fragments op = added_ /\ fields_modified op = mods.
Proof.
  intros Hc Ha Hids Hl Hm Hml. rewrite !put_fragments_wfields, !put_ids_wfields, <- !concat_app, <- !fmap_app by (unfold field_number; lia).
  eexists. split; [apply decode_operation_rows; [set_solver | |]|].
  - repeat (apply Forall_app; split); first [apply fragment_fields_ok | apply ids_fields_ok]; unfold field_number; done || lia.
  - exists (update_field decode_data_fragment). split; [done|]. rewrite !fmap_app, !fold_res_app.
    rewrite (fold_ids_fields _ (fun l op => set_removed_ids l op) 1 ids [] (set_kind kUpdate Operation0)); [|done | done]. unfold mbind, res_bind.
    rewrite fold_res_app. change (set_removed_ids ids (set_kind kUpdate Operation0), @nil WireField)
      with (set_updated_fragments [] (set_removed_ids ids (set_kind kUpdate Operation0)), @nil WireField).
    rewrite (fold_fragment_fields _ (fun l op => set_updated_fragments l op) 2 changed_ [] (set_removed_ids ids (set_kind kUpdate Operation0))) with (l := []); [|clear|done].
    2: { intros l f op Hf. unfold update_field, fragment_into. cbn [wire_of w_number Z.eqb Pos.eqb fst snd]. by rewrite decode_fragment_written. }
    unfold mbind, res_bind. rewrite fold_res_app. change (set_updated_fragments ([] ++ changed_) (set_removed_ids ids (set_kind kUpdate Operation0)), @nil WireField)
      with (set_fragments [] (set_updated_fragments changed_ (set_removed_ids ids (set_kind kUpdate Operation0))), @nil WireField).
    rewrite (fold_fragment_fields _ (fun l op => set_fragments l op) 3 added_ [] (set_updated_fragments changed_ (set_removed_ids ids (set_kind kUpdate Operation0)))) with (l := []); [|clear|done].
    2: { intros l f op Hf. unfold update_field, fragment_into. cbn [wire_of w_number Z.eqb Pos.eqb fst snd]. by rewrite decode_fragment_written. }
    apply (fold_ids_fields _ (fun l op => set_fields_modified l op) 4 mods []
      (set_fragments added_ (set_updated_fragments changed_ (set_removed_ids ids (set_kind kUpdate Operation0))))); done.
  - done.
Qed.

(** ** What changed *)

Lemma encoded_fragments_lookup m id b :
  NoDup (pb.fr_id <$> pb.mf_fragments m) ->
  encoded_fragments encode_data_fragment m !! id = Some b <-> exists f, f ∈ pb.mf_fragments m /\ pb.fr_id f = id /\ b = encode_data_fragment f.
Proof.
  unfold encoded_fragments. induction (pb.mf_fragments m) as [|f l IH] using rev_ind; intros Hnd.
  { cbn. rewrite lookup_empty. split; [done | intros (f & Hf & _); by apply elem_of_nil in Hf]. }
  rewrite foldl_app. cbn [foldl]. rewrite fmap_app in Hnd. apply NoDup_app in Hnd as (Hnd & Hdis & _). specialize (IH Hnd).
  destruct (decide (pb.fr_id f = id)) as [<-|Hne].
  - rewrite lookup_insert_eq. split; [intros [= <-]; exists f; set_solver|]. intros (g & [Hg|Hg]%elem_of_app & Hid & ->).
    + exfalso. apply (Hdis (pb.fr_id g)); [by apply list_elem_of_fmap_2 | rewrite Hid; set_solver].
    + by apply list_elem_of_singleton in Hg as ->.
  - rewrite lookup_insert_ne by done. rewrite IH. split; intros (g & Hg & Hid & ->); exists g; [set_solver|].
    apply elem_of_app in Hg as [Hg|Hg%list_elem_of_singleton]; [done | by subst].
Qed.

Section changes.
  Context (parent : pb.Manifest).
  Hypothesis parent_distinct : NoDup (pb.fr_id <$> pb.mf_fragments parent).
  Hypothesis parent_codec : Forall fragment_codec (pb.mf_fragments parent).

Lemma codec_same f g : fragment_codec f -> fragment_codec g -> encode_data_fragment f = encode_data_fragment g -> f = g.
Proof. intros [Hf _] [Hg _] E. rewrite E in Hf. congruence. Qed.

Definition is_new (f : pb.DataFragment) : Prop := pb.fr_id f ∉ pb.fr_id <$> pb.mf_fragments parent.
Definition is_changed (f : pb.DataFragment) : Prop := pb.fr_id f ∈ pb.fr_id <$> pb.mf_fragments parent /\ f ∉ pb.mf_fragments parent.
#[local] Instance is_new_dec f : Decision (is_new f) := _.
#[local] Instance is_changed_dec f : Decision (is_changed f) := _.

Lemma changes_loop l :
  Forall fragment_codec l ->
  let c := foldl (change_step encode_data_fragment parent (encoded_fragments encode_data_fragment parent)) (mkChanges [] [] ∅ false ∅) l in
  added c = filter is_new l /\ changed c = filter is_changed l /\
  (forall id, id ∈ kept c <-> id ∈ pb.fr_id <$> pb.mf_fragments parent /\ id ∈ pb.fr_id <$> l).
Proof.
  intros Hl. induction l as [|f l IH] using rev_ind; [cbn; split_and!; set_solver|].
  apply Forall_app in Hl as [Hl Hf]. rewrite Forall_singleton in Hf. cbn zeta. rewrite foldl_app, !filter_app. cbn [foldl].
  destruct (IH Hl) as (IHa & IHc & IHk). clear IH. set (c := foldl _ _ l) in *. unfold change_step.
  pose proof (encoded_fragments_lookup parent (pb.fr_id f) ) as Hlook.
  destruct (encoded_fragments encode_data_fragment parent !! pb.fr_id f) as [b|] eqn:E.
  - destruct (proj1 (Hlook b parent_distinct) eq_refl) as (p & Hp & Hid & ->).
    assert (pb.fr_id f ∈ pb.fr_id <$> pb.mf_fragments parent) as Hin by (rewrite <- Hid; by apply list_elem_of_fmap_2).
    assert (encode_data_fragment f = encode_data_fragment p <-> f ∈ pb.mf_fragments parent) as Henc.
    { split; [intros He; rewrite Forall_forall in parent_codec; by rewrite (codec_same f p Hf (parent_codec _ Hp) He)|].
      intros Hfp. f_equal. by apply (NoDup_fmap_inj pb.fr_id (pb.mf_fragments parent)). }
    rewrite (filter_cons_False is_new) by (intros Hn; by apply Hn). rewrite filter_nil, app_nil_r.
    assert (forall id, id ∈ {[pb.fr_id f]} ∪ kept c <-> id ∈ pb.fr_id <$> pb.mf_fragments parent /\ id ∈ pb.fr_id <$> (l ++ [f])) as Hkept.
    { intros id. rewrite fmap_app, elem_of_union, elem_of_singleton, IHk, elem_of_app. cbn. rewrite list_elem_of_singleton. naive_solver. }
    case_bool_decide as He.
    + rewrite (filter_cons_False is_changed) by (intros [_ Hn]; apply Hn; by apply Henc). rewrite filter_nil, app_nil_r. done.
    + rewrite (filter_cons_True is_changed) by (split; [done | by rewrite <- Henc]). rewrite filter_nil.
      destruct (list_find _ _) as [[i old]|] eqn:Ef.
      * destruct (file_changes old f _). cbn. by rewrite IHc.
      * exfalso. apply list_find_None in Ef. rewrite Forall_forall in Ef. by apply (Ef p).
  - assert (is_new f) as Hn.
    { intros (p & Hid & Hp)%list_elem_of_fmap. assert (None = Some (encode_data_fragment p)) as [=].
      apply (proj2 (Hlook _ parent_distinct)). eauto. }
    rewrite (filter_cons_True is_new), (filter_cons_False is_changed) by (done || (intros [Hc _]; by apply Hn)). rewrite !filter_nil, app_nil_r.
    split_and!; [by rewrite <- IHa | done |]. intros id. cbn [kept]. rewrite IHk, fmap_app, elem_of_app. cbn. rewrite list_elem_of_singleton.
    split; [tauto|]. intros [Hp [Hpl|Hpl]]; [done | subst id; by exfalso].
Qed.

(** The modified fields are ids of columns. *)
Definition int_fields (f : pb.DataFragment) : Prop := Forall (fun file => Forall (fun id => id < 2 ^ 31) (pb.df_fields file)) (pb.fr_files f).

Lemma file_changes_range old f s :
  int_fields f -> set_Forall (fun id => 0 <= id < 2 ^ 31) s.2 -> set_Forall (fun id => 0 <= id < 2 ^ 31) (file_changes old f s).2.
Proof.
  unfold int_fields, file_changes. intros Hf. revert s. induction Hf as [|file l Hfile Hl IH]; intros s Hs; [done|]. cbn [foldl]. apply IH.
  case_bool_decide; [done|]. cbn. intros id [Hid|Hid]%elem_of_union; [|by apply Hs].
  apply elem_of_list_to_set, list_elem_of_filter in Hid as [Hid Hin]. rewrite Forall_forall in Hfile. split; [done | by apply Hfile].
Qed.

Lemma changes_modified l :
  Forall int_fields l ->
  set_Forall (fun id => 0 <= id < 2 ^ 31)
    (modified (foldl (change_step encode_data_fragment parent (encoded_fragments encode_data_fragment parent)) (mkChanges [] [] ∅ false ∅) l)).
Proof.
  intros Hl. induction l as [|f l IH] using rev_ind; [by intros id ?%elem_of_empty|]. apply Forall_app in Hl as [Hl Hf]. rewrite Forall_singleton in Hf.
  rewrite foldl_app. cbn [foldl]. specialize (IH Hl). set (c := foldl _ _ l) in *. unfold change_step.
  destruct (_ !! _); [|done]. case_bool_decide; [done|]. destruct (list_find _ _) as [[i old]|]; [|done].
  pose proof (file_changes_range old f (files_changed c, modified c) Hf IH) as H2. by destruct (file_changes old f _).
Qed.

End changes.

Lemma fragments_by_id_elem fs id f : TransactionChecks.fragments_by_id fs !! id = Some f -> f ∈ fs.
Proof.
  unfold TransactionChecks.fragments_by_id. assert (forall m : gmap Z pb.DataFragment, foldl (fun m f => <[pb.fr_id f := f]> m) m fs !! id = Some f -> m !! id = Some f \/ f ∈ fs) as H.
  { induction fs as [|g fs IH]; intros m Hm; [by left|]. cbn in Hm. apply IH in Hm as [Hm|Hm]; [|set_solver].
    apply lookup_insert_Some in Hm as [[_ ->]|[_ Hm]]; [set_solver | by left]. }
  intros [Hf|]%H; [by rewrite lookup_empty in Hf | done].
Qed.

Lemma fragments_by_id_first_elem fs id f : Transaction.fragments_by_id_first fs !! id = Some f -> f ∈ fs.
Proof.
  unfold Transaction.fragments_by_id_first. set (step := fun _ _ => _).
  assert (forall m : gmap Z pb.DataFragment, foldl step m fs !! id = Some f -> m !! id = Some f \/ f ∈ fs) as H.
  { induction fs as [|g fs IH]; intros m Hm; [by left|]. cbn in Hm. apply IH in Hm as [Hm|Hm]; [|set_solver]. unfold step in Hm.
    destruct (m !! pb.fr_id g); [by left|]. apply lookup_insert_Some in Hm as [[_ ->]|[_ Hm]]; [set_solver | by left]. }
  intros [Hf|]%H; [by rewrite lookup_empty in Hf | done].
Qed.

(** A decoded change of rows, as the functions on fragments the rebase works with. *)
Definition decodes_to (op : Operation) (added_ changed_ : list pb.DataFragment) (removed_ : list Z) : Prop :=
  Transaction.row_change op /\ Transaction.adds op = added_ /\ Transaction.removes op = list_to_set removed_ /\
  (forall id f, Transaction.updates op !! id = Some f -> f ∈ changed_) /\ dom (Transaction.updates op) = list_to_set (pb.fr_id <$> changed_).

Lemma set_sorted_range (s : gset Z) :
  set_Forall (fun id => 0 <= id < 2 ^ 31) s ->
  Forall is_u64 (TransactionChecks.set_sorted s) /\ zlen (TransactionChecks.set_sorted s) < 2 ^ 60.
Proof.
  intros Hs. destruct (Transaction.set_sorted_ascending s) as [Ha Hin].
  assert (Forall (fun x => 0 <= x < 2 ^ 31) (TransactionChecks.set_sorted s)) as Hf by (apply Forall_forall; intros x Hx%Hin; by apply Hs).
  split; [eapply Forall_impl; [exact Hf|]; unfold is_u64; cbn; intros; lia|].
  pose proof (ascending_bounded _ 0 (2 ^ 31) Ha Hf ltac:(lia)). lia.
Qed.

(** Splits on the condition the goal's hypothesis branches on. *)
Ltac branch E := match goal with |- (if ?b then _ else _) = _ -> _ => destruct b eqn:E end.

Lemma rows_decoded update parent c k msg :
  Forall fragment_codec (added c) -> Forall fragment_codec (changed c) -> Forall is_u64 (removed parent c) -> zlen (removed parent c) < 2 ^ 60 ->
  set_Forall (fun id => 0 <= id < 2 ^ 31) (modified c) ->
  rows_message encode_data_fragment update parent c = Some (k, msg) ->
  exists op, decode_operation decode_data_fragment decode_field decode_data_file decode_index_message k msg = Ok op /\
    decodes_to op (added c) (changed c) (removed parent c).
Proof.
  intros Ha Hc Hr Hrl Hm. unfold rows_message, decodes_to, Transaction.row_change, Transaction.adds, Transaction.removes, Transaction.updates.
  branch E1.
  { bool_prop. repeat match goal with H : bool_decide _ = true |- _ => apply bool_decide_eq_true in H end. intros [= <- <-].
    destruct (decode_append (added c) Ha) as (op & Hd & Hk & Hf). exists op. rewrite Hk. cbn. split; [done|].
    repeat match goal with H : _ = [] |- _ => rewrite H end. rewrite Hf. split_and!; [set_solver | done | done | intros id f Hl; by rewrite lookup_empty in Hl | by rewrite dom_empty_L]. }
  branch E2.
  { clear E1. bool_prop. repeat match goal with H : bool_decide _ = true |- _ => apply bool_decide_eq_true in H end. intros [= <- <-].
    destruct (decode_delete (changed c) (removed parent c) Hc Hr Hrl) as (op & Hd & Hk & Hu & Hrm). exists op. rewrite Hk, Hu, Hrm. cbn. split; [done|].
    repeat match goal with H : added c = [] |- _ => rewrite H end.
    split_and!; [set_solver | done | done | intros id f; apply fragments_by_id_elem | apply Transaction.dom_fragments_by_id]. }
  branch E3; [|done]. clear E1 E2 E3. intros [= <- <-].
  destruct (set_sorted_range (modified c) Hm) as [Hms Hml].
  destruct (decode_update (changed c) (added c) (removed parent c) (TransactionChecks.set_sorted (modified c)) Hc Ha Hr Hrl Hms Hml)
    as (op & Hd & Hk & Hu & Hrm & Hf & _). exists op. rewrite Hk, Hu, Hrm, Hf. cbn. split; [done|].
  split_and!; [set_solver | done | done | intros id f; apply fragments_by_id_first_elem | apply Transaction.dom_fragments_by_id_first].
Qed.

(** ** The derived operation replays the change *)

(** Lists of fragments in ascending order of ids with the same members are equal. *)
Lemma fragments_ext (l1 l2 : list pb.DataFragment) :
  ascending (pb.fr_id <$> l1) -> ascending (pb.fr_id <$> l2) -> (forall f, f ∈ l1 <-> f ∈ l2) -> l1 = l2.
Proof.
  revert l2. induction l1 as [|x l1 IH]; intros l2 H1 H2 Hin.
  - destruct l2 as [|y l2]; [done|]. exfalso. apply (elem_of_nil y). apply Hin. set_solver.
  - destruct l2 as [|y l2]; [exfalso; apply (elem_of_nil x); apply Hin; set_solver|].
    rewrite fmap_cons in H1, H2. apply ascending_cons in H1 as [H1 Hx], H2 as [H2 Hy].
    rewrite Forall_fmap, Forall_forall in Hx. rewrite Forall_fmap, Forall_forall in Hy. cbn in Hx, Hy.
    assert (x = y) as <-.
    { destruct (proj1 (elem_of_cons _ _ _) (proj1 (Hin x) (list_elem_of_here _ _))) as [|Hxl]; [done|].
      destruct (proj1 (elem_of_cons _ _ _) (proj2 (Hin y) (list_elem_of_here _ _))) as [|Hyl]; [done|].
      specialize (Hx y Hyl). specialize (Hy x Hxl). lia. }
    f_equal. apply IH; [done | done|]. intros f. specialize (Hin f). rewrite !elem_of_cons in Hin.
    split; intros Hf; [destruct (proj1 Hin (or_intror Hf)) as [->|]; [|done] | destruct (proj2 Hin (or_intror Hf)) as [->|]; [|done]].
    + specialize (Hx x Hf). lia.
    + specialize (Hy x Hf). lia.
Qed.

Lemma effect_elem op (fs : list pb.DataFragment) f :
  f ∈ omap (Transaction.effect op) fs <-> exists p, p ∈ fs /\ Transaction.effect op p = Some f.
Proof. apply list_elem_of_omap. Qed.

Lemma replay parent next op c :
  Transaction.manifest_ok parent -> ascending (pb.fr_id <$> pb.mf_fragments next) ->
  Forall fragment_codec (pb.mf_fragments parent) -> Forall fragment_codec (pb.mf_fragments next) ->
  (forall f, f ∈ pb.mf_fragments next -> is_new parent f -> TransactionChecks.next_fragment_id parent <= pb.fr_id f) ->
  c = changes encode_data_fragment parent next -> decodes_to op (added c) (changed c) (removed parent c) ->
  omap (Transaction.effect op) (pb.mf_fragments parent) ++ Transaction.adds op = pb.mf_fragments next /\
  (forall id, id ∈ Transaction.touches op -> id ∈ pb.fr_id <$> pb.mf_fragments parent).
Proof.
  intros Hok Hasc Hpc Hnc Hnew Hc (Hrow & Hadds & Hrm & Hup & Hdom).
  assert (NoDup (pb.fr_id <$> pb.mf_fragments parent)) as Hnd by apply ascending_NoDup, Hok.
  assert (NoDup (pb.fr_id <$> pb.mf_fragments next)) as Hndn by by apply ascending_NoDup.
  destruct (changes_loop parent Hnd Hpc (pb.mf_fragments next) Hnc) as (Ha & Hch & Hk). fold (changes encode_data_fragment parent next) in Ha, Hch, Hk.
  rewrite <- Hc in Ha, Hch, Hk.
  assert (forall id, id ∈ removed parent c <-> id ∈ pb.fr_id <$> pb.mf_fragments parent /\ id ∉ pb.fr_id <$> pb.mf_fragments next) as Hremoved.
  { intros id. unfold removed. rewrite list_elem_of_filter, Hk. tauto. }
  assert (forall p f, p ∈ pb.mf_fragments parent -> Transaction.effect op p = Some f <-> f ∈ pb.mf_fragments next /\ pb.fr_id f = pb.fr_id p) as Heff.
  { intros p f Hp. assert (pb.fr_id p ∈ pb.fr_id <$> pb.mf_fragments parent) as Hpin by by apply list_elem_of_fmap_2.
    unfold Transaction.effect. rewrite Hrm. case_bool_decide as Hr.
    { apply elem_of_list_to_set, Hremoved in Hr as [_ Hr]. split; [done|]. intros [Hf Hid]. exfalso. apply Hr. rewrite <- Hid. by apply list_elem_of_fmap_2. }
    destruct (Transaction.updates op !! pb.fr_id p) as [g|] eqn:E; cbn [default].
    - pose proof (Transaction.updates_keyed _ _ _ E) as Hgid. apply Hup in E. rewrite Hch in E. apply list_elem_of_filter in E as [_ Hg].
      split; [intros [= <-]; done|]. intros [Hf Hid]. f_equal. apply (NoDup_fmap_inj pb.fr_id (pb.mf_fragments next)); [done.. | cbn in Hgid, Hid |- *; by rewrite Hid].
    - assert (pb.fr_id p ∈ pb.fr_id <$> pb.mf_fragments next) as (g & Hgid & Hg)%list_elem_of_fmap.
      { destruct (decide (pb.fr_id p ∈ pb.fr_id <$> pb.mf_fragments next)); [done|]. exfalso. apply Hr, elem_of_list_to_set, Hremoved. done. }
      assert (g ∈ pb.mf_fragments parent) as Hgp.
      { destruct (decide (g ∈ pb.mf_fragments parent)); [done|]. exfalso. apply not_elem_of_dom in E. apply E. rewrite Hdom. apply elem_of_list_to_set.
        rewrite Hgid, Hch. apply list_elem_of_fmap_2, list_elem_of_filter. split; [|done]. split; [by rewrite <- Hgid | done]. }
      assert (g = p) as -> by (apply (NoDup_fmap_inj pb.fr_id (pb.mf_fragments parent)); [done.. | congruence]).
      split; [by intros [= <-]|]. intros [Hf Hid]. f_equal. by apply (NoDup_fmap_inj pb.fr_id (pb.mf_fragments next)). }
  split.
  - rewrite Hadds, Ha. apply fragments_ext; [|done|].
    + rewrite fmap_app. apply ascending_app. split_and!.
      * eapply Transaction.ascending_sublist; [apply Transaction.omap_effect_ids | apply Hok].
      * eapply Transaction.ascending_sublist; [apply fmap_sublist, sublist_filter | done].
      * intros x y Hx (f & -> & [Hn Hf]%list_elem_of_filter)%list_elem_of_fmap. specialize (Hnew f Hf Hn).
        eapply elem_of_sublist in Hx; [|apply Transaction.omap_effect_ids].
        destruct (Transaction.next_fragment_id_above parent Hok) as (Hlt & _). specialize (Hlt x Hx). lia.
    + intros f. rewrite elem_of_app, effect_elem, list_elem_of_filter. split.
      * intros [(p & Hp & He)|[_ Hf]]; [|done]. by apply (Heff p f Hp) in He as [? _].
      * intros Hf. destruct (decide (is_new parent f)) as [|Hn]; [by right|]. left. unfold is_new in Hn. apply dec_stable in Hn.
        apply list_elem_of_fmap in Hn as (p & Hid & Hp). exists p. split; [done|]. by apply Heff.
  - intros id [Hid|Hid]%elem_of_union.
    + rewrite Hrm in Hid. apply elem_of_list_to_set, Hremoved in Hid as [? _]. done.
    + rewrite Hdom in Hid. apply elem_of_list_to_set, list_elem_of_fmap in Hid as (f & -> & Hf). rewrite Hch in Hf.
      by apply list_elem_of_filter in Hf as [[? _] _].
Qed.

(** Where nothing was added, changed or removed, the fragments are the same. *)
Lemma nothing_changed parent next c :
  Transaction.manifest_ok parent -> ascending (pb.fr_id <$> pb.mf_fragments next) ->
  Forall fragment_codec (pb.mf_fragments parent) -> Forall fragment_codec (pb.mf_fragments next) ->
  (forall f, f ∈ pb.mf_fragments next -> is_new parent f -> TransactionChecks.next_fragment_id parent <= pb.fr_id f) ->
  c = changes encode_data_fragment parent next -> added c = [] -> changed c = [] -> removed parent c = [] -> pb.mf_fragments parent = pb.mf_fragments next.
Proof.
  intros Hok Hasc Hpc Hnc Hnew Hc Ha Hch Hr. set (op := set_kind kDelete Operation0).
  destruct (replay parent next op c) as [H _]; try done.
  - rewrite Ha, Hch, Hr. unfold decodes_to, Transaction.row_change, Transaction.adds, Transaction.removes, Transaction.updates. cbn. split_and!; try done. set_solver.
  - rewrite <- H. change (Transaction.adds op) with (@nil pb.DataFragment). rewrite app_nil_r. clear. induction (pb.mf_fragments parent) as [|f l IH]; [done|].
    change (f :: l = f :: omap (Transaction.effect op) l). by f_equal.
Qed.

(** A commit that leaves the schema alone and changes the fragments, or is an update, is recorded as a change of rows. *)
Lemma derived_is_rows encode_field encode_index_message parent next :
  Transaction.manifest_ok parent -> ascending (pb.fr_id <$> pb.mf_fragments next) ->
  Forall fragment_codec (pb.mf_fragments parent) -> Forall fragment_codec (pb.mf_fragments next) ->
  (forall f, f ∈ pb.mf_fragments next -> is_new parent f -> TransactionChecks.next_fragment_id parent <= pb.fr_id f) ->
  (schema_change encode_data_fragment encode_field parent next).1 = false ->
  pb.mf_operation next = pb.Derive /\ pb.mf_fragments next <> pb.mf_fragments parent \/ pb.mf_operation next = pb.Update ->
  exists k msg, derive_transaction_operation encode_data_fragment encode_field encode_index_message parent next = Some (k, msg) /\ k ∈ [kAppend; kDelete; kUpdate] /\
    rows_message encode_data_fragment (bool_decide (pb.mf_operation next = pb.Update)) parent (changes encode_data_fragment parent next) = Some (k, msg).
Proof.
  intros Hok Hasc Hpc Hnc Hnew Hsc Hop. unfold derive_transaction_operation, operation.
  assert (match pb.mf_operation next with pb.Derive | pb.Update => True | _ => False end) as Hkind by (by destruct Hop as [[-> _]| ->]).
  assert (exists k msg, rows_message encode_data_fragment (bool_decide (pb.mf_operation next = pb.Update)) parent (changes encode_data_fragment parent next) = Some (k, msg) /\
    k ∈ [kAppend; kDelete; kUpdate]) as (k & msg & Hrows & Hk).
  { unfold rows_message. destruct (_ && bool_decide (changed _ = [])); [do 2 eexists; split; [done | set_solver]|].
    destruct (_ && (_ || _)); [do 2 eexists; split; [done | set_solver]|]. destruct (_ || _) eqn:E; [do 2 eexists; split; [done | set_solver]|]. exfalso.
    apply orb_false_iff in E as [[[E1%bool_decide_eq_false E2]%orb_false_iff E3]%orb_false_iff E4].
    apply negb_false_iff, bool_decide_eq_true in E2, E3, E4. destruct Hop as [[_ Hne]|Hu]; [|done]. apply Hne. symmetry. by apply (nothing_changed parent next (changes encode_data_fragment parent next)). }
  exists k, msg. split; [|done].
  assert (derived encode_data_fragment encode_field encode_index_message parent next = Some (k, msg)) as Hd; [|by destruct (pb.mf_operation next)].
  unfold derived. destruct (schema_change _ _ _ _) as [sc fm]. cbn in Hsc. subst sc. rewrite (bool_decide_eq_false_2 (pb.mf_operation next = pb.Rewrite)), Hrows; [done|].
  by destruct (pb.mf_operation next).
Qed.

Lemma removed_range parent c : Transaction.manifest_ok parent -> Forall is_u64 (removed parent c) /\ zlen (removed parent c) < 2 ^ 60.
Proof.
  intros Hok. assert (Forall (fun x => 0 <= x < 2 ^ 32) (removed parent c)) as Hf.
  { apply Forall_forall. intros id [_ Hid]%list_elem_of_filter. destruct (Transaction.ok_high _ Hok id Hid) as (mx & Hmx & Hr).
    pose proof (Transaction.ok_max _ Hok mx Hmx). unfold is_u32 in *. lia. }
  assert (ascending (removed parent c)) as Ha by (eapply Transaction.ascending_sublist; [apply sublist_filter | apply Hok]).
  split; [eapply Forall_impl; [exact Hf|]; unfold is_u64; cbn; intros; lia|]. pose proof (ascending_bounded _ 0 (2 ^ 32) Ha Hf ltac:(lia)). lia.
Qed.

(** C23: (refinement): a commit that leaves the schema alone and changes the fragments (or is stated to be an update) is
    recorded as an append, a delete or an update, read off the two versions, and that operation is the change
    between them: a reader decodes it, and replayed over the fragments of the version before it gives exactly
    those of the new one, touching only fragments that were there (what [concurrent_changes_merge] asks of the
    operations it merges). The fragments are ones nanom's codec reads back, their new ids are above the old, and the
    commits recorded otherwise (compactions, changes of schema, indices or configuration, those that state their
    operation) are not meant. *)
Theorem derived_rows_replay encode_field encode_index_message parent next :
  Transaction.manifest_ok parent -> ascending (pb.fr_id <$> pb.mf_fragments next) ->
  Forall fragment_codec (pb.mf_fragments parent) -> Forall fragment_codec (pb.mf_fragments next) -> Forall int_fields (pb.mf_fragments next) ->
  (forall f, f ∈ pb.mf_fragments next -> is_new parent f -> TransactionChecks.next_fragment_id parent <= pb.fr_id f) ->
  (schema_change encode_data_fragment encode_field parent next).1 = false ->
  pb.mf_operation next = pb.Derive /\ pb.mf_fragments next <> pb.mf_fragments parent \/ pb.mf_operation next = pb.Update ->
  exists k msg op, derive_transaction_operation encode_data_fragment encode_field encode_index_message parent next = Some (k, msg) /\
    k ∈ [kAppend; kDelete; kUpdate] /\
    decode_operation decode_data_fragment decode_field decode_data_file decode_index_message k msg = Ok op /\
    Transaction.row_change op /\
    omap (Transaction.effect op) (pb.mf_fragments parent) ++ Transaction.adds op = pb.mf_fragments next /\
    (forall id, id ∈ Transaction.touches op -> id ∈ pb.fr_id <$> pb.mf_fragments parent).
Proof.
  intros Hok Hasc Hpc Hnc Hint Hnew Hsc Hop.
  destruct (derived_is_rows encode_field encode_index_message parent next) as (k & msg & Hder & Hk & Hd); try done. remember (changes _ _ _) as c eqn:Hc.
  destruct (changes_loop parent (ascending_NoDup _ (Transaction.ok_sorted _ Hok)) Hpc _ Hnc) as (Ha & Hch & _).
  fold (changes encode_data_fragment parent next) in Ha, Hch. rewrite <- Hc in Ha, Hch.
  destruct (removed_range parent c Hok) as [Hr Hrl].
  destruct (rows_decoded (bool_decide (pb.mf_operation next = pb.Update)) parent c k msg) as (op & Hdec & Hto); [rewrite Ha; by apply Forall_filter | rewrite Hch; by apply Forall_filter | done.. | subst c; by apply changes_modified | done |].
  exists k, msg, op. split_and!; [done | done | done | apply Hto | by apply (replay parent next op c) ..].
Qed.

End decoding.

(** ** The file is read back *)

Definition property_fields (kv : string * string) : list wfield := opt_string 1 kv.1 ++ opt_string 2 kv.2.

Lemma put_properties_wfields kvs :
  concat ((fun kv => put_bytes 4 (put_string 1 kv.1 ++ put_string 2 kv.2)) <$> kvs)
  = concat (put_wfield <$> ((fun kv => WBytes 4 (concat (put_wfield <$> property_fields kv))) <$> kvs)).
Proof.
  induction kvs as [|kv kvs IH]; [done|]. rewrite !fmap_cons. cbn [concat]. f_equal; [|done].
  unfold property_fields. rewrite put_bytes_wfield, !put_string_wfields, fmap_app, concat_app by (unfold field_number; lia). done.
Qed.

(** a transaction file's operation, whatever the version, name and properties written before
    it, is the one a concurrent commit reads back from the file. *)
Theorem transaction_file_readable read_version uuid properties field message :
  is_u64 read_version -> short uuid -> map_short properties -> kFirstOperationField <= field <= kLastOperationField -> zlen message < 2 ^ 64 ->
  transaction_file_operation (transaction_bytes read_version uuid properties (field, message)) = Ok (field, message).
Proof.
  intros Hv Hu Hp Hf Hm. unfold transaction_file_operation, transaction_bytes. cbn [fst snd]. unfold kFirstOperationField, kLastOperationField in *.
  set (ps := (fun kv => WBytes 4 (concat (put_wfield <$> property_fields kv))) <$> map_entries properties).
  assert (Forall wfield_ok (opt_uint 1 read_version ++ opt_string 2 uuid ++ ps)) as Hok.
  { repeat (apply Forall_app; split); [|apply opt_string_ok; [unfold field_number; lia | done]|].
    - unfold opt_uint. case_match; [done|]. apply Forall_singleton. bool_prop. split_and!; [unfold field_number; lia | done | done].
    - apply Forall_fmap, Forall_forall. intros [k v] Hkv%map_entries_elem. destruct (Hp _ _ Hkv) as [Hk Hvs].
      split; [unfold field_number; lia|]. unfold property_fields. rewrite fmap_app, concat_app, zlen_app.
      pose proof (zlen_opt_string 1 k Hk). pose proof (zlen_opt_string 2 v Hvs). cbn [fst snd]. lia. }
  rewrite put_uint_wfields, put_string_wfields, put_properties_wfields, put_bytes_wfield by (unfold field_number; lia). fold ps.
  rewrite (app_assoc (concat _)), (app_assoc (concat _ ++ _)), <- !concat_app, <- !fmap_app.
  replace (put_wfield (WBytes field message)) with (concat (put_wfield <$> [WBytes field message])) by (cbn; by rewrite app_nil_r).
  rewrite <- concat_app, <- fmap_app, wire_message_written.
  2: { apply Forall_app. split; [by rewrite <- app_assoc|]. apply Forall_singleton. split; [unfold field_number; lia | done]. }
  rewrite fmap_app, list_find_app_r.
  - cbn [fmap list_fmap wire_of list_find]. by rewrite decide_True by (cbn; lia).
  - apply list_find_None, Forall_fmap. rewrite <- app_assoc. apply Forall_app. split; [unfold opt_uint; case_match; repeat constructor; cbn; lia|].
    apply Forall_app. split; [unfold opt_string; case_bool_decide; repeat constructor; cbn; lia|]. apply Forall_fmap, Forall_true. intros kv. cbn. lia.
Qed.

(** ** Concrete versions *)

(** A codec of the fragments with one file of the samples: the id and the file's path. *)
Definition sample_encode (f : pb.DataFragment) : list Z :=
  pb.fr_id f :: match pb.fr_files f with file :: _ => bytes_of_string (pb.df_path file) | [] => [] end.
Definition sample_decode (bs : list Z) : option pb.DataFragment :=
  match bs with id :: path => Some (Transaction.sample_fragment id (string_of_bytes path)) | [] => None end.

(** Fragment 1 of the sample version dropped, fragment 3 rewritten and fragment 6 added. *)
Definition sample_next : pb.Manifest :=
  pb.set_fragments [Transaction.sample_fragment 0 "a"; Transaction.sample_fragment 3 "c2"; Transaction.sample_fragment 6 "new"]
    (pb.set_operation pb.Derive Transaction.sample_base).

Lemma derived_rows_replay_witness :
  exists k msg op,
    derive_transaction_operation sample_encode (fun _ => []) (fun _ => []) Transaction.sample_base sample_next = Some (k, msg) /\ k = kUpdate /\
    decode_operation sample_decode (fun _ => None) (fun _ => None) (fun _ => None) k msg = Ok op /\
    omap (Transaction.effect op) (pb.mf_fragments Transaction.sample_base) ++ Transaction.adds op = pb.mf_fragments sample_next.
Proof.
  destruct (derived_rows_replay sample_encode sample_decode (fun _ => None) (fun _ => None) (fun _ => None) (fun _ => []) (fun _ => [])
    Transaction.sample_base sample_next) as (k & msg & op & Hder & _ & Hd & _ & Hr & _); [exact Transaction.sample_base_ok | | | | | | | |].
  - repeat constructor.
  - repeat constructor; vm_compute; reflexivity.
  - repeat constructor; vm_compute; reflexivity.
  - repeat constructor.
  - intros f Hf Hn. cbn in Hf. rewrite !elem_of_cons, elem_of_nil in Hf. destruct Hf as [->|[->|[->|[]]]]; [exfalso; apply Hn; vm_compute; repeat constructor.. |].
    vm_compute. done.
  - vm_compute. reflexivity.
  - left. split; [reflexivity | vm_compute; discriminate].
  - exists k, msg, op. refine (conj Hder (conj _ (conj Hd Hr))). vm_compute in Hder. injection Hder as <- _. reflexivity.
Defined.

Lemma transaction_file_readable_witness :
  transaction_file_operation (transaction_bytes 7 "uuid" {["by" := "me"]} (kReserveFragments, [8; 5])) = Ok (kReserveFragments, [8; 5]).
Proof.
  apply transaction_file_readable; [vm_compute; done | vm_compute; done | | vm_compute; done | vm_compute; done].
  intros k v Hkv. apply lookup_singleton_Some in Hkv as [<- <-]. vm_compute. done.
Defined.

End TransactionFile.
