(* ===== verification/ManifestFile.v ===== *)
(** * ManifestFile: the names and the framing of a version's file (src/table/manifest_reader.cpp,
      src/table/manifest_writer.cpp)

    The two naming schemes of [_versions] and the parser both sides share; the layout
    [u32 0][u32 length][IndexSection][u32 length][Manifest][u64 position][u16 0][u16 2]["LANC"] that
    [publish_manifest] writes, and the reader of it; the feature-flag checks. The protobuf of the two
    messages is nanom's: it is a parameter. *)

From S2P Require Import Prelude ReadSafety Pb.

Module ManifestFile.

(** ** Names *)

Definition kManifestV2Digits : nat := 20.

Definition is_detached (version : Z) : bool := negb (Z.land version (Z.shiftl 1 63) =? 0).

(** [std::setfill('0') << std::setw(width)] before a number. *)
Fixpoint zeros (n : nat) : string := match n with O => "" | S n => String (Ascii.ascii_of_N 48) (zeros n) end.

Definition padded (width : nat) (v : Z) : string :=
  let digits := pretty v in zeros (width - String.length digits) +:+ digits.

Definition manifest_name_v2 (v : Z) : string := padded kManifestV2Digits (U64_MAX - v) +:+ ".manifest".

Definition manifest_filename (version : Z) (v2 : bool) : string :=
  if is_detached version then "d" +:+ pretty version +:+ ".manifest"
  else if negb v2 then pretty version +:+ ".manifest"
  else padded kManifestV2Digits (U64_MAX - version) +:+ ".manifest".

(** [std::stoull]; [None] where it throws. *)
Definition stoull (digits : string) : option Z :=
  let v := digits_value 0 digits in if v <=? U64_MAX then Some v else None.

(** [name.substr(0, name.size() - suffix.size())] when [name] is longer than [suffix] and ends with it. *)
Definition strip_suffix (suffix name : string) : option string :=
  let n := String.length name in
  let k := String.length suffix in
  if bool_decide (n <= k)%nat then None
  else if String.eqb (String.substring (n - k) k name) suffix then Some (String.substring 0 (n - k) name) else None.

Definition parse_manifest_version (name : string) : option Z :=
  digits ← strip_suffix ".manifest" name;
  if String.eqb digits "" || negb (all_digits digits) then None
  else
    parsed ← stoull digits;
    Some (if bool_decide (String.length digits = kManifestV2Digits) then U64_MAX - parsed else parsed).

(** ** Feature flags *)

Inductive WriteKind := Insert | Commit.

(** Bits 0 to 8. *)
Definition kSupportedFeatureFlags : Z := Z.shiftl 1 9 - 1.

Definition has_flag (flag flags : Z) : bool := negb (Z.land flags flag =? 0).

Definition check_paired_flags (m : pb.Manifest) : res unit :=
  if Bool.eqb (has_flag pb.kFlagMixedDataFileVersions (pb.mf_reader_feature_flags m))
              (has_flag pb.kFlagMixedDataFileVersions (pb.mf_writer_feature_flags m)) then Ok tt
  else Err "Encountered corrupt file manifest: Manifest has only one of the mixed data-file-version reader and writer feature bits set, so its semantics are undefined".

(** [flags & ~kSupportedFeatureFlags] *)
Definition unsupported (flags : Z) : bool := has_flag (u64 (Z.lnot kSupportedFeatureFlags)) flags.

Definition check_manifest_readable (m : pb.Manifest) : res unit :=
  _ ← check_paired_flags m;
  if unsupported (pb.mf_reader_feature_flags m) then
    Err ("Not supported: This dataset cannot be read by this version of Lance. Please upgrade Lance to read this dataset. Flags: " +:+
         pretty (pb.mf_reader_feature_flags m))
  else Ok tt.

Definition newline : string := String (Ascii.ascii_of_N 10) "".

Definition check_manifest_writable (m : pb.Manifest) (kind : WriteKind) : res unit :=
  _ ← check_paired_flags m;
  if unsupported (pb.mf_writer_feature_flags m) then
    let flags := pretty (pb.mf_writer_feature_flags m) in
    Err match kind with
        | Insert => "Not supported: This dataset cannot be written by this version of Lance. Please upgrade Lance to write to this dataset." +:+
                    newline +:+ " Flags: " +:+ flags
        | Commit => "Not supported: This dataset cannot be written by this version of Lance. Please upgrade Lance to write this dataset. Flags: " +:+ flags
        end
  else Ok tt.

(** ** The versions of the data files *)

(** 1 for v1, 20 to 23 for 2.0 to 2.3, 0 when it is none of these. *)
Definition data_file_version (major minor : Z) : Z :=
  if (major =? 0) && (minor <=? 2) then 1
  else if ((major =? 0) && (minor =? 3)) || ((major =? 2) && (minor <=? 3)) then (if major =? 0 then 20 else 20 + minor)
  else 0.

Definition storage_version (version : string) : Z :=
  if String.eqb version "legacy" || String.prefix "0." version then 1
  else match version with
       | String c1 (String c2 (String c3 "")) =>
           let d := Z.of_N (Ascii.N_of_ascii c3) - 48 in
           if (Ascii.N_of_ascii c1 =? 50)%N && (Ascii.N_of_ascii c2 =? 46)%N && (0 <=? d) && (d <=? 3) then 20 + d else 0
       | _ => 0
       end.

Record FileVersions := mkFileVersions { seen_v1 : bool; seen_v2 : bool; seen_other : bool }.

Definition file_versions_step (default_version : Z) (s : FileVersions) (file : pb.DataFile) : FileVersions :=
  let version := data_file_version (pb.df_file_major_version file) (pb.df_file_minor_version file) in
  mkFileVersions (seen_v1 s || (version =? 1)) (seen_v2 s || (20 <=? version))
    (seen_other s || (negb (version =? 0) && negb (version =? default_version))).

Definition check_data_file_versions (m : pb.Manifest) : res pb.Manifest :=
  let default_version := storage_version (pb.format_version (pb.mf_data_format m)) in
  if default_version =? 0 then Ok m
  else
    let s := foldl (file_versions_step default_version) (mkFileVersions (default_version =? 1) (negb (default_version =? 1)) false)
               (concat (pb.fr_files <$> pb.mf_fragments m)) in
    if seen_v1 s && seen_v2 s then Err "the dataset is in Lance's v1 (legacy) format, which nanolance does not write"
    else if seen_other s then
      Ok (pb.set_writer_feature_flags (Z.lor (pb.mf_writer_feature_flags m) pb.kFlagMixedDataFileVersions)
           (pb.set_reader_feature_flags (Z.lor (pb.mf_reader_feature_flags m) pb.kFlagMixedDataFileVersions) m))
    else Ok m.

(** ** Reading a file *)

(** [read_range]: [n] bytes at [offset] of the file; [None] is a failed read. *)
Definition read_range (src : list Z) (offset n : Z) : option (list Z) :=
  if offset + n <=? zlen src then Some (take (Z.to_nat n) (drop (Z.to_nat offset) src)) else None.

Definition read_le32 (p : list Z) : Z := load_le 4 p.
Definition read_le64 (p : list Z) : Z := load_le 8 p.

(** [[u32 length][protobuf]] at [position]; [what] names the message in the errors. *)
Definition read_message_body (src : list Z) (position : Z) (what : string) : res (list Z) :=
  let file_size := zlen src in
  if (file_size <? position) || (file_size - position <? 4) then Err ("manifest " +:+ what +:+ " is past the end of the file")
  else
    match read_range src position 4 with
    | None => Err ("failed to read the manifest " +:+ what)
    | Some len_le =>
        let length_ := read_le32 len_le in
        if file_size - position - 4 <? length_ then Err ("manifest " +:+ what +:+ " runs past the end of the file")
        else if length_ =? 0 then Ok []
        else match read_range src (position + 4) length_ with
             | None => Err ("failed to read the manifest " +:+ what)
             | Some body => Ok body
             end
    end.

Definition lanc : list Z := bytes_of_string "LANC".

(** The manifest's protobuf: the trailer says where it starts. *)
Definition read_manifest_body (src : list Z) : res (list Z) :=
  let file_size := zlen src in
  if file_size <? 8 + 16 then Err "manifest file too small"
  else
    match read_range src (file_size - 16) 16 with
    | None => Err "failed to read manifest trailer"
    | Some trailer =>
        if negb (bool_decide (drop 12 trailer = lanc)) then Err "manifest trailer magic is not LANC"
        else
          let manifest_position := read_le64 trailer in
          if file_size - 16 <? manifest_position then Err "invalid manifest_position in trailer"
          else
            match read_range src manifest_position 4 with
            | None => Err "failed to read manifest protobuf length"
            | Some len_le =>
                let proto_len := read_le32 len_le in
                if (proto_len =? 0) || (file_size - 16 <? u64 (manifest_position + 4 + proto_len)) then Err "invalid manifest protobuf length"
                else match read_range src (u64 (manifest_position + 4)) proto_len with
                     | None => Err "failed to read manifest protobuf"
                     | Some body => Ok body
                     end
            end
    end.

Section source.
  Context (decode_manifest : list Z -> option pb.Manifest).
  Context (decode_index_section : list Z -> res (list pb.IndexMetadata)).
  Context (limits : ReadLimits).

Definition read_index_section (src : list Z) (position : Z) : res (list pb.IndexMetadata) :=
  body ← read_message_body src position "index section";
  match decode_index_section body with
  | Ok out => Ok out
  | Err error => Err ("manifest index section: " +:+ error)
  end.

(** The indices a commit must carry on; one that cannot be read fails only a later commit. *)
Definition load_indices (src : list Z) (m : pb.Manifest) : pb.Manifest :=
  match pb.mf_index_section m with
  | Some position =>
      match read_index_section src position with
      | Ok indices => pb.set_indices indices m
      | Err index_error => pb.set_index_section_error index_error (pb.set_indices [] m)
      end
  | None => m
  end.

Definition check_element_counts (m : pb.Manifest) : res unit :=
  let mx := max_manifest_elements limits in
  if (mx <? zlen (pb.mf_fields m)) || (mx <? zlen (pb.mf_fragments m)) || (mx <? zlen (pb.mf_indices m)) then
    Err "manifest element count exceeds safety limit"
  else if existsb (fun f => mx <? zlen (pb.fr_files f)) (pb.mf_fragments m) then Err "manifest fragment file count exceeds safety limit"
  else Ok tt.

Definition load_manifest_source (src : list Z) (check_flags : bool) : res pb.Manifest :=
  body ← read_manifest_body src;
  match decode_manifest body with
  | None => Err "failed to decode manifest protobuf"
  | Some out =>
      _ ← (if check_flags then check_manifest_readable out else Ok tt);
      let out := load_indices src out in
      _ ← check_element_counts out;
      Ok out
  end.

End source.

(** ** Writing a file *)

Section bytes.
  Context (encode_manifest : pb.Manifest -> list Z).
  Context (encode_index_section : list pb.IndexMetadata -> list Z).

(** The manifest as written: it points at its indices, which come first. *)
Definition with_index_section (m : pb.Manifest) : pb.Manifest :=
  pb.set_index_section (if bool_decide (pb.mf_indices m = []) then None else Some 4) m.

(** [[u32 length][IndexSection]], when there are indices. *)
Definition index_section_bytes (m : pb.Manifest) : list Z :=
  if bool_decide (pb.mf_indices m = []) then []
  else let bytes := encode_index_section (pb.mf_indices m) in le_bytes 4 (u32 (zlen bytes)) ++ bytes.

Definition trailer (position : Z) : list Z := le_bytes 8 position ++ le_bytes 2 0 ++ le_bytes 2 2 ++ lanc.

Definition manifest_file_bytes (m : pb.Manifest) : list Z :=
  let manifest_position := 4 + zlen (index_section_bytes m) in
  let manifest_bytes := encode_manifest (with_index_section m) in
  le_bytes 4 0 ++ index_section_bytes m ++ le_bytes 4 (u32 (zlen manifest_bytes)) ++ manifest_bytes ++ trailer manifest_position.

End bytes.

Arguments trailer : simpl never.

(** ** Decimal numbers *)

Lemma zeros_digits n s : digits_value 0 (zeros n +:+ s) = digits_value 0 s /\ all_digits (zeros n +:+ s) = all_digits s /\
  String.length (zeros n +:+ s) = (n + String.length s)%nat.
Proof.
  induction n as [|n IH]; [done|]. destruct IH as (<- & <- & IH). split_and!; [done | done|].
  change (S (String.length (zeros n +:+ s)) = (S n + String.length s)%nat). by rewrite IH.
Qed.

Lemma padded_spec n v :
  0 <= v < 10 ^ Z.of_nat n -> (0 < n)%nat ->
  digits_value 0 (padded n v) = v /\ all_digits (padded n v) = true /\ String.length (padded n v) = n.
Proof.
  intros Hv Hn. unfold padded. destruct (zeros_digits (n - String.length (pretty v)) (pretty v)) as (-> & -> & ->).
  destruct (pretty_digits v) as [-> ->]; [lia|]. pose proof (pretty_length v n Hv Hn). split_and!; [done | done | lia].
Qed.

(** ** The names are parsed back *)

Lemma substring_prefix a b : String.substring 0 (String.length a) (a +:+ b) = a.
Proof. induction a as [|c a IH]; [by destruct b|]. exact (f_equal (String c) IH). Qed.

Lemma substring_full b : String.substring 0 (String.length b) b = b.
Proof. induction b as [|c b IH]; [done|]. exact (f_equal (String c) IH). Qed.

Lemma substring_suffix a b : String.substring (String.length a) (String.length b) (a +:+ b) = b.
Proof. induction a as [|c a IH]; [apply substring_full | exact IH]. Qed.

Lemma strip_suffix_app digits suffix : digits <> "" -> strip_suffix suffix (digits +:+ suffix) = Some digits.
Proof.
  intros Hd. unfold strip_suffix. rewrite string_length_app. rewrite bool_decide_eq_false_2 by (destruct digits; [done | cbn; lia]).
  replace (String.length digits + String.length suffix - String.length suffix)%nat with (String.length digits) by lia.
  by rewrite substring_suffix, String.eqb_refl, substring_prefix.
Qed.

Lemma parse_digits digits v :
  digits <> "" -> all_digits digits = true -> digits_value 0 digits = v -> v <= U64_MAX ->
  parse_manifest_version (digits +:+ ".manifest") = Some (if bool_decide (String.length digits = kManifestV2Digits) then U64_MAX - v else v).
Proof.
  intros Hne Hall Hv Hm. unfold parse_manifest_version. rewrite strip_suffix_app by done. cbn [mbind option_bind].
  rewrite (proj2 (String.eqb_neq _ _) Hne), Hall. cbn [negb orb]. unfold stoull. rewrite Hv, (proj2 (Z.leb_le _ _) Hm). done.
Qed.

Lemma attached_range version : is_u64 version -> is_detached version = false <-> version < 2 ^ 63.
Proof.
  intros Hv. unfold is_detached. change (Z.shiftl 1 63) with (2 ^ 63). rewrite land_pow2_testbit by lia. rewrite negb_involutive.
  unfold is_u64 in Hv. split; intros H.
  - destruct (Z.lt_ge_cases version (2 ^ 63)) as [|Hge]; [done|]. exfalso.
    assert (Z.testbit version 63 = true) as Ht by (apply Z.testbit_true; [lia|]; assert (version / 2 ^ 63 = 1) as -> by (symmetry; apply Z.div_unique with (version - 2 ^ 63); lia); done).
    congruence.
  - rewrite Z.testbit_false by lia. by rewrite Z.div_small by lia.
Qed.

Lemma nonempty_length s : (0 < String.length s)%nat -> s <> "".
Proof. intros H ->. cbn in H. lia. Qed.

Lemma manifest_name_parsed version v2 :
  is_u64 version ->
  parse_manifest_version (manifest_filename version v2) = if is_detached version then None else Some version.
Proof.
  intros Hv. unfold manifest_filename. destruct (is_detached version) eqn:E.
  { change ("d" +:+ pretty version +:+ ".manifest") with (String (Ascii.ascii_of_N 100) (pretty version) +:+ ".manifest").
    unfold parse_manifest_version. by rewrite strip_suffix_app. }
  apply attached_range in E; [|done]. unfold is_u64 in Hv.
  destruct v2; cbn [negb].
  - destruct (padded_spec kManifestV2Digits (U64_MAX - version)) as (H1 & H2 & H3); [unfold U64_MAX, kManifestV2Digits; lia | unfold kManifestV2Digits; lia|].
    rewrite (parse_digits _ (U64_MAX - version)); [|apply nonempty_length; rewrite H3; unfold kManifestV2Digits; lia | done | done | unfold U64_MAX; lia].
    rewrite bool_decide_eq_true_2 by done. f_equal. lia.
  - destruct (pretty_digits version) as [H1 H2]; [lia|]. pose proof (pretty_length version 19 ltac:(lia) ltac:(lia)) as H3.
    rewrite (parse_digits _ version); [|intros Hn; rewrite Hn in H1; cbn in H1; by subst version | done | done | unfold U64_MAX; lia].
    by rewrite bool_decide_eq_false_2 by (unfold kManifestV2Digits; lia).
Qed.

(** the name a version's manifest is given, in either scheme, is read back as that version by
    both the reader and the writer of the directory; a detached version's name, and only it, is no
    version of the lineage. *)
Theorem manifest_name_roundtrip version v2 :
  is_u64 version ->
  parse_manifest_version (manifest_filename version v2) = if is_detached version then None else Some version.
Proof. apply manifest_name_parsed. Qed.

Lemma manifest_name_roundtrip_witness : parse_manifest_version (manifest_filename 41 true) = Some 41.
Proof. apply (manifest_name_roundtrip 41 true). vm_compute. done. Defined.

(** ** A written file is read back *)

Lemma read_range_mid pre mid post offset n : offset = zlen pre -> n = zlen mid -> read_range (pre ++ mid ++ post) offset n = Some mid.
Proof.
  intros -> ->. unfold read_range. rewrite !zlen_app. pose proof (zlen_nonneg post). rewrite (proj2 (Z.leb_le _ _)) by lia.
  unfold zlen. rewrite !Nat2Z.id, drop_app_length, take_app_length. done.
Qed.

Lemma read_le32_bytes v : is_u32 v -> read_le32 (le_bytes 4 v) = v.
Proof. intros Hv. unfold read_le32. rewrite <- (app_nil_r (le_bytes 4 v)). by apply load_le_le_bytes. Qed.

Lemma read_message_body_mid pre body post what :
  zlen body < 2 ^ 32 -> read_message_body (pre ++ le_bytes 4 (u32 (zlen body)) ++ body ++ post) (zlen pre) what = Ok body.
Proof.
  intros Hb. assert (is_u32 (zlen body)) as Hu by (pose proof (zlen_nonneg body); unfold is_u32; lia). rewrite u32_small by done.
  unfold read_message_body. rewrite !zlen_app, zlen_le_bytes. pose proof (zlen_nonneg body). pose proof (zlen_nonneg post). pose proof (zlen_nonneg pre).
  rewrite (proj2 (Z.ltb_ge _ _)), (proj2 (Z.ltb_ge _ _)) by lia. cbn [orb].
  rewrite (read_range_mid pre (le_bytes 4 (zlen body)) (body ++ post)) by (done || by rewrite zlen_le_bytes). rewrite read_le32_bytes by done.
  rewrite (proj2 (Z.ltb_ge _ _)) by lia. destruct (Z.eqb_spec (zlen body) 0) as [E|E].
  - destruct body; [done | rewrite zlen_cons in E; pose proof (zlen_nonneg body); lia].
  - rewrite app_assoc. rewrite (read_range_mid (pre ++ le_bytes 4 (zlen body)) body post); [done | by rewrite zlen_app, zlen_le_bytes | done].
Qed.

Lemma read_manifest_body_mid pre body :
  0 < zlen body < 2 ^ 32 -> zlen pre < 2 ^ 63 - 2 ^ 33 -> 4 <= zlen pre ->
  read_manifest_body (pre ++ le_bytes 4 (u32 (zlen body)) ++ body ++ trailer (zlen pre)) = Ok body.
Proof.
  intros Hb Hp Hp4. assert (is_u32 (zlen body)) as Hu by (unfold is_u32; lia). rewrite u32_small by done.
  assert (zlen (trailer (zlen pre)) = 16) as Ht by (unfold trailer; rewrite !zlen_app, !zlen_le_bytes; done).
  unfold read_manifest_body. rewrite !zlen_app, zlen_le_bytes, Ht.
  rewrite (proj2 (Z.ltb_ge _ _)) by lia.
  assert (forall l : list Z, pre ++ le_bytes 4 (zlen body) ++ body ++ l = (pre ++ le_bytes 4 (zlen body) ++ body) ++ l ++ []) as Hass
    by (intros l; rewrite app_nil_r, <- !app_assoc; done).
  rewrite Hass at 1. rewrite (read_range_mid _ (trailer (zlen pre)) []) by (rewrite ?zlen_app, ?zlen_le_bytes; lia).
  replace (drop 12 (trailer (zlen pre))) with lanc by done. rewrite bool_decide_eq_true_2 by done. cbn [negb].
  assert (read_le64 (trailer (zlen pre)) = zlen pre) as -> by (unfold read_le64, trailer; apply load_le_le_bytes; pose proof (zlen_nonneg pre); lia).
  rewrite (proj2 (Z.ltb_ge _ _)) by lia.
  rewrite (read_range_mid pre (le_bytes 4 (zlen body)) (body ++ trailer (zlen pre))) by (done || by rewrite zlen_le_bytes).
  rewrite read_le32_bytes by done. rewrite !u64_small by (unfold is_u64; lia). rewrite (proj2 (Z.eqb_neq _ _)), (proj2 (Z.ltb_ge _ _)) by lia. cbn [orb].
  rewrite (app_assoc pre). rewrite (read_range_mid (pre ++ le_bytes 4 (zlen body)) body (trailer (zlen pre))); [done | by rewrite zlen_app, zlen_le_bytes | done].
Qed.

(** What of a manifest is on the wire: not its indices, which have a section of their own, and not the
    members that only tell a commit what to do. *)
Definition on_wire (m : pb.Manifest) : pb.Manifest :=
  pb.set_transaction_properties ∅ (pb.set_explicit_read_version 0 (pb.set_explicit_operation [] (pb.set_explicit_operation_field 0
    (pb.set_reserved_fragments 0 (pb.set_first_new_fragment 0 (pb.set_restored_version 0 (pb.set_operation pb.Derive
      (pb.set_index_section_error "" (pb.set_transaction_section None (pb.set_indices [] m)))))))))).

(** The check reads the two flag words only. *)
Lemma check_readable_flags m m' :
  pb.mf_reader_feature_flags m = pb.mf_reader_feature_flags m' -> pb.mf_writer_feature_flags m = pb.mf_writer_feature_flags m' ->
  check_manifest_readable m = check_manifest_readable m'.
Proof. intros H1 H2. unfold check_manifest_readable, check_paired_flags. by rewrite H1, H2. Qed.

Lemma check_writable_flags m m' kind :
  pb.mf_reader_feature_flags m = pb.mf_reader_feature_flags m' -> pb.mf_writer_feature_flags m = pb.mf_writer_feature_flags m' ->
  check_manifest_writable m kind = check_manifest_writable m' kind.
Proof. intros H1 H2. unfold check_manifest_writable, check_paired_flags. by rewrite H1, H2. Qed.

Lemma zlen_reserved : 4 = zlen (le_bytes 4 0).
Proof. by rewrite zlen_le_bytes. Qed.

Section roundtrip.
  Context (encode_manifest : pb.Manifest -> list Z) (decode_manifest : list Z -> option pb.Manifest).
  Context (encode_index_section : list pb.IndexMetadata -> list Z) (decode_index_section : list Z -> res (list pb.IndexMetadata)).
  Context (limits : ReadLimits).

(** nanom's codec on the two messages of a manifest's file, which fit their lengths; the indices are read
    back as [indices]. *)
Record codec_on (m : pb.Manifest) (indices : list pb.IndexMetadata) : Prop := {
  codec_manifest : decode_manifest (encode_manifest (with_index_section m)) = Some (on_wire (with_index_section m));
  codec_size : 0 < zlen (encode_manifest (with_index_section m)) < 2 ^ 32;
  codec_indices : if bool_decide (pb.mf_indices m = []) then indices = []
                  else decode_index_section (encode_index_section (pb.mf_indices m)) = Ok indices;
  codec_index_size : zlen (encode_index_section (pb.mf_indices m)) < 2 ^ 32
}.

(** The manifest a reader of the file gets. *)
Definition stored (m : pb.Manifest) (indices : list pb.IndexMetadata) : pb.Manifest := pb.set_indices indices (on_wire (with_index_section m)).

Lemma load_indices_written m indices rest :
  codec_on m indices ->
  load_indices decode_index_section (le_bytes 4 0 ++ index_section_bytes encode_index_section m ++ rest) (on_wire (with_index_section m)) = stored m indices.
Proof.
  intros [_ _ Hi Hl]. unfold load_indices, index_section_bytes.
  assert (pb.mf_index_section (on_wire (with_index_section m)) = if bool_decide (pb.mf_indices m = []) then None else Some 4) as -> by done.
  case_bool_decide as E; [by subst indices|]. unfold read_index_section. rewrite <- (app_assoc (le_bytes 4 _)), zlen_reserved.
  rewrite read_message_body_mid by done. unfold mbind, res_bind. by rewrite Hi.
Qed.

Lemma load_manifest_file_bytes m indices check_flags :
  codec_on m indices -> (check_flags = true -> check_manifest_readable m = Ok tt) -> check_element_counts limits (stored m indices) = Ok tt ->
  load_manifest_source decode_manifest decode_index_section limits (manifest_file_bytes encode_manifest encode_index_section m) check_flags
  = Ok (stored m indices).
Proof.
  intros Hcodec Hr Hc. pose proof Hcodec as [Hm Hs _ Hl]. unfold load_manifest_source.
  assert (read_manifest_body (manifest_file_bytes encode_manifest encode_index_section m) = Ok (encode_manifest (with_index_section m))) as ->.
  { unfold manifest_file_bytes. assert (zlen (le_bytes 4 0 ++ index_section_bytes encode_index_section m) = 4 + zlen (index_section_bytes encode_index_section m)) as Hpre
      by (by rewrite zlen_app, zlen_le_bytes).
    rewrite app_assoc, <- Hpre. pose proof (zlen_nonneg (index_section_bytes encode_index_section m)).
    apply read_manifest_body_mid; rewrite ?Hpre; [done | | lia]. unfold index_section_bytes. case_bool_decide; [done|]. rewrite zlen_app, zlen_le_bytes. lia. }
  unfold mbind at 1, res_bind at 1. rewrite Hm.
  replace (if check_flags then check_manifest_readable (on_wire (with_index_section m)) else Ok tt) with (Ok tt)
    by (destruct check_flags; [rewrite <- Hr by done; symmetry; by apply check_readable_flags | done]).
  unfold mbind at 1, res_bind at 1. unfold manifest_file_bytes. rewrite (load_indices_written m indices) by done. unfold mbind, res_bind. by rewrite Hc.
Qed.

End roundtrip.

(** ** Reads stay inside the file *)

Lemma read_range_inside src offset n : offset + n <= zlen src -> exists bs, read_range src offset n = Some bs.
Proof. intros H. unfold read_range. rewrite (proj2 (Z.leb_le _ _)) by lia. eauto. Qed.

Lemma read_range_bytes src offset n bs : bytes_ok src -> read_range src offset n = Some bs -> bytes_ok bs.
Proof. unfold read_range. intros Hs. case_match; [|done]. intros [= <-]. by apply Forall_take, Forall_drop. Qed.

Lemma load_le_range n bs : bytes_ok bs -> 0 <= load_le n bs < 2 ^ (8 * Z.of_nat n).
Proof.
  intros Hb. unfold load_le. pose proof (le_value_range (take n bs) (Forall_take _ _ _ Hb)) as H. split; [lia|].
  eapply Z.lt_le_trans; [apply H|]. apply Z.pow_le_mono_r; [lia|]. unfold zlen. rewrite length_take. lia.
Qed.

(** A read of [read_manifest_body] that failed. *)
Definition failed_read (r : res (list Z)) : bool :=
  match r with
  | Err e => String.eqb e "failed to read manifest trailer" || String.eqb e "failed to read manifest protobuf length" ||
             String.eqb e "failed to read manifest protobuf"
  | Ok _ => false
  end.

Lemma message_read_inside src position what :
  bytes_ok src -> 0 <= position -> read_message_body src position what <> Err ("failed to read the manifest " +:+ what).
Proof.
  intros Hb Hp. unfold read_message_body. destruct (_ || _) eqn:E1; [intros [=]|]. bool_prop.
  destruct (read_range_inside src position 4) as [bs Hbs]; [lia|]. rewrite Hbs.
  destruct (Z.ltb_spec (zlen src - position - 4) (read_le32 bs)) as [|Hl]; [intros [=]|]. destruct (read_le32 bs =? 0); [done|].
  destruct (read_range_inside src (position + 4) (read_le32 bs)) as [body ->]; [lia | done].
Qed.

(** whatever the bytes of a manifest's file, every read its reader issues lies inside the file: the
    checks of the trailer's position and of the lengths leave no read to fail (and no sum of theirs
    wraps). *)
Theorem manifest_reads_inside src position what :
  bytes_ok src -> zlen src < 2 ^ 63 -> is_u64 position ->
  failed_read (read_manifest_body src) = false /\
  read_message_body src position what <> Err ("failed to read the manifest " +:+ what).
Proof.
  intros Hb Hs Hp. split; [|apply message_read_inside; [done | apply Hp]].
  unfold read_manifest_body. destruct (Z.ltb_spec (zlen src) (8 + 16)) as [|Hsz]; [done|].
  destruct (read_range_inside src (zlen src - 16) 16) as [t Ht]; [lia|]. rewrite Ht. destruct (negb _); [done|].
  pose proof (load_le_range 8 t (read_range_bytes _ _ _ _ Hb Ht)) as Hpos. fold (read_le64 t) in Hpos.
  destruct (Z.ltb_spec (zlen src - 16) (read_le64 t)) as [|Hle]; [done|].
  destruct (read_range_inside src (read_le64 t) 4) as [l Hl]; [lia|]. rewrite Hl.
  pose proof (load_le_range 4 l (read_range_bytes _ _ _ _ Hb Hl)) as Hlen. fold (read_le32 l) in Hlen. cbn in Hpos, Hlen.
  rewrite !u64_small by (unfold is_u64; lia).
  destruct ((read_le32 l =? 0) || _) eqn:E; [done|]. bool_prop.
  destruct (read_range_inside src (read_le64 t + 4) (read_le32 l)) as [body ->]; [lia | done].
Qed.

Lemma manifest_reads_inside_witness :
  failed_read (read_manifest_body (replicate 12 0 ++ trailer 200)) = false /\
  read_message_body (replicate 12 0 ++ trailer 200) (2 ^ 64 - 1) "index section" <> Err ("failed to read the manifest " +:+ "index section").
Proof. apply manifest_reads_inside; [apply (bool_decide_unpack _); vm_compute; exact I | vm_compute; done | vm_compute; done]. Defined.

End ManifestFile.
