(* ===== verification/PutIfAbsent.v ===== *)
(** * PutIfAbsent: publishing a name without replacing it (src/io/byte_sink.cpp, [put_if_absent])

    The local branch of [put_if_absent] as a step relation: any number of writers, each writing a
    temporary file of its own, linking it to the final name, and, where the link fails, checking for the
    name and renaming. Every file system call is one step; the writers interleave freely. Where links fail only
    because the name exists, the interleaved system implements an atomic put-if-absent; where they can fail
    for another reason, the check and the rename are two steps, and a name can be replaced. *)

From S2P Require Import Prelude.

Module PutIfAbsent.

(** What a call reports: [true]; [false] with [already_exists]; [false] with [error]. *)
Inductive outcome := Published | AlreadyExists | Failed.

#[global] Instance outcome_eq_dec : EqDecision outcome.
Proof. solve_decision. Defined.

(** Where a call is: before the temporary file is written; after it; after a link that succeeded or
    failed; after [exists(final_path)]; returned. *)
Inductive pc := Start | Wrote | Linked | LinkFailed | SawIt | SawNothing | Done (o : outcome).

#[global] Instance pc_eq_dec : EqDecision pc.
Proof. solve_decision. Defined.

(** The directory, and the calls under way (by writer). *)
Record state := mkState { files : gmap string (list Z); calls : gmap nat pc }.

Section writers.
  (** The name, each writer's bytes and the temporary name it drew. *)
  Context (final : string) (bytes : nat -> list Z) (temp : nat -> string).
  (** Whether the link of a writer's call fails only when the name exists. It does not where the file system has
      no hard links, and not for a call whose link fails for another reason (a limit on links, a quota). *)
  Context (links : nat -> bool).

(** The call of writer [i] moves to [p] with the directory [fs]. *)
Definition move (i : nat) (p : pc) (fs : gmap string (list Z)) (s : state) : state := mkState fs (<[i := p]> (calls s)).

Inductive step : state -> state -> Prop :=
| step_write s i : (** the temporary file is written and closed *)
    calls s !! i = Some Start -> step s (move i Wrote (<[temp i := bytes i]> (files s)) s)
| step_write_failed s i : (** it cannot be: it is removed *)
    calls s !! i = Some Start -> step s (move i (Done Failed) (delete (temp i) (files s)) s)
| step_link s i content : (** [create_hard_link(temp_path, final_path, ec)] *)
    calls s !! i = Some Wrote -> links i = true -> files s !! final = None -> files s !! temp i = Some content ->
    step s (move i Linked (<[final := content]> (files s)) s)
| step_link_failed s i :
    calls s !! i = Some Wrote -> links i = false \/ is_Some (files s !! final) -> step s (move i LinkFailed (files s) s)
| step_linked s i : (** [remove(temp_path)]; published *)
    calls s !! i = Some Linked -> step s (move i (Done Published) (delete (temp i) (files s)) s)
| step_exists s i : (** [exists(final_path)] *)
    calls s !! i = Some LinkFailed -> is_Some (files s !! final) -> step s (move i SawIt (files s) s)
| step_not_exists s i :
    calls s !! i = Some LinkFailed -> files s !! final = None -> step s (move i SawNothing (files s) s)
| step_taken s i : (** [remove(temp_path)]; already there *)
    calls s !! i = Some SawIt -> step s (move i (Done AlreadyExists) (delete (temp i) (files s)) s)
| step_rename s i content : (** [rename(temp_path, final_path)] replaces what is there *)
    calls s !! i = Some SawNothing -> files s !! temp i = Some content ->
    step s (move i (Done Published) (delete (temp i) (<[final := content]> (files s))) s)
| step_rename_failed s i :
    calls s !! i = Some SawNothing -> step s (move i (Done Failed) (delete (temp i) (files s)) s).

(** Calls about to begin over a directory that holds none of their temporary files. *)
Definition initial (s : state) : Prop :=
  (forall i p, calls s !! i = Some p -> p = Start) /\ (forall i, files s !! temp i = None).

(** ** The specification: one atomic call *)

(** What is under the name, and what each call was decided to report. *)
Definition register : Type := option (list Z) * gmap nat outcome.

Inductive atomic : register -> register -> Prop :=
| atomic_publish d i : d !! i = None -> atomic (None, d) (Some (bytes i), <[i := Published]> d)
| atomic_exists b d i : d !! i = None -> atomic (Some b, d) (Some b, <[i := AlreadyExists]> d)
| atomic_failed r d i : d !! i = None -> atomic (r, d) (r, <[i := Failed]> d).

(** When a call's outcome is decided: with hard links, by the link. *)
Definition decided (p : pc) : option outcome :=
  match p with
  | Linked => Some Published
  | LinkFailed | SawIt => Some AlreadyExists
  | Done o => Some o
  | Start | Wrote | SawNothing => None
  end.

Definition abstract (s : state) : register := (files s !! final, omap decided (calls s)).

(** ** With hard links the calls are atomic *)

Hypothesis temp_fresh : forall i, temp i <> final.
Hypothesis temp_inj : forall i j, temp i = temp j -> i = j.

(** A temporary file holds its writer's bytes until its call returns; a failed link saw the name. *)
Record invariant (s : state) : Prop := {
  inv_temp : forall i, calls s !! i = Some Wrote -> files s !! temp i = Some (bytes i);
  inv_taken : forall i p, calls s !! i = Some p -> p = LinkFailed \/ p = SawIt -> is_Some (files s !! final);
  inv_never : forall i, calls s !! i <> Some SawNothing
}.

Lemma initial_invariant s : initial s -> invariant s.
Proof. intros [Hc _]. split; intros i; [|intros p|]; intros Hi; apply Hc in Hi; [done | intros [-> | ->] | done]; done. Qed.

Lemma decided_same s i p q : calls s !! i = Some q -> decided p = decided q -> omap decided (<[i := p]> (calls s)) = omap decided (calls s).
Proof.
  intros Hi E. apply map_eq. intros j. rewrite !lookup_omap. destruct (decide (i = j)) as [<-|Hne]; [|by rewrite lookup_insert_ne].
  rewrite lookup_insert_eq, Hi. done.
Qed.

Lemma decided_new s i p o : decided p = Some o -> omap decided (<[i := p]> (calls s)) = <[i := o]> (omap decided (calls s)).
Proof. apply omap_insert_Some. Qed.

Lemma undecided s i q : calls s !! i = Some q -> decided q = None -> omap decided (calls s) !! i = None.
Proof. intros Hi E. rewrite lookup_omap, Hi. done. Qed.

(** A call's move keeps the invariant when the files it relies on do not change. *)
Lemma move_invariant s i p fs :
  invariant s -> (p = Wrote -> fs !! temp i = Some (bytes i)) -> (p = LinkFailed \/ p = SawIt -> is_Some (fs !! final)) -> p <> SawNothing ->
  (forall j, j <> i -> fs !! temp j = files s !! temp j) -> (is_Some (files s !! final) -> is_Some (fs !! final)) ->
  invariant (move i p fs s).
Proof.
  intros [It Ik In] Hw Hk Hn Htemp Hfinal. split; cbn [files calls move].
  - intros j [[<- ->]|[Hne Hj]]%lookup_insert_Some; [by apply Hw|]. rewrite Htemp by done. by apply It.
  - intros j q [[<- <-]|[Hne Hj]]%lookup_insert_Some Hq; [by apply Hk|]. apply Hfinal. by eapply Ik.
  - intros j [[<- ->]|[Hne Hj]]%lookup_insert_Some; [done | by apply (In j)].
Qed.

Lemma step_simulates s s' :
  (forall i, links i = true) -> invariant s -> step s s' -> invariant s' /\ (abstract s' = abstract s \/ atomic (abstract s) (abstract s')).
Proof.
  intros Hl Hi Hstep. assert (forall i fs j, j <> i -> delete (temp i) fs !! temp j = (fs : gmap string (list Z)) !! temp j) as Hdel
    by (intros i fs j Hj; apply lookup_delete_ne; intros E; apply Hj; by apply temp_inj).
  destruct Hstep as [s i Hc|s i Hc|s i content Hc _ Hf Ht|s i Hc Hf|s i Hc|s i Hc Hf|s i Hc Hf|s i Hc|s i content Hc|s i Hc].
  - split; [apply move_invariant; try done|].
    + intros _. by rewrite lookup_insert_eq.
    + intros [|]; done.
    + intros j Hj. apply lookup_insert_ne. intros E. apply Hj. by apply temp_inj.
    + by rewrite lookup_insert_ne.
    + left. unfold abstract. cbn [files calls move]. rewrite lookup_insert_ne by done. by rewrite (decided_same s i Wrote Start).
  - split; [apply move_invariant; try done; [intros [|]; done | by apply Hdel | by rewrite lookup_delete_ne]|].
    right. unfold abstract. cbn [files calls move]. rewrite lookup_delete_ne, (decided_new s i _ Failed) by done. constructor. by eapply undecided.
  - assert (content = bytes i) as -> by (rewrite (inv_temp _ Hi i Hc) in Ht; congruence).
    split; [apply move_invariant; try done|].
    + intros [|]; done.
    + intros j Hj. apply lookup_insert_ne. intros E. by apply (temp_fresh j).
    + intros _. by rewrite lookup_insert_eq.
    + right. unfold abstract. cbn [files calls move]. rewrite lookup_insert_eq, (decided_new s i _ Published), Hf by done. constructor. by eapply undecided.
  - destruct Hf as [Hf|[b Hf]]; [by rewrite Hl in Hf|]. split; [apply move_invariant; try done; rewrite Hf; eauto|].
    right. unfold abstract. cbn [files calls move]. rewrite (decided_new s i _ AlreadyExists), Hf by done. constructor. by eapply undecided.
  - split; [apply move_invariant; try done; [intros [|]; done | by apply Hdel | by rewrite lookup_delete_ne]|].
    left. unfold abstract. cbn [files calls move]. rewrite lookup_delete_ne by done. by rewrite (decided_same s i _ Linked).
  - split; [by apply move_invariant|]. left. unfold abstract. cbn [files calls move]. by rewrite (decided_same s i _ LinkFailed).
  - exfalso. destruct (inv_taken _ Hi i LinkFailed Hc) as [b Hb]; [by left | congruence].
  - split; [apply move_invariant; try done; [intros [|]; done | by apply Hdel | by rewrite lookup_delete_ne]|].
    left. unfold abstract. cbn [files calls move]. rewrite lookup_delete_ne by done. by rewrite (decided_same s i _ SawIt).
  - by exfalso; apply (inv_never _ Hi i).
  - by exfalso; apply (inv_never _ Hi i).
Qed.

Lemma runs_simulate s s' :
  (forall i, links i = true) -> invariant s -> rtc step s s' -> invariant s' /\ rtc atomic (abstract s) (abstract s').
Proof.
  intros Hl Hi Hrun. induction Hrun as [s|s s1 s2 H1 Hrun IH]; [split; [done | apply rtc_refl]|].
  destruct (step_simulates s s1 Hl Hi H1) as [Hi1 [E|Ha]]; destruct (IH Hi1) as [Hi2 Hr]; split; try done.
  - by rewrite <- E.
  - by eapply rtc_l.
Qed.

(** What the atomic calls leave: the name keeps what it has, and at most one call publishes. *)
Definition one_publishes (r0 : option (list Z)) (r : register) : Prop :=
  match r0 with
  | Some b => r.1 = Some b /\ forall i, r.2 !! i <> Some Published
  | None => (r.1 = None /\ forall i, r.2 !! i <> Some Published) \/
            exists i, r.1 = Some (bytes i) /\ forall j, r.2 !! j = Some Published <-> j = i
  end.

Lemma atomic_one_publishes r0 r r' : one_publishes r0 r -> atomic r r' -> one_publishes r0 r'.
Proof.
  assert (forall (d : gmap nat outcome) i o, (forall j, d !! j <> Some Published) -> o <> Published -> forall j, <[i := o]> d !! j <> Some Published) as Hins.
  { intros d i o Hd Ho j [[_ E]|[_ Hj]]%lookup_insert_Some; [done | by apply (Hd j)]. }
  assert (forall (d : gmap nat outcome) i k o, (forall j, d !! j = Some Published <-> j = k) -> d !! i = None -> o <> Published ->
            forall j, <[i := o]> d !! j = Some Published <-> j = k) as Hins2.
  { intros d i k o Hd Hi Ho j. rewrite <- Hd. split.
    - intros [[_ E]|[_ Hj]]%lookup_insert_Some; [done | done].
    - intros Hj. rewrite lookup_insert_ne; [done | congruence]. }
  intros Hr Hs. destruct Hs as [d i Hi|b d i Hi|r d i Hi]; cbn [one_publishes fst snd] in *; destruct r0 as [b0|]; cbn [fst snd] in *.
  - by destruct Hr.
  - right. exists i. split; [done|]. destruct Hr as [[_ Hr]|(k & [=] & _)]. intros j. cbn [snd]. destruct (decide (i = j)) as [<-|Hne].
    + by rewrite lookup_insert_eq.
    + rewrite lookup_insert_ne by done. split; [by intros ?%Hr | congruence].
  - destruct Hr as [E Hr]. split; [exact E | by apply Hins].
  - destruct Hr as [[[=] _]|(k & E & Hr)]. right. exists k. split; [done | by apply Hins2].
  - destruct Hr as [E Hr]. split; [exact E | by apply Hins].
  - destruct Hr as [[E Hr]|(k & E & Hr)]; [left; split; [exact E | by apply Hins] | right; exists k; split; [done | by apply Hins2]].
Qed.

Lemma atomic_runs_one_publishes r0 r r' : one_publishes r0 r -> rtc atomic r r' -> one_publishes r0 r'.
Proof. intros Hr Hrun. induction Hrun as [r|r r1 r2 H1 Hrun IH]; [done|]. apply IH. by eapply atomic_one_publishes. Qed.

Lemma initial_abstract s : initial s -> abstract s = (files s !! final, ∅).
Proof.
  intros [Hc _]. unfold abstract. f_equal. apply map_eq. intros i. rewrite lookup_omap, lookup_empty. destruct (calls s !! i) as [p|] eqn:E; [|done].
  by apply Hc in E as ->.
Qed.

(** with hard links, every interleaving of any number of calls of [put_if_absent] for one name
    is a run of atomic ones: the calls take effect one at a time, each seeing what the ones before it
    published. *)
Theorem put_if_absent_atomic s s' :
  (forall i, links i = true) -> initial s -> rtc step s s' -> rtc atomic (files s !! final, ∅) (abstract s').
Proof.
  intros Hl Hs Hrun. rewrite <- initial_abstract by done. by apply runs_simulate; [|apply initial_invariant|].
Qed.

(** C3: (safety): with hard links (every call's link fails only when the name exists), whatever the interleaving, a name that existed keeps its bytes and no call
    reports having published it; otherwise at most one call does, and its bytes are the ones under the
    name: no writer loses a version it was told it committed. *)
Theorem put_if_absent_once s s' :
  (forall i, links i = true) -> initial s -> rtc step s s' ->
  (forall b, files s !! final = Some b -> files s' !! final = Some b /\ forall i, calls s' !! i <> Some (Done Published)) /\
  (forall i, calls s' !! i = Some (Done Published) ->
     files s' !! final = Some (bytes i) /\ forall j, calls s' !! j = Some (Done Published) -> j = i).
Proof.
  intros Hl Hs Hrun. destruct (runs_simulate s s' Hl (initial_invariant s Hs) Hrun) as [_ Ha]. rewrite initial_abstract in Ha by done.
  assert (forall i, calls s' !! i = Some (Done Published) -> (abstract s').2 !! i = Some Published) as Hd
    by (intros i Hi; unfold abstract; cbn [snd]; by rewrite lookup_omap, Hi).
  assert (one_publishes (files s !! final) (abstract s')) as Ho.
  { eapply atomic_runs_one_publishes; [|exact Ha]. destruct (files s !! final); [|left]; split; try done. }
  split.
  - intros b Hb. rewrite Hb in Ho. destruct Ho as [H1 H2]. split; [exact H1|]. intros i Hi. by apply (H2 i), Hd.
  - intros i Hi%Hd. destruct (files s !! final) as [b|]; [destruct Ho as [_ H2]; by exfalso; apply (H2 i)|].
    destruct Ho as [[_ H2]|(k & H1 & H2)]; [by exfalso; apply (H2 i)|]. apply H2 in Hi as ->. split; [exact H1|]. intros j Hj%Hd. by apply H2.
Qed.

End writers.

(** ** Two writers *)

Definition two_bytes (i : nat) : list Z := [Z.of_nat i].
Definition two_temp (i : nat) : string := match i with O => "7.manifest.0.tmp" | S O => "7.manifest.1.tmp" | _ => "x" +:+ pretty i end.
Definition two_start : state := mkState ∅ {[0%nat := Start; 1%nat := Start]}.

Lemma two_initial : initial two_temp two_start.
Proof.
  split; [|done]. intros i p. unfold two_start. cbn [calls]. intros [[<- <-]|[_ [<- <-]%lookup_singleton_Some]]%lookup_insert_Some; done.
Qed.

Lemma two_temp_fresh i : two_temp i <> "7.manifest".
Proof. destruct i as [|[|i]]; done. Qed.

Lemma two_temp_inj i j : two_temp i = two_temp j -> i = j.
Proof. destruct i as [|[|i]], j as [|[|j]]; try done. unfold two_temp. intros [= E]. change (pretty (S (S i)) = pretty (S (S j))) in E. by apply (inj pretty) in E. Qed.

(** A run of both calls: the links one after the other. *)
Definition two_linked : state :=
  let fs := delete (two_temp 0) (<["7.manifest" := two_bytes 0]> (<[two_temp 1 := two_bytes 1]> (<[two_temp 0 := two_bytes 0]> ∅))) in
  mkState fs {[0%nat := Done Published; 1%nat := LinkFailed]}.

Lemma two_run : rtc (step "7.manifest" two_bytes two_temp (fun _ => true)) two_start two_linked.
Proof.
  eapply rtc_l; [apply (step_write _ _ _ _ _ 0); reflexivity|].
  eapply rtc_l; [apply (step_write _ _ _ _ _ 1); reflexivity|].
  eapply rtc_l; [apply (step_link _ _ _ _ _ 0 [0]); vm_compute; reflexivity|].
  eapply rtc_l; [apply (step_link_failed _ _ _ _ _ 1); [reflexivity | right; vm_compute; by eexists]|].
  eapply rtc_l; [apply (step_linked _ _ _ _ _ 0); reflexivity|].
  apply rtc_refl.
Qed.

Lemma put_if_absent_atomic_witness :
  rtc (atomic two_bytes) (None, ∅) (Some [0], {[0%nat := Published; 1%nat := AlreadyExists]}).
Proof.
  exact (put_if_absent_atomic "7.manifest" two_bytes two_temp (fun _ => true) two_temp_fresh two_temp_inj two_start two_linked (fun _ => eq_refl) two_initial two_run).
Defined.

Lemma put_if_absent_once_witness :
  files two_linked !! "7.manifest" = Some (two_bytes 0) /\ forall j, calls two_linked !! j = Some (Done Published) -> j = 0%nat.
Proof.
  apply (put_if_absent_once "7.manifest" two_bytes two_temp (fun _ => true) two_temp_fresh two_temp_inj two_start two_linked (fun _ => eq_refl) two_initial two_run).
  reflexivity.
Defined.

(** ** Without hard links *)

(** Where links are not supported (or fail for another reason) the check and the rename are two steps: both writers see no file and
    both report the version as theirs; the second replaces the first's. *)
Theorem put_if_absent_without_links_replaces :
  exists s', rtc (step "7.manifest" two_bytes two_temp (fun _ => false)) two_start s' /\
    calls s' !! 0%nat = Some (Done Published) /\ calls s' !! 1%nat = Some (Done Published) /\
    files s' !! "7.manifest" = Some (two_bytes 1).
Proof.
  eexists. split.
  - eapply rtc_l; [apply (step_write _ _ _ _ _ 0); reflexivity|].
    eapply rtc_l; [apply (step_write _ _ _ _ _ 1); reflexivity|].
    eapply rtc_l; [apply (step_link_failed _ _ _ _ _ 0); [reflexivity | by left]|].
    eapply rtc_l; [apply (step_link_failed _ _ _ _ _ 1); [reflexivity | by left]|].
    eapply rtc_l; [apply (step_not_exists _ _ _ _ _ 0); reflexivity|].
    eapply rtc_l; [apply (step_not_exists _ _ _ _ _ 1); reflexivity|].
    eapply rtc_l; [apply (step_rename _ _ _ _ _ 0 [0]); vm_compute; reflexivity|].
    eapply rtc_l; [apply (step_rename _ _ _ _ _ 1 [1]); vm_compute; reflexivity|].
    apply rtc_refl.
  - split_and!; vm_compute; reflexivity.
Qed.

End PutIfAbsent.
