(* ===== verification/Publish.v ===== *)
(** * Publish: the versions of a dataset (src/table/manifest_reader.cpp, src/table/manifest_writer.cpp)

    A dataset's [_versions] and [_transactions] directories as a store; finding, loading and listing
    versions, renaming them to the second scheme, and [publish_manifest]: the transaction file first, then
    the manifest, put under its name if no one did. The I/O layer's failures are an argument ([Faults]); its
    put-if-absent is atomic, as PutIfAbsent shows of the local one. *)

From S2P Require Import Prelude ReadSafety Pb Operation TransactionChecks TransactionFile ManifestFile.

Module Publish.
Import ManifestFile.

(** ** The store *)

Record store := mkStore {
  versions : gmap string (list Z);  (* the files of _versions *)
  version_dirs : list string;       (* its subdirectories *)
  transactions : gmap string (list Z)
}.

Definition set_versions (v : gmap string (list Z)) (s : store) : store := mkStore v (version_dirs s) (transactions s).
Definition set_transactions (t : gmap string (list Z)) (s : store) : store := mkStore (versions s) (version_dirs s) t.

(** What the I/O layer may report while one operation runs. *)
Record Faults := mkFaults {
  list_error : option string;             (* listing _versions fails *)
  unreadable : string -> bool;            (* files that exist and cannot be opened *)
  write_error : option string;            (* writing the transaction file fails *)
  put_error : option (string * bool);     (* the put fails for another reason than the name being taken; whether an
                                             object store stored the object all the same, its reply lost *)
  lost_response : bool;                   (* an object store's reply to the put is lost, and the put repeated *)
  rename_error : string -> option string
}.

Definition no_faults : Faults := mkFaults None (fun _ => false) None None false (fun _ => None).

Record DirEntry := mkDirEntry { name : string; is_dir : bool }.

Definition list_dir (f : Faults) (s : store) : res (list DirEntry) :=
  match list_error f with
  | Some e => Err e
  | None => Ok (((fun n => mkDirEntry n false) <$> (map_to_list (versions s)).*1) ++ ((fun n => mkDirEntry n true) <$> version_dirs s))
  end.

(** [io::open_source] *)
Definition open_source (f : Faults) (s : store) (file : string) : option (list Z) :=
  if unreadable f file then None else versions s !! file.

Inductive put_result := PutOk | PutTaken | PutError (error : string).

(** [io::put_if_absent]. A local put that fails leaves nothing under the name. An object store's create-only PUT is repeated
    by its client when a reply is lost: the repeated one then finds the name taken, or, when the repetitions fail
    too, the call reports an error though the object is there. *)
Definition put_if_absent (f : Faults) (object_store : bool) (s : store) (file : string) (bytes : list Z) : put_result * store :=
  match put_error f, versions s !! file with
  | Some (e, _), Some _ => (PutError e, s)
  | Some (e, landed), None => (PutError e, if object_store && landed then set_versions (<[file := bytes]> (versions s)) s else s)
  | None, Some _ => (PutTaken, s)
  | None, None => (if object_store && lost_response f then PutTaken else PutOk, set_versions (<[file := bytes]> (versions s)) s)
  end.

(** ** Finding versions *)

(** The version an entry of the directory names. *)
Definition entry_version (entry : DirEntry) : option Z :=
  if is_dir entry then None else parse_manifest_version (name entry).

Definition highest_manifest_version (f : Faults) (s : store) : res Z :=
  entries ← list_dir f s;
  Ok (foldl Z.max 0 (omap entry_version entries)).

Definition list_manifest_versions (f : Faults) (s : store) : res (list Z) :=
  entries ← list_dir f s;
  Ok (sort_unique (omap entry_version entries)).

(** One entry of [next_version]'s loop: the largest version, and whether a V2 name was seen. *)
Definition next_version_step (st : Z * bool) (entry : DirEntry) : Z * bool :=
  match entry_version entry with
  | Some version => (Z.max st.1 version, st.2 || bool_decide (String.length (name entry) = 20 + 9)%nat)
  | None => st
  end.

Definition next_version (f : Faults) (s : store) : Z * bool :=
  match list_dir f s with
  | Err _ => (1, false)
  | Ok entries => let '(max_version, v2) := foldl next_version_step (0, false) entries in (u64 (max_version + 1), v2)
  end.

(** The names a version may have. *)
Definition candidates (v : Z) : list string :=
  if is_detached v then ["d" +:+ pretty v +:+ ".manifest"] else [pretty v +:+ ".manifest"; manifest_name_v2 v].

Fixpoint open_candidates (f : Faults) (s : store) (v : Z) (names : list string) : res (list Z) :=
  match names with
  | [] => Err ("version " +:+ pretty v +:+ " not found")
  | candidate :: rest =>
      match open_source f s candidate with
      | Some source => Ok source
      | None => if bool_decide (is_Some (versions s !! candidate)) then Err "failed to open manifest file" else open_candidates f s v rest
      end
  end.

Definition open_version_manifest (f : Faults) (s : store) (v : Z) : res (list Z) := open_candidates f s v (candidates v).

(** One entry of the migration: only V1 names move. *)
Definition migrate_entry (f : Faults) (s : store) (entry : DirEntry) : res store :=
  match entry_version entry with
  | Some version =>
      if bool_decide (String.length (name entry) - String.length ".manifest" = kManifestV2Digits)%nat then Ok s
      else match rename_error f (name entry), versions s !! name entry with
           | Some message, _ => Err ("failed to rename manifest " +:+ name entry +:+ ": " +:+ message)
           | None, Some content => Ok (set_versions (<[manifest_name_v2 version := content]> (delete (name entry) (versions s))) s)
           | None, None => Err ("failed to rename manifest " +:+ name entry +:+ ": No such file or directory")
           end
  | None => Ok s
  end.

(** An error stops the loop; the renames before it stay. *)
Fixpoint migrate_loop (f : Faults) (entries : list DirEntry) (s : store) : res unit * store :=
  match entries with
  | [] => (Ok tt, s)
  | entry :: rest => match migrate_entry f s entry with Ok s => migrate_loop f rest s | Err e => (Err e, s) end
  end.

Definition migrate_manifest_names_v2 (f : Faults) (s : store) : res unit * store :=
  match list_dir f s with Ok entries => migrate_loop f entries s | Err e => (Err e, s) end.

Section publishing.
  Context (encode_manifest : pb.Manifest -> list Z) (decode_manifest : list Z -> option pb.Manifest).
  Context (encode_index_section : list pb.IndexMetadata -> list Z) (decode_index_section : list Z -> res (list pb.IndexMetadata)).
  Context (encode_data_fragment : pb.DataFragment -> list Z) (encode_field : pb.Field -> list Z) (encode_index_message : pb.IndexMetadata -> list Z).
  Context (limits : ReadLimits).
  (** [run_auto_cleanup] of dataset_refs.cpp. *)
  Context (auto_cleanup : Z -> gmap string string -> store -> store).

(** ** Loading versions *)

Definition load_manifest_version (f : Faults) (s : store) (v : Z) : res pb.Manifest :=
  source ← open_version_manifest f s v;
  load_manifest_source decode_manifest decode_index_section limits source true.

Definition load_manifest_file_unchecked (f : Faults) (s : store) (file : string) : res pb.Manifest :=
  match open_source f s file with
  | None => Err "failed to open manifest file"
  | Some source => load_manifest_source decode_manifest decode_index_section limits source false
  end.

Definition load_latest_manifest (f : Faults) (s : store) : res (pb.Manifest * Z) :=
  v ← highest_manifest_version f s;
  if v =? 0 then Err "no manifest found under _versions"
  else
    m ← load_manifest_version f s v;
    Ok (m, v).

Definition read_inline_transaction (f : Faults) (s : store) (version : Z) (manifest : pb.Manifest) : res (list Z) :=
  match pb.mf_transaction_section manifest with
  | None => Err "manifest has no transaction section"
  | Some position =>
      source ← open_version_manifest f s version;
      read_message_body source position "transaction section"
  end.

(** ** Publishing *)

Definition published_transaction (f : Faults) (s : store) (file : string) : string :=
  match load_manifest_file_unchecked f s file with Ok published => pb.mf_transaction_file published | Err _ => "" end.

(** The text before the first ["://"]; [None]: there is none. *)
Definition uri_scheme (path : string) : option string :=
  match String.index 0 "://" path with Some n => Some (String.substring 0 n path) | None => None end.

(** What is refused before anything is written, and the manifest as it will be written. *)
Definition check_publish (dataset_path : string) (object_store : bool) (manifest : pb.Manifest) : res pb.Manifest :=
  match (if object_store then None else uri_scheme dataset_path) with
  | Some scheme => Err ("writes to " +:+ scheme +:+ ":// are not supported (nanolance writes local paths and s3:// URIs): " +:+ dataset_path)
  | None =>
      _ ← check_manifest_writable manifest Commit;
      if negb (String.eqb (pb.mf_index_section_error manifest) "") then
        Err ("the dataset's indices could not be read, and a commit would drop them: " +:+ pb.mf_index_section_error manifest)
      else check_data_file_versions manifest
  end.

(** [write_transaction_file] on the store; [uuid] is the one drawn. *)
Definition write_transaction (f : Faults) (dataset_path uuid : string) (written : pb.Manifest) (s : store) : res (string * store) :=
  op ← TransactionFile.transaction_operation encode_data_fragment encode_field encode_index_message (load_manifest_version f s) written;
  file_name ← TransactionFile.write_transaction_file encode_data_fragment encode_field encode_index_message (load_manifest_version f s)
                (fun _ _ => match write_error f with Some e => Err e | None => Ok tt end) dataset_path uuid written;
  let bytes := TransactionFile.transaction_bytes (TransactionFile.read_version_of written) uuid (pb.mf_transaction_properties written) op in
  Ok (file_name, set_transactions (<[file_name := bytes]> (transactions s)) s).

(** A new dataset gets V2 names, an existing one keeps its scheme. *)
Definition publish_name (f : Faults) (s : store) (version : Z) : string :=
  let '(next, existing_is_v2) := next_version f s in
  manifest_filename version ((next =? 1) || existing_is_v2).

Definition remove_transaction_file (file_name : string) (s : store) : store :=
  if String.eqb file_name "" then s else set_transactions (delete file_name (transactions s)) s.

Definition conflict_error (version : Z) : string :=
  "commit conflict: version " +:+ pretty version +:+ " was committed concurrently".

Definition publish_manifest (f : Faults) (dataset_path : string) (object_store : bool) (uuid : string) (manifest : pb.Manifest) (s : store)
    : res unit * store :=
  match check_publish dataset_path object_store manifest with
  | Err e => (Err e, s)
  | Ok written =>
      match write_transaction f dataset_path uuid written s with
      | Err e => (Err e, s)
      | Ok (transaction, s1) =>
          let written := pb.set_transaction_file transaction written in
          let file := publish_name f s1 (pb.mf_version manifest) in
          let bytes := manifest_file_bytes encode_manifest encode_index_section written in
          match put_if_absent f object_store s1 file bytes with
          | (PutError e, s2) => (Err e, remove_transaction_file transaction s2)
          | (PutTaken, s2) =>
              if object_store && String.eqb (published_transaction f s2 file) transaction then (Ok tt, s2)
              else (Err (conflict_error (pb.mf_version manifest)), remove_transaction_file transaction s2)
          | (PutOk, s2) =>
              (Ok tt, if is_detached (pb.mf_version manifest) then s2 else auto_cleanup (pb.mf_version manifest) (pb.mf_config manifest) s2)
          end
      end
  end.

End publishing.

(** ** The invariant of the directory *)

(** Every version file has the canonical name of an attached version from 1 on, in one scheme. *)
Definition scheme (v2 : bool) (s : store) : Prop :=
  forall file v, is_Some (versions s !! file) -> parse_manifest_version file = Some v -> 1 <= v < 2 ^ 63 /\ file = manifest_filename v v2.

Definition store_ok (s : store) : Prop := exists v2, scheme v2 s.

(** Whether the store holds the version. *)
Definition has_version (s : store) (v : Z) : Prop := exists file, is_Some (versions s !! file) /\ parse_manifest_version file = Some v.

Lemma entry_versions s v :
  v ∈ omap entry_version (((fun n => mkDirEntry n false) <$> (map_to_list (versions s)).*1) ++ ((fun n => mkDirEntry n true) <$> version_dirs s))
  <-> has_version s v.
Proof.
  rewrite list_elem_of_omap. unfold has_version. split.
  - intros (e & [He|He]%elem_of_app & Hv).
    + apply list_elem_of_fmap in He as (n & -> & Hn). apply list_elem_of_fmap in Hn as ([n' b] & -> & Hn). apply elem_of_map_to_list in Hn.
      exists n'. split; [by eexists | done].
    + by apply list_elem_of_fmap in He as (n & -> & _).
  - intros (file & [b Hb] & Hv). exists (mkDirEntry file false). split; [|done]. apply elem_of_app. left.
    apply (list_elem_of_fmap_2 (fun n => mkDirEntry n false)). apply (list_elem_of_fmap_2' fst _ (file, b)); [by apply elem_of_map_to_list | done].
Qed.

Lemma foldl_max_spec l a : a <= foldl Z.max a l /\ (forall v, v ∈ l -> v <= foldl Z.max a l) /\ (foldl Z.max a l = a \/ foldl Z.max a l ∈ l).
Proof.
  revert a. induction l as [|x l IH]; intros a; cbn [foldl]; [split_and!; [lia | by intros v ?%elem_of_nil | by left]|].
  destruct (IH (Z.max a x)) as (H1 & H2 & H3). split_and!; [lia | |].
  - intros v [->|Hv]%elem_of_cons; [lia | by apply H2].
  - destruct H3 as [->|H3]; [|right; set_solver]. destruct (Z.max_spec a x) as [[_ ->]|[_ ->]]; [right; set_solver | by left].
Qed.

(** The latest version: the largest the directory holds. *)
Definition is_latest (s : store) (v : Z) : Prop := (forall w, has_version s w -> w <= v) /\ (v = 0 \/ has_version s v).

Lemma highest_is_latest f s v : highest_manifest_version f s = Ok v -> is_latest s v /\ 0 <= v.
Proof.
  unfold highest_manifest_version, list_dir. destruct (list_error f); [done|]. unfold mbind, res_bind. intros [= <-].
  destruct (foldl_max_spec (omap entry_version (((fun n => mkDirEntry n false) <$> (map_to_list (versions s)).*1) ++ ((fun n => mkDirEntry n true) <$> version_dirs s))) 0)
    as (H1 & H2 & H3).
  split; [|done]. split; [intros w Hw; by apply H2, entry_versions|]. destruct H3 as [->|H3]; [by left | right; by apply entry_versions].
Qed.

Lemma next_version_loop entries st :
  foldl next_version_step st entries
  = (foldl Z.max st.1 (omap entry_version entries),
     st.2 || existsb (fun e => bool_decide (is_Some (entry_version e)) && bool_decide (String.length (name e) = 20 + 9)%nat) entries).
Proof.
  revert st. induction entries as [|e l IH]; intros [m v2]; cbn [foldl omap list_omap existsb]; [by rewrite orb_false_r|]. rewrite IH.
  unfold next_version_step. destruct (entry_version e) as [v|] eqn:E; cbn [fst snd foldl].
  - rewrite (bool_decide_eq_true_2 (is_Some (Some v))) by done. by rewrite orb_assoc.
  - rewrite (bool_decide_eq_false_2 (is_Some None)) by (by intros [? ?]). done.
Qed.

Lemma filename_length w v2 : 1 <= w < 2 ^ 63 -> String.length (manifest_filename w v2) = (20 + 9)%nat <-> v2 = true.
Proof.
  intros Hw. unfold manifest_filename. rewrite (proj2 (attached_range w ltac:(unfold is_u64; lia))) by lia. destruct v2; cbn [negb]; rewrite string_length_app.
  - destruct (padded_spec kManifestV2Digits (U64_MAX - w)) as (_ & _ & ->); [unfold U64_MAX, kManifestV2Digits; lia | unfold kManifestV2Digits; lia|]. done.
  - pose proof (pretty_length w 19 ltac:(lia) ltac:(lia)). change (String.length ".manifest") with 9%nat. split; [lia | done].
Qed.

Lemma filename_parse w v2 : 1 <= w < 2 ^ 63 -> parse_manifest_version (manifest_filename w v2) = Some w.
Proof.
  intros Hw. assert (is_u64 w) as Hu by (unfold is_u64; lia). rewrite manifest_name_parsed by done. by rewrite (proj2 (attached_range w Hu)) by lia.
Qed.

(** Without versions, V2 names; else the scheme the directory has. *)
Lemma publish_name_scheme f s v2 v :
  scheme v2 s -> list_error f = None -> exists v2', scheme v2' s /\ publish_name f s v = manifest_filename v v2'.
Proof.
  intros Hs Hf. unfold publish_name, next_version, list_dir. rewrite Hf, next_version_loop. cbn [fst snd orb].
  set (entries := _ ++ _). destruct (foldl_max_spec (omap entry_version entries) 0) as (H0 & Hmax & Hin).
  assert (forall w, w ∈ omap entry_version entries -> 1 <= w < 2 ^ 63) as Hrange.
  { intros w Hw. apply entry_versions in Hw as (file & Hfile & Hp). by apply (Hs file). }
  set (mx := foldl _ _ _) in *. destruct Hin as [E0|Hin].
  - exists true. split.
    + intros file w Hfile Hp. exfalso. assert (w ∈ omap entry_version entries) as Hw by (apply entry_versions; by exists file).
      specialize (Hmax w Hw). specialize (Hrange w Hw). lia.
    + rewrite E0. reflexivity.
  - exists v2. split; [done|]. specialize (Hrange mx Hin). rewrite u64_small by (unfold is_u64; lia).
    rewrite (proj2 (Z.eqb_neq (mx + 1) 1)) by lia. cbn [orb]. f_equal.
    apply entry_versions in Hin as (file & [b Hfile] & Hp). destruct (Hs file mx) as [_ Hname]; [by eexists | done|].
    destruct v2.
    + apply existsb_exists. exists (mkDirEntry file false). split.
      * apply list_elem_of_In. unfold entries. apply elem_of_app. left. apply (list_elem_of_fmap_2 (fun n => mkDirEntry n false)).
        apply (list_elem_of_fmap_2' fst _ (file, b)); [by apply elem_of_map_to_list | done].
      * unfold entry_version. cbn [is_dir name]. rewrite Hp, bool_decide_eq_true_2 by done. apply bool_decide_eq_true_2. rewrite Hname. apply filename_length; [by apply (Hs file); [eexists|]|done].
    + apply not_true_is_false. intros (e & He & Hb)%existsb_exists. apply andb_prop in Hb as [Hv Hl]. apply bool_decide_eq_true in Hv as [w Hw], Hl.
      assert (w ∈ omap entry_version entries) as Hwin by (apply list_elem_of_omap; exists e; split; [by apply list_elem_of_In | done]).
      unfold entry_version in Hw. destruct (is_dir e) eqn:Ed; [done|]. 
      assert (is_Some (versions s !! name e)) as Hse.
      { apply list_elem_of_In in He. unfold entries in He. apply elem_of_app in He as [He|He]; apply list_elem_of_fmap in He as (n & -> & Hn); [|done].
        apply list_elem_of_fmap in Hn as ([n' b'] & -> & Hn). apply elem_of_map_to_list in Hn. by eexists. }
      destruct (Hs (name e) w Hse Hw) as [Hwr Hwn]. rewrite Hwn in Hl. by apply filename_length in Hl.
Qed.

Lemma filename_schemes_differ v : 1 <= v < 2 ^ 63 -> manifest_filename v false <> manifest_filename v true.
Proof.
  intros Hv E. pose proof (proj1 (filename_length v false Hv)) as H. rewrite E in H. specialize (H (proj2 (filename_length v true Hv) eq_refl)). done.
Qed.

Lemma candidates_attached v : 1 <= v < 2 ^ 63 -> candidates v = [manifest_filename v false; manifest_filename v true].
Proof.
  intros Hv. unfold candidates, manifest_filename, manifest_name_v2. by rewrite (proj2 (attached_range v ltac:(unfold is_u64; lia))) by lia.
Qed.

(** In a directory of one scheme a version's file is the one under its name there. *)
Lemma open_at_scheme f s v2 v :
  scheme v2 s -> 1 <= v < 2 ^ 63 -> (forall file, unreadable f file = false) ->
  open_version_manifest f s v =
  match versions s !! manifest_filename v v2 with Some b => Ok b | None => Err ("version " +:+ pretty v +:+ " not found") end.
Proof.
  intros Hs Hv Hr. unfold open_version_manifest. rewrite candidates_attached by done. cbn [open_candidates]. unfold open_source. rewrite !Hr.
  assert (forall b, b <> v2 -> versions s !! manifest_filename v b = None) as Hno.
  { intros b Hb. destruct (versions s !! manifest_filename v b) as [c|] eqn:E; [|done]. exfalso.
    destruct (Hs (manifest_filename v b) v) as [_ Hn]; [by eexists | by apply filename_parse|].
    destruct b, v2; try done; [symmetry in Hn|]; by apply (filename_schemes_differ v Hv). }
  destruct v2.
  - rewrite (Hno false) by done. rewrite bool_decide_eq_false_2 by (by intros [? ?]).
    destruct (versions s !! manifest_filename v true); [done|]. by rewrite bool_decide_eq_false_2 by (by intros [? ?]).
  - destruct (versions s !! manifest_filename v false) eqn:E; [done|]. rewrite bool_decide_eq_false_2 by (by intros [? ?]).
    rewrite (Hno true) by done. by rewrite bool_decide_eq_false_2 by (by intros [? ?]).
Qed.

Lemma has_version_scheme s v2 v : scheme v2 s -> 1 <= v < 2 ^ 63 -> has_version s v <-> is_Some (versions s !! manifest_filename v v2).
Proof.
  intros Hs Hv. split.
  - intros (file & Hfile & Hp). destruct (Hs file v Hfile Hp) as [_ ->]. done.
  - intros H. exists (manifest_filename v v2). split; [done | by apply filename_parse].
Qed.

Lemma scheme_insert v2 s v bytes : scheme v2 s -> 1 <= v < 2 ^ 63 -> scheme v2 (set_versions (<[manifest_filename v v2 := bytes]> (versions s)) s).
Proof.
  intros Hs Hv file w [b Hb] Hp. change (<[manifest_filename v v2 := bytes]> (versions s) !! file = Some b) in Hb.
  apply lookup_insert_Some in Hb as [[<- _]|[_ Hb]]; [|apply Hs; [by eexists | done]].
  rewrite filename_parse in Hp by done. by injection Hp as <-.
Qed.

Lemma scheme_subset v2 s s' : versions s' ⊆ versions s -> scheme v2 s -> scheme v2 s'.
Proof. intros Hsub Hs file v [b Hb] Hp. apply Hs; [exists b; by eapply lookup_weaken | done]. Qed.

(** ** What a publish does *)

Section published.
  Context (encode_manifest : pb.Manifest -> list Z) (decode_manifest : list Z -> option pb.Manifest).
  Context (encode_index_section : list pb.IndexMetadata -> list Z) (decode_index_section : list Z -> res (list pb.IndexMetadata)).
  Context (encode_data_fragment : pb.DataFragment -> list Z) (encode_field : pb.Field -> list Z) (encode_index_message : pb.IndexMetadata -> list Z).
  Context (limits : ReadLimits).
  Context (auto_cleanup : Z -> gmap string string -> store -> store).

(** A cleanup after the commit of [v] removes files only, and none of a version from [v] on. *)
Definition cleanup_keeps : Prop :=
  forall v config s, versions (auto_cleanup v config s) ⊆ versions s /\
    forall file w, parse_manifest_version file = Some w -> v <= w -> versions (auto_cleanup v config s) !! file = versions s !! file.

Definition load_version := load_manifest_version decode_manifest decode_index_section limits.
Definition publish := publish_manifest encode_manifest decode_manifest encode_index_section decode_index_section
  encode_data_fragment encode_field encode_index_message limits auto_cleanup.
Definition write_txn := write_transaction decode_manifest decode_index_section encode_data_fragment encode_field encode_index_message limits.

(** A commit that names its transaction [txn] writes [written]. *)
Definition writes (f : Faults) (dataset_path : string) (object_store : bool) (uuid : string) (m : pb.Manifest) (s : store)
    (txn : string) (written : pb.Manifest) : Prop :=
  exists m' s1, check_publish dataset_path object_store m = Ok m' /\ write_txn f dataset_path uuid m' s = Ok (txn, s1) /\
    written = pb.set_transaction_file txn m'.

Lemma write_txn_versions f dataset_path uuid m s txn s1 : write_txn f dataset_path uuid m s = Ok (txn, s1) -> versions s1 = versions s /\ version_dirs s1 = version_dirs s.
Proof.
  unfold write_txn, write_transaction, mbind, res_bind. destruct (TransactionFile.transaction_operation _ _ _ _ _); [|done].
  destruct (TransactionFile.write_transaction_file _ _ _ _ _ _ _ _); [|done]. by intros [= <- <-].
Qed.

Lemma check_publish_version dataset_path object_store m m' : check_publish dataset_path object_store m = Ok m' -> pb.mf_version m' = pb.mf_version m.
Proof.
  unfold check_publish, mbind, res_bind. destruct (if object_store then None else _); [done|]. destruct (check_manifest_writable m Commit); [|done].
  destruct (negb _); [done|]. unfold check_data_file_versions. destruct (_ =? 0); [by intros [= ->]|]. destruct (seen_v1 _ && _); [done|].
  destruct (seen_other _); intros [= <-]; done.
Qed.

Lemma publish_name_versions f s s1 v : versions s1 = versions s -> version_dirs s1 = version_dirs s -> publish_name f s1 v = publish_name f s v.
Proof. intros H1 H2. unfold publish_name, next_version, list_dir. by rewrite H1, H2. Qed.

Lemma remove_transaction_versions txn s : versions (remove_transaction_file txn s) = versions s.
Proof. unfold remove_transaction_file. by destruct (String.eqb txn ""). Qed.

(** No manifest of the store names a transaction [txn]: what a fresh uuid gives. *)
Definition fresh (f : Faults) (s : store) (txn : string) : Prop :=
  forall file, published_transaction decode_manifest decode_index_section limits f s file <> txn.

(** What a caller of [publish_manifest] sees of the versions. *)
Lemma publish_cases f dataset_path object_store uuid m s r s' :
  publish f dataset_path object_store uuid m s = (r, s') ->
  (exists e, r = Err e /\ versions s' = versions s) \/
  exists txn written file,
    writes f dataset_path object_store uuid m s txn written /\ file = publish_name f s (pb.mf_version m) /\
    let bytes := manifest_file_bytes encode_manifest encode_index_section written in
    match versions s !! file with
    | Some _ => r = Ok tt /\ object_store = true /\ versions s' = versions s /\
                exists s2, versions s2 = versions s /\ published_transaction decode_manifest decode_index_section limits f s2 file = txn
    | None => exists s2, versions s2 = <[file := bytes]> (versions s) /\
        ((r = Ok tt /\ s' = (if is_detached (pb.mf_version m) then s2 else auto_cleanup (pb.mf_version m) (pb.mf_config m) s2)) \/
         (object_store = true /\ versions s' = versions s2 /\ exists e, put_error f = Some (e, true) /\ r = Err e) \/
         (object_store = true /\ lost_response f = true /\ versions s' = versions s2 /\
          r = if String.eqb (published_transaction decode_manifest decode_index_section limits f s2 file) txn then Ok tt
              else Err (conflict_error (pb.mf_version m))))
    end.
Proof.
  unfold publish, publish_manifest. destruct (check_publish dataset_path object_store m) as [m'|e] eqn:Ec; [|intros [= <- <-]; left; eauto].
  destruct (write_transaction _ _ _ _ _ _ _ _ _ _ _) as [[txn s1]|e] eqn:Et; [|intros [= <- <-]; left; eauto].
  destruct (write_txn_versions _ _ _ _ _ _ _ Et) as [Hv Hd]. rewrite (publish_name_versions f s s1) by done.
  set (file := publish_name f s (pb.mf_version m)). set (bytes := manifest_file_bytes _ _ _). intros Hp.
  unfold put_if_absent in Hp. rewrite Hv in Hp.
  assert (writes f dataset_path object_store uuid m s txn (pb.set_transaction_file txn m')) as Hw by (exists m', s1; done).
  destruct (versions s !! file) as [old|] eqn:Ef.
  - destruct (put_error f) as [[e landed]|]; [injection Hp as <- <-; left; exists e; by rewrite remove_transaction_versions|].
    destruct (object_store && String.eqb (published_transaction _ _ _ f s1 file) txn) eqn:E; injection Hp as <- <-.
    + right. exists txn, (pb.set_transaction_file txn m'), file. rewrite Ef. apply andb_prop in E as [Ho E]. apply String.eqb_eq in E. split_and!; try done. exists s1. done.
    + left. eexists. split; [done|]. by rewrite remove_transaction_versions.
  - destruct (put_error f) as [[e landed]|].
    { destruct (object_store && landed) eqn:El; injection Hp as <- <-; [right | left; exists e; by rewrite remove_transaction_versions].
      apply andb_prop in El as [-> ->]. exists txn, (pb.set_transaction_file txn m'), file. split; [exact Hw|]. split; [done|]. rewrite Ef. cbv zeta. fold bytes.
      exists (set_versions (<[file := bytes]> (versions s)) s1). split; [done|]. right. left. split_and!; [done | by rewrite remove_transaction_versions | by exists e]. }
    right. exists txn, (pb.set_transaction_file txn m'), file. split; [exact Hw|]. split; [done|]. rewrite Ef. cbv zeta. fold bytes. exists (set_versions (<[file := bytes]> (versions s)) s1).
    split; [done|]. destruct (object_store && lost_response f) eqn:E.
    + apply andb_prop in E as [-> El]. cbn [andb] in Hp. right. right. destruct (String.eqb _ txn); injection Hp as <- <-; split_and!; try done.
      by rewrite remove_transaction_versions.
    + left. by injection Hp as <- <-.
Qed.

Lemma published_transaction_versions f s s1 file :
  versions s1 = versions s ->
  published_transaction decode_manifest decode_index_section limits f s1 file = published_transaction decode_manifest decode_index_section limits f s file.
Proof. intros H. unfold published_transaction, load_manifest_file_unchecked, open_source. by rewrite H. Qed.

(** A commit whose I/O answers: the directory can be listed and its files opened, nanom's codec reads back
    the manifest it writes, and no other commit drew its uuid. [indices] are the ones read back. *)
Record publish_ready (f : Faults) (dataset_path : string) (object_store : bool) (uuid : string) (m : pb.Manifest) (s : store)
    (indices : list pb.IndexMetadata) : Prop := {
  ready_store : store_ok s;
  ready_version : 1 <= pb.mf_version m < 2 ^ 63;
  ready_list : list_error f = None;
  ready_open : forall file, unreadable f file = false;
  ready_written : forall txn written, writes f dataset_path object_store uuid m s txn written ->
    codec_on encode_manifest decode_manifest encode_index_section decode_index_section written indices /\
    check_manifest_readable written = Ok tt /\ check_element_counts limits (stored written indices) = Ok tt /\ fresh f s txn
}.

(** The version is new, holds [written], and nothing else appeared. *)
Definition adds_version (s : store) (v : Z) (written : pb.Manifest) (indices : list pb.IndexMetadata) (s' : store) : Prop :=
  ~ has_version s v /\ load_version no_faults s' v = Ok (stored written indices) /\
  exists file, parse_manifest_version file = Some v /\
    versions s' ⊆ <[file := manifest_file_bytes encode_manifest encode_index_section written]> (versions s).

Lemma adds_version_at v2 s v written indices s2 s' :
  scheme v2 s -> 1 <= v < 2 ^ 63 -> versions s !! manifest_filename v v2 = None ->
  codec_on encode_manifest decode_manifest encode_index_section decode_index_section written indices ->
  check_manifest_readable written = Ok tt -> check_element_counts limits (stored written indices) = Ok tt ->
  versions s2 = <[manifest_filename v v2 := manifest_file_bytes encode_manifest encode_index_section written]> (versions s) ->
  versions s' ⊆ versions s2 -> versions s' !! manifest_filename v v2 = versions s2 !! manifest_filename v v2 ->
  store_ok s' /\ adds_version s v written indices s'.
Proof.
  intros Hs Hv Hno Hc Hr He H2 Hsub Hkeep.
  assert (scheme v2 s') as Hs'.
  { eapply scheme_subset; [|by apply (scheme_insert v2 s v (manifest_file_bytes encode_manifest encode_index_section written))]. cbn [versions set_versions]. by rewrite <- H2. }
  split; [by exists v2|]. split_and!.
  - intros Hh. apply (has_version_scheme s v2) in Hh as [b Hb]; [congruence | done | done].
  - unfold load_version, load_manifest_version. rewrite (open_at_scheme no_faults s' v2 v) by done. rewrite Hkeep, H2, lookup_insert_eq. unfold mbind, res_bind.
    by apply load_manifest_file_bytes.
  - exists (manifest_filename v v2). split; [by apply filename_parse | by rewrite <- H2].
Qed.

(** A publish that reports the error [e] after all: the object store stored the manifest, and every reply about it was lost. *)
Definition landed (f : Faults) (object_store : bool) (e : string) : Prop := object_store = true /\ put_error f = Some (e, true).

Lemma publish_outcome f dataset_path object_store uuid m s indices r s' :
  cleanup_keeps -> publish_ready f dataset_path object_store uuid m s indices ->
  publish f dataset_path object_store uuid m s = (r, s') ->
  store_ok s' /\
  match r with
  | Ok _ => exists txn written, writes f dataset_path object_store uuid m s txn written /\ adds_version s (pb.mf_version m) written indices s'
  | Err e => versions s' = versions s \/
      (landed f object_store e /\
       exists txn written, writes f dataset_path object_store uuid m s txn written /\ adds_version s (pb.mf_version m) written indices s')
  end.
Proof.
  intros Hclean [[v2 Hs] Hv Hl Ho Hw] Hp. destruct (publish_name_scheme f s v2 (pb.mf_version m) Hs Hl) as (v2' & Hs' & Hname).
  apply publish_cases in Hp as [(e & -> & E)|(txn & written & file & Hwr & -> & H)].
  { split; [|by left]. exists v2. apply (scheme_subset v2 s); [by rewrite E | done]. }
  destruct (Hw txn written Hwr) as (Hc & Hr & He & Hfresh). rewrite Hname in H.
  destruct (versions s !! manifest_filename (pb.mf_version m) v2') as [old|] eqn:Ef; cbv zeta in H.
  { exfalso. destruct H as (_ & _ & _ & s2 & E2 & Et). apply (Hfresh (manifest_filename (pb.mf_version m) v2')).
    rewrite <- Et. symmetry. by apply published_transaction_versions. }
  destruct H as (s2 & E2 & H).
  assert (forall s'', versions s'' ⊆ versions s2 ->
            versions s'' !! manifest_filename (pb.mf_version m) v2' = versions s2 !! manifest_filename (pb.mf_version m) v2' ->
            store_ok s'' /\ adds_version s (pb.mf_version m) written indices s'') as Hadd by (intros s'' H1 H2; by apply (adds_version_at v2' s (pb.mf_version m) written indices s2)).
  destruct H as [[-> ->]|[(-> & E' & e & Hput & ->)|(_ & _ & E' & ->)]].
  - rewrite (proj2 (attached_range (pb.mf_version m) ltac:(unfold is_u64; lia))) by lia.
    destruct (Hclean (pb.mf_version m) (pb.mf_config m) s2) as [Hsub Hkeep].
    destruct (Hadd _ Hsub) as [H1 H2]; [apply (Hkeep _ (pb.mf_version m)); [by apply filename_parse | lia]|]. split; [done|]. by exists txn, written.
  - destruct (Hadd s') as [H1 H2]; [by rewrite E' | by rewrite E'|]. split; [done|]. right. split; [done|]. by exists txn, written.
  - assert (published_transaction decode_manifest decode_index_section limits f s2 (manifest_filename (pb.mf_version m) v2') = txn) as ->.
    { unfold published_transaction, load_manifest_file_unchecked, open_source. rewrite Ho, E2, lookup_insert_eq.
      rewrite (load_manifest_file_bytes encode_manifest decode_manifest encode_index_section decode_index_section limits written indices false) by done.
      destruct Hwr as (m' & s1 & _ & _ & ->). done. }
    rewrite String.eqb_refl. destruct (Hadd s') as [H1 H2]; [by rewrite E' | by rewrite E'|]. split; [done|]. by exists txn, written.
Qed.


End published.

(** ** Migration of the names *)

(** Attached versions under canonical names, each in one scheme or the other. *)
Record named (s : store) : Prop := {
  named_file : forall file v, is_Some (versions s !! file) -> parse_manifest_version file = Some v ->
    1 <= v < 2 ^ 63 /\ (file = manifest_filename v false \/ file = manifest_filename v true);
  named_once : forall v, 1 <= v < 2 ^ 63 -> versions s !! manifest_filename v false = None \/ versions s !! manifest_filename v true = None
}.

Lemma scheme_named v2 s : scheme v2 s -> named s.
Proof.
  intros Hs. split.
  - intros file v Hf Hp. destruct (Hs file v Hf Hp) as [Hv ->]. split; [done|]. destruct v2; [by right | by left].
  - intros v Hv. destruct (versions s !! manifest_filename v false) as [b|] eqn:E1; [|by left]. right.
    destruct (versions s !! manifest_filename v true) as [c|] eqn:E2; [|done]. exfalso.
    destruct (Hs (manifest_filename v false) v) as [_ H1]; [by eexists | by apply filename_parse|].
    destruct (Hs (manifest_filename v true) v) as [_ H2]; [by eexists | by apply filename_parse|].
    apply (filename_schemes_differ v Hv). congruence.
Qed.

(** The bytes of a version, under either name. *)
Definition content (s : store) (v : Z) : option (list Z) :=
  match versions s !! manifest_filename v false with Some b => Some b | None => versions s !! manifest_filename v true end.

Lemma open_content s v :
  1 <= v < 2 ^ 63 -> open_version_manifest no_faults s v = match content s v with Some b => Ok b | None => Err ("version " +:+ pretty v +:+ " not found") end.
Proof.
  intros Hv. unfold open_version_manifest, content. rewrite candidates_attached by done. cbn [open_candidates open_source no_faults unreadable].
  destruct (versions s !! manifest_filename v false); [done|]. rewrite bool_decide_eq_false_2 by (by intros [? ?]).
  destruct (versions s !! manifest_filename v true); [done|]. by rewrite bool_decide_eq_false_2 by (by intros [? ?]).
Qed.

Lemma filename_inj v w b c : 1 <= v < 2 ^ 63 -> 1 <= w < 2 ^ 63 -> manifest_filename v b = manifest_filename w c -> v = w.
Proof. intros Hv Hw E. apply (f_equal parse_manifest_version) in E. rewrite !filename_parse in E by done. congruence. Qed.

(** Moving a version to its V2 name. *)
Definition renamed (s : store) (v : Z) (bytes : list Z) : store :=
  set_versions (<[manifest_filename v true := bytes]> (delete (manifest_filename v false) (versions s))) s.

Lemma renamed_named s v bytes :
  named s -> 1 <= v < 2 ^ 63 -> versions s !! manifest_filename v false = Some bytes ->
  named (renamed s v bytes) /\ (forall w, 1 <= w < 2 ^ 63 -> content (renamed s v bytes) w = content s w) /\
  (forall file, file <> manifest_filename v false -> is_Some (versions s !! file) -> is_Some (versions (renamed s v bytes) !! file)).
Proof.
  intros [Hf Ho] Hv Hb. assert (forall w c, 1 <= w < 2 ^ 63 -> w <> v -> versions (renamed s v bytes) !! manifest_filename w c = versions s !! manifest_filename w c) as Hother.
  { intros w c Hw Hne. cbn [versions set_versions renamed]. rewrite lookup_insert_ne by (intros E; apply Hne; symmetry; by eapply filename_inj).
    apply lookup_delete_ne. intros E. apply Hne. symmetry. by eapply filename_inj. }
  assert (versions (renamed s v bytes) !! manifest_filename v false = None) as Hv1.
  { cbn [versions set_versions renamed]. rewrite lookup_insert_ne by (intros E; symmetry in E; by eapply filename_schemes_differ). by rewrite lookup_delete_eq. }
  assert (versions (renamed s v bytes) !! manifest_filename v true = Some bytes) as Hv2 by (cbn [versions set_versions renamed]; by rewrite lookup_insert_eq).
  split_and!.
  - split.
    + intros file w [b Hfb] Hp. change (<[manifest_filename v true := bytes]> (delete (manifest_filename v false) (versions s)) !! file = Some b) in Hfb.
      apply lookup_insert_Some in Hfb as [[<- _]|[_ Hfb]].
      * rewrite filename_parse in Hp by done. injection Hp as <-. split; [done | by right].
      * apply lookup_delete_Some in Hfb as [_ Hfb]. apply Hf; [by eexists | done].
    + intros w Hw. destruct (decide (w = v)) as [->|Hne]; [by left|]. rewrite !Hother by done. by apply Ho.
  - intros w Hw. unfold content. destruct (decide (w = v)) as [->|Hne]; [by rewrite Hv1, Hv2, Hb | by rewrite !Hother].
  - intros file Hne Hs. change (is_Some (<[manifest_filename v true := bytes]> (delete (manifest_filename v false) (versions s)) !! file)).
    destruct (decide (file = manifest_filename v true)) as [->|Hne2]; [rewrite lookup_insert_eq; by eexists|].
    rewrite lookup_insert_ne by done. by rewrite lookup_delete_ne.
Qed.

Lemma name_v2 v : 1 <= v < 2 ^ 63 -> manifest_name_v2 v = manifest_filename v true.
Proof. intros Hv. unfold manifest_filename. by rewrite (proj2 (attached_range v ltac:(unfold is_u64; lia))) by lia. Qed.

Lemma migrate_entry_spec f s e :
  named s -> match migrate_entry f s e with
             | Err _ => True
             | Ok s' => named s' /\ (forall w, 1 <= w < 2 ^ 63 -> content s' w = content s w) /\
                        (forall file, file <> name e -> is_Some (versions s !! file) -> is_Some (versions s' !! file))
             end.
Proof.
  intros Hs. unfold migrate_entry. destruct (entry_version e) as [v|] eqn:Ev; [|done]. case_bool_decide as Hl; [done|].
  destruct (rename_error f (name e)); [done|]. destruct (versions s !! name e) as [b|] eqn:Eb; [|done].
  assert (parse_manifest_version (name e) = Some v) as Hp by (unfold entry_version in Ev; by destruct (is_dir e)).
  destruct (named_file s Hs (name e) v) as [Hv [En|En]]; [by eexists | done | |].
  - rewrite name_v2 by done. rewrite En. rewrite En in Eb. by apply (renamed_named s v b).
  - exfalso. apply Hl. rewrite En. pose proof (proj2 (filename_length v true Hv) eq_refl) as HL. rewrite HL. done.
Qed.

Lemma migrate_loop_content f es s r s' :
  named s -> migrate_loop f es s = (r, s') -> named s' /\ (forall w, 1 <= w < 2 ^ 63 -> content s' w = content s w).
Proof.
  revert s. induction es as [|e es IH]; intros s Hs; cbn [migrate_loop]; [by intros [= <- <-]|].
  pose proof (migrate_entry_spec f s e Hs) as He. destruct (migrate_entry f s e) as [s1|]; [|by intros [= <- <-]].
  destruct He as (Hn & Hc & _). intros Hl. destruct (IH s1 Hn Hl) as [H1 H2]. split; [done|]. intros w Hw. by rewrite H2, Hc.
Qed.

(** A file's entry, where it is there and can be renamed: its V1 name is gone afterwards, and no V1 name
    is new. *)
Lemma migrate_file f s n :
  named s -> is_Some (versions s !! n) -> rename_error f n = None ->
  exists s1, migrate_entry f s (mkDirEntry n false) = Ok s1 /\
    forall v, 1 <= v < 2 ^ 63 -> is_Some (versions s1 !! manifest_filename v false) -> is_Some (versions s !! manifest_filename v false) /\ manifest_filename v false <> n.
Proof.
  intros Hs [b Hb] Hr. unfold migrate_entry. cbn [entry_version is_dir name]. destruct (parse_manifest_version n) as [v|] eqn:Ep.
  - destruct (named_file s Hs n v) as [Hv Hn]; [by eexists | done|]. case_bool_decide as Hl.
    + exists s. split; [done|]. intros w Hw Hf. split; [done|]. intros <-. assert (String.length (manifest_filename w false) = (20 + 9)%nat) as HL.
      { change (String.length ".manifest") with 9%nat in Hl. unfold kManifestV2Digits in Hl. lia. }
      by apply filename_length in HL.
    + rewrite Hr, Hb. eexists. split; [done|]. rewrite name_v2 by done. intros w Hw [c Hc].
      change (<[manifest_filename v true := b]> (delete n (versions s)) !! manifest_filename w false = Some c) in Hc.
      apply lookup_insert_Some in Hc as [[E _]|[_ Hc]].
      * exfalso. pose proof (filename_inj _ _ _ _ Hv Hw E) as ->. symmetry in E. by apply (filename_schemes_differ w Hw).
      * apply lookup_delete_Some in Hc as [Hne Hc]. split; [by eexists | done].
  - exists s. split; [done|]. intros w Hw Hf. split; [done|]. intros <-. by rewrite filename_parse in Ep.
Qed.

Lemma migrate_files f ns s :
  named s -> NoDup ns -> (forall n, n ∈ ns -> is_Some (versions s !! n)) -> (forall n, rename_error f n = None) ->
  exists s', migrate_loop f ((fun n => mkDirEntry n false) <$> ns) s = (Ok tt, s') /\
    forall v, 1 <= v < 2 ^ 63 -> is_Some (versions s' !! manifest_filename v false) -> is_Some (versions s !! manifest_filename v false) /\ manifest_filename v false ∉ ns.
Proof.
  intros Hs Hnd. revert s Hs. induction Hnd as [|n ns Hn Hnd IH]; intros s Hs Hin Hr.
  { exists s. split; [done|]. intros v Hv Hf. split; [done | by intros ?%elem_of_nil]. }
  rewrite fmap_cons. cbn [migrate_loop]. destruct (migrate_file f s n Hs) as (s1 & He & H1); [apply Hin; set_solver | done|]. rewrite He.
  pose proof (migrate_entry_spec f s (mkDirEntry n false) Hs) as Hsp. rewrite He in Hsp. destruct Hsp as (Hn1 & _ & Hk).
  destruct (IH s1 Hn1) as (s' & Hl & H2); [|done|].
  - intros k Hk'. apply Hk; [cbn; intros ->; done | apply Hin; set_solver].
  - exists s'. split; [done|]. intros v Hv Hf. destruct (H2 v Hv Hf) as [Hf1 Hnin]. destruct (H1 v Hv Hf1) as [Hf0 Hne]. split; [done|]. set_solver.
Qed.

Lemma migrate_loop_app f es1 es2 s s1 : migrate_loop f es1 s = (Ok tt, s1) -> migrate_loop f (es1 ++ es2) s = migrate_loop f es2 s1.
Proof.
  revert s. induction es1 as [|e es IH]; intros s; cbn [app migrate_loop]; [by intros [= <-]|]. destruct (migrate_entry f s e); [apply IH | done].
Qed.

Lemma migrate_dirs f ds s : migrate_loop f ((fun n => mkDirEntry n true) <$> ds) s = (Ok tt, s).
Proof. induction ds as [|d ds IH]; [done|]. rewrite fmap_cons. cbn [migrate_loop]. exact IH. Qed.

(** renaming the manifests to the second scheme, also when it stops halfway, leaves every
    version readable with the bytes it had; where nothing fails, every version then has its V2 name. *)
Theorem migrate_keeps_versions f s r s' :
  store_ok s -> migrate_manifest_names_v2 f s = (r, s') ->
  (forall v, 1 <= v < 2 ^ 63 -> open_version_manifest no_faults s' v = open_version_manifest no_faults s v) /\
  (list_error f = None -> (forall file, rename_error f file = None) -> r = Ok tt /\ scheme true s').
Proof.
  intros [v2 Hs] Hm. pose proof (scheme_named v2 s Hs) as Hn. unfold migrate_manifest_names_v2, list_dir in Hm.
  destruct (list_error f) as [e|] eqn:El; [injection Hm as <- <-; split; [done | done]|].
  destruct (migrate_loop_content f _ s r s' Hn Hm) as [Hn' Hc]. split; [intros v Hv; by rewrite !open_content, Hc by done|]. intros _ Hr.
  destruct (migrate_files f (map_to_list (versions s)).*1 s Hn) as (s1 & Hl & H1); [apply NoDup_fst_map_to_list | | done|].
  - intros n ([n' b] & -> & Hb)%list_elem_of_fmap. apply elem_of_map_to_list in Hb. by eexists.
  - rewrite (migrate_loop_app f _ _ _ _ Hl), migrate_dirs in Hm. injection Hm as <- <-. split; [done|]. intros file v Hf Hp.
    destruct (named_file s1 Hn' file v Hf Hp) as [Hv [->| ->]]; [|done]. exfalso. destruct (H1 v Hv Hf) as [[b Hb] Hnin]. apply Hnin.
    apply (list_elem_of_fmap_2' fst _ (manifest_filename v false, b)); [by apply elem_of_map_to_list | done].
Qed.

(** ** Concrete stores *)

(** A codec of the version and the transaction file alone. *)
Definition sample_encode (m : pb.Manifest) : list Z := le_bytes 8 (pb.mf_version m) ++ bytes_of_string (pb.mf_transaction_file m).
Definition sample_decode (bs : list Z) : option pb.Manifest :=
  Some (pb.set_transaction_file (string_of_bytes (drop 8 bs)) (pb.set_version (le_value (take 8 bs)) pb.Manifest0)).

(** Version 1 under its V1 name, and an append that makes version 2. *)
Definition sample_store : store := mkStore {["1.manifest" := [0]]} [] ∅.
Definition sample_next : pb.Manifest := pb.set_operation pb.Append (pb.set_version 2 pb.Manifest0).

Definition sample_publish (f : Faults) (s : store) : res unit * store :=
  publish sample_encode sample_decode (fun _ => []) (fun _ => Ok []) (fun _ => []) (fun _ => []) (fun _ => []) initial_read_limits (fun _ _ s => s)
    f "ds" false "u" sample_next s.

Lemma sample_scheme : scheme false sample_store.
Proof.
  intros file v [b Hb] Hp. unfold sample_store in Hb. cbn [versions] in Hb. apply lookup_singleton_Some in Hb as [<- _]. vm_compute in Hp. injection Hp as <-. split; [lia | reflexivity].
Qed.

Definition sample_writes := writes sample_decode (fun _ => Ok []) (fun _ => []) (fun _ => []) (fun _ => []) initial_read_limits no_faults "ds" false "u" sample_next sample_store.

Lemma sample_written txn written : sample_writes txn written -> txn = "1-u.txn" /\ written = pb.set_transaction_file "1-u.txn" sample_next.
Proof.
  intros (m' & s1 & Hc & Ht & ->). vm_compute in Hc. injection Hc as <-. vm_compute in Ht. injection Ht as <- _. split; reflexivity.
Qed.


Lemma migrate_keeps_versions_witness :
  exists s', migrate_manifest_names_v2 no_faults sample_store = (Ok tt, s') /\
    open_version_manifest no_faults s' 1 = Ok [0] /\ scheme true s'.
Proof.
  eexists. split; [vm_compute; reflexivity|].
  destruct (migrate_keeps_versions no_faults sample_store (Ok tt)
    (mkStore {["18446744073709551614.manifest" := [0]]} [] ∅)) as [H1 H2]; [exists false; exact sample_scheme | vm_compute; reflexivity|].
  split; [exact (H1 1 ltac:(lia)) | apply H2; reflexivity].
Defined.

(** ** A listing that fails *)

(** When the directory cannot be listed the commit goes on as if it were empty, and gives its version a V2
    name beside the V1 names that are there: the mix of the two that Lance refuses to open. *)
Theorem failed_listing_mixes_schemes :
  exists s', sample_publish (mkFaults (Some "timeout") (fun _ => false) None None false (fun _ => None)) sample_store = (Ok tt, s') /\
    dom (versions s') = {["1.manifest"; "18446744073709551613.manifest"]} /\ ~ store_ok s'.
Proof.
  eexists. split; [vm_compute; reflexivity|]. split; [apply (bool_decide_unpack _); vm_compute; exact I|]. intros [v2 Hs].
  destruct (Hs "1.manifest" 1) as [_ H1]; [apply (bool_decide_unpack _); vm_compute; exact I | reflexivity|].
  destruct (Hs "18446744073709551613.manifest" 2) as [_ H2]; [apply (bool_decide_unpack _); vm_compute; exact I | reflexivity|]. clear Hs.
  destruct v2; [clear H2; revert H1 | clear H1; revert H2]; apply (bool_decide_unpack (not _)); vm_compute; exact I.
Qed.

(** ** A put that lands and is not acknowledged *)

(** The manifest is stored, the replies about it are lost and so are those to the repeated puts: the commit reports an
    error and removes its transaction file, which the published version names. *)
Theorem landed_put_drops_transaction :
  exists s', publish sample_encode sample_decode (fun _ => []) (fun _ => Ok []) (fun _ => []) (fun _ => []) (fun _ => []) initial_read_limits (fun _ _ s => s)
      (mkFaults None (fun _ => false) None (Some ("timeout", true)) false (fun _ => None)) "s3://b/ds" true "u" sample_next sample_store = (Err "timeout", s') /\
    (m ← load_version sample_decode (fun _ => Ok []) initial_read_limits no_faults s' 2; Ok (pb.mf_transaction_file m)) = Ok "1-u.txn" /\
    transactions s' = ∅.
Proof. eexists. split; [vm_compute; reflexivity|]. split; vm_compute; reflexivity. Qed.

End Publish.
