(* ===== verification/MergeDeletions.v ===== *)
(** * MergeDeletions: a delete rebased over a concurrent delete (src/dataset/dataset.cpp)

    [merge_deletion_vectors] (Lance's finish_delete_update): where another commit changed the deletion file of
    a fragment this change deletes from, the rows of the two must not overlap; the change's deletion file
    becomes the union, and a fragment left without rows is removed. Reading a deletion file is
    [DeletionVector.read_manifest_deletion_vector]; writing one is a parameter. *)

From S2P Require Import Prelude Pb Operation TransactionChecks Transaction.

Module MergeDeletions.
Import Operation.

(** [AffectedRows]: the rows a change deletes, by fragment. *)
Definition AffectedRows : Type := gmap Z (list Z).

(** [std::set_union] and [std::set_intersection] of sorted ranges. *)
Fixpoint set_union (a : list Z) : list Z -> list Z :=
  fix go (b : list Z) : list Z :=
    match a, b with
    | [], _ => b
    | _, [] => a
    | x :: a', y :: b' => if x <? y then x :: set_union a' b else if y <? x then y :: go b' else x :: set_union a' b'
    end.

Fixpoint set_intersection (a : list Z) : list Z -> list Z :=
  fix go (b : list Z) : list Z :=
    match a, b with
    | [], _ => []
    | _, [] => []
    | x :: a', y :: b' => if x <? y then set_intersection a' b else if y <? x then go b' else x :: set_intersection a' b'
    end.

(** "commit conflict: ..." for a retryable verdict. *)
Definition retryable_error (version : Z) (ours theirs : string) : string :=
  "commit conflict: Retryable commit conflict for version " +:+ pretty version +:+ ": This " +:+ ours +:+
  " transaction was preempted by concurrent transaction " +:+ theirs +:+ " at version " +:+ pretty version +:+ ". Please retry.".

Definition same_deletion_file (a b : pb.DeletionFile) : bool :=
  Bool.eqb (pb.del_present a) (pb.del_present b) && (pb.del_file_type a =? pb.del_file_type b) &&
  (pb.del_read_version a =? pb.del_read_version b) && (pb.del_id a =? pb.del_id b) &&
  (pb.del_num_deleted_rows a =? pb.del_num_deleted_rows b) && bool_decide (pb.del_unknown a = pb.del_unknown b).

Definition fragment_with_id (id : Z) (fragments : list pb.DataFragment) : option pb.DataFragment :=
  snd <$> list_find (fun f => pb.fr_id f = id) fragments.

Section merging.
  (** [read_manifest_deletion_vector] of the latest version, and [write_deletion_file] at it. *)
  Context (read_deletions : Z -> pb.DeletionFile -> res (list Z)).
  Context (write_deletion_file : Z -> list Z -> res pb.DeletionFile).
  Context (base latest : pb.Manifest) (latest_version : Z) (affected : AffectedRows) (ours_name theirs_name : string).

Definition row_addresses (id : Z) (both : list Z) : string :=
  String.concat ", " ((fun row => pretty (Z.lor (u64 (Z.shiftl id 32)) row)) <$> take 5 both).

(** One fragment the change deletes from: the union of the deletions, empty where no one changed them. *)
Definition merge_fragment (id : Z) : res (list Z) :=
  match fragment_with_id id (pb.mf_fragments base), fragment_with_id id (pb.mf_fragments latest) with
  | Some was, Some now =>
      if same_deletion_file (pb.fr_deletion_file was) (pb.fr_deletion_file now) then Ok []
      else
        existing ← read_deletions id (pb.fr_deletion_file now);
        let ours_rows := sort_unique (default [] (affected !! id)) in
        let both := set_intersection existing ours_rows in
        if negb (bool_decide (both = [])) then
          Err ("commit conflict: This " +:+ ours_name +:+ " transaction was preempted by concurrent transaction " +:+ theirs_name +:+
               " at version " +:+ pretty latest_version +:+ " (both modified rows at addresses [" +:+ row_addresses id both +:+ "]). Please retry.")
        else Ok (set_union existing ours_rows)
  | _, _ => Err (retryable_error latest_version ours_name theirs_name)
  end.

(** The loop over the fragments removed: their rows must not overlap. *)
Definition check_removed (_ : unit) (id : Z) : res unit := _ ← merge_fragment id; Ok tt.

Definition set_deletion_file (f : pb.DataFragment) (d : pb.DeletionFile) : pb.DataFragment :=
  pb.mkDataFragment (pb.fr_id f) (pb.fr_files f) (pb.fr_physical_rows f) d (pb.fr_unknown f).

(** The loop over the updated fragments: those that stay, and the ids removed. *)
Definition merge_updated (s : list pb.DataFragment * list Z) (it : pb.DataFragment) : res (list pb.DataFragment * list Z) :=
  merged ← merge_fragment (pb.fr_id it);
  if bool_decide (merged = []) then Ok (s.1 ++ [it], s.2)
  else
    let physical_rows := match fragment_with_id (pb.fr_id it) (pb.mf_fragments latest) with Some now => pb.fr_physical_rows now | None => 0 end in
    if physical_rows <=? zlen merged then Ok (s.1, s.2 ++ [pb.fr_id it])
    else
      file ← write_deletion_file (pb.fr_id it) merged;
      Ok (s.1 ++ [set_deletion_file it file], s.2).

Definition merge_deletion_vectors (mine : Operation) : res Operation :=
  _ ← fold_res check_removed (removed_ids mine) tt;
  out ← fold_res merge_updated (updated_fragments mine) ([], removed_ids mine);
  Ok (set_removed_ids out.2 (set_updated_fragments out.1 mine)).

End merging.

(** ** Sorted lists as sets *)

Lemma set_union_spec a b :
  ascending a -> ascending b -> ascending (set_union a b) /\ forall x, x ∈ set_union a b <-> x ∈ a \/ x ∈ b.
Proof.
  revert b. induction a as [|x a IHa]; intros b Ha Hb; [split; [by destruct b | destruct b; cbn; set_solver]|].
  induction b as [|y b IHb]; [split; [done | cbn; set_solver]|].
  pose proof Ha as Ha'. pose proof Hb as Hb'. apply ascending_cons in Ha' as [Ha1 Ha2], Hb' as [Hb1 Hb2]. rewrite Forall_forall in Ha2, Hb2.
  change (set_union (x :: a) (y :: b)) with (if x <? y then x :: set_union a (y :: b) else if y <? x then y :: set_union (x :: a) b else x :: set_union a b).
  destruct (Z.ltb_spec x y) as [Hxy|Hxy]; [|destruct (Z.ltb_spec y x) as [Hyx|Hyx]].
  - destruct (IHa (y :: b) Ha1 Hb) as [H1 H2]. split; [|intros z; rewrite elem_of_cons, H2; set_solver].
    apply ascending_cons. split; [done|]. apply Forall_forall. intros z [Hz|[->|Hz]%elem_of_cons]%H2; [by apply Ha2 | lia | specialize (Hb2 z Hz); lia].
  - destruct (IHb Hb1) as [H1 H2]. split; [|intros z; rewrite elem_of_cons, H2; set_solver].
    apply ascending_cons. split; [done|]. apply Forall_forall. intros z [[->|Hz]%elem_of_cons|Hz]%H2; [lia | specialize (Ha2 z Hz); lia | by apply Hb2].
  - assert (x = y) as <- by lia. destruct (IHa b Ha1 Hb1) as [H1 H2]. split; [|intros z; rewrite elem_of_cons, H2; set_solver].
    apply ascending_cons. split; [done|]. apply Forall_forall. intros z [Hz|Hz]%H2; [by apply Ha2 | by apply Hb2].
Qed.

Lemma set_intersection_spec a b x : ascending a -> ascending b -> x ∈ set_intersection a b <-> x ∈ a /\ x ∈ b.
Proof.
  revert b. induction a as [|z a IHa]; intros b Ha Hb; [destruct b; cbn; set_solver|].
  induction b as [|y b IHb]; [cbn; set_solver|].
  pose proof Ha as Ha'. pose proof Hb as Hb'. apply ascending_cons in Ha' as [Ha1 Ha2], Hb' as [Hb1 Hb2]. rewrite Forall_forall in Ha2, Hb2.
  change (set_intersection (z :: a) (y :: b)) with
    (if z <? y then set_intersection a (y :: b) else if y <? z then set_intersection (z :: a) b else z :: set_intersection a b).
  assert (forall w, w ∈ a -> z < w) as Hza by (intros w Hw; by apply Ha2). assert (forall w, w ∈ b -> y < w) as Hyb by (intros w Hw; by apply Hb2).
  destruct (Z.ltb_spec z y) as [Hzy|Hzy]; [|destruct (Z.ltb_spec y z) as [Hyz|Hyz]].
  - rewrite IHa by done. rewrite !elem_of_cons. split; [tauto|]. intros [[->|Hx] [->|Hb0]]; [lia | specialize (Hyb z Hb0); lia | tauto | tauto].
  - rewrite IHb by done. rewrite !elem_of_cons. split; [tauto|]. intros [[->|Hx] [->|Hb0]]; [lia | tauto | specialize (Hza y Hx); lia | tauto].
  - assert (z = y) as <- by lia. rewrite elem_of_cons, IHa by done. rewrite !elem_of_cons. split; [tauto|].
    intros [[->|Hx] [Hy|Hb0]]; [tauto | tauto | left; done | tauto].
Qed.

(** ** The merge *)

Section spec.
  Context (read_deletions : Z -> pb.DeletionFile -> res (list Z)).
  Context (write_deletion_file : Z -> list Z -> res pb.DeletionFile).
  Context (base latest : pb.Manifest) (latest_version : Z) (affected : AffectedRows) (ours_name theirs_name : string).

#[local] Notation merge_one := (merge_fragment read_deletions base latest latest_version affected ours_name theirs_name).
#[local] Notation merge_all := (merge_deletion_vectors read_deletions write_deletion_file base latest latest_version affected ours_name theirs_name).

(** What [read_deletion_vector_sound] shows of the rows of a deletion file. *)
Hypothesis read_ascending : forall id d rows, read_deletions id d = Ok rows -> ascending rows.

(** The rows of fragment [id] deleted after both changes: [rows], as written in the latest version and by
    this change, which delete none twice. *)
Definition deleted_by_both (id : Z) (now : pb.DataFragment) (rows : list Z) : Prop :=
  exists existing, read_deletions id (pb.fr_deletion_file now) = Ok existing /\ ascending rows /\
    (forall row, row ∈ existing -> row ∈ default [] (affected !! id) -> False) /\
    (forall row, row ∈ rows <-> row ∈ existing \/ row ∈ default [] (affected !! id)).

Lemma merge_fragment_ok id rows :
  merge_one id = Ok rows ->
  exists was now, fragment_with_id id (pb.mf_fragments base) = Some was /\ fragment_with_id id (pb.mf_fragments latest) = Some now /\
    if same_deletion_file (pb.fr_deletion_file was) (pb.fr_deletion_file now) then rows = [] else deleted_by_both id now rows.
Proof.
  unfold merge_fragment. destruct (fragment_with_id id (pb.mf_fragments base)) as [was|]; [|done].
  destruct (fragment_with_id id (pb.mf_fragments latest)) as [now|]; [|done]. intros H. exists was, now. split; [done|]. split; [done|].
  destruct (same_deletion_file _ _); [by injection H as <-|]. unfold mbind, res_bind in H.
  destruct (read_deletions id (pb.fr_deletion_file now)) as [existing|] eqn:E; [|done]. destruct (negb _) eqn:Eb; [done|]. injection H as <-.
  apply negb_false_iff, bool_decide_eq_true in Eb. destruct (sort_unique_spec (default [] (affected !! id))) as [Ha Hin].
  pose proof (read_ascending _ _ _ E) as He. destruct (set_union_spec existing _ He Ha) as [Hu1 Hu2].
  exists existing. split_and!; [done | done | | intros row; rewrite Hu2, Hin; done].
  intros row H1 H2. apply (elem_of_nil row). rewrite <- Eb. apply set_intersection_spec; [done | done | by rewrite Hin].
Qed.

(** No row of fragment [id] is deleted by both changes. *)
Definition deleted_apart (id : Z) : Prop :=
  exists was now, fragment_with_id id (pb.mf_fragments base) = Some was /\ fragment_with_id id (pb.mf_fragments latest) = Some now /\
    if same_deletion_file (pb.fr_deletion_file was) (pb.fr_deletion_file now) then True else exists rows, deleted_by_both id now rows.

Lemma check_removed_ok u u' id : check_removed read_deletions base latest latest_version affected ours_name theirs_name u id = Ok u' -> deleted_apart id.
Proof.
  unfold check_removed, mbind, res_bind. destruct (merge_one id) as [rows|] eqn:Em; [|done]. intros _.
  destruct (merge_fragment_ok _ _ Em) as (was & now & Hw & Hn & Hr). exists was, now. split; [done|]. split; [done|].
  destruct (same_deletion_file _ _); [done | by exists rows].
Qed.

(** What becomes of an updated fragment: itself where the other commits left its deletions; else itself with
    a deletion file of the rows of both, or nothing when those are all of its rows. *)
Definition merged_into (it : pb.DataFragment) (r : option pb.DataFragment) : Prop :=
  let id := pb.fr_id it in
  exists was now, fragment_with_id id (pb.mf_fragments base) = Some was /\ fragment_with_id id (pb.mf_fragments latest) = Some now /\
    if same_deletion_file (pb.fr_deletion_file was) (pb.fr_deletion_file now) then r = Some it
    else exists rows, deleted_by_both id now rows /\
      if bool_decide (rows = []) then r = Some it
      else if pb.fr_physical_rows now <=? zlen rows then r = None
      else exists file, write_deletion_file id rows = Ok file /\ r = Some (set_deletion_file it file).

Lemma merge_updated_ok s it s' :
  merge_updated read_deletions write_deletion_file base latest latest_version affected ours_name theirs_name s it = Ok s' ->
  exists r, merged_into it r /\ s' = match r with Some f => (s.1 ++ [f], s.2) | None => (s.1, s.2 ++ [pb.fr_id it]) end.
Proof.
  unfold merge_updated. destruct (merge_one (pb.fr_id it)) as [rows|] eqn:E; [|done]. unfold mbind, res_bind.
  destruct (merge_fragment_ok _ _ E) as (was & now & Hw & Hn & Hr). rewrite Hn. intros H. unfold merged_into. cbv zeta. rewrite Hw, Hn.
  destruct (same_deletion_file (pb.fr_deletion_file was) (pb.fr_deletion_file now)) eqn:Es.
  - subst rows. rewrite bool_decide_eq_true_2 in H by done. exists (Some it). split; [exists was, now; by rewrite Es | by injection H as <-].
  - case_bool_decide as Hz; [exists (Some it); split; [|by injection H as <-] |].
    { exists was, now. rewrite Es. split; [done|]. split; [done|]. exists rows. split; [done|]. by rewrite bool_decide_eq_true_2. }
    destruct (pb.fr_physical_rows now <=? zlen rows) eqn:Ep.
    + exists None. split; [|by injection H as <-]. exists was, now. rewrite Es. split; [done|]. split; [done|]. exists rows. split; [done|].
      by rewrite bool_decide_eq_false_2, Ep by done.
    + destruct (write_deletion_file (pb.fr_id it) rows) as [file|] eqn:Ew; [|done]. exists (Some (set_deletion_file it file)). split; [|by injection H as <-].
      exists was, now. rewrite Es. split; [done|]. split; [done|]. exists rows. split; [done|]. rewrite bool_decide_eq_false_2, Ep by done. by exists file.
Qed.

Lemma merge_loop_ok its s out :
  fold_res (merge_updated read_deletions write_deletion_file base latest latest_version affected ours_name theirs_name) its s = Ok out ->
  exists rs, Forall2 merged_into its rs /\ out.1 = s.1 ++ omap id rs /\
    out.2 = s.2 ++ (pb.fr_id <$> (filter (fun p => p.2 = None) (zip its rs)).*1).
Proof.
  revert s. induction its as [|it its IH]; intros s; cbn [fold_res].
  { intros [= <-]. exists []. split; [constructor|]. cbn. by rewrite !app_nil_r. }
  destruct (merge_updated _ _ _ _ _ _ _ _ s it) as [s1|] eqn:E; [|done]. unfold mbind, res_bind. intros H.
  destruct (merge_updated_ok _ _ _ E) as (r & Hr & ->). destruct (IH _ H) as (rs & Hrs & H1 & H2). exists (r :: rs). split; [by constructor|].
  rewrite H1, H2. cbn [zip zip_with]. rewrite filter_cons. destruct r as [f|]; cbn [omap list_omap id fst snd].
  - rewrite decide_False by done. by rewrite <- app_assoc.
  - rewrite decide_True by done. cbn. by rewrite <- app_assoc.
Qed.

(** C18: (functional): a delete rebased over concurrent deletes deletes the rows of both and no row twice: each
    fragment it updates whose deletion file another commit changed gets a file of exactly the rows both
    deleted, which are disjoint, or is removed when those are all of its rows; a fragment no one else
    touched is kept as the change has it; and the fragments it removes had no row deleted by both. *)
Theorem merge_deletions_union mine out :
  merge_all mine = Ok out ->
  exists rs, Forall2 merged_into (updated_fragments mine) rs /\
    updated_fragments out = omap id rs /\
    removed_ids out = removed_ids mine ++ (pb.fr_id <$> (filter (fun p => p.2 = None) (zip (updated_fragments mine) rs)).*1) /\
    Forall deleted_apart (removed_ids mine).
Proof.
  unfold merge_deletion_vectors, mbind, res_bind. destruct (fold_res _ (removed_ids mine) tt) as [u|] eqn:Er; [|done].
  destruct (fold_res _ (updated_fragments mine) _) as [o|] eqn:E; [|done]. intros [= <-].
  destruct (merge_loop_ok _ _ _ E) as (rs & Hrs & H1 & H2). exists rs. split; [done|]. split; [exact H1|]. split; [exact H2|]. clear E Hrs H1 H2.
  revert u Er. induction (removed_ids mine) as [|id l IH]; intros [] Er; [constructor|]. cbn [fold_res] in Er. unfold mbind, res_bind in Er.
  destruct (check_removed _ _ _ _ _ _ _ tt id) as [u'|] eqn:Em; [|done]. constructor; [by eapply check_removed_ok | destruct u'; exact (IH tt Er)].
Qed.

End spec.

(** ** A concrete merge *)

(** Fragments 0 and 1 of ten and two rows: another commit deleted rows 2 and 5 of the first and row 0 of the
    second, this one rows 7 and 3 and row 1. *)
Definition sample_deletions (n : Z) : pb.DeletionFile := pb.mkDeletionFile true 0 1 n 2 [].
Definition sample_fragment (id rows : Z) (d : pb.DeletionFile) : pb.DataFragment := pb.mkDataFragment id [] rows d [].
Definition sample_manifest (d : pb.DeletionFile) : pb.Manifest := pb.set_fragments [sample_fragment 0 10 d; sample_fragment 1 2 d] pb.Manifest0.
Definition sample_read (id : Z) (_ : pb.DeletionFile) : res (list Z) := Ok (if id =? 0 then [2; 5] else [0]).
Definition sample_write (_ : Z) (rows : list Z) : res pb.DeletionFile := Ok (sample_deletions (zlen rows)).
Definition sample_mine : Operation :=
  set_updated_fragments [sample_fragment 0 10 (sample_deletions 9); sample_fragment 1 2 (sample_deletions 9)] (set_kind kDelete Operation0).

Definition sample_affected : AffectedRows := <[0 := [7; 3]]> (<[1 := [1]]> ∅).
Definition sample_merge : res Operation :=
  merge_deletion_vectors sample_read sample_write (sample_manifest pb.no_deletion_file) (sample_manifest (sample_deletions 0)) 4 sample_affected
    "Delete" "Delete" sample_mine.
Definition sample_out : Operation := set_removed_ids [1] (set_updated_fragments [sample_fragment 0 10 (sample_deletions 4)] sample_mine).

Lemma merge_deletions_union_witness :
  sample_merge = Ok sample_out /\
  exists rs, Forall2 (merged_into sample_read sample_write (sample_manifest pb.no_deletion_file) (sample_manifest (sample_deletions 0)) sample_affected)
               (updated_fragments sample_mine) rs /\ updated_fragments sample_out = omap id rs.
Proof.
  assert (sample_merge = Ok sample_out) as Hm by (vm_compute; reflexivity). split; [exact Hm|].
  destruct (merge_deletions_union sample_read sample_write (sample_manifest pb.no_deletion_file) (sample_manifest (sample_deletions 0)) 4
    sample_affected "Delete" "Delete" (fun id d rows => ltac:(unfold sample_read; intros [= <-]; destruct (id =? 0); repeat constructor)) sample_mine sample_out Hm)
    as (rs & Hrs & Hu & _). exists rs. split; [exact Hrs | exact Hu].
Defined.

End MergeDeletions.
