(* ===== verification/CommitLoop.v ===== *)
(** * CommitLoop: a commit among other writers (src/dataset/dataset.cpp, include/nanolance/commit_backoff.hpp)

    [commit_next_version]: a change made from one version is published as the next; where another writer took
    that version, the versions committed since are classified against the change, and the change is rebased
    onto the latest and published after it, for a bounded number of attempts. Other writers act between the
    steps of a commit: they are a function of the store, applied where the code reads or publishes anew. *)

From S2P Require Import Prelude ReadSafety Pb Operation CommitConflicts TransactionChecks Transaction TransactionFile ManifestFile Publish MergeDeletions.

Module CommitLoop.
Import Operation ManifestFile Publish MergeDeletions.

(** ** How often, and how long between (commit_backoff.hpp) *)

Definition is_space (c : Ascii.ascii) : bool := let n := Z.of_N (Ascii.N_of_ascii c) in (n =? 32) || ((9 <=? n) && (n <=? 13)).

Fixpoint skip_spaces (s : string) : string :=
  match s with String c rest => if is_space c then skip_spaces rest else s | "" => "" end.

(** [strtol(env, &end, 10)] where it reads the whole of a non-empty text: [None] where [*end] is not the end or
    nothing was read. *)
Definition strtol_all (s : string) : option Z :=
  let '(sign, digits) :=
    match skip_spaces s with
    | String c rest => if (Ascii.N_of_ascii c =? 45)%N then (-1, rest) else if (Ascii.N_of_ascii c =? 43)%N then (1, rest) else (1, String c rest)
    | "" => (1, "")
    end in
  if String.eqb digits "" || negb (all_digits digits) then None
  else Some (Z.max (- 2 ^ 63) (Z.min (2 ^ 63 - 1) (sign * digits_value 0 digits))).

(** [NANOLANCE_COMMIT_ATTEMPTS] is [env]. *)
Definition commit_attempts (env : option string) (object_store : bool) : Z :=
  let default_ := if object_store then 200 else 20 in
  match env with
  | Some text =>
      if String.eqb text "" then default_
      else match strtol_all text with Some n => if (1 <=? n) && (n <=? 100000) then n else default_ | None => default_ end
  | None => default_
  end.

(** The ceiling, in milliseconds, of the pause before attempt [attempt + 1], drawn from 1 up to it. *)
Definition back_off_ceiling (attempt : Z) (object_store : bool) : Z :=
  let step := Z.max 0 (Z.min attempt 30) in
  if object_store then Z.min 2000 (Z.shiftl 25 (Z.min step 7)) else Z.min 50 (Z.shiftl 1 (Z.min step 5)).

(** ** The state of a process *)

Record CommitConflictStats := mkStats { rebased : Z; retried : Z; refused : Z }.

Definition count_rebased (st : CommitConflictStats) : CommitConflictStats := mkStats (u64 (rebased st + 1)) (retried st) (refused st).
Definition count_commit_retry (st : CommitConflictStats) : CommitConflictStats := mkStats (rebased st) (u64 (retried st + 1)) (refused st).
Definition count_refused (st : CommitConflictStats) : CommitConflictStats := mkStats (rebased st) (retried st) (u64 (refused st + 1)).

(** nanom's codec of the messages. *)
Record Nanom := mkNanom {
  encode_manifest : pb.Manifest -> list Z;
  decode_manifest : list Z -> option pb.Manifest;
  encode_index_section : list pb.IndexMetadata -> list Z;
  decode_index_section : list Z -> res (list pb.IndexMetadata);
  encode_data_fragment : pb.DataFragment -> list Z;
  decode_data_fragment : list Z -> option pb.DataFragment;
  encode_field : pb.Field -> list Z;
  decode_field : list Z -> option pb.Field;
  decode_data_file : list Z -> option pb.DataFile;
  encode_index_message : pb.IndexMetadata -> list Z;
  decode_index_message : list Z -> option pb.IndexMetadata;
  make_index_metadata : list Z -> list Z -> string -> Z -> list Z -> string -> Z -> Z -> list (string * Z) -> list Z -> pb.IndexMetadata
}.

Definition is_conflict (error : string) : bool := String.prefix "commit conflict" error.

(** [classify_concurrent]'s outcome, with what it filled in. *)
Inductive Outcome := AllCompatible (mine : Operation) (theirs : list Operation) | Refused (error : string) | FailedToRead (error : string).

(** An operation's name in the messages. *)
Definition label (op : Operation) : string := if kind op =? kCloneField then "Clone" else operation_name (kind op).

Section committing.
  Context (N : Nanom) (limits : ReadLimits) (auto_cleanup : Z -> gmap string string -> store -> store).
  Context (dataset_path : string) (object_store : bool).
  (** [read_manifest_deletion_vector] and [write_deletion_file] of the dataset. *)
  Context (read_deletions : pb.Manifest -> Z -> pb.DeletionFile -> res (list Z)).
  Context (write_deletion_file : Z -> Z -> list Z -> res pb.DeletionFile).
  (** [nanolance_writer_version()]. *)
  Context (writer_version : string).

Definition load_version_of := load_manifest_version (decode_manifest N) (decode_index_section N) limits.
Definition load_latest_of := load_latest_manifest (decode_manifest N) (decode_index_section N) limits.
Definition publish_of := publish (encode_manifest N) (decode_manifest N) (encode_index_section N) (decode_index_section N)
  (encode_data_fragment N) (encode_field N) (encode_index_message N) limits auto_cleanup.
Definition decode_of := decode_operation (decode_data_fragment N) (decode_field N) (decode_data_file N) (decode_index_message N).
Definition derive_of := TransactionFile.derive_transaction_operation (encode_data_fragment N) (encode_field N) (encode_index_message N).
Definition rebase_of := Transaction.rebase_operation (encode_data_fragment N) (decode_data_file N) (make_index_metadata N) limits.

(** ** The operations others committed *)

Definition read_transaction_file (f : Faults) (s : store) (file : string) : option (list Z) :=
  if unreadable f file then None else transactions s !! file.

(** [Err reason] where there is none. *)
Definition version_transaction_bytes (f : Faults) (s : store) (version : Z) (manifest : pb.Manifest) : res (list Z) :=
  let named := negb (String.eqb (pb.mf_transaction_file manifest) "") in
  match (if named then read_transaction_file f s (pb.mf_transaction_file manifest) else None) with
  | Some bytes => Ok bytes
  | None =>
      match pb.mf_transaction_section manifest with
      | Some _ =>
          match read_inline_transaction f s version manifest with
          | Ok bytes => Ok bytes
          | Err _ => Err "an unreadable transaction section"
          end
      | None => Err (if named then "an unreadable transaction file" else "no transaction file")
      end
  end.

Definition concurrent_operation (f : Faults) (s : store) (version : Z) (manifest : pb.Manifest) : res Operation :=
  bytes ← version_transaction_bytes f s version manifest;
  match transaction_file_operation bytes with
  | Err _ => Err "an unreadable transaction file"
  | Ok (field, message) =>
      if field =? kCloneField then Ok (set_kind kCloneField Operation0)
      else match decode_of field message with Ok op => Ok op | Err _ => Err "an operation nanolance cannot read" end
  end.

(** ** The verdict on a change *)

Definition verdict (affected : option AffectedRows) (base : pb.Manifest) (mine theirs : Operation) : CommitConflicts.Verdict :=
  match affected with
  | Some _ => CommitConflicts.check_txn_with_affected_rows mine theirs base
  | None => CommitConflicts.check_txn mine theirs
  end.

Fixpoint classify_loop (f : Faults) (s : store) (base : pb.Manifest) (affected : option AffectedRows) (mine : Operation)
    (committed : list Z) (theirs_ops : list Operation) : Outcome :=
  match committed with
  | [] => AllCompatible mine theirs_ops
  | version :: rest =>
      match load_version_of f s version with
      | Err e => FailedToRead e
      | Ok manifest =>
          match concurrent_operation f s version manifest with
          | Err reason => Refused (retryable_error version (operation_name (kind mine)) ("an operation (" +:+ reason +:+ ")"))
          | Ok theirs =>
              match verdict affected base mine theirs with
              | CommitConflicts.Compatible => classify_loop f s base affected mine rest (theirs_ops ++ [theirs])
              | CommitConflicts.Retryable => Refused (retryable_error version (operation_name (kind mine)) (label theirs))
              | CommitConflicts.Incompatible =>
                  Refused ("Incompatible transaction: This " +:+ operation_name (kind mine) +:+ " transaction is incompatible with concurrent transaction " +:+
                           label theirs +:+ " at version " +:+ pretty version +:+ ".")
              end
          end
      end
  end.

Definition classify_concurrent (f : Faults) (s : store) (base ours : pb.Manifest) (read_version latest : Z) (affected : option AffectedRows) : Outcome :=
  match derive_of base ours with
  | None => FailedToRead TransactionChecks.does_not_return
  | Some (ours_field, ours_message) =>
      match decode_of ours_field ours_message with
      | Err _ => Refused (retryable_error (read_version + 1) (operation_name ours_field) "an operation")
      | Ok mine => classify_loop f s base affected mine (seqZ (read_version + 1) (latest - read_version)) []
      end
  end.

(** ** One attempt *)

(** The change keeps its own stamp and its own operation tag. *)
Definition restamp (manifest : pb.Manifest) (mine : Operation) (latest : pb.Manifest) (latest_version : Z) (m : pb.Manifest) : pb.Manifest :=
  let deletions := existsb (fun f => pb.del_present (pb.fr_deletion_file f)) (pb.mf_fragments m) in
  let m := if deletions then pb.set_writer_feature_flags (Z.lor (pb.mf_writer_feature_flags m) pb.kFlagDeletionFiles)
                               (pb.set_reader_feature_flags (Z.lor (pb.mf_reader_feature_flags m) pb.kFlagDeletionFiles) m) else m in
  pb.set_tag "" (pb.set_transaction_file ""
    (pb.set_first_new_fragment (if kind mine =? kAppend then zlen (pb.mf_fragments latest) else pb.mf_first_new_fragment manifest)
      (pb.set_reserved_fragments (pb.mf_reserved_fragments manifest) (pb.set_restored_version (pb.mf_restored_version manifest)
        (pb.set_operation (pb.mf_operation manifest) (pb.set_writer_version (pb.mf_writer_version manifest)
          (pb.set_writer_library (pb.mf_writer_library manifest) (pb.set_timestamp (pb.mf_timestamp manifest)
            (pb.set_version (latest_version + 1) m))))))))).

(** The concurrent change the merge reports: the last one. *)
Definition theirs_name (theirs : list Operation) : string := match last theirs with Some op => label op | None => "" end.

Definition merge_affected (base latest : pb.Manifest) (latest_version : Z) (affected : option AffectedRows) (mine : Operation) (theirs : list Operation)
    : res Operation :=
  match affected with
  | Some rows =>
      if (kind mine =? kDelete) || (kind mine =? kUpdate) then
        merge_deletion_vectors (read_deletions latest) (fun id => write_deletion_file id latest_version) base latest latest_version rows
          (operation_name (kind mine)) (theirs_name theirs) mine
      else Ok mine
  | None => Ok mine
  end.

(** What an attempt comes to before it publishes: a manifest, or an error (and whether it counts as refused). *)
Inductive attempt := Rebased (m : pb.Manifest) | Stop (error : string) (incompatible : bool).

Definition rebase_attempt (f : Faults) (s : store) (base manifest : pb.Manifest) (read_version : Z) (affected : option AffectedRows) : attempt :=
  match load_latest_of f s with
  | Err e => Stop e false
  | Ok (latest, latest_version) =>
      match check_manifest_writable latest Commit with
      | Err e => Stop e false
      | Ok _ =>
          match classify_concurrent f s base manifest read_version latest_version affected with
          | Refused e | FailedToRead e => Stop e (String.prefix "Incompatible transaction:" e)
          | AllCompatible mine theirs =>
              match merge_affected base latest latest_version affected mine theirs with
              | Err e => Stop e false
              | Ok mine =>
                  match rebase_of latest manifest mine theirs (latest_version + 1) with
                  | Err e => Stop e false
                  | Ok m => Rebased (restamp manifest mine latest latest_version m)
                  end
              end
          end
      end
  end.

(** ** The loop *)

(** What other writers do, what the I/O layer reports and the uuid drawn, by phase: phase 0 is the first
    publish, [2 i + 1] the reads of attempt [i] and [2 i + 2] its publish. *)
Context (env : nat -> store -> store) (faults : nat -> Faults) (uuid : nat -> string).

(** How the loop ends; the code returns the error in both of the last cases. *)
Inductive commit_end := Committed (version : Z) | Stopped (error : string) | OutOfAttempts (error : string).

Fixpoint commit_loop (attempts : nat) (i : nat) (base manifest : pb.Manifest) (read_version : Z) (affected : option AffectedRows) (error : string)
    (s : store) (st : CommitConflictStats) : commit_end * store * CommitConflictStats :=
  match attempts with
  | O => (OutOfAttempts error, s, st)
  | S attempts =>
      let s := env (2 * i + 1) s in
      match rebase_attempt (faults (2 * i + 1)) s base manifest read_version affected with
      | Stop e incompatible => (Stopped e, s, if incompatible then count_refused st else st)
      | Rebased m =>
          match publish_of (faults (2 * i + 2)) dataset_path object_store (uuid (2 * i + 2)) m (env (2 * i + 2) s) with
          | (Ok _, s) => (Committed (pb.mf_version m), s, count_rebased st)
          | (Err e, s) => if is_conflict e then commit_loop attempts (S i) base manifest read_version affected e s st else (Stopped e, s, st)
          end
      end
  end.

Definition dataset_latest_version (f : Faults) (s : store) : res Z :=
  out ← highest_manifest_version f s;
  if out =? 0 then Err ("Dataset at path " +:+ dataset_path +:+ " was not found") else Ok out.

(** Stamped now and by nanolance; [nanos] is the clock. *)
Definition stamp (nanos : Z) (m : pb.Manifest) : pb.Manifest :=
  pb.set_tag "" (pb.set_transaction_file "" (pb.set_writer_version writer_version (pb.set_writer_library "nanolance"
    (pb.set_timestamp (Some (Z.quot nanos 1000000000, Z.rem nanos 1000000000)) m)))).

(** The refusal names the base's writer word. *)
Definition check_writable (f : Faults) (s : store) (read_version : Z) (manifest : pb.Manifest) : res unit :=
  match check_manifest_writable manifest Commit with
  | Ok _ => Ok tt
  | Err own_error =>
      base ← load_version_of f s read_version;
      _ ← check_manifest_writable base Commit;
      Err own_error
  end.

Definition commit_next_version (attempts_env : option string) (nanos : Z) (manifest : pb.Manifest) (affected : option AffectedRows)
    (s : store) (st : CommitConflictStats) : commit_end * store * CommitConflictStats :=
  match (if pb.mf_version manifest =? 0 then dataset_latest_version (faults 0) s else Ok (pb.mf_version manifest)) with
  | Err e => (Stopped e, s, st)
  | Ok read_version =>
      match check_writable (faults 0) s read_version manifest with
      | Err e => (Stopped e, s, st)
      | Ok _ =>
          let manifest := stamp nanos (pb.set_version (read_version + 1) manifest) in
          match publish_of (faults 0) dataset_path object_store (uuid 0) manifest (env 0 s) with
          | (Ok _, s) => (Committed (read_version + 1), s, st)
          | (Err first_error, s) =>
              if negb (is_conflict first_error) then (Stopped first_error, s, st)
              else match load_version_of (faults 1) s read_version with
                   | Err _ => (Stopped first_error, s, st)
                   | Ok base =>
                       commit_loop (Z.to_nat (commit_attempts attempts_env object_store)) 0 base manifest read_version affected first_error s st
                   end
          end
      end
  end.

(** ** What a commit was checked against *)

(** Version [version] committed [theirs], which the change is compatible with. *)
Definition committed_compatible (f : Faults) (s : store) (base : pb.Manifest) (affected : option AffectedRows) (mine : Operation)
    (version : Z) (theirs : Operation) : Prop :=
  exists manifest, load_version_of f s version = Ok manifest /\ concurrent_operation f s version manifest = Ok theirs /\
    verdict affected base mine theirs = CommitConflicts.Compatible.

Lemma classify_loop_compatible f s base affected mine committed ops mine' theirs :
  classify_loop f s base affected mine committed ops = AllCompatible mine' theirs ->
  mine' = mine /\ exists new, theirs = ops ++ new /\ Forall2 (committed_compatible f s base affected mine) committed new.
Proof.
  revert ops. induction committed as [|version rest IH]; intros ops; cbn [classify_loop].
  { intros [= <- <-]. split; [done|]. exists []. split; [by rewrite app_nil_r | constructor]. }
  destruct (load_version_of f s version) as [manifest|] eqn:El; [|done]. destruct (concurrent_operation f s version manifest) as [op|] eqn:Ec; [|done].
  destruct (verdict affected base mine op) eqn:Ev; [|done|done]. intros H. destruct (IH _ H) as (-> & new & -> & Hf). split; [done|].
  exists (op :: new). split; [by rewrite <- app_assoc|]. constructor; [by exists manifest | done].
Qed.

(** The manifest an attempt publishes: the change, decoded from what it did to [base], rebased onto the latest
    version, after every version committed since it was read was found compatible with it. *)
Definition rebased_over (f : Faults) (s : store) (base manifest : pb.Manifest) (read_version : Z) (affected : option AffectedRows)
    (m : pb.Manifest) : Prop :=
  exists latest latest_version field message derived mine theirs next,
    load_latest_of f s = Ok (latest, latest_version) /\
    derive_of base manifest = Some (field, message) /\ decode_of field message = Ok derived /\
    Forall2 (committed_compatible f s base affected derived) (seqZ (read_version + 1) (latest_version - read_version)) theirs /\
    merge_affected base latest latest_version affected derived theirs = Ok mine /\
    rebase_of latest manifest mine theirs (latest_version + 1) = Ok next /\
    m = restamp manifest mine latest latest_version next /\ pb.mf_version m = latest_version + 1.

Lemma rebase_attempt_spec f s base manifest read_version affected m :
  rebase_attempt f s base manifest read_version affected = Rebased m -> rebased_over f s base manifest read_version affected m.
Proof.
  unfold rebase_attempt. destruct (load_latest_of f s) as [[latest lv]|] eqn:El; [|done]. destruct (check_manifest_writable latest Commit); [|done].
  destruct (classify_concurrent f s base manifest read_version lv affected) as [derived theirs| |] eqn:Ec; [|done|done].
  destruct (merge_affected base latest lv affected derived theirs) as [mine|] eqn:Em; [|done].
  destruct (rebase_of latest manifest mine theirs (lv + 1)) as [next|] eqn:Er; [|done]. intros [= <-].
  unfold classify_concurrent in Ec. destruct (derive_of base manifest) as [[field message]|] eqn:Ed; [|done].
  destruct (decode_of field message) as [op|] eqn:Eo; [|done]. apply classify_loop_compatible in Ec as (-> & new & -> & Hf).
  exists latest, lv, field, message, op, mine, new, next. split_and!; try done.
Qed.

Lemma commit_loop_committed attempts i base manifest read_version affected error s st v s' st' :
  commit_loop attempts i base manifest read_version affected error s st = (Committed v, s', st') ->
  exists k s1 m, (i <= k < i + attempts)%nat /\ rebased_over (faults (2 * k + 1)) s1 base manifest read_version affected m /\ pb.mf_version m = v /\
    publish_of (faults (2 * k + 2)) dataset_path object_store (uuid (2 * k + 2)) m (env (2 * k + 2) s1) = (Ok tt, s').
Proof.
  revert i error s st. induction attempts as [|n IH]; intros i error s st; cbn [commit_loop]; [done|].
  destruct (rebase_attempt _ _ base manifest read_version affected) as [m|e b] eqn:Ea; [|done].
  destruct (publish_of _ _ _ _ m _) as [[[]|e] s2] eqn:Ep.
  - intros [= <- <- <-]. exists i, (env (2 * i + 1) s), m. split; [lia|]. split; [by apply rebase_attempt_spec | done].
  - destruct (is_conflict e); [|done]. intros H. destruct (IH _ _ _ _ H) as (k & s1 & m' & Hk & Hrest). exists k, s1, m'. split; [lia | done].
Qed.

(** C1: (safety): no update is lost. A commit that succeeds published the version after the one it was read at, or
    else a version whose predecessor is the latest it read: then every version committed in between was loaded
    and its operation found compatible with the change, and what was published is the change rebased onto that
    latest version. *)
Theorem commit_loses_no_update attempts_env nanos manifest affected s st v s' st' :
  commit_next_version attempts_env nanos manifest affected s st = (Committed v, s', st') ->
  exists read_version, (pb.mf_version manifest = 0 \/ pb.mf_version manifest = read_version) /\
    let ours := stamp nanos (pb.set_version (read_version + 1) manifest) in
    (v = read_version + 1 /\ publish_of (faults 0) dataset_path object_store (uuid 0) ours (env 0 s) = (Ok tt, s')) \/
    exists k s0 s1 base m, (k < Z.to_nat (commit_attempts attempts_env object_store))%nat /\
      load_version_of (faults 1) s0 read_version = Ok base /\
      rebased_over (faults (2 * k + 1)) s1 base ours read_version affected m /\ pb.mf_version m = v /\
      publish_of (faults (2 * k + 2)) dataset_path object_store (uuid (2 * k + 2)) m (env (2 * k + 2) s1) = (Ok tt, s').
Proof.
  unfold commit_next_version. destruct (if pb.mf_version manifest =? 0 then _ else _) as [read_version|e] eqn:Ev; [|done].
  destruct (check_writable (faults 0) s read_version manifest); [|done]. cbv zeta. intros H. exists read_version.
  split; [destruct (Z.eqb_spec (pb.mf_version manifest) 0); [by left | right; congruence]|].
  destruct (publish_of (faults 0) _ _ _ _ _) as [[[]|e] s2] eqn:Ep; [by injection H as <- <- <-; left|]. right.
  destruct (negb (is_conflict e)); [done|]. destruct (load_version_of (faults 1) s2 read_version) as [base|] eqn:El; [|done].
  apply commit_loop_committed in H as (k & s1 & m & Hk & Hrest). exists k, s2, s1, base, m. split; [lia | done].
Qed.

(** ** Progress *)

(** The I/O layer answers. *)
Definition answers (f : Faults) : Prop := list_error f = None /\ write_error f = None /\ put_error f = None /\ lost_response f = false.

(** A directory whose version numbers leave room for more. *)
Definition store_room (s : store) : Prop := store_ok s /\ forall v, has_version s v -> v + 1 < 2 ^ 63.

Lemma check_publish_not_conflict m e : check_publish dataset_path object_store m = Err e -> is_conflict e = false.
Proof.
  unfold check_publish, mbind, res_bind. destruct (if object_store then None else _); [by intros [= <-]|].
  destruct (check_manifest_writable m Commit) as [u|e'] eqn:E.
  - destruct (negb _); [by intros [= <-]|]. unfold check_data_file_versions. destruct (_ =? 0); [done|]. destruct (seen_v1 _ && _); [by intros [= <-]|].
    by destruct (seen_other _).
  - intros [= <-]. unfold check_manifest_writable, check_paired_flags, mbind, res_bind in E. destruct (Bool.eqb _ _); [|by injection E as <-].
    destruct (unsupported _); [by injection E as <- | done].
Qed.

Lemma write_txn_not_conflict f u m s e :
  write_error f = None ->
  write_txn (decode_manifest N) (decode_index_section N) (encode_data_fragment N) (encode_field N) (encode_index_message N) limits f dataset_path u m s = Err e ->
  is_conflict e = false.
Proof.
  intros Hw. unfold write_txn, write_transaction, TransactionFile.write_transaction_file, mbind, res_bind. rewrite Hw.
  destruct (TransactionFile.transaction_operation _ _ _ _ m) as [op|e'] eqn:E; [done|]. intros [= <-].
  unfold TransactionFile.transaction_operation, TransactionFile.transaction_parent, mbind, res_bind in E.
  destruct ((0 <? TransactionFile.read_version_of m) && _).
  - destruct (load_manifest_version _ _ _ f s _) as [parent|le].
    + destruct (negb _); [done|]. destruct (TransactionFile.operation _ _ _ _ m); [done | by injection E as <-].
    + case_bool_decide; [by injection E as <-|]. destruct (negb _); [done|]. destruct (TransactionFile.operation _ _ _ _ m); [done | by injection E as <-].
  - destruct (negb _); [done|]. destruct (TransactionFile.operation _ _ _ _ m); [done | by injection E as <-].
Qed.

Lemma next_version_free f s lv :
  store_ok s -> list_error f = None -> is_latest s lv -> 1 <= lv + 1 < 2 ^ 63 -> versions s !! publish_name f s (lv + 1) = None.
Proof.
  intros [v2 Hs] Hl [Hmax _] Hv. destruct (publish_name_scheme f s v2 (lv + 1) Hs Hl) as (v2' & Hs' & ->).
  destruct (versions s !! manifest_filename (lv + 1) v2') as [b|] eqn:E; [|done]. exfalso.
  assert (has_version s (lv + 1)) as Hh by (exists (manifest_filename (lv + 1) v2'); split; [by eexists | by apply filename_parse]).
  specialize (Hmax _ Hh). lia.
Qed.

(** A version after the latest is not taken. *)
Lemma quiet_publish f u m s lv e s' :
  answers f -> store_ok s -> is_latest s lv -> 1 <= lv + 1 < 2 ^ 63 -> pb.mf_version m = lv + 1 ->
  publish_of f dataset_path object_store u m s = (Err e, s') -> is_conflict e = false.
Proof.
  intros (Hl & Hw & Hp & Hlost) Hs Hlat Hv Hm. unfold publish_of, publish, publish_manifest.
  destruct (check_publish dataset_path object_store m) as [m'|e'] eqn:Ec; [|intros [= <- <-]; by eapply check_publish_not_conflict].
  destruct (write_transaction _ _ _ _ _ _ f dataset_path u m' s) as [[txn s1]|e'] eqn:Et; [|intros [= <- <-]; by eapply write_txn_not_conflict].
  destruct (write_txn_versions _ _ _ _ _ _ _ _ _ _ _ _ _ Et) as [Hv1 Hd1]. rewrite (publish_name_versions f s s1) by done. unfold put_if_absent.
  rewrite Hp, Hv1, Hm, next_version_free, Hlost by done. rewrite andb_false_r. done.
Qed.

Lemma load_latest_is_latest f s latest lv : load_latest_of f s = Ok (latest, lv) -> is_latest s lv /\ 0 < lv.
Proof.
  unfold load_latest_of, load_latest_manifest, mbind, res_bind. destruct (highest_manifest_version f s) as [v|] eqn:E; [|done].
  destruct (highest_is_latest _ _ _ E) as [Hl H0]. destruct (Z.eqb_spec v 0); [done|]. destruct (load_manifest_version _ _ _ _ _ _); [|done].
  intros [= _ <-]. split; [done | lia].
Qed.

Lemma conflict_keeps_room f u m s e s' :
  answers f -> store_room s -> publish_of f dataset_path object_store u m s = (Err e, s') -> store_room s'.
Proof.
  intros (_ & _ & Hput & Hlost) [[v2 Hs] Hb] Hp. assert (versions s' = versions s) as E.
  { apply publish_cases in Hp as [(e' & _ & E)|(txn & written & file & _ & _ & H)]; [done|]. cbv zeta in H. destruct (versions s !! file).
    - by destruct H as ([=] & _). - destruct H as (s2 & _ & [[[=] _]|[(_ & _ & e' & He & _)|(_ & Hl & _)]]); congruence. }
  split; [exists v2; eapply scheme_subset; [by rewrite E | done]|]. intros v (file & Hf & Hv). rewrite E in Hf. apply Hb. by exists file.
Qed.

Lemma commit_loop_ends attempts i k base manifest read_version affected error s st :
  (forall n, answers (faults n)) -> (forall n s, store_room s -> store_room (env n s)) ->
  (i <= k < i + attempts)%nat -> (forall s, env (2 * k + 2) s = s) -> store_room s ->
  forall e, (commit_loop attempts i base manifest read_version affected error s st).1.1 <> OutOfAttempts e.
Proof.
  intros Ha Henv Hk Hq. revert i error s st Hk. induction attempts as [|n IH]; intros i error s st Hk Hs e; [lia|]. cbn [commit_loop].
  destruct (rebase_attempt _ _ base manifest read_version affected) as [m|e' b] eqn:Er; [|done].
  destruct (publish_of _ _ _ _ m _) as [[u|e'] s2] eqn:Ep; [done|]. destruct (is_conflict e') eqn:Ec; [|done].
  destruct (decide (i = k)) as [->|Hne].
  - exfalso. rewrite Hq in Ep. apply rebase_attempt_spec in Er as (latest & lv & _ & _ & _ & _ & _ & _ & Hl & _ & _ & _ & _ & _ & _ & Hv).
    destruct (load_latest_is_latest _ _ _ _ Hl) as [Hlat H0]. destruct (Henv (2 * k + 1)%nat s Hs) as [Hok Hroom].
    assert (lv + 1 < 2 ^ 63) as Hlv by (destruct Hlat as [_ [->|Hh]]; [lia | by apply Hroom]).
    rewrite (quiet_publish _ _ _ _ lv _ _ (Ha _) Hok Hlat ltac:(lia) Hv Ep) in Ec. done.
  - apply IH; [lia|]. eapply conflict_keeps_room; [apply Ha | | exact Ep]. by apply Henv, Henv.
Qed.


End committing.

(** ** The bounds of the retries *)

(** a commit is tried at least once and at most 100,000 times whatever the environment says, and the
    pause before a retry is at most 50 ms on a local path and 2 s on an object store, at least 1 ms, and
    never shrinks from one attempt to the next. *)
Theorem commit_retries_bounded env object_store attempt :
  1 <= commit_attempts env object_store <= 100000 /\
  1 <= back_off_ceiling attempt object_store <= (if object_store then 2000 else 50) /\
  back_off_ceiling attempt object_store <= back_off_ceiling (attempt + 1) object_store.
Proof.
  split; [|unfold back_off_ceiling].
  - unfold commit_attempts. destruct env as [text|]; [|by destruct object_store]. destruct (String.eqb text ""); [by destruct object_store|].
    destruct (strtol_all text) as [n|]; [|by destruct object_store]. destruct ((1 <=? n) && (n <=? 100000)) eqn:E; [|by destruct object_store]. bool_prop. lia.
  - assert (forall a b c, 0 < a -> 0 <= b <= c -> a <= Z.shiftl a b <= Z.shiftl a c) as Hm.
    { intros a b c Ha Hb. rewrite !Z.shiftl_mul_pow2 by lia. pose proof (Z.pow_le_mono_r 2 0 b ltac:(lia) ltac:(lia)) as H0. pose proof (Z.pow_le_mono_r 2 b c ltac:(lia) ltac:(lia)).
      cbn in H0. nia. }
    destruct object_store.
    + pose proof (Hm 25 (Z.min (Z.max 0 (Z.min attempt 30)) 7) (Z.min (Z.max 0 (Z.min (attempt + 1) 30)) 7) ltac:(lia) ltac:(lia)). lia.
    + pose proof (Hm 1 (Z.min (Z.max 0 (Z.min attempt 30)) 5) (Z.min (Z.max 0 (Z.min (attempt + 1) 30)) 5) ltac:(lia) ltac:(lia)). lia.
Qed.

(** ** A race *)

(** A codec of versions, transaction files and fragments of one file whose path is one character. *)
Definition sample_fragment (id c : Z) : pb.DataFragment := pb.mkDataFragment id [pb.mkDataFile (string_of_bytes [c]) [0] [0] 2 1 0 []] 10 pb.no_deletion_file [].
Definition encode_fragment (f : pb.DataFragment) : list Z :=
  match pb.fr_files f with file :: _ => [pb.fr_id f; default 0 (head (bytes_of_string (pb.df_path file)))] | [] => [] end.
Definition decode_fragment (bs : list Z) : option pb.DataFragment := match bs with [id; c] => Some (sample_fragment id c) | _ => None end.
Fixpoint decode_fragments (bs : list Z) : list pb.DataFragment :=
  match bs with id :: c :: rest => sample_fragment id c :: decode_fragments rest | _ => [] end.

Definition sample_nanom : Nanom := {|
  encode_manifest m := pb.mf_version m :: zlen (bytes_of_string (pb.mf_transaction_file m)) :: bytes_of_string (pb.mf_transaction_file m) ++
                       concat (encode_fragment <$> pb.mf_fragments m);
  decode_manifest bs := match bs with
                        | v :: n :: rest => Some (pb.set_fragments (decode_fragments (drop (Z.to_nat n) rest))
                            (pb.set_transaction_file (string_of_bytes (take (Z.to_nat n) rest)) (pb.set_version v pb.Manifest0)))
                        | _ => None
                        end;
  encode_index_section _ := []; decode_index_section _ := Ok [];
  encode_data_fragment := encode_fragment; decode_data_fragment := decode_fragment;
  encode_field _ := []; decode_field _ := None; decode_data_file _ := None;
  encode_index_message _ := []; decode_index_message _ := None;
  make_index_metadata := Transaction.sample_make
|}.

Definition sample_publish (m : pb.Manifest) (s : store) : store :=
  (publish_of sample_nanom initial_read_limits (fun _ _ s => s) no_faults "ds" false "t" m s).2.

(** Version 1 holds fragment 0; another writer appends a fragment while this one does. *)
Definition sample_manifest (v : Z) (fs : list pb.DataFragment) : pb.Manifest :=
  pb.set_first_new_fragment 1 (pb.set_operation pb.Append (pb.set_version v (pb.set_fragments fs pb.Manifest0))).
Definition store_1 : store := sample_publish (sample_manifest 1 [sample_fragment 0 97]) (mkStore ∅ [] ∅).
Definition store_2 : store := sample_publish (sample_manifest 2 [sample_fragment 0 97; sample_fragment 1 98]) store_1.
Definition sample_ours : pb.Manifest := sample_manifest 1 [sample_fragment 0 97; sample_fragment 1 120].

#[global] Instance store_eq_dec : EqDecision store.
Proof. solve_decision. Defined.

Definition sample_env (n : nat) (s : store) : store := if decide (n = 0%nat /\ s = store_1) then store_2 else s.

#[local] Notation sample_commit :=
  (commit_next_version sample_nanom initial_read_limits (fun _ _ s => s) "ds" false (fun _ _ _ => Ok []) (fun _ _ _ => Err "") "1"
    sample_env (fun _ => no_faults) (fun n => "u" +:+ pretty n) None 0 sample_ours None store_1 (mkStats 0 0 0)).

(** Both appends are in version 3. *)
Lemma sample_commit_both :
  sample_commit.1.1 = Committed 3 /\
  (m ← load_version_of sample_nanom initial_read_limits no_faults sample_commit.1.2 3; Ok (pb.mf_fragments m))
  = Ok [sample_fragment 0 97; sample_fragment 1 98; sample_fragment 2 120].
Proof. split; vm_compute; reflexivity. Qed.

Definition sample_after : store := Eval vm_compute in sample_commit.1.2.

Lemma sample_commit_result : sample_commit = (Committed 3, sample_after, mkStats 1 0 0).
Proof. vm_compute. reflexivity. Qed.

Lemma commit_loses_no_update_witness :
  sample_commit = (Committed 3, sample_after, mkStats 1 0 0) /\ exists read_version, pb.mf_version sample_ours = 0 \/ pb.mf_version sample_ours = read_version.
Proof.
  split; [exact sample_commit_result|].
  destruct (commit_loses_no_update sample_nanom initial_read_limits (fun _ _ s => s) "ds" false (fun _ _ _ => Ok []) (fun _ _ _ => Err "") "1"
    sample_env (fun _ => no_faults) (fun n => "u" +:+ pretty n) None 0 sample_ours None store_1 (mkStats 0 0 0) 3 sample_after (mkStats 1 0 0) sample_commit_result)
    as (read_version & Hr & _). exists read_version. exact Hr.
Defined.

(** A store of V2 names for a few versions. *)
Lemma sample_room (s : store) :
  forallb (fun file => bool_decide (file = manifest_filename 1 true) || bool_decide (file = manifest_filename 2 true)) (elements (dom (versions s))) = true ->
  store_room s.
Proof.
  intros Hf. rewrite forallb_forall in Hf.
  assert (forall file v, is_Some (versions s !! file) -> parse_manifest_version file = Some v -> 1 <= v <= 2 /\ file = manifest_filename v true) as Hall.
  { intros file v Hs Hp. specialize (Hf file). rewrite <- list_elem_of_In, elem_of_elements, elem_of_dom in Hf. specialize (Hf Hs).
    apply orb_prop in Hf as [E|E]; apply bool_decide_eq_true in E; subst file; rewrite filename_parse in Hp by lia; injection Hp as <-; split; (lia || done). }
  split; [exists true; intros file v Hs Hp; destruct (Hall file v Hs Hp) as [Hv ->]; split; [lia | done]|].
  intros v (file & Hs & Hp). destruct (Hall file v Hs Hp). lia.
Qed.


End CommitLoop.
