(* ===== verification/DatasetCommit.v ===== *)
(** * DatasetCommit: the commits of the writer and of hand-built transactions (src/table/manifest_writer.cpp,
      src/table/dataset_transaction.cpp)

    [commit_dataset_version]: a create, an append or an overwrite of new fragments, built on the latest version
    and retried on it when another writer commits first; [dataset_commit_hand_built]: an operation given as its
    message, applied to the version it names. Both end in [publish_manifest]. *)

From S2P Require Import Prelude ReadSafety Pb RowIds RowMeta BasePaths IndexMaintenance Operation TransactionChecks Transaction ManifestFile Publish CommitLoop.

Module DatasetCommit.
Import ManifestFile Publish CommitLoop.

(** ** The writer's schema (include/nanolance/schema_mapper.hpp) *)

Record LanceField := mkLanceField {
  lf_name : string;
  lf_logical_type : string;
  lf_arrow_format : string;
  lf_id : Z;
  lf_parent_id : Z;
  lf_column_index : Z;
  lf_nullable : bool;
  lf_extension_name : string;
  lf_metadata : gmap string string;
  lf_is_dictionary_index : bool;
  lf_dictionary_value_logical_type : string;
  lf_dictionary_index_format : string;
  lf_dictionary_ordered : bool;
  lf_unenforced_primary_key : bool;
  lf_unenforced_primary_key_position : Z;
  lf_unenforced_clustering_key_position : Z
}.

(** [LanceSchemaMapping]: its fields. *)
Definition LanceSchemaMapping : Type := list LanceField.

Definition lance_field_is_physical (field : LanceField) : bool := 0 <=? lf_column_index field.
Definition lance_physical_fields (mapping : LanceSchemaMapping) : list LanceField := filter (fun f => lance_field_is_physical f = true) mapping.

Definition lance_field_is_variable_width (logical_type : string) : bool :=
  existsb (String.eqb logical_type) ["utf8"; "large_utf8"; "string"; "large_string"; "binary"; "large_binary"; "json"].

Definition lance_on_disk_field_encoding (logical_type : string) : Z :=
  if String.eqb logical_type "null" || String.eqb logical_type "struct" then 0
  else if String.prefix "dict:" logical_type then 3
  else if lance_field_is_variable_width logical_type then 2 else 1.

Definition integer_formats : list (string * string) :=
  [("c", "int8"); ("C", "uint8"); ("s", "int16"); ("S", "uint16"); ("i", "int32"); ("I", "uint32"); ("l", "int64"); ("L", "uint64")].

Definition lance_integer_name_of_format (format : string) : string :=
  match list_find (fun p => p.1 = format) integer_formats with Some (_, p) => p.2 | None => "" end.

Definition lance_on_disk_logical_type (logical_type : string) : string :=
  if String.eqb logical_type "utf8" then "string" else if String.eqb logical_type "large_utf8" then "large_string" else logical_type.

Definition lance_field_disk_logical_type (field : LanceField) : string :=
  if negb (String.eqb (lf_dictionary_index_format field) "") then
    "dict:" +:+ lance_on_disk_logical_type (lf_logical_type field) +:+ ":" +:+ lance_integer_name_of_format (lf_dictionary_index_format field) +:+ ":" +:+
    (if lf_dictionary_ordered field then "true" else "false")
  else lance_on_disk_logical_type (lf_logical_type field).

(** ** The manifest's records of what was written *)

Definition manifest_field (f : LanceField) : pb.Field :=
  pb.mkField (lf_name f) (lance_field_disk_logical_type f) (lf_id f) (lf_parent_id f) 2 (lf_nullable f)
    (if String.eqb (lf_dictionary_index_format f) "" then lance_on_disk_field_encoding (lf_logical_type f) else 3)
    (bytes_of_string <$> delete "nanolance:packing" (delete "nanolance:const-value" (lf_metadata f)))
    (lf_unenforced_primary_key f) (lf_unenforced_primary_key_position f) (lf_unenforced_clustering_key_position f) [].

Record DataFileResult := mkDataFileResult { relative_path : string; file_size_bytes : Z }.

Record NewFragment := mkNewFragment { nf_data_file : DataFileResult; nf_rows : Z; nf_base_id : option Z }.

(** [relative_path.filename()]: what follows the last separator. *)
Fixpoint path_filename_after (s last : string) : string :=
  match s with
  | "" => last
  | String c rest => if (Ascii.N_of_ascii c =? 47)%N then path_filename_after rest rest else path_filename_after rest last
  end.
Definition path_filename (path : string) : string := path_filename_after path path.

Definition manifest_data_file (mapping : LanceSchemaMapping) (d : DataFileResult) : pb.DataFile :=
  pb.mkDataFile (path_filename (relative_path d)) (lf_id <$> lance_physical_fields mapping) (lf_column_index <$> lance_physical_fields mapping)
    2 2 (file_size_bytes d) [].

Definition make_data_fragment (mapping : LanceSchemaMapping) (fragment : NewFragment) (id : Z) : pb.DataFragment :=
  let file := manifest_data_file mapping (nf_data_file fragment) in
  pb.mkDataFragment id [match nf_base_id fragment with Some _ => BasePaths.set_data_file_base_id file (nf_base_id fragment) | None => file end]
    (nf_rows fragment) pb.no_deletion_file [].

Definition describe (f : pb.Field) : string :=
  "'" +:+ pb.fld_name f +:+ "' (id " +:+ pretty (pb.fld_id f) +:+ ", parent " +:+ pretty (pb.fld_parent_id f) +:+ ", " +:+
  pb.fld_logical_type f +:+ (if pb.fld_nullable f then ", nullable" else ", not nullable") +:+ ")".

(** The schema of a create-or-append that appends, against the dataset's. *)
Fixpoint same_schema_loop (ours : LanceSchemaMapping) (theirs : list pb.Field) : res unit :=
  match ours, theirs with
  | [], [] => Ok tt
  | [], t :: _ => Err ("schema mismatch: the dataset has field " +:+ describe t +:+ " that this writer lacks")
  | o :: _, [] => Err ("schema mismatch: this writer has field " +:+ describe (manifest_field o) +:+ " that the dataset lacks")
  | o :: ours, t :: theirs =>
      let o := manifest_field o in
      if negb (pb.fld_id o =? pb.fld_id t) || negb (pb.fld_parent_id o =? pb.fld_parent_id t) || negb (String.eqb (pb.fld_name o) (pb.fld_name t)) ||
         negb (String.eqb (pb.fld_logical_type o) (pb.fld_logical_type t)) || negb (Bool.eqb (pb.fld_nullable o) (pb.fld_nullable t)) then
        Err ("schema mismatch: field " +:+ describe o +:+ " where the dataset has " +:+ describe t)
      else same_schema_loop ours theirs
  end.

Definition same_schema (mapping : LanceSchemaMapping) (prior : pb.Manifest) : res unit := same_schema_loop mapping (pb.mf_fields prior).

(** ** The next version *)

Inductive CommitMode := Create | Append | Overwrite | CreateOrAppend.

#[global] Instance CommitMode_eq_dec : EqDecision CommitMode.
Proof. solve_decision. Defined.

Record CommitExtras := mkCommitExtras {
  ex_schema_metadata : option (gmap string (list Z));
  ex_table_metadata : gmap string string;
  ex_initial_config : gmap string string;
  ex_transaction_properties : gmap string string;
  ex_stable_row_ids : bool;
  ex_initial_bases : list BasePaths.BasePath
}.

Definition CommitExtras0 : CommitExtras := mkCommitExtras None ∅ ∅ ∅ false [].

Definition has_stable_row_ids (m : pb.Manifest) : bool := has_flag pb.kFlagStableRowIds (pb.mf_reader_feature_flags m).

(** The mode the attempt runs in, or why it cannot. *)
Definition commit_mode (dataset_path : string) (mode : CommitMode) (exists_ : bool) : res CommitMode :=
  let mode := match mode with CreateOrAppend => if exists_ then Append else Create | m => m end in
  match mode, exists_ with
  | Create, true => Err ("dataset already exists: " +:+ dataset_path)
  | Append, false => Err "append requested but no manifest version exists"
  | _, _ => Ok mode
  end.

(** The first id of the new fragments. *)
Definition first_new_id (mode : CommitMode) (prior : option pb.Manifest) : Z :=
  match prior with
  | Some prior =>
      match mode with
      | Append =>
          let next := foldl (fun next f => Z.max next (u64 (pb.fr_id f + 1))) (IndexMaintenance.first_fragment_id_after_indices (pb.mf_indices prior)) (pb.mf_fragments prior) in
          match pb.mf_max_fragment_id prior with Some mx => Z.max next (mx + 1) | None => next end
      | _ => match pb.mf_max_fragment_id prior with Some mx => mx + 1 | None => 0 end
      end
  | None => 0
  end.

(** A new fragment with its row ids and its rows' versions. *)
Definition stamp_new (version next_row_id : Z) (added : pb.DataFragment) : pb.DataFragment :=
  let rows := pb.fr_physical_rows added in
  let versions := if rows =? 0 then [] else RowVersions.encode (RowVersions.uniform rows version) in
  RowMeta.write_fragment_row_meta added
    (RowMeta.mkFragmentRowMeta true (RowIds.encode (RowIds.range next_row_id rows)) (negb (rows =? 0)) versions (negb (rows =? 0)) versions false).

Fixpoint add_fragments (mapping : LanceSchemaMapping) (stable : bool) (version : Z) (fragments : list NewFragment) (next_id next_row_id : Z)
    : res (list pb.DataFragment * Z) :=
  match fragments with
  | [] => Ok ([], next_row_id)
  | fragment :: rest =>
      if 2 ^ 32 - 1 <? next_id then Err "fragment id overflow"
      else
        let added := make_data_fragment mapping fragment next_id in
        let '(added, next_row_id) := if stable then (stamp_new version next_row_id added, u64 (next_row_id + nf_rows fragment)) else (added, next_row_id) in
        '(rest, next_row_id) ← add_fragments mapping stable version rest (next_id + 1) next_row_id;
        Ok (added :: rest, next_row_id)
  end.

(** What belongs to the table rather than to its data survives every commit. *)
Definition table_part (extras : CommitExtras) (version nanos : Z) (writer_version : string) (prior : option pb.Manifest) : pb.Manifest :=
  let m := pb.set_writer_version writer_version (pb.set_writer_library "nanolance"
             (pb.set_timestamp (Some (Z.quot nanos 1000000000, Z.rem nanos 1000000000))
               (pb.set_data_format (pb.mkDataStorageFormat "lance" "2.2") (pb.set_version version pb.Manifest0)))) in
  let m := match prior with
    | Some prior => pb.set_next_row_id (pb.mf_next_row_id prior) (pb.set_manifest_unknown
                      (pb.set_table_metadata (pb.mf_table_metadata prior) (pb.set_config (pb.mf_config prior) m)) (pb.mf_unknown prior))
    | None => m
    end in
  let m := pb.set_transaction_properties (ex_transaction_properties extras) (pb.set_table_metadata (ex_table_metadata extras ∪ pb.mf_table_metadata m) m) in
  match prior with
  | Some _ => m
  | None =>
      let m := if bool_decide (ex_initial_bases extras = []) then m else BasePaths.write_base_paths m (ex_initial_bases extras) in
      pb.set_config (ex_initial_config extras ∪ pb.mf_config m) m
  end.

(** The schema, the fragments kept and the operation, by mode. *)
Definition data_part (mapping : LanceSchemaMapping) (extras : CommitExtras) (create_or_append : bool) (mode : CommitMode) (prior : option pb.Manifest)
    (m : pb.Manifest) : pb.Manifest :=
  let m := match mode, prior with
    | Append, Some prior =>
        pb.set_index_section_error (pb.mf_index_section_error prior) (pb.set_indices (pb.mf_indices prior)
          (pb.set_first_new_fragment (zlen (pb.mf_fragments prior)) (pb.set_operation pb.Append (pb.set_fragments (pb.mf_fragments prior)
            (pb.set_writer_feature_flags (pb.mf_writer_feature_flags prior) (pb.set_reader_feature_flags (pb.mf_reader_feature_flags prior)
              (pb.set_data_format (pb.mf_data_format prior) (pb.set_schema_metadata (pb.mf_schema_metadata prior) (pb.set_fields (pb.mf_fields prior) m)))))))))
    | _, _ => pb.set_fields (manifest_field <$> mapping) m
    end in
  let m := match ex_schema_metadata extras with
    | Some metadata => if create_or_append && bool_decide (mode = Append) then m else pb.set_schema_metadata metadata m
    | None => m
    end in
  match mode with Overwrite | Create => pb.set_operation pb.Overwrite m | _ => m end.

(** The high-water mark and the flags of what the version holds. *)
Definition finish_new (prior : option pb.Manifest) (stable : bool) (next_row_id : Z) (m : pb.Manifest) : pb.Manifest :=
  let m := if stable then Transaction.put_flag true pb.kFlagStableRowIds (pb.set_next_row_id next_row_id m) else m in
  let max_id := foldl (fun mx f => Z.max mx (pb.fr_id f)) 0 (pb.mf_fragments m) in
  let high := match prior with
    | Some prior =>
        match pb.mf_max_fragment_id prior, pb.mf_fragments m with
        | Some mx, _ => Some (Z.max max_id mx)
        | None, [] => None
        | None, _ => Some max_id
        end
    | None => match pb.mf_fragments m with [] => None | _ => Some max_id end
    end in
  let m := match high with Some id => pb.set_max_fragment_id (Some (u32 id)) m | None => m end in
  if existsb (fun f => pb.del_present (pb.fr_deletion_file f)) (pb.mf_fragments m) then Transaction.put_flag true pb.kFlagDeletionFiles m else m.

Definition new_manifest (mapping : LanceSchemaMapping) (fragments : list NewFragment) (mode : CommitMode) (create_or_append : bool)
    (extras : CommitExtras) (version nanos : Z) (writer_version : string) (prior : option pb.Manifest) : res pb.Manifest :=
  let prior_stable := match prior with Some p => has_stable_row_ids p | None => false end in
  if ex_stable_row_ids extras && bool_decide (is_Some prior) && bool_decide (mode = Append) && negb prior_stable then
    Err "This dataset was not created with the stable row ids feature.  Please run `migrate_to_stable_row_ids` before attempting to use stable row ids"
  else
    let stable := prior_stable || (ex_stable_row_ids extras && negb (bool_decide (mode = Append))) in
    let m := data_part mapping extras create_or_append mode prior (table_part extras version nanos writer_version prior) in
    '(added, next_row_id) ← add_fragments mapping stable version fragments (first_new_id mode prior) (match prior with Some p => pb.mf_next_row_id p | None => 0 end);
    Ok (finish_new prior stable next_row_id (pb.set_fragments (pb.mf_fragments m ++ added) m)).

(** ** The commits *)

Section committing.
  Context (N : Nanom) (limits : ReadLimits) (auto_cleanup : Z -> gmap string string -> store -> store).
  Context (dataset_path : string) (object_store : bool) (writer_version : string).
  (** Other writers, the I/O layer and the uuids, by phase: attempt [i] reads in phase [2 i] and publishes in
      phase [2 i + 1]. *)
  Context (env : nat -> store -> store) (faults : nat -> Faults) (uuid : nat -> string).

(** What an attempt reads of the dataset, and the manifest it publishes. *)
Definition prepare_commit (f : Faults) (s : store) (mapping : LanceSchemaMapping) (fragments : list NewFragment) (mode : CommitMode)
    (nanos : Z) (extras : CommitExtras) : res pb.Manifest :=
  let '(version, _) := next_version f s in
  let exists_ := 1 <? version in
  let create_or_append := bool_decide (mode = CreateOrAppend) in
  mode ← commit_mode dataset_path mode exists_;
  prior ← (if exists_ then
             '(prior, _) ← load_latest_of N limits f s;
             _ ← check_manifest_writable prior Insert;
             _ ← (if create_or_append then same_schema mapping prior else Ok tt);
             Ok (Some prior)
           else Ok None);
  new_manifest mapping fragments mode create_or_append extras version nanos writer_version prior.

Definition commit_dataset_version_once (i : nat) (mapping : LanceSchemaMapping) (fragments : list NewFragment) (mode : CommitMode)
    (nanos : Z) (extras : CommitExtras) (s : store) : res Z * store :=
  let s := env (2 * i) s in
  match prepare_commit (faults (2 * i)) s mapping fragments mode nanos extras with
  | Err e => (Err e, s)
  | Ok m =>
      match publish_of N limits auto_cleanup (faults (2 * i + 1)) dataset_path object_store (uuid (2 * i + 1)) m (env (2 * i + 1) s) with
      | (Ok _, s) => (Ok (pb.mf_version m), s)
      | (Err e, s) => (Err e, s)
      end
  end.

(** [attempts] more attempts after attempt [i]. *)
Fixpoint commit_dataset_version_loop (attempts i : nat) (mapping : LanceSchemaMapping) (fragments : list NewFragment) (mode : CommitMode)
    (nanos : Z) (extras : CommitExtras) (s : store) : res Z * store :=
  match commit_dataset_version_once i mapping fragments mode nanos extras s, attempts with
  | (Ok v, s), _ => (Ok v, s)
  | (Err e, s), O => (Err e, s)
  | (Err e, s), S attempts =>
      if bool_decide (mode = Create) || negb (is_conflict e) then (Err e, s)
      else commit_dataset_version_loop attempts (S i) mapping fragments mode nanos extras s
  end.

Definition commit_dataset_version (attempts_env : option string) (mapping : LanceSchemaMapping) (fragments : list NewFragment) (mode : CommitMode)
    (nanos : Z) (extras : CommitExtras) (s : store) : res Z * store :=
  commit_dataset_version_loop (Z.to_nat (commit_attempts attempts_env object_store - 1)) 0 mapping fragments mode nanos extras s.

Definition write_dataset_manifest (attempts_env : option string) (mapping : LanceSchemaMapping) (data_file : DataFileResult) (rows : Z)
    (is_append : bool) (nanos : Z) (s : store) : res Z * store :=
  commit_dataset_version attempts_env mapping [mkNewFragment data_file rows None] (if is_append then Append else Overwrite) nanos CommitExtras0 s.

(** ** Hand-built transactions (dataset_transaction.cpp) *)

Record HandBuiltCommit := mkHandBuiltCommit {
  hb_operation_field : Z;
  hb_operation : list Z;
  hb_base_version : Z;
  hb_read_version : Z;
  hb_transaction_properties : gmap string string;
  hb_detached : bool;
  hb_enable_stable_row_ids : bool
}.

(** The version restored, with the base's high-water marks. *)
Definition restored (base next : pb.Manifest) : pb.Manifest :=
  let next := match pb.mf_max_fragment_id base with
    | Some mx => pb.set_max_fragment_id (Some (Z.max (default 0 (pb.mf_max_fragment_id next)) mx)) next
    | None => next
    end in
  pb.set_next_row_id (Z.max (pb.mf_next_row_id next) (pb.mf_next_row_id base)) next.

(** The manifest the operation makes of the base. *)
Definition hand_built_next (f : Faults) (s : store) (commit : HandBuiltCommit) (op : Operation.Operation) (base : option pb.Manifest) : res pb.Manifest :=
  if Operation.kind op =? Operation.kRestore then
    match base with
    | None => Err "Invalid user input: Cannot apply operation Restore to non-existent dataset"
    | Some base =>
        next ← load_version_of N limits f s (Operation.restore_version op);
        Ok (restored base next)
    end
  else Transaction.apply_operation (encode_data_fragment N) (decode_data_file N) (make_index_metadata N) limits base op
         (hb_enable_stable_row_ids commit) (u64 (hb_base_version commit + 1)).

(** [random] is the 64 bits drawn for a detached version. *)
Definition dataset_commit_hand_built (commit : HandBuiltCommit) (nanos random : Z) (s : store) : res Z * store :=
  let f := faults 0 in
  let s := env 0 s in
  match (op ← decode_of N (hb_operation_field commit) (hb_operation commit);
         base ← (if hb_base_version commit =? 0 then Ok None
                 else base ← load_version_of N limits f s (hb_base_version commit);
                      _ ← check_manifest_writable base Commit;
                      Ok (Some base));
         hand_built_next f s commit op base) with
  | Err e => (Err e, s)
  | Ok next =>
      let version := if hb_detached commit then Z.lor random (Z.shiftl 1 63) else u64 (hb_base_version commit + 1) in
      let next := pb.set_transaction_properties (hb_transaction_properties commit) (pb.set_explicit_read_version (hb_read_version commit)
        (pb.set_explicit_operation (hb_operation commit) (pb.set_explicit_operation_field (hb_operation_field commit)
          (pb.set_operation pb.Derive (stamp writer_version nanos (pb.set_version version next)))))) in
      match publish_of N limits auto_cleanup (faults 1) dataset_path object_store (uuid 1) next (env 1 s) with
      | (Ok _, s) => (Ok version, s)
      | (Err e, s) => (Err e, s)
      end
  end.

(** ** Reading a version *)

(** [load]: the version asked for, or the latest. *)
Definition load (f : Faults) (s : store) (version : option Z) : res pb.Manifest :=
  match version with Some v => load_version_of N limits f s v | None => '(m, _) ← load_latest_of N limits f s; Ok m end.

Definition dataset_fragment_messages (f : Faults) (s : store) (version : option Z) : res (list (list Z)) :=
  m ← load f s version; Ok (encode_data_fragment N <$> pb.mf_fragments m).

Definition dataset_field_messages (f : Faults) (s : store) (version : option Z) : res (list (list Z) * gmap string (list Z)) :=
  m ← load f s version; Ok (encode_field N <$> pb.mf_fields m, pb.mf_schema_metadata m).

(** Whether [needle] occurs in [s]. *)
Definition contains (needle s : string) : bool := match String.index 0 needle s with Some _ => true | None => false end.

(** The version a handle reads from; one cleaned up since is read as the latest. *)
Definition load_read_version (f : Faults) (s : store) (read_version : option Z) : res (pb.Manifest * Z) :=
  match read_version with
  | None => load_latest_of N limits f s
  | Some version =>
      match load_version_of N limits f s version with
      | Ok m => Ok (m, version)
      | Err e => if contains "not found" e then load_latest_of N limits f s else Err e
      end
  end.

(** The transaction of a version; [None]: it has none. *)
Definition dataset_transaction (f : Faults) (s : store) (version : Z) : res (option (list Z)) :=
  manifest ← load_version_of N limits f s version;
  match (if negb (String.eqb (pb.mf_transaction_file manifest) "") then read_transaction_file f s (pb.mf_transaction_file manifest) else None) with
  | Some bytes => Ok (Some bytes)
  | None =>
      match pb.mf_transaction_section manifest with
      | None => Ok None
      | Some _ => bytes ← read_inline_transaction f s version manifest; Ok (Some bytes)
      end
  end.

End committing.

(** ** An append of the writer is an Append transaction *)

(** The operation with the same new fragments, not yet numbered. *)
Definition append_operation (mapping : LanceSchemaMapping) (fragments : list NewFragment) : Operation.Operation :=
  Operation.set_fragments ((fun f => make_data_fragment mapping f 0) <$> fragments) (Operation.set_kind Operation.kAppend Operation.Operation0).

Lemma stamp_fresh version row mapping f id :
  TransactionChecks.stamp_fragment version row (make_data_fragment mapping f id)
  = Ok (stamp_new version row (make_data_fragment mapping f id), u64 (row + nf_rows f)).
Proof.
  unfold TransactionChecks.stamp_fragment, stamp_new. unfold mbind, res_bind.
  assert (RowMeta.read_fragment_row_meta (make_data_fragment mapping f id) = Ok RowMeta.FragmentRowMeta0) as -> by (vm_compute; reflexivity).
  cbn [RowMeta.has_row_ids RowMeta.external RowMeta.FragmentRowMeta0 negb andb orb RowMeta.has_created RowMeta.has_last_updated default].
  rewrite !andb_true_r. cbn [make_data_fragment pb.fr_physical_rows]. by destruct (nf_rows f =? 0).
Qed.

Lemma added_as_assigned mapping stable version fs id row added row' :
  0 <= id -> add_fragments mapping stable version fs id row = Ok (added, row') ->
  let assigned := (TransactionChecks.assign_ids ((fun f => make_data_fragment mapping f 0) <$> fs) id).1 in
  (pb.fr_id <$> assigned = seqZ id (zlen fs) /\ (fs <> [] -> id + zlen fs <= 2 ^ 32)) /\ pb.fr_id <$> added = pb.fr_id <$> assigned /\
  if stable then TransactionChecks.stamp_missing_row_meta version assigned row = Ok (added, row') else added = assigned /\ row' = row.
Proof.
  revert id row added row'. induction fs as [|f fs IH]; intros id row added row' Hid; cbn [add_fragments fmap list_fmap TransactionChecks.assign_ids].
  { intros [= <- <-]. cbv zeta. cbn [fst]. destruct stable; done. }
  destruct (Z.ltb_spec (2 ^ 32 - 1) id) as [|Hle]; [done|]. cbn [make_data_fragment pb.fr_id Z.eqb]. rewrite (u64_small (id + 1)) by (unfold is_u64; lia).
  rewrite zlen_cons. pose proof (zlen_nonneg fs).
  specialize (IH (id + 1)). change (pb.set_fragment_id _ id) with (make_data_fragment mapping f id).
  destruct stable; unfold mbind, res_bind.
  - destruct (add_fragments mapping true version fs (id + 1) _) as [[rest r]|] eqn:E; [|done]. intros [= <- <-].
    destruct (IH _ _ _ ltac:(lia) E) as ((H1 & H2) & H3 & H4). destruct (TransactionChecks.assign_ids _ (id + 1)) as [a n]. cbv zeta. cbn [fst] in *.
    rewrite !fmap_cons, H1, H3. split_and!.
    + rewrite (seqZ_cons id) by lia. do 2 f_equal; lia.
    + destruct fs; [intros _; change (zlen (@nil NewFragment)) with 0; lia | intros _; specialize (H2 ltac:(done)); lia].
    + by rewrite H1.
    + cbn [TransactionChecks.stamp_missing_row_meta]. rewrite stamp_fresh. unfold mbind, res_bind. by rewrite H4.
  - destruct (add_fragments mapping false version fs (id + 1) row) as [[rest r]|] eqn:E; [|done]. intros [= <- <-].
    destruct (IH _ _ _ ltac:(lia) E) as ((H1 & H2) & H3 & -> & ->). destruct (TransactionChecks.assign_ids _ (id + 1)) as [a n]. cbv zeta. cbn [fst] in *.
    rewrite !fmap_cons, H1. split_and!; [|destruct fs; [intros _; change (zlen (@nil NewFragment)) with 0; lia | intros _; specialize (H2 ltac:(done)); lia] | done | done | done].
    rewrite (seqZ_cons id) by lia. do 2 f_equal; lia.
Qed.

Lemma first_new_id_append prior : first_new_id Append (Some prior) = TransactionChecks.next_fragment_id prior.
Proof.
  unfold first_new_id, TransactionChecks.next_fragment_id.
  assert (forall fs a b, foldl (fun next f => Z.max next (u64 (pb.fr_id f + 1))) (Z.max a b) fs = Z.max (foldl (fun next f => Z.max next (u64 (pb.fr_id f + 1))) a fs) b) as Hf.
  { induction fs as [|f fs IH]; intros a b; [done|]. cbn [foldl]. rewrite <- IH. f_equal. lia. }
  set (ix := IndexMaintenance.first_fragment_id_after_indices (pb.mf_indices prior)). assert (0 <= ix) as Hix.
  { subst ix. unfold IndexMaintenance.first_fragment_id_after_indices. set (step := fun _ _ => _).
    assert (forall l n, n <= foldl step n l) as Hmono; [|apply Hmono].
    induction l as [|x l IH]; intros n; cbn [foldl]; [lia|]. etrans; [|apply IH]. unfold step. destruct (last _); lia. }
  destruct (pb.mf_max_fragment_id prior) as [mx|].
  - rewrite <- !Hf. f_equal. lia.
  - rewrite <- Hf. f_equal. lia.
Qed.

Lemma foldl_max_start fs a b : foldl (fun mx f => Z.max mx (pb.fr_id f)) (Z.max a b) fs = Z.max (foldl (fun mx f => Z.max mx (pb.fr_id f)) a fs) b.
Proof. revert a. induction fs as [|f fs IH]; intros a; [done|]. cbn [foldl]. rewrite <- IH. f_equal. lia. Qed.

Lemma new_max_ids fs gs a : pb.fr_id <$> fs = pb.fr_id <$> gs -> foldl (fun mx f => Z.max mx (pb.fr_id f)) a fs = foldl (fun mx f => Z.max mx (pb.fr_id f)) a gs.
Proof.
  intros E. assert (forall l a, foldl (fun mx f => Z.max mx (pb.fr_id f)) a l = foldl Z.max a (pb.fr_id <$> l)) as H.
  { induction l as [|f l IH]; intros b; [done|]. rewrite fmap_cons. cbn [foldl]. apply IH. }
  by rewrite !H, E.
Qed.

Lemma data_part_append mapping extras coa prior m0 :
  let m := data_part mapping extras coa Append (Some prior) m0 in
  pb.mf_fragments m = pb.mf_fragments prior /\ pb.mf_indices m = pb.mf_indices prior /\
  pb.mf_next_row_id m = pb.mf_next_row_id m0.
Proof. cbv zeta. unfold data_part. destruct (ex_schema_metadata extras); [destruct coa|]; split_and!; reflexivity. Qed.

Lemma data_part_high_water mapping extras coa prior version nanos writer :
  pb.mf_max_fragment_id (data_part mapping extras coa Append (Some prior) (table_part extras version nanos writer (Some prior))) = None.
Proof. unfold data_part. destruct (ex_schema_metadata extras); [destruct coa|]; reflexivity. Qed.

Lemma table_part_next_row_id extras version nanos writer prior : pb.mf_next_row_id (table_part extras version nanos writer (Some prior)) = pb.mf_next_row_id prior.
Proof. reflexivity. Qed.

(** The high-water mark [finish_new] records. *)
Definition new_high_water (prior : pb.Manifest) (fs : list pb.DataFragment) : option Z :=
  let max_id := foldl (fun mx f => Z.max mx (pb.fr_id f)) 0 fs in
  match pb.mf_max_fragment_id prior, fs with
  | Some mx, _ => Some (u32 (Z.max max_id mx))
  | None, [] => None
  | None, _ => Some (u32 max_id)
  end.

Lemma finish_new_members prior stable row m :
  let out := finish_new (Some prior) stable row m in
  pb.mf_fragments out = pb.mf_fragments m /\ pb.mf_indices out = pb.mf_indices m /\
  pb.mf_next_row_id out = (if stable then row else pb.mf_next_row_id m) /\
  (pb.mf_max_fragment_id m = None -> pb.mf_max_fragment_id out = new_high_water prior (pb.mf_fragments m)).
Proof.
  cbv zeta. unfold finish_new, new_high_water. destruct m as [fields fs].
  destruct stable, (pb.mf_max_fragment_id prior) as [mx|], fs as [|f fs];
    cbn [pb.mf_fragments pb.set_fragments Transaction.put_flag pb.set_writer_feature_flags pb.set_reader_feature_flags pb.set_next_row_id pb.set_max_fragment_id];
    try match goal with |- context [existsb ?g ?l] => destruct (existsb g l) end; cbn; split_and!; auto.
Qed.

(** The members of the manifest an append builds. *)
Lemma new_manifest_append mapping fragments coa extras version nanos writer prior m :
  new_manifest mapping fragments Append coa extras version nanos writer (Some prior) = Ok m ->
  exists added next_row_id,
    add_fragments mapping (has_stable_row_ids prior) version fragments (TransactionChecks.next_fragment_id prior) (pb.mf_next_row_id prior) = Ok (added, next_row_id) /\
    pb.mf_fragments m = pb.mf_fragments prior ++ added /\ pb.mf_indices m = pb.mf_indices prior /\
    pb.mf_next_row_id m = (if has_stable_row_ids prior then next_row_id else pb.mf_next_row_id prior) /\
    pb.mf_max_fragment_id m = new_high_water prior (pb.mf_fragments prior ++ added).
Proof.
  unfold new_manifest, mbind, res_bind. destruct (_ && negb (has_stable_row_ids prior)); [done|].
  rewrite bool_decide_eq_true_2, andb_false_r, orb_false_r, first_new_id_append by done.
  destruct (add_fragments _ _ _ _ _ _) as [[added row]|] eqn:E; [|done].
  destruct (data_part_append mapping extras coa prior (table_part extras version nanos writer (Some prior))) as (H1 & H2 & H3).
  rewrite table_part_next_row_id in H3. pose proof (data_part_high_water mapping extras coa prior version nanos writer) as H4.
  match goal with |- context [data_part ?a ?b ?c ?d ?e ?f] => set (m0 := data_part a b c d e f) in * end. clearbody m0.
  destruct (finish_new_members prior (has_stable_row_ids prior) row (pb.set_fragments (pb.mf_fragments m0 ++ added) m0)) as (F1 & F2 & F3 & F4).
  set (out := finish_new _ _ _ _) in *. clearbody out.
  intros H. assert (out = m) as <- by congruence. exists added, row. split; [done|]. cbn in F1, F2, F3, F4.
  rewrite F1, F2, F3, H1, H2, H3. split_and!; [done..|]. by rewrite (F4 H4), H1.
Qed.

Lemma set_base_id_fields file id : pb.df_fields (BasePaths.set_data_file_base_id file id) = pb.df_fields file.
Proof. unfold BasePaths.set_data_file_base_id. by repeat case_match. Qed.

Lemma new_files_have_fields mapping fragments :
  lance_physical_fields mapping <> [] -> TransactionChecks.files_have_fields ((fun f => make_data_fragment mapping f 0) <$> fragments) = Ok tt.
Proof.
  intros Hp. unfold TransactionChecks.files_have_fields. induction fragments as [|f fragments IH]; [done|]. rewrite fmap_cons. cbn [fold_res].
  assert (fold_res TransactionChecks.file_has_fields (pb.fr_files (make_data_fragment mapping f 0)) tt = Ok tt) as ->; [|exact IH].
  cbn [make_data_fragment pb.fr_files fold_res]. unfold TransactionChecks.file_has_fields, mbind, res_bind.
  assert (pb.df_fields (manifest_data_file mapping (nf_data_file f)) <> []) as Hf.
  { cbn. intros E. apply Hp. by destruct (lance_physical_fields mapping). }
  destruct (nf_base_id f); [rewrite set_base_id_fields|]; by destruct (pb.df_fields _).
Qed.

Lemma new_high_water_finish prior next fs fs' :
  pb.mf_max_fragment_id next = pb.mf_max_fragment_id prior -> pb.fr_id <$> fs' = pb.fr_id <$> fs ->
  (forall mx, pb.mf_max_fragment_id prior = Some mx -> 0 <= mx) ->
  Transaction.high_water (pb.set_fragments fs' next) = new_high_water prior fs.
Proof.
  intros Hm Hids Hnn. unfold Transaction.high_water, new_high_water. cbn [pb.mf_max_fragment_id pb.mf_fragments pb.set_fragments]. rewrite Hm.
  rewrite (new_max_ids _ _ _ Hids). destruct (pb.mf_max_fragment_id prior) as [mx|].
  - cbn [default]. specialize (Hnn mx eq_refl). rewrite <- foldl_max_start. by rewrite Z.max_r by done.
  - destruct fs, fs'; done.
Qed.

Section equivalence.
  Context (encode_data_fragment : pb.DataFragment -> list Z) (decode_data_file : list Z -> option pb.DataFile).
  Context (make_index_metadata : list Z -> list Z -> string -> Z -> list Z -> string -> Z -> Z -> list (string * Z) -> list Z -> pb.IndexMetadata).
  Context (limits : ReadLimits).

#[local] Notation apply := (Transaction.apply_operation encode_data_fragment decode_data_file make_index_metadata limits).

Lemma appended_ascending prior added n :
  Transaction.manifest_ok prior -> pb.fr_id <$> added = seqZ (TransactionChecks.next_fragment_id prior) n ->
  ascending (Transaction.ids_of (pb.mf_fragments prior ++ added)).
Proof.
  intros Hok Hadd. destruct (Transaction.next_fragment_id_above prior Hok) as (Hb & _). unfold Transaction.ids_of in *. rewrite fmap_app, Hadd.
  apply ascending_app. split_and!; [by apply Transaction.ok_sorted | apply seqZ_ascending|].
  intros x y Hx%Hb [Hy _]%elem_of_seqZ. lia.
Qed.

Lemma finish_next_row_id stable next : pb.mf_next_row_id (Transaction.finish stable next) = pb.mf_next_row_id next.
Proof. unfold Transaction.finish. by destruct stable. Qed.

(** The switch on an append whose fragments are stamped to [added]. *)
Lemma apply_append_added prior mapping fragments version added row (stable := has_stable_row_ids prior) :
  (if stable then TransactionChecks.stamp_missing_row_meta version (TransactionChecks.assign_ids ((fun f => make_data_fragment mapping f 0) <$> fragments) (TransactionChecks.next_fragment_id prior)).1 (pb.mf_next_row_id prior) = Ok (added, row)
   else added = (TransactionChecks.assign_ids ((fun f => make_data_fragment mapping f 0) <$> fragments) (TransactionChecks.next_fragment_id prior)).1 /\ row = pb.mf_next_row_id prior) ->
  exists mid, Transaction.apply_append stable version (TransactionChecks.next_fragment_id prior) (append_operation mapping fragments) prior = Ok mid /\
    pb.mf_fragments mid = pb.mf_fragments prior ++ added /\ pb.mf_next_row_id mid = row /\
    pb.mf_max_fragment_id mid = pb.mf_max_fragment_id prior /\ pb.mf_indices mid = pb.mf_indices prior.
Proof.
  unfold Transaction.apply_append, Transaction.stamp_added. change (Operation.fragments (append_operation mapping fragments)) with ((fun f => make_data_fragment mapping f 0) <$> fragments).
  destruct (TransactionChecks.assign_ids _ _) as [a n]. cbn [fst]. unfold mbind, res_bind. destruct stable.
  - intros ->. eexists. by split.
  - intros [-> ->]. eexists. by split.
Qed.

(** an append through the dataset writer builds the version that committing the same new
    fragments as an Append transaction builds: both number the fragments from the same id, give them the same
    stable row ids and row versions, advance the row id counter and the high-water mark alike and keep the
    indices; the transaction also drops data files whose every field is a tombstone. *)
Theorem writer_append_is_transaction mapping fragments coa extras version nanos writer prior m :
  Transaction.manifest_ok prior -> lance_physical_fields mapping <> [] ->
  new_manifest mapping fragments Append coa extras version nanos writer (Some prior) = Ok m ->
  exists m', apply (Some prior) (append_operation mapping fragments) false version = Ok m' /\
    pb.mf_fragments m' = Transaction.drop_tombstone_files <$> pb.mf_fragments m /\
    pb.mf_next_row_id m' = pb.mf_next_row_id m /\ pb.mf_max_fragment_id m' = pb.mf_max_fragment_id m /\
    pb.mf_indices m' = pb.mf_indices m.
Proof.
  intros Hok Hp Hm. apply new_manifest_append in Hm as (added & row & Ha & Hf & Hi & Hr & Hh).
  destruct (Transaction.next_fragment_id_above prior Hok) as (_ & _ & _ & Hnn).
  destruct (added_as_assigned _ _ _ _ _ _ _ _ (proj1 Hnn) Ha) as ((Hids & _) & Hsame & Hstamp).
  unfold Transaction.apply_operation, Transaction.validate, mbind, res_bind.
  cbn [append_operation Operation.kind Operation.set_fragments Operation.set_kind Operation.fragments]. cbn [Z.eqb Pos.eqb Operation.kAppend Operation.kOverwrite Operation.kMerge Operation.kUpdate orb].
  rewrite new_files_have_fields by done.
  change (Transaction.start (Some prior) (append_operation mapping fragments)) with prior. cbn [default].
  replace (Transaction.is_stable (Some prior) (append_operation mapping fragments) false prior) with (has_stable_row_ids prior)
    by (symmetry; apply orb_false_r).
  destruct (apply_append_added prior mapping fragments version added row Hstamp) as (mid & Hmid & Mf & Mr & Mm & Mi).
  change (Transaction.apply_kind _ _ _ _ ?st ?v ?id _ ?op ?next) with (Transaction.apply_append st v id op next).
  rewrite Hmid. eexists. split; [reflexivity|]. rewrite finish_next_row_id.
  destruct (Transaction.finish_members (has_stable_row_ids prior) mid) as (-> & -> & ->).
  assert (stable_sort_by pb.fr_id (pb.mf_fragments mid) = pb.mf_fragments m) as Hsort.
  { rewrite Mf, Hf. apply stable_sort_by_id, Transaction.ascending_ids_sorted. eapply appended_ascending; [done|]. by rewrite Hsame. }
  rewrite Hsort, Mr, Mi, Hr, Hi, Hh. split_and!; [done | | | done].
  - destruct (has_stable_row_ids prior); [done|]. by destruct Hstamp.
  - apply new_high_water_finish; [done | | intros mx Hmx; by apply (Transaction.ok_max prior Hok)].
    rewrite <- list_fmap_compose, Hf. by apply list_fmap_ext.
Qed.

End equivalence.

(** A column [x], and one file of 10 rows appended to the dataset of three fragments. *)
Definition sample_mapping : LanceSchemaMapping := [mkLanceField "x" "int64" "l" 0 (-1) 0 true "" ∅ false "" "" false false 0 0].
Definition sample_new : list NewFragment := [mkNewFragment (mkDataFileResult "data/new.lance" 512) 10 None].

Lemma writer_append_is_transaction_witness :
  exists m m', new_manifest sample_mapping sample_new Append false CommitExtras0 2 0 "1" (Some Transaction.sample_base) = Ok m /\
    Transaction.ids_of (pb.mf_fragments m) = [0; 1; 3; 6] /\
    Transaction.sample_apply Transaction.sample_base (append_operation sample_mapping sample_new) = Ok m' /\
    pb.mf_fragments m' = Transaction.drop_tombstone_files <$> pb.mf_fragments m.
Proof.
  assert (exists m, new_manifest sample_mapping sample_new Append false CommitExtras0 2 0 "1" (Some Transaction.sample_base) = Ok m /\
    Transaction.ids_of (pb.mf_fragments m) = [0; 1; 3; 6]) as (m & Hm & Hids).
  { eexists. split; [vm_compute; reflexivity|]. vm_compute. reflexivity. }
  destruct (writer_append_is_transaction (fun _ => []) (fun _ => None) Transaction.sample_make initial_read_limits sample_mapping sample_new false CommitExtras0
    2 0 "1" Transaction.sample_base m Transaction.sample_base_ok ltac:(vm_compute; discriminate) Hm) as (m' & H1 & H2 & _).
  exists m, m'. split_and!; [exact Hm | exact Hids | exact H1 | exact H2].
Defined.

End DatasetCommit.
