(* ===== verification/Lz4Block.v ===== *)
(** * Lz4Block: LZ4 blocks behind a size prefix (src/encoding/lz4_block.cpp)

    The compressor, whole: the greedy matcher over a hash table of earlier positions and the bytes of the
    sequences it writes. The decompressor of a block is nanom's, a parameter; what surrounds it (the declared
    size and the checks made before allocating) is modelled. *)

From S2P Require Import Prelude ReadSafety.

Module Lz4Block.

(** ** Compression *)

Definition kMinMatch : Z := 4.
Definition kMfLimit : Z := 12.
Definition kLastLiterals : Z := 5.
Definition kMaxOffset : Z := 65535.
Definition kHashBits : Z := 16.

Definition byte_at (data : list Z) (p : Z) : Z := nth (Z.to_nat p) data 0.

Definition load32 (data : list Z) (p : Z) : Z := le_value (take 4 (drop (Z.to_nat p) data)).

Definition hash4 (v : Z) : Z := Z.shiftr (u32 (v * 2654435761)) (32 - kHashBits).

(** [put_length]: [n] iterations of the loop at most. *)
Fixpoint put_length_loop (n : nat) (extra : Z) : list Z :=
  match n with
  | O => [u8 extra]
  | S n => if 255 <=? extra then 255 :: put_length_loop n (extra - 255) else [u8 extra]
  end.

Definition put_length (extra : Z) : list Z := put_length_loop (Z.to_nat (extra / 255)) extra.

(** [found]: the offset and the length of the match, or none. *)
Definition put_literals_and_match (lit : list Z) (found : option (Z * Z)) : list Z :=
  let lit_len := zlen lit in
  let lit_nibble := if lit_len <? 15 then lit_len else 15 in
  let match_nibble :=
    match found with Some (_, match_len) => if match_len - kMinMatch <? 15 then match_len - kMinMatch else 15 | None => 0 end in
  u8 (Z.lor (Z.shiftl lit_nibble 4) match_nibble) :: (if 15 <=? lit_len then put_length (lit_len - 15) else []) ++ lit ++
  match found with
  | None => []
  | Some (offset, match_len) =>
      u8 (Z.land offset 255) :: u8 (Z.land (Z.shiftr offset 8) 255) ::
      (if 15 <=? match_len - kMinMatch then put_length (match_len - kMinMatch - 15) else [])
  end.

(** The bytes [data[from, to)]. *)
Definition range (data : list Z) (from to : Z) : list Z := take (Z.to_nat (to - from)) (drop (Z.to_nat from) data).

(** The extension of a match: [n] bytes at most. *)
Fixpoint extend (n : nat) (data : list Z) (limit match_end ref_end : Z) : Z :=
  match n with
  | O => match_end
  | S n =>
      if (match_end <? limit) && (byte_at data match_end =? byte_at data ref_end)
      then extend n data limit (match_end + 1) (ref_end + 1) else match_end
  end.

(** The positions a match covers, every second one. *)
Fixpoint index_match (n : nat) (data : list Z) (p match_end limit : Z) (table : gmap Z Z) : gmap Z Z :=
  match n with
  | O => table
  | S n =>
      if (p <? match_end) && (p <? limit)
      then index_match n data (p + 2) match_end limit (<[hash4 (load32 data p) := u32 p]> table) else table
  end.

(** The loop from position [ip]; the table holds a position per hash, 0 where none was entered. *)
Fixpoint compress_loop (n : nat) (data : list Z) (table : gmap Z Z) (anchor ip : Z) : list Z :=
  let size := zlen data in
  let match_start_limit := size - kMfLimit in
  let match_end_limit := size - kLastLiterals in
  match n with
  | O => put_literals_and_match (range data anchor size) None
  | S n =>
      if ip <? match_start_limit then
        let seq := load32 data ip in
        let slot := hash4 seq in
        let candidate := default 0 (table !! slot) in
        let table := <[slot := u32 ip]> table in
        if (ip <=? candidate) || (kMaxOffset <? ip - candidate) || negb (load32 data candidate =? seq)
        then compress_loop n data table anchor (ip + 1)
        else
          let match_end := extend (Z.to_nat size) data match_end_limit (ip + kMinMatch) (candidate + kMinMatch) in
          put_literals_and_match (range data anchor ip) (Some (ip - candidate, match_end - ip)) ++
          compress_loop n data (index_match (Z.to_nat size) data (ip + 1) match_end match_start_limit table) match_end match_end
      else put_literals_and_match (range data anchor size) None
  end.

Definition compress_block (data : list Z) : list Z :=
  if zlen data <? kMfLimit + 1 then put_literals_and_match data None
  else compress_loop (Z.to_nat (zlen data)) data ∅ 0 1.

Definition compress_sized (data : list Z) : res (list Z) :=
  if 2 ^ 32 - 1 <? zlen data then Err ("LZ4 input of " +:+ pretty (zlen data) +:+ " bytes does not fit the u32 size prefix")
  else Ok (le_bytes 4 (zlen data) ++ compress_block data).

(** ** Decompression *)

Section decompressing.
  (** [nanom::codec::lz4_block_decompress] of a block into a buffer of the given size: the bytes it wrote, or
      its error. *)
  Context (lz4_block_decompress : list Z -> Z -> res (list Z)).

Definition max_possible (size : Z) : Z := if U64_MAX / 255 - 1 <? size then U64_MAX else (size + 1) * 255.

Definition decompress_block (block : list Z) (uncompressed_size : Z) : res (list Z) :=
  let size := zlen block in
  if max_possible size <? uncompressed_size then
    Err ("LZ4 block declares " +:+ pretty uncompressed_size +:+ " uncompressed bytes, more than its " +:+ pretty size +:+ " compressed bytes could produce")
  else if size =? 0 then
    if negb (uncompressed_size =? 0) then Err ("LZ4 block is empty but declares " +:+ pretty uncompressed_size +:+ " bytes") else Ok []
  else
    match lz4_block_decompress block uncompressed_size with
    | Err e => Err ("LZ4 block is malformed: " +:+ e)
    | Ok out =>
        if negb (zlen out =? uncompressed_size)
        then Err ("LZ4 block decoded " +:+ pretty (zlen out) +:+ " bytes, not the declared " +:+ pretty uncompressed_size) else Ok out
    end.

Definition decompress_sized (limits : ReadLimits) (sized : list Z) : res (list Z) :=
  if zlen sized <? 4 then Err "LZ4 buffer is too short to hold its uncompressed size"
  else
    let declared := load_le 4 sized in
    if max_uncompressed_bytes limits <? declared
    then Err ("LZ4 buffer declares " +:+ pretty declared +:+ " uncompressed bytes, over the decoded-size limit")
    else decompress_block (drop 4 sized) declared.

End decompressing.

Example compress_abc : compress_block (bytes_of_string "abcabcabcabcabcabcabcabcabcabc") =
  [63; 97; 98; 99; 3; 0; 3; 80; 98; 99; 97; 98; 99].
Proof. vm_compute. reflexivity. Qed.

(** ** The block format

    A block is a list of sequences: literals, then (but for the last one) a match, a copy of [len] bytes from
    [offset] bytes back, which may overlap what it writes. *)

(** [n] bytes copied one after the other. *)
Fixpoint copy_match (n : nat) (offset : Z) (out : list Z) : list Z :=
  match n with O => out | S n => copy_match n offset (out ++ [byte_at out (zlen out - offset)]) end.

(** The bytes a length takes after its nibble. *)
Definition extension (n : Z) : list Z :=
  if n <? 15 then [] else replicate (Z.to_nat ((n - 15) / 255)) 255 ++ [(n - 15) mod 255].

(** [lz4_block block out whole]: after [out], the block makes [whole]. No match starts in the last 12 bytes
    or reaches the last 5. *)
Inductive lz4_block : list Z -> list Z -> list Z -> Prop :=
| block_last lits out :
    lz4_block (16 * Z.min 15 (zlen lits) :: extension (zlen lits) ++ lits) out (out ++ lits)
| block_match lits offset len rest out whole :
    1 <= offset <= 65535 -> offset <= zlen (out ++ lits) -> 4 <= len ->
    zlen (out ++ lits) + 12 <= zlen whole -> zlen (out ++ lits) + len + 5 <= zlen whole ->
    lz4_block rest (copy_match (Z.to_nat len) offset (out ++ lits)) whole ->
    lz4_block (16 * Z.min 15 (zlen lits) + Z.min 15 (len - 4) :: extension (zlen lits) ++ lits ++ le_bytes 2 offset ++ extension (len - 4) ++ rest)
      out whole.

Lemma put_length_extension n : 0 <= n -> put_length n = replicate (Z.to_nat (n / 255)) 255 ++ [n mod 255].
Proof.
  unfold put_length. intros Hn. remember (Z.to_nat (n / 255)) as k eqn:Hk. revert n Hn Hk. induction k as [|k IH]; intros n Hn Hk.
  - cbn. assert (n / 255 = 0) by dlia. rewrite u8_small by (unfold is_u8; dlia). do 2 f_equal. dlia.
  - cbn [put_length_loop replicate app]. replace (255 <=? n) with true by (symmetry; apply Z.leb_le; dlia).
    rewrite (IH (n - 255)) by dlia. replace ((n - 255) mod 255) with (n mod 255) by dlia. done.
Qed.

Lemma put_extension n : 0 <= n -> (if 15 <=? n then put_length (n - 15) else []) = extension n.
Proof.
  intros Hn. unfold extension. destruct (Z.leb_spec 15 n), (Z.ltb_spec n 15); try lia; [|done]. by apply put_length_extension; lia.
Qed.

(** The sequences written are the format's. *)
Lemma put_last lits : put_literals_and_match lits None = 16 * Z.min 15 (zlen lits) :: extension (zlen lits) ++ lits.
Proof.
  unfold put_literals_and_match. pose proof (zlen_nonneg lits). rewrite put_extension, app_nil_r by done. f_equal.
  rewrite Z.lor_0_r, Z.shiftl_mul_pow2 by lia.
  destruct (Z.ltb_spec (zlen lits) 15); rewrite u8_small by (unfold is_u8; lia); lia.
Qed.

Lemma put_match lits offset len :
  is_u16 offset -> 4 <= len ->
  put_literals_and_match lits (Some (offset, len)) =
  16 * Z.min 15 (zlen lits) + Z.min 15 (len - 4) :: extension (zlen lits) ++ lits ++ le_bytes 2 offset ++ extension (len - 4).
Proof.
  intros Ho Hl. unfold put_literals_and_match, kMinMatch. pose proof (zlen_nonneg lits). rewrite !put_extension by lia. f_equal.
  - set (a := if zlen lits <? 15 then zlen lits else 15). set (b := if len - 4 <? 15 then len - 4 else 15).
    assert (a = Z.min 15 (zlen lits)) as -> by (subst a; destruct (Z.ltb_spec (zlen lits) 15); lia).
    assert (b = Z.min 15 (len - 4)) as -> by (subst b; destruct (Z.ltb_spec (len - 4) 15); lia).
    rewrite Z.lor_comm, lor_shiftl_add by lia. rewrite u8_small by (unfold is_u8; lia). lia.
  - do 2 f_equal. unfold is_u16 in Ho. cbn [le_bytes app].
    rewrite (u8_small (Z.land offset 255)), (u8_small (Z.land (Z.shiftr offset 8) 255)).
    + f_equal; [|f_equal]; [exact (land_low offset 8 ltac:(lia)) |].
      rewrite (land_low _ 8) by lia. rewrite Z.shiftr_div_pow2 by lia. done.
    + change 255 with (2 ^ 8 - 1). rewrite land_low by lia. unfold is_u8. dlia.
    + change 255 with (2 ^ 8 - 1). rewrite land_low by lia. unfold is_u8. dlia.
Qed.

(** ** Every block written decodes to its input *)

Lemma take_snoc (data : list Z) i : 0 <= i < zlen data -> take (Z.to_nat i) data ++ [byte_at data i] = take (Z.to_nat (i + 1)) data.
Proof.
  intros Hi. unfold zlen, byte_at in *. replace (Z.to_nat (i + 1)) with (S (Z.to_nat i)) by lia.
  destruct (lookup_lt_is_Some_2 data (Z.to_nat i) ltac:(lia)) as [x Hx]. rewrite (take_S_r _ _ x Hx). by rewrite (nth_lookup_Some _ _ _ _ Hx).
Qed.

Lemma zlen_take (data : list Z) i : 0 <= i <= zlen data -> zlen (take (Z.to_nat i) data) = i.
Proof. unfold zlen. intros. rewrite length_take. lia. Qed.

Lemma lz4_byte_at_take data i j : 0 <= j < i -> byte_at (take (Z.to_nat i) data) j = byte_at data j.
Proof. intros. unfold byte_at. rewrite !nth_lookup, lookup_take by lia. rewrite decide_True by lia. done. Qed.

Lemma take_range data from to : 0 <= from <= to -> to <= zlen data -> take (Z.to_nat from) data ++ range data from to = take (Z.to_nat to) data.
Proof.
  intros. unfold range. replace (Z.to_nat to) with (Z.to_nat from + Z.to_nat (to - from))%nat by lia. by rewrite take_take_drop.
Qed.

(** A match copies the bytes it was found equal to. *)
Lemma copy_match_equal data offset n ip :
  0 < offset <= ip -> ip + Z.of_nat n <= zlen data ->
  (forall j, ip <= j < ip + Z.of_nat n -> byte_at data j = byte_at data (j - offset)) ->
  copy_match n offset (take (Z.to_nat ip) data) = take (Z.to_nat (ip + Z.of_nat n)) data.
Proof.
  revert ip. induction n as [|n IH]; intros ip Ho Hn Heq; cbn [copy_match]; [f_equal; lia|].
  rewrite zlen_take by lia. rewrite lz4_byte_at_take by lia. rewrite <- Heq by lia. rewrite take_snoc by lia.
  rewrite IH; [f_equal; lia | lia | lia|]. intros j Hj. apply Heq. lia.
Qed.

Lemma extend_spec n data limit match_end ref_end :
  match_end <= limit ->
  let e := extend n data limit match_end ref_end in
  match_end <= e <= limit /\ forall j, match_end <= j < e -> byte_at data j = byte_at data (j - (match_end - ref_end)).
Proof.
  revert match_end ref_end. induction n as [|n IH]; intros me re Hle; cbn [extend]; [split; lia|].
  destruct (Z.ltb_spec me limit); [|split; cbn; lia]. cbn [andb]. destruct (Z.eqb_spec (byte_at data me) (byte_at data re)) as [E|]; [|split; lia].
  destruct (IH (me + 1) (re + 1) ltac:(lia)) as (H1 & H2). split; [lia|]. intros j Hj. destruct (Z.eq_dec j me) as [->|].
  - rewrite E. f_equal. lia.
  - rewrite H2 by lia. f_equal. lia.
Qed.

Lemma load32_equal data p q :
  bytes_ok data -> 0 <= p -> p + 4 <= zlen data -> 0 <= q -> q + 4 <= zlen data -> load32 data p = load32 data q ->
  forall j, 0 <= j < 4 -> byte_at data (p + j) = byte_at data (q + j).
Proof.
  intros Hok Hp Hp4 Hq Hq4 E j Hj. unfold load32 in E. unfold zlen in *.
  assert (forall i, 0 <= i -> i + 4 <= Z.of_nat (length data) -> length (take 4 (drop (Z.to_nat i) data)) = 4%nat) as Hlen.
  { intros i H0 H4. rewrite length_take, length_drop. lia. }
  assert (forall i, bytes_ok (take 4 (drop (Z.to_nat i) data))) as Hb by (intros i; by apply Forall_take, Forall_drop).
  assert (take 4 (drop (Z.to_nat p) data) = take 4 (drop (Z.to_nat q) data)) as Eb.
  { rewrite <- (le_bytes_le_value _ (Hb p)), <- (le_bytes_le_value _ (Hb q)), !Hlen, E by done. done. }
  assert (forall i, 0 <= i -> byte_at data (i + j) = nth (Z.to_nat j) (take 4 (drop (Z.to_nat i) data)) 0) as Hn.
  { intros i Hi. unfold byte_at. rewrite !nth_lookup, lookup_take by lia. rewrite decide_True by lia. rewrite lookup_drop. do 2 f_equal. lia. }
  rewrite !Hn by lia. by rewrite Eb.
Qed.

Lemma index_match_nonneg n data p me limit table :
  map_Forall (fun _ v => 0 <= v) table -> map_Forall (fun _ v => 0 <= v) (index_match n data p me limit table).
Proof.
  revert p table. induction n as [|n IH]; intros p table Ht; cbn [index_match]; [done|]. case_match; [|done].
  apply IH, map_Forall_insert_2; [|done]. apply u32_range.
Qed.

Lemma compress_loop_valid n data table anchor ip :
  bytes_ok data -> kMfLimit < zlen data -> map_Forall (fun _ v => 0 <= v) table -> 0 <= anchor <= ip -> anchor <= zlen data - kLastLiterals ->
  lz4_block (compress_loop n data table anchor ip) (take (Z.to_nat anchor) data) data.
Proof.
  intros Hok Hsize. unfold kLastLiterals, kMfLimit in *. revert table anchor ip.
  assert (forall anchor, 0 <= anchor <= zlen data - 5 ->
    lz4_block (put_literals_and_match (range data anchor (zlen data)) None) (take (Z.to_nat anchor) data) data) as Hend.
  { intros anchor Ha. rewrite put_last. pose proof (block_last (range data anchor (zlen data)) (take (Z.to_nat anchor) data)) as Hb.
    rewrite take_range, (take_ge data (Z.to_nat (zlen data))) in Hb by (unfold zlen in *; lia). exact Hb. }
  induction n as [|n IH]; intros table anchor ip Ht Ha Hlit; cbn [compress_loop]; [by apply Hend; lia|].
  destruct (Z.ltb_spec ip (zlen data - kMfLimit)) as [Hip|]; [|by apply Hend; lia]. unfold kMfLimit in Hip.
  set (candidate := default 0 (table !! _)). assert (0 <= candidate) as Hc.
  { subst candidate. destruct (table !! _) eqn:E; [exact (Ht _ _ E) | done]. }
  assert (map_Forall (fun _ v => 0 <= v) (<[hash4 (load32 data ip) := u32 ip]> table)) as Ht'.
  { apply map_Forall_insert_2; [apply u32_range | done]. }
  destruct ((ip <=? candidate) || (kMaxOffset <? ip - candidate) || negb (load32 data candidate =? load32 data ip)) eqn:E;
    [apply IH; [done | lia | lia]|].
  apply orb_false_iff in E as [[E1 E2]%orb_false_iff E3]. apply Z.leb_gt in E1. apply Z.ltb_ge in E2. apply negb_false_iff, Z.eqb_eq in E3.
  unfold kMaxOffset in E2. set (me := extend _ _ _ _ _).
  destruct (extend_spec (Z.to_nat (zlen data)) data (zlen data - kLastLiterals) (ip + kMinMatch) (candidate + kMinMatch)) as (Hme & Heq);
    [unfold kLastLiterals, kMinMatch; lia|]. fold me in Hme, Heq. unfold kLastLiterals, kMinMatch in *.
  rewrite put_match by (unfold is_u16; lia). rewrite <- app_comm_cons, <- !app_assoc.
  assert (take (Z.to_nat anchor) data ++ range data anchor ip = take (Z.to_nat ip) data) as Htake by (apply take_range; lia).
  apply block_match; [lia | rewrite Htake, zlen_take by lia; lia | lia | rewrite Htake, zlen_take by lia; lia.. |].
  rewrite Htake, (copy_match_equal data); [|lia | lia|].
  - replace (ip + Z.of_nat (Z.to_nat (me - ip))) with me by lia. apply IH; [by apply index_match_nonneg | lia | lia].
  - intros j Hj. destruct (Z.lt_ge_cases j (ip + 4)).
    + pose proof (load32_equal data ip candidate Hok ltac:(lia) ltac:(lia) ltac:(lia) ltac:(lia) (eq_sym E3) (j - ip) ltac:(lia)) as Hj4.
      replace (ip + (j - ip)) with j in Hj4 by lia. rewrite Hj4. f_equal. lia.
    + rewrite Heq by lia. f_equal. lia.
Qed.

Lemma compress_block_valid data : bytes_ok data -> lz4_block (compress_block data) [] data.
Proof.
  intros Hok. unfold compress_block. destruct (Z.ltb_spec (zlen data) (kMfLimit + 1)).
  - rewrite put_last. exact (block_last data []).
  - apply (compress_loop_valid _ data ∅ 0 1); unfold kLastLiterals, kMfLimit in *; [done | lia | apply map_Forall_empty | lia | lia].
Qed.

(** ** The size check *)

Lemma extension_bound n : 0 <= n -> n <= 14 + 255 * zlen (extension n).
Proof.
  intros. unfold extension. destruct (Z.ltb_spec n 15); [change (zlen []) with 0; lia|]. rewrite zlen_app. unfold zlen. rewrite length_replicate. cbn. dlia.
Qed.

Lemma zlen_copy_match n offset out : zlen (copy_match n offset out) = zlen out + Z.of_nat n.
Proof. revert out. induction n as [|n IH]; intros out; cbn [copy_match]; [lia|]. rewrite IH, zlen_app. change (zlen [_]) with 1. lia. Qed.

(** No block makes more than 255 bytes of one of its own. *)
Lemma block_expansion block out whole : lz4_block block out whole -> zlen whole <= zlen out + 255 * zlen block.
Proof.
  induction 1 as [lits out|lits offset len rest out whole Ho1 Ho2 Hl H1 H2 H IH].
  - rewrite zlen_cons, !zlen_app. pose proof (zlen_nonneg (extension (zlen lits))). pose proof (zlen_nonneg lits). lia.
  - rewrite zlen_copy_match, zlen_app in IH. rewrite zlen_cons, !zlen_app, zlen_le_bytes. pose proof (zlen_nonneg (extension (zlen lits))).
    pose proof (zlen_nonneg lits). pose proof (extension_bound (len - 4) ltac:(lia)). lia.
Qed.

Lemma block_nonempty block out whole : lz4_block block out whole -> 0 < zlen block.
Proof. destruct 1; rewrite zlen_cons; match goal with |- context [1 + zlen ?l] => pose proof (zlen_nonneg l) end; lia. Qed.

(** ** The loops end: every iteration moves forward, so more iterations than the data has bytes change nothing *)

Lemma compress_loop_fuel n k data table anchor ip :
  zlen data - kMfLimit - ip <= Z.of_nat n -> compress_loop (n + k) data table anchor ip = compress_loop n data table anchor ip.
Proof.
  revert table anchor ip. induction n as [|n IH]; intros table anchor ip Hn; cbn [Nat.add compress_loop].
  - destruct k; cbn [compress_loop]; [done|]. replace (ip <? zlen data - kMfLimit) with false by (symmetry; apply Z.ltb_ge; lia). done.
  - destruct (Z.ltb_spec ip (zlen data - kMfLimit)) as [Hlt|]; [|done]. case_match; [apply IH; lia|]. f_equal. apply IH.
    match goal with |- context [extend ?n ?d ?l ?a ?b] => destruct (extend_spec n d l a b) as [[He _] _] end;
      unfold kLastLiterals, kMinMatch, kMfLimit in *; lia.
Qed.

(** What is decompressed has the declared size, which passed the check on the block's. *)
Lemma decompress_block_bounded lz4_block_decompress block size out :
  decompress_block lz4_block_decompress block size = Ok out -> zlen out = size /\ zlen out <= 255 * (zlen block + 1).
Proof.
  unfold decompress_block, max_possible. destruct (Z.ltb_spec (if U64_MAX / 255 - 1 <? zlen block then U64_MAX else (zlen block + 1) * 255) size) as [|Hb]; [done|].
  pose proof (zlen_nonneg block). assert (size <= 255 * (zlen block + 1)) as Hsize.
  { destruct (Z.ltb_spec (U64_MAX / 255 - 1) (zlen block)) as [Hbig|]; [|lia]. change (U64_MAX / 255 - 1) with 72340172838076672 in Hbig. unfold U64_MAX in Hb. lia. }
  destruct (zlen block =? 0).
  - destruct (Z.eqb_spec size 0) as [->|]; [|done]. intros [= <-]. split; [done|]. change (zlen []) with 0. lia.
  - destruct (lz4_block_decompress block size) as [o|]; [|done]. destruct (Z.eqb_spec (zlen o) size) as [E|]; [|done]. intros [= <-]. lia.
Qed.

(** ** The round trip *)

Section roundtrip.
  Context (lz4_block_decompress : list Z -> Z -> res (list Z)) (limits : ReadLimits).
  (** The decompressor reads the LZ4 block format: given room for exactly what a block holds, it gives that. *)
  Hypothesis decompress_format : forall block whole, lz4_block block [] whole -> lz4_block_decompress block (zlen whole) = Ok whole.

(** C29: (roundtrip): what the LZ4 compressor writes is a block of the LZ4 format (every match within reach and clear
    of the last bytes) that decodes to the input, and the size check made before the output is allocated lets
    it through: a buffer compressed and read back is the buffer, whatever the hash table suggested. *)
Theorem lz4_roundtrip data framed :
  bytes_ok data -> zlen data <= max_uncompressed_bytes limits -> compress_sized data = Ok framed ->
  lz4_block (drop 4 framed) [] data /\ decompress_sized lz4_block_decompress limits framed = Ok data.
Proof.
  intros Hok Hlim. unfold compress_sized. destruct (Z.ltb_spec (2 ^ 32 - 1) (zlen data)) as [|Hsize]; [done|]. intros E.
  assert (framed = le_bytes 4 (zlen data) ++ compress_block data) as -> by congruence. clear E.
  pose proof (zlen_nonneg data). pose proof (compress_block_valid data Hok) as Hv. pose proof (block_expansion _ _ _ Hv) as He. change (zlen []) with 0 in He.
  assert (drop 4 (le_bytes 4 (zlen data) ++ compress_block data) = compress_block data) as Hd by (apply drop_app_length'; by rewrite length_le_bytes).
  rewrite Hd. split; [done|]. unfold decompress_sized. rewrite zlen_app, zlen_le_bytes, Hd.
  rewrite (load_le_le_bytes 4) by (change (8 * Z.of_nat 4) with 32; lia). pose proof (block_nonempty _ _ _ Hv).
  destruct (Z.ltb_spec (Z.of_nat 4 + zlen (compress_block data)) 4); [lia|]. destruct (Z.ltb_spec (max_uncompressed_bytes limits) (zlen data)); [lia|].
  unfold decompress_block, max_possible. rewrite (proj2 (Z.ltb_ge _ _)) by (case_match; unfold U64_MAX in *; lia).
  rewrite (proj2 (Z.eqb_neq _ _)) by lia. rewrite (decompress_format _ _ Hv). by rewrite Z.eqb_refl.
Qed.


End roundtrip.

(** ** A decompressor of the format *)

Fixpoint read_extension (bs : list Z) (n : Z) : option (Z * list Z) :=
  match bs with
  | [] => None
  | b :: bs => if b =? 255 then read_extension bs (n + 255) else Some (n + b, bs)
  end.

Definition read_length (nibble : Z) (bs : list Z) : option (Z * list Z) :=
  if nibble =? 15 then read_extension bs 15 else Some (nibble, bs).

Fixpoint decode_block (fuel : nat) (bs out : list Z) : option (list Z) :=
  match fuel, bs with
  | S fuel, token :: bs =>
      '(lits, bs) ← read_length (token / 16) bs;
      let out := out ++ take (Z.to_nat lits) bs in
      match drop (Z.to_nat lits) bs with
      | [] => Some out
      | [_] => None
      | low :: high :: bs =>
          '(len, bs) ← read_length (token mod 16) bs;
          decode_block fuel bs (copy_match (Z.to_nat (len + 4)) (low + 256 * high) out)
      end
  | _, _ => None
  end.

Definition sample_decompress (block : list Z) (size : Z) : res (list Z) :=
  match decode_block (length block) block [] with Some out => Ok out | None => Err "malformed" end.

Lemma read_extension_written k n r rest :
  0 <= r < 255 -> read_extension ((replicate k 255 ++ [r]) ++ rest) n = Some (n + 255 * Z.of_nat k + r, rest).
Proof.
  intros Hr. revert n. induction k as [|k IH]; intros n; cbn [replicate app read_extension].
  - rewrite (proj2 (Z.eqb_neq r 255)) by lia. do 2 f_equal. lia.
  - cbn [Z.eqb Pos.eqb]. rewrite IH. do 2 f_equal. lia.
Qed.

Lemma read_length_written n rest : 0 <= n -> read_length (Z.min 15 n) (extension n ++ rest) = Some (n, rest).
Proof.
  intros Hn. unfold read_length, extension. destruct (Z.ltb_spec n 15).
  - rewrite (proj2 (Z.eqb_neq _ _)) by lia. cbn [app]. do 2 f_equal. lia.
  - rewrite Z.min_l by lia. cbn [Z.eqb Pos.eqb]. rewrite read_extension_written by dlia. do 2 f_equal. dlia.
Qed.

Lemma decode_block_format fuel block out whole :
  lz4_block block out whole -> (length block <= fuel)%nat -> decode_block fuel block out = Some whole.
Proof.
  intros H. revert fuel. induction H as [lits out|lits offset len rest out whole Ho1 Ho2 Hl H1 H2 H IH]; intros fuel Hf;
    (destruct fuel as [|fuel]; [cbn in Hf; lia|]); cbn [decode_block]; pose proof (zlen_nonneg lits).
  - replace (16 * Z.min 15 (zlen lits) / 16) with (Z.min 15 (zlen lits)) by dlia. rewrite read_length_written by done. cbn [mbind option_bind].
    unfold zlen. by rewrite Nat2Z.id, drop_all, take_ge by done.
  - set (token := _ + Z.min 15 (len - 4)). replace (token / 16) with (Z.min 15 (zlen lits)) by (subst token; dlia).
    replace (token mod 16) with (Z.min 15 (len - 4)) by (subst token; dlia). clearbody token.
    rewrite read_length_written by done. cbn [mbind option_bind]. unfold zlen. rewrite Nat2Z.id, drop_app_length, take_app_length.
    cbn [le_bytes app]. rewrite read_length_written by lia. cbn [mbind option_bind].
    replace (len - 4 + 4) with len by lia. replace (u8 offset + 256 * u8 (Z.shiftr offset 8)) with offset; [apply IH|].
    + cbn [length] in Hf. rewrite !length_app in Hf. lia.
    + unfold u8, wrap. rewrite Z.shiftr_div_pow2 by lia. dlia.
Qed.

Lemma sample_decompress_format block whole : lz4_block block [] whole -> sample_decompress block (zlen whole) = Ok whole.
Proof. intros H. unfold sample_decompress. by rewrite (decode_block_format _ _ _ _ H). Qed.

Definition sample_text : list Z := bytes_of_string "nanolance nanolance nanolance lance".

Lemma lz4_roundtrip_witness :
  exists framed, compress_sized sample_text = Ok framed /\ zlen framed < zlen sample_text /\
    decompress_sized sample_decompress initial_read_limits framed = Ok sample_text.
Proof.
  eexists. split; [vm_compute; reflexivity|]. split; [vm_compute; reflexivity|].
  eapply (lz4_roundtrip sample_decompress initial_read_limits sample_decompress_format sample_text).
  - apply (bool_decide_unpack _). vm_compute. exact I.
  - vm_compute. discriminate.
  - vm_compute. reflexivity.
Defined.

End Lz4Block.
