(* ===== verification/Bitpack.v ===== *)
(** * Bitpack: FastLanes blocks of 1024 values (src/encoding/values/bitpack.cpp)

    Both directions of the inline form (a block led by its bit width) and of the out-of-line form (the width in
    the descriptor). A value of [w] bytes is a word; the template parameter of the source is [w]. nanom's
    FastLanes kernels are parameters. *)

From S2P Require Import Prelude ReadSafety.

Module Bitpack.

(** [memcpy] from bytes to [n] words of [w] bytes, and back. *)
Fixpoint load_words (w n : nat) (bytes : list Z) : list Z :=
  match n with O => [] | S n => le_value (take w bytes) :: load_words w n (drop w bytes) end.

Definition store_words (w : nat) (words : list Z) : list Z := concat (le_bytes w <$> words).

(** ** The width of a block *)

Definition or_all (values : list Z) : Z := foldl Z.lor 0 values.

(** [while (max_value != 0) ++bits, max_value >>= 1] over 64 bits. *)
Fixpoint bits_loop (n : nat) (max_value : Z) : Z :=
  match n with
  | O => 0
  | S n => if max_value =? 0 then 0 else 1 + bits_loop n (Z.shiftr max_value 1)
  end.

Definition bit_width (src : list Z) (count : nat) (width_bytes : nat) : Z := bits_loop 64 (or_all (load_words width_bytes count src)).

(** The first values of a block of 1024, zero-padded. *)
Definition padded (values : list Z) : list Z := values ++ replicate (1024 - length values) 0.

(** ** nanom's kernels *)

Section kernels.
  (** For words of [w] bytes: the words a block packs to at a bit width, packing and unpacking. *)
  Context (packed_words_1024 : nat -> Z -> nat).
  Context (pack_1024 unpack_1024 : nat -> Z -> list Z -> list Z).

(** ** Inline blocks *)

Definition encode_block_typed (w : nat) (src : list Z) (count : nat) : list Z :=
  let width := bit_width src count w in
  le_bytes w width ++ store_words w (pack_1024 w width (padded (load_words w count src))).

Definition decode_block_typed (w : nat) (chunk : list Z) (num_values : Z) : res (list Z) :=
  if (length chunk <? w)%nat then Err "bitpacked chunk shorter than width header"
  else
    let width := u32 (load_le w chunk) in
    if Z.of_nat w * 8 <? width then Err "bitpacked chunk has invalid bit width"
    else
      let packed_words := packed_words_1024 w width in
      if negb (length chunk =? w * (1 + packed_words))%nat then Err "bitpacked chunk size does not match bit width"
      else if 1024 <? num_values then Err "bitpacked chunk value count exceeds FastLanes block size"
      else
        let values := unpack_1024 w width (load_words w packed_words (drop w chunk)) in
        Ok (take (Z.to_nat num_values * w) (store_words w values)).

(** The loop over the blocks of a series: [done] of [count] values are out. *)
Fixpoint series_loop (fuel : nat) (w : nat) (buffer : list Z) (count done : Z) : res (list Z) :=
  if count <=? done then Ok []
  else
    match fuel with
    | O => Err ("inline-bitpacked dictionary ends before its " +:+ pretty count +:+ " entries do")
    | S fuel =>
        if (length buffer <? w)%nat then Err ("inline-bitpacked dictionary ends before its " +:+ pretty count +:+ " entries do")
        else
          let width := u32 (load_le w buffer) in
          let buffer := drop w buffer in
          if Z.of_nat w * 8 <? width then Err ("inline-bitpacked dictionary block has invalid bit width " +:+ pretty width)
          else
            let packed_words := packed_words_1024 w width in
            if (length buffer <? packed_words * w)%nat then Err "inline-bitpacked dictionary block is truncated"
            else
              let values := unpack_1024 w width (load_words w packed_words buffer) in
              let take_ := Z.min 1024 (count - done) in
              rest ← series_loop fuel w (drop (packed_words * w) buffer) count (done + take_);
              Ok (take (Z.to_nat take_ * w) (store_words w values) ++ rest)
    end.

(** Every block takes a width word of the buffer, so there are at most as many as it has bytes. *)
Definition decode_series_typed (w : nat) (buffer : list Z) (count : Z) : res (list Z) := series_loop (length buffer) w buffer count 0.

(** ** Out of line *)

(** [n] whole blocks of [packed_words] words each. *)
Fixpoint unpack_blocks (n : nat) (w : nat) (width : Z) (packed_words : nat) (words : list Z) : list Z :=
  match n with
  | O => []
  | S n => unpack_1024 w width (take packed_words words) ++ unpack_blocks n w width packed_words (drop packed_words words)
  end.

Definition decode_out_of_line_typed (w : nat) (buffer : list Z) (count : nat) (width : Z) (what : string) : res (list Z) :=
  if Z.of_nat w * 8 <? width then Err (what +:+ " declares an unsupported width of " +:+ pretty width +:+ " bits")
  else if negb (length buffer mod w =? 0)%nat then Err (what +:+ " is not a whole number of " +:+ pretty (Z.of_nat w * 8) +:+ "-bit words")
  else
    let packed_words := packed_words_1024 w width in
    let words := (length buffer / w)%nat in
    let whole_blocks := (count / 1024)%nat in
    let tail := (count mod 1024)%nat in
    let full_words := (whole_blocks * packed_words)%nat in
    let tail_is_raw := negb (tail =? 0)%nat && (words =? full_words + tail)%nat in
    let expected_words := (if tail_is_raw then full_words + tail else full_words + (if (tail =? 0)%nat then 0 else packed_words))%nat in
    if negb (words =? expected_words)%nat then
      Err (what +:+ " is " +:+ pretty (zlen buffer) +:+ " bytes, expected " +:+ pretty (Z.of_nat (expected_words * w)) +:+ " for " +:+
           pretty (Z.of_nat count) +:+ " values at " +:+ pretty width +:+ " bits")
    else
      let all := load_words w words buffer in
      let rest := drop full_words all in
      Ok (store_words w (unpack_blocks whole_blocks w width packed_words all ++
            (if (tail =? 0)%nat then []
             else if tail_is_raw then take tail rest
             else take tail (unpack_1024 w width (take packed_words rest))))).

(** The blocks of [values], [n] of them. *)
Fixpoint pack_blocks (n : nat) (w : nat) (width : Z) (values : list Z) : list Z :=
  match n with
  | O => []
  | S n => pack_1024 w width (padded (take 1024 values)) ++ pack_blocks n w width (drop 1024 values)
  end.

Definition encode_out_of_line_typed (w : nat) (src : list Z) (count : nat) (width : Z) : list Z :=
  store_words w (pack_blocks ((count + 1023) / 1024)%nat w width (load_words w count src)).

(** ** The widths of values *)

(** The [switch] of the functions that take any other width for 8 bytes. *)
Definition lane_bytes (width_bytes : Z) : nat :=
  if width_bytes =? 1 then 1%nat else if width_bytes =? 2 then 2%nat else if width_bytes =? 4 then 4%nat else 8%nat.

Definition encode_block (src : list Z) (count : nat) (width_bytes : Z) : list Z :=
  encode_block_typed (lane_bytes width_bytes) src count.

Definition decode_block (chunk : list Z) (num_values bytes_per_value : Z) : res (list Z) :=
  decode_block_typed (lane_bytes bytes_per_value) chunk num_values.

Definition decode_out_of_line (buffer : list Z) (count : nat) (width bytes_per_value : Z) (what : string) : res (list Z) :=
  if bytes_per_value =? 1 then decode_out_of_line_typed 1 buffer count width what
  else if bytes_per_value =? 2 then decode_out_of_line_typed 2 buffer count width what
  else if bytes_per_value =? 4 then decode_out_of_line_typed 4 buffer count width what
  else if bytes_per_value =? 8 then decode_out_of_line_typed 8 buffer count width what
  else Err (what +:+ " has " +:+ pretty bytes_per_value +:+ "-byte values, which has no FastLanes kernel").

Definition decode_series (buffer : list Z) (count bytes_per_value : Z) : res (list Z) :=
  if bytes_per_value =? 1 then decode_series_typed 1 buffer count
  else if bytes_per_value =? 2 then decode_series_typed 2 buffer count
  else if bytes_per_value =? 4 then decode_series_typed 4 buffer count
  else if bytes_per_value =? 8 then decode_series_typed 8 buffer count
  else Err ("inline-bitpacked dictionary entries are " +:+ pretty bytes_per_value +:+ " bytes, which has no FastLanes kernel").

Definition encode_out_of_line (src : list Z) (count : nat) (width width_bytes : Z) : list Z :=
  encode_out_of_line_typed (lane_bytes width_bytes) src count width.

End kernels.

(** ** Words and bytes *)

Definition is_word (w : nat) (v : Z) : Prop := 0 <= v < 2 ^ (8 * Z.of_nat w).

Lemma store_words_app w a b : store_words w (a ++ b) = store_words w a ++ store_words w b.
Proof. unfold store_words. by rewrite fmap_app, concat_app. Qed.

Lemma length_store_words w vs : length (store_words w vs) = (length vs * w)%nat.
Proof. induction vs as [|v vs IH]; [done|]. unfold store_words in *. cbn [fmap list_fmap concat length]. rewrite length_app, length_le_bytes, IH. lia. Qed.

Lemma length_load_words w n bs : length (load_words w n bs) = n.
Proof. revert bs. induction n as [|n IH]; intros bs; [done|]. cbn. by rewrite IH. Qed.

Lemma load_words_range w n bs : bytes_ok bs -> Forall (is_word w) (load_words w n bs).
Proof.
  revert bs. induction n as [|n IH]; intros bs Hok; [constructor|]. cbn. constructor; [|by apply IH, Forall_drop].
  pose proof (le_value_range (take w bs) (Forall_take _ _ _ Hok)). unfold is_word, zlen in *. rewrite length_take in H.
  split; [lia|]. eapply Z.lt_le_trans; [apply H|]. apply Z.pow_le_mono_r; lia.
Qed.

Lemma load_store w n vs rest : length vs = n -> Forall (is_word w) vs -> load_words w n (store_words w vs ++ rest) = vs.
Proof.
  revert n. induction vs as [|v vs IH]; intros n <- Hr; [done|]. apply Forall_cons in Hr as [Hv Hr]. cbn [length load_words].
  unfold store_words. cbn [fmap list_fmap concat]. rewrite <- app_assoc, take_app_length', drop_app_length' by (by rewrite length_le_bytes).
  rewrite le_value_le_bytes by exact Hv. f_equal. by apply IH.
Qed.

Lemma store_load w n bs : bytes_ok bs -> (n * w <= length bs)%nat -> store_words w (load_words w n bs) = take (n * w) bs.
Proof.
  revert bs. induction n as [|n IH]; intros bs Hok Hlen; [done|]. cbn [load_words]. unfold store_words in *. cbn [fmap list_fmap concat].
  assert (length (take w bs) = w) as Hw by (rewrite length_take; lia).
  rewrite <- Hw at 1. rewrite le_bytes_le_value by (by apply Forall_take). rewrite IH; [| by apply Forall_drop | rewrite length_drop; lia].
  apply take_take_drop.
Qed.

Lemma load_words_app w n m bs : load_words w (n + m) bs = load_words w n bs ++ load_words w m (drop (n * w) bs).
Proof. revert bs. induction n as [|n IH]; intros bs; [done|]. cbn. rewrite IH, drop_drop. do 2 f_equal. Qed.

Lemma take_store_words w k vs : take (k * w) (store_words w vs) = store_words w (take k vs).
Proof.
  revert vs. induction k as [|k IH]; intros [|v vs]; [done | done | by destruct (S k * w)%nat|]. unfold store_words in *. cbn [fmap list_fmap concat take Nat.mul].
  rewrite take_app_add' by (by rewrite length_le_bytes). by rewrite IH.
Qed.

(** ** The width is the least that holds every value *)

Lemma or_all_testbit_from vs a i : Z.testbit (foldl Z.lor a vs) i = Z.testbit a i || existsb (fun v => Z.testbit v i) vs.
Proof.
  revert a. induction vs as [|v vs IH]; intros a; cbn [foldl existsb]; [by rewrite orb_false_r|]. by rewrite IH, Z.lor_spec, orb_assoc.
Qed.

Lemma below_pow2_bits v k : 0 <= v -> 0 <= k -> v < 2 ^ k <-> forall i, k <= i -> Z.testbit v i = false.
Proof.
  intros Hv Hk. split.
  - intros Hlt i Hi. rewrite <- (Z.mod_small v (2 ^ k)) by lia. by rewrite Z.mod_pow2_bits_high by lia.
  - intros Hb. assert (v = v mod 2 ^ k) as ->; [|apply Z.mod_pos_bound; lia].
    apply Z.bits_inj'. intros i Hi. destruct (Z.lt_ge_cases i k); [by rewrite Z.mod_pow2_bits_low by lia|].
    rewrite Z.mod_pow2_bits_high by lia. by apply Hb.
Qed.

Lemma or_all_range vs : Forall (fun v => 0 <= v) vs -> 0 <= or_all vs.
Proof.
  unfold or_all. assert (forall a, 0 <= a -> Forall (fun v => 0 <= v) vs -> 0 <= foldl Z.lor a vs) as H; [|by apply H].
  induction vs as [|v vs IH]; intros a Ha Hv; [done|]. apply Forall_cons in Hv as [Hv Hvs]. cbn. apply IH; [|done]. apply Z.lor_nonneg. lia.
Qed.

Lemma or_all_bound vs k : 0 <= k -> Forall (fun v => 0 <= v) vs -> or_all vs < 2 ^ k <-> Forall (fun v => 0 <= v < 2 ^ k) vs.
Proof.
  intros Hk Hv. rewrite below_pow2_bits by (done || by apply or_all_range). unfold or_all. split.
  - intros Hb. apply Forall_forall. intros v Hin. pose proof (proj1 (Forall_forall _ _) Hv v Hin). split; [done|].
    apply below_pow2_bits; [done | done|]. intros i Hi. specialize (Hb i Hi). rewrite or_all_testbit_from, Z.bits_0 in Hb.
    apply orb_false_elim in Hb as [_ Hb]. destruct (Z.testbit v i) eqn:E; [|done].
    assert (existsb (fun v => Z.testbit v i) vs = true) as Ht; [|congruence]. apply existsb_exists. exists v. split; [by apply list_elem_of_In | done].
  - intros Hall i Hi. rewrite or_all_testbit_from, Z.bits_0. cbn [orb]. destruct (existsb _ vs) eqn:E; [|done].
    apply existsb_exists in E as (v & Hin%list_elem_of_In & Ht). pose proof (proj1 (Forall_forall _ _) Hall v Hin) as Hr.
    rewrite (proj1 (below_pow2_bits v k (proj1 Hr) Hk) (proj2 Hr) i Hi) in Ht. done.
Qed.

Lemma bits_loop_spec n v : 0 <= v < 2 ^ Z.of_nat n -> 0 <= bits_loop n v <= Z.of_nat n /\ forall k, 0 <= k -> bits_loop n v <= k <-> v < 2 ^ k.
Proof.
  revert v. induction n as [|n IH]; intros v Hv; cbn [bits_loop].
  - change (2 ^ Z.of_nat 0) with 1 in Hv. split; [lia|]. intros k Hk. pose proof (Z.pow_pos_nonneg 2 k). lia.
  - rewrite Nat2Z.inj_succ, Z.pow_succ_r in Hv by lia. destruct (Z.eqb_spec v 0) as [->|Hne].
    + split; [lia|]. intros k Hk. pose proof (Z.pow_pos_nonneg 2 k). lia.
    + destruct (IH (Z.shiftr v 1)) as (Hr & Hk); [rewrite Z.shiftr_div_pow2 by lia; change (2 ^ 1) with 2; dlia|].
      split; [lia|]. intros k Hk0. rewrite Z.shiftr_div_pow2 in * by lia. change (2 ^ 1) with 2 in *.
      destruct (Z.eq_dec k 0) as [->|]; [change (2 ^ 0) with 1; lia|]. specialize (Hk (k - 1) ltac:(lia)).
      replace (2 ^ k) with (2 * 2 ^ (k - 1)) by (rewrite <- Z.pow_succ_r by lia; f_equal; lia). split; intros; [|apply Z.le_trans with (1 + (k - 1)); [|lia]].
      * assert (v / 2 < 2 ^ (k - 1)) by (apply Hk; lia). dlia.
      * apply Zplus_le_compat_l, Hk. dlia.
Qed.

Lemma bit_width_spec src count w :
  bytes_ok src -> (w <= 8)%nat ->
  0 <= bit_width src count w <= 8 * Z.of_nat w /\
  forall k, 0 <= k -> bit_width src count w <= k <-> Forall (fun v => 0 <= v < 2 ^ k) (load_words w count src).
Proof.
  intros Hok Hw. unfold bit_width. pose proof (load_words_range w count src Hok) as Hr.
  assert (Forall (fun v => 0 <= v) (load_words w count src)) as Hnn by (eapply Forall_impl; [exact Hr|]; unfold is_word; intros; lia).
  assert (or_all (load_words w count src) < 2 ^ (8 * Z.of_nat w)) as Hb by (apply or_all_bound; [lia | done | exact Hr]).
  destruct (bits_loop_spec 64 (or_all (load_words w count src))) as (H1 & H2).
  { split; [by apply or_all_range|]. eapply Z.lt_le_trans; [exact Hb|]. apply Z.pow_le_mono_r; lia. }
  split.
  - split; [lia|]. apply H2; [lia | done].
  - intros k Hk. rewrite (H2 k Hk). by apply or_all_bound.
Qed.

(** ** What FastLanes promises *)

(** The kernels for words of 1, 2, 4 or 8 bytes and every width up to the word's: a block of 1024 values below
    [2 ^ width] packs to its number of words and unpacks to itself. *)
Class FastLanes (packed_words_1024 : nat -> Z -> nat) (pack_1024 unpack_1024 : nat -> Z -> list Z -> list Z) : Prop := {
  packed_length : forall w width values,
    (w ∈ [1; 2; 4; 8])%nat -> 0 <= width <= 8 * Z.of_nat w -> length values = 1024%nat ->
    length (pack_1024 w width values) = packed_words_1024 w width;
  packed_range : forall w width values,
    (w ∈ [1; 2; 4; 8])%nat -> 0 <= width <= 8 * Z.of_nat w -> length values = 1024%nat -> Forall (is_word w) (pack_1024 w width values);
  unpack_pack : forall w width values,
    (w ∈ [1; 2; 4; 8])%nat -> 0 <= width <= 8 * Z.of_nat w -> length values = 1024%nat -> Forall (fun v => 0 <= v < 2 ^ width) values ->
    unpack_1024 w width (pack_1024 w width values) = values;
  unpack_length : forall w width words, length (unpack_1024 w width words) = 1024%nat
}.

Section roundtrips.
  Context (packed_words_1024 : nat -> Z -> nat) (pack_1024 unpack_1024 : nat -> Z -> list Z -> list Z).
  Context `{!FastLanes packed_words_1024 pack_1024 unpack_1024}.

Lemma length_padded values : (length values <= 1024)%nat -> length (padded values) = 1024%nat.
Proof. intros. unfold padded. rewrite length_app, length_replicate. lia. Qed.

Lemma padded_below values k : 0 <= k -> Forall (fun v => 0 <= v < 2 ^ k) values -> Forall (fun v => 0 <= v < 2 ^ k) (padded values).
Proof. intros Hk Hv. apply Forall_app. split; [done|]. apply Forall_replicate. pose proof (Z.pow_pos_nonneg 2 k). lia. Qed.

Lemma lane_bytes_width w : (w ∈ [1; 2; 4; 8])%nat -> lane_bytes (Z.of_nat w) = w /\ (1 <= w <= 8)%nat.
Proof. rewrite !elem_of_cons, elem_of_nil. intros [->|[->|[->|[->|[]]]]]; split; (done || lia). Qed.

(** A block's header and body, as the decoders read them. *)
Lemma encoded_block w src count rest (b := encode_block_typed pack_1024 w src count) :
  (w ∈ [1; 2; 4; 8])%nat -> bytes_ok src -> (count <= 1024)%nat ->
  let width := bit_width src count w in
  (Z.of_nat w * 8 <? width) = false /\ u32 (load_le w (b ++ rest)) = width /\
  length b = (w * (1 + packed_words_1024 w width))%nat /\ drop (length b) (b ++ rest) = rest /\
  unpack_1024 w width (load_words w (packed_words_1024 w width) (drop w (b ++ rest))) = padded (load_words w count src).
Proof.
  intros Hw Hok Hc. destruct (lane_bytes_width w Hw) as [_ Hw8]. destruct (bit_width_spec src count w Hok ltac:(lia)) as (Hr & Hs).
  set (width := bit_width src count w) in *. cbv zeta. assert (length (padded (load_words w count src)) = 1024%nat) as Hlen by (apply length_padded; by rewrite length_load_words).
  assert (width < 2 ^ (8 * Z.of_nat w)) as Hfit.
  { apply Z.le_lt_trans with (8 * Z.of_nat w); [lia|]. apply Z.pow_gt_lin_r; lia. }
  subst b. unfold encode_block_typed. fold width. rewrite <- app_assoc. split_and!.
  - apply Z.ltb_ge. lia.
  - unfold load_le. rewrite take_app_length' by (by rewrite length_le_bytes). rewrite le_value_le_bytes by lia. apply u32_small. unfold is_u32. nia.
  - rewrite length_app, length_le_bytes, length_store_words, packed_length by (done || lia). lia.
  - rewrite app_assoc, drop_app_length. done.
  - rewrite drop_app_length' by (by rewrite length_le_bytes). rewrite load_store; [|by rewrite packed_length by (done || lia) | apply packed_range; (done || lia)].
    apply unpack_pack; [done | lia | done|]. apply padded_below; [lia|]. apply Hs; lia.
Qed.

Lemma take_padded w src count n :
  bytes_ok src -> length src = (count * w)%nat -> (n <= count)%nat ->
  take (n * w) (store_words w (padded (load_words w count src))) = take (n * w) src.
Proof.
  intros Hok Hlen Hn. unfold padded. rewrite store_words_app, store_load by (done || lia). rewrite take_app_le; [by rewrite take_take, Nat.min_l by nia|].
  rewrite length_take. nia.
Qed.

Lemma decode_encode_block w src count n :
  (w ∈ [1; 2; 4; 8])%nat -> bytes_ok src -> length src = (count * w)%nat -> (count <= 1024)%nat -> (n <= count)%nat ->
  decode_block packed_words_1024 unpack_1024 (encode_block pack_1024 src count (Z.of_nat w)) (Z.of_nat n) (Z.of_nat w) = Ok (take (n * w) src).
Proof.
  intros Hw Hok Hlen Hc Hn. destruct (lane_bytes_width w Hw) as [El Hw8]. unfold decode_block, encode_block, decode_block_typed. rewrite El.
  destruct (encoded_block w src count [] Hw Hok Hc) as (H1 & H2 & H3 & _ & H5). rewrite app_nil_r in *.
  rewrite (proj2 (Nat.ltb_ge _ _)) by (rewrite H3; nia). cbv zeta. rewrite H2, H1, H3, Nat.eqb_refl, H5. cbn [negb].
  rewrite (proj2 (Z.ltb_ge _ _)) by lia. rewrite Nat2Z.id. by rewrite take_padded.
Qed.

(** The blocks of a series of [n] blocks, all but the last of 1024 values. *)
Fixpoint encode_series (n : nat) (w : nat) (src : list Z) (count : nat) : list Z :=
  match n with
  | O => []
  | S n => encode_block pack_1024 (take (1024 * w) src) (Nat.min 1024 count) (Z.of_nat w) ++ encode_series n w (drop (1024 * w) src) (count - 1024)
  end.

Lemma series_loop_encoded w n src count fuel done :
  (w ∈ [1; 2; 4; 8])%nat -> bytes_ok src -> length src = (count * w)%nat -> n = ((count + 1023) / 1024)%nat -> (n <= fuel)%nat ->
  series_loop packed_words_1024 unpack_1024 fuel w (encode_series n w src count) (Z.of_nat done + Z.of_nat count) (Z.of_nat done) = Ok src.
Proof.
  intros Hw Hok. destruct (lane_bytes_width w Hw) as [El Hw8].
  revert src count fuel done Hok. induction n as [|n IH]; intros src count fuel done Hok Hlen Hn Hf.
  { assert (count = 0)%nat as -> by (apply (f_equal Z.of_nat) in Hn; rewrite Nat2Z.inj_div in Hn; dlia). destruct src; [|done].
    destruct fuel; cbn [series_loop]; by rewrite (proj2 (Z.leb_le _ _)) by lia. }
  assert (0 < count)%nat as Hpos by (destruct count; [done | lia]). destruct fuel as [|fuel]; [lia|]. cbn [series_loop encode_series].
  rewrite (proj2 (Z.leb_gt _ _)) by lia. set (c := Nat.min 1024 count). assert (length (take (1024 * w) src) = c * w)%nat as Hc by (rewrite length_take; nia).
  unfold encode_block. rewrite El.
  destruct (encoded_block w (take (1024 * w) src) c (encode_series n w (drop (1024 * w) src) (count - 1024)) Hw) as (H1 & H2 & H3 & H4 & H5);
    [by apply Forall_take | lia|]. set (b := encode_block_typed _ _ _ _) in *.
  rewrite (proj2 (Nat.ltb_ge _ _)) by (rewrite length_app, H3; nia). cbv zeta. rewrite H2, H1, H5. set (width := bit_width _ _ _) in *.
  rewrite (proj2 (Nat.ltb_ge _ _)) by (rewrite length_drop, length_app, H3; nia). rewrite drop_drop.
  replace (w + packed_words_1024 w width * w)%nat with (length b) by (rewrite H3; lia). rewrite H4.
  replace (Z.of_nat done + Z.of_nat count - Z.of_nat done) with (Z.of_nat count) by lia.
  replace (Z.min 1024 (Z.of_nat count)) with (Z.of_nat c) by lia. rewrite Nat2Z.id, take_padded by (try done; by apply Forall_take).
  rewrite <- Hc, take_ge by lia.
  specialize (IH (drop (1024 * w) src) (count - 1024)%nat fuel (done + c)%nat (Forall_drop _ _ _ Hok)).
  replace (Z.of_nat done + Z.of_nat c) with (Z.of_nat (done + c)) by lia.
  replace (Z.of_nat done + Z.of_nat count) with (Z.of_nat (done + c) + Z.of_nat (count - 1024)) by lia.
  unfold mbind, res_bind. rewrite IH; [by rewrite take_drop | rewrite length_drop; nia | | lia].
  apply Nat2Z.inj. apply (f_equal Z.of_nat) in Hn. rewrite Nat2Z.inj_div in *. dlia.
Qed.

Lemma encode_series_length w n src count : (w ∈ [1; 2; 4; 8])%nat -> bytes_ok src -> (n <= length (encode_series n w src count))%nat.
Proof.
  intros Hw. destruct (lane_bytes_width w Hw) as [El Hw8]. revert src count. induction n as [|n IH]; intros src count Hok; cbn [encode_series]; [lia|].
  unfold encode_block. rewrite El, length_app. specialize (IH (drop (1024 * w) src) (count - 1024)%nat (Forall_drop _ _ _ Hok)).
  destruct (encoded_block w (take (1024 * w) src) (Nat.min 1024 count) [] Hw) as (_ & _ & H3 & _); [by apply Forall_take | lia|]. rewrite H3. nia.
Qed.

(** ** Out of line *)

Section out_of_line.
  Context (w : nat) (width : Z) (Hw : (w ∈ [1; 2; 4; 8])%nat) (Hwidth : 0 <= width <= 8 * Z.of_nat w).

#[local] Notation pw := (packed_words_1024 w width).

Lemma pack_blocks_split m k values :
  (m * 1024 <= length values)%nat -> Forall (fun v => 0 <= v < 2 ^ width) values ->
  let words := pack_blocks pack_1024 (m + k) w width values in
  unpack_blocks unpack_1024 m w width pw words = take (m * 1024) values /\
  drop (m * pw) words = pack_blocks pack_1024 k w width (drop (m * 1024) values).
Proof.
  revert values. induction m as [|m IH]; intros values Hlen Hv; [done|]. cbn [Nat.add pack_blocks unpack_blocks Nat.mul]. cbv zeta.
  assert (length (take 1024 values) = 1024%nat) as Ht by (rewrite length_take; lia).
  replace (padded (take 1024 values)) with (take 1024 values) by (unfold padded; by rewrite Ht, app_nil_r).
  assert (length (pack_1024 w width (take 1024 values)) = pw) as Hp by (by apply packed_length).
  rewrite take_app_length', drop_app_length' by done. rewrite unpack_pack by (done || by apply Forall_take).
  destruct (IH (drop 1024 values)) as (H1 & H2); [rewrite length_drop; lia | by apply Forall_drop|]. cbv zeta in H1, H2. split.
  - rewrite H1. apply take_take_drop.
  - rewrite <- drop_drop, drop_app_length' by done. by rewrite H2, drop_drop.
Qed.

Lemma length_pack_blocks n values : length (pack_blocks pack_1024 n w width values) = (n * pw)%nat.
Proof.
  revert values. induction n as [|n IH]; intros values; [done|]. cbn [pack_blocks]. rewrite length_app, IH, packed_length; [lia | done | done|].
  apply length_padded. rewrite length_take. lia.
Qed.

Lemma pack_blocks_range n values : Forall (is_word w) (pack_blocks pack_1024 n w width values).
Proof.
  revert values. induction n as [|n IH]; intros values; [constructor|]. cbn [pack_blocks]. apply Forall_app. split; [|apply IH].
  apply packed_range; [done | done|]. apply length_padded. rewrite length_take. lia.
Qed.

Lemma decode_encode_out_of_line src count what :
  bytes_ok src -> length src = (count * w)%nat -> bit_width src count w <= width -> (count mod 1024 = 0 \/ count mod 1024 <> pw)%nat ->
  decode_out_of_line packed_words_1024 unpack_1024 (encode_out_of_line pack_1024 src count width (Z.of_nat w)) count width (Z.of_nat w) what = Ok src.
Proof.
  intros Hok Hlen Hfit Hamb. destruct (lane_bytes_width w Hw) as [El Hw8].
  assert (forall b c wd, decode_out_of_line packed_words_1024 unpack_1024 b c wd (Z.of_nat w) what = decode_out_of_line_typed packed_words_1024 unpack_1024 w b c wd what) as ->.
  { clear -Hw. rewrite !elem_of_cons, elem_of_nil in Hw. destruct Hw as [->|[->|[->|[->|[]]]]]; done. }
  unfold encode_out_of_line. rewrite El. unfold encode_out_of_line_typed, decode_out_of_line_typed.
  set (values := load_words w count src). assert (length values = count) as Hvl by apply length_load_words.
  assert (Forall (fun v => 0 <= v < 2 ^ width) values) as Hv by (apply (bit_width_spec src count w Hok ltac:(lia)); lia).
  set (whole := (count / 1024)%nat). set (tail := (count mod 1024)%nat) in *. pose proof (Nat.div_mod_eq count 1024) as Hdm. fold whole tail in Hdm.
  assert (tail < 1024)%nat as Htail by (apply Nat.mod_upper_bound; lia).
  replace ((count + 1023) / 1024)%nat with (whole + (if (tail =? 0)%nat then 0 else 1))%nat
    by (apply Nat2Z.inj; rewrite Nat2Z.inj_div; destruct (Nat.eqb_spec tail 0); dlia).
  set (k := (if (tail =? 0)%nat then 0 else 1)%nat). set (packed := pack_blocks pack_1024 (whole + k) w width values).
  assert (length packed = (whole + k) * pw)%nat as Hpl by apply length_pack_blocks.
  rewrite (proj2 (Z.ltb_ge _ _)) by lia. rewrite length_store_words, Nat.Div0.mod_mul, Nat.div_mul by lia. cbn [negb Nat.eqb]. cbv zeta. rewrite Hpl.
  assert (negb (tail =? 0)%nat && ((whole + k) * pw =? whole * pw + tail)%nat = false) as ->.
  { subst k. destruct (Nat.eqb_spec tail 0) as [|Hne]; [done|]. cbn [negb andb]. apply Nat.eqb_neq. destruct Hamb; nia. }
  rewrite (proj2 (Nat.eqb_eq ((whole + k) * pw) (whole * pw + _))) by (subst k; destruct (tail =? 0)%nat; lia). cbn [negb].
  assert (load_words w ((whole + k) * pw) (store_words w packed) = packed) as ->.
  { rewrite <- (app_nil_r (store_words w packed)). apply load_store; [done | apply pack_blocks_range]. }
  destruct (pack_blocks_split whole k values ltac:(lia) Hv) as (H1 & H2). cbv zeta in H1, H2. fold packed in H1, H2. rewrite H1, H2.
  assert (take (whole * 1024) values ++ drop (whole * 1024) values = values) as Hsplit by apply take_drop.
  assert (length (drop (whole * 1024) values) = tail) as Hrest by (rewrite length_drop; lia).
  assert (Ok (store_words w values) = Ok src) as Hend by (subst values; rewrite store_load, take_ge by (done || lia); done).
  subst k. destruct (Nat.eqb_spec tail 0) as [E|Hne].
  - rewrite E in Hrest. apply nil_length_inv in Hrest. rewrite Hrest in Hsplit. by rewrite Hsplit.
  - cbn [pack_blocks]. rewrite app_nil_r. set (rest := drop (whole * 1024) values) in *. rewrite (take_ge rest 1024) by lia.
    rewrite (take_ge (pack_1024 _ _ _)) by (rewrite packed_length by (done || apply length_padded; lia); lia).
    rewrite unpack_pack by (done || (apply length_padded; lia) || (apply padded_below; [lia | by apply Forall_drop])).
    unfold padded. rewrite take_app_length' by done. by rewrite Hsplit.
Qed.

End out_of_line.

(** ** The decoders give what they were asked for *)

Lemma series_loop_length fuel w buffer count done out :
  0 <= done -> series_loop packed_words_1024 unpack_1024 fuel w buffer count done = Ok out -> length out = (Z.to_nat (count - done) * w)%nat.
Proof.
  revert buffer done out. induction fuel as [|fuel IH]; intros buffer done out Hd; cbn [series_loop].
  { destruct (Z.leb_spec count done); [|done]. intros [= <-]. replace (Z.to_nat (count - done)) with 0%nat by lia. done. }
  destruct (Z.leb_spec count done); [intros [= <-]; replace (Z.to_nat (count - done)) with 0%nat by lia; done|].
  destruct (_ <? w)%nat; [done|]. destruct (_ <? u32 _); [done|]. destruct (_ <? _)%nat; [done|]. unfold mbind, res_bind.
  destruct (series_loop _ _ fuel _ _ _ _) as [rest|] eqn:E; [|done]. intros [= <-]. apply IH in E; [|lia].
  rewrite length_app, length_take, length_store_words, unpack_length, E.
  set (t := Z.min 1024 (count - done)). assert (Z.to_nat (count - done) = Z.to_nat t + Z.to_nat (count - (done + t)))%nat as -> by lia. nia.
Qed.

Lemma decode_series_length w buffer count out : 0 <= count -> decode_series packed_words_1024 unpack_1024 buffer count w = Ok out -> zlen out = count * w.
Proof.
  intros Hc. unfold decode_series, decode_series_typed.
  repeat (match goal with |- (if ?b =? ?n then _ else _) = _ -> _ => destruct (Z.eqb_spec b n) as [->|] end;
    [intros E%series_loop_length; [unfold zlen; rewrite E, Z.sub_0_r; lia | done]|]). done.
Qed.

Lemma unpack_blocks_length n w width pw words : length (unpack_blocks unpack_1024 n w width pw words) = (n * 1024)%nat.
Proof. revert words. induction n as [|n IH]; intros words; [done|]. cbn [unpack_blocks]. rewrite length_app, unpack_length, IH. lia. Qed.

Lemma out_of_line_typed_length w buffer count width what out :
  (0 < w)%nat -> decode_out_of_line_typed packed_words_1024 unpack_1024 w buffer count width what = Ok out -> length out = (count * w)%nat.
Proof.
  intros Hw. unfold decode_out_of_line_typed. destruct (_ <? width); [done|]. destruct (negb (_ mod w =? 0)%nat); [done|].
  set (pw := packed_words_1024 w width). set (words := (length buffer / w)%nat). set (whole := (count / 1024)%nat). set (tail := (count mod 1024)%nat).
  pose proof (Nat.div_mod_eq count 1024) as Hdm. fold whole tail in Hdm. assert (tail < 1024)%nat as Ht by (apply Nat.mod_upper_bound; lia).
  destruct (negb (tail =? 0)%nat && (words =? whole * pw + tail)%nat) eqn:Eraw;
    match goal with |- (if ?b then _ else _) = _ -> _ => destruct b end; try done; intros [= <-];
    rewrite length_store_words, length_app, unpack_blocks_length; destruct (Nat.eqb_spec tail 0) as [E|]; cbn [length negb] in *; try done; try nia.
  - rewrite length_take, length_drop, length_load_words. apply andb_true_iff in Eraw as [_ Eraw%Nat.eqb_eq]. nia.
  - rewrite length_take, unpack_length. nia.
Qed.

Lemma decode_out_of_line_length w buffer count width what out :
  decode_out_of_line packed_words_1024 unpack_1024 buffer count width w what = Ok out -> zlen out = Z.of_nat count * w.
Proof.
  unfold decode_out_of_line.
  repeat (match goal with |- (if ?b =? ?n then _ else _) = _ -> _ => destruct (Z.eqb_spec b n) as [->|] end;
    [intros E%out_of_line_typed_length; [unfold zlen; rewrite E; lia | lia]|]). done.
Qed.

(** C30: (roundtrip): bit-packed values of every width are read back: any leading values of an inline block, a series
    of inline blocks each at the least width that holds its values, and an out-of-line buffer at any width that
    holds them all, where its last block is not as long packed as raw (the case the writer refuses, since the
    reader tells the two apart by the length alone). *)
Theorem bitpack_roundtrip w src count :
  (w ∈ [1; 2; 4; 8])%nat -> bytes_ok src -> length src = (count * w)%nat ->
  ((count <= 1024)%nat -> forall n, (n <= count)%nat ->
    decode_block packed_words_1024 unpack_1024 (encode_block pack_1024 src count (Z.of_nat w)) (Z.of_nat n) (Z.of_nat w) = Ok (take (n * w) src)) /\
  decode_series packed_words_1024 unpack_1024 (encode_series ((count + 1023) / 1024)%nat w src count) (Z.of_nat count) (Z.of_nat w) = Ok src /\
  (forall width what, bit_width src count w <= width <= 8 * Z.of_nat w -> (count mod 1024 = 0 \/ count mod 1024 <> packed_words_1024 w width)%nat ->
    decode_out_of_line packed_words_1024 unpack_1024 (encode_out_of_line pack_1024 src count width (Z.of_nat w)) count width (Z.of_nat w) what = Ok src).
Proof.
  intros Hw Hok Hlen. destruct (lane_bytes_width w Hw) as [_ Hw8]. split_and!.
  - intros Hc n Hn. by apply decode_encode_block.
  - pose proof (series_loop_encoded w _ src count (length (encode_series ((count + 1023) / 1024)%nat w src count)) 0 Hw Hok Hlen eq_refl
      (encode_series_length _ _ _ _ Hw Hok)) as H. change (Z.of_nat 0) with 0 in H. rewrite Z.add_0_l in H.
    clear -Hw H. rewrite !elem_of_cons, elem_of_nil in Hw. destruct Hw as [->|[->|[->|[->|[]]]]]; exact H.
  - intros width what Hwidth Hamb. destruct (bit_width_spec src count w Hok ltac:(lia)) as ([H0 _] & _). apply decode_encode_out_of_line; (done || lia).
Qed.

End roundtrips.

(** ** Kernels that keep the promise: a block as one number, its values and its words the digits in two bases *)

Fixpoint digits (b : Z) (n : nat) (v : Z) : list Z := match n with O => [] | S n => v mod b :: digits b n (v / b) end.
Fixpoint number (b : Z) (ds : list Z) : Z := match ds with [] => 0 | d :: ds => d + b * number b ds end.

Lemma length_digits b n v : length (digits b n v) = n.
Proof. revert v. induction n as [|n IH]; intros v; [done|]. cbn. by rewrite IH. Qed.

Lemma digits_range b n v : 0 < b -> Forall (fun d => 0 <= d < b) (digits b n v).
Proof. intros Hb. revert v. induction n as [|n IH]; intros v; [constructor|]. cbn. constructor; [by apply Z.mod_pos_bound | apply IH]. Qed.

Lemma number_digits b n v : 0 < b -> 0 <= v < b ^ Z.of_nat n -> number b (digits b n v) = v.
Proof.
  intros Hb. revert v. induction n as [|n IH]; intros v Hv; cbn [digits number]; [change (b ^ Z.of_nat 0) with 1 in Hv; lia|].
  rewrite Nat2Z.inj_succ, Z.pow_succ_r in Hv by lia. rewrite IH; [pose proof (Z.div_mod v b); lia|]. split; [apply Z.div_pos; lia|].
  apply Z.div_lt_upper_bound; lia.
Qed.

Lemma number_range b ds : 0 < b -> Forall (fun d => 0 <= d < b) ds -> 0 <= number b ds < b ^ zlen ds.
Proof.
  intros Hb. induction 1 as [|d ds Hd _ IH]; [change (zlen (@nil Z)) with 0; cbn; lia|]. rewrite zlen_cons, Z.add_1_l, Z.pow_succ_r by apply zlen_nonneg. cbn [number]. nia.
Qed.

Lemma digits_number b ds : 0 < b -> Forall (fun d => 0 <= d < b) ds -> digits b (length ds) (number b ds) = ds.
Proof.
  intros Hb. induction 1 as [|d ds Hd _ IH]; [done|]. cbn [length digits number]. rewrite (Z.mul_comm b), Z.mod_add, Z.mod_small by lia.
  rewrite Z.div_add, Z.div_small, Z.add_0_l by lia. by rewrite IH.
Qed.

Definition sample_packed_words (w : nat) (width : Z) : nat := Z.to_nat (1024 * width / (8 * Z.of_nat w)).
Definition sample_pack (w : nat) (width : Z) (values : list Z) : list Z :=
  digits (2 ^ (8 * Z.of_nat w)) (sample_packed_words w width) (number (2 ^ width) values).
Definition sample_unpack (w : nat) (width : Z) (words : list Z) : list Z := digits (2 ^ width) 1024 (number (2 ^ (8 * Z.of_nat w)) words).

#[global] Instance sample_fastlanes : FastLanes sample_packed_words sample_pack sample_unpack.
Proof.
  split; intros w width values; [intros Hw Hwidth Hlen; destruct (lane_bytes_width w Hw) as [_ Hw8].. | apply length_digits].
  - apply length_digits.
  - apply digits_range. apply Z.pow_pos_nonneg; lia.
  - intros Hv. unfold sample_unpack, sample_pack. rewrite number_digits.
    + rewrite <- Hlen. apply digits_number; [apply Z.pow_pos_nonneg; lia | done].
    + apply Z.pow_pos_nonneg; lia.
    + pose proof (number_range (2 ^ width) values ltac:(apply Z.pow_pos_nonneg; lia) Hv) as Hr. unfold zlen in Hr. rewrite Hlen in Hr.
      replace ((2 ^ (8 * Z.of_nat w)) ^ Z.of_nat (sample_packed_words w width)) with ((2 ^ width) ^ Z.of_nat 1024); [done|].
      rewrite <- !Z.pow_mul_r by lia. f_equal. unfold sample_packed_words. rewrite Z2Nat.id by (apply Z.div_pos; lia).
      clear -Hw. rewrite !elem_of_cons, elem_of_nil in Hw. destruct Hw as [->|[->|[->|[->|[]]]]]; change (Z.of_nat 1024) with 1024; dlia.
Qed.

(** Three 16-bit values: 5, 1000 and 0. *)
Lemma bitpack_roundtrip_witness :
  bit_width [5; 0; 232; 3; 0; 0] 3 2 = 10 /\
  decode_out_of_line sample_packed_words sample_unpack (encode_out_of_line sample_pack [5; 0; 232; 3; 0; 0] 3 10 2) 3 10 2 "levels" = Ok [5; 0; 232; 3; 0; 0].
Proof.
  split; [vm_compute; reflexivity|].
  apply (bitpack_roundtrip sample_packed_words sample_pack sample_unpack 2 [5; 0; 232; 3; 0; 0] 3).
  - right. left.
  - apply (bool_decide_unpack _). vm_compute. exact I.
  - reflexivity.
  - vm_compute. split; discriminate.
  - right. vm_compute. discriminate.
Defined.

End Bitpack.
