(* ===== verification/MiniBlock.v ===== *)
(** * MiniBlock: the framing of mini-block pages (src/encoding/layout/miniblock.hpp and .cpp)

    A page is chunks back to back, each a header of sizes and its padded buffers, and a metadata buffer of one
    word per chunk. The writer (one shape) and the reader (any shape, untrusted bytes). *)

From S2P Require Import Prelude ReadSafety.

Module MiniBlock.

Definition kAlignment : Z := 8.
Definition kFillByte : Z := 254.

Definition align (bytes : Z) : Z := Z.land (u64 (bytes + kAlignment - 1)) (u64 (Z.lnot (kAlignment - 1))).

(** ** Writing *)

Definition put_le16 (v : Z) : list Z := [u8 (Z.land v 255); u8 (Z.land (Z.shiftr v 8) 255)].
Definition put_le32 (v : Z) : list Z := put_le16 (Z.land v 65535) ++ put_le16 (Z.land (Z.shiftr v 16) 65535).

Definition pad (out : list Z) : list Z := out ++ replicate (Z.to_nat (align (zlen out) - zlen out)) kFillByte.

Definition chunk_header (num_levels def_bytes : Z) (buffer_sizes : list Z) : list Z :=
  pad (put_le16 (if def_bytes =? 0 then 0 else num_levels) ++ (if def_bytes =? 0 then [] else put_le16 def_bytes) ++ concat (put_le32 <$> buffer_sizes)).

Definition chunk_bytes (def_bytes : Z) (buffer_sizes : list Z) : Z :=
  foldl (fun total size => total + align size)
    (align (2 + (if def_bytes =? 0 then 0 else 2) + zlen buffer_sizes * 4) + align def_bytes) buffer_sizes.

Definition append_chunk (out : list Z) (num_levels : Z) (def : list Z) (buffers : list (list Z)) : list Z :=
  let out := out ++ chunk_header num_levels (zlen def) (zlen <$> buffers) in
  let out := match def with [] => out | _ => pad (out ++ def) end in
  foldl (fun out b => pad (out ++ b)) out buffers.

(** [for (v = values; v > 1; v >>= 1) ++log_values] over 64 bits. *)
Fixpoint log_values_loop (n : nat) (v : Z) : Z :=
  match n with O => 0 | S n => if 1 <? v then 1 + log_values_loop n (Z.shiftr v 1) else 0 end.

Definition control_word (chunk_bytes values : Z) (last : bool) : Z :=
  let log_values := if last then 0 else log_values_loop 64 values in
  Z.lor (u32 (Z.shiftl (chunk_bytes / kAlignment - 1) 4)) (Z.land log_values 15).

Record ChunkMeta := mkChunkMeta { cm_bytes : Z; cm_values : Z }.

Fixpoint control_buffer (chunks : list ChunkMeta) : list Z :=
  match chunks with
  | [] => []
  | c :: rest => put_le32 (control_word (cm_bytes c) (cm_values c) (match rest with [] => true | _ => false end)) ++ control_buffer rest
  end.

(** ** Reading the metadata *)

Record ControlWord := mkControlWord { cw_chunk_bytes : Z; cw_log_values : Z }.

Definition decode_control_word (word : Z) : ControlWord := mkControlWord ((Z.shiftr word 4 + 1) * 8) (Z.land word 15).

(** The chunks but the last, from the word at [control]. *)
Fixpoint chunk_items_loop (n i : nat) (word : nat) (control : list Z) (num_items sum : Z) : res (list Z) :=
  match n with
  | O => if (num_items - sum =? 0) && negb (num_items =? 0) then Err "list page's last chunk has no values" else Ok [num_items - sum]
  | S n =>
      let log := Z.land (nth 0 control 0) 15 in
      if log =? 0 then Err ("list page chunk " +:+ pretty (Z.of_nat i) +:+ " is not the last but declares no values")
      else
        let count := Z.shiftl 1 log in
        if num_items - sum <? count then Err ("list page chunks declare more values than the page's " +:+ pretty num_items)
        else rest ← chunk_items_loop n (S i) word (drop word control) num_items (sum + count); Ok (count :: rest)
  end.

Definition decode_chunk_items (control : list Z) (large_words : bool) (num_items : Z) : res (list Z) :=
  let word := (if large_words then 4 else 2)%nat in
  if bool_decide (control = []) || negb (length control mod word =? 0)%nat
  then Err ("list page metadata is " +:+ pretty (zlen control) +:+ " bytes, not whole words")
  else chunk_items_loop (length control / word - 1) 0 word control num_items 0.

(** ** Reading the chunks *)

Record ChunkShape := mkChunkShape { has_repetition : bool; has_definition : bool; num_buffers : Z; large_buffer_sizes : bool }.

Definition buffer_size_bytes (shape : ChunkShape) : Z := if large_buffer_sizes shape then 4 else 2.

Definition declared_bytes (shape : ChunkShape) : Z :=
  2 + (if has_repetition shape then 2 else 0) + (if has_definition shape then 2 else 0) + num_buffers shape * buffer_size_bytes shape.

Record ChunkHeader := mkChunkHeader { ch_num_levels : Z; rep_size : Z; def_size : Z; buffer_sizes : list Z; ch_chunk_bytes : Z }.

(** [take_u16] and [take_u32] at the front of what is left. *)
Definition take_u16 (at_ : list Z) : Z * list Z := (Z.lor (nth 0 at_ 0) (Z.shiftl (nth 1 at_ 0) 8), drop 2 at_).
Definition take_u32 (at_ : list Z) : Z * list Z :=
  let '(lo, at_) := take_u16 at_ in
  let '(hi, at_) := take_u16 at_ in
  (Z.lor lo (u32 (Z.shiftl hi 16)), at_).

Fixpoint take_sizes (n : nat) (large : bool) (at_ : list Z) : list Z :=
  match n with
  | O => []
  | S n => let '(size, at_) := if large then take_u32 at_ else take_u16 at_ in size :: take_sizes n large at_
  end.

Definition read_chunk_header (payload : list Z) (offset : Z) (shape : ChunkShape) : res ChunkHeader :=
  if 64 <? num_buffers shape then Err ("miniblock layout declares " +:+ pretty (num_buffers shape) +:+ " buffers per chunk")
  else
    let declared := declared_bytes shape in
    if (zlen payload <? offset) || (zlen payload - offset <? declared) then Err "truncated miniblock payload header"
    else
      let '(num_levels, at_) := take_u16 (drop (Z.to_nat offset) payload) in
      let '(rep, at_) := if has_repetition shape then take_u16 at_ else (0, at_) in
      let '(def, at_) := if has_definition shape then take_u16 at_ else (0, at_) in
      let sizes := take_sizes (Z.to_nat (num_buffers shape)) (large_buffer_sizes shape) at_ in
      let cursor := foldl (fun cursor size => align (cursor + size)) (align declared) (rep :: def :: sizes) in
      if zlen payload - offset <? cursor then Err "miniblock chunk exceeds payload"
      else Ok (mkChunkHeader num_levels rep def sizes cursor).

Record ChunkView := mkChunkView {
  cv_values : list Z;
  extra_buffers : list (list Z);
  repdef : list Z;
  repdef_values : Z;
  rep : list Z;
  cv_num_levels : Z;
  items : Z
}.

Definition slice (payload : list Z) (at_ size : Z) : list Z := take (Z.to_nat size) (drop (Z.to_nat at_) payload).

(** The value buffers from [at_]. *)
Fixpoint slice_buffers (payload : list Z) (at_ : Z) (sizes : list Z) : list (list Z) :=
  match sizes with [] => [] | size :: sizes => slice payload at_ size :: slice_buffers payload (at_ + align size) sizes end.

Definition chunk_view (payload : list Z) (offset : Z) (shape : ChunkShape) (header : ChunkHeader) : ChunkView :=
  let at_rep := offset + align (declared_bytes shape) in
  let at_def := at_rep + align (rep_size header) in
  let buffers := slice_buffers payload (at_def + align (def_size header)) (buffer_sizes header) in
  let defined := has_definition shape && negb (def_size header =? 0) in
  mkChunkView (default [] (head buffers)) (tail buffers)
    (if defined then slice payload at_def (def_size header) else []) (if defined then ch_num_levels header else 0)
    (if has_repetition shape && negb (rep_size header =? 0) then slice payload at_rep (rep_size header) else []) (ch_num_levels header) 0.

(** A chunk takes at least its aligned header, so there are at most as many as the payload has bytes; [None]: the
    loop has not ended. *)
Fixpoint split_loop (fuel : nat) (payload : list Z) (shape : ChunkShape) (offset : Z) : option (res (list ChunkView)) :=
  if zlen payload <=? offset then Some (Ok [])
  else
    match fuel with
    | O => None
    | S fuel =>
        match read_chunk_header payload offset shape with
        | Err e => Some (Err e)
        | Ok header =>
            rest ← split_loop fuel payload shape (offset + ch_chunk_bytes header);
            Some (rest ← rest; Ok (chunk_view payload offset shape header :: rest))
        end
    end.

Definition split_payload (payload : list Z) (shape : ChunkShape) : option (res (list ChunkView)) := split_loop (length payload) payload shape 0.

Example one_chunk :
  split_payload (append_chunk [] 3 [1; 2] [[10; 11; 12]; [20]]) (mkChunkShape false true 2 true) =
  Some (Ok [mkChunkView [10; 11; 12] [[20]] [1; 2] 3 [] 3 0]).
Proof. vm_compute. reflexivity. Qed.

(** ** Alignment *)

Lemma align_spec b : 0 <= b <= 2 ^ 64 - 8 -> align b = (b + 7) / 8 * 8.
Proof.
  intros Hb. unfold align, kAlignment. rewrite (u64_small (b + 8 - 1)) by (unfold is_u64; lia).
  change (u64 (Z.lnot (8 - 1))) with (Z.land (Z.lnot (Z.ones 3)) (Z.ones 64)).
  rewrite Z.land_assoc, <- Z.ldiff_land, Z.ldiff_ones_r, Z.land_ones, Z.shiftr_div_pow2, Z.shiftl_mul_pow2 by lia.
  change (2 ^ 3) with 8. rewrite Z.mod_small; [do 2 f_equal; lia | dlia].
Qed.

Lemma align_bounds b : 0 <= b <= 2 ^ 64 - 8 -> b <= align b < b + 8 /\ align b mod 8 = 0.
Proof. intros. rewrite align_spec by done. dlia. Qed.

Lemma align_add a b : 0 <= a -> 0 <= b -> a mod 8 = 0 -> a + b <= 2 ^ 64 - 8 -> align (a + b) = a + align b.
Proof. intros. rewrite !align_spec by lia. dlia. Qed.

Lemma zlen_pad out : zlen out <= 2 ^ 64 - 8 -> zlen (pad out) = align (zlen out).
Proof.
  intros H. pose proof (zlen_nonneg out). unfold pad. rewrite zlen_app. unfold zlen at 2. rewrite length_replicate.
  pose proof (align_bounds (zlen out)). lia.
Qed.

(** A page is built of parts whose length is a multiple of 8. *)
Lemma pad_app out b : zlen out mod 8 = 0 -> zlen out + zlen b <= 2 ^ 64 - 8 -> pad (out ++ b) = out ++ pad b.
Proof.
  intros Ha Hb. pose proof (zlen_nonneg out). pose proof (zlen_nonneg b). unfold pad. rewrite zlen_app, align_add by lia. rewrite <- app_assoc. by replace (zlen out + align (zlen b) - (zlen out + zlen b)) with (align (zlen b) - zlen b) by lia.
Qed.

Lemma take_u16_put v rest : is_u16 v -> take_u16 (put_le16 v ++ rest) = (v, rest).
Proof.
  intros Hv. unfold take_u16, put_le16, is_u16 in *. cbn [app nth drop]. f_equal. change 255 with (2 ^ 8 - 1). rewrite !land_low by lia.
  rewrite !u8_small by (unfold is_u8; dlia). rewrite lor_shiftl_add by dlia. rewrite Z.shiftr_div_pow2 by lia. dlia.
Qed.

Lemma take_u32_put v rest : is_u32 v -> take_u32 (put_le32 v ++ rest) = (v, rest).
Proof.
  intros Hv. unfold take_u32, put_le32, is_u32 in *. change 65535 with (2 ^ 16 - 1). rewrite !land_low, <- app_assoc by lia.
  rewrite take_u16_put by (unfold is_u16; dlia). rewrite take_u16_put by (unfold is_u16; dlia). f_equal.
  rewrite Z.shiftr_div_pow2, Z.shiftl_mul_pow2 by lia. rewrite u32_small by (unfold is_u32; dlia).
  rewrite <- Z.shiftl_mul_pow2, lor_shiftl_add by dlia. dlia.
Qed.

Lemma take_sizes_put sizes rest : Forall is_u32 sizes -> take_sizes (length sizes) true (concat (put_le32 <$> sizes) ++ rest) = sizes.
Proof.
  induction 1 as [|v sizes Hv _ IH]; [done|]. cbn [length take_sizes fmap list_fmap concat]. rewrite <- app_assoc, take_u32_put by done. by f_equal.
Qed.

Lemma zlen_put_le32s (sizes : list Z) : zlen (concat (put_le32 <$> sizes)) = 4 * zlen sizes.
Proof. induction sizes as [|v sizes IH]; [done|]. rewrite fmap_cons, zlen_cons. cbn [concat]. rewrite zlen_app, IH. change (zlen (put_le32 v)) with 4. lia. Qed.

Lemma slice_mid (a b c : list Z) at_ size : at_ = zlen a -> size = zlen b -> slice (a ++ b ++ c) at_ size = b.
Proof. intros -> ->. unfold slice, zlen. rewrite !Nat2Z.id, drop_app_length. apply take_app_length. Qed.

(** ** The chunks of a page *)

Record Chunk := mkChunk { k_levels : Z; k_def : list Z; k_buffers : list (list Z) }.

Definition page (chunks : list Chunk) : list Z := foldl (fun out c => append_chunk out (k_levels c) (k_def c) (k_buffers c)) [] chunks.

(** A chunk of a page with this shape. *)
Record chunk_ok (shape : ChunkShape) (c : Chunk) : Prop := {
  ok_levels : is_u16 (k_levels c);
  ok_def : zlen (k_def c) < 2 ^ 16;
  ok_has_def : has_definition shape = negb (bool_decide (k_def c = []));
  ok_no_rep : has_repetition shape = false;
  ok_large : large_buffer_sizes shape = true;
  ok_count : zlen (k_buffers c) = num_buffers shape;
  ok_few : num_buffers shape <= 64;
  ok_sizes : Forall (fun b => zlen b < 2 ^ 32) (k_buffers c)
}.

(** What the reader gives of it. *)
Definition view (c : Chunk) : ChunkView :=
  let levels := if bool_decide (k_def c = []) then 0 else k_levels c in
  mkChunkView (default [] (head (k_buffers c))) (tail (k_buffers c)) (k_def c) levels [] levels 0.

(** The parts of a chunk. *)
Definition header_fields (c : Chunk) : list Z :=
  put_le16 (if bool_decide (k_def c = []) then 0 else k_levels c) ++ (if bool_decide (k_def c = []) then [] else put_le16 (zlen (k_def c))) ++
  concat (put_le32 <$> (zlen <$> k_buffers c)).

Definition chunk_parts (c : Chunk) : list Z := pad (header_fields c) ++ pad (k_def c) ++ concat (pad <$> k_buffers c).

Lemma zlen_pad_ge out : zlen out <= zlen (pad out).
Proof. unfold pad. rewrite zlen_app. pose proof (zlen_nonneg (replicate (Z.to_nat (align (zlen out) - zlen out)) kFillByte)). lia. Qed.

Lemma zlen_pad_mod out : zlen out < 2 ^ 63 -> zlen (pad out) mod 8 = 0.
Proof. intros H. pose proof (zlen_nonneg out). rewrite zlen_pad by lia. apply align_bounds. lia. Qed.

Lemma padded_buffers out bufs :
  zlen out mod 8 = 0 -> zlen out + zlen (concat (pad <$> bufs)) < 2 ^ 63 ->
  foldl (fun out b => pad (out ++ b)) out bufs = out ++ concat (pad <$> bufs) /\ zlen (concat (pad <$> bufs)) mod 8 = 0.
Proof.
  revert out. induction bufs as [|b bufs IH]; intros out Hm Hb; [by rewrite app_nil_r|]. rewrite fmap_cons in *. cbn [foldl concat] in *. rewrite zlen_app in Hb.
  pose proof (zlen_pad_ge b). pose proof (zlen_nonneg out). pose proof (zlen_nonneg (concat (pad <$> bufs))). pose proof (zlen_pad_mod b ltac:(lia)).
  rewrite pad_app by lia. destruct (IH (out ++ pad b)) as (E1 & E2); [rewrite zlen_app; dlia | rewrite zlen_app; lia|].
  rewrite E1, <- app_assoc. split; [done|]. rewrite zlen_app. dlia.
Qed.

Lemma append_chunk_parts out c :
  zlen out mod 8 = 0 -> zlen out + zlen (chunk_parts c) < 2 ^ 63 ->
  append_chunk out (k_levels c) (k_def c) (k_buffers c) = out ++ chunk_parts c /\ zlen (chunk_parts c) mod 8 = 0.
Proof.
  intros Hm Hb. unfold chunk_parts in *. rewrite !zlen_app in Hb. pose proof (zlen_pad_ge (header_fields c)). pose proof (zlen_pad_ge (k_def c)).
  pose proof (zlen_nonneg out). pose proof (zlen_nonneg (header_fields c)). pose proof (zlen_nonneg (k_def c)). pose proof (zlen_nonneg (concat (pad <$> k_buffers c))).
  pose proof (zlen_pad_mod (header_fields c) ltac:(lia)) as Mh. pose proof (zlen_pad_mod (k_def c) ltac:(lia)) as Md.
  assert (chunk_header (k_levels c) (zlen (k_def c)) (zlen <$> k_buffers c) = pad (header_fields c)) as Hh.
  { unfold chunk_header, header_fields. destruct (k_def c) as [|x d]; [done|]. rewrite (proj2 (Z.eqb_neq _ _)) by (rewrite zlen_cons; pose proof (zlen_nonneg d); lia). done. }
  unfold append_chunk. rewrite Hh.
  assert ((match k_def c with [] => out ++ pad (header_fields c) | _ => pad ((out ++ pad (header_fields c)) ++ k_def c) end)
    = out ++ pad (header_fields c) ++ pad (k_def c)) as ->.
  { destruct (k_def c) as [|x d] eqn:Ed; [by rewrite app_nil_r|]. rewrite <- Ed in *. rewrite pad_app by (rewrite zlen_app; dlia). by rewrite <- app_assoc. }
  destruct (padded_buffers (out ++ pad (header_fields c) ++ pad (k_def c)) (k_buffers c)) as (E1 & E2); [rewrite !zlen_app; dlia | rewrite !zlen_app; lia|].
  rewrite E1, <- !app_assoc. split; [done|]. rewrite !zlen_app. dlia.
Qed.

Lemma page_parts chunks : zlen (concat (chunk_parts <$> chunks)) < 2 ^ 63 -> page chunks = concat (chunk_parts <$> chunks).
Proof.
  unfold page. assert (forall out, zlen out mod 8 = 0 -> zlen out + zlen (concat (chunk_parts <$> chunks)) < 2 ^ 63 ->
    foldl (fun out c => append_chunk out (k_levels c) (k_def c) (k_buffers c)) out chunks = out ++ concat (chunk_parts <$> chunks)) as H; [|by apply (H [])].
  induction chunks as [|c chunks IH]; intros out Hm Hb; [by rewrite app_nil_r|]. rewrite fmap_cons in *. cbn [foldl concat] in *. rewrite zlen_app in Hb.
  pose proof (zlen_nonneg (concat (chunk_parts <$> chunks))). destruct (append_chunk_parts out c Hm ltac:(lia)) as (-> & Hc).
  rewrite IH; [by rewrite app_assoc | rewrite zlen_app; dlia | rewrite zlen_app; lia].
Qed.

(** ** Reading a chunk back *)

Lemma slice_buffers_mid pre bufs post :
  zlen (concat (pad <$> bufs)) < 2 ^ 63 -> slice_buffers (pre ++ concat (pad <$> bufs) ++ post) (zlen pre) (zlen <$> bufs) = bufs.
Proof.
  revert pre. induction bufs as [|b bufs IH]; intros pre Hb; [done|]. rewrite !fmap_cons in *. cbn [concat slice_buffers] in *. rewrite zlen_app in Hb.
  pose proof (zlen_pad_ge b). pose proof (zlen_nonneg b). pose proof (zlen_nonneg (concat (pad <$> bufs))). f_equal.
  - unfold pad at 1. rewrite <- !app_assoc. by apply slice_mid.
  - rewrite <- zlen_pad, <- zlen_app by lia. replace (pre ++ (pad b ++ concat (pad <$> bufs)) ++ post) with ((pre ++ pad b) ++ concat (pad <$> bufs) ++ post)
      by (by rewrite <- !app_assoc). apply IH. lia.
Qed.

Lemma cursor_sizes a bufs :
  0 <= a -> a mod 8 = 0 -> a + zlen (concat (pad <$> bufs)) < 2 ^ 63 ->
  foldl (fun cursor size => align (cursor + size)) a (zlen <$> bufs) = a + zlen (concat (pad <$> bufs)).
Proof.
  revert a. induction bufs as [|b bufs IH]; intros a Ha Hm Hb; [symmetry; apply Z.add_0_r|]. rewrite !fmap_cons in *. cbn [concat foldl] in *. rewrite zlen_app in *.
  pose proof (zlen_pad_ge b). pose proof (zlen_nonneg b). pose proof (zlen_nonneg (concat (pad <$> bufs))). pose proof (zlen_pad_mod b ltac:(lia)).
  rewrite align_add, <- zlen_pad by lia. rewrite IH; [lia | lia | dlia | lia].
Qed.

Section one_chunk.
  Context (shape : ChunkShape) (c : Chunk) (Hc : chunk_ok shape c) (Hsize : zlen (chunk_parts c) < 2 ^ 62).

#[local] Notation def_size_ := (zlen (k_def c)).

Lemma zlen_header_fields : zlen (header_fields c) = declared_bytes shape.
Proof using Hc.
  destruct Hc as [Hl Hd Hh Hr Hg Hn _ _]. unfold header_fields, declared_bytes, buffer_size_bytes. rewrite Hr, Hg, Hh.
  rewrite !zlen_app, zlen_put_le32s. rewrite <- Hn. assert (zlen (zlen <$> k_buffers c) = zlen (k_buffers c)) as -> by (unfold zlen; by rewrite length_fmap).
  case_bool_decide; cbn [negb]; [change (zlen []) with 0 | change (zlen (put_le16 def_size_)) with 2];
    change (zlen (put_le16 _)) with 2; lia.
Qed.

Lemma read_chunk_header_parts pre post :
  zlen pre + zlen (chunk_parts c) + zlen post < 2 ^ 63 ->
  read_chunk_header (pre ++ chunk_parts c ++ post) (zlen pre) shape =
  Ok (mkChunkHeader (cv_num_levels (view c)) 0 def_size_ (zlen <$> k_buffers c) (zlen (chunk_parts c))).
Proof using Hc Hsize.
  intros Hb. pose proof zlen_header_fields as Hdecl. destruct Hc as [Hl Hd Hh Hr Hg Hn Hf Hs].
  unfold chunk_parts in *. rewrite !zlen_app in Hb, Hsize.
  pose proof (zlen_nonneg pre). pose proof (zlen_nonneg post). pose proof (zlen_nonneg (k_def c)). pose proof (zlen_pad_ge (header_fields c)). pose proof (zlen_pad_ge (k_def c)).
  pose proof (zlen_nonneg (concat (pad <$> k_buffers c))). pose proof (zlen_nonneg (header_fields c)).
  unfold read_chunk_header. rewrite (proj2 (Z.ltb_ge 64 _)) by lia. rewrite !zlen_app.
  rewrite (proj2 (Z.ltb_ge _ (zlen pre))) by lia. rewrite (proj2 (Z.ltb_ge _ (declared_bytes shape))) by lia. cbn [orb].
  assert (drop (Z.to_nat (zlen pre)) (pre ++ (pad (header_fields c) ++ pad (k_def c) ++ concat (pad <$> k_buffers c)) ++ post)
    = pad (header_fields c) ++ pad (k_def c) ++ concat (pad <$> k_buffers c) ++ post) as ->.
  { unfold zlen. rewrite Nat2Z.id, drop_app_length, <- !app_assoc. done. }
  set (rest := pad (k_def c) ++ _). assert (exists fill, pad (header_fields c) ++ rest = header_fields c ++ fill) as (fill & ->).
  { unfold pad at 1. rewrite <- app_assoc. by eexists. }
  unfold header_fields at 1. rewrite <- !app_assoc, take_u16_put by (case_bool_decide; [done | exact Hl]). rewrite Hr.
  assert ((if has_definition shape then take_u16 ((if bool_decide (k_def c = []) then [] else put_le16 def_size_) ++ concat (put_le32 <$> (zlen <$> k_buffers c)) ++ fill)
    else (0, (if bool_decide (k_def c = []) then [] else put_le16 def_size_) ++ concat (put_le32 <$> (zlen <$> k_buffers c)) ++ fill))
    = (def_size_, concat (put_le32 <$> (zlen <$> k_buffers c)) ++ fill)) as ->.
  { rewrite Hh. case_bool_decide as E; cbn [negb]; [by rewrite E | by apply take_u16_put; unfold is_u16; lia]. }
  assert (take_sizes (Z.to_nat (num_buffers shape)) (large_buffer_sizes shape) (concat (put_le32 <$> (zlen <$> k_buffers c)) ++ fill) = zlen <$> k_buffers c) as ->.
  { rewrite Hg, <- Hn. unfold zlen at 1. rewrite Nat2Z.id, <- (length_fmap zlen). apply take_sizes_put.
    apply Forall_fmap. eapply Forall_impl; [exact Hs|]. cbn. intros b Hb32. pose proof (zlen_nonneg b). unfold is_u32. lia. }
  pose proof (zlen_pad_mod (header_fields c) ltac:(lia)) as Mh. pose proof (zlen_pad_mod (k_def c) ltac:(lia)) as Md.
  assert (foldl (fun cursor size => align (cursor + size)) (align (declared_bytes shape)) (0 :: def_size_ :: (zlen <$> k_buffers c))
    = zlen (pad (header_fields c)) + (zlen (pad (k_def c)) + zlen (concat (pad <$> k_buffers c)))) as ->.
  { cbn [foldl]. rewrite <- Hdecl, <- zlen_pad by lia. rewrite (align_add _ 0) by lia. change (align 0) with 0. rewrite Z.add_0_r.
    rewrite align_add, <- zlen_pad by lia. rewrite cursor_sizes; [lia | lia | dlia | lia]. }
  rewrite (proj2 (Z.ltb_ge _ _)) by lia. done.
Qed.

Lemma chunk_view_parts pre post :
  zlen pre + zlen (chunk_parts c) + zlen post < 2 ^ 63 ->
  chunk_view (pre ++ chunk_parts c ++ post) (zlen pre) shape
    (mkChunkHeader (cv_num_levels (view c)) 0 def_size_ (zlen <$> k_buffers c) (zlen (chunk_parts c))) = view c.
Proof using Hc Hsize.
  intros Hb. pose proof zlen_header_fields as Hdecl. destruct Hc as [Hl Hd Hh Hr Hg Hn Hf Hs].
  unfold chunk_parts in *. rewrite !zlen_app in Hb, Hsize.
  pose proof (zlen_nonneg pre). pose proof (zlen_nonneg (k_def c)). pose proof (zlen_pad_ge (header_fields c)). pose proof (zlen_pad_ge (k_def c)).
  pose proof (zlen_nonneg (concat (pad <$> k_buffers c))). pose proof (zlen_nonneg (header_fields c)). pose proof (zlen_nonneg post).
  unfold chunk_view. cbn [rep_size def_size buffer_sizes ch_num_levels]. change (align 0) with 0. rewrite Z.add_0_r, <- Hdecl, <- !zlen_pad by lia. rewrite Hr. cbn [andb].
  replace (pre ++ (pad (header_fields c) ++ pad (k_def c) ++ concat (pad <$> k_buffers c)) ++ post)
    with ((pre ++ pad (header_fields c) ++ pad (k_def c)) ++ concat (pad <$> k_buffers c) ++ post) by (by rewrite <- !app_assoc).
  rewrite <- Z.add_assoc, <- !zlen_app, slice_buffers_mid by lia.
  assert (slice ((pre ++ pad (header_fields c) ++ pad (k_def c)) ++ concat (pad <$> k_buffers c) ++ post) (zlen (pre ++ pad (header_fields c))) def_size_ = k_def c) as ->.
  { unfold pad at 2. rewrite <- !app_assoc, app_assoc. by apply slice_mid. }
  unfold view. rewrite Hh. case_bool_decide as E; cbn [negb andb].
  - by rewrite E.
  - rewrite (proj2 (Z.eqb_neq _ _)); [done|]. intros E0. apply E. destruct (k_def c); [done|]. rewrite zlen_cons in E0. pose proof (zlen_nonneg l). lia.
Qed.

End one_chunk.

Lemma chunk_parts_pos shape c : chunk_ok shape c -> 0 < zlen (chunk_parts c).
Proof.
  intros Hc. unfold chunk_parts. rewrite !zlen_app. pose proof (zlen_pad_ge (header_fields c)). pose proof (zlen_nonneg (pad (k_def c))).
  pose proof (zlen_nonneg (concat (pad <$> k_buffers c))). rewrite (zlen_header_fields shape c Hc) in *. unfold declared_bytes in *.
  destruct Hc as [_ _ _ _ _ Hn _ _]. pose proof (zlen_nonneg (k_buffers c)). unfold buffer_size_bytes in *. repeat case_match; lia.
Qed.

Lemma split_chunks shape chunks pre fuel :
  Forall (chunk_ok shape) chunks -> zlen pre + zlen (concat (chunk_parts <$> chunks)) < 2 ^ 62 -> (length chunks <= fuel)%nat ->
  split_loop fuel (pre ++ concat (chunk_parts <$> chunks)) shape (zlen pre) = Some (Ok (view <$> chunks)).
Proof.
  intros Hc. revert pre fuel. induction Hc as [|c chunks Hc _ IH]; intros pre fuel Hb Hf.
  { cbn [fmap list_fmap concat]. rewrite app_nil_r. destruct fuel; cbn [split_loop]; by rewrite Z.leb_refl. }
  rewrite !fmap_cons in *. cbn [concat] in *. rewrite zlen_app in Hb. pose proof (zlen_nonneg pre). pose proof (zlen_nonneg (chunk_parts c)).
  pose proof (zlen_nonneg (concat (chunk_parts <$> chunks))).
  destruct fuel as [|fuel]; cbn [length] in Hf; [lia|]. cbn [split_loop]. rewrite !zlen_app.
  pose proof (chunk_parts_pos shape c Hc) as Hpos.
  rewrite (proj2 (Z.leb_gt _ _)) by lia.
  rewrite (read_chunk_header_parts shape c Hc) by lia. cbn [ch_chunk_bytes]. rewrite (chunk_view_parts shape c Hc) by lia.
  rewrite app_assoc, <- zlen_app. rewrite IH by (rewrite ?zlen_app; lia). done.
Qed.

(** The size the writer counts for a chunk. *)
Lemma chunk_bytes_parts c :
  zlen (chunk_parts c) < 2 ^ 62 -> zlen (chunk_parts c) = chunk_bytes (zlen (k_def c)) (zlen <$> k_buffers c).
Proof.
  unfold chunk_parts, chunk_bytes. rewrite !zlen_app. intros Hb. pose proof (zlen_pad_ge (header_fields c)). pose proof (zlen_pad_ge (k_def c)).
  pose proof (zlen_nonneg (header_fields c)). pose proof (zlen_nonneg (k_def c)). pose proof (zlen_nonneg (concat (pad <$> k_buffers c))).
  assert (zlen (header_fields c) = 2 + (if zlen (k_def c) =? 0 then 0 else 2) + zlen (zlen <$> k_buffers c) * 4) as <-.
  { unfold header_fields. rewrite !zlen_app, zlen_put_le32s. change (zlen (put_le16 _)) with 2.
    case_bool_decide as E; [rewrite E; change (zlen (@nil Z)) with 0; cbn [Z.eqb]; lia|].
    rewrite (proj2 (Z.eqb_neq _ _)); [change (zlen (put_le16 _)) with 2; lia|]. intros E0. apply E. destruct (k_def c) as [|x l]; [done|].
    rewrite zlen_cons in E0. pose proof (zlen_nonneg l). lia. }
  rewrite <- !zlen_pad by lia. rewrite Z.add_assoc. set (a := zlen (pad (header_fields c)) + zlen (pad (k_def c))). clearbody a.
  assert (Forall (fun b => zlen b < 2 ^ 62) (k_buffers c)) as Hbufs.
  { apply Forall_forall. intros b Hin. pose proof (zlen_pad_ge b). assert (zlen (pad b) <= zlen (concat (pad <$> k_buffers c))) by (apply zlen_concat_elem, list_elem_of_fmap_2, Hin). pose proof (zlen_nonneg (pad (header_fields c))). pose proof (zlen_nonneg (pad (k_def c))). lia. }
  clear -Hbufs. revert a. induction Hbufs as [|b bufs Hb Hbufs IH]; intros a; [apply Z.add_0_r|]. rewrite !fmap_cons. cbn [concat foldl].
  rewrite zlen_app, zlen_pad, <- IH by lia. lia.
Qed.

(** ** The metadata *)

Lemma log_values_pow2 n k : 0 <= k < Z.of_nat n -> log_values_loop n (2 ^ k) = k.
Proof.
  revert k. induction n as [|n IH]; intros k Hk; [lia|]. cbn [log_values_loop]. destruct (Z.eq_dec k 0) as [->|]; [done|].
  rewrite (proj2 (Z.ltb_lt _ _)) by (apply Z.pow_gt_1; lia). rewrite Z.shiftr_div_pow2 by lia.
  replace (2 ^ k / 2 ^ 1) with (2 ^ (k - 1)) by (rewrite <- Z.pow_sub_r by lia; done). rewrite IH by lia. lia.
Qed.

(** A chunk's size and the logarithm of its values fit its word. *)
Lemma control_word_decoded bytes values last k :
  bytes mod 8 = 0 -> 8 <= bytes <= 8 * 2 ^ 28 -> values = 2 ^ k -> 0 <= k <= 15 ->
  is_u32 (control_word bytes values last) /\ decode_control_word (control_word bytes values last) = mkControlWord bytes (if last then 0 else k).
Proof.
  intros Hm Hb -> Hk. unfold control_word, decode_control_word, kAlignment, is_u32.
  assert (log_values_loop 64 (2 ^ k) = k) as -> by (apply log_values_pow2; lia). set (log := if last then 0 else k). assert (0 <= log < 16) as Hlog by (subst log; destruct last; lia).
  change 15 with (2 ^ 4 - 1). rewrite (land_low log), (Z.mod_small log) by lia.
  rewrite u32_small by (unfold is_u32; rewrite Z.shiftl_mul_pow2 by lia; dlia).
  rewrite Z.lor_comm, lor_shiftl_add by lia. split; [dlia|]. f_equal.
  - rewrite Z.shiftr_div_pow2 by lia. dlia.
  - rewrite land_low by lia. dlia.
Qed.

Lemma nth0_put_le32 v rest : is_u32 v -> Z.land (nth 0 (put_le32 v ++ rest) 0) 15 = Z.land v 15.
Proof.
  intros Hv. unfold put_le32, put_le16. cbn [app nth]. change 65535 with (2 ^ 16 - 1). change 255 with (2 ^ 8 - 1). change 15 with (2 ^ 4 - 1).
  rewrite !land_low by lia. unfold u8, wrap. dlia.
Qed.

Lemma chunk_items_decoded bytes counts sum i :
  length bytes = length counts -> bytes <> [] -> Forall (fun b => b mod 8 = 0 /\ 8 <= b <= 8 * 2 ^ 28) bytes ->
  (forall j v, counts !! j = Some v -> (S j < length counts)%nat -> exists k, v = 2 ^ k /\ 1 <= k <= 15) ->
  (forall v, last counts = Some v -> 0 < v) -> 0 <= sum ->
  chunk_items_loop (length counts - 1) i 4 (control_buffer (zip_with mkChunkMeta bytes counts)) (sum + foldr Z.add 0 counts) sum = Ok counts.
Proof.
  intros Hlen Hne Hb. revert counts sum i Hlen. induction Hb as [|b bytes [Hm Hr] Hb IH]; intros counts sum i Hlen Hp Hl Hs; [done|].
  destruct counts as [|v counts]; [done|]. injection Hlen as Hlen. destruct counts as [|v2 counts].
  { cbn [length Nat.sub chunk_items_loop foldr]. specialize (Hl v eq_refl). rewrite (proj2 (Z.eqb_neq _ 0)) by lia. cbn [andb]. do 2 f_equal. lia. }
  destruct bytes as [|b2 bytes]; [done|]. replace (length (v :: v2 :: counts) - 1)%nat with (S (length (v2 :: counts) - 1)) by (cbn; lia).
  destruct (Hp 0%nat v eq_refl ltac:(cbn; lia)) as (k & -> & Hk). cbn [chunk_items_loop zip_with].
  set (rest := mkChunkMeta b2 v2 :: zip_with mkChunkMeta bytes counts).
  change (control_buffer (mkChunkMeta b (2 ^ k) :: rest)) with (put_le32 (control_word b (2 ^ k) false) ++ control_buffer rest).
  destruct (control_word_decoded b (2 ^ k) false k Hm Hr eq_refl ltac:(lia)) as (Hu & Hd). injection Hd as _ Hlog.
  rewrite nth0_put_le32, Hlog by done. rewrite (proj2 (Z.eqb_neq k 0)) by lia. rewrite Z.shiftl_1_l.
  assert (0 <= foldr Z.add 0 (v2 :: counts)) as Hsum.
  { assert (forall l : list Z, Forall (fun v => 0 <= v) l -> 0 <= foldr Z.add 0 l) as Hfold by (induction 1; cbn; lia). apply Hfold.
    apply Forall_lookup. intros j x Hx. destruct (decide (S j < length (v2 :: counts))%nat) as [Hj|Hj].
    - destruct (Hp (S j) x Hx ltac:(cbn in *; lia)) as (k' & -> & _). apply Z.pow_nonneg. lia.
    - apply Z.lt_le_incl, Hl. rewrite last_lookup. cbn [length]. rewrite lookup_cons_ne_0 by lia. apply lookup_lt_Some in Hx as Hx'. cbn [length] in *.
      replace (Nat.pred (Nat.pred (S (S (length counts))))) with j by lia. done. }
  cbn [foldr] in *. rewrite (proj2 (Z.ltb_ge _ _)) by lia. rewrite drop_app_length' by done.
  assert (0 <= 2 ^ k) as Hk2 by (apply Z.pow_nonneg; lia).
  specialize (IH ltac:(done) (v2 :: counts) (sum + 2 ^ k) (S i) Hlen). cbn [foldr] in IH. replace (sum + 2 ^ k + (v2 + foldr Z.add 0 counts)) with (sum + (2 ^ k + (v2 + foldr Z.add 0 counts))) in IH by lia.
  unfold mbind, res_bind. change (zip_with mkChunkMeta (b2 :: bytes) (v2 :: counts)) with rest in IH. rewrite IH; [done | | done | lia].
  intros j x Hx Hj. apply (Hp (S j)); [done | cbn in *; lia].
Qed.


Lemma decode_control_buffer bytes counts :
  length bytes = length counts -> bytes <> [] -> Forall (fun b => b mod 8 = 0 /\ 8 <= b <= 8 * 2 ^ 28) bytes ->
  (forall j v, counts !! j = Some v -> (S j < length counts)%nat -> exists k, v = 2 ^ k /\ 1 <= k <= 15) ->
  (forall v, last counts = Some v -> 0 < v) ->
  decode_chunk_items (control_buffer (zip_with mkChunkMeta bytes counts)) true (foldr Z.add 0 counts) = Ok counts.
Proof.
  intros Hlen Hne Hb Hp Hl. unfold decode_chunk_items.
  assert (forall l, length (control_buffer l) = length l * 4)%nat as Hcl by (induction l as [|x l IH]; [done|]; cbn [control_buffer length]; rewrite length_app, IH; done).
  assert (length (zip_with mkChunkMeta bytes counts) = length counts) as Hz by (rewrite length_zip_with; lia).
  assert (0 < length counts)%nat as Hpos by (destruct bytes; [done | cbn in Hlen; lia]).
  rewrite bool_decide_eq_false_2 by (intros E; apply (f_equal length) in E; rewrite Hcl, Hz in E; cbn in E; lia).
  rewrite Hcl, Hz, Nat.Div0.mod_mul, Nat.div_mul by lia. cbn [orb negb Nat.eqb].
  rewrite <- (Z.add_0_l (foldr Z.add 0 counts)). by apply chunk_items_decoded.
Qed.

(** C28: (roundtrip): the chunks written to a mini-block page are the chunks the reader splits it into, each with its
    levels and its buffers whole and without their padding; a chunk takes the bytes the writer counts for it;
    and the metadata written for them gives the reader the chunks' value counts. *)
Theorem miniblock_roundtrip shape chunks counts :
  Forall (chunk_ok shape) chunks -> zlen (concat (chunk_parts <$> chunks)) < 2 ^ 31 ->
  split_payload (page chunks) shape = Some (Ok (view <$> chunks)) /\
  Forall (fun c => zlen (chunk_parts c) = chunk_bytes (zlen (k_def c)) (zlen <$> k_buffers c)) chunks /\
  (length counts = length chunks -> chunks <> [] ->
   (forall j v, counts !! j = Some v -> (S j < length counts)%nat -> exists k, v = 2 ^ k /\ 1 <= k <= 15) ->
   (forall v, last counts = Some v -> 0 < v) ->
   decode_chunk_items (control_buffer (zip_with mkChunkMeta ((fun c => zlen (chunk_parts c)) <$> chunks) counts)) true (foldr Z.add 0 counts) = Ok counts).
Proof.
  intros Hc Hb. assert (Forall (fun c => zlen (chunk_parts c) < 2 ^ 31) chunks) as Hsmall.
  { apply Forall_forall. intros c Hin. pose proof (zlen_concat_elem (chunk_parts c) (chunk_parts <$> chunks) (list_elem_of_fmap_2 _ _ _ Hin)). lia. }
  split_and!.
  - rewrite page_parts by lia. unfold split_payload. rewrite (split_chunks shape chunks [] _ Hc); [done | change (zlen []) with 0; lia|].
    clear -Hc. induction Hc as [|c chunks Hc _ IH]; [done|]. rewrite fmap_cons. cbn [concat length]. rewrite length_app. pose proof (chunk_parts_pos shape c Hc). unfold zlen in *. lia.
  - eapply Forall_impl; [exact Hsmall|]. intros c Hs. apply chunk_bytes_parts. cbv beta in Hs. lia.
  - intros Hlen Hne Hp Hl. apply decode_control_buffer; [by rewrite length_fmap | by destruct chunks | | done | done].
    apply Forall_fmap, Forall_forall. intros c Hin. cbv beta. pose proof (proj1 (Forall_forall _ _) Hsmall c Hin) as Hs. cbv beta in Hs.
    pose proof (chunk_parts_pos shape c (proj1 (Forall_forall _ _) Hc c Hin)) as Hpos.
    destruct (append_chunk_parts [] c) as (_ & Hm); [done | change (zlen (@nil Z)) with 0; lia|]. split; [done|]. dlia.
Qed.

(** ** Untrusted pages *)

Lemma zlen_slice payload at_ size : 0 <= at_ -> 0 <= size -> at_ + size <= zlen payload -> zlen (slice payload at_ size) = size.
Proof. intros. unfold slice, zlen in *. rewrite length_take, length_drop. lia. Qed.

Lemma take_u16_range at_ : bytes_ok at_ -> is_u16 (take_u16 at_).1 /\ bytes_ok (take_u16 at_).2.
Proof.
  intros H. unfold take_u16, is_u16. cbn [fst snd]. split; [|by apply Forall_drop]. pose proof (nth_byte _ 0 H). pose proof (nth_byte _ 1 H).
  rewrite lor_shiftl_add by lia. lia.
Qed.

Lemma take_u32_range at_ : bytes_ok at_ -> is_u32 (take_u32 at_).1 /\ bytes_ok (take_u32 at_).2.
Proof.
  intros H. unfold take_u32. destruct (take_u16_range _ H) as [H1 H2]. destruct (take_u16 at_) as [lo rest]. cbn [fst snd] in *.
  destruct (take_u16_range _ H2) as [H3 H4]. destruct (take_u16 rest) as [hi rest']. cbn [fst snd] in *. split; [|done]. unfold is_u16, is_u32 in *.
  rewrite Z.shiftl_mul_pow2, u32_small by (unfold is_u32; lia). rewrite <- Z.shiftl_mul_pow2, lor_shiftl_add by lia. lia.
Qed.

Lemma take_sizes_range n large at_ : bytes_ok at_ -> Forall is_u32 (take_sizes n large at_) /\ length (take_sizes n large at_) = n.
Proof.
  revert at_. induction n as [|n IH]; intros at_ H; cbn [take_sizes]; [by split|].
  assert (is_u32 (if large then take_u32 at_ else take_u16 at_).1 /\ bytes_ok (if large then take_u32 at_ else take_u16 at_).2) as [H1 H2].
  { destruct large; [by apply take_u32_range|]. destruct (take_u16_range _ H) as [Hr Ho]. split; [unfold is_u16, is_u32 in *; lia | done]. }
  destruct (if large then _ else _) as [size rest]. cbn [fst snd] in *. destruct (IH rest H2) as [H3 H4]. split; [by constructor | cbn; by f_equal].
Qed.

Lemma cursor_add a sizes :
  0 <= a -> a mod 8 = 0 -> Forall is_u32 sizes -> a + zlen sizes * 2 ^ 33 <= 2 ^ 63 ->
  foldl (fun cursor size => align (cursor + size)) a sizes = a + foldr Z.add 0 (align <$> sizes) /\ Forall (fun s => 0 <= s <= align s) sizes.
Proof.
  intros Ha Hm Hs. revert a Ha Hm. induction Hs as [|s sizes Hs _ IH]; intros a Ha Hm Hb; [split; [cbn; lia | constructor]|].
  rewrite zlen_cons in Hb. pose proof (zlen_nonneg sizes). unfold is_u32 in Hs. pose proof (align_bounds s ltac:(lia)) as (Hal & Ham).
  cbn [foldl fmap list_fmap foldr]. rewrite align_add by lia. destruct (IH (a + align s)) as (H1 & H2); [lia | dlia | lia|].
  rewrite H1. split; [|constructor; [lia | done]]. unfold fmap. lia.
Qed.

Lemma slice_buffers_sizes payload at_ sizes :
  0 <= at_ -> Forall (fun s => 0 <= s <= align s) sizes -> at_ + foldr Z.add 0 (align <$> sizes) <= zlen payload ->
  zlen <$> slice_buffers payload at_ sizes = sizes.
Proof.
  intros Hat Hs. revert at_ Hat. induction Hs as [|s sizes Hs Hrest IH]; intros at_ Hat Hb; [done|]. rewrite fmap_cons in Hb. cbn [foldr slice_buffers] in *. rewrite fmap_cons.
  assert (0 <= foldr Z.add 0 (align <$> sizes)) by (clear -Hrest; induction Hrest; rewrite ?fmap_cons; cbn; lia).
  f_equal; [apply zlen_slice; lia|]. apply IH; lia.
Qed.

Lemma sum_aligned sizes : Forall (fun s => 0 <= s <= align s) sizes -> 0 <= foldr Z.add 0 (align <$> sizes).
Proof. induction 1; rewrite ?fmap_cons; cbn; lia. Qed.

(** What a chunk's header declares is in the page. *)
Lemma header_inside payload offset shape h :
  bytes_ok payload -> zlen payload < 2 ^ 62 -> 0 <= offset -> 0 <= num_buffers shape ->
  read_chunk_header payload offset shape = Ok h ->
  0 < ch_chunk_bytes h /\ offset + ch_chunk_bytes h <= zlen payload /\
  0 < align (declared_bytes shape) /\ Forall (fun s => 0 <= s <= align s) (rep_size h :: def_size h :: buffer_sizes h) /\
  ch_chunk_bytes h = align (declared_bytes shape) + foldr Z.add 0 (align <$> (rep_size h :: def_size h :: buffer_sizes h)) /\
  (has_repetition shape = false -> rep_size h = 0) /\ (has_definition shape = false -> def_size h = 0).
Proof.
  intros Hok Hsize Ho Hn. unfold read_chunk_header. destruct (Z.ltb_spec 64 (num_buffers shape)); [done|].
  destruct ((zlen payload <? offset) || _); [done|]. pose proof (Forall_drop _ (Z.to_nat offset) _ Hok) as Hd.
  destruct (take_u16_range _ Hd) as [_ Hd1]. destruct (take_u16 _) as [levels at1]. cbn [fst snd] in Hd1.
  assert (is_u16 (if has_repetition shape then take_u16 at1 else (0, at1)).1 /\ bytes_ok (if has_repetition shape then take_u16 at1 else (0, at1)).2 /\
    (has_repetition shape = false -> (if has_repetition shape then take_u16 at1 else (0, at1)).1 = 0)) as (Hr & Hd2 & Hr0).
  { destruct (has_repetition shape); [destruct (take_u16_range _ Hd1)|]; done. }
  destruct (if has_repetition shape then _ else _) as [r at2]. cbn [fst snd] in *.
  assert (is_u16 (if has_definition shape then take_u16 at2 else (0, at2)).1 /\ bytes_ok (if has_definition shape then take_u16 at2 else (0, at2)).2 /\
    (has_definition shape = false -> (if has_definition shape then take_u16 at2 else (0, at2)).1 = 0)) as (Hf & Hd3 & Hf0).
  { destruct (has_definition shape); [destruct (take_u16_range _ Hd2)|]; done. }
  destruct (if has_definition shape then _ else _) as [d at3]. cbn [fst snd] in *.
  destruct (take_sizes_range (Z.to_nat (num_buffers shape)) (large_buffer_sizes shape) at3 Hd3) as [Hs Hl]. set (sizes := take_sizes _ _ _) in *. clearbody sizes.
  assert (2 <= declared_bytes shape <= 262) as Hdecl by (unfold declared_bytes, buffer_size_bytes; repeat case_match; lia).
  pose proof (align_bounds (declared_bytes shape) ltac:(lia)) as (Ha & Ham). unfold is_u16, is_u32 in *.
  destruct (cursor_add (align (declared_bytes shape)) (r :: d :: sizes)) as (Hcur & Hal); [lia | done | repeat constructor; (done || unfold is_u32; lia)| |].
  { rewrite !zlen_cons. unfold zlen. lia. }
  rewrite Hcur. pose proof (sum_aligned _ Hal). destruct (Z.ltb_spec (zlen payload - offset) (align (declared_bytes shape) + foldr Z.add 0 (align <$> (r :: d :: sizes)))); [done|].
  intros E. apply (f_equal (fun x => match x with Ok h' => h' | Err _ => h end)) in E. subst h. cbn [ch_chunk_bytes rep_size def_size buffer_sizes].
  split_and!; (done || lia).
Qed.

Lemma split_loop_ends fuel payload shape offset :
  bytes_ok payload -> zlen payload < 2 ^ 62 -> 0 <= num_buffers shape -> 0 <= offset -> zlen payload - offset <= Z.of_nat fuel ->
  exists r, split_loop fuel payload shape offset = Some r.
Proof.
  intros Hok Hsize Hn. revert offset. induction fuel as [|fuel IH]; intros offset Ho Hf; cbn [split_loop].
  { rewrite (proj2 (Z.leb_le _ _)) by lia. by eexists. }
  destruct (zlen payload <=? offset); [by eexists|]. destruct (read_chunk_header payload offset shape) as [h|e] eqn:E; [|by eexists].
  destruct (header_inside _ _ _ _ Hok Hsize Ho Hn E) as (H1 & _). destruct (IH (offset + ch_chunk_bytes h)) as (r & ->); [lia | lia|]. by eexists.
Qed.

(** splitting any bytes into chunks ends, and every buffer of a chunk it accepts is copied from inside the
    page, whole: its length is what the chunk's header declares, and the chunk moves the reader forward. *)
Theorem miniblock_split_safe payload shape :
  bytes_ok payload -> zlen payload < 2 ^ 62 -> 0 <= num_buffers shape ->
  (exists r, split_payload payload shape = Some r) /\
  forall offset h, 0 <= offset -> read_chunk_header payload offset shape = Ok h ->
    0 < ch_chunk_bytes h /\ offset + ch_chunk_bytes h <= zlen payload /\
    let v := chunk_view payload offset shape h in
    zlen (rep v) = rep_size h /\ zlen (repdef v) = def_size h /\
    (buffer_sizes h <> [] -> zlen <$> (cv_values v :: extra_buffers v) = buffer_sizes h).
Proof.
  intros Hok Hsize Hn. split; [apply split_loop_ends; (done || unfold zlen; lia)|]. intros offset h Ho E.
  destruct (header_inside _ _ _ _ Hok Hsize Ho Hn E) as (H1 & H2 & Hd & Hs & Hc & Hr & Hf). split; [done|]. split; [done|].
  apply Forall_cons in Hs as [Hrs Hs]. apply Forall_cons in Hs as [Hds Hs]. rewrite !fmap_cons in Hc. cbn [foldr] in Hc. pose proof (sum_aligned _ Hs).
  cbn [chunk_view rep repdef cv_values extra_buffers]. split_and!.
  - destruct (has_repetition shape); cbn [andb]; [|by rewrite Hr]. destruct (Z.eqb_spec (rep_size h) 0) as [->|]; cbn [negb]; [done|]. apply zlen_slice; lia.
  - destruct (has_definition shape); cbn [andb]; [|by rewrite Hf]. destruct (Z.eqb_spec (def_size h) 0) as [->|]; cbn [negb]; [done|]. apply zlen_slice; lia.
  - intros Hne. pose proof (slice_buffers_sizes payload (offset + align (declared_bytes shape) + align (rep_size h) + align (def_size h)) (buffer_sizes h) ltac:(lia) Hs ltac:(lia)) as Hb.
    destruct (slice_buffers _ _ _) as [|b bs]; [by rewrite <- Hb in Hne | exact Hb].
Qed.

(** Two chunks with levels, of 4 and 3 values. *)
Definition sample_chunks : list Chunk := [mkChunk 4 [0; 0; 1; 0] [[1; 2; 3; 4]; [9]]; mkChunk 3 [0; 0; 0] [[5; 6; 7]; []]].
Definition sample_shape : ChunkShape := mkChunkShape false true 2 true.

Lemma sample_chunks_ok : Forall (chunk_ok sample_shape) sample_chunks.
Proof. repeat constructor; cbn; try done; unfold zlen; cbn; lia. Qed.

Lemma miniblock_roundtrip_witness :
  split_payload (page sample_chunks) sample_shape = Some (Ok (view <$> sample_chunks)) /\ chunk_bytes 4 [4; 1] = 40 /\
  decode_chunk_items (control_buffer (zip_with mkChunkMeta ((fun c => zlen (chunk_parts c)) <$> sample_chunks) [4; 3])) true 7 = Ok [4; 3].
Proof.
  destruct (miniblock_roundtrip sample_shape sample_chunks [4; 3] sample_chunks_ok) as (H1 & _ & H3); [vm_compute; reflexivity|].
  split; [exact H1|]. split; [vm_compute; reflexivity|]. apply H3; [reflexivity | discriminate | | intros v [= <-]; lia].
  intros [|j] v Hv Hj; [injection Hv as <-; exists 2; split; [reflexivity | lia] | cbn in Hj; lia].
Defined.

Lemma miniblock_split_safe_witness :
  exists h, read_chunk_header (page sample_chunks) 40 sample_shape = Ok h /\ buffer_sizes h = [3; 0] /\ 40 + ch_chunk_bytes h <= zlen (page sample_chunks).
Proof.
  eexists. split; [vm_compute; reflexivity|]. split; [reflexivity|].
  refine (proj1 (proj2 (proj2 (miniblock_split_safe (page sample_chunks) sample_shape _ _ _) 40 _ _ _))).
  - apply (bool_decide_unpack _). vm_compute. exact I.
  - vm_compute. reflexivity.
  - vm_compute. discriminate.
  - lia.
  - vm_compute. reflexivity.
Defined.

End MiniBlock.
