(* ===== verification/FullZip.v ===== *)
(** * FullZip: the row grammar of full-zip pages (src/encoding/layout/full_zip.hpp and .cpp)

    A full-zip page stores its levels one after the other: a control word, then the value's slot where the level
    has one. The writer's append, the repetition index, and the reader over untrusted bytes. *)

From S2P Require Import Prelude ReadSafety.

Module FullZip.

Definition put_le (v : Z) (bytes : Z) : list Z := le_bytes (Z.to_nat bytes) v.
Definition get_le (data : list Z) (at_ bytes : Z) : Z := le_value (take (Z.to_nat bytes) (drop (Z.to_nat at_) data)).

Definition control_bytes (bits_rep bits_def : Z) : Z :=
  let bits := u32 (bits_rep + bits_def) in
  if bits =? 0 then 0 else if bits <=? 8 then 1 else if bits <=? 16 then 2 else 4.

Record RowShape := mkRowShape { bits_rep : Z; bits_def : Z; max_visible_def : Z; value_bytes : Z; length_bytes : Z }.

Definition control (shape : RowShape) : Z := control_bytes (bits_rep shape) (bits_def shape).

Record Level := mkLevel { lv_rep : Z; lv_def : Z; visible : bool; has_value : bool; value_at : Z; value_size : Z }.

(** ** Writing *)

(** [value]: null or the bytes. *)
Definition append_level (out : list Z) (control word : Z) (value : option (list Z)) (length_bytes : Z) : list Z :=
  out ++ put_le word control ++ match value with None => [] | Some value => put_le (zlen value) length_bytes ++ value end.

Definition index_width (starts : list Z) : Z := match last starts with Some back => if back <=? 2 ^ 32 - 1 then 4 else 8 | None => 4 end.

Definition repetition_index (starts : list Z) : list Z := concat ((fun s => put_le s (index_width starts)) <$> starts).

(** ** Reading *)

(** The low [bits] bits of a control word; the layouts have at most 16 of each. *)
Definition level_mask (bits : Z) : Z := if bits =? 0 then 0 else u32 (Z.shiftl 1 bits) - 1.

(** The level at [at_], and where the next one starts. *)
Definition next_level (data : list Z) (at_ : Z) (shape : RowShape) : res (Level * Z) :=
  let control := control shape in
  if negb (control =? 0) && (zlen data - at_ <? control) then Err "FullZip page truncated in a control word"
  else
    let word := if control =? 0 then 0 else u32 (get_le data at_ control) in
    let at_ := at_ + control in
    let def := if control =? 0 then 0 else Z.land word (level_mask (bits_def shape)) in
    let rep := if control =? 0 then 0 else if 32 <=? bits_def shape then 0 else Z.land (Z.shiftr word (bits_def shape)) (level_mask (bits_rep shape)) in
    if max_visible_def shape <? def then Ok (mkLevel rep def false false 0 0, at_)
    else if length_bytes shape =? 0 then
      if zlen data - at_ <? value_bytes shape then Err "FullZip page truncated in a value"
      else Ok (mkLevel rep def true true at_ (value_bytes shape), at_ + value_bytes shape)
    else if negb (def =? 0) then Ok (mkLevel rep def true false 0 0, at_)
    else if zlen data - at_ <? length_bytes shape then Err "FullZip page truncated in a length"
    else
      let length := get_le data at_ (length_bytes shape) in
      let at_ := at_ + length_bytes shape in
      if zlen data - at_ <? length then Err "FullZip value runs past the page"
      else Ok (mkLevel rep def true true at_ length, at_ + length).

(** A level takes at least a byte of control word; [None]: the loop has not ended. *)
Fixpoint count_loop (fuel : nat) (data : list Z) (shape : RowShape) (at_ levels visible_ : Z) : option (res (Z * Z)) :=
  if zlen data <=? at_ then Some (Ok (levels, visible_))
  else
    match fuel with
    | O => None
    | S fuel =>
        match next_level data at_ shape with
        | Err e => Some (Err e)
        | Ok (level, at_) => count_loop fuel data shape at_ (levels + 1) (visible_ + if visible level then 1 else 0)
        end
    end.

Definition count_levels (data : list Z) (shape : RowShape) : option (res (Z * Z)) :=
  if control shape =? 0 then Some (Err "a FullZip page window without control words") else count_loop (length data) data shape 0 0 0.

Definition repetition_index_width (index_bytes rows : Z) : Z :=
  let entries := u64 (rows + 1) in
  if (index_bytes =? 0) || negb (index_bytes mod entries =? 0) then 0
  else
    let width := index_bytes / entries in
    if (width =? 1) || (width =? 2) || (width =? 4) || (width =? 8) then width else 0.

Definition repetition_index_entry (index : list Z) (width k : Z) : Z := get_le index (k * width) width.

(** ** Levels written and read back *)

(** A level of a page: its repetition and definition levels and its slot's value. *)
Record Row := mkRow { w_rep : Z; w_def : Z; w_value : option (list Z) }.

Definition control_word_of (shape : RowShape) (r : Row) : Z := Z.lor (Z.shiftl (w_rep r) (bits_def shape)) (w_def r).

Definition row_bytes (shape : RowShape) (r : Row) : list Z := append_level [] (control shape) (control_word_of shape r) (w_value r) (length_bytes shape).

(** A shape of the format. *)
Record shape_ok (shape : RowShape) : Prop := {
  ok_bits_rep : 0 <= bits_rep shape <= 16;
  ok_bits_def : 0 <= bits_def shape <= 16;
  ok_value_bytes : 0 <= value_bytes shape;
  ok_length_bytes : length_bytes shape ∈ [0; 4; 8]
}.

(** A level's numbers fit their bits, and it has a value where the grammar gives it a slot. *)
Record row_ok (shape : RowShape) (r : Row) : Prop := {
  row_rep : 0 <= w_rep r < 2 ^ bits_rep shape;
  row_def : 0 <= w_def r < 2 ^ bits_def shape;
  row_value :
    match w_value r with
    | None => max_visible_def shape < w_def r \/ (length_bytes shape <> 0 /\ w_def r <> 0)
    | Some v => w_def r <= max_visible_def shape /\
        if length_bytes shape =? 0 then zlen v = value_bytes shape else w_def r = 0 /\ zlen v < 2 ^ (8 * length_bytes shape)
    end
}.

(** The level the reader sees, at its place in the page. *)
Definition read_as (shape : RowShape) (r : Row) (level : Level) (data : list Z) : Prop :=
  lv_rep level = w_rep r /\ lv_def level = w_def r /\ visible level = (w_def r <=? max_visible_def shape) /\
  has_value level = bool_decide (is_Some (w_value r)) /\
  forall v, w_value r = Some v -> take (Z.to_nat (value_size level)) (drop (Z.to_nat (value_at level)) data) = v.

Lemma level_mask_low bits v : 0 <= bits <= 16 -> Z.land v (level_mask bits) = v mod 2 ^ bits.
Proof.
  intros Hb. unfold level_mask. destruct (Z.eqb_spec bits 0) as [->|]; [by rewrite Z.land_0_r, Z.mod_1_r|].
  rewrite Z.shiftl_1_l, u32_small; [apply land_low; lia|]. split; [apply Z.pow_nonneg; lia | apply Z.pow_lt_mono_r; lia].
Qed.

Lemma get_le_mid pre v bytes post :
  0 <= bytes -> 0 <= v < 2 ^ (8 * bytes) -> get_le (pre ++ put_le v bytes ++ post) (zlen pre) bytes = v.
Proof.
  intros Hb Hv. unfold get_le, put_le, zlen. rewrite Nat2Z.id, drop_app_length, take_app_length' by (by rewrite length_le_bytes).
  apply le_value_le_bytes. by rewrite Z2Nat.id.
Qed.

Lemma zlen_put_le v bytes : 0 <= bytes -> zlen (put_le v bytes) = bytes.
Proof. intros. unfold put_le. rewrite zlen_le_bytes. lia. Qed.

(** The control word holds both levels. *)
Lemma control_word_parts shape r :
  shape_ok shape -> row_ok shape r ->
  let word := control_word_of shape r in
  0 <= word < 2 ^ (8 * control shape) /\ 0 <= control shape <= 4 /\ word < 2 ^ 32 /\
  (if control shape =? 0 then 0 else Z.land word (level_mask (bits_def shape))) = w_def r /\
  (if control shape =? 0 then 0 else Z.land (Z.shiftr word (bits_def shape)) (level_mask (bits_rep shape))) = w_rep r.
Proof.
  intros [Hbr Hbd _ _] [Hr Hd _]. unfold control, control_bytes, control_word_of. rewrite (u32_small (_ + _)) by (unfold is_u32; lia).
  rewrite Z.lor_comm, lor_shiftl_add by lia. cbv zeta. set (br := bits_rep shape) in *. set (bd := bits_def shape) in *.
  assert (0 <= w_def r + w_rep r * 2 ^ bd < 2 ^ (br + bd)) as Hw by (rewrite Z.pow_add_r by lia; nia).
  assert (forall n, br + bd <= n -> w_def r + w_rep r * 2 ^ bd < 2 ^ n) as Hfit.
  { intros n Hn. eapply Z.lt_le_trans; [apply Hw|]. apply Z.pow_le_mono_r; lia. }
  assert (0 < 2 ^ bd) by (apply Z.pow_pos_nonneg; lia). assert (0 < 2 ^ br) by (apply Z.pow_pos_nonneg; lia).
  rewrite !level_mask_low by lia. rewrite Z.shiftr_div_pow2 by lia. rewrite Z.mod_add, Z.div_add by lia. rewrite (Z.mod_small (w_def r)), (Z.div_small (w_def r)), Z.add_0_l, Z.mod_small by lia.
  destruct (Z.eqb_spec (br + bd) 0) as [E|].
  { assert (br = 0 /\ bd = 0) as [-> ->] by lia. change (2 ^ 0) with 1 in *. cbn. lia. }
  destruct (Z.leb_spec (br + bd) 8); [|destruct (Z.leb_spec (br + bd) 16)]; cbn [Z.eqb]; pose proof (Hfit 32 ltac:(lia)).
  - pose proof (Hfit 8 ltac:(lia)). split_and!; lia.
  - pose proof (Hfit 16 ltac:(lia)). split_and!; lia.
  - split_and!; lia.
Qed.

Lemma row_bytes_parts shape r :
  row_bytes shape r = put_le (control_word_of shape r) (control shape) ++
    match w_value r with None => [] | Some v => put_le (zlen v) (length_bytes shape) ++ v end.
Proof. done. Qed.

Lemma next_level_row shape r pre post :
  shape_ok shape -> row_ok shape r ->
  exists level, next_level (pre ++ row_bytes shape r ++ post) (zlen pre) shape = Ok (level, zlen pre + zlen (row_bytes shape r)) /\
    read_as shape r level (pre ++ row_bytes shape r ++ post).
Proof.
  intros Hs Hr. destruct (control_word_parts shape r Hs Hr) as (Hw & Hc & Hw32 & Hdef & Hrep). destruct Hs as [Hbr Hbd Hvb Hlb]. destruct Hr as [_ Hd Hv].
  unfold next_level. rewrite row_bytes_parts in *. set (word := control_word_of shape r) in *. set (c := control shape) in *.
  set (slot := match w_value r with None => [] | Some v => put_le (zlen v) (length_bytes shape) ++ v end) in *.
  pose proof (zlen_nonneg pre). pose proof (zlen_nonneg post). pose proof (zlen_nonneg slot). rewrite !zlen_app, zlen_put_le by lia.
  replace (negb (c =? 0) && (zlen pre + (c + zlen slot + zlen post) - zlen pre <? c)) with false
    by (symmetry; apply andb_false_intro2, Z.ltb_ge; lia).
  assert (u32 (get_le (pre ++ (put_le word c ++ slot) ++ post) (zlen pre) c) = word) as ->.
  { rewrite <- app_assoc, get_le_mid by lia. apply u32_small. unfold is_u32. lia. }
  replace (32 <=? bits_def shape) with false by (symmetry; apply Z.leb_gt; lia).
  replace (if c =? 0 then 0 else Z.land (if c =? 0 then 0 else word) (level_mask (bits_def shape))) with (w_def r) by (rewrite <- Hdef; by destruct (c =? 0)).
  replace (if c =? 0 then 0 else Z.land (Z.shiftr (if c =? 0 then 0 else word) (bits_def shape)) (level_mask (bits_rep shape))) with (w_rep r) by (rewrite <- Hrep; by destruct (c =? 0)).
  clear Hdef Hrep Hw Hw32. unfold read_as. destruct (w_value r) as [v|] eqn:Ev.
  - destruct Hv as [Hvis Hv]. rewrite (proj2 (Z.ltb_ge (max_visible_def shape) _)) by done. rewrite (proj2 (Z.leb_le (w_def r) _)) by done. pose proof (zlen_nonneg v).
    destruct (Z.eqb_spec (length_bytes shape) 0) as [E|Hne].
    + assert (slot = v) as Hsl by (subst slot; rewrite E; done). rewrite Hsl in *. rewrite (proj2 (Z.ltb_ge _ (value_bytes shape))) by lia.
      exists (mkLevel (w_rep r) (w_def r) true true (zlen pre + c) (value_bytes shape)). split; [do 2 f_equal; lia|]. split_and!; [done..|]. intros v' [= <-]. cbn [value_size value_at].
      replace (pre ++ (put_le word c ++ v) ++ post) with ((pre ++ put_le word c) ++ v ++ post) by (by rewrite <- !app_assoc).
      rewrite drop_app_length' by (rewrite length_app; unfold put_le, zlen; rewrite length_le_bytes; lia). apply take_app_length'. unfold zlen in Hv. lia.
    + destruct Hv as [Hd0 Hlen]. rewrite Hd0. cbn [Z.eqb negb]. assert (length_bytes shape = 4 \/ length_bytes shape = 8) as Hl48.
      { rewrite !elem_of_cons, elem_of_nil in Hlb. destruct Hlb as [?|[?|[?|[]]]]; lia. }
      set (lb := length_bytes shape) in *. assert (slot = put_le (zlen v) lb ++ v) as Hsl by done.
      assert (zlen slot = lb + zlen v) as Hsz by (rewrite Hsl, zlen_app, zlen_put_le by lia; lia).
      rewrite (proj2 (Z.ltb_ge _ lb)) by lia.
      assert (get_le (pre ++ (put_le word c ++ slot) ++ post) (zlen pre + c) lb = zlen v) as ->.
      { replace (pre ++ (put_le word c ++ slot) ++ post) with ((pre ++ put_le word c) ++ put_le (zlen v) lb ++ v ++ post) by (rewrite Hsl; by rewrite <- !app_assoc).
        rewrite <- (zlen_put_le word c) at 2 by lia. rewrite <- zlen_app. apply get_le_mid; lia. }
      rewrite (proj2 (Z.ltb_ge _ (zlen v))) by lia. exists (mkLevel (w_rep r) 0 true true (zlen pre + c + lb) (zlen v)). split; [do 2 f_equal; lia|]. split_and!; [done..|]. intros v' [= <-]. cbn [value_size value_at].
      replace (pre ++ (put_le word c ++ slot) ++ post) with ((pre ++ put_le word c ++ put_le (zlen v) lb) ++ v ++ post) by (rewrite Hsl; by rewrite <- !app_assoc).
      rewrite drop_app_length' by (rewrite !length_app; unfold put_le, zlen; rewrite !length_le_bytes; lia). apply take_app_length'. unfold zlen. lia.
  - assert (slot = []) as Hsl by done. rewrite Hsl. change (zlen []) with 0 in *. destruct (Z.ltb_spec (max_visible_def shape) (w_def r)) as [Hm|Hm].
    + exists (mkLevel (w_rep r) (w_def r) false false 0 0). split; [do 2 f_equal; lia|]. rewrite (proj2 (Z.leb_gt _ _)) by done. split_and!; done.
    + destruct Hv as [|[Hl Hd0]]; [lia|]. rewrite (proj2 (Z.eqb_neq _ 0)), (proj2 (Z.eqb_neq (w_def r) 0)) by done. cbn [negb].
      exists (mkLevel (w_rep r) (w_def r) true false 0 0). split; [do 2 f_equal; lia|]. rewrite (proj2 (Z.leb_le _ _)) by done. split_and!; done.
Qed.

(** ** Pages *)

Definition page (shape : RowShape) (rows : list Row) : list Z := concat (row_bytes shape <$> rows).

(** Where row [k] starts, for every row and the end. *)
Definition start (shape : RowShape) (rows : list Row) (k : nat) : Z := zlen (page shape (take k rows)).
Definition starts (shape : RowShape) (rows : list Row) : list Z := start shape rows <$> seq 0 (S (length rows)).

Lemma page_app shape rows1 rows2 : page shape (rows1 ++ rows2) = page shape rows1 ++ page shape rows2.
Proof. unfold page. by rewrite fmap_app, concat_app. Qed.

Lemma start_le shape rows k : 0 <= start shape rows k <= zlen (page shape rows).
Proof.
  unfold start. split; [apply zlen_nonneg|]. rewrite <- (take_drop k rows) at 2. rewrite page_app, zlen_app. pose proof (zlen_nonneg (page shape (drop k rows))). lia.
Qed.

Lemma page_at shape rows k r :
  rows !! k = Some r -> page shape rows = page shape (take k rows) ++ row_bytes shape r ++ page shape (drop (S k) rows) /\
  start shape rows (S k) = start shape rows k + zlen (row_bytes shape r).
Proof.
  intros Hk. split.
  - rewrite <- (take_drop_middle rows k r Hk) at 1. by rewrite page_app.
  - unfold start. rewrite (take_S_r _ _ _ Hk), page_app, zlen_app. unfold page at 2. cbn. by rewrite app_nil_r.
Qed.

Lemma row_bytes_pos shape r : 0 < control shape -> 0 < zlen (row_bytes shape r).
Proof.
  intros Hc. rewrite row_bytes_parts, zlen_app, zlen_put_le by lia. match goal with |- context [_ + zlen ?l] => pose proof (zlen_nonneg l) end. lia.
Qed.

Lemma count_rows shape rows pre fuel levels visible_ :
  shape_ok shape -> 0 < control shape -> Forall (row_ok shape) rows -> (length rows <= fuel)%nat ->
  count_loop fuel (pre ++ page shape rows) shape (zlen pre) levels visible_ =
  Some (Ok (levels + zlen rows, visible_ + zlen (filter (fun r => w_def r <= max_visible_def shape) rows))).
Proof.
  intros Hs Hc Hr. revert pre fuel levels visible_. induction Hr as [|r rows Hr _ IH]; intros pre fuel levels vis Hf.
  { unfold page. cbn [fmap list_fmap concat]. rewrite app_nil_r. change (zlen (@nil Row)) with 0. change (zlen (filter _ [])) with 0. rewrite !Z.add_0_r.
    destruct fuel; cbn [count_loop]; by rewrite Z.leb_refl. }
  destruct fuel as [|fuel]; cbn [length] in Hf; [lia|]. change (page shape (r :: rows)) with (row_bytes shape r ++ page shape rows). cbn [count_loop].
  pose proof (row_bytes_pos shape r Hc). pose proof (zlen_nonneg (page shape rows)). rewrite !zlen_app. rewrite (proj2 (Z.leb_gt _ _)) by lia.
  destruct (next_level_row shape r pre (page shape rows) Hs Hr) as (level & -> & Hl). destruct Hl as (_ & _ & Hvis & _).
  rewrite app_assoc, <- zlen_app, IH by lia. rewrite Hvis, zlen_cons, filter_cons. do 3 f_equal; [lia|].
  destruct (Z.leb_spec (w_def r) (max_visible_def shape)); [rewrite decide_True, zlen_cons by done | rewrite decide_False by lia]; lia.
Qed.

Lemma index_entries width (values : list Z) k v :
  0 <= width -> values !! k = Some v -> 0 <= v < 2 ^ (8 * width) ->
  repetition_index_entry (concat ((fun s => put_le s width) <$> values)) width (Z.of_nat k) = v.
Proof.
  intros Hw Hk Hv. unfold repetition_index_entry. rewrite <- (take_drop_middle values k v Hk). rewrite fmap_app, fmap_cons, concat_app. cbn [concat].
  assert (Z.of_nat k * width = zlen (concat ((fun s => put_le s width) <$> take k values))) as ->; [|by apply get_le_mid].
  apply lookup_lt_Some in Hk. rewrite <- (length_take_le values k) at 1 by lia. generalize (take k values). intros l.
  induction l as [|x l IH]; [done|]. rewrite fmap_cons. cbn [concat length]. rewrite zlen_app, zlen_put_le, <- IH by done. lia.
Qed.

Lemma index_length width (values : list Z) : 0 <= width -> zlen (concat ((fun s => put_le s width) <$> values)) = width * zlen values.
Proof. intros Hw. induction values as [|x l IH]; [change (0 = width * 0); lia|]. rewrite fmap_cons, zlen_cons. cbn [concat]. rewrite zlen_app, zlen_put_le, IH by done. lia. Qed.

Lemma starts_last shape rows : last (starts shape rows) = Some (zlen (page shape rows)).
Proof.
  unfold starts. rewrite seq_S, fmap_app. cbn [fmap list_fmap Nat.add]. rewrite last_snoc. unfold start. by rewrite take_ge by lia.
Qed.

(** C31: (roundtrip): a full-zip page is read back row by row: from where a row starts the reader gives its levels and
    its value's bytes and moves to where the next row starts; counting the levels of a page gives its rows and
    those with a value slot; and the repetition index gives each row's start, at the width the reader finds. *)
Theorem full_zip_roundtrip shape rows :
  shape_ok shape -> Forall (row_ok shape) rows ->
  (forall k r, rows !! k = Some r ->
    exists level, next_level (page shape rows) (start shape rows k) shape = Ok (level, start shape rows (S k)) /\ read_as shape r level (page shape rows)) /\
  (0 < control shape ->
    count_levels (page shape rows) shape = Some (Ok (zlen rows, zlen (filter (fun r => w_def r <= max_visible_def shape) rows)))) /\
  (zlen (page shape rows) < 2 ^ 64 -> zlen rows < 2 ^ 32 -> forall k, (k <= length rows)%nat ->
    let index := repetition_index (starts shape rows) in
    repetition_index_entry index (repetition_index_width (zlen index) (zlen rows)) (Z.of_nat k) = start shape rows k).
Proof.
  intros Hs Hr. split_and!.
  - intros k r Hk. destruct (page_at shape rows k r Hk) as (Hp & ->). rewrite Hp. unfold start. apply next_level_row; [done|]. exact (proj1 (Forall_lookup _ _) Hr k r Hk).
  - intros Hc. unfold count_levels. rewrite (proj2 (Z.eqb_neq _ _)) by lia. rewrite (count_rows shape rows [] _ 0 0 Hs Hc Hr); [done|].
    clear -Hc. induction rows as [|r rows IH]; [done|]. change (page shape (r :: rows)) with (row_bytes shape r ++ page shape rows). cbn [app length] in *. rewrite length_app.
    pose proof (row_bytes_pos shape r Hc). unfold zlen in *. lia.
  - intros Hsize Hrows k Hk. cbv zeta. unfold repetition_index. set (width := index_width (starts shape rows)).
    assert (width = 4 /\ zlen (page shape rows) < 2 ^ 32 \/ width = 8) as Hwidth.
    { subst width. unfold index_width. rewrite starts_last. destruct (Z.leb_spec (zlen (page shape rows)) (2 ^ 32 - 1)); [left; lia | by right]. }
    assert (zlen (starts shape rows) = zlen rows + 1) as Hn by (unfold starts, zlen; rewrite length_fmap, length_seq; lia). pose proof (zlen_nonneg rows).
    assert (repetition_index_width (zlen (concat ((fun s => put_le s width) <$> starts shape rows))) (zlen rows) = width) as ->.
    { rewrite index_length, Hn by lia. unfold repetition_index_width. rewrite u64_small by (unfold is_u64; lia). rewrite Z.mod_mul, Z.div_mul by lia.
      rewrite (proj2 (Z.eqb_neq _ 0)) by lia. destruct Hwidth as [[-> _]| ->]; done. }
    apply index_entries; [lia | |].
    + unfold starts. rewrite list_lookup_fmap, lookup_seq_lt by lia. done.
    + pose proof (start_le shape rows k). destruct Hwidth as [[-> ?]| ->]; [change (8 * 4) with 32 | change (8 * 8) with 64]; lia.
Qed.

(** ** Untrusted pages *)

Lemma next_level_inside data at_ shape level next :
  bytes_ok data -> 0 <= at_ <= zlen data -> 0 <= value_bytes shape -> 0 <= length_bytes shape ->
  next_level data at_ shape = Ok (level, next) ->
  at_ + control shape <= next <= zlen data /\ (has_value level = true -> at_ <= value_at level /\ 0 <= value_size level /\ value_at level + value_size level = next).
Proof.
  intros Hok Hat Hv Hl. assert (0 <= control shape <= 4) as Hc by (unfold control, control_bytes; repeat case_match; lia).
  assert (forall a n, 0 <= get_le data a n) as Hget.
  { intros a n. unfold get_le. apply le_value_range, Forall_take, Forall_drop, Hok. }
  unfold next_level. set (c := control shape) in *. destruct (negb (c =? 0) && _) eqn:Ec; [done|].
  assert (at_ + c <= zlen data) as Hin.
  { apply andb_false_iff in Ec as [E%negb_false_iff%Z.eqb_eq|E%Z.ltb_ge]; lia. }
  destruct (_ <? (if c =? 0 then 0 else _)); [intros [<- <-]%Ok_pair_inv; cbn; lia|].
  destruct (Z.eqb_spec (length_bytes shape) 0).
  { destruct (Z.ltb_spec (zlen data - (at_ + c)) (value_bytes shape)); [done|]. intros [<- <-]%Ok_pair_inv. cbn. lia. }
  match goal with |- (if ?b then _ else _) = _ -> _ => destruct b end; [intros [<- <-]%Ok_pair_inv; cbn; lia|]. destruct (Z.ltb_spec (zlen data - (at_ + c)) (length_bytes shape)); [done|].
  destruct (Z.ltb_spec (zlen data - (at_ + c + length_bytes shape)) (get_le data (at_ + c) (length_bytes shape))); [done|].
  intros [<- <-]%Ok_pair_inv. cbn. pose proof (Hget (at_ + c) (length_bytes shape)). lia.
Qed.

Lemma count_loop_ends fuel data shape at_ levels visible_ :
  bytes_ok data -> 0 < control shape -> 0 <= value_bytes shape -> 0 <= length_bytes shape -> 0 <= at_ <= zlen data -> zlen data - at_ <= Z.of_nat fuel ->
  exists r, count_loop fuel data shape at_ levels visible_ = Some r.
Proof.
  intros Hok Hc Hv Hl. revert at_ levels visible_. induction fuel as [|fuel IH]; intros at_ levels vis Hat Hf; cbn [count_loop].
  { rewrite (proj2 (Z.leb_le _ _)) by lia. by eexists. }
  destruct (zlen data <=? at_); [by eexists|]. destruct (next_level data at_ shape) as [[level next]|e] eqn:E; [|by eexists].
  destruct (next_level_inside _ _ _ _ _ Hok Hat Hv Hl E) as (H1 & _). apply IH; lia.
Qed.

(** (safety): whatever the bytes of a full-zip page, a level the reader accepts and its value lie inside the page,
    and counting the levels ends. *)
Theorem full_zip_reads_inside data shape :
  bytes_ok data -> 0 <= value_bytes shape -> 0 <= length_bytes shape ->
  (forall at_ level next, 0 <= at_ <= zlen data -> next_level data at_ shape = Ok (level, next) ->
    at_ <= next <= zlen data /\ (has_value level = true -> at_ <= value_at level /\ value_at level + value_size level <= zlen data)) /\
  exists r, count_levels data shape = Some r.
Proof.
  intros Hok Hv Hl. assert (0 <= control shape) as Hc by (unfold control, control_bytes; repeat case_match; lia). split.
  - intros at_ level next Hat E. destruct (next_level_inside _ _ _ _ _ Hok Hat Hv Hl E) as (H1 & H2). split; [lia|]. intros Hh%H2. lia.
  - unfold count_levels. destruct (Z.eqb_spec (control shape) 0); [by eexists|]. pose proof (zlen_nonneg data). apply count_loop_ends; (done || lia || unfold zlen; lia).
Qed.

(** Strings behind 4-byte lengths: one, a null (definition level 1) and an empty list (level 2). *)
Definition sample_shape : RowShape := mkRowShape 1 2 1 0 4.
Definition sample_rows : list Row := [mkRow 1 0 (Some [104; 105]); mkRow 0 1 None; mkRow 1 2 None].

Lemma sample_shape_ok : shape_ok sample_shape.
Proof. split; cbn; [lia | lia | lia | set_solver]. Qed.

Lemma zip_rows_ok : Forall (row_ok sample_shape) sample_rows.
Proof. apply List.Forall_cons; [|apply List.Forall_cons; [|apply List.Forall_cons; [|apply List.Forall_nil]]]; split; cbn; try lia. change (zlen [104; 105]) with 2. lia. Qed.

Lemma full_zip_roundtrip_witness :
  page sample_shape sample_rows = [4; 2; 0; 0; 0; 104; 105; 1; 6] /\
  count_levels (page sample_shape sample_rows) sample_shape = Some (Ok (3, 2)) /\
  repetition_index_entry (repetition_index (starts sample_shape sample_rows)) 4 2 = 8.
Proof.
  destruct (full_zip_roundtrip sample_shape sample_rows sample_shape_ok zip_rows_ok) as (_ & H2 & H3).
  split; [vm_compute; reflexivity|]. split; [apply H2; vm_compute; reflexivity|].
  exact (H3 ltac:(vm_compute; reflexivity) ltac:(vm_compute; reflexivity) 2%nat ltac:(cbn; lia)).
Defined.

Lemma full_zip_reads_inside_witness : exists r, count_levels [4; 200; 0; 0; 0; 1] sample_shape = Some r /\ r = Err "FullZip value runs past the page".
Proof.
  destruct (full_zip_reads_inside [4; 200; 0; 0; 0; 1] sample_shape) as (_ & r & Hr).
  - apply (bool_decide_unpack _). vm_compute. exact I.
  - cbn. lia.
  - cbn. lia.
  - exists r. split; [exact Hr|]. vm_compute in Hr. injection Hr as <-. reflexivity.
Defined.

End FullZip.
