(* ===== verification/Dictionary.v ===== *)
(** * Dictionary: dictionary blocks (src/encoding/values/dictionary.hpp and .cpp)

    The entries of a dictionary page, with offsets or of one width (then possibly bit-packed): both directions,
    the reader over untrusted bytes. *)

From S2P Require Import Prelude ReadSafety Bitpack.

Module Dictionary.

(** ** Writing *)

Definition append_word (v : Z) (large : bool) : list Z := le_bytes (if large then 8 else 4)%nat v.

(** The running end of the entries. *)
Fixpoint offsets_after (cum : Z) (entries : list (list Z)) : list Z :=
  match entries with [] => [] | s :: entries => u64 (cum + zlen s) :: offsets_after (u64 (cum + zlen s)) entries end.

Definition encode_variable (entries : list (list Z)) (large : bool) : list Z :=
  let n := zlen entries in
  let word := if large then 8 else 4 in
  append_word (if large then 64 else 32) large ++ append_word (u64 (2 * word + (n + 1) * word)) large ++ append_word 0 large ++
  concat ((fun cum => append_word cum large) <$> offsets_after 0 entries) ++ concat entries.

Definition encode_fixed (entries : list (list Z)) : list Z := concat entries.

(** ** Reading *)

Record Block := mkBlock { bytes : list Z; ranges : list (Z * Z); value_bytes : Z; count : Z }.

Definition is_fixed_width (b : Block) : bool := negb (value_bytes b =? 0).

(** [entry] and [entry_size]: the bytes of entry [index]. *)
Definition entry (b : Block) (index : nat) : Z := if is_fixed_width b then Z.of_nat index * value_bytes b else (nth index (ranges b) (0, 0)).1.
Definition entry_size (b : Block) (index : nat) : Z := if is_fixed_width b then value_bytes b else (nth index (ranges b) (0, 0)).2.

Record Shape := mkShape { fixed_value_bytes : Z; sh_count : Z; inline_bitpacked : bool; out_of_line_bitpacked : bool; packed_width : Z }.

Section decoding.
  Context (packed_words_1024 : nat -> Z -> nat) (unpack_1024 : nat -> Z -> list Z -> list Z) (limits : ReadLimits).

Definition implausible (shape : Shape) : string :=
  "dictionary declares an implausible " +:+ pretty (sh_count shape) +:+ " entries of " +:+ pretty (fixed_value_bytes shape) +:+ " bytes".

Definition decode_fixed (bs : list Z) (shape : Shape) : res Block :=
  let value_bytes := fixed_value_bytes shape in
  let count := sh_count shape in
  match checked_mul count value_bytes with
  | Some needed =>
      if (count =? 0) || negb (fits_size_t needed) || (max_uncompressed_bytes limits <? needed) then Err (implausible shape)
      else if out_of_line_bitpacked shape then
        unpacked ← Bitpack.decode_out_of_line packed_words_1024 unpack_1024 bs (Z.to_nat count) (packed_width shape) value_bytes "dictionary block";
        Ok (mkBlock unpacked [] value_bytes count)
      else if inline_bitpacked shape then
        unpacked ← Bitpack.decode_series packed_words_1024 unpack_1024 bs count value_bytes;
        Ok (mkBlock unpacked [] value_bytes count)
      else if zlen bs <? needed then
        Err ("dictionary declares " +:+ pretty count +:+ " entries of " +:+ pretty value_bytes +:+ " bytes but the block holds " +:+ pretty (zlen bs))
      else Ok (mkBlock bs [] value_bytes count)
  | None => Err (implausible shape)
  end.

Definition read_word (bs : list Z) (word at_ : Z) : Z := le_value (take (Z.to_nat word) (drop (Z.to_nat at_) bs)).

(** The ranges of entries [d], [d + 1], ... *)
Fixpoint read_ranges (n : nat) (bs : list Z) (word bytes_start d : Z) : res (list (Z * Z)) :=
  match n with
  | O => Ok []
  | S n =>
      let a := read_word bs word (2 * word + d * word) in
      let b := read_word bs word (2 * word + (d + 1) * word) in
      if (b <? a) || (zlen bs - bytes_start <? b) then Err "dict offsets out of range"
      else rest ← read_ranges n bs word bytes_start (d + 1); Ok ((bytes_start + a, b - a) :: rest)
  end.

Definition decode_offsets (bs : list Z) : res Block :=
  if zlen bs <? 8 then Err "dict block too short"
  else
    let bits_per_offset := read_word bs 4 0 in
    let word := if bits_per_offset =? 64 then 8 else 4 in
    if zlen bs <? 2 * word then Err "dict block too short"
    else
      let bytes_start := read_word bs word word in
      if (bytes_start <? 3 * word) || (zlen bs <? bytes_start) || negb ((bytes_start - 2 * word) mod word =? 0) then Err "dict block header invalid"
      else
        let count := (bytes_start - 2 * word) / word - 1 in
        ranges ← read_ranges (Z.to_nat count) bs word bytes_start 0;
        Ok (mkBlock bs ranges 0 count).

Definition decode (bs : list Z) (shape : Shape) : res Block :=
  if negb (fixed_value_bytes shape =? 0) then decode_fixed bs shape else decode_offsets bs.

End decoding.

Example offsets_block :
  decode_offsets (encode_variable [[97; 98]; []; [99]] false) =
  Ok (mkBlock (encode_variable [[97; 98]; []; [99]] false) [(24, 2); (26, 0); (26, 1)] 0 3).
Proof. vm_compute. reflexivity. Qed.

(** ** Words of a block *)

Lemma zlen_append_word v large : zlen (append_word v large) = if large then 8 else 4.
Proof. unfold append_word. rewrite zlen_le_bytes. by destruct large. Qed.

Lemma read_word_mid pre v (large : bool) post :
  0 <= v < (if large then 2 ^ 64 else 2 ^ 32) -> read_word (pre ++ append_word v large ++ post) (if large then 8 else 4) (zlen pre) = v.
Proof.
  intros Hv. unfold read_word, append_word, zlen. rewrite Nat2Z.id, drop_app_length, take_app_length' by (rewrite length_le_bytes; by destruct large).
  apply le_value_le_bytes. by destruct large.
Qed.

(** Word [k] of words one after the other. *)
Lemma read_word_nth pre words (large : bool) post k v :
  words !! k = Some v -> 0 <= v < (if large then 2 ^ 64 else 2 ^ 32) ->
  read_word (pre ++ concat ((fun x => append_word x large) <$> words) ++ post) (if large then 8 else 4) (zlen pre + Z.of_nat k * (if large then 8 else 4)) = v.
Proof.
  intros Hk Hv. set (word := if large then 8 else 4). rewrite <- (take_drop_middle words k v Hk), fmap_app, fmap_cons, concat_app. cbn [concat].
  replace (pre ++ (concat ((fun x => append_word x large) <$> take k words) ++ append_word v large ++ concat ((fun x => append_word x large) <$> drop (S k) words)) ++ post)
    with ((pre ++ concat ((fun x => append_word x large) <$> take k words)) ++ append_word v large ++ concat ((fun x => append_word x large) <$> drop (S k) words) ++ post)
    by (by rewrite <- !app_assoc).
  assert (zlen pre + Z.of_nat k * word = zlen (pre ++ concat ((fun x => append_word x large) <$> take k words))) as ->; [|by apply read_word_mid].
  rewrite zlen_app. f_equal. apply lookup_lt_Some in Hk. rewrite <- (length_take_le words k) at 1 by lia. generalize (take k words). intros l.
  induction l as [|x l IH]; [done|]. rewrite fmap_cons. cbn [concat length]. rewrite zlen_app, zlen_append_word, <- IH. fold word. lia.
Qed.

(** Entry [k] ends after the entries up to it. *)
Lemma offsets_after_lookup cum entries k :
  0 <= cum -> cum + zlen (concat entries) < 2 ^ 64 -> (k < length entries)%nat ->
  offsets_after cum entries !! k = Some (cum + zlen (concat (take (S k) entries))).
Proof.
  revert cum k. induction entries as [|s entries IH]; intros cum k Hc Hb Hk; [cbn in Hk; lia|]. cbn [concat] in Hb. rewrite zlen_app in Hb.
  pose proof (zlen_nonneg s). pose proof (zlen_nonneg (concat entries)). cbn [offsets_after]. rewrite u64_small by (unfold is_u64; lia).
  destruct k as [|k]; cbn [lookup list_lookup take concat]; [by rewrite app_nil_r|]. cbn [length] in Hk. rewrite IH by lia.
  rewrite zlen_app. f_equal. lia.
Qed.

Lemma offsets_after_length cum entries : length (offsets_after cum entries) = length entries.
Proof. revert cum. induction entries as [|s entries IH]; intros cum; [done|]. cbn. by rewrite IH. Qed.

(** ** A block written with offsets *)

Section offsets.
  Context (entries : list (list Z)) (large : bool).
#[local] Notation word := (if large then 8 else 4).
#[local] Notation enc := (encode_variable entries large).
#[local] Notation data_start := (2 * word + (zlen entries + 1) * word).

(** Where the entries before [d] end, in the data. *)
Definition off (d : nat) : Z := zlen (concat (take d entries)).

  Context (Hsize : data_start + zlen (concat entries) < if large then 2 ^ 63 else 2 ^ 32).

Lemma word_pos : 4 <= word <= 8.
Proof using. clear. destruct large; lia. Qed.

Lemma off_le d : 0 <= off d <= zlen (concat entries).
Proof using.
  unfold off. split; [apply zlen_nonneg|]. rewrite <- (take_drop d entries) at 2. rewrite concat_app, zlen_app. pose proof (zlen_nonneg (concat (drop d entries))). lia.
Qed.

Lemma off_S d e : entries !! d = Some e -> off (S d) = off d + zlen e.
Proof using. intros Hd. unfold off. rewrite (take_S_r _ _ _ Hd), concat_app, zlen_app. cbn. by rewrite app_nil_r. Qed.

(** The words before the data. *)
Definition words : list Z := (if large then 64 else 32) :: data_start :: 0 :: offsets_after 0 entries.

Lemma encoded_words : enc = concat ((fun x => append_word x large) <$> words) ++ concat entries.
Proof using Hsize.
  unfold encode_variable, words. rewrite !fmap_cons. cbn [concat]. rewrite <- !app_assoc. f_equal. f_equal. f_equal.
  pose proof (zlen_nonneg (concat entries)). pose proof (zlen_nonneg entries). pose proof word_pos. apply u64_small. unfold is_u64. destruct large; lia.
Qed.

Lemma zlen_encoded : zlen enc = data_start + zlen (concat entries).
Proof using Hsize.
  rewrite encoded_words, zlen_app. f_equal. assert (forall l, zlen (concat ((fun x => append_word x large) <$> l)) = word * zlen l) as H.
  { induction l as [|x l IH]; [change (0 = word * 0); lia|]. rewrite fmap_cons, zlen_cons. cbn [concat]. rewrite zlen_app, zlen_append_word, IH. lia. }
  rewrite H. unfold words. rewrite !zlen_cons. unfold zlen at 1. rewrite offsets_after_length. unfold zlen. lia.
Qed.

Lemma read_encoded_word k v : words !! k = Some v -> 0 <= v < (if large then 2 ^ 64 else 2 ^ 32) -> read_word enc word (Z.of_nat k * word) = v.
Proof using Hsize. intros Hk Hv. rewrite encoded_words. by apply (read_word_nth [] words large (concat entries) k v). Qed.

Lemma read_offset d : (d <= length entries)%nat -> read_word enc word (2 * word + Z.of_nat d * word) = off d.
Proof using Hsize.
  intros Hd. pose proof (off_le d). pose proof word_pos. pose proof (zlen_nonneg entries). replace (2 * word + Z.of_nat d * word) with (Z.of_nat (2 + d) * word) by lia.
  apply read_encoded_word; [|destruct large; lia]. unfold words. cbn [Nat.add lookup list_lookup]. destruct d as [|d]; [done|]. cbn [lookup list_lookup].
  rewrite offsets_after_lookup by (try lia; destruct large; lia). done.
Qed.

Lemma read_ranges_encoded n d :
  (d + n = length entries)%nat ->
  read_ranges n enc word data_start (Z.of_nat d) = Ok ((fun k => (data_start + off k, off (S k) - off k)) <$> seq d n).
Proof using Hsize.
  revert d. induction n as [|n IH]; intros d Hd; [done|]. cbn [read_ranges seq]. rewrite fmap_cons.
  replace (Z.of_nat d + 1) with (Z.of_nat (S d)) by lia. rewrite !read_offset by lia. rewrite zlen_encoded.
  destruct (lookup_lt_is_Some_2 entries d ltac:(lia)) as (e & He). pose proof (off_S d e He). pose proof (zlen_nonneg e). pose proof (off_le (S d)).
  rewrite (proj2 (Z.ltb_ge (off (S d)) _)), (proj2 (Z.ltb_ge _ (off (S d)))) by lia. cbn [orb]. unfold mbind, res_bind. by rewrite IH by lia.
Qed.

Lemma decode_encoded_offsets :
  decode_offsets enc = Ok (mkBlock enc ((fun k => (data_start + off k, off (S k) - off k)) <$> seq 0 (length entries)) 0 (zlen entries)).
Proof using Hsize.
  pose proof zlen_encoded as Hl. pose proof (zlen_nonneg entries). pose proof (zlen_nonneg (concat entries)). pose proof word_pos.
  unfold decode_offsets. rewrite (proj2 (Z.ltb_ge _ 8)) by (destruct large; lia).
  assert (read_word enc 4 0 = if large then 64 else 32) as Hbits by (unfold encode_variable; by destruct large).
  rewrite Hbits. assert ((if (if large then 64 else 32) =? 64 then 8 else 4) = word) as -> by (by destruct large).
  rewrite (proj2 (Z.ltb_ge _ (2 * word))) by lia.
  assert (read_word enc word word = data_start) as ->.
  { replace word with (Z.of_nat 1 * word) at 2 by lia. apply read_encoded_word; [done | destruct large; lia]. }
  rewrite (proj2 (Z.ltb_ge _ (3 * word))), (proj2 (Z.ltb_ge _ data_start)) by lia.
  replace (data_start - 2 * word) with ((zlen entries + 1) * word) by lia. rewrite Z.mod_mul, Z.div_mul by lia. cbn [orb negb Z.eqb].
  replace (zlen entries + 1 - 1) with (zlen entries) by lia. replace (Z.to_nat (zlen entries)) with (length entries) by (unfold zlen; lia).
  pose proof (read_ranges_encoded (length entries) 0 ltac:(lia)) as Hr. change (Z.of_nat 0) with 0 in Hr. unfold mbind, res_bind. rewrite Hr. done.
Qed.

End offsets.

(** Entry [d] of a block. *)
Definition entry_bytes (b : Block) (d : nat) : list Z := take (Z.to_nat (entry_size b d)) (drop (Z.to_nat (entry b d)) (bytes b)).

Section properties.
  Context (packed_words_1024 : nat -> Z -> nat) (pack_1024 unpack_1024 : nat -> Z -> list Z -> list Z) (limits : ReadLimits).
  Context `{!Bitpack.FastLanes packed_words_1024 pack_1024 unpack_1024}.

(** the entries of a dictionary block with offsets, 32- or 64-bit, are the entries it was written from. *)
Theorem dictionary_roundtrip (entries : list (list Z)) (large : bool) count_ :
  2 * (if large then 8 else 4) + (zlen entries + 1) * (if large then 8 else 4) + zlen (concat entries) < (if large then 2 ^ 63 else 2 ^ 32) ->
  exists b, decode packed_words_1024 unpack_1024 limits (encode_variable entries large) (mkShape 0 count_ false false 0) = Ok b /\ count b = zlen entries /\
    forall d e, entries !! d = Some e -> entry_bytes b d = e.
Proof using.
  intros Hsize. unfold decode. cbn [fixed_value_bytes Z.eqb negb]. rewrite decode_encoded_offsets by done. eexists. split; [reflexivity|]. split; [done|].
  intros d e Hd. unfold entry_bytes, entry, entry_size, is_fixed_width. cbn [value_bytes ranges bytes Z.eqb negb]. apply lookup_lt_Some in Hd as Hlt.
  rewrite nth_lookup, list_lookup_fmap, lookup_seq_lt by done. cbn [fmap option_fmap option_map default fst snd Nat.add id].
  rewrite (off_S entries d e Hd). replace (off entries d + zlen e - off entries d) with (zlen e) by lia.
  pose proof (off_le entries d). pose proof (zlen_nonneg entries). pose proof (word_pos large).
  rewrite encoded_words by done. set (W := concat ((fun x => append_word x large) <$> words entries large)).
  assert (zlen W = 2 * (if large then 8 else 4) + (zlen entries + 1) * (if large then 8 else 4)) as HW.
  { pose proof (zlen_encoded entries large Hsize) as Hl. rewrite encoded_words in Hl by done. fold W in Hl. rewrite zlen_app in Hl. lia. }
  rewrite <- HW. assert (concat entries = concat (take d entries) ++ e ++ concat (drop (S d) entries)) as ->
    by (rewrite <- (take_drop_middle entries d e Hd) at 1; by rewrite concat_app).
  replace (Z.to_nat (zlen W + off entries d)) with (length (W ++ concat (take d entries))) by (rewrite length_app; unfold off, zlen; lia).
  rewrite app_assoc, drop_app_length. unfold zlen. rewrite Nat2Z.id. apply take_app_length.
Qed.

Lemma read_ranges_inside n bs w start d ranges_ :
  bytes_ok bs -> 0 <= start -> read_ranges n bs w start d = Ok ranges_ ->
  length ranges_ = n /\ Forall (fun r => start <= r.1 /\ 0 <= r.2 /\ r.1 + r.2 <= zlen bs) ranges_.
Proof using.
  intros Hok Hs. revert d ranges_. induction n as [|n IH]; intros d ranges_; cbn [read_ranges]; [intros [= <-]; by split|].
  set (a := read_word bs w (2 * w + d * w)). set (b := read_word bs w _). assert (0 <= a) as Ha by (apply le_value_range, Forall_take, Forall_drop, Hok).
  destruct (Z.ltb_spec b a); [done|]. destruct (Z.ltb_spec (zlen bs - start) b); [done|]. cbn [orb]. unfold mbind, res_bind.
  destruct (read_ranges n bs w start (d + 1)) as [rest|] eqn:E; [|done]. intros [= <-]. destruct (IH _ _ E) as (Hl & Hin).
  split; [cbn; by f_equal|]. constructor; [cbn; lia | done].
Qed.

(** (safety): whatever the bytes and the shape the descriptor declares, every entry of a dictionary block that is
    accepted lies inside the block's bytes. *)
Theorem dictionary_entries_inside bs shape b d :
  bytes_ok bs -> 0 <= fixed_value_bytes shape -> 0 <= sh_count shape ->
  decode packed_words_1024 unpack_1024 limits bs shape = Ok b -> (d < Z.to_nat (count b))%nat ->
  0 <= entry b d /\ 0 <= entry_size b d /\ entry b d + entry_size b d <= zlen (bytes b).
Proof.
  intros Hok Hv Hc. unfold decode. destruct (Z.eqb_spec (fixed_value_bytes shape) 0) as [E0|Hne]; cbn [negb].
  - unfold decode_offsets. destruct (zlen bs <? 8); [done|]. set (w := if _ =? 64 then 8 else 4). destruct (zlen bs <? 2 * w); [done|].
    set (start := read_word bs w w). destruct (Z.ltb_spec start (3 * w)); [done|]. cbn [orb]. destruct (_ || _); [done|].
    assert (4 <= w) as Hw by (subst w; case_match; lia). unfold mbind, res_bind.
    destruct (read_ranges _ bs w start 0) as [rs|] eqn:E; [|done]. intros [= <-] Hd. apply read_ranges_inside in E as (Hlen & Hin); [|done | lia].
    unfold entry, entry_size, is_fixed_width. cbn [value_bytes ranges bytes count Z.eqb negb] in *. rewrite !nth_lookup.
    destruct (lookup_lt_is_Some_2 rs d ltac:(lia)) as (r & Hr). rewrite Hr. cbn [default]. pose proof (proj1 (Forall_lookup _ _) Hin d r Hr). cbn in *. lia.
  - unfold decode_fixed. destruct (checked_mul _ _) as [needed|] eqn:Em; [|done]. apply checked_mul_Some in Em as [-> _]; [|done | done].
    assert (forall bs', (zlen bs' = sh_count shape * fixed_value_bytes shape \/ sh_count shape * fixed_value_bytes shape <= zlen bs') ->
      (d < Z.to_nat (sh_count shape))%nat -> let b := mkBlock bs' [] (fixed_value_bytes shape) (sh_count shape) in
      0 <= entry b d /\ 0 <= entry_size b d /\ entry b d + entry_size b d <= zlen (bytes b)) as Hfix.
    { intros bs' Hbs Hd. cbv zeta. unfold entry, entry_size, is_fixed_width. cbn [value_bytes bytes]. rewrite (proj2 (Z.eqb_neq _ _)) by done. cbn [negb]. nia. }
    destruct (_ || _); [done|]. unfold mbind, res_bind. destruct (out_of_line_bitpacked shape).
    { destruct (Bitpack.decode_out_of_line _ _ _ _ _ _ _) as [u|] eqn:E; [|done]. intros [= <-] Hd. apply Hfix; [|exact Hd]. left.
      rewrite (Bitpack.decode_out_of_line_length _ pack_1024 _ _ _ _ _ _ _ E), Z2Nat.id by done. done. }
    destruct (inline_bitpacked shape).
    { destruct (Bitpack.decode_series _ _ _ _ _) as [u|] eqn:E; [|done]. intros [= <-] Hd. apply Hfix; [|exact Hd]. left.
      exact (Bitpack.decode_series_length _ pack_1024 _ _ _ _ _ Hc E). }
    destruct (Z.ltb_spec (zlen bs) (sh_count shape * fixed_value_bytes shape)); [done|]. intros [= <-] Hd. apply Hfix; [by right | exact Hd].
Qed.

End properties.

Definition sample_entries : list (list Z) := [[110; 97; 110; 111]; []; [108]].

Lemma dictionary_roundtrip_witness :
  exists b, decode Bitpack.sample_packed_words Bitpack.sample_unpack initial_read_limits (encode_variable sample_entries true) (mkShape 0 0 false false 0) = Ok b /\
    entry_bytes b 0 = [110; 97; 110; 111] /\ entry_bytes b 2 = [108].
Proof.
  destruct (dictionary_roundtrip Bitpack.sample_packed_words Bitpack.sample_unpack initial_read_limits sample_entries true 0) as (b & Hb & _ & He);
    [vm_compute; reflexivity|].
  exists b. split; [exact Hb|]. split; apply He; reflexivity.
Defined.

Lemma dictionary_entries_inside_witness :
  exists b, decode Bitpack.sample_packed_words Bitpack.sample_unpack initial_read_limits (encode_variable sample_entries false) (mkShape 0 0 false false 0) = Ok b /\
    entry b 2 + entry_size b 2 <= zlen (bytes b).
Proof.
  eexists. split; [vm_compute; reflexivity|].
  refine (proj2 (proj2 (dictionary_entries_inside Bitpack.sample_packed_words Bitpack.sample_pack Bitpack.sample_unpack initial_read_limits
    (encode_variable sample_entries false) (mkShape 0 0 false false 0) _ 2 _ _ _ _ _))).
  - apply (bool_decide_unpack _). vm_compute. exact I.
  - cbn. lia.
  - cbn. lia.
  - vm_compute. reflexivity.
  - cbn. lia.
Defined.

End Dictionary.
