(* ===== verification/ScalarValue.v ===== *)
(** * ScalarValue: the value buffer of a constant page (src/encoding/values/scalar_value.cpp) *)

From S2P Require Import Prelude ReadSafety.

Module ScalarValue.

(** [write_u32]. *)
Definition write_u32 (v : Z) : list Z := le_bytes 4 v.

Definition encode_variable (value : list Z) (large : bool) : list Z :=
  write_u32 2 ++ write_u32 (if large then 16 else 8) ++ write_u32 (u32 (zlen value)) ++
  (if large then le_bytes 8 0 ++ le_bytes 8 (zlen value) else write_u32 0 ++ write_u32 (u32 (zlen value))) ++ value.

Definition load_u32 (buffer : list Z) (at_ : nat) : Z := load_le 4 (drop at_ buffer).

Definition decode_variable (buffer : list Z) : res (list Z) :=
  if zlen buffer <? 4 then Err "constant value buffer shorter than its header"
  else
    let num_buffers := load_u32 buffer 0 in
    if num_buffers =? 1 then
      if zlen buffer <? 8 then Err "constant value buffer shorter than its header"
      else
        let len := load_u32 buffer 4 in
        if zlen buffer - 8 <? len then Err "constant value buffer's data range exceeds the buffer" else Ok (take (Z.to_nat len) (drop 8 buffer))
    else if negb (num_buffers =? 2) then
      Err ("constant value buffer declares " +:+ pretty num_buffers +:+ " buffers; expected 1 (a fixed-width value) or 2 (offsets + data)")
    else
      match (header ← checked_mul num_buffers 4; checked_add header 4) with
      | None => Err "constant value buffer header exceeds the buffer"
      | Some header =>
          if zlen buffer <? header then Err "constant value buffer header exceeds the buffer"
          else
            let offsets_len := load_u32 buffer 4 in
            let data_len := load_u32 buffer 8 in
            match (data_start ← checked_add header offsets_len; data_end ← checked_add data_start data_len; Some (data_start, data_end)) with
            | None => Err "constant value buffer's data range exceeds the buffer"
            | Some (data_start, data_end) =>
                if zlen buffer <? data_end then Err "constant value buffer's data range exceeds the buffer"
                else Ok (take (Z.to_nat (data_end - data_start)) (drop (Z.to_nat data_start) buffer))
            end
      end.

Lemma load_u32_mid pre v rest n : is_u32 v -> n = length pre -> load_u32 (pre ++ write_u32 v ++ rest) n = v.
Proof. intros Hv ->. unfold load_u32. rewrite drop_app_length. by apply load_le_le_bytes. Qed.

(** The value of a constant page's buffer, of either offset width. *)
Lemma decode_encode_variable value large : zlen value < 2 ^ 32 -> decode_variable (encode_variable value large) = Ok value.
Proof.
  intros Hsize. pose proof (zlen_nonneg value). unfold encode_variable. rewrite u32_small by (unfold is_u32; lia).
  set (n := if large then 16 else 8). set (offsets := if large then le_bytes 8 0 ++ _ else _). assert (zlen offsets = n) as Hn by (by destruct large).
  assert (8 <= n <= 16) as Hn8 by (subst n; destruct large; lia). set (buffer := write_u32 2 ++ write_u32 n ++ write_u32 (zlen value) ++ offsets ++ value).
  assert (zlen buffer = 12 + n + zlen value) as Hlen by (subst buffer; rewrite !zlen_app, Hn; change (zlen (write_u32 _)) with 4; lia).
  assert (load_u32 buffer 0 = 2) as H0 by (by apply (load_u32_mid [])).
  assert (load_u32 buffer 4 = n) as H4 by (apply (load_u32_mid (write_u32 2)); [unfold is_u32; lia | done]).
  assert (load_u32 buffer 8 = zlen value) as H8.
  { subst buffer. rewrite app_assoc. apply (load_u32_mid (write_u32 2 ++ write_u32 n)); [unfold is_u32; lia | done]. }
  unfold decode_variable. rewrite (proj2 (Z.ltb_ge _ 4)) by lia. rewrite H0. cbn [Z.eqb Pos.eqb negb].
  change (header ← checked_mul 2 4; checked_add header 4) with (Some 12). cbv iota beta.
  rewrite (proj2 (Z.ltb_ge _ 12)) by lia. rewrite H4, H8.
  assert (forall a b, 0 <= a -> 0 <= b -> a + b < 2 ^ 40 -> checked_add a b = Some (a + b)) as Hadd.
  { intros a b Ha Hb Hs. unfold checked_add, U64_MAX. rewrite (proj2 (Z.ltb_ge _ _)) by lia. f_equal. apply u64_small. unfold is_u64. lia. }
  cbn [mbind option_bind]. repeat (rewrite Hadd by lia; cbn [mbind option_bind]). rewrite (proj2 (Z.ltb_ge _ _)) by lia. f_equal.
  replace (12 + n + zlen value - (12 + n)) with (zlen value) by lia.
  replace (Z.to_nat (12 + n)) with (length (write_u32 2 ++ write_u32 n ++ write_u32 (zlen value) ++ offsets)) by (rewrite !length_app; unfold zlen in Hn; cbn; lia).
  subst buffer. replace (write_u32 2 ++ write_u32 n ++ write_u32 (zlen value) ++ offsets ++ value) with ((write_u32 2 ++ write_u32 n ++ write_u32 (zlen value) ++ offsets) ++ value)
    by (by rewrite <- !app_assoc).
  rewrite drop_app_length. unfold zlen. rewrite Nat2Z.id. by apply take_ge.
Qed.

End ScalarValue.
