(* ===== verification/General.v ===== *)
(** * General: buffer compression (src/encoding/values/general.cpp)

    A buffer of a page behind its uncompressed size: zstd (by one call up to 64 MiB, streamed above), LZ4, or as
    it is. The zstd library is a parameter: its calls, and its stream as a step from one state to the next. *)

From S2P Require Import Prelude ReadSafety Lz4Block.

Module General.

(** [ZSTD_getFrameContentSize]. *)
Inductive ContentSize := Known (size : Z) | Unknown | ContentError.

(** [ZSTD_decompressStream]: an error, or the bytes written, the input bytes consumed, the hint returned (0: the frame
    ended) and the stream after. *)
Inductive StreamStep (St : Type) := StreamError | Step (written : list Z) (consumed : nat) (ret : Z) (st : St).
Arguments StreamError {St}.
Arguments Step {St} _ _ _ _.

(** The zstd library. *)
Record Zstd := mkZstd {
  zstd_compress : Z -> list Z -> res (list Z);
  zstd_content_size : list Z -> ContentSize;
  zstd_decompress : list Z -> Z -> option (list Z);
  stream_state : Type;
  stream_init : option stream_state;
  stream_step : stream_state -> list Z -> Z -> StreamStep stream_state
}.

Definition kPreallocateUpTo : Z := Z.shiftl 64 20.

Section framing.
  Context (zstd : Zstd) (lz4_block_decompress : list Z -> Z -> res (list Z)) (limits : ReadLimits).

Definition zstd_frame (raw : list Z) (level : Z) : res (list Z) :=
  match zstd_compress zstd level raw with
  | Err e => Err ("zstd compress failed: " +:+ e)
  | Ok frame => Ok (le_bytes 8 (zlen raw) ++ frame)
  end.

Definition lz4_frame (raw : list Z) : res (list Z) := Lz4Block.compress_sized raw.

(** A stream into a buffer of [capacity] that grows to at most [bound]; [grow]: the next capacity; [full]: what is
    said when the bound is reached with the frame not ended. [None]: the loop has not ended. *)
Fixpoint stream_loop (fuel : nat) (grow : Z -> Z) (bound : Z) (full truncated : string)
    (st : stream_state zstd) (input produced : list Z) (capacity : Z) : option (res (list Z)) :=
  match fuel with
  | O => None
  | S fuel =>
      if (zlen produced =? capacity) && (bound <=? zlen produced) then Some (Err full)
      else
        let capacity := if zlen produced =? capacity then grow (zlen produced) else capacity in
        match stream_step zstd st input (capacity - zlen produced) with
        | StreamError => Some (Err "zstd decompress failed")
        | Step written consumed ret st =>
            if bool_decide (written = []) && (consumed =? 0)%nat && negb (ret =? 0) then Some (Err truncated)
            else if ret =? 0 then Some (Ok (produced ++ written))
            else stream_loop fuel grow bound full truncated st (drop consumed input) (produced ++ written) capacity
        end
  end.

(** Every iteration but the last consumes input or writes output. *)
Definition stream_fuel (bound : Z) (input : list Z) : nat := S (length input + Z.to_nat bound + 1).

Definition zstd_unframe (framed : list Z) : option (res (list Z)) :=
  if zlen framed <? 8 then Some (Err "zstd frame shorter than size header")
  else
    let uncompressed := load_le 8 framed in
    let frame := drop 8 framed in
    let compressed := zlen framed - 8 in
    if (max_uncompressed_bytes limits <? uncompressed) || negb (fits_size_t uncompressed) || (u64 (compressed * kZstdMaxExpansion) <? uncompressed) then
      Some (Err ("zstd frame declares " +:+ pretty uncompressed +:+ " uncompressed bytes from " +:+ pretty compressed +:+ " compressed, more than zstd can produce"))
    else if (match zstd_content_size zstd frame with Known content => negb (content =? uncompressed) | _ => false end) then
      Some (Err "zstd frame content size disagrees with declared size")
    else if kPreallocateUpTo <? uncompressed then
      match stream_init zstd with
      | None => Some (Err "zstd stream could not be created")
      | Some st =>
          out ← stream_loop (stream_fuel uncompressed frame) (fun produced => Z.min uncompressed (Z.max (produced * 2) kPreallocateUpTo)) uncompressed
                  "zstd frame decompresses past its declared size" "zstd frame is truncated" st frame [] 0;
          Some (out ← out;
                if negb (zlen out =? uncompressed)
                then Err ("zstd frame decompressed to " +:+ pretty (zlen out) +:+ " bytes, not the declared " +:+ pretty uncompressed) else Ok out)
      end
    else
      match zstd_decompress zstd frame uncompressed with
      | Some out => if zlen out =? uncompressed then Some (Ok out) else Some (Err "zstd decompress failed for variable-width column")
      | None => Some (Err "zstd decompress failed for variable-width column")
      end.

(** A frame's magic number, then its reserved bit. *)
Definition is_bare_frame (data : list Z) : bool :=
  (5 <=? zlen data) && bool_decide (take 4 data = [40; 181; 47; 253]) && (Z.land (nth 4 data 0) 8 =? 0).

Definition decompress (scheme : string) (data : list Z) : option (res (list Z)) :=
  if String.eqb scheme "" || String.eqb scheme "none" then Some (Ok data)
  else if zlen data =? 0 then Some (Ok [])
  else if String.eqb scheme "lz4" then Some (Lz4Block.decompress_sized lz4_block_decompress limits data)
  else if negb (String.eqb scheme "zstd") then Some (Err ("unsupported buffer compression '" +:+ scheme +:+ "'"))
  else if negb (is_bare_frame data) then zstd_unframe data
  else
    match zstd_content_size zstd data with
    | Known content => zstd_unframe (le_bytes 8 content ++ data)
    | _ =>
        let bound := Z.min (max_uncompressed_bytes limits) (u64 (zlen data * kZstdMaxExpansion)) in
        match stream_init zstd with
        | None => Some (Err "zstd stream could not be created")
        | Some st =>
            stream_loop (stream_fuel bound data) (fun produced => Z.min bound (Z.max (produced * 2) (Z.shiftl 1 16))) bound
              "zstd buffer decompresses past what its size allows" "zstd buffer is truncated" st data [] 0
        end
    end.

(** ** The stream ends and stays within its bound *)

(** The library writes at most the room it is given and consumes at most the input. *)
Hypothesis stream_room : forall st input room written consumed ret st',
  0 <= room -> stream_step zstd st input room = Step written consumed ret st' -> zlen written <= room /\ (consumed <= length input)%nat.

Lemma stream_loop_bounded fuel grow bound full truncated st input produced capacity :
  (forall p, 0 <= p < bound -> p <= grow p <= bound) -> zlen produced <= capacity <= bound ->
  (Z.to_nat (bound - zlen produced) + length input < fuel)%nat ->
  exists r, stream_loop fuel grow bound full truncated st input produced capacity = Some r /\ forall out, r = Ok out -> zlen out <= bound.
Proof using stream_room.
  intros Hg. revert st input produced capacity. induction fuel as [|fuel IH]; intros st input produced capacity Hc Hf; [lia|]. cbn [stream_loop].
  pose proof (zlen_nonneg produced). destruct ((zlen produced =? capacity) && (bound <=? zlen produced)) eqn:Efull; [by eexists|].
  set (cap := if zlen produced =? capacity then grow (zlen produced) else capacity).
  assert (zlen produced <= cap <= bound) as Hcap.
  { subst cap. destruct (Z.eqb_spec (zlen produced) capacity); [|lia]. cbn in Efull. apply Z.leb_gt in Efull. apply Hg. lia. }
  destruct (stream_step zstd st input (cap - zlen produced)) as [|written consumed ret st'] eqn:E; [by eexists|].
  apply stream_room in E as [Hw Hi]; [|lia]. destruct (bool_decide (written = []) && (consumed =? 0)%nat && negb (ret =? 0)) eqn:Et; [by eexists|].
  destruct (Z.eqb_spec ret 0) as [Hr|Hr].
  - eexists. split; [done|]. intros out [= <-]. rewrite zlen_app. lia.
  - apply IH; [rewrite zlen_app; pose proof (zlen_nonneg written); lia|]. rewrite zlen_app, length_drop. pose proof (zlen_nonneg written).
    cbn [negb] in Et. rewrite andb_true_r in Et. apply andb_false_iff in Et as [Et%bool_decide_eq_false|Et%Nat.eqb_neq].
    + assert (0 < zlen written) by (destruct written as [|x w]; [done|]; rewrite zlen_cons; pose proof (zlen_nonneg w); lia). lia.
    + lia.
Qed.

Lemma unframe_bounded framed :
  bytes_ok framed -> exists r, zstd_unframe framed = Some r /\
    forall out, r = Ok out -> 8 <= zlen framed /\ zlen out = load_le 8 framed /\ zlen out <= max_uncompressed_bytes limits /\ zlen out <= u64 ((zlen framed - 8) * kZstdMaxExpansion).
Proof using stream_room.
  intros Hok. unfold zstd_unframe. destruct (Z.ltb_spec (zlen framed) 8) as [|H8]; [by eexists|]. set (uncompressed := load_le 8 framed). set (frame := drop 8 framed).
  assert (0 <= uncompressed) as Hnn by (apply le_value_range, Forall_take, Hok).
  destruct (_ || _) eqn:E; [by eexists|]. apply orb_false_iff in E as [[E1%Z.ltb_ge _]%orb_false_iff E2%Z.ltb_ge].
  match goal with |- context [if ?b then _ else _] => destruct b end; [by eexists|]. destruct (Z.ltb_spec kPreallocateUpTo uncompressed) as [Hbig|Hsmall].
  - destruct (stream_init zstd) as [st|]; [|by eexists].
    match goal with |- context [stream_loop ?fuel ?grow ?bound ?full ?tr ?st ?i ?p ?c] => destruct (stream_loop_bounded fuel grow bound full tr st i p c) as (r & Hr & Hb) end.
    + intros p Hp. lia.
    + change (zlen []) with 0. lia.
    + unfold stream_fuel. change (zlen []) with 0. rewrite Z.sub_0_r. lia.
    + rewrite Hr. cbn [mbind option_bind]. eexists. split; [reflexivity|]. intros out. destruct r as [out'|]; [|done].
      specialize (Hb _ eq_refl). unfold mbind, res_bind. destruct (Z.eqb_spec (zlen out') uncompressed); [|done]. cbn [negb]. intros [= <-]. lia.
  - destruct (zstd_decompress zstd frame uncompressed) as [out|]; [|by eexists]. destruct (Z.eqb_spec (zlen out) uncompressed); [|by eexists].
    eexists. split; [reflexivity|]. intros out' [= <-]. lia.
Qed.

(** A bare frame that does not say its size. *)
Lemma bare_stream_bounded data :
  0 <= max_uncompressed_bytes limits -> u64 (zlen data * kZstdMaxExpansion) = zlen data * kZstdMaxExpansion ->
  exists r,
    (let bound := Z.min (max_uncompressed_bytes limits) (u64 (zlen data * kZstdMaxExpansion)) in
     match stream_init zstd with
     | None => Some (Err "zstd stream could not be created")
     | Some st =>
         stream_loop (stream_fuel bound data) (fun produced => Z.min bound (Z.max (produced * 2) (Z.shiftl 1 16))) bound
           "zstd buffer decompresses past what its size allows" "zstd buffer is truncated" st data [] 0
     end) = Some r /\
    forall out, r = Ok out -> zlen out <= max_uncompressed_bytes limits /\ zlen out <= zlen data * kZstdMaxExpansion.
Proof using stream_room.
  intros Hlim ->. cbv zeta. pose proof (zlen_nonneg data). assert (0 <= zlen data * kZstdMaxExpansion) by (unfold kZstdMaxExpansion; lia).
  destruct (stream_init zstd) as [st|]; [|by eexists].
  match goal with |- context [stream_loop ?fuel ?grow ?bound ?full ?tr ?st ?i ?p ?c] => destruct (stream_loop_bounded fuel grow bound full tr st i p c) as (r & Hr & Hb) end.
  - intros p Hp. lia.
  - change (zlen []) with 0. lia.
  - unfold stream_fuel. change (zlen []) with 0. rewrite Z.sub_0_r. lia.
  - exists r. split; [done|]. intros out Hout. specialize (Hb out Hout). lia.
Qed.

(** What a scheme may make of a buffer: the buffer itself; what an LZ4 block of its bytes can hold, of the size
    declared before it; what a zstd frame of its bytes can hold, those of a size before it left out. *)
Definition within_scheme (scheme : string) (data out : list Z) : Prop :=
  if String.eqb scheme "" || String.eqb scheme "none" then out = data
  else if bool_decide (data = []) then out = []
  else zlen out <= max_uncompressed_bytes limits /\
    ((scheme = "lz4" /\ 4 <= zlen data /\ zlen out = load_le 4 data /\ zlen out <= 255 * (zlen data - 3)) \/
     (scheme = "zstd" /\ if is_bare_frame data then zlen out <= zlen data * kZstdMaxExpansion
                         else 8 <= zlen data /\ zlen out = load_le 8 data /\ zlen out <= (zlen data - 8) * kZstdMaxExpansion)).

(** C39: (bounds): decompressing a buffer, of less than 2^48 bytes, ends whatever its bytes and whatever they declare. An uncompressed buffer is
    itself and an empty one stays empty. Else only LZ4 and zstd are accepted, the result is within the decoded-size
    limit, it has the size declared before the block or the frame (a bare zstd frame has none), and it is no more
    than the scheme can make of the bytes that are there: 255 to 1 (and one byte more) of LZ4's, 32768 to 1 of
    zstd's. Of zstd's stream the theorem takes that it writes into the room it is given and reads from its input. *)
Theorem decompress_bounded scheme data :
  bytes_ok data -> zlen data < 2 ^ 48 -> 0 <= max_uncompressed_bytes limits ->
  exists r, decompress scheme data = Some r /\ forall out, r = Ok out -> within_scheme scheme data out.
Proof using stream_room.
  intros Hok Hsize Hlim. unfold decompress, within_scheme. destruct (_ || _); [eexists; split; [done|]; by intros out [= <-]|].
  pose proof (zlen_nonneg data). case_bool_decide as Hne; [subst data; eexists; split; [done|]; by intros out [= <-]|].
  rewrite (proj2 (Z.eqb_neq (zlen data) 0)) by (destruct data; [done | rewrite zlen_cons; pose proof (zlen_nonneg data); lia]).
  destruct (String.eqb_spec scheme "lz4") as [Hs|_].
  { eexists. split; [done|]. intros out Hout. unfold Lz4Block.decompress_sized in Hout. destruct (Z.ltb_spec (zlen data) 4); [done|].
    destruct (Z.ltb_spec (max_uncompressed_bytes limits) (load_le 4 data)); [done|]. apply Lz4Block.decompress_block_bounded in Hout as [E Hb].
    assert (zlen (drop 4 data) = zlen data - 4) as Hd by (unfold zlen in *; rewrite length_drop; lia). rewrite Hd in Hb.
    split; [lia|]. left. split_and!; [done | lia | done | lia]. }
  destruct (String.eqb_spec scheme "zstd") as [Hs|_]; cbn [negb]; [|by eexists].
  assert (forall n, 0 <= n <= zlen data -> u64 (n * kZstdMaxExpansion) = n * kZstdMaxExpansion) as Hwrap
    by (intros n Hn; unfold kZstdMaxExpansion, u64, wrap; apply Z.mod_small; lia).
  destruct (is_bare_frame data); cbn [negb].
  - assert (forall r, (forall out, r = Ok out -> zlen out <= max_uncompressed_bytes limits /\ zlen out <= zlen data * kZstdMaxExpansion) ->
      forall out : list Z, r = Ok out -> zlen out <= max_uncompressed_bytes limits /\
        ((scheme = "lz4" /\ 4 <= zlen data /\ zlen out = load_le 4 data /\ zlen out <= 255 * (zlen data - 3)) \/
         (scheme = "zstd" /\ zlen out <= zlen data * kZstdMaxExpansion))) as Hbare by (intros r Hr out Ho; destruct (Hr out Ho); split; [done | by right]).
    destruct (zstd_content_size zstd data) as [content| |];
      [|destruct (bare_stream_bounded data Hlim (Hwrap (zlen data) ltac:(lia))) as (r & Hr & Hb); cbv zeta in Hr; rewrite Hr; eexists; split; [done | by apply Hbare]..].
    assert (zlen (le_bytes 8 content ++ data) - 8 = zlen data) as Hlen by (rewrite zlen_app; unfold zlen; rewrite length_le_bytes; lia).
    destruct (unframe_bounded (le_bytes 8 content ++ data)) as (r & -> & Hb); [apply Forall_app; split; [apply le_bytes_ok|done]|].
    eexists. split; [done|]. apply Hbare. intros out Hout. specialize (Hb out Hout) as (_ & _ & H1 & H2). rewrite Hlen in H2.
    rewrite Hwrap in H2 by lia. lia.
  - destruct (unframe_bounded data Hok) as (r & -> & Hb). eexists. split; [done|]. intros out Hout. specialize (Hb out Hout) as (H8 & E & H1 & H2).
    rewrite Hwrap in H2 by lia. split; [done|]. right. split_and!; [done | lia | done | done].
Qed.

End framing.

(** A stream that copies: the state is unused, a step writes what fits. *)
Definition sample_step (st : unit) (input : list Z) (room : Z) : StreamStep unit :=
  let n := Nat.min (Z.to_nat room) (length input) in
  Step (take n input) n (if (n =? length input)%nat then 0 else 1) st.

Definition sample_zstd : Zstd := mkZstd (fun _ raw => Ok raw) (fun _ => Unknown) (fun frame n => Some (take (Z.to_nat n) frame)) unit (Some ()) sample_step.

(** A bare zstd frame, and an LZ4 buffer that declares a kilobyte of two bytes. *)
Lemma decompress_bounded_witness :
  (exists r, decompress sample_zstd (fun _ _ => Err "") (initial_read_limits) "zstd" [40; 181; 47; 253; 0] = Some r /\
    forall out, r = Ok out -> within_scheme (initial_read_limits) "zstd" [40; 181; 47; 253; 0] out) /\
  (exists r, decompress sample_zstd (fun _ n => Ok (replicate (Z.to_nat n) 0)) (initial_read_limits) "lz4" [0; 4; 0; 0; 31; 0] = Some r /\
    forall out, r = Ok out -> within_scheme (initial_read_limits) "lz4" [0; 4; 0; 0; 31; 0] out).
Proof.
  split; apply decompress_bounded; try (vm_compute; done); try (repeat constructor; vm_compute; done);
    intros st input room written consumed ret st' Hroom [= <- <- _ _]; unfold zlen; rewrite length_take; lia.
Defined.

End General.
