(* ===== verification/RepDef.v ===== *)
(** * RepDef: repetition and definition levels (include/nanolance/repdef.hpp, src/encoding/repdef.cpp)

    [unravel] turns the two level streams of a page into offsets and validity per layer, one pass per layer from the
    items outward; [serialize] is the inverse, two passes of a recursive walk over the rows of a nested column,
    possibly over parts of them side by side. *)

From S2P Require Import Prelude.

Module RepDef.

(** ** Layers *)

Definition kAllValidItem : Z := 1.
Definition kAllValidList : Z := 2.
Definition kNullableItem : Z := 3.
Definition kNullableList : Z := 4.
Definition kEmptyableList : Z := 5.
Definition kNullAndEmptyList : Z := 6.

Definition is_list_layer (kind : Z) : bool :=
  (kind =? kAllValidList) || (kind =? kNullableList) || (kind =? kEmptyableList) || (kind =? kNullAndEmptyList).

Record UnraveledLayer := mkUnraveledLayer {
  ul_kind : Z;
  ul_length : Z;
  ul_offsets : list Z;
  ul_validity : list Z;
  ul_null_count : Z
}.

(** A layer of this kind as [unravel] starts it. *)
Definition new_layer (kind : Z) : UnraveledLayer := mkUnraveledLayer kind 0 [] [] 0.

Definition set_offsets (layer : UnraveledLayer) (offsets : list Z) : UnraveledLayer :=
  mkUnraveledLayer (ul_kind layer) (ul_length layer) offsets (ul_validity layer) (ul_null_count layer).

Definition kInferItems : Z := U64_MAX.

Definition is_item_layer (kind : Z) : bool := (kind =? kAllValidItem) || (kind =? kNullableItem).

(** [v.back() |= bit]. *)
Definition or_back (v : list Z) (bit : Z) : list Z := alter (fun b => u8 (Z.lor b bit)) (pred (length v)) v.

Definition append_bit (layer : UnraveledLayer) (valid : bool) : UnraveledLayer :=
  let at_ := ul_length layer in
  let after (validity : list Z) (null_count : Z) := mkUnraveledLayer (ul_kind layer) (at_ + 1) (ul_offsets layer) validity null_count in
  if bool_decide (ul_validity layer = []) then
    if valid then after [] (ul_null_count layer)
    else after (replicate (Z.to_nat (at_ / 8)) 255 ++ [u8 (Z.shiftl 1 (Z.land at_ 7) - 1)]) (ul_null_count layer + 1)
  else
    let validity := if Z.land at_ 7 =? 0 then ul_validity layer ++ [0] else ul_validity layer in
    if valid then after (or_back validity (u8 (Z.shiftl 1 (Z.land at_ 7)))) (ul_null_count layer)
    else after validity (ul_null_count layer + 1).

(** ** Reading: levels to layers *)

(** [levels_to_rep] and [num_lists], a layer at a time. *)
Definition layer_step (s : list Z * Z) (kind : Z) : res (list Z * Z) :=
  let '(levels_to_rep, num_lists) := s in
  if (kind =? kAllValidItem) then Ok s
  else if kind =? kAllValidList then Ok (levels_to_rep, u16 (num_lists + 1))
  else if kind =? kNullableItem then Ok (levels_to_rep ++ [num_lists], num_lists)
  else if (kind =? kNullableList) || (kind =? kEmptyableList) then
    let num_lists := u16 (num_lists + 1) in Ok (levels_to_rep ++ [num_lists], num_lists)
  else if kind =? kNullAndEmptyList then
    let num_lists := u16 (num_lists + 1) in Ok (levels_to_rep ++ [num_lists; num_lists], num_lists)
  else Err ("unknown repetition/definition layer " +:+ pretty kind).

(** What the loop over the layers keeps: the levels that are left, the level still valid, the depth, and the
    layers so far. *)
Record State := mkState { st_rep : list Z; st_def : list Z; def_cmp : Z; rep_cmp : Z; out : list UnraveledLayer }.

(** The length of [out.back()]. *)
Definition back_length (out : list UnraveledLayer) : Z := match last out with Some l => ul_length l | None => 0 end.

(** One entry of an item or struct layer per level that is visible there. *)
Definition item_entries (kind : Z) (levels_to_rep : list Z) (s : State) : UnraveledLayer :=
  let nullable := kind =? kNullableItem in
  foldl (fun layer level =>
    if nth (Z.to_nat level) levels_to_rep 0 <=? rep_cmp s then append_bit layer (negb nullable || (level <=? def_cmp s)) else layer)
    (new_layer kind) (st_def s).

Definition item_layer (has_rep has_def : bool) (levels_to_rep : list Z) (num_items : Z) (li kind : Z) (s : State) : res State :=
  if negb has_def && negb has_rep && (num_items =? kInferItems) then Err "an item count is needed when there are no levels to infer it from"
  else
    let layer :=
      if has_def then item_entries kind levels_to_rep s
      else mkUnraveledLayer kind (if has_rep then zlen (st_rep s) else num_items) [] [] 0 in
    let def_cmp := if kind =? kNullableItem then u16 (def_cmp s + 1) else def_cmp s in
    if (li =? 0) && negb (num_items =? kInferItems) && negb (ul_length layer =? num_items) then
      Err ("levels describe " +:+ pretty (ul_length layer) +:+ " items, the page holds " +:+ pretty num_items)
    else if negb (li =? 0) && negb (ul_length layer =? back_length (out s)) then
      Err ("struct layer " +:+ pretty li +:+ " has " +:+ pretty (ul_length layer) +:+ " entries over " +:+ pretty (back_length (out s)) +:+ " lists")
    else Ok (mkState (st_rep s) (st_def s) def_cmp (rep_cmp s) (out s ++ [layer])).

(** The zeros [levels] starts with: sixteen at a time, then one at a time. *)
Fixpoint zeros_one (levels : list Z) : nat :=
  match levels with 0 :: levels => S (zeros_one levels) | _ => O end.

Fixpoint zeros (fuel : nat) (levels : list Z) : nat :=
  match fuel with
  | O => zeros_one levels
  | S fuel =>
      if (16 <=? length levels)%nat && forallb (Z.eqb 0) (take 16 levels) then (16 + zeros fuel (drop 16 levels))%nat
      else zeros_one levels
  end.

(** The definition levels that mean a null and an empty list at this layer. *)
Record ListLevels := mkListLevels { null_level : Z; empty_level : Z; upper_null : Z; max_level : Z }.

(** The nullable structs directly above. *)
Fixpoint structs_above (above : list Z) : Z :=
  match above with
  | kind :: above => if is_item_layer kind then (if kind =? kNullableItem then 1 else 0) + structs_above above else 0
  | [] => 0
  end.

Definition list_levels (kind valid_level : Z) (above : list Z) : ListLevels :=
  let null_level := if (kind =? kNullableList) || (kind =? kNullAndEmptyList) then u16 (valid_level + 1) else 0 in
  let empty_level := if kind =? kEmptyableList then u16 (valid_level + 1) else if kind =? kNullAndEmptyList then u16 (valid_level + 2) else 0 in
  let upper_null := Z.max (Z.max null_level empty_level) valid_level in
  mkListLevels null_level empty_level upper_null (u16 (upper_null + structs_above above)).

(** The pass over the levels of a list layer: what is kept of them, the offsets, the children so far. *)
Record ListPass := mkListPass { lp_rep : list Z; lp_def : list Z; lp_offsets : list Z; curlen : Z; lp_layer : UnraveledLayer }.

(** A level that starts a list here ([r] is not 0). *)
Definition start_level (has_def : bool) (ll : ListLevels) (p : ListPass) (r d : Z) : ListPass :=
  let kept (offsets : list Z) (curlen : Z) (layer : UnraveledLayer) :=
    mkListPass (lp_rep p ++ [u16 (r - 1)]) (if has_def then lp_def p ++ [d] else lp_def p) offsets curlen layer in
  let with_child := kept (lp_offsets p ++ [curlen p]) (curlen p + 1) (append_bit (lp_layer p) true) in
  if negb has_def then with_child
  else if d =? 0 then with_child
  else if max_level ll <? d then kept (lp_offsets p) (curlen p) (lp_layer p)
  else if (negb (null_level ll =? 0) && (d =? null_level ll)) || (upper_null ll <? d)
  then kept (lp_offsets p ++ [curlen p]) (curlen p) (append_bit (lp_layer p) false)
  else if negb (empty_level ll =? 0) && (d =? empty_level ll)
  then kept (lp_offsets p ++ [curlen p]) (curlen p) (append_bit (lp_layer p) true)
  else with_child.

(** Every iteration reads at least one level. *)
Fixpoint list_loop (fuel : nat) (has_def : bool) (ll : ListLevels) (rep def : list Z) (p : ListPass) : ListPass :=
  match fuel, rep with
  | S fuel, r :: rest =>
      if r =? 0 then
        let run := S (zeros (length rest) rest) in
        list_loop fuel has_def ll (drop run rep) (drop run def)
          (mkListPass (lp_rep p) (lp_def p) (lp_offsets p) (curlen p + Z.of_nat run) (lp_layer p))
      else list_loop fuel has_def ll rest (drop 1 def) (start_level has_def ll p r (nth 0 def 0))
  | _, _ => p
  end.

Definition list_layer (has_def : bool) (above : list Z) (li kind : Z) (s : State) : res State :=
  let ll := list_levels kind (def_cmp s) above in
  let step := if kind =? kAllValidList then 0 else if kind =? kNullAndEmptyList then 2 else 1 in
  let p := list_loop (length (st_rep s)) has_def ll (st_rep s) (st_def s) (mkListPass [] [] [] 0 (new_layer kind)) in
  let layer := set_offsets (lp_layer p) (lp_offsets p ++ [curlen p]) in
  if negb (curlen p =? back_length (out s)) then
    Err ("list layer " +:+ pretty li +:+ " covers " +:+ pretty (curlen p) +:+ " children but the layer inside it has " +:+ pretty (back_length (out s)))
  else Ok (mkState (lp_rep p) (lp_def p) (u16 (def_cmp s + step)) (u16 (rep_cmp s + 1)) (out s ++ [layer])).

Fixpoint unravel_layers (has_rep has_def : bool) (levels_to_rep : list Z) (num_items : Z) (layers : list Z) (li : Z) (s : State) : res (list UnraveledLayer) :=
  match layers with
  | [] => Ok (out s)
  | kind :: above =>
      s ← (if is_item_layer kind then item_layer has_rep has_def levels_to_rep num_items li kind s else list_layer has_def above li kind s);
      unravel_layers has_rep has_def levels_to_rep num_items above (li + 1) s
  end.

Definition unravel (rep_in : list Z) (has_rep : bool) (def_in : list Z) (has_def : bool) (layers : list Z) (num_items : Z) : res (list UnraveledLayer) :=
  if bool_decide (layers = []) || negb (is_item_layer (nth 0 layers 0)) then Err "repetition/definition layers must start with an item layer"
  else
    '(levels_to_rep, num_lists) ← fold_res layer_step layers ([0], 0);
    let max_def := u16 (zlen levels_to_rep - 1) in
    if negb (Bool.eqb (negb (num_lists =? 0)) has_rep) then
      Err (if has_rep then "repetition levels on a column with no list layer" else "a list layer with no repetition levels")
    else if has_rep && has_def && negb (zlen rep_in =? zlen def_in) then
      Err ("repetition and definition level counts differ (" +:+ pretty (zlen rep_in) +:+ " vs " +:+ pretty (zlen def_in) +:+ ")")
    else if negb has_rep && has_def && negb (num_items =? kInferItems) && negb (zlen def_in =? num_items) then
      Err ("definition levels cover " +:+ pretty (zlen def_in) +:+ " items, the page holds " +:+ pretty num_items)
    else if has_def && existsb (fun d => max_def <? d) def_in then
      Err ("definition level above the layers' maximum of " +:+ pretty max_def)
    else if has_rep && existsb (fun r => num_lists <? r) rep_in then
      Err ("repetition level above the " +:+ pretty num_lists +:+ " list layers")
    else if has_rep && (match rep_in with r :: _ => negb (r =? num_lists) | [] => false end) then
      Err "repetition levels do not start at a row boundary"
    else unravel_layers has_rep has_def levels_to_rep num_items layers 0 (mkState rep_in (if has_def then def_in else []) 0 0 []).

(** ** Writing: a nested column to levels *)

(** A layer as the writer holds it, outermost first; a pointer may be null. *)
Record SerializeLayer := mkSerializeLayer { is_list : bool; sl_offsets : option (list Z); sl_validity : option (list Z) }.

Record Serialized := mkSerialized {
  sz_rep : list Z;
  sz_def : list Z;
  sz_layers : list Z;
  sz_items : list Z;
  sz_is_slot : list Z;
  sz_has_rep : bool;
  sz_has_def : bool
}.

Definition Serialized0 : Serialized := mkSerialized [] [] [] [] [] false false.

Definition valid_at (bits : option (list Z)) (i : Z) : bool :=
  match bits with
  | None | Some [] => true
  | Some bits => (Z.shiftr i 3 <? zlen bits) && negb (Z.land (Z.shiftr (nth (Z.to_nat (Z.shiftr i 3)) bits 0) (Z.land i 7)) 1 =? 0)
  end.

Record LayerFlags := mkLayerFlags { has_null : bool; has_empty : bool }.

Definition no_flags : LayerFlags := mkLayerFlags false false.

Definition kNoSlot : Z := U64_MAX.
Definition kRowsPerPart : Z := 8192.

Definition passthrough (layer : SerializeLayer) : bool :=
  negb (is_list layer) && (match sl_validity layer with None | Some [] => true | _ => false end).

(** [list_depth_]: the list layers from each layer inward. *)
Fixpoint list_depth_ (layers : list SerializeLayer) : list Z :=
  match layers with
  | [] => [0]
  | l :: ls => let rest := list_depth_ ls in (if is_list l then u16 (nth 0 rest 0 + 1) else nth 0 rest 0) :: rest
  end.

(** [lists_below_]: whether a list is strictly inside each layer. *)
Fixpoint lists_below_ (layers : list SerializeLayer) : list bool :=
  match layers with
  | [] => [false]
  | _ :: ls => negb (nth 0 (list_depth_ ls) 0 =? 0) :: lists_below_ ls
  end.

(** [next_], for the layers from [k] inward. *)
Fixpoint next_ (k : nat) (layers : list SerializeLayer) : list nat :=
  match layers with
  | [] => [k]
  | _ :: ls => let rest := next_ (S k) ls in (match ls with l :: _ => if passthrough l then nth 0 rest O else S k | [] => S k end) :: rest
  end.

Definition first_layer (layers : list SerializeLayer) : nat :=
  match layers with l :: _ => if passthrough l then nth 0 (next_ 0 layers) O else O | [] => O end.

(** What a [Serializer] changes. *)
Record Serializer := mkSerializer {
  flags_ : list LayerFlags;
  levels_ : Z;
  items_ : Z;
  null_level_ : list Z;
  empty_level_ : list Z;
  out_ : Serialized;
  level_at_ : Z;
  item_at_ : Z
}.

Section serializer.
  Context (layers : list SerializeLayer) (item_validity : list Z).

Definition n_layers : nat := length layers.

Definition new_serializer : Serializer := mkSerializer (replicate (S n_layers) no_flags) 0 0 [] [] Serialized0 0 0.

Definition check_layers (first_row num_rows : Z) : res unit :=
  _ ← fold_res (fun k l =>
        if is_list l && (match sl_offsets l with None | Some [] => true | _ => false end)
        then Err ("list layer " +:+ pretty k +:+ " has no offsets") else Ok (k + 1)) layers 0;
  match layers with
  | l :: _ => if is_list l && (zlen (default [] (sl_offsets l)) <? u64 (first_row + num_rows + 1)) then Err "rows past the end of the outermost list" else Ok tt
  | [] => Ok tt
  end.

(** Pass 1: a null seen at layer [k], an empty list; a level, and a value slot with it or not. *)
Definition set_null (k : nat) (s : Serializer) : Serializer :=
  mkSerializer (alter (fun f => mkLayerFlags true (has_empty f)) k (flags_ s)) (levels_ s) (items_ s) (null_level_ s) (empty_level_ s) (out_ s) (level_at_ s) (item_at_ s).
Definition set_empty (k : nat) (s : Serializer) : Serializer :=
  mkSerializer (alter (fun f => mkLayerFlags (has_null f) true) k (flags_ s)) (levels_ s) (items_ s) (null_level_ s) (empty_level_ s) (out_ s) (level_at_ s) (item_at_ s).
Definition count_levels (levels items : Z) (s : Serializer) : Serializer :=
  mkSerializer (flags_ s) (levels_ s + levels) (items_ s + items) (null_level_ s) (empty_level_ s) (out_ s) (level_at_ s) (item_at_ s).

(** Pass 2: a level, and its slot. *)
Definition push (rep def slot : Z) (s : Serializer) : Serializer :=
  let o := out_ s in
  let at_ := Z.to_nat (level_at_ s) in
  let any := sz_has_rep o || sz_has_def o in
  let has_slot := negb (slot =? kNoSlot) in
  let o := mkSerialized
    (if sz_has_rep o then <[at_ := rep]> (sz_rep o) else sz_rep o)
    (if sz_has_def o then <[at_ := def]> (sz_def o) else sz_def o)
    (sz_layers o)
    (if has_slot then <[Z.to_nat (item_at_ s) := slot]> (sz_items o) else sz_items o)
    (if any then <[at_ := if has_slot then 1 else 0]> (sz_is_slot o) else sz_is_slot o)
    (sz_has_rep o) (sz_has_def o) in
  mkSerializer (flags_ s) (levels_ s) (items_ s) (null_level_ s) (empty_level_ s) o
    (if any then level_at_ s + 1 else level_at_ s) (if has_slot then item_at_ s + 1 else item_at_ s).

(** The layers inside a null struct that share its index; [fuel] counts the layers inward. *)
Fixpoint hidden_loop (fuel j : nat) (idx : Z) (s : Serializer) : Serializer :=
  match fuel with
  | O => s
  | S fuel =>
      match layers !! j with
      | None => if valid_at (Some item_validity) idx then s else set_null n_layers s
      | Some l =>
          let s := if valid_at (sl_validity l) idx then s else set_null j s in
          if is_list l then s else hidden_loop fuel (nth j (next_ 0 layers) O) idx s
      end
  end.
Definition mark_hidden_nulls (k : nat) (idx : Z) (s : Serializer) : Serializer := hidden_loop (S n_layers) (nth k (next_ 0 layers) O) idx s.

(** The items of an innermost list, in a loop of their own. *)
Definition visit_items (begin end_ rep continuation : Z) (emit : bool) (s : Serializer) : Serializer :=
  if negb emit then
    let s := count_levels (end_ - begin) (end_ - begin) s in
    if negb (bool_decide (item_validity = [])) && negb (default false (has_null <$> flags_ s !! n_layers)) &&
       existsb (fun c => negb (valid_at (Some item_validity) (u64 c))) (seqZ begin (end_ - begin))
    then set_null n_layers s else s
  else
    foldl (fun s c =>
      push (if c =? begin then rep else continuation) (if valid_at (Some item_validity) (u64 c) then 0 else nth n_layers (null_level_ s) 0) (u64 c) s)
      s (seqZ begin (end_ - begin)).

(** Both passes over one entry of layer [k]; the recursion goes inward, so [fuel] counts the layers left. *)
Fixpoint visit (fuel k : nat) (idx rep : Z) (emit : bool) (s : Serializer) : res Serializer :=
  match fuel with
  | O => Ok s
  | S fuel =>
      match layers !! k with
      | None =>
          let valid := valid_at (Some item_validity) idx in
          Ok (if negb emit then count_levels 1 1 (if valid then s else set_null k s)
              else push rep (if valid then 0 else nth k (null_level_ s) 0) idx s)
      | Some layer =>
          let valid := valid_at (sl_validity layer) idx in
          let below := nth k (lists_below_ layers) false in
          let next := nth k (next_ 0 layers) O in
          if negb (is_list layer) then
            if negb valid then
              Ok (if negb emit then mark_hidden_nulls k idx (count_levels 1 (if below then 0 else 1) (set_null k s))
                  else push rep (nth k (null_level_ s) 0) (if below then kNoSlot else idx) s)
            else visit fuel next idx rep emit s
          else
            let offsets := default [] (sl_offsets layer) in
            if zlen offsets <=? u64 (idx + 1) then Err ("list layer " +:+ pretty (Z.of_nat k) +:+ " has too few offsets")
            else
              let begin := nth (Z.to_nat idx) offsets 0 in
              let end_ := nth (Z.to_nat (idx + 1)) offsets 0 in
              if negb valid then
                Ok (if negb emit then count_levels 1 0 (set_null k s) else push rep (nth k (null_level_ s) 0) kNoSlot s)
              else if end_ <? begin then Err ("list layer " +:+ pretty (Z.of_nat k) +:+ " has decreasing offsets")
              else if end_ =? begin then
                Ok (if negb emit then count_levels 1 0 (set_empty k s) else push rep (nth k (empty_level_ s) 0) kNoSlot s)
              else
                let continuation := u16 (nth k (list_depth_ layers) 0 - 1) in
                if (next =? n_layers)%nat then Ok (visit_items begin end_ rep continuation emit s)
                else fold_res (fun s c => visit fuel next (u64 c) (if c =? begin then rep else continuation) emit s) (seqZ begin (end_ - begin)) s
      end
  end.

(** The kind of a layer and its level numbers, from the next free one. *)
Definition assign_item (f : LayerFlags) (next : Z) : Z * Z * Z * Z :=
  if has_null f then (kNullableItem, next, 0, u16 (next + 1)) else (kAllValidItem, 0, 0, next).
Definition assign_list (f : LayerFlags) (next : Z) : Z * Z * Z * Z :=
  if has_null f && has_empty f then (kNullAndEmptyList, next, u16 (next + 1), u16 (next + 2))
  else if has_null f then (kNullableList, next, 0, u16 (next + 1))
  else if has_empty f then (kEmptyableList, 0, next, u16 (next + 1))
  else (kAllValidList, 0, 0, next).

(** The kinds (innermost first), the null and the empty levels (outermost first), and the next free level. *)
Fixpoint assign_loop (ls : list SerializeLayer) (flags : list LayerFlags) : list Z * list Z * list Z * Z :=
  match ls, flags with
  | l :: ls, f :: flags =>
      let '(kinds, nulls, empties, next) := assign_loop ls flags in
      let '(kind, null, empty, next) := if is_list l then assign_list f next else assign_item f next in
      (kinds ++ [kind], null :: nulls, empty :: empties, next)
  | _, f :: _ => let '(kind, null, empty, next) := assign_item f 1 in ([kind], [null], [empty], next)
  | _, [] => ([], [], [], 1)
  end.

Definition assign_levels (s : Serializer) : Serializer :=
  let '(kinds, nulls, empties, next) := assign_loop layers (flags_ s) in
  let has_def := 1 <? next in
  let has_rep := negb (nth 0 (list_depth_ layers) 0 =? 0) in
  let zero (n : Z) := replicate (Z.to_nat n) 0 in
  mkSerializer (flags_ s) (levels_ s) (items_ s) nulls empties
    (mkSerialized (if has_rep then zero (levels_ s) else []) (if has_def then zero (levels_ s) else []) kinds (zero (items_ s))
       (if has_rep || has_def then zero (levels_ s) else []) has_rep has_def)
    0 0.

Definition or_flags (f g : LayerFlags) : LayerFlags := mkLayerFlags (has_null f || has_null g) (has_empty f || has_empty g).

Definition merge_counts (s other : Serializer) : Serializer :=
  mkSerializer (zip_with or_flags (flags_ s) (flags_ other)) (levels_ s + levels_ other) (items_ s + items_ other)
    (null_level_ s) (empty_level_ s) (out_ s) (level_at_ s) (item_at_ s).

(** Emitting into [from]'s output, which is passed along. *)
Definition adopt_levels (s from : Serializer) (level_at item_at : Z) : Serializer :=
  mkSerializer (flags_ s) (levels_ s) (items_ s) (null_level_ from) (empty_level_ from) (out_ from) level_at item_at.

Definition with_out (s : Serializer) (o : Serialized) : Serializer :=
  mkSerializer (flags_ s) (levels_ s) (items_ s) (null_level_ s) (empty_level_ s) o (level_at_ s) (item_at_ s).

Definition row_rep : Z := nth 0 (list_depth_ layers) 0.

(** One pass over the rows [first, first + n). *)
Definition visit_rows (first n : Z) (rep : Z) (emit : bool) (s : Serializer) : res Serializer :=
  fold_res (fun s r => visit (S n_layers) (first_layer layers) r rep emit s) (seqZ first n) s.

(** *** With threads *)

Definition row_of (first_row num_rows : Z) (parts k : Z) : Z := u64 (first_row + u64 (num_rows * k) / parts).

Definition part_rows (first_row num_rows : Z) (parts : Z) (k : nat) (rep : Z) (emit : bool) (s : Serializer) : res Serializer :=
  let from := row_of first_row num_rows parts (Z.of_nat k) in
  visit_rows from (row_of first_row num_rows parts (Z.of_nat k + 1) - from) rep emit s.

(** The first error, in the order of the parts. *)
Definition first_error (results : list (res Serializer)) : res (list Serializer) :=
  fold_res (fun done r => s ← r; Ok (done ++ [s])) results [].

(** Where the levels and items of the parts after the first start: after those before them. *)
Fixpoint adopt_parts (from : Serializer) (level_at item_at : Z) (parts : list Serializer) : list Serializer :=
  match parts with
  | [] => []
  | s :: parts => adopt_levels s from level_at item_at :: adopt_parts from (level_at + levels_ s) (item_at + items_ s) parts
  end.

(** The second pass: the parts write into one output, in the order [parallel::for_each] runs them in. *)
Definition emit_parts (first_row num_rows : Z) (parts : Z) (order : list nat) (ss : list Serializer) (o : Serialized) : res Serialized :=
  fold_res (fun o k =>
    match ss !! k with
    | Some s => s ← part_rows first_row num_rows parts k row_rep true (with_out s o); Ok (out_ s)
    | None => Ok o
    end) order o.

Definition serialize_parts (first_row num_rows : Z) (parts : Z) (order : list nat) : res Serialized :=
  counted ← first_error ((fun k => part_rows first_row num_rows parts k 0 false new_serializer) <$> seq 0 (Z.to_nat parts));
  match counted with
  | [] => Ok Serialized0
  | s0 :: rest =>
      let all := assign_levels (foldl merge_counts s0 rest) in
      emit_parts first_row num_rows parts order (all :: adopt_parts all (levels_ s0) (items_ s0) rest) (out_ all)
  end.

(** [threads]: [parallel::threads()]; [order]: the order the parts of the second pass run in. *)
Definition serialize (threads : Z) (order : list nat) (first_row num_rows : Z) : res Serialized :=
  _ ← check_layers first_row num_rows;
  let parts := Z.min threads (num_rows / kRowsPerPart) in
  if 1 <? parts then serialize_parts first_row num_rows parts order
  else
    s ← visit_rows first_row num_rows 0 false new_serializer;
    s ← visit_rows first_row num_rows row_rep true (assign_levels s);
    Ok (out_ s).

End serializer.

End RepDef.
