(* ===== verification/RepDefRead.v ===== *)
(** * RepDefRead: what [unravel] gives on any input

    Appending validity bits one at a time, and the layers [unravel] builds from any level streams: a nested
    column whose offsets and bitmaps fit together. *)

From S2P Require Import Prelude RepDef.

Module RepDefRead.
Import RepDef.

(** ** Validity bitmaps *)

(** The bit of entry [i]. *)
Definition bit (validity : list Z) (i : Z) : bool := Z.testbit (nth (Z.to_nat (i / 8)) validity 0) (i mod 8).

Definition nulls (bits : list bool) : Z := zlen (filter (fun b => b = false) bits).

(** [layer] is what appending [bits] to a new layer gives: no bitmap while every entry is valid, then one of as
    many bytes as the entries need, its spare bits 0. *)
Record bits_of (layer : UnraveledLayer) (bits : list bool) : Prop := {
  bo_length : ul_length layer = zlen bits;
  bo_nulls : ul_null_count layer = nulls bits;
  bo_ok : bytes_ok (ul_validity layer);
  bo_valid : ul_validity layer = [] -> Forall (fun b => b = true) bits;
  bo_size : ul_validity layer <> [] -> zlen (ul_validity layer) = (zlen bits + 7) / 8;
  bo_bits : ul_validity layer <> [] -> forall i b, bits !! i = Some b -> bit (ul_validity layer) (Z.of_nat i) = b;
  bo_spare : ul_validity layer <> [] -> forall i, zlen bits <= i -> bit (ul_validity layer) i = false
}.

Lemma bits_of_new kind : bits_of (new_layer kind) [].
Proof. split; cbn; try done. constructor. Qed.

Lemma nulls_app a b : nulls (a ++ b) = nulls a + nulls b.
Proof. unfold nulls. by rewrite filter_app, zlen_app. Qed.

Lemma nulls_valid bits : Forall (fun b => b = true) bits -> nulls bits = 0.
Proof. unfold nulls. induction 1 as [|b bits -> _ IH]; [done|]. rewrite filter_cons_False by done. exact IH. Qed.

Lemma bit_app_l v w i : 0 <= i < 8 * zlen v -> bit (v ++ w) i = bit v i.
Proof. intros Hi. unfold bit. rewrite app_nth1; [done|]. unfold zlen in Hi. apply Nat2Z.inj_lt. rewrite Z2Nat.id by dlia. dlia. Qed.

Lemma bit_app_r v b i : 8 * zlen v <= i < 8 * zlen v + 8 -> bit (v ++ [b]) i = Z.testbit b (i mod 8).
Proof.
  intros Hi. unfold bit. rewrite app_nth2 by (unfold zlen in Hi; apply Nat2Z.inj_le; rewrite Z2Nat.id by dlia; dlia).
  replace (Z.to_nat (i / 8) - length v)%nat with 0%nat; [done|]. unfold zlen in Hi. apply Nat2Z.inj. rewrite Nat2Z.inj_sub, Z2Nat.id; [|dlia|].
  - cbn. dlia.
  - apply Nat2Z.inj_le. rewrite Z2Nat.id by dlia. dlia.
Qed.

Lemma bit_beyond v i : 8 * zlen v <= i -> bit v i = false.
Proof.
  intros Hi. unfold bit. rewrite nth_overflow; [apply Z.testbit_0_l|]. unfold zlen in Hi. apply Nat2Z.inj_le. rewrite Z2Nat.id by dlia. dlia.
Qed.

(** Entry [at_] of [at_ / 8] full bytes and a byte of [at_ mod 8] ones. *)
Lemma bit_ones at_ i : 0 <= at_ -> 0 <= i ->
  bit (replicate (Z.to_nat (at_ / 8)) 255 ++ [u8 (Z.shiftl 1 (Z.land at_ 7) - 1)]) i = (i <? at_).
Proof.
  intros Ha Hi. change 7 with (2 ^ 3 - 1). rewrite land_low by lia. change (2 ^ 3) with 8.
  assert (zlen (replicate (Z.to_nat (at_ / 8)) 255) = at_ / 8) as Hl by (unfold zlen; rewrite length_replicate, Z2Nat.id; [done | dlia]).
  rewrite Z.shiftl_1_l. replace (2 ^ (at_ mod 8) - 1) with (Z.ones (at_ mod 8)) by (rewrite Z.ones_equiv; lia).
  assert (0 <= Z.ones (at_ mod 8) < 2 ^ 8) as Hones.
  { rewrite Z.ones_equiv. pose proof (Z.pow_pos_nonneg 2 (at_ mod 8)). pose proof (Z.pow_le_mono_r 2 (at_ mod 8) 8). dlia. }
  rewrite u8_small by exact Hones. destruct (Z.lt_ge_cases i (8 * (at_ / 8))) as [Hlt|Hge].
  - rewrite bit_app_l by lia. unfold bit. rewrite nth_lookup, lookup_replicate_2; cbn [default id].
    + assert (0 <= i mod 8 < 8) as Hm by dlia. rewrite (proj2 (Z.ltb_lt i at_)) by dlia.
      assert (i mod 8 = 0 \/ i mod 8 = 1 \/ i mod 8 = 2 \/ i mod 8 = 3 \/ i mod 8 = 4 \/ i mod 8 = 5 \/ i mod 8 = 6 \/ i mod 8 = 7) as Hc by lia.
      repeat destruct Hc as [Hc|Hc]; rewrite Hc; reflexivity.
    + apply Nat2Z.inj_lt. rewrite !Z2Nat.id by dlia. dlia.
  - destruct (Z.lt_ge_cases i (8 * (at_ / 8) + 8)) as [Hlt|Hge2].
    + rewrite bit_app_r by lia. destruct (Z.ltb_spec i at_).
      * apply Z.ones_spec_low. dlia.
      * apply Z.ones_spec_high. dlia.
    + rewrite bit_beyond by (rewrite zlen_app; change (zlen [_]) with 1; lia). symmetry. apply Z.ltb_ge. dlia.
Qed.

(** Setting bit [at_] of the last byte. *)
Lemma or_back_snoc v b m : or_back (v ++ [b]) m = v ++ [u8 (Z.lor b m)].
Proof.
  unfold or_back. rewrite length_app. cbn [length]. replace (pred (length v + 1)) with (length v + 0)%nat by lia.
  by rewrite alter_app_r.
Qed.

Lemma bit_or_back v at_ i :
  v <> [] -> bytes_ok v -> 8 * zlen v - 8 <= at_ < 8 * zlen v -> 0 <= i ->
  bit (or_back v (u8 (Z.shiftl 1 (Z.land at_ 7)))) i = (i =? at_) || bit v i.
Proof.
  intros Hne Hok Hat Hi. destruct v as [|b v _] using rev_ind; [done|]. rewrite zlen_app in Hat. change (zlen [b]) with 1 in Hat.
  apply bytes_ok_app in Hok as [_ Hb]. apply Forall_inv in Hb. rewrite or_back_snoc.
  change 7 with (2 ^ 3 - 1). rewrite land_low by lia. change (2 ^ 3) with 8. rewrite Z.shiftl_1_l.
  assert (0 <= 2 ^ (at_ mod 8) < 2 ^ 8) as Hp by (split; [apply Z.pow_nonneg; lia | apply Z.pow_lt_mono_r; dlia]).
  rewrite (u8_small (2 ^ (at_ mod 8))) by exact Hp. rewrite u8_small by (apply lor_bound; [lia | exact Hb | exact Hp]).
  destruct (Z.lt_ge_cases i (8 * zlen v)) as [Hlt|Hge].
  - rewrite !bit_app_l by lia. rewrite (proj2 (Z.eqb_neq i at_)) by lia. done.
  - destruct (Z.lt_ge_cases i (8 * zlen v + 8)) as [Hlt|Hge2].
    + rewrite !bit_app_r by lia. rewrite Z.lor_spec, Z.pow2_bits_eqb by dlia. rewrite orb_comm. f_equal.
      destruct (Z.eqb_spec i at_); [subst; apply Z.eqb_refl|]. apply Z.eqb_neq. dlia.
    + rewrite !bit_beyond by (rewrite zlen_app; change (zlen [_]) with 1; lia). rewrite (proj2 (Z.eqb_neq i at_)) by lia. done.
Qed.

Lemma or_back_length v m : length (or_back v m) = length v.
Proof. apply length_alter. Qed.

Lemma or_back_ok v m : bytes_ok v -> bytes_ok (or_back v m).
Proof.
  intros Hok. destruct v as [|b v _] using rev_ind; [done|]. rewrite or_back_snoc. apply bytes_ok_app in Hok as [Hv _].
  apply bytes_ok_app. split; [done|]. repeat constructor; apply u8_range.
Qed.

Lemma bits_snoc_lookup (bits : list bool) x i b :
  (bits ++ [x]) !! i = Some b -> (i < length bits)%nat /\ bits !! i = Some b \/ i = length bits /\ b = x.
Proof.
  intros H. destruct (Nat.lt_ge_cases i (length bits)) as [Hlt|Hge]; [left; by rewrite lookup_app_l in H|].
  right. rewrite lookup_app_r in H by lia. destruct (i - length bits)%nat as [|n] eqn:E; [|by destruct n]. cbn in H. split; [lia | congruence].
Qed.

Lemma append_bit_bits layer bits valid : bits_of layer bits -> bits_of (append_bit layer valid) (bits ++ [valid]).
Proof.
  intros [Hlen Hnull Hok Hvalid Hsize Hbits Hspare]. pose proof (zlen_nonneg bits). unfold append_bit. rewrite Hlen.
  set (at_ := zlen bits) in *. destruct (ul_validity layer) as [|v0 vs] eqn:Ev.
  - rewrite bool_decide_eq_true_2 by done. specialize (Hvalid eq_refl). destruct valid.
    + split; cbn; rewrite ?zlen_app, ?nulls_app; try done.
      * rewrite Hnull. change (nulls [true]) with 0. lia.
      * intros _. apply Forall_app. split; [done|]. by repeat constructor.
    + set (v := replicate _ 255 ++ _).
      assert (v <> []) as Hne by (subst v; intros E; apply app_eq_nil in E as [_ E]; discriminate E).
      assert (zlen v = at_ / 8 + 1) as Hv by (subst v; rewrite zlen_app; unfold zlen at 1; rewrite length_replicate, Z2Nat.id; [done | dlia]).
      split; cbn; rewrite ?zlen_app, ?nulls_app; try done.
      * rewrite Hnull. done.
      * apply bytes_ok_app. split; [by apply Forall_replicate|]. repeat constructor; apply u8_range.
      * intros _. rewrite Hv. change (zlen [false]) with 1. fold at_. dlia.
      * intros _ i b Hi. subst v. rewrite bit_ones by lia. apply bits_snoc_lookup in Hi as [[Hlt Hi]|[-> ->]].
        -- rewrite (proj2 (Z.ltb_lt _ _)) by (subst at_; unfold zlen; lia). symmetry. exact (proj1 (Forall_lookup _ _) Hvalid i b Hi).
        -- apply Z.ltb_ge. subst at_. unfold zlen. lia.
      * intros _ i Hi. change (zlen [false]) with 1 in Hi. fold at_ in Hi. subst v. rewrite bit_ones by lia. apply Z.ltb_ge. lia.
  - rewrite bool_decide_eq_false_2 by done. specialize (Hsize ltac:(done)). specialize (Hbits ltac:(done)). specialize (Hspare ltac:(done)).
    set (v := if Z.land at_ 7 =? 0 then (v0 :: vs) ++ [0] else v0 :: vs).
    assert (bytes_ok v /\ v <> [] /\ 8 * zlen v - 8 <= at_ < 8 * zlen v /\ forall i, 0 <= i -> bit v i = bit (v0 :: vs) i) as (Hvok & Hvne & Hvlen & Hvbit).
    { subst v. change 7 with (2 ^ 3 - 1). rewrite land_low by lia. change (2 ^ 3) with 8. destruct (Z.eqb_spec (at_ mod 8) 0) as [Hz|Hz].
      - split_and!; [|done|rewrite zlen_app; change (zlen [0]) with 1; dlia..|].
        + apply bytes_ok_app. split; [done|]. by repeat constructor.
        + intros i Hi. destruct (Z.lt_ge_cases i (8 * zlen (v0 :: vs))) as [Hlt|Hge]; [by rewrite bit_app_l by lia|].
          rewrite (bit_beyond (v0 :: vs)) by lia. destruct (Z.lt_ge_cases i (8 * zlen (v0 :: vs) + 8)) as [Hlt|Hge2].
          * rewrite bit_app_r by lia. apply Z.testbit_0_l.
          * apply bit_beyond. rewrite zlen_app. change (zlen [0]) with 1. lia.
      - split_and!; [done|done|dlia..|done]. }
    clearbody v. assert (zlen v = (at_ + 1 + 7) / 8) as Hvsize by dlia.
    destruct valid.
    + assert (or_back v (u8 (Z.shiftl 1 (Z.land at_ 7))) <> []) as Hone
        by (intros E; apply (f_equal length) in E; rewrite or_back_length in E; destruct v; done).
      split; cbn; rewrite ?zlen_app, ?nulls_app; try done.
      * rewrite Hnull. change (nulls [true]) with 0. lia.
      * by apply or_back_ok.
      * intros _. unfold zlen at 1. rewrite or_back_length. exact Hvsize.
      * intros _ i b Hi. rewrite bit_or_back by (done || lia). rewrite Hvbit by lia. apply bits_snoc_lookup in Hi as [[Hlt Hi]|[-> ->]].
        -- rewrite (proj2 (Z.eqb_neq _ _)) by (subst at_; unfold zlen; lia). by apply Hbits.
        -- by rewrite Z.eqb_refl.
      * intros _ i Hi. change (zlen [true]) with 1 in Hi. rewrite bit_or_back by (done || lia). rewrite Hvbit by lia.
        rewrite (proj2 (Z.eqb_neq _ _)) by lia. apply Hspare. lia.
    + split; cbn; rewrite ?zlen_app, ?nulls_app; try done.
      * rewrite Hnull. done.
      * intros _ i b Hi. rewrite Hvbit by lia. apply bits_snoc_lookup in Hi as [[Hlt Hi]|[-> ->]]; [by apply Hbits | apply Hspare; subst at_; unfold zlen; lia].
      * intros _ i Hi. change (zlen [false]) with 1 in Hi. rewrite Hvbit by lia. apply Hspare. lia.
Qed.

(** Reading a bit of an appended bitmap. *)
Lemma valid_at_bits layer bits i b : bits_of layer bits -> bits !! i = Some b -> valid_at (Some (ul_validity layer)) (Z.of_nat i) = b.
Proof.
  intros H Hi. apply lookup_lt_Some in Hi as Hlt. unfold valid_at. destruct (ul_validity layer) as [|v0 vs] eqn:E.
  - symmetry. exact (proj1 (Forall_lookup _ _) (bo_valid _ _ H E) i b Hi).
  - assert (ul_validity layer <> []) as Hne by (by rewrite E). pose proof (bo_bits _ _ H Hne i b Hi) as Hb. pose proof (bo_size _ _ H Hne) as Hs.
    rewrite <- E in *. rewrite Z.shiftr_div_pow2 by lia. change (2 ^ 3) with 8.
    rewrite (proj2 (Z.ltb_lt _ _)) by (rewrite Hs; unfold zlen; dlia). cbn [andb].
    change 7 with (2 ^ 3 - 1). rewrite land_low by lia. change 1 with (2 ^ 1 - 1). rewrite land_low by lia. change (2 ^ 3) with 8. change (2 ^ 1) with 2.
    unfold bit in Hb. rewrite Z.shiftr_div_pow2 by dlia. rewrite <- Z.testbit_spec' by dlia. rewrite Hb. by destruct b.
Qed.

Lemma append_bit_kind layer valid : ul_kind (append_bit layer valid) = ul_kind layer.
Proof. unfold append_bit. repeat case_match; done. Qed.

Lemma append_bit_offsets layer valid : ul_offsets (append_bit layer valid) = ul_offsets layer.
Proof. unfold append_bit. repeat case_match; done. Qed.

(** ** The pass over a list layer, a level at a time *)

Definition add_child (p : ListPass) (n : Z) : ListPass := mkListPass (lp_rep p) (lp_def p) (lp_offsets p) (curlen p + n) (lp_layer p).

Definition level_step (has_def : bool) (ll : ListLevels) (p : ListPass) (r d : Z) : ListPass :=
  if r =? 0 then add_child p 1 else start_level has_def ll p r d.

Fixpoint levels_fold (has_def : bool) (ll : ListLevels) (rep def : list Z) (p : ListPass) : ListPass :=
  match rep with
  | [] => p
  | r :: rep => levels_fold has_def ll rep (drop 1 def) (level_step has_def ll p r (nth 0 def 0))
  end.

Lemma zeros_one_spec l : take (zeros_one l) l = replicate (zeros_one l) 0.
Proof. induction l as [|x l IH]; [done|]. destruct x; [cbn; by rewrite IH | done..]. Qed.

Lemma zeros_one_app n l : zeros_one (replicate n 0 ++ l) = (n + zeros_one l)%nat.
Proof. induction n as [|n IH]; [done|]. cbn. by rewrite IH. Qed.

(** Skipping sixteen at a time finds the same run. *)
Lemma zeros_run fuel l : zeros fuel l = zeros_one l.
Proof.
  revert l. induction fuel as [|fuel IH]; intros l; [done|]. cbn [zeros]. destruct (Nat.leb_spec 16 (length l)) as [Hl|]; [|done].
  cbn [andb]. destruct (forallb (Z.eqb 0) (take 16 l)) eqn:E; [|done]. rewrite IH. rewrite <- (take_drop 16 l) at 2.
  replace (take 16 l) with (replicate 16 0); [by rewrite zeros_one_app|]. apply replicate_as_Forall_2; [rewrite length_take; lia|].
  apply Forall_forall. intros x Hx. rewrite forallb_forall in E. specialize (E x). rewrite <- list_elem_of_In in E. specialize (E Hx). lia.
Qed.

Lemma levels_fold_zeros has_def ll n rep def p :
  levels_fold has_def ll (replicate n 0 ++ rep) def p = levels_fold has_def ll rep (drop n def) (add_child p (Z.of_nat n)).
Proof.
  revert def p. induction n as [|n IH]; intros def p; cbn [replicate app levels_fold].
  - rewrite drop_0. destruct p. unfold add_child. cbn. by rewrite Z.add_0_r.
  - rewrite IH, drop_drop. replace (1 + n)%nat with (S n) by lia. f_equal. unfold level_step, add_child. cbn. f_equal. lia.
Qed.

Lemma list_loop_levels fuel has_def ll rep def p :
  (length rep <= fuel)%nat -> list_loop fuel has_def ll rep def p = levels_fold has_def ll rep def p.
Proof.
  revert rep def p. induction fuel as [|fuel IH]; intros rep def p Hf; [by destruct rep; [|cbn in Hf; lia]|].
  destruct rep as [|r rest]; [done|]. cbn in Hf. cbn [list_loop levels_fold]. unfold level_step at 1. destruct (Z.eqb_spec r 0) as [->|Hr].
  - rewrite zeros_run. set (n := zeros_one rest). rewrite IH by (rewrite length_drop; cbn; lia). cbn [drop].
    rewrite <- (take_drop n rest) at 2. subst n. rewrite zeros_one_spec, levels_fold_zeros, drop_drop. cbn [Nat.add].
    f_equal. unfold add_child. cbn. f_equal. lia.
  - apply IH. lia.
Qed.

(** What holds of a pass so far: a bit and an offset per list, the offsets ascending up to the children so far, and
    no more of them than levels that start a list. *)
Record pass_ok (kind starts : Z) (p : ListPass) : Prop := {
  po_kind : ul_kind (lp_layer p) = kind;
  po_bits : exists bits, bits_of (lp_layer p) bits /\ length bits = length (lp_offsets p);
  po_offsets : StronglySorted Z.le (lp_offsets p);
  po_range : Forall (fun o => 0 <= o <= curlen p) (lp_offsets p);
  po_children : 0 <= curlen p;
  po_starts : zlen (lp_offsets p) <= starts
}.

Lemma sorted_snoc l c : StronglySorted Z.le l -> Forall (fun o => 0 <= o <= c) l -> StronglySorted Z.le (l ++ [c]).
Proof.
  induction 1 as [|x l Hs IH Hx]; intros Hr; cbn; [repeat constructor|]. apply Forall_cons in Hr as [Hx0 Hr]. constructor; [by apply IH|].
  apply Forall_app. split; [done|]. constructor; [lia | constructor].
Qed.

Lemma level_step_ok has_def ll kind starts p r d :
  pass_ok kind starts p -> pass_ok kind (starts + if r =? 0 then 0 else 1) (level_step has_def ll p r d).
Proof.
  intros [Hk (bits & Hb & Hl) Ho Hr Hc Hs]. unfold level_step. destruct (Z.eqb_spec r 0) as [->|Hr0].
  { split; cbn; [done|by exists bits|done| |lia|lia]. eapply Forall_impl; [exact Hr|]. cbn. lia. }
  assert (forall rep def valid n, 0 <= n ->
    pass_ok kind (starts + 1) (mkListPass rep def (lp_offsets p ++ [curlen p]) (curlen p + n) (append_bit (lp_layer p) valid))) as Hpush.
  { intros rep def valid n Hn. split; cbn.
    - by rewrite append_bit_kind.
    - exists (bits ++ [valid]). split; [by apply append_bit_bits|]. rewrite !length_app. cbn. lia.
    - by apply sorted_snoc.
    - apply Forall_app. split; [|repeat constructor; lia]. eapply Forall_impl; [exact Hr|]. cbn. lia.
    - lia.
    - rewrite zlen_app. change (zlen [_]) with 1. lia. }
  assert (pass_ok kind (starts + 1) (mkListPass (lp_rep p ++ [u16 (r - 1)]) (if has_def then lp_def p ++ [d] else lp_def p) (lp_offsets p) (curlen p) (lp_layer p))) as Hkeep
    by (split; cbn; [done|by exists bits|done|done|lia|lia]).
  unfold start_level. repeat case_match; try exact Hkeep; try (apply Hpush; lia).
  all: rewrite <- (Z.add_0_r (curlen p)) at 2; apply Hpush; lia.
Qed.

Lemma levels_fold_ok has_def ll kind rep def starts p :
  pass_ok kind starts p -> pass_ok kind (starts + zlen (filter (fun r => r <> 0) rep)) (levels_fold has_def ll rep def p).
Proof.
  revert def starts p. induction rep as [|r rep IH]; intros def starts p Hp; cbn [levels_fold].
  - change (zlen _) with 0. by rewrite Z.add_0_r.
  - apply (level_step_ok has_def ll kind starts p r (nth 0 def 0)) in Hp. apply (IH (drop 1 def)) in Hp. revert Hp. destruct (Z.eqb_spec r 0) as [->|Hr].
    + rewrite filter_cons_False by lia. by rewrite Z.add_0_r.
    + rewrite filter_cons_True by done. rewrite zlen_cons. by rewrite Z.add_assoc.
Qed.

Lemma new_pass_ok kind : pass_ok kind 0 (mkListPass [] [] [] 0 (new_layer kind)).
Proof. split; cbn; try done; try constructor. exists []. split; [apply bits_of_new | done]. Qed.

(** ** The layers *)

(** A layer over [inner] entries of the layer inside it. *)
Record layer_ok (inner : Z) (layer : UnraveledLayer) : Prop := {
  lo_bits : exists bits, bits_of layer bits;
  lo_list : is_list_layer (ul_kind layer) = true ->
    zlen (ul_offsets layer) = ul_length layer + 1 /\ StronglySorted Z.le (ul_offsets layer) /\
    Forall (fun o => 0 <= o) (ul_offsets layer) /\ last (ul_offsets layer) = Some inner;
  lo_item : is_list_layer (ul_kind layer) = false -> ul_offsets layer = [] /\ ul_length layer = inner
}.

Fixpoint fits (inner : Z) (layers : list UnraveledLayer) : Prop :=
  match layers with
  | [] => True
  | layer :: layers => layer_ok inner layer /\ fits (ul_length layer) layers
  end.

Lemma fits_snoc inner layers layer :
  fits inner layers -> layer_ok (match last layers with Some l => ul_length l | None => inner end) layer -> fits inner (layers ++ [layer]).
Proof.
  revert inner. induction layers as [|l layers IH]; intros inner; cbn; [done|]. intros [Hl Hf] H. split; [done|]. apply IH; [done|].
  destruct layers as [|l' layers]; [exact H|]. change (last (l :: l' :: layers)) with (last (l' :: layers)) in H. destruct (last (l' :: layers)) eqn:E; [exact H|]. by apply last_None in E.
Qed.

Lemma bits_of_all_valid kind n : 0 <= n -> bits_of (mkUnraveledLayer kind n [] [] 0) (replicate (Z.to_nat n) true).
Proof.
  intros Hn. assert (Forall (fun b => b = true) (replicate (Z.to_nat n) true)) as H by (by apply Forall_replicate).
  split; cbn; try done; [unfold zlen; rewrite length_replicate; lia | by rewrite nulls_valid | constructor].
Qed.

Lemma item_entries_ok kind ltr s : exists bits, bits_of (item_entries kind ltr s) bits /\ ul_kind (item_entries kind ltr s) = kind /\ ul_offsets (item_entries kind ltr s) = [].
Proof.
  unfold item_entries. generalize (kind =? kNullableItem). intros nullable.
  assert (exists bits, bits_of (new_layer kind) bits /\ ul_kind (new_layer kind) = kind /\ ul_offsets (new_layer kind) = []) as H
    by (exists []; split; [apply bits_of_new | done]).
  revert H. generalize (new_layer kind). induction (st_def s) as [|d def IH]; intros layer (bits & Hb & Hk & Ho); cbn [foldl]; [by exists bits|].
  apply IH. case_match; [|by exists bits]. eexists. split; [by apply append_bit_bits|]. by rewrite append_bit_kind, append_bit_offsets.
Qed.

Definition known (kind : Z) : Prop := is_item_layer kind = true \/ is_list_layer kind = true.

Lemma item_not_list kind : is_item_layer kind = true -> is_list_layer kind = false.
Proof.
  unfold is_item_layer, is_list_layer, kAllValidItem, kNullableItem, kAllValidList, kNullableList, kEmptyableList, kNullAndEmptyList.
  intros [H|H]%orb_true_iff; apply Z.eqb_eq in H as ->; reflexivity.
Qed.

(** The loop's state: layers that fit so far. *)
Definition out_ok (num_items items : Z) (out : list UnraveledLayer) : Prop :=
  fits items out /\ forall l, head out = Some l -> ul_length l = items /\ (num_items <> kInferItems -> items = num_items).

Lemma item_layer_ok has_rep has_def ltr num_items li kind s s' items :
  0 <= num_items -> is_item_layer kind = true -> (li = 0 <-> out s = []) -> out_ok num_items items (out s) ->
  item_layer has_rep has_def ltr num_items li kind s = Ok s' ->
  exists layer, out s' = out s ++ [layer] /\ ul_kind layer = kind /\ out_ok num_items (if li =? 0 then ul_length layer else items) (out s').
Proof.
  intros Hn Hk Hli [Hfit Hhead]. unfold item_layer. destruct (_ && _); [done|].
  set (layer := if has_def then _ else _). assert (exists bits, bits_of layer bits) as Hbits.
  { subst layer. destruct has_def; [destruct (item_entries_ok kind ltr s) as (bits & Hb & _); by exists bits|].
    eexists. apply bits_of_all_valid. destruct has_rep; [apply zlen_nonneg | done]. }
  assert (ul_kind layer = kind /\ ul_offsets layer = []) as [Hlk Hlo].
  { subst layer. destruct has_def; [destruct (item_entries_ok kind ltr s) as (? & _ & ?); done | done]. }
  clearbody layer. destruct ((li =? 0) && _ && _) eqn:E1; [done|]. destruct (negb (li =? 0) && _) eqn:E2; [done|]. intros [= <-]. cbn.
  exists layer. split; [done|]. split; [done|]. destruct (Z.eqb_spec li 0) as [H0|H0].
  - assert (out s = []) as -> by (by apply Hli). cbn. split.
    + cbn. split; [|done]. split; [done| |intros _; done]. rewrite Hlk, item_not_list by done. done.
    + intros l [= <-]. split; [done|]. intros Hi. cbn in E1. rewrite (proj2 (Z.eqb_neq _ _) Hi) in E1. cbn in E1. bool_prop. done.
  - cbn in E2. bool_prop. unfold back_length in E2. assert (out s <> []) as Hne by (intros H; apply H0, Hli; done). split.
    + apply fits_snoc; [done|]. split; [done| |].
      * rewrite Hlk, item_not_list by done. done.
      * intros _. split; [done|]. rewrite E2. destruct (last (out s)) eqn:El; [done|]. by apply last_None in El.
    + destruct (out s) as [|l0 ls] eqn:Eo; [done|]. cbn. intros l [= <-]. by apply Hhead.
Qed.

Lemma list_layer_ok has_def above li kind s s' num_items items :
  is_list_layer kind = true -> out s <> [] -> out_ok num_items items (out s) -> list_layer has_def above li kind s = Ok s' ->
  exists layer, out s' = out s ++ [layer] /\ ul_kind layer = kind /\ out_ok num_items items (out s').
Proof.
  intros Hk Hne [Hfit Hhead]. unfold list_layer. rewrite list_loop_levels by done.
  set (ll := list_levels kind (def_cmp s) above). pose proof (levels_fold_ok has_def ll kind (st_rep s) (st_def s) 0 _ (new_pass_ok kind)) as Hp.
  set (p := levels_fold _ _ _ _ _) in *. clearbody p. destruct Hp as [Hpk (bits & Hb & Hl) Ho Hr Hc _].
  destruct (negb (curlen p =? back_length (out s))) eqn:E; [done|]. bool_prop. unfold back_length in E. intros [= <-]. cbn [out].
  eexists. split; [reflexivity|]. split; [done|]. split.
  - apply fits_snoc; [done|]. split; cbn.
    + exists bits. destruct Hb as [B1 B2 B3 B4 B5 B6 B7]. split; cbn; assumption.
    + intros _. split_and!.
      * rewrite zlen_app. change (zlen [_]) with 1. rewrite (bo_length _ _ Hb). unfold zlen. lia.
      * by apply sorted_snoc.
      * apply Forall_app. split; [eapply Forall_impl; [exact Hr|]; cbn; lia | repeat constructor; done].
      * rewrite last_snoc. f_equal. destruct (last (out s)) eqn:El; [done|]. by apply last_None in El.
    + rewrite Hpk, Hk. done.
  - destruct (out s) as [|l0 ls] eqn:Eo; [done|]. cbn. intros l [= <-]. by apply Hhead.
Qed.

Lemma unravel_layers_ok has_rep has_def ltr num_items layers li s items result :
  0 <= num_items -> 0 <= li -> Forall known layers -> (li = 0 <-> out s = []) -> (li = 0 -> forall k ks, layers = k :: ks -> is_item_layer k = true) ->
  out_ok num_items items (out s) -> unravel_layers has_rep has_def ltr num_items layers li s = Ok result ->
  ul_kind <$> result = (ul_kind <$> out s) ++ layers /\ exists items, out_ok num_items items result.
Proof.
  intros Hn. revert li s items. induction layers as [|kind above IH]; intros li s items Hli Hknown Hz Hfirst Hok; cbn [unravel_layers].
  { intros [= <-]. rewrite app_nil_r. eauto. }
  apply Forall_cons in Hknown as [Hk Hknown]. unfold mbind, res_bind.
  destruct (if is_item_layer kind then _ else _) as [s'|] eqn:E; [|done]. intros Hres.
  assert (exists layer items', out s' = out s ++ [layer] /\ ul_kind layer = kind /\ out_ok num_items items' (out s')) as (layer & items' & Ho & Hlk & Hok').
  { destruct (is_item_layer kind) eqn:Ek.
    - edestruct item_layer_ok as (layer & H1 & H2 & H3); [exact Hn | exact Ek | exact Hz | exact Hok | exact E |]. eauto.
    - destruct Hk as [Hk|Hk]; [congruence|]. assert (out s <> []) as Hne.
      { intros H. apply Hz in H. specialize (Hfirst H kind above eq_refl). congruence. }
      edestruct list_layer_ok as (layer & H1 & H2 & H3); [exact Hk | exact Hne | exact Hok | exact E |]. eauto. }
  apply (IH (li + 1) s' items') in Hres as [Hkinds Hex]; [|lia|done| |lia|exact Hok'].
  - split; [|exact Hex]. rewrite Hkinds, Ho, fmap_app. cbn. rewrite Hlk, <- app_assoc. done.
  - rewrite Ho. split; [lia|]. intros H. by apply app_eq_nil in H as [_ ?].
Qed.

Lemma layer_steps_known layers s s' : fold_res layer_step layers s = Ok s' -> Forall known layers.
Proof.
  revert s. induction layers as [|kind layers IH]; intros s; cbn [fold_res]; [constructor|]. unfold mbind, res_bind. destruct s as [ltr n].
  destruct (layer_step (ltr, n) kind) as [s1|] eqn:E; [|done]. intros H. constructor; [|exact (IH _ H)].
  unfold layer_step in E. unfold known, is_item_layer, is_list_layer. destruct (kind =? kAllValidItem); [by left|]. destruct (kind =? kAllValidList); [by right|].
  destruct (kind =? kNullableItem); [left; by rewrite orb_true_r|]. right. destruct (kind =? kNullableList), (kind =? kEmptyableList), (kind =? kNullAndEmptyList); done.
Qed.

(** C36: (type): whatever the levels, what [unravel] accepts is a nested column: one layer per descriptor layer, of its
    kind, from the page's items outward; every list has its offsets, ascending and ending at the number of entries
    of the layer inside it, every struct as many entries as that layer; and every validity bitmap is as long as
    its layer needs, with the layer's nulls counted. *)
Theorem unravel_well_typed rep has_rep def has_def layers num_items result :
  0 <= num_items -> unravel rep has_rep def has_def layers num_items = Ok result ->
  ul_kind <$> result = layers /\ exists items, (num_items <> kInferItems -> items = num_items) /\ fits items result.
Proof.
  intros Hn. unfold unravel. destruct (bool_decide (layers = []) || negb (is_item_layer (nth 0 layers 0))) eqn:E0; [done|].
  apply orb_false_iff in E0 as [Hne%bool_decide_eq_false Hitem%negb_false_iff]. unfold mbind at 1, res_bind at 1.
  destruct (fold_res layer_step layers ([0], 0)) as [[ltr num_lists]|] eqn:Esteps; [|done].
  repeat (match goal with |- (if ?b then _ else _) = _ -> _ => destruct b end; [done|]). intros H.
  apply (unravel_layers_ok _ _ _ _ _ _ _ 0) in H as [Hk (items & Hfit & Hhead)].
  - split; [exact Hk|]. exists items. split; [|exact Hfit]. destruct result as [|l ls]; [by cbn in Hk; subst|]. by apply (Hhead l).
  - done.
  - done.
  - exact (layer_steps_known _ _ _ Esteps).
  - done.
  - intros _ k ks ->. exact Hitem.
  - split; [done|]. cbn. done.
Qed.

Lemma unravel_well_typed_witness :
  ul_kind <$> [mkUnraveledLayer 3 2 [] [1] 1; mkUnraveledLayer 6 4 [0; 2; 2; 2; 2] [11] 1] = [3; 6] /\
  exists items, (2 <> kInferItems -> items = 2) /\ fits items [mkUnraveledLayer 3 2 [] [1] 1; mkUnraveledLayer 6 4 [0; 2; 2; 2; 2] [11] 1].
Proof. apply (unravel_well_typed [1; 0; 1; 1; 1] true [0; 1; 3; 2; 3] true [3; 6] 2); [lia | vm_compute; reflexivity]. Defined.

(** A level that continues a list where none was started becomes a child of no list: the page is accepted and the
    first offset is not 0. *)
Lemma unravel_orphan_child :
  exists item inner outer, unravel [2; 0; 2] true [1; 0; 0] true [1; 2; 4] 2 = Ok [item; inner; outer] /\ ul_offsets inner = [1; 2].
Proof. do 3 eexists. vm_compute. done. Qed.

End RepDefRead.
