(* ===== verification/RepDefStages.v ===== *)
(** * RepDefStages: reading the levels of nested values

    Nested values as trees, the levels they are written as, and the passes of [unravel] as stages: after each, the
    levels are those of the same rows seen only down to the layer just read. *)

From S2P Require Import Prelude RepDef RepDefRead.

Module RepDefStages.
Import RepDef RepDefRead.

(** ** Nested values *)

(** A null (with the value slot it keeps, if it keeps one), an item (the leaf it is), a struct or a list. *)
Inductive tree := Null (slot : option Z) | Leaf (slot : Z) | Struct (t : tree) | List (ts : list tree).

(** Entry [idx] of the outermost of [layers]. *)
Fixpoint entry (item_validity : list Z) (layers : list SerializeLayer) (idx : Z) : tree :=
  match layers with
  | [] => if valid_at (Some item_validity) idx then Leaf idx else Null (Some idx)
  | l :: ls =>
      if negb (valid_at (sl_validity l) idx) then Null (if is_list l || existsb is_list ls then None else Some idx)
      else if is_list l then
        let offsets := default [] (sl_offsets l) in
        let begin := nth (Z.to_nat idx) offsets 0 in
        List (entry item_validity ls <$> seqZ begin (nth (Z.to_nat (idx + 1)) offsets 0 - begin))
      else Struct (entry item_validity ls idx)
  end.

(** The value of a tree over the leaves [f] names: a null has no leaf. *)
Fixpoint value (f : Z -> Z) (t : tree) : tree :=
  match t with
  | Null _ => Null None
  | Leaf s => Leaf (f s)
  | Struct t => Struct (value f t)
  | List ts => List (value f <$> ts)
  end.

(** ** Levels *)

(** A layer as the levels see it: the levels of its nulls and of its empty lists, 0 where it has none. *)
Record Info := mkInfo { i_list : bool; i_null : Z; i_empty : Z }.

Definition depth (ls : list Info) : Z := zlen (filter (fun l => i_list l = true) ls).

(** What may occur in a tree of these layers, [item] the level of a null item. *)
Fixpoint typed (item : Z) (ls : list Info) (t : tree) : Prop :=
  match ls with
  | [] => match t with Leaf _ => True | Null _ => 0 < item | _ => False end
  | l :: ls =>
      match t with
      | Null _ => 0 < i_null l
      | Struct t => i_list l = false /\ typed item ls t
      | List ts => i_list l = true /\ (ts = [] -> 0 < i_empty l) /\ Forall (typed item ls) ts
      | Leaf _ => False
      end
  end.

(** The definition level the levels of a tree start with. *)
Fixpoint first_def (item : Z) (ls : list Info) (t : tree) : Z :=
  match ls with
  | [] => match t with Leaf _ => 0 | _ => item end
  | l :: ls =>
      match t with
      | Struct t | List (t :: _) => first_def item ls t
      | List [] => i_empty l
      | _ => i_null l
      end
  end.

(** An entry of a layer: one of the trees, or what a null struct directly above leaves there. *)
Inductive node := Real (t : tree) | Hidden (slot : option Z).

(** A level: repetition, definition, and the entry of the layer below [above] it shows, if it shows one. *)
Definition cell : Type := Z * Z * option node.
Definition c_rep (c : cell) : Z := c.1.1.
Definition c_def (c : cell) : Z := c.1.2.

(** The levels of [t] seen through [above] only: an entry below is one level, of definition [cut]. *)
Fixpoint cells (cut : tree -> Z) (above : list Info) (t : tree) (r : Z) : list cell :=
  match above with
  | [] => [(r, cut t, Some (Real t))]
  | l :: above =>
      match t with
      | Struct t => cells cut above t r
      | List [] => [(r, i_empty l, None)]
      | List (t :: ts) => cells cut above t r ++ concat ((fun t => cells cut above t (depth above)) <$> ts)
      | Null slot => [(r, i_null l, if i_list l || (0 <? depth above) then None else Some (Hidden slot))]
      | Leaf _ => []
      end
  end.

(** The stage after the layers [ls] were read. *)
Definition stage (item : Z) (above ls : list Info) (rows : list tree) : list cell :=
  concat ((fun t => cells (first_def item ls) above t (depth above)) <$> rows).

Definition nodes (cs : list cell) : list node := omap snd cs.

(** ** From one stage to the next *)

Lemma depth_app a b : depth (a ++ b) = depth a + depth b.
Proof. unfold depth. by rewrite filter_app, zlen_app. Qed.

Lemma depth_cons l ls : depth (l :: ls) = (if i_list l then 1 else 0) + depth ls.
Proof. unfold depth. rewrite filter_cons. destruct (i_list l); case_decide; try done. by rewrite zlen_cons. Qed.

Lemma depth_nonneg ls : 0 <= depth ls.
Proof. apply zlen_nonneg. Qed.

(** The entry of a struct, which a null one hides; the entries of a list. *)
Definition child (n : node) : node := match n with Real (Struct t) => Real t | Real (Null s) => Hidden s | n => n end.
Definition children (n : node) : list node := match n with Real (List ts) => Real <$> ts | _ => [] end.

Definition enter_struct (c : cell) : cell := (c.1, child <$> c.2).

Definition enter_list (item : Z) (ls : list Info) (c : cell) : list cell :=
  match c.2 with
  | Some (Real (List (t :: ts))) => (c_rep c + 1, c_def c, Some (Real t)) :: ((fun t => (0, first_def item ls t, Some (Real t))) <$> ts)
  | _ => [(c_rep c + 1, c_def c, None)]
  end.

Lemma cells_struct item above l ls t r :
  i_list l = false -> typed item (above ++ l :: ls) t ->
  cells (first_def item ls) (above ++ [l]) t r = enter_struct <$> cells (first_def item (l :: ls)) above t r.
Proof.
  intros Hl. revert t r. induction above as [|a above IH]; intros t r; cbn [app typed cells].
  { rewrite Hl. destruct t as [s| |t|ts]; cbn; [|done|done|intros [? _]; congruence].
    intros _. done. }
  assert (depth (above ++ [l]) = depth above) as Hd by (rewrite depth_app, depth_cons, Hl; change (depth []) with 0; lia).
  destruct t as [s| |t|ts]; [| done | intros [_ Ht]; by apply IH |].
  - intros _. rewrite Hd. cbn. unfold enter_struct. cbn. by destruct (_ || _).
  - intros (_ & _ & Hts). destruct ts as [|t ts]; [done|]. apply Forall_cons in Hts as [Ht Hts]. rewrite fmap_app, IH by done. f_equal.
    rewrite Hd. clear Ht. induction Hts as [|t' ts Ht' _ IHts]; [done|]. cbn [fmap list_fmap concat]. rewrite fmap_app, IH by done. by f_equal.
Qed.

Lemma cells_list item above l ls t r :
  i_list l = true -> typed item (above ++ l :: ls) t ->
  cells (first_def item ls) (above ++ [l]) t (r + 1) = concat (enter_list item ls <$> cells (first_def item (l :: ls)) above t r).
Proof.
  intros Hl. revert t r. induction above as [|a above IH]; intros t r; cbn [app typed cells].
  { rewrite Hl. destruct t as [s| |t|ts]; cbn; [done|done|intros [? _]; congruence|]. intros (_ & _ & _). destruct ts as [|t ts]; cbn; [done|].
    rewrite app_nil_r. unfold enter_list. cbn. f_equal. change (depth []) with 0. induction ts as [|t' ts IHts]; [done|]. cbn. by f_equal. }
  assert (depth (above ++ [l]) = depth above + 1) as Hd by (rewrite depth_app, depth_cons, Hl; change (depth []) with 0; lia).
  pose proof (depth_nonneg above). destruct t as [s| |t|ts]; [| done | intros [_ Ht]; by apply IH |].
  - intros _. rewrite Hd, (proj2 (Z.ltb_lt 0 _)) by lia. rewrite orb_true_r. cbn. unfold enter_list. cbn. by destruct (_ || _).
  - intros (_ & _ & Hts). destruct ts as [|t ts]; [done|]. apply Forall_cons in Hts as [Ht Hts]. rewrite fmap_app, concat_app, IH by done. f_equal.
    rewrite Hd. clear Ht. induction Hts as [|t' ts Ht' _ IHts]; [done|]. cbn [fmap list_fmap concat]. rewrite fmap_app, concat_app, IH by done. by f_equal.
Qed.

Lemma stage_struct item above l ls rows :
  i_list l = false -> Forall (typed item (above ++ l :: ls)) rows ->
  stage item (above ++ [l]) ls rows = enter_struct <$> stage item above (l :: ls) rows.
Proof.
  intros Hl Hrows. unfold stage. rewrite depth_app, depth_cons, Hl. change (depth []) with 0. rewrite !Z.add_0_r.
  induction Hrows as [|t rows Ht _ IH]; [done|]. cbn [fmap list_fmap concat]. rewrite fmap_app. f_equal; [by apply cells_struct | exact IH].
Qed.

Lemma stage_list item above l ls rows :
  i_list l = true -> Forall (typed item (above ++ l :: ls)) rows ->
  stage item (above ++ [l]) ls rows = concat (enter_list item ls <$> stage item above (l :: ls) rows).
Proof.
  intros Hl Hrows. unfold stage. rewrite depth_app, depth_cons, Hl. change (depth []) with 0. rewrite Z.add_0_r.
  induction Hrows as [|t rows Ht _ IH]; [done|]. cbn [fmap list_fmap concat]. rewrite fmap_app, concat_app. f_equal; [by apply cells_list | exact IH].
Qed.

Lemma nodes_app a b : nodes (a ++ b) = nodes a ++ nodes b.
Proof. apply omap_app. Qed.

Lemma nodes_struct cs : nodes (enter_struct <$> cs) = child <$> nodes cs.
Proof. induction cs as [|[[r d] [t|]] cs IH]; cbn; [done| |exact IH]. by f_equal. Qed.

Lemma nodes_list item ls cs : nodes (concat (enter_list item ls <$> cs)) = concat (children <$> nodes cs).
Proof.
  induction cs as [|[[r d] n] cs IH]; [done|]. cbn [fmap list_fmap concat]. rewrite nodes_app, IH.
  destruct n as [[[| | |[|t ts]]|]|]; try done. cbn. unfold enter_list. cbn. f_equal. clear. induction ts as [|t ts IH]; [done|]. cbn. by f_equal.
Qed.

Lemma nodes_rows item ls rows : nodes (stage item [] ls rows) = Real <$> rows.
Proof. induction rows as [|t rows IH]; [done|]. unfold stage in *. cbn. by f_equal. Qed.

(** ** The numbering of the definition levels *)

Definition used (level : Z) : Z := if 0 <? level then 1 else 0.

(** The highest level of the layers [ls], the outermost one's. *)
Fixpoint top (item : Z) (ls : list Info) : Z :=
  match ls with [] => item | l :: ls => top item ls + used (i_null l) + used (i_empty l) end.

(** The levels are numbered from the items outward, a layer's null before its empty list. *)
Fixpoint numbered (item : Z) (ls : list Info) : Prop :=
  match ls with
  | [] => item = 0 \/ item = 1
  | l :: ls =>
      numbered item ls /\ (i_null l = 0 \/ i_null l = top item ls + 1) /\
      (i_empty l = 0 \/ i_empty l = top item ls + used (i_null l) + 1) /\ (i_list l = false -> i_empty l = 0)
  end.

Definition kind_of (l : Info) : Z :=
  if i_list l then
    if (0 <? i_null l) && (0 <? i_empty l) then kNullAndEmptyList else if 0 <? i_null l then kNullableList else if 0 <? i_empty l then kEmptyableList else kAllValidList
  else if 0 <? i_null l then kNullableItem else kAllValidItem.

(** The descriptor's layers, innermost first. *)
Definition kinds (item : Z) (ls : list Info) : list Z := (if 0 <? item then kNullableItem else kAllValidItem) :: reverse (kind_of <$> ls).

(** The depth each level is visible from. *)
Fixpoint depths (item : Z) (ls : list Info) : list Z :=
  match ls with
  | [] => 0 :: (if 0 <? item then [0] else [])
  | l :: ls => depths item ls ++ replicate (Z.to_nat (used (i_null l) + used (i_empty l))) (depth (l :: ls))
  end.

Lemma used_range x : 0 <= used x <= 1.
Proof. unfold used. case_match; lia. Qed.

Lemma top_nonneg item ls : numbered item ls -> 0 <= top item ls.
Proof.
  induction ls as [|l ls IH]; cbn; [lia|]. intros (H & _). specialize (IH H). pose proof (used_range (i_null l)). pose proof (used_range (i_empty l)). lia.
Qed.

Lemma zlen_depths item ls : numbered item ls -> zlen (depths item ls) = top item ls + 1.
Proof.
  induction ls as [|l ls IH]; cbn [depths top numbered].
  - intros [H|H]; rewrite H; reflexivity.
  - intros (H & _). rewrite zlen_app, IH by done. pose proof (used_range (i_null l)). pose proof (used_range (i_empty l)).
    unfold zlen. rewrite length_replicate. lia.
Qed.

Lemma depths_app item above ls : exists more, depths item (above ++ ls) = depths item ls ++ more.
Proof.
  induction above as [|l above (more & IH)]; cbn [app depths]; [exists []; by rewrite app_nil_r|]. rewrite IH. eexists. by rewrite <- app_assoc.
Qed.

Lemma depths_range item ls d : d ∈ depths item ls -> 0 <= d <= depth ls.
Proof.
  induction ls as [|l ls IH]; cbn [depths].
  - destruct (0 <? item); intros H; assert (d = 0) as -> by (by set_solver); change (depth []) with 0; lia.
  - pose proof (depth_nonneg ls). rewrite depth_cons. intros [H1|H1]%elem_of_app.
    + specialize (IH H1). case_match; lia.
    + apply elem_of_replicate in H1 as [-> _]. case_match; lia.
Qed.

(** The depth of level [d] among all the layers. *)
Definition depth_at (item : Z) (ls : list Info) (d : Z) : Z := nth (Z.to_nat d) (depths item ls) 0.

Lemma depth_at_app item above ls d : numbered item ls -> 0 <= d <= top item ls -> depth_at item (above ++ ls) d = depth_at item ls d.
Proof.
  intros Hn Hd. unfold depth_at. destruct (depths_app item above ls) as (more & ->). apply app_nth1. pose proof (zlen_depths item ls Hn) as H. unfold zlen in H. lia.
Qed.

Lemma depth_at_inner item ls d : numbered item ls -> 0 <= d <= top item ls -> depth_at item ls d <= depth ls.
Proof.
  intros Hn Hd. apply (depths_range item ls). unfold depth_at. apply list_elem_of_In, nth_In. pose proof (zlen_depths item ls Hn) as H. unfold zlen in H. lia.
Qed.

Lemma depth_at_layer item l ls d : numbered item (l :: ls) -> top item ls < d <= top item (l :: ls) -> depth_at item (l :: ls) d = depth (l :: ls).
Proof.
  intros (Hn & _) Hd. cbn [top] in Hd. unfold depth_at. cbn [depths]. pose proof (zlen_depths item ls Hn) as H. pose proof (top_nonneg item ls Hn). unfold zlen in H.
  rewrite app_nth2 by lia. rewrite nth_lookup, lookup_replicate_2 by lia. done.
Qed.

(** The levels of a layer are above those of the layers inside it. *)
Lemma layer_levels item l ls : numbered item (l :: ls) ->
  (0 < i_null l -> i_null l = top item ls + 1 /\ i_null l <= top item (l :: ls)) /\
  (0 < i_empty l -> i_list l = true /\ top item ls < i_empty l /\ i_empty l = top item (l :: ls) /\ i_empty l <> i_null l).
Proof.
  intros (Hn & Hnull & Hempty & Hlist). pose proof (top_nonneg item ls Hn). cbn [top]. unfold used in *.
  repeat case_match; bool_prop; split; intros; destruct (i_list l); try lia; split_and!; try lia; try done; exfalso; specialize (Hlist eq_refl); lia.
Qed.

Lemma first_def_range item ls t : numbered item ls -> typed item ls t -> 0 <= first_def item ls t <= top item ls.
Proof.
  revert t. induction ls as [|l ls IH]; intros t Hn Ht; [destruct t; cbn in *; lia|]. pose proof (layer_levels item l ls Hn) as [Hl1 Hl2].
  destruct Hn as (Hn & _). pose proof (top_nonneg item ls Hn). pose proof (used_range (i_null l)). pose proof (used_range (i_empty l)).
  cbn [top] in *. destruct t as [s| |t|[|t ts]]; cbn in Ht |- *; try done.
  - lia.
  - destruct Ht as [_ Ht]. specialize (IH t Hn Ht). lia.
  - destruct Ht as (_ & Hts & _). specialize (Hts eq_refl). lia.
  - destruct Ht as (_ & _ & Hts). apply Forall_cons in Hts as [Ht _]. specialize (IH t Hn Ht). lia.
Qed.

(** The kinds say what the layers are. *)
Lemma kind_of_item l : is_item_layer (kind_of l) = negb (i_list l).
Proof. unfold kind_of. destruct (i_list l), (0 <? i_null l), (0 <? i_empty l); reflexivity. Qed.
Lemma kind_of_list l : is_list_layer (kind_of l) = i_list l.
Proof. unfold kind_of. destruct (i_list l), (0 <? i_null l), (0 <? i_empty l); reflexivity. Qed.

(** The nullable structs directly above a layer, of those in [above]. *)
Definition masks (above : list Info) : Z := structs_above (reverse (kind_of <$> above)).

Lemma structs_above_app xs ys :
  structs_above (xs ++ ys) = structs_above xs + (if forallb is_item_layer xs then structs_above ys else 0).
Proof. induction xs as [|x xs IH]; cbn; [done|]. destruct (is_item_layer x); cbn; [rewrite IH|]; lia. Qed.

Lemma items_above above : forallb is_item_layer (reverse (kind_of <$> above)) = (depth above =? 0).
Proof.
  induction above as [|a above IH]; [done|]. rewrite fmap_cons, reverse_cons, forallb_app, IH, depth_cons. cbn [forallb].
  rewrite kind_of_item, andb_true_r. pose proof (depth_nonneg above). destruct (i_list a); cbn; destruct (Z.eqb_spec (depth above) 0); symmetry; (apply Z.eqb_eq || apply Z.eqb_neq); lia.
Qed.

Lemma masks_cons a above :
  masks (a :: above) = masks above + (if (depth above =? 0) && negb (i_list a) then used (i_null a) else 0).
Proof.
  unfold masks. rewrite fmap_cons, reverse_cons, structs_above_app, items_above. f_equal. destruct (depth above =? 0); [|done]. cbn [structs_above andb].
  rewrite kind_of_item. unfold kind_of, used. destruct (i_list a), (0 <? i_null a); reflexivity.
Qed.

Lemma masks_range above : 0 <= masks above.
Proof. induction above as [|a above IH]; [done|]. rewrite masks_cons. pose proof (used_range (i_null a)). case_match; lia. Qed.

Lemma row_numbers_app item above ls : numbered item (above ++ ls) -> numbered item ls.
Proof. induction above as [|a above IH]; [done|]. intros (H & _). by apply IH. Qed.

Lemma top_masks item above ls : numbered item (above ++ ls) ->
  top item ls + masks above <= top item (above ++ ls) /\ (depth above = 0 -> top item (above ++ ls) = top item ls + masks above).
Proof.
  induction above as [|a above IH]; cbn [app]; [change (masks []) with 0; lia|]. intros Hn. pose proof (proj2 (layer_levels item _ _ Hn)) as He.
  destruct Hn as (Hn & _). specialize (IH Hn) as [IH1 IH2]. cbn [top]. rewrite masks_cons, depth_cons. pose proof (used_range (i_null a)). pose proof (used_range (i_empty a)).
  pose proof (depth_nonneg above). split.
  - case_match; lia.
  - destruct (i_list a) eqn:El; [lia|]. intros Hd. rewrite Z.add_0_l in Hd. rewrite Hd. cbn [Z.eqb negb andb]. rewrite IH2 by done.
    assert (used (i_empty a) = 0) by (unfold used; destruct (Z.ltb_spec 0 (i_empty a)) as [Hp|]; [destruct (He Hp); congruence | done]). lia.
Qed.

(** What a level shows of the layer its stage has come to. *)
Definition cell_ok (item : Z) (above ls : list Info) (c : cell) : Prop :=
  0 <= c_def c <= top item (above ++ ls) /\
  match c.2 with
  | Some (Real t) => c_def c = first_def item ls t /\ typed item ls t
  | Some (Hidden _) => top item ls < c_def c <= top item ls + masks above /\ depth_at item (above ++ ls) (c_def c) = depth ls
  | None => top item ls + masks above < c_def c /\ depth ls < depth_at item (above ++ ls) (c_def c)
  end.

Lemma cell_ok_cons item a above ls c : numbered item (a :: above ++ ls) -> cell_ok item above ls c -> cell_ok item (a :: above) ls c.
Proof.
  intros Hn (Hr & H). assert (numbered item (above ++ ls)) as Hn' by apply Hn. pose proof (used_range (i_null a)). pose proof (used_range (i_empty a)).
  pose proof (depth_at_app item [a] (above ++ ls) (c_def c) Hn' Hr) as Hd. cbn [app] in Hd.
  unfold cell_ok. cbn [app top]. split; [lia|]. rewrite Hd. destruct c.2 as [[t|s]|]; [done| |].
  - rewrite masks_cons. destruct H. split; [|done]. case_match; lia.
  - destruct H as [Hc1 Hc2]. split; [|done]. rewrite masks_cons. destruct (Z.eqb_spec (depth above) 0) as [Hz|]; [|cbn; lia]. exfalso.
    pose proof (proj2 (top_masks item above ls Hn') Hz). lia.
Qed.

Lemma cells_ok item above ls t r : numbered item (above ++ ls) -> typed item (above ++ ls) t -> Forall (cell_ok item above ls) (cells (first_def item ls) above t r).
Proof.
  revert t r. induction above as [|a above IH]; intros t r Hn Ht; cbn [cells].
  { repeat constructor; [| |done..]; pose proof (first_def_range item ls t Hn Ht); cbn; lia. }
  cbn [app] in *. assert (forall t r, typed item (above ++ ls) t -> Forall (cell_ok item (a :: above) ls) (cells (first_def item ls) above t r)) as Hin.
  { intros t' r' Ht'. eapply Forall_impl; [apply IH; [apply Hn | exact Ht']|]. intros c. by apply cell_ok_cons. }
  pose proof (layer_levels item a (above ++ ls) Hn) as [Hl1 Hl2]. pose proof (top_masks item above ls ltac:(apply Hn)) as [Hm1 Hm2].
  pose proof (top_nonneg item ls (row_numbers_app item above ls ltac:(apply Hn))). pose proof (masks_range above). pose proof (depth_nonneg above).
  assert (forall d, top item (above ++ ls) < d <= top item (a :: above ++ ls) -> (i_list a = true \/ 0 < depth above) -> cell_ok item (a :: above) ls (r, d, None)) as Hnone.
  { intros d Hd Hvis. split; cbn [c_def fst snd app]; [lia|]. rewrite depth_at_layer by done. rewrite depth_cons, depth_app, masks_cons. split.
    - destruct Hvis as [->|Hp]; [rewrite andb_false_r; lia|]. rewrite (proj2 (Z.eqb_neq (depth above) 0)) by lia. cbn. lia.
    - destruct Hvis as [->|Hp]; [lia|]. case_match; lia. }
  destruct t as [s| |t|[|t ts]]; cbn [typed] in Ht; [|done| destruct Ht; by apply Hin | |].
  - constructor; [|constructor]. specialize (Hl1 Ht) as [He Hle]. destruct (i_list a || (0 <? depth above)) eqn:E.
    + apply Hnone; [lia|]. apply orb_true_iff in E as [E|E]; [by left | right; lia].
    + apply orb_false_iff in E as [E1 E2]. bool_prop. assert (depth above = 0) as Hz by lia. split; cbn [c_def fst snd app]; [lia|].
      rewrite depth_at_layer by (done || lia). rewrite depth_cons, depth_app, masks_cons, Hz, E1. cbn [Z.eqb negb andb]. specialize (Hm2 Hz).
      unfold used. rewrite (proj2 (Z.ltb_lt 0 (i_null a))) by done. lia.
  - constructor; [|constructor]. destruct Ht as (El & Hts & _). specialize (Hl2 (Hts eq_refl)) as (_ & Hc1 & Hc2 & _). apply Hnone; [lia | by left].
  - destruct Ht as (_ & _ & Hts). apply Forall_cons in Hts as [Ht Hts]. apply Forall_app. split; [by apply Hin|]. clear Ht.
    induction Hts as [|t' ts Ht' _ IHts]; [constructor|]. cbn [fmap list_fmap concat]. apply Forall_app. split; [by apply Hin | exact IHts].
Qed.

Lemma stage_ok item above ls rows :
  numbered item (above ++ ls) -> Forall (typed item (above ++ ls)) rows -> Forall (cell_ok item above ls) (stage item above ls rows).
Proof.
  intros Hn Hrows. unfold stage. apply Forall_concat_iff. apply Forall_fmap. eapply Forall_impl; [exact Hrows|]. intros t Ht. by apply cells_ok.
Qed.

(** Repetition levels: between 0 and the lists above, the highest where a row starts. *)
Lemma cells_reps cut above t r : 0 <= r -> depth above <= r -> Forall (fun c => 0 <= c_rep c <= r) (cells cut above t r).
Proof.
  revert t r. induction above as [|a above IH]; intros t r Hr Hd; cbn [cells]; [repeat constructor; cbn; lia|]. rewrite depth_cons in Hd.
  pose proof (depth_nonneg above). destruct t as [s| |t|[|t ts]]; try (repeat constructor; cbn; lia).
  - apply IH; [lia | case_match; lia].
  - apply Forall_app. split; [apply IH; [lia | case_match; lia]|]. apply Forall_concat_iff, Forall_fmap, Forall_forall. intros t' _.
    eapply Forall_impl; [apply IH; lia|]. cbn. case_match; lia.
Qed.

Lemma stage_reps item above ls rows : Forall (fun c => 0 <= c_rep c <= depth above) (stage item above ls rows).
Proof. apply Forall_concat_iff, Forall_fmap, Forall_forall. intros t _. apply cells_reps; [apply depth_nonneg | lia]. Qed.

Lemma cells_head item above ls t r : typed item (above ++ ls) t -> exists d n cs, cells (first_def item ls) above t r = (r, d, n) :: cs.
Proof.
  revert t. induction above as [|a above IH]; intros t Ht; cbn [cells]; [eauto|]. destruct t as [s| |t|[|t ts]]; cbn in Ht; [eauto|done| |eauto|].
  - apply IH, Ht.
  - destruct Ht as (_ & _ & Hts). apply Forall_cons in Hts as [Ht _]. destruct (IH t Ht) as (d & n & cs & ->). cbn. eauto.
Qed.

Lemma stage_head item above ls rows c cs :
  Forall (typed item (above ++ ls)) rows -> stage item above ls rows = c :: cs -> c_rep c = depth above.
Proof.
  intros Hrows. destruct Hrows as [|t rows Ht _]; [done|]. unfold stage. cbn [fmap list_fmap concat].
  destruct (cells_head item above ls t (depth above) Ht) as (d & n & cs' & ->). cbn. intros [= <- _]. done.
Qed.

End RepDefStages.
