(* ===== verification/RepDefLayers.v ===== *)
(** * RepDefLayers: the layers [unravel] makes of the levels of rows are the rows

    Each pass of [unravel] over a stage of [RepDefStages], and the column the layers so far describe. *)

From S2P Require Import Prelude RepDef RepDefRead RepDefStages.

Module RepDefLayers.
Import RepDef RepDefRead RepDefStages.

(** ** The depth table *)

Lemma item_kind_step item : numbered item [] -> layer_step ([0], 0) (if 0 <? item then kNullableItem else kAllValidItem) = Ok (depths item [], 0).
Proof. intros [H|H]; rewrite H; reflexivity. Qed.

Lemma layer_kind_step item l ls :
  numbered item (l :: ls) -> depth (l :: ls) < 2 ^ 16 -> layer_step (depths item ls, depth ls) (kind_of l) = Ok (depths item (l :: ls), depth (l :: ls)).
Proof.
  intros (_ & _ & _ & Hlist) Hd. pose proof (depth_nonneg ls). cbn [depths]. rewrite depth_cons in *. unfold kind_of, used. destruct (i_list l).
  - rewrite (Z.add_comm 1). assert (u16 (depth ls + 1) = depth ls + 1) as Hu by (apply u16_small; unfold is_u16; lia).
    destruct (0 <? i_null l), (0 <? i_empty l); cbn -[u16]; rewrite Hu; rewrite ?app_nil_r; reflexivity.
  - rewrite Hlist by done. destruct (0 <? i_null l); cbn; rewrite ?app_nil_r; reflexivity.
Qed.

Lemma layer_steps item ls : numbered item ls -> depth ls < 2 ^ 16 -> fold_res layer_step (kinds item ls) ([0], 0) = Ok (depths item ls, depth ls).
Proof.
  unfold kinds. induction ls as [|l ls IH]; intros Hn Hd.
  - cbn [fmap list_fmap fold_res]. change (reverse []) with (@nil Z). cbn [fold_res]. unfold mbind, res_bind. by rewrite item_kind_step.
  - rewrite fmap_cons, reverse_cons. rewrite app_comm_cons, fold_res_app. rewrite depth_cons in Hd. pose proof (depth_nonneg ls).
    rewrite IH by (apply Hn || (destruct (i_list l); lia)). cbn [mbind res_bind fold_res]. rewrite layer_kind_step by (done || (rewrite depth_cons; lia)). done.
Qed.

(** ** The pass over a list layer *)

Definition node_list (n : node) : bool := match n with Real (List _) => true | _ => false end.

(** Where the entries of each list start. *)
Fixpoint starts (cur : Z) (ns : list node) : list Z :=
  match ns with [] => [] | n :: ns => cur :: starts (cur + zlen (children n)) ns end.

(** What a level of the stage after adds to the pass. *)
Definition pass_cell (has_def : bool) (p : ListPass) (c : cell) : ListPass :=
  let rep := lp_rep p ++ [c_rep c] in
  let def := if has_def then lp_def p ++ [c_def c] else lp_def p in
  match c.2 with
  | None => mkListPass rep def (lp_offsets p) (curlen p) (lp_layer p)
  | Some n => mkListPass rep def (lp_offsets p ++ [curlen p]) (curlen p + zlen (children n)) (append_bit (lp_layer p) (node_list n))
  end.

Definition defs (has_def : bool) (cs : list cell) : list Z := if has_def then c_def <$> cs else [].

Lemma levels_fold_app has_def ll cs rep def p :
  levels_fold has_def ll ((c_rep <$> cs) ++ rep) (defs has_def cs ++ (if has_def then def else [])) p =
  levels_fold has_def ll rep (if has_def then def else []) (levels_fold has_def ll (c_rep <$> cs) (defs has_def cs) p).
Proof.
  revert p. induction cs as [|c cs IH]; intros p; [by destruct has_def|]. cbn [fmap list_fmap app levels_fold].
  destruct has_def; cbn [defs fmap list_fmap app nth drop]; [apply (IH _) | exact (IH _)].
Qed.

Lemma list_levels_spec item l ls above :
  i_list l = true -> numbered item (above ++ l :: ls) -> top item (above ++ l :: ls) < 2 ^ 16 ->
  list_levels (kind_of l) (top item ls) (reverse (kind_of <$> above)) =
  mkListLevels (i_null l) (i_empty l) (top item (l :: ls)) (top item (l :: ls) + masks above).
Proof.
  intros Hl Hn Ht. pose proof (proj1 (top_masks item above (l :: ls) Hn)) as Hm. pose proof (masks_range above). apply row_numbers_app in Hn.
  pose proof (layer_levels item l ls Hn) as [Hn1 He1]. destruct Hn as (Hn & Hnull & Hempty & _). pose proof (top_nonneg item ls Hn).
  unfold list_levels. fold (masks above). unfold kind_of. rewrite Hl. cbn [top] in *. unfold used in *.
  assert (forall x, 0 <= x <= top item (above ++ l :: ls) -> u16 x = x) as Hu by (intros x Hx; apply u16_small; unfold is_u16; lia).
  destruct (Z.ltb_spec 0 (i_null l)), (Z.ltb_spec 0 (i_empty l)); cbn [andb orb Z.eqb Pos.eqb kNullAndEmptyList kNullableList kEmptyableList kAllValidList];
    rewrite ?Hu by lia; f_equal; lia.
Qed.

Section list_pass.
  Context (has_def : bool) (item : Z) (above : list Info) (l : Info) (ls : list Info).
  Context (Hlist : i_list l = true) (Hnum : numbered item (above ++ l :: ls)).
  Context (Hdefs : has_def = false -> top item (above ++ l :: ls) = 0).

Definition ll : ListLevels := mkListLevels (i_null l) (i_empty l) (top item (l :: ls)) (top item (l :: ls) + masks above).

(** A level that starts a list, or shows none. *)
Lemma start_level_cell p c :
  cell_ok item above (l :: ls) c -> 0 <= c_rep c < 2 ^ 16 ->
  start_level has_def ll p (c_rep c + 1) (if has_def then c_def c else 0) =
  match c.2 with
  | Some n => if node_list n && negb (bool_decide (children n = []))
              then mkListPass (lp_rep p ++ [c_rep c]) (if has_def then lp_def p ++ [c_def c] else lp_def p) (lp_offsets p ++ [curlen p]) (curlen p + 1) (append_bit (lp_layer p) true)
              else pass_cell has_def p c
  | None => pass_cell has_def p c
  end.
Proof using Hlist Hnum Hdefs.
  intros [Hr Hc] Hrep. assert (u16 (c_rep c + 1 - 1) = c_rep c) as Hu by (rewrite Z.add_simpl_r; apply u16_small; unfold is_u16; lia).
  pose proof (masks_range above) as Hmask. pose proof (row_numbers_app item above (l :: ls) Hnum) as Hn. pose proof (layer_levels item l ls Hn) as [Hl1 Hl2].
  pose proof (top_nonneg item ls (proj1 Hn)) as Hnn. unfold start_level. rewrite Hu. unfold pass_cell. cbn [null_level empty_level upper_null max_level ll].
  destruct c as [[r d] n]. unfold c_def, c_rep in *. cbn [fst snd] in *. destruct has_def; cbn [negb].
  2: { specialize (Hdefs eq_refl). assert (d = 0) as -> by lia. destruct n as [[t|s]|].
    - destruct Hc as [Hd Ht]. destruct t as [s| |t|[|t ts]]; cbn in Ht, Hd; try done.
      + specialize (Hl1 Ht). lia.
      + destruct Ht. congruence.
      + destruct Ht as (_ & He & _). specialize (Hl2 (He eq_refl)). lia.
    - (destruct Hc; pose proof (top_nonneg item (l :: ls) Hn); lia).
    - (destruct Hc; pose proof (top_nonneg item (l :: ls) Hn); lia). }
  destruct n as [[t|s]|].
  - destruct Hc as [Hd Ht]. destruct t as [s| |t|[|t ts]]; cbn [typed] in Ht; try done; cbn in Hd; cbn [node_list children fmap list_fmap andb].
    + specialize (Hl1 Ht) as [Hn1 Hn2]. subst d. rewrite (proj2 (Z.eqb_neq _ 0)) by lia. rewrite (proj2 (Z.ltb_ge _ _)) by lia. rewrite Z.eqb_refl. cbn [negb andb orb].
      f_equal. change (zlen []) with 0. lia.
    + destruct Ht. congruence.
    + destruct Ht as (_ & He & _). specialize (He eq_refl). specialize (Hl2 He) as (_ & He1 & He2 & He3). subst d.
      rewrite (proj2 (Z.eqb_neq _ 0)) by lia. rewrite (proj2 (Z.ltb_ge _ _)) by lia. rewrite (proj2 (Z.eqb_neq (i_empty l) (i_null l))) by done. rewrite andb_false_r.
      rewrite (proj2 (Z.ltb_ge _ _)) by lia. rewrite Z.eqb_refl. cbn [negb andb orb]. f_equal. change (zlen []) with 0. lia.
    + destruct Ht as (_ & _ & Hts). apply Forall_cons in Hts as [Ht _]. pose proof (first_def_range item ls t (proj1 Hn) Ht) as Hfd. subst d.
      pose proof (used_range (i_null l)). pose proof (used_range (i_empty l)). cbn [top] in *. set (d := first_def item ls t) in *.
      rewrite bool_decide_eq_false_2 by done. cbn [negb]. destruct (Z.eqb_spec d 0); [done|]. rewrite (proj2 (Z.ltb_ge _ _)) by lia.
      replace (negb (i_null l =? 0) && (d =? i_null l)) with false.
      2: { symmetry. destruct (Z.eqb_spec d (i_null l)) as [E|]; [|apply andb_false_r]. exfalso. specialize (Hl1 ltac:(lia)). lia. }
      rewrite (proj2 (Z.ltb_ge _ _)) by lia. cbn [orb].
      replace (negb (i_empty l =? 0) && (d =? i_empty l)) with false; [done|].
      symmetry. destruct (Z.eqb_spec d (i_empty l)) as [E|]; [|apply andb_false_r]. exfalso. specialize (Hl2 ltac:(lia)). lia.
  - destruct Hc as [Hd _]. cbn [node_list children andb]. pose proof (top_nonneg item (l :: ls) Hn).
    rewrite (proj2 (Z.eqb_neq d 0)) by lia. rewrite (proj2 (Z.ltb_ge _ d)) by lia. rewrite (proj2 (Z.ltb_lt _ d)) by lia. rewrite orb_true_r. f_equal. change (zlen []) with 0. lia.
  - destruct Hc as [Hd _]. pose proof (top_nonneg item (l :: ls) Hn). rewrite (proj2 (Z.eqb_neq d 0)) by lia. rewrite (proj2 (Z.ltb_lt _ d)) by lia. done.
Qed.

Lemma enter_list_pass p c :
  cell_ok item above (l :: ls) c -> 0 <= c_rep c < 2 ^ 16 ->
  levels_fold has_def ll (c_rep <$> enter_list item ls c) (defs has_def (enter_list item ls c)) p = pass_cell has_def p c.
Proof using Hlist Hnum Hdefs.
  intros Hc Hrep. pose proof (start_level_cell p c Hc Hrep) as Hs.
  assert (forall m cs, levels_fold has_def ll (c_rep <$> (c_rep c + 1, c_def c, m) :: cs) (defs has_def ((c_rep c + 1, c_def c, m) :: cs)) p =
    levels_fold has_def ll (c_rep <$> cs) (defs has_def cs) (start_level has_def ll p (c_rep c + 1) (if has_def then c_def c else 0))) as Hfirst.
  { intros m cs. cbn [fmap list_fmap levels_fold]. unfold level_step at 1. change (c_rep (c_rep c + 1, c_def c, m)) with (c_rep c + 1).
    rewrite (proj2 (Z.eqb_neq (c_rep c + 1) 0)) by lia. destruct has_def; done. }
  unfold enter_list. destruct c.2 as [[[s|s|t|[|t ts]]|s]|] eqn:En; rewrite Hfirst; cbn [fmap list_fmap levels_fold]; rewrite Hs; try done.
  cbn [node_list children fmap list_fmap]. rewrite bool_decide_eq_false_2 by done. cbn [andb negb].
  set (cs := (fun t => (0, first_def item ls t, Some (Real t))) <$> ts). replace (c_rep <$> cs) with (replicate (length ts) 0 ++ []).
  2: { rewrite app_nil_r. subst cs. rewrite <- list_fmap_compose. clear. induction ts as [|t ts IH]; [done|]. cbn. by f_equal. }
  rewrite levels_fold_zeros. cbn [levels_fold]. unfold add_child, pass_cell. rewrite En. cbn [lp_rep lp_def lp_offsets curlen lp_layer node_list children]. f_equal.
  rewrite fmap_cons, zlen_cons. unfold zlen. rewrite length_fmap. lia.
Qed.

Lemma list_pass cs p :
  Forall (cell_ok item above (l :: ls)) cs -> Forall (fun c => 0 <= c_rep c < 2 ^ 16) cs ->
  levels_fold has_def ll (c_rep <$> concat (enter_list item ls <$> cs)) (defs has_def (concat (enter_list item ls <$> cs))) p = foldl (pass_cell has_def) p cs.
Proof using Hlist Hnum Hdefs.
  intros Hc Hr. revert p. induction cs as [|c cs IH]; intros p; [done|]. apply Forall_cons in Hc as [Hc Hcs]. apply Forall_cons in Hr as [Hr Hrs].
  cbn [fmap list_fmap concat foldl]. set (rest := concat _) in *. rewrite <- (IH Hcs Hrs), <- enter_list_pass by done.
  replace (defs has_def (enter_list item ls c ++ rest)) with (defs has_def (enter_list item ls c) ++ (if has_def then c_def <$> rest else []))
    by (destruct has_def; [cbn; by rewrite fmap_app | done]).
  rewrite fmap_app, levels_fold_app. by destruct has_def.
Qed.

End list_pass.

(** The result of the pass. *)
Lemma pass_cells has_def cs p :
  foldl (pass_cell has_def) p cs =
  mkListPass (lp_rep p ++ (c_rep <$> cs)) (lp_def p ++ defs has_def cs) (lp_offsets p ++ starts (curlen p) (nodes cs))
    (curlen p + zlen (concat (children <$> nodes cs))) (foldl append_bit (lp_layer p) (node_list <$> nodes cs)).
Proof.
  revert p. induction cs as [|c cs IH]; intros p; cbn [foldl].
  { destruct p. cbn. rewrite !app_nil_r. destruct has_def; cbn; rewrite app_nil_r; change (zlen []) with 0; by rewrite Z.add_0_r. }
  rewrite IH. unfold pass_cell. destruct c as [[r d] [n|]]; cbn [snd lp_rep lp_def lp_offsets curlen lp_layer nodes omap list_omap fmap list_fmap starts concat foldl];
    rewrite <- ?app_assoc; (f_equal; [|try done..]); try (destruct has_def; cbn; by rewrite <- ?app_assoc); try (rewrite zlen_app; lia).
rewrite zlen_app. unfold nodes. lia.
Qed.

(** ** The pass over an item or struct layer *)

(** The bit of an entry; one a null struct above hides is marked only where the layer has a bitmap. *)
Definition node_bit (nullable : bool) (n : node) : bool :=
  match n with Real (Null _) => false | Real _ => true | Hidden _ => negb nullable end.

Definition cell_bit (nullable : bool) (ltr : list Z) (depth_ valid_level : Z) (layer : UnraveledLayer) (d : Z) : UnraveledLayer :=
  if nth (Z.to_nat d) ltr 0 <=? depth_ then append_bit layer (negb nullable || (d <=? valid_level)) else layer.

Lemma cell_bits nullable ltr depth_ valid_level cs layer :
  Forall (fun c => match c.2 with
                   | Some n => nth (Z.to_nat (c_def c)) ltr 0 <= depth_ /\ negb nullable || (c_def c <=? valid_level) = node_bit nullable n
                   | None => depth_ < nth (Z.to_nat (c_def c)) ltr 0
                   end) cs ->
  foldl (cell_bit nullable ltr depth_ valid_level) layer (c_def <$> cs) = foldl append_bit layer (node_bit nullable <$> nodes cs).
Proof.
  intros H. revert layer. induction H as [|[[r d] [n|]] cs Hc _ IH]; intros layer; [done| |]; cbn [fmap list_fmap foldl nodes omap list_omap snd] in *; unfold cell_bit at 2.
  - destruct Hc as [H1 H2]. cbn [c_def fst snd] in *. rewrite (proj2 (Z.leb_le _ _)) by done. rewrite H2. apply IH.
  - cbn [c_def fst snd] in *. rewrite (proj2 (Z.leb_gt _ _)) by done. apply IH.
Qed.

(** The items: every level inside the outermost list that is not a list's shows one. *)
Lemma items_pass item L rows layer :
  numbered item L -> Forall (typed item L) rows ->
  foldl (cell_bit (0 <? item) (depths item L) 0 0) layer (c_def <$> stage item L [] rows) =
  foldl append_bit layer (node_bit (0 <? item) <$> nodes (stage item L [] rows)).
Proof.
  intros Hn Hrows. apply cell_bits. rewrite <- (app_nil_r L) in Hn, Hrows. pose proof (stage_ok item L [] rows Hn Hrows) as Hok. rewrite app_nil_r in Hn.
  eapply Forall_impl; [exact Hok|]. intros [[r d] n] [Hd Hc]. rewrite app_nil_r in *. unfold c_def in *. cbn [fst snd] in *. fold (depth_at item L d). assert (numbered item []) as Hi by (apply (row_numbers_app item L []); by rewrite app_nil_r).
  change (depth []) with 0 in Hc. cbn [top] in Hc. destruct n as [[t|s]|].
  - destruct Hc as [-> Ht]. pose proof (first_def_range item [] t Hi Ht) as Hfd. cbn [top] in Hfd. split.
    + pose proof (depth_at_app item L [] (first_def item [] t) Hi Hfd) as E. rewrite app_nil_r in E. rewrite E. apply (depth_at_inner item []); done.
    + destruct t as [s|s|t|ts]; cbn in Ht |- *; try done.
      * rewrite (proj2 (Z.ltb_lt 0 item)) by done. rewrite (proj2 (Z.leb_gt item 0)) by done. done.
      * by rewrite orb_true_r.
  - destruct Hc as [H1 H2]. split; [lia|]. cbn. rewrite (proj2 (Z.leb_gt d 0)) by (cbn in Hi; lia). apply orb_false_r.
  - apply Hc.
Qed.

Lemma struct_pass item above l ls rows layer :
  i_list l = false -> numbered item (above ++ l :: ls) -> Forall (typed item (above ++ l :: ls)) rows ->
  foldl (cell_bit (0 <? i_null l) (depths item (above ++ l :: ls)) (depth ls) (top item ls)) layer (c_def <$> stage item above (l :: ls) rows) =
  foldl append_bit layer (node_bit (0 <? i_null l) <$> nodes (stage item above (l :: ls) rows)).
Proof.
  intros Hl Hn Hrows. apply cell_bits. eapply Forall_impl; [exact (stage_ok item above (l :: ls) rows Hn Hrows)|]. intros [[r d] n] [Hd Hc].
  unfold c_def in *. cbn [fst snd] in *. fold (depth_at item (above ++ l :: ls) d). pose proof (row_numbers_app item above (l :: ls) Hn) as Hnl. rewrite depth_cons, Hl, Z.add_0_l in Hc.
  pose proof (layer_levels item l ls Hnl) as [Hl1 _]. pose proof (used_range (i_null l)). pose proof (used_range (i_empty l)). destruct n as [[t|s]|].
  - destruct Hc as [-> Ht]. pose proof (first_def_range item (l :: ls) t Hnl Ht) as Hfd. split.
    + rewrite depth_at_app by done. rewrite <- (Z.add_0_l (depth ls)). replace 0 with (if i_list l then 1 else 0) by (by rewrite Hl). rewrite <- depth_cons. by apply depth_at_inner.
    + destruct t as [s|s|t|ts]; cbn [typed] in Ht; cbn [first_def node_bit]; try done.
      * rewrite (proj2 (Z.ltb_lt 0 _)) by done. specialize (Hl1 Ht). rewrite (proj2 (Z.leb_gt _ _)) by lia. done.
      * destruct Ht as [_ Ht]. pose proof (first_def_range item ls t (proj1 Hnl) Ht). rewrite (proj2 (Z.leb_le _ _)) by lia. apply orb_true_r.
      * destruct Ht. congruence.
  - destruct Hc as [Hc1 Hc2]. split; [lia|]. cbn [node_bit]. cbn [top] in Hc1. rewrite (proj2 (Z.leb_gt _ _)) by lia. apply orb_false_r.
  - apply Hc.
Qed.

Lemma append_bits_bits bits layer bits0 : bits_of layer bits0 -> bits_of (foldl append_bit layer bits) (bits0 ++ bits).
Proof.
  revert layer bits0. induction bits as [|b bits IH]; intros layer bits0 H; cbn; [by rewrite app_nil_r|].
  rewrite cons_middle, app_assoc. apply IH. by apply append_bit_bits.
Qed.

Lemma append_bits_kind bits layer : ul_kind (foldl append_bit layer bits) = ul_kind layer.
Proof. revert layer. induction bits as [|b bits IH]; intros layer; cbn; [done|]. by rewrite IH, append_bit_kind. Qed.

(** ** The column the layers describe *)

Definition to_layer (u : UnraveledLayer) : SerializeLayer := mkSerializeLayer (is_list_layer (ul_kind u)) (Some (ul_offsets u)) (Some (ul_validity u)).

(** The layers [unravel] gave, outermost first, and the item bitmap. *)
Definition column (out : list UnraveledLayer) : list SerializeLayer := reverse (to_layer <$> tail out).
Definition item_bits (out : list UnraveledLayer) : list Z := match out with u :: _ => ul_validity u | [] => [] end.

Definition read_entry (out : list UnraveledLayer) (j : Z) : tree := entry (item_bits out) (column out) j.

(** The layers so far show these entries, leaf [j] of them being item [j]. *)
Definition represents (f : Z -> Z) (out : list UnraveledLayer) (ns : list node) : Prop :=
  back_length out = zlen ns /\ forall j t, ns !! j = Some (Real t) -> value f (read_entry out (Z.of_nat j)) = value (fun s => s) t.

Lemma read_entry_snoc out u j : out <> [] -> read_entry (out ++ [u]) j = entry (item_bits out) (to_layer u :: column out) j.
Proof. destruct out as [|u0 out]; [done|]. intros _. unfold read_entry, column. cbn [app item_bits tail]. by rewrite fmap_app, reverse_app. Qed.

Lemma back_length_snoc out u : back_length (out ++ [u]) = ul_length u.
Proof. unfold back_length. by rewrite last_snoc. Qed.

Lemma represents_struct f out u nullable ns :
  out <> [] -> ul_kind u = (if nullable : bool then kNullableItem else kAllValidItem) -> bits_of u (node_bit nullable <$> ns) ->
  (forall t, Real t ∈ ns -> match t with Null _ | Struct _ => True | _ => False end) ->
  represents f out (child <$> ns) -> represents f (out ++ [u]) ns.
Proof.
  intros Hne Hk Hb Hty [Hlen Hrep]. split.
  - rewrite back_length_snoc, (bo_length _ _ Hb). unfold zlen. by rewrite length_fmap.
  - intros j t Hj. rewrite read_entry_snoc by done. cbn [entry to_layer is_list sl_validity].
    assert (is_list_layer (ul_kind u) = false) as -> by (rewrite Hk; by destruct nullable).
    rewrite (valid_at_bits u (node_bit nullable <$> ns) j (node_bit nullable (Real t)) Hb) by (by rewrite list_lookup_fmap, Hj).
    specialize (Hty t (list_elem_of_lookup_2 _ _ _ Hj)). destruct t as [s| |t|]; try done. cbn [node_bit negb value]. f_equal.
    apply (Hrep j t). by rewrite list_lookup_fmap, Hj.
Qed.

Lemma starts_lookup cur ns j : (j < length ns)%nat -> starts cur ns !! j = Some (cur + zlen (concat (children <$> take j ns))).
Proof.
  revert cur j. induction ns as [|n ns IH]; intros cur j Hj; [cbn in Hj; lia|]. destruct j as [|j].
  - cbn [starts lookup list_lookup take fmap list_fmap concat]. change (zlen []) with 0. f_equal. lia.
  - cbn in Hj. cbn [starts lookup list_lookup take fmap list_fmap concat]. rewrite IH by lia. f_equal. rewrite zlen_app. lia.
Qed.

Lemma length_starts cur ns : length (starts cur ns) = length ns.
Proof. revert cur. induction ns as [|n ns IH]; intros cur; cbn; [done|]. by rewrite IH. Qed.

(** Offset [j], the last one included. *)
Lemma offsets_nth ns j : (j <= length ns)%nat ->
  nth j (starts 0 ns ++ [zlen (concat (children <$> ns))]) 0 = zlen (concat (children <$> take j ns)).
Proof.
  intros Hj. rewrite nth_lookup. destruct (Nat.eq_dec j (length ns)) as [->|Hne].
  - rewrite lookup_app_r by (rewrite length_starts; lia). rewrite length_starts, Nat.sub_diag. cbn. by rewrite firstn_all.
  - rewrite lookup_app_l by (rewrite length_starts; lia). rewrite starts_lookup by lia. done.
Qed.

Lemma represents_list f out u ns :
  out <> [] -> is_list_layer (ul_kind u) = true -> bits_of u (node_list <$> ns) -> ul_offsets u = starts 0 ns ++ [zlen (concat (children <$> ns))] ->
  (forall t, Real t ∈ ns -> match t with Null _ | List _ => True | _ => False end) ->
  represents f out (concat (children <$> ns)) -> represents f (out ++ [u]) ns.
Proof.
  intros Hne Hk Hb Hoff Hty [Hlen Hrep]. split.
  - rewrite back_length_snoc, (bo_length _ _ Hb). unfold zlen. by rewrite length_fmap.
  - intros j t Hj. apply lookup_lt_Some in Hj as Hlt. rewrite read_entry_snoc by done. cbn [entry to_layer is_list sl_validity sl_offsets default]. rewrite Hk.
    rewrite (valid_at_bits u (node_list <$> ns) j (node_list (Real t)) Hb) by (by rewrite list_lookup_fmap, Hj).
    specialize (Hty t (list_elem_of_lookup_2 _ _ _ Hj)). destruct t as [s| | |ts]; try done. cbn [node_list negb value].
    rewrite Nat2Z.id. replace (Z.to_nat (Z.of_nat j + 1)) with (S j) by lia. cbn [id]. rewrite Hoff, !offsets_nth by lia.
    assert (take (S j) ns = take j ns ++ [Real (List ts)]) as Htake by (by apply take_S_r).
    rewrite Htake, fmap_app, concat_app, zlen_app. cbn [fmap list_fmap concat children]. rewrite app_nil_r. set (b := zlen (concat (children <$> take j ns))).
    replace (b + zlen (Real <$> ts) - b) with (zlen (Real <$> ts)) by lia. f_equal. rewrite <- list_fmap_compose. apply list_eq. intros i.
    rewrite !list_lookup_fmap. destruct (ts !! i) as [t|] eqn:Ei.
    + apply lookup_lt_Some in Ei as Hi. rewrite lookup_seqZ_lt by (unfold zlen; rewrite length_fmap; lia). cbn. f_equal.
      replace (b + Z.of_nat i) with (Z.of_nat (length (concat (children <$> take j ns)) + i)) by (subst b; unfold zlen; lia). apply Hrep.
      rewrite <- (take_drop_middle ns j _ Hj) at 2. rewrite fmap_app, fmap_cons, concat_app. cbn [concat children]. rewrite lookup_app_r by lia.
      rewrite Nat.add_comm, Nat.add_sub. rewrite lookup_app_l by (rewrite length_fmap; lia). by rewrite list_lookup_fmap, Ei.
    + apply lookup_ge_None in Ei. rewrite lookup_seqZ_ge by (unfold zlen; rewrite length_fmap; lia). done.
Qed.

(** ** Layer by layer *)

Lemma nodes_typed item above ls rows t :
  numbered item (above ++ ls) -> Forall (typed item (above ++ ls)) rows -> Real t ∈ nodes (stage item above ls rows) -> typed item ls t.
Proof.
  intros Hn Hrows Hin. unfold nodes in Hin. apply list_elem_of_omap in Hin as (c & Hc & Hs). pose proof (stage_ok item above ls rows Hn Hrows) as Hok.
  rewrite Forall_forall in Hok. destruct (Hok c Hc) as [_ H]. rewrite Hs in H. apply H.
Qed.

(** Without definition levels every level shows an entry, and none is null. *)
Lemma plain_nodes item above ls rows :
  numbered item (above ++ ls) -> Forall (typed item (above ++ ls)) rows -> top item (above ++ ls) = 0 ->
  zlen (nodes (stage item above ls rows)) = zlen (stage item above ls rows) /\
  Forall (fun n => exists t, n = Real t /\ forall s, t <> Null s) (nodes (stage item above ls rows)).
Proof.
  intros Hn Hrows Htop. pose proof (stage_ok item above ls rows Hn Hrows) as Hok. pose proof (row_numbers_app item above ls Hn) as Hnl.
  pose proof (top_nonneg item ls Hnl). pose proof (masks_range above). induction Hok as [|[[r d] n] cs [Hd Hc] _ IH]; [done|]. unfold c_def in *. cbn [fst snd] in *.
  rewrite Htop in *. destruct n as [[t|s]|]; [|lia..]. cbn [nodes omap list_omap snd]. destruct IH as [IH1 IH2]. unfold nodes in IH1. rewrite !zlen_cons. split; [lia|].
  constructor; [|exact IH2]. exists t. split; [done|]. intros s ->. destruct Hc as [Hc Ht]. destruct ls as [|l ls]; cbn in Hc, Ht; lia.
Qed.

Lemma plain_bits item above ls rows kind :
  numbered item (above ++ ls) -> Forall (typed item (above ++ ls)) rows -> top item (above ++ ls) = 0 ->
  bits_of (mkUnraveledLayer kind (zlen (nodes (stage item above ls rows))) [] [] 0) (node_bit false <$> nodes (stage item above ls rows)).
Proof.
  intros Hn Hrows Htop. destruct (plain_nodes item above ls rows Hn Hrows Htop) as [_ Hr]. set (ns := nodes _) in *. clearbody ns.
  replace (node_bit false <$> ns) with (replicate (Z.to_nat (zlen ns)) true); [apply bits_of_all_valid, zlen_nonneg|].
  unfold zlen. rewrite Nat2Z.id. induction Hr as [|n ns (t & -> & Ht) _ IH]; [done|]. cbn [length replicate fmap list_fmap]. f_equal; [|exact IH].
  destruct t as [s| | |]; try done. by destruct (Ht s).
Qed.

Lemma defs_struct has_def cs : defs has_def (enter_struct <$> cs) = defs has_def cs.
Proof. destruct has_def; [|done]. cbn. by rewrite <- list_fmap_compose. Qed.

Section unravelling.
  Context (has_rep has_def : bool) (item num_items : Z) (L : list Info) (rows : list tree) (f : Z -> Z).
  Context (Hnum : numbered item L) (Hrows : Forall (typed item L) rows).
  Context (Htop : top item L < 2 ^ 16) (Hdepth : depth L < 2 ^ 16).
  Context (Hhas_rep : has_rep = (0 <? depth L)) (Hhas_def : has_def = false -> top item L = 0).
  Context (Hitems : num_items <> kInferItems).

(** The state of the loop once the layers [ls] are read. *)
Definition after (above ls : list Info) (out : list UnraveledLayer) : State :=
  mkState (if has_rep then c_rep <$> stage item above ls rows else []) (defs has_def (stage item above ls rows)) (top item ls) (depth ls) out.

Lemma struct_layer_read above l ls li out :
  L = above ++ l :: ls -> i_list l = false -> out <> [] -> 0 < li -> (has_rep = false -> back_length out = num_items) ->
  represents f out (nodes (stage item (above ++ [l]) ls rows)) ->
  exists u, item_layer has_rep has_def (depths item L) num_items li (kind_of l) (after (above ++ [l]) ls out) = Ok (after above (l :: ls) (out ++ [u])) /\
    represents f (out ++ [u]) (nodes (stage item above (l :: ls) rows)).
Proof using Hnum Hrows Htop Hdepth Hhas_rep Hhas_def Hitems.
  intros HL Hl Hne Hli Hcount Hrep. unfold after. rewrite HL in *. rewrite stage_struct in * by done. set (S := stage item above (l :: ls) rows) in *.
  rewrite nodes_struct in Hrep. assert (zlen (child <$> nodes S) = zlen (nodes S)) as Hsame by (unfold zlen; by rewrite length_fmap).
  assert (kind_of l = if 0 <? i_null l then kNullableItem else kAllValidItem) as Hkind by (unfold kind_of; by rewrite Hl).
  assert ((kind_of l =? kNullableItem) = (0 <? i_null l)) as Hnull by (rewrite Hkind; by destruct (0 <? i_null l)).
  pose proof (row_numbers_app item above (l :: ls) Hnum) as Hnl. pose proof (top_nonneg item ls (proj1 Hnl)) as Hnn.
  pose proof (proj1 (top_masks item above (l :: ls) Hnum)) as Hm. pose proof (masks_range above).
  assert (top item (l :: ls) = top item ls + used (i_null l)) as Htl.
  { cbn [top]. destruct Hnl as (_ & _ & _ & He). rewrite (He Hl). change (used 0) with 0. lia. }
  unfold item_layer. rewrite (proj2 (Z.eqb_neq num_items kInferItems)) by done. rewrite andb_false_r. rewrite Hnull. rewrite defs_struct.
  set (layer := if has_def then _ else _).
  assert (bits_of layer (node_bit (0 <? i_null l) <$> nodes S) /\ ul_kind layer = kind_of l) as [Hb Hk].
  { subst layer. destruct has_def.
    - unfold item_entries. cbn [st_def rep_cmp def_cmp defs]. rewrite Hnull.
      pose proof (struct_pass item above l ls rows (new_layer (kind_of l)) Hl Hnum Hrows) as E. unfold cell_bit in E. fold S in E. rewrite E. split.
      + apply (append_bits_bits _ _ []), bits_of_new.
      + by rewrite append_bits_kind.
    - specialize (Hhas_def eq_refl). split; [|done]. assert (0 <? i_null l = false) as ->.
      { cbn [top] in Hm, Htl. pose proof (used_range (i_empty l)). unfold used in Htl at 1. destruct (Z.ltb_spec 0 (i_null l)); [|done]. unfold used in *. lia. }
      replace (if has_rep then _ else _) with (zlen (nodes S)); [by apply plain_bits|]. destruct (plain_nodes item above (l :: ls) rows Hnum Hrows Hhas_def) as [Hz _]. fold S in Hz.
      cbn [st_rep]. destruct has_rep.
      + unfold zlen in *. rewrite !length_fmap. lia.
      + rewrite <- Hcount by done. rewrite (proj1 Hrep), Hsame. done. }
  clearbody layer. pose proof (bo_length _ _ Hb) as Hlen. unfold zlen in Hlen. rewrite length_fmap in Hlen. fold (zlen (nodes S)) in Hlen.
  rewrite (proj2 (Z.eqb_neq li 0)) by lia. cbn [andb negb RepDef.out]. rewrite (proj1 Hrep), Hsame, Hlen, Z.eqb_refl. cbn [negb].
  exists layer. split.
  - f_equal. cbn [st_rep rep_cmp def_cmp]. f_equal.
    + destruct has_rep; [|done]. by rewrite <- list_fmap_compose.
    + rewrite Htl. unfold used. destruct (0 <? i_null l) eqn:E; [|lia]. apply u16_small. unfold is_u16. unfold used in Htl. rewrite E in Htl. lia.
    + by rewrite depth_cons, Hl.
  - apply (represents_struct f out layer (0 <? i_null l)); try done.
    + by rewrite Hk.
    + intros t Ht. apply (nodes_typed item above (l :: ls) rows) in Ht; [|done..]. destruct t; cbn in Ht; try done. destruct Ht. congruence.
Qed.

Lemma list_layer_read above l ls li out :
  L = above ++ l :: ls -> i_list l = true -> out <> [] ->
  represents f out (nodes (stage item (above ++ [l]) ls rows)) ->
  exists u, list_layer has_def (reverse (kind_of <$> above)) li (kind_of l) (after (above ++ [l]) ls out) = Ok (after above (l :: ls) (out ++ [u])) /\
    represents f (out ++ [u]) (nodes (stage item above (l :: ls) rows)).
Proof using Hnum Hrows Htop Hdepth Hhas_rep Hhas_def Hitems.
  intros HL Hl Hne Hrep. unfold after. rewrite HL in *. rewrite stage_list in * by done. set (S := stage item above (l :: ls) rows) in *.
  pose proof (row_numbers_app item above (l :: ls) Hnum) as Hnl. pose proof (top_nonneg item ls (proj1 Hnl)) as Hnn. pose proof (depth_nonneg ls). pose proof (depth_nonneg above).
  pose proof (proj1 (top_masks item above (l :: ls) Hnum)) as Hm. pose proof (masks_range above).
  rewrite depth_app, depth_cons, Hl in Hdepth, Hhas_rep. assert (has_rep = true) as -> by (rewrite Hhas_rep; apply Z.ltb_lt; lia).
  unfold list_layer. cbn [st_rep st_def def_cmp rep_cmp RepDef.out]. rewrite list_loop_levels by done. rewrite list_levels_spec by done.
  fold (ll item above l ls). rewrite (list_pass has_def item above l ls Hl Hnum Hhas_def S).
  2: { by apply stage_ok. }
  2: { eapply Forall_impl; [apply stage_reps|]. cbn. lia. }
  rewrite pass_cells. cbn [lp_rep lp_def lp_offsets curlen lp_layer app]. rewrite Z.add_0_l. rewrite nodes_list in Hrep. rewrite (proj1 Hrep), Z.eqb_refl. cbn [negb].
  exists (set_offsets (foldl append_bit (new_layer (kind_of l)) (node_list <$> nodes S)) (starts 0 (nodes S) ++ [zlen (concat (children <$> nodes S))])). split.
  - f_equal. f_equal.
    + cbn [top]. unfold used. assert (top item ls + used (i_null l) + used (i_empty l) < 2 ^ 16) by (cbn [top] in Hm; lia). unfold used in *. unfold kind_of. rewrite Hl.
      destruct (0 <? i_null l), (0 <? i_empty l); cbn [andb Z.eqb Pos.eqb kNullAndEmptyList kNullableList kEmptyableList kAllValidList]; rewrite u16_small by (unfold is_u16; lia); lia.
    + rewrite depth_cons, Hl, u16_small by (unfold is_u16; lia). lia.
  - set (u := foldl append_bit (new_layer (kind_of l)) (node_list <$> nodes S)). assert (bits_of u (node_list <$> nodes S)) as Hb by apply (append_bits_bits _ _ []), bits_of_new.
    apply represents_list; try done.
    + cbn. subst u. rewrite append_bits_kind. cbn. by rewrite kind_of_list.
    + destruct Hb as [B1 B2 B3 B4 B5 B6 B7]. split; cbn; assumption.
    + intros t Ht. apply (nodes_typed item above (l :: ls) rows) in Ht; [|done..]. destruct t; cbn in Ht; try done. destruct Ht. congruence.
Qed.

Lemma layers_read above ls li out :
  L = above ++ ls -> out <> [] -> 0 < li -> (has_rep = false -> back_length out = num_items) -> represents f out (nodes (stage item above ls rows)) ->
  exists out', unravel_layers has_rep has_def (depths item L) num_items (reverse (kind_of <$> above)) li (after above ls out) = Ok out' /\
    represents f out' (Real <$> rows).
Proof using Hnum Hrows Htop Hdepth Hhas_rep Hhas_def Hitems.
  revert ls li out. induction above as [|l above IH] using rev_ind; intros ls li out HL Hne Hli Hcount Hrep.
  { cbn. exists out. split; [done|]. by rewrite nodes_rows in Hrep. }
  rewrite <- app_assoc in HL. cbn [app] in HL. rewrite fmap_app, reverse_app. cbn [fmap list_fmap]. change (reverse [kind_of l]) with [kind_of l]. cbn [app unravel_layers].
  rewrite kind_of_item. unfold mbind, res_bind. destruct (i_list l) eqn:El; cbn [negb].
  - destruct (list_layer_read above l ls li out HL El Hne Hrep) as (u & -> & Hrep'). apply IH; try done; [by destruct out | lia |].
    intros E. exfalso. rewrite Hhas_rep, HL, depth_app, depth_cons, El in E. pose proof (depth_nonneg above). pose proof (depth_nonneg ls). apply Z.ltb_ge in E. lia.
  - destruct (struct_layer_read above l ls li out HL El Hne Hli Hcount Hrep) as (u & -> & Hrep'). apply IH; try done; [by destruct out | lia |].
    intros E. rewrite (proj1 Hrep'), <- Hcount by done. rewrite (proj1 Hrep), stage_struct, nodes_struct by (done || by rewrite <- HL). unfold zlen. by rewrite length_fmap.
Qed.

(** The slot of an entry of the items. *)
Definition slot (n : node) : Z :=
  match n with Real (Leaf s) => s | Real (Null (Some s)) | Hidden (Some s) => s | _ => 0 end.

Lemma items_read :
  num_items = zlen (nodes (stage item L [] rows)) -> (forall j n, nodes (stage item L [] rows) !! j = Some n -> f (Z.of_nat j) = slot n) ->
  exists u, item_layer has_rep has_def (depths item L) num_items 0 (if 0 <? item then kNullableItem else kAllValidItem)
      (mkState (if has_rep then c_rep <$> stage item L [] rows else []) (defs has_def (stage item L [] rows)) 0 0 []) = Ok (after L [] [u]) /\
    ul_length u = num_items /\ represents f [u] (nodes (stage item L [] rows)).
Proof using Hnum Hrows Htop Hdepth Hhas_rep Hhas_def Hitems.
  intros Hcount Hslots. set (kind := if 0 <? item then kNullableItem else kAllValidItem).
  assert ((kind =? kNullableItem) = (0 <? item)) as Hk by (subst kind; by destruct (0 <? item)).
  assert (numbered item []) as Hi by (apply (row_numbers_app item L []); by rewrite app_nil_r).
  unfold item_layer. rewrite (proj2 (Z.eqb_neq num_items kInferItems)) by done. rewrite andb_false_r, Hk.
  set (S := stage item L [] rows) in *. set (layer := if has_def then _ else _).
  assert (bits_of layer (node_bit (0 <? item) <$> nodes S)) as Hb.
  { subst layer. destruct has_def.
    - unfold item_entries. cbn [st_def rep_cmp def_cmp defs]. rewrite Hk. pose proof (items_pass item L rows (new_layer kind) Hnum Hrows) as E. unfold cell_bit in E. fold S in E. rewrite E.
      apply (append_bits_bits _ _ []), bits_of_new.
    - specialize (Hhas_def eq_refl). rewrite <- (app_nil_r L) in Hhas_def. assert (numbered item (L ++ [])) as Hn' by (by rewrite app_nil_r).
      assert (Forall (typed item (L ++ [])) rows) as Hr' by (by rewrite app_nil_r).
      pose proof (proj1 (top_masks item L [] Hn')) as Hm. pose proof (masks_range L). cbn [top] in Hm.
      assert (0 <? item = false) as -> by (apply Z.ltb_ge; lia). replace (if has_rep then _ else _) with (zlen (nodes S)); [by apply plain_bits|].
      destruct (plain_nodes item L [] rows Hn' Hr' Hhas_def) as [Hz _]. fold S in Hz. cbn [st_rep]. destruct has_rep; [|done]. unfold zlen in *. rewrite length_fmap. lia. }
  clearbody layer. pose proof (bo_length _ _ Hb) as Hlen. unfold zlen in Hlen. rewrite length_fmap in Hlen. fold (zlen (nodes S)) in Hlen.
  cbn [Z.eqb andb negb]. rewrite Hlen, <- Hcount, Z.eqb_refl. cbn [negb andb]. exists layer. split; [|split; [lia|]].
  - cbn [st_rep st_def def_cmp rep_cmp RepDef.out app]. unfold after. fold S. f_equal. f_equal. cbn [top]. destruct Hi as [H|H]; rewrite H; reflexivity.
  - split; [exact Hlen|]. intros j t Hj. unfold read_entry, column. cbn [item_bits tail fmap list_fmap]. change (reverse []) with (@nil SerializeLayer). cbn [entry].
    rewrite (valid_at_bits layer _ j (node_bit (0 <? item) (Real t)) Hb) by (by rewrite list_lookup_fmap, Hj).
    assert (typed item [] t) as Ht by (apply (nodes_typed item L [] rows); [by rewrite app_nil_r | by rewrite app_nil_r | exact (list_elem_of_lookup_2 _ _ _ Hj)]).
    destruct t as [s|s| |]; try done. cbn. f_equal. exact (Hslots j _ Hj).
Qed.

(** Reading the levels of the rows gives the rows. *)
Lemma unravel_rows :
  num_items = zlen (nodes (stage item L [] rows)) -> (forall j n, nodes (stage item L [] rows) !! j = Some n -> f (Z.of_nat j) = slot n) ->
  exists out, unravel (if has_rep then c_rep <$> stage item L [] rows else []) has_rep (defs has_def (stage item L [] rows)) has_def (kinds item L) num_items = Ok out /\
    represents f out (Real <$> rows).
Proof using Hnum Hrows Htop Hdepth Hhas_rep Hhas_def Hitems.
  intros Hcount Hslots. unfold unravel. rewrite bool_decide_eq_false_2 by done.
  assert (is_item_layer (if 0 <? item then kNullableItem else kAllValidItem) = true) as Hfirst by (by destruct (0 <? item)).
  change (nth 0 (kinds item L) 0) with (if 0 <? item then kNullableItem else kAllValidItem). rewrite Hfirst. cbn [negb orb].
  rewrite layer_steps by done. unfold mbind at 1, res_bind at 1. set (S := stage item L [] rows) in *. pose proof (depth_nonneg L) as Hdn.
  assert (Forall (cell_ok item L []) S) as Hok by (apply stage_ok; by rewrite app_nil_r). pose proof (top_nonneg item L Hnum) as Hnn.
  replace (Bool.eqb (negb (depth L =? 0)) has_rep) with true.
  2: { rewrite Hhas_rep. destruct (Z.eqb_spec (depth L) 0) as [E|E]; [rewrite E; done|]. rewrite (proj2 (Z.ltb_lt _ _)) by lia. done. }
  cbn [negb]. replace (has_rep && has_def && _) with false.
  2: { symmetry. destruct has_rep, has_def; try done. cbn [andb defs]. unfold zlen. rewrite !length_fmap, Z.eqb_refl. done. }
  replace (negb has_rep && has_def && _ && _) with false.
  2: { symmetry. destruct has_rep eqn:Er; [done|]. destruct has_def; [|done]. cbn [negb andb defs]. rewrite (proj2 (Z.eqb_eq _ num_items)); [by rewrite andb_false_r|].
       rewrite Hcount. assert (depth L = 0) as Hz by (symmetry in Hhas_rep; apply Z.ltb_ge in Hhas_rep; lia). unfold zlen. rewrite length_fmap. f_equal.
       clearbody S. clear - Hok Hz Hnum. induction Hok as [|[[r d] n] cs [Hd Hc] _ IH]; [done|]. cbn [nodes omap list_omap snd length] in *. destruct n as [n|].
       - cbn. f_equal. exact IH.
       - exfalso. cbn [snd] in Hc. rewrite app_nil_r in *. pose proof (depth_at_inner item L d Hnum Hd). change (depth []) with 0 in Hc. unfold c_def in Hc. cbn in Hc. lia. }
  rewrite zlen_depths by done. rewrite Z.add_simpl_r, u16_small by (unfold is_u16; lia).
  replace (has_def && _) with false.
  2: { symmetry. destruct has_def; [|done]. cbn [andb defs]. apply not_true_is_false. intros (d & Hd & Hgt)%existsb_exists. apply list_elem_of_In, list_elem_of_fmap in Hd as (c & -> & Hc).
       rewrite Forall_forall in Hok. destruct (Hok c Hc) as [Hr _]. rewrite app_nil_r in Hr. lia. }
  replace (has_rep && existsb _ _) with false.
  2: { symmetry. destruct has_rep; [|done]. cbn [andb]. apply not_true_is_false. intros (d & Hd & Hgt)%existsb_exists. apply list_elem_of_In, list_elem_of_fmap in Hd as (c & -> & Hc).
       pose proof (stage_reps item L [] rows) as Hreps. fold S in Hreps. rewrite Forall_forall in Hreps. specialize (Hreps c Hc). cbn in Hreps. lia. }
  replace (has_rep && match _ with [] => _ | _ => _ end) with false.
  2: { symmetry. destruct has_rep; [|done]. cbn [andb]. destruct S as [|c cs] eqn:ES; [done|]. cbn [fmap list_fmap].
       rewrite (stage_head item L [] rows c cs); [by rewrite Z.eqb_refl | by rewrite app_nil_r | done]. }
  unfold kinds. cbn [unravel_layers]. rewrite Hfirst. destruct (items_read Hcount Hslots) as (u & Hu & Hulen & Hrep). fold S in Hu.
  replace (if has_def then defs has_def S else []) with (defs has_def S) by (by destruct has_def). rewrite Hu. unfold mbind, res_bind.
  apply layers_read; [by rewrite app_nil_r | done | lia | | done]. intros _. unfold back_length. cbn. done.
Qed.

End unravelling.

End RepDefLayers.
