(* ===== verification/RepDefWrite.v ===== *)
(** * RepDefWrite: the levels [serialize] writes, and the round trip

    What the two passes of [Serializer::visit] do to an entry, written over the layers inward: the error it finds,
    what it marks and counts, and the levels it writes, which are those of [RepDefStages]. *)

From S2P Require Import Prelude RepDef RepDefRead RepDefStages RepDefLayers.

Module RepDefWrite.
Import RepDef RepDefRead RepDefStages RepDefLayers.

(** ** Loops that stop at the first error *)

Definition first_some {A B} (f : A -> option B) (l : list A) : option B := head (omap f l).

Lemma first_some_cons {A B} (f : A -> option B) x l : first_some f (x :: l) = match f x with Some e => Some e | None => first_some f l end.
Proof. unfold first_some. cbn. by destruct (f x). Qed.

Lemma first_some_app {A B} (f : A -> option B) l1 l2 : first_some f (l1 ++ l2) = match first_some f l1 with Some e => Some e | None => first_some f l2 end.
Proof. induction l1 as [|x l1 IH]; [done|]. rewrite <- app_comm_cons, !first_some_cons. by destruct (f x). Qed.

Lemma first_some_fmap {A B C} (g : A -> B) (f : B -> option C) l : first_some f (g <$> l) = first_some (fun x => f (g x)) l.
Proof. induction l as [|x l IH]; [done|]. rewrite fmap_cons, !first_some_cons. by rewrite IH. Qed.

(** An error, or the state as [f] changes it. *)
Definition outcome {S} (error : option string) (s : S) : res S := match error with Some e => Err e | None => Ok s end.

Lemma fold_res_outcome {A S} (I : S -> Prop) (body : S -> A -> res S) (err : A -> option string) (g : S -> A -> S) l s :
  (forall s x, I s -> x ∈ l -> body s x = outcome (err x) (g s x)) -> (forall s x, I s -> x ∈ l -> I (g s x)) -> I s ->
  fold_res body l s = outcome (first_some err l) (foldl g s l).
Proof.
  revert s. induction l as [|x l IH]; intros s Hb Hg Hs; [done|]. cbn [fold_res foldl]. rewrite Hb by (done || set_solver). rewrite first_some_cons.
  unfold mbind, res_bind, outcome at 1. destruct (err x); [done|]. apply IH; [| |apply Hg; [done | set_solver]]; intros; [apply Hb | apply Hg]; done || set_solver.
Qed.

(** ** What [visit] finds in an entry *)

Section writing.
  Context (layers : list SerializeLayer) (item_validity : list Z).

Notation n := (length layers).

(** The children of entry [idx] of a list. *)
Definition bounds (l : SerializeLayer) (idx : Z) : Z * Z :=
  (nth (Z.to_nat idx) (default [] (sl_offsets l)) 0, nth (Z.to_nat (idx + 1)) (default [] (sl_offsets l)) 0).
Definition kids (l : SerializeLayer) (idx : Z) : list Z := seqZ (bounds l idx).1 ((bounds l idx).2 - (bounds l idx).1).

Fixpoint entry_error (ls : list SerializeLayer) (k : nat) (idx : Z) : option string :=
  match ls with
  | [] => None
  | l :: ls =>
      if negb (is_list l) then if valid_at (sl_validity l) idx then entry_error ls (S k) idx else None
      else if zlen (default [] (sl_offsets l)) <=? u64 (idx + 1) then Some ("list layer " +:+ pretty (Z.of_nat k) +:+ " has too few offsets")
      else if negb (valid_at (sl_validity l) idx) then None
      else if (bounds l idx).2 <? (bounds l idx).1 then Some ("list layer " +:+ pretty (Z.of_nat k) +:+ " has decreasing offsets")
      else first_some (entry_error ls (S k)) (kids l idx)
  end.

Definition no_marks (m : nat) : list LayerFlags := replicate (S m) no_flags.
Definition or_marks (a b : list LayerFlags) : list LayerFlags := zip_with or_flags a b.

Fixpoint hidden_marks (ls : list SerializeLayer) (idx : Z) : list LayerFlags :=
  match ls with
  | [] => [mkLayerFlags (negb (valid_at (Some item_validity) idx)) false]
  | l :: ls => mkLayerFlags (negb (valid_at (sl_validity l) idx)) false :: (if is_list l then no_marks (length ls) else hidden_marks ls idx)
  end.

(** The flags an entry raises, from its layer inward. *)
Fixpoint marks (ls : list SerializeLayer) (idx : Z) : list LayerFlags :=
  match ls with
  | [] => [mkLayerFlags (negb (valid_at (Some item_validity) idx)) false]
  | l :: ls =>
      if negb (valid_at (sl_validity l) idx) then mkLayerFlags true false :: (if is_list l then no_marks (length ls) else hidden_marks ls idx)
      else if negb (is_list l) then no_flags :: marks ls idx
      else match kids l idx with
           | [] => mkLayerFlags false true :: no_marks (length ls)
           | cs => no_flags :: foldr or_marks (no_marks (length ls)) (marks ls <$> cs)
           end
  end.

(** The layers without level numbers: what the counts depend on. *)
Definition shape (ls : list SerializeLayer) : list Info := (fun l => mkInfo (is_list l) 0 0) <$> ls.

Definition entry_cells (item : Z) (L : list Info) (ls : list SerializeLayer) (idx r : Z) : list cell :=
  cells (first_def item []) L (entry item_validity ls idx) r.

(** ** Flags *)

Lemma or_flags_no f : or_flags f no_flags = f.
Proof. destruct f. unfold or_flags, no_flags. cbn. by rewrite !orb_false_r. Qed.
Lemma or_flags_no_l f : or_flags no_flags f = f.
Proof. by destruct f. Qed.
Lemma or_flags_assoc a b c : or_flags (or_flags a b) c = or_flags a (or_flags b c).
Proof. unfold or_flags. cbn. by rewrite !orb_assoc. Qed.

Lemma or_marks_no a m : length a = S m -> or_marks a (no_marks m) = a.
Proof.
  unfold or_marks, no_marks. revert m. induction a as [|f a IH]; intros m Hl; [done|]. cbn in *. rewrite or_flags_no. f_equal. injection Hl as Hl. subst m.
  destruct a as [|g a]; [done|]. apply IH. done.
Qed.
Lemma or_marks_no_l a m : length a = S m -> or_marks (no_marks m) a = a.
Proof.
  unfold or_marks, no_marks. revert m. induction a as [|f a IH]; intros m Hl; [done|]. cbn in *. rewrite or_flags_no_l. f_equal. injection Hl as Hl. subst m.
  destruct a as [|g a]; [done|]. apply IH. done.
Qed.
Lemma or_marks_assoc a b c : or_marks (or_marks a b) c = or_marks a (or_marks b c).
Proof. unfold or_marks. revert b c. induction a as [|x a IH]; intros [|y b] [|z c]; cbn; try done. by rewrite or_flags_assoc, IH. Qed.
Lemma length_or_marks a b : length (or_marks a b) = Nat.min (length a) (length b).
Proof. apply length_zip_with. Qed.

Lemma length_no_marks m : length (no_marks m) = S m.
Proof. apply length_replicate. Qed.

Lemma length_foldr_marks m l : Forall (fun x => length x = S m) l -> length (foldr or_marks (no_marks m) l) = S m.
Proof. induction 1 as [|x l Hx _ IH]; cbn [foldr]; [apply length_replicate|]. rewrite length_or_marks, Hx, IH. apply Nat.min_id. Qed.

Lemma length_hidden_marks ls idx : length (hidden_marks ls idx) = S (length ls).
Proof. induction ls as [|l ls IH]; cbn [hidden_marks length]; [done|]. destruct (is_list l); [by rewrite length_no_marks | by rewrite IH]. Qed.

Lemma length_marks ls idx : length (marks ls idx) = S (length ls).
Proof.
  revert idx. induction ls as [|l ls IH]; intros idx; cbn [marks]; [done|]. destruct (negb (valid_at _ _)); cbn [length].
  { destruct (is_list l); [by rewrite length_no_marks | by rewrite length_hidden_marks]. }
  destruct (negb (is_list l)); cbn [length]; [by rewrite IH|]. destruct (kids l idx); cbn [length]; [by rewrite length_no_marks|].
  rewrite length_foldr_marks; [done|]. apply Forall_fmap, Forall_forall. intros x _. apply IH.
Qed.

(** ** Skipping the structs that are always valid *)

Lemma drop_lookup {A} (l : list A) k x : l !! k = Some x -> drop k l = x :: drop (S k) l.
Proof. intros H. by apply drop_S. Qed.

Lemma next_spec (A : Type) (F : nat -> A) k0 ls :
  (forall j l, ls !! j = Some l -> passthrough l = true -> F (k0 + j)%nat = F (S (k0 + j))) ->
  forall k, (k < length ls)%nat ->
  let next := nth k (next_ k0 ls) O in (k0 + k < next <= k0 + length ls)%nat /\ F next = F (S (k0 + k)).
Proof.
  revert k0. induction ls as [|l ls IH]; intros k0 HF k Hk; [cbn in Hk; lia|]. cbn [next_]. cbn [length] in *.
  assert (forall k, (k < length ls)%nat -> let next := nth k (next_ (S k0) ls) O in (S k0 + k < next <= S k0 + length ls)%nat /\ F next = F (S (S k0 + k))) as IH'.
  { apply IH. intros j l' Hj Hp. replace (S k0 + j)%nat with (k0 + S j)%nat by lia. apply (HF (S j) l'); done. }
  destruct k as [|k]; cbn [nth].
  - rewrite Nat.add_0_r. destruct ls as [|l' ls]; [cbn; split; [lia | done]|]. destruct (passthrough l') eqn:Ep; [|cbn; split; [lia | done]].
    cbn [length] in *. destruct (IH' O ltac:(lia)) as [H1 H2]. rewrite Nat.add_0_r in *. split; [lia|]. rewrite H2.
    pose proof (HF 1%nat l' eq_refl Ep) as E. replace (k0 + 1)%nat with (S k0) in E by lia. by rewrite E.
  - destruct (IH' k ltac:(lia)) as [H1 H2]. split; [lia|]. rewrite H2. f_equal. lia.
Qed.

Lemma next_layer (A : Type) (F : nat -> A) k :
  (forall j l, layers !! j = Some l -> passthrough l = true -> F j = F (S j)) -> (k < n)%nat ->
  let next := nth k (next_ 0 layers) O in (k < next <= n)%nat /\ F next = F (S k).
Proof. intros HF Hk. exact (next_spec A F 0 layers HF k Hk). Qed.

Lemma first_layer_skip (A : Type) (F : nat -> A) :
  (forall j l, layers !! j = Some l -> passthrough l = true -> F j = F (S j)) -> F (first_layer layers) = F 0%nat /\ (first_layer layers <= n)%nat.
Proof.
  intros HF. unfold first_layer. destruct layers as [|l ls] eqn:E; [split; cbn; [done | lia]|]. destruct (passthrough l) eqn:Ep; [|split; [done | cbn; lia]].
  destruct (next_spec A F 0 (l :: ls) HF 0 ltac:(cbn; lia)) as [H1 H2]. cbn in H1, H2 |- *. rewrite H2. split; [|lia]. symmetry. by apply (HF 0%nat l).
Qed.

Lemma passthrough_valid l idx : passthrough l = true -> is_list l = false /\ valid_at (sl_validity l) idx = true.
Proof. unfold passthrough. intros [H1 H2]%andb_true_iff. bool_prop. split; [done|]. by destruct (sl_validity l) as [[|]|]. Qed.

(** ** The first pass *)

(** The counts and flags of an entry added. *)
Definition add (s : Serializer) (ms : list LayerFlags) (levels items : Z) : Serializer :=
  mkSerializer (or_marks (flags_ s) ms) (levels_ s + levels) (items_ s + items) (null_level_ s) (empty_level_ s) (out_ s) (level_at_ s) (item_at_ s).

Definition full (k : nat) (ms : list LayerFlags) : list LayerFlags := replicate k no_flags ++ ms.

Lemma add_add s m1 l1 i1 m2 l2 i2 : add (add s m1 l1 i1) m2 l2 i2 = add s (or_marks m1 m2) (l1 + l2) (i1 + i2).
Proof. unfold add. cbn. rewrite or_marks_assoc. f_equal; lia. Qed.

Lemma or_marks_app a b c d : length a = length c -> or_marks (a ++ b) (c ++ d) = or_marks a c ++ or_marks b d.
Proof. intros H. unfold or_marks. by rewrite zip_with_app. Qed.

Lemma or_marks_replicate m : or_marks (replicate m no_flags) (replicate m no_flags) = replicate m no_flags.
Proof. unfold or_marks. induction m as [|m IH]; cbn; [done|]. by rewrite IH. Qed.

Lemma full_or k a b : or_marks (full k a) (full k b) = full k (or_marks a b).
Proof. unfold full. rewrite or_marks_app by done. by rewrite or_marks_replicate. Qed.

Lemma full_S k ms : full k (no_flags :: ms) = full (S k) ms.
Proof. unfold full. rewrite replicate_S_end, <- app_assoc. done. Qed.

Lemma alter_or (fs : list LayerFlags) k (g : LayerFlags) m :
  length fs = S m -> (k <= m)%nat -> alter (fun f => or_flags f g) k fs = or_marks fs (full k (g :: replicate (m - k) no_flags)).
Proof.
  revert k m. induction fs as [|f fs IH]; intros k m Hl Hk; [done|]. cbn in Hl. destruct k as [|k].
  - cbn. f_equal. symmetry. rewrite Nat.sub_0_r. destruct m as [|m]; [by destruct fs|]. apply or_marks_no. lia.
  - destruct m as [|m]; [lia|]. change (alter (fun f0 => or_flags f0 g) (S k) (f :: fs)) with (f :: alter (fun f0 => or_flags f0 g) k fs). cbn. rewrite or_flags_no. f_equal. apply IH; lia.
Qed.

Lemma or_marks_set fs m f : length fs = S m -> fs !! m = Some f -> has_null f = true -> or_marks fs (full m [mkLayerFlags true false]) = fs.
Proof.
  intros Hl Hf Hnull. pose proof (alter_or fs m (mkLayerFlags true false) m Hl ltac:(lia)) as E. rewrite Nat.sub_diag in E. cbn [replicate] in E. rewrite <- E.
  apply list_eq. intros i. destruct (decide (i = m)) as [->|Hne]; [|by rewrite list_lookup_alter_ne].
  rewrite list_lookup_alter_eq, Hf. cbn. f_equal. unfold or_flags. cbn. rewrite Hnull, orb_false_r. destruct f as [a b]. cbn in Hnull. by rewrite Hnull.
Qed.

Lemma set_null_add k s : length (flags_ s) = S n -> (k <= n)%nat -> set_null k s = add s (full k (mkLayerFlags true false :: replicate (n - k) no_flags)) 0 0.
Proof.
  intros Hl Hk. unfold set_null, add. rewrite <- (alter_or _ k (mkLayerFlags true false) n Hl Hk), !Z.add_0_r. f_equal. apply list_alter_ext; [|done].
  intros f _. unfold or_flags. cbn. by rewrite orb_true_r, orb_false_r.
Qed.

Lemma set_empty_add k s : length (flags_ s) = S n -> (k <= n)%nat -> set_empty k s = add s (full k (mkLayerFlags false true :: replicate (n - k) no_flags)) 0 0.
Proof.
  intros Hl Hk. unfold set_empty, add. rewrite <- (alter_or _ k (mkLayerFlags false true) n Hl Hk), !Z.add_0_r. f_equal. apply list_alter_ext; [|done].
  intros f _. unfold or_flags. cbn. by rewrite orb_true_r, orb_false_r.
Qed.

Lemma count_levels_add a b s : length (flags_ s) = S n -> count_levels a b s = add s (no_marks n) a b.
Proof. intros Hl. unfold count_levels, add. by rewrite or_marks_no. Qed.

Lemma length_full k ms : length (full k ms) = (k + length ms)%nat.
Proof. unfold full. by rewrite length_app, length_replicate. Qed.

Lemma add_flags s ms a b : length (flags_ s) = S n -> length ms = S n -> length (flags_ (add s ms a b)) = S n.
Proof. intros H1 H2. cbn. rewrite length_or_marks. lia. Qed.

Lemma drop_past (k : nat) : (n <= k)%nat -> drop k layers = [].
Proof. apply drop_ge. Qed.

Lemma full_marks_length k idx : (k <= n)%nat -> length (full k (marks (drop k layers) idx)) = S n.
Proof. intros Hk. rewrite length_full, length_marks, length_drop. lia. Qed.

Lemma marks_then_full k g ms m : length ms = m -> or_marks (full k (g :: replicate m no_flags)) (full (S k) ms) = full k (g :: ms).
Proof.
  intros Hl. rewrite <- full_S, full_or. cbn. rewrite or_flags_no. f_equal. f_equal. destruct m as [|m]; [by destruct ms|]. by apply or_marks_no_l.
Qed.

Lemma hidden_loop_marks fuel j idx s :
  (j <= n)%nat -> (n - j < fuel)%nat -> length (flags_ s) = S n ->
  hidden_loop layers item_validity fuel j idx s = add s (full j (hidden_marks (drop j layers) idx)) 0 0.
Proof.
  revert j s. induction fuel as [|fuel IH]; intros j s Hj Hf Hl; [lia|]. cbn [hidden_loop]. destruct (layers !! j) as [l|] eqn:E.
  - apply lookup_lt_Some in E as Hlt. rewrite (drop_lookup _ _ _ E). cbn [hidden_marks].
    set (s1 := if valid_at (sl_validity l) idx then s else set_null j s).
    assert (s1 = add s (full j (mkLayerFlags (negb (valid_at (sl_validity l) idx)) false :: replicate (n - j) no_flags)) 0 0) as Hs1.
    { subst s1. destruct (valid_at (sl_validity l) idx); [|by apply set_null_add]. unfold add. cbn [negb]. fold no_flags. rewrite full_S, !Z.add_0_r. unfold full.
      rewrite <- replicate_add. replace (S j + (n - j))%nat with (S n) by lia. change (replicate (S n) no_flags) with (no_marks n). rewrite (or_marks_no _ n Hl). by destruct s. }
    assert (length (flags_ s1) = S n) as Hl1 by (rewrite Hs1; apply add_flags; [done | rewrite length_full; cbn; rewrite length_replicate; lia]).
    clearbody s1. subst s1. destruct (is_list l) eqn:Elist.
    + f_equal. f_equal. f_equal. rewrite length_drop. unfold no_marks. f_equal. lia.
    + destruct (next_layer _ (fun j => full j (hidden_marks (drop j layers) idx)) j) as [Hn1 Hn2]; [|lia|].
      { intros i l' Hi Hp. rewrite (drop_lookup _ _ _ Hi). cbn [hidden_marks]. destruct (passthrough_valid l' idx Hp) as [-> ->]. apply full_S. }
      rewrite IH by (done || lia). rewrite Hn2, add_add, marks_then_full; [done|]. rewrite length_hidden_marks, length_drop. lia.
  - apply lookup_ge_None in E. assert (j = n) as -> by lia. rewrite drop_past by lia. cbn [hidden_marks]. destruct (valid_at (Some item_validity) idx).
    + unfold add. cbn [negb]. fold no_flags. rewrite !Z.add_0_r. unfold full. rewrite <- replicate_S_end. change (replicate (S n) no_flags) with (no_marks n). rewrite or_marks_no by done. by destruct s.
    + unfold n_layers. rewrite set_null_add by (done || lia). rewrite Nat.sub_diag. done.
Qed.

Lemma mark_hidden_marks k idx s :
  (k < n)%nat -> length (flags_ s) = S n -> mark_hidden_nulls layers item_validity k idx s = add s (full (S k) (hidden_marks (drop (S k) layers) idx)) 0 0.
Proof.
  intros Hk Hl. unfold mark_hidden_nulls, n_layers. destruct (next_layer _ (fun j => full j (hidden_marks (drop j layers) idx)) k) as [Hn1 Hn2]; [|done|].
  { intros i l' Hi Hp. rewrite (drop_lookup _ _ _ Hi). cbn [hidden_marks]. destruct (passthrough_valid l' idx Hp) as [-> ->]. apply full_S. }
  rewrite hidden_loop_marks by (done || lia). by rewrite Hn2.
Qed.

(** A loop of additions. *)
Lemma foldl_add {A} (M : A -> list LayerFlags) (lv it : A -> Z) cs s :
  length (flags_ s) = S n -> Forall (fun c => length (M c) = S n) cs ->
  foldl (fun s c => add s (M c) (lv c) (it c)) s cs =
  add s (foldr or_marks (no_marks n) (M <$> cs)) (foldr (fun c a => lv c + a) 0 cs) (foldr (fun c a => it c + a) 0 cs).
Proof.
  intros Hl HM. revert s Hl. induction HM as [|c cs Hc HM IH]; intros s Hl; cbn [foldl foldr fmap list_fmap].
  - unfold add. rewrite or_marks_no, !Z.add_0_r by done. by destruct s.
  - rewrite IH by (by apply add_flags). by rewrite add_add.
Qed.

Lemma full_foldr k m l : full k (foldr or_marks (no_marks m) l) = foldr or_marks (full k (no_marks m)) (full k <$> l).
Proof. induction l as [|x l IH]; [done|]. cbn [foldr fmap list_fmap]. by rewrite <- IH, full_or. Qed.

(** ** The counts *)

Lemma list_depth_spec ls : zlen ls < 2 ^ 16 -> nth 0 (list_depth_ ls) 0 = depth (shape ls).
Proof.
  induction ls as [|l ls IH]; intros Hl; [done|]. rewrite zlen_cons in Hl. cbn [list_depth_ nth shape fmap list_fmap]. rewrite depth_cons. cbn [i_list]. fold (shape ls).
  rewrite IH by lia. destruct (is_list l); [|lia]. assert (depth (shape ls) <= zlen ls) as Hle.
  { unfold depth, zlen, shape. apply inj_le. etrans; [apply length_filter|]. by rewrite length_fmap. }
  pose proof (depth_nonneg (shape ls)). rewrite u16_small by (unfold is_u16; lia). lia.
Qed.

Lemma list_depth_at k : (k <= n)%nat -> nth k (list_depth_ layers) 0 = nth 0 (list_depth_ (drop k layers)) 0.
Proof.
  clear item_validity. revert k. induction layers as [|l ls IH]; intros k Hk; [by destruct k; [|cbn in Hk; lia]|]. destruct k as [|k]; [done|]. cbn [list_depth_ nth drop]. apply IH. cbn in Hk. lia.
Qed.

Lemma lists_below_at k : (k < n)%nat -> nth k (lists_below_ layers) false = negb (nth 0 (list_depth_ (drop (S k) layers)) 0 =? 0).
Proof.
  clear item_validity. revert k. induction layers as [|l ls IH]; intros k Hk; [cbn in Hk; lia|]. destruct k as [|k]; [done|]. cbn [lists_below_ nth]. rewrite IH by (cbn in Hk; lia). done.
Qed.

Lemma depth_shape ls : (0 <? depth (shape ls)) = existsb is_list ls.
Proof.
  induction ls as [|l ls IH]; [done|]. cbn [shape fmap list_fmap existsb]. rewrite depth_cons. cbn [i_list]. fold (shape ls). rewrite <- IH. pose proof (depth_nonneg (shape ls)).
  destruct (is_list l); cbn [orb]; [apply Z.ltb_lt; lia | by rewrite Z.add_0_l].
Qed.

(** The number of levels and of slots does not depend on the numbering, nor on the first repetition level. *)
Lemma cells_shape cut1 cut2 L1 L2 t r1 r2 :
  i_list <$> L1 = i_list <$> L2 ->
  zlen (cells cut1 L1 t r1) = zlen (cells cut2 L2 t r2) /\ nodes (cells cut1 L1 t r1) = nodes (cells cut2 L2 t r2).
Proof.
  revert L2 t r1 r2. induction L1 as [|a L1 IH]; intros [|b L2] t r1 r2; try done. rewrite !fmap_cons. intros [= Ha HL].
  assert (depth L1 = depth L2) as Hd.
  { clear - HL. revert L2 HL. induction L1 as [|a L1 IH]; intros [|b L2]; try done. rewrite !fmap_cons. intros [= Ha HL]. rewrite !depth_cons, Ha. by rewrite (IH L2). }
  cbn [cells]. destruct t as [s| |t|[|t ts]]; [by rewrite Ha, Hd | done | by apply IH | done|].
  rewrite !zlen_app, !nodes_app. destruct (IH L2 t r1 r2 HL) as [-> ->]. rewrite <- Hd.
  assert (zlen (concat ((fun t => cells cut1 L1 t (depth L1)) <$> ts)) = zlen (concat ((fun t => cells cut2 L2 t (depth L1)) <$> ts)) /\
    nodes (concat ((fun t => cells cut1 L1 t (depth L1)) <$> ts)) = nodes (concat ((fun t => cells cut2 L2 t (depth L1)) <$> ts))) as [-> ->]; [|done].
  clear t. induction ts as [|t ts [IH1 IH2]]; [done|]. cbn [fmap list_fmap concat]. rewrite !zlen_app, !nodes_app, IH1, IH2.
  by destruct (IH L2 t (depth L1) (depth L1) HL) as [-> ->].
Qed.

Definition n_levels (ls : list SerializeLayer) (idx : Z) : Z := zlen (entry_cells 0 (shape ls) ls idx 0).
Definition n_slots (ls : list SerializeLayer) (idx : Z) : Z := zlen (nodes (entry_cells 0 (shape ls) ls idx 0)).

Lemma entry_list l ls idx :
  is_list l = true -> valid_at (sl_validity l) idx = true -> entry item_validity (l :: ls) idx = List (entry item_validity ls <$> kids l idx).
Proof. intros Hl Hv. cbn [entry]. by rewrite Hv, Hl. Qed.

Lemma kid_counts l ls idx :
  is_list l = true -> valid_at (sl_validity l) idx = true -> kids l idx <> [] ->
  n_levels (l :: ls) idx = foldr (fun c a => n_levels ls c + a) 0 (kids l idx) /\ n_slots (l :: ls) idx = foldr (fun c a => n_slots ls c + a) 0 (kids l idx).
Proof.
  intros Hl Hv Hk. unfold n_levels, n_slots, entry_cells. rewrite entry_list by done. destruct (kids l idx) as [|c cs]; [done|].
  cbn [fmap list_fmap cells shape foldr]. fold (shape ls). rewrite nodes_app, !zlen_app.
  assert (forall r t, zlen (cells (first_def 0 []) (shape ls) t r) = zlen (cells (first_def 0 []) (shape ls) t 0)) as H1 by (intros; by apply cells_shape).
  assert (forall r t, nodes (cells (first_def 0 []) (shape ls) t r) = nodes (cells (first_def 0 []) (shape ls) t 0)) as H2 by (intros; by apply cells_shape).
  split; f_equal; clear Hk; induction cs as [|c' cs IH]; try done; cbn [fmap list_fmap concat foldr].
  - rewrite zlen_app, IH, H1. done.
  - rewrite nodes_app, zlen_app, IH, H2. done.
Qed.

(** ** The passes over an entry *)

  (** Offsets that are indices, and a depth that fits the 16-bit levels. *)
  Context (Hcols : Forall (fun l => Forall (fun o => 0 <= o < 2 ^ 62) (default [] (sl_offsets l))) layers).
  Context (Hn : zlen layers < 2 ^ 14).

Lemma nth_offset l k j : layers !! k = Some l -> 0 <= nth j (default [] (sl_offsets l)) 0 < 2 ^ 62.
Proof using Hcols.
  intros Hl. pose proof (proj1 (Forall_lookup _ _) Hcols k l Hl) as Ho. cbn in Ho. rewrite nth_lookup. destruct (default [] (sl_offsets l) !! j) as [o|] eqn:E; cbn; [|lia].
  exact (proj1 (Forall_lookup _ _) Ho j o E).
Qed.

Lemma kids_range l k idx c : layers !! k = Some l -> c ∈ kids l idx -> 0 <= c < 2 ^ 62.
Proof using Hcols.
  intros Hl Hc. apply elem_of_seqZ in Hc. cbn in Hc. pose proof (nth_offset l k (Z.to_nat idx) Hl). pose proof (nth_offset l k (Z.to_nat (idx + 1)) Hl). lia.
Qed.

Lemma u64_index c : 0 <= c < 2 ^ 62 -> u64 c = c.
Proof. intros H. apply u64_small. unfold is_u64. lia. Qed.

Lemma below_spec k l : layers !! k = Some l -> nth k (lists_below_ layers) false = existsb is_list (drop (S k) layers).
Proof using Hn.
  intros Hl. apply lookup_lt_Some in Hl. rewrite lists_below_at by done. rewrite list_depth_spec by (unfold zlen in *; rewrite length_drop; lia).
  rewrite <- depth_shape. pose proof (depth_nonneg (shape (drop (S k) layers))). destruct (Z.eqb_spec (depth (shape (drop (S k) layers))) 0) as [E|E]; [by rewrite E|].
  symmetry. cbn. apply Z.ltb_lt. lia.
Qed.

(** Everything the first pass does to entry [idx] of layer [k]. *)
Definition counted (k : nat) (idx : Z) (s : Serializer) : res Serializer :=
  outcome (entry_error (drop k layers) k idx) (add s (full k (marks (drop k layers) idx)) (n_levels (drop k layers) idx) (n_slots (drop k layers) idx)).

Lemma counted_skip idx s j l : layers !! j = Some l -> passthrough l = true -> counted j idx s = counted (S j) idx s.
Proof.
  intros Hj Hp. unfold counted, n_levels, n_slots, entry_cells. rewrite (drop_lookup _ _ _ Hj). cbn [entry_error marks entry shape fmap list_fmap].
  destruct (passthrough_valid l idx Hp) as [-> ->]. cbn [negb cells]. by rewrite full_S.
Qed.

Lemma visit_items_count b e rep cont s :
  length (flags_ s) = S n -> b <= e -> 0 <= b -> e < 2 ^ 62 ->
  visit_items layers item_validity b e rep cont false s =
  foldl (fun s c => add s (full n [mkLayerFlags (negb (valid_at (Some item_validity) c)) false]) 1 1) s (seqZ b (e - b)).
Proof.
  intros Hl Hbe Hb He. unfold visit_items. cbn [negb]. unfold n_layers.
  rewrite (foldl_add (fun c => full n [mkLayerFlags (negb (valid_at (Some item_validity) c)) false]) (fun _ => 1) (fun _ => 1)); [|done|].
  2: { apply Forall_forall. intros c _. rewrite length_full. cbn. lia. }
  assert (forall cs : list Z, foldr (fun _ a => 1 + a) 0 cs = zlen cs) as Hsum by (induction cs as [|c cs IH]; [done|]; cbn [foldr]; rewrite IH, zlen_cons; done).
  rewrite Hsum, zlen_seqZ by lia. set (bad := fun c => negb (valid_at (Some item_validity) c)).
  assert (foldr or_marks (no_marks n) ((fun c => full n [mkLayerFlags (bad c) false]) <$> seqZ b (e - b)) = full n [mkLayerFlags (existsb bad (seqZ b (e - b))) false]) as HM.
  { generalize (seqZ b (e - b)) as cs. induction cs as [|c cs IH]; cbn [fmap list_fmap foldr existsb].
    - unfold no_marks, full. rewrite replicate_S_end. done.
    - rewrite IH, full_or. done. }
  subst bad. cbv beta in HM. rewrite HM. clear HM Hsum. replace (existsb (fun c => negb (valid_at (Some item_validity) (u64 c))) (seqZ b (e - b))) with (existsb (fun c => negb (valid_at (Some item_validity) c)) (seqZ b (e - b))).
  2: { assert (Forall (fun c => 0 <= c < 2 ^ 62) (seqZ b (e - b))) as Hc by (apply Forall_forall; intros c Hc%elem_of_seqZ; lia).
       induction Hc as [|c cs Hc _ IH]; [done|]. cbn [existsb]. by rewrite IH, (u64_index c Hc). }
  set (any := existsb _ _). rewrite count_levels_add by done. cbn [flags_ add]. rewrite or_marks_no by done.
  assert (any = true -> item_validity <> []) as Hne.
  { intros H ->. subst any. apply existsb_exists in H as (c & _ & H). done. }
  clearbody any. destruct any.
  - rewrite bool_decide_eq_false_2 by (by apply Hne). cbn [negb andb]. destruct (flags_ s !! n) as [f|] eqn:Ef; [|apply lookup_ge_None in Ef; lia]. cbn [fmap option_fmap option_map default].
    destruct (has_null f) eqn:Enull; cbn [negb andb].
    + unfold add. rewrite or_marks_no by done. f_equal. symmetry. by apply (or_marks_set _ n f).
    + rewrite set_null_add; [|by apply add_flags; [|apply length_no_marks]|lia]. rewrite add_add, Nat.sub_diag. f_equal; [|lia..]. by apply or_marks_no_l; rewrite length_full; cbn; lia.
  - rewrite andb_false_r. f_equal. unfold no_marks, full. rewrite replicate_S_end. done.
Qed.

Lemma kids_empty l idx : (bounds l idx).2 <= (bounds l idx).1 -> kids l idx = [].
Proof. intros H. unfold kids. rewrite seqZ_nil by lia. done. Qed.

Lemma kids_nonempty l idx : (bounds l idx).1 < (bounds l idx).2 -> kids l idx <> [].
Proof. intros H. unfold kids. rewrite seqZ_cons by lia. done. Qed.

(** What [visit] does with the children of a list, once they are counted one by one. *)
Lemma count_kids k l idx s :
  layers !! k = Some l -> is_list l = true -> valid_at (sl_validity l) idx = true -> kids l idx <> [] -> length (flags_ s) = S n ->
  foldl (fun s c => add s (full (S k) (marks (drop (S k) layers) c)) (n_levels (drop (S k) layers) c) (n_slots (drop (S k) layers) c)) s (kids l idx) =
  add s (full k (marks (drop k layers) idx)) (n_levels (drop k layers) idx) (n_slots (drop k layers) idx).
Proof.
  intros Hk Hl Hv Hne Hlen. apply lookup_lt_Some in Hk as Hlt. rewrite (drop_lookup _ _ _ Hk). destruct (kid_counts l (drop (S k) layers) idx Hl Hv Hne) as [-> ->].
  rewrite (foldl_add (fun c => full (S k) (marks (drop (S k) layers) c))); [|done|].
  2: { apply Forall_forall. intros c _. apply full_marks_length. lia. }
  f_equal. cbn [marks]. rewrite Hv, Hl. cbn [negb]. destruct (kids l idx) as [|c0 cs] eqn:Ek; [done|]. rewrite full_S, full_foldr, <- list_fmap_compose.
  replace (full (S k) (no_marks (length (drop (S k) layers)))) with (no_marks n); [done|]. unfold full, no_marks. rewrite <- replicate_add, length_drop. f_equal. lia.
Qed.

Lemma null_counts l ls idx :
  valid_at (sl_validity l) idx = false -> n_levels (l :: ls) idx = 1 /\ n_slots (l :: ls) idx = if is_list l || existsb is_list ls then 0 else 1.
Proof.
  intros Hv. unfold n_levels, n_slots, entry_cells. cbn [entry shape fmap list_fmap]. rewrite Hv. cbn [negb cells i_list]. fold (shape ls). rewrite depth_shape.
  by destruct (is_list l || existsb is_list ls).
Qed.

Lemma empty_counts l ls idx :
  is_list l = true -> valid_at (sl_validity l) idx = true -> kids l idx = [] -> n_levels (l :: ls) idx = 1 /\ n_slots (l :: ls) idx = 0.
Proof. intros Hl Hv Hk. unfold n_levels, n_slots, entry_cells. rewrite entry_list, Hk by done. done. Qed.

Lemma visit_count fuel k idx rep s :
  (k <= n)%nat -> (n - k < fuel)%nat -> 0 <= idx < 2 ^ 62 -> length (flags_ s) = S n ->
  visit layers item_validity fuel k idx rep false s = counted k idx s.
Proof using Hcols Hn.
  revert k idx rep s. induction fuel as [|fuel IH]; intros k idx rep s Hk Hf Hi Hl; [lia|]. cbn [visit]. destruct (layers !! k) as [l|] eqn:E.
  2: { apply lookup_ge_None in E. assert (k = n) as -> by lia. unfold counted. rewrite drop_past by lia. cbn [entry_error outcome marks negb]. f_equal.
       unfold n_levels, n_slots, entry_cells. cbn [cells shape fmap list_fmap nodes omap list_omap snd]. change (zlen [_]) with 1. change (zlen (@cons node _ [])) with 1.
       destruct (valid_at (Some item_validity) idx); cbn [negb].
       - rewrite count_levels_add by done. f_equal. unfold no_marks, full. by rewrite replicate_S_end.
       - rewrite set_null_add by (done || lia). rewrite count_levels_add, add_add by (apply add_flags; [done | rewrite length_full; cbn; rewrite length_replicate; lia]).
         rewrite Nat.sub_diag. f_equal. apply or_marks_no. rewrite length_full. cbn. lia. }
  apply lookup_lt_Some in E as Hlt. pose proof (counted_skip) as Hskip. rewrite (below_spec k l E).
  assert (forall c s, visit layers item_validity fuel (nth k (next_ 0 layers) 0%nat) c rep false s = counted (S k) c s \/ True) as _ by (intros; by right).
  assert (forall c r s, 0 <= c < 2 ^ 62 -> length (flags_ s) = S n -> visit layers item_validity fuel (nth k (next_ 0 layers) 0%nat) c r false s = counted (S k) c s) as Hnext.
  { intros c r s' Hc Hl'. destruct (next_layer _ (fun j => counted j c s') k) as [Hn1 Hn2]; [|done|].
    - intros j l' Hj Hp. by apply (counted_skip c s' j l').
    - rewrite IH by (done || lia). exact Hn2. }
  assert (length (drop (S k) layers) = (n - S k)%nat) as Hdrop by apply length_drop.
  assert (n - k = S (n - S k))%nat as Hnk by lia.
  assert (or_marks (no_marks n) (full k (mkLayerFlags true false :: replicate (n - k) no_flags)) = full k (mkLayerFlags true false :: replicate (n - k) no_flags)) as Hor
    by (apply or_marks_no_l; rewrite length_full; cbn; rewrite length_replicate; lia).
  destruct (is_list l) eqn:El; cbn [negb].
  - unfold counted. rewrite (drop_lookup _ _ _ E). cbn [entry_error]. rewrite El. cbn [negb]. destruct (_ <=? u64 (idx + 1)); [done|].
    destruct (valid_at (sl_validity l) idx) eqn:Ev; cbn [negb].
    2: { cbn [outcome]. f_equal. rewrite set_null_add by (done || lia). rewrite count_levels_add by (apply add_flags; [done | rewrite length_full; cbn; rewrite length_replicate; lia]).
         rewrite add_add. cbn [marks]. rewrite Ev, El. cbn [negb]. destruct (null_counts l (drop (S k) layers) idx Ev) as [-> ->]. rewrite El. f_equal.
         rewrite or_marks_no by (rewrite length_full; cbn; rewrite length_replicate; lia). unfold no_marks. by rewrite Hdrop, Hnk. }
    change (nth (Z.to_nat idx) (default [] (sl_offsets l)) 0) with (bounds l idx).1. change (nth (Z.to_nat (idx + 1)) (default [] (sl_offsets l)) 0) with (bounds l idx).2.
    destruct (Z.ltb_spec (bounds l idx).2 (bounds l idx).1); [done|]. destruct (Z.eqb_spec (bounds l idx).2 (bounds l idx).1) as [Heq|Hne].
    { rewrite kids_empty by lia. unfold first_some. cbn [omap list_omap head outcome]. f_equal. rewrite set_empty_add by (done || lia).
      rewrite count_levels_add by (apply add_flags; [done | rewrite length_full; cbn; rewrite length_replicate; lia]). rewrite add_add. cbn [marks]. rewrite Ev, El. cbn [negb].
      rewrite kids_empty by lia. destruct (empty_counts l (drop (S k) layers) idx El Ev ltac:(apply kids_empty; lia)) as [-> ->]. f_equal.
      rewrite or_marks_no by (rewrite length_full; cbn; rewrite length_replicate; lia). unfold no_marks. by rewrite Hdrop, Hnk. }
    assert (kids l idx <> []) as Hkids by (apply kids_nonempty; lia). fold (kids l idx). rewrite <- (drop_lookup _ _ _ E). rewrite <- (count_kids k l idx s E El Ev Hkids Hl).
    assert (forall c, c ∈ kids l idx -> 0 <= c < 2 ^ 62) as Hrange by (intros c Hc; by apply (kids_range l k idx)).
    destruct (Nat.eqb_spec (nth k (next_ 0 layers) 0%nat) (n_layers layers)) as [Hlast|Hmore].
    + assert (forall c s, 0 <= c < 2 ^ 62 -> length (flags_ s) = S n -> counted (S k) c s = Ok (add s (full n [mkLayerFlags (negb (valid_at (Some item_validity) c)) false]) 1 1)) as Hleaf.
      { intros c s' Hc Hl'. destruct (next_layer _ (fun j => counted j c s') k) as [Hn1 Hn2]; [|done|].
        - intros j l' Hj Hp. by apply (counted_skip c s' j l').
        - rewrite Hlast in Hn2. rewrite <- Hn2. unfold counted, n_layers. rewrite drop_past by lia. done. }
      assert (forall c, c ∈ kids l idx -> entry_error (drop (S k) layers) (S k) c = None) as Hnone.
      { intros c Hc. specialize (Hleaf c s (Hrange c Hc) Hl). unfold counted, outcome in Hleaf. by destruct (entry_error _ _ _). }
      replace (first_some _ (kids l idx)) with (@None string); cycle 1.
      { symmetry. clear - Hnone. induction (kids l idx) as [|c cs IHc]; [done|]. rewrite first_some_cons, Hnone by set_solver. apply IHc. set_solver. }
      cbn [outcome]. f_equal. pose proof (nth_offset l k (Z.to_nat idx) E). pose proof (nth_offset l k (Z.to_nat (idx + 1)) E).
      rewrite visit_items_count by (done || cbn in *; lia). fold (kids l idx). clear - Hleaf Hnone Hrange Hl Hlt. revert s Hl.
      induction (kids l idx) as [|c cs IHc]; intros s Hl; [done|]. cbn [foldl]. specialize (Hleaf c s (Hrange c ltac:(set_solver)) Hl) as Hc. unfold counted in Hc.
      rewrite Hnone in Hc by set_solver. cbn [outcome] in Hc. injection Hc as Hc1 Hc2 Hc3.
      rewrite IHc; [|set_solver|set_solver|apply add_flags; [done | rewrite length_full; cbn; lia]]. unfold add at 2 4. by rewrite Hc1, Hc2, Hc3.
    + apply (fold_res_outcome (fun s => length (flags_ s) = S n)); [| |done].
      * intros s' c Hs' Hc. rewrite (u64_index c) by auto. rewrite Hnext by auto. done.
      * intros s' c Hs' Hc. apply add_flags; [done|]. apply full_marks_length. lia.
  - destruct (valid_at (sl_validity l) idx) eqn:Ev; cbn [negb].
    + rewrite Hnext by done. unfold counted. rewrite (drop_lookup _ _ _ E). cbn [entry_error marks]. rewrite El, Ev. cbn [negb]. rewrite full_S.
      unfold n_levels, n_slots, entry_cells. cbn [entry shape fmap list_fmap]. by rewrite El, Ev.
    + unfold counted. rewrite (drop_lookup _ _ _ E). cbn [entry_error marks]. rewrite El, Ev. cbn [negb outcome]. f_equal.
      rewrite set_null_add by (done || lia). rewrite count_levels_add by (apply add_flags; [done | rewrite length_full; cbn; rewrite length_replicate; lia]).
      rewrite mark_hidden_marks; [|done|]. 2: { repeat apply add_flags; [done | rewrite length_full; cbn; rewrite length_replicate; lia | apply length_no_marks]. }
      rewrite !add_add. destruct (null_counts l (drop (S k) layers) idx Ev) as [-> ->]. rewrite El. cbn [orb]. f_equal.
      * rewrite (or_marks_no_l _ n) by (rewrite length_full, length_hidden_marks; lia). apply marks_then_full. rewrite length_hidden_marks. lia.
      * by destruct (existsb is_list (drop (S k) layers)).
Qed.

(** ** The second pass over an entry *)

  Context (item : Z) (L : list Info) (HL : i_list <$> L = is_list <$> layers).

Definition cell_slot (c : cell) : Z := match c.2 with Some nd => slot nd | None => kNoSlot end.
Definition push_cell (s : Serializer) (c : cell) : Serializer := push (c_rep c) (c_def c) (cell_slot c) s.

(** The level numbers are in place. *)
Definition numbers (s : Serializer) : Prop := null_level_ s = (i_null <$> L) ++ [item] /\ empty_level_ s = (i_empty <$> L) ++ [0].

Lemma push_numbers s r d sl : numbers s -> numbers (push r d sl s).
Proof. done. Qed.

Lemma push_cells_numbers s cs : numbers s -> numbers (foldl push_cell s cs).
Proof. revert s. induction cs as [|c cs IH]; intros s Hs; [done|]. cbn. apply IH. by apply push_numbers. Qed.

Lemma foldl_concat {A B S} (f : S -> B -> S) (g : A -> list B) l s : foldl f s (concat (g <$> l)) = foldl (fun s x => foldl f s (g x)) s l.
Proof. revert s. induction l as [|x l IH]; intros s; [done|]. cbn. by rewrite foldl_app, IH. Qed.

Definition emitted (k : nat) (idx rep : Z) (s : Serializer) : res Serializer :=
  outcome (entry_error (drop k layers) k idx) (foldl push_cell s (entry_cells item (drop k L) (drop k layers) idx rep)).

Lemma info_at k l : layers !! k = Some l -> exists i, L !! k = Some i /\ i_list i = is_list l /\ drop k L = i :: drop (S k) L.
Proof using HL.
  intros Hl. apply (f_equal (fun x => x !! k)) in HL as E. rewrite !list_lookup_fmap, Hl in E. destruct (L !! k) as [i|] eqn:Ei; [|done].
  exists i. split; [done|]. split; [by injection E|]. by apply drop_lookup.
Qed.

Lemma length_infos : length L = n.
Proof using HL. apply (f_equal length) in HL as E. by rewrite !length_fmap in E. Qed.

Lemma emitted_skip idx rep s j l : layers !! j = Some l -> passthrough l = true -> emitted j idx rep s = emitted (S j) idx rep s.
Proof using HL.
  intros Hj Hp. destruct (info_at j l Hj) as (i & _ & Hi & Hd). unfold emitted, entry_cells. rewrite Hd, (drop_lookup _ _ _ Hj). cbn [entry_error entry cells].
  destruct (passthrough_valid l idx Hp) as [-> ->]. done.
Qed.

Lemma null_level_at s k i : numbers s -> L !! k = Some i -> nth k (null_level_ s) 0 = i_null i /\ nth k (empty_level_ s) 0 = i_empty i.
Proof.
  intros [-> ->] Hi. apply lookup_lt_Some in Hi as Hlt. rewrite !nth_lookup, !lookup_app_l by (rewrite length_fmap; done). by rewrite !list_lookup_fmap, Hi.
Qed.

Lemma item_level_at s : numbers s -> nth n (null_level_ s) 0 = item.
Proof using HL. intros [-> _]. rewrite <- length_infos, nth_lookup, lookup_app_r by (rewrite length_fmap; lia). rewrite length_fmap, Nat.sub_diag. done. Qed.

Lemma depth_infos k : (k <= n)%nat -> depth (drop k L) = depth (shape (drop k layers)).
Proof using HL.
  intros _. assert (i_list <$> drop k L = i_list <$> shape (drop k layers)) as E.
  { unfold shape. rewrite <- list_fmap_compose. rewrite !fmap_drop, HL. done. }
  revert E. generalize (drop k L) (shape (drop k layers)). induction l as [|a l IH]; intros [|b l']; try done. rewrite !fmap_cons, !depth_cons. intros [= -> E]. by rewrite (IH l').
Qed.

(** The levels of a list's children: the first takes the level that starts the list. *)
Lemma kids_cells k l idx rep :
  layers !! k = Some l -> is_list l = true -> valid_at (sl_validity l) idx = true -> kids l idx <> [] ->
  entry_cells item (drop k L) (drop k layers) idx rep =
  concat ((fun c => entry_cells item (drop (S k) L) (drop (S k) layers) c (if c =? (bounds l idx).1 then rep else depth (drop (S k) L))) <$> kids l idx).
Proof using HL.
  intros Hk Hl Hv Hne. destruct (info_at k l Hk) as (i & _ & Hi & Hd). unfold entry_cells. rewrite Hd, (drop_lookup _ _ _ Hk), entry_list by done.
  assert ((bounds l idx).1 < (bounds l idx).2) as Hb by (destruct (Z.lt_ge_cases (bounds l idx).1 (bounds l idx).2); [done|]; by rewrite kids_empty in Hne).
  unfold kids. rewrite seqZ_cons by lia. cbn [fmap list_fmap cells concat]. rewrite Z.eqb_refl. f_equal. rewrite <- list_fmap_compose. f_equal. apply list_fmap_ext.
  intros j c Hc. apply list_elem_of_lookup_2, elem_of_seqZ in Hc. unfold compose. rewrite (proj2 (Z.eqb_neq c _)) by lia. done.
Qed.

Lemma continuation_spec k l : layers !! k = Some l -> is_list l = true -> u16 (nth k (list_depth_ layers) 0 - 1) = depth (drop (S k) L).
Proof using HL Hn.
  intros Hk Hl. apply lookup_lt_Some in Hk as Hlt. rewrite list_depth_at, list_depth_spec by (unfold zlen in *; rewrite ?length_drop; lia). rewrite (drop_lookup _ _ _ Hk).
  cbn [shape fmap list_fmap]. rewrite depth_cons. cbn [i_list]. rewrite Hl. fold (shape (drop (S k) layers)). rewrite depth_infos by lia.
  assert (depth (shape (drop (S k) layers)) <= zlen layers) as Hle.
  { unfold depth, zlen, shape. apply inj_le. etrans; [apply length_filter|]. rewrite length_fmap, length_drop. lia. }
  pose proof (depth_nonneg (shape (drop (S k) layers))). rewrite u16_small by (unfold is_u16; lia). lia.
Qed.

Lemma visit_items_emit b e rep cont s :
  numbers s -> 0 <= b -> e < 2 ^ 62 ->
  visit_items layers item_validity b e rep cont true s =
  foldl (fun s c => foldl push_cell s (entry_cells item [] [] c (if c =? b then rep else cont))) s (seqZ b (e - b)).
Proof using HL.
  intros Hs Hb He. unfold visit_items. cbn [negb]. assert (Forall (fun c => 0 <= c < 2 ^ 62) (seqZ b (e - b))) as Hc by (apply Forall_forall; intros c Hc%elem_of_seqZ; lia).
  revert s Hs. induction Hc as [|c cs Hc _ IH]; intros s Hs; [done|]. cbn [foldl]. rewrite IH by done. f_equal. unfold entry_cells. cbn [cells foldl entry]. unfold push_cell.
  cbn [c_rep c_def cell_slot fst snd]. rewrite (u64_index c Hc). unfold n_layers. rewrite item_level_at by done. by destruct (valid_at (Some item_validity) c).
Qed.

Lemma visit_emit fuel k idx rep s :
  (k <= n)%nat -> (n - k < fuel)%nat -> 0 <= idx < 2 ^ 62 -> numbers s -> visit layers item_validity fuel k idx rep true s = emitted k idx rep s.
Proof using Hcols Hn HL.
  revert k idx rep s. induction fuel as [|fuel IH]; intros k idx rep s Hk Hf Hi Hs; [lia|]. cbn [visit]. destruct (layers !! k) as [l|] eqn:E.
  2: { apply lookup_ge_None in E. assert (k = n) as -> by lia. unfold emitted, entry_cells. rewrite drop_past by lia. rewrite (drop_ge L) by (rewrite length_infos; lia).
       cbn [entry_error outcome cells foldl entry negb]. f_equal. unfold push_cell. rewrite item_level_at by done. by destruct (valid_at (Some item_validity) idx). }
  apply lookup_lt_Some in E as Hlt. rewrite (below_spec k l E). destruct (info_at k l E) as (i & HLk & Hil & HLd). destruct (null_level_at s k i Hs HLk) as [Hnull Hempty].
  assert (forall c r s, 0 <= c < 2 ^ 62 -> numbers s -> visit layers item_validity fuel (nth k (next_ 0 layers) 0%nat) c r true s = emitted (S k) c r s) as Hnext.
  { intros c r s' Hc Hl'. destruct (next_layer _ (fun j => emitted j c r s') k) as [Hn1 Hn2]; [|done|].
    - intros j l' Hj Hp. by apply (emitted_skip c r s' j l').
    - rewrite IH by (done || lia). exact Hn2. }
  rewrite Hnull, Hempty. destruct (is_list l) eqn:El; cbn [negb].
  - unfold emitted. rewrite (drop_lookup _ _ _ E) at 1. cbn [entry_error]. rewrite El. cbn [negb]. destruct (_ <=? u64 (idx + 1)); [done|].
    destruct (valid_at (sl_validity l) idx) eqn:Ev; cbn [negb].
    2: { cbn [outcome]. f_equal. unfold entry_cells. rewrite HLd, (drop_lookup _ _ _ E). cbn [entry]. rewrite Ev. cbn [negb cells]. rewrite Hil. done. }
    change (nth (Z.to_nat idx) (default [] (sl_offsets l)) 0) with (bounds l idx).1. change (nth (Z.to_nat (idx + 1)) (default [] (sl_offsets l)) 0) with (bounds l idx).2.
    destruct (Z.ltb_spec (bounds l idx).2 (bounds l idx).1); [done|]. destruct (Z.eqb_spec (bounds l idx).2 (bounds l idx).1) as [Heq|Hne].
    { rewrite kids_empty by lia. unfold first_some. cbn [omap list_omap head outcome]. f_equal. unfold entry_cells. rewrite HLd, (drop_lookup _ _ _ E), entry_list, kids_empty by (done || lia). done. }
    assert (kids l idx <> []) as Hkids by (apply kids_nonempty; lia). fold (kids l idx). rewrite (kids_cells k l idx rep E El Ev Hkids), foldl_concat.
    rewrite (continuation_spec k l E El). assert (forall c, c ∈ kids l idx -> 0 <= c < 2 ^ 62) as Hrange by (intros c Hc; by apply (kids_range l k idx)).
    destruct (Nat.eqb_spec (nth k (next_ 0 layers) 0%nat) (n_layers layers)) as [Hlast|Hmore].
    + assert (forall c r s, emitted (S k) c r s = Ok (foldl push_cell s (entry_cells item [] [] c r))) as Hleaf.
      { intros c r s'. destruct (next_layer _ (fun j => emitted j c r s') k) as [Hn1 Hn2]; [|done|].
        - intros j l' Hj Hp. by apply (emitted_skip c r s' j l').
        - rewrite Hlast in Hn2. rewrite <- Hn2. unfold emitted, n_layers. rewrite drop_past by lia. rewrite (drop_ge L) by (rewrite length_infos; lia). done. }
      assert (forall c, entry_error (drop (S k) layers) (S k) c = None) as Hnone.
      { intros c. specialize (Hleaf c rep s). unfold emitted, outcome in Hleaf. by destruct (entry_error _ _ _). }
      replace (first_some _ (kids l idx)) with (@None string); cycle 1.
      { symmetry. clear - Hnone. induction (kids l idx) as [|c cs IHc]; [done|]. by rewrite first_some_cons, Hnone. }
      cbn [outcome]. f_equal. pose proof (nth_offset l k (Z.to_nat idx) E). pose proof (nth_offset l k (Z.to_nat (idx + 1)) E).
      rewrite visit_items_emit by (done || cbn in *; lia). fold (kids l idx). clear - Hleaf Hnone. revert s. induction (kids l idx) as [|c cs IHc]; intros s; [done|]. cbn [foldl].
      specialize (Hleaf c (if c =? (bounds l idx).1 then rep else depth (drop (S k) L)) s). unfold emitted in Hleaf. rewrite Hnone in Hleaf. cbn [outcome] in Hleaf.
      apply (f_equal (fun r => match r with Ok x => x | Err _ => s end)) in Hleaf. cbv beta iota in Hleaf. rewrite Hleaf. apply IHc.
    + apply (fold_res_outcome numbers); [| |done].
      * intros s' c Hs' Hc. rewrite (u64_index c) by auto. rewrite Hnext by auto. done.
      * intros s' c Hs' Hc. by apply push_cells_numbers.
  - destruct (valid_at (sl_validity l) idx) eqn:Ev; cbn [negb].
    + rewrite Hnext by done. unfold emitted, entry_cells. rewrite HLd, (drop_lookup _ _ _ E). cbn [entry_error entry]. rewrite El, Ev. done.
    + unfold emitted, entry_cells. rewrite HLd, (drop_lookup _ _ _ E). cbn [entry_error entry]. rewrite El, Ev. cbn [negb outcome cells]. f_equal. cbn [foldl]. unfold push_cell.
      cbn [c_rep c_def fst snd]. rewrite Hil, depth_infos by lia. rewrite depth_shape. by destruct (existsb is_list (drop (S k) layers)).
Qed.

End writing.

End RepDefWrite.
