(* ===== verification/RepDefRoundtrip.v ===== *)
(** * RepDefRoundtrip: [serialize] as a function of the rows, and the two theorems about it

    Whatever the number of threads and the order their parts run in, [serialize] gives the levels of the rows;
    and [unravel] gives the rows back. *)

From S2P Require Import Prelude RepDef RepDefRead RepDefStages RepDefLayers RepDefWrite.

Module RepDefRoundtrip.
Import RepDef RepDefRead RepDefStages RepDefLayers RepDefWrite.

(** ** The numbering the flags give *)

Fixpoint infos (ls : list SerializeLayer) (fs : list LayerFlags) : Z * list Info :=
  match ls, fs with
  | l :: ls, f :: fs =>
      let '(item, inn) := infos ls fs in
      let null := if has_null f then top item inn + 1 else 0 in
      let empty := if is_list l && has_empty f then top item inn + used null + 1 else 0 in
      (item, mkInfo (is_list l) null empty :: inn)
  | _, f :: _ => (if has_null f then 1 else 0, [])
  | _, [] => (0, [])
  end.

Lemma infos_numbered ls fs :
  length fs = S (length ls) -> let '(item, inn) := infos ls fs in
  numbered item inn /\ i_list <$> inn = is_list <$> ls /\ 0 <= top item inn <= 2 * zlen ls + 1.
Proof.
  revert fs. induction ls as [|l ls IH]; intros [|f fs] Hl; try done; cbn [infos].
  - cbn. destruct (has_null f); cbn; (split; [auto|]); (split; [done|]); change (zlen []) with 0; lia.
  - injection Hl as Hl. specialize (IH fs Hl). destruct (infos ls fs) as [item inn]. destruct IH as (IH1 & IH2 & IH3). rewrite zlen_cons. cbn [numbered top i_null i_empty i_list fmap list_fmap].
    split_and!; [done| | | | |..].
    + destruct (has_null f); auto.
    + destruct (is_list l && has_empty f); auto.
    + intros ->. done.
    + by rewrite IH2.
    + pose proof (used_range (if has_null f then top item inn + 1 else 0)). match goal with |- context [used (if ?b then ?x else 0) ] => pose proof (used_range (if b then x else 0)) end.
      match goal with |- 0 <= _ + _ + used ?x => pose proof (used_range x) end. lia.
    + match goal with |- _ + used ?x + used ?y <= _ => pose proof (used_range x); pose proof (used_range y) end. lia.
Qed.

Lemma assign_loop_infos ls fs :
  length fs = S (length ls) -> zlen ls < 2 ^ 14 ->
  assign_loop ls fs = let '(item, inn) := infos ls fs in (kinds item inn, (i_null <$> inn) ++ [item], (i_empty <$> inn) ++ [0], top item inn + 1).
Proof.
  revert fs. induction ls as [|l ls IH]; intros [|f fs] Hl Hn; try done; cbn [infos assign_loop].
  - unfold assign_item. by destruct (has_null f).
  - injection Hl as Hl. rewrite zlen_cons in Hn. rewrite (IH fs Hl) by lia. pose proof (infos_numbered ls fs Hl) as Hi. destruct (infos ls fs) as [item inn]. destruct Hi as (_ & _ & Hi).
    unfold kinds. rewrite fmap_cons, reverse_cons. cbn [fmap list_fmap app i_null i_empty top]. unfold kind_of, assign_list, assign_item. cbn [i_list i_null i_empty].
    generalize (top item inn) Hi. intros T HT. assert (u16 (T + 1 + 1) = T + 1 + 1) as Hu1 by (apply u16_small; unfold is_u16; lia).
    assert (u16 (T + 1 + 2) = T + 1 + 1 + 1) as Hu2 by (rewrite u16_small by (unfold is_u16; lia); lia).
    assert (0 <? T + 1 = true) as H1 by (apply Z.ltb_lt; lia). assert (0 <? T + 1 + 1 = true) as H2 by (apply Z.ltb_lt; lia).
    unfold used. destruct (is_list l); cbn [andb]; destruct (has_null f), (has_empty f); cbn [andb]; rewrite ?H1; change (0 <? 0) with false; cbn iota; rewrite ?Z.add_0_r;
      rewrite ?H1, ?H2, ?Hu1, ?Hu2; cbn [andb]; rewrite ?Z.add_0_r; reflexivity.
Qed.

(** ** The flags cover what occurs *)

Definition covers (fs ms : list LayerFlags) : Prop :=
  Forall2 (fun f m => (has_null m = true -> has_null f = true) /\ (has_empty m = true -> has_empty f = true)) fs ms.

Lemma covers_or_l a b : length a = length b -> covers (or_marks a b) a.
Proof.
  unfold covers, or_marks. revert b. induction a as [|x a IH]; intros [|y b] H; try done; cbn. constructor; [|apply IH; by injection H].
  cbn. by split; intros ->.
Qed.
Lemma covers_or_r a b : length a = length b -> covers (or_marks a b) b.
Proof.
  unfold covers, or_marks. revert b. induction a as [|x a IH]; intros [|y b] H; try done; cbn. constructor; [|apply IH; by injection H].
  cbn. by split; intros ->; rewrite orb_true_r.
Qed.
Lemma covers_trans a b c : covers a b -> covers b c -> covers a c.
Proof.
  unfold covers. intros H. revert c. induction H as [|x y a b Hxy _ IH]; intros c Hc; inversion Hc as [|? z ? c' Hyz Hc']; subst; constructor; [|by apply IH].
  destruct Hxy, Hyz. auto.
Qed.

Lemma covers_foldr m ms x : Forall (fun a => length a = S m) ms -> x ∈ ms -> covers (foldr or_marks (no_marks m) ms) x.
Proof.
  induction 1 as [|a ms Ha Hms IH]; intros Hx; [by apply not_elem_of_nil in Hx|]. cbn [foldr]. pose proof (length_foldr_marks m ms Hms).
  apply elem_of_cons in Hx as [->|Hx]; [apply covers_or_l; congruence|]. eapply covers_trans; [apply covers_or_r; congruence | by apply IH].
Qed.

Lemma typed_entry item_validity ls fs idx :
  covers fs (marks item_validity ls idx) -> let '(item, inn) := infos ls fs in typed item inn (entry item_validity ls idx).
Proof.
  revert fs idx. induction ls as [|l ls IH]; intros fs idx Hc; cbn [marks] in Hc.
  - inversion Hc as [|f m fs' ms [Hn _] Hf]; subst. cbn [infos entry]. destruct (valid_at (Some item_validity) idx) eqn:E; [done|]. assert (has_null f = true) as -> by (apply Hn; change (negb (valid_at (Some item_validity) idx) = true); by rewrite E). cbn. lia.
  - assert (exists f fs', fs = f :: fs') as (f & fs' & ->).
    { destruct fs as [|f fs']; [|eauto]. inversion Hc as [E|]. exfalso. revert E. repeat case_match; done. }
    cbn [infos entry]. specialize (IH fs'). destruct (infos ls fs') as [item inn] eqn:Ei.
    destruct (negb (valid_at (sl_validity l) idx)) eqn:Ev.
    + cbn [typed i_null]. inversion Hc as [|? ? ? ? [Hn _] Hf]; subst. rewrite Hn by done.
      assert (length fs' = S (length ls)) as Hl.
      { apply Forall2_length in Hf. rewrite Hf. destruct (is_list l); [apply length_no_marks | apply length_hidden_marks]. }
      pose proof (infos_numbered ls fs' Hl) as Hi. rewrite Ei in Hi. lia.
    + destruct (is_list l) eqn:El; cbn [negb andb] in *.
      * change (entry item_validity ls <$> _) with (entry item_validity ls <$> kids l idx). destruct (kids l idx) as [|c0 cs] eqn:Ek.
        -- inversion Hc as [|? ? ? ? [_ He] Hf]; subst. cbn [fmap list_fmap typed i_list i_empty]. split_and!; [done| |constructor]. intros _. rewrite He by done.
           assert (length fs' = S (length ls)) as Hl by (apply Forall2_length in Hf; rewrite Hf; apply length_no_marks).
           pose proof (infos_numbered ls fs' Hl) as Hi. rewrite Ei in Hi. pose proof (used_range (if has_null f then top item inn + 1 else 0)). lia.
        -- cbn [typed i_list]. split_and!; [done|done|]. inversion Hc as [|? ? ? ? _ Hf]; subst. apply Forall_fmap, Forall_forall. intros c Hin. apply IH.
           refine (covers_trans _ (foldr or_marks (no_marks (length ls)) (marks item_validity ls <$> c0 :: cs)) _ Hf _). apply covers_foldr; [apply Forall_fmap, Forall_forall; intros; apply length_marks|]. by apply list_elem_of_fmap_2.
      * inversion Hc as [|? ? ? ? _ Hf]; subst. cbn [typed i_list]. split; [done|]. by apply IH.
Qed.

(** ** Writing into preallocated vectors *)

Fixpoint write (a : nat) (xs l : list Z) : list Z := match xs with [] => l | x :: xs => write (S a) xs (<[a := x]> l) end.

Lemma length_write a xs l : length (write a xs l) = length l.
Proof. revert a l. induction xs as [|x xs IH]; intros a l; cbn; [done|]. by rewrite IH, length_insert. Qed.

Lemma write_before a xs l i : (i < a)%nat -> write a xs l !! i = l !! i.
Proof. revert a l. induction xs as [|x xs IH]; intros a l Hi; cbn; [done|]. rewrite IH by lia. by apply list_lookup_insert_ne; lia. Qed.

Lemma write_after a xs l i : (a + length xs <= i)%nat -> write a xs l !! i = l !! i.
Proof. revert a l. induction xs as [|x xs IH]; intros a l Hi; cbn in *; [done|]. rewrite IH by lia. by apply list_lookup_insert_ne; lia. Qed.

Lemma write_inside a xs l j : (j < length xs)%nat -> (a + j < length l)%nat -> write a xs l !! (a + j)%nat = xs !! j.
Proof.
  revert a l j. induction xs as [|x xs IH]; intros a l j Hj Hl; cbn in *; [lia|]. destruct j as [|j].
  - rewrite Nat.add_0_r, write_before by lia. by rewrite list_lookup_insert_eq by lia.
  - replace (a + S j)%nat with (S a + j)%nat by lia. apply IH; [lia|]. rewrite length_insert. lia.
Qed.

Lemma write_all xs l : length l = length xs -> write 0 xs l = xs.
Proof.
  intros Hl. apply list_eq. intros i. destruct (Nat.lt_ge_cases i (length xs)) as [Hi|Hi]; [by apply (write_inside 0); lia|].
  rewrite write_after by lia. rewrite !lookup_ge_None_2 by lia. done.
Qed.

(** Writing every part at its place gives them all, in whatever order they are written. *)
Section scatter.
  Context (data : list (list Z)).

Definition part_at (k : nat) : nat := length (concat (take k data)).
Definition write_part (l : list Z) (k : nat) : list Z := write (part_at k) (nth k data []) l.

Lemma part_at_le j k : (j < k)%nat -> (part_at j + length (nth j data []) <= part_at k)%nat.
Proof.
  intros Hjk. unfold part_at. destruct (Nat.lt_ge_cases j (length data)) as [Hj|Hj].
  - destruct (lookup_lt_is_Some_2 data j Hj) as [x Hx]. rewrite nth_lookup, Hx. cbn [default id].
    replace k with (j + S (k - S j))%nat by lia. rewrite <- take_take_drop, (drop_lookup _ _ _ Hx), concat_app, length_app. cbn. rewrite length_app. lia.
  - rewrite nth_overflow by done. rewrite !firstn_all2 by lia. cbn. lia.
Qed.

Lemma write_part_spec order l k j x :
  (k < length data)%nat -> nth k data [] !! j = Some x -> length l = length (concat data) ->
  k ∈ order \/ l !! (part_at k + j)%nat = Some x -> foldl write_part l order !! (part_at k + j)%nat = Some x.
Proof.
  intros Hk Hj. apply lookup_lt_Some in Hj as Hlt. assert (part_at k + length (nth k data []) <= length (concat data))%nat as Hend.
  { pose proof (part_at_le k (length data) Hk) as H. unfold part_at in H at 2. by rewrite firstn_all in H. }
  revert l. induction order as [|m order IH]; intros l Hl Hin; cbn [foldl]; [destruct Hin as [Hin|]; [by apply not_elem_of_nil in Hin | done]|].
  apply IH; [unfold write_part; by rewrite length_write|]. destruct (decide (m = k)) as [->|Hne].
  - right. unfold write_part. rewrite write_inside by lia. done.
  - destruct Hin as [[->|Hin]%elem_of_cons|Hin]; [done | by left | right]. unfold write_part. rewrite <- Hin. destruct (Nat.lt_ge_cases m k) as [Hmk|Hmk].
    + apply write_after. pose proof (part_at_le m k Hmk). lia.
    + apply write_before. pose proof (part_at_le k m ltac:(lia)). lia.
Qed.

Lemma concat_lookup_part i x : concat data !! i = Some x -> exists k j, (k < length data)%nat /\ nth k data [] !! j = Some x /\ i = (part_at k + j)%nat.
Proof.
  unfold part_at. revert i. induction data as [|d ds IH]; intros i Hi; [done|]. cbn [concat] in Hi. destruct (Nat.lt_ge_cases i (length d)) as [Hd|Hd].
  - exists 0%nat, i. rewrite lookup_app_l in Hi by done. cbn. split_and!; [lia | done | lia].
  - rewrite lookup_app_r in Hi by done. destruct (IH _ Hi) as (k & j & Hk & Hj & E). exists (S k), j. cbn [length nth take concat]. rewrite length_app. split_and!; [lia | done | lia].
Qed.

Lemma scatter order l : (forall k, (k < length data)%nat -> k ∈ order) -> length l = length (concat data) -> foldl write_part l order = concat data.
Proof.
  intros Hin Hl. assert (length (foldl write_part l order) = length (concat data)) as Hlen.
  { clear Hin. revert l Hl. induction order as [|m order IH]; intros l Hl; cbn; [done|]. apply IH. unfold write_part. by rewrite length_write. }
  apply list_eq. intros i. destruct (concat data !! i) as [x|] eqn:E.
  - destruct (concat_lookup_part i x E) as (k & j & Hk & Hj & ->). apply write_part_spec; auto.
  - apply lookup_ge_None_2. apply lookup_ge_None_1 in E. lia.
Qed.

End scatter.

(** ** Rows *)

Definition slot_flag (c : cell) : Z := if negb (cell_slot c =? kNoSlot) then 1 else 0.

(** The output with these cells written from the given places. *)
Definition put (o : Serialized) (a b : nat) (cs : list cell) : Serialized :=
  mkSerialized (if sz_has_rep o then write a (c_rep <$> cs) (sz_rep o) else sz_rep o)
    (if sz_has_def o then write a (c_def <$> cs) (sz_def o) else sz_def o) (sz_layers o)
    (write b (slot <$> nodes cs) (sz_items o))
    (if sz_has_rep o || sz_has_def o then write a (slot_flag <$> cs) (sz_is_slot o) else sz_is_slot o) (sz_has_rep o) (sz_has_def o).

Definition slots_ok (cs : list cell) : Prop := Forall (fun nd => 0 <= slot nd < kNoSlot) (nodes cs).

Lemma slots_ok_app a b : slots_ok (a ++ b) <-> slots_ok a /\ slots_ok b.
Proof. unfold slots_ok. by rewrite nodes_app, Forall_app. Qed.

Lemma push_cells_out s cs :
  slots_ok cs -> 0 <= level_at_ s -> 0 <= item_at_ s -> out_ (foldl push_cell s cs) = put (out_ s) (Z.to_nat (level_at_ s)) (Z.to_nat (item_at_ s)) cs.
Proof.
  revert s. induction cs as [|c cs IH]; intros s Hok Ha Hb.
  { unfold put. cbn. destruct (out_ s) as [? ? ? ? ? [] []]; done. }
  assert (slots_ok cs) as Hok' by (apply (slots_ok_app [c] cs) in Hok; apply Hok). cbn [foldl].
  assert (cell_slot c = kNoSlot /\ c.2 = None \/ exists nd, c.2 = Some nd /\ cell_slot c = slot nd /\ slot nd <> kNoSlot) as Hc.
  { unfold cell_slot. destruct c as [[r d] [nd|]]; [|by left]. right. exists nd. split; [done|]. split; [done|]. apply Forall_inv in Hok. lia. }
  rewrite IH; [|done|..].
  - unfold push_cell, push, put. cbn [out_ level_at_ item_at_ sz_rep sz_def sz_layers sz_items sz_is_slot sz_has_rep sz_has_def fmap list_fmap write].
    unfold slot_flag. fold slot_flag. destruct Hc as [[-> Hc]|(nd & Hc & -> & Hnd)].
    + rewrite Z.eqb_refl. cbn [negb]. replace (nodes (c :: cs)) with (nodes cs) by (unfold nodes; cbn; by rewrite Hc).
      destruct (sz_has_rep (out_ s)), (sz_has_def (out_ s)); cbn [orb write]; rewrite ?Z2Nat.inj_add by lia; rewrite ?Nat.add_1_r; done.
    + rewrite (proj2 (Z.eqb_neq _ _)) by done. cbn [negb]. replace (nodes (c :: cs)) with (nd :: nodes cs) by (unfold nodes; cbn; by rewrite Hc).
      rewrite fmap_cons. cbn [write]. rewrite (Z2Nat.inj_add (item_at_ s)) by lia. rewrite Nat.add_1_r.
      destruct (sz_has_rep (out_ s)), (sz_has_def (out_ s)); cbn [orb write]; rewrite ?Z2Nat.inj_add by lia; rewrite ?Nat.add_1_r; done.
  - unfold push_cell, push. cbn. destruct (_ || _); lia.
  - unfold push_cell, push. cbn. destruct (negb _); lia.
Qed.

Section rows.
  Context (layers : list SerializeLayer) (item_validity : list Z).
  Context (Hcols : Forall (fun l => Forall (fun o => 0 <= o < 2 ^ 62) (default [] (sl_offsets l))) layers).
  Context (Hn : zlen layers < 2 ^ 14).

Notation n := (length layers).
Definition indices (rs : list Z) : Prop := Forall (fun r => 0 <= r < 2 ^ 62) rs.

Definition row_error (r : Z) : option string := entry_error layers 0 r.
Definition row_marks (rs : list Z) : list LayerFlags := foldr or_marks (no_marks n) (marks item_validity layers <$> rs).
Definition row_levels (rs : list Z) : Z := foldr (fun r a => n_levels item_validity layers r + a) 0 rs.
Definition row_slots (rs : list Z) : Z := foldr (fun r a => n_slots item_validity layers r + a) 0 rs.

(** A serializer that has counted these rows. *)
Definition count_rows (rs : list Z) : Serializer := add (new_serializer layers) (row_marks rs) (row_levels rs) (row_slots rs).

Lemma length_row_marks rs : length (row_marks rs) = S n.
Proof. apply length_foldr_marks, Forall_fmap, Forall_forall. intros r _. apply length_marks. Qed.

Lemma visit_rows_count first m :
  indices (seqZ first m) -> visit_rows layers item_validity first m 0 false (new_serializer layers) = outcome (first_some row_error (seqZ first m)) (count_rows (seqZ first m)).
Proof using Hcols Hn.
  intros Hi. unfold visit_rows, count_rows, row_marks, row_levels, row_slots. rewrite <- (foldl_add layers (marks item_validity layers) (n_levels item_validity layers) (n_slots item_validity layers)).
  - apply (fold_res_outcome (fun s => length (flags_ s) = S n)).
    + intros s r Hs Hr. destruct (first_layer_skip layers _ (fun j => counted layers item_validity j r s)) as [Hf1 Hf2].
      { intros j l Hj Hp. by apply (counted_skip layers item_validity r s j l). }
      unfold n_layers. rewrite (visit_count layers item_validity Hcols Hn); [|done|lia|exact (proj1 (Forall_forall _ _) Hi r Hr)|done]. rewrite Hf1. unfold counted. by rewrite drop_0.
    + intros s r Hs Hr. apply add_flags; [done | apply length_marks].
    + apply length_replicate.
  - apply length_replicate.
  - apply Forall_forall. intros r _. apply length_marks.
Qed.

Section numbered_rows.
  Context (item : Z) (L : list Info) (HL : i_list <$> L = is_list <$> layers).

Definition row_cells (rs : list Z) : list cell := concat ((fun r => entry_cells item_validity item L layers r (depth L)) <$> rs).

Lemma row_cells_stage rs : row_cells rs = stage item L [] (entry item_validity layers <$> rs).
Proof. unfold row_cells, stage. by rewrite <- list_fmap_compose. Qed.

Lemma row_cells_app a b : row_cells (a ++ b) = row_cells a ++ row_cells b.
Proof. unfold row_cells. by rewrite fmap_app, concat_app. Qed.

Lemma row_rep_depth : row_rep layers = depth L.
Proof using Hn HL.
  unfold row_rep. rewrite list_depth_spec by lia. pose proof (depth_infos layers L HL 0 ltac:(lia)) as H. by rewrite !drop_0 in H.
Qed.

Lemma visit_rows_emit first m s :
  indices (seqZ first m) -> numbers item L s ->
  visit_rows layers item_validity first m (row_rep layers) true s = outcome (first_some row_error (seqZ first m)) (foldl push_cell s (row_cells (seqZ first m))).
Proof using Hcols Hn HL.
  intros Hi Hs. unfold visit_rows, row_cells. rewrite foldl_concat, row_rep_depth. apply (fold_res_outcome (numbers item L)); [| |done].
  - intros s' r Hs' Hr. destruct (first_layer_skip layers _ (fun j => emitted layers item_validity item L j r (depth L) s')) as [Hf1 Hf2].
    { intros j l Hj Hp. by apply (emitted_skip layers item_validity item L HL r (depth L) s' j l). }
    unfold n_layers. rewrite (visit_emit layers item_validity Hcols Hn item L HL); [|done|lia|exact (proj1 (Forall_forall _ _) Hi r Hr)|done]. rewrite Hf1. unfold emitted. by rewrite !drop_0.
  - intros s' r Hs' Hr. by apply push_cells_numbers.
Qed.

Lemma row_counts rs : row_levels rs = zlen (row_cells rs) /\ row_slots rs = zlen (nodes (row_cells rs)).
Proof using HL.
  induction rs as [|r rs [IH1 IH2]]; [done|]. unfold row_levels, row_slots in *. cbn [foldr]. rewrite IH1, IH2. change (r :: rs) with ([r] ++ rs). rewrite row_cells_app, nodes_app, !zlen_app.
  assert (row_cells [r] = entry_cells item_validity item L layers r (depth L)) as -> by (unfold row_cells; cbn; by rewrite app_nil_r).
  assert (i_list <$> L = i_list <$> shape layers) as HL' by (rewrite HL; unfold shape; by rewrite <- list_fmap_compose).
  destruct (cells_shape (first_def item []) (first_def 0 []) L (shape layers) (entry item_validity layers r) (depth L) 0 HL') as [H1 H2].
  unfold n_levels, n_slots, entry_cells. rewrite H1, H2. done.
Qed.

(** Every slot is an index of the rows or of an offset. *)
Lemma entry_slots ls k idx L' r :
  ls = drop k layers -> i_list <$> L' = is_list <$> ls -> 0 <= idx < 2 ^ 62 -> slots_ok (entry_cells item_validity item L' ls idx r).
Proof using Hcols.
  clear Hn HL L. revert k idx L' r. induction ls as [|l ls IH]; intros k idx [|i L'] r Hk HL' Hi; try done; unfold slots_ok, entry_cells.
  { cbn [cells nodes omap list_omap snd entry]. constructor; [|constructor]. unfold kNoSlot, U64_MAX. destruct (valid_at (Some item_validity) idx); cbn; lia. }
  rewrite !fmap_cons in HL'. injection HL' as Hil HL'. assert (layers !! k = Some l) as Hl.
  { rewrite <- (Nat.add_0_r k), <- lookup_drop, <- Hk. done. }
  assert (ls = drop (S k) layers) as Hls by (rewrite (drop_lookup _ _ _ Hl) in Hk; by injection Hk).
  destruct (valid_at (sl_validity l) idx) eqn:Ev.
  - destruct (is_list l) eqn:El.
    + rewrite entry_list by done. assert (forall c r, c ∈ kids l idx -> slots_ok (cells (first_def item []) L' (entry item_validity ls c) r)) as Hc.
      { intros c r' Hc. apply (IH (S k) c L' r' Hls HL'). by apply (kids_range layers Hcols l k idx). }
      destruct (kids l idx) as [|c cs]; cbn [fmap list_fmap cells]; [by repeat constructor|]. fold (slots_ok (cells (first_def item []) L' (entry item_validity ls c) r ++ concat ((fun t => cells (first_def item []) L' t (depth L')) <$> (entry item_validity ls <$> cs)))).
      apply slots_ok_app. split; [apply Hc; set_solver|]. assert (forall c, c ∈ cs -> slots_ok (cells (first_def item []) L' (entry item_validity ls c) (depth L'))) as Hcs by (intros; apply Hc; set_solver).
      clear - Hcs. induction cs as [|c cs IHc]; [by repeat constructor|]. cbn [fmap list_fmap concat]. apply slots_ok_app. split; [apply Hcs; set_solver | apply IHc; intros; apply Hcs; set_solver].
    + cbn [entry]. rewrite Ev, El. cbn [negb cells]. apply (IH (S k) idx L' r Hls HL' Hi).
  - cbn [entry]. rewrite Ev. cbn [negb cells]. rewrite Hil. replace (0 <? depth L') with (existsb is_list ls).
    + destruct (is_list l || existsb is_list ls); cbn; repeat constructor; cbn; unfold kNoSlot, U64_MAX; lia.
    + rewrite <- depth_shape. f_equal. rewrite Hls in HL' |- *. pose proof (depth_infos (drop (S k) layers) L' HL' 0 ltac:(lia)) as H. rewrite !drop_0 in H. done.
Qed.

Lemma row_slots_ok rs : indices rs -> slots_ok (row_cells rs).
Proof using Hcols HL.
  induction 1 as [|r rs Hr _ IH]; [by repeat constructor|]. change (r :: rs) with ([r] ++ rs). rewrite row_cells_app. apply slots_ok_app. split; [|exact IH].
  unfold row_cells. cbn. rewrite app_nil_r. apply (entry_slots layers 0); [done | done | done].
Qed.

End numbered_rows.

(** ** The whole of [serialize] *)

(** The numbering of these rows, and the levels they are written as. *)
Definition numbering (rs : list Z) : Z * list Info := infos layers (row_marks rs).

Definition levels_of (rs : list Z) : Serialized :=
  let '(item, L) := numbering rs in
  let S := row_cells item L rs in
  let has_rep := 0 <? depth L in
  let has_def := 0 <? top item L in
  mkSerialized (if has_rep then c_rep <$> S else []) (defs has_def S) (kinds item L) (slot <$> nodes S)
    (if has_rep || has_def then slot_flag <$> S else []) has_rep has_def.

(** The serializer once it has counted these rows and numbered the levels. *)
Lemma assign_rows rs :
  let '(item, L) := numbering rs in
  let zero (m : Z) := replicate (Z.to_nat m) 0 in
  let has_rep := 0 <? depth L in
  let has_def := 0 <? top item L in
  assign_levels layers (count_rows rs) =
  mkSerializer (row_marks rs) (row_levels rs) (row_slots rs) ((i_null <$> L) ++ [item]) ((i_empty <$> L) ++ [0])
    (mkSerialized (if has_rep then zero (row_levels rs) else []) (if has_def then zero (row_levels rs) else []) (kinds item L) (zero (row_slots rs))
       (if has_rep || has_def then zero (row_levels rs) else []) has_rep has_def) 0 0.
Proof using Hn.
  unfold numbering, assign_levels. assert (flags_ (count_rows rs) = row_marks rs) as ->.
  { unfold count_rows, add. cbn [flags_ new_serializer]. unfold n_layers. by apply (or_marks_no_l _ n), length_row_marks. }
  pose proof (infos_numbered layers (row_marks rs) (length_row_marks rs)) as Hi. rewrite (assign_loop_infos layers (row_marks rs) (length_row_marks rs) Hn).
  destruct (infos layers (row_marks rs)) as [item L]. destruct Hi as (_ & HL & Htop). fold (row_rep layers). rewrite (row_rep_depth L HL).
  pose proof (depth_nonneg L). replace (negb (depth L =? 0)) with (0 <? depth L) by (destruct (Z.eqb_spec (depth L) 0) as [E|E]; [by rewrite E | by apply Z.ltb_lt; lia]).
  replace (1 <? top item L + 1) with (0 <? top item L) by (destruct (Z.ltb_spec 0 (top item L)); symmetry; [apply Z.ltb_lt | apply Z.ltb_ge]; lia).
  done.
Qed.

Lemma put_all item L rs :
  i_list <$> L = is_list <$> layers -> numbering rs = (item, L) ->
  put (out_ (assign_levels layers (count_rows rs))) 0 0 (row_cells item L rs) = levels_of rs.
Proof using Hn.
  intros HL Hnum. pose proof (assign_rows rs) as Ha. unfold levels_of. rewrite Hnum in *. cbv zeta in Ha. rewrite Ha. clear Ha. cbn [out_]. unfold put. cbn [sz_rep sz_def sz_layers sz_items sz_is_slot sz_has_rep sz_has_def].
  destruct (row_counts item L HL rs) as [Hlv Hsl]. rewrite Hlv, Hsl. unfold zlen. rewrite !Nat2Z.id. unfold defs.
  destruct (0 <? depth L), (0 <? top item L); cbn [orb]; rewrite !write_all by (by rewrite ?length_fmap, length_replicate); done.
Qed.

Lemma sequential first m :
  indices (seqZ first m) ->
  (s ← visit_rows layers item_validity first m 0 false (new_serializer layers);
   s ← visit_rows layers item_validity first m (row_rep layers) true (assign_levels layers s);
   Ok (out_ s)) = outcome (first_some row_error (seqZ first m)) (levels_of (seqZ first m)).
Proof using Hcols Hn.
  intros Hi. rewrite visit_rows_count by done. set (rs := seqZ first m) in *. unfold mbind at 1, res_bind at 1. destruct (first_some row_error rs) as [e|] eqn:Ee; [done|]. cbn [outcome].
  pose proof (infos_numbered layers (row_marks rs) (length_row_marks rs)) as Hinf. fold (numbering rs) in Hinf. destruct (numbering rs) as [item L] eqn:Enum. destruct Hinf as (_ & HL & _).
  pose proof (assign_rows rs) as Ha. rewrite Enum in Ha. cbv zeta in Ha. rewrite (visit_rows_emit item L HL) by (done || by rewrite Ha). fold rs. rewrite Ee. cbn [outcome]. unfold mbind, res_bind. f_equal.
  rewrite push_cells_out; [|by apply row_slots_ok | by rewrite Ha..]. replace (level_at_ (assign_levels layers (count_rows rs))) with 0 by (by rewrite Ha).
  replace (item_at_ (assign_levels layers (count_rows rs))) with 0 by (by rewrite Ha). by apply put_all.
Qed.

(** *** In parts *)

Lemma first_error_outcome {A} (err : A -> option string) (g : A -> Serializer) xs :
  first_error ((fun x => outcome (err x) (g x)) <$> xs) = outcome (first_some err xs) (g <$> xs).
Proof.
  unfold first_error. assert (forall acc, fold_res (fun done r => s ← r; Ok (done ++ [s])) ((fun x => outcome (err x) (g x)) <$> xs) acc = outcome (first_some err xs) (acc ++ (g <$> xs))) as H; [|apply H].
  induction xs as [|x xs IH]; intros acc; cbn [fmap list_fmap fold_res]; [by rewrite app_nil_r|]. rewrite first_some_cons. unfold outcome at 1. destruct (err x); [done|].
  etrans; [apply (IH (acc ++ [g x]))|]. by rewrite <- app_assoc.
Qed.

Lemma first_some_concat (rss : list (list Z)) : first_some (first_some row_error) rss = first_some row_error (concat rss).
Proof. induction rss as [|rs rss IH]; [done|]. cbn [concat]. rewrite first_some_cons, first_some_app, IH. done. Qed.

Lemma row_marks_app a b : row_marks (a ++ b) = or_marks (row_marks a) (row_marks b).
Proof.
  unfold row_marks. induction a as [|r a IH]; cbn [app fmap list_fmap foldr]; [|by rewrite IH, or_marks_assoc].
  symmetry. apply (or_marks_no_l _ n). apply (length_row_marks b).
Qed.
Lemma row_levels_app a b : row_levels (a ++ b) = row_levels a + row_levels b.
Proof. unfold row_levels. induction a as [|r a IH]; cbn; [done|]. rewrite IH. lia. Qed.
Lemma row_slots_app a b : row_slots (a ++ b) = row_slots a + row_slots b.
Proof. unfold row_slots. induction a as [|r a IH]; cbn; [done|]. rewrite IH. lia. Qed.

Lemma merge_rows a b : merge_counts (count_rows a) (count_rows b) = count_rows (a ++ b).
Proof.
  unfold merge_counts, count_rows, add. cbn [flags_ levels_ items_ null_level_ empty_level_ out_ level_at_ item_at_ new_serializer]. rewrite row_marks_app, row_levels_app, row_slots_app.
  assert (forall rs, or_marks (replicate (S n) no_flags) (row_marks rs) = row_marks rs) as H by (intros rs; apply (or_marks_no_l _ n), length_row_marks).
  unfold n_layers. rewrite !H. fold (or_marks (row_marks a) (row_marks b)). rewrite (or_marks_no_l _ n) by (rewrite length_or_marks, !length_row_marks; lia). f_equal; lia.
Qed.

Lemma merge_all rs rss : foldl merge_counts (count_rows rs) (count_rows <$> rss) = count_rows (rs ++ concat rss).
Proof. revert rs. induction rss as [|r rss IH]; intros rs; cbn; [by rewrite app_nil_r|]. by rewrite merge_rows, IH, app_assoc. Qed.

Lemma adopt_parts_lookup from a b rss k rs :
  rss !! k = Some rs ->
  adopt_parts from a b (count_rows <$> rss) !! k =
  Some (adopt_levels (count_rows rs) from (a + row_levels (concat (take k rss))) (b + row_slots (concat (take k rss)))).
Proof.
  revert a b k. induction rss as [|r rss IH]; intros a b k Hk; [done|]. destruct k as [|k]; cbn [fmap list_fmap adopt_parts lookup list_lookup take concat] in *.
  - injection Hk as ->. change (row_levels []) with 0. change (row_slots []) with 0. by rewrite !Z.add_0_r.
  - rewrite (IH _ _ _ Hk), row_levels_app, row_slots_app. cbn [levels_ items_ count_rows add new_serializer]. do 2 f_equal; lia.
Qed.

(** The parts of the second pass: the first is the one that numbered the levels. *)
Definition second_pass (all : Serializer) (rss : list (list Z)) : list Serializer :=
  match rss with [] => [] | rs :: rest => all :: adopt_parts all (row_levels rs) (row_slots rs) (count_rows <$> rest) end.

Lemma second_pass_lookup all rss k rs :
  rss !! k = Some rs -> level_at_ all = 0 -> item_at_ all = 0 ->
  exists s, second_pass all rss !! k = Some s /\ null_level_ s = null_level_ all /\ empty_level_ s = empty_level_ all /\
    level_at_ s = row_levels (concat (take k rss)) /\ item_at_ s = row_slots (concat (take k rss)).
Proof.
  intros Hk Hl Hi. destruct rss as [|rs0 rest]; [done|]. destruct k as [|k]; [exists all; done|]. cbn in Hk.
  exists (adopt_levels (count_rows rs) all (row_levels rs0 + row_levels (concat (take k rest))) (row_slots rs0 + row_slots (concat (take k rest)))).
  split; [apply (adopt_parts_lookup _ _ _ _ _ _ Hk)|]. cbn [take concat]. rewrite row_levels_app, row_slots_app. done.
Qed.

Section parts.
  Context (item : Z) (L : list Info) (HL : i_list <$> L = is_list <$> layers) (rss : list (list Z)).
  Context (Hrss : Forall indices rss).

Definition put_part (o : Serialized) (k : nat) : Serialized :=
  put o (Z.to_nat (row_levels (concat (take k rss)))) (Z.to_nat (row_slots (concat (take k rss)))) (row_cells item L (nth k rss [])).

(** The parts of a vector of one entry per level. *)
Definition parts_of {A} (f : list cell -> list A) : list (list A) := (fun rs => f (row_cells item L rs)) <$> rss.

Lemma foldl_put order o :
  foldl put_part o order =
  mkSerialized
    (if sz_has_rep o then foldl (write_part (parts_of (fmap c_rep))) (sz_rep o) order else sz_rep o)
    (if sz_has_def o then foldl (write_part (parts_of (fmap c_def))) (sz_def o) order else sz_def o) (sz_layers o)
    (foldl (write_part (parts_of (fun cs => slot <$> nodes cs))) (sz_items o) order)
    (if sz_has_rep o || sz_has_def o then foldl (write_part (parts_of (fmap slot_flag))) (sz_is_slot o) order else sz_is_slot o) (sz_has_rep o) (sz_has_def o).
Proof using HL.
  revert o. induction order as [|k order IH]; intros o; cbn [foldl].
  { destruct o as [? ? ? ? ? [] []]; done. }
  rewrite IH. assert (forall (f : list cell -> list Z) (g : list cell -> nat), (forall cs, length (f cs) = g cs) -> (forall a b, g (a ++ b) = g a + g b)%nat -> g [] = 0%nat ->
    part_at (parts_of f) k = g (row_cells item L (concat (take k rss)))) as Hat.
  { intros f g Hf Hg H0. unfold part_at, parts_of. rewrite <- fmap_take. generalize (take k rss). induction l as [|rs l IHl]; cbn [fmap list_fmap concat]; [unfold row_cells; cbn; by rewrite H0|].
    rewrite length_app, Hf, IHl, row_cells_app, Hg. done. }
  assert (forall f : list cell -> list Z, f [] = [] -> nth k (parts_of f) [] = f (row_cells item L (nth k rss []))) as Hnth.
  { intros f Hf. unfold parts_of. rewrite !nth_lookup, list_lookup_fmap. destruct (rss !! k); [done|]. cbn. unfold row_cells. cbn. by rewrite Hf. }
  destruct (row_counts item L HL (concat (take k rss))) as [Hlv Hsl].
  assert (forall f : cell -> Z, part_at (parts_of (fmap f)) k = Z.to_nat (row_levels (concat (take k rss)))) as Hlevel.
  { intros f. rewrite Hlv. unfold zlen. rewrite Nat2Z.id. apply Hat; [intros; apply length_fmap | intros; apply length_app | done]. }
  assert (part_at (parts_of (fun cs => slot <$> nodes cs)) k = Z.to_nat (row_slots (concat (take k rss)))) as Hslot.
  { rewrite Hsl. unfold zlen. rewrite Nat2Z.id. apply (Hat _ (fun cs => length (nodes cs))); [intros; apply length_fmap | intros; by rewrite nodes_app, length_app | done]. }
  unfold put_part, put. cbn [sz_rep sz_def sz_layers sz_items sz_is_slot sz_has_rep sz_has_def]. 
  assert (forall (f : list cell -> list Z) l, write_part (parts_of f) l k = write (part_at (parts_of f) k) (nth k (parts_of f) []) l) as Hw by done.
  rewrite !Hw, !Hlevel, Hslot, !Hnth by done.
  destruct (sz_has_rep o), (sz_has_def o); done.
Qed.

Lemma concat_parts {A} (f : list cell -> list A) : (forall a b, f (a ++ b) = f a ++ f b) -> f [] = [] -> concat (parts_of f) = f (row_cells item L (concat rss)).
Proof.
  intros Hf H0. unfold parts_of. clear Hrss. induction rss as [|rs l IH]; cbn [fmap list_fmap concat]; [done|]. by rewrite IH, row_cells_app, Hf.
Qed.

Lemma put_parts order :
  (forall k, (k < length rss)%nat -> k ∈ order) -> numbering (concat rss) = (item, L) ->
  foldl put_part (out_ (assign_levels layers (count_rows (concat rss)))) order = levels_of (concat rss).
Proof using HL Hn.
  intros Horder Hnum. rewrite foldl_put. pose proof (assign_rows (concat rss)) as Ha. unfold levels_of. rewrite Hnum in *. cbv zeta in Ha. rewrite Ha. clear Ha.
  cbn [out_ sz_rep sz_def sz_layers sz_items sz_is_slot sz_has_rep sz_has_def]. destruct (row_counts item L HL (concat rss)) as [Hlv Hsl]. rewrite Hlv, Hsl.
  assert (forall (f : list cell -> list Z) l, (forall a b, f (a ++ b) = f a ++ f b) -> f [] = [] -> length l = length (f (row_cells item L (concat rss))) ->
    foldl (write_part (parts_of f)) l order = f (row_cells item L (concat rss))) as Hs.
  { intros f l Hf H0 Hl. rewrite <- (concat_parts f) by done. apply scatter; [|by rewrite (concat_parts f)]. unfold parts_of. rewrite length_fmap. done. }
  rewrite (Hs (fun cs => slot <$> nodes cs)).
  2: { intros. by rewrite nodes_app, fmap_app. }
  2: { done. }
  2: { rewrite length_replicate, length_fmap. unfold zlen. by rewrite Nat2Z.id. }
  unfold defs. destruct (0 <? depth L), (0 <? top item L); cbn [orb]; rewrite ?Hs; try done;
    try (intros; apply fmap_app); try (rewrite length_replicate, length_fmap; unfold zlen; by rewrite Nat2Z.id).
Qed.

End parts.

(** The second pass of every part, in any order. *)
Lemma emit_parts_put item L first_row num_rows parts order rss :
  i_list <$> L = is_list <$> layers -> numbering (concat rss) = (item, L) -> Forall indices rss -> first_some row_error (concat rss) = None ->
  (forall k, k ∈ order -> (k < length rss)%nat) ->
  (forall k, (k < length rss)%nat -> nth k rss [] = seqZ (row_of first_row num_rows parts (Z.of_nat k))
    (row_of first_row num_rows parts (Z.of_nat k + 1) - row_of first_row num_rows parts (Z.of_nat k))) ->
  let all := assign_levels layers (count_rows (concat rss)) in
  forall o, emit_parts layers item_validity first_row num_rows parts order (second_pass all rss) o = Ok (foldl (put_part item L rss) o order).
Proof using Hcols Hn.
  intros HL Hnum Hrss Hnone Horder Hrows all. pose proof (assign_rows (concat rss)) as Ha. rewrite Hnum in Ha. cbv zeta in Ha. fold all in Ha.
  unfold emit_parts. induction order as [|k order IH]; intros o; [done|]. cbn [fold_res foldl]. assert (k < length rss)%nat as Hk by (apply Horder; set_solver).
  destruct (lookup_lt_is_Some_2 rss k Hk) as [rs Hrs]. 
  destruct (second_pass_lookup all rss k rs Hrs) as (s0 & -> & Hn0 & He0 & Hl0 & Hi0); [by rewrite Ha..|].
  assert (nth k rss [] = rs) as Hnth by (by rewrite nth_lookup, Hrs). specialize (Hrows k Hk). rewrite Hnth in Hrows.
  set (s := with_out s0 o).
  assert (numbers item L s) as Hs by (subst s; unfold numbers; cbn [null_level_ empty_level_ with_out]; by rewrite Hn0, He0, Ha).
  assert (first_some row_error rs = None) as Herr.
  { rewrite <- (take_drop_middle rss k rs Hrs), concat_app, first_some_app in Hnone. cbn [concat] in Hnone. rewrite first_some_app in Hnone.
    destruct (first_some row_error (concat (take k rss))); [done|]. by destruct (first_some row_error rs). }
  unfold part_rows. pose proof (proj1 (Forall_lookup _ _) Hrss k rs Hrs) as Hi. rewrite Hrows in Hi. rewrite (visit_rows_emit item L HL) by done. rewrite <- Hrows, Herr. cbn [outcome].
  etrans; [|apply IH; intros; apply Horder; set_solver]. unfold mbind, res_bind. f_equal. rewrite <- Hrows in Hi.
  assert (forall rs', 0 <= row_levels rs' /\ 0 <= row_slots rs') as Hnn.
  { intros rs'. destruct (row_counts item L HL rs') as [-> ->]. split; apply zlen_nonneg. }
  rewrite push_cells_out; [|by apply row_slots_ok | subst s; cbn [level_at_ with_out]; rewrite Hl0; apply Hnn | subst s; cbn [item_at_ with_out]; rewrite Hi0; apply Hnn].
  unfold put_part. subst s. cbn [level_at_ item_at_ with_out RepDef.out_]. by rewrite Hnth, Hl0, Hi0.
Qed.

Section threads.
  Context (first_row num_rows parts : Z).
  Context (Hfirst : 0 <= first_row) (Hnum_rows : 0 <= num_rows) (Hlast : first_row + num_rows < 2 ^ 62) (Hparts : 1 <= parts) (Hmul : num_rows * parts < 2 ^ 64).

Lemma row_of_spec k : 0 <= k <= parts -> row_of first_row num_rows parts k = first_row + num_rows * k / parts /\ 0 <= num_rows * k / parts <= num_rows.
Proof using Hfirst Hnum_rows Hlast Hparts Hmul.
  intros Hk. assert (0 <= num_rows * k <= num_rows * parts) as Hm by nia. assert (0 <= num_rows * k / parts <= num_rows) as Hd.
  { split; [apply Z.div_pos; lia|]. apply Z.div_le_upper_bound; nia. }
  split; [|done]. unfold row_of. rewrite (u64_small (num_rows * k)) by (unfold is_u64; lia). apply u64_small. unfold is_u64. lia.
Qed.

Lemma row_of_mono k : 0 <= k < parts -> row_of first_row num_rows parts k <= row_of first_row num_rows parts (k + 1).
Proof using Hfirst Hnum_rows Hlast Hparts Hmul.
  intros Hk. rewrite (proj1 (row_of_spec k ltac:(lia))), (proj1 (row_of_spec (k + 1) ltac:(lia))). apply Z.add_le_mono_l, Z.div_le_mono; nia.
Qed.

Definition part_range (k : nat) : list Z :=
  seqZ (row_of first_row num_rows parts (Z.of_nat k)) (row_of first_row num_rows parts (Z.of_nat k + 1) - row_of first_row num_rows parts (Z.of_nat k)).

Lemma part_ranges m : Z.of_nat m <= parts -> concat (part_range <$> seq 0 m) = seqZ first_row (row_of first_row num_rows parts (Z.of_nat m) - first_row).
Proof using Hfirst Hnum_rows Hlast Hparts Hmul.
  induction m as [|m IH]; intros Hm.
  - cbn [seq fmap list_fmap concat]. change (Z.of_nat 0) with 0. rewrite (proj1 (row_of_spec 0 ltac:(lia))), Z.mul_0_r, Z.div_0_l by lia. rewrite seqZ_nil by lia. done.
  - rewrite seq_S, fmap_app, concat_app, IH by lia. cbn [fmap list_fmap concat Nat.add]. rewrite app_nil_r. unfold part_range. replace (Z.of_nat (S m)) with (Z.of_nat m + 1) by lia.
    pose proof (row_of_mono (Z.of_nat m) ltac:(lia)). destruct (row_of_spec (Z.of_nat m) ltac:(lia)) as [Hr ?].
    replace (row_of first_row num_rows parts (Z.of_nat m + 1) - first_row) with ((row_of first_row num_rows parts (Z.of_nat m) - first_row) + (row_of first_row num_rows parts (Z.of_nat m + 1) - row_of first_row num_rows parts (Z.of_nat m))) by lia.
    rewrite seqZ_app by lia. by rewrite Zplus_minus.
Qed.

Lemma all_ranges : concat (part_range <$> seq 0 (Z.to_nat parts)) = seqZ first_row num_rows.
Proof using Hfirst Hnum_rows Hlast Hparts Hmul.
  rewrite part_ranges by lia. rewrite Z2Nat.id by lia. rewrite (proj1 (row_of_spec parts ltac:(lia))), Z.div_mul by lia. by rewrite Z.add_simpl_l.
Qed.

Lemma range_indices m n' : 0 <= m -> m + n' < 2 ^ 62 -> indices (seqZ m n').
Proof. intros H1 H2. apply Forall_forall. intros r Hr%elem_of_seqZ. lia. Qed.

Lemma parts_indices k : Z.of_nat k < parts -> indices (part_range k).
Proof using Hfirst Hnum_rows Hlast Hparts Hmul.
  intros Hk. unfold part_range. destruct (row_of_spec (Z.of_nat k) ltac:(lia)). destruct (row_of_spec (Z.of_nat k + 1) ltac:(lia)). apply range_indices; lia.
Qed.

Lemma serialize_parts_spec order :
  order ≡ₚ seq 0 (Z.to_nat parts) ->
  serialize_parts layers item_validity first_row num_rows parts order = outcome (first_some row_error (seqZ first_row num_rows)) (levels_of (seqZ first_row num_rows)).
Proof using Hcols Hn Hfirst Hnum_rows Hlast Hparts Hmul.
  intros Horder. unfold serialize_parts. set (ks := seq 0 (Z.to_nat parts)) in *. set (rss := part_range <$> ks).
  assert (concat rss = seqZ first_row num_rows) as Hall by apply all_ranges.
  assert (forall k, k ∈ ks -> Z.of_nat k < parts) as Hks by (intros k Hk%elem_of_seq; lia).
  replace ((fun k => part_rows layers item_validity first_row num_rows parts k 0 false (new_serializer layers)) <$> ks)
    with ((fun rs => outcome (first_some row_error rs) (count_rows rs)) <$> rss).
  2: { subst rss. rewrite <- list_fmap_compose. apply list_fmap_ext. intros i k Hk. unfold compose, part_rows. rewrite visit_rows_count; [done|].
       apply parts_indices, Hks. by eapply list_elem_of_lookup_2. }
  rewrite (first_error_outcome (first_some row_error) count_rows), first_some_concat, Hall. unfold mbind, res_bind. destruct (first_some row_error (seqZ first_row num_rows)) as [e|] eqn:Ee; [done|]. cbn [outcome].
  assert (length rss = Z.to_nat parts) as Hlen by (subst rss ks; by rewrite length_fmap, length_seq).
  pose proof (infos_numbered layers (row_marks (concat rss)) (length_row_marks (concat rss))) as Hinf. fold (numbering (concat rss)) in Hinf.
  destruct (numbering (concat rss)) as [item L] eqn:Enum. destruct Hinf as (_ & HL & _).
  assert (emit_parts layers item_validity first_row num_rows parts order (second_pass (assign_levels layers (count_rows (concat rss))) rss) (out_ (assign_levels layers (count_rows (concat rss)))) =
    Ok (levels_of (seqZ first_row num_rows))) as Hemit.
  { rewrite (emit_parts_put item L); [|done|done|..].
    - f_equal. rewrite <- Hall. apply put_parts; [done| |done]. intros k Hk. rewrite Horder. apply elem_of_seq. lia.
    - subst rss. apply Forall_fmap, Forall_forall. intros k Hk. apply parts_indices. by apply Hks.
    - by rewrite Hall.
    - intros k Hk. rewrite Horder in Hk. apply elem_of_seq in Hk. lia.
    - intros k Hk. subst rss. rewrite nth_lookup, list_lookup_fmap. subst ks. rewrite lookup_seq_lt by lia. done. }
  destruct rss as [|rs0 rest] eqn:Erss; [cbn in Hlen; lia|]. cbn [fmap list_fmap] in *. rewrite merge_all. exact Hemit.
Qed.

End threads.

(** [order] runs each part of the second pass once. *)
Definition part_order (threads num_rows : Z) (order : list nat) : Prop :=
  order ≡ₚ seq 0 (Z.to_nat (Z.min threads (num_rows / kRowsPerPart))).

(** [serialize] is a function of the rows. *)
Lemma serialize_spec threads order first_row num_rows :
  0 <= first_row -> 0 <= num_rows -> first_row + num_rows < 2 ^ 62 -> num_rows * threads < 2 ^ 64 ->
  part_order threads num_rows order ->
  serialize layers item_validity threads order first_row num_rows =
  (_ ← check_layers layers first_row num_rows; outcome (first_some row_error (seqZ first_row num_rows)) (levels_of (seqZ first_row num_rows))).
Proof using Hcols Hn.
  intros Hf Hnr Hlast Hmul Horder. unfold serialize, mbind at 1 4, res_bind at 1 4. destruct (check_layers layers first_row num_rows) as [[]|]; [|done].
  destruct (Z.ltb_spec 1 (Z.min threads (num_rows / kRowsPerPart))) as [Hp|Hp].
  - apply serialize_parts_spec; try done; try lia. nia.
  - apply sequential. apply range_indices; lia.
Qed.

(** however many threads there are, and in whatever order their parts are run, [serialize] gives
    what one thread gives: the same levels and items, or the same error, that of the first row that has one. *)
Theorem serialize_parallel threads order first_row num_rows :
  0 <= first_row -> 0 <= num_rows -> first_row + num_rows < 2 ^ 62 -> num_rows * threads < 2 ^ 64 ->
  part_order threads num_rows order ->
  serialize layers item_validity threads order first_row num_rows = serialize layers item_validity 0 [] first_row num_rows.
Proof using Hcols Hn.
  intros Hf Hnr Hl Hm Ho. rewrite (serialize_spec threads) by done. symmetry. apply serialize_spec; try done; [lia|].
  unfold part_order. rewrite Z.min_l by (apply Z.div_pos; unfold kRowsPerPart; lia). done.
Qed.

(** The rows of a column whose offsets are in range and do not decrease, where it is read. *)
Definition readable (first_row num_rows : Z) : Prop :=
  check_layers layers first_row num_rows = Ok tt /\ first_some row_error (seqZ first_row num_rows) = None.

(** C27: (roundtrip): the rows of a nested column whose offsets are in order are serialized, and unravelling the levels
    gives the rows back: as many rows, each the same nesting of structs, lists (empty ones included), nulls and
    items, item [i] of the page being leaf [items[i]] of the column. *)
Theorem repdef_roundtrip threads order first_row num_rows :
  0 <= first_row -> 0 <= num_rows -> first_row + num_rows < 2 ^ 62 -> num_rows * threads < 2 ^ 64 ->
  part_order threads num_rows order -> readable first_row num_rows ->
  exists o, serialize layers item_validity threads order first_row num_rows = Ok o /\
    (zlen (sz_items o) < kInferItems ->
     exists out, unravel (sz_rep o) (sz_has_rep o) (sz_def o) (sz_has_def o) (sz_layers o) (zlen (sz_items o)) = Ok out /\
       back_length out = num_rows /\
       (fun j => value (fun i => nth (Z.to_nat i) (sz_items o) 0) (read_entry out j)) <$> seqZ 0 num_rows =
       (fun r => value (fun s => s) (entry item_validity layers r)) <$> seqZ first_row num_rows).
Proof using Hcols Hn.
  intros Hf Hnr Hl Hm Ho [Hcheck Hnone]. rewrite serialize_spec, Hcheck, Hnone by done. exists (levels_of (seqZ first_row num_rows)). split; [done|].
  set (rs := seqZ first_row num_rows) in *. unfold levels_of. pose proof (infos_numbered layers (row_marks rs) (length_row_marks rs)) as Hinf. fold (numbering rs) in Hinf.
  assert (forall r, r ∈ rs -> let '(item, L) := numbering rs in typed item L (entry item_validity layers r)) as Htyped.
  { intros r Hr. apply typed_entry. apply covers_foldr; [apply Forall_fmap, Forall_forall; intros; apply length_marks|]. by apply list_elem_of_fmap_2. }
  destruct (numbering rs) as [item L]. destruct Hinf as (Hnum & HL & Htop). cbn [sz_rep sz_def sz_layers sz_items sz_is_slot sz_has_rep sz_has_def].
  set (S := row_cells item L rs). intros Hitems. set (f := fun i => nth (Z.to_nat i) (slot <$> nodes S) 0).
  assert (zlen (slot <$> nodes S) = zlen (nodes S)) as Hz by (unfold zlen; by rewrite length_fmap).
  assert (depth L <= zlen layers) as Hdl.
  { unfold depth, zlen. apply inj_le. etrans; [apply length_filter|]. by rewrite (length_infos layers L HL). }
  destruct (unravel_rows (0 <? depth L) (0 <? top item L) item (zlen (slot <$> nodes S)) L (entry item_validity layers <$> rs) f) as (out & Hout & Hrep); try done.
  - apply Forall_fmap, Forall_forall. intros r Hr. by apply Htyped.
  - lia.
  - lia.
  - intros E. apply Z.ltb_ge in E. lia.
  - lia.
  - by rewrite <- row_cells_stage.
  - intros j nd Hj. rewrite <- row_cells_stage in Hj. fold S in Hj. subst f. cbv beta. rewrite Nat2Z.id, nth_lookup, list_lookup_fmap, Hj. done.
  - rewrite <- row_cells_stage in Hout. fold S in Hout. exists out. split; [exact Hout|]. destruct Hrep as [Hlen Hrep].
    assert (zlen rs = num_rows) as Hrs by (by apply zlen_seqZ). split.
    + rewrite Hlen, <- Hrs. unfold zlen. by rewrite !length_fmap.
    + apply list_eq. intros i. rewrite !list_lookup_fmap. destruct (rs !! i) as [r|] eqn:Ei.
      * apply lookup_lt_Some in Ei as Hi. rewrite lookup_seqZ_lt by (unfold zlen in Hrs; lia). cbn [fmap option_fmap option_map]. f_equal. rewrite Z.add_0_l. apply Hrep.
        by rewrite !list_lookup_fmap, Ei.
      * apply lookup_ge_None in Ei. rewrite lookup_seqZ_ge by (unfold zlen in Hrs; lia). done.
Qed.

End rows.

(** A struct of lists of nullable items, with a null struct, a null list, an empty one and a null item. *)
Definition sample_layers : list SerializeLayer :=
  [mkSerializeLayer false None (Some [29]); mkSerializeLayer true (Some [0; 2; 2; 2; 2; 3]) (Some [23])].

Lemma serialize_parallel_witness :
  part_order 2 16384 [1%nat; 0%nat] /\
  serialize [mkSerializeLayer false None (Some [29])] [5] 2 [1%nat; 0%nat] 0 16384 = serialize [mkSerializeLayer false None (Some [29])] [5] 0 [] 0 16384.
Proof.
  assert (part_order 2 16384 [1%nat; 0%nat]) as Ho by apply perm_swap. split; [exact Ho|].
  apply serialize_parallel; [| | | | | |exact Ho]; try done; try lia.
  repeat constructor; cbn; lia.
Defined.

Lemma repdef_roundtrip_witness :
  exists o, serialize sample_layers [5] 1 [] 0 5 = Ok o /\
    (zlen (sz_items o) < kInferItems ->
     exists out, unravel (sz_rep o) (sz_has_rep o) (sz_def o) (sz_has_def o) (sz_layers o) (zlen (sz_items o)) = Ok out /\
       back_length out = 5 /\
       (fun j => value (fun i => nth (Z.to_nat i) (sz_items o) 0) (read_entry out j)) <$> seqZ 0 5 =
       (fun r => value (fun s => s) (entry [5] sample_layers r)) <$> seqZ 0 5).
Proof.
  apply repdef_roundtrip; [|done|done|done|done|done|by apply Permutation_refl|].
  - repeat constructor; cbn; lia.
  - split; reflexivity.
Defined.

End RepDefRoundtrip.
