(* ===== verification/DatasetFiles.v ===== *)
(** * DatasetFiles: the directories of datasets (src/table/dataset_refs.cpp, its file helpers)

    A tree of files under their full paths, local ones and objects of a store, with the listing, reading,
    copying and removing that tags, branches, clones and the clean-up are made of. What the I/O layer may
    report while an operation runs is an argument ([Io]). *)

From S2P Require Import Prelude Json ReadSafety Pb ManifestFile Publish.

Module Files.
Import ManifestFile.

(** ** The tree *)

Record file := mkFile { content : list Z; modified_ns : Z }.

(** [dirs]: the local directories; a store has none. *)
Record tree := mkTree { files : gmap string file; dirs : gset string }.

Definition put (path : string) (f : file) (t : tree) : tree := mkTree (<[path := f]> (files t)) (dirs t).
Definition remove (path : string) (t : tree) : tree := mkTree (delete path (files t)) (dirs t).

(** The clock, the answers of the I/O layer and the faults an operation meets. *)
Record Io := mkIo {
  now_ns : Z;
  is_object_store_output : string -> bool;
  weakly_canonical : string -> option string;
  list_fault : string -> option string;
  unreadable : string -> bool;
  vanished : string -> bool;               (* removed by another process after it was listed *)
  write_fault : string -> option string;
  remove_fault : string -> option string;
  lookup_fault : string -> bool;           (* the listing of [manifest_file_of] fails, whatever other listings of the directory do *)
  put_lands : string -> bool               (* an object store's create-only put that fails stored the object, its replies lost *)
}.

Section files.
  Context (io : Io).

Definition on_object_store (path : string) : bool := is_object_store_output io path.

(** ** Paths *)

(** [p] relative to the directory [dir], when it is under it. *)
Definition below (dir p : string) : option string := r ← Json.literal (path_join dir "") p; if String.eqb r "" then None else Some r.

(** The first component of a relative path, and what follows its slash. *)
Fixpoint split_slash (p : string) : string * option string :=
  match p with
  | "" => ("", None)
  | String c p => if Json.char_is c 47 then ("", Some p) else let '(name, rest) := split_slash p in (String c name, rest)
  end.

(** [fs::path::parent_path] of a path without a trailing slash. *)
Fixpoint last_slash (p : string) : option string :=
  match p with
  | "" => None
  | String c p =>
      match last_slash p with
      | Some parent => Some (String c parent)
      | None => if Json.char_is c 47 then Some "" else None
      end
  end.
Definition parent_path (p : string) : string :=
  match last_slash p with None => "" | Some "" => "/" | Some parent => parent end.

(** The components of a path. *)
Fixpoint split (p : string) : list string :=
  match p with
  | "" => [""]
  | String c p =>
      if Json.char_is c 47 then "" :: split p
      else match split p with name :: rest => String c name :: rest | [] => [String c ""] end
  end.

Fixpoint join (names : list string) : string :=
  match names with [] => "" | [name] => name | name :: names => name +:+ "/" +:+ join names end.

(** One component of [fs::path::lexically_normal]: the names kept so far, the last first, and whether a
    separator follows them. *)
Definition normal_step (absolute : bool) (s : list string * bool) (name : string) : list string * bool :=
  let '(kept, _) := s in
  if String.eqb name "" || String.eqb name "." then (kept, true)
  else if String.eqb name ".." then
    match kept with
    | [] => if absolute then ([], true) else ([".."], false)
    | top :: kept' => if String.eqb top ".." then (".." :: kept, false) else (kept', true)
    end
  else (name :: kept, false).

Definition lexically_normal (p : string) : string :=
  if String.eqb p "" then ""
  else
    let absolute := match p with String c _ => Json.char_is c 47 | "" => false end in
    let '(kept, separator) := foldl (normal_step absolute) ([], false) (split p) in
    let names := join (rev kept) in
    match kept with
    | [] => if absolute then "/" else "."
    | top :: _ => (if absolute then "/" else "") +:+ names +:+ (if separator && negb (String.eqb top "..") then "/" else "")
    end.

Definition is_absolute (p : string) : bool := match p with String c _ => Json.char_is c 47 | "" => false end.

(** A local file system's [dir/..], and [dir/name]. *)
Definition up (dir : string) : string :=
  if String.eqb dir "" || bool_decide (last (split dir) = Some "..") then path_join dir ".." else parent_path dir.
Definition enter (dir name : string) : string :=
  if String.eqb name "" || String.eqb name "." then dir else if String.eqb name ".." then up dir else path_join dir name.

(** The file [dir / path] names, for a [path] that a manifest holds: an absolute one takes the place of [dir]; a local one
    is followed name by name; to an object store it is text. *)
Definition file_at (dir path : string) : string :=
  if is_absolute path then foldl enter "/" (split path)
  else if on_object_store dir then path_join dir path
  else foldl enter dir (split path).

Definition canonical_text (path : string) : string := default (lexically_normal path) (weakly_canonical io path).

(** ** Listing and reading *)

Record DirEntry := mkDirEntry { name : string; is_dir : bool; size : Z; entry_modified_ns : Z }.

(** The files under [dir], with their paths relative to it. *)
Definition relative (dir : string) (t : tree) : list (string * file) :=
  omap (fun '(p, f) => r ← below dir p; Some (r, f)) (map_to_list (files t)).

Definition file_entry (e : string * file) : option DirEntry :=
  match split_slash e.1 with (n, None) => Some (mkDirEntry n false (zlen (content e.2)) (modified_ns e.2)) | _ => None end.
Definition dir_name (r : string) : option string := match split_slash r with (n, Some _) => Some n | _ => None end.

Definition subdirs (dir : string) (t : tree) : list string :=
  remove_dups (omap dir_name (relative dir t).*1 ++
    (if on_object_store dir then [] else omap (fun d => r ← below dir d; Some (split_slash r).1) (elements (dirs t)))).

(** [io::list_dir] *)
Definition list_dir (dir : string) (t : tree) : res (list DirEntry) :=
  match list_fault io dir with
  | Some e => Err e
  | None => Ok (omap file_entry (relative dir t) ++ ((fun n => mkDirEntry n true 0 0) <$> subdirs dir t))
  end.

(** The bytes of a file that can be opened. *)
Definition open_source (path : string) (t : tree) : option (list Z) :=
  if unreadable io path || vanished io path then None else content <$> files t !! path.

(** [fs::exists], or an object of that name. *)
Definition exists_file (path : string) (t : tree) : bool :=
  negb (vanished io path) && bool_decide (is_Some (files t !! path)).

Definition under (dir : string) (t : tree) : bool := negb (bool_decide (relative dir t = [])).

Definition path_exists (path : string) (t : tree) : bool :=
  if negb (on_object_store path) then exists_file path t || bool_decide (path ∈ dirs t) || under path t
  else if exists_file path t && negb (unreadable io path) then true
  else match list_dir path t with Err _ => true | Ok entries => negb (bool_decide (entries = [])) end.

Definition read_text (path : string) (t : tree) : option string := string_of_bytes <$> open_source path t.

(** Every object under [dir], one listing a level. *)
Fixpoint objects_under (fuel : nat) (dir : string) (t : tree) : res (list string) :=
  match fuel with
  | O => Err "too deep"
  | S fuel =>
      entries ← list_dir dir t;
      fold_res (fun out entry =>
        let child := path_join dir (name entry) in
        if negb (is_dir entry) then Ok (out ++ [child])
        else inner ← objects_under fuel child t; Ok (out ++ inner)) entries []
  end.

(** Deeper than any path of the tree. *)
Definition depth (t : tree) : nat := S (foldr (fun p n => String.length p `max` n)%nat O ((map_to_list (files t)).*1 ++ elements (dirs t))).

(** ** Removing and copying *)

(** One DELETE after the other, up to the first that fails. *)
Fixpoint remove_each (paths : list string) (t : tree) : res unit * tree :=
  match paths with
  | [] => (Ok tt, t)
  | p :: paths => match remove_fault io p with Some e => (Err e, t) | None => remove_each paths (remove p t) end
  end.

(** The directories that are not [dir] or under it. *)
Definition without_dirs (dir : string) (t : tree) : tree :=
  mkTree (files t) (filter (fun d => d <> dir /\ below dir d = None) (dirs t)).

(** [fs::remove_all] of a local directory or file. *)
Definition remove_all (dir : string) (t : tree) : res unit * tree :=
  let paths := filter (fun p => p = dir \/ is_Some (below dir p)) (map_to_list (files t)).*1 in
  match remove_each paths t with
  | (Ok _, t) => (Ok tt, without_dirs dir t)
  | (Err e, t) => (Err e, t)
  end.

Definition remove_tree (dir : string) (t : tree) : res unit * tree :=
  if negb (on_object_store dir) then remove_all dir t
  else match objects_under (depth t) dir t with
       | Err e => (Err e, t)
       | Ok objects => remove_each objects t
       end.

Definition remove_file_at (path : string) (t : tree) : res unit * tree := remove_each [path] t.

(** [path] and the directories it is in. *)
Fixpoint with_parents (fuel : nat) (path : string) : list string :=
  match fuel with
  | O => []
  | S fuel => if String.eqb path "" || String.eqb path "/" then [] else path :: with_parents fuel (parent_path path)
  end.

Definition create_directories (dir : string) (t : tree) : tree :=
  mkTree (files t) (list_to_set (with_parents (S (String.length dir)) dir) ∪ dirs t).

Definition make_local_dir (dir : string) (t : tree) : tree :=
  if negb (on_object_store dir) then create_directories dir t else t.

(** Write a file, replacing what is there. *)
Definition write (path : string) (bytes : list Z) (t : tree) : res unit * tree :=
  match write_fault io path with Some e => (Err e, t) | None => (Ok tt, put path (mkFile bytes (now_ns io)) t) end.

Definition no_such_file : string := "No such file or directory".

Definition copy_stream (src dst : string) (t : tree) : res unit * tree :=
  match open_source src t with
  | None => (Err no_such_file, t)
  | Some bytes => write dst bytes t
  end.

(** [fs::copy_file] does not replace a file. *)
Definition copy_one (src dst : string) (t : tree) : res unit * tree :=
  if negb (on_object_store src) && negb (on_object_store dst)
  then if exists_file dst t then (Err "File exists", t) else copy_stream src dst t
  else copy_stream src dst t.

Fixpoint copy_each (copy : string -> string -> tree -> res unit * tree) (src_dir dst_dir : string) (names : list string) (t : tree) : res unit * tree :=
  match names with
  | [] => (Ok tt, t)
  | n :: names =>
      match copy (path_join src_dir n) (path_join dst_dir n) t with
      | (Ok _, t) => copy_each copy src_dir dst_dir names t
      | (Err e, t) => (Err e, t)
      end
  end.

Definition copy_tree (src_dir dst_dir : string) (t : tree) : res unit * tree :=
  if negb (on_object_store src_dir) && negb (on_object_store dst_dir)
  then if path_exists src_dir t then copy_each copy_one src_dir dst_dir (relative src_dir t).*1 (create_directories dst_dir t) else (Err no_such_file, t)
  else match objects_under (depth t) src_dir t with
       | Err e => (Err e, t)
       | Ok objects => copy_each copy_stream src_dir dst_dir (omap (below src_dir) objects) t
       end.

(** ** Reference files *)

Inductive written := Written | Existed | Failed (error : string).

(** [write_file] and [write_ref_file]: replace the file, or create it if it is absent ([io::put_if_absent]). *)
Definition write_ref_file (path bytes : string) (replace : bool) (t : tree) : written * tree :=
  let t := if on_object_store path then t else create_directories (parent_path path) t in
  let existed := negb replace && bool_decide (is_Some (files t !! path)) in
  let done_ := put path (mkFile (bytes_of_string bytes) (now_ns io)) t in
  match write_fault io path with
  | Some e => (Failed e, if on_object_store path && negb replace && negb existed && put_lands io path then done_ else t)
  | None => if existed then (Existed, t) else (Written, done_)
  end.

(** ** The files of [_versions] *)

(** The file of [version] and its size. *)
Definition manifest_file_of (dataset_path : string) (version : Z) (t : tree) : option (string * Z) :=
  match (if lookup_fault io (path_join dataset_path "_versions") then Err "" else list_dir (path_join dataset_path "_versions") t) with
  | Err _ => None
  | Ok entries =>
      e ← snd <$> list_find (fun e => is_dir e = false /\ parse_manifest_version (name e) = Some version) entries;
      Some (path_join (path_join dataset_path "_versions") (name e), size e)
  end.

Record VersionFile := mkVersionFile { vf_path : string; vf_name : string; vf_size : Z }.

Definition version_files (versions_dir : string) (t : tree) : res (list VersionFile) :=
  match list_fault io versions_dir with
  | Some e => Err ("failed to list " +:+ versions_dir +:+ ": " +:+ e)
  | None =>
      if negb (on_object_store versions_dir) && negb (path_exists versions_dir t) then Err ("failed to list " +:+ versions_dir +:+ ": " +:+ no_such_file)
      else Ok (omap (fun e => match file_entry e with
                              | Some d => Some (mkVersionFile (path_join versions_dir (name d)) (name d) (size d))
                              | None => None
                              end) (relative versions_dir t))
  end.

(** ** A dataset's versions as the store of [Publish] *)

(** The files of a directory, by name. *)
Definition dir_files (dir : string) (t : tree) : gmap string (list Z) :=
  list_to_map (omap (fun e => match split_slash e.1 with (n, None) => Some (n, content e.2) | _ => None end) (relative dir t)).

Definition versions_dir (dir : string) : string := path_join dir "_versions".
Definition transactions_dir (dir : string) : string := path_join dir "_transactions".

Definition store_at (dir : string) (t : tree) : Publish.store :=
  Publish.mkStore (dir_files (versions_dir dir) t) (subdirs (versions_dir dir) t) (dir_files (transactions_dir dir) t).

Definition faults_at (dir : string) : Publish.Faults :=
  Publish.mkFaults (list_fault io (versions_dir dir))
    (fun n => unreadable io (path_join (versions_dir dir) n) || vanished io (path_join (versions_dir dir) n))
    (write_fault io (transactions_dir dir)) ((fun e => (e, put_lands io (versions_dir dir))) <$> write_fault io (versions_dir dir)) false (fun n => remove_fault io (path_join (versions_dir dir) n)).

(** The files of [names] in [dir], those that are there with the same bytes as they are. *)
Definition stored_files (dir : string) (t : tree) (names : gmap string (list Z)) : gmap string file :=
  list_to_map ((fun '(n, bytes) =>
    let p := path_join dir n in
    (p, match files t !! p with
        | Some f => if bool_decide (content f = bytes) then f else mkFile bytes (now_ns io)
        | None => mkFile bytes (now_ns io)
        end)) <$> map_to_list names).

Definition directly_in (dir p : string) : bool := match below dir p with Some r => bool_decide ((split_slash r).2 = None) | None => false end.

(** The tree after the store at [dir] became [s]. *)
Definition with_store (dir : string) (s : Publish.store) (t : tree) : tree :=
  mkTree (stored_files (versions_dir dir) t (Publish.versions s) ∪ stored_files (transactions_dir dir) t (Publish.transactions s) ∪
          filter (fun '(p, _) => directly_in (versions_dir dir) p = false /\ directly_in (transactions_dir dir) p = false) (files t))
    (if on_object_store dir then dirs t else list_to_set (with_parents (S (S (String.length (versions_dir dir)))) (versions_dir dir)) ∪ {[transactions_dir dir]} ∪ dirs t).

End files.

(** ** Facts *)

Lemma path_join_prefix d n : path_join d n = path_join d "" +:+ n.
Proof.
  unfold path_join. destruct (last (String.list_ascii_of_string d)); [|done]. case_bool_decide; [by rewrite append_nil | by rewrite append_assoc, append_nil].
Qed.

Lemma literal_app w t : Json.literal w (w +:+ t) = Some t.
Proof. induction w as [|c w IH]; [done|]. rewrite append_cons. cbn [Json.literal]. by rewrite bool_decide_true. Qed.

Lemma literal_inv w t r : Json.literal w t = Some r -> t = w +:+ r.
Proof.
  revert t. induction w as [|c w IH]; intros t; cbn; [by intros [= ->]|]. destruct t as [|b t]; [done|]. case_bool_decide as Hb; [|done].
  intros ->%IH. by rewrite Hb.
Qed.

Lemma below_join d r : r <> "" -> below d (path_join d r) = Some r.
Proof. intros Hr. unfold below. rewrite (path_join_prefix d r), literal_app. cbn. by destruct r. Qed.

Lemma below_inv d p r : below d p = Some r -> p = path_join d r /\ r <> "".
Proof.
  unfold below. destruct (Json.literal (path_join d "") p) as [x|] eqn:E; [|done]. cbn. apply literal_inv in E.
  destruct (String.eqb_spec x "") as [|Hx]; [done|]. intros [= <-]. by rewrite (path_join_prefix d x).
Qed.

Lemma path_join_inj d : Inj (=) (=) (path_join d).
Proof. intros a b H. rewrite (path_join_prefix d a), (path_join_prefix d b) in H. by apply (String.app_inj (path_join d "")) in H. Qed.

Lemma relative_elem d t r f : (r, f) ∈ relative d t <-> files t !! path_join d r = Some f /\ r <> "".
Proof.
  unfold relative. rewrite list_elem_of_omap. split.
  - intros ([p g] & Hin & H). destruct (below d p) as [x|] eqn:E; [|done]. cbn in H. injection H as -> ->.
    apply below_inv in E as [-> Hr]. by apply elem_of_map_to_list in Hin.
  - intros [H Hr]. exists (path_join d r, f). split; [by apply elem_of_map_to_list|]. by rewrite below_join.
Qed.

Lemma NoDup_omap {A B} (f : A -> option B) l :
  NoDup l -> (forall x y b, f x = Some b -> f y = Some b -> x = y) -> NoDup (omap f l).
Proof.
  intros Hnd Hf. induction Hnd as [|x l Hx _ IH]; [constructor|]. cbn. destruct (f x) as [b|] eqn:E; [|done]. apply NoDup_cons. split; [|done].
  intros (y & Hy & Hb)%list_elem_of_omap. by rewrite (Hf x y b E Hb) in Hx.
Qed.

Lemma relative_NoDup d t : NoDup (relative d t).*1.
Proof.
  assert (NoDup (omap (below d) (map_to_list (files t)).*1)) as H.
  { apply NoDup_omap; [apply NoDup_fst_map_to_list|]. intros p q r Hp Hq. apply below_inv in Hp as [-> _]. by apply below_inv in Hq as [-> _]. }
  replace (relative d t).*1 with (omap (below d) (map_to_list (files t)).*1); [done|]. clear H. unfold relative.
  induction (map_to_list (files t)) as [|[p f] l IH]; [done|]. cbn. destruct (below d p); cbn; [f_equal|]; exact IH.
Qed.

(** A file name: no slash in it. *)
Definition simple (n : string) : Prop := n <> "" /\ split_slash n = (n, None).

Lemma split_slash_none p n : split_slash p = (n, None) -> n = p.
Proof.
  revert n. induction p as [|c p IH]; intros n; cbn; [by intros [= <-]|]. destruct (Json.char_is c 47); [done|].
  destruct (split_slash p) as [m o]. intros [= <- ->]. f_equal. by apply IH.
Qed.

Lemma dir_files_lookup d t n : simple n -> dir_files d t !! n = content <$> files t !! path_join d n.
Proof.
  intros [Hne Hn]. unfold dir_files. set (g := fun e : string * file => match split_slash e.1 with (n, None) => Some (n, content e.2) | _ => None end).
  assert (NoDup (omap g (relative d t)).*1) as Hnd.
  { pose proof (relative_NoDup d t) as H. induction (relative d t) as [|[r f] l IH]; [constructor|]. apply NoDup_cons in H as [Hnot H]. cbn.
    unfold g at 1. cbn [fst snd]. destruct (split_slash r) as [m [o|]] eqn:E; [by apply IH|]. cbn. apply split_slash_none in E as ->.
    apply NoDup_cons. split; [|by apply IH]. intros ([? ?] & -> & Hin)%list_elem_of_fmap. apply list_elem_of_omap in Hin as ([q h] & Hq & Hg).
    unfold g in Hg. cbn [fst snd] in Hg. destruct (split_slash q) as [m [o|]] eqn:E; [done|]. injection Hg as -> _. apply split_slash_none in E as ->.
    apply Hnot. by apply (list_elem_of_fmap_2' fst _ (q, h)). }
  apply option_eq. intros bytes. rewrite <- elem_of_list_to_map by done. rewrite list_elem_of_omap. split.
  - intros ([r f] & Hr & Hg). unfold g in Hg. cbn [fst snd] in Hg. destruct (split_slash r) as [m [o|]] eqn:E; [done|]. injection Hg as -> <-.
    apply split_slash_none in E as ->. apply relative_elem in Hr as [-> _]. done.
  - intros H. apply fmap_Some in H as (f & Hf & ->). exists (n, f). split; [by apply relative_elem|]. unfold g. cbn [fst snd]. by rewrite Hn.
Qed.

End Files.
