(* ===== verification/Refs.v ===== *)
(** * Refs: tags and branches (src/table/dataset_refs.cpp)

    The names a tag or a branch may have, their reference files as JSON both ways, and the operations on
    them: tags listed, created, moved, described and deleted, branches listed, described and deleted. *)

From S2P Require Import Prelude Json ReadSafety Pb ManifestFile Publish DatasetFiles.

Module Refs.
Import Files.

(** ** Times *)

(** The civil date of a day since the epoch, as [std::chrono::year_month_day] gives it. *)
Definition civil_from_days (days : Z) : Z * Z * Z :=
  let z := days + 719468 in
  let era := z / 146097 in
  let doe := z mod 146097 in
  let yoe := (doe - doe / 1460 + doe / 36524 - doe / 146096) / 365 in
  let doy := doe - (365 * yoe + yoe / 4 - yoe / 100) in
  let mp := (5 * doy + 2) / 153 in
  let d := doy - (153 * mp + 2) / 5 + 1 in
  let m := if mp <? 10 then mp + 3 else mp - 9 in
  (yoe + era * 400 + (if m <=? 2 then 1 else 0), m, d).

Definition rfc3339 (ns : Z) : string :=
  let day := ns / 86400000000000 in
  let tod := ns mod 86400000000000 in
  let '(y, m, d) := civil_from_days day in
  let two (v : Z) := ManifestFile.padded 2 v in
  ManifestFile.padded 4 y +:+ "-" +:+ two m +:+ "-" +:+ two d +:+ "T" +:+ two (tod / 3600000000000) +:+ ":" +:+ two (tod / 60000000000 mod 60) +:+ ":" +:+
  two (tod / 1000000000 mod 60) +:+ "." +:+ ManifestFile.padded 9 (tod mod 1000000000) +:+ "Z".

(** ** JSON *)

(** A character of [json_string]. *)
Definition json_char (c : Ascii.ascii) : string :=
  let escape (e : string) := String Json.backslash e in
  if bool_decide (c = Json.dquote) || bool_decide (c = Json.backslash) then escape (String c "")
  else if Json.char_is c 10 then escape "n"
  else if Json.char_is c 13 then escape "r"
  else if Json.char_is c 9 then escape "t"
  else if Json.code c <? 32 then
    escape ("u00" +:+ String (Json.hex_char (Json.code c / 16)) (String (Json.hex_char (Json.code c mod 16)) ""))
  else String c "".

Definition json_string (s : string) : string := Json.quoted json_char s.

Definition nl : string := String (Json.chr 10) "".

(** A key the library writes as it is, and its colon. *)
Definition key (k : string) : string := String Json.dquote (k +:+ String Json.dquote ":").

(** The entries of a [std::map], by key. *)
Definition entries_le (a b : string * string) : Prop := String.le a.1 b.1.
Definition map_entries (m : gmap string string) : list (string * string) := merge_sort entries_le (map_to_list m).

(** Entries of an object of strings, the first of them [first]. *)
Fixpoint metadata_entries (first : bool) (l : list (string * string)) : string :=
  match l with
  | [] => ""
  | (k, v) :: l => (if first then nl +:+ "    " else "," +:+ nl +:+ "    ") +:+ json_string k +:+ ": " +:+ json_string v +:+ metadata_entries false l
  end.

Definition metadata_json (m : gmap string string) : string :=
  let l := map_entries m in
  key "metadata" +:+ " {" +:+ metadata_entries true l +:+ (if bool_decide (l = []) then "}" else nl +:+ "  }") +:+ nl +:+ "}".

(** [out.metadata[k] = v.s] for the members that are strings. *)
Definition metadata_of (root : Json.Value) : gmap string string :=
  match Json.get root "metadata" with
  | Some (Json.Object fields) => foldl (fun m '(k, v) => match v with Json.Str s => <[k := s]> m | _ => m end) ∅ fields
  | _ => ∅
  end.

Definition string_at (root : Json.Value) (k : string) : option string :=
  match Json.get root k with Some (Json.Str s) => Some s | _ => None end.

Definition number_at (root : Json.Value) (k : string) : option Json.double :=
  match Json.get root k with Some (Json.Number n) => Some n | _ => None end.

Definition starts_with (s prefix : string) : bool := bool_decide (is_Some (Json.literal prefix s)).
Definition ends_with (s suffix : string) : bool :=
  let n := String.length s in
  let k := String.length suffix in
  bool_decide (k <= n)%nat && String.eqb (String.substring (n - k) k s) suffix.
Definition contains (s part : string) : bool := bool_decide (is_Some (String.index 0 part s)).

(** [std::isalnum] of the C locale. *)
Definition isalnum (c : Ascii.ascii) : bool :=
  let n := Json.code c in is_digit c || ((65 <=? n) && (n <=? 90)) || ((97 <=? n) && (n <=? 122)).
Definition name_char (c : Ascii.ascii) : bool := isalnum c || Json.char_is c 46 || Json.char_is c 45 || Json.char_is c 95.

Fixpoint all_chars (f : Ascii.ascii -> bool) (s : string) : bool :=
  match s with "" => true | String c s => f c && all_chars f s end.

Definition first_is (s : string) (n : Z) : bool := match String.get 0 s with Some c => Json.char_is c n | None => false end.
Definition last_is (s : string) (n : Z) : bool :=
  match String.get (String.length s - 1) s with Some c => Json.char_is c n | None => false end.

Definition invalid_ref (why : string) : res unit := Err ("Ref is invalid: " +:+ why).

(** ** Tags *)

Record TagInfo := mkTagInfo {
  tag_name : string;
  tag_branch : option string;
  tag_version : Z;
  created_at : string;
  updated_at : string;
  tag_manifest_size : Z;
  tag_metadata : gmap string string
}.

Definition tags_dir (dataset_path : string) : string := path_join (path_join dataset_path "_refs") "tags".
Definition tag_path (dataset_path name : string) : string := path_join (tags_dir dataset_path) (name +:+ ".json").

Definition check_valid_tag (s : string) : res unit :=
  if String.eqb s "" then invalid_ref "Ref cannot be empty"
  else if negb (all_chars (fun c => name_char c || (128 <=? Json.code c)) s) then invalid_ref "Ref characters must be either alphanumeric, '.', '-' or '_'"
  else if first_is s 46 then invalid_ref "Ref cannot begin with a dot"
  else if last_is s 46 then invalid_ref "Ref cannot end with a dot"
  else if ends_with s ".lock" then invalid_ref "Ref cannot end with .lock"
  else if contains s ".." then invalid_ref "Ref cannot have two consecutive dots"
  else Ok tt.

Definition optional_string (s : option string) : string := match s with Some s => json_string s | None => "null" end.

Definition tag_json (tag : TagInfo) : string :=
  "{" +:+ nl +:+ "  " +:+ key "branch" +:+ " " +:+ optional_string (tag_branch tag) +:+
  "," +:+ nl +:+ "  " +:+ key "version" +:+ " " +:+ pretty (tag_version tag) +:+
  (if String.eqb (created_at tag) "" then "" else "," +:+ nl +:+ "  " +:+ key "createdAt" +:+ " " +:+ json_string (created_at tag)) +:+
  (if String.eqb (updated_at tag) "" then "" else "," +:+ nl +:+ "  " +:+ key "updatedAt" +:+ " " +:+ json_string (updated_at tag)) +:+
  "," +:+ nl +:+ "  " +:+ key "manifestSize" +:+ " " +:+ pretty (tag_manifest_size tag) +:+
  "," +:+ nl +:+ "  " +:+ metadata_json (tag_metadata tag).

(** ** Branches *)

Record BranchInfo := mkBranchInfo {
  br_name : string;
  parent_branch : option string;
  identifier : list (Z * string);
  parent_version : Z;
  create_at : Z;
  br_manifest_size : Z;
  br_metadata : gmap string string
}.

Definition branch_location (root branch : string) : string :=
  if String.eqb branch "" then root else path_join (path_join root "tree") branch.

Definition hex_pair (a b : Ascii.ascii) : option Ascii.ascii :=
  h ← Json.hex_value a; l ← Json.hex_value b; Some (Json.byte_char (h * 16 + l)).

(** Undecodable escapes are kept as written. *)
Fixpoint decode_branch_file_name (encoded : string) : string :=
  match encoded with
  | "" => ""
  | String c rest =>
      if Json.char_is c 37 then
        match rest with
        | String a (String b rest') =>
            match hex_pair a b with
            | Some d => String d (decode_branch_file_name rest')
            | None => String c (decode_branch_file_name rest)
            end
        | _ => String c (decode_branch_file_name rest)
        end
      else String c (decode_branch_file_name rest)
  end.

(** The [/] of a name percent-encoded. *)
Fixpoint branch_file_name (name : string) : string :=
  match name with
  | "" => ""
  | String c name => if Json.char_is c 47 then "%2F" +:+ branch_file_name name else String c (branch_file_name name)
  end.

Definition branches_dir (root : string) : string := path_join (path_join root "_refs") "branches".
Definition branch_ref_path (root name : string) : string := path_join (branches_dir root) (branch_file_name name +:+ ".json").

Definition check_segment (done : unit) (segment : string) : res unit :=
  if String.eqb segment "" then invalid_ref "Branch name cannot have empty segments between '/'"
  else if negb (all_chars name_char segment) then
    invalid_ref ("Branch segment '" +:+ segment +:+ "' contains invalid characters. Only alphanumeric, '.', '-', '_' are allowed.")
  else Ok tt.

Definition check_valid_branch (name : string) : res unit :=
  if String.eqb name "" then invalid_ref "Branch name cannot be empty"
  else if first_is name 47 || last_is name 47 then invalid_ref "Branch name cannot start or end with a '/'"
  else if contains name "//" then invalid_ref "Branch name cannot contain consecutive '/'"
  else if contains name ".." || contains name (String Json.backslash "") then
    invalid_ref ("Branch name cannot contain '..' or '" +:+ String Json.backslash "" +:+ "'")
  else
    _ ← fold_res check_segment (split name) tt;
    if ends_with name ".lock" then invalid_ref "Branch name cannot end with '.lock'"
    else if String.eqb name "main" then invalid_ref "Branch name cannot be 'main'"
    else Ok tt.

(** One pair of the identifier, the first of them [first]. *)
Fixpoint identifier_entries (first : bool) (l : list (Z * string)) : string :=
  match l with
  | [] => ""
  | (version, id) :: l =>
      (if first then nl +:+ "      [" +:+ nl +:+ "        " else "," +:+ nl +:+ "      [" +:+ nl +:+ "        ") +:+
      pretty version +:+ "," +:+ nl +:+ "        " +:+ json_string id +:+ nl +:+ "      ]" +:+ identifier_entries false l
  end.

Definition branch_json (branch : BranchInfo) : string :=
  "{" +:+ nl +:+ "  " +:+ key "parentBranch" +:+ " " +:+ optional_string (parent_branch branch) +:+
  "," +:+ nl +:+ "  " +:+ key "identifier" +:+ " {" +:+ nl +:+ "    " +:+ key "version_mapping" +:+ " [" +:+ identifier_entries true (identifier branch) +:+
  (if bool_decide (identifier branch = []) then "]" else nl +:+ "    ]") +:+ nl +:+ "  }," +:+ nl +:+ "  " +:+ key "parentVersion" +:+ " " +:+ pretty (parent_version branch) +:+
  "," +:+ nl +:+ "  " +:+ key "createAt" +:+ " " +:+ pretty (create_at branch) +:+
  "," +:+ nl +:+ "  " +:+ key "manifestSize" +:+ " " +:+ pretty (br_manifest_size branch) +:+
  "," +:+ nl +:+ "  " +:+ metadata_json (br_metadata branch).

(** [new_uuid]'s bytes as 32 hexadecimal digits. *)
Fixpoint branch_id (uuid : list Z) : string :=
  match uuid with
  | [] => ""
  | b :: uuid => String (Json.hex_char (Z.shiftr b 4)) (String (Json.hex_char (Z.land b 15)) (branch_id uuid))
  end.

Definition find_branch (branches : list BranchInfo) (name : string) : option BranchInfo :=
  snd <$> list_find (fun b => br_name b = name) branches.

(** Lance's list of names and versions in a refusal. *)
Fixpoint pairs_text_loop (first : bool) (pairs : list (string * Z)) : string :=
  match pairs with
  | [] => "]"
  | (n, v) :: pairs =>
      (if first then "(" else ", (") +:+ String Json.dquote (n +:+ String Json.dquote (", " +:+ pretty v +:+ ")")) +:+ pairs_text_loop false pairs
  end.
Definition pairs_text (pairs : list (string * Z)) : string := "[" +:+ pairs_text_loop true pairs.

Section refs.
  Context (io : Io) (undefined : Json.double -> Z).

Definition u64_of (d : Json.double) : Z := Json.to_u64 undefined d.

(** A tag's text, read. *)
Definition parse_tag (name text : string) : option TagInfo :=
  root ← Json.parse text;
  version ← number_at root "version";
  Some (mkTagInfo name (string_at root "branch") (u64_of version) (default "" (string_at root "createdAt")) (default "" (string_at root "updatedAt"))
          (default 0 (u64_of <$> number_at root "manifestSize")) (metadata_of root)).

Definition read_tag (dataset_path name : string) (t : tree) : res TagInfo :=
  match read_text io (tag_path dataset_path name) t with
  | None => Err ("Ref not found error: tag " +:+ name +:+ " does not exist")
  | Some text => match parse_tag name text with Some tag => Ok tag | None => Err ("tag " +:+ name +:+ " is not a valid tag file") end
  end.

(** The name of a reference file without [.json]; [None]: the entry is not one. *)
Definition ref_name (entry : DirEntry) : option string :=
  if is_dir entry || negb (ends_with (Files.name entry) ".json") || starts_with (Files.name entry) "." then None
  else Some (String.substring 0 (String.length (Files.name entry) - 5) (Files.name entry)).

Definition list_tags (dataset_path : string) (t : tree) : res (list TagInfo) :=
  entries ← list_dir io (tags_dir dataset_path) t;
  tags ← fold_res (fun out n => tag ← read_tag dataset_path n t; Ok (out ++ [tag])) (omap ref_name entries) [];
  Ok (merge_sort (fun a b => String.le (tag_name a) (tag_name b)) tags).

(** One pair of the version mapping. *)
Definition parse_pair (v : Json.Value) : option (Z * string) :=
  match v with Json.Array [Json.Number n; Json.Str s] => Some (u64_of n, s) | _ => None end.

Definition parse_identifier (root : Json.Value) : option (list (Z * string)) :=
  match Json.get root "identifier" with
  | Some (Json.Object _ as id) => match Json.get id "version_mapping" with Some (Json.Array items) => mapM parse_pair items | _ => Some [] end
  | _ => Some []
  end.

Definition parse_branch (name text : string) : res BranchInfo :=
  match root ← Json.parse text; match root with Json.Object _ => number_at root "parentVersion" ≫= (fun v => Some (root, v)) | _ => None end with
  | None => Err ("branch " +:+ name +:+ " is not a valid branch file")
  | Some (root, version) =>
      match parse_identifier root with
      | None => Err ("branch " +:+ name +:+ " has a malformed identifier")
      | Some id =>
          Ok (mkBranchInfo name (string_at root "parentBranch") id (u64_of version) (default 0 (u64_of <$> number_at root "createAt"))
                (default 0 (u64_of <$> number_at root "manifestSize")) (metadata_of root))
      end
  end.

Definition list_branches (dataset_path : string) (t : tree) : res (list BranchInfo) :=
  entries ← list_dir io (branches_dir dataset_path) t;
  branches ← fold_res (fun out e =>
    match ref_name e with
    | None => Ok out
    | Some n =>
        let branch := decode_branch_file_name n in
        match read_text io (path_join (branches_dir dataset_path) (Files.name e)) t with
        | None => Err ("failed to read branch " +:+ branch)
        | Some text => b ← parse_branch branch text; Ok (out ++ [b])
        end
    end) entries [];
  Ok (merge_sort (fun a b => String.le (br_name a) (br_name b)) branches).

(** [version] (0: the latest) and its manifest's size. *)
Definition resolve_tag_target (location branch : string) (version : Z) (t : tree) : res (Z * Z) :=
  let resolved := if version =? 0 then (match Publish.highest_manifest_version (faults_at io location) (store_at io location t) with Ok v => v | Err _ => 0 end) else version in
  match (if resolved =? 0 then None else manifest_file_of io location resolved t) with
  | None => Err ("Version not found error: version " +:+ (if String.eqb branch "" then "main" else branch) +:+ ":" +:+
                 (if version =? 0 then "latest" else pretty version) +:+ " does not exist")
  | Some (_, size) => Ok (resolved, size)
  end.

Definition written_ref (what : string) (r : written * tree) : res unit * tree :=
  match r with
  | (Written, t) => (Ok tt, t)
  | (Existed, t) => (Err ("Ref conflict error: " +:+ what +:+ " already exists"), t)
  | (Failed e, t) => (Err e, t)
  end.

Definition on_branch (branch : string) : option string := if String.eqb branch "" then None else Some branch.

Definition get_tag (dataset_path name : string) (t : tree) : res TagInfo :=
  _ ← check_valid_tag name; read_tag dataset_path name t.

Definition create_tag (root name branch : string) (version : Z) (t : tree) : res unit * tree :=
  match _ ← check_valid_tag name; resolve_tag_target (branch_location root branch) branch version t with
  | Err e => (Err e, t)
  | Ok (resolved, size) =>
      let now := rfc3339 (now_ns io) in
      let tag := mkTagInfo name (on_branch branch) resolved now now size ∅ in
      written_ref ("tag " +:+ name) (write_ref_file io (tag_path root name) (tag_json tag) false t)
  end.

Definition update_tag (root name branch : string) (version : Z) (t : tree) : res unit * tree :=
  match _ ← check_valid_tag name; tag ← read_tag root name t;
        target ← resolve_tag_target (branch_location root branch) branch version t; Ok (tag, target) with
  | Err e => (Err e, t)
  | Ok (tag, (resolved, size)) =>
      let tag := mkTagInfo (tag_name tag) (on_branch branch) resolved (created_at tag) (rfc3339 (now_ns io)) size (tag_metadata tag) in
      written_ref ("tag " +:+ name) (write_ref_file io (tag_path root name) (tag_json tag) true t)
  end.

Definition delete_tag (dataset_path name : string) (t : tree) : res unit * tree :=
  match check_valid_tag name with
  | Err e => (Err e, t)
  | Ok _ =>
      let path := tag_path dataset_path name in
      if negb (exists_file io path t && (negb (on_object_store io path) || negb (unreadable io path)))
      then (Err ("Ref not found error: tag " +:+ name +:+ " does not exist"), t)
      else match remove_fault io path with
           | Some e => (Err (if on_object_store io path then e else "failed to delete tag " +:+ name +:+ ": " +:+ e), t)
           | None => (Ok tt, remove path t)
           end
  end.

Definition replace_tag_metadata (dataset_path name : string) (metadata : gmap string string) (t : tree) : res unit * tree :=
  match _ ← check_valid_tag name; read_tag dataset_path name t with
  | Err e => (Err e, t)
  | Ok tag =>
      let tag := mkTagInfo (tag_name tag) (tag_branch tag) (tag_version tag) (created_at tag) (updated_at tag) (tag_manifest_size tag) metadata in
      written_ref ("tag " +:+ name) (write_ref_file io (tag_path dataset_path name) (tag_json tag) true t)
  end.

Definition replace_branch_metadata (root name : string) (metadata : gmap string string) (t : tree) : res unit * tree :=
  match _ ← check_valid_branch name; branches ← list_branches root t;
        match find_branch branches name with Some b => Ok b | None => Err ("Ref not found error: branch " +:+ name +:+ " does not exist") end with
  | Err e => (Err e, t)
  | Ok b =>
      let b := mkBranchInfo (br_name b) (parent_branch b) (identifier b) (parent_version b) (create_at b) (br_manifest_size b) metadata in
      written_ref ("branch " +:+ name) (write_ref_file io (branch_ref_path root name) (branch_json b) true t)
  end.

(** [long] extends [short]: the branch of [long] forks, directly or not, from that of [short]. *)
Definition extends (short long : list (Z * string)) : bool :=
  bool_decide (length short < length long)%nat && bool_decide (take (length short) long = short).

(** [std::vector]'s and [std::pair]'s order on identifiers. *)
Fixpoint identifier_le (a b : list (Z * string)) : bool :=
  match a, b with
  | [], _ => true
  | _ :: _, [] => false
  | (v, i) :: a, (w, j) :: b =>
      if v <? w then true else if w <? v then false
      else if String.eqb i j then identifier_le a b else String.leb i j
  end.
#[local] Instance identifier_ge_dec : RelDecision (fun a b : BranchInfo => identifier_le (identifier b) (identifier a) = true).
Proof. intros a b. apply _. Defined.

Definition children_of (self : BranchInfo) (branches : list BranchInfo) : list BranchInfo :=
  merge_sort (fun a b => identifier_le (identifier b) (identifier a) = true)
    (filter (fun b => br_name b <> br_name self /\ extends (identifier self) (identifier b) = true) branches).

(** The directories above [dir], up to [stop], that are empty. *)
Fixpoint remove_empty_dirs (fuel : nat) (up stop : string) (t : tree) : tree :=
  match fuel with
  | O => t
  | S fuel =>
      if bool_decide (String.length up <= String.length stop)%nat then t
      else if negb (bool_decide (up ∈ dirs t)) || under up t || bool_decide (exists d, d ∈ dirs t /\ is_Some (below up d)) then t
      else remove_empty_dirs fuel (parent_path up) stop (mkTree (files t) (dirs t ∖ {[up]}))
  end.

(** Errors of the removal are ignored. *)
Definition remove_branch_dirs (dir stop : string) (t : tree) : tree :=
  let t := (remove_all io dir t).2 in
  remove_empty_dirs (String.length dir) (parent_path dir) stop t.

(** What refuses to delete a branch. *)
Definition deletable (root name : string) (t : tree) : res unit :=
  if String.eqb name "main" then invalid_ref "Branch name cannot be 'main'"
  else
    branches ← list_branches root t;
    match find_branch branches name with
    | None => Err ("Ref not found error: Branch " +:+ name +:+ " does not exist")
    | Some self =>
        let children := children_of self branches in
        if negb (bool_decide (children = [])) then
          Err ("Ref conflict error: Branch " +:+ name +:+ " is referenced by " +:+
               pairs_text ((fun c => (br_name c, (nth (length (identifier self)) (identifier c) (0, "")).1)) <$> children) +:+ " versions, can not delete")
        else
          tags ← list_tags root t;
          let tagged := filter (fun tag => tag_branch tag = Some name) tags in
          if negb (bool_decide (tagged = [])) then
            Err ("Ref conflict error: Branch " +:+ name +:+ " is referenced by tags " +:+ pairs_text ((fun tag => (tag_name tag, tag_version tag)) <$> tagged) +:+ ", can not delete")
          else Ok tt
    end.

Definition delete_branch (root name : string) (t : tree) : res unit * tree :=
  match deletable root name t with
  | Err e => (Err e, t)
  | Ok _ =>
      match remove_file_at io (branch_ref_path root name) t with
      | (Err e, t) => (Err ("failed to delete the reference of branch " +:+ name +:+ ": " +:+ e), t)
      | (Ok _, t) =>
          if on_object_store io root then
            match remove_tree io (branch_location root name) t with
            | (Err e, t) => (Err ("failed to delete branch " +:+ name +:+ ": " +:+ e), t)
            | (Ok _, t) => (Ok tt, t)
            end
          else (Ok tt, remove_branch_dirs (branch_location root name) (path_join root "tree") t)
      end
  end.

End refs.

End Refs.
