(* ===== verification/RefsText.v ===== *)
(** * RefsText: reference files are read back as they were written

    The text of a tag or a branch as the brackets, keys and values [Json] knows how to read; the names of
    branches through the names of their files. *)

From S2P Require Import Prelude Json ReadSafety Pb ManifestFile Publish DatasetFiles Refs.

Module RefsText.
Import Files Refs Json.

Lemma json_char_escapes : escapes json_char.
Proof. intros [[] [] [] [] [] [] [] []] t; reflexivity. Qed.

Lemma renders_json_string n s : renders (S n) (Str s) (" " +:+ json_string s).
Proof. apply renders_blank; [done|]. apply renders_string, json_char_escapes. Qed.

Lemma renders_pretty n v : 0 <= v -> renders (S n) (Number (number v)) (" " +:+ pretty v).
Proof. intros. apply renders_blank; [done|]. by apply renders_number. Qed.

Definition optional_value (s : option string) : Value := match s with Some s => Str s | None => Null end.

Lemma renders_optional n s : renders (S n) (optional_value s) (" " +:+ optional_string s).
Proof. destruct s; [apply renders_json_string | apply renders_blank; [done | apply renders_null]]. Qed.

(** A key without characters to escape. *)
Definition plain (k : string) : Prop := escaped json_char k = k.

Lemma read_key_plain k rest : plain k -> read_key (key k +:+ rest) = Some (k, rest).
Proof.
  intros Hk. unfold key. rewrite append_cons, append_assoc, append_cons, append_cons. change ("" +:+ rest) with rest.
  unfold read_key. pose proof (read_quoted json_char k (String (chr 58) rest) json_char_escapes) as H. unfold quoted in H. rewrite Hk in H.
  rewrite append_cons, append_assoc, append_cons in H. change ("" +:+ String (chr 58) rest) with (String (chr 58) rest) in H.
  change (":" +:+ rest) with (String (chr 58) rest) in *. etrans; [|done]. setoid_rewrite H. done.
Qed.

(** A member of an object, written after blanks. *)
Definition member (before k text : string) (v : Value) : piece := mkPiece before (key k) text k v.

Lemma member_ok n before k text v : blank before -> plain k -> renders n v text -> piece_ok n true (member before k text v).
Proof. intros Hb Hk Hv. split; cbn [member p_before p_key p_text p_name p_value]; [done | | done]. split_and!; [done | done|]. intros. by apply read_key_plain. Qed.

(** ** Metadata *)

Definition metadata_piece (kv : string * string) : piece :=
  mkPiece (nl +:+ "    ") (json_string kv.1 +:+ ":") (" " +:+ json_string kv.2) kv.1 (Str kv.2).

Lemma metadata_piece_ok n kv : piece_ok (S n) true (metadata_piece kv).
Proof.
  destruct kv as [k v]. split; cbn [metadata_piece p_before p_key p_text p_name p_value fst snd]; [done | | apply renders_json_string].
  split_and!; [done | done|]. intros rest. unfold read_key, json_string. rewrite append_assoc, read_quoted by apply json_char_escapes. done.
Qed.

Lemma metadata_entries_joined l : l <> [] -> metadata_entries true l = joined (metadata_piece <$> l).
Proof.
  intros Hne. destruct l as [|[k v] l]; [done|]. clear Hne. revert k v. induction l as [|[k' v'] l IH]; intros k v.
  - cbn [metadata_entries fmap list_fmap joined]. unfold piece_text, metadata_piece. cbn [p_before p_key p_text fst snd]. rewrite append_nil, !append_assoc. done.
  - change (joined (metadata_piece <$> (k, v) :: (k', v') :: l)) with (piece_text (metadata_piece (k, v)) +:+ "," +:+ joined (metadata_piece <$> (k', v') :: l)).
    rewrite <- IH. unfold piece_text, metadata_piece. cbn [p_before p_key p_text fst snd metadata_entries]. rewrite !append_assoc. done.
Qed.

Definition metadata_value (m : gmap string string) : Value := Object ((fun kv => (kv.1, Str kv.2)) <$> map_entries m).

(** The object after the key ["metadata"]. *)
Definition metadata_text (m : gmap string string) : string :=
  brackets true (metadata_piece <$> map_entries m) (if bool_decide (map_entries m = []) then "" else nl +:+ "  ").

Lemma metadata_json_text m : metadata_json m = key "metadata" +:+ " " +:+ metadata_text m +:+ nl +:+ "}".
Proof.
  unfold metadata_json, metadata_text, brackets. case_bool_decide as H.
  - rewrite H. done.
  - rewrite metadata_entries_joined by done. cbn [close_char]. rewrite !append_cons, !append_assoc. done.
Qed.

Lemma renders_metadata n m : renders (S (S n)) (metadata_value m) (" " +:+ metadata_text m).
Proof.
  apply renders_blank; [done|]. unfold metadata_text, metadata_value.
  replace (Object ((fun kv => (kv.1, Str kv.2)) <$> map_entries m)) with (collect true (fields_of (metadata_piece <$> map_entries m))).
  2: { unfold collect, fields_of. f_equal. rewrite <- list_fmap_compose. done. }
  apply renders_brackets; [|by case_bool_decide]. apply Forall_fmap, Forall_forall. intros kv _. apply metadata_piece_ok.
Qed.

(** Reading the entries of a map into a map gives it back. *)
Lemma metadata_read fields m :
  get_field "metadata" fields = Some (metadata_value m) -> metadata_of (Object fields) = m.
Proof.
  intros H. unfold metadata_of. cbn [get]. rewrite H. unfold metadata_value.
  assert (forall l (acc : gmap string string), foldl (fun m '(k, v) => match v with Str s => <[k := s]> m | _ => m end) acc ((fun kv => (kv.1, Str kv.2)) <$> l) =
    foldl (fun m kv => <[kv.1 := kv.2]> m) acc l) as ->.
  { induction l as [|kv l IH]; intros acc; [done|]. cbn. apply IH. }
  assert (map_entries m ≡ₚ map_to_list m) as Hp by apply merge_sort_Permutation.
  assert (forall l, NoDup l.*1 -> forall acc, foldl (fun (m : gmap string string) kv => <[kv.1 := kv.2]> m) acc l = list_to_map l ∪ acc) as Hfold.
  { clear. induction l as [|[k v] l IH]; intros Hnd acc; cbn; [by rewrite (left_id_L ∅ (∪))|]. apply NoDup_cons in Hnd as [Hk Hnd]. rewrite IH by done. cbn [fst snd].
    assert (list_to_map l !! k = (None : option string)) as Hnone by (by apply not_elem_of_list_to_map_1).
    rewrite <- insert_union_l. by rewrite <- insert_union_r. }
  assert (NoDup (map_entries m).*1) as Hnd by (rewrite (fmap_Permutation fst _ _ Hp); apply NoDup_fst_map_to_list).
  rewrite Hfold, (right_id_L ∅ (∪)) by done. rewrite (list_to_map_proper _ _ Hnd Hp). apply list_to_map_to_list.
Qed.

(** ** Tags *)

Definition line : string := nl +:+ "  ".

Definition tag_pieces (tag : TagInfo) : list piece :=
  [member line "branch" (" " +:+ optional_string (tag_branch tag)) (optional_value (tag_branch tag));
   member line "version" (" " +:+ pretty (tag_version tag)) (Number (number (tag_version tag)))] ++
  (if String.eqb (created_at tag) "" then [] else [member line "createdAt" (" " +:+ json_string (created_at tag)) (Str (created_at tag))]) ++
  (if String.eqb (updated_at tag) "" then [] else [member line "updatedAt" (" " +:+ json_string (updated_at tag)) (Str (updated_at tag))]) ++
  [member line "manifestSize" (" " +:+ pretty (tag_manifest_size tag)) (Number (number (tag_manifest_size tag)));
   member line "metadata" (" " +:+ metadata_text (tag_metadata tag)) (metadata_value (tag_metadata tag))].

(** Both sides as one text, piece after piece. *)
Ltac same_text :=
  unfold brackets, joined, piece_text, member, line; cbn [app p_before p_key p_text];
  rewrite ?append_assoc; reflexivity.

Lemma tag_json_text tag : tag_json tag = brackets true (tag_pieces tag) nl.
Proof.
  unfold tag_json, tag_pieces. rewrite metadata_json_text.
  destruct (String.eqb (created_at tag) ""), (String.eqb (updated_at tag) ""); same_text.
Qed.

(** Versions and sizes are JSON numbers, read as doubles. *)
Definition fits_double (v : Z) : Prop := 0 <= v <= 2 ^ 53.

Lemma parse_brackets object ps ws :
  Forall (piece_ok 64 object) ps -> blank ws -> parse (brackets object ps ws) = Some (collect object (fields_of ps)).
Proof.
  intros Hps Hws. unfold parse. pose proof (renders_brackets 64 object ps ws Hps Hws "" I) as H. rewrite append_nil in H.
  unfold kLevels. rewrite H. done.
Qed.

Lemma tag_pieces_ok n tag : fits_double (tag_version tag) -> fits_double (tag_manifest_size tag) -> Forall (piece_ok (S (S n)) true) (tag_pieces tag).
Proof.
  unfold fits_double. intros [Hv _] [Hs _]. unfold tag_pieces. pose proof (Forall_nil_2 (piece_ok (S (S n)) true)) as Hnil.
  assert (forall k text v, plain k -> renders (S (S n)) v text -> piece_ok (S (S n)) true (member line k text v)) as Hok
    by (intros; by apply member_ok).
  apply Forall_app. split; [|apply Forall_app; split; [|apply Forall_app; split]].
  - apply Forall_cons_2; [apply Hok; [reflexivity | apply renders_optional]|]. apply Forall_cons_2; [apply Hok; [reflexivity | by apply renders_pretty] | exact Hnil].
  - destruct (String.eqb (created_at tag) ""); [exact Hnil|]. apply Forall_cons_2; [apply Hok; [reflexivity | apply renders_json_string] | exact Hnil].
  - destruct (String.eqb (updated_at tag) ""); [exact Hnil|]. apply Forall_cons_2; [apply Hok; [reflexivity | apply renders_json_string] | exact Hnil].
  - apply Forall_cons_2; [apply Hok; [reflexivity | by apply renders_pretty]|]. apply Forall_cons_2; [apply Hok; [reflexivity | apply renders_metadata] | exact Hnil].
Qed.

(** A tag's file is read as the tag that was written. *)
Lemma parse_tag_json undefined tag :
  fits_double (tag_version tag) -> fits_double (tag_manifest_size tag) -> parse_tag undefined (tag_name tag) (tag_json tag) = Some tag.
Proof.
  intros Hv Hs. unfold parse_tag. rewrite tag_json_text, parse_brackets by (done || by apply tag_pieces_ok). cbn [mbind option_bind collect].
  assert (forall v, fits_double v -> u64_of undefined (number v) = v) as Hu by (intros v Hfit; by apply round_double_exact).
  assert (get_field "metadata" (fields_of (tag_pieces tag)) = Some (metadata_value (tag_metadata tag))) as Hm
    by (unfold tag_pieces; destruct (String.eqb (created_at tag) ""), (String.eqb (updated_at tag) ""); reflexivity).
  rewrite (metadata_read _ _ Hm).
  set (root := Object (fields_of (tag_pieces tag))).
  assert (string_at root "branch" = tag_branch tag) as -> by (unfold root, tag_pieces; by destruct (tag_branch tag)).
  assert (number_at root "version" = Some (number (tag_version tag))) as -> by reflexivity.
  assert (number_at root "manifestSize" = Some (number (tag_manifest_size tag)) /\ default "" (string_at root "createdAt") = created_at tag /\
    default "" (string_at root "updatedAt") = updated_at tag) as (-> & -> & ->).
  { unfold root, tag_pieces. destruct (String.eqb_spec (created_at tag) "") as [->|_], (String.eqb_spec (updated_at tag) "") as [->|_]; done. }
  cbn [mbind option_bind fmap option_fmap option_map default from_option id]. rewrite !Hu by done. by destruct tag.
Qed.

(** ** Branches *)

Definition pair_text (p : Z * string) : string :=
  brackets false [mkPiece (nl +:+ "        ") "" (pretty p.1) "" (Number (number p.1)); mkPiece (nl +:+ "        ") "" (json_string p.2) "" (Str p.2)] (nl +:+ "      ").
Definition pair_value (p : Z * string) : Value := Array [Number (number p.1); Str p.2].
Definition pair_piece (p : Z * string) : piece := mkPiece (nl +:+ "      ") "" (pair_text p) "" (pair_value p).

Lemma renders_pair n p : 0 <= p.1 -> renders (S (S n)) (pair_value p) (pair_text p).
Proof.
  intros Hp. unfold pair_value, pair_text.
  apply (renders_brackets (S n) false [mkPiece (nl +:+ "        ") "" (pretty p.1) "" (Number (number p.1)); mkPiece (nl +:+ "        ") "" (json_string p.2) "" (Str p.2)]); [|done].
  repeat apply Forall_cons_2; [| |apply Forall_nil_2].
  - split; cbn [p_before p_key p_text p_name p_value]; [done | | by apply renders_number]. split_and!; [done | done|].
    pose proof (pretty_nonempty p.1) as Hne. destruct (pretty_digits p.1 Hp) as [_ Hd]. destruct (pretty p.1) as [|c digits]; [done|].
    cbn [all_digits] in Hd. apply andb_prop in Hd as [Hc _]. destruct c as [[] [] [] [] [] [] [] []]; try discriminate Hc; done.
  - split; cbn [p_before p_key p_text p_name p_value]; [done | done | apply renders_string, json_char_escapes].
Qed.

Lemma pair_piece_ok n p : 0 <= p.1 -> piece_ok (S (S n)) false (pair_piece p).
Proof. intros Hp. split; cbn [pair_piece p_before p_key p_text p_name p_value]; [done | done | by apply renders_pair]. Qed.

Lemma identifier_entries_joined l : l <> [] -> identifier_entries true l = joined (pair_piece <$> l).
Proof.
  assert (forall v id, nl +:+ "      [" +:+ nl +:+ "        " +:+ pretty v +:+ "," +:+ nl +:+ "        " +:+ json_string id +:+ nl +:+ "      ]" = piece_text (pair_piece (v, id))) as Hpair.
  { intros v id. unfold pair_piece, pair_text, piece_text. cbn [p_before p_key p_text fst snd]. unfold brackets, joined, piece_text. cbn [p_before p_key p_text].
    rewrite ?append_assoc. reflexivity. }
  intros Hne. destruct l as [|[v id] l]; [done|]. clear Hne. revert v id. induction l as [|[v' id'] l IH]; intros v id.
  - cbn [identifier_entries fmap list_fmap joined]. rewrite <- Hpair, append_nil, ?append_assoc. reflexivity.
  - change (joined (pair_piece <$> (v, id) :: (v', id') :: l)) with (piece_text (pair_piece (v, id)) +:+ "," +:+ joined (pair_piece <$> (v', id') :: l)).
    rewrite <- IH, <- Hpair. cbn [identifier_entries]. rewrite ?append_assoc. reflexivity.
Qed.

Definition mapping_text (l : list (Z * string)) : string :=
  brackets false (pair_piece <$> l) (if bool_decide (l = []) then "" else nl +:+ "    ").
Definition identifier_text (l : list (Z * string)) : string :=
  brackets true [member (nl +:+ "    ") "version_mapping" (" " +:+ mapping_text l) (Array (pair_value <$> l))] line.
Definition identifier_value (l : list (Z * string)) : Value := Object [("version_mapping", Array (pair_value <$> l))].

Lemma renders_identifier n l : Forall (fun p => 0 <= p.1) l -> renders (S (S (S (S n)))) (identifier_value l) (" " +:+ identifier_text l).
Proof.
  intros Hl. apply renders_blank; [done|].
  apply (renders_brackets _ true [member (nl +:+ "    ") "version_mapping" (" " +:+ mapping_text l) (Array (pair_value <$> l))]); [|done].
  apply Forall_cons_2; [|apply Forall_nil_2]. apply member_ok; [done | reflexivity|]. apply renders_blank; [done|]. unfold mapping_text.
  replace (Array (pair_value <$> l)) with (collect false (fields_of (pair_piece <$> l))).
  2: { unfold collect, fields_of. f_equal. rewrite <- !list_fmap_compose. done. }
  apply renders_brackets; [|by case_bool_decide]. apply Forall_fmap. eapply Forall_impl; [exact Hl|]. intros p. apply pair_piece_ok.
Qed.

Definition branch_pieces (b : BranchInfo) : list piece :=
  [member line "parentBranch" (" " +:+ optional_string (parent_branch b)) (optional_value (parent_branch b));
   member line "identifier" (" " +:+ identifier_text (identifier b)) (identifier_value (identifier b));
   member line "parentVersion" (" " +:+ pretty (parent_version b)) (Number (number (parent_version b)));
   member line "createAt" (" " +:+ pretty (create_at b)) (Number (number (create_at b)));
   member line "manifestSize" (" " +:+ pretty (br_manifest_size b)) (Number (number (br_manifest_size b)));
   member line "metadata" (" " +:+ metadata_text (br_metadata b)) (metadata_value (br_metadata b))].

Lemma branch_json_text b : branch_json b = brackets true (branch_pieces b) nl.
Proof.
  unfold branch_json, branch_pieces. rewrite metadata_json_text.
  assert (" {" +:+ nl +:+ "    " +:+ key "version_mapping" +:+ " [" +:+ identifier_entries true (identifier b) +:+
    (if bool_decide (identifier b = []) then "]" else nl +:+ "    ]") +:+ nl +:+ "  }" = " " +:+ identifier_text (identifier b)) as Hid.
  { unfold identifier_text, mapping_text. case_bool_decide as H; [by rewrite H|]. rewrite identifier_entries_joined by done.
    unfold brackets at 1, joined, piece_text, member, line; cbn [p_before p_key p_text]. unfold brackets. rewrite ?append_assoc, ?append_cons, ?append_assoc. reflexivity. }
  unfold brackets, joined, piece_text, member; cbn [p_before p_key p_text]. rewrite <- Hid. unfold line. rewrite ?append_assoc. reflexivity.
Qed.

Definition branch_fits (b : BranchInfo) : Prop :=
  Forall (fun p => fits_double p.1) (identifier b) /\ fits_double (parent_version b) /\ fits_double (create_at b) /\ fits_double (br_manifest_size b).

Lemma branch_pieces_ok n b : branch_fits b -> Forall (piece_ok (S (S (S (S n)))) true) (branch_pieces b).
Proof.
  unfold branch_fits, fits_double. intros (Hid & [Hv _] & [Hc _] & [Hs _]).
  assert (forall k text v, plain k -> renders (S (S (S (S n)))) v text -> piece_ok (S (S (S (S n)))) true (member line k text v)) as Hok
    by (intros; by apply member_ok).
  repeat apply Forall_cons_2; [..|apply Forall_nil_2]; (apply Hok; [reflexivity|]).
  - apply renders_optional.
  - apply renders_identifier. eapply Forall_impl; [exact Hid|]. intros p [H _]. exact H.
  - by apply renders_pretty.
  - by apply renders_pretty.
  - by apply renders_pretty.
  - apply renders_metadata.
Qed.

(** A branch's file is read as the branch that was written. *)
Lemma parse_branch_json undefined b : branch_fits b -> parse_branch undefined (br_name b) (branch_json b) = Ok b.
Proof.
  intros Hfit. unfold parse_branch. rewrite branch_json_text, parse_brackets by (done || by apply branch_pieces_ok). cbn [mbind option_bind collect].
  assert (forall v, fits_double v -> u64_of undefined (number v) = v) as Hu by (intros v Hv; by apply round_double_exact).
  assert (get_field "metadata" (fields_of (branch_pieces b)) = Some (metadata_value (br_metadata b))) as Hm by reflexivity.
  destruct Hfit as (Hid & Hv & Hc & Hs). set (root := Object (fields_of (branch_pieces b))).
  assert (number_at root "parentVersion" = Some (number (parent_version b))) as -> by reflexivity. cbn [mbind option_bind]. unfold root at 5. rewrite (metadata_read _ _ Hm).
  assert (string_at root "parentBranch" = parent_branch b) as -> by (unfold root, branch_pieces; by destruct (parent_branch b)).
  assert (parse_identifier undefined root = Some (identifier b)) as ->.
  { change (parse_identifier undefined root) with (mapM (parse_pair undefined) (pair_value <$> identifier b)).
    induction Hid as [|[v id] l Hp _ IH]; [done|]. cbn [fmap list_fmap mapM]. cbn [fmap list_fmap] in IH. change (parse_pair undefined (pair_value (v, id))) with (Some (u64_of undefined (number v), id)).
    cbn [mbind option_bind]. rewrite Hu by exact Hp. by rewrite IH. }
  assert (number_at root "createAt" = Some (number (create_at b))) as -> by reflexivity.
  assert (number_at root "manifestSize" = Some (number (br_manifest_size b))) as -> by reflexivity.
  cbn [mbind option_bind fmap option_fmap option_map default from_option id]. rewrite !Hu by done. by destruct b.
Qed.

(** ** Names *)

Lemma all_chars_slash (f : Ascii.ascii -> bool) name :
  Forall (fun segment => all_chars f segment = true) (split name) -> all_chars (fun c => f c || char_is c 47) name = true.
Proof.
  induction name as [|c name IH]; [done|]. cbn [split all_chars]. destruct (char_is c 47).
  - intros [_ H]%Forall_cons. rewrite orb_true_r. by apply IH.
  - destruct (split name) as [|segment rest].
    + intros [H _]%Forall_cons. cbn in H. apply andb_prop in H as [-> _]. by apply IH.
    + intros [H Hrest]%Forall_cons. cbn in H. apply andb_prop in H as [-> H]. apply IH. by constructor.
Qed.

Lemma check_segments_ok l s : fold_res check_segment l s = Ok tt -> Forall (fun segment => all_chars name_char segment = true) l.
Proof.
  revert s. induction l as [|segment l IH]; intros s H; [done|]. cbn [fold_res] in H. unfold mbind, res_bind, check_segment at 1 in H.
  destruct (String.eqb segment ""); [done|]. destruct (all_chars name_char segment) eqn:E; [|done]. constructor; [done|]. exact (IH _ H).
Qed.

(** The characters of a branch's name. *)
Lemma valid_branch_chars name : check_valid_branch name = Ok tt -> all_chars (fun c => name_char c || char_is c 47) name = true.
Proof.
  unfold check_valid_branch. unfold mbind, res_bind. intros H. repeat case_hyp H. apply all_chars_slash.
  match goal with E : fold_res _ _ _ = Ok ?u |- _ => destruct u; exact (check_segments_ok _ _ E) end.
Qed.

Lemma valid_branch_nonempty name : check_valid_branch name = Ok tt -> name <> "".
Proof. by intros H ->. Qed.

(** The name of a branch's file is that of the branch encoded. *)
Lemma decode_encoded name : all_chars (fun c => name_char c || char_is c 47) name = true -> decode_branch_file_name (branch_file_name name) = name.
Proof.
  induction name as [|c name IH]; [done|]. cbn [all_chars branch_file_name]. intros [Hc H]%andb_prop. apply IH in H. destruct (char_is c 47) eqn:E.
  - assert (c = chr 47) as -> by (destruct c as [[] [] [] [] [] [] [] []]; try discriminate E; reflexivity). change ("%2F" +:+ branch_file_name name) with (String (chr 37) (String (chr 50) (String (chr 70) (branch_file_name name)))).
    cbn [decode_branch_file_name]. change (char_is (chr 37) 37) with true. cbv iota. change (hex_pair (chr 50) (chr 70)) with (Some (chr 47)). by rewrite H.
  - cbn [decode_branch_file_name]. assert (char_is c 37 = false) as ->; [|by rewrite H].
    destruct c as [[] [] [] [] [] [] [] []]; try discriminate Hc; reflexivity.
Qed.

Lemma encoded_simple name : name <> "" -> simple (branch_file_name name +:+ ".json").
Proof.
  intros Hne. split; [destruct name as [|c name]; [done|]; cbn; by destruct (char_is c 47)|]. clear Hne.
  induction name as [|c name IH]; [done|]. cbn [branch_file_name]. destruct (char_is c 47) eqn:E.
  - rewrite append_assoc. change ("%2F" +:+ (branch_file_name name +:+ ".json")) with
      (String (chr 37) (String (chr 50) (String (chr 70) (branch_file_name name +:+ ".json")))).
    cbn [split_slash]. change (char_is (chr 37) 47) with false. change (char_is (chr 50) 47) with false. change (char_is (chr 70) 47) with false. by rewrite IH.
  - rewrite append_cons. cbn [split_slash]. by rewrite E, IH.
Qed.

(** ** The operations *)

Lemma ref_name_json n size modified : starts_with (n +:+ ".json") "." = false -> ref_name (mkDirEntry (n +:+ ".json") false size modified) = Some n.
Proof.
  intros H. unfold ref_name. cbn [is_dir Files.name]. rewrite H. assert (ends_with (n +:+ ".json") ".json" = true) as ->.
  { unfold ends_with. rewrite string_length_app, bool_decide_true by lia. replace (String.length n + String.length ".json" - String.length ".json")%nat with (String.length n) by lia.
    rewrite ManifestFile.substring_suffix. apply String.eqb_refl. }
  cbn [negb orb]. f_equal. rewrite string_length_app. replace (String.length n + String.length ".json" - 5)%nat with (String.length n) by (cbn; lia).
  clear H. induction n as [|c n IH]; [done|]. rewrite append_cons. cbn. by rewrite IH.
Qed.

Lemma starts_dot c s s' : starts_with (String c s) "." = starts_with (String c s') ".".
Proof. unfold starts_with. cbn [literal]. by destruct (bool_decide (_ = c)). Qed.

Lemma encoded_hidden name : starts_with (branch_file_name name +:+ ".json") "." = starts_with name "." || String.eqb name "".
Proof.
  destruct name as [|c name]; [reflexivity|]. cbn [branch_file_name]. rewrite orb_false_r. destruct (char_is c 47) eqn:E.
  - assert (c = chr 47) as -> by (destruct c as [[] [] [] [] [] [] [] []]; try discriminate E; reflexivity). reflexivity.
  - rewrite append_cons. apply starts_dot.
Qed.

(** A reference file that was written is the new one. *)
Lemma written_ref_inv what (r : written * tree) t' : written_ref what r = (Ok tt, t') -> r = (Written, t').
Proof. destruct r as [[] t]; cbn; congruence. Qed.

Lemma write_new_ref io path bytes t t' : write_ref_file io path bytes false t = (Written, t') ->
  files t !! path = None /\ (forall p, p <> path -> files t' !! p = files t !! p) /\ files t' !! path = Some (mkFile (bytes_of_string bytes) (now_ns io)).
Proof.
  unfold write_ref_file. set (t0 := if on_object_store io path then t else create_directories (parent_path path) t).
  assert (files t0 = files t) as Hf by (unfold t0; by destruct (on_object_store io path)).
  destruct (write_fault io path); [done|]. cbn [negb andb]. case_bool_decide as Hn; [done|]. intros [= <-]. rewrite Hf in Hn. apply eq_None_not_Some in Hn.
  cbn [put files]. rewrite Hf. split_and!; [done | intros p Hp; by rewrite lookup_insert_ne | by rewrite lookup_insert_eq].
Qed.

Lemma resolve_tag_target_inv io location branch version t resolved size :
  resolve_tag_target io location branch version t = Ok (resolved, size) ->
  (version <> 0 -> resolved = version) /\ exists path, manifest_file_of io location resolved t = Some (path, size).
Proof.
  unfold resolve_tag_target. set (v := if version =? 0 then _ else version). destruct (Z.eqb_spec v 0); [done|].
  destruct (manifest_file_of io location v t) as [[path n']|] eqn:E; [|done]. intros [= <- <-]. split; [|by exists path].
  intros H. unfold v. by destruct (Z.eqb_spec version 0).
Qed.

(** a branch's reference file is read back as the branch that was written, under the name its file name
    decodes to, when its name is valid and not hidden and its numbers are exact as doubles; the file is directly in
    [_refs/branches]. *)
Theorem branch_file_roundtrip undefined b size modified :
  check_valid_branch (br_name b) = Ok tt -> starts_with (br_name b) "." = false -> branch_fits b ->
  simple (branch_file_name (br_name b) +:+ ".json") /\
  exists n, ref_name (mkDirEntry (branch_file_name (br_name b) +:+ ".json") false size modified) = Some n /\
    parse_branch undefined (decode_branch_file_name n) (branch_json b) = Ok b.
Proof.
  intros Hv Hh Hfit. split; [by apply encoded_simple, valid_branch_nonempty|]. exists (branch_file_name (br_name b)). split.
  - apply ref_name_json. rewrite encoded_hidden, Hh. by destruct (br_name b).
  - rewrite decode_encoded by (by apply valid_branch_chars). by apply parse_branch_json.
Qed.

Lemma branch_file_roundtrip_witness :
  let b := mkBranchInfo "team/x" (Some "dev") [(3, "0f"); (7, "a1")] 7 1700000000 812 {["owner" := "me"]} in
  branch_file_name (br_name b) = "team%2Fx" /\
  exists n, ref_name (mkDirEntry "team%2Fx.json" false 0 0) = Some n /\ parse_branch (fun _ => 0) (decode_branch_file_name n) (branch_json b) = Ok b.
Proof.
  intros b. split; [reflexivity|].
  apply (branch_file_roundtrip (fun _ => 0) b 0 0); [vm_compute; reflexivity | reflexivity|].
  unfold branch_fits, fits_double, b. cbn [identifier parent_version create_at br_manifest_size]. split_and!; [|lia..]. repeat constructor; cbn; lia.
Defined.

(** creating a tag that succeeds adds one file and changes no other; the tag did not exist, names a version
    that does, the one asked for or the latest, and is read back with it. *)
Theorem create_tag_reads_back io undefined root name branch version t t' :
  create_tag io root name branch version t = (Ok tt, t') ->
  unreadable io (tag_path root name) = false -> vanished io (tag_path root name) = false ->
  files t !! tag_path root name = None /\
  (forall p, p <> tag_path root name -> files t' !! p = files t !! p) /\
  exists resolved size, (version <> 0 -> resolved = version) /\
    (exists path, manifest_file_of io (branch_location root branch) resolved t = Some (path, size)) /\
    (fits_double resolved -> fits_double size ->
     get_tag io undefined root name t' = Ok (mkTagInfo name (on_branch branch) resolved (rfc3339 (now_ns io)) (rfc3339 (now_ns io)) size ∅)).
Proof.
  unfold create_tag, mbind, res_bind. intros H Hr Hvan. destruct (check_valid_tag name) as [[]|] eqn:Ev; [|done].
  destruct (resolve_tag_target io (branch_location root branch) branch version t) as [[resolved size]|] eqn:Et; [|done].
  apply written_ref_inv in H. destruct (write_new_ref _ _ _ _ _ H) as (Hnone & Hsame & Htext).
  split_and!; [done | done | ]. exists resolved, size. destruct (resolve_tag_target_inv _ _ _ _ _ _ _ Et) as [Hres Hfile]. split_and!; [done | done|].
  intros Hfit Hfits. unfold get_tag, read_tag, read_text, open_source, mbind, res_bind. rewrite Ev, Hr, Hvan. cbn [orb]. rewrite Htext. cbn [fmap option_fmap option_map content].
  rewrite string_of_bytes_of_string. set (tag := mkTagInfo name _ _ _ _ _ _). change name with (tag_name tag) at 1. by rewrite parse_tag_json.
Qed.

(** Tag the latest version of a dataset that has two. *)
Lemma create_tag_reads_back_witness :
  let io := mkIo 1700000000000000000 (fun _ => false) (fun _ => None) (fun _ => None) (fun _ => false) (fun _ => false) (fun _ => None) (fun _ => None) (fun _ => false) (fun _ => false) in
  let t := mkTree (list_to_map [("ds/_versions/1.manifest", mkFile [7] 0); ("ds/_versions/2.manifest", mkFile [7; 7] 0)]) ∅ in
  exists t', create_tag io "ds" "v1.0" "" 0 t = (Ok tt, t') /\ (forall p, p <> tag_path "ds" "v1.0" -> files t' !! p = files t !! p) /\
    get_tag io (fun _ => 0) "ds" "v1.0" t' = Ok (mkTagInfo "v1.0" None 2 "2023-11-14T22:13:20.000000000Z" "2023-11-14T22:13:20.000000000Z" 2 ∅).
Proof.
  intros io t. set (r := create_tag io "ds" "v1.0" "" 0 t). exists r.2. assert (r = (Ok tt, r.2)) as Hr by (vm_compute; reflexivity). split; [exact Hr|].
  destruct (create_tag_reads_back io (fun _ => 0) "ds" "v1.0" "" 0 t r.2 Hr eq_refl eq_refl) as (_ & Hsame & _). split; [exact Hsame|]. vm_compute. reflexivity.
Defined.

End RefsText.
