(* ===== verification/Cleanup.v ===== *)
(** * Cleanup: removing old versions (src/table/dataset_refs.cpp)

    Which versions a policy removes, the files the kept ones and the branches forked from them still use,
    the files that may go, and their removal: manifests first, then files. Then the clean-up a commit runs,
    and dropping a dataset. *)

From S2P Require Import Prelude Json ReadSafety Pb BasePaths ManifestFile Publish DatasetFiles Refs.

Module Cleanup.
Import Files Refs.

(** ** What a manifest refers to *)

Record ReferencedFiles := mkReferencedFiles {
  data_paths : gset string;
  delete_paths : gset string;
  tx_paths : gset string;
  index_uuids : gset string
}.
Definition nothing : ReferencedFiles := mkReferencedFiles ∅ ∅ ∅ ∅.

Definition add_data (p : string) (r : ReferencedFiles) := mkReferencedFiles ({[p]} ∪ data_paths r) (delete_paths r) (tx_paths r) (index_uuids r).
Definition add_delete (p : string) (r : ReferencedFiles) := mkReferencedFiles (data_paths r) ({[p]} ∪ delete_paths r) (tx_paths r) (index_uuids r).
Definition add_tx (p : string) (r : ReferencedFiles) := mkReferencedFiles (data_paths r) (delete_paths r) ({[p]} ∪ tx_paths r) (index_uuids r).
Definition add_index (p : string) (r : ReferencedFiles) := mkReferencedFiles (data_paths r) (delete_paths r) (tx_paths r) ({[p]} ∪ index_uuids r).

Definition deletion_file_name (fragment : pb.DataFragment) : string :=
  let d := pb.fr_deletion_file fragment in
  "_deletions/" +:+ pretty (pb.fr_id fragment) +:+ "-" +:+ pretty (pb.del_read_version d) +:+ "-" +:+ pretty (pb.del_id d) +:+
  (if pb.del_file_type d =? 1 then ".bin" else ".arrow").

Definition data_path (file : pb.DataFile) : string := "data/" +:+ pb.df_path file.

Definition reference_fragment (files : ReferencedFiles) (fragment : pb.DataFragment) : ReferencedFiles :=
  let files := foldl (fun r file => add_data (data_path file) r) files (pb.fr_files fragment) in
  if pb.del_present (pb.fr_deletion_file fragment) then add_delete (deletion_file_name fragment) files else files.

Definition reference (manifest : pb.Manifest) (files : ReferencedFiles) : ReferencedFiles :=
  let files := foldl reference_fragment files (pb.mf_fragments manifest) in
  let files := if String.eqb (pb.mf_transaction_file manifest) "" then files else add_tx ("_transactions/" +:+ pb.mf_transaction_file manifest) files in
  foldl (fun r index => add_index (pb.uuid_string (pb.ix_uuid index)) r) files (pb.mf_indices manifest).

Definition kUnverifiedThresholdNs : Z := 7 * 24 * 3600 * 1000000000.

Definition manifest_timestamp_ns (manifest : pb.Manifest) : Z :=
  match pb.mf_timestamp manifest with Some (seconds, nanos) => seconds * 1000000000 + nanos | None => 0 end.

(** ** Policies and results *)

Record CleanupPolicy := mkCleanupPolicy {
  before_timestamp_ns : option Z;
  before_version : option Z;
  policy_versions : option (gset Z);
  delete_unverified : bool;
  error_if_tagged_old_versions : bool;
  delete_rate_limit : option Z
}.
Definition CleanupPolicy0 : CleanupPolicy := mkCleanupPolicy None None None false true None.

Definition selected (policy : CleanupPolicy) (version ts : Z) : bool :=
  match before_timestamp_ns policy with Some b => ts <? b | None => true end &&
  match before_version policy with Some b => version <? b | None => true end &&
  match policy_versions policy with Some vs => bool_decide (version ∈ vs) | None => true end.

Inductive Kind := KManifest | KData | KTransaction | KIndex | KDeletion | KTemporaryManifest.
#[export] Instance Kind_eq_dec : EqDecision Kind.
Proof. solve_decision. Defined.

Record CleanupCandidate := mkCandidate { cand_path : string; cand_kind : Kind; unverified : bool; size_bytes : Z }.

Record CleanupStats := mkStats {
  bytes_removed : Z; old_versions : Z; data_files_removed : Z; transaction_files_removed : Z; index_files_removed : Z; deletion_files_removed : Z
}.
Record CleanupResult := mkResult { res_read_version : Z; stats : CleanupStats; candidates : list CleanupCandidate; candidates_truncated : bool }.
Definition CleanupResult0 : CleanupResult := mkResult 0 (mkStats 0 0 0 0 0 0) [] false.

Definition record (max_candidates : nat) (out : CleanupResult) (f : CleanupCandidate) : CleanupResult :=
  let s := stats out in
  let one (k : Kind) : Z := if bool_decide (cand_kind f = k) then 1 else 0 in
  let s := mkStats (bytes_removed s + size_bytes f) (old_versions s + one KManifest) (data_files_removed s + one KData)
             (transaction_files_removed s + one KTransaction) (index_files_removed s + one KIndex) (deletion_files_removed s + one KDeletion) in
  if bool_decide (0 < max_candidates)%nat then
    if bool_decide (length (candidates out) < max_candidates)%nat then mkResult (res_read_version out) s (candidates out ++ [f]) (candidates_truncated out)
    else mkResult (res_read_version out) s (candidates out) true
  else mkResult (res_read_version out) s (candidates out) (candidates_truncated out).

(** ** Which files may go *)

Record File := mkFileToCheck { file_relative : string; file_size : Z; maybe_in_progress : bool }.

(** Kept, removed by age, or removed as an old version's. *)
Definition verdict (file : File) (kept known_old : bool) (kind : Kind) : option (Kind * bool) :=
  if kept then None
  else if negb (maybe_in_progress file) then Some (kind, true)
  else if known_old then Some (kind, false)
  else None.

(** The kind of a file that is removed and whether it is unverified; [None]: it is kept. *)
Definition removable_kind (file : File) (referenced verified : ReferencedFiles) : option (Kind * bool) :=
  let p := file_relative file in
  if starts_with p "_versions/" then
    let name := default "" (Json.literal "_versions/" p) in
    if (starts_with name ".tmp" || ends_with name ".tmp") && negb (maybe_in_progress file) then Some (KTemporaryManifest, true) else None
  else if starts_with p "_indices/" then
    match split_slash (default "" (Json.literal "_indices/" p)) with
    | (_, None) => None
    | (uuid, Some _) => verdict file (bool_decide (uuid ∈ index_uuids referenced)) (bool_decide (uuid ∈ index_uuids verified)) KIndex
    end
  else if ends_with p ".lance" then
    if negb (starts_with p "data/") then None
    else verdict file (bool_decide (p ∈ data_paths referenced)) (bool_decide (p ∈ data_paths verified)) KData
  else if ends_with p ".blob" then
    match Json.literal "data/" p with
    | None => None
    | Some rest =>
        match split_slash rest with
        | (_, None) => None
        | (stem, Some rest) =>
            match split_slash rest with
            | (_, Some _) => None
            | (_, None) =>
                let parent := "data/" +:+ stem +:+ ".lance" in
                verdict file (bool_decide (parent ∈ data_paths referenced)) (bool_decide (parent ∈ data_paths verified)) KData
            end
        end
    end
  else if ends_with p ".arrow" || ends_with p ".bin" then
    if negb (starts_with p "_deletions/") then None
    else verdict file (bool_decide (p ∈ delete_paths referenced)) (bool_decide (p ∈ delete_paths verified)) KDeletion
  else if ends_with p ".txn" then
    if negb (starts_with p "_transactions/") then None
    else
      let known := bool_decide (p ∈ tx_paths verified) in
      if bool_decide (p ∈ tx_paths referenced) then None
      else if negb (maybe_in_progress file) || known then Some (KTransaction, negb known)
      else None
  else None.

Definition tags_named (tags : list TagInfo) (versions : gset Z) : string :=
  let shown := filter (fun tag => tag_branch tag = None /\ tag_version tag ∈ versions) tags in
  let text (tag : TagInfo) := String Json.dquote (tag_name tag +:+ String Json.dquote (": " +:+ pretty (tag_version tag))) in
  "{" +:+ String.concat ", " (text <$> shown) +:+ "}".

(** ** Branches, as the clean-up sees them *)

Record BranchScope := mkBranchScope { scope_root : string; scope_branch : string }.

(** Without the slashes at its end. *)
Fixpoint trim_slashes (fuel : nat) (text : string) : string :=
  match fuel with
  | O => text
  | S fuel => if bool_decide (1 < String.length text)%nat && last_is text 47 then trim_slashes fuel (String.substring 0 (String.length text - 1) text) else text
  end.

Definition branch_scope_of (dataset_path branch : string) : res BranchScope :=
  if String.eqb branch "" then Ok (mkBranchScope dataset_path "")
  else
    let text := lexically_normal dataset_path in
    let text := trim_slashes (String.length text) text in
    let suffix := "/tree/" +:+ branch in
    match ManifestFile.strip_suffix suffix text with
    | None => Err ("branch " +:+ branch +:+ " is not at " +:+ dataset_path +:+ ", where a branch lives: <root>/tree/" +:+ branch)
    | Some root => Ok (mkBranchScope root branch)
    end.

Record ForkedBranch := mkForkedBranch { fork_name : string; fork_dir : string; fork_version : Z }.

Record ForkProtection := mkForkProtection { protected_versions : gset Z; protected_files : ReferencedFiles }.

(** What follows the pass over the manifests. *)
Record Pass := mkPass {
  referenced : ReferencedFiles;
  verified : ReferencedFiles;
  tagged_old : gset Z;
  old_manifests : list CleanupCandidate;
  earliest_kept_ns : option Z;
  latest_removed_ns : option Z
}.

Definition earlier (bound : option Z) (ts : Z) : option Z := match bound with Some b => if ts <? b then Some ts else bound | None => Some ts end.
Definition later (bound : option Z) (ts : Z) : option Z := match bound with Some b => if b <? ts then Some ts else bound | None => Some ts end.

(** The names of manifests: of a version, or detached ([Some None]). *)
Definition manifest_name (name : string) : option (option Z) :=
  match ManifestFile.parse_manifest_version name with
  | Some v => Some (Some v)
  | None => if starts_with name "d" && ends_with name ".manifest" then Some None else None
  end.

(** The directories the clean-up walks. *)
Definition kDirs : list string := ["_versions"; "_transactions"; "data"; "_indices"; "_deletions"].

Section cleanup.
  Context (io : Io) (undefined : Json.double -> Z).
  Context (decode_manifest : list Z -> option pb.Manifest) (decode_index_section : list Z -> res (list pb.IndexMetadata)) (limits : ReadLimits).

Definition load_manifest (check_flags : bool) (path : string) (t : tree) : res pb.Manifest :=
  match open_source io path t with
  | None => Err "failed to open manifest file"
  | Some source => ManifestFile.load_manifest_source decode_manifest decode_index_section limits source check_flags
  end.
Definition load_manifest_file : string -> tree -> res pb.Manifest := load_manifest true.
Definition load_manifest_file_unchecked : string -> tree -> res pb.Manifest := load_manifest false.

Definition forked_branches (scope : BranchScope) (t : tree) : res (list ForkedBranch) :=
  branches ← list_branches io undefined (scope_root scope) t;
  own ← (if String.eqb (scope_branch scope) "" then Ok []
         else match find_branch branches (scope_branch scope) with
              | Some self => Ok (identifier self)
              | None => Err ("branch " +:+ scope_branch scope +:+ " has no reference file under " +:+ path_join (scope_root scope) "_refs")
              end);
  Ok (omap (fun b =>
    if bool_decide (br_name b = scope_branch scope) || negb (extends own (identifier b)) then None
    else
      let version := (nth (length own) (identifier b) (0, "")).1 in
      if version =? 0 then None else Some (mkForkedBranch (br_name b) (path_join (path_join (scope_root scope) "tree") (br_name b)) version)) branches).

(** Whether [base_id] names a base path that is the dataset root at [dir_text]. *)
Definition names_dataset_dir (bases : list BasePaths.BasePath) (base_id : option Z) (dir_text : string) : bool :=
  match base_id with
  | None => false
  | Some base_id =>
      match list_find (fun b => BasePaths.id b = base_id) bases with
      | None => false
      | Some (_, base) =>
          if BasePaths.is_dataset_root base && negb (is_absolute (BasePaths.path base)) then true
          else BasePaths.is_dataset_root base && String.eqb (canonical_text io (BasePaths.path base)) dir_text
      end
  end.

(** The files of a branch's manifest that are here, and whether there is any: of one data file, of one
    fragment, of one index. *)
Definition protect_data (bases : list BasePaths.BasePath) (own : string) (s : ReferencedFiles * bool) (file : pb.DataFile) : res (ReferencedFiles * bool) :=
  base ← BasePaths.data_file_base_id file;
  Ok (if names_dataset_dir bases base own then (add_data (data_path file) s.1, true) else s).

Definition protect_fragment (bases : list BasePaths.BasePath) (own : string) (s : ReferencedFiles * bool) (fragment : pb.DataFragment) : res (ReferencedFiles * bool) :=
  s ← fold_res (protect_data bases own) (pb.fr_files fragment) s;
  if pb.del_present (pb.fr_deletion_file fragment) then
    base ← BasePaths.deletion_file_base_id (pb.fr_deletion_file fragment);
    Ok (if names_dataset_dir bases base own then (add_delete (deletion_file_name fragment) s.1, true) else s)
  else Ok s.

Definition protect_index (bases : list BasePaths.BasePath) (own : string) (s : ReferencedFiles * bool) (index : pb.IndexMetadata) : res (ReferencedFiles * bool) :=
  base ← BasePaths.index_base_id index;
  Ok (if names_dataset_dir bases base own then (add_index (pb.uuid_string (pb.ix_uuid index)) s.1, true) else s).

Definition protect_files (bases : list BasePaths.BasePath) (own : string) (manifest : pb.Manifest) (files : ReferencedFiles) : res (ReferencedFiles * bool) :=
  s ← fold_res (protect_fragment bases own) (pb.mf_fragments manifest) (files, false);
  fold_res (protect_index bases own) (pb.mf_indices manifest) s.

(** One manifest of the branch. *)
Definition protect_manifest (own : string) (fork : ForkedBranch) (out : ForkProtection) (manifest : pb.Manifest) : res ForkProtection :=
  bases ← BasePaths.read_base_paths manifest;
  match protect_files bases own manifest (protected_files out) with
  | Err e => Err e
  | Ok (files, here) => Ok (mkForkProtection (if here then {[fork_version fork]} ∪ protected_versions out else protected_versions out) files)
  end.

Definition protect_fork (dataset_path : string) (t : tree) (out : ForkProtection) (fork : ForkedBranch) : res ForkProtection :=
  entries ← version_files io (path_join (fork_dir fork) "_versions") t;
  fold_res (fun out entry =>
    match manifest_name (vf_name entry) with
    | None => Ok out
    | Some _ =>
        match load_manifest_file (vf_path entry) t with
        | Err e => Err ("cannot clean up: a branch " +:+ fork_name fork +:+ " manifest could not be read: " +:+ e)
        | Ok manifest => protect_manifest (canonical_text io dataset_path) fork out manifest
        end
    end) entries out.

(** Only a fork the policy would remove needs it. *)
Definition protect_if_selected (dataset_path : string) (policy : CleanupPolicy) (t : tree) (out : ForkProtection) (fork : ForkedBranch) : res ForkProtection :=
  match manifest_file_of io dataset_path (fork_version fork) t with
  | None => Ok out
  | Some (path, _) =>
      manifest ← load_manifest_file path t;
      if selected policy (fork_version fork) (manifest_timestamp_ns manifest) then protect_fork dataset_path t out fork else Ok out
  end.

Definition protect_forks (dataset_path : string) (policy : CleanupPolicy) (forks : list ForkedBranch) (t : tree) : res ForkProtection :=
  fold_res (protect_if_selected dataset_path policy t) forks (mkForkProtection ∅ nothing).

(** ** The manifests *)

Section pass.
  Context (policy : CleanupPolicy) (read_version : Z) (tagged forked : gset Z).

Definition keeps (version ts : Z) : bool :=
  (read_version <=? version) || negb (selected policy version ts) || bool_decide (version ∈ tagged) || bool_decide (version ∈ forked).

(** One manifest of a version. *)
Definition pass_version (p : Pass) (name : string) (size version : Z) (manifest : pb.Manifest) : Pass :=
  let ts := manifest_timestamp_ns manifest in
  let tagged_old := if bool_decide (version ∈ tagged) && negb (read_version <=? version) && selected policy version ts then {[version]} ∪ tagged_old p else tagged_old p in
  if keeps version ts then
    mkPass (reference manifest (referenced p)) (verified p) tagged_old (old_manifests p) (earlier (earliest_kept_ns p) ts) (latest_removed_ns p)
  else
    mkPass (referenced p) (reference manifest (verified p)) tagged_old (old_manifests p ++ [mkCandidate ("_versions/" +:+ name) KManifest false size])
      (earliest_kept_ns p) (later (latest_removed_ns p) ts).

Definition pass_entry (t : tree) (p : Pass) (entry : VersionFile) : res Pass :=
  match manifest_name (vf_name entry) with
  | None => Ok p
  | Some attached =>
      match load_manifest_file (vf_path entry) t with
      | Err e =>
          if match attached with Some version => version <? read_version | None => false end && negb (path_exists io (vf_path entry) t) then Ok p
          else Err ("cannot clean up: " +:+ vf_path entry +:+ ": " +:+ e)
      | Ok manifest =>
          if negb (String.eqb (pb.mf_index_section_error manifest) "") then
            Err ("cannot clean up: the indices of " +:+ vf_path entry +:+ " could not be read: " +:+ pb.mf_index_section_error manifest)
          else match attached with
               | None => Ok (mkPass (reference manifest (referenced p)) (verified p) (tagged_old p) (old_manifests p) (earliest_kept_ns p) (latest_removed_ns p))
               | Some version => Ok (pass_version p (vf_name entry) (vf_size entry) version manifest)
               end
      end
  end.

End pass.

(** ** The files *)

(** The objects under a prefix, a listing a level: what is still to list, the last first. *)
Fixpoint walk_store (fuel : nat) (dataset_path : string) (pending : list string) (objects : list (string * DirEntry)) (t : tree) : res (list (string * DirEntry)) :=
  match fuel, pending with
  | _, [] => Ok objects
  | O, _ :: _ => Err "too many directories"
  | S fuel, rel_dir :: pending =>
      match list_dir io (path_join dataset_path rel_dir) t with
      | Err e => Err ("failed to list " +:+ path_join dataset_path rel_dir +:+ ": " +:+ e)
      | Ok entries =>
          let rel (e : DirEntry) := rel_dir +:+ "/" +:+ Files.name e in
          walk_store fuel dataset_path (rev (rel <$> filter (fun e => is_dir e = true) entries) ++ pending)
            (objects ++ ((fun e => (rel e, e)) <$> filter (fun e => is_dir e = false) entries)) t
      end
  end.

(** No more directories than characters in the tree's paths. *)
Definition walk_fuel (t : tree) : nat := S (foldr (fun p n => S (String.length p) + n)%nat O (map_to_list (files t)).*1).

(** An object, dated now when the store does not say when it was modified. *)
Definition walked_object (o : string * DirEntry) : string * Z * Z * Z :=
  let modified := if entry_modified_ns o.2 =? 0 then now_ns io else entry_modified_ns o.2 in
  (o.1, Files.size o.2, now_ns io - modified, modified).

(** What the walk finds under [dir]: relative path, size, age and modification time. *)
Definition walked (dataset_path dir : string) (t : tree) : res (list (string * Z * Z * Z)) :=
  if on_object_store io dataset_path then
    objects ← walk_store (walk_fuel t) dataset_path [dir] [] t;
    Ok (fmap (M := list) walked_object objects)
  else match list_fault io (path_join dataset_path dir) with
       | Some e => if path_exists io (path_join dataset_path dir) t then Err ("failed to list " +:+ path_join dataset_path dir +:+ ": " +:+ e) else Ok []
       | None => Ok (omap (fun '(r, f) => if vanished io (path_join (path_join dataset_path dir) r) then None
                                          else Some (dir +:+ "/" +:+ r, zlen (content f), now_ns io - modified_ns f, modified_ns f))
                       (relative (path_join dataset_path dir) t))
       end.

Definition consider (policy : CleanupPolicy) (p : Pass) (cutoff : option Z) (f : string * Z * Z * Z) : option CleanupCandidate :=
  let '(rel, size, age, modified) := f in
  if match cutoff with Some c => c <? modified | None => false end then None
  else
    match removable_kind (mkFileToCheck rel size (negb (delete_unverified policy) && (age <? kUnverifiedThresholdNs))) (referenced p) (verified p) with
    | Some (kind, unverified) => Some (mkCandidate rel kind unverified size)
    | None => None
    end.

(** The commit time of the earliest kept version, unless a removed one is later. *)
Definition cutoff_of (p : Pass) : option Z :=
  match earliest_kept_ns p, latest_removed_ns p with
  | Some e, Some l => if e <? l then None else Some e
  | e, _ => e
  end.

Definition removable_files (dataset_path : string) (policy : CleanupPolicy) (p : Pass) (t : tree) : res (list CleanupCandidate) :=
  fold_res (fun out dir =>
    fs ← walked dataset_path dir t;
    Ok (out ++ omap (consider policy p (if String.eqb dir "_indices" then None else cutoff_of p)) fs)) kDirs [].

(** ** Removing *)

Fixpoint remove_candidates (dataset_path : string) (cs : list CleanupCandidate) (t : tree) : res unit * tree :=
  match cs with
  | [] => (Ok tt, t)
  | c :: cs =>
      let path := path_join dataset_path (cand_path c) in
      match remove_fault io path with
      | Some e => (Err ("failed to remove " +:+ path +:+ ": " +:+ e), t)
      | None => remove_candidates dataset_path cs (remove path t)
      end
  end.

(** The directories of removed index files that are left empty. *)
Definition index_dirs (dataset_path : string) (cs : list CleanupCandidate) : list string :=
  let indices := path_join dataset_path "_indices" in
  rev (merge_sort String.le (remove_dups (mjoin ((fun c =>
    let path := path_join dataset_path (cand_path c) in
    filter (fun d => is_Some (below indices d)) (with_parents (String.length path) (parent_path path))) <$> filter (fun c => cand_kind c = KIndex) cs)))).

Definition remove_if_empty (t : tree) (dir : string) : tree :=
  if under dir t || bool_decide (exists d, d ∈ dirs t /\ is_Some (below dir d)) then t else mkTree (files t) (dirs t ∖ {[dir]}).

(** ** The clean-up *)

(** What the clean-up does, decided: the pass over the manifests and the files that go. *)
Record Plan := mkPlan { plan_pass : Pass; plan_files : list CleanupCandidate; plan_tags : list TagInfo; plan_read_version : Z }.

Definition no_manifest (dataset_path : string) : string := "no manifest found in " +:+ path_join dataset_path "_versions".

Definition resolve_read_version (dataset_path : string) (read_version : Z) (t : tree) : res Z :=
  if read_version =? 0 then
    match Publish.highest_manifest_version (faults_at io dataset_path) (store_at io dataset_path t) with
    | Err e => Err e
    | Ok v => if v =? 0 then Err (no_manifest dataset_path) else Ok v
    end
  else Ok read_version.

Definition tagged_versions (scope : BranchScope) (tags : list TagInfo) : gset Z :=
  list_to_set (tag_version <$> filter (fun tag => tag_branch tag = on_branch (scope_branch scope)) tags).

Definition plan (dataset_path : string) (read_version : Z) (policy : CleanupPolicy) (t : tree) : res Plan :=
  if bool_decide (delete_rate_limit policy = Some 0) then Err "Cleanup error: delete_rate_limit must be greater than 0, got 0"
  else if bool_decide (policy_versions policy = Some ∅) then Err "Invalid user input: versions must not be empty when specified"
  else
    read_version ← resolve_read_version dataset_path read_version t;
    current ← Publish.load_manifest_version decode_manifest decode_index_section limits (faults_at io dataset_path) (store_at io dataset_path t) read_version;
    branch ← BasePaths.read_manifest_branch current;
    scope ← branch_scope_of dataset_path branch;
    tags ← list_tags io undefined (scope_root scope) t;
    forks ← forked_branches scope t;
    protection ← protect_forks dataset_path policy forks t;
    entries ← version_files io (path_join dataset_path "_versions") t;
    let tagged := tagged_versions scope tags in
    let start := protected_files protection in
    p ← fold_res (pass_entry policy read_version tagged (protected_versions protection) t) entries
          (mkPass (mkReferencedFiles (data_paths start) (delete_paths start) ∅ (index_uuids start)) nothing ∅ [] None None);
    if error_if_tagged_old_versions policy && negb (bool_decide (tagged_old p = ∅)) then
      Err ("Cleanup error: " +:+ pretty (Z.of_nat (stdpp.base.size (tagged_old p))) +:+
           " tagged version(s) have been marked for cleanup. Either set `error_if_tagged_old_versions=false` or delete the following tag(s) to enable cleanup: " +:+
           tags_named tags (tagged_old p))
    else
      files ← removable_files dataset_path policy p t;
      Ok (mkPlan p files tags read_version).

Definition cleanup_old_versions (dataset_path : string) (read_version : Z) (policy : CleanupPolicy) (execute : bool) (max_candidates : nat) (t : tree)
    : res CleanupResult * tree :=
  match plan dataset_path read_version policy t with
  | Err e => (Err e, t)
  | Ok p =>
      let removed := old_manifests (plan_pass p) ++ plan_files p in
      let out := foldl (record max_candidates) (mkResult (plan_read_version p) (stats CleanupResult0) [] false) removed in
      if negb execute then (Ok out, t)
      else match remove_candidates dataset_path removed t with
           | (Err e, t) => (Err e, t)
           | (Ok _, t) => (Ok out, if on_object_store io dataset_path then t else foldl remove_if_empty t (index_dirs dataset_path removed))
           end
  end.

Definition cleanup_retain_versions (dataset_path : string) (n : Z) (policy : CleanupPolicy) (t : tree) : res CleanupPolicy :=
  if n =? 0 then Err "Invalid user input: retain_versions must be greater than 0, got 0"
  else
    versions ← Publish.list_manifest_versions (faults_at io dataset_path) (store_at io dataset_path t);
    if bool_decide (versions = []) then Err (no_manifest dataset_path)
    else
      let before := if zlen versions <=? n then nth 0 versions 0 else nth (Z.to_nat (zlen versions - n)) versions 0 in
      Ok (mkCleanupPolicy (before_timestamp_ns policy) (Some before) (policy_versions policy) (delete_unverified policy)
            (error_if_tagged_old_versions policy) (delete_rate_limit policy)).

(** ** After a commit *)

(** [std::stoull] of a configured value: blanks, a sign and digits at its front; [None]: it throws. *)
Definition stoull (s : string) : option Z :=
  let '(negative, s) := Json.sign (Json.space s) in
  let '(digits, _) := Json.span_digits s in
  if String.eqb digits "" then None
  else let v := digits_value 0 digits in if v <=? U64_MAX then Some (if negative then u64 (- v) else v) else None.

(** humantime's units, in nanoseconds. *)
Definition kUnits : list (string * Z) :=
  let second := 1000000000 in
  [("nanoseconds", 1); ("nanosecond", 1); ("nsec", 1); ("ns", 1);
   ("microseconds", 1000); ("microsecond", 1000); ("usec", 1000); ("us", 1000); (String (Json.chr 194) (String (Json.chr 181) "s"), 1000);
   ("milliseconds", 1000000); ("millisecond", 1000000); ("msec", 1000000); ("ms", 1000000);
   ("seconds", second); ("second", second); ("secs", second); ("sec", second); ("s", second);
   ("minutes", 60 * second); ("minute", 60 * second); ("mins", 60 * second); ("min", 60 * second); ("m", 60 * second);
   ("hours", 3600 * second); ("hour", 3600 * second); ("hrs", 3600 * second); ("hr", 3600 * second); ("h", 3600 * second);
   ("days", 86400 * second); ("day", 86400 * second); ("d", 86400 * second);
   ("weeks", 604800 * second); ("week", 604800 * second); ("w", 604800 * second);
   ("months", 2630016 * second); ("month", 2630016 * second); ("M", 2630016 * second);
   ("years", 31557600 * second); ("year", 31557600 * second); ("y", 31557600 * second)].

Fixpoint skip_spaces (t : string) : string :=
  match t with String c rest => if Json.char_is c 32 then skip_spaces rest else t | "" => "" end.

Fixpoint span_unit (t : string) : string * string :=
  match t with
  | String c rest => if negb (Json.char_is c 32) && negb (is_digit c) then let '(unit, rest) := span_unit rest in (String c unit, rest) else ("", t)
  | "" => ("", "")
  end.

(** A number and its unit after the other; every turn takes a digit. *)
Fixpoint duration_loop (fuel : nat) (t : string) (total : Json.double) (any : bool) : option (Json.double * bool) :=
  let t := skip_spaces t in
  if String.eqb t "" then Some (total, any)
  else match fuel with
       | O => None
       | S fuel =>
           let '(digits, t) := Json.span_digits t in
           if String.eqb digits "" then None
           else
             let number := Json.number (digits_value 0 digits) in
             let '(unit, t) := span_unit (skip_spaces t) in
             match list_find (fun u => u.1 = unit) kUnits with
             | None => None
             | Some (_, (_, ns)) => duration_loop fuel t (Json.add_double total (Json.mul_double number (Json.number ns))) true
             end
       end.

Definition parse_duration (text : string) : option Z :=
  '(total, any) ← duration_loop (String.length text) text (Json.Finite 0 0) false;
  if negb any || Json.exceeds total 9200000000000000000 then None else Some (Json.truncate total).

(** The policy a dataset's configuration asks for at a version; [None]: no clean-up. *)
Definition auto_policy (dataset_path : string) (committed_version : Z) (config : gmap string string) (t : tree) : option CleanupPolicy :=
  match config !! "lance.auto_cleanup.interval" with
  | None => None
  | Some interval =>
      if committed_version <? 2 then None
      else
        interval ← stoull interval;
        if negb (interval =? 0) && negb (committed_version mod interval =? 0) then None
        else
          policy ← match config !! "lance.auto_cleanup.older_than" with
                   | None => Some CleanupPolicy0
                   | Some text => ns ← parse_duration text; Some (mkCleanupPolicy (Some (now_ns io - ns)) None None false true None)
                   end;
          policy ← match config !! "lance.auto_cleanup.retain_versions" with
                   | None => Some policy
                   | Some text => n ← stoull text; match cleanup_retain_versions dataset_path n policy t with Ok policy => Some policy | Err _ => None end
                   end;
          match config !! "lance.auto_cleanup.delete_rate_limit" with
          | None => Some policy
          | Some text =>
              n ← stoull text;
              Some (mkCleanupPolicy (before_timestamp_ns policy) (before_version policy) (policy_versions policy) (delete_unverified policy)
                      (error_if_tagged_old_versions policy) (Some n))
          end
  end.

(** As of the version the commit was made from; errors are ignored. *)
Definition run_auto_cleanup (dataset_path : string) (committed_version : Z) (config : gmap string string) (t : tree) : tree :=
  match auto_policy dataset_path committed_version config t with
  | None => t
  | Some policy => (cleanup_old_versions dataset_path (committed_version - 1) policy true 0 t).2
  end.

(** ** Dropping a dataset *)

Definition not_a_dataset_error (dataset_path : string) : string :=
  "Invalid user input: Refusing to drop '" +:+ dataset_path +:+
  "': no readable Lance manifest was found under '_versions', so this is not a dataset root. Check that the path points at a dataset and not at a parent directory, and check the logs for manifests that could not be read. A path holding only data files, or only manifests that cannot be read, needs an explicit storage-level delete instead: such leftovers neither block re-creating the dataset nor survive cleanup.".

(** A manifest of [_versions] that reads. *)
Definition readable_manifest (dataset_path : string) (entries : list DirEntry) (t : tree) : bool :=
  existsb (fun e =>
    negb (is_dir e) && bool_decide (is_Some (manifest_name (Files.name e))) &&
    match load_manifest_file_unchecked (path_join (path_join dataset_path "_versions") (Files.name e)) t with Ok _ => true | Err _ => false end) entries.

Definition marked (dataset_path : string) (t : tree) : bool :=
  path_exists io (path_join dataset_path ".lance-reserved") t || path_exists io (path_join dataset_path ".lance-deregistered") t.

(** What shows that a path is a dataset; an empty local directory may go too. *)
Definition qualifies (dataset_path : string) (t : tree) : res bool :=
  if on_object_store io dataset_path then
    if marked dataset_path t then Ok true
    else entries ← list_dir io (path_join dataset_path "_versions") t; Ok (readable_manifest dataset_path entries t)
  else
    let empty := bool_decide (dataset_path ∈ dirs t) && negb (under dataset_path t) && negb (bool_decide (exists d, d ∈ dirs t /\ is_Some (below dataset_path d))) in
    Ok (marked dataset_path t || empty ||
        match list_dir io (path_join dataset_path "_versions") t with Ok entries => readable_manifest dataset_path entries t | Err _ => false end).

Definition drop_dataset (dataset_path : string) (ignore_not_found : bool) (t : tree) : res unit * tree :=
  let missing := (if ignore_not_found then Ok tt else Err ("Dataset at path " +:+ dataset_path +:+ " was not found"), t) in
  match (if on_object_store io dataset_path then objects ← objects_under io (depth t) dataset_path t; Ok (negb (bool_decide (objects = [])))
         else Ok (path_exists io dataset_path t)) with
  | Err e => (Err e, t)
  | Ok false => missing
  | Ok true =>
      match qualifies dataset_path t with
      | Err e => (Err e, t)
      | Ok false => (Err (not_a_dataset_error dataset_path), t)
      | Ok true =>
          match remove_tree io dataset_path t with
          | (Err e, t) => (Err ("failed to drop " +:+ dataset_path +:+ ": " +:+ e), t)
          | (Ok _, t) => (Ok tt, t)
          end
      end
  end.

End cleanup.

End Cleanup.
