(* ===== verification/CleanupSafe.v ===== *)
(** * CleanupSafe: what a clean-up never removes

    Files that a kept manifest uses, in this directory or through a branch, whatever fails and wherever the
    removal stops. *)

From S2P Require Import Prelude Json ReadSafety Pb BasePaths ManifestFile Publish DatasetFiles Refs Cleanup.

Module CleanupSafe.
Import Files Refs Cleanup.

(** ** Sets of references *)

Record contained (a b : ReferencedFiles) : Prop := {
  sub_data : data_paths a ⊆ data_paths b;
  sub_delete : delete_paths a ⊆ delete_paths b;
  sub_tx : tx_paths a ⊆ tx_paths b;
  sub_index : index_uuids a ⊆ index_uuids b
}.

#[export] Instance contained_preorder : PreOrder contained.
Proof.
  split; [intros a; by split|]. intros a b c [Hab1 Hab2 Hab3 Hab4] [Hbc1 Hbc2 Hbc3 Hbc4]. split; by etrans.
Qed.

Lemma nothing_contained r : contained nothing r.
Proof. split; apply empty_subseteq. Qed.

(** Adding keeps what is there, and keeps the order between two sets. *)
Definition grows (f : ReferencedFiles -> ReferencedFiles) : Prop :=
  (forall r, contained r (f r)) /\ forall a b, contained a b -> contained (f a) (f b).

Lemma grows_add_data p : grows (add_data p).
Proof. split; [intros r; split; cbn; set_solver|]. intros a b []. split; cbn; set_solver. Qed.
Lemma grows_add_delete p : grows (add_delete p).
Proof. split; [intros r; split; cbn; set_solver|]. intros a b []. split; cbn; set_solver. Qed.
Lemma grows_add_tx p : grows (add_tx p).
Proof. split; [intros r; split; cbn; set_solver|]. intros a b []. split; cbn; set_solver. Qed.
Lemma grows_add_index p : grows (add_index p).
Proof. split; [intros r; split; cbn; set_solver|]. intros a b []. split; cbn; set_solver. Qed.
Lemma grows_id : grows (fun r => r).
Proof. by split. Qed.
Lemma grows_compose f g : grows f -> grows g -> grows (fun r => g (f r)).
Proof. intros [Hf1 Hf2] [Hg1 Hg2]. split; [intros r; etrans; [apply Hf1 | apply Hg1]|]. intros a b H. by apply Hg2, Hf2. Qed.
Lemma grows_foldl {A} (f : ReferencedFiles -> A -> ReferencedFiles) l : (forall x, grows (fun r => f r x)) -> grows (fun r => foldl f r l).
Proof. intros Hf. induction l as [|x l IH]; [apply grows_id|]. exact (grows_compose _ _ (Hf x) IH). Qed.

#[export] Hint Resolve grows_add_data grows_add_delete grows_add_tx grows_add_index grows_id : nano.

Lemma grows_fragment f : grows (fun r => reference_fragment r f).
Proof.
  unfold reference_fragment. apply (grows_compose (fun r => foldl (fun r file => add_data (data_path file) r) r (pb.fr_files f))
    (fun r => if pb.del_present (pb.fr_deletion_file f) then add_delete (deletion_file_name f) r else r)).
  - apply grows_foldl. auto with nano.
  - destruct (pb.del_present _); auto with nano.
Qed.

Lemma grows_reference m : grows (reference m).
Proof.
  unfold reference. apply (grows_compose (fun r => foldl reference_fragment r (pb.mf_fragments m))
    (fun r => foldl (fun r index => add_index (pb.uuid_string (pb.ix_uuid index)) r)
       (if String.eqb (pb.mf_transaction_file m) "" then r else add_tx ("_transactions/" +:+ pb.mf_transaction_file m) r) (pb.mf_indices m))).
  - apply grows_foldl, grows_fragment.
  - apply (grows_compose (fun r => if String.eqb (pb.mf_transaction_file m) "" then r else add_tx ("_transactions/" +:+ pb.mf_transaction_file m) r)
      (fun r => foldl (fun r index => add_index (pb.uuid_string (pb.ix_uuid index)) r) r (pb.mf_indices m))).
    + destruct (String.eqb _ _); auto with nano.
    + apply grows_foldl. auto with nano.
Qed.

(** ** Where references point *)

(** Data, deletion and transaction files are in their directories. *)
Record placed (r : ReferencedFiles) : Prop := {
  placed_data : forall p, p ∈ data_paths r -> exists q, p = "data/" +:+ q;
  placed_delete : forall p, p ∈ delete_paths r -> exists q, p = "_deletions/" +:+ q /\ (ends_with p ".arrow" = true \/ ends_with p ".bin" = true);
  placed_tx : forall p, p ∈ tx_paths r -> exists q, p = "_transactions/" +:+ q
}.

(** The files of a dataset directory that [r] refers to, with the blobs of its data files. *)
Inductive used (r : ReferencedFiles) : string -> Prop :=
  | used_data p : p ∈ data_paths r -> ends_with p ".blob" = false -> used r p
  | used_blob stem blob : "data/" +:+ stem +:+ ".lance" ∈ data_paths r -> split_slash stem = (stem, None) -> split_slash blob = (blob, None) ->
      ends_with blob ".blob" = true -> used r ("data/" +:+ stem +:+ "/" +:+ blob)
  | used_delete p : p ∈ delete_paths r -> used r p
  | used_tx p : p ∈ tx_paths r -> used r p
  | used_index uuid rest : uuid ∈ index_uuids r -> split_slash uuid = (uuid, None) -> used r ("_indices/" +:+ uuid +:+ "/" +:+ rest).

Lemma used_mono a b p : contained a b -> used a p -> used b p.
Proof. intros [H1 H2 H3 H4] []; [eapply used_data | eapply used_blob | eapply used_delete | eapply used_tx | eapply used_index]; eauto. Qed.

(** ** Prefixes and suffixes *)

Lemma starts_with_app p q : starts_with (p +:+ q) p = true.
Proof. unfold starts_with. rewrite literal_app. by apply bool_decide_true. Qed.

Lemma starts_with_inv s p : starts_with s p = true -> exists q, s = p +:+ q.
Proof. unfold starts_with. intros [q Hq]%bool_decide_eq_true. exists q. by apply literal_inv. Qed.

Lemma ends_with_app a b : ends_with (a +:+ b) b = true.
Proof.
  unfold ends_with. rewrite string_length_app, bool_decide_true by lia. replace (String.length a + String.length b - String.length b)%nat with (String.length a) by lia.
  rewrite ManifestFile.substring_suffix. apply String.eqb_refl.
Qed.

Lemma substring_split s n : (n <= String.length s)%nat -> s = String.substring 0 n s +:+ String.substring n (String.length s - n) s.
Proof.
  revert n. induction s as [|c s IH]; intros n Hn; [by assert (n = 0%nat) as -> by (cbn in Hn; lia)|]. destruct n as [|n].
  - change (String.substring 0 0 (String c s)) with "". rewrite Nat.sub_0_r, ManifestFile.substring_full. done.
  - change (String c s = String c (String.substring 0 n s +:+ String.substring n (String.length s - n) s)). f_equal. apply IH. cbn in Hn. lia.
Qed.

Lemma ends_with_inv s b : ends_with s b = true -> exists a, s = a +:+ b.
Proof.
  unfold ends_with. intros [Hn%bool_decide_eq_true He%String.eqb_eq]%andb_prop. exists (String.substring 0 (String.length s - String.length b) s).
  rewrite <- He at 2. rewrite (substring_split s (String.length s - String.length b)) at 1 by lia. do 2 f_equal. lia.
Qed.

(** Two suffixes of the same text end the same way. *)
Lemma append_last_eq a b c d : a +:+ String c "" = b +:+ String d "" -> c = d.
Proof.
  revert b. induction a as [|x a IH]; intros b H.
  - destruct b as [|y b]; [by injection H|]. rewrite append_cons in H. injection H as _ H. by destruct b.
  - destruct b as [|y b]; rewrite append_cons in H; [injection H as _ H; by destruct a|]. rewrite append_cons in H. injection H as _ H. by apply IH in H.
Qed.

(** Suffixes with different last characters exclude each other. *)
Lemma ends_with_last s a b c d :
  ends_with s (a +:+ String c "") = true -> ends_with s (b +:+ String d "") = true -> c = d.
Proof.
  intros [x ->]%ends_with_inv [y Hy]%ends_with_inv. rewrite <- !append_assoc in Hy. by apply append_last_eq in Hy.
Qed.

Lemma split_slash_app a b : split_slash a = (a, None) -> split_slash (a +:+ "/" +:+ b) = (a, Some b).
Proof.
  induction a as [|c a IH]; [done|]. cbn [split_slash]. intros H. rewrite append_cons. cbn [split_slash]. destruct (Json.char_is c 47); [done|].
  destruct (split_slash a) as [n o] eqn:E. injection H as -> ->. by rewrite (IH eq_refl).
Qed.

(** ** Referenced files are not removable *)

Lemma verdict_kept f old kind : verdict f true old kind = None.
Proof. done. Qed.

Lemma removable_used f ref ver k : placed ref -> removable_kind f ref ver = Some k -> ~ used ref (file_relative f).
Proof.
  intros Hp H Hu. assert (removable_kind f ref ver = None) as Hnone; [|by rewrite Hnone in H]. clear H. unfold removable_kind.
  destruct Hu as [p Hin Hb|stem blob Hin Hs Hbl Hblob|p Hin|p Hin|uuid rest Hin Hs].
  - destruct (placed_data _ Hp p Hin) as [q ->]. change (starts_with ("data/" +:+ q) "_versions/") with false. change (starts_with ("data/" +:+ q) "_indices/") with false.
    rewrite starts_with_app, Hb. change (starts_with ("data/" +:+ q) "_deletions/") with false. change (starts_with ("data/" +:+ q) "_transactions/") with false.
    rewrite (bool_decide_true _ Hin), verdict_kept. by repeat case_match.
  - set (p := "data/" +:+ stem +:+ "/" +:+ blob).
    assert (ends_with p ".blob" = true) as Hpb. { destruct (ends_with_inv _ _ Hblob) as [a ->]. unfold p. rewrite <- !append_assoc. apply ends_with_app. }
    assert (ends_with p ".lance" = false) as Hpl.
    { destruct (ends_with p ".lance") eqn:E; [|done]. exfalso. by pose proof (ends_with_last p ".lanc" ".blo" (Json.chr 101) (Json.chr 98) E Hpb). }
    change (starts_with p "_versions/") with false. change (starts_with p "_indices/") with false. rewrite Hpl, Hpb. unfold p. rewrite literal_app, split_slash_app, Hbl by done.
    by rewrite (bool_decide_true _ Hin), verdict_kept.
  - destruct (placed_delete _ Hp p Hin) as (q & -> & He). change (starts_with ("_deletions/" +:+ q) "_versions/") with false. change (starts_with ("_deletions/" +:+ q) "_indices/") with false.
    rewrite (bool_decide_true _ Hin), verdict_kept, starts_with_app.
    assert (forall a c, c <> Json.chr 119 -> c <> Json.chr 110 -> ends_with ("_deletions/" +:+ q) (a +:+ String c "") = false) as Hno.
    { intros a c Hw Hn. destruct (ends_with _ (a +:+ String c "")) eqn:E; [|done]. destruct He as [He|He]; [by pose proof (ends_with_last _ a ".arro" c (Json.chr 119) E He) | by pose proof (ends_with_last _ a ".bi" c (Json.chr 110) E He)]. }
    pose proof (Hno ".lanc" (Json.chr 101) ltac:(done) ltac:(done)) as H1. pose proof (Hno ".blo" (Json.chr 98) ltac:(done) ltac:(done)) as H2.
    change (".lanc" +:+ String (Json.chr 101) "") with ".lance" in H1. change (".blo" +:+ String (Json.chr 98) "") with ".blob" in H2. rewrite H1, H2. assert (ends_with ("_deletions/" +:+ q) ".arrow" || ends_with ("_deletions/" +:+ q) ".bin" = true) as -> by (by apply orb_true_iff). done.
  - destruct (placed_tx _ Hp p Hin) as [q ->]. change (starts_with ("_transactions/" +:+ q) "_versions/") with false. change (starts_with ("_transactions/" +:+ q) "_indices/") with false.
    change (starts_with ("_transactions/" +:+ q) "data/") with false. change (Json.literal "data/" ("_transactions/" +:+ q)) with (None : option string).
    change (starts_with ("_transactions/" +:+ q) "_deletions/") with false. rewrite (bool_decide_true _ Hin). by repeat case_match.
  - change (starts_with ("_indices/" +:+ uuid +:+ "/" +:+ rest) "_versions/") with false. rewrite starts_with_app, literal_app.
    change (default "" (Some (uuid +:+ "/" +:+ rest))) with (uuid +:+ "/" +:+ rest). rewrite split_slash_app by done. by rewrite (bool_decide_true _ Hin), verdict_kept.
Qed.

(** ** References stay in their directories *)

Lemma placed_nothing : placed nothing.
Proof. split; intros p Hp; cbn in Hp; set_solver. Qed.

Lemma placed_add_data f r : placed r -> placed (add_data (data_path f) r).
Proof. intros [H1 H2 H3]. split; cbn; [|done|done]. intros p [->%elem_of_singleton|Hp]%elem_of_union; [by eexists | by apply H1]. Qed.

Lemma placed_add_delete f r : placed r -> placed (add_delete (deletion_file_name f) r).
Proof.
  intros [H1 H2 H3]. split; cbn; [done| |done]. intros p [->%elem_of_singleton|Hp]%elem_of_union; [|by apply H2]. unfold deletion_file_name. eexists. split; [reflexivity|].
  destruct (pb.del_file_type _ =? 1); [right | left]; rewrite <- !append_assoc; apply ends_with_app.
Qed.

Lemma placed_add_tx q r : placed r -> placed (add_tx ("_transactions/" +:+ q) r).
Proof. intros [H1 H2 H3]. split; cbn; [done|done|]. intros p [->%elem_of_singleton|Hp]%elem_of_union; [by eexists | by apply H3]. Qed.

Lemma placed_add_index q r : placed r -> placed (add_index q r).
Proof. intros [H1 H2 H3]. by split. Qed.

Lemma placed_foldl {A} (f : ReferencedFiles -> A -> ReferencedFiles) l r : (forall x r, placed r -> placed (f r x)) -> placed r -> placed (foldl f r l).
Proof. intros Hf. revert r. induction l as [|x l IH]; intros r Hr; [done|]. apply IH, Hf, Hr. Qed.

Lemma placed_reference m r : placed r -> placed (reference m r).
Proof.
  intros Hr. unfold reference. apply placed_foldl; [intros; by apply placed_add_index|].
  assert (placed (foldl reference_fragment r (pb.mf_fragments m))) as H.
  { apply placed_foldl; [|done]. intros f r' Hr'. unfold reference_fragment.
    assert (placed (foldl (fun r file => add_data (data_path file) r) r' (pb.fr_files f))) as H by (apply placed_foldl; [intros; by apply placed_add_data | done]).
    destruct (pb.del_present _); [by apply placed_add_delete | done]. }
  destruct (String.eqb _ _); [done | by apply placed_add_tx].
Qed.

(** ** Paths of a dataset directory *)

Lemma list_ascii_app a b : String.list_ascii_of_string (a +:+ b) = String.list_ascii_of_string a ++ String.list_ascii_of_string b.
Proof. induction a as [|c a IH]; [done|]. rewrite append_cons. cbn. by rewrite IH. Qed.

(** A name that does not end in a slash. *)
Definition open_ended (x : string) : Prop := exists c, last (String.list_ascii_of_string x) = Some c /\ c <> Json.chr 47.

Lemma path_join_nested d x n : open_ended x -> path_join (path_join d x) n = path_join d (x +:+ "/" +:+ n).
Proof.
  intros (c & Hc & Hne). rewrite (path_join_prefix d x), (path_join_prefix d (x +:+ "/" +:+ n)).
  assert (last (String.list_ascii_of_string (path_join d "" +:+ x)) = Some c) as Hl by (rewrite list_ascii_app, last_app, Hc; done).
  unfold path_join at 1. rewrite Hl, bool_decide_false by done. by rewrite !append_assoc.
Qed.

Lemma versions_path d n : path_join (path_join d "_versions") n = path_join d ("_versions/" +:+ n).
Proof. apply (path_join_nested d "_versions"). by eexists. Qed.

(** A used file is not in [_versions]. *)
Lemma used_not_version r p n : placed r -> used r p -> p <> "_versions/" +:+ n.
Proof.
  intros Hp [q Hin Hb|stem blob _ _ _ _|q Hin|q Hin|uuid rest _ _] H.
  - destruct (placed_data _ Hp q Hin) as [x ->]. discriminate H.
  - discriminate H.
  - destruct (placed_delete _ Hp q Hin) as (x & -> & _). discriminate H.
  - destruct (placed_tx _ Hp q Hin) as [x ->]. discriminate H.
  - discriminate H.
Qed.

(** ** Removal *)

(** What is left when the candidates [cs] are gone. *)
Definition gone (dataset_path : string) (cs : list CleanupCandidate) (t t' : tree) : Prop :=
  forall q, files t' !! path_join dataset_path q = if bool_decide (q ∈ cand_path <$> cs) then None else files t !! path_join dataset_path q.

Lemma remove_lookup d q q' t : files (remove (path_join d q) t) !! path_join d q' = if bool_decide (q' = q) then None else files t !! path_join d q'.
Proof.
  unfold remove. cbn [files]. case_bool_decide as H; [subst; by rewrite lookup_delete_eq|]. rewrite lookup_delete_ne; [done|]. intros Heq. apply H. by apply path_join_inj in Heq.
Qed.

(** Removal stops somewhere; when it succeeds, at the end. *)
Lemma remove_candidates_spec io d cs t r t' :
  remove_candidates io d cs t = (r, t') -> exists k, gone d (take k cs) t t' /\ (r = Ok tt -> k = length cs).
Proof.
  revert t. induction cs as [|c cs IH]; intros t H; cbn [remove_candidates] in H.
  - injection H as <- <-. exists O. split; [intros q; cbn; by rewrite bool_decide_false by (by intros []%elem_of_nil) | done].
  - destruct (remove_fault io (path_join d (cand_path c))) as [e|].
    + injection H as <- <-. exists O. split; [intros q; cbn; by rewrite bool_decide_false by (by intros []%elem_of_nil) | done].
    + apply IH in H as (k & Hg & Hk). exists (S k). split; [|intros Hr; cbn; by rewrite (Hk Hr)]. intros q. cbn [take fmap list_fmap]. rewrite (Hg q), remove_lookup.
      repeat case_bool_decide; try done; set_solver.
Qed.

Lemma remove_if_empty_files t l : files (foldl remove_if_empty t l) = files t.
Proof. revert t. induction l as [|d l IH]; intros t; [done|]. cbn. rewrite IH. unfold remove_if_empty. by case_match. Qed.

Lemma fmap_take_elem {A B} (f : A -> B) k l q : q ∈ f <$> take k l -> q ∈ f <$> l.
Proof. rewrite fmap_take. intros H. rewrite <- (take_drop k (f <$> l)). apply elem_of_app. by left. Qed.

(** ** The pass over the manifests *)

Lemma fold_res_elem {A S} (body : S -> A -> res S) l s s' x :
  fold_res body l s = Ok s' -> x ∈ l -> exists l1 l2 s1 s2, l = l1 ++ x :: l2 /\ fold_res body l1 s = Ok s1 /\ body s1 x = Ok s2 /\ fold_res body l2 s2 = Ok s'.
Proof.
  intros H (l1 & l2 & ->)%list_elem_of_split. rewrite fold_res_app in H. unfold mbind, res_bind in H. destruct (fold_res body l1 s) as [s1|] eqn:E1; [|done].
  cbn in H. destruct (body s1 x) as [s2|] eqn:E2; [|done]. cbn in H. by exists l1, l2, s1, s2.
Qed.

(** An invariant of the states of a loop. *)
Lemma fold_res_ind {A S} (P : S -> Prop) (body : S -> A -> res S) l s s' :
  (forall s x s', x ∈ l -> P s -> body s x = Ok s' -> P s') -> P s -> fold_res body l s = Ok s' -> P s'.
Proof.
  revert s. induction l as [|x l IH]; intros s Hstep Hs H; cbn in H; [by injection H as <-|]. unfold mbind, res_bind in H. destruct (body s x) as [s1|] eqn:E; [|done].
  apply (IH s1); [|by apply (Hstep s x); [left | | ]|done]. intros. eapply Hstep; [by right|done|done].
Qed.

Section safe.
  Context (io : Io) (undefined : Json.double -> Z).
  Context (decode_manifest : list Z -> option pb.Manifest) (decode_index_section : list Z -> res (list pb.IndexMetadata)) (limits : ReadLimits).

Notation load := (load_manifest_file io decode_manifest decode_index_section limits).
Notation pass_entry := (pass_entry io decode_manifest decode_index_section limits).
Notation plan := (plan io undefined decode_manifest decode_index_section limits).
Notation cleanup := (cleanup_old_versions io undefined decode_manifest decode_index_section limits).

(** What the pass knows of a manifest. *)
Definition judged (policy : CleanupPolicy) (read_version : Z) (tagged forked : gset Z) (p : Pass) (entry : VersionFile) (manifest : pb.Manifest) : Prop :=
  match manifest_name (vf_name entry) with
  | None => True
  | Some None => contained (reference manifest nothing) (referenced p)
  | Some (Some v) =>
      if keeps policy read_version tagged forked v (manifest_timestamp_ns manifest) then contained (reference manifest nothing) (referenced p)
      else "_versions/" +:+ vf_name entry ∈ cand_path <$> old_manifests p
  end.

Record later_pass (a b : Pass) : Prop := {
  lp_referenced : contained (referenced a) (referenced b);
  lp_old : exists more, old_manifests b = old_manifests a ++ more
}.

#[local] Instance later_pass_preorder : PreOrder later_pass.
Proof.
  split; [intros a; split; [done | exists []; by rewrite app_nil_r]|]. intros a b c [H1 [m1 H2]] [H3 [m2 H4]]. split; [by etrans|].
  exists (m1 ++ m2). by rewrite H4, H2, <- app_assoc.
Qed.

Lemma pass_version_later policy rv tagged forked p name size v m : later_pass p (pass_version policy rv tagged forked p name size v m).
Proof.
  unfold pass_version. destruct (keeps _ _ _ _ _ _); split; cbn [referenced old_manifests].
  - apply grows_reference.
  - exists []. by rewrite app_nil_r.
  - done.
  - by eexists.
Qed.

Lemma pass_entry_later policy rv tagged forked t p e p' : pass_entry policy rv tagged forked t p e = Ok p' -> later_pass p p'.
Proof.
  unfold Cleanup.pass_entry. intros H. destruct (manifest_name (vf_name e)) as [attached|]; [|by injection H as <-].
  destruct (load (vf_path e) t) as [m|err]; [|by case_hyp H; injection H as <-]. case_hyp H. destruct attached as [v|]; injection H as <-.
  - apply pass_version_later.
  - split; [apply grows_reference | exists []; by rewrite app_nil_r].
Qed.

Lemma pass_entry_judged policy rv tagged forked t p e p' m :
  pass_entry policy rv tagged forked t p e = Ok p' -> load (vf_path e) t = Ok m -> judged policy rv tagged forked p' e m.
Proof.
  unfold Cleanup.pass_entry, judged. intros H Hm. destruct (manifest_name (vf_name e)) as [attached|]; [|done]. rewrite Hm in H. case_hyp H.
  assert (forall r, contained (reference m nothing) (reference m r)) as Href by (intros r; apply grows_reference, nothing_contained).
  destruct attached as [v|]; injection H as <-; [|apply Href]. unfold pass_version. destruct (keeps _ _ _ _ _ _); cbn [referenced old_manifests]; [apply Href|].
  rewrite fmap_app. apply elem_of_app. right. cbn. by left.
Qed.

Lemma judged_later policy rv tagged forked p p' e m : later_pass p p' -> judged policy rv tagged forked p e m -> judged policy rv tagged forked p' e m.
Proof.
  unfold judged. intros [H1 [more H2]]. destruct (manifest_name (vf_name e)) as [[v|]|]; [|intros; by etrans|done].
  destruct (keeps _ _ _ _ _ _); [intros; by etrans|]. rewrite H2, fmap_app. intros H. apply elem_of_app. by left.
Qed.

Lemma pass_judged policy rv tagged forked t entries p p' e m :
  fold_res (pass_entry policy rv tagged forked t) entries p = Ok p' -> e ∈ entries -> load (vf_path e) t = Ok m -> judged policy rv tagged forked p' e m.
Proof.
  intros H He Hm. destruct (fold_res_elem _ _ _ _ _ H He) as (l1 & l2 & s1 & s2 & -> & _ & H2 & H3).
  apply (judged_later _ _ _ _ s2); [|by eapply pass_entry_judged]. revert H3.
  apply (fold_res_ind (later_pass s2)); [|done]. intros s x s' _ Hs Hx. etrans; [done | by eapply pass_entry_later].
Qed.

(** Old manifests are manifests that are not kept. *)
Lemma pass_old policy rv tagged forked t entries p p' :
  fold_res (pass_entry policy rv tagged forked t) entries p = Ok p' ->
  (placed (referenced p) -> placed (referenced p')) /\
  forall q, q ∈ cand_path <$> old_manifests p' -> q ∈ cand_path <$> old_manifests p \/
    exists e v m, e ∈ entries /\ q = "_versions/" +:+ vf_name e /\ ManifestFile.parse_manifest_version (vf_name e) = Some v /\ load (vf_path e) t = Ok m /\
      keeps policy rv tagged forked v (manifest_timestamp_ns m) = false.
Proof.
  apply (fold_res_ind (fun p' => (placed (referenced p) -> placed (referenced p')) /\ forall q, q ∈ cand_path <$> old_manifests p' -> q ∈ cand_path <$> old_manifests p \/
    exists e v m, e ∈ entries /\ q = "_versions/" +:+ vf_name e /\ ManifestFile.parse_manifest_version (vf_name e) = Some v /\ load (vf_path e) t = Ok m /\
      keeps policy rv tagged forked v (manifest_timestamp_ns m) = false)); [|by split; [|left]].
  intros s e s' He [Hp Hs] H. unfold Cleanup.pass_entry in H. destruct (manifest_name (vf_name e)) as [attached|] eqn:En; [|by injection H as <-].
  destruct (load (vf_path e) t) as [m|err] eqn:Em; [|by case_hyp H; injection H as <-]. case_hyp H.
  destruct attached as [v|]; injection H as <-; [|split; [intros; by apply placed_reference, Hp | exact Hs]].
  unfold pass_version. destruct (keeps policy rv tagged forked v (manifest_timestamp_ns m)) eqn:Ek; cbn [referenced old_manifests]; [split; [intros; by apply placed_reference, Hp | exact Hs]|].
  split; [exact Hp|]. intros q. rewrite fmap_app. intros [Hq|Hq]%elem_of_app; [by apply Hs|]. right. apply list_elem_of_singleton in Hq as ->. exists e, v, m. split_and!; try done.
  unfold manifest_name in En. destruct (ManifestFile.parse_manifest_version (vf_name e)); [by injection En as ->|]. by case_hyp En.
Qed.

(** ** What forks protect *)

(** The files a branch's manifest names in the directory [own]. *)
Inductive named_here (bases : list BasePaths.BasePath) (own : string) (m : pb.Manifest) : ReferencedFiles -> Prop :=
  | data_here f file b : f ∈ pb.mf_fragments m -> file ∈ pb.fr_files f -> BasePaths.data_file_base_id file = Ok b ->
      names_dataset_dir io bases b own = true -> named_here bases own m (add_data (data_path file) nothing)
  | delete_here f b : f ∈ pb.mf_fragments m -> pb.del_present (pb.fr_deletion_file f) = true -> BasePaths.deletion_file_base_id (pb.fr_deletion_file f) = Ok b ->
      names_dataset_dir io bases b own = true -> named_here bases own m (add_delete (deletion_file_name f) nothing)
  | index_here index b : index ∈ pb.mf_indices m -> BasePaths.index_base_id index = Ok b -> names_dataset_dir io bases b own = true ->
      named_here bases own m (add_index (pb.uuid_string (pb.ix_uuid index)) nothing).

(** A step of the scan: more is protected. *)
Definition scans (s s' : ReferencedFiles * bool) : Prop :=
  contained s.1 s'.1 /\ (placed s.1 -> placed s'.1) /\ (s.2 = true -> s'.2 = true).

#[local] Instance scans_preorder : PreOrder scans.
Proof. split; [by intros s|]. intros a b c (H1 & H2 & H3) (H4 & H5 & H6). split_and!; [by etrans | auto | auto]. Qed.

Lemma scans_add f (files : ReferencedFiles) here : grows f -> (placed files -> placed (f files)) -> scans (files, here) (f files, true).
Proof. intros [H1 _] H2. split_and!; cbn; [apply H1 | done | done]. Qed.

Lemma fold_scans {A} (body : ReferencedFiles * bool -> A -> res (ReferencedFiles * bool)) l s s' :
  (forall s x s', body s x = Ok s' -> scans s s') -> fold_res body l s = Ok s' -> scans s s'.
Proof. intros Hb. apply (fold_res_ind (scans s)); [|done]. intros s1 x s2 _ H1 H2. etrans; [exact H1 | by eapply Hb]. Qed.

(** An element that adds [r] leaves it protected. *)
Lemma fold_adds {A} (body : ReferencedFiles * bool -> A -> res (ReferencedFiles * bool)) l s s' x r :
  (forall s x s', body s x = Ok s' -> scans s s') -> fold_res body l s = Ok s' -> x ∈ l ->
  (forall s s', body s x = Ok s' -> contained r s'.1 /\ s'.2 = true) -> contained r s'.1 /\ s'.2 = true.
Proof.
  intros Hb H Hx Hadd. destruct (fold_res_elem _ _ _ _ _ H Hx) as (l1 & l2 & s1 & s2 & -> & _ & H2 & H3). apply (fold_scans _ _ _ _ Hb) in H3 as (Hc & _ & Hf).
  destruct (Hadd _ _ H2) as [Hr Ht]. split; [by etrans | auto].
Qed.

Lemma protect_data_scans bases own s file s' : protect_data io bases own s file = Ok s' -> scans s s'.
Proof.
  unfold protect_data, mbind, res_bind. destruct (BasePaths.data_file_base_id file) as [b|]; [|done]. intros [= <-]. destruct s as [files here].
  destruct (names_dataset_dir io bases b own); [|done]. apply (scans_add (add_data (data_path file))); [auto with nano | apply placed_add_data].
Qed.

Lemma protect_fragment_scans bases own s f s' : protect_fragment io bases own s f = Ok s' -> scans s s'.
Proof.
  unfold protect_fragment, mbind, res_bind. destruct (fold_res (protect_data io bases own) (pb.fr_files f) s) as [s1|] eqn:E; [|done].
  apply (fold_scans _ _ _ _ (protect_data_scans bases own)) in E. destruct (pb.del_present (pb.fr_deletion_file f)); [|by intros [= <-]].
  destruct (BasePaths.deletion_file_base_id (pb.fr_deletion_file f)) as [b|]; [|done]. intros [= <-]. etrans; [exact E|]. destruct s1 as [files here].
  destruct (names_dataset_dir io bases b own); [|done]. apply (scans_add (add_delete (deletion_file_name f))); [auto with nano | apply placed_add_delete].
Qed.

Lemma protect_index_scans bases own s x s' : protect_index io bases own s x = Ok s' -> scans s s'.
Proof.
  unfold protect_index, mbind, res_bind. destruct (BasePaths.index_base_id x) as [b|]; [|done]. intros [= <-]. destruct s as [files here].
  destruct (names_dataset_dir io bases b own); [|done]. apply (scans_add (add_index (pb.uuid_string (pb.ix_uuid x)))); [auto with nano | apply placed_add_index].
Qed.

Lemma contained_add f r : grows f -> contained (f nothing) (f r).
Proof. intros [_ H]. apply H, nothing_contained. Qed.

Lemma protect_files_spec bases own m files s' :
  protect_files io bases own m files = Ok s' ->
  scans (files, false) s' /\ forall r, named_here bases own m r -> contained r s'.1 /\ s'.2 = true.
Proof.
  unfold protect_files, mbind, res_bind. destruct (fold_res (protect_fragment io bases own) (pb.mf_fragments m) (files, false)) as [s1|] eqn:E1; [|done]. intros E2.
  pose proof (fold_scans _ _ _ _ (protect_fragment_scans bases own) E1) as H1. pose proof (fold_scans _ _ _ _ (protect_index_scans bases own) E2) as H2.
  split; [by etrans|]. intros r [f file b Hf Hfile Hb Hn|f b Hf Hp Hb Hn|index b Hi Hb Hn].
  - destruct (fold_adds _ _ _ _ f (add_data (data_path file) nothing) (protect_fragment_scans bases own) E1 Hf) as [Hc Ht]; [|destruct H2 as (? & _ & ?); split; [by etrans | auto]].
    intros s s2. unfold protect_fragment, mbind, res_bind. destruct (fold_res (protect_data io bases own) (pb.fr_files f) s) as [s3|] eqn:E3; [|done].
    assert (contained (add_data (data_path file) nothing) s3.1 /\ s3.2 = true) as [Hc3 Ht3].
    { apply (fold_adds _ _ _ _ file _ (protect_data_scans bases own) E3 Hfile). intros s4 s5. unfold protect_data, mbind, res_bind. rewrite Hb, Hn. intros [= <-]. cbn.
      split; [apply (contained_add (add_data (data_path file))); auto with nano | done]. }
    destruct (pb.del_present (pb.fr_deletion_file f)); [|by intros [= <-]]. destruct (BasePaths.deletion_file_base_id (pb.fr_deletion_file f)) as [b'|]; [|done]. intros [= <-].
    destruct (names_dataset_dir io bases b' own); [|done]. cbn. split; [|done]. etrans; [exact Hc3|]. apply (grows_add_delete (deletion_file_name f)).
  - destruct (fold_adds _ _ _ _ f (add_delete (deletion_file_name f) nothing) (protect_fragment_scans bases own) E1 Hf) as [Hc Ht]; [|destruct H2 as (? & _ & ?); split; [by etrans | auto]].
    intros s s2. unfold protect_fragment, mbind, res_bind. destruct (fold_res (protect_data io bases own) (pb.fr_files f) s) as [s3|]; [|done].
    rewrite Hp, Hb, Hn. intros [= <-]. cbn. split; [apply (contained_add (add_delete (deletion_file_name f))); auto with nano | done].
  - apply (fold_adds _ _ _ _ index _ (protect_index_scans bases own) E2 Hi). intros s s2. unfold protect_index, mbind, res_bind. rewrite Hb, Hn. intros [= <-]. cbn.
    split; [apply (contained_add (add_index (pb.uuid_string (pb.ix_uuid index)))); auto with nano | done].
Qed.

(** More is protected by every manifest of a fork. *)
Record protects (a b : ForkProtection) : Prop := {
  pr_files : contained (protected_files a) (protected_files b);
  pr_placed : placed (protected_files a) -> placed (protected_files b);
  pr_versions : protected_versions a ⊆ protected_versions b
}.

#[local] Instance protects_preorder : PreOrder protects.
Proof. split; [by intros a; split|]. intros a b c [] []. split; [by etrans | auto | by etrans]. Qed.

Lemma protect_manifest_spec own fork out m out' :
  protect_manifest io own fork out m = Ok out' ->
  protects out out' /\ forall bases r, BasePaths.read_base_paths m = Ok bases -> named_here bases own m r ->
    contained r (protected_files out') /\ fork_version fork ∈ protected_versions out'.
Proof.
  unfold protect_manifest, mbind, res_bind. destruct (BasePaths.read_base_paths m) as [bases|]; [|done].
  destruct (protect_files io bases own m (protected_files out)) as [[files here]|] eqn:E; [|done]. intros [= <-]. apply protect_files_spec in E as [(H1 & H2 & _) H3].
  split; [split; [exact H1 | exact H2 | cbn; destruct here; set_solver]|]. intros bases' r [= <-] Hr. destruct (H3 r Hr) as [Hc Ht]. cbn in Ht. rewrite Ht. split; [exact Hc | cbn; set_solver].
Qed.

Lemma protect_fork_spec d t out fork out' :
  protect_fork io decode_manifest decode_index_section limits d t out fork = Ok out' ->
  protects out out' /\ forall entries e m bases r,
    version_files io (path_join (fork_dir fork) "_versions") t = Ok entries -> e ∈ entries -> manifest_name (vf_name e) <> None -> load (vf_path e) t = Ok m ->
    BasePaths.read_base_paths m = Ok bases -> named_here bases (canonical_text io d) m r ->
    contained r (protected_files out') /\ fork_version fork ∈ protected_versions out'.
Proof.
  unfold protect_fork, mbind at 1, res_bind at 1. destruct (version_files io (path_join (fork_dir fork) "_versions") t) as [entries|]; [|done]. intros H.
  assert (forall s e s', match manifest_name (vf_name e) with None => Ok s | Some _ =>
     match load (vf_path e) t with Err err => Err ("cannot clean up: a branch " +:+ fork_name fork +:+ " manifest could not be read: " +:+ err) | Ok manifest => protect_manifest io (canonical_text io d) fork s manifest end end = Ok s' ->
     protects s s') as Hstep.
  { intros s e s'. destruct (manifest_name (vf_name e)); [|by intros [= <-]]. destruct (load (vf_path e) t) as [m|]; [|done]. intros Hm. by apply protect_manifest_spec in Hm as [Hm _]. }
  split.
  - revert H. apply (fold_res_ind (protects out)); [|done]. intros s x s' _ Hs Hx. etrans; [exact Hs | by eapply Hstep].
  - intros entries' e m bases r [= <-] He Hn Hm Hb Hr. destruct (fold_res_elem _ _ _ _ _ H He) as (l1 & l2 & s1 & s2 & -> & _ & H2 & H3).
    rewrite Hm in H2. destruct (manifest_name (vf_name e)); [|done]. apply protect_manifest_spec in H2 as [_ H2]. destruct (H2 _ _ Hb Hr) as [Hc Hv].
    assert (protects s2 out') as [Hp1 _ Hp2] by (revert H3; apply (fold_res_ind (protects s2)); [|done]; intros s x s' _ Hs Hx; etrans; [exact Hs | by eapply Hstep]).
    split; [by etrans | by apply Hp2].
Qed.

Lemma protect_forks_spec d policy forks t out :
  protect_forks io decode_manifest decode_index_section limits d policy forks t = Ok out ->
  placed (protected_files out) /\ forall fork path size fm entries e m bases r,
    fork ∈ forks -> manifest_file_of io d (fork_version fork) t = Some (path, size) -> load path t = Ok fm ->
    selected policy (fork_version fork) (manifest_timestamp_ns fm) = true ->
    version_files io (path_join (fork_dir fork) "_versions") t = Ok entries -> e ∈ entries -> manifest_name (vf_name e) <> None -> load (vf_path e) t = Ok m ->
    BasePaths.read_base_paths m = Ok bases -> named_here bases (canonical_text io d) m r ->
    contained r (protected_files out) /\ fork_version fork ∈ protected_versions out.
Proof.
  unfold protect_forks. intros H.
  set (body := protect_if_selected io decode_manifest decode_index_section limits d policy t) in *.
  assert (forall s fork s', body s fork = Ok s' -> protects s s') as Hstep.
  { intros s fork s'. unfold body, protect_if_selected. destruct (manifest_file_of io d (fork_version fork) t) as [[path size]|]; [|by intros [= <-]]. unfold mbind, res_bind. destruct (load path t) as [m|]; [|done].
    destruct (selected _ _ _); [|by intros [= <-]]. intros Hf. by apply protect_fork_spec in Hf as [Hf _]. }
  assert (forall l s s', fold_res body l s = Ok s' -> protects s s') as Hfold.
  { intros l s s'. apply (fold_res_ind (protects s)); [|done]. intros s1 x s2 _ Hs Hx. etrans; [exact Hs | exact (Hstep _ _ _ Hx)]. }
  split.
  - apply Hfold in H as [_ H _]. apply H, placed_nothing.
  - intros fork path size fm entries e m bases r Hf Hmf Hfm Hsel Hent He Hn Hm Hb Hr.
    destruct (fold_res_elem _ _ _ _ _ H Hf) as (l1 & l2 & s1 & s2 & -> & _ & H2 & H3). unfold body, protect_if_selected in H2. rewrite Hmf in H2. unfold mbind, res_bind in H2. rewrite Hfm, Hsel in H2.
    apply protect_fork_spec in H2 as [_ H2]. destruct (H2 _ _ _ _ _ Hent He Hn Hm Hb Hr) as [Hc Hv]. apply Hfold in H3 as [Hp1 _ Hp2]. split; [by etrans | by apply Hp2].
Qed.

(** What a clean-up that gets past its forks has read: the manifest of each version it found one forks from, and, where
    the policy selects that version, every manifest of the branch. *)
Lemma protect_forks_reads d policy forks t out fork path size :
  protect_forks io decode_manifest decode_index_section limits d policy forks t = Ok out -> fork ∈ forks ->
  manifest_file_of io d (fork_version fork) t = Some (path, size) ->
  exists fm, load path t = Ok fm /\ (selected policy (fork_version fork) (manifest_timestamp_ns fm) = true ->
    exists entries, version_files io (path_join (fork_dir fork) "_versions") t = Ok entries /\
      forall e, e ∈ entries -> manifest_name (vf_name e) <> None -> exists m, load (vf_path e) t = Ok m).
Proof.
  unfold protect_forks. intros H Hf Hmf. destruct (fold_res_elem _ _ _ _ _ H Hf) as (l1 & l2 & s1 & s2 & _ & _ & H2 & _).
  unfold protect_if_selected in H2. rewrite Hmf in H2. unfold mbind at 1, res_bind at 1 in H2. destruct (load path t) as [fm|]; [|done].
  exists fm. split; [done|]. intros Hsel. rewrite Hsel in H2. unfold protect_fork, mbind at 1, res_bind at 1 in H2.
  destruct (version_files io _ t) as [entries|]; [|done]. exists entries. split; [done|]. intros e He Hn.
  destruct (fold_res_elem _ _ _ _ _ H2 He) as (k1 & k2 & s3 & s4 & _ & _ & H3 & _).
  destruct (manifest_name (vf_name e)); [|done]. destruct (load (vf_path e) t) as [m|]; [by exists m | done].
Qed.

(** The file at [path] holds the manifest [m], whether or not it can be read now. *)
Definition holds (t : tree) (path : string) (m : pb.Manifest) : Prop :=
  exists f, files t !! path = Some f /\ ManifestFile.load_manifest_source decode_manifest decode_index_section limits (content f) true = Ok m.

Lemma load_holds t path m m' : holds t path m -> load path t = Ok m' -> m' = m.
Proof.
  intros (f & Hf & Hm). unfold load_manifest_file, load_manifest, open_source. destruct (unreadable io path || vanished io path); [done|].
  rewrite Hf. cbn [fmap option_fmap option_map]. rewrite Hm. congruence.
Qed.

(** ** The directory of versions *)

Lemma version_files_elem dir t entries n f :
  version_files io dir t = Ok entries -> simple n -> files t !! path_join dir n = Some f -> mkVersionFile (path_join dir n) n (zlen (content f)) ∈ entries.
Proof.
  unfold version_files. intros H [Hne Hn] Hf. destruct (list_fault io dir); [done|]. case_hyp H. injection H as <-. apply list_elem_of_omap. exists (n, f).
  split; [by apply relative_elem|]. unfold file_entry. cbn [fst snd]. by rewrite Hn.
Qed.

Lemma version_files_path dir t entries e : version_files io dir t = Ok entries -> e ∈ entries -> vf_path e = path_join dir (vf_name e) /\ simple (vf_name e).
Proof.
  unfold version_files. intros H He. destruct (list_fault io dir); [done|]. case_hyp H. injection H as <-. apply list_elem_of_omap in He as ([n f] & Hin & He).
  unfold file_entry in He. cbn [fst snd] in He. destruct (split_slash n) as [x [o|]] eqn:Es; [done|]. injection He as <-. cbn. apply relative_elem in Hin as [_ Hne].
  pose proof (split_slash_none _ _ Es) as ->. done.
Qed.

Lemma load_exists path t m : load path t = Ok m -> is_Some (files t !! path).
Proof. unfold load_manifest_file, load_manifest, open_source. destruct (unreadable io path || vanished io path); [done|]. by destruct (files t !! path). Qed.

(** ** The plan *)

Record planned (d : string) (read_version : Z) (policy : CleanupPolicy) (t : tree) (p : Plan) (scope : BranchScope) (forks : list ForkedBranch)
    (tagged forked : gset Z) (protection : ForkProtection) (entries : list VersionFile) : Prop := {
  pl_read : resolve_read_version io d read_version t = Ok (plan_read_version p);
  pl_scope : exists current branch, Publish.load_manifest_version decode_manifest decode_index_section limits (faults_at io d) (store_at io d t) (plan_read_version p) = Ok current /\
    BasePaths.read_manifest_branch current = Ok branch /\ branch_scope_of d branch = Ok scope;
  pl_tags : list_tags io undefined (scope_root scope) t = Ok (plan_tags p) /\ tagged = tagged_versions scope (plan_tags p);
  pl_forks : forked_branches io undefined scope t = Ok forks;
  pl_protection : protect_forks io decode_manifest decode_index_section limits d policy forks t = Ok protection /\ forked = protected_versions protection;
  pl_entries : version_files io (path_join d "_versions") t = Ok entries;
  pl_pass : fold_res (pass_entry policy (plan_read_version p) tagged forked t) entries
    (mkPass (mkReferencedFiles (data_paths (protected_files protection)) (delete_paths (protected_files protection)) ∅ (index_uuids (protected_files protection))) nothing ∅ [] None None) = Ok (plan_pass p);
  pl_tagged_old : error_if_tagged_old_versions policy = true -> tagged_old (plan_pass p) = ∅;
  pl_files : removable_files io d policy (plan_pass p) t = Ok (plan_files p)
}.

Lemma plan_inv d read_version policy t p :
  plan d read_version policy t = Ok p -> exists scope forks tagged forked protection entries, planned d read_version policy t p scope forks tagged forked protection entries.
Proof.
  unfold Cleanup.plan, mbind, res_bind. do 2 (destruct (bool_decide _); [done|]).
  destruct (resolve_read_version io d read_version t) as [rv|] eqn:E1; [|done].
  destruct (Publish.load_manifest_version _ _ _ _ _ rv) as [current|] eqn:E2; [|done]. destruct (BasePaths.read_manifest_branch current) as [branch|] eqn:E3; [|done].
  destruct (branch_scope_of d branch) as [scope|] eqn:E4; [|done]. destruct (list_tags io undefined (scope_root scope) t) as [tags|] eqn:E5; [|done].
  destruct (forked_branches io undefined scope t) as [forks|] eqn:E6; [|done]. destruct (protect_forks _ _ _ _ d policy forks t) as [protection|] eqn:E7; [|done].
  destruct (version_files io (path_join d "_versions") t) as [entries|] eqn:E8; [|done]. destruct (fold_res _ entries _) as [pass|] eqn:E9; [|done].
  intros H. case_hyp H. destruct (removable_files io d policy pass t) as [fs|] eqn:E10; [|done]. injection H as <-.
  exists scope, forks, (tagged_versions scope tags), (protected_versions protection), protection, entries. split; cbn; try done.
  - by exists current, branch.
  - intros He. rewrite He in E. cbn in E. by apply negb_false_iff, bool_decide_eq_true in E.
Qed.

(** Every file that goes was found removable. *)
Lemma removable_files_spec d policy p t fs c :
  removable_files io d policy p t = Ok fs -> c ∈ fs -> exists f k, file_relative f = cand_path c /\ removable_kind f (referenced p) (verified p) = Some k.
Proof.
  unfold removable_files. intros H. revert c. revert H.
  apply (fold_res_ind (fun out => forall c, c ∈ out -> exists f k, file_relative f = cand_path c /\ removable_kind f (referenced p) (verified p) = Some k)); [|by intros c []%elem_of_nil].
  intros s dir s' _ Hs. unfold mbind, res_bind. destruct (walked io d dir t) as [found|]; [|done]. intros [= <-] c [Hc|Hc]%elem_of_app; [by apply Hs|].
  apply list_elem_of_omap in Hc as ([[[rel size] age] modified] & _ & Hc). unfold consider in Hc. case_hyp Hc. case_hyp Hc. destruct p0 as [kind unv]. injection Hc as <-.
  eexists (mkFileToCheck rel size _), (kind, unv). split; [reflexivity | exact E0].
Qed.

(** ** Safety *)

Lemma cleanup_gone d read_version policy execute maxc t r t' :
  cleanup d read_version policy execute maxc t = (r, t') ->
  files t' = files t \/
  exists p scope forks tagged forked protection entries k, planned d read_version policy t p scope forks tagged forked protection entries /\
    gone d (take k (old_manifests (plan_pass p) ++ plan_files p)) t t'.
Proof.
  unfold cleanup_old_versions. destruct (plan d read_version policy t) as [p|] eqn:Ep; [|intros [= <- <-]; by left]. destruct execute; cbn [negb]; [|intros [= <- <-]; by left].
  destruct (remove_candidates io d (old_manifests (plan_pass p) ++ plan_files p) t) as [[]  t1] eqn:Er; intros [= <- <-]; right;
    apply plan_inv in Ep as (scope & forks & tagged & forked & protection & entries & Hp); apply remove_candidates_spec in Er as (k & Hg & _);
    exists p, scope, forks, tagged, forked, protection, entries, k; (split; [done|]); intros q; [|apply Hg].
  destruct (on_object_store io d); [|rewrite remove_if_empty_files]; apply Hg.
Qed.

Section planned.
  Context (d : string) (read_version : Z) (policy : CleanupPolicy) (t : tree).
  Context (p : Plan) (scope : BranchScope) (forks : list ForkedBranch) (tagged forked : gset Z) (protection : ForkProtection) (entries : list VersionFile).
  Context (Hp : planned d read_version policy t p scope forks tagged forked protection entries).

Lemma planned_placed : placed (referenced (plan_pass p)).
Proof.
  destruct (pass_old _ _ _ _ _ _ _ _ (pl_pass _ _ _ _ _ _ _ _ _ _ _ Hp)) as [H _]. apply H. cbn.
  destruct (pl_protection _ _ _ _ _ _ _ _ _ _ _ Hp) as [Hprot _]. apply protect_forks_spec in Hprot as [[H1 H2 H3] _]. split; cbn; [exact H1 | exact H2 | set_solver].
Qed.

Lemma planned_start : contained (mkReferencedFiles (data_paths (protected_files protection)) (delete_paths (protected_files protection)) ∅ (index_uuids (protected_files protection))) (referenced (plan_pass p)).
Proof.
  pose proof (pl_pass _ _ _ _ _ _ _ _ _ _ _ Hp) as H. set (p0 := mkPass _ _ _ _ _ _) in H. change (contained (referenced p0) (referenced (plan_pass p))).
  assert (later_pass p0 (plan_pass p)) as [Hc _]; [|exact Hc]. revert H. apply (fold_res_ind (later_pass p0)); [|done]. intros s x s' _ Hs Hx. etrans; [exact Hs | by eapply pass_entry_later].
Qed.

(** Referenced files are no candidates. *)
Lemma planned_files q : used (referenced (plan_pass p)) q -> q ∉ cand_path <$> plan_files p.
Proof.
  intros Hu (c & -> & Hc)%list_elem_of_fmap. destruct (removable_files_spec _ _ _ _ _ _ (pl_files _ _ _ _ _ _ _ _ _ _ _ Hp) Hc) as (f & k & Hf & Hk).
  apply removable_used in Hk; [|apply planned_placed]. by rewrite Hf in Hk.
Qed.

Lemma planned_old q : q ∈ cand_path <$> old_manifests (plan_pass p) ->
  exists n v m, q = "_versions/" +:+ n /\ simple n /\ ManifestFile.parse_manifest_version n = Some v /\ load (path_join (path_join d "_versions") n) t = Ok m /\
    keeps policy (plan_read_version p) tagged forked v (manifest_timestamp_ns m) = false.
Proof.
  intros Hq. destruct (pass_old _ _ _ _ _ _ _ _ (pl_pass _ _ _ _ _ _ _ _ _ _ _ Hp)) as [_ H]. destruct (H q Hq) as [Hn|(e & v & m & He & -> & Hv & Hm & Hk)]; [by apply elem_of_nil in Hn|].
  destruct (version_files_path _ _ _ _ (pl_entries _ _ _ _ _ _ _ _ _ _ _ Hp) He) as [Hpath Hs]. rewrite Hpath in Hm. by exists (vf_name e), v, m.
Qed.

Lemma planned_judged n m : simple n -> manifest_name n <> None -> load (path_join (path_join d "_versions") n) t = Ok m ->
  contained (reference m nothing) (referenced (plan_pass p)) \/ "_versions/" +:+ n ∈ cand_path <$> old_manifests (plan_pass p).
Proof.
  intros Hs Hn Hm. destruct (load_exists _ _ _ Hm) as [f Hf]. pose proof (version_files_elem _ _ _ _ _ (pl_entries _ _ _ _ _ _ _ _ _ _ _ Hp) Hs Hf) as He.
  pose proof (pass_judged _ _ _ _ _ _ _ _ _ m (pl_pass _ _ _ _ _ _ _ _ _ _ _ Hp) He Hm) as Hj. unfold judged in Hj. cbn [vf_name] in Hj.
  destruct (manifest_name n) as [[v|]|]; [|by left|done]. destruct (keeps _ _ _ _ _ _); [by left | by right].
Qed.

(** Of the files that go at any point, none is used by a manifest that stays. *)
Lemma planned_keeps_used k n m q :
  simple n -> manifest_name n <> None -> load (path_join (path_join d "_versions") n) t = Ok m -> used (reference m nothing) q ->
  "_versions/" +:+ n ∉ cand_path <$> take k (old_manifests (plan_pass p) ++ plan_files p) -> q ∉ cand_path <$> take k (old_manifests (plan_pass p) ++ plan_files p).
Proof.
  intros Hs Hn Hm Hu Hstay. rewrite take_app, fmap_app in *. apply not_elem_of_app in Hstay as [Hold _]. apply not_elem_of_app. split.
  - intros Hq%fmap_take_elem.
    destruct (planned_old q Hq) as (n' & v & m' & -> & _). by apply (used_not_version _ _ n') in Hu; [|apply placed_reference, placed_nothing].
  - destruct (decide (k <= length (old_manifests (plan_pass p)))%nat) as [Hk|Hk].
    + replace (k - length (old_manifests (plan_pass p)))%nat with O by lia. intros []%elem_of_nil.
    + rewrite take_ge in Hold by lia. destruct (planned_judged n m Hs Hn Hm) as [Hc|Hin]; [|done]. intros Hq.
      apply (planned_files q); [by eapply used_mono | by eapply fmap_take_elem].
Qed.

End planned.

(** C4: (safety): a clean-up never orphans a version. Whatever the policy and whatever fails, at any point of the removal
    every manifest that is still there, of a version or detached, has all the files it uses: its data files and
    their blobs, its deletion files, its transaction file and the files of its indices. *)
Theorem cleanup_never_orphans d read_version policy execute maxc t r t' n m q :
  cleanup d read_version policy execute maxc t = (r, t') ->
  simple n -> manifest_name n <> None -> load (path_join (path_join d "_versions") n) t = Ok m ->
  is_Some (files t' !! path_join (path_join d "_versions") n) -> used (reference m nothing) q ->
  files t' !! path_join d q = files t !! path_join d q.
Proof.
  intros [Hsame|(p & scope & forks & tagged & forked & protection & entries & k & Hp & Hg)]%cleanup_gone Hs Hn Hm Hstay Hu; [by rewrite Hsame|].
  rewrite (Hg q), bool_decide_false; [done|]. eapply planned_keeps_used; [done..|]. rewrite versions_path, (Hg ("_versions/" +:+ n)) in Hstay.
  case_bool_decide; [by destruct Hstay | done].
Qed.

(** ** The versions that stay *)

(** The name of a version's manifest is neither hidden nor temporary. *)
Lemma manifest_not_temporary n v : ManifestFile.parse_manifest_version n = Some v -> starts_with n ".tmp" = false /\ ends_with n ".tmp" = false.
Proof.
  unfold ManifestFile.parse_manifest_version, mbind, option_bind. destruct (ManifestFile.strip_suffix ".manifest" n) as [digits|] eqn:E; [|done]. intros H. case_hyp H.
  unfold ManifestFile.strip_suffix in E. case_hyp E. case_hyp E. injection E as <-. bool_prop. apply bool_decide_eq_false in E0. apply String.eqb_eq in E1.
  set (k := (String.length n - 9)%nat) in *. assert (n = String.substring 0 k n +:+ ".manifest") as Hn.
  { etrans; [apply (substring_split n k); unfold k; lia|]. f_equal. rewrite <- E1. f_equal. unfold k. cbn [String.length] in *. lia. }
  destruct (String.substring 0 k n) as [|c rest] eqn:Es; [done|]. cbn [all_digits] in H1. apply andb_prop in H1 as [Hc _]. rewrite Hn. split.
  - rewrite append_cons. destruct c as [[] [] [] [] [] [] [] []]; try discriminate Hc; reflexivity.
  - destruct (ends_with _ ".tmp") eqn:Et; [|done]. exfalso.
    pose proof (ends_with_last _ ".tm" ".manifes" (Json.chr 112) (Json.chr 116) Et (ends_with_app (String c rest) ".manifest")) as Hbad. discriminate Hbad.
Qed.

(** Why a version stays: it is the one the clean-up was asked for or a later one, the policy does not select
    it, or a tag of this branch names it. *)
Inductive stays (d : string) (read_version : Z) (policy : CleanupPolicy) (t : tree) (v ts : Z) : Prop :=
  | stays_recent rv : resolve_read_version io d read_version t = Ok rv -> rv <= v -> stays d read_version policy t v ts
  | stays_unselected : selected policy v ts = false -> stays d read_version policy t v ts
  | stays_tagged rv current branch scope tags tag :
      resolve_read_version io d read_version t = Ok rv ->
      Publish.load_manifest_version decode_manifest decode_index_section limits (faults_at io d) (store_at io d t) rv = Ok current ->
      BasePaths.read_manifest_branch current = Ok branch -> branch_scope_of d branch = Ok scope -> list_tags io undefined (scope_root scope) t = Ok tags ->
      tag ∈ tags -> tag_branch tag = on_branch branch -> tag_version tag = v -> stays d read_version policy t v ts.

Lemma branch_scope_branch d branch scope : branch_scope_of d branch = Ok scope -> scope_branch scope = branch.
Proof.
  unfold branch_scope_of. destruct (String.eqb_spec branch "") as [->|_]; [by intros [= <-]|].
  destruct (ManifestFile.strip_suffix _ _); [by intros [= <-] | done].
Qed.

Lemma stays_keeps d read_version policy t p scope forks tagged forked protection entries v ts :
  planned d read_version policy t p scope forks tagged forked protection entries -> stays d read_version policy t v ts ->
  keeps policy (plan_read_version p) tagged forked v ts = true.
Proof.
  intros Hp H. unfold keeps. rewrite !orb_true_iff. pose proof (pl_read _ _ _ _ _ _ _ _ _ _ _ Hp) as Hrv.
  destruct H as [rv Hr Hle|Hsel|rv current branch scope' tags tag Hr Hc Hb Hs Ht Hin Hbr Hv].
  - rewrite Hr in Hrv. injection Hrv as ->. do 3 left. by apply Z.leb_le.
  - do 2 left. right. by rewrite Hsel.
  - left. right. apply bool_decide_eq_true. rewrite Hr in Hrv. injection Hrv as ->.
    destruct (pl_scope _ _ _ _ _ _ _ _ _ _ _ Hp) as (current' & branch' & Hc' & Hb' & Hs'). rewrite Hc in Hc'. injection Hc' as <-. rewrite Hb in Hb'. injection Hb' as <-.
    rewrite Hs in Hs'. injection Hs' as <-. destruct (pl_tags _ _ _ _ _ _ _ _ _ _ _ Hp) as [Ht' ->]. rewrite Ht in Ht'. injection Ht' as <-.
    unfold tagged_versions. apply elem_of_list_to_set, list_elem_of_fmap. exists tag. split; [done|]. apply list_elem_of_filter. split; [|done].
    by rewrite (branch_scope_branch _ _ _ Hs).
Qed.

(** A manifest that is kept is not removed. *)
Lemma planned_keeps_manifest d read_version policy t p scope forks tagged forked protection entries k n v m :
  planned d read_version policy t p scope forks tagged forked protection entries ->
  ManifestFile.parse_manifest_version n = Some v -> load (path_join (path_join d "_versions") n) t = Ok m ->
  keeps policy (plan_read_version p) tagged forked v (manifest_timestamp_ns m) = true ->
  "_versions/" +:+ n ∉ cand_path <$> take k (old_manifests (plan_pass p) ++ plan_files p).
Proof.
  intros Hp Hv Hm Hk Hin%fmap_take_elem. rewrite fmap_app in Hin. apply elem_of_app in Hin as [Hin|Hin].
  - destruct (planned_old _ _ _ _ _ _ _ _ _ _ _ Hp _ Hin) as (n' & v' & m' & Heq & _ & Hv' & Hm' & Hk'). apply (String.app_inj "_versions/") in Heq as <-.
    rewrite Hv in Hv'. injection Hv' as <-. rewrite Hm in Hm'. injection Hm' as <-. by rewrite Hk in Hk'.
  - apply list_elem_of_fmap in Hin as (c & Hc & Hin). destruct (removable_files_spec _ _ _ _ _ _ (pl_files _ _ _ _ _ _ _ _ _ _ _ Hp) Hin) as (f & kd & Hf & Hr).
    rewrite <- Hc in Hf. unfold removable_kind in Hr. rewrite Hf, starts_with_app, literal_app in Hr. change (default "" (Some n)) with n in Hr.
    destruct (manifest_not_temporary n v Hv) as [-> ->] in Hr. discriminate Hr.
Qed.

(** C16: (safety): the manifest of the version the clean-up reads at, of every later one, of every version the policy does
    not select and of every version a tag of the branch names is left as it was, whatever else is removed. *)
Theorem cleanup_keeps_versions d read_version policy execute maxc t r t' n v m :
  cleanup d read_version policy execute maxc t = (r, t') ->
  ManifestFile.parse_manifest_version n = Some v -> load (path_join (path_join d "_versions") n) t = Ok m ->
  stays d read_version policy t v (manifest_timestamp_ns m) ->
  files t' !! path_join (path_join d "_versions") n = files t !! path_join (path_join d "_versions") n.
Proof.
  intros [Hsame|(p & scope & forks & tagged & forked & protection & entries & k & Hp & Hg)]%cleanup_gone Hv Hm Hst; [by rewrite Hsame|].
  rewrite versions_path in *. rewrite (Hg ("_versions/" +:+ n)), bool_decide_false; [done|]. rewrite <- versions_path in Hm.
  eapply planned_keeps_manifest; [done..|]. by eapply stays_keeps.
Qed.

(** ** Branches *)

Lemma list_dir_simple dir t es e : list_dir io dir t = Ok es -> e ∈ es -> is_dir e = false -> simple (Files.name e).
Proof.
  unfold list_dir. destruct (list_fault io dir); [done|]. intros [= <-] [He|He]%elem_of_app Hd.
  - apply list_elem_of_omap in He as ([r f] & Hin & He). unfold file_entry in He. cbn [fst snd] in He. destruct (split_slash r) as [x [o|]] eqn:E; [done|]. injection He as <-. cbn.
    apply relative_elem in Hin as [_ Hne]. by pose proof (split_slash_none _ _ E) as ->.
  - apply list_elem_of_fmap in He as (x & -> & _). discriminate Hd.
Qed.

Lemma manifest_file_of_inv d v t path size :
  manifest_file_of io d v t = Some (path, size) -> exists n, path = path_join (path_join d "_versions") n /\ simple n /\ ManifestFile.parse_manifest_version n = Some v.
Proof.
  unfold manifest_file_of. destruct (lookup_fault io _); [done|]. destruct (list_dir io (path_join d "_versions") t) as [es|] eqn:El; [|done]. unfold mbind, option_bind.
  destruct (list_find _ es) as [[i e]|] eqn:Ef; [|done]. cbn. intros [= <- <-]. apply list_find_Some in Ef as (Hi & [Hd Hv] & _).
  exists (Files.name e). split_and!; [done | | done]. eapply list_dir_simple; [done | by eapply list_elem_of_lookup_2 | done].
Qed.

Lemma named_here_placed bases own m r : named_here bases own m r -> placed r /\ tx_paths r = ∅.
Proof.
  intros [f file b _ _ _ _|f b _ _ _ _|index b _ _ _]; (split; [|done]).
  - apply placed_add_data, placed_nothing.
  - apply placed_add_delete, placed_nothing.
  - apply placed_add_index, placed_nothing.
Qed.

(** A branch that forks from [fork_version fork] of the dataset at [d], as a clean-up that reads at [read_version] meets it:
    the branch is among those it lists, should it list them; it finds the version the branch forks from, which holds
    [fm]; and [m] is one of the branch's manifests, with its base paths. *)
Record forked_from (d : string) (read_version : Z) (t : tree) (fork : ForkedBranch) (fm m : pb.Manifest) (bases : list BasePaths.BasePath) : Prop := {
  ff_listed : forall rv current branch scope forks,
    resolve_read_version io d read_version t = Ok rv ->
    Publish.load_manifest_version decode_manifest decode_index_section limits (faults_at io d) (store_at io d t) rv = Ok current ->
    BasePaths.read_manifest_branch current = Ok branch -> branch_scope_of d branch = Ok scope -> forked_branches io undefined scope t = Ok forks -> fork ∈ forks;
  ff_fork : exists path size, manifest_file_of io d (fork_version fork) t = Some (path, size) /\ holds t path fm;
  ff_manifest : exists n, simple n /\ manifest_name n <> None /\ holds t (path_join (path_join (fork_dir fork) "_versions") n) m;
  ff_bases : BasePaths.read_base_paths m = Ok bases
}.

(** A file a branch's manifest names here, and the version it forked from uses, is kept whether or not the policy
    selects that version. *)
Lemma planned_keeps_forked d read_version policy t p scope forks tagged forked protection entries k fork fm m bases r q :
  planned d read_version policy t p scope forks tagged forked protection entries -> forked_from d read_version t fork fm m bases ->
  named_here bases (canonical_text io d) m r -> used r q -> used (reference fm nothing) q ->
  q ∉ cand_path <$> take k (old_manifests (plan_pass p) ++ plan_files p).
Proof.
  intros Hp [Hlisted (path & size & Hmf & Hhfm) (n & Hsn & Hn & f & Hf & Hhm) Hbases] Hr Hu Hufm.
  destruct (pl_scope _ _ _ _ _ _ _ _ _ _ _ Hp) as (current & branch & Hc & Hb & Hsc).
  pose proof (Hlisted _ _ _ _ _ (pl_read _ _ _ _ _ _ _ _ _ _ _ Hp) Hc Hb Hsc (pl_forks _ _ _ _ _ _ _ _ _ _ _ Hp)) as Hin.
  destruct (pl_protection _ _ _ _ _ _ _ _ _ _ _ Hp) as [Hprot _]. destruct (protect_forks_reads _ _ _ _ _ _ _ _ Hprot Hin Hmf) as (fm' & Hfm & Hreads).
  pose proof (load_holds _ _ _ _ Hhfm Hfm) as ->.
  destruct (manifest_file_of_inv _ _ _ _ _ Hmf) as (n' & -> & Hs & Hv). destruct (selected policy (fork_version fork) (manifest_timestamp_ns fm)) eqn:Esel.
  - destruct (Hreads eq_refl) as (es & Hes & Hread). apply protect_forks_spec in Hprot as [_ Hprot].
    pose proof (version_files_elem _ _ _ _ _ Hes Hsn Hf) as He. destruct (Hread _ He Hn) as [m' Hm]. cbn [vf_path] in Hm.
    pose proof (load_holds _ _ m _ (ex_intro _ f (conj Hf Hhm)) Hm) as ->.
    destruct (Hprot _ _ _ _ _ _ _ _ _ Hin Hmf Hfm Esel Hes He Hn Hm Hbases Hr) as [Hcont _]. destruct (named_here_placed _ _ _ _ Hr) as [Hpl Htx].
    intros Hq%fmap_take_elem. rewrite fmap_app in Hq. apply elem_of_app in Hq as [Hq|Hq].
    + destruct (planned_old _ _ _ _ _ _ _ _ _ _ _ Hp _ Hq) as (n0 & v' & m' & -> & _). by apply (used_not_version _ _ n0) in Hu.
    + revert Hq. eapply planned_files; [exact Hp|]. eapply used_mono; [|exact Hu]. etrans; [|eapply planned_start; exact Hp]. destruct Hcont as [H1 H2 H3 H4].
      split; cbn; [done | done | by rewrite Htx | done].
  - eapply planned_keeps_used; [exact Hp | exact Hs | unfold manifest_name; by rewrite Hv | exact Hfm | exact Hufm|].
    eapply planned_keeps_manifest; [exact Hp | exact Hv | exact Hfm|]. eapply stays_keeps; [exact Hp|]. by apply stays_unselected.
Qed.

(** C5: (safety): a file of a dataset that the version a branch forked from uses, and that any of the branch's manifests
    still names there, survives every clean-up of the dataset, whether the policy selects that version or not, and
    whatever cannot be listed, read or removed. The branch is one the clean-up lists ([ff_listed]: a branch whose name starts with
    a dot is not, see [hidden_branch_loses_files]), and the clean-up finds the version it forked from ([ff_fork]: it may
    not when that one listing fails, see [unlisted_fork_loses_files]). *)
Theorem cleanup_keeps_forks d read_version policy execute maxc t r t' fork fm m bases refs q :
  cleanup d read_version policy execute maxc t = (r, t') -> forked_from d read_version t fork fm m bases ->
  named_here bases (canonical_text io d) m refs -> used refs q -> used (reference fm nothing) q ->
  files t' !! path_join d q = files t !! path_join d q.
Proof.
  intros [Hsame|(p & scope & forks & tagged & forked & protection & entries & k & Hp & Hg)]%cleanup_gone Hf Hr Hu Hufm; [by rewrite Hsame|].
  rewrite (Hg q), bool_decide_false; [done|]. by eapply planned_keeps_forked.
Qed.

End safe.

(** ** A dataset to clean up

    Four versions: a branch forked from the first, nothing holds the second, a tag names the third, the
    fourth is the latest. Each manifest's body is a number. *)

Definition sample_data (path : string) : pb.DataFragment := pb.mkDataFragment 0 [pb.mkDataFile path [0] [0] 2 1 0 []] 10 pb.no_deletion_file [].
Definition sample_version (v : Z) (path : string) : pb.Manifest :=
  pb.set_fragments [sample_data path] (pb.set_version v pb.Manifest0).

(** The branch's manifest: the file is in the dataset it forked from. *)
Definition sample_base_path : BasePaths.BasePath := BasePaths.mkBasePath 1 "" false true "/ds".
Definition sample_branch_manifest : pb.Manifest :=
  BasePaths.write_base_paths
    (pb.set_fragments [pb.mkDataFragment 0 [BasePaths.set_data_file_base_id (pb.mkDataFile "a.lance" [0] [0] 2 1 0 []) (Some 1)] 10 pb.no_deletion_file []]
       (pb.set_version 1 pb.Manifest0)) [sample_base_path].

Definition sample_bodies (body : list Z) : option pb.Manifest :=
  match body with
  | [1] => Some (sample_version 1 "a.lance") | [2] => Some (sample_version 2 "c.lance") | [3] => Some (sample_version 3 "b.lance")
  | [4] => Some (sample_version 4 "b.lance") | [9] => Some sample_branch_manifest | _ => None
  end.

Definition sample_manifest_file (body : Z) : file :=
  mkFile (le_bytes 4 0 ++ le_bytes 4 1 ++ [body] ++ ManifestFile.trailer 4) 1000.

Definition sample_io : Io := mkIo 2000 (fun _ => false) (fun _ => None) (fun _ => None) (fun _ => false) (fun _ => false) (fun _ => None) (fun _ => None) (fun _ => false) (fun _ => false).

Definition sample_tag : TagInfo := mkTagInfo "keep" None 3 "" "" 0 ∅.
Definition sample_fork : BranchInfo := mkBranchInfo "dev" None [(1, "00")] 1 0 0 ∅.

Definition sample_tree : tree :=
  mkTree (list_to_map [("/ds/_versions/1.manifest", sample_manifest_file 1); ("/ds/_versions/2.manifest", sample_manifest_file 2);
                       ("/ds/_versions/3.manifest", sample_manifest_file 3); ("/ds/_versions/4.manifest", sample_manifest_file 4);
                       ("/ds/data/a.lance", mkFile [1] 0); ("/ds/data/b.lance", mkFile [2] 0); ("/ds/data/c.lance", mkFile [3] 0);
                       ("/ds/_refs/tags/keep.json", mkFile (bytes_of_string (tag_json sample_tag)) 0);
                       ("/ds/_refs/branches/dev.json", mkFile (bytes_of_string (branch_json sample_fork)) 0);
                       ("/ds/tree/dev/_versions/1.manifest", sample_manifest_file 9)])
    (list_to_set ["/ds"; "/ds/_versions"; "/ds/data"; "/ds/_refs"; "/ds/_refs/tags"; "/ds/_refs/branches"; "/ds/tree"; "/ds/tree/dev"; "/ds/tree/dev/_versions"]).

Definition sample_policy : CleanupPolicy := mkCleanupPolicy None (Some 4) None true false None.
Definition sample_cleanup : res CleanupResult * tree :=
  cleanup_old_versions sample_io (fun _ => 0) sample_bodies (fun _ => Ok []) initial_read_limits "/ds" 0 sample_policy true 0 sample_tree.

(** The tree after it. *)
Definition sample_left : tree := Eval vm_compute in sample_cleanup.2.

Lemma sample_cleanup_left : sample_cleanup = (sample_cleanup.1, sample_left).
Proof. vm_compute. reflexivity. Qed.

Lemma sample_used v path q : "data/" +:+ path = q -> ends_with q ".blob" = false -> used (reference (sample_version v path) nothing) q.
Proof. intros <- H. apply used_data; [|exact H]. cbn. set_solver. Qed.

(** The second version and its file go; the latest has its own. *)
Lemma cleanup_never_orphans_witness :
  files sample_left !! "/ds/_versions/2.manifest" = None /\ files sample_left !! "/ds/data/c.lance" = None /\
  files sample_left !! path_join "/ds" "data/b.lance" = files sample_tree !! path_join "/ds" "data/b.lance".
Proof.
  split_and!; [vm_compute; reflexivity .. |].
  apply (cleanup_never_orphans sample_io (fun _ => 0) sample_bodies (fun _ => Ok []) initial_read_limits "/ds" 0 sample_policy true 0 sample_tree
    sample_cleanup.1 sample_left "4.manifest" (sample_version 4 "b.lance") "data/b.lance" sample_cleanup_left).
  - by split.
  - by vm_compute.
  - vm_compute. reflexivity.
  - vm_compute. by eexists.
  - by apply sample_used.
Defined.

(** A tag keeps the third version, which the policy selects. *)
Lemma cleanup_keeps_versions_witness :
  selected sample_policy 3 0 = true /\
  files sample_left !! path_join (path_join "/ds" "_versions") "3.manifest" = files sample_tree !! path_join (path_join "/ds" "_versions") "3.manifest".
Proof.
  split; [reflexivity|].
  apply (cleanup_keeps_versions sample_io (fun _ => 0) sample_bodies (fun _ => Ok []) initial_read_limits "/ds" 0 sample_policy true 0 sample_tree
    sample_cleanup.1 sample_left "3.manifest" 3 (sample_version 3 "b.lance") sample_cleanup_left).
  - vm_compute. reflexivity.
  - vm_compute. reflexivity.
  - eapply (stays_tagged sample_io (fun _ => 0) sample_bodies (fun _ => Ok []) initial_read_limits "/ds" 0 sample_policy sample_tree 3 _ 4
      (sample_version 4 "b.lance") "" (mkBranchScope "/ds" "") [sample_tag] sample_tag); [vm_compute; reflexivity .. | by apply list_elem_of_singleton | reflexivity | reflexivity].
Defined.

(** The branch keeps the file it took from the first version, which the policy selects. *)
Lemma cleanup_keeps_forks_witness :
  selected sample_policy 1 0 = true /\
  files sample_left !! path_join "/ds" "data/a.lance" = files sample_tree !! path_join "/ds" "data/a.lance".
Proof.
  split; [reflexivity|].
  apply (cleanup_keeps_forks sample_io (fun _ => 0) sample_bodies (fun _ => Ok []) initial_read_limits "/ds" 0 sample_policy true 0 sample_tree
    sample_cleanup.1 sample_left (mkForkedBranch "dev" "/ds/tree/dev" 1) (sample_version 1 "a.lance") sample_branch_manifest [sample_base_path]
    (add_data "data/a.lance" nothing) "data/a.lance" sample_cleanup_left).
  - split.
    + intros rv current branch scope forks Hrv Hc Hb Hs Hf. assert (rv = 4) as -> by (vm_compute in Hrv; congruence).
      assert (current = sample_version 4 "b.lance") as -> by (vm_compute in Hc |- *; congruence). assert (branch = "") as -> by (vm_compute in Hb; congruence).
      assert (scope = mkBranchScope "/ds" "") as -> by (vm_compute in Hs |- *; congruence).
      assert (forks = [mkForkedBranch "dev" "/ds/tree/dev" 1]) as -> by (vm_compute in Hf |- *; congruence). by apply list_elem_of_singleton.
    + exists "/ds/_versions/1.manifest", 25. split; [vm_compute; reflexivity|]. exists (sample_manifest_file 1). split; vm_compute; reflexivity.
    + exists "1.manifest". split_and!; [by split | by vm_compute|]. exists (sample_manifest_file 9). split; vm_compute; reflexivity.
    + vm_compute. reflexivity.
  - eapply (data_here _ _ _ _ _ (BasePaths.set_data_file_base_id (pb.mkDataFile "a.lance" [0] [0] 2 1 0 []) (Some 1)) (Some 1)).
    + by apply list_elem_of_singleton.
    + by apply list_elem_of_singleton.
    + vm_compute. reflexivity.
    + vm_compute. reflexivity.
  - apply used_data; [cbn; set_solver | reflexivity].
  - by apply sample_used.
Defined.

(** ** Names the checks let through *)

(** The same dataset with its branch under a name that starts with a dot. *)
Definition hidden_tree : tree :=
  mkTree (<["/ds/_refs/branches/.dev.json" := mkFile (bytes_of_string (branch_json sample_fork)) 0]>
           (<["/ds/tree/.dev/_versions/1.manifest" := sample_manifest_file 9]>
             (delete "/ds/_refs/branches/dev.json" (delete "/ds/tree/dev/_versions/1.manifest" (files sample_tree))))) (dirs sample_tree).

(** Such a name is valid, but its reference file is not listed: the clean-up takes the branch's files away. *)
Lemma hidden_branch_loses_files :
  check_valid_branch ".dev" = Ok tt /\ list_branches sample_io (fun _ => 0) "/ds" hidden_tree = Ok [] /\
  files (cleanup_old_versions sample_io (fun _ => 0) sample_bodies (fun _ => Ok []) initial_read_limits "/ds" 0 sample_policy true 0 hidden_tree).2
    !! "/ds/data/a.lance" = None.
Proof. split_and!; vm_compute; reflexivity. Qed.

(** When the listing that looks for the version a branch forked from fails, the branch is taken to hold nothing here and
    the clean-up goes on: the branch's file goes. *)
Definition unlisted_io : Io :=
  mkIo 2000 (fun _ => false) (fun _ => None) (fun _ => None) (fun _ => false) (fun _ => false) (fun _ => None) (fun _ => None) (fun _ => true) (fun _ => false).

Lemma unlisted_fork_loses_files :
  let clean io := cleanup_old_versions io (fun _ => 0) sample_bodies (fun _ => Ok []) initial_read_limits "/ds" 0 sample_policy true 0 sample_tree in
  is_Some (files (clean sample_io).2 !! "/ds/data/a.lance") /\
  match (clean unlisted_io).1 with Ok _ => True | Err _ => False end /\ files (clean unlisted_io).2 !! "/ds/data/a.lance" = None.
Proof. split_and!; [vm_compute; by eexists | vm_compute; done | vm_compute; reflexivity]. Qed.

(** Two branches of the same dataset, one's name a directory above the other's. *)
Definition nested_tree : tree :=
  mkTree (<["/ds/_refs/branches/dev%2Fx.json" := mkFile (bytes_of_string (branch_json (mkBranchInfo "dev/x" None [(4, "01")] 4 0 0 ∅))) 0]>
           (<["/ds/tree/dev/x/data/own.lance" := mkFile [5] 0]> (files sample_tree))) (dirs sample_tree).

(** Deleting the one takes the other's own files away, though it is still listed. *)
Lemma delete_branch_removes_nested :
  (delete_branch sample_io (fun _ => 0) "/ds" "dev" nested_tree).1 = Ok tt /\
  files (delete_branch sample_io (fun _ => 0) "/ds" "dev" nested_tree).2 !! "/ds/tree/dev/x/data/own.lance" = None /\
  (bs ← list_branches sample_io (fun _ => 0) "/ds" (delete_branch sample_io (fun _ => 0) "/ds" "dev" nested_tree).2; Ok (fmap (M := list) br_name bs)) = Ok ["dev/x"].
Proof. split_and!; vm_compute; reflexivity. Qed.

(** A branch of an object store is not found at its own location. *)
Lemma store_branch_scope : branch_scope_of "s3://bucket/ds/tree/dev" "dev" = Ok (mkBranchScope "s3:/bucket/ds" "dev").
Proof. vm_compute. reflexivity. Qed.

End CleanupSafe.
