(* ===== verification/AutoCleanup.v ===== *)
(** * AutoCleanup: the clean-up after a commit keeps what publishing relies on

    [Publish] leaves the clean-up of dataset_refs.cpp a parameter and assumes that it removes no version from
    the committed one on. Here the parameter is [Cleanup.run_auto_cleanup] on the tree around the store. *)

From S2P Require Import Prelude Json ReadSafety Pb BasePaths ManifestFile Publish DatasetFiles Refs Cleanup CleanupSafe.

Module AutoCleanup.
Import Files Refs Cleanup CleanupSafe.

Lemma digits_simple digits rest : all_digits digits = true -> split_slash rest = (rest, None) -> split_slash (digits +:+ rest) = (digits +:+ rest, None).
Proof.
  intros Hd Hr. induction digits as [|c digits IH]; [exact Hr|]. cbn [all_digits] in Hd. apply andb_prop in Hd as [Hc Hd]. rewrite append_cons. cbn [split_slash].
  assert (Json.char_is c 47 = false) as -> by (destruct c as [[] [] [] [] [] [] [] []]; try discriminate Hc; reflexivity). by rewrite (IH Hd).
Qed.

(** The name of a version's manifest has no slash. *)
Lemma manifest_simple n v : ManifestFile.parse_manifest_version n = Some v -> simple n.
Proof.
  unfold ManifestFile.parse_manifest_version, mbind, option_bind. destruct (ManifestFile.strip_suffix ".manifest" n) as [digits|] eqn:E; [|done]. intros H. case_hyp H.
  unfold ManifestFile.strip_suffix in E. case_hyp E. case_hyp E. injection E as <-. bool_prop. apply bool_decide_eq_false in E0. apply String.eqb_eq in E1.
  set (k := (String.length n - 9)%nat) in *. assert (n = String.substring 0 k n +:+ ".manifest") as Hn.
  { etrans; [apply (substring_split n k); unfold k; lia|]. f_equal. rewrite <- E1. f_equal. unfold k. cbn [String.length] in *. lia. }
  split; [by intros ->|]. rewrite Hn. by apply digits_simple.
Qed.

Section store.
  Context (io : Io).

Lemma stored_files_lookup dir t names n bytes : names !! n = Some bytes -> content <$> stored_files io dir t names !! path_join dir n = Some bytes.
Proof.
  intros Hn. unfold stored_files. set (f := fun nb : string * list Z => let '(n, bytes) := nb in _).
  assert ((list_to_map (f <$> map_to_list names) : gmap string file) !! path_join dir n = Some (f (n, bytes)).2) as H.
  { apply elem_of_list_to_map_1.
    - rewrite <- list_fmap_compose. assert (fst ∘ f <$> map_to_list names = path_join dir <$> (map_to_list names).*1) as -> by (rewrite <- list_fmap_compose; apply list_fmap_ext; by intros ? [? ?] _).
      apply NoDup_fmap_2; [apply path_join_inj | apply NoDup_fst_map_to_list].
    - apply list_elem_of_fmap. exists (n, bytes). split; [done | by apply elem_of_map_to_list]. }
  rewrite H. cbn. destruct (files t !! path_join dir n) as [g|]; [|done]. by case_bool_decide as Hb; [rewrite Hb|].
Qed.

Lemma stored_files_inv dir t names q f : stored_files io dir t names !! q = Some f -> exists n, q = path_join dir n /\ is_Some (names !! n).
Proof.
  unfold stored_files. intros H. apply elem_of_list_to_map_2 in H. apply list_elem_of_fmap in H as ([n bytes] & H & Hin). injection H as -> _.
  exists n. split; [done|]. apply elem_of_map_to_list in Hin. by rewrite Hin.
Qed.

Lemma transactions_path d n : path_join (path_join d "_transactions") n = path_join d ("_transactions/" +:+ n).
Proof. apply (path_join_nested d "_transactions"). by eexists. Qed.

(** The files of [_versions] are those of the store. *)
Lemma with_store_versions d s t n :
  simple n -> content <$> files (with_store io d s t) !! path_join (versions_dir d) n = Publish.versions s !! n.
Proof.
  intros [Hne Hs]. unfold with_store. cbn [files]. destruct (Publish.versions s !! n) as [bytes|] eqn:En.
  - pose proof (stored_files_lookup (versions_dir d) t _ _ _ En) as H. apply fmap_Some in H as (f & Hf & ->).
    erewrite lookup_union_Some_l; [reflexivity|]. by erewrite lookup_union_Some_l.
  - apply fmap_None, lookup_union_None. split; [apply lookup_union_None; split|].
    + destruct (stored_files io (versions_dir d) t (Publish.versions s) !! path_join (versions_dir d) n) eqn:E; [|done].
      apply stored_files_inv in E as (n' & Heq & Hn'). apply path_join_inj in Heq as <-. rewrite En in Hn'. by destruct Hn'.
    + destruct (stored_files io (transactions_dir d) t (Publish.transactions s) !! path_join (versions_dir d) n) eqn:E; [|done].
      apply stored_files_inv in E as (n' & Heq & _). unfold versions_dir, transactions_dir in Heq. rewrite versions_path, transactions_path in Heq.
      apply path_join_inj in Heq. discriminate Heq.
    + apply map_lookup_filter_None. right. intros f _ [Hd _]. unfold directly_in in Hd. rewrite below_join in Hd by done. rewrite Hs in Hd. discriminate Hd.
Qed.

Lemma dir_files_simple d t n : is_Some (dir_files d t !! n) -> simple n.
Proof.
  intros [bytes H]. unfold dir_files in H. apply elem_of_list_to_map_2, list_elem_of_omap in H as ([r f] & Hin & H). cbn [fst snd] in H.
  destruct (split_slash r) as [x [o|]] eqn:E; [done|]. injection H as -> _. apply relative_elem in Hin as [_ Hne]. by pose proof (split_slash_none _ _ E) as ->.
Qed.

End store.

Lemma remove_candidates_subset io d cs t r t' : remove_candidates io d cs t = (r, t') -> files t' ⊆ files t.
Proof.
  revert t. induction cs as [|c cs IH]; intros t H; cbn [remove_candidates] in H; [by injection H as <- <-|].
  destruct (remove_fault io (path_join d (cand_path c))); [by injection H as <- <-|]. apply IH in H. etrans; [exact H|]. apply delete_subseteq.
Qed.

Section auto.
  Context (io : Io) (undefined : Json.double -> Z).
  Context (decode_manifest : list Z -> option pb.Manifest) (decode_index_section : list Z -> res (list pb.IndexMetadata)) (limits : ReadLimits).

Notation load := (load_manifest_file io decode_manifest decode_index_section limits).
Notation cleanup := (cleanup_old_versions io undefined decode_manifest decode_index_section limits).

(** A clean-up removes files and does nothing else to them. *)
Lemma cleanup_subset d read_version policy execute maxc t r t' : cleanup d read_version policy execute maxc t = (r, t') -> files t' ⊆ files t.
Proof.
  unfold cleanup_old_versions. destruct (plan _ _ _ _ _ _ _ _ _) as [p|]; [|by intros [= <- <-]]. destruct execute; cbn [negb]; [|by intros [= <- <-]].
  destruct (remove_candidates io d _ t) as [[] t1] eqn:E; intros [= <- <-]; apply remove_candidates_subset in E; [|done].
  destruct (on_object_store io d); [done | by rewrite remove_if_empty_files].
Qed.

(** A manifest the clean-up cannot skip is loaded. *)
Lemma planned_loads d read_version policy t p scope forks tagged forked protection entries n v :
  planned io undefined decode_manifest decode_index_section limits d read_version policy t p scope forks tagged forked protection entries ->
  ManifestFile.parse_manifest_version n = Some v -> is_Some (files t !! path_join (path_join d "_versions") n) -> plan_read_version p <= v ->
  exists m, load (path_join (path_join d "_versions") n) t = Ok m.
Proof.
  intros Hp Hv [f Hf] Hle. pose proof (version_files_elem _ _ _ _ _ _ (pl_entries _ _ _ _ _ _ _ _ _ _ _ _ _ _ _ _ Hp) (manifest_simple _ _ Hv) Hf) as He.
  destruct (fold_res_elem _ _ _ _ _ (pl_pass _ _ _ _ _ _ _ _ _ _ _ _ _ _ _ _ Hp) He) as (l1 & l2 & s1 & s2 & _ & _ & H & _).
  unfold pass_entry, manifest_name in H. cbn [vf_name vf_path] in H. rewrite Hv in H. destruct (load (path_join (path_join d "_versions") n) t) as [m|]; [by exists m|].
  destruct (Z.ltb_spec v (plan_read_version p)); [lia|]. discriminate H.
Qed.

(** The clean-up after a commit removes files, and leaves every version from the committed one on. *)
Lemma run_auto_cleanup_keeps d v config t :
  let t' := run_auto_cleanup io undefined decode_manifest decode_index_section limits d v config t in
  files t' ⊆ files t /\
  forall n w, ManifestFile.parse_manifest_version n = Some w -> v <= w ->
    files t' !! path_join (path_join d "_versions") n = files t !! path_join (path_join d "_versions") n.
Proof.
  unfold run_auto_cleanup. destruct (auto_policy io d v config t) as [policy|] eqn:Epol; [|done].
  destruct (cleanup d (v - 1) policy true 0%nat t) as [r t'] eqn:Ec. cbn [snd]. pose proof (cleanup_subset _ _ _ _ _ _ _ _ Ec) as Hsub. split; [done|].
  intros n w Hw Hle. destruct (files t !! path_join (path_join d "_versions") n) as [f|] eqn:Ef.
  2: { destruct (files t' !! _) as [g|] eqn:Eg; [|done]. by rewrite (lookup_weaken _ _ _ _ Eg Hsub) in Ef. }
  rewrite <- Ef. apply cleanup_gone in Ec as [Hsame|(p & scope & forks & tagged & forked & protection & entries & k & Hp & Hg)]; [by rewrite Hsame|].
  assert (2 <= v) as Hv2 by (unfold auto_policy in Epol; destruct (config !! _); [|done]; destruct (Z.ltb_spec v 2); [done | lia]).
  assert (resolve_read_version io d (v - 1) t = Ok (v - 1)) as Hr by (unfold resolve_read_version; destruct (Z.eqb_spec (v - 1) 0); [lia | done]).
  assert (plan_read_version p = v - 1) as Hrv by (pose proof (pl_read _ _ _ _ _ _ _ _ _ _ _ _ _ _ _ _ Hp) as H; rewrite Hr in H; by injection H).
  destruct (planned_loads _ _ _ _ _ _ _ _ _ _ _ _ _ Hp Hw ltac:(by rewrite Ef) ltac:(lia)) as [m Hm].
  rewrite versions_path, (Hg ("_versions/" +:+ n)), bool_decide_false; [done|].
  eapply planned_keeps_manifest; [exact Hp | exact Hw | exact Hm|]. eapply stays_keeps; [exact Hp|]. eapply stays_recent; [exact Hr | lia].
Qed.

(** The clean-up of [Publish], at the directory [d] of the tree [t]. *)
Definition auto_cleanup_at (d : string) (t : tree) (v : Z) (config : gmap string string) (s : Publish.store) : Publish.store :=
  store_at io d (run_auto_cleanup io undefined decode_manifest decode_index_section limits d v config (with_store io d s t)).

(** C17: (refinement): the clean-up a commit runs is one that publishing may rely on: it only removes files, and leaves every
    version from the committed one on as it is, whatever the configuration, the rest of the tree and the faults. *)
Theorem auto_cleanup_keeps d t : Publish.cleanup_keeps (auto_cleanup_at d t).
Proof.
  intros v config s. unfold auto_cleanup_at. set (t0 := with_store io d s t). set (t' := run_auto_cleanup _ _ _ _ _ _ _ _ _).
  destruct (run_auto_cleanup_keeps d v config t0) as [Hsub Hkeep]. fold t' in Hsub, Hkeep.
  assert (forall n, simple n -> Publish.versions (store_at io d t') !! n = content <$> files t' !! path_join (path_join d "_versions") n) as Hend
    by (intros n Hn; cbn [store_at Publish.versions]; by rewrite dir_files_lookup).
  assert (forall n, simple n -> content <$> files t0 !! path_join (path_join d "_versions") n = Publish.versions s !! n) as Hmid
    by (intros n Hn; by apply with_store_versions).
  split.
  - apply map_subseteq_spec. intros n bytes Hn. assert (simple n) as Hs by exact (dir_files_simple (versions_dir d) t' n (ex_intro _ bytes Hn)). rewrite Hend in Hn by done.
    rewrite <- Hmid by done. apply fmap_Some in Hn as (f & Hf & ->). by rewrite (lookup_weaken _ _ _ _ Hf Hsub).
  - intros n w Hw Hle. assert (simple n) as Hs by (by eapply manifest_simple). by rewrite Hend, <- Hmid, (Hkeep n w Hw Hle).
Qed.

End auto.

End AutoCleanup.
