(* ===== verification/DatasetTrees.v ===== *)
(** * DatasetTrees: what removing, copying and dropping directories change

    Operations on a directory leave every file outside it as it was; listing a directory level by level finds
    every file in it; dropping a dataset removes its files and no other. *)

From S2P Require Import Prelude Json ReadSafety Pb ManifestFile Publish DatasetFiles Refs Cleanup CleanupSafe AutoCleanup.

Module DatasetTrees.
Import Files Refs Cleanup CleanupSafe.

(** ** Confinement *)

(** [p] is [d] or under it. *)
Definition inside (d p : string) : Prop := p = d \/ exists q, p = path_join d q.

Definition confined (d : string) (t t' : tree) : Prop := forall p, ~ inside d p -> files t' !! p = files t !! p.

#[export] Instance confined_preorder d : PreOrder (confined d).
Proof. split; [by intros t p|]. intros a b c H1 H2 p Hp. by rewrite H2, H1. Qed.

Lemma below_inside d p r : below d p = Some r -> inside d p.
Proof. intros [-> _]%below_inv. right. by exists r. Qed.

Lemma path_join_inside d p n : inside d p -> inside d (path_join p n).
Proof.
  intros [->|[q ->]]; [right; by exists n|]. right. rewrite (path_join_prefix d q). set (P := path_join d ""). unfold path_join at 1.
  destruct (last (String.list_ascii_of_string (P +:+ q))) as [c|] eqn:E.
  - case_bool_decide; [exists (q +:+ n); rewrite (path_join_prefix d (q +:+ n)); by rewrite append_assoc|].
    exists (q +:+ "/" +:+ n). rewrite (path_join_prefix d (q +:+ "/" +:+ n)). by rewrite append_assoc.
  - exists n. rewrite (path_join_prefix d n). fold P. apply last_None in E. rewrite list_ascii_app in E. apply app_eq_nil in E as [E _]. by destruct P.
Qed.

Lemma inside_trans d p x : inside d p -> inside p x -> inside d x.
Proof. intros H [->|[q ->]]; [done | by apply path_join_inside]. Qed.

Lemma confined_mono d p t t' : inside d p -> confined p t t' -> confined d t t'.
Proof. intros H Hc x Hx. apply Hc. intros Hp. apply Hx. by eapply inside_trans. Qed.

Lemma confined_same d t t' : files t' = files t -> confined d t t'.
Proof. intros H p _. by rewrite H. Qed.

Lemma confined_put d p f t : inside d p -> confined d t (put p f t).
Proof. intros Hp x Hx. cbn [put files]. apply lookup_insert_ne. intros ->. done. Qed.

Lemma confined_remove d p t : inside d p -> confined d t (remove p t).
Proof. intros Hp x Hx. cbn [remove files]. apply lookup_delete_ne. intros ->. done. Qed.

Section trees.
  Context (io : Io).

Lemma write_confined d p bytes t r t' : inside d p -> write io p bytes t = (r, t') -> confined d t t'.
Proof. unfold write. intros Hp. destruct (write_fault io p); intros [= _ <-]; [reflexivity | by apply confined_put]. Qed.

Lemma copy_stream_confined d src dst t r t' : inside d dst -> copy_stream io src dst t = (r, t') -> confined d t t'.
Proof. unfold copy_stream. intros Hp. destruct (open_source io src t); [by apply write_confined | intros [= _ <-]; reflexivity]. Qed.

Lemma copy_one_confined d src dst t r t' : inside d dst -> copy_one io src dst t = (r, t') -> confined d t t'.
Proof.
  unfold copy_one. intros Hp. destruct (negb _ && negb _); [|by apply copy_stream_confined]. destruct (exists_file io dst t); [intros [= _ <-]; reflexivity | by apply copy_stream_confined].
Qed.

Lemma copy_each_confined d copy src_dir dst_dir names t r t' :
  (forall src dst t r t', inside d dst -> copy src dst t = (r, t') -> confined d t t') -> inside d dst_dir -> copy_each copy src_dir dst_dir names t = (r, t') -> confined d t t'.
Proof.
  intros Hcopy Hd. revert t. induction names as [|n names IH]; intros t H; cbn [copy_each] in H; [injection H as _ <-; reflexivity|].
  destruct (copy _ _ t) as [[]t1] eqn:E; apply Hcopy in E; try (by apply path_join_inside); [|by injection H as _ <-]. etrans; [exact E | by apply IH].
Qed.

Lemma copy_tree_confined d src_dir dst_dir t r t' : inside d dst_dir -> copy_tree io src_dir dst_dir t = (r, t') -> confined d t t'.
Proof.
  unfold copy_tree. intros Hd. destruct (negb _ && negb _).
  - destruct (path_exists io src_dir t); [|intros [= _ <-]; reflexivity]. intros H. eapply copy_each_confined in H; [|intros *; apply copy_one_confined | exact Hd].
    etrans; [|exact H]. by apply confined_same.
  - destruct (objects_under io _ src_dir t); [|intros [= _ <-]; reflexivity]. intros H. eapply copy_each_confined; [intros *; apply copy_stream_confined | exact Hd | exact H].
Qed.

Lemma remove_each_confined d paths t r t' : Forall (inside d) paths -> remove_each io paths t = (r, t') -> confined d t t'.
Proof.
  intros Hp. revert t. induction Hp as [|p paths Hin _ IH]; intros t H; cbn [remove_each] in H; [injection H as _ <-; reflexivity|].
  destruct (remove_fault io p); [injection H as _ <-; reflexivity|]. etrans; [by apply (confined_remove d p) | by apply IH].
Qed.

(** What a removal that succeeds leaves. *)
Lemma remove_each_ok paths t t' : remove_each io paths t = (Ok tt, t') -> forall p, files t' !! p = if bool_decide (p ∈ paths) then None else files t !! p.
Proof.
  revert t. induction paths as [|x paths IH]; intros t H p; cbn [remove_each] in H; [injection H as <-; done|]. destruct (remove_fault io x); [done|]. rewrite (IH _ H p). cbn [remove files].
  destruct (decide (p = x)) as [->|Hne].
  - rewrite lookup_delete_eq, (bool_decide_true (x ∈ x :: paths)) by (by left). by destruct (bool_decide _).
  - rewrite lookup_delete_ne by done. assert (bool_decide (p ∈ x :: paths) = bool_decide (p ∈ paths)) as ->; [|done]. apply bool_decide_ext. rewrite elem_of_cons. naive_solver.
Qed.

Lemma remove_each_quiet paths t : (forall p, remove_fault io p = None) -> exists t', remove_each io paths t = (Ok tt, t').
Proof. intros Hq. revert t. induction paths as [|x paths IH]; intros t; cbn [remove_each]; [by eexists|]. rewrite Hq. apply IH. Qed.

(** ** Walking a directory *)

Lemma file_entry_inv e n : file_entry e = Some n -> name n = e.1 /\ is_dir n = false.
Proof. unfold file_entry. destruct (split_slash e.1) as [x [o|]] eqn:E; [done|]. intros [= <-]. cbn. split; [by apply split_slash_none in E | done]. Qed.

(** The body of the walk: what one entry adds. *)
Definition found (fuel : nat) (dir : string) (t : tree) (entry : DirEntry) : res (list string) :=
  if negb (is_dir entry) then Ok [path_join dir (name entry)] else objects_under io fuel (path_join dir (name entry)) t.

Lemma objects_under_step fuel dir t :
  objects_under io (S fuel) dir t = (entries ← list_dir io dir t; fold_res (fun out e => more ← found fuel dir t e; Ok (out ++ more)) entries []).
Proof.
  cbn [objects_under]. unfold mbind at 1 3, res_bind at 1 3. destruct (list_dir io dir t) as [entries|]; [|done]. apply fold_res_ext. intros out e _. unfold found.
  by destruct (is_dir e).
Qed.

Lemma collect_inv {A B} (f : A -> res (list B)) l out acc :
  fold_res (fun out e => more ← f e; Ok (out ++ more)) l acc = Ok out -> forall p, p ∈ out <-> p ∈ acc \/ exists e more, e ∈ l /\ f e = Ok more /\ p ∈ more.
Proof.
  revert acc. induction l as [|x l IH]; intros acc H p; cbn [fold_res] in H; unfold mbind, res_bind in H.
  - injection H as <-. split; [by left | intros [H|(e & _ & H & _)]; [done | by apply not_elem_of_nil in H]].
  - destruct (f x) as [more|] eqn:E; [|done]. rewrite (IH _ H p), elem_of_app. split.
    + intros [[Hp|Hp]|(e & m & He & Hm & Hp)]; [by left | right; exists x, more; split_and!; [by left | done | done] | right; exists e, m; split_and!; [by right | done | done]].
    + intros [Hp|(e & m & He & Hm & Hp)]; [by left; left|]. apply elem_of_cons in He as [->|He]; [|right; by exists e, m]. rewrite E in Hm. injection Hm as <-. left. by right.
Qed.

Lemma collect_ok {A B} (f : A -> res (list B)) l acc : (forall e, e ∈ l -> exists more, f e = Ok more) -> exists out, fold_res (fun out e => more ← f e; Ok (out ++ more)) l acc = Ok out.
Proof.
  revert acc. induction l as [|x l IH]; intros acc H; [by exists acc|]. cbn [fold_res]. unfold mbind, res_bind. destruct (H x ltac:(by left)) as [more ->]. apply IH. intros e He. apply H. by right.
Qed.

(** Whatever it finds is inside the directory. *)
Lemma objects_under_inside d fuel dir t l : inside d dir -> objects_under io fuel dir t = Ok l -> Forall (inside d) l.
Proof.
  revert dir l. induction fuel as [|fuel IH]; intros dir l Hd H; [done|]. rewrite objects_under_step in H. unfold mbind at 1, res_bind at 1 in H.
  destruct (list_dir io dir t) as [entries|]; [|done]. apply Forall_forall. intros p Hp. apply (collect_inv _ _ _ _ H) in Hp as [Hp|(e & more & _ & He & Hp)]; [by apply not_elem_of_nil in Hp|].
  unfold found in He. destruct (is_dir e); cbn [negb] in He.
  - apply IH in He; [|by apply path_join_inside]. rewrite Forall_forall in He. by apply He.
  - injection He as <-. apply list_elem_of_singleton in Hp as ->. by apply path_join_inside.
Qed.

Lemma remove_tree_confined d dir t r t' : inside d dir -> remove_tree io dir t = (r, t') -> confined d t t'.
Proof.
  unfold remove_tree, remove_all. intros Hd. destruct (on_object_store io dir); cbn [negb].
  - destruct (objects_under io _ dir t) as [l|] eqn:E; [|intros [= _ <-]; reflexivity]. apply remove_each_confined. by eapply objects_under_inside.
  - set (paths := filter _ _). assert (Forall (inside d) paths) as Hp.
    { apply Forall_forall. intros p Hp. apply list_elem_of_filter in Hp as [[->|[r1 Hr]] _]; [done|]. eapply inside_trans; [exact Hd|]. by eapply below_inside. }
    destruct (remove_each io paths t) as [[] t1] eqn:E; apply (remove_each_confined d _ _ _ _ Hp) in E; intros [= _ <-]; [|done]. etrans; [exact E|]. by apply confined_same.
Qed.

(** No empty names under a directory. *)
Definition tidy (dir : string) (t : tree) : Prop :=
  (forall r f, (r, f) ∈ relative dir t -> "" ∉ split r) /\ (forall d r, d ∈ dirs t -> below dir d = Some r -> "" ∉ split r).

Lemma split_first p : split p = (split_slash p).1 :: match (split_slash p).2 with Some rest => split rest | None => [] end.
Proof.
  induction p as [|c p IH]; [done|]. cbn [split split_slash]. destruct (Json.char_is c 47); [done|]. rewrite IH. by destruct (split_slash p) as [n [rest|]].
Qed.

(** A name of a tidy directory, and what is under it. *)
Lemma first_name p n o : split_slash p = (n, o) -> split_slash n = (n, None) /\ p = match o with Some rest => n +:+ "/" +:+ rest | None => n end.
Proof.
  revert n o. induction p as [|c p IH]; intros n o; cbn [split_slash]; [by intros [= <- <-]|]. destruct (Json.char_is c 47) eqn:E.
  - intros [= <- <-]. assert (c = Json.chr 47) as -> by (destruct c as [[] [] [] [] [] [] [] []]; try discriminate E; reflexivity). done.
  - destruct (split_slash p) as [n' o'] eqn:Ep. intros [= <- <-]. destruct (IH n' o' eq_refl) as [Hn Hp]. cbn [split_slash]. rewrite E, Hn. split; [done|].
    destruct o' as [rest|]; rewrite Hp at 1; [by rewrite append_cons | done].
Qed.

Lemma name_open n : n <> "" -> split_slash n = (n, None) -> open_ended n.
Proof.
  intros Hne Hn. unfold open_ended. induction n as [|c n IH]; [done|]. cbn [split_slash] in Hn. destruct (Json.char_is c 47) eqn:E; [done|]. destruct (split_slash n) as [n' o'] eqn:En.
  injection Hn as -> ->. destruct n as [|c' n].
  - exists c. split; [done|]. intros ->. done.
  - destruct IH as (c0 & Hc0 & Hne0); [done | done|]. exists c0. split; [|done]. cbn [String.list_ascii_of_string] in *. exact Hc0.
Qed.

Lemma below_nested dir n p r : open_ended n -> below (path_join dir n) p = Some r <-> below dir p = Some (n +:+ "/" +:+ r) /\ r <> "".
Proof.
  intros Hn. split.
  - intros [-> Hr]%below_inv. rewrite path_join_nested by done. split; [|done]. apply below_join. by destruct n.
  - intros [[-> _]%below_inv Hr]. rewrite <- path_join_nested by done. by apply below_join.
Qed.

Lemma relative_nested dir n t r f : open_ended n -> (r, f) ∈ relative (path_join dir n) t <-> (n +:+ "/" +:+ r, f) ∈ relative dir t /\ r <> "".
Proof.
  intros Hn. rewrite !relative_elem, path_join_nested by done. split; [intros [H1 H2]; split; [|done]; split; [done | by destruct n] | by intros [[H1 _] H2]].
Qed.

Lemma list_dir_entry dir t entries e : (forall p, list_fault io p = None) -> tidy dir t -> list_dir io dir t = Ok entries -> e ∈ entries ->
  (is_dir e = false /\ exists f, (name e, f) ∈ relative dir t) \/
  (is_dir e = true /\ open_ended (name e) /\ exists r, r <> "" /\ ((exists f, (r, f) ∈ relative dir t) \/ exists d, d ∈ dirs t /\ below dir d = Some r)).
Proof.
  unfold list_dir. intros Hq [Ht1 Ht2] H He. rewrite Hq in H. injection H as <-. apply elem_of_app in He as [He|He].
  - left. apply list_elem_of_omap in He as ([r f] & Hin & He). apply file_entry_inv in He as [-> ->]. split; [done|]. by exists f.
  - right. apply list_elem_of_fmap in He as (n & -> & Hn). cbn [is_dir name]. split; [done|]. unfold subdirs in Hn. apply elem_of_remove_dups, elem_of_app in Hn as [Hn|Hn].
    + apply list_elem_of_omap in Hn as (r & Hr & Hn). apply list_elem_of_fmap in Hr as ([r' f] & -> & Hin). unfold dir_name in Hn. cbn [fst] in Hn.
      destruct (split_slash r') as [x [rest|]] eqn:E; [|done]. injection Hn as ->. destruct (first_name _ _ _ E) as [Hx _]. split.
      * apply name_open; [|done]. intros ->. apply (Ht1 _ _ Hin). rewrite split_first, E. by left.
      * exists r'. split; [by apply relative_elem in Hin as [_ ?] | left; by exists f].
    + destruct (on_object_store io dir); [by apply not_elem_of_nil in Hn|]. apply list_elem_of_omap in Hn as (d & Hd & Hn). apply elem_of_elements in Hd.
      destruct (below dir d) as [r|] eqn:Eb; [|done]. cbn in Hn. injection Hn as <-. destruct (split_slash r) as [x o] eqn:E. destruct (first_name _ _ _ E) as [Hx _]. cbn [fst]. split.
      * apply name_open; [|done]. intros ->. apply (Ht2 _ _ Hd Eb). rewrite split_first, E. by left.
      * exists r. split; [by apply below_inv in Eb as [_ ?] | right; by exists d].
Qed.

Lemma split_nested a r : exists x l, split (a +:+ "/" +:+ r) = x :: l ++ split r.
Proof.
  induction a as [|c a (x & l & IH)]; [by exists "", []|]. rewrite append_cons. cbn [split]. rewrite IH. destruct (Json.char_is c 47); [by exists "", (x :: l) | by exists (String c x), l].
Qed.

Lemma tidy_nested dir n t : open_ended n -> tidy dir t -> tidy (path_join dir n) t.
Proof.
  intros Hn [H1 H2].
  assert (forall r, "" ∉ split (n +:+ "/" +:+ r) -> "" ∉ split r) as Hsplit.
  { intros r Hr Hin. apply Hr. destruct (split_nested n r) as (x & l & ->). right. apply elem_of_app. by right. }
  split.
  - intros r f [Hr _]%relative_nested; [|done]. by apply Hsplit, (H1 _ f).
  - intros d r Hd [Hb _]%below_nested; [|done]. by eapply Hsplit, H2.
Qed.

(** Every relative path is shorter than the fuel. *)
Definition shallower (fuel : nat) (dir : string) (t : tree) : Prop :=
  (forall r f, (r, f) ∈ relative dir t -> (String.length r < fuel)%nat) /\ (forall d r, d ∈ dirs t -> below dir d = Some r -> (String.length r < fuel)%nat).

Lemma shallower_nested fuel dir n t : open_ended n -> shallower (S fuel) dir t -> shallower fuel (path_join dir n) t.
Proof.
  intros Hn [H1 H2]. assert (forall r, (String.length (n +:+ "/" +:+ r) < S fuel -> String.length r < fuel)%nat) as Hlen by (intros r; rewrite !string_length_app; cbn; lia).
  split; [intros r f [Hr _]%relative_nested; [|done] | intros d r Hd [Hb _]%below_nested; [|done]]; apply Hlen; eauto.
Qed.

(** The walk ends and finds every file. *)
Lemma objects_under_complete fuel dir t : (forall p, list_fault io p = None) -> tidy dir t -> shallower fuel dir t -> (0 < fuel)%nat ->
  exists l, objects_under io fuel dir t = Ok l /\ forall r f, (r, f) ∈ relative dir t -> path_join dir r ∈ l.
Proof.
  intros Hq. revert dir. induction fuel as [|fuel IH]; intros dir Htidy Hs Hpos; [lia|]. rewrite objects_under_step. unfold mbind at 1, res_bind at 1.
  destruct (list_dir io dir t) as [entries|] eqn:El; [|unfold list_dir in El; by rewrite Hq in El].
  assert (forall e, e ∈ entries -> is_dir e = true -> exists l, objects_under io fuel (path_join dir (name e)) t = Ok l /\
    forall r f, (r, f) ∈ relative (path_join dir (name e)) t -> path_join (path_join dir (name e)) r ∈ l) as Hsub.
  { intros e He Hd. destruct (list_dir_entry dir t entries e Hq Htidy El He) as [[Hf _]|(_ & Hopen & r & Hr & Hin)]; [by rewrite Hf in Hd|].
    apply IH; [by apply tidy_nested | by apply shallower_nested|]. assert (String.length r < S fuel)%nat as Hlen by (destruct Hs as [Hs1 Hs2], Hin as [[f Hin]|(d & Hdir & Hb)]; eauto).
    destruct r; [done|]. cbn in Hlen. lia. }
  destruct (collect_ok (found fuel dir t) entries []) as [l Hl].
  { intros e He. unfold found. destruct (is_dir e) eqn:Ed; cbn [negb]; [|by eexists]. destruct (Hsub e He Ed) as (l & Hl & _). by exists l. }
  exists l. split; [exact Hl|]. intros r f Hin. apply (collect_inv _ _ _ _ Hl). right. unfold list_dir in El. rewrite Hq in El. injection El as <-.
  destruct (split_slash r) as [n [rest|]] eqn:E; destruct (first_name _ _ _ E) as [Hn ->].
  - set (e := mkDirEntry n true 0 0). assert (e ∈ omap file_entry (relative dir t) ++ ((fun n => mkDirEntry n true 0 0) <$> subdirs io dir t)) as He.
    { apply elem_of_app. right. apply list_elem_of_fmap. exists n. split; [done|]. unfold subdirs. apply elem_of_remove_dups, elem_of_app. left. apply list_elem_of_omap.
      exists (n +:+ "/" +:+ rest). split; [by apply (list_elem_of_fmap_2' fst _ (n +:+ "/" +:+ rest, f))|]. unfold dir_name. by rewrite E. }
    destruct (Hsub e He eq_refl) as (l' & Hl' & Hall). exists e, l'. split_and!; [done | done|]. cbn [name e] in Hall.
    assert (n <> "") as Hne by (intros ->; apply (proj1 Htidy _ _ Hin); by left). assert (open_ended n) as Hopen by (by apply name_open).
    rewrite <- path_join_nested by done. apply (Hall rest f), relative_nested; [done|]. split; [done|]. intros ->. apply (proj1 Htidy _ _ Hin).
    destruct (split_nested n "") as (x & l1 & ->). right. apply elem_of_app. right. by left.
  - exists (mkDirEntry n false (zlen (content f)) (modified_ns f)), [path_join dir n]. split_and!; [|done | by left]. apply elem_of_app. left. apply list_elem_of_omap. exists (n, f).
    split; [done|]. unfold file_entry. cbn [fst snd]. by rewrite E.
Qed.

Lemma foldr_max_elem x l : x ∈ l -> (String.length x <= foldr (fun p n => String.length p `max` n)%nat O l)%nat.
Proof. induction 1 as [|x y l _ IH]; cbn; lia. Qed.

Lemma depth_shallower dir t : shallower (depth t) dir t.
Proof.
  assert (forall p r, p ∈ (map_to_list (files t)).*1 ++ elements (dirs t) -> p = path_join dir r -> (String.length r < depth t)%nat) as H.
  { intros p r Hp ->. apply foldr_max_elem in Hp. unfold depth. rewrite path_join_prefix, string_length_app in Hp. lia. }
  split.
  - intros r f [Hr _]%relative_elem. apply (H (path_join dir r)); [|done]. apply elem_of_app. left. apply (list_elem_of_fmap_2' fst _ (path_join dir r, f)); [by apply elem_of_map_to_list | done].
  - intros d r Hd [-> _]%below_inv. apply (H (path_join dir r)); [|done]. apply elem_of_app. right. by apply elem_of_elements.
Qed.

Lemma remove_all_all dir t : (forall p, remove_fault io p = None) -> exists t', remove_all io dir t = (Ok tt, t') /\ relative dir t' = [].
Proof.
  intros Hrm. unfold remove_all. set (paths := filter _ _). destruct (remove_each_quiet paths t Hrm) as [t' Hr]. rewrite Hr. eexists. split; [done|]. apply elem_of_nil_inv. intros [r f] Hin.
  apply relative_elem in Hin as [Hf Hr0]. cbn [without_dirs files] in Hf. rewrite (remove_each_ok _ _ _ Hr) in Hf. case_bool_decide as Hin; [done|]. apply Hin, list_elem_of_filter. split.
  - right. rewrite below_join by done. by eexists.
  - apply (list_elem_of_fmap_2' fst _ (path_join dir r, f)); [by apply elem_of_map_to_list | done].
Qed.

(** Without faults, a directory is removed with every file in it. *)
Lemma remove_tree_all dir t : tidy dir t -> (forall p, list_fault io p = None) -> (forall p, remove_fault io p = None) ->
  exists t', remove_tree io dir t = (Ok tt, t') /\ relative dir t' = [].
Proof.
  intros Ht Hq Hrm. unfold remove_tree. destruct (on_object_store io dir); cbn [negb].
  - destruct (objects_under_complete (depth t) dir t Hq Ht (depth_shallower dir t) ltac:(unfold depth; lia)) as (l & -> & Hall).
    destruct (remove_each_quiet l t Hrm) as [t' Hr]. exists t'. split; [done|]. apply elem_of_nil_inv. intros [r f] Hin. apply relative_elem in Hin as [Hf Hr0].
    rewrite (remove_each_ok _ _ _ Hr) in Hf. case_bool_decide as Hin; [done|]. apply Hin, (Hall r f). by apply relative_elem.
  - by apply remove_all_all.
Qed.

End trees.

(** ** The walk of a clean-up ends *)

Lemma relative_names d t : (relative d t).*1 = omap (below d) (map_to_list (files t)).*1.
Proof.
  unfold relative. induction (map_to_list (files t)) as [|[p f] l IH]; [done|]. cbn. destruct (below d p); cbn; [f_equal|]; exact IH.
Qed.

(** The paths of [l] under the name [n]. *)
Definition under_name (n : string) (l : list string) : list string :=
  omap (fun r => match split_slash r with (m, Some rest) => if String.eqb m n then Some rest else None | _ => None end) l.

Fixpoint lengths (l : list string) : nat := match l with [] => O | r :: l => (String.length r + lengths l)%nat end.
Fixpoint weights (l : list string) : nat := match l with [] => O | r :: l => (S (String.length r) + weights l)%nat end.
Fixpoint total (f : string -> nat) (ns : list string) : nat := match ns with [] => O | n :: ns => (f n + total f ns)%nat end.

Lemma total_plus f g ns : total (fun n => f n + g n)%nat ns = (total f ns + total g ns)%nat.
Proof. induction ns as [|n ns IH]; cbn; [done|]. rewrite IH. lia. Qed.

Lemma total_le f g ns : (forall n, n ∈ ns -> (f n <= g n)%nat) -> (total f ns <= total g ns)%nat.
Proof. intros H. induction ns as [|n ns IH]; cbn; [lia|]. pose proof (H n ltac:(by left)). assert (total f ns <= total g ns)%nat by (apply IH; intros; apply H; by right). lia. Qed.

Lemma total_once m x ns : NoDup ns -> (total (fun n => if String.eqb m n then x else O) ns <= x)%nat.
Proof.
  induction 1 as [|n ns Hn _ IH]; cbn; [lia|]. destruct (String.eqb_spec m n) as [->|]; [|lia].
  assert (total (fun n0 => if String.eqb n n0 then x else O) ns = O) as ->; [|lia]. clear IH. induction ns as [|k ns IH]; [done|]. cbn. apply not_elem_of_cons in Hn as [Hne Hn].
  destruct (String.eqb_spec n k); [done | by apply IH].
Qed.

(** The names of a directory share its characters. *)
Lemma names_share ns l : NoDup ns -> (total (fun n => weights (under_name n l)) ns <= lengths l)%nat.
Proof.
  intros Hnd. induction l as [|r l IH]; cbn [lengths].
  - induction ns as [|n ns IHn]; cbn; [lia|]. apply NoDup_cons in Hnd as [_ Hnd]. by apply IHn.
  - destruct (split_slash r) as [m [rest|]] eqn:E.
    + etrans; [apply (total_le _ (fun n => (if String.eqb m n then S (String.length rest) else O) + weights (under_name n l))%nat)|].
      * intros n _. unfold under_name. cbn. rewrite E. destruct (String.eqb m n); cbn; lia.
      * rewrite total_plus. pose proof (total_once m (S (String.length rest)) ns Hnd). destruct (first_name _ _ _ E) as [_ ->]. rewrite !string_length_app. cbn. lia.
    + etrans; [|apply Nat.le_add_l]. etrans; [|exact IH]. apply total_le. intros n _. unfold under_name. cbn. by rewrite E.
Qed.

Lemma weights_lengths l : l <> [] -> (S (lengths l) <= weights l)%nat.
Proof.
  assert (forall l, (lengths l <= weights l)%nat) as Hle by (induction l0 as [|r l0 IH]; cbn in *; lia). intros H. destruct l as [|r l]; [done|]. cbn. pose proof (Hle l). lia.
Qed.

Section walk.
  Context (io : Io) (t : tree) (Hq : forall p, list_fault io p = None).

(** The paths of a directory of a store, by name. *)
Definition names_of (dir : string) : list string := (relative dir t).*1.

Lemma names_nested dir n : tidy dir t -> open_ended n -> split_slash n = (n, None) -> names_of (path_join dir n) = under_name n (names_of dir).
Proof.
  intros [Ht _] Hn Hs. unfold names_of. rewrite !relative_names. unfold under_name.
  assert (forall p r, p ∈ (map_to_list (files t)).*1 -> below dir p = Some r -> "" ∉ split r) as Htidy.
  { intros p r Hp Hb. apply list_elem_of_fmap in Hp as ([p' f] & -> & Hin). apply below_inv in Hb as [Hp Hr]. cbn [fst] in Hp. subst p'. apply (Ht r f), relative_elem. by apply elem_of_map_to_list in Hin. }
  induction (map_to_list (files t)).*1 as [|p l IH]; [done|]. cbn. rewrite IH by (intros; eapply Htidy; [by right | done]). clear IH.
  destruct (below (path_join dir n) p) as [r|] eqn:E.
  - apply below_nested in E as [E _]; [|done]. rewrite E. cbn. rewrite split_slash_app by done. by rewrite String.eqb_refl.
  - destruct (below dir p) as [r|] eqn:Eb; [|done]. cbn. destruct (split_slash r) as [m [rest|]] eqn:Es; [|done]. destruct (String.eqb_spec m n) as [->|]; [|done]. exfalso.
    destruct (first_name _ _ _ Es) as [_ ->]. assert (below (path_join dir n) p = Some rest) as Hb; [|by rewrite Hb in E]. apply below_nested; [done|]. split; [done|].
    intros ->. apply (Htidy p _ ltac:(by left) Eb). destruct (split_nested n "") as (x & l1 & ->). right. apply elem_of_app. right. by left.
Qed.

Lemma store_subdirs dir n : on_object_store io dir = true -> n ∈ subdirs io dir t -> under_name n (names_of dir) <> [].
Proof.
  unfold subdirs. intros -> Hn. rewrite app_nil_r in Hn. apply elem_of_remove_dups, list_elem_of_omap in Hn as (r & Hr & Hn). unfold dir_name in Hn.
  destruct (split_slash r) as [m [rest|]] eqn:E; [|done]. injection Hn as ->. intros Hnil. assert (rest ∈ under_name n (names_of dir)) as Hin; [|rewrite Hnil in Hin; by apply not_elem_of_nil in Hin].
  apply list_elem_of_omap. exists r. split; [done|]. by rewrite E, String.eqb_refl.
Qed.

(** The listings a directory needs, and those still to do. *)
Definition listings (d rel : string) : nat := S (lengths (names_of (path_join d rel))).

Lemma walk_dirs d rel : on_object_store io (path_join d rel) = true -> tidy (path_join d rel) t -> open_ended rel ->
  (total (fun n => listings d (rel +:+ "/" +:+ n)) (subdirs io (path_join d rel) t) < listings d rel)%nat.
Proof.
  intros Ho Ht Hr. unfold listings at 2. set (dir := path_join d rel) in *. apply Nat.lt_succ_r. etrans; [|apply (names_share (subdirs io dir t)); apply NoDup_remove_dups].
  apply total_le. intros n Hn. unfold listings. rewrite <- path_join_nested by done. fold dir.
  destruct (list_dir_entry io dir t _ (mkDirEntry n true 0 0) Hq Ht ltac:(unfold list_dir; by rewrite Hq)) as [[? _]|(_ & Hopen & _)]; [apply elem_of_app; right; by apply list_elem_of_fmap; exists n | done|].
  cbn [name] in Hopen. assert (split_slash n = (n, None)) as Hs.
  { unfold subdirs in Hn. rewrite Ho, app_nil_r in Hn. apply elem_of_remove_dups, list_elem_of_omap in Hn as (r & _ & Hn). unfold dir_name in Hn. destruct (split_slash r) as [m [rest|]] eqn:E; [|done].
    injection Hn as ->. by apply first_name in E as [E _]. }
  rewrite (names_nested dir n Ht Hopen Hs). by apply weights_lengths, store_subdirs.
Qed.

Lemma total_app f l1 l2 : total f (l1 ++ l2) = (total f l1 + total f l2)%nat.
Proof. induction l1 as [|x l1 IH]; cbn; [done|]. rewrite IH. lia. Qed.

Lemma in_rev_elem {A} (x : A) l : x ∈ rev l -> x ∈ l.
Proof. rewrite rev_alt. fold (reverse l). by rewrite elem_of_reverse. Qed.

Lemma total_rev_fmap f (g : string -> string) ns : total f (rev (g <$> ns)) = total (fun n => f (g n)) ns.
Proof. induction ns as [|n ns IH]; [done|]. cbn. rewrite total_app. fold (fmap (M := list) g ns). rewrite IH. cbn. lia. Qed.

Lemma list_dir_dirs dir entries : list_dir io dir t = Ok entries -> filter (fun e => is_dir e = true) entries = (fun n => mkDirEntry n true 0 0) <$> subdirs io dir t.
Proof.
  unfold list_dir. rewrite Hq. intros [= <-]. rewrite filter_app. assert (filter (fun e => is_dir e = true) (omap file_entry (relative dir t)) = []) as ->.
  { apply elem_of_nil_inv. intros e [Hd He]%list_elem_of_filter. apply list_elem_of_omap in He as (x & _ & Hx). apply file_entry_inv in Hx as [_ Hx]. by rewrite Hx in Hd. }
  rewrite app_nil_l. induction (subdirs io dir t) as [|n ns IH]; [done|]. rewrite fmap_cons, filter_cons_True by done. f_equal. exact IH.
Qed.

(** On a store whose names are not empty, the walk of a clean-up ends. *)
Lemma walk_store_ends d fuel pending objects : (forall p, on_object_store io (path_join d p) = true) ->
  Forall (fun rel => open_ended rel /\ tidy (path_join d rel) t) pending -> (total (listings d) pending <= fuel)%nat ->
  exists out, walk_store io fuel d pending objects t = Ok out.
Proof.
  intros Ho. revert pending objects. induction fuel as [|fuel IH]; intros pending objects Hp Hle; (destruct pending as [|rel pending]; [by exists objects|]).
  { cbn in Hle. unfold listings in Hle. lia. }
  apply Forall_cons in Hp as [[Hopen Ht] Hp]. cbn [walk_store total] in *. destruct (list_dir io (path_join d rel) t) as [entries|] eqn:El; [|unfold list_dir in El; by rewrite Hq in El].
  rewrite (list_dir_dirs _ _ El). pose proof (walk_dirs d rel (Ho rel) Ht Hopen) as Hdirs.
  assert ((fun e => rel +:+ "/" +:+ Files.name e) <$> ((fun n => mkDirEntry n true 0 0) <$> subdirs io (path_join d rel) t) = (fun n => rel +:+ "/" +:+ n) <$> subdirs io (path_join d rel) t) as ->
    by (rewrite <- list_fmap_compose; done).
  apply IH; [|rewrite total_app, total_rev_fmap; lia]. apply Forall_app. split; [|done]. apply Forall_forall. intros x Hx. apply in_rev_elem, list_elem_of_fmap in Hx as (n & -> & Hn).
  destruct (list_dir_entry io (path_join d rel) t entries (mkDirEntry n true 0 0) Hq Ht El) as [[? _]|(_ & Hn' & _)]; [| done|].
  - unfold list_dir in El. rewrite Hq in El. injection El as <-. apply elem_of_app. right. apply list_elem_of_fmap. by exists n.
  - cbn [name] in Hn'. split.
    + destruct Hn' as (c & Hc & Hne). exists c. split; [|done]. by rewrite !list_ascii_app, !last_app, Hc.
    + rewrite <- path_join_nested by done. by apply tidy_nested.
Qed.

Lemma listings_fuel d rel : (listings d rel <= walk_fuel t)%nat.
Proof.
  unfold listings, walk_fuel, names_of. rewrite relative_names. apply le_n_S. induction (map_to_list (files t)).*1 as [|p l IH]; [done|]. rewrite foldr_cons. etrans; [|apply Nat.add_le_mono_l, IH].
  clear IH. cbn [omap list_omap]. destruct (below (path_join d rel) p) as [r|] eqn:E; cbn [lengths]; [|lia]. apply below_inv in E as [-> _]. rewrite (path_join_prefix (path_join d rel) r), string_length_app. lia.
Qed.

Lemma walked_ends d dir : (forall p, on_object_store io p = true) -> open_ended dir -> tidy (path_join d dir) t -> exists out, walked io d dir t = Ok out.
Proof.
  intros Ho Hopen Ht. unfold walked. rewrite Ho. destruct (walk_store_ends d (walk_fuel t) [dir] []) as [out ->]; [done | by constructor; [|constructor] | | by eexists].
  cbn [total]. pose proof (listings_fuel d dir). lia.
Qed.

End walk.

(** ** Publishing and cleaning up *)

Section store_at.
  Context (io : Io).

Lemma directly_in_outside d dir p : inside d dir -> ~ inside d p -> directly_in dir p = false.
Proof. intros Hd Hp. unfold directly_in. destruct (below dir p) eqn:E; [|done]. exfalso. apply Hp. eapply inside_trans; [exact Hd | by eapply below_inside]. Qed.

Lemma stored_files_outside d dir t names p : inside d dir -> ~ inside d p -> stored_files io dir t names !! p = None.
Proof.
  intros Hd Hp. destruct (stored_files io dir t names !! p) eqn:E; [|done]. apply AutoCleanup.stored_files_inv in E as (n & -> & _). exfalso. by apply Hp, path_join_inside.
Qed.

Lemma inside_versions d : inside d (versions_dir d).
Proof. right. by exists "_versions". Qed.
Lemma inside_transactions d : inside d (transactions_dir d).
Proof. right. by exists "_transactions". Qed.

Lemma with_store_confined d s t : confined d t (with_store io d s t).
Proof.
  intros p Hp. unfold with_store. cbn [files]. rewrite lookup_union_r.
  - destruct (files t !! p) as [f|] eqn:E.
    + apply map_lookup_filter_Some. split; [done|]. split; apply (directly_in_outside d); [apply inside_versions | done | apply inside_transactions | done].
    + apply map_lookup_filter_None. by left.
  - apply lookup_union_None. split; apply (stored_files_outside d); [apply inside_versions | done | apply inside_transactions | done].
Qed.

Lemma remove_candidates_confined d cs t r t' : remove_candidates io d cs t = (r, t') -> confined d t t'.
Proof.
  revert t. induction cs as [|c cs IH]; intros t H; cbn [remove_candidates] in H; [injection H as _ <-; reflexivity|].
  destruct (remove_fault io _); [injection H as _ <-; reflexivity|]. etrans; [|by apply IH]. apply confined_remove. right. by eexists.
Qed.

Lemma cleanup_confined undefined decode_manifest decode_index_section limits d read_version policy execute maxc t :
  confined d t (cleanup_old_versions io undefined decode_manifest decode_index_section limits d read_version policy execute maxc t).2.
Proof.
  unfold cleanup_old_versions. destruct (plan _ _ _ _ _ _ _ _ _) as [p|]; [|reflexivity]. destruct execute; cbn [negb]; [|reflexivity].
  destruct (remove_candidates io d _ t) as [[] t1] eqn:E; apply remove_candidates_confined in E; [|done]. destruct (on_object_store io d); [done|]. cbn [snd].
  etrans; [exact E|]. apply confined_same. apply remove_if_empty_files.
Qed.

Lemma auto_cleanup_confined undefined decode_manifest decode_index_section limits d v config t :
  confined d t (run_auto_cleanup io undefined decode_manifest decode_index_section limits d v config t).
Proof. unfold run_auto_cleanup. destruct (auto_policy _ _ _ _ _); [apply cleanup_confined | reflexivity]. Qed.

End store_at.

(** ** Dropping a dataset *)

(** dropping a dataset changes no file outside its directory, and none at all without evidence that a dataset is
    there; with evidence, when nothing fails, no file of the directory is left. *)
Theorem drop_dataset_exact io decode_manifest decode_index_section limits d ignore_not_found t r t' :
  drop_dataset io decode_manifest decode_index_section limits d ignore_not_found t = (r, t') ->
  confined d t t' /\
  (qualifies io decode_manifest decode_index_section limits d t <> Ok true -> t' = t) /\
  (qualifies io decode_manifest decode_index_section limits d t = Ok true -> tidy d t -> (forall p, list_fault io p = None) -> (forall p, remove_fault io p = None) ->
   relative d t' = []).
Proof.
  unfold drop_dataset. set (there := if on_object_store io d then _ else _). intros H.
  destruct there as [[|]|] eqn:Ethere; [| |injection H as _ <-; split_and!; [reflexivity | done|]]; subst there.
  - destruct (qualifies io decode_manifest decode_index_section limits d t) as [[|]|] eqn:Eq; [|injection H as _ <-; split_and!; [reflexivity | done | done]..].
    destruct (remove_tree io d t) as [r1 t1] eqn:Er. assert (t' = t1) as -> by (destruct r1; by injection H as _ <-). clear H. split_and!; [|done|].
    + eapply remove_tree_confined; [by left | exact Er].
    + intros _ Ht Hq Hrm. destruct (remove_tree_all io d t Ht Hq Hrm) as (t2 & E2 & Hnil). rewrite E2 in Er. by injection Er as _ <-.
  - assert (t' = t) as -> by (destruct ignore_not_found; by injection H as _ <-). split_and!; [reflexivity | done|]. intros _ Ht Hq _. apply elem_of_nil_inv. intros [r1 f] Hin.
    destruct (on_object_store io d) eqn:Eo; unfold mbind, res_bind in Ethere.
    + destruct (objects_under_complete io (depth t) d t Hq Ht (depth_shallower d t) ltac:(unfold depth; lia)) as (l & Hl & Hall). rewrite Hl in Ethere. injection Ethere as Hnil.
      apply negb_false_iff, bool_decide_eq_true in Hnil as ->. by apply Hall, not_elem_of_nil in Hin.
    + injection Ethere as Hex. unfold path_exists in Hex. rewrite Eo in Hex. cbn [negb] in Hex. apply orb_false_iff in Hex as [_ Hun]. unfold under in Hun.
      apply negb_false_iff, bool_decide_eq_true in Hun. rewrite Hun in Hin. by apply not_elem_of_nil in Hin.
  - intros _ Ht Hq _. destruct (on_object_store io d) eqn:Eo; [|done]. unfold mbind, res_bind in Ethere.
    destruct (objects_under_complete io (depth t) d t Hq Ht (depth_shallower d t) ltac:(unfold depth; lia)) as (l & Hl & _). by rewrite Hl in Ethere.
Qed.

(** [tidy], decided. *)
Definition tidyb (dir : string) (t : tree) : bool :=
  forallb (fun e => bool_decide ("" ∉ split e.1)) (relative dir t) &&
  forallb (fun d => match below dir d with Some r => bool_decide ("" ∉ split r) | None => true end) (elements (dirs t)).

Lemma tidyb_tidy dir t : tidyb dir t = true -> tidy dir t.
Proof.
  intros [H1 H2]%andb_prop. rewrite forallb_forall in H1. rewrite forallb_forall in H2. split.
  - intros r f Hin. apply list_elem_of_In in Hin. by apply H1, bool_decide_eq_true in Hin.
  - intros d r Hd Hb. specialize (H2 d ltac:(by apply list_elem_of_In, elem_of_elements)). rewrite Hb in H2. by apply bool_decide_eq_true in H2.
Qed.

(** The dataset of [CleanupSafe] and a file next to it. *)
Lemma drop_dataset_exact_witness :
  let t := put "/other/data/a.lance" (mkFile [7] 0) sample_tree in
  exists t', drop_dataset sample_io sample_bodies (fun _ => Ok []) initial_read_limits "/ds" false t = (Ok tt, t') /\
    files t' !! "/other/data/a.lance" = Some (mkFile [7] 0) /\ relative "/ds" t' = [].
Proof.
  intros t. set (r := drop_dataset sample_io sample_bodies (fun _ => Ok []) initial_read_limits "/ds" false t). exists r.2. assert (r = (Ok tt, r.2)) as Hr by (vm_compute; reflexivity).
  destruct (drop_dataset_exact sample_io sample_bodies (fun _ => Ok []) initial_read_limits "/ds" false t (Ok tt) r.2 Hr) as (_ & _ & H). split_and!; [exact Hr | vm_compute; reflexivity|].
  apply H; [vm_compute; reflexivity | | reflexivity | reflexivity]. 
  apply tidyb_tidy. vm_compute. reflexivity.
Defined.

End DatasetTrees.
