(* ===== verification/Clone.v ===== *)
(** * Clone: branches and clones of a dataset (src/table/dataset_refs.cpp)

    The manifest a branch or a clone starts from: shallow, with the source's files under a new base path, or
    deep, with its files copied. Then the operations that publish it. *)

From S2P Require Import Prelude Json ReadSafety ProtoWire Pb BasePaths ManifestFile Transaction Publish DatasetFiles Refs Cleanup.

Module Clone.
Import Files Refs Cleanup.

(** ** The recorded operation *)

(** [put_varint_bytes], [put_key_bytes] and [put_string_bytes] are the writers of [ProtoWire]. *)
Definition clone_operation (source_branch : string) (version : Z) (source_dir branch_name : string) (shallow : bool) : list Z :=
  (if shallow then put_key 1 0 ++ put_varint 1 else []) ++
  (if String.eqb source_branch "" then [] else put_bytes_field 2 (bytes_of_string source_branch)) ++
  put_key 3 0 ++ put_varint version ++
  put_bytes_field 4 (bytes_of_string source_dir) ++
  (if String.eqb branch_name "" then [] else put_bytes_field 5 (bytes_of_string branch_name)).

(** ** The shallow manifest *)

Fixpoint map_res {A B} (f : A -> res B) (l : list A) : res (list B) :=
  match l with [] => Ok [] | x :: l => y ← f x; l ← map_res f l; Ok (y :: l) end.

(** The number of the new base path: after the source's. *)
Definition next_base (bases : list BasePaths.BasePath) : Z :=
  foldl (fun n base => Z.max n (u32 (BasePaths.id base + 1))) 0 bases.

(** Files without a base get the new one. *)
Definition rebased_file (new_base : Z) (file : pb.DataFile) : res pb.DataFile :=
  base ← BasePaths.data_file_base_id file;
  Ok (match base with Some _ => file | None => BasePaths.set_data_file_base_id file (Some new_base) end).

Definition rebased_deletion (new_base : Z) (file : pb.DeletionFile) : res pb.DeletionFile :=
  if pb.del_present file then
    base ← BasePaths.deletion_file_base_id file;
    Ok (match base with Some _ => file | None => BasePaths.set_deletion_file_base_id file (Some new_base) end)
  else Ok file.

Definition set_deletion (fragment : pb.DataFragment) (d : pb.DeletionFile) : pb.DataFragment :=
  pb.mkDataFragment (pb.fr_id fragment) (pb.fr_files fragment) (pb.fr_physical_rows fragment) d (pb.fr_unknown fragment).

Definition rebased_fragment (new_base : Z) (fragment : pb.DataFragment) : res pb.DataFragment :=
  files ← map_res (rebased_file new_base) (pb.fr_files fragment);
  deletion ← rebased_deletion new_base (pb.fr_deletion_file fragment);
  Ok (set_deletion (pb.set_files fragment files) deletion).

Definition rebased_index (new_base : Z) (index : pb.IndexMetadata) : res pb.IndexMetadata :=
  base ← BasePaths.index_base_id index;
  Ok (match base with Some _ => index | None => BasePaths.set_index_base_id index (Some new_base) end).

(** The source's directory as a base path. *)
Definition inherited (source_dir source_branch : string) (new_base : Z) : BasePaths.BasePath :=
  BasePaths.mkBasePath new_base source_branch (negb (String.eqb source_branch "")) true source_dir.

Definition shallow_form (source_dir source_branch : string) (manifest : pb.Manifest) : res pb.Manifest :=
  bases ← BasePaths.read_base_paths manifest;
  let new_base := next_base bases in
  fragments ← map_res (rebased_fragment new_base) (pb.mf_fragments manifest);
  indices ← map_res (rebased_index new_base) (pb.mf_indices manifest);
  let manifest := pb.set_indices indices (pb.set_fragments fragments manifest) in
  Ok (Transaction.put_flag true pb.kFlagMultipleBasePaths
        (BasePaths.write_base_paths manifest (bases ++ [inherited source_dir source_branch new_base]))).

(** ** The deep manifest *)

Definition own_file (file : pb.DataFile) : pb.DataFile := BasePaths.set_data_file_base_id file None.
Definition own_fragment (fragment : pb.DataFragment) : pb.DataFragment :=
  let fragment := pb.set_files fragment (own_file <$> pb.fr_files fragment) in
  if pb.del_present (pb.fr_deletion_file fragment)
  then set_deletion fragment (BasePaths.set_deletion_file_base_id (pb.fr_deletion_file fragment) None)
  else fragment.
Definition own_index (index : pb.IndexMetadata) : pb.IndexMetadata := BasePaths.set_index_base_id index None.

(** No base on any file, index or deletion, and no base path. *)
Definition deep_form (manifest : pb.Manifest) : pb.Manifest :=
  let manifest := pb.set_indices (own_index <$> pb.mf_indices manifest) (pb.set_fragments (own_fragment <$> pb.mf_fragments manifest) manifest) in
  Transaction.put_flag false pb.kFlagMultipleBasePaths (BasePaths.write_base_paths manifest []).

(** ** The first version of a clone *)

Definition kCloneField : Z := 113.

Definition finish_clone (nanos : Z) (writer_version : string) (manifest : pb.Manifest) (version : Z) (operation : list Z) : pb.Manifest :=
  pb.set_writer_version writer_version (pb.set_writer_library "nanolance"
    (pb.set_timestamp (Some (Z.quot nanos 1000000000, Z.rem nanos 1000000000))
      (pb.set_explicit_read_version version (pb.set_explicit_operation operation (pb.set_explicit_operation_field kCloneField
        (pb.set_tag "" (pb.set_transaction_file "" (pb.set_version version manifest)))))))).

(** The name of a fragment's deletion file. *)
Definition deletion_name (fragment : pb.DataFragment) : string := default "" (Json.literal "_deletions/" (deletion_file_name fragment)).

(** The directories a deep clone creates in its target. *)
Definition clone_dirs : list string := ["_versions"; "_transactions"; "data"; "_deletions"; "_indices"].

(** One step on the tree after the other, up to the first that fails. *)
Fixpoint each {A} (step : A -> tree -> res unit * tree) (l : list A) (t : tree) : res unit * tree :=
  match l with
  | [] => (Ok tt, t)
  | x :: l => match step x t with (Ok _, t) => each step l t | (Err e, t) => (Err e, t) end
  end.

Section clone.
  Context (io : Io) (undefined : Json.double -> Z).
  Context (encode_manifest : pb.Manifest -> list Z) (decode_manifest : list Z -> option pb.Manifest).
  Context (encode_index_section : list pb.IndexMetadata -> list Z) (decode_index_section : list Z -> res (list pb.IndexMetadata)).
  Context (encode_data_fragment : pb.DataFragment -> list Z) (encode_field : pb.Field -> list Z) (encode_index_message : pb.IndexMetadata -> list Z).
  Context (limits : ReadLimits) (writer_version : string).

Notation load := (load_manifest_file io decode_manifest decode_index_section limits).

(** ** Publishing in a tree *)

Definition published {A} (r : res A) : bool := match r with Ok _ => true | Err _ => false end.

(** [publish_manifest] at a directory of the tree, with the clean-up of a version that was added. *)
Definition publish_at (dir uuid : string) (manifest : pb.Manifest) (t : tree) : res unit * tree :=
  let store := on_object_store io dir in
  match Publish.check_publish dir store manifest with
  | Err e => (Err e, t)
  | Ok _ =>
      let s := store_at io dir t in
      let f := faults_at io dir in
      let '(r, s') := Publish.publish_manifest encode_manifest decode_manifest encode_index_section decode_index_section
                        encode_data_fragment encode_field encode_index_message limits (fun _ _ s => s) f dir store uuid manifest s in
      let t := with_store io dir s' t in
      let version := pb.mf_version manifest in
      (r, if published r && negb (ManifestFile.is_detached version) && bool_decide (Publish.versions s !! Publish.publish_name f s version = None)
          then run_auto_cleanup io undefined decode_manifest decode_index_section limits dir version (pb.mf_config manifest) t
          else t)
  end.

(** ** The source *)

Definition version_not_found (source_dir : string) (version : Z) : string :=
  "Version not found error: Manifest file " +:+ path_join source_dir "_versions" +:+ " for version " +:+ pretty version +:+ " does not exist".

(** The manifest of a version and the size of its file. *)
Definition load_source (source_dir : string) (version : Z) (t : tree) : res (pb.Manifest * Z) :=
  match (if version =? 0 then None else manifest_file_of io source_dir version t) with
  | None => Err (version_not_found source_dir version)
  | Some (path, size) => manifest ← load path t; Ok (manifest, size)
  end.

Definition shallow_manifest (source_dir source_branch : string) (version : Z) (t : tree) : res (pb.Manifest * Z) :=
  source ← load_source source_dir version t;
  manifest ← shallow_form source_dir source_branch source.1;
  Ok (manifest, source.2).

(** ** Copying *)

Definition copy_data (source_dir target : string) (bases : list BasePaths.BasePath) (file : pb.DataFile) (t : tree) : res unit * tree :=
  match BasePaths.data_file_dir source_dir bases file with
  | Err e => (Err e, t)
  | Ok dir =>
      let t := make_local_dir io (path_join target "data") t in
      match copy_one io (file_at io dir (pb.df_path file)) (file_at io (path_join target "data") (pb.df_path file)) t with
      | (Ok _, t) => (Ok tt, t)
      | (Err e, t) => (Err ("failed to copy data file " +:+ pb.df_path file +:+ ": " +:+ e), t)
      end
  end.

Definition copy_deletion (source_dir target : string) (bases : list BasePaths.BasePath) (fragment : pb.DataFragment) (t : tree) : res unit * tree :=
  if pb.del_present (pb.fr_deletion_file fragment) then
    match BasePaths.deletion_file_dir_in source_dir bases (pb.fr_deletion_file fragment) with
    | Err e => (Err e, t)
    | Ok dir =>
        let name := deletion_name fragment in
        let t := make_local_dir io (path_join target "_deletions") t in
        match copy_one io (path_join dir name) (path_join (path_join target "_deletions") name) t with
        | (Ok _, t) => (Ok tt, t)
        | (Err e, t) => (Err ("failed to copy deletion file " +:+ name +:+ ": " +:+ e), t)
        end
    end
  else (Ok tt, t).

Definition copy_fragment (source_dir target : string) (bases : list BasePaths.BasePath) (fragment : pb.DataFragment) (t : tree) : res unit * tree :=
  match each (copy_data source_dir target bases) (pb.fr_files fragment) t with
  | (Ok _, t) => copy_deletion source_dir target bases fragment t
  | (Err e, t) => (Err e, t)
  end.

Definition copy_index (source_dir target : string) (manifest : pb.Manifest) (index : pb.IndexMetadata) (t : tree) : res unit * tree :=
  match BasePaths.index_dir_of source_dir manifest index with
  | Err e => (Err e, t)
  | Ok dir =>
      let uuid := pb.uuid_string (pb.ix_uuid index) in
      let dst := path_join (path_join target "_indices") uuid in
      let t := make_local_dir io (path_join target "_indices") t in
      match copy_tree io dir dst t with
      | (Ok _, t) => (Ok tt, t)
      | (Err e, t) => (Err ("failed to copy index " +:+ uuid +:+ ": " +:+ e), t)
      end
  end.

(** The source's manifest with its base paths, and the copies. *)
Definition deep_manifest (source_dir : string) (version : Z) (target : string) (t : tree) : res pb.Manifest * tree :=
  match source ← load_source source_dir version t; bases ← BasePaths.read_base_paths source.1; Ok (source.1, bases) with
  | Err e => (Err e, t)
  | Ok (manifest, bases) =>
      match each (copy_fragment source_dir target bases) (pb.mf_fragments manifest) t with
      | (Err e, t) => (Err e, t)
      | (Ok _, t) =>
          match each (copy_index source_dir target manifest) (pb.mf_indices manifest) t with
          | (Err e, t) => (Err e, t)
          | (Ok _, t) => (Ok (deep_form manifest), t)
          end
      end
  end.

(** ** Undoing *)

Definition remember_clone_dirs (target : string) (t : tree) : list bool := (fun name => path_exists io (path_join target name) t) <$> clone_dirs.

Definition undo_dir (target : string) (t : tree) (d : string * bool) : tree := if d.2 then t else (remove_tree io (path_join target d.1) t).2.

Definition undo_clone (target : string) (target_existed : bool) (existed : list bool) (t : tree) : tree :=
  if negb target_existed then (remove_tree io target t).2
  else foldl (undo_dir target) t (zip clone_dirs existed).

Definition is_version_entry (e : DirEntry) : bool := negb (is_dir e) && bool_decide (is_Some (ManifestFile.parse_manifest_version (Files.name e))).

(** A listing that fails counts as a dataset on a store, as none locally. *)
Definition holds_dataset (target : string) (t : tree) : bool :=
  match list_dir io (path_join target "_versions") t with
  | Err _ => on_object_store io target
  | Ok entries => existsb is_version_entry entries
  end.

(** ** The operations *)

Definition clone_version (root source_branch : string) (version : Z) (target : string) (deep : bool) (uuid : string) (t : tree) : res unit * tree :=
  let source_dir := branch_location root source_branch in
  match (if version =? 0 then None else manifest_file_of io source_dir version t) with
  | None => (Err ("Dataset at path " +:+ path_join (path_join source_dir "_versions") (pretty version +:+ ".manifest") +:+ " was not found"), t)
  | Some _ =>
      if holds_dataset target t then (Err ("Dataset already exists: " +:+ target), t)
      else
        let target_existed := path_exists io target t in
        let existed := remember_clone_dirs target t in
        let built := if deep then deep_manifest source_dir version target t
                     else (source ← shallow_manifest source_dir source_branch version t; Ok source.1, t) in
        match built with
        | (Err e, t) => (Err e, undo_clone target target_existed existed t)
        | (Ok manifest, t) =>
            let manifest := BasePaths.write_manifest_branch manifest "" in
            let manifest := finish_clone (now_ns io) writer_version manifest version (clone_operation source_branch version source_dir "" (negb deep)) in
            match publish_at target uuid manifest t with
            | (Ok _, t) => (Ok tt, t)
            | (Err e, t) => (Err e, undo_clone target target_existed existed t)
            end
        end
  end.

Definition shallow_clone (root source_branch : string) (version : Z) (target uuid : string) (t : tree) : res unit * tree :=
  clone_version root source_branch version target false uuid t.
Definition deep_clone (root source_branch : string) (version : Z) (target uuid : string) (t : tree) : res unit * tree :=
  clone_version root source_branch version target true uuid t.

(** What refuses a new branch; else its parent's identifier. *)
Definition branch_parent (root name source_branch : string) (t : tree) : res (list (Z * string)) :=
  _ ← check_valid_branch name;
  branches ← list_branches io undefined root t;
  if bool_decide (is_Some (find_branch branches name)) || path_exists io (branch_ref_path root name) t
  then Err ("Ref conflict error: branch " +:+ name +:+ " already exists")
  else if String.eqb source_branch "" then Ok []
  else match find_branch branches source_branch with
       | None => Err ("Ref not found error: parent branch " +:+ source_branch +:+ " does not exist")
       | Some parent => Ok (identifier parent)
       end.

Definition new_branch (name source_branch : string) (parent : list (Z * string)) (version size : Z) (id : list Z) : BranchInfo :=
  mkBranchInfo name (on_branch source_branch) (parent ++ [(version, branch_id id)]) version (Z.quot (now_ns io) 1000000000) size ∅.

Definition create_branch (root name source_branch : string) (version : Z) (uuid : string) (id : list Z) (t : tree) : res unit * tree :=
  let source_dir := branch_location root source_branch in
  match parent ← branch_parent root name source_branch t; source ← shallow_manifest source_dir source_branch version t; Ok (parent, source) with
  | Err e => (Err e, t)
  | Ok (parent, (manifest, size)) =>
      let manifest := BasePaths.write_manifest_branch manifest name in
      let manifest := finish_clone (now_ns io) writer_version manifest version (clone_operation source_branch version source_dir name true) in
      match publish_at (branch_location root name) uuid manifest t with
      | (Err e, t) => (Err e, t)
      | (Ok _, t) =>
          written_ref ("branch " +:+ name)
            (write_ref_file io (branch_ref_path root name) (branch_json (new_branch name source_branch parent version size id)) false t)
      end
  end.

End clone.

End Clone.
