(* ===== verification/CloneSafe.v ===== *)
(** * CloneSafe: what branches and clones keep of their source

    A shallow clone or a branch reads the source's own files; a clean-up of the source keeps them; a clone
    changes nothing outside its target; a deep clone has the source's bytes. *)

From S2P Require Import Prelude Json ReadSafety ProtoWire Pb BasePaths ManifestFile Transaction Publish DatasetFiles Refs RefsText Cleanup CleanupSafe AutoCleanup DatasetTrees Clone.

Module CloneSafe.
Import Files Refs Cleanup CleanupSafe DatasetTrees Clone.

(** ** Lists with results *)

Lemma map_res_Forall2 {A B} (f : A -> res B) l l' : map_res f l = Ok l' -> Forall2 (fun x y => f x = Ok y) l l'.
Proof.
  revert l'. induction l as [|x l IH]; intros l' H; cbn [map_res] in H; unfold mbind, res_bind in H; [by injection H as <-|].
  destruct (f x) as [y|] eqn:E; [|done]. destruct (map_res f l) as [ys|]; [|done]. injection H as <-. constructor; [done | by apply IH].
Qed.

Lemma Forall2_elem_l {A B} (P : A -> B -> Prop) l l' x : Forall2 P l l' -> x ∈ l -> exists y, y ∈ l' /\ P x y.
Proof.
  intros H [i Hi]%list_elem_of_lookup. destruct (Forall2_lookup_l _ _ _ _ _ H Hi) as (y & Hy & Hp). exists y. split; [by eapply list_elem_of_lookup_2 | done].
Qed.

(** ** The base path of a shallow clone *)

Definition base_room (bases : list BasePaths.BasePath) : Prop := Forall (fun b => 0 <= BasePaths.id b < 2 ^ 32 - 1) bases.

Lemma next_base_above bases : base_room bases -> Forall (fun b => BasePaths.id b < next_base bases) bases /\ is_u32 (next_base bases).
Proof.
  intros Hroom. unfold next_base.
  assert (forall acc, 0 <= acc < 2 ^ 32 -> let n := foldl (fun n base => Z.max n (u32 (BasePaths.id base + 1))) acc bases in
    acc <= n < 2 ^ 32 /\ Forall (fun b => BasePaths.id b < n) bases) as H.
  { induction Hroom as [|b bases Hb _ IH]; intros acc Hacc; cbn [foldl]; [split; [lia | constructor]|].
    assert (u32 (BasePaths.id b + 1) = BasePaths.id b + 1) as Hu by (apply u32_small; unfold is_u32; lia). rewrite Hu in *.
    destruct (IH (Z.max acc (BasePaths.id b + 1)) ltac:(lia)) as [H1 H2]. split; [lia|]. constructor; [lia | exact H2]. }
  destruct (H 0 ltac:(lia)) as [H1 H2]. split; [exact H2 | unfold is_u32; lia].
Qed.

(** What resolved through the source's base paths resolves the same way with one more. *)
Lemma find_base_more bases extra b base : BasePaths.find_base bases b = Ok base -> BasePaths.find_base (bases ++ extra) b = Ok base.
Proof.
  unfold BasePaths.find_base. destruct (list_find _ bases) as [[i x]|] eqn:E; [|done]. intros [= ->]. by erewrite list_find_app_l.
Qed.

Lemma find_base_new bases n base :
  Forall (fun b => BasePaths.id b < n) bases -> BasePaths.id base = n -> BasePaths.find_base (bases ++ [base]) n = Ok base.
Proof.
  intros Hlt Hn. unfold BasePaths.find_base. rewrite list_find_app_r.
  - cbn [list_find]. rewrite decide_True by done. reflexivity.
  - apply list_find_None. eapply Forall_impl; [exact Hlt|]. intros b Hb. cbn in *. lia.
Qed.

Section places.
  Context (source_dir source_branch target : string) (bases : list BasePaths.BasePath).
  Context (Hroom : base_room bases).

Let new_base := next_base bases.
Let bases' := bases ++ [inherited source_dir source_branch new_base].

Lemma data_place file file' dir : rebased_file new_base file = Ok file' ->
  BasePaths.data_file_dir source_dir bases file = Ok dir -> BasePaths.data_file_dir target bases' file' = Ok dir /\ pb.df_path file' = pb.df_path file.
Proof.
  destruct (next_base_above bases Hroom) as [Habove Hu]. unfold rebased_file, BasePaths.data_file_dir, mbind, res_bind.
  destruct (BasePaths.data_file_base_id file) as [[b|]|] eqn:E; [| |done]; intros [= <-].
  - rewrite E. unfold BasePaths.prefixed. destruct (BasePaths.find_base bases b) as [base|] eqn:Eb; [|done]. intros [= <-]. split; [|done].
    unfold bases'. by rewrite (find_base_more _ _ _ _ Eb).
  - intros [= <-]. split; [|done]. unfold BasePaths.data_file_base_id, BasePaths.set_data_file_base_id. cbn [pb.df_unknown].
    rewrite (proj1 (BasePaths.find_varint_put (pb.df_unknown file) (Some new_base) Hu)).
    unfold bases', BasePaths.prefixed. by rewrite (find_base_new bases new_base).
Qed.

Lemma deletion_place file file' dir : pb.del_present file = true -> rebased_deletion new_base file = Ok file' ->
  BasePaths.deletion_file_dir_in source_dir bases file = Ok dir -> BasePaths.deletion_file_dir_in target bases' file' = Ok dir.
Proof.
  destruct (next_base_above bases Hroom) as [Habove Hu]. intros Hp. unfold rebased_deletion, BasePaths.deletion_file_dir_in, mbind, res_bind. rewrite Hp.
  destruct (BasePaths.deletion_file_base_id file) as [[b|]|] eqn:E; [| |done]; intros [= <-].
  - rewrite E. unfold BasePaths.deletion_dir, BasePaths.prefixed, mbind, res_bind. destruct (BasePaths.find_base bases b) as [base|] eqn:Eb; [|done].
    unfold bases'. by rewrite (find_base_more _ _ _ _ Eb).
  - intros [= <-]. unfold BasePaths.deletion_file_base_id, BasePaths.set_deletion_file_base_id. cbn [pb.del_unknown].
    rewrite (proj1 (BasePaths.find_varint_put (pb.del_unknown file) (Some new_base) Hu)).
    unfold bases', BasePaths.deletion_dir, BasePaths.prefixed, mbind, res_bind. by rewrite (find_base_new bases new_base).
Qed.

Lemma index_place manifest manifest' index index' dir : BasePaths.read_base_paths manifest = Ok bases -> BasePaths.read_base_paths manifest' = Ok bases' ->
  rebased_index new_base index = Ok index' -> BasePaths.index_dir_of source_dir manifest index = Ok dir ->
  BasePaths.index_dir_of target manifest' index' = Ok dir /\ pb.ix_uuid index' = pb.ix_uuid index.
Proof.
  destruct (next_base_above bases Hroom) as [Habove Hu]. intros Hb Hb'. unfold rebased_index, BasePaths.index_dir_of, mbind, res_bind.
  destruct (BasePaths.index_base_id index) as [[b|]|] eqn:E; [| |done]; intros [= <-].
  - rewrite E, Hb, Hb'. unfold BasePaths.indices_dir, BasePaths.prefixed, mbind, res_bind. destruct (BasePaths.find_base bases b) as [base|] eqn:Eb; [|done].
    unfold bases'. by rewrite (find_base_more _ _ _ _ Eb).
  - intros [= <-]. split; [|done]. destruct (BasePaths.base_id_roundtrip (pb.mkDataFile "" [] [] 0 0 0 []) pb.no_deletion_file index (Some new_base) Hu) as (_ & _ & -> & _).
    rewrite Hb'. unfold bases', BasePaths.indices_dir, BasePaths.prefixed, mbind, res_bind. by rewrite (find_base_new bases new_base).
Qed.

End places.

(** ** The manifest of a clone *)

Lemma fold_res_filtered {A} (body : A -> Field -> res A) (dropped : list Z) (l : list Field) a :
  (forall a f, number f ∈ dropped -> body a f = Ok a) -> fold_res body (filter (fun f => number f ∉ dropped) l) a = fold_res body l a.
Proof.
  intros Hd. revert a. induction l as [|f l IH]; intros a; [done|]. rewrite filter_cons. case_decide as Hin; cbn [fold_res].
  - unfold mbind, res_bind. destruct (body a f); [apply IH | done].
  - rewrite IH, Hd; [done|]. destruct (decide (number f ∈ dropped)); [done | by exfalso].
Qed.

(** The branch is another field than the base paths. *)
Lemma read_base_paths_branch m branch bases :
  BasePaths.short branch -> BasePaths.read_base_paths m = Ok bases -> BasePaths.read_base_paths (BasePaths.write_manifest_branch m branch) = Ok bases.
Proof.
  unfold BasePaths.short. intros Hs. unfold BasePaths.read_base_paths, BasePaths.write_manifest_branch, BasePaths.without_field. cbn [pb.mf_unknown pb.set_manifest_unknown].
  set (rest := match branch with "" => [] | _ => _ end).
  destruct (fields_rewritten [BasePaths.kManifestBranch] (pb.mf_unknown m) rest) as (fs & g & Hk & Hkeep & ->).
  assert (exists gs, fields_from g rest = (gs, true) /\ Forall (fun f => number f ∈ [BasePaths.kManifestBranch]) gs) as (gs & -> & Hgs).
  { unfold rest. destruct branch as [|c branch]; [by exists []|]. eexists. split.
    - apply fields_single; [unfold field_number, BasePaths.kManifestBranch; lia|]. lia.
    - constructor; [by left | constructor]. }
  assert (forall a f, number f ∈ [BasePaths.kManifestBranch] -> BasePaths.manifest_base_field a f = Ok a) as Hd
    by (intros a f Hn%list_elem_of_singleton; unfold BasePaths.manifest_base_field; by rewrite Hn).
  rewrite fold_res_app, (fold_res_keys _ _ _ _ BasePaths.manifest_base_field_key Hk). unfold kept. rewrite (fold_res_filtered _ _ _ _ Hd).
  destruct (fields (pb.mf_unknown m)) as [us ok]. cbn [fst]. destruct (fold_res BasePaths.manifest_base_field us []) as [bs|]; cbn [mbind res_bind]; [|done].
  destruct ok; [|done]. cbn [negb]. intros [= ->]. assert (fold_res BasePaths.manifest_base_field gs bases = Ok bases) as ->; [|done].
  clear -Hgs Hd. induction Hgs as [|f gs Hf _ IH]; [done|]. cbn [fold_res]. by rewrite Hd.
Qed.

(** A branch's or a shallow clone's first manifest. *)
Definition shallow_start (nanos : Z) (writer_version source_dir source_branch branch : string) (version : Z) (source : pb.Manifest) : res pb.Manifest :=
  form ← shallow_form source_dir source_branch source;
  Ok (finish_clone nanos writer_version (BasePaths.write_manifest_branch form branch) version (clone_operation source_branch version source_dir branch true)).

(** The files of [f] in the source are those of [f'] in the clone. *)
Definition reads_fragment (source_dir target : string) (bases bases' : list BasePaths.BasePath) (f f' : pb.DataFragment) : Prop :=
  pb.fr_id f' = pb.fr_id f /\ deletion_file_name f' = deletion_file_name f /\
  pb.del_present (pb.fr_deletion_file f') = pb.del_present (pb.fr_deletion_file f) /\
  Forall2 (fun file file' => pb.df_path file' = pb.df_path file /\
    forall dir, BasePaths.data_file_dir source_dir bases file = Ok dir -> BasePaths.data_file_dir target bases' file' = Ok dir) (pb.fr_files f) (pb.fr_files f') /\
  (pb.del_present (pb.fr_deletion_file f) = true ->
   forall dir, BasePaths.deletion_file_dir_in source_dir bases (pb.fr_deletion_file f) = Ok dir ->
     BasePaths.deletion_file_dir_in target bases' (pb.fr_deletion_file f') = Ok dir).

Definition reads_index (source_dir target : string) (m m' : pb.Manifest) (index index' : pb.IndexMetadata) : Prop :=
  pb.ix_uuid index' = pb.ix_uuid index /\
  forall dir, BasePaths.index_dir_of source_dir m index = Ok dir -> BasePaths.index_dir_of target m' index' = Ok dir.

Lemma rebased_deletion_same n d d' : rebased_deletion n d = Ok d' ->
  pb.del_present d' = pb.del_present d /\ pb.del_file_type d' = pb.del_file_type d /\ pb.del_read_version d' = pb.del_read_version d /\ pb.del_id d' = pb.del_id d.
Proof.
  unfold rebased_deletion, mbind, res_bind. destruct (pb.del_present d) eqn:E; [|by intros [= <-]].
  destruct (BasePaths.deletion_file_base_id d) as [[b|]|]; [| |done]; by intros [= <-].
Qed.

Lemma rebased_file_path n file file' : rebased_file n file = Ok file' -> pb.df_path file' = pb.df_path file.
Proof. unfold rebased_file, mbind, res_bind. destruct (BasePaths.data_file_base_id file) as [[b|]|]; [| |done]; by intros [= <-]. Qed.

Lemma rebased_index_uuid n index index' : rebased_index n index = Ok index' -> pb.ix_uuid index' = pb.ix_uuid index.
Proof. unfold rebased_index, mbind, res_bind. destruct (BasePaths.index_base_id index) as [[b|]|]; [| |done]; by intros [= <-]. Qed.

Lemma rebased_fragment_inv n f f' : rebased_fragment n f = Ok f' ->
  pb.fr_id f' = pb.fr_id f /\ Forall2 (fun x y => rebased_file n x = Ok y) (pb.fr_files f) (pb.fr_files f') /\
  rebased_deletion n (pb.fr_deletion_file f) = Ok (pb.fr_deletion_file f').
Proof.
  unfold rebased_fragment, mbind, res_bind. destruct (map_res _ _) as [files|] eqn:E; [|done]. destruct (rebased_deletion _ _) as [d|]; [|done]. intros [= <-].
  split_and!; [done | by apply map_res_Forall2 in E | done].
Qed.

Lemma rebased_fragment_reads source_dir source_branch target bases f f' : base_room bases -> rebased_fragment (next_base bases) f = Ok f' ->
  reads_fragment source_dir target bases (bases ++ [inherited source_dir source_branch (next_base bases)]) f f'.
Proof.
  intros Hroom (Hid & Hfiles & Hd)%rebased_fragment_inv. destruct (rebased_deletion_same _ _ _ Hd) as (H1 & H2 & H3 & H4). split_and!; [done | | done | |].
  - unfold deletion_file_name. by rewrite Hid, H2, H3, H4.
  - eapply Forall2_impl; [exact Hfiles|]. cbn. intros file file' Hr. split; [by eapply rebased_file_path|]. intros dir Hdir. by eapply data_place.
  - intros Hp dir Hdir. by eapply deletion_place.
Qed.

Lemma shallow_form_inv source_dir source_branch source form :
  shallow_form source_dir source_branch source = Ok form ->
  exists bases, BasePaths.read_base_paths source = Ok bases /\
    Forall2 (fun x y => rebased_fragment (next_base bases) x = Ok y) (pb.mf_fragments source) (pb.mf_fragments form) /\
    Forall2 (fun x y => rebased_index (next_base bases) x = Ok y) (pb.mf_indices source) (pb.mf_indices form) /\
    (Forall BasePaths.base_ok (bases ++ [inherited source_dir source_branch (next_base bases)]) ->
     BasePaths.read_base_paths form = Ok (bases ++ [inherited source_dir source_branch (next_base bases)])).
Proof.
  unfold shallow_form, mbind, res_bind. destruct (BasePaths.read_base_paths source) as [bases|] eqn:Eb; [|done].
  destruct (map_res (rebased_fragment _) _) as [fragments|] eqn:Ef; [|done]. destruct (map_res (rebased_index _) _) as [indices|] eqn:Ei; [|done]. intros [= <-].
  exists bases. split_and!; [done | by apply map_res_Forall2 in Ef | by apply map_res_Forall2 in Ei|]. intros Hok.
  set (m := pb.set_indices indices (pb.set_fragments fragments source)).
  assert ((fields (pb.mf_unknown m)).2 = true) as Hw.
  { change (pb.mf_unknown m) with (pb.mf_unknown source). unfold BasePaths.read_base_paths, mbind, res_bind in Eb. destruct (fields (pb.mf_unknown source)) as [fs ok].
    destruct (fold_res _ fs []); [|done]. by destruct ok. }
  destruct (BasePaths.base_paths_roundtrip m _ Hok Hw) as (H & _). exact H.
Qed.

Lemma inherited_ok source_dir source_branch bases : base_room bases -> BasePaths.short source_dir -> BasePaths.short source_branch ->
  BasePaths.base_ok (inherited source_dir source_branch (next_base bases)).
Proof.
  intros Hroom Hd Hb. destruct (next_base_above bases Hroom) as [_ Hu]. unfold BasePaths.base_ok, inherited. cbn. split_and!; [done | done | done|].
  destruct (String.eqb_spec source_branch ""); [done | done].
Qed.

Lemma shallow_start_inv nanos writer_version source_dir source_branch branch version source m' :
  shallow_start nanos writer_version source_dir source_branch branch version source = Ok m' ->
  exists form, shallow_form source_dir source_branch source = Ok form /\ pb.mf_fragments m' = pb.mf_fragments form /\ pb.mf_indices m' = pb.mf_indices form /\
    pb.mf_unknown m' = pb.mf_unknown (BasePaths.write_manifest_branch form branch).
Proof. unfold shallow_start, mbind, res_bind. destruct (shallow_form _ _ _) as [form|]; [|done]. intros [= <-]. by exists form. Qed.

(** C7: (equivalence): a branch or a shallow clone reads what its source reads. Every data file, deletion file and index of the
    source's version is one of the clone's, of the same name and in the same order, and the directory the source
    finds it in is the one the clone finds it in, wherever the clone is; the clone has the source's version. *)
Theorem shallow_reads_source nanos writer_version source_dir source_branch branch version target source bases m' :
  BasePaths.read_base_paths source = Ok bases -> Forall BasePaths.base_ok bases -> base_room bases ->
  BasePaths.short source_dir -> BasePaths.short source_branch -> BasePaths.short branch ->
  shallow_start nanos writer_version source_dir source_branch branch version source = Ok m' ->
  pb.mf_version m' = version /\
  exists bases', BasePaths.read_base_paths m' = Ok bases' /\
    Forall2 (reads_fragment source_dir target bases bases') (pb.mf_fragments source) (pb.mf_fragments m') /\
    Forall2 (reads_index source_dir target source m') (pb.mf_indices source) (pb.mf_indices m').
Proof.
  intros Hb Hok Hroom Hd Hsb Hbr Hst. split; [unfold shallow_start, mbind, res_bind in Hst; destruct (shallow_form _ _ _); [|done]; by injection Hst as <-|].
  destruct (shallow_start_inv _ _ _ _ _ _ _ _ Hst) as (form & Hform & Hf & Hi & Hu).
  destruct (shallow_form_inv _ _ _ _ Hform) as (bases0 & Hb0 & Hfs & His & Hbs). rewrite Hb in Hb0. injection Hb0 as <-.
  set (bases' := bases ++ [inherited source_dir source_branch (next_base bases)]) in *. exists bases'.
  assert (BasePaths.read_base_paths m' = Ok bases') as Hb'.
  { change (BasePaths.read_base_paths m') with (let '(fs, ok) := fields (pb.mf_unknown m') in
      out ← fold_res BasePaths.manifest_base_field fs []; if negb ok then Err "malformed manifest base paths" else Ok out).
    rewrite Hu. apply (read_base_paths_branch form branch bases' Hbr). apply Hbs, Forall_app. split; [done|]. constructor; [by apply inherited_ok | constructor]. }
  split_and!; [done | |].
  - rewrite Hf. eapply Forall2_impl; [exact Hfs|]. intros f f' Hr. by apply rebased_fragment_reads.
  - rewrite Hi. eapply Forall2_impl; [exact His|]. cbn. intros index index' Hr. split; [by eapply rebased_index_uuid|]. intros dir Hdir.
    eapply index_place; [exact Hroom | exact Hb | exact Hb' | exact Hr | exact Hdir].
Qed.

(** ** Branches are listed *)

Lemma list_branches_elem io undefined root t branches b f :
  list_branches io undefined root t = Ok branches -> files t !! branch_ref_path root (br_name b) = Some f -> content f = bytes_of_string (branch_json b) ->
  check_valid_branch (br_name b) = Ok tt -> starts_with (br_name b) "." = false -> RefsText.branch_fits b -> b ∈ branches.
Proof.
  unfold list_branches. intros H Hf Hc Hv Hh Hfit. unfold mbind at 1, res_bind at 1 in H. unfold list_dir in H. destruct (list_fault io (branches_dir root)); [done|].
  set (entries := omap file_entry _ ++ _) in H. match type of H with context [fold_res ?g entries []] => set (body := g) in H end. destruct (fold_res body entries []) as [out|] eqn:E; [|done]. cbn in H. injection H as <-.
  rewrite merge_sort_Permutation. set (n := branch_file_name (br_name b) +:+ ".json").
  assert (simple n) as [Hne Hn] by (by apply RefsText.encoded_simple, RefsText.valid_branch_nonempty).
  assert (mkDirEntry n false (zlen (content f)) (modified_ns f) ∈ entries) as Hin.
  { apply elem_of_app. left. apply list_elem_of_omap. exists (n, f). split; [by apply relative_elem|]. unfold file_entry. cbn [fst snd]. by rewrite Hn. }
  destruct (fold_res_elem _ _ _ _ _ E Hin) as (l1 & l2 & s1 & s2 & _ & _ & Hb & Hrest). unfold body, n in Hb.
  rewrite RefsText.ref_name_json in Hb by (rewrite RefsText.encoded_hidden, Hh; by destruct (br_name b)). cbn [Files.name] in Hb.
  change (path_join (branches_dir root) (branch_file_name (br_name b) +:+ ".json")) with (branch_ref_path root (br_name b)) in Hb.
  unfold read_text, open_source in Hb. destruct (unreadable io _ || vanished io _); [done|]. rewrite Hf in Hb. cbn [fmap option_fmap option_map] in Hb. rewrite Hc, string_of_bytes_of_string in Hb.
  rewrite RefsText.decode_encoded, RefsText.parse_branch_json in Hb by (done || by apply RefsText.valid_branch_chars). cbn in Hb. injection Hb as <-.
  eapply (fold_res_ind (fun s => b ∈ s)); [|apply elem_of_app; right; by left | exact Hrest]. intros s e s' _ Hs He. unfold body in He.
  destruct (ref_name e); [|by injection He as <-]. destruct (read_text io _ t); [|done]. unfold mbind, res_bind in He. destruct (parse_branch _ _ _); [|done]. injection He as <-.
  apply elem_of_app. by left.
Qed.

(** A branch of main forks from the version its identifier starts with. *)
Lemma forked_branches_elem io undefined root t forks branches b v id rest :
  forked_branches io undefined (mkBranchScope root "") t = Ok forks -> list_branches io undefined root t = Ok branches -> b ∈ branches ->
  identifier b = (v, id) :: rest -> v <> 0 -> br_name b <> "" -> mkForkedBranch (br_name b) (path_join (path_join root "tree") (br_name b)) v ∈ forks.
Proof.
  unfold forked_branches. cbn [scope_root scope_branch]. intros H Hb Hin Hid Hv Hn. rewrite Hb in H. cbn in H. injection H as <-. apply list_elem_of_omap. exists b.
  split; [done|]. rewrite bool_decide_false by done. rewrite Hid. cbn. destruct (Z.eqb_spec v 0); [done | done].
Qed.

(** ** The files of the source itself *)

(** One data file, deletion file or index of a manifest that names no base path. *)
Inductive own_refs (m : pb.Manifest) : ReferencedFiles -> Prop :=
  | own_data f file : f ∈ pb.mf_fragments m -> file ∈ pb.fr_files f -> BasePaths.data_file_base_id file = Ok None -> own_refs m (add_data (data_path file) nothing)
  | own_delete f : f ∈ pb.mf_fragments m -> pb.del_present (pb.fr_deletion_file f) = true -> BasePaths.deletion_file_base_id (pb.fr_deletion_file f) = Ok None ->
      own_refs m (add_delete (deletion_file_name f) nothing)
  | own_index_refs index : index ∈ pb.mf_indices m -> BasePaths.index_base_id index = Ok None -> own_refs m (add_index (pb.uuid_string (pb.ix_uuid index)) nothing).

Lemma grows_fold_elem {A} (f : ReferencedFiles -> A -> ReferencedFiles) l r a x :
  (forall x, grows (fun r => f r x)) -> x ∈ l -> (forall r, contained a (f r x)) -> contained a (foldl f r l).
Proof.
  intros Hg Hin Hx. apply list_elem_of_split in Hin as (l1 & l2 & ->). rewrite foldl_app. cbn [foldl]. etrans; [apply Hx|]. apply (grows_foldl f l2 Hg).
Qed.

Lemma contained_add_data p r : contained (add_data p nothing) (add_data p r).
Proof. split; cbn; set_solver. Qed.
Lemma contained_add_delete p r : contained (add_delete p nothing) (add_delete p r).
Proof. split; cbn; set_solver. Qed.
Lemma contained_add_index p r : contained (add_index p nothing) (add_index p r).
Proof. split; cbn; set_solver. Qed.

Lemma reference_fragments m : contained (foldl reference_fragment nothing (pb.mf_fragments m)) (reference m nothing).
Proof.
  unfold reference. etrans; [|apply (proj1 (grows_foldl (fun r index => add_index (pb.uuid_string (pb.ix_uuid index)) r) (pb.mf_indices m) (fun x => grows_add_index _)))].
  destruct (String.eqb (pb.mf_transaction_file m) ""); [reflexivity | apply grows_add_tx].
Qed.

Lemma own_refs_referenced m r : own_refs m r -> contained r (reference m nothing).
Proof.
  intros [f file Hf Hfile _|f Hf Hp _|index Hi _].
  - etrans; [|apply reference_fragments]. apply (grows_fold_elem reference_fragment _ _ _ f grows_fragment Hf). intros r0. unfold reference_fragment.
    etrans; [apply (grows_fold_elem (fun r file => add_data (data_path file) r) (pb.fr_files f) r0 _ file); [auto with nano | exact Hfile | intros; apply contained_add_data]|].
    destruct (pb.del_present _); [apply grows_add_delete | reflexivity].
  - etrans; [|apply reference_fragments]. apply (grows_fold_elem reference_fragment _ _ _ f grows_fragment Hf). intros r0. unfold reference_fragment. rewrite Hp. apply contained_add_delete.
  - unfold reference. apply (grows_fold_elem (fun r index => add_index (pb.uuid_string (pb.ix_uuid index)) r) _ _ _ index); [auto with nano | exact Hi | intros; apply contained_add_index].
Qed.

(** The base path of a clone names the source's directory. *)
Lemma inherited_here io bases root source_branch : base_room bases ->
  names_dataset_dir io (bases ++ [inherited root source_branch (next_base bases)]) (Some (next_base bases)) (canonical_text io root) = true.
Proof.
  intros Hroom. destruct (next_base_above bases Hroom) as [Habove _]. unfold names_dataset_dir.
  pose proof (find_base_new bases (next_base bases) (inherited root source_branch (next_base bases)) Habove eq_refl) as H. unfold BasePaths.find_base in H.
  destruct (list_find _ _) as [[k base]|]; [|done]. injection H as ->. cbn [inherited BasePaths.is_dataset_root BasePaths.path andb].
  destruct (is_absolute root); [|done]. cbn [negb]. apply String.eqb_refl.
Qed.

(** Files of the source are files of the clone there. *)
Lemma own_refs_named io root source_branch source form m bases r :
  shallow_form root source_branch source = Ok form -> BasePaths.read_base_paths source = Ok bases -> base_room bases ->
  pb.mf_fragments m = pb.mf_fragments form -> pb.mf_indices m = pb.mf_indices form -> own_refs source r ->
  named_here io (bases ++ [inherited root source_branch (next_base bases)]) (canonical_text io root) m r.
Proof.
  intros Hform Hb Hroom Hmf Hmi Hown. destruct (shallow_form_inv _ _ _ _ Hform) as (bases0 & Hb0 & Hfs & His & _). rewrite Hb in Hb0. injection Hb0 as <-.
  destruct (next_base_above bases Hroom) as [_ Hu]. pose proof (inherited_here io bases root source_branch Hroom) as Hhere. destruct Hown as [f file Hf Hfile Hbase|f Hf Hp Hbase|index Hi Hbase].
  - destruct (Forall2_elem_l _ _ _ _ Hfs Hf) as (f' & Hf' & Hr). apply rebased_fragment_inv in Hr as (_ & Hfiles & _).
    destruct (Forall2_elem_l _ _ _ _ Hfiles Hfile) as (file' & Hfile' & Hr). pose proof (rebased_file_path _ _ _ Hr) as Hpath.
    unfold data_path. rewrite <- Hpath. apply (data_here io _ _ _ f' file' (Some (next_base bases))); [by rewrite Hmf | done | | done].
    unfold rebased_file in Hr. rewrite Hbase in Hr. injection Hr as <-. by apply BasePaths.find_varint_put.
  - destruct (Forall2_elem_l _ _ _ _ Hfs Hf) as (f' & Hf' & Hr). pose proof (rebased_fragment_reads root source_branch "" bases f f' Hroom Hr) as (_ & Hname & Hpres & _).
    apply rebased_fragment_inv in Hr as (_ & _ & Hd). rewrite <- Hname. apply (delete_here io _ _ _ f' (Some (next_base bases))); [by rewrite Hmf | by rewrite Hpres | | done].
    unfold rebased_deletion in Hd. rewrite Hp, Hbase in Hd. injection Hd as <-. by apply BasePaths.find_varint_put.
  - destruct (Forall2_elem_l _ _ _ _ His Hi) as (index' & Hi' & Hr). pose proof (rebased_index_uuid _ _ _ Hr) as Huuid. rewrite <- Huuid.
    apply (index_here io _ _ _ index' (Some (next_base bases))); [by rewrite Hmi | | done].
    unfold rebased_index in Hr. rewrite Hbase in Hr. injection Hr as <-.
    by destruct (BasePaths.base_id_roundtrip (pb.mkDataFile "" [] [] 0 0 0 []) pb.no_deletion_file index (Some (next_base bases)) Hu) as (_ & _ & -> & _).
Qed.

(** ** Publishing in a tree *)

Section branches.
  Context (io : Io) (undefined : Json.double -> Z).
  Context (encode_manifest : pb.Manifest -> list Z) (decode_manifest : list Z -> option pb.Manifest).
  Context (encode_index_section : list pb.IndexMetadata -> list Z) (decode_index_section : list Z -> res (list pb.IndexMetadata)).
  Context (encode_data_fragment : pb.DataFragment -> list Z) (encode_field : pb.Field -> list Z) (encode_index_message : pb.IndexMetadata -> list Z).
  Context (limits : ReadLimits) (writer_version : string).

Notation ready := (Publish.publish_ready encode_manifest decode_manifest encode_index_section decode_index_section encode_data_fragment encode_field encode_index_message limits).
Notation writes := (Publish.writes decode_manifest decode_index_section encode_data_fragment encode_field encode_index_message limits).
Notation publish_at := (publish_at io undefined encode_manifest decode_manifest encode_index_section decode_index_section encode_data_fragment encode_field encode_index_message limits).

(** A manifest published in a directory of the tree is a file of its [_versions]. *)
Lemma publish_at_file dir uuid m t t' indices :
  publish_at dir uuid m t = (Ok tt, t') -> ready (faults_at io dir) dir (on_object_store io dir) uuid m (store_at io dir t) indices ->
  exists n txn written, ManifestFile.parse_manifest_version n = Some (pb.mf_version m) /\
    writes (faults_at io dir) dir (on_object_store io dir) uuid m (store_at io dir t) txn written /\
    content <$> files t' !! path_join (path_join dir "_versions") n = Some (ManifestFile.manifest_file_bytes encode_manifest encode_index_section written).
Proof.
  unfold Clone.publish_at. set (f := faults_at io dir). set (s := store_at io dir t). set (os := on_object_store io dir). intros H [[v2 Hs] Hv Hl Ho Hw].
  destruct (Publish.check_publish dir os m) as [m1|] eqn:Ec; [|done]. destruct (Publish.publish_manifest _ _ _ _ _ _ _ _ _ _ _ _ _ _ _) as [r s'] eqn:Ep.
  injection H as -> Ht'. destruct (Publish.publish_name_scheme f s v2 (pb.mf_version m) Hs Hl) as (v2' & Hs' & Hname).
  apply (Publish.publish_cases _ _ _ _ _ _ _ _ (fun _ _ s => s)) in Ep as [(e & He & _)|(txn & written & file & Hwr & -> & H)]; [done|].
  destruct (Hw txn written Hwr) as (_ & _ & _ & Hfresh). pose proof (Publish.filename_parse (pb.mf_version m) v2' Hv) as Hparse.
  destruct (Publish.versions s !! Publish.publish_name f s (pb.mf_version m)) as [old|] eqn:Ef; cbv zeta in H.
  { exfalso. destruct H as (_ & _ & _ & s2 & E2 & Et). apply (Hfresh (Publish.publish_name f s (pb.mf_version m))).
    rewrite <- Et. symmetry. by apply Publish.published_transaction_versions. }
  destruct H as (s2 & E2 & [[_ ->]|[(_ & _ & ? & _ & [=])|(_ & Hlost & _)]]); [|done]. exists (Publish.publish_name f s (pb.mf_version m)), txn, written. rewrite Hname in *. split_and!; [done | done|].
  assert (Publish.versions (if ManifestFile.is_detached (pb.mf_version m) then s2 else s2) = Publish.versions s2) as Hif by (by destruct (ManifestFile.is_detached _)).
  assert (content <$> files (with_store io dir (if ManifestFile.is_detached (pb.mf_version m) then s2 else s2) t) !! path_join (versions_dir dir) (ManifestFile.manifest_filename (pb.mf_version m) v2')
    = Some (ManifestFile.manifest_file_bytes encode_manifest encode_index_section written)) as Hst.
  { rewrite AutoCleanup.with_store_versions by (by eapply AutoCleanup.manifest_simple). by rewrite Hif, E2, lookup_insert_eq. }
  rewrite <- Ht', <- Hst. f_equal. destruct (published _ && _ && _); [|done].
  apply (AutoCleanup.run_auto_cleanup_keeps io undefined decode_manifest decode_index_section limits dir (pb.mf_version m)) with (w := pb.mf_version m); [exact Hparse | lia].
Qed.

(** What is written has the files and base paths of what was to be published. *)
Lemma check_publish_same dir os m m' : Publish.check_publish dir os m = Ok m' ->
  pb.mf_fragments m' = pb.mf_fragments m /\ pb.mf_unknown m' = pb.mf_unknown m /\ pb.mf_indices m' = pb.mf_indices m.
Proof.
  unfold Publish.check_publish, mbind, res_bind. destruct (if os then None else _); [done|]. destruct (ManifestFile.check_manifest_writable m ManifestFile.Commit); [|done].
  destruct (negb _); [done|]. unfold ManifestFile.check_data_file_versions. destruct (_ =? 0); [by intros [= ->]|]. destruct (ManifestFile.seen_v1 _ && _); [done|].
  destruct (ManifestFile.seen_other _); intros [= <-]; done.
Qed.

Lemma stored_same dir f os uuid m s txn written indices : writes f dir os uuid m s txn written ->
  pb.mf_fragments (ManifestFile.stored written indices) = pb.mf_fragments m /\ pb.mf_unknown (ManifestFile.stored written indices) = pb.mf_unknown m /\
  pb.mf_indices (ManifestFile.stored written indices) = indices.
Proof. intros (m' & s1 & Hc & _ & ->). destruct (check_publish_same _ _ _ _ Hc) as (H1 & H2 & H3). done. Qed.

(** What a new branch of main starts from: its manifest, [m], of the source's version [fm], and the reference. *)
Record branch_start (root name : string) (version : Z) (uuid : string) (id : list Z) (t : tree) (fm m : pb.Manifest) (size : Z) (bases : list BasePaths.BasePath) : Prop := {
  bs_source : load_source io decode_manifest decode_index_section limits root version t = Ok (fm, size);
  bs_manifest : shallow_start (now_ns io) writer_version root "" name version fm = Ok m;
  bs_ready : ready (faults_at io (branch_location root name)) (branch_location root name) (on_object_store io (branch_location root name)) uuid m
               (store_at io (branch_location root name) t) (pb.mf_indices m);
  bs_bases : BasePaths.read_base_paths fm = Ok bases;
  bs_bases_ok : Forall BasePaths.base_ok bases;
  bs_room : base_room bases;
  bs_short : BasePaths.short root /\ BasePaths.short name;
  bs_listed : starts_with name "." = false;
  bs_fits : RefsText.branch_fits (new_branch io name "" [] version size id)
}.

(** The tree a new branch leaves: its reference and its first manifest. *)
Lemma create_branch_leaves root name version uuid id t t' fm m size bases :
  create_branch io undefined encode_manifest decode_manifest encode_index_section decode_index_section encode_data_fragment encode_field encode_index_message limits
    writer_version root name "" version uuid id t = (Ok tt, t') ->
  branch_start root name version uuid id t fm m size bases ->
  version <> 0 /\ check_valid_branch name = Ok tt /\
  files t' !! branch_ref_path root name = Some (mkFile (bytes_of_string (branch_json (new_branch io name "" [] version size id))) (now_ns io)) /\
  exists n stored, ManifestFile.parse_manifest_version n = Some version /\
    holds decode_manifest decode_index_section limits t' (path_join (path_join (branch_location root name) "_versions") n) stored /\
    pb.mf_fragments stored = pb.mf_fragments m /\ pb.mf_unknown stored = pb.mf_unknown m /\ pb.mf_indices stored = pb.mf_indices m.
Proof.
  intros H [Hsrc Hm Hready _ _ _ _ _ _]. unfold create_branch in H. change (branch_location root "") with root in H.
  destruct (branch_parent io undefined root name "" t) as [parent|] eqn:Epar; [|done]. cbn [mbind res_bind] in H.
  assert (check_valid_branch name = Ok tt /\ parent = []) as [Hvalid ->].
  { unfold branch_parent, mbind, res_bind in Epar. destruct (check_valid_branch name) as [[]|]; [|done]. destruct (list_branches io undefined root t); [|done].
    destruct (_ || _); [done|]. by injection Epar as <-. }
  unfold shallow_manifest in H. rewrite Hsrc in H. cbn [mbind res_bind fst snd] in H. unfold shallow_start, mbind, res_bind in Hm.
  destruct (shallow_form root "" fm) as [form|]; [|done]. cbn [mbind res_bind] in H. injection Hm as Hm. rewrite Hm in H.
  assert (version <> 0) as Hv0 by (intros ->; unfold load_source in Hsrc; done).
  destruct (Clone.publish_at _ _ _ _ _ _ _ _ _ _ _ _ _ _) as [[[]|] t1] eqn:Ep; [|done]. apply RefsText.written_ref_inv in H. apply RefsText.write_new_ref in H as (Hnone & Hsame & Hnew).
  split_and!; [done | done | done|]. destruct (publish_at_file _ _ _ _ _ _ Ep Hready) as (n & txn & written & Hn & Hwr & Hc).
  assert (pb.mf_version m = version) as Hver by (by rewrite <- Hm). rewrite Hver in Hn. destruct (Publish.ready_written _ _ _ _ _ _ _ _ _ _ _ _ _ _ _ Hready txn written Hwr) as (Hcodec & Hrd & Hcnt & _).
  apply fmap_Some in Hc as (f & Hf & Hc). set (path := path_join (path_join (branch_location root name) "_versions") n) in *.
  assert (files t' !! path = Some f) as Hf' by (rewrite Hsame; [done | intros E; rewrite E in Hf; by rewrite Hf in Hnone]).
  exists n, (ManifestFile.stored written (pb.mf_indices m)). fold path. split_and!; [done | | by eapply stored_same ..].
  exists f. split; [done|]. rewrite <- Hc. by apply ManifestFile.load_manifest_file_bytes.
Qed.

(** The version a clean-up of [root] reads at is main's. *)
Definition main_at (io' : Io) (root : string) (read_version : Z) (t : tree) : Prop :=
  forall v m branch, resolve_read_version io' root read_version t = Ok v -> Publish.load_manifest_version decode_manifest decode_index_section limits (faults_at io' root) (store_at io' root t) v = Ok m ->
    BasePaths.read_manifest_branch m = Ok branch -> branch = "".

Lemma shallow_start_bases name version root fm m bases :
  shallow_start (now_ns io) writer_version root "" name version fm = Ok m -> BasePaths.read_base_paths fm = Ok bases -> Forall BasePaths.base_ok bases -> base_room bases ->
  BasePaths.short root -> BasePaths.short name -> forall stored, pb.mf_unknown stored = pb.mf_unknown m ->
  BasePaths.read_base_paths stored = Ok (bases ++ [inherited root "" (next_base bases)]).
Proof.
  intros (form & Hform & _ & _ & Hu)%shallow_start_inv Hb Hok Hroom Hr Hn stored Hst.
  destruct (shallow_form_inv _ _ _ _ Hform) as (bases0 & Hb0 & _ & _ & Hbs). rewrite Hb in Hb0. injection Hb0 as <-.
  unfold BasePaths.read_base_paths. rewrite Hst, Hu. apply (read_base_paths_branch form name); [done|]. apply Hbs, Forall_app. split; [done|].
  constructor; [|constructor]. apply inherited_ok; [done | done|]. by vm_compute.
Qed.

(** C6: (safety): once a branch of main has been created, under a name that does not start with a dot, no clean-up of
    main that finds the version the branch forked from takes away a file of the dataset's own that the branch starts with:
    a data file with its blobs, a deletion file or an index of that version; whatever the policy selects, whatever
    cannot be listed, read or removed, and wherever the removal stops. [branch_start] says what the branch was
    created from: a version that was read, a manifest nanom's codec reads back, base paths and numbers that fit their
    fields. *)
Theorem create_branch_protects io' root name version uuid id t t' fm m size bases read_version policy execute maxc r t'' refs q :
  create_branch io undefined encode_manifest decode_manifest encode_index_section decode_index_section encode_data_fragment encode_field encode_index_message limits
    writer_version root name "" version uuid id t = (Ok tt, t') ->
  branch_start root name version uuid id t fm m size bases ->
  main_at io' root read_version t' ->
  (exists path size', manifest_file_of io' root version t' = Some (path, size') /\ holds decode_manifest decode_index_section limits t' path fm) ->
  cleanup_old_versions io' undefined decode_manifest decode_index_section limits root read_version policy execute maxc t' = (r, t'') ->
  own_refs fm refs -> used refs q -> files t'' !! path_join root q = files t' !! path_join root q.
Proof.
  intros Hc Hs Hmain Hfm Hclean Hown Hused. destruct (create_branch_leaves _ _ _ _ _ _ _ _ _ _ _ Hc Hs) as (Hv0 & Hvalid & Href & n & st & Hn & Hload & Hfr & Hun & Hix).
  destruct Hs as [Hsrc Hm _ Hb Hok Hroom [Hsr Hsn] Hh Hfit]. set (b := new_branch io name "" [] version size id) in *.
  assert (name <> "") as Hne by (by apply RefsText.valid_branch_nonempty).
  destruct (shallow_start_inv _ _ _ _ _ _ _ _ Hm) as (form & Hform & Hff & Hfi & _).
  assert (branch_location root name = path_join (path_join root "tree") name) as Hloc by (unfold branch_location; by destruct (String.eqb_spec name "")). rewrite Hloc in *.
  apply cleanup_gone in Hclean as [Hsame|(p & scope & forks & tagged & forked & protection & entries & k & Hp & Hg)]; [by rewrite Hsame|].
  rewrite (Hg q), bool_decide_false; [done|].
  eapply (planned_keeps_forked _ _ _ _ _ _ _ _ _ _ _ _ _ _ _ _ _ (mkForkedBranch name (path_join (path_join root "tree") name) version));
    [exact Hp | | | exact Hused | exact (used_mono _ _ _ (own_refs_referenced _ _ Hown) Hused)].
  - split.
    + intros rv current branch scope' forks' Hrv Hcur Hbr Hscope Hforks. pose proof (Hmain _ _ _ Hrv Hcur Hbr) as ->. injection Hscope as <-.
      assert (exists branches, list_branches io' undefined root t' = Ok branches) as [branches Hlist].
      { unfold forked_branches in Hforks. cbn [scope_root] in Hforks. destruct (list_branches io' undefined root t') as [bs|]; [by exists bs | done]. }
      assert (b ∈ branches) as Hin by (eapply list_branches_elem; [exact Hlist | exact Href | done..]).
      exact (forked_branches_elem _ _ _ _ _ _ _ version (branch_id id) [] Hforks Hlist Hin eq_refl Hv0 Hne).
    + exact Hfm.
    + exists n. split_and!; [eapply AutoCleanup.manifest_simple; exact Hn | unfold manifest_name; by rewrite Hn | exact Hload].
    + by eapply shallow_start_bases.
  - eapply own_refs_named; [exact Hform | exact Hb | exact Hroom | by rewrite Hfr | by rewrite Hix | exact Hown].
Qed.

End branches.

(** ** Clones stay in their target *)

Lemma each_confined {A} d (step : A -> tree -> res unit * tree) l t r t' :
  (forall x t r t', x ∈ l -> step x t = (r, t') -> confined d t t') -> each step l t = (r, t') -> confined d t t'.
Proof.
  revert t. induction l as [|x l IH]; intros t Hs H; cbn [each] in H; [injection H as _ <-; reflexivity|].
  destruct (step x t) as [[]t1] eqn:E; (apply Hs in E; [|by left]); [|by injection H as _ <-].
  etrans; [exact E|]. apply IH; [|done]. intros y t2 r2 t3 Hy. apply Hs. by right.
Qed.

(** What [safe_join_under] (include/nanolance/path_safety.hpp) asks of a path that a manifest holds, and the clone does not. *)
Definition safe_relative (path : string) : Prop := path <> "" /\ is_absolute path = false /\ Forall (fun n => n <> "..") (split path).
Definition safe_paths (m : pb.Manifest) : Prop :=
  Forall (fun f => Forall (fun file => safe_relative (pb.df_path file)) (pb.fr_files f)) (pb.mf_fragments m).

Lemma path_join_extends a b : a <> "" -> exists s, path_join a b = a +:+ s.
Proof.
  intros Ha. unfold path_join. destruct (last (String.list_ascii_of_string a)) as [c|] eqn:E; [case_bool_decide; by eexists|].
  apply last_None in E. by destruct a.
Qed.

Lemma enter_extends names dir : dir <> "" -> Forall (fun n => n <> "..") names -> exists s, foldl enter dir names = dir +:+ s.
Proof.
  intros Hd Hn. revert dir Hd. induction Hn as [|n names Hn _ IH]; intros dir Hd; cbn [foldl]; [exists ""; by rewrite append_nil|].
  assert (exists s, enter dir n = dir +:+ s) as [s Hs].
  { unfold enter. destruct (String.eqb n "" || String.eqb n "."); [exists ""; by rewrite append_nil|]. destruct (String.eqb_spec n ".."); [done|]. by apply path_join_extends. }
  destruct (IH (enter dir n)) as [s' Hs']; [rewrite Hs; by destruct dir|]. exists (s +:+ s'). by rewrite Hs', Hs, append_assoc.
Qed.

(** A safe path names a file of the directory. *)
Lemma safe_file_at io target a path : a <> "" -> safe_relative path -> exists s, file_at io (path_join target a) path = path_join target (a +:+ s).
Proof.
  intros Ha (_ & Habs & Hn). assert (path_join target a <> "") as Hne by (rewrite path_join_prefix; destruct (path_join target ""); [done | done]).
  assert (forall s, path_join target a +:+ s = path_join target (a +:+ s)) as Hs by (intros s; rewrite (path_join_prefix target a), (path_join_prefix target (a +:+ s)); by rewrite append_assoc).
  unfold file_at. rewrite Habs. destruct (on_object_store io _).
  - destruct (path_join_extends (path_join target a) path Hne) as [s ->]. by exists s.
  - destruct (enter_extends (split path) (path_join target a) Hne Hn) as [s ->]. by exists s.
Qed.

Section clones.
  Context (io : Io) (undefined : Json.double -> Z).
  Context (encode_manifest : pb.Manifest -> list Z) (decode_manifest : list Z -> option pb.Manifest).
  Context (encode_index_section : list pb.IndexMetadata -> list Z) (decode_index_section : list Z -> res (list pb.IndexMetadata)).
  Context (encode_data_fragment : pb.DataFragment -> list Z) (encode_field : pb.Field -> list Z) (encode_index_message : pb.IndexMetadata -> list Z).
  Context (limits : ReadLimits) (writer_version : string).

Notation clone := (clone_version io undefined encode_manifest decode_manifest encode_index_section decode_index_section encode_data_fragment encode_field encode_index_message limits writer_version).
Notation deep := (deep_manifest io decode_manifest decode_index_section limits).

Lemma make_local_dir_files dir t : files (make_local_dir io dir t) = files t.
Proof. unfold make_local_dir. by destruct (on_object_store io dir). Qed.

Lemma inside_target target a b : inside target (path_join (path_join target a) b).
Proof. apply path_join_inside. right. by exists a. Qed.

Lemma copy_data_confined source_dir target bases file t r t' :
  safe_relative (pb.df_path file) -> copy_data io source_dir target bases file t = (r, t') -> confined target t t'.
Proof.
  intros Hsafe. destruct (safe_file_at io target "data" (pb.df_path file) ltac:(done) Hsafe) as [s Hat].
  unfold copy_data. rewrite Hat. destruct (BasePaths.data_file_dir _ _ _) as [dir|]; [|intros [= _ <-]; reflexivity]. destruct (copy_one io _ _ _) as [r1 t1] eqn:E.
  apply (copy_one_confined io target) in E; [|right; by eexists]. intros H. assert (t' = t1) as -> by (destruct r1; by injection H as _ <-). etrans; [|exact E]. apply confined_same, make_local_dir_files.
Qed.

Lemma copy_deletion_confined source_dir target bases f t r t' : copy_deletion io source_dir target bases f t = (r, t') -> confined target t t'.
Proof.
  unfold copy_deletion. destruct (pb.del_present _); [|intros [= _ <-]; reflexivity]. destruct (BasePaths.deletion_file_dir_in _ _ _) as [dir|]; [|intros [= _ <-]; reflexivity].
  destruct (copy_one io _ _ _) as [r1 t1] eqn:E. apply (copy_one_confined io target) in E; [|apply inside_target]. intros H. assert (t' = t1) as -> by (destruct r1; by injection H as _ <-).
  etrans; [|exact E]. apply confined_same, make_local_dir_files.
Qed.

Lemma copy_fragment_confined source_dir target bases f t r t' :
  Forall (fun file => safe_relative (pb.df_path file)) (pb.fr_files f) -> copy_fragment io source_dir target bases f t = (r, t') -> confined target t t'.
Proof.
  rewrite Forall_forall. intros Hsafe. unfold copy_fragment.
  destruct (each _ _ t) as [[]t1] eqn:E; apply (each_confined target) in E; try (intros file * Hin; by apply copy_data_confined, Hsafe).
  - intros H%copy_deletion_confined. by etrans.
  - by intros [= _ <-].
Qed.

Lemma copy_index_confined source_dir target m index t r t' : copy_index io source_dir target m index t = (r, t') -> confined (path_join target "_indices") t t'.
Proof.
  unfold copy_index. destruct (BasePaths.index_dir_of _ _ _) as [dir|]; [|intros [= _ <-]; reflexivity]. destruct (copy_tree io _ _ _) as [r1 t1] eqn:E.
  apply (copy_tree_confined io (path_join target "_indices")) in E; [|right; by eexists]. intros H. assert (t' = t1) as -> by (destruct r1; by injection H as _ <-).
  etrans; [|exact E]. apply confined_same, make_local_dir_files.
Qed.

(** The paths of the manifest a clone copies are safe. *)
Definition safe_source (source_dir : string) (version : Z) (t : tree) : Prop :=
  forall fm size, load_source io decode_manifest decode_index_section limits source_dir version t = Ok (fm, size) -> safe_paths fm.

Lemma deep_manifest_confined source_dir version target t r t' :
  safe_source source_dir version t -> deep source_dir version target t = (r, t') -> confined target t t'.
Proof.
  intros Hsafe. unfold deep_manifest, mbind, res_bind. destruct (load_source _ _ _ _ _ _ _) as [[fm size]|] eqn:Es; [|intros [= _ <-]; reflexivity]. cbn [fst].
  apply Hsafe in Es. unfold safe_paths in Es. rewrite Forall_forall in Es.
  destruct (BasePaths.read_base_paths fm) as [bases|]; [|intros [= _ <-]; reflexivity].
  destruct (each _ (pb.mf_fragments fm) t) as [[]t1] eqn:E; apply (each_confined target) in E; try (intros f * Hin; by apply copy_fragment_confined, Es); [|by intros [= _ <-]].
  destruct (each _ (pb.mf_indices fm) t1) as [[]t2] eqn:E2; apply (each_confined (path_join target "_indices")) in E2; try (intros * _; apply copy_index_confined); intros [= _ <-];
    (etrans; [exact E|]); (eapply confined_mono; [|exact E2]); right; by eexists.
Qed.

Lemma publish_at_confined dir uuid m t r t' :
  publish_at io undefined encode_manifest decode_manifest encode_index_section decode_index_section encode_data_fragment encode_field encode_index_message limits dir uuid m t = (r, t') -> confined dir t t'.
Proof.
  unfold publish_at. destruct (Publish.check_publish _ _ _); [|intros [= _ <-]; reflexivity]. destruct (Publish.publish_manifest _ _ _ _ _ _ _ _ _ _ _ _ _ _ _) as [r1 s1]. intros [= _ <-].
  etrans; [apply (with_store_confined io dir s1)|]. destruct (_ && _ && _); [apply auto_cleanup_confined | reflexivity].
Qed.

Lemma undo_clone_confined target existed dirs t : confined target t (undo_clone io target existed dirs t).
Proof.
  unfold undo_clone. destruct existed; cbn [negb].
  - revert t. induction (zip clone_dirs dirs) as [|[n e] l IH]; intros t; cbn [foldl]; [reflexivity|]. etrans; [|apply IH]. unfold undo_dir. cbn [fst snd]. destruct e; [reflexivity|].
    destruct (remove_tree io (path_join target n) t) as [r1 t1] eqn:E. cbn [snd]. eapply remove_tree_confined; [|exact E]. right. by exists n.
  - destruct (remove_tree io target t) as [r1 t1] eqn:E. cbn [snd]. eapply remove_tree_confined; [by left | exact E].
Qed.

Lemma clone_version_confined root source_branch version target deep_ uuid t r t' :
  (deep_ = true -> safe_source (branch_location root source_branch) version t) ->
  clone root source_branch version target deep_ uuid t = (r, t') -> confined target t t'.
Proof.
  intros Hsafe. unfold clone_version. destruct (if version =? 0 then None else _); [|intros [= _ <-]; reflexivity]. destruct (holds_dataset io target t); [intros [= _ <-]; reflexivity|].
  set (built := if deep_ then _ else _). destruct built as [[m|e] t1] eqn:Eb.
  - assert (confined target t t1) as Hb by (unfold built in Eb; destruct deep_; [by eapply deep_manifest_confined; [apply Hsafe|] | injection Eb as _ <-; reflexivity]).
    destruct (publish_at _ _ _ _ _ _ _ _ _ _ _ _ _ _) as [[]t2] eqn:Ep; apply publish_at_confined in Ep; intros [= _ <-]; (etrans; [exact Hb|]); [done|]. etrans; [exact Ep | apply undo_clone_confined].
  - assert (confined target t t1) as Hb by (unfold built in Eb; destruct deep_; [by eapply deep_manifest_confined; [apply Hsafe|] | injection Eb as _ <-; reflexivity]).
    intros [= _ <-]. etrans; [exact Hb | apply undo_clone_confined].
Qed.

Lemma undo_new target dirs t : on_object_store io target = false -> (forall p, remove_fault io p = None) -> relative target (undo_clone io target false dirs t) = [].
Proof. intros Ho Hrm. unfold undo_clone, remove_tree. cbn [negb]. rewrite Ho. cbn [negb]. by destruct (remove_all_all io target t Hrm) as (t' & -> & Hnil). Qed.

(** C26: (safety): a shallow clone, and a deep clone of a version whose data files have relative paths without [..],
    changes no file outside its target, whether it succeeds or fails. One that fails leaves no file in a local target that
    did not exist before it, if removing does not fail. (Nothing checks the paths: see [deep_clone_escapes].) *)
Theorem clone_contained root source_branch version target deep_ uuid t r t' :
  (deep_ = true -> safe_source (branch_location root source_branch) version t) ->
  clone_version io undefined encode_manifest decode_manifest encode_index_section decode_index_section encode_data_fragment encode_field encode_index_message
    limits writer_version root source_branch version target deep_ uuid t = (r, t') ->
  confined target t t' /\
  (r <> Ok tt -> on_object_store io target = false -> path_exists io target t = false -> (forall p, remove_fault io p = None) -> relative target t' = []).
Proof.
  intros Hsafe H. split; [by eapply clone_version_confined|]. intros Hr Ho Hex Hrm.
  assert (relative target t = []) as Hnone.
  { unfold path_exists in Hex. rewrite Ho in Hex. cbn [negb] in Hex. apply orb_false_iff in Hex as [_ Hu]. unfold under in Hu. by apply negb_false_iff, bool_decide_eq_true in Hu. }
  unfold clone_version in H. rewrite Hex in H. destruct (if version =? 0 then None else _); [|by injection H as _ <-]. destruct (holds_dataset io target t); [by injection H as _ <-|].
  destruct (if deep_ then _ else _) as [[m|e] t1]; [|injection H as _ <-; by apply undo_new]. destruct (publish_at _ _ _ _ _ _ _ _ _ _ _ _ _ _) as [[]t2]; [|injection H as _ <-; by apply undo_new].
  by injection H as <- _.
Qed.

(** ** The copies of a deep clone *)

Definition at_data (target : string) (file : pb.DataFile) : string := file_at io (path_join target "data") (pb.df_path file).
Definition at_deletion (target : string) (f : pb.DataFragment) : string := path_join (path_join target "_deletions") (deletion_name f).

(** What a fragment's copies are: from where and to where. *)
Definition data_copy (source_dir target : string) (bases : list BasePaths.BasePath) (file : pb.DataFile) : res (string * string) :=
  dir ← BasePaths.data_file_dir source_dir bases file; Ok (file_at io dir (pb.df_path file), at_data target file).

Definition deletion_copy (source_dir target : string) (bases : list BasePaths.BasePath) (f : pb.DataFragment) : res (list (string * string)) :=
  if pb.del_present (pb.fr_deletion_file f) then
    dir ← BasePaths.deletion_file_dir_in source_dir bases (pb.fr_deletion_file f); Ok [(path_join dir (deletion_name f), at_deletion target f)]
  else Ok [].

Definition fragment_copies (source_dir target : string) (bases : list BasePaths.BasePath) (f : pb.DataFragment) : res (list (string * string)) :=
  data ← map_res (data_copy source_dir target bases) (pb.fr_files f);
  deletion ← deletion_copy source_dir target bases f;
  Ok (data ++ deletion).

Definition copies (source_dir target : string) (bases : list BasePaths.BasePath) (m : pb.Manifest) : res (list (string * string)) :=
  match map_res (fragment_copies source_dir target bases) (pb.mf_fragments m) with Ok l => Ok (concat l) | Err e => Err e end.

(** After the copies of [done_]: they are made, and nothing else changed since [t0]. *)
Record copied (t0 : tree) (done_ : list (string * string)) (t : tree) : Prop := {
  co_only : forall p, p ∉ done_.*2 -> files t !! p = files t0 !! p;
  co_made : forall src dst, (src, dst) ∈ done_ -> content <$> files t !! dst = content <$> files t0 !! src /\ is_Some (files t0 !! src)
}.

Lemma copied_files t0 done_ t t' : files t' = files t -> copied t0 done_ t -> copied t0 done_ t'.
Proof. intros E [H1 H2]. split; [intros p Hp; rewrite E; by apply H1 | intros src dst Hin; rewrite E; by apply H2]. Qed.

Lemma copy_stream_ok src dst t t' : copy_stream io src dst t = (Ok tt, t') -> exists f, files t !! src = Some f /\ files t' = <[dst := mkFile (content f) (now_ns io)]> (files t).
Proof.
  unfold copy_stream, open_source. destruct (unreadable io src || vanished io src); [done|]. destruct (files t !! src) as [f|]; [|done]. cbn [fmap option_fmap option_map].
  unfold write. destruct (write_fault io dst); [done|]. intros [= <-]. by exists f.
Qed.

Lemma copy_one_ok src dst t t' : copy_one io src dst t = (Ok tt, t') -> exists f, files t !! src = Some f /\ files t' = <[dst := mkFile (content f) (now_ns io)]> (files t).
Proof. unfold copy_one. destruct (negb _ && negb _); [destruct (exists_file io dst t); [done|]|]; apply copy_stream_ok. Qed.

Lemma copied_step t0 done_ t t1 t' src dst : copied t0 done_ t -> src ∉ done_.*2 -> dst ∉ done_.*2 -> files t1 = files t -> copy_one io src dst t1 = (Ok tt, t') -> copied t0 (done_ ++ [(src, dst)]) t'.
Proof.
  intros [Hall Hmade] Hsrc Hdst Hf (f & Hs & E)%copy_one_ok. rewrite Hf in Hs, E. rewrite Hall in Hs by done. split.
  - intros p Hp. rewrite fmap_app, not_elem_of_app in Hp. destruct Hp as [Hp1 Hp2]. rewrite E, lookup_insert_ne; [by apply Hall|]. intros ->. apply Hp2. by left.
  - intros src' dst' Hin. apply elem_of_app in Hin as [Hin|Hin].
    + rewrite E, lookup_insert_ne; [by apply Hmade|]. intros ->. apply Hdst. by apply (list_elem_of_fmap_2' snd _ (src', dst')).
    + apply list_elem_of_singleton in Hin. injection Hin as -> ->. rewrite E, lookup_insert_eq, Hs. split; [done | by eexists].
Qed.

(** The copies still to make do not clash with those made, nor read what was copied. *)
Definition apart (l : list (string * string)) : Prop := NoDup l.*2 /\ forall src, src ∈ l.*1 -> src ∉ l.*2.

Lemma apart_next done_ src dst rest : apart (done_ ++ (src, dst) :: rest) -> src ∉ done_.*2 /\ dst ∉ done_.*2.
Proof.
  intros [Hnd Hsrc]. rewrite fmap_app in Hnd. apply NoDup_app in Hnd as (_ & Hnot & _). split.
  - intros Hin. apply (Hsrc src); [rewrite fmap_app; apply elem_of_app; right; by left | rewrite fmap_app; apply elem_of_app; by left].
  - intros Hin. apply (Hnot dst Hin). by left.
Qed.

Lemma copy_data_list source_dir target bases l t0 done_ rest t t' pairs :
  map_res (data_copy source_dir target bases) l = Ok pairs -> apart (done_ ++ pairs ++ rest) -> copied t0 done_ t ->
  each (copy_data io source_dir target bases) l t = (Ok tt, t') -> copied t0 (done_ ++ pairs) t'.
Proof.
  revert done_ t pairs. induction l as [|file l IH]; intros done_ t pairs Hp Ha Hc H; cbn [map_res each] in *; unfold mbind, res_bind in Hp; [injection Hp as <-; injection H as <-; by rewrite app_nil_r|].
  unfold data_copy at 1 in Hp. unfold copy_data at 1 in H. unfold mbind, res_bind in Hp. destruct (BasePaths.data_file_dir source_dir bases file) as [dir|]; [|done].
  destruct (map_res (data_copy source_dir target bases) l) as [ps|]; [|done]. injection Hp as <-. destruct (copy_one io _ _ _) as [[[]|] t1] eqn:E; [|done].
  destruct (apart_next _ _ _ _ Ha) as [Hs Hd]. eapply copied_step in E; [|exact Hc | exact Hs | exact Hd | apply make_local_dir_files].
  rewrite (cons_middle _ done_ ps), app_assoc. apply (IH _ t1 ps); [done | by rewrite <- !app_assoc | exact E | exact H].
Qed.

Lemma copy_fragment_list source_dir target bases f t0 done_ rest t t' pairs :
  fragment_copies source_dir target bases f = Ok pairs -> apart (done_ ++ pairs ++ rest) -> copied t0 done_ t ->
  copy_fragment io source_dir target bases f t = (Ok tt, t') -> copied t0 (done_ ++ pairs) t'.
Proof.
  unfold fragment_copies, copy_fragment, mbind, res_bind. intros Hp Ha Hc H. destruct (map_res _ (pb.fr_files f)) as [data|] eqn:Ed; [|done].
  destruct (deletion_copy source_dir target bases f) as [del|] eqn:El; [|done]. injection Hp as <-. destruct (each _ (pb.fr_files f) t) as [[[]|] t1] eqn:E; [|done].
  rewrite <- (app_assoc data del rest) in Ha. eapply copy_data_list in E; [|exact Ed | exact Ha | exact Hc]. rewrite (app_assoc done_ data) in Ha |- *. unfold deletion_copy, copy_deletion in *.
  destruct (pb.del_present _); [|injection El as <-; injection H as <-; by rewrite app_nil_r]. unfold mbind, res_bind in El. destruct (BasePaths.deletion_file_dir_in _ _ _) as [dir|]; [|done].
  injection El as <-. destruct (copy_one io _ _ _) as [[[]|] t2] eqn:E2; [|done]. injection H as <-. destruct (apart_next _ _ _ _ Ha) as [Hs Hd].
  eapply copied_step; [exact E | exact Hs | exact Hd | apply make_local_dir_files | exact E2].
Qed.

Lemma copy_fragments_list source_dir target bases l t0 done_ t t' pairs :
  map_res (fragment_copies source_dir target bases) l = Ok pairs -> apart (done_ ++ concat pairs) -> copied t0 done_ t ->
  each (copy_fragment io source_dir target bases) l t = (Ok tt, t') -> copied t0 (done_ ++ concat pairs) t'.
Proof.
  revert done_ t pairs. induction l as [|f l IH]; intros done_ t pairs Hp Ha Hc H; cbn [map_res each] in *; unfold mbind, res_bind in Hp; [injection Hp as <-; injection H as <-; by rewrite app_nil_r|].
  destruct (fragment_copies source_dir target bases f) as [ps|] eqn:E; [|done]. destruct (map_res _ l) as [pss|]; [|done]. injection Hp as <-. destruct (copy_fragment io _ _ _ _ _) as [[[]|] t1] eqn:Ef; [|done].
  cbn [concat] in *. eapply copy_fragment_list in Ef; [|exact E | exact Ha | exact Hc]. rewrite (app_assoc done_ ps) in Ha |- *. by apply (IH _ t1).
Qed.

Lemma not_in_indices target a x : open_ended a -> (forall y, a +:+ "/" +:+ x <> "_indices" +:+ y) -> ~ inside (path_join target "_indices") (path_join (path_join target a) x).
Proof.
  intros Ha Hne. rewrite path_join_nested by done. intros [H|[q H]].
  - apply path_join_inj in H. apply (Hne ""). by rewrite append_nil.
  - rewrite path_join_nested in H by (by eexists). apply path_join_inj in H. apply (Hne ("/" +:+ q)). by rewrite H.
Qed.

Lemma copies_elem source_dir target bases m pairs f : copies source_dir target bases m = Ok pairs -> f ∈ pb.mf_fragments m ->
  exists data deletion, map_res (data_copy source_dir target bases) (pb.fr_files f) = Ok data /\ deletion_copy source_dir target bases f = Ok deletion /\
    (forall p, p ∈ data \/ p ∈ deletion -> p ∈ pairs).
Proof.
  unfold copies. destruct (map_res _ _) as [l|] eqn:E; [|done]. intros [= <-] Hf. apply map_res_Forall2 in E. destruct (Forall2_elem_l _ _ _ _ E Hf) as (ps & Hps & Hp).
  unfold fragment_copies, mbind, res_bind in Hp. destruct (map_res _ (pb.fr_files f)) as [data|]; [|done]. destruct (deletion_copy source_dir target bases f) as [deletion|]; [|done].
  injection Hp as <-. exists data, deletion. split_and!; [done | done|]. intros p Hp. apply list_elem_of_In, in_concat. exists (data ++ deletion). split; [by apply list_elem_of_In|].
  apply list_elem_of_In, elem_of_app. done.
Qed.

(** A file of the clone, in its own directory, has the bytes the source's has in its. *)
Definition copied_fragment (source_dir target : string) (bases : list BasePaths.BasePath) (t t' : tree) (f f' : pb.DataFragment) : Prop :=
  pb.fr_id f' = pb.fr_id f /\
  Forall2 (fun file file' => pb.df_path file' = pb.df_path file /\
    exists dir dir', BasePaths.data_file_dir source_dir bases file = Ok dir /\ BasePaths.data_file_dir target [] file' = Ok dir' /\
      is_Some (files t !! file_at io dir (pb.df_path file)) /\
      content <$> files t' !! file_at io dir' (pb.df_path file') = content <$> files t !! file_at io dir (pb.df_path file)) (pb.fr_files f) (pb.fr_files f') /\
  (pb.del_present (pb.fr_deletion_file f) = true ->
   exists dir dir', BasePaths.deletion_file_dir_in source_dir bases (pb.fr_deletion_file f) = Ok dir /\ BasePaths.deletion_file_dir_in target [] (pb.fr_deletion_file f') = Ok dir' /\
     is_Some (files t !! path_join dir (deletion_name f)) /\ content <$> files t' !! path_join dir' (deletion_name f') = content <$> files t !! path_join dir (deletion_name f)).

Lemma own_file_dir target file : BasePaths.data_file_dir target [] (own_file file) = Ok (path_join target "data").
Proof. unfold BasePaths.data_file_dir, BasePaths.data_file_base_id, own_file, BasePaths.set_data_file_base_id. cbn [pb.df_unknown]. by rewrite (proj1 (BasePaths.find_varint_put (pb.df_unknown file) None I)). Qed.

Lemma own_deletion_dir target d : BasePaths.deletion_file_dir_in target [] (BasePaths.set_deletion_file_base_id d None) = Ok (path_join target "_deletions").
Proof.
  unfold BasePaths.deletion_file_dir_in, BasePaths.deletion_file_base_id, BasePaths.set_deletion_file_base_id. cbn [pb.del_unknown].
  by rewrite (proj1 (BasePaths.find_varint_put (pb.del_unknown d) None I)).
Qed.

Lemma own_fragment_files f : pb.fr_id (own_fragment f) = pb.fr_id f /\ pb.fr_files (own_fragment f) = own_file <$> pb.fr_files f /\ deletion_name (own_fragment f) = deletion_name f /\
  (pb.del_present (pb.fr_deletion_file f) = true -> pb.fr_deletion_file (own_fragment f) = BasePaths.set_deletion_file_base_id (pb.fr_deletion_file f) None).
Proof.
  unfold own_fragment. cbn [pb.set_files pb.fr_deletion_file pb.fr_files]. destruct (pb.del_present (pb.fr_deletion_file f)) eqn:E; split_and!; try done.
Qed.

Lemma copied_own source_dir target bases m pairs f t t' : copies source_dir target bases m = Ok pairs -> f ∈ pb.mf_fragments m ->
  (forall src dst, (src, dst) ∈ pairs -> content <$> files t' !! dst = content <$> files t !! src /\ is_Some (files t !! src)) ->
  copied_fragment source_dir target bases t t' f (own_fragment f).
Proof.
  intros Hp Hf Hmade. destruct (copies_elem _ _ _ _ _ _ Hp Hf) as (data & deletion & Hd & Hdel & Hin). destruct (own_fragment_files f) as (Hid & Hfiles & Hname & Hown).
  split_and!; [done | |].
  - rewrite Hfiles. apply Forall2_fmap_r, Forall2_same_length_lookup_2; [done|]. intros i file file' H1 H2. rewrite H1 in H2. injection H2 as <-. split; [done|].
    apply map_res_Forall2 in Hd. destruct (Forall2_lookup_l _ _ _ _ _ Hd H1) as ([src dst] & Hpair & Hc). unfold data_copy, mbind, res_bind in Hc.
    destruct (BasePaths.data_file_dir source_dir bases file) as [dir|]; [|done]. injection Hc as <- <-. exists dir, (path_join target "data"). rewrite own_file_dir.
    destruct (Hmade _ _ (Hin _ (or_introl (list_elem_of_lookup_2 _ _ _ Hpair)))) as [Hc Hs]. split_and!; [done | done | done | exact Hc].
  - intros Hpres. unfold deletion_copy in Hdel. rewrite Hpres in Hdel. unfold mbind, res_bind in Hdel. destruct (BasePaths.deletion_file_dir_in source_dir bases _) as [dir|]; [|done].
    injection Hdel as <-. exists dir, (path_join target "_deletions"). rewrite (Hown Hpres), own_deletion_dir, Hname.
    destruct (Hmade (path_join dir (deletion_name f)) (at_deletion target f)) as [Hc Hs]; [apply Hin; right; by left|]. split_and!; [done | done | done | exact Hc].
Qed.

(** The copies of data and deletion files are not among those of the indices. *)
Lemma copied_place source_dir target bases m pairs src dst : safe_paths m -> copies source_dir target bases m = Ok pairs -> (src, dst) ∈ pairs -> ~ inside (path_join target "_indices") dst.
Proof.
  intros Hsafe. unfold copies. destruct (map_res _ _) as [l|] eqn:E; [|done]. intros [= <-] Hin. apply list_elem_of_In, in_concat in Hin as (ps & Hps & Hin). apply list_elem_of_In in Hps, Hin.
  apply map_res_Forall2, Forall2_flip in E. destruct (Forall2_elem_l _ _ _ _ E Hps) as (f & Hf & Hp). cbn in Hp. unfold fragment_copies, mbind, res_bind in Hp.
  destruct (map_res _ (pb.fr_files f)) as [data|] eqn:Ed; [|done]. destruct (deletion_copy source_dir target bases f) as [deletion|] eqn:El; [|done]. injection Hp as <-.
  apply elem_of_app in Hin as [Hin|Hin].
  - apply map_res_Forall2, Forall2_flip in Ed. destruct (Forall2_elem_l _ _ _ _ Ed Hin) as (file & Hfile & Hc). cbn in Hc. unfold data_copy, mbind, res_bind in Hc.
    destruct (BasePaths.data_file_dir _ _ _); [|done]. injection Hc as _ <-. unfold safe_paths in Hsafe. rewrite Forall_forall in Hsafe. specialize (Hsafe f Hf). rewrite Forall_forall in Hsafe.
    unfold at_data. destruct (safe_file_at io target "data" _ ltac:(done) (Hsafe file Hfile)) as [s ->]. intros [H|[q H]].
    + apply path_join_inj in H. discriminate H.
    + rewrite path_join_nested in H by (by eexists). apply path_join_inj in H. discriminate H.
  - unfold deletion_copy in El. destruct (pb.del_present _); [|injection El as <-; by apply not_elem_of_nil in Hin]. unfold mbind, res_bind in El.
    destruct (BasePaths.deletion_file_dir_in _ _ _); [|done]. injection El as <-. apply list_elem_of_singleton in Hin. injection Hin as _ ->. apply not_in_indices; [by eexists|].
    intros y Hy. discriminate Hy.
Qed.

(** a deep clone is a dataset of its own with the source's contents: its manifest names no base path, every
    fragment of the source's version is one of the clone's, and each data and deletion file of it, found in the clone's own
    directories, has the bytes of the source's, when its paths are safe, no two files are copied to one place and none is read from the target. *)
Theorem deep_clone_copies source_dir version target t m' t' fm size bases pairs :
  deep source_dir version target t = (Ok m', t') -> load_source io decode_manifest decode_index_section limits source_dir version t = Ok (fm, size) ->
  BasePaths.read_base_paths fm = Ok bases -> safe_paths fm -> copies source_dir target bases fm = Ok pairs -> apart pairs ->
  BasePaths.read_base_paths m' = Ok [] /\
  Forall2 (copied_fragment source_dir target bases t t') (pb.mf_fragments fm) (pb.mf_fragments m').
Proof.
  unfold deep_manifest, mbind, res_bind. intros H Hsrc Hb Hsafe Hp Ha. rewrite Hsrc in H. cbn [fst] in H. rewrite Hb in H. pose proof Hp as Hcop. unfold copies in Hp.
  destruct (map_res _ (pb.mf_fragments fm)) as [l|] eqn:El; [|done]. injection Hp as <-. destruct (each _ (pb.mf_fragments fm) t) as [[[]|] t1] eqn:E; [|done].
  destruct (each _ (pb.mf_indices fm) t1) as [[[]|] t2] eqn:E2; [|done]. injection H as <- <-. apply (each_confined (path_join target "_indices")) in E2; [|intros * _; apply copy_index_confined].
  eapply (copy_fragments_list _ _ _ _ t []) in E; [|exact El | exact Ha | by split; [|intros ? ? ?%not_elem_of_nil]]. cbn [app] in E. split.
  - unfold deep_form. set (m := pb.set_indices _ _). assert ((fields (pb.mf_unknown m)).2 = true) as Hw.
    { change (pb.mf_unknown m) with (pb.mf_unknown fm). unfold BasePaths.read_base_paths, mbind, res_bind in Hb. destruct (fields (pb.mf_unknown fm)) as [fs ok].
      destruct (fold_res _ fs []); [|done]. by destruct ok. }
    destruct (BasePaths.base_paths_roundtrip m [] ltac:(constructor) Hw) as (H & _). exact H.
  - change (pb.mf_fragments (deep_form fm)) with (own_fragment <$> pb.mf_fragments fm). apply Forall2_fmap_r, Forall2_same_length_lookup_2; [done|]. intros i f f' H1 H2.
    rewrite H1 in H2. injection H2 as <-. eapply copied_own; [exact Hcop | by eapply list_elem_of_lookup_2|]. intros src dst Hin. rewrite E2; [by apply E|].
    apply (copied_place _ _ _ _ _ _ _ Hsafe Hcop Hin).
Qed.

End clones.

(** ** A dataset to branch and to clone *)

Definition get_ok {A} (default : A) (r : res A) : A := match r with Ok a => a | Err _ => default end.

(** A version with a file of its own and one under another base path. *)
Definition two_bases : pb.Manifest :=
  BasePaths.write_base_paths (pb.set_fragments [sample_data "a.lance";
    pb.mkDataFragment 1 [BasePaths.set_data_file_base_id (pb.mkDataFile "b.lance" [0] [0] 2 1 0 []) (Some 3)] 10 pb.no_deletion_file []] pb.Manifest0)
    [BasePaths.mkBasePath 3 "x" true false "/other"].

Lemma shallow_reads_source_witness :
  exists m', shallow_start 5 "1" "/ds" "" "dev" 7 two_bases = Ok m' /\ pb.mf_version m' = 7 /\
  exists bases', BasePaths.read_base_paths m' = Ok bases' /\
    Forall2 (reads_fragment "/ds" "/ds/tree/dev" [BasePaths.mkBasePath 3 "x" true false "/other"] bases') (pb.mf_fragments two_bases) (pb.mf_fragments m') /\
    Forall2 (reads_index "/ds" "/ds/tree/dev" two_bases m') (pb.mf_indices two_bases) (pb.mf_indices m').
Proof.
  set (m' := get_ok two_bases (shallow_start 5 "1" "/ds" "" "dev" 7 two_bases)). exists m'.
  assert (shallow_start 5 "1" "/ds" "" "dev" 7 two_bases = Ok m') as Hm by (vm_compute; reflexivity). split; [exact Hm|].
  apply (shallow_reads_source 5 "1" "/ds" "" "dev" 7 "/ds/tree/dev" two_bases [BasePaths.mkBasePath 3 "x" true false "/other"] m').
  - vm_compute. reflexivity.
  - constructor; [|constructor]. unfold BasePaths.base_ok, BasePaths.short, is_u32. cbn. split_and!; try done; lia.
  - constructor; [cbn; lia | constructor].
  - by vm_compute.
  - by vm_compute.
  - by vm_compute.
  - exact Hm.
Defined.

(** Two versions of main. *)
Definition main_tree : tree :=
  mkTree (list_to_map [("/ds/_versions/1.manifest", sample_manifest_file 1); ("/ds/_versions/2.manifest", sample_manifest_file 3);
                       ("/ds/data/a.lance", mkFile [1] 0); ("/ds/data/b.lance", mkFile [2] 0)])
    (list_to_set ["/ds"; "/ds/_versions"; "/ds/data"]).

Definition main_policy : CleanupPolicy := mkCleanupPolicy None (Some 2) None true false None.

(** The first manifest of the branch [topic]. *)
Definition topic_manifest : pb.Manifest := get_ok pb.Manifest0 (shallow_start 2000 "1" "/ds" "" "topic" 1 (sample_version 1 "a.lance")).
Definition topic_written : pb.Manifest := pb.set_transaction_file "1-u.txn" topic_manifest.

(** A codec for the manifests of this tree. *)
Definition topic_encode (m : pb.Manifest) : list Z := [9].
Definition topic_decode (body : list Z) : option pb.Manifest :=
  match body with [9] => Some (ManifestFile.on_wire (ManifestFile.with_index_section topic_written)) | _ => sample_bodies body end.

Definition topic_branch : res unit * tree :=
  create_branch sample_io (fun _ => 0) topic_encode topic_decode (fun _ => []) (fun _ => Ok []) (fun _ => []) (fun _ => []) (fun _ => []) initial_read_limits "1"
    "/ds" "topic" "" 1 "u" [1; 2] main_tree.

Definition topic_tree : tree := Eval vm_compute in topic_branch.2.

Lemma topic_branch_tree : topic_branch = (Ok tt, topic_tree).
Proof. vm_compute. reflexivity. Qed.

Lemma topic_start : branch_start sample_io topic_encode topic_decode (fun _ => []) (fun _ => Ok []) (fun _ => []) (fun _ => []) (fun _ => []) initial_read_limits "1"
  "/ds" "topic" 1 "u" [1; 2] main_tree (sample_version 1 "a.lance") topic_manifest 25 [].
Proof.
  assert (store_at sample_io (branch_location "/ds" "topic") main_tree = Publish.mkStore ∅ [] ∅) as Hst by (vm_compute; reflexivity). split.
  - vm_compute. reflexivity.
  - vm_compute. reflexivity.
  - rewrite Hst. split.
    { exists false. intros file v [b Hb]. cbn [Publish.versions] in Hb. rewrite lookup_empty in Hb. discriminate Hb. }
    { assert (pb.mf_version topic_manifest = 1) as -> by (vm_compute; reflexivity). lia. }
    { reflexivity. }
    { intros file. reflexivity. }
    intros txn written (m' & s1 & Hc & Hw & ->). assert (m' = topic_manifest) as -> by (vm_compute in Hc |- *; congruence).
    assert (txn = "1-u.txn") as -> by (vm_compute in Hw; congruence). change (pb.set_transaction_file "1-u.txn" topic_manifest) with topic_written. split_and!.
    + assert (pb.mf_indices topic_written = []) as Hi by (vm_compute; reflexivity). split.
      * unfold topic_decode, topic_encode. reflexivity.
      * unfold topic_encode. change (zlen [9]) with 1. lia.
      * rewrite Hi. vm_compute. reflexivity.
      * change (zlen []) with 0. lia.
    + vm_compute. reflexivity.
    + vm_compute. reflexivity.
    + intros file. unfold Publish.published_transaction, Publish.load_manifest_file_unchecked, Publish.open_source. cbn [Publish.versions]. rewrite lookup_empty.
      destruct (Publish.unreadable _ file); discriminate.
  - vm_compute. reflexivity.
  - constructor.
  - constructor.
  - by split; vm_compute.
  - reflexivity.
  - unfold RefsText.branch_fits, RefsText.fits_double, new_branch. cbn [identifier parent_version create_at br_manifest_size app].
    assert (Z.quot (now_ns sample_io) 1000000000 = 0) as -> by reflexivity. split; [constructor; [cbn [fst]; lia | constructor]|]. lia.
Qed.

(** The clean-up would take the first version and its file away; with the branch the file stays. *)
Lemma create_branch_protects_witness :
  let cleanup := cleanup_old_versions sample_io (fun _ => 0) topic_decode (fun _ => Ok []) initial_read_limits "/ds" 0 main_policy true 0 in
  files (cleanup main_tree).2 !! "/ds/data/a.lance" = None /\
  files (cleanup topic_tree).2 !! path_join "/ds" "data/a.lance" = files topic_tree !! path_join "/ds" "data/a.lance".
Proof.
  intros cleanup. split; [vm_compute; reflexivity|].
  apply (create_branch_protects sample_io (fun _ => 0) topic_encode topic_decode (fun _ => []) (fun _ => Ok []) (fun _ => []) (fun _ => []) (fun _ => []) initial_read_limits "1"
    sample_io "/ds" "topic" 1 "u" [1; 2] main_tree topic_tree (sample_version 1 "a.lance") topic_manifest 25 [] 0 main_policy true 0 (cleanup topic_tree).1 (cleanup topic_tree).2
    (add_data "data/a.lance" nothing) "data/a.lance" topic_branch_tree topic_start).
  - intros v m branch Hv Hm Hb. assert (v = 2) as -> by (vm_compute in Hv; congruence). assert (m = sample_version 3 "b.lance") as -> by (vm_compute in Hm |- *; congruence).
    vm_compute in Hb. congruence.
  - exists "/ds/_versions/1.manifest", 25. split; [vm_compute; reflexivity|]. exists (sample_manifest_file 1). split; vm_compute; reflexivity.
  - apply surjective_pairing.
  - by eapply (own_data _ (sample_data "a.lance") (pb.mkDataFile "a.lance" [0] [0] 2 1 0 [])); [left | left | vm_compute; reflexivity].
  - apply used_data; [cbn; set_solver | reflexivity].
Defined.

(** A deep clone whose manifest cannot be written. *)
Definition full_io : Io :=
  mkIo 2000 (fun _ => false) (fun _ => None) (fun _ => None) (fun _ => false) (fun _ => false)
    (fun p => if String.eqb p "/new/_versions" then Some "disk full" else None) (fun _ => None) (fun _ => false) (fun _ => false).

Definition failed_clone : res unit * tree :=
  clone_version full_io (fun _ => 0) topic_encode topic_decode (fun _ => []) (fun _ => Ok []) (fun _ => []) (fun _ => []) (fun _ => []) initial_read_limits "1"
    "/ds" "" 1 "/new" true "u" main_tree.

Lemma sample_safe : safe_paths (sample_version 1 "a.lance").
Proof. repeat constructor; vm_compute; done. Qed.

Lemma clone_contained_witness : failed_clone.1 = Err "disk full" /\ confined "/new" main_tree failed_clone.2 /\ relative "/new" failed_clone.2 = [].
Proof.
  assert (failed_clone.1 = Err "disk full") as Hr by (vm_compute; reflexivity). split; [exact Hr|].
  destruct (clone_contained full_io (fun _ => 0) topic_encode topic_decode (fun _ => []) (fun _ => Ok []) (fun _ => []) (fun _ => []) (fun _ => []) initial_read_limits "1"
    "/ds" "" 1 "/new" true "u" main_tree failed_clone.1 failed_clone.2) as [Hc Hn]; [|apply surjective_pairing | split; [exact Hc|]].
  { intros _ fm size Hl. assert (fm = sample_version 1 "a.lance") as -> by (vm_compute in Hl |- *; congruence). exact sample_safe. }
  apply Hn; [rewrite Hr; discriminate | reflexivity | vm_compute; reflexivity | reflexivity].
Defined.

(** A deep clone of the first version. *)
Definition deep_sample : res pb.Manifest * tree := deep_manifest sample_io topic_decode (fun _ => Ok []) initial_read_limits "/ds" 1 "/new" main_tree.

Lemma deep_clone_copies_witness :
  exists m', deep_sample.1 = Ok m' /\ BasePaths.read_base_paths m' = Ok [] /\
    Forall2 (copied_fragment sample_io "/ds" "/new" [] main_tree deep_sample.2) [sample_data "a.lance"] (pb.mf_fragments m').
Proof.
  set (m' := get_ok pb.Manifest0 deep_sample.1). exists m'. assert (deep_sample.1 = Ok m') as Hm by (vm_compute; reflexivity). split; [exact Hm|].
  apply (deep_clone_copies sample_io topic_decode (fun _ => Ok []) initial_read_limits "/ds" 1 "/new" main_tree m' deep_sample.2 (sample_version 1 "a.lance") 25 []
    [("/ds/data/a.lance", "/new/data/a.lance")]).
  - rewrite <- Hm. apply surjective_pairing.
  - vm_compute. reflexivity.
  - vm_compute. reflexivity.
  - exact sample_safe.
  - vm_compute. reflexivity.
  - split; [by apply NoDup_singleton|]. intros src Hs%list_elem_of_singleton Hd%list_elem_of_singleton. cbn in Hs, Hd. by rewrite Hs in Hd.
Defined.

(** ** Where a clone goes wrong *)

(** The reference of a branch is written after its manifest; when that fails the manifest stays, the branch is not listed and
    cannot be created again. *)
Definition no_ref_io : Io :=
  mkIo 2000 (fun _ => false) (fun _ => None) (fun _ => None) (fun _ => false) (fun _ => false)
    (fun p => if String.eqb p "/ds/_refs/branches/topic.json" then Some "timeout" else None) (fun _ => None) (fun _ => false) (fun _ => false).

Definition branch_again (io : Io) (uuid : string) (t : tree) : res unit * tree :=
  create_branch io (fun _ => 0) topic_encode topic_decode (fun _ => []) (fun _ => Ok []) (fun _ => []) (fun _ => []) (fun _ => []) initial_read_limits "1"
    "/ds" "topic" "" 1 uuid [1; 2] t.

Lemma failed_ref_blocks_branch :
  (branch_again no_ref_io "u" main_tree).1 = Err "timeout" /\
  list_branches sample_io (fun _ => 0) "/ds" (branch_again no_ref_io "u" main_tree).2 = Ok [] /\
  (branch_again sample_io "v" (branch_again no_ref_io "u" main_tree).2).1 = Err "commit conflict: version 1 was committed concurrently".
Proof. split_and!; vm_compute; reflexivity. Qed.

Definition store_io : Io := mkIo 2000 (fun _ => true) (fun _ => None) (fun _ => None) (fun _ => false) (fun _ => false) (fun _ => None) (fun _ => None) (fun _ => false) (fun _ => false).

(** A version whose data file has a path that goes up: the deep clone to [/srv/new] writes outside it. The readers of data
    files refuse such a path ([safe_join_under]); the copy does not. *)
Definition escaping (body : list Z) : option pb.Manifest := match body with [1] => Some (sample_version 1 "../../x") | _ => None end.
Definition escape_tree : tree := mkTree (<["/x" := mkFile [7] 0]> (files main_tree)) (dirs main_tree).

Lemma deep_clone_escapes :
  let clone := clone_version sample_io (fun _ => 0) (fun _ => [1]) escaping (fun _ => []) (fun _ => Ok []) (fun _ => []) (fun _ => []) (fun _ => []) initial_read_limits "1"
    "/ds" "" 1 "/srv/new" true "u" escape_tree in
  clone.1 = Ok tt /\ content <$> files clone.2 !! "/srv/x" = Some [7] /\ ~ confined "/srv/new" escape_tree clone.2.
Proof.
  split_and!; [vm_compute; reflexivity .. |]. intros H. specialize (H "/srv/x"). vm_compute in H. discriminate H.
  intros [H'|[q H']]; discriminate H'.
Qed.

(** On an object store, files of the same name in two base paths are copied to one place. *)
Definition same_names : pb.Manifest :=
  BasePaths.write_base_paths (pb.set_fragments [sample_data "a.lance";
    pb.mkDataFragment 1 [BasePaths.set_data_file_base_id (pb.mkDataFile "a.lance" [0] [0] 2 1 0 []) (Some 3)] 10 pb.no_deletion_file []] (pb.set_version 1 pb.Manifest0))
    [BasePaths.mkBasePath 3 "x" true true "s3://b/other"].
Definition same_names_tree : tree :=
  mkTree (list_to_map [("s3://b/ds/_versions/1.manifest", sample_manifest_file 1); ("s3://b/ds/data/a.lance", mkFile [1] 0); ("s3://b/other/data/a.lance", mkFile [2] 0)]) ∅.

Lemma deep_clone_merges_names :
  let r := deep_manifest store_io (fun body => match body with [1] => Some same_names | _ => None end) (fun _ => Ok []) initial_read_limits "s3://b/ds" 1 "s3://b/new" same_names_tree in
  match r.1 with Ok m' => length (pb.mf_fragments m') = 2%nat | Err _ => False end /\ content <$> files r.2 !! "s3://b/new/data/a.lance" = Some [2].
Proof. split; vm_compute; reflexivity. Qed.

End CloneSafe.
