(* ===== verification/Bloom.v ===== *)
(** * Bloom filters (src/index/scalar/bloom_filter.cpp)

    The split-block bloom filter of the BLOOMFILTER index: XXH64 of a value's bytes, the insertion of a hash
    into one block of eight words, and the probe. A filter is the list of its bytes. The rate of false
    positives is computed in doubles; its comparison with the wanted rate is a parameter of the search for a
    size. *)

From S2P Require Import Prelude.

Module Bloom.

Definition kP1 : Z := 0x9E3779B185EBCA87.
Definition kP2 : Z := 0xC2B2AE3D27D4EB4F.
Definition kP3 : Z := 0x165667B19E3779F9.
Definition kP4 : Z := 0x85EBCA77C2B2AE63.
Definition kP5 : Z := 0x27D4EB2F165667C5.

Definition kSalt : list Z :=
  [0x47b6137b; 0x44974d91; 0x8824ad5b; 0xa2b7289d; 0x705495c7; 0x2df1424b; 0x9efc4947; 0x5c6bfb31].

Definition kBlockBytes : Z := 32.
Definition kLog2MinBytes : Z := 5.
Definition kLog2MaxBytes : Z := 27.

(** ** XXH64 *)

Definition rotl (x r : Z) : Z := Z.lor (u64 (Z.shiftl x r)) (Z.shiftr x (64 - r)).

Definition read_le64 (p : list Z) : Z := le_value (take 8 p).
Definition read_le32 (p : list Z) : Z := le_value (take 4 p).

Definition xx_round (acc input : Z) : Z := u64 (rotl (u64 (acc + u64 (input * kP2))) 31 * kP1).
Definition xx_merge (acc val : Z) : Z := u64 (u64 (Z.lxor acc (xx_round 0 val) * kP1) + kP4).

(** The stripes of 32 bytes: the four lanes and the bytes left. *)
Fixpoint stripes (fuel : nat) (v : Z * Z * Z * Z) (data : list Z) : (Z * Z * Z * Z) * list Z :=
  match fuel with
  | O => (v, data)
  | S fuel =>
      if 32 <=? zlen data then
        let '(v1, v2, v3, v4) := v in
        stripes fuel
          (xx_round v1 (read_le64 data), xx_round v2 (read_le64 (drop 8 data)), xx_round v3 (read_le64 (drop 16 data)),
           xx_round v4 (read_le64 (drop 24 data))) (drop 32 data)
      else (v, data)
  end.

Fixpoint tail8 (fuel : nat) (h : Z) (data : list Z) : Z * list Z :=
  match fuel with
  | O => (h, data)
  | S fuel =>
      if 8 <=? zlen data then
        tail8 fuel (u64 (u64 (rotl (Z.lxor h (xx_round 0 (read_le64 data))) 27 * kP1) + kP4)) (drop 8 data)
      else (h, data)
  end.

Fixpoint tail1 (h : Z) (data : list Z) : Z :=
  match data with [] => h | b :: data => tail1 (u64 (rotl (Z.lxor h (u64 (b * kP5))) 11 * kP1)) data end.

Definition avalanche (h : Z) : Z :=
  let h := Z.lxor h (Z.shiftr h 33) in
  let h := u64 (h * kP2) in
  let h := Z.lxor h (Z.shiftr h 29) in
  let h := u64 (h * kP3) in
  Z.lxor h (Z.shiftr h 32).

(** Each loop takes at least a byte per round: the length is fuel enough. *)
Definition xxh64 (data : list Z) : Z :=
  let n := zlen data in
  let '(h, rest) :=
    if 32 <=? n then
      let '((v1, v2, v3, v4), rest) := stripes (length data) (u64 (kP1 + kP2), kP2, 0, u64 (- kP1)) data in
      let h := u64 (rotl v1 1 + rotl v2 7 + rotl v3 12 + rotl v4 18) in
      (xx_merge (xx_merge (xx_merge (xx_merge h v1) v2) v3) v4, rest)
    else (kP5, data) in
  let h := u64 (h + n) in
  let '(h, rest) := tail8 (length data) h rest in
  let '(h, rest) :=
    if 4 <=? zlen rest then
      (u64 (u64 (rotl (Z.lxor h (u64 (read_le32 rest * kP1))) 23 * kP2) + kP3), drop 4 rest)
    else (h, rest) in
  avalanche (tail1 h rest).

(** ** The filter *)

Definition empty_filter (num_bytes : Z) : list Z := replicate (Z.to_nat num_bytes) 0.

(** The block of a hash, and the bit of each word. *)
Definition block_of (num_bytes hash : Z) : Z := Z.shiftr (u64 (Z.shiftr hash 32 * (num_bytes / kBlockBytes))) 32.
Definition bit_of (hash salt : Z) : Z := Z.shiftr (u32 (u32 hash * salt)) 27.

(** [word[k] = updated >> 8k], at byte [at_]. *)
Definition set_word (filter : list Z) (at_ : nat) (updated : Z) : list Z :=
  take at_ filter ++ le_bytes 4 updated ++ drop (at_ + 4) filter.

Definition insert_word (hash : Z) (words : nat) (filter : list Z) (i : nat) : list Z :=
  let bit := bit_of hash (nth i kSalt 0) in
  let at_ := (words + 4 * i)%nat in
  let current := read_le32 (drop at_ filter) in
  set_word filter at_ (Z.lor current (u32 (Z.shiftl 1 bit))).

Definition insert (filter : list Z) (num_bytes hash : Z) : list Z :=
  let words := Z.to_nat (block_of num_bytes hash * kBlockBytes) in
  foldl (insert_word hash words) filter (seq 0 8).

Definition probe_word (filter : list Z) (hash : Z) (words i : nat) : bool :=
  negb (Z.land (Z.shiftr (read_le32 (drop (words + 4 * i) filter)) (bit_of hash (nth i kSalt 0))) 1 =? 0).

Definition may_contain (filter : list Z) (num_bytes hash : Z) : bool :=
  let words := Z.to_nat (block_of num_bytes hash * kBlockBytes) in
  forallb (probe_word filter hash words) (seq 0 8).

(** [log2_bytes_for]: the binary search over 0..64, [fits mid] standing for
    [false_positive_probability(ndv, mid) <= fpp]. Its interval halves: six rounds. *)
Fixpoint search_size (fits : Z -> bool) (fuel : nat) (low high : Z) : Z * Z :=
  match fuel with
  | O => (low, high)
  | S fuel =>
      if low + 1 <? high then
        let mid := (high + low) / 2 in
        if fits mid then search_size fits fuel low mid else search_size fits fuel mid high
      else (low, high)
  end.

Definition log2_bytes_for (fits : Z -> bool) : Z :=
  let high := (search_size fits 64 0 64).2 in Z.max kLog2MinBytes (Z.min high kLog2MaxBytes).

(** The reference values of XXH64, seed 0. *)
Example xxh64_empty : xxh64 [] = 0xEF46DB3751D8E999.
Proof. vm_compute. reflexivity. Qed.
Example xxh64_a : xxh64 [97] = 0xD24EC4F1A98C6E5B.
Proof. vm_compute. reflexivity. Qed.

(** ** Words of a filter *)

Definition filter_ok (filter : list Z) (num_bytes : Z) : Prop := bytes_ok filter /\ zlen filter = num_bytes.
Definition size_ok (num_bytes : Z) : Prop := 32 <= num_bytes < 2 ^ 37.

Definition word_at (filter : list Z) (at_ : nat) : Z := read_le32 (drop at_ filter).

Lemma word_at_range filter at_ : bytes_ok filter -> 0 <= word_at filter at_ < 2 ^ 32.
Proof.
  intros Hf. unfold word_at, read_le32. assert (bytes_ok (take 4 (drop at_ filter))) as H by (apply Forall_take, Forall_drop; exact Hf).
  pose proof (le_value_range _ H) as R. assert (zlen (take 4 (drop at_ filter)) <= 4) by (unfold zlen; rewrite length_take; lia).
  split; [lia|]. eapply Z.lt_le_trans; [apply R|]. apply Z.pow_le_mono_r; lia.
Qed.

Lemma set_word_ok filter at_ v : bytes_ok filter -> (at_ + 4 <= length filter)%nat ->
  bytes_ok (set_word filter at_ v) /\ length (set_word filter at_ v) = length filter.
Proof.
  intros Hf Hat. unfold set_word. split.
  - apply bytes_ok_app. split; [by apply Forall_take|]. apply bytes_ok_app. split; [apply le_bytes_ok | by apply Forall_drop].
  - rewrite !length_app, length_take, length_drop, length_le_bytes. lia.
Qed.

(** Writing a word changes it and no other of the aligned words. *)
Lemma word_at_set filter at_ at' v : (at_ + 4 <= length filter)%nat -> 0 <= v < 2 ^ 32 ->
  (at' = at_ \/ at' + 4 <= at_ \/ at_ + 4 <= at')%nat ->
  word_at (set_word filter at_ v) at' = if decide (at' = at_) then v else word_at filter at'.
Proof.
  intros Hat Hv Hd. unfold word_at, read_le32, set_word. case_decide as E.
  - subst. rewrite drop_app_ge by (rewrite length_take; lia). rewrite length_take, Nat.min_l, Nat.sub_diag, drop_0 by lia.
    rewrite take_app_le by (rewrite length_le_bytes; lia). rewrite take_ge by (rewrite length_le_bytes; lia).
    apply le_value_le_bytes. exact Hv.
  - f_equal. destruct Hd as [|[Hd|Hd]]; [done| |].
    + rewrite drop_app_le by (rewrite length_take; lia). rewrite take_app_le by (rewrite length_drop, length_take; lia).
      rewrite skipn_firstn_comm, take_take. f_equal. lia.
    + rewrite drop_app_ge by (rewrite length_take; lia). rewrite length_take, Nat.min_l by lia.
      rewrite drop_app_ge by (rewrite length_le_bytes; lia). rewrite length_le_bytes, drop_drop. do 2 f_equal. lia.
Qed.

Lemma bit_of_range hash salt : 0 <= bit_of hash salt < 32.
Proof. unfold bit_of. change 32 with (2 ^ 5). apply shiftr_bound; [lia | apply u32_range | lia]. Qed.

Lemma probe_word_testbit filter hash words i :
  probe_word filter hash words i = Z.testbit (word_at filter (words + 4 * i)) (bit_of hash (nth i kSalt 0)).
Proof.
  unfold probe_word, word_at. pose proof (bit_of_range hash (nth i kSalt 0)). change 1 with (2 ^ 0).
  rewrite land_pow2_testbit, negb_involutive, Z.shiftr_spec by lia. f_equal.
Qed.

Lemma block_in_filter num_bytes hash : size_ok num_bytes -> is_u64 hash ->
  0 <= block_of num_bytes hash * 32 /\ block_of num_bytes hash * 32 + 32 <= num_bytes.
Proof.
  unfold size_ok, is_u64, block_of, kBlockBytes. intros Hs Hh. rewrite !Z.shiftr_div_pow2 by lia.
  set (b := num_bytes / 32). assert (1 <= b < 2 ^ 32 /\ b * 32 <= num_bytes) as [Hb Hb'] by (subst b; dlia).
  set (x := hash / 2 ^ 32). assert (0 <= x < 2 ^ 32) as Hx by (subst x; dlia). clearbody b x.
  rewrite u64_small by (unfold is_u64; nia).
  assert (x * b / 2 ^ 32 < b) by (apply Z.div_lt_upper_bound; nia). assert (0 <= x * b / 2 ^ 32) by (apply Z.div_pos; nia). lia.
Qed.

(** ** Insertion *)

Section Insert.
Context (num_bytes : Z) (Hsize : size_ok num_bytes).

Definition words_of (hash : Z) : nat := Z.to_nat (block_of num_bytes hash * kBlockBytes).

Lemma words_fit hash i : is_u64 hash -> (i < 8)%nat -> (words_of hash + 4 * i + 4 <= Z.to_nat num_bytes)%nat.
Proof. intros Hh Hi. pose proof (block_in_filter num_bytes hash Hsize Hh). unfold words_of, kBlockBytes in *. lia. Qed.

(** What one word's update does to a filter: every bit stays, and its own is set. *)
Lemma insert_word_spec filter hash i : filter_ok filter num_bytes -> is_u64 hash -> (i < 8)%nat ->
  let f' := insert_word hash (words_of hash) filter i in
  filter_ok f' num_bytes /\
  (forall j k, (j < 8)%nat -> is_u64 k -> Z.testbit (word_at filter (words_of k + 4 * j)) (bit_of k (nth j kSalt 0)) = true ->
     Z.testbit (word_at f' (words_of k + 4 * j)) (bit_of k (nth j kSalt 0)) = true) /\
  Z.testbit (word_at f' (words_of hash + 4 * i)) (bit_of hash (nth i kSalt 0)) = true.
Proof.
  intros [Hf Hl] Hh Hi f'. pose proof (words_fit hash i Hh Hi) as Hw. pose proof (bit_of_range hash (nth i kSalt 0)) as Hbit.
  set (at_ := (words_of hash + 4 * i)%nat) in *. set (bit := bit_of hash (nth i kSalt 0)) in *.
  assert ((at_ + 4 <= length filter)%nat) as Hat by (unfold zlen in Hl; lia).
  set (v := Z.lor (word_at filter at_) (u32 (Z.shiftl 1 bit))).
  assert (u32 (Z.shiftl 1 bit) = 2 ^ bit) as Hpow.
  { rewrite Z.shiftl_1_l. apply u32_small. split; [apply Z.pow_nonneg; lia | apply Z.pow_lt_mono_r; lia]. }
  assert (0 <= v < 2 ^ 32) as Hv by (apply lor_bound; [lia | by apply word_at_range | apply u32_range]).
  change f' with (set_word filter at_ v). destruct (set_word_ok filter at_ v Hf Hat) as [Hok Hlen].
  assert (Z.testbit v bit = true) as Hset by (unfold v; rewrite Z.lor_spec, Hpow, Z.pow2_bits_true by lia; apply orb_true_r).
  split_and!.
  - split; [done|]. unfold zlen in *. by rewrite Hlen.
  - intros j k Hj Hk Hbitk. rewrite word_at_set; [|done..|].
    + case_decide as E; [|done]. unfold v. rewrite Z.lor_spec, <- E, Hbitk. done.
    + assert (exists a, words_of k = 4 * a)%nat as [a Ha].
      { pose proof (block_in_filter num_bytes k Hsize Hk). exists (Z.to_nat (block_of num_bytes k * 8)). unfold words_of, kBlockBytes. lia. }
      assert (exists b, words_of hash = 4 * b)%nat as [b Hb].
      { pose proof (block_in_filter num_bytes hash Hsize Hh). exists (Z.to_nat (block_of num_bytes hash * 8)). unfold words_of, kBlockBytes. lia. }
      unfold at_. lia.
  - rewrite word_at_set by (done || by left). by rewrite decide_True.
Qed.

(** The bits a hash asks for. *)
Definition holds (filter : list Z) (k : Z) (j : nat) : Prop :=
  Z.testbit (word_at filter (words_of k + 4 * j)) (bit_of k (nth j kSalt 0)) = true.

Lemma insert_words_spec filter hash l : filter_ok filter num_bytes -> is_u64 hash -> Forall (fun i => (i < 8)%nat) l ->
  let f' := foldl (insert_word hash (words_of hash)) filter l in
  filter_ok f' num_bytes /\ (forall j k, (j < 8)%nat -> is_u64 k -> holds filter k j -> holds f' k j) /\
  (forall i, i ∈ l -> holds f' hash i).
Proof.
  intros Hf Hh Hl. revert filter Hf. induction Hl as [|i l Hi Hl IH]; intros filter Hf; cbn [foldl].
  { split_and!; [done | done | intros i Hin; by apply not_elem_of_nil in Hin]. }
  destruct (insert_word_spec filter hash i Hf Hh Hi) as (H1 & H2 & H3). destruct (IH _ H1) as (G1 & G2 & G3).
  split_and!; [done | intros j k Hj Hk Hx; apply G2; auto; by apply H2 |].
  intros j [->|Hin]%elem_of_cons; [by apply G2 | by apply G3].
Qed.

Lemma insert_spec filter hash : filter_ok filter num_bytes -> is_u64 hash ->
  filter_ok (insert filter num_bytes hash) num_bytes /\
  (forall k, is_u64 k -> may_contain filter num_bytes k = true -> may_contain (insert filter num_bytes hash) num_bytes k = true) /\
  may_contain (insert filter num_bytes hash) num_bytes hash = true.
Proof.
  intros Hf Hh. assert (Forall (fun i => (i < 8)%nat) (seq 0 8)) as Hseq by (apply Forall_seq; lia).
  destruct (insert_words_spec filter hash (seq 0 8) Hf Hh Hseq) as (H1 & H2 & H3).
  assert (forall f k, may_contain f num_bytes k = true <-> forall j, (j < 8)%nat -> holds f k j) as Hm.
  { intros f k. unfold may_contain. rewrite forallb_forall. split.
    - intros H j Hj. unfold holds. rewrite <- probe_word_testbit. apply H, in_seq. lia.
    - intros H j Hj%in_seq. rewrite probe_word_testbit. apply H. lia. }
  split_and!; [done | |].
  - intros k Hk Hc. rewrite Hm in Hc |- *. intros j Hj. apply H2; auto.
  - apply Hm. intros j Hj. apply H3, elem_of_seq. lia.
Qed.

End Insert.

Lemma empty_filter_ok num_bytes : 0 <= num_bytes -> filter_ok (empty_filter num_bytes) num_bytes.
Proof. intros H. split; [by apply Forall_replicate | unfold zlen, empty_filter; rewrite length_replicate; lia]. Qed.

(** Inserting hashes one after the other. *)
Definition insert_all (num_bytes : Z) (hashes : list Z) : list Z :=
  foldl (fun f h => insert f num_bytes h) (empty_filter num_bytes) hashes.

Lemma foldl_insert_spec num_bytes filter hashes : size_ok num_bytes -> filter_ok filter num_bytes -> Forall is_u64 hashes ->
  let f' := foldl (fun f h => insert f num_bytes h) filter hashes in
  filter_ok f' num_bytes /\ (forall k, is_u64 k -> may_contain filter num_bytes k = true -> may_contain f' num_bytes k = true) /\
  (forall h, h ∈ hashes -> may_contain f' num_bytes h = true).
Proof.
  intros Hs Hf Hh. revert filter Hf. induction Hh as [|h hashes Hh Hhs IH]; intros filter Hf; cbn [foldl].
  { split_and!; [done | done | intros h Hin; by apply not_elem_of_nil in Hin]. }
  destruct (insert_spec num_bytes Hs filter h Hf Hh) as (H1 & H2 & H3). destruct (IH _ H1) as (G1 & G2 & G3).
  split_and!; [done | auto |]. intros k [->|Hin]%elem_of_cons; auto.
Qed.

(** C33: (safety): a bloom filter has no false negatives: whatever hashes were inserted, in whatever order, the
    probe of each of them says the filter may hold it, and the filter keeps its size. *)
Theorem bloom_no_false_negatives num_bytes hashes h : size_ok num_bytes -> Forall is_u64 hashes -> h ∈ hashes ->
  may_contain (insert_all num_bytes hashes) num_bytes h = true /\ zlen (insert_all num_bytes hashes) = num_bytes.
Proof.
  intros Hs Hh Hin. assert (0 <= num_bytes) as Hn by (unfold size_ok in Hs; lia).
  destruct (foldl_insert_spec num_bytes _ hashes Hs (empty_filter_ok num_bytes Hn) Hh) as (H1 & _ & H3). split; [by apply H3 | apply H1].
Qed.

(** The empty filter holds nothing; two values' filter holds both. *)
Lemma bloom_witness :
  may_contain (empty_filter 64) 64 (xxh64 [1; 2; 3]) = false /\
  may_contain (insert_all 64 [xxh64 [9]; xxh64 [1; 2; 3]]) 64 (xxh64 [1; 2; 3]) = true.
Proof.
  split; [vm_compute; reflexivity|].
  apply (bloom_no_false_negatives 64 [xxh64 [9]; xxh64 [1; 2; 3]] (xxh64 [1; 2; 3])); [unfold size_ok; lia | |].
  - constructor; [vm_compute; split; [discriminate | reflexivity]|]. constructor; [vm_compute; split; [discriminate | reflexivity] | constructor].
  - right. left.
Defined.

(** The size found is the least that fits where the rate falls with the size, within the bounds. *)
Lemma search_size_spec fits fuel low high : 0 <= low < high -> high - low <= Z.of_nat fuel ->
  (forall a b, a <= b -> fits a = true -> fits b = true) -> (low = 0 \/ fits low = false) -> (high = 64 \/ fits high = true) ->
  let '(l, h) := search_size fits fuel low high in
  h = l + 1 /\ low <= l /\ h <= high /\ (l = 0 \/ fits l = false) /\ (h = 64 \/ fits h = true).
Proof.
  revert low high. induction fuel as [|fuel IH]; intros low high Hlh Hf Hmono Hl Hh; [lia|]. cbn [search_size].
  destruct (Z.ltb_spec (low + 1) high); [|split_and!; (done || lia)].
  assert (low < (high + low) / 2 < high) as Hm by dlia.
  destruct (fits ((high + low) / 2)) eqn:E.
  - specialize (IH low ((high + low) / 2) ltac:(lia) ltac:(lia) Hmono Hl ltac:(by right)).
    destruct (search_size fits fuel low _) as [l h]. destruct IH as (? & ? & ? & ? & ?). split_and!; (done || lia).
  - specialize (IH ((high + low) / 2) high ltac:(lia) ltac:(lia) Hmono ltac:(by right) Hh).
    destruct (search_size fits fuel _ high) as [l h]. destruct IH as (? & ? & ? & ? & ?). split_and!; (done || lia).
Qed.

Lemma log2_bytes_range fits : 5 <= log2_bytes_for fits <= 27 /\ size_ok (2 ^ log2_bytes_for fits).
Proof.
  assert (5 <= log2_bytes_for fits <= 27) as H by (unfold log2_bytes_for, kLog2MinBytes, kLog2MaxBytes; lia). split; [done|].
  unfold size_ok. assert (2 ^ 5 <= 2 ^ log2_bytes_for fits) by (apply Z.pow_le_mono_r; lia).
  assert (2 ^ log2_bytes_for fits <= 2 ^ 27) by (apply Z.pow_le_mono_r; lia). lia.
Qed.

End Bloom.
