(* ===== verification/RowSets.v ===== *)
(** * Row sets (src/index/index_search.cpp, src/index/scalar/scalar_index.cpp)

    What a scalar index answers with: for each fragment it covers, the offsets of the rows that may pass.
    [RowSet], its union and intersection with the fragments both or one of them covers, the addition of row
    addresses (with the bitset that sorts a dense list), and the serialized form of a set of addresses, both
    directions. *)

From S2P Require Import Prelude ProtoWire Roaring.

Module RowSets.

Record RowSet := mkRowSet { covered : gset Z; rows : gmap Z (list Z); exact : bool }.

Definition RowSet0 : RowSet := mkRowSet ∅ ∅ false.
Definition with_rows (s : RowSet) (r : gmap Z (list Z)) : RowSet := mkRowSet (covered s) r (exact s).

(** [set.rows[f]], and a fragment the map does not list. *)
Definition rows_of (s : RowSet) (f : Z) : list Z := default [] (rows s !! f).

(** ** Sorting offsets *)

(** [std::countr_zero] of a word that is not zero. *)
Fixpoint ctz_pos (p : positive) : Z := match p with xO p => 1 + ctz_pos p | _ => 0 end.
Definition countr_zero (w : Z) : Z := match w with Zpos p => ctz_pos p | _ => 64 end.

(** [for (word = bits[w]; word != 0; word &= word - 1)]: at most 64 rounds. *)
Fixpoint drain (fuel : nat) (word : Z) : list Z :=
  match fuel with
  | O => []
  | S fuel => if word =? 0 then [] else countr_zero word :: drain fuel (Z.land word (u64 (word - 1)))
  end.

Definition set_bit64 (base : Z) (bits : list Z) (o : Z) : list Z :=
  let d := u32 (o - base) in
  let w := Z.to_nat (d / 64) in
  <[w := Z.lor (nth w bits 0) (u64 (Z.shiftl 1 (d mod 64)))]> bits.

Definition bitset_offsets (base span : Z) (offsets : list Z) : list Z :=
  let bits := foldl (set_bit64 base) (replicate (Z.to_nat ((span + 63) / 64)) 0) offsets in
  concat (imap (fun w word => (fun c => u32 (u32 (base + u32 (Z.of_nat w * 64)) + c)) <$> drain 64 word) bits).

Definition min_of (l : list Z) : Z := foldr Z.min (nth 0 l 0) l.
Definition max_of (l : list Z) : Z := foldr Z.max (nth 0 l 0) l.

Definition sort_unique_offsets (offsets : list Z) : list Z :=
  if zlen offsets <? 64 then sort_unique offsets
  else
    let base := min_of offsets in
    let span := max_of offsets - base + 1 in
    if 4 * zlen offsets <? span / 64 then sort_unique offsets
    else bitset_offsets base span offsets.

(** ** Adding addresses *)

Definition push_rows (f : Z) (offsets : list Z) (r : gmap Z (list Z)) : gmap Z (list Z) :=
  <[f := default [] (r !! f) ++ offsets]> r.

(** The place of a fragment in the list of fragments seen. *)
Fixpoint find_fragment (fragment : Z) (by_fragment : list (Z * list Z)) : nat :=
  match by_fragment with
  | [] => 0
  | (f, _) :: rest => if f =? fragment then 0%nat else S (find_fragment fragment rest)
  end.

Fixpoint append_at (k : nat) (offset : Z) (by_fragment : list (Z * list Z)) : list (Z * list Z) :=
  match by_fragment, k with
  | (f, l) :: rest, O => (f, l ++ [offset]) :: rest
  | e :: rest, S k => e :: append_at k offset rest
  | [], _ => []
  end.

(** The loop over the addresses; [None] where the 33rd fragment turns up. *)
Fixpoint group_addresses (addrs : list Z) (at_ : nat) (by_fragment : list (Z * list Z)) : option (list (Z * list Z)) :=
  match addrs with
  | [] => Some by_fragment
  | a :: addrs =>
      let fragment := u32 (Z.shiftr a 32) in
      let found := match by_fragment !! at_ with Some (f, _) => f =? fragment | None => false end in
      let at_ := if found then at_ else find_fragment fragment by_fragment in
      if bool_decide (at_ = length by_fragment) && (zlen by_fragment =? 32) then None
      else
        let by_fragment := if bool_decide (at_ = length by_fragment) then by_fragment ++ [(fragment, [])] else by_fragment in
        group_addresses addrs at_ (append_at at_ (u32 a) by_fragment)
  end.

Definition add_fragment (r : gmap Z (list Z)) (e : Z * list Z) : gmap Z (list Z) := push_rows e.1 (sort_unique_offsets e.2) r.
Definition add_address (r : gmap Z (list Z)) (b : Z) : gmap Z (list Z) := push_rows (u32 (Z.shiftr b 32)) [u32 b] r.

Definition add_addresses (s : RowSet) (addrs : list Z) : RowSet :=
  match group_addresses addrs 0 [] with
  | Some by_fragment => with_rows s (foldl add_fragment (rows s) by_fragment)
  | None => with_rows s (foldl add_address (rows s) (sort_unique addrs))
  end.

(** ** Union and intersection *)

(** [std::set_union] and [std::set_intersection]. *)
Fixpoint unite (a : list Z) : list Z -> list Z :=
  match a with
  | [] => fun b => b
  | x :: a' =>
      fix go (b : list Z) : list Z :=
        match b with
        | [] => a
        | y :: b' => if x <? y then x :: unite a' b else if y <? x then y :: go b' else x :: unite a' b'
        end
  end.

Fixpoint intersect (a : list Z) : list Z -> list Z :=
  match a with
  | [] => fun _ => []
  | x :: a' =>
      fix go (b : list Z) : list Z :=
        match b with
        | [] => []
        | y :: b' => if x <? y then intersect a' b else if y <? x then go b' else x :: intersect a' b'
        end
  end.

Definition add_nonempty (f : Z) (l : list Z) (r : gmap Z (list Z)) : gmap Z (list Z) :=
  match l with [] => r | _ => <[f := l]> r end.

Definition both_rows (a b : RowSet) (f : Z) : list Z :=
  let in_a := bool_decide (f ∈ covered a) in
  let in_b := bool_decide (f ∈ covered b) in
  if in_a && in_b then intersect (rows_of a f) (rows_of b f) else if in_a then rows_of a f else rows_of b f.

Definition both (a b : RowSet) : RowSet :=
  let c := covered a ∪ covered b in
  mkRowSet c (foldr (fun f r => add_nonempty f (both_rows a b f) r) ∅ (elements c))
    (exact a && exact b && bool_decide (covered a = covered b)).

Definition either (a b : RowSet) : RowSet :=
  let c := covered a ∩ covered b in
  mkRowSet c (foldr (fun f r => add_nonempty f (unite (rows_of a f) (rows_of b f)) r) ∅ (elements c)) (exact a && exact b).

(** ** Serialized addresses *)

(** [read_treemap]: the fragments from one on. A fragment with no bitmap is all of its rows. *)
Fixpoint read_fragments (count : nat) (at_ : list Z) (physical : gmap Z Z) (r : gmap Z (list Z)) : res (gmap Z (list Z)) :=
  match count with
  | O => Ok r
  | S count =>
      if zlen at_ <? 8 then Err "row bitmap is truncated"
      else
        let frag := le_value (take 4 at_) in
        let bytes := le_value (take 4 (drop 4 at_)) in
        let at_ := drop 8 at_ in
        if zlen at_ <? bytes then Err "row bitmap is truncated"
        else
          offsets ← (if bytes =? 0 then Ok (u32 <$> seqZ 0 (default 0 (physical !! frag)))
                     else Roaring.decode (take (Z.to_nat bytes) at_));
          let to := default [] (r !! frag) in
          let to := match to with [] => offsets | _ => unite to offsets end in
          read_fragments count (drop (Z.to_nat bytes) at_) physical (<[frag := to]> r)
  end.

Definition read_treemap (data : list Z) (physical : gmap Z Z) (into : RowSet) : res RowSet :=
  if zlen data <? 4 then Err "row bitmap is truncated"
  else
    r ← read_fragments (Z.to_nat (le_value (take 4 data))) (drop 4 data) physical (rows into);
    Ok (with_rows into r).

(** [serialize_treemap]: sorted if they are not, then one entry per fragment. *)
Definition is_sorted (l : list Z) : bool := bool_decide (StronglySorted Z.le l).
Definition fragment_of (a : Z) : Z := u32 (Z.shiftr a 32).

Definition fragment_entry (g : list Z) : list Z :=
  let bitmap := Roaring.encode (unique (u32 <$> g)) in
  le_bytes 4 (fragment_of (nth 0 g 0)) ++ le_bytes 4 (u32 (zlen bitmap)) ++ bitmap.

Definition serialize_treemap (addrs : list Z) : list Z :=
  let addrs := if is_sorted addrs then addrs else merge_sort Z.le addrs in
  let groups := group_by fragment_of addrs in
  le_bytes 4 (u32 (zlen groups)) ++ concat (fragment_entry <$> groups).

(** ** Draining a word *)

(** [word &= word - 1] clears the lowest bit set. *)
Lemma clear_lowest p i :
  0 <= i -> Z.testbit (Z.land (Zpos p) (Zpos p - 1)) i = Z.testbit (Zpos p) i && negb (i =? ctz_pos p).
Proof.
  revert i. induction p as [p IH|p IH|]; intros i Hi; cbn [ctz_pos].
  - replace (Zpos p~1 - 1) with (2 * Zpos p + 0) by lia. replace (Zpos p~1) with (2 * Zpos p + 1) by lia.
    rewrite Z.land_spec. destruct (Z.eqb_spec i 0) as [->|]; [by rewrite Z.add_0_r, Z.testbit_even_0, andb_false_r|].
    replace i with (Z.succ (i - 1)) by lia. rewrite Z.add_0_r, Z.testbit_odd_succ, Z.testbit_even_succ by lia.
    by rewrite andb_diag, andb_true_r.
  - replace (Zpos p~0 - 1) with (2 * (Zpos p - 1) + 1) by lia. replace (Zpos p~0) with (2 * Zpos p) by lia.
    rewrite Z.land_spec. destruct (Z.eqb_spec i 0) as [->|]; [by rewrite Z.testbit_even_0|].
    replace i with (Z.succ (i - 1)) by lia. rewrite Z.testbit_odd_succ, Z.testbit_even_succ by lia.
    rewrite <- Z.land_spec, IH by lia. do 2 f_equal. apply Bool.eq_iff_eq_true. rewrite !Z.eqb_eq. lia.
  - change (1 - 1) with 0. rewrite Z.land_0_r, Z.testbit_0_l. destruct (Z.eqb_spec i 0) as [->|]; [done|].
    cbn [negb]. rewrite andb_true_r. symmetry. apply Z.bits_above_log2; cbn; lia.
Qed.

(** [countr_zero] is the lowest bit set. *)
Lemma ctz_lowest p : 0 <= ctz_pos p /\ Z.testbit (Zpos p) (ctz_pos p) = true /\ forall i, 0 <= i < ctz_pos p -> Z.testbit (Zpos p) i = false.
Proof.
  induction p as [p IH|p (H0 & H1 & H2)|]; cbn [ctz_pos]; [split_and!; [lia|done|lia] | |split_and!; [lia|done|lia]].
  replace (Zpos p~0) with (2 * Zpos p) by lia. split_and!; [lia | |].
  - replace (1 + ctz_pos p) with (Z.succ (ctz_pos p)) by lia. by rewrite Z.testbit_even_succ.
  - intros i Hi. destruct (Z.eqb_spec i 0) as [->|]; [by rewrite Z.testbit_even_0|].
    replace i with (Z.succ (i - 1)) by lia. rewrite Z.testbit_even_succ by lia. apply H2. lia.
Qed.

(** The loop yields the bits of a word, ascending, when there are as many rounds as bits can be left. *)
Lemma drain_spec fuel w :
  is_u64 w -> (forall i, 0 <= i < 64 - Z.of_nat fuel -> Z.testbit w i = false) ->
  ascending (drain fuel w) /\ forall x, x ∈ drain fuel w <-> 0 <= x < 64 /\ Z.testbit w x = true.
Proof.
  revert w. induction fuel as [|fuel IH]; intros w Hw Hlow.
  - cbn. split; [constructor|]. intros x. split; [by intros ?%not_elem_of_nil|]. intros [Hx E].
    rewrite Hlow in E by lia. done.
  - cbn [drain]. destruct (Z.eqb_spec w 0) as [->|].
    { split; [constructor|]. intros x. rewrite Z.testbit_0_l. split; [by intros ?%not_elem_of_nil | by intros []]. }
    destruct w as [|p|p]; [done | | unfold is_u64 in Hw; lia]. cbn [countr_zero].
    assert (u64 (Zpos p - 1) = Zpos p - 1) as -> by (apply wrap_small; unfold is_u64 in *; lia).
    destruct (ctz_lowest p) as (K0 & K1 & K2).
    assert (64 - Z.of_nat (S fuel) <= ctz_pos p) as Hk.
    { destruct (Z.le_gt_cases (64 - Z.of_nat (S fuel)) (ctz_pos p)) as [|Hlt]; [done|].
      rewrite Hlow in K1 by lia. done. }
    assert (ctz_pos p < 64) as Hk'.
    { destruct (Z.lt_ge_cases (ctz_pos p) 64) as [|Hge]; [done|].
      rewrite Z.bits_above_log2 in K1; [done|lia|]. apply Z.log2_lt_pow2; [lia|]. unfold is_u64 in Hw.
      pose proof (Z.pow_le_mono_r 2 64 (ctz_pos p) ltac:(lia) Hge). lia. }
    destruct (IH (Z.land (Zpos p) (Zpos p - 1))) as [IH1 IH2].
    + unfold is_u64 in *. split; [apply Z.land_nonneg; lia|].
      apply Z.bounded_iff_bits_nonneg; [lia | apply Z.land_nonneg; lia|]. intros l Hl. rewrite Z.land_spec.
      by rewrite (proj1 (Z.bounded_iff_bits_nonneg 64 (Zpos p) ltac:(lia) ltac:(lia)) ltac:(lia)) by lia.
    + intros i Hi. rewrite clear_lowest by lia. destruct (Z.eqb_spec i (ctz_pos p)) as [->|]; [apply andb_false_r|].
      rewrite K2 by lia. done.
    + split.
      * apply ascending_cons. split; [done|]. apply Forall_forall. intros x [Hx Hb]%IH2.
        rewrite clear_lowest in Hb by lia. apply andb_true_iff in Hb as [Hb Hne%negb_true_iff%Z.eqb_neq].
        destruct (Z.lt_total (ctz_pos p) x) as [|[|]]; [done|lia|]. rewrite K2 in Hb by lia. done.
      * intros x. rewrite elem_of_cons, IH2. split.
        -- intros [->|[Hx Hb]]; [split; [lia|done]|]. split; [done|]. rewrite clear_lowest in Hb by lia.
           by apply andb_true_iff in Hb as [? _].
        -- intros [Hx Hb]. destruct (Z.eqb_spec x (ctz_pos p)) as [|Hne]; [by left|]. right. split; [done|].
           rewrite clear_lowest, Hb by lia. by apply Z.eqb_neq in Hne as ->.
Qed.

(** ** The bitset *)

#[local] Opaque drain.

Definition words_ok : list Z -> Prop := Forall is_u64.
Definition word_bit (bits : list Z) (d : Z) : bool := Z.testbit (nth (Z.to_nat (d / 64)) bits 0) (d mod 64).

Lemma set_bit64_spec base bits o d :
  0 <= u32 (o - base) < 64 * zlen bits -> 0 <= d < 64 * zlen bits ->
  word_bit (set_bit64 base bits o) d = word_bit bits d || (d =? u32 (o - base)).
Proof.
  unfold word_bit, set_bit64, zlen. set (e := u32 (o - base)). clearbody e. intros He Hd.
  rewrite Roaring.nth_insert by dlia. case_decide as E.
  - rewrite <- E, Z.lor_spec. f_equal. unfold u64, wrap. rewrite Z.mod_pow2_bits_low by dlia.
    rewrite Z.shiftl_1_l, Z.pow2_bits_eqb by dlia. apply Z2Nat.inj in E; [|dlia|dlia].
    destruct (Z.eqb_spec (e mod 64) (d mod 64)), (Z.eqb_spec d e); try done; exfalso; dlia.
  - destruct (Z.eqb_spec d e) as [->|]; [done|]. by rewrite orb_false_r.
Qed.

Lemma set_bit64_ok base bits o : words_ok bits -> words_ok (set_bit64 base bits o).
Proof.
  intros H. apply Forall_insert; [done|]. unfold is_u64.
  assert (is_u64 (nth (Z.to_nat (u32 (o - base) / 64)) bits 0)) as Hn.
  { rewrite nth_lookup. destruct (bits !! _) eqn:E; cbn; [by eapply Forall_lookup_1 | unfold is_u64; lia]. }
  apply lor_bound; [lia | done | apply u64_range].
Qed.

Lemma foldl_set_bit64 base offsets bits :
  words_ok bits -> (forall o, o ∈ offsets -> 0 <= u32 (o - base) < 64 * zlen bits) ->
  words_ok (foldl (set_bit64 base) bits offsets) /\ zlen (foldl (set_bit64 base) bits offsets) = zlen bits /\
  forall d, 0 <= d < 64 * zlen bits ->
    word_bit (foldl (set_bit64 base) bits offsets) d = true <-> word_bit bits d = true \/ exists o, o ∈ offsets /\ u32 (o - base) = d.
Proof.
  revert bits. induction offsets as [|x l IH]; intros bits Hok Hin; cbn [foldl].
  - split_and!; [done..|]. intros d _. split; [auto | intros [?|(? & ?%not_elem_of_nil & _)]; done].
  - assert (zlen (set_bit64 base bits x) = zlen bits) as Hl by (unfold zlen, set_bit64; by rewrite length_insert).
    destruct (IH (set_bit64 base bits x)) as (H1 & H2 & H3); [by apply set_bit64_ok | |].
    { intros o Ho. rewrite Hl. apply Hin. by right. }
    split_and!; [done | by rewrite H2, Hl |]. intros d Hd. rewrite H3 by (by rewrite Hl).
    rewrite set_bit64_spec by (done || (apply Hin; by left)). rewrite orb_true_iff, Z.eqb_eq.
    setoid_rewrite elem_of_cons. split; [intros [[?|?]|(y & ? & ?)]; eauto | intros [?|(y & [->|?] & ?)]; eauto].
Qed.

(** The bits of the words from one on, in order: [w] is the first word's place. *)
Lemma words_offsets base bits (f : nat -> Z -> list Z) w :
  words_ok bits -> 0 <= base ->
  (forall i word, f i word = (fun c => base + (Z.of_nat (w + i) * 64) + c) <$> drain 64 word) ->
  ascending (concat (imap f bits)) /\
  forall x, x ∈ concat (imap f bits) <->
    exists d, x = base + Z.of_nat w * 64 + d /\ 0 <= d < 64 * zlen bits /\ word_bit bits d = true.
Proof.
  intros Hok Hb. revert f w Hok. induction bits as [|b bits IH]; intros f w Hok Hf.
  { cbn. split; [constructor|]. intros x. split; [by intros ?%not_elem_of_nil | intros (d & _ & Hd & _); unfold zlen in Hd; cbn in Hd; lia]. }
  rewrite imap_cons. cbn [concat]. rewrite Hf. apply Forall_cons in Hok as [Hw Hok].
  destruct (drain_spec 64 b Hw) as [D1 D2]; [intros; lia|].
  destruct (IH (f ∘ S) (S w) Hok) as [I1 I2].
  { intros i word. change ((f ∘ S) i word) with (f (S i) word). rewrite Hf. apply list_fmap_ext. intros. f_equal. lia. }
  assert (forall x, x ∈ (fun c => base + Z.of_nat (w + 0) * 64 + c) <$> drain 64 b <->
    exists d, x = base + Z.of_nat w * 64 + d /\ 0 <= d < 64 /\ Z.testbit b d = true) as Hx.
  { intros x. rewrite list_elem_of_fmap. split.
    - intros (d & -> & [? ?]%D2). exists d. split_and!; [lia|lia|lia|done].
    - intros (d & -> & ? & ?). exists d. split; [lia|]. apply D2. done. }
  split.
  - apply ascending_app. split_and!; [|done|].
    + apply ascending_map; [intros; lia | done].
    + intros x y (d & -> & ? & _)%Hx (e & -> & ? & _)%I2. lia.
  - intros x. rewrite elem_of_app, Hx, I2. unfold word_bit, zlen. cbn [length]. split.
    + intros [(d & -> & ? & E)|(d & -> & ? & E)]; [exists d | exists (64 + d)]; split_and!; try lia.
      * rewrite Z.div_small, Z.mod_small by lia. done.
      * replace ((64 + d) / 64) with (1 + d / 64) by dlia. replace ((64 + d) mod 64) with (d mod 64) by dlia.
        rewrite Z2Nat.inj_add by dlia. done.
    + intros (d & -> & ? & E). destruct (Z.lt_ge_cases d 64) as [Hd|Hd].
      * left. exists d. rewrite Z.div_small, Z.mod_small in E by lia. split_and!; [done|lia|lia|done].
      * right. exists (d - 64). split_and!; [lia|lia|lia|].
        replace (d / 64) with (1 + (d - 64) / 64) in E by dlia. replace (d mod 64) with ((d - 64) mod 64) in E by dlia.
        rewrite Z2Nat.inj_add in E by dlia. done.
Qed.

Lemma min_of_le l x : x ∈ l -> min_of l <= x.
Proof.
  unfold min_of. generalize (nth 0 l 0). intros d. induction l as [|y l IH]; [by intros ?%not_elem_of_nil|].
  cbn [foldr]. intros [->|?%IH]%elem_of_cons; lia.
Qed.

Lemma max_of_ge l x : x ∈ l -> x <= max_of l.
Proof.
  unfold max_of. generalize (nth 0 l 0). intros d. induction l as [|y l IH]; [by intros ?%not_elem_of_nil|].
  cbn [foldr]. intros [->|?%IH]%elem_of_cons; lia.
Qed.

Lemma foldr_elem (g : Z -> Z -> Z) d l : (forall a b, g a b = a \/ g a b = b) -> foldr g d l = d \/ foldr g d l ∈ l.
Proof.
  intros Hg. induction l as [|y l IH]; [by left|]. cbn [foldr]. rewrite elem_of_cons.
  destruct (Hg y (foldr g d l)) as [-> | ->]; [by right; left | destruct IH; auto].
Qed.

Lemma min_of_elem l : l <> [] -> min_of l ∈ l.
Proof.
  destruct l as [|x l]; [done|]. intros _. unfold min_of. destruct (foldr_elem Z.min (nth 0 (x :: l) 0) (x :: l)) as [->|?];
    [lia | by left | done].
Qed.

Lemma max_of_elem l : l <> [] -> max_of l ∈ l.
Proof.
  destruct l as [|x l]; [done|]. intros _. unfold max_of. destruct (foldr_elem Z.max (nth 0 (x :: l) 0) (x :: l)) as [->|?];
    [lia | by left | done].
Qed.

Lemma bitset_offsets_spec offsets :
  offsets <> [] -> Forall is_u32 offsets ->
  let base := min_of offsets in
  let out := bitset_offsets base (max_of offsets - base + 1) offsets in
  ascending out /\ forall x, x ∈ out <-> x ∈ offsets.
Proof.
  intros Hne Hu base out. rewrite Forall_forall in Hu.
  pose proof (Hu _ (min_of_elem _ Hne)) as Hmin. pose proof (Hu _ (max_of_elem _ Hne)) as Hmax.
  fold base in Hmin. set (top := max_of offsets) in *. unfold is_u32 in *.
  assert (forall o, o ∈ offsets -> base <= o <= top) as Hin.
  { intros o Ho. split; [by apply min_of_le | by apply max_of_ge]. }
  assert (base <= top) as Hle by (apply (Hin top), max_of_elem; done).
  assert (forall o, o ∈ offsets -> u32 (o - base) = o - base) as Hd.
  { intros o Ho. specialize (Hin o Ho). apply u32_small. unfold is_u32. lia. }
  set (n := Z.to_nat ((top - base + 1 + 63) / 64)). set (zero := replicate n 0).
  assert (zlen zero = (top - base + 1 + 63) / 64) as Hz by (unfold zlen, zero; rewrite length_replicate; unfold n; dlia).
  destruct (foldl_set_bit64 base offsets zero) as (F1 & F2 & F3).
  { apply Forall_replicate. unfold is_u64. lia. }
  { intros o Ho. rewrite Hd, Hz by done. specialize (Hin o Ho). dlia. }
  set (bits := foldl (set_bit64 base) zero offsets) in *.
  assert (forall d, 0 <= d < 64 * zlen bits -> word_bit bits d = true <-> base + d ∈ offsets) as Hbit.
  { intros d Hdd. rewrite F3 by lia. split.
    - intros [E|(o & Ho & E)]; [|rewrite Hd in E by done; by replace (base + d) with o by lia].
      unfold word_bit, zero in E. rewrite nth_lookup in E.
      destruct (replicate n 0 !! _) eqn:R in E; cbn in E; [apply lookup_replicate in R as [-> _]|]; by rewrite Z.bits_0 in E.
    - intros Ho. right. exists (base + d). split; [done|]. rewrite Hd by done. lia. }
  assert (out = concat (imap (fun w word => (fun c => base + Z.of_nat (0 + w) * 64 + c) <$> drain 64 word) bits)) as ->.
  { unfold out, bitset_offsets. fold bits. f_equal. apply imap_ext. intros i word Hi. apply list_fmap_ext. intros j c Hc.
    apply list_elem_of_lookup_2 in Hc. pose proof (lookup_lt_Some _ _ _ Hi) as Hlt.
    destruct (drain_spec 64 word) as [_ Hdr]; [by eapply Forall_lookup_1 | intros; lia |]. apply Hdr in Hc as [Hc1 Hc2].
    assert (base + (Z.of_nat i * 64 + c) ∈ offsets) as Hel.
    { apply Hbit; [unfold zlen; lia|]. unfold word_bit. replace ((Z.of_nat i * 64 + c) / 64) with (Z.of_nat i) by dlia.
      replace ((Z.of_nat i * 64 + c) mod 64) with c by dlia. rewrite Nat2Z.id, nth_lookup, Hi. done. }
    apply Hu in Hel. rewrite (u32_small (Z.of_nat i * 64)) by (unfold is_u32; lia).
    rewrite (u32_small (base + _)) by (unfold is_u32; lia). rewrite u32_small by (unfold is_u32; lia). cbn [Nat.add]. lia. }
  destruct (words_offsets base bits (fun w word => (fun c => base + Z.of_nat (0 + w) * 64 + c) <$> drain 64 word) 0) as [W1 W2];
    [done | lia | done |].
  split; [done|]. intros x. rewrite W2. split.
  - intros (d & -> & ? & E). apply Hbit in E; [|done]. by replace (base + Z.of_nat 0 * 64 + d) with (base + d) by lia.
  - intros Hx. exists (x - base). specialize (Hin x Hx). split_and!; [lia | lia | dlia |]. apply Hbit; [dlia|].
    by replace (base + (x - base)) with x by lia.
Qed.

Lemma sort_unique_offsets_eq offsets : Forall is_u32 offsets -> sort_unique_offsets offsets = sort_unique offsets.
Proof.
  intros Hu. unfold sort_unique_offsets. destruct (Z.ltb_spec (zlen offsets) 64) as [|Hn]; [done|]. cbv zeta.
  destruct (_ <? _); [done|]. destruct (sort_unique_spec offsets) as [S1 S2].
  destruct (bitset_offsets_spec offsets) as [B1 B2]; [intros ->; unfold zlen in Hn; cbn in Hn; lia | done |].
  apply ascending_ext; [done..|]. intros x. by rewrite B2, S2.
Qed.

(** ** Addresses by fragment *)

(** The offsets [by_fragment] holds for a fragment. *)
Fixpoint collected (by_fragment : list (Z * list Z)) (f : Z) : list Z :=
  match by_fragment with
  | [] => []
  | (g, l) :: rest => (if g =? f then l else []) ++ collected rest f
  end.

Lemma collected_absent by_fragment f : f ∉ by_fragment.*1 -> collected by_fragment f = [].
Proof.
  induction by_fragment as [|[g l] rest IH]; [done|]. cbn. intros [Hne Hn]%not_elem_of_cons.
  destruct (Z.eqb_spec g f); [congruence | by rewrite IH].
Qed.

Lemma find_fragment_spec fragment by_fragment :
  (find_fragment fragment by_fragment = length by_fragment /\ fragment ∉ by_fragment.*1) \/
  exists l, by_fragment !! find_fragment fragment by_fragment = Some (fragment, l).
Proof.
  induction by_fragment as [|[g l] rest IH]; cbn; [left; split; [done | apply not_elem_of_nil]|].
  destruct (Z.eqb_spec g fragment) as [->|Hne]; [right; by exists l|].
  destruct IH as [[-> ?]|[l' ?]]; [left; split; [done | by apply not_elem_of_cons] | right; by exists l'].
Qed.

Lemma append_at_spec k offset by_fragment f l :
  by_fragment !! k = Some (f, l) -> NoDup by_fragment.*1 ->
  (append_at k offset by_fragment).*1 = by_fragment.*1 /\
  forall g, collected (append_at k offset by_fragment) g = collected by_fragment g ++ (if f =? g then [offset] else []).
Proof.
  revert k. induction by_fragment as [|[f' l'] rest IH]; intros k; [done|]. cbn [fmap list_fmap].
  intros Hk [Hn Hd]%NoDup_cons. destruct k as [|k]; cbn in Hk.
  - injection Hk as -> ->. split; [done|]. intros g. cbn. destruct (Z.eqb_spec f g) as [->|]; [|by rewrite app_nil_r].
    by rewrite collected_absent, !app_nil_r.
  - destruct (IH k Hk Hd) as [I1 I2]. cbn. split; [f_equal; apply I1|]. intros g. by rewrite I2, app_assoc.
Qed.

Lemma group_addresses_spec addrs at_ by_fragment out :
  NoDup by_fragment.*1 -> group_addresses addrs at_ by_fragment = Some out ->
  NoDup out.*1 /\
  forall f, collected out f = collected by_fragment f ++ (u32 <$> filter (fun a => fragment_of a = f) addrs).
Proof.
  revert at_ by_fragment. induction addrs as [|a addrs IH]; intros at_ by_fragment Hd; cbn [group_addresses].
  { intros [= <-]. split; [done|]. intros. by rewrite app_nil_r. }
  set (fr := u32 (Z.shiftr a 32)). cbv zeta.
  set (k := if match by_fragment !! at_ with Some (f, _) => f =? fr | None => false end then at_ else find_fragment fr by_fragment).
  assert ((k = length by_fragment /\ fr ∉ by_fragment.*1) \/ exists l, by_fragment !! k = Some (fr, l)) as Hk.
  { unfold k. destruct (by_fragment !! at_) as [[g l]|] eqn:E; [|apply find_fragment_spec].
    destruct (Z.eqb_spec g fr) as [->|]; [right; by exists l | apply find_fragment_spec]. }
  clearbody k. destruct (_ && _); [done|]. intros Hg.
  set (by' := if bool_decide (k = length by_fragment) then by_fragment ++ [(fr, [])] else by_fragment) in Hg.
  assert (NoDup by'.*1 /\ (exists l, by' !! k = Some (fr, l)) /\ forall f, collected by' f = collected by_fragment f) as (Hd' & [l Hl] & Hc).
  { unfold by'. case_bool_decide as E.
    - destruct Hk as [[_ Hn]|[l Hl]]; [|apply lookup_lt_Some in Hl; lia]. split_and!.
      + rewrite fmap_app. apply NoDup_app. split_and!; [done | | cbn; apply NoDup_singleton].
        cbn. intros x Hx ->%list_elem_of_singleton. done.
      + exists []. rewrite lookup_app_r by lia. by rewrite E, Nat.sub_diag.
      + intros f. clear. induction by_fragment as [|[g l] rest IH]; cbn; [by destruct (_ =? _)|]. by rewrite IH.
    - destruct Hk as [[? _]|?]; done. }
  destruct (append_at_spec k (u32 a) by' fr l Hl Hd') as [A1 A2].
  apply IH in Hg as [G1 G2]; [|by rewrite A1]. split; [done|]. intros f. rewrite G2, A2, Hc, filter_cons, <- app_assoc.
  f_equal. unfold fragment_of. fold fr. destruct (Z.eqb_spec fr f); case_decide; done.
Qed.

Lemma push_rows_spec f offsets r g :
  default [] (push_rows f offsets r !! g) = default [] (r !! g) ++ (if f =? g then offsets else []).
Proof.
  unfold push_rows. destruct (Z.eqb_spec f g) as [->|].
  - by rewrite lookup_insert_eq.
  - by rewrite lookup_insert_ne, app_nil_r.
Qed.

Lemma foldl_add_fragment by_fragment r f :
  NoDup by_fragment.*1 -> (forall g, Forall is_u32 (collected by_fragment g)) ->
  default [] (foldl add_fragment r by_fragment !! f) = default [] (r !! f) ++ sort_unique (collected by_fragment f).
Proof.
  revert r. induction by_fragment as [|[g l] rest IH]; intros r Hd Hu; [by rewrite app_nil_r|]. cbn [foldl].
  cbn [fmap list_fmap] in Hd. apply NoDup_cons in Hd as [Hn Hd]. cbn in Hn.
  rewrite IH; [|done|]. 2:{ intros h. specialize (Hu h). cbn in Hu. by apply Forall_app in Hu as [_ ?]. }
  unfold add_fragment at 1. cbn [fst snd]. rewrite push_rows_spec, <- app_assoc. f_equal. cbn [collected].
  specialize (Hu g). cbn in Hu. rewrite Z.eqb_refl in Hu. apply Forall_app in Hu as [Hu _].
  destruct (Z.eqb_spec g f) as [->|]; [|done]. rewrite collected_absent, app_nil_r by done.
  by rewrite sort_unique_offsets_eq, app_nil_r.
Qed.

Lemma foldl_add_address addrs r f :
  default [] (foldl add_address r addrs !! f) = default [] (r !! f) ++ (u32 <$> filter (fun a => fragment_of a = f) addrs).
Proof.
  revert r. induction addrs as [|a addrs IH]; intros r; [by rewrite app_nil_r|]. cbn [foldl].
  rewrite IH. unfold add_address at 1. rewrite push_rows_spec, <- app_assoc, filter_cons. f_equal.
  fold (fragment_of a). destruct (Z.eqb_spec (fragment_of a) f); case_decide; done.
Qed.

(** The offset of an address within its fragment keeps the order of addresses. *)
Lemma address_order a b : is_u64 a -> is_u64 b -> fragment_of a = fragment_of b -> a < b -> u32 a < u32 b.
Proof.
  unfold is_u64, fragment_of, u32, wrap. rewrite !Z.shiftr_div_pow2 by lia. intros Ha Hb.
  rewrite !(Z.mod_small (_ / _)) by dlia. change (2 ^ 32) with 4294967296. intros. dlia.
Qed.

Lemma add_addresses_rows s addrs f :
  Forall is_u64 addrs ->
  rows_of (add_addresses s addrs) f = rows_of s f ++ sort_unique (u32 <$> filter (fun a => fragment_of a = f) addrs).
Proof.
  intros Hu. unfold rows_of, add_addresses. destruct (group_addresses addrs 0 []) as [out|] eqn:E; cbn [rows with_rows].
  - apply group_addresses_spec in E as [Hd Hc]; [|constructor]. cbn in Hc.
    rewrite foldl_add_fragment; [by rewrite Hc | done |]. intros g. rewrite Hc. apply Forall_fmap, Forall_true. intros. apply u32_range.
  - rewrite foldl_add_address. f_equal. destruct (sort_unique_spec addrs) as [A1 A2].
    destruct (sort_unique_spec (u32 <$> filter (fun a => fragment_of a = f) addrs)) as [B1 B2]. rewrite Forall_forall in Hu.
    apply ascending_ext; [|done|].
    + apply ascending_map; [|by apply ascending_filter]. intros x y [Hx ?%A2]%list_elem_of_filter [Hy ?%A2]%list_elem_of_filter.
      apply address_order; [by apply Hu.. | congruence].
    + intros x. rewrite B2, !list_elem_of_fmap. setoid_rewrite list_elem_of_filter. by setoid_rewrite A2.
Qed.

(** ** Union and intersection of ascending lists *)

Lemma unite_spec a b : ascending a -> ascending b -> ascending (unite a b) /\ forall x, x ∈ unite a b <-> x ∈ a \/ x ∈ b.
Proof.
  revert b. induction a as [|x a IHa]; intros b Ha Hb.
  { cbn. split; [done|]. intros. rewrite elem_of_nil. tauto. }
  induction b as [|y b IHb]; [split; [done|]; intros; cbn; rewrite elem_of_nil; tauto|].
  pose proof Ha as [Ha' Hx]%ascending_cons. pose proof Hb as [Hb' Hy]%ascending_cons. rewrite Forall_forall in Hx, Hy.
  cbn [unite]. destruct (Z.ltb_spec x y) as [Hlt|Hge]; [|destruct (Z.ltb_spec y x) as [Hlt|Hge']].
  - destruct (IHa (y :: b) Ha' Hb) as [I1 I2]. split.
    + apply ascending_cons. split; [done|]. apply Forall_forall. intros z [?|[->|?]%elem_of_cons]%I2; [auto|done|].
      specialize (Hy z). lia || (etrans; [done | auto]).
    + intros z. rewrite !elem_of_cons, I2, elem_of_cons. tauto.
  - destruct (IHb Hb') as [I1 I2]. cbn [unite] in I1, I2. split.
    + apply ascending_cons. split; [done|]. apply Forall_forall. intros z [[->|?]%elem_of_cons|?]%I2; [done | | auto].
      etrans; [done | auto].
    + intros z. rewrite (elem_of_cons _ _ y), I2, !elem_of_cons. tauto.
  - assert (y = x) as -> by lia. destruct (IHa b Ha' Hb') as [I1 I2]. split.
    + apply ascending_cons. split; [done|]. apply Forall_forall. intros z [?|?]%I2; auto.
    + intros z. rewrite !elem_of_cons, I2. tauto.
Qed.

Lemma intersect_spec a b : ascending a -> ascending b -> ascending (intersect a b) /\ forall x, x ∈ intersect a b <-> x ∈ a /\ x ∈ b.
Proof.
  revert b. induction a as [|x a IHa]; intros b Ha Hb.
  { cbn. split; [constructor|]. intros. rewrite elem_of_nil. tauto. }
  induction b as [|y b IHb]; [split; [constructor|]; intros; cbn; rewrite elem_of_nil; tauto|].
  pose proof Ha as [Ha' Hx]%ascending_cons. pose proof Hb as [Hb' Hy]%ascending_cons. rewrite Forall_forall in Hx, Hy.
  cbn [intersect]. destruct (Z.ltb_spec x y) as [Hlt|Hge]; [|destruct (Z.ltb_spec y x) as [Hlt|Hge']].
  - destruct (IHa (y :: b) Ha' Hb) as [I1 I2]. split; [done|]. intros z. rewrite I2, !elem_of_cons.
    split; [tauto|]. intros [[->|?] [->|Hz]]; [lia | | tauto..]. apply Hy in Hz. lia.
  - destruct (IHb Hb') as [I1 I2]. cbn [intersect] in I1, I2. split; [done|]. intros z. rewrite I2, !elem_of_cons.
    split; [tauto|]. intros [[->|Hz] [->|?]]; [lia | tauto | | tauto]. apply Hx in Hz. lia.
  - assert (y = x) as -> by lia. destruct (IHa b Ha' Hb') as [I1 I2]. split.
    + apply ascending_cons. split; [done|]. apply Forall_forall. intros z [? ?]%I2. auto.
    + intros z. rewrite !elem_of_cons, I2. split; [tauto|]. intros [[->|Hz] [E|Hz']]; subst; tauto.
Qed.

(** What a row set promises of the rows that match: for every fragment it covers, its rows are ascending, no
    row that must be there is missing, and an exact set has only rows that may be there. *)
Record answers (must may : Z -> Z -> Prop) (s : RowSet) : Prop := {
  answers_ascending : forall f, f ∈ covered s -> ascending (rows_of s f);
  answers_complete : forall f o, f ∈ covered s -> must f o -> o ∈ rows_of s f;
  answers_exact : exact s = true -> forall f o, f ∈ covered s -> o ∈ rows_of s f -> may f o }.

Lemma rows_of_foldr (g : Z -> list Z) (l : list Z) f :
  NoDup l -> default [] (foldr (fun f r => add_nonempty f (g f) r) ∅ l !! f) = if decide (f ∈ l) then g f else [].
Proof.
  induction l as [|x l IH]; intros Hd; [done|]. apply NoDup_cons in Hd as [Hn Hd]. cbn [foldr].
  unfold add_nonempty at 1. destruct (decide (f = x)) as [->|Hne].
  - rewrite decide_True by (by left). destruct (g x) as [|y k] eqn:E; [|by rewrite lookup_insert_eq].
    rewrite IH by done. by rewrite decide_False.
  - transitivity (default [] (foldr (fun f r => add_nonempty f (g f) r) ∅ l !! f)).
    { destruct (g x); [done|]. by rewrite lookup_insert_ne. }
    rewrite IH by done. apply decide_ext. rewrite elem_of_cons. tauto.
Qed.

Lemma rows_of_both a b f : f ∈ covered a ∪ covered b -> rows_of (both a b) f = both_rows a b f.
Proof.
  intros Hf. unfold rows_of at 1. cbn. rewrite rows_of_foldr by apply NoDup_elements. apply decide_True.
  by apply elem_of_elements.
Qed.

Lemma rows_of_either a b f : f ∈ covered a ∩ covered b -> rows_of (either a b) f = unite (rows_of a f) (rows_of b f).
Proof.
  intros Hf. unfold rows_of at 1. cbn. rewrite rows_of_foldr by apply NoDup_elements. apply decide_True.
  by apply elem_of_elements.
Qed.

Lemma both_answers m n m' n' a b : answers m m' a -> answers n n' b ->
  answers (fun f o => m f o /\ n f o) (fun f o => m' f o /\ n' f o) (both a b).
Proof.
  intros [A1 A2 A3] [B1 B2 B3]. split.
  - intros f Hf. rewrite rows_of_both by done. unfold both_rows. cbn in Hf. apply elem_of_union in Hf.
    repeat case_bool_decide; cbn; [by apply intersect_spec; auto | auto | auto | tauto].
  - intros f o Hf [? ?]. rewrite rows_of_both by done. unfold both_rows. cbn in Hf. apply elem_of_union in Hf.
    repeat case_bool_decide; cbn; [apply intersect_spec; auto | auto | apply B2; tauto..].
  - cbn. intros [[Ea Eb]%andb_true_iff E%bool_decide_eq_true]%andb_true_iff f o Hf.
    rewrite rows_of_both by done. unfold both_rows. rewrite <- E, bool_decide_true by set_solver. cbn.
    intros [? ?]%intersect_spec; [|apply A1; set_solver | apply B1; set_solver]. split; [apply A3 | apply B3]; set_solver.
Qed.

Lemma either_answers m n m' n' a b : answers m m' a -> answers n n' b ->
  answers (fun f o => m f o \/ n f o) (fun f o => m' f o \/ n' f o) (either a b).
Proof.
  intros [A1 A2 A3] [B1 B2 B3]. split.
  - intros f Hf. rewrite rows_of_either by done. cbn in Hf. apply elem_of_intersection in Hf as [? ?]. by apply unite_spec; auto.
  - intros f o Hf Ho. rewrite rows_of_either by done. cbn in Hf. apply elem_of_intersection in Hf as [? ?].
    apply unite_spec; [auto..|]. destruct Ho; [left | right]; auto.
  - cbn. intros [Ea Eb]%andb_true_iff f o Hf. rewrite rows_of_either by done. apply elem_of_intersection in Hf as [? ?].
    intros [?|?]%unite_spec; auto.
Qed.

(** ** Serialized addresses, read back *)

Lemma span_body_length g : zlen (Roaring.span_body g) <= 8192.
Proof.
  unfold Roaring.span_body, Roaring.kArrayMax, Roaring.kBitmapBytes. destruct (Z.leb_spec (zlen g) 4096) as [Hg|Hg].
  - assert (zlen (concat ((fun id => Roaring.put16 (Z.land id 65535)) <$> g)) = 2 * zlen g) as ->; [|lia].
    clear. induction g as [|x g IH]; [done|]. rewrite fmap_cons. cbn [concat]. rewrite zlen_app, IH, zlen_cons.
    change (zlen (Roaring.put16 (Z.land x 65535))) with 2. lia.
  - unfold zlen. rewrite Roaring.foldl_set_bit_length, length_replicate. lia.
Qed.

Lemma encode_length ids : ascending ids -> Forall is_u32 ids -> 0 < zlen (Roaring.encode ids) < 2 ^ 32.
Proof.
  intros Ha Hu. pose proof (Roaring.spans_length ids Ha Hu) as Hl. unfold Roaring.encode.
  generalize dependent (Roaring.spans ids). intros gs Hl. rewrite !zlen_app.
  assert (0 <= zlen (concat (Roaring.span_body <$> gs)) <= 8192 * zlen gs) as Hb.
  { clear. induction gs as [|g gs IH]; [done|]. rewrite fmap_cons. cbn [concat]. rewrite zlen_app, zlen_cons.
    pose proof (span_body_length g). pose proof (zlen_nonneg (Roaring.span_body g)). lia. }
  unfold zlen in *.
  rewrite !Roaring.length_put32, Roaring.length_headers, Roaring.length_span_offsets. lia.
Qed.

(** The addresses of one fragment, as [serialize_treemap] groups them. *)
Definition fragment_group (g : list Z) : Prop := one_key fragment_of g /\ StronglySorted Z.le g /\ Forall is_u64 g.

Lemma group_offsets g : fragment_group g -> ascending (unique (u32 <$> g)) /\ Forall is_u32 (unique (u32 <$> g)).
Proof.
  intros (Hk & Hs & Hu). split.
  - apply unique_sorted. assert (forall x y, x ∈ g -> y ∈ g -> fragment_of x = fragment_of y) as Hf.
    { destruct g as [|a g]; [done|]. cbn in Hk. rewrite Forall_forall in Hk. intros x y Hx%Hk Hy%Hk. congruence. }
    rewrite Forall_forall in Hu. clear Hk. induction Hs as [|x l Hl IH Hx]; [constructor|]. rewrite fmap_cons. constructor.
    + apply IH; intros; [apply Hu | apply Hf]; by right.
    + apply Forall_fmap. rewrite Forall_forall in Hx |- *. intros y Hy. cbn. specialize (Hx y Hy).
      destruct (decide (x = y)) as [->|]; [done|]. apply Z.lt_le_incl, address_order; try lia; try apply Hu; try apply Hf; by (left || right).
  - apply Forall_forall. intros x (y & -> & _)%unique_elem%list_elem_of_fmap. apply u32_range.
Qed.

Lemma read_entry physical count g rest r :
  fragment_group g -> ascending (default [] (r !! fragment_of (nth 0 g 0))) ->
  exists to, read_fragments (S count) (fragment_entry g ++ rest) physical r =
      read_fragments count rest physical (<[fragment_of (nth 0 g 0) := to]> r) /\ ascending to /\
    forall x, x ∈ to <-> x ∈ default [] (r !! fragment_of (nth 0 g 0)) \/ x ∈ u32 <$> g.
Proof.
  intros Hg Hr. destruct (group_offsets g Hg) as [Ga Gu]. pose proof (encode_length _ Ga Gu) as Hl.
  set (f := fragment_of (nth 0 g 0)) in *. assert (is_u32 f) as Hf by apply u32_range.
  cbn [read_fragments]. unfold fragment_entry. fold f. set (bitmap := Roaring.encode (unique (u32 <$> g))) in *.
  rewrite u32_small by (unfold is_u32; lia). rewrite <- !app_assoc.
  rewrite !zlen_app, !zlen_le_bytes. pose proof (zlen_nonneg rest).
  destruct (Z.ltb_spec (Z.of_nat 4 + (Z.of_nat 4 + (zlen bitmap + zlen rest))) 8); [lia|].
  replace (drop 8 (le_bytes 4 f ++ le_bytes 4 (zlen bitmap) ++ bitmap ++ rest)) with (bitmap ++ rest)
    by (rewrite app_assoc, drop_app_length'; [done | by rewrite length_app, !length_le_bytes]).
  rewrite take_app_length' by (by rewrite length_le_bytes). rewrite (drop_app_length' (le_bytes 4 f)) by (by rewrite length_le_bytes).
  rewrite take_app_length' by (by rewrite length_le_bytes). rewrite !le_value_le_bytes by (change (8 * Z.of_nat 4) with 32; unfold is_u32 in *; lia).
  rewrite zlen_app. destruct (Z.ltb_spec (zlen bitmap + zlen rest) (zlen bitmap)); [lia|].
  destruct (Z.eqb_spec (zlen bitmap) 0); [lia|].
  rewrite take_app_length', drop_app_length' by (unfold zlen; lia).
  unfold bitmap. rewrite (Roaring.roaring_codec _ (conj Ga Gu)). cbn [mbind res_bind].
  set (old := default [] (r !! f)) in *.
  exists (match old with [] => unique (u32 <$> g) | _ => unite old (unique (u32 <$> g)) end). split; [done|].
  destruct (unite_spec old (unique (u32 <$> g)) Hr Ga) as [U1 U2].
  destruct old as [|o old]; split; try done; intros x; [rewrite unique_elem, elem_of_nil; tauto | by rewrite U2, unique_elem].
Qed.

Lemma read_fragments_groups physical gs r :
  Forall fragment_group gs -> (forall f, ascending (default [] (r !! f))) ->
  exists r', read_fragments (length gs) (concat (fragment_entry <$> gs)) physical r = Ok r' /\
    forall f, ascending (default [] (r' !! f)) /\
      forall x, x ∈ default [] (r' !! f) <-> x ∈ default [] (r !! f) \/ exists a, a ∈ concat gs /\ fragment_of a = f /\ u32 a = x.
Proof.
  intros Hgs. revert r. induction Hgs as [|g gs Hg Hgs IH]; intros r Hr.
  { exists r. split; [done|]. intros f. split; [done|]. intros x. cbn. setoid_rewrite elem_of_nil. naive_solver. }
  rewrite fmap_cons. cbn [concat length]. destruct (read_entry physical (length gs) g (concat (fragment_entry <$> gs)) r Hg (Hr _)) as (to & -> & T1 & T2).
  destruct (IH (<[fragment_of (nth 0 g 0) := to]> r)) as (r' & E & Hr').
  { intros f. destruct (decide (fragment_of (nth 0 g 0) = f)) as [<-|]; [by rewrite lookup_insert_eq | by rewrite lookup_insert_ne]. }
  exists r'. split; [done|]. intros f. destruct (Hr' f) as [H1 H2]. split; [done|]. intros x. rewrite H2.
  assert (forall a, a ∈ g -> fragment_of a = fragment_of (nth 0 g 0)) as Hk.
  { destruct Hg as [Hk _]. destruct g as [|b g]; [done|]. cbn in Hk |- *. by rewrite Forall_forall in Hk. }
  setoid_rewrite elem_of_app. destruct (decide (fragment_of (nth 0 g 0) = f)) as [Ef|Ef].
  - rewrite Ef, lookup_insert_eq. cbn. rewrite T2, Ef, list_elem_of_fmap. split.
    + intros [[?|(a & -> & ?)]|(a & ? & ? & ?)]; [by left | right; exists a .. ]; split_and!; auto. rewrite Hk; done.
    + intros [?|(a & [?|?] & ? & ?)]; [auto | left; right; eauto | eauto].
  - rewrite lookup_insert_ne by done. split; [intros [?|(a & ? & ? & ?)]; eauto 6|].
    intros [?|(a & [Ha|?] & E' & ?)]; [auto | | eauto]. apply Hk in Ha. congruence.
Qed.

Lemma group_by_length key l : (length (group_by key l) <= length l)%nat.
Proof.
  induction l as [|x l IH]; [done|]. cbn. destruct (group_by key l) as [|[|y g] gs]; cbn in *; [lia..|].
  destruct (key x =? key y); cbn; lia.
Qed.

Lemma serialize_groups addrs :
  Forall is_u64 addrs ->
  let sorted := if is_sorted addrs then addrs else merge_sort Z.le addrs in
  Forall fragment_group (group_by fragment_of sorted) /\ forall x, x ∈ sorted <-> x ∈ addrs.
Proof.
  intros Hu sorted. assert (forall x, x ∈ sorted <-> x ∈ addrs) as Hin.
  { unfold sorted. destruct (is_sorted addrs); [done|]. intros x. by rewrite merge_sort_Permutation. }
  split; [|done]. assert (StronglySorted Z.le sorted) as Hs.
  { unfold sorted. destruct (is_sorted addrs) eqn:E; [by apply bool_decide_eq_true in E|].
    apply StronglySorted_merge_sort; [apply _ | intros x y; lia]. }
  assert (Forall is_u64 sorted) as Hu'. { rewrite Forall_forall in *. intros x Hx. by apply Hu, Hin. }
  clearbody sorted. pose proof (group_by_one_key fragment_of sorted) as Hk.
  rewrite <- (concat_group_by fragment_of sorted) in Hs, Hu'. apply Forall_concat_iff in Hu'.
  generalize dependent (group_by fragment_of sorted). clear. intros gs Hs Hu Hk.
  induction gs as [|g gs IH]; [constructor|]. cbn in Hs. apply Forall_cons in Hu as [? ?], Hk as [? ?].
  apply StronglySorted_app in Hs as (? & ? & ?). constructor; [done | auto].
Qed.

(** ** Properties *)

(** [read_treemap] reads back the addresses [serialize_treemap] wrote, in whatever order they
    came and however often: every fragment's rows are its offsets, ascending, each once, joined to the rows the
    set held before. *)
Theorem treemap_addresses_roundtrip addrs physical into :
  Forall is_u64 addrs -> zlen addrs < 2 ^ 32 -> (forall f, ascending (rows_of into f)) ->
  exists out, read_treemap (serialize_treemap addrs) physical into = Ok out /\
    covered out = covered into /\ exact out = exact into /\
    forall f, rows_of out f = sort_unique (rows_of into f ++ (u32 <$> filter (fun a => fragment_of a = f) addrs)).
Proof.
  intros Hu Hn Hr. destruct (serialize_groups addrs Hu) as [Hg Hin]. unfold read_treemap, serialize_treemap.
  set (sorted := if is_sorted addrs then addrs else merge_sort Z.le addrs) in *.
  assert (zlen (group_by fragment_of sorted) < 2 ^ 32) as Hl.
  { assert (length sorted = length addrs) as Hlen.
    { unfold sorted. destruct (is_sorted addrs); [done | by rewrite merge_sort_Permutation]. }
    pose proof (group_by_length fragment_of sorted). unfold zlen in *. lia. }
  pose proof (concat_group_by fragment_of sorted) as Hc. set (gs := group_by fragment_of sorted) in *.
  pose proof (zlen_nonneg gs). rewrite u32_small by (unfold is_u32; lia).
  rewrite zlen_app, zlen_le_bytes. pose proof (zlen_nonneg (concat (fragment_entry <$> gs))).
  destruct (Z.ltb_spec (Z.of_nat 4 + zlen (concat (fragment_entry <$> gs))) 4); [lia|].
  rewrite take_app_length', drop_app_length' by (by rewrite length_le_bytes).
  rewrite le_value_le_bytes by (change (8 * Z.of_nat 4) with 32; lia).
  replace (Z.to_nat (zlen gs)) with (length gs) by (unfold zlen; lia).
  destruct (read_fragments_groups physical gs (rows into) Hg Hr) as (r' & -> & Hr'). cbn [mbind res_bind].
  eexists. split_and!; [done..|]. intros f. destruct (Hr' f) as [R1 R2].
  destruct (sort_unique_spec (rows_of into f ++ (u32 <$> filter (fun a => fragment_of a = f) addrs))) as [S1 S2].
  apply ascending_ext; [done..|]. intros x. rewrite S2, elem_of_app, list_elem_of_fmap. unfold rows_of at 1. cbn [rows with_rows].
  rewrite R2, Hc. setoid_rewrite Hin. setoid_rewrite list_elem_of_filter. unfold rows_of.
  split; (intros [?|(a & ? & ? & ?)]; [by left | right; exists a; split_and!; congruence]).
Qed.

Lemma treemap_addresses_witness :
  exists out, read_treemap (serialize_treemap [8589934597; 3; 8589934597; 1]) ∅ RowSet0 = Ok out /\
    covered out = ∅ /\ exact out = false /\
    forall f, rows_of out f = sort_unique ([] ++ (u32 <$> filter (fun a => fragment_of a = f) [8589934597; 3; 8589934597; 1])).
Proof.
  apply (treemap_addresses_roundtrip [8589934597; 3; 8589934597; 1] ∅ RowSet0).
  - repeat constructor; unfold is_u64; lia.
  - done.
  - intros f. unfold rows_of. cbn. rewrite lookup_empty. constructor.
Defined.

(** C32: (refinement): row sets implement the sets of rows they stand for: [both] and [either] of answers to two
    conditions answer their conjunction and disjunction (no covered fragment loses a row that must match, an
    exact set holds only rows that may, and rows stay ascending), and [add_addresses] appends to every fragment exactly the
    offsets of its addresses, ascending, each once, by way of the bitset, the sort, or the sort of all
    addresses. *)
Theorem row_sets_are_sets :
  (forall m n m' n' a b, answers m m' a -> answers n n' b ->
     answers (fun f o => m f o /\ n f o) (fun f o => m' f o /\ n' f o) (both a b) /\
     answers (fun f o => m f o \/ n f o) (fun f o => m' f o \/ n' f o) (either a b)) /\
  (forall s addrs f, Forall is_u64 addrs ->
     rows_of (add_addresses s addrs) f = rows_of s f ++ sort_unique (u32 <$> filter (fun a => fragment_of a = f) addrs)).
Proof.
  split; [|apply add_addresses_rows]. intros m n m' n' a b Ha Hb. split; [by apply both_answers | by apply either_answers].
Qed.

End RowSets.
