(* ===== verification/StableSort.v ===== *)
(** * Sorting (src/index/scalar/scalar_index.cpp)

    The sorts a scalar index is built with: [std::stable_sort], the byte-wise radix sort with its counting
    passes, and the parallel merge sort. Each is shown to be the one stable order of its input. *)

From S2P Require Import Prelude.

Module StableSort.

(** ** Definitions *)

Section Sorts.
Context {T : Type}.

(** [std::stable_sort]: an element goes before the first later one it is not greater than. *)
Fixpoint insert_stable (lt : T -> T -> bool) (x : T) (l : list T) : list T :=
  match l with
  | [] => [x]
  | y :: l => if lt y x then y :: insert_stable lt x l else x :: y :: l
  end.
Definition stable_sort (lt : T -> T -> bool) (l : list T) : list T := foldr (insert_stable lt) [] l.

(** [std::is_sorted]. *)
Fixpoint is_sorted (lt : T -> T -> bool) (l : list T) : bool :=
  match l with
  | x :: ((y :: _) as l') => negb (lt y x) && is_sorted lt l'
  | _ => true
  end.

(** [std::merge]. *)
Fixpoint merge (lt : T -> T -> bool) (a : list T) : list T -> list T :=
  match a with
  | [] => fun b => b
  | x :: a' =>
      fix go (b : list T) : list T :=
        match b with
        | [] => a
        | y :: b' => if lt y x then y :: go b' else x :: merge lt a' b
        end
  end.

(** One element to its bucket's next place: [to[c[b]++] = e]. *)
Definition scatter_step (bucket : T -> nat) (s : list nat * list T) (e : T) : list nat * list T :=
  let b := bucket e in
  let p := nth b s.1 0%nat in
  (<[b := S p]> s.1, <[p := e]> s.2).
Definition scatter (bucket : T -> nat) (l : list T) (c : list nat) (to : list T) : list T :=
  (foldl (scatter_step bucket) (c, to) l).2.

(** How many elements each bucket gets, and where each starts: the counts before it. *)
Definition count (bucket : T -> nat) (l : list T) (b : nat) : nat := length (filter (fun e => bucket e = b) l).
Fixpoint running (at_ : nat) (counts : list nat) : list nat :=
  match counts with [] => [] | here :: counts => at_ :: running (at_ + here) counts end.

(** ** Radix sort *)

Definition key_byte (bits : T -> Z) (b : nat) (e : T) : nat := Z.to_nat (Z.land (Z.shiftr (bits e) (8 * Z.of_nat b)) 255).

(** The passes over bytes [b], [b + 1], ...; [counts b] as counted before the first of them. *)
Fixpoint radix_passes (bits : T -> Z) (counts : nat -> list nat) (n : nat) (passes b : nat) (from other : list T) : list T :=
  match passes with
  | O => from
  | S passes =>
      if existsb (Nat.eqb n) (counts b) then radix_passes bits counts n passes (S b) from other
      else radix_passes bits counts n passes (S b) (scatter (key_byte bits b) from (running 0 (counts b)) other) from
  end.

Definition byte_counts (bits : T -> Z) (v : list T) (b : nat) : list nat := count (key_byte bits b) v <$> seq 0 256.

Definition radix_sort (bits : T -> Z) (kBytes : nat) (v : list T) : list T :=
  let lt a b := bits a <? bits b in
  if (length v <? 2048)%nat then stable_sort lt v
  else if is_sorted lt v then v
  else radix_passes bits (byte_counts bits v) (length v) kBytes 0 v v.

(** ** Parallel sort *)

(** [while (parts * 2 <= threads && size / (parts * 2) >= 1 << 15) parts *= 2]: a doubling per round. *)
Fixpoint parts_of (rounds : nat) (threads size parts : nat) : nat :=
  match rounds with
  | O => parts
  | S rounds =>
      if ((parts * 2 <=? threads) && (2 ^ 15 <=? size / (parts * 2)))%nat then parts_of rounds threads size (parts * 2)
      else parts
  end.

(** The slices [bounds[p], bounds[p + 1]). *)
Definition bound (size parts p : nat) : nat := (size * p / parts)%nat.
Definition slice (v : list T) (parts p : nat) : list T :=
  let a := bound (length v) parts p in take (bound (length v) parts (S p) - a) (drop a v).

(** A round merges the slices two by two; [width] doubles until one is left. *)
Fixpoint merge_pairs (lt : T -> T -> bool) (slices : list (list T)) : list (list T) :=
  match slices with
  | a :: b :: rest => merge lt a b :: merge_pairs lt rest
  | _ => slices
  end.
Fixpoint merge_rounds (lt : T -> T -> bool) (rounds : nat) (slices : list (list T)) : list (list T) :=
  match rounds with
  | O => slices
  | S rounds => if (length slices <=? 1)%nat then slices else merge_rounds lt rounds (merge_pairs lt slices)
  end.

Definition parallel_sort (threads : nat) (lt : T -> T -> bool) (v : list T) : list T :=
  let parts := parts_of threads threads (length v) 1 in
  if (parts =? 1)%nat then stable_sort lt v
  else concat (merge_rounds lt parts (stable_sort lt <$> (slice v parts <$> seq 0 parts))).

(** ** The stable order *)

(** A strict weak order. *)
Class WeakOrder (lt : T -> T -> bool) : Prop := {
  wo_irrefl : forall x, lt x x = false;
  wo_trans : forall x y z, lt x y = true -> lt y z = true -> lt x z = true;
  wo_weak : forall x y z, lt x y = true -> lt x z = true \/ lt z y = true }.

Definition sorted (lt : T -> T -> bool) : list T -> Prop := StronglySorted (fun a b => lt b a = false).
Definition equiv (lt : T -> T -> bool) (x y : T) : bool := negb (lt x y) && negb (lt y x).

(** [l] rearranged so that elements that tie keep their order. *)
Definition stable_of (lt : T -> T -> bool) (l out : list T) : Prop :=
  sorted lt out /\ forall x, filter (equiv lt x) out = filter (equiv lt x) l.

Section Order.
Context (lt : T -> T -> bool) `{!WeakOrder lt}.

Lemma wo_asym x y : lt x y = true -> lt y x = false.
Proof.
  intros H. destruct (lt y x) eqn:E; [|done]. pose proof (wo_trans _ _ _ H E) as H'. by rewrite wo_irrefl in H'.
Qed.

Lemma wo_ge_trans x y z : lt y x = false -> lt z y = false -> lt z x = false.
Proof.
  intros H1 H2. destruct (lt z x) eqn:E; [|done]. destruct (wo_weak z x y E); congruence.
Qed.

Lemma equiv_refl x : equiv lt x x = true.
Proof. unfold equiv. by rewrite wo_irrefl. Qed.

Lemma equiv_sym x y : equiv lt x y = equiv lt y x.
Proof. apply andb_comm. Qed.

Lemma equiv_trans x y z : equiv lt x y = true -> equiv lt y z = true -> equiv lt x z = true.
Proof.
  unfold equiv. rewrite !andb_true_iff, !negb_true_iff. intros [? ?] [? ?]. split; eapply wo_ge_trans; eauto.
Qed.

Lemma in_class x (l : list T) : x ∈ l -> x ∈ filter (equiv lt x) l.
Proof. intros. apply list_elem_of_filter. split; [apply Is_true_true, equiv_refl | done]. Qed.

(** There is one stable order. *)
Lemma stable_unique l out out' : stable_of lt l out -> stable_of lt l out' -> out = out'.
Proof.
  intros [S1 C1] [S2 C2]. assert (forall x, filter (equiv lt x) out = filter (equiv lt x) out') as C by (intros z; by rewrite C1, C2).
  clear C1 C2. revert out' S2 C. induction S1 as [|x t S1 IH Hx]; intros out' S2 C.
  { destruct out' as [|y t']; [done|]. specialize (C y). pose proof (in_class y (y :: t') ltac:(by left)) as Hy.
    rewrite <- C in Hy. by apply elem_of_nil in Hy. }
  destruct S2 as [|y t' S2 Hy].
  { specialize (C x). pose proof (in_class x (x :: t) ltac:(by left)) as Hi. rewrite C in Hi. by apply elem_of_nil in Hi. }
  rewrite Forall_forall in Hx, Hy.
  assert (forall a b u u', (forall z, filter (equiv lt z) (a :: u) = filter (equiv lt z) (b :: u')) ->
    (forall z, z ∈ u' -> lt z b = false) -> lt a b = false) as Hmin.
  { intros a b u u' C' Hu. pose proof (in_class a (a :: u) ltac:(by left)) as Hi. rewrite C' in Hi.
    apply list_elem_of_filter in Hi as [_ [->|Hi]%elem_of_cons]; [apply wo_irrefl | auto]. }
  assert (equiv lt x y = true) as Exy.
  { unfold equiv. rewrite (Hmin x y t t'), (Hmin y x t' t); [done | | | |]; auto. }
  assert (x = y) as ->.
  { specialize (C x). rewrite !filter_cons in C. rewrite decide_True in C by (apply Is_true_true, equiv_refl).
    rewrite decide_True in C by (by apply Is_true_true). congruence. }
  f_equal. apply IH; [done|]. intros z. specialize (C z). rewrite !filter_cons in C. destruct (decide _); congruence.
Qed.

Lemma insert_stable_elem x (l : list T) y : y ∈ insert_stable lt x l <-> y = x \/ y ∈ l.
Proof.
  induction l as [|z l IH]; cbn; [by rewrite elem_of_cons|]. destruct (lt z x); rewrite !elem_of_cons; [|tauto].
  rewrite IH. tauto.
Qed.

Lemma insert_stable_sorted x l : sorted lt l -> sorted lt (insert_stable lt x l).
Proof.
  induction 1 as [|y l Hl IH Hy]; [repeat constructor|]. cbn. rewrite Forall_forall in Hy. destruct (lt y x) eqn:E.
  - constructor; [done|]. apply Forall_forall. intros z [->|?]%insert_stable_elem; [by apply wo_asym | auto].
  - constructor; [constructor; [done | by apply Forall_forall]|]. apply Forall_forall.
    intros z [->|Hz]%elem_of_cons; [done|]. eapply wo_ge_trans; eauto.
Qed.

Lemma insert_stable_class x l z : filter (equiv lt z) (insert_stable lt x l) = filter (equiv lt z) (x :: l).
Proof.
  induction l as [|y l IH]; [done|]. cbn [insert_stable]. destruct (lt y x) eqn:E; [|done].
  rewrite filter_cons, IH, !filter_cons. destruct (decide (equiv lt z y)) as [Hy|], (decide (equiv lt z x)) as [Hx|]; try done.
  exfalso. apply Is_true_true in Hy, Hx. rewrite equiv_sym in Hy. pose proof (equiv_trans _ _ _ Hy Hx) as H.
  unfold equiv in H. by rewrite E in H.
Qed.

Lemma stable_sort_spec l : stable_of lt l (stable_sort lt l).
Proof.
  induction l as [|x l [IH1 IH2]]; [split; [constructor | done]|]. split; [by apply insert_stable_sorted|].
  intros z. cbn. rewrite insert_stable_class, !filter_cons, IH2. done.
Qed.

Lemma sort_is_stable l out : stable_of lt l out -> out = stable_sort lt l.
Proof. intros. eapply stable_unique; [done | apply stable_sort_spec]. Qed.

Lemma stable_of_elem (l out : list T) x : stable_of lt l out -> x ∈ out <-> x ∈ l.
Proof.
  intros [_ C]. split; intros H%in_class; [rewrite C in H | rewrite <- C in H]; by apply list_elem_of_filter in H as [_ ?].
Qed.

Lemma is_sorted_spec l : is_sorted lt l = true -> sorted lt l.
Proof.
  induction l as [|x l IH]; [constructor|]. destruct l as [|y l]; [repeat constructor|]. cbn [is_sorted].
  intros [E%negb_true_iff H%IH]%andb_true_iff. constructor; [done|]. pose proof H as [_ Hy]%StronglySorted_inv.
  constructor; [done|]. eapply Forall_impl; [exact Hy|]. cbn. intros z Hz. eapply wo_ge_trans; eauto.
Qed.

End Order.

Lemma filter_none (P : T -> Prop) `{!forall x, Decision (P x)} (l : list T) : (forall x, x ∈ l -> ~ P x) -> filter P l = [].
Proof.
  induction l as [|x l IH]; intros Hn; [done|]. rewrite filter_cons, decide_False by (apply Hn; by left).
  apply IH. intros y Hy. apply Hn. by right.
Qed.

(** ** Counting passes *)

Section Scatter.
Context (bucket : T -> nat).

(** The elements of one bucket, in order. *)
Definition bucket_of (l : list T) (b : nat) : list T := filter (fun e => bucket e = b) l.

Lemma bucket_snoc l e b : bucket_of (l ++ [e]) b = bucket_of l b ++ if decide (bucket e = b) then [e] else [].
Proof. unfold bucket_of. rewrite filter_app, filter_cons, filter_nil. done. Qed.

Lemma bucket_cons l e b : bucket_of (e :: l) b = (if decide (bucket e = b) then [e] else []) ++ bucket_of l b.
Proof. unfold bucket_of. rewrite filter_cons. by destruct (decide _). Qed.

Lemma buckets_other {A} (f g : nat -> A) (p : list nat) : (forall b, b ∈ p -> f b = g b) -> f <$> p = g <$> p.
Proof. intros H. apply list_fmap_ext. intros i b Hb%list_elem_of_lookup_2. auto. Qed.

Lemma buckets_length perm l :
  NoDup perm -> (forall e, e ∈ l -> bucket e ∈ perm) -> length (concat (bucket_of l <$> perm)) = length l.
Proof.
  intros Hd. induction l as [|e l IH]; intros Hin.
  { clear. induction perm; [done|]. by rewrite fmap_cons. }
  assert (bucket e ∈ perm) as (p1 & p2 & ->)%list_elem_of_split by (apply Hin; by left).
  cbn [length]. rewrite <- IH by (intros; apply Hin; by right). apply NoDup_app in Hd as (_ & H1 & [H2 _]%NoDup_cons).
  rewrite !fmap_app, !fmap_cons, !concat_app. cbn [concat]. rewrite !length_app, bucket_cons, decide_True by done.
  rewrite !(buckets_other (bucket_of (e :: l)) (bucket_of l)).
  - cbn. lia.
  - intros b Hb. rewrite bucket_cons, decide_False; [done | congruence].
  - intros b Hb. rewrite bucket_cons, decide_False; [done|]. intros <-. eapply H1; [done | by left].
Qed.

(** A list cut at the lengths of the buckets. *)
Lemma cut_junk perm l (to : list T) :
  NoDup perm -> length to = length (concat (bucket_of l <$> perm)) ->
  exists junk, to = concat (junk <$> perm) /\ forall b, b ∈ perm -> length (junk b) = length (bucket_of l b).
Proof.
  intros Hd. revert to. induction Hd as [|b p Hb Hd IH]; intros to Hl.
  { exists (fun _ => []). cbn in *. destruct to; [|done]. split; [done | by intros ? ?%elem_of_nil]. }
  rewrite fmap_cons in Hl. cbn [concat] in Hl. rewrite length_app in Hl.
  destruct (IH (drop (length (bucket_of l b)) to)) as (junk & Hj & Hc); [rewrite length_drop; lia|].
  exists (fun x => if decide (x = b) then take (length (bucket_of l b)) to else junk x). split.
  - rewrite fmap_cons. cbn [concat]. rewrite decide_True by done.
    rewrite (buckets_other (fun x => if decide (x = b) then take (length (bucket_of l b)) to else junk x) junk).
    + by rewrite <- Hj, take_drop.
    + intros x Hx. rewrite decide_False; [done | congruence].
  - intros x [->|Hx]%elem_of_cons; [rewrite decide_True by done; rewrite length_take; lia|].
    rewrite decide_False; [auto | congruence].
Qed.

Definition scatter_inv (perm : list nat) (done_ rest : list T) (s : list nat * list T) : Prop :=
  (forall p1 b p2, perm = p1 ++ b :: p2 ->
     nth b s.1 0%nat = (length (concat (bucket_of (done_ ++ rest) <$> p1)) + length (bucket_of done_ b))%nat /\ (b < length s.1)%nat) /\
  exists junk, s.2 = concat ((fun b => bucket_of done_ b ++ junk b) <$> perm) /\
    forall b, b ∈ perm -> length (junk b) = length (bucket_of rest b).

Lemma scatter_step_inv perm done_ e rest s :
  NoDup perm -> bucket e ∈ perm -> scatter_inv perm done_ (e :: rest) s ->
  scatter_inv perm (done_ ++ [e]) rest (scatter_step bucket s e).
Proof.
  intros Hd (p1 & p2 & ->)%list_elem_of_split [Hc (junk & Hs & Hj)]. set (b := bucket e) in *.
  pose proof Hd as (_ & H1 & [H2 _]%NoDup_cons)%NoDup_app.
  assert (forall x, x ∈ p1 -> x <> b) as N1 by (intros x Hx ->; eapply H1; [done | by left]).
  assert (forall x, x ∈ p2 -> x <> b) as N2 by (intros x Hx ->; done).
  destruct (Hc p1 b p2 eq_refl) as [Hp Hlt]. split.
  - intros q1 x q2 Hq. unfold scatter_step. cbn [fst]. rewrite length_insert. destruct (Hc q1 x q2 Hq) as [Hx Hxl].
    split; [|done]. rewrite <- app_assoc. cbn [app]. rewrite nth_lookup, list_lookup_insert, bucket_snoc, length_app.
    fold b. case_decide as E.
    + destruct E as [<- _]. rewrite decide_True by done. cbn. lia.
    + rewrite decide_False by (intros ->; apply E; split; [done|lia]). rewrite <- nth_lookup, Hx. cbn. lia.
  - assert (length (junk b) = S (length (bucket_of rest b))) as Hjb.
    { rewrite Hj by (apply elem_of_app; right; by left). rewrite bucket_cons, decide_True by done. done. }
    destruct (junk b) as [|x junk_b] eqn:Ej; [done|]. cbn in Hjb.
    exists (fun y => if decide (y = b) then junk_b else junk y). split.
    + unfold scatter_step. cbn [snd]. fold b. rewrite Hs, Hp, !fmap_app, !fmap_cons, !concat_app. cbn [concat].
      rewrite Ej, decide_True by done.
      rewrite (buckets_other (fun y => bucket_of (done_ ++ [e]) y ++ (if decide (y = b) then junk_b else junk y))
                 (fun y => bucket_of done_ y ++ junk y) p1).
      2:{ intros y Hy. rewrite bucket_snoc, decide_False by (fold b; intros E; by apply (N1 y)).
          by rewrite decide_False, app_nil_r by (by apply N1). }
      rewrite (buckets_other (fun y => bucket_of (done_ ++ [e]) y ++ (if decide (y = b) then junk_b else junk y))
                 (fun y => bucket_of done_ y ++ junk y) p2).
      2:{ intros y Hy. rewrite bucket_snoc, decide_False by (fold b; intros E; by apply (N2 y)).
          by rewrite decide_False, app_nil_r by (by apply N2). }
      rewrite bucket_snoc, decide_True by done.
      assert (length (concat (bucket_of (done_ ++ e :: rest) <$> p1)) =
              length (concat ((fun y => bucket_of done_ y ++ junk y) <$> p1))) as ->.
      { clear - Hj N1. assert (forall y, y ∈ p1 -> length (junk y) = length (bucket_of (e :: rest) y)) as Hj'
          by (intros y Hy; apply Hj, elem_of_app; by left). clear Hj N1. induction p1 as [|y p1 IH]; [done|].
        rewrite !fmap_cons. cbn [concat]. rewrite !length_app, IH by (intros; apply Hj'; by right).
        rewrite Hj' by (by left). unfold bucket_of. rewrite filter_app, length_app. done. }
      rewrite insert_app_r. f_equal. rewrite <- (app_assoc (bucket_of done_ b)).
      rewrite <- (Nat.add_0_r (length (bucket_of done_ b))), insert_app_r. by rewrite <- !app_assoc.
    + intros y Hy. specialize (Hj y Hy). rewrite bucket_cons in Hj. fold b in Hj. destruct (decide (y = b)) as [->|Hne].
      * lia.
      * rewrite decide_False in Hj; [done | congruence].
Qed.

(** The counting pass puts the buckets after one another, each in the order of the input. *)
Lemma scatter_spec perm l c to :
  NoDup perm -> (forall e, e ∈ l -> bucket e ∈ perm) -> length to = length l ->
  (forall p1 b p2, perm = p1 ++ b :: p2 ->
     nth b c 0%nat = length (concat (bucket_of l <$> p1)) /\ (b < length c)%nat) ->
  scatter bucket l c to = concat (bucket_of l <$> perm).
Proof.
  intros Hd Hin Hl Hc. unfold scatter.
  assert (forall rest done_ s, l = done_ ++ rest -> scatter_inv perm done_ rest s ->
    scatter_inv perm l [] (foldl (scatter_step bucket) s rest)) as Hfold.
  { induction rest as [|e rest IH]; intros done_ s Hlr Hs; cbn [foldl].
    - rewrite app_nil_r in Hlr. by subst.
    - apply (IH (done_ ++ [e])); [by rewrite <- app_assoc|]. apply scatter_step_inv; [done | | done].
      apply Hin. rewrite Hlr. apply elem_of_app. right. by left. }
  destruct (cut_junk perm l to Hd) as (junk & Hj1 & Hj2); [by rewrite buckets_length|].
  destruct (Hfold l [] (c, to) eq_refl) as [_ (junk' & -> & Hj')].
  { split; [|exists junk; split; [exact Hj1 | exact Hj2]]. intros p1 b p2 Hp. cbn [fst app]. destruct (Hc p1 b p2 Hp) as [-> ?].
    split; [cbn; lia | done]. }
  f_equal. apply buckets_other. intros b Hb. specialize (Hj' b Hb). destruct (junk' b); [apply app_nil_r | done].
Qed.

(** A filter that only one bucket can pass. *)
Lemma filter_buckets (P : T -> Prop) `{!forall x, Decision (P x)} (f : nat -> list T) (p : list nat) g :
  NoDup p -> (forall b x, b ∈ p -> x ∈ f b -> P x -> b = g) ->
  filter P (concat (f <$> p)) = if decide (g ∈ p) then filter P (f g) else [].
Proof.
  intros Hd Ho. induction Hd as [|b p Hb Hd IH]; [done|]. rewrite fmap_cons. cbn [concat].
  rewrite filter_app, IH by (intros; eapply Ho; [by right | done..]). destruct (decide (g = b)) as [->|Hne].
  - rewrite (decide_False (P := b ∈ p)), decide_True, app_nil_r by (done || by left). done.
  - rewrite (filter_none P (f b)) by (intros x Hx HP; apply Hne; symmetry; eapply Ho; [by left | done..]). cbn [app].
    apply decide_ext. rewrite elem_of_cons. tauto.
Qed.

End Scatter.

(** ** Radix sort *)

#[export] Instance key_order (f : T -> Z) : WeakOrder (fun a b => f a <? f b).
Proof.
  split; intros x; [apply Z.ltb_irrefl | |]; intros y z; rewrite !Z.ltb_lt; lia.
Qed.

Lemma key_equiv (f : T -> Z) x y : equiv (fun a b => f a <? f b) x y = true <-> f x = f y.
Proof. unfold equiv. rewrite andb_true_iff, !negb_true_iff, !Z.ltb_ge. lia. Qed.

Lemma insert_stable_perm (lt : T -> T -> bool) x l : insert_stable lt x l ≡ₚ x :: l.
Proof.
  induction l as [|y l IH]; [done|]. cbn. destruct (lt y x); [|done]. rewrite IH. apply Permutation_swap.
Qed.

Lemma stable_sort_perm (lt : T -> T -> bool) l : stable_sort lt l ≡ₚ l.
Proof. induction l as [|x l IH]; [done|]. cbn. by rewrite insert_stable_perm, IH. Qed.

Lemma running_nth bucket (l : list T) p1 b p2 a :
  nth (length p1) (running a (count bucket l <$> (p1 ++ b :: p2))) 0%nat = (a + length (concat (bucket_of bucket l <$> p1)))%nat.
Proof.
  revert a. induction p1 as [|x p1 IH]; intros a; [cbn; lia|].
  change ((x :: p1) ++ b :: p2) with (x :: (p1 ++ b :: p2)). rewrite !fmap_cons. cbn [running nth length concat].
  rewrite IH, length_app. unfold count, bucket_of. lia.
Qed.

Lemma running_length a counts : length (running a counts) = length counts.
Proof. revert a. induction counts as [|c counts IH]; intros a; cbn; [done | by rewrite IH]. Qed.

Lemma concat_sorted (R : T -> T -> Prop) (Rp : nat -> nat -> Prop) (f : nat -> list T) (p : list nat) :
  (forall b, b ∈ p -> StronglySorted R (f b)) -> (forall b b' x y, b ∈ p -> b' ∈ p -> Rp b b' -> x ∈ f b -> y ∈ f b' -> R x y) ->
  StronglySorted Rp p -> StronglySorted R (concat (f <$> p)).
Proof.
  intros Hf Hc Hp. induction Hp as [|b p Hp IH Hb]; [constructor|]. rewrite fmap_cons. cbn [concat].
  apply StronglySorted_app. split_and!; [|apply Hf; by left|].
  - intros x y Hx Hy. apply list_elem_of_In, in_concat in Hy as (l & Hl & Hy). apply list_elem_of_In in Hl, Hy.
    apply list_elem_of_fmap in Hl as (b' & -> & Hb'). rewrite Forall_forall in Hb.
    eapply (Hc b b'); [by left | by right | by apply Hb | done | done].
  - apply IH; [intros; apply Hf; by right|]. intros. eapply (Hc b0 b'); [by right | by right | done..].
Qed.

Lemma seq_sorted n m : StronglySorted Nat.lt (seq n m).
Proof.
  revert n. induction m as [|m IH]; intros n; [constructor|]. cbn. constructor; [apply IH|].
  apply Forall_forall. intros x Hx%elem_of_seq. unfold Nat.lt. lia.
Qed.

Section Radix.
Context (bits : T -> Z).

(** The low [b] bytes of a key. *)
Definition low (b : nat) (e : T) : Z := bits e mod 256 ^ Z.of_nat b.
Definition low_lt (b : nat) (x y : T) : bool := low b x <? low b y.

Lemma key_byte_eq b e : Z.of_nat (key_byte bits b e) = (bits e / 256 ^ Z.of_nat b) mod 256.
Proof.
  unfold key_byte. change 255 with (2 ^ 8 - 1). rewrite land_low, Z.shiftr_div_pow2 by lia.
  rewrite Z2Nat.id by (apply Z.mod_pos_bound; lia). change 256 with (2 ^ 8) at 1. by rewrite <- Z.pow_mul_r by lia.
Qed.

Lemma low_succ b e : low (S b) e = low b e + 256 ^ Z.of_nat b * Z.of_nat (key_byte bits b e).
Proof.
  unfold low. rewrite key_byte_eq, Nat2Z.inj_succ, Z.pow_succ_r, (Z.mul_comm 256) by lia.
  assert (0 < 256 ^ Z.of_nat b) by (apply Z.pow_pos_nonneg; lia). rewrite Z.rem_mul_r by lia. lia.
Qed.

Lemma low_range b e : 0 <= low b e < 256 ^ Z.of_nat b.
Proof. apply Z.mod_pos_bound. apply Z.pow_pos_nonneg; lia. Qed.

Lemma key_byte_range b e : (key_byte bits b e < 256)%nat.
Proof. pose proof (key_byte_eq b e) as H. pose proof (Z.mod_pos_bound (bits e / 256 ^ Z.of_nat b) 256 ltac:(lia)). lia. Qed.

(** Keys that agree in their low [b + 1] bytes agree in byte [b] and below it. *)
Lemma low_succ_eq b x y : low (S b) x = low (S b) y <-> low b x = low b y /\ key_byte bits b x = key_byte bits b y.
Proof.
  rewrite !low_succ. pose proof (low_range b x). pose proof (low_range b y). split; [|intros [-> ->]; done].
  intros E. assert (Z.of_nat (key_byte bits b x) = Z.of_nat (key_byte bits b y)) by nia. split; nia.
Qed.

Definition pass (b : nat) (from : list T) : list T := concat (bucket_of (key_byte bits b) from <$> seq 0 256).

Lemma low_equiv b x y : equiv (low_lt b) x y = true <-> low b x = low b y.
Proof. apply (key_equiv (low b)). Qed.

(** A pass sorts by one more byte. *)
Lemma pass_stable b v from : stable_of (low_lt b) v from -> stable_of (low_lt (S b)) v (pass b from).
Proof.
  intros [Hs Hc]. split.
  - apply (concat_sorted _ Nat.lt); [| |apply seq_sorted].
    + intros d _. assert (forall x y, x ∈ bucket_of (key_byte bits b) from d -> y ∈ bucket_of (key_byte bits b) from d ->
        low_lt b y x = false -> low_lt (S b) y x = false) as H.
      { unfold low_lt. intros x y [Hx _]%list_elem_of_filter [Hy _]%list_elem_of_filter. rewrite !Z.ltb_ge, !low_succ, Hx, Hy. lia. }
      revert H. unfold bucket_of. clear Hc. induction Hs as [|x l Hl IH Hx]; intros H; [constructor|]. rewrite filter_cons.
      rewrite filter_cons in H. destruct (decide _) as [E|]; [|auto]. constructor.
      * apply IH. intros. apply H; [by right | by right | done].
      * rewrite Forall_forall in Hx |- *. intros y Hy. apply H; [by left | by right|].
        apply list_elem_of_filter in Hy as [_ ?]. auto.
    + intros d d' x y _ _ Hd [Hx _]%list_elem_of_filter [Hy _]%list_elem_of_filter. unfold low_lt.
      rewrite Z.ltb_ge, !low_succ, Hx, Hy. pose proof (low_range b x). pose proof (low_range b y). nia.
  - intros x. assert (key_byte bits b x ∈ seq 0 256) as (p1 & p2 & Hp)%list_elem_of_split.
    { apply elem_of_seq. pose proof (key_byte_range b x). lia. }
    pose proof (NoDup_seq 0 256) as Hd. rewrite Hp in Hd. apply NoDup_app in Hd as (_ & H1 & [H2 _]%NoDup_cons).
    assert (forall l : list T, filter (equiv (low_lt (S b)) x) l =
      filter (fun y => key_byte bits b y = key_byte bits b x) (filter (equiv (low_lt b) x) l)) as Hf.
    { intros l. rewrite list_filter_filter. apply list_filter_iff. intros y. rewrite !Is_true_true, !low_equiv, low_succ_eq.
      split; intros []; split; congruence. }
    assert (forall p : list nat, key_byte bits b x ∉ p ->
      filter (equiv (low_lt (S b)) x) (concat (bucket_of (key_byte bits b) from <$> p)) = []) as Hnil.
    { induction p as [|d p IH]; [done|]. intros [Hne Hn]%not_elem_of_cons. rewrite fmap_cons. cbn [concat]. rewrite filter_app, IH by done.
      rewrite app_nil_r. unfold bucket_of. rewrite list_filter_filter. apply filter_none.
      intros y Hy [E%Is_true_true Ed]. apply low_equiv, low_succ_eq in E as [_ E]. congruence. }
    unfold pass. rewrite Hp, fmap_app, fmap_cons, concat_app, !filter_app. cbn [concat]. rewrite filter_app, !Hnil.
    + rewrite app_nil_r. cbn [app]. rewrite (Hf v), <- Hc, <- Hf. unfold bucket_of. rewrite list_filter_filter.
      apply list_filter_iff. intros y. rewrite Is_true_true, low_equiv, low_succ_eq. split; [tauto|]. intros [? E]. split; [done | congruence].
    + done.
    + intros Hx. eapply H1; [done | by left].
Qed.

#[export] Instance low_order b : WeakOrder (low_lt b).
Proof. apply (key_order (low b)). Qed.

Lemma stable_of_perm (lt : T -> T -> bool) `{!WeakOrder lt} v out : stable_of lt v out -> out ≡ₚ v.
Proof. intros ->%sort_is_stable; [|done]. apply stable_sort_perm. Qed.

Lemma count_perm bucket (l l' : list T) b : l ≡ₚ l' -> count bucket l b = count bucket l' b.
Proof. intros H. unfold count. by rewrite H. Qed.

(** The pass as the source runs it: counts of the input, the running starts, the scatter. *)
Lemma scatter_pass b v from other :
  from ≡ₚ v -> length other = length v ->
  scatter (key_byte bits b) from (running 0 (byte_counts bits v b)) other = pass b from.
Proof.
  intros Hp Hl. unfold pass, byte_counts. assert (count (key_byte bits b) v <$> seq 0 256 = count (key_byte bits b) from <$> seq 0 256) as ->.
  { apply buckets_other. intros d _. symmetry. by apply count_perm. }
  apply scatter_spec; [apply NoDup_seq | | by rewrite Hl, Hp|].
  - intros e _. apply elem_of_seq. pose proof (key_byte_range b e). lia.
  - intros p1 d p2 Hs. assert (d = length p1) as ->.
    { assert (seq 0 256 !! length p1 = Some d) as H by (rewrite Hs; by apply list_lookup_middle).
      apply lookup_seq in H as [-> _]. done. }
    rewrite Hs at 1. rewrite running_nth. split; [done|]. rewrite running_length, length_fmap, Hs, length_app. cbn. lia.
Qed.

(** A byte all keys share: the pass would change nothing. *)
Lemma skipped_pass b v from :
  from ≡ₚ v -> existsb (Nat.eqb (length v)) (byte_counts bits v b) = true -> pass b from = from.
Proof.
  intros Hp (c & Hc & E%Nat.eqb_eq)%existsb_exists. apply list_elem_of_In, list_elem_of_fmap in Hc as (d & -> & Hd).
  rewrite <- (count_perm _ from v d Hp), <- Hp in E. unfold count in E.
  assert (forall e, e ∈ from -> key_byte bits b e = d) as Hall.
  { clear - E. induction from as [|e from IH]; [by intros ? ?%elem_of_nil|]. rewrite filter_cons in E.
    destruct (decide _) as [He|]; cbn in E.
    - intros x [->|Hx]%elem_of_cons; [done|]. apply IH; [lia | done].
    - pose proof (length_filter (fun e => key_byte bits b e = d) from). lia. }
  apply list_elem_of_split in Hd as (p1 & p2 & Hs). pose proof (NoDup_seq 0 256) as Hn. rewrite Hs in Hn.
  apply NoDup_app in Hn as (_ & H1 & [H2 _]%NoDup_cons). unfold pass. rewrite Hs, fmap_app, fmap_cons, concat_app. cbn [concat].
  assert (forall p : list nat, d ∉ p -> concat (bucket_of (key_byte bits b) from <$> p) = []) as Hnil.
  { induction p as [|x p IH]; [done|]. intros [Hne Hx]%not_elem_of_cons. rewrite fmap_cons. cbn [concat]. rewrite IH, app_nil_r by done.
    apply filter_none. intros e He Ex. apply Hall in He. congruence. }
  rewrite !Hnil; [|done|intros Hx; eapply H1; [done | by left]]. rewrite app_nil_r. cbn [app].
  clear - Hall. unfold bucket_of. induction from as [|e from IH]; [done|]. rewrite filter_cons, decide_True by (apply Hall; by left).
  f_equal. apply IH. intros. apply Hall. by right.
Qed.

Lemma radix_passes_stable v passes b from other :
  stable_of (low_lt b) v from -> length other = length v ->
  stable_of (low_lt (b + passes)) v (radix_passes bits (byte_counts bits v) (length v) passes b from other).
Proof.
  revert b from other. induction passes as [|passes IH]; intros b from other Hs Hl; cbn [radix_passes].
  { by rewrite Nat.add_0_r. }
  pose proof (stable_of_perm _ _ _ Hs) as Hp. rewrite <- Nat.add_succ_comm. pose proof (pass_stable b v from Hs) as Hn.
  destruct (existsb _ _) eqn:E.
  - rewrite (skipped_pass b v from) in Hn by done. by apply IH.
  - rewrite (scatter_pass b v from other Hp Hl). apply IH; [done | by rewrite Hp].
Qed.

Lemma radix_sort_stable kBytes v :
  (forall e, e ∈ v -> 0 <= bits e < 256 ^ Z.of_nat kBytes) ->
  radix_sort bits kBytes v = stable_sort (fun a b => bits a <? bits b) v.
Proof.
  intros Hr. unfold radix_sort. destruct (_ <? _)%nat; [done|].
  destruct (is_sorted _ _) eqn:E; [apply sort_is_stable; [apply _|]; split; [by apply is_sorted_spec in E; [|apply _] | done]|].
  apply sort_is_stable; [apply _|].
  assert (stable_of (low_lt 0) v v) as H0.
  { split; [|done]. clear. induction v as [|x v IH]; [constructor|]. constructor; [done|]. apply Forall_forall.
    intros y _. unfold low_lt, low. by rewrite !Z.mod_1_r. }
  pose proof (radix_passes_stable v kBytes 0 v v H0 eq_refl) as Hs. cbn [Nat.add] in Hs.
  set (out := radix_passes _ _ _ _ _ _ _) in *. clearbody out.
  assert (forall e, e ∈ out -> 0 <= bits e < 256 ^ Z.of_nat kBytes) as Hr' by (intros e He; apply Hr; by apply (stable_of_elem (low_lt kBytes) v out e Hs)).
  destruct Hs as [Hs Hc]. assert (forall e (l : list T), (forall e, e ∈ l -> 0 <= bits e < 256 ^ Z.of_nat kBytes) -> e ∈ l -> low kBytes e = bits e) as Hlow.
  { intros e l Hl He. apply Z.mod_small. eauto. }
  split.
  - clear E Hc Hr v H0. induction Hs as [|x l Hl IH Hx]; [constructor|]. constructor; [apply IH; intros; apply Hr'; by right|].
    rewrite Forall_forall in Hx |- *. intros y Hy. specialize (Hx y Hy). unfold low_lt in Hx.
    rewrite !(Hlow _ (x :: l)) in Hx; [done | done | by left | done | by right].
  - intros x. specialize (Hc x). destruct (decide (0 <= bits x < 256 ^ Z.of_nat kBytes)) as [Hx|Hx].
    + assert (forall l : list T, (forall e, e ∈ l -> 0 <= bits e < 256 ^ Z.of_nat kBytes) ->
        filter (equiv (fun a b => bits a <? bits b) x) l = filter (equiv (low_lt kBytes) x) l) as Hf.
      { intros l Hl. apply filter_ext_in. intros y Hy. rewrite !Is_true_true, key_equiv, low_equiv.
        rewrite (Hlow y l) by done. unfold low. by rewrite Z.mod_small. }
      by rewrite !Hf.
    + rewrite !filter_none; [done | |]; intros y Hy E'%Is_true_true%key_equiv; apply Hx; rewrite E'; auto.
Qed.

End Radix.

(** ** Parallel sort *)

Section Parallel.
Context (lt : T -> T -> bool) `{!WeakOrder lt}.

Lemma merge_perm a b : merge lt a b ≡ₚ a ++ b.
Proof.
  revert b. induction a as [|x a IHa]; intros b; [done|]. induction b as [|y b IHb]; [by rewrite app_nil_r|].
  cbn [merge]. destruct (lt y x); [|by rewrite IHa]. cbn [merge] in IHb. rewrite IHb. apply Permutation_middle.
Qed.

Lemma merge_sorted a b : sorted lt a -> sorted lt b -> sorted lt (merge lt a b).
Proof.
  revert b. induction a as [|x a IHa]; intros b Ha Hb; [done|]. induction b as [|y b IHb]; [done|].
  pose proof Ha as [Ha' Hx]%StronglySorted_inv. pose proof Hb as [Hb' Hy]%StronglySorted_inv.
  rewrite Forall_forall in Hx, Hy. cbn [merge]. destruct (lt y x) eqn:E.
  - constructor; [by apply IHb|]. apply Forall_forall. intros z Hz. change (z ∈ merge lt (x :: a) b) in Hz.
    rewrite merge_perm in Hz. apply elem_of_app in Hz as [[->|Hz]%elem_of_cons|Hz]; [by apply wo_asym | | auto].
    eapply wo_ge_trans; [done | by apply wo_asym | auto].
  - constructor; [by apply IHa|]. apply Forall_forall. intros z Hz. rewrite merge_perm in Hz.
    apply elem_of_app in Hz as [Hz|[->|Hz]%elem_of_cons]; [auto | done |]. eapply wo_ge_trans; [done | done | auto].
Qed.

Lemma merge_pairs_spec slices :
  Forall (sorted lt) slices ->
  Forall (sorted lt) (merge_pairs lt slices) /\ concat (merge_pairs lt slices) ≡ₚ concat slices /\
  (length (merge_pairs lt slices) <= length slices)%nat /\
  ((1 < length slices)%nat -> (length (merge_pairs lt slices) < length slices)%nat).
Proof.
  assert (forall n slices, (length slices <= n)%nat -> Forall (sorted lt) slices ->
    Forall (sorted lt) (merge_pairs lt slices) /\ concat (merge_pairs lt slices) ≡ₚ concat slices /\
    (length (merge_pairs lt slices) <= length slices)%nat /\
    ((1 < length slices)%nat -> (length (merge_pairs lt slices) < length slices)%nat)) as H; [|by apply (H (length slices))].
  induction n as [|n IH]; intros [|a [|b rest]] Hl Hs; cbn in Hl; try lia; try (split_and!; cbn; done || lia).
  apply Forall_cons in Hs as [Ha Hs]. apply Forall_cons in Hs as [Hb Hs].
  destruct (IH rest) as (I1 & I2 & I3 & I4); [lia | done|]. cbn. split_and!; [| | lia..].
  - constructor; [by apply merge_sorted | done].
  - by rewrite I2, merge_perm, app_assoc.
Qed.

Lemma merge_rounds_spec rounds slices :
  Forall (sorted lt) slices -> (length slices <= S rounds)%nat ->
  sorted lt (concat (merge_rounds lt rounds slices)) /\ concat (merge_rounds lt rounds slices) ≡ₚ concat slices.
Proof.
  revert slices. assert (forall slices, (length slices <= 1)%nat -> Forall (sorted lt) slices -> sorted lt (concat slices)) as H1.
  { intros [|a [|b rest]] Hl Hs; cbn in *; [constructor | | lia]. rewrite app_nil_r. by inversion Hs. }
  induction rounds as [|rounds IH]; intros slices Hs Hl; cbn [merge_rounds]; [auto|].
  destruct (Nat.leb_spec (length slices) 1); [auto|]. destruct (merge_pairs_spec slices Hs) as (M1 & M2 & M3 & M4).
  destruct (IH (merge_pairs lt slices) M1) as [I1 I2]; [specialize (M4 ltac:(lia)); lia|]. split; [done | by rewrite I2].
Qed.

(** The slices of the input, one after another, are the input. *)
Lemma bound_mono size parts p : (0 < parts)%nat -> (bound size parts p <= bound size parts (S p))%nat.
Proof. intros. unfold bound. apply Nat.Div0.div_le_mono. nia. Qed.

Lemma slices_prefix (v : list T) parts p :
  (0 < parts)%nat -> concat (slice v parts <$> seq 0 p) = take (bound (length v) parts p) v.
Proof.
  intros Hp. induction p as [|p IH].
  { unfold bound. rewrite Nat.mul_0_r, Nat.Div0.div_0_l. by rewrite take_0. }
  rewrite seq_S, fmap_app, concat_app, IH. cbn. rewrite app_nil_r. unfold slice. pose proof (bound_mono (length v) parts p Hp) as Hm.
  replace (bound (length v) parts (S p)) with (bound (length v) parts p + (bound (length v) parts (S p) - bound (length v) parts p))%nat at 2 by lia.
  by rewrite take_take_drop.
Qed.

Lemma parts_of_pos rounds threads size parts : (0 < parts)%nat -> (0 < parts_of rounds threads size parts)%nat.
Proof.
  revert parts. induction rounds as [|rounds IH]; intros parts Hp; [done|]. cbn [parts_of]. destruct (_ && _)%nat; [apply IH; lia | done].
Qed.

(** Slices sorted side by side and merged are one sort, where no two elements tie. *)
Lemma parallel_sort_stable threads v :
  (forall x y, x ∈ v -> y ∈ v -> equiv lt x y = true -> x = y) -> parallel_sort threads lt v = stable_sort lt v.
Proof.
  intros Hu. unfold parallel_sort. set (parts := parts_of threads threads (length v) 1).
  assert (0 < parts)%nat as Hp by (apply parts_of_pos; lia). clearbody parts. destruct (parts =? 1)%nat; [done|].
  destruct (merge_rounds_spec parts (stable_sort lt <$> (slice v parts <$> seq 0 parts))) as [M1 M2].
  { apply Forall_fmap, Forall_forall. intros s _. by apply stable_sort_spec. }
  { rewrite !length_fmap, length_seq. lia. }
  assert (concat (stable_sort lt <$> (slice v parts <$> seq 0 parts)) ≡ₚ v) as Hperm.
  { transitivity (concat (slice v parts <$> seq 0 parts)).
    - generalize (slice v parts <$> seq 0 parts). intros ss. induction ss as [|s ss IH]; [done|]. rewrite fmap_cons. cbn [concat].
      by rewrite IH, stable_sort_perm.
    - rewrite slices_prefix by done. unfold bound. rewrite Nat.div_mul by lia. by rewrite firstn_all. }
  eapply StronglySorted_unique_strong; [|exact M1|apply stable_sort_spec; done|].
  - intros x y Hx Hy Hxy Hyx. rewrite M2, Hperm in Hx. rewrite stable_sort_perm in Hy. apply Hu; [done..|].
    unfold equiv. cbn in Hxy, Hyx. by rewrite Hxy, Hyx.
  - by rewrite M2, Hperm, stable_sort_perm.
Qed.

End Parallel.
End Sorts.

(** ** Sorting images *)

Lemma stable_sort_fmap {A B} (f : A -> B) (lt : B -> B -> bool) l :
  stable_sort lt (f <$> l) = f <$> stable_sort (fun a b => lt (f a) (f b)) l.
Proof.
  induction l as [|x l IH]; [done|]. rewrite fmap_cons. cbn. fold (stable_sort lt (f <$> l)). rewrite IH.
  fold (stable_sort (fun a b => lt (f a) (f b)) l). generalize (stable_sort (fun a b => lt (f a) (f b)) l). clear.
  induction l as [|y l IH]; [done|]. cbn. destruct (lt (f y) (f x)); [|done]. rewrite fmap_cons. f_equal. apply IH.
Qed.

Lemma stable_sort_ext {A} (lt lt' : A -> A -> bool) l :
  (forall x y, x ∈ l -> y ∈ l -> lt x y = lt' x y) -> stable_sort lt l = stable_sort lt' l.
Proof.
  induction l as [|x l IH]; intros H; [done|]. cbn. fold (stable_sort lt l) (stable_sort lt' l).
  rewrite IH by (intros; apply H; by right).
  assert (forall y, y ∈ stable_sort lt' l -> lt y x = lt' y x) as Hx.
  { intros y Hy. rewrite stable_sort_perm in Hy. apply H; [by right | by left]. }
  revert Hx. generalize (stable_sort lt' l). clear. induction l as [|y l IH]; intros Hx; [done|]. cbn.
  rewrite Hx by (by left). destruct (lt' y x); [|done]. f_equal. apply IH. intros. apply Hx. by right.
Qed.

End StableSort.
