(* ===== verification/ScalarSort.v ===== *)
(** * The order a scalar index is built in (src/index/scalar/scalar_index.cpp)

    The items of an index are the values of a column with the addresses of their rows. [sort_all] orders them
    for a BTREE (a radix sort of integer keys, a parallel sort of the others), [group_all] for a BITMAP (equal
    values found with a hash table, only the distinct ones sorted), after the key of the column's kind. *)

From S2P Require Import Prelude StableSort Int128 Decimal Expr.

Module ScalarSort.
Import StableSort.
Import Expr (ArrowType(..), ArrayView, Slot(..), view_is_null, slot_at, no_view, get_int, get_bits, get_bytes, get_limbs, bytes_way).

(** ** Items *)

Record Item := mkItem { i_view : nat; i_index : Z; i_addr : Z }.
Record Items := mkItems { views : list ArrayView; its : list Item }.

Definition push (items : Items) (v : nat) (i a : Z) : Items := mkItems (views items) (its items ++ [mkItem v i a]).
Definition view_of (items : Items) (it : Item) : ArrayView := nth (i_view it) (views items) no_view.
Definition item_null (items : Items) (it : Item) : bool := view_is_null (view_of items it) (i_index it).
Definition item_slot (items : Items) (it : Item) : Slot := slot_at (view_of items it) (i_index it).

(** ** Keys *)

Inductive KeyKind := KInt | KUInt | Float16 | Float32 | Float64 | KBool | Bytes | Decimal128 | Decimal256.

(** The storage type of a column decides the kind: dates, times, timestamps and durations are stored as
    integers. *)
Definition key_kind_of (type : ArrowType) (type_string : string) : res KeyKind :=
  match type with
  | INT8 | INT16 | INT32 | INT64 | DATE32 | DATE64 | TIME32 | TIME64 | TIMESTAMP | DURATION => Ok KInt
  | UINT8 | UINT16 | UINT32 | UINT64 => Ok KUInt
  | HALF_FLOAT => Ok Float16
  | FLOAT => Ok Float32
  | DOUBLE => Ok Float64
  | BOOL => Ok KBool
  | STRING | LARGE_STRING | BINARY | LARGE_BINARY | FIXED_SIZE_BINARY => Ok Bytes
  | DECIMAL128 => Ok Decimal128
  | DECIMAL256 => Ok Decimal256
  | NESTED => Err ("a scalar index on a column of type " +:+ type_string +:+ " is not supported")
  end.

(** [total_order]: the sign bit set, or every bit flipped. *)
Definition total_order (bits width : Z) : Z :=
  let sign := Z.shiftl 1 (width - 1) in
  if negb (Z.land bits sign =? 0) then wrap width (Z.lnot bits) else wrap width (Z.lor bits sign).

(** [a != b ? a < b : rest]: the order of [Int128], [Int256] and [StringKey]. *)
Definition lex_ltb {A B} `{EqDecision A} (lta : A -> A -> bool) (ltb : B -> B -> bool) (x y : A * B) : bool :=
  if decide (x.1 = y.1) then ltb x.2 y.2 else lta x.1 y.1.

(** The high half as the signed number it is compared as, then the words below it. *)
Definition Int128 : Type := Z * Z.
Definition int128_ltb : Int128 -> Int128 -> bool := lex_ltb Z.ltb Z.ltb.
Definition int128_key (s : Slot) : Int128 := let w := get_limbs s in (Int128.s64 (nth 1 w 0), nth 0 w 0).

Definition Int256 : Type := Z * (Z * (Z * Z)).
Definition int256_ltb : Int256 -> Int256 -> bool := lex_ltb Z.ltb (lex_ltb Z.ltb (lex_ltb Z.ltb Z.ltb)).
Definition int256_key (s : Slot) : Int256 :=
  let w := get_limbs s in (Int128.s64 (nth 3 w 0), (nth 2 w 0, (nth 1 w 0, nth 0 w 0))).

Definition bytes_ltb (a b : list Z) : bool := bytes_way a b <? 0.

Definition StringKey : Type := Z * list Z.
Definition string_ltb : StringKey -> StringKey -> bool := lex_ltb Z.ltb bytes_ltb.

(** The 8 bytes [skip] in, big-endian, zeros past the end. *)
Definition prefix_step (s : list Z) (prefix : Z) (k : nat) : Z := u64 (Z.lor (Z.shiftl prefix 8) (nth k s 0)).
Definition string_key (skip : nat) (slot : Slot) : StringKey :=
  let s := get_bytes slot in (foldl (prefix_step s) 0 (seq skip 8), s).

(** How many bytes two strings share, up to a limit. *)
Fixpoint shared (a b : list Z) (limit : nat) {struct limit} : nat :=
  match limit, a, b with
  | S limit, x :: a, y :: b => if x =? y then S (shared a b limit) else 0%nat
  | _, _, _ => 0%nat
  end.

(** The loop of [common_prefix]: [first] is the first string, with the bytes all so far share. *)
Fixpoint common_prefix_loop (items : Items) (l : list Item) (first : option (list Z * nat)) : nat :=
  match l with
  | [] => match first with Some (_, len) => len | None => 0%nat end
  | it :: l =>
      match first with
      | Some (_, O) => 0%nat
      | _ =>
          if item_null items it then common_prefix_loop items l first
          else
            let s := get_bytes (item_slot items it) in
            match first with
            | None => common_prefix_loop items l (Some (s, length s))
            | Some (f, len) => common_prefix_loop items l (Some (f, shared f s (Nat.min len (length s))))
            end
      end
  end.
Definition common_prefix (items : Items) : nat := common_prefix_loop items (its items) None.

(** ** Ordering *)

Record Sorted := mkSorted { order : list Z; group_starts : list nat; nulls : nat }.

(** The items with their numbers, [static_cast<std::uint32_t>(k)]. *)
Definition numbered (items : Items) : list (Z * Item) := imap (fun k it => (u32 (Z.of_nat k), it)) (its items).
Definition null_order (items : Items) : list Z := (filter (fun e => item_null items e.2) (numbered items)).*1.

Section Keys.
Context {K : Type} (ltb : K -> K -> bool).

Definition Entry : Type := K * Z.
Definition entries (extract : Slot -> K) (items : Items) : list Entry :=
  (fun e => (extract (item_slot items e.2), e.1)) <$> filter (fun e => negb (item_null items e.2)) (numbered items).

(** Where a key begins: the first entry, and every one greater than the one before it. *)
Fixpoint starts (prev : option K) (at_ : nat) (keys : list K) : list nat :=
  match keys with
  | [] => []
  | key :: keys =>
      (if match prev with None => true | Some p => ltb p key end then [at_] else []) ++ starts (Some key) (S at_) keys
  end.

Definition null_start (nulls : nat) : list nat := match nulls with O => [] | _ => [0%nat] end.

Definition sort_all (sorter : list Entry -> list Entry) (extract : Slot -> K) (items : Items) : Sorted :=
  let none := null_order items in
  let sorted := sorter (entries extract items) in
  mkSorted (none ++ sorted.*2) (null_start (length none) ++ starts None (length none) sorted.*1) (length none).

(** [a.key < b.key || (!(b.key < a.key) && a.item < b.item)]. *)
Definition entry_ltb (a b : Entry) : bool := ltb a.1 b.1 || (negb (ltb b.1 a.1) && (a.2 <? b.2)).

Context `{EqDecision K}.

(** The groups' keys in the order they are first seen; the hash table gives a key its place in them, plus one. *)
Fixpoint place_of (key : K) (keys : list K) : nat :=
  match keys with [] => 0%nat | k :: keys => if decide (key = k) then 0%nat else S (place_of key keys) end.

Record Groups := mkGroups { g_keys : list K; g_group : list nat; g_counts : list nat }.

Definition bump (g : nat) (counts : list nat) : list nat := <[g := S (nth g counts 0%nat)]> counts.

Definition group_item (extract : Slot -> K) (items : Items) (s : Groups) (it : Item) : Groups :=
  if item_null items it then mkGroups (g_keys s) (g_group s ++ [0%nat]) (bump 0 (g_counts s))
  else
    let key := extract (item_slot items it) in
    let id := S (place_of key (g_keys s)) in
    let inserted := (id =? S (length (g_keys s)))%nat in
    let keys := if inserted then g_keys s ++ [key] else g_keys s in
    let counts := if inserted then g_counts s ++ [0%nat] else g_counts s in
    mkGroups keys (g_group s ++ [id]) (bump id counts).

(** Where each group starts: [start[g] = at; at += counts[g]]. *)
Fixpoint place_groups (counts : list nat) (by_key : list nat) (at_ : nat) (start : list nat) : list nat :=
  match by_key with
  | [] => start
  | g :: by_key => place_groups counts by_key (at_ + nth g counts 0%nat) (<[g := at_]> start)
  end.
Fixpoint group_positions (counts : list nat) (by_key : list nat) (at_ : nat) : list nat :=
  match by_key with [] => [] | g :: by_key => at_ :: group_positions counts by_key (at_ + nth g counts 0%nat) end.

Definition key_at (d : K) (keys : list K) (g : nat) : K := nth (g - 1) keys d.

Definition group_all (extract : Slot -> K) (items : Items) : Sorted :=
  let s := foldl (group_item extract items) (mkGroups [] [] [0%nat]) (its items) in
  let d := extract SNone in
  let by_key := stable_sort (fun a b => ltb (key_at d (g_keys s) a) (key_at d (g_keys s) b)) (seq 1 (length (g_keys s))) in
  let n0 := nth 0 (g_counts s) 0%nat in
  let start := place_groups (g_counts s) by_key n0 (replicate (length (g_counts s)) 0%nat) in
  let n := length (its items) in
  let order := scatter (fun k => nth k (g_group s) 0%nat) (seq 0 n) start (replicate n 0%nat) in
  mkSorted ((fun k => u32 (Z.of_nat k)) <$> order) (null_start n0 ++ group_positions (g_counts s) by_key n0) n0.

Definition order_items (sorter : list Entry -> list Entry) (extract : Slot -> K) (group : bool) (items : Items) : Sorted :=
  if group then group_all extract items else sort_all sorter extract items.

End Keys.

(** An integer key as an unsigned one: a signed key has its sign bit flipped. *)
Definition signed_bits (e : Entry (K := Z)) : Z := Z.lxor (u64 e.1) (2 ^ 63).
Definition unsigned_bits (e : Entry (K := Z)) : Z := e.1.

Definition sort_items (threads : nat) (items : Items) (kind : KeyKind) (group : bool) : Sorted :=
  match kind with
  | KInt | KBool => order_items Z.ltb (radix_sort signed_bits 8) get_int group items
  | KUInt => order_items Z.ltb (radix_sort unsigned_bits 8) get_int group items
  | Float16 => order_items Z.ltb (radix_sort unsigned_bits 2) (fun s => total_order (get_bits s) 16) group items
  | Float32 => order_items Z.ltb (radix_sort unsigned_bits 4) (fun s => total_order (get_bits s) 32) group items
  | Float64 => order_items Z.ltb (radix_sort unsigned_bits 8) (fun s => total_order (get_bits s) 64) group items
  | Decimal128 => order_items int128_ltb (parallel_sort threads (entry_ltb int128_ltb)) int128_key group items
  | Decimal256 => order_items int256_ltb (parallel_sort threads (entry_ltb int256_ltb)) int256_key group items
  | Bytes =>
      order_items string_ltb (parallel_sort threads (entry_ltb string_ltb))
        (string_key (if group then 0%nat else common_prefix items)) group items
  end.

(** ** Orders of keys *)

(** A strict total order. *)
Class TotalLt {K} (ltb : K -> K -> bool) : Prop := {
  lt_irrefl : forall x, ltb x x = false;
  lt_trans : forall x y z, ltb x y = true -> ltb y z = true -> ltb x z = true;
  lt_total : forall x y, ltb x y = false -> ltb y x = false -> x = y }.

#[export] Instance Z_total : TotalLt Z.ltb.
Proof. split; intros *; rewrite ?Z.ltb_lt, ?Z.ltb_ge; lia. Qed.

#[export] Instance lex_total {A B} `{EqDecision A} (lta : A -> A -> bool) (ltb : B -> B -> bool) :
  TotalLt lta -> TotalLt ltb -> TotalLt (lex_ltb lta ltb).
Proof.
  intros HA HB. unfold lex_ltb. split.
  - intros [a b]. cbn. rewrite decide_True by done. apply lt_irrefl.
  - intros [a b] [c d] [e f]. cbn. destruct (decide (a = c)), (decide (c = e)), (decide (a = e)); subst; try done; try apply lt_trans.
    intros H1 H2. assert (lta e e = true) as E by (by eapply lt_trans). by rewrite lt_irrefl in E.
  - intros [a b] [c d]. cbn. destruct (decide (a = c)), (decide (c = a)); subst; try done; intros; [f_equal | exfalso; apply n]; by apply lt_total.
Qed.

Lemma bytes_way_range a b : bytes_way a b = -1 \/ bytes_way a b = 0 \/ bytes_way a b = 1.
Proof.
  revert b. induction a as [|x a IH]; intros [|y b]; cbn; auto. destruct (x <? y), (y <? x); auto.
Qed.

Lemma bytes_way_eq a b : bytes_way a b = 0 <-> a = b.
Proof.
  split; [|intros ->; induction b as [|y b IH]; cbn; [done | by rewrite Z.ltb_irrefl]].
  revert b. induction a as [|x a IH]; intros [|y b]; cbn; try done.
  destruct (Z.ltb_spec x y); [done|]. destruct (Z.ltb_spec y x); [done|]. intros ->%IH. f_equal. lia.
Qed.

#[export] Instance bytes_total : TotalLt bytes_ltb.
Proof.
  unfold bytes_ltb. split.
  - intros x. by rewrite (proj2 (bytes_way_eq x x) eq_refl).
  - intros x. induction x as [|a x IH]; intros [|b y] [|c z]; cbn; try done.
    destruct (Z.ltb_spec a b), (Z.ltb_spec b c), (Z.ltb_spec a c); try done; try lia;
      destruct (Z.ltb_spec b a), (Z.ltb_spec c b), (Z.ltb_spec c a); try done; try lia. apply IH.
  - intros x y. rewrite !Z.ltb_ge, (Expr.bytes_way_opp x y). intros. apply bytes_way_eq. lia.
Qed.

#[export] Instance int128_total : TotalLt int128_ltb := lex_total _ _ _ _.
#[export] Instance int256_total : TotalLt int256_ltb := lex_total _ _ _ (lex_total _ _ _ (lex_total _ _ _ _)).
#[export] Instance string_total : TotalLt string_ltb := lex_total _ _ _ _.

(** Elements compared by a key. *)
Definition by_key_ltb {T K} (ltb : K -> K -> bool) (key : T -> K) (a b : T) : bool := ltb (key a) (key b).

#[export] Instance key_weak {T K} (ltb : K -> K -> bool) (key : T -> K) : TotalLt ltb -> WeakOrder (by_key_ltb ltb key).
Proof.
  intros H. split; unfold by_key_ltb; intros x.
  - apply lt_irrefl.
  - intros y z. apply lt_trans.
  - intros y z Hxy. destruct (ltb (key x) (key z)) eqn:E1; [by left|]. right. destruct (ltb (key z) (key x)) eqn:E2; [by eapply lt_trans|].
    by rewrite <- (lt_total _ _ E1 E2).
Qed.

Lemma by_key_equiv {T K} (ltb : K -> K -> bool) (key : T -> K) `{!TotalLt ltb} x y :
  equiv (by_key_ltb ltb key) x y = true <-> key x = key y.
Proof.
  unfold equiv, by_key_ltb. rewrite andb_true_iff, !negb_true_iff. split; [intros []; by apply lt_total|].
  intros ->. by rewrite lt_irrefl.
Qed.

(** ** The reference order *)

(** Two's-complement value of a decimal's words. *)
Definition value128 (s : Slot) : Z := let w := get_limbs s in nth 0 w 0 + 2 ^ 64 * Int128.s64 (nth 1 w 0).
Definition value256 (s : Slot) : Z :=
  let w := get_limbs s in nth 0 w 0 + 2 ^ 64 * nth 1 w 0 + 2 ^ 128 * nth 2 w 0 + 2 ^ 192 * Int128.s64 (nth 3 w 0).

(** The order of values of a kind: numbers as numbers, floats in total order, strings by their bytes. *)
Definition slot_ltb (kind : KeyKind) (a b : Slot) : bool :=
  match kind with
  | KInt | KUInt | KBool => get_int a <? get_int b
  | Float16 => total_order (get_bits a) 16 <? total_order (get_bits b) 16
  | Float32 => total_order (get_bits a) 32 <? total_order (get_bits b) 32
  | Float64 => total_order (get_bits a) 64 <? total_order (get_bits b) 64
  | Bytes => bytes_ltb (get_bytes a) (get_bytes b)
  | Decimal128 => value128 a <? value128 b
  | Decimal256 => value256 a <? value256 b
  end.

(** Nulls first, in item order, then the values, ties in item order. *)
Definition reference (kind : KeyKind) (items : Items) : Sorted :=
  sort_all (slot_ltb kind) (stable_sort (fun a b => slot_ltb kind a.1 b.1)) (fun s => s) items.

(** What a slot of a kind holds. *)
Definition slot_ok (kind : KeyKind) (s : Slot) : Prop :=
  match kind with
  | KInt | KBool => - 2 ^ 63 <= get_int s < 2 ^ 63
  | KUInt => is_u64 (get_int s)
  | Float16 => 0 <= get_bits s < 2 ^ 16
  | Float32 => 0 <= get_bits s < 2 ^ 32
  | Float64 => 0 <= get_bits s < 2 ^ 64
  | Bytes => bytes_ok (get_bytes s)
  | Decimal128 => Forall is_u64 (get_limbs s) /\ length (get_limbs s) = 4%nat
  | Decimal256 => Forall is_u64 (get_limbs s) /\ length (get_limbs s) = 4%nat
  end.

Definition item_valued (items : Items) (s : Slot) : Prop :=
  exists it, it ∈ its items /\ item_null items it = false /\ item_slot items it = s.

Definition items_ok (kind : KeyKind) (items : Items) : Prop :=
  zlen (its items) <= 2 ^ 32 /\ forall s, item_valued items s -> slot_ok kind s.

Lemma entries_fmap {K} (extract : Slot -> K) items :
  entries extract items = (fun e => (extract e.1, e.2)) <$> entries (fun s => s) items.
Proof. unfold entries. rewrite <- list_fmap_compose. done. Qed.

Lemma entries_valued items e : e ∈ entries (fun s => s) items -> item_valued items e.1.
Proof.
  unfold entries, numbered. intros ((k & it) & -> & [Hn Hin]%list_elem_of_filter)%list_elem_of_fmap.
  apply elem_of_lookup_imap in Hin as (i & it' & [= -> ->] & Hi). exists it'. split_and!; [by eapply list_elem_of_lookup_2 | | done].
  cbn in Hn. by destruct (item_null items it').
Qed.

Lemma starts_fmap {K K'} (ltb : K -> K -> bool) (ltb' : K' -> K' -> bool) (f : K -> K') prev at_ l :
  (forall x y, x ∈ (from_option (fun p => [p]) [] prev ++ l) -> y ∈ l -> ltb x y = ltb' (f x) (f y)) ->
  starts ltb' (f <$> prev) at_ (f <$> l) = starts ltb prev at_ l.
Proof.
  revert prev at_. induction l as [|x l IH]; intros prev at_ H; [done|]. rewrite fmap_cons. cbn [starts]. f_equal.
  - destruct prev as [p|]; [|done]. cbn. rewrite <- H; [done | by left | by left].
  - apply (IH (Some x)). intros y z Hy Hz. apply H; [|by right]. apply elem_of_app. right. by apply elem_of_app in Hy as [->%list_elem_of_singleton|Hy]; [left|right].
Qed.

(** A sort of the keys that follow the order of the slots is the reference order. *)
Lemma sort_all_reference {K} kind (ltb : K -> K -> bool) sorter extract items :
  (forall a b, item_valued items a -> item_valued items b -> ltb (extract a) (extract b) = slot_ltb kind a b) ->
  sorter (entries extract items) = stable_sort (by_key_ltb ltb fst) (entries extract items) ->
  sort_all ltb sorter extract items = reference kind items.
Proof.
  intros Hlt Hs. unfold reference, sort_all. rewrite Hs, entries_fmap, stable_sort_fmap.
  rewrite (stable_sort_ext (fun a b => by_key_ltb ltb fst (extract a.1, a.2) (extract b.1, b.2))
    (fun a b => slot_ltb kind a.1 b.1) (entries (fun s => s) items)).
  2:{ intros x y Hx%entries_valued Hy%entries_valued. unfold by_key_ltb. cbn. auto. }
  set (l := stable_sort (fun a b => slot_ltb kind a.1 b.1) (entries (fun s => s) items)).
  assert (forall s, s ∈ l.*1 -> item_valued items s) as Hv.
  { intros s (e & -> & He)%list_elem_of_fmap. unfold l in He. rewrite stable_sort_perm in He. by apply entries_valued. }
  f_equal.
  - f_equal. by rewrite <- list_fmap_compose.
  - f_equal. rewrite <- list_fmap_compose. change (fst ∘ (fun e : Slot * Z => (extract e.1, e.2))) with (extract ∘ (fst (A := Slot) (B := Z))).
    rewrite (list_fmap_compose fst extract). apply (starts_fmap (slot_ltb kind) ltb extract None).
    intros x y Hx Hy. symmetry. cbn in Hx. auto.
Qed.

(** ** The sorters *)

Lemma sorted_filter {A} (R : A -> A -> Prop) (P : A -> Prop) `{!forall x, Decision (P x)} l :
  StronglySorted R l -> StronglySorted R (filter P l).
Proof.
  induction 1 as [|x l Hl IH Hx]; [constructor|]. rewrite filter_cons. destruct (decide _); [|done]. constructor; [done|].
  rewrite Forall_forall in Hx |- *. intros y [_ Hy]%list_elem_of_filter. auto.
Qed.

Lemma sorted_fmap {A B} (R : A -> A -> Prop) (R' : B -> B -> Prop) (f : A -> B) l :
  (forall x y, R x y -> R' (f x) (f y)) -> StronglySorted R l -> StronglySorted R' (f <$> l).
Proof.
  intros Hf. induction 1 as [|x l Hl IH Hx]; [constructor|]. rewrite fmap_cons. constructor; [done|].
  apply Forall_fmap. eapply Forall_impl; [exact Hx|]. cbn. auto.
Qed.

Lemma numbered_sorted items : zlen (its items) <= 2 ^ 32 -> StronglySorted (fun a b => a.1 < b.1) (numbered items).
Proof.
  unfold numbered, zlen. intros Hn.
  assert (forall (l : list Item) k, Z.of_nat (k + length l) <= 2 ^ 32 ->
    StronglySorted (fun a b : Z * Item => a.1 < b.1) (imap (fun i it => (u32 (Z.of_nat (k + i)), it)) l)) as H; [|by apply (H _ 0%nat)].
  clear items Hn. induction l as [|it l IH]; intros k Hk; [constructor|]. cbn [length] in Hk. rewrite imap_cons. constructor.
  - rewrite (imap_ext _ (fun i it => (u32 (Z.of_nat (S k + i)), it))); [apply IH; lia|]. intros i x _. cbn. do 3 f_equal. lia.
  - apply Forall_forall. intros e (i & x & -> & Hi%lookup_lt_Some)%elem_of_lookup_imap. cbn.
    rewrite !u32_small by (unfold is_u32; lia). lia.
Qed.

Lemma entries_sorted {K} (extract : Slot -> K) items :
  zlen (its items) <= 2 ^ 32 -> StronglySorted (fun a b : Entry => a.2 < b.2) (entries extract items).
Proof.
  intros Hn. unfold entries. eapply sorted_fmap; [|by apply sorted_filter, numbered_sorted]. done.
Qed.

Section Sorters.
Context {K : Type} (ltb : K -> K -> bool) `{!TotalLt ltb}.

#[export] Instance entry_total : TotalLt (entry_ltb ltb).
Proof.
  unfold entry_ltb. split.
  - intros [k i]. cbn. by rewrite lt_irrefl, Z.ltb_irrefl.
  - intros [k1 i1] [k2 i2] [k3 i3]. cbn. rewrite !orb_true_iff, !andb_true_iff, !negb_true_iff, !Z.ltb_lt.
    intros [H1|[H1 H1']] [H2|[H2 H2']].
    + left. by eapply lt_trans.
    + left. destruct (ltb k2 k3) eqn:E; [by eapply lt_trans | by rewrite <- (lt_total _ _ E H2)].
    + left. destruct (ltb k1 k2) eqn:E; [by eapply lt_trans | by rewrite (lt_total _ _ E H1)].
    + destruct (ltb k1 k2) eqn:E1; [left|].
      * destruct (ltb k2 k3) eqn:E2; [by eapply lt_trans | by rewrite <- (lt_total _ _ E2 H2)].
      * rewrite (lt_total _ _ E1 H1) in *. right. split; [done | lia].
  - intros [k1 i1] [k2 i2]. cbn. rewrite !orb_false_iff, !andb_false_iff, !negb_false_iff, !Z.ltb_ge.
    intros [H1 [H1'|H1']] [H2 [H2'|H2']]; try congruence. f_equal; [by apply lt_total | lia].
Qed.

(** The parallel sort, by key and then item number, of entries in item order is the stable sort by key. *)
Lemma parallel_entries threads (l : list (Entry (K := K))) :
  StronglySorted (fun a b => a.2 < b.2) l ->
  parallel_sort threads (entry_ltb ltb) l = stable_sort (by_key_ltb ltb fst) l.
Proof.
  intros Ha. assert (WeakOrder (entry_ltb ltb)) by apply (key_weak (entry_ltb ltb) (fun e => e) _).
  rewrite parallel_sort_stable.
  2:{ done. }
  2:{ intros x y _ _ E. by apply (by_key_equiv (entry_ltb ltb) (fun e => e)) in E. }
  apply sort_is_stable; [apply _|]. destruct (stable_sort_spec (entry_ltb ltb) l) as [Hs _].
  pose proof (stable_sort_perm (entry_ltb ltb) l) as Hp. set (out := stable_sort (entry_ltb ltb) l) in *. clearbody out. split.
  - eapply StronglySorted_weaken; [|exact Hs]. intros a b. unfold entry_ltb, by_key_ltb. by intros [? _]%orb_false_iff.
  - intros x. apply (StronglySorted_unique_strong (fun a b : Entry => a.2 <= b.2)).
    + intros a b [_ Hx]%list_elem_of_filter [_ Hy]%list_elem_of_filter H1 H2. rewrite Hp in Hx.
      assert (a.2 = b.2) as E by lia. clear - Ha Hx Hy E. induction Ha as [|e l Hl IH He]; [by apply elem_of_nil in Hx|].
      rewrite Forall_forall in He. apply elem_of_cons in Hx as [->|Hx], Hy as [->|Hy]; [done | | |auto].
      * specialize (He b Hy). lia.
      * specialize (He a Hx). lia.
    + assert (forall t : list Entry, (forall y, y ∈ t -> y.1 = x.1) -> sorted (entry_ltb ltb) t ->
        StronglySorted (fun a b : Entry => a.2 <= b.2) t) as Hgen.
      { clear - TotalLt0. intros t Hk Hs. induction Hs as [|a t Hl IH Hx]; [constructor|].
        constructor; [apply IH; intros; apply Hk; by right|].
        rewrite Forall_forall in Hx |- *. intros b Hb. specialize (Hx b Hb). unfold entry_ltb in Hx.
        apply orb_false_iff in Hx as [_ [E|E%Z.ltb_ge]%andb_false_iff]; [|lia].
        rewrite (Hk a), (Hk b), lt_irrefl in E; [done | by right | by left]. }
      apply Hgen; [|by apply sorted_filter]. intros y [E%Is_true_true _]%list_elem_of_filter.
      by apply (by_key_equiv ltb fst) in E.
    + eapply StronglySorted_weaken; [|apply sorted_filter, Ha]. intros; cbn in *; lia.
    + by rewrite Hp.
Qed.

End Sorters.

(** The radix sort of integer keys, by what it turns them into. *)
Lemma radix_entries kBytes bits (l : list (Entry (K := Z))) :
  (forall e, e ∈ l -> 0 <= bits e < 256 ^ Z.of_nat kBytes) ->
  (forall a b, a ∈ l -> b ∈ l -> (bits a <? bits b) = (a.1 <? b.1)) ->
  radix_sort bits kBytes l = stable_sort (by_key_ltb Z.ltb fst) l.
Proof. intros Hr Hb. rewrite radix_sort_stable by done. by apply stable_sort_ext. Qed.

Lemma lxor_high x : 0 <= x < 2 ^ 63 -> Z.lxor x (2 ^ 63) = x + 2 ^ 63.
Proof.
  intros H. symmetry. apply Z.add_nocarry_lxor.
  apply Z.bits_inj'. intros n Hn. rewrite Z.land_spec, Z.bits_0, Z.pow2_bits_eqb by lia.
  destruct (Z.eqb_spec 63 n) as [<-|]; [|apply andb_false_r]. rewrite andb_true_r.
  apply (proj1 (Z.bounded_iff_bits_nonneg 63 x ltac:(lia) ltac:(lia)) ltac:(lia)). lia.
Qed.

Lemma signed_bits_eq e : - 2 ^ 63 <= e.1 < 2 ^ 63 -> signed_bits e = e.1 + 2 ^ 63.
Proof.
  intros H. unfold signed_bits, u64, wrap. destruct (Z.ltb_spec e.1 0) as [Hn|Hn].
  - rewrite <- (Z.mod_add e.1 1), Z.mod_small by lia. replace (e.1 + 1 * 2 ^ 64) with ((e.1 + 2 ^ 63) + 2 ^ 63) by lia.
    rewrite <- lxor_high, Z.lxor_assoc, Z.lxor_nilpotent, Z.lxor_0_r by lia. done.
  - rewrite Z.mod_small by lia. apply lxor_high. lia.
Qed.

(** ** String keys *)

(** The first byte two strings differ in, zeros past their ends, decides their order. *)
Lemma bytes_first_difference j a b :
  bytes_ok a -> bytes_ok b -> (forall i, (i < j)%nat -> nth i a 0 = nth i b 0) -> nth j a 0 < nth j b 0 -> bytes_way a b = -1.
Proof.
  revert a b. induction j as [|j IH]; intros a b Ha Hb He Hlt.
  - destruct a as [|x a], b as [|y b]; cbn in *; [lia | done | apply Forall_cons in Ha as [Hx _]; unfold is_u8 in Hx; lia |].
    by apply Z.ltb_lt in Hlt as ->.
  - destruct a as [|x a], b as [|y b]; [cbn in *; lia | done | |].
    + apply Forall_cons in Ha as [_ Ha]. cbn in Hlt. rewrite nth_lookup in Hlt. destruct (a !! j) as [z|] eqn:E; cbn in Hlt; [|lia].
      apply (Forall_lookup_1 _ _ _ _ Ha) in E. unfold is_u8 in E. lia.
    + apply Forall_cons in Ha as [_ Ha], Hb as [_ Hb]. pose proof (He 0%nat ltac:(lia)) as E. cbn in E. subst y. cbn.
      rewrite Z.ltb_irrefl. apply IH; [done | done | | done]. intros i Hi. apply (He (S i)). lia.
Qed.

Lemma prefix_step_eq s m p k : bytes_ok s -> 0 <= p < 256 ^ m -> 0 <= m < 8 -> prefix_step s p k = p * 256 + nth k s 0.
Proof.
  intros Hs Hp Hm. unfold prefix_step. pose proof (nth_byte s k Hs) as Hb. rewrite Z.lor_comm, lor_shiftl_add by lia.
  assert (256 ^ m <= 256 ^ 7) by (apply Z.pow_le_mono_r; lia). change (256 ^ 7) with (2 ^ 56) in *.
  rewrite u64_small by (unfold is_u64; lia). lia.
Qed.

(** The bytes of a prefix from place [k] on, after [m] bytes. *)
Lemma prefix_bound s n m p k :
  bytes_ok s -> 0 <= p < 256 ^ m -> 0 <= m -> m + Z.of_nat n <= 8 ->
  p * 256 ^ Z.of_nat n <= foldl (prefix_step s) p (seq k n) < (p + 1) * 256 ^ Z.of_nat n.
Proof.
  intros Hs. revert m p k. induction n as [|n IH]; intros m p k Hp Hm Hn; [cbn; lia|]. cbn [seq foldl].
  rewrite (prefix_step_eq s m) by (done || lia). pose proof (nth_byte s k Hs) as Hb. rewrite Nat2Z.inj_succ, Z.pow_succ_r by lia.
  assert (0 <= p * 256 + nth k s 0 < 256 ^ (m + 1)) as Hr by (rewrite Z.pow_add_r by lia; lia).
  specialize (IH (m + 1) (p * 256 + nth k s 0) (S k) Hr ltac:(lia) ltac:(lia)). nia.
Qed.

Lemma prefix_compare a b n m p k :
  bytes_ok a -> bytes_ok b -> 0 <= p < 256 ^ m -> 0 <= m -> m + Z.of_nat n <= 8 ->
  foldl (prefix_step a) p (seq k n) = foldl (prefix_step b) p (seq k n) \/
  exists j, (forall i, (k <= i < j)%nat -> nth i a 0 = nth i b 0) /\
    ((nth j a 0 < nth j b 0 /\ foldl (prefix_step a) p (seq k n) < foldl (prefix_step b) p (seq k n)) \/
     (nth j b 0 < nth j a 0 /\ foldl (prefix_step b) p (seq k n) < foldl (prefix_step a) p (seq k n))).
Proof.
  intros Ha Hb. revert m p k. induction n as [|n IH]; intros m p k Hp Hm Hn; [by left|]. cbn [seq foldl].
  rewrite !(prefix_step_eq _ m) by (done || lia). pose proof (nth_byte a k Ha) as Hx. pose proof (nth_byte b k Hb) as Hy.
  assert (256 ^ (m + 1) = 256 ^ m * 256) as Hpow by (rewrite Z.pow_add_r by lia; lia).
  destruct (Z.lt_total (nth k a 0) (nth k b 0)) as [Hlt|[Heq|Hgt]].
  - right. exists k. split; [lia|]. left. split; [done|].
    pose proof (prefix_bound a n (m + 1) (p * 256 + nth k a 0) (S k) Ha ltac:(lia) ltac:(lia) ltac:(lia)).
    pose proof (prefix_bound b n (m + 1) (p * 256 + nth k b 0) (S k) Hb ltac:(lia) ltac:(lia) ltac:(lia)). nia.
  - rewrite Heq. destruct (IH (m + 1) (p * 256 + nth k b 0) (S k)) as [E|(j & Hj & H)]; [lia | lia | lia | by left |].
    right. exists j. split; [|done]. intros i Hi. destruct (decide (i = k)) as [->|]; [done | apply Hj; lia].
  - right. exists k. split; [lia|]. right. split; [done|].
    pose proof (prefix_bound a n (m + 1) (p * 256 + nth k a 0) (S k) Ha ltac:(lia) ltac:(lia) ltac:(lia)).
    pose proof (prefix_bound b n (m + 1) (p * 256 + nth k b 0) (S k) Hb ltac:(lia) ltac:(lia) ltac:(lia)). nia.
Qed.

(** String keys past a prefix both strings share order as the strings do. *)
Lemma string_key_order skip x y :
  bytes_ok (get_bytes x) -> bytes_ok (get_bytes y) ->
  (forall i, (i < skip)%nat -> nth i (get_bytes x) 0 = nth i (get_bytes y) 0) ->
  string_ltb (string_key skip x) (string_key skip y) = bytes_ltb (get_bytes x) (get_bytes y).
Proof.
  unfold string_ltb, string_key, lex_ltb, bytes_ltb. cbn [fst snd]. set (a := get_bytes x). set (b := get_bytes y). intros Ha Hb Hs.
  destruct (prefix_compare a b 8 0 0 skip Ha Hb ltac:(split; done) ltac:(lia) ltac:(lia)) as [E|(j & Hj & H)];
    [by rewrite decide_True |].
  assert (forall i, (i < j)%nat -> nth i a 0 = nth i b 0) as Hall.
  { intros i Hi. destruct (decide (i < skip)%nat); [by apply Hs | apply Hj; lia]. }
  rewrite decide_False by lia. destruct H as [[H1 H2]|[H1 H2]].
  - rewrite (bytes_first_difference j a b) by done. by apply Z.ltb_lt in H2 as ->.
  - rewrite (Expr.bytes_way_opp b a), (bytes_first_difference j b a) by (done || (intros; symmetry; by apply Hall)).
    apply Z.ltb_ge. lia.
Qed.

Lemma shared_spec f t limit :
  (shared f t limit <= limit)%nat /\ forall i, (i < shared f t limit)%nat -> nth i f 0 = nth i t 0.
Proof.
  revert f t. induction limit as [|limit IH]; intros f t; [cbn; split; [lia | intros; lia]|].
  destruct f as [|x f], t as [|y t]; cbn; try (split; [lia | intros; lia]).
  destruct (Z.eqb_spec x y) as [->|]; [|split; [lia | intros; lia]]. destruct (IH f t) as [H1 H2]. split; [lia|].
  intros [|i] Hi; [done|]. apply H2. lia.
Qed.

(** Every string of the items agrees with the first in the bytes counted. *)
Lemma common_prefix_loop_spec items l f len :
  (common_prefix_loop items l (Some (f, len)) <= len)%nat /\
  forall it i, it ∈ l -> item_null items it = false -> (i < common_prefix_loop items l (Some (f, len)))%nat ->
    nth i f 0 = nth i (get_bytes (item_slot items it)) 0.
Proof.
  revert len. induction l as [|it l IH]; intros len; cbn [common_prefix_loop]; [split; [done | by intros ? ? ?%elem_of_nil]|].
  destruct len as [|len]; [split; [done | intros; lia]|]. destruct (item_null items it) eqn:En.
  - destruct (IH (S len)) as [H1 H2]. split; [done|]. intros it' i [->|Hi]%elem_of_cons; [congruence | by apply H2].
  - set (t := get_bytes (item_slot items it)). set (lim := Nat.min (S len) (length t)).
    destruct (shared_spec f t lim) as [S1 S2]. destruct (IH (shared f t lim)) as [H1 H2]. split; [lia|].
    intros it' i [->|Hi]%elem_of_cons Hn Hlt; [apply S2; lia | by apply H2].
Qed.

Lemma common_prefix_spec items x y i :
  item_valued items x -> item_valued items y -> (i < common_prefix items)%nat -> nth i (get_bytes x) 0 = nth i (get_bytes y) 0.
Proof.
  unfold common_prefix, item_valued. generalize (its items). intros l (a & Ha & Na & <-) (b & Hb & Nb & <-).
  induction l as [|it l IH]; [by apply elem_of_nil in Ha|]. cbn [common_prefix_loop]. destruct (item_null items it) eqn:En.
  - apply elem_of_cons in Ha as [->|Ha], Hb as [->|Hb]; [congruence.. | auto].
  - set (t := get_bytes (item_slot items it)). destruct (common_prefix_loop_spec items l t (length t)) as [_ H]. intros Hi.
    assert (forall c, c ∈ it :: l -> item_null items c = false -> nth i t 0 = nth i (get_bytes (item_slot items c)) 0) as Hc.
    { intros c [->|Hc]%elem_of_cons Hn; [done | by apply H]. }
    by rewrite <- !Hc.
Qed.

(** ** Grouping *)

Section Grouping.
Context {K : Type} `{EqDecision K} (ltb : K -> K -> bool) `{!TotalLt ltb} (extract : Slot -> K) (items : Items).

Notation key_of it := (extract (item_slot items it)).
Notation null := (item_null items).

Lemma place_of_le (key : K) keys : (place_of key keys <= length keys)%nat.
Proof. induction keys as [|k keys IH]; [done|]. cbn. case_decide; lia. Qed.

Lemma place_of_absent (key : K) keys : place_of key keys = length keys <-> key ∉ keys.
Proof.
  induction keys as [|k keys IH]; cbn; [split; [intros _; apply not_elem_of_nil | done]|]. rewrite not_elem_of_cons. case_decide as E.
  - split; [done | by intros []].
  - split; [intros H; split; [done | apply IH; lia] | intros [_ H]; by rewrite (proj2 IH)].
Qed.

Lemma place_of_present (key : K) keys d : key ∈ keys -> (place_of key keys < length keys)%nat /\ nth (place_of key keys) keys d = key.
Proof.
  induction keys as [|k keys IH]; [by intros ?%elem_of_nil|]. cbn. case_decide as E; [subst; split; [lia | done]|].
  intros [?|H]%elem_of_cons; [done|]. destruct (IH H). split; [lia | done].
Qed.

Lemma place_of_app (key : K) keys ext : key ∈ keys -> place_of key (keys ++ ext) = place_of key keys.
Proof.
  induction keys as [|k keys IH]; [by intros ?%elem_of_nil|]. cbn. case_decide as E; [done|].
  intros [?|H]%elem_of_cons; [done|]. by rewrite IH.
Qed.

Lemma place_of_snoc (key : K) keys : key ∉ keys -> place_of key (keys ++ [key]) = length keys.
Proof.
  induction keys as [|k keys IH]; cbn; [by rewrite decide_True|]. intros [Hn H]%not_elem_of_cons.
  rewrite decide_False by done. by rewrite IH.
Qed.

Lemma place_of_nth keys i (d : K) : NoDup keys -> (i < length keys)%nat -> place_of (nth i keys d) keys = i.
Proof.
  intros Hd. revert i. induction Hd as [|k keys Hk Hd IH]; intros i Hi; cbn in *; [lia|]. destruct i as [|i].
  - by rewrite decide_True.
  - cbn. rewrite decide_False; [f_equal; apply IH; lia|]. intros E. apply Hk. rewrite <- E. rewrite nth_lookup.
    destruct (keys !! i) eqn:El; [by eapply list_elem_of_lookup_2 | apply lookup_ge_None in El; lia].
Qed.

(** The group of an item, given the keys. *)
Definition gid (keys : list K) (it : Item) : nat := if null it then 0%nat else S (place_of (key_of it) keys).

Lemma gid_null keys it : null it = true -> gid keys it = 0%nat.
Proof. unfold gid. by intros ->. Qed.
Lemma gid_key keys it : null it = false -> gid keys it = S (place_of (key_of it) keys).
Proof. unfold gid. by intros ->. Qed.

Record groups_inv (seen : list Item) (s : Groups (K := K)) : Prop := {
  gi_nodup : NoDup (g_keys s);
  gi_group : g_group s = gid (g_keys s) <$> seen;
  gi_keys : forall it, it ∈ seen -> null it = false -> key_of it ∈ g_keys s;
  gi_length : length (g_counts s) = S (length (g_keys s));
  gi_counts : forall g, (g <= length (g_keys s))%nat -> nth g (g_counts s) 0%nat = length (filter (fun x => x = g) (g_group s));
  gi_some : forall g, (1 <= g <= length (g_keys s))%nat -> g ∈ g_group s }.

Lemma bump_nth g h counts : (g < length counts)%nat -> nth h (bump g counts) 0%nat = (nth h counts 0 + if decide (g = h) then 1 else 0)%nat.
Proof.
  intros Hg. unfold bump. rewrite !(nth_lookup _ h), list_lookup_insert. destruct (decide (g = h)) as [->|].
  - rewrite decide_True by done. cbn. rewrite nth_lookup. lia.
  - rewrite decide_False by (intros [? _]; done). lia.
Qed.

Lemma filter_snoc_length (l : list nat) x g :
  length (filter (fun y => y = g) (l ++ [x])) = (length (filter (fun y => y = g) l) + if decide (x = g) then 1 else 0)%nat.
Proof. rewrite filter_app, length_app, filter_cons, filter_nil. by destruct (decide (x = g)). Qed.

Lemma group_item_inv seen s it : groups_inv seen s -> groups_inv (seen ++ [it]) (group_item extract items s it).
Proof.
  intros [Hd Hg Hk Hl Hc Hs]. unfold group_item. destruct (null it) eqn:En.
  - split; cbn [g_keys g_group g_counts]; [done | | | by unfold bump; rewrite length_insert | |].
    + rewrite Hg, fmap_app, fmap_cons, fmap_nil. by rewrite gid_null.
    + intros x [Hx| ->%list_elem_of_singleton]%elem_of_app Hn; [auto | congruence].
    + intros g Hle. rewrite bump_nth, filter_snoc_length, Hc by lia. done.
    + intros g Hle. apply elem_of_app. left. auto.
  - set (key := key_of it). set (id := S (place_of key (g_keys s))). pose proof (place_of_le key (g_keys s)) as Hle.
    assert (forall l : list Item, (forall x, x ∈ l -> null x = false -> key_of x ∈ g_keys s) ->
      gid (g_keys s ++ [key]) <$> l = gid (g_keys s) <$> l) as Hold.
    { intros l H. apply list_fmap_ext. intros i x Hx%list_elem_of_lookup_2. unfold gid. destruct (null x) eqn:Ex; [done|].
      by rewrite place_of_app by auto. }
    destruct (Nat.eqb_spec id (S (length (g_keys s)))) as [E|E].
    + assert (key ∉ g_keys s) as Hnk by (apply place_of_absent; unfold id in E; lia). split; cbn [g_keys g_group g_counts].
      * apply NoDup_app. split_and!; [done | | apply NoDup_singleton]. intros x Hx ->%list_elem_of_singleton. done.
      * rewrite Hg, fmap_app, fmap_cons, fmap_nil, Hold by done. rewrite gid_key by done. fold key. by rewrite place_of_snoc, E.
      * intros x [Hx| ->%list_elem_of_singleton]%elem_of_app Hn; apply elem_of_app; [left; auto | right; by left].
      * unfold bump. rewrite length_insert, !length_app, Hl. cbn. lia.
      * intros g Hle'. rewrite length_app in Hle'. cbn in Hle'. rewrite bump_nth by (rewrite length_app, Hl, E; cbn; lia).
        rewrite filter_snoc_length. f_equal. destruct (decide (g = S (length (g_keys s)))) as [->|].
        -- rewrite app_nth2, Hl, Nat.sub_diag by lia. cbn. symmetry.
           rewrite filter_none; [done|]. intros x Hx ->. rewrite Hg in Hx. apply list_elem_of_fmap in Hx as (y & Ey & Hy).
           unfold gid in Ey. destruct (null y) eqn:Eny; [done|].
           destruct (place_of_present (key_of y) (g_keys s) key (Hk y Hy Eny)). lia.
        -- rewrite app_nth1 by lia. apply Hc. lia.
      * intros g Hle'. rewrite length_app in Hle'. cbn in Hle'. apply elem_of_app. destruct (decide (g = id)) as [->|]; [right; by left|].
        left. apply Hs. lia.
    + assert (key ∈ g_keys s) as Hnk.
      { destruct (decide (key ∈ g_keys s)) as [|Hn]; [done|]. apply place_of_absent in Hn. unfold id in E. lia. }
      destruct (place_of_present key (g_keys s) key Hnk) as [Hlt _]. split; cbn [g_keys g_group g_counts]; [done | | | by unfold bump; rewrite length_insert | |].
      * rewrite Hg, fmap_app, fmap_cons, fmap_nil. by rewrite gid_key.
      * intros x [Hx| ->%list_elem_of_singleton]%elem_of_app Hn; [auto | done].
      * intros g Hle'. rewrite bump_nth, filter_snoc_length, Hc by (unfold id in *; lia). done.
      * intros g Hle'. apply elem_of_app. left. auto.
Qed.

Lemma groups_of_items : groups_inv (its items) (foldl (group_item extract items) (mkGroups [] [] [0%nat]) (its items)).
Proof.
  assert (forall rest seen s, groups_inv seen s -> groups_inv (seen ++ rest) (foldl (group_item extract items) s rest)) as H.
  { induction rest as [|it rest IH]; intros seen s Hs; [by rewrite app_nil_r|]. cbn [foldl].
    replace (seen ++ it :: rest) with ((seen ++ [it]) ++ rest) by (by rewrite <- app_assoc). by apply IH, group_item_inv. }
  apply (H (its items) []). split; cbn; try done; [constructor | by intros ? ?%elem_of_nil | | intros; lia].
  intros g Hg. by assert (g = 0%nat) as -> by lia.
Qed.

(** Items by number. *)
Definition item_at (k : nat) : Item := nth k (its items) (mkItem 0 0 0).
Notation numbers := (seq 0 (length (its items))).

Lemma numbered_seq : numbered items = (fun k => (u32 (Z.of_nat k), item_at k)) <$> numbers.
Proof.
  unfold numbered, item_at. apply list_eq. intros i. rewrite list_lookup_imap, list_lookup_fmap.
  destruct (its items !! i) as [it|] eqn:E.
  - rewrite lookup_seq_lt by (by apply lookup_lt_Some in E). cbn. by rewrite nth_lookup, E.
  - rewrite lookup_seq_ge by (by apply lookup_ge_None). done.
Qed.

Lemma filter_image {A B} (f : A -> B) (P : B -> Prop) `{!forall x, Decision (P x)} (l : list A) :
  filter P (f <$> l) = f <$> filter (fun x => P (f x)) l.
Proof.
  induction l as [|x l IH]; [done|]. rewrite fmap_cons, !filter_cons, IH. by destruct (decide (P (f x))).
Qed.

Lemma null_order_seq : null_order items = (fun k => u32 (Z.of_nat k)) <$> filter (fun k => null (item_at k)) numbers.
Proof. unfold null_order. rewrite numbered_seq, filter_image. by rewrite <- list_fmap_compose. Qed.

Lemma entries_seq :
  entries extract items = (fun k => (key_of (item_at k), u32 (Z.of_nat k))) <$> filter (fun k => negb (null (item_at k))) numbers.
Proof. unfold entries. rewrite numbered_seq, filter_image. by rewrite <- list_fmap_compose. Qed.

Lemma item_at_elem k : k ∈ numbers -> item_at k ∈ its items.
Proof.
  intros Hk%elem_of_seq. unfold item_at. rewrite nth_lookup. destruct (its items !! k) eqn:E.
  - by eapply list_elem_of_lookup_2.
  - apply lookup_ge_None in E. lia.
Qed.

Section Final.
Context (s : Groups (K := K)) (Hs : groups_inv (its items) s).

Definition bucket (k : nat) : nat := nth k (g_group s) 0%nat.
Definition keys_order : list nat :=
  stable_sort (fun a b => ltb (key_at (extract SNone) (g_keys s) a) (key_at (extract SNone) (g_keys s) b)) (seq 1 (length (g_keys s))).

Lemma bucket_gid k : k ∈ numbers -> bucket k = gid (g_keys s) (item_at k).
Proof.
  intros Hk%elem_of_seq. unfold bucket, item_at. rewrite (gi_group _ _ Hs), !nth_lookup, list_lookup_fmap.
  destruct (its items !! k) eqn:E; [done|]. apply lookup_ge_None in E. lia.
Qed.

Lemma bucket_count g : (g <= length (g_keys s))%nat -> nth g (g_counts s) 0%nat = length (bucket_of bucket numbers g).
Proof.
  intros Hg. rewrite (gi_counts _ _ Hs) by done. unfold bucket_of.
  assert (g_group s = bucket <$> numbers) as ->.
  { apply list_eq. intros i. rewrite list_lookup_fmap. unfold bucket.
    assert (length (g_group s) = length (its items)) as Hl by (rewrite (gi_group _ _ Hs); apply length_fmap).
    destruct (decide (i < length (its items))%nat) as [Hi|Hi].
    - rewrite lookup_seq_lt by done. cbn. rewrite nth_lookup. destruct (g_group s !! i) eqn:E; [done|]. apply lookup_ge_None in E. lia.
    - rewrite lookup_seq_ge by lia. apply lookup_ge_None. lia. }
  rewrite filter_image, length_fmap. done.
Qed.

Lemma keys_order_perm : keys_order ≡ₚ seq 1 (length (g_keys s)).
Proof. apply stable_sort_perm. Qed.

Lemma keys_order_elem g : g ∈ keys_order <-> (1 <= g <= length (g_keys s))%nat.
Proof. rewrite keys_order_perm, elem_of_seq. lia. Qed.

Lemma key_at_bucket k :
  k ∈ numbers -> null (item_at k) = false ->
  bucket k ∈ keys_order /\ key_at (extract SNone) (g_keys s) (bucket k) = key_of (item_at k).
Proof.
  intros Hk Hn. rewrite bucket_gid, gid_key by done.
  destruct (place_of_present (key_of (item_at k)) (g_keys s) (extract SNone)) as [H1 H2]; [by apply (gi_keys _ _ Hs), Hn; apply item_at_elem|].
  split; [apply keys_order_elem; lia|]. unfold key_at. by rewrite Nat.sub_succ, Nat.sub_0_r.
Qed.

Lemma bucket_zero k : k ∈ numbers -> bucket k = 0%nat <-> null (item_at k) = true.
Proof. intros Hk. rewrite bucket_gid by done. unfold gid. by destruct (null (item_at k)). Qed.

(** Distinct groups have distinct keys, so their order is strict. *)
Lemma keys_order_sorted :
  StronglySorted (fun g h => ltb (key_at (extract SNone) (g_keys s) g) (key_at (extract SNone) (g_keys s) h) = true) keys_order.
Proof.
  set (key := key_at (extract SNone) (g_keys s)).
  destruct (stable_sort_spec (by_key_ltb ltb key) (seq 1 (length (g_keys s)))) as [Hsort _]. fold keys_order in Hsort.
  change (stable_sort (by_key_ltb ltb key) (seq 1 (length (g_keys s)))) with keys_order in Hsort.
  assert (NoDup keys_order) as Hd by (rewrite keys_order_perm; apply NoDup_seq).
  assert (forall g, g ∈ keys_order -> (1 <= g <= length (g_keys s))%nat) as Hr by (intros g; apply keys_order_elem).
  induction Hsort as [|g l Hl IH Hg]; [constructor|]. apply NoDup_cons in Hd as [Hn Hd].
  constructor; [apply IH; [done | intros; apply Hr; by right]|]. rewrite Forall_forall in Hg |- *. intros h Hh.
  specialize (Hg h Hh). unfold by_key_ltb in Hg. destruct (ltb (key g) (key h)) eqn:E; [done|]. exfalso.
  assert (g = h) as ->; [|done]. pose proof (lt_total _ _ E Hg) as Ek. unfold key, key_at in Ek.
  pose proof (Hr g ltac:(by left)). pose proof (Hr h ltac:(by right)).
  pose proof (place_of_nth (g_keys s) (g - 1) (extract SNone) (gi_nodup _ _ Hs) ltac:(lia)) as P1.
  pose proof (place_of_nth (g_keys s) (h - 1) (extract SNone) (gi_nodup _ _ Hs) ltac:(lia)) as P2.
  rewrite Ek, P2 in P1. lia.
Qed.

Notation key := (key_at (extract SNone) (g_keys s)).
Notation valued := (filter (fun k => negb (null (item_at k))) numbers).

Lemma bucket_key g k : g ∈ keys_order -> k ∈ bucket_of bucket numbers g -> k ∈ valued /\ key_of (item_at k) = key g.
Proof.
  intros Hg%keys_order_elem [Hb Hk]%list_elem_of_filter. destruct (null (item_at k)) eqn:En.
  - apply bucket_zero in En; [lia | done].
  - destruct (key_at_bucket k Hk En) as [_ H]. split; [apply list_elem_of_filter; by rewrite En | by rewrite <- Hb].
Qed.

(** The groups in the order of their keys are the values in stable order. *)
Lemma groups_stable :
  concat (bucket_of bucket numbers <$> keys_order) = stable_sort (by_key_ltb ltb (fun k => key_of (item_at k))) valued.
Proof.
  apply sort_is_stable; [apply _|]. split.
  - apply (concat_sorted _ (fun g h => ltb (key g) (key h) = true)); [| |apply keys_order_sorted].
    + intros g Hg. assert (forall l : list nat, (forall k, k ∈ l -> key_of (item_at k) = key g) ->
        sorted (by_key_ltb ltb (fun k => key_of (item_at k))) l) as H; [|apply H; intros k Hk; by apply bucket_key].
      clear - TotalLt0. induction l as [|k l IH]; intros H; [constructor|]. constructor; [apply IH; intros; apply H; by right|].
      apply Forall_forall. intros k' Hk'. unfold by_key_ltb. rewrite !H; [apply lt_irrefl | by left | by right].
    + intros g h x y Hg Hh Hlt Hx Hy. apply bucket_key in Hx as [_ Hx], Hy as [_ Hy]; [|done..]. unfold by_key_ltb.
      rewrite Hx, Hy. destruct (ltb (key h) (key g)) eqn:E; [|done]. pose proof (lt_trans _ _ _ Hlt E) as C. by rewrite lt_irrefl in C.
  - intros x. set (kappa := key_of (item_at x)).
    assert (NoDup keys_order) as Hd by (rewrite keys_order_perm; apply NoDup_seq).
    rewrite (filter_buckets _ _ _ (S (place_of kappa (g_keys s))) Hd).
    2:{ intros g k Hg Hk E%Is_true_true. apply (by_key_equiv ltb (fun k => key_of (item_at k))) in E. fold kappa in E.
        pose proof Hk as [Hb Hk']%list_elem_of_filter. destruct (bucket_key g k Hg Hk) as [[Hn%negb_prop_elim _]%list_elem_of_filter _].
        rewrite E, <- Hb, bucket_gid, gid_key by (done || by destruct (null (item_at k))). done. }
    case_decide as Hp.
    + apply keys_order_elem in Hp. unfold bucket_of. rewrite !list_filter_filter. apply filter_ext_in. intros k Hk.
      rewrite Is_true_true, (by_key_equiv ltb (fun k => key_of (item_at k))). fold kappa.
      destruct (null (item_at k)) eqn:En.
      * rewrite bucket_gid, gid_null by done. split; [by intros [_ ?] | by intros [_ ?]].
      * rewrite bucket_gid, gid_key by done. split; [by intros [? _] | intros [E _]; by rewrite E].
    + symmetry. apply filter_none. intros k [Hn Hk]%list_elem_of_filter E%Is_true_true.
      apply (by_key_equiv ltb (fun k => key_of (item_at k))) in E. fold kappa in E. apply Hp.
      destruct (null (item_at k)) eqn:En; [done|]. destruct (key_at_bucket k Hk En) as [H _].
      by rewrite bucket_gid, gid_key, <- E in H.
Qed.

(** Where the groups start. *)
Lemma place_groups_nth p at_ start g :
  NoDup p -> (forall x, x ∈ p -> (x < length start)%nat) ->
  (g ∉ p -> nth g (place_groups (g_counts s) p at_ start) 0%nat = nth g start 0%nat) /\
  forall p1 p2, p = p1 ++ g :: p2 ->
    nth g (place_groups (g_counts s) p at_ start) 0%nat = (at_ + sum_list ((fun x => nth x (g_counts s) 0%nat) <$> p1))%nat.
Proof.
  intros Hd. revert at_ start. induction Hd as [|x p Hx Hd IH]; intros at_ start Hlt; [split; [done | by intros [] ?]|].
  cbn [place_groups]. destruct (IH (at_ + nth x (g_counts s) 0)%nat (<[x := at_]> start)) as [I1 I2].
  { intros y Hy. rewrite length_insert. apply Hlt. by right. }
  split.
  - intros [Hne Hn]%not_elem_of_cons. rewrite I1 by done. by rewrite !nth_lookup, list_lookup_insert_ne.
  - intros [|y p1] p2 [= -> Hp].
    + rewrite I1 by done. rewrite nth_lookup, list_lookup_insert_eq by (apply Hlt; by left). cbn. lia.
    + rewrite (I2 p1 p2 Hp). cbn. lia.
Qed.

Lemma counts_sum p :
  (forall g, g ∈ p -> (g <= length (g_keys s))%nat) ->
  sum_list ((fun x => nth x (g_counts s) 0%nat) <$> p) = length (concat (bucket_of bucket numbers <$> p)).
Proof.
  induction p as [|g p IH]; intros Hp; [done|]. rewrite !fmap_cons. cbn [concat sum_list]. rewrite length_app, IH by (intros; apply Hp; by right).
  by rewrite bucket_count by (apply Hp; by left).
Qed.

Lemma group_order :
  scatter bucket numbers
    (place_groups (g_counts s) keys_order (nth 0 (g_counts s) 0%nat) (replicate (length (g_counts s)) 0%nat))
    (replicate (length (its items)) 0%nat) =
  filter (fun k => null (item_at k)) numbers ++ concat (bucket_of bucket numbers <$> keys_order).
Proof.
  assert (NoDup keys_order) as Hd by (rewrite keys_order_perm; apply NoDup_seq).
  assert (0%nat ∉ keys_order) as H0 by (intros ?%keys_order_elem; lia).
  assert (forall x, x ∈ keys_order -> (x < length (replicate (length (g_counts s)) 0%nat))%nat) as Hlt.
  { intros x Hx%keys_order_elem. rewrite length_replicate, (gi_length _ _ Hs). lia. }
  rewrite (scatter_spec bucket (0%nat :: keys_order)).
  - rewrite fmap_cons. cbn [concat]. f_equal. apply filter_ext_in. intros k Hk. rewrite bucket_zero by done. by rewrite Is_true_true.
  - by apply NoDup_cons.
  - intros k Hk. destruct (null (item_at k)) eqn:En; [apply bucket_zero in En as ->; [by left | done]|].
    right. by apply key_at_bucket.
  - by rewrite length_replicate, length_seq.
  - assert (forall p at_ start, length (place_groups (g_counts s) p at_ start) = length start) as Hlen.
    { induction p as [|x p IH]; intros at_ start; [done|]. cbn. by rewrite IH, length_insert. }
    intros [|x p1] b p2 [= <- Hp].
    + destruct (place_groups_nth keys_order (nth 0 (g_counts s) 0%nat) (replicate (length (g_counts s)) 0%nat) 0 Hd Hlt) as [-> _]; [|done].
      rewrite Hlen, length_replicate, (gi_length _ _ Hs). split; [done | lia].
    + destruct (place_groups_nth keys_order (nth 0 (g_counts s) 0%nat) (replicate (length (g_counts s)) 0%nat) b Hd Hlt) as [_ H].
      rewrite (H p1 p2 Hp), Hlen. assert (forall g, g ∈ p1 ++ [b] -> (g <= length (g_keys s))%nat) as Hle.
      { intros g Hg. assert (g ∈ keys_order) as ?%keys_order_elem; [|lia]. rewrite Hp. apply elem_of_app.
        apply elem_of_app in Hg as [?| ->%list_elem_of_singleton]; [by left | right; by left]. }
      rewrite counts_sum by (intros; apply Hle, elem_of_app; by left). rewrite fmap_cons. cbn [concat]. rewrite length_app, bucket_count by lia.
      split; [done|]. apply Hlt. rewrite Hp. apply elem_of_app. right. by left.
Qed.

Lemma starts_same kappa m at_ rest :
  starts ltb (Some kappa) at_ (replicate m kappa ++ rest) = starts ltb (Some kappa) (at_ + m) rest.
Proof.
  revert at_. induction m as [|m IH]; intros at_; [by rewrite Nat.add_0_r|]. cbn. rewrite lt_irrefl, IH. cbn. f_equal. lia.
Qed.

Lemma bucket_keys g :
  g ∈ keys_order -> (fun k => key_of (item_at k)) <$> bucket_of bucket numbers g = replicate (nth g (g_counts s) 0%nat) (key g).
Proof.
  intros Hg. rewrite bucket_count by (apply keys_order_elem in Hg; lia).
  assert (forall l : list nat, (forall k, k ∈ l -> key_of (item_at k) = key g) -> (fun k => key_of (item_at k)) <$> l = replicate (length l) (key g)) as H;
    [|apply H; intros k Hk; by apply bucket_key].
  induction l as [|k l IH]; intros H; [done|]. rewrite fmap_cons. cbn. f_equal; [apply H; by left | apply IH; intros; apply H; by right].
Qed.

Lemma bucket_nonempty g : g ∈ keys_order -> nth g (g_counts s) 0%nat <> 0%nat.
Proof.
  intros Hg%keys_order_elem. rewrite (gi_counts _ _ Hs) by lia. pose proof (gi_some _ _ Hs g Hg) as Hin.
  intros E. apply nil_length_inv in E. apply (filter_nil_not_elem_of _ _ g E); done.
Qed.

Lemma starts_groups p prev at_ :
  (forall g, g ∈ p -> g ∈ keys_order) -> StronglySorted (fun g h => ltb (key g) (key h) = true) p ->
  (forall q, prev = Some q -> forall g, g ∈ p -> ltb q (key g) = true) ->
  starts ltb prev at_ ((fun k => key_of (item_at k)) <$> concat (bucket_of bucket numbers <$> p)) = group_positions (g_counts s) p at_.
Proof.
  intros Hin Hp. revert prev at_. induction Hp as [|g p Hp IH Hg]; intros prev at_ Hprev; [done|].
  rewrite fmap_cons. cbn [concat group_positions]. rewrite fmap_app, bucket_keys by (apply Hin; by left).
  destruct (nth g (g_counts s) 0%nat) as [|m] eqn:Em; [by apply bucket_nonempty in Em; [|apply Hin; by left]|].
  cbn [replicate app starts]. rewrite starts_same. replace (S at_ + m)%nat with (at_ + S m)%nat by lia.
  rewrite IH; [|intros; apply Hin; by right|].
  - destruct prev as [q|]; [|done]. by rewrite (Hprev q eq_refl g) by (by left).
  - intros q [= <-] h Hh. rewrite Forall_forall in Hg. by apply Hg.
Qed.

End Final.

(** Grouping equal values and sorting the distinct ones gives the order of sorting all of them. *)
Lemma group_all_sort_all : group_all ltb extract items = sort_all ltb (stable_sort (by_key_ltb ltb fst)) extract items.
Proof.
  unfold group_all, sort_all. pose proof groups_of_items as Hs.
  set (s := foldl (group_item extract items) (mkGroups [] [] [0%nat]) (its items)) in *. clearbody s.
  assert (length (null_order items) = nth 0 (g_counts s) 0%nat) as Hn.
  { rewrite null_order_seq, length_fmap, (bucket_count s Hs) by lia. f_equal. apply filter_ext_in. intros k Hk.
    rewrite (bucket_zero s Hs) by done. by rewrite Is_true_true. }
  assert (stable_sort (by_key_ltb ltb fst) (entries extract items) =
    (fun k => (key_of (item_at k), u32 (Z.of_nat k))) <$> concat (bucket_of (bucket s) numbers <$> keys_order s)) as Hsort.
  { rewrite (groups_stable s Hs), entries_seq, stable_sort_fmap. done. }
  rewrite Hsort, Hn. f_equal.
  - transitivity ((fun k => u32 (Z.of_nat k)) <$> (filter (fun k => null (item_at k)) numbers ++ concat (bucket_of (bucket s) numbers <$> keys_order s))).
    + f_equal. apply (group_order s Hs).
    + rewrite fmap_app, null_order_seq. f_equal. by rewrite <- list_fmap_compose.
  - f_equal. symmetry. rewrite <- list_fmap_compose.
    apply (starts_groups s Hs (keys_order s) None); [done | by apply keys_order_sorted | done].
Qed.

End Grouping.

(** ** Every kind *)

Lemma order_items_reference {K} `{EqDecision K} kind (ltb : K -> K -> bool) `{!TotalLt ltb} sorter extract group items :
  (forall a b, item_valued items a -> item_valued items b -> ltb (extract a) (extract b) = slot_ltb kind a b) ->
  (group = false -> sorter (entries extract items) = stable_sort (by_key_ltb ltb fst) (entries extract items)) ->
  order_items ltb sorter extract group items = reference kind items.
Proof.
  intros Hlt Hs. unfold order_items. destruct group; [rewrite group_all_sort_all by done|]; apply sort_all_reference; auto.
Qed.

Lemma entries_elem {K} (extract : Slot -> K) items e :
  e ∈ entries extract items -> exists s, item_valued items s /\ e.1 = extract s.
Proof. rewrite entries_fmap. intros (x & -> & Hx%entries_valued)%list_elem_of_fmap. by exists x.1. Qed.

Lemma total_order_range bits width : 0 <= width -> 0 <= total_order bits width < 2 ^ width.
Proof. intros. unfold total_order. destruct (negb _); by apply wrap_range. Qed.

Lemma float_entries kBytes width items :
  2 ^ width = 256 ^ Z.of_nat kBytes -> 0 <= width ->
  let l := entries (fun s => total_order (get_bits s) width) items in
  radix_sort unsigned_bits kBytes l = stable_sort (by_key_ltb Z.ltb fst) l.
Proof.
  intros Hw Hp l. apply radix_entries; [|done]. intros e (s & _ & E)%entries_elem. unfold unsigned_bits. rewrite E, <- Hw.
  by apply total_order_range.
Qed.

Lemma signed_entries items :
  (forall s, item_valued items s -> - 2 ^ 63 <= get_int s < 2 ^ 63) ->
  radix_sort signed_bits 8 (entries get_int items) = stable_sort (by_key_ltb Z.ltb fst) (entries get_int items).
Proof.
  intros Hok. assert (forall e, e ∈ entries get_int items -> - 2 ^ 63 <= e.1 < 2 ^ 63) as Hr
    by (intros e (s & Hs & ->)%entries_elem; by apply Hok).
  apply radix_entries.
  - intros e He. specialize (Hr e He). rewrite signed_bits_eq by done. change (256 ^ Z.of_nat 8) with (2 ^ 64). lia.
  - intros a b Ha Hb. rewrite !signed_bits_eq by auto. apply Bool.eq_iff_eq_true. rewrite !Z.ltb_lt. lia.
Qed.

Lemma s64_range z : is_u64 z -> - 2 ^ 63 <= Int128.s64 z < 2 ^ 63.
Proof. unfold is_u64, Int128.s64. case_bool; lia. Qed.

Lemma limb_ok l k : Forall is_u64 l -> is_u64 (nth k l 0).
Proof. intros H. rewrite nth_lookup. destruct (l !! k) eqn:E; cbn; [by eapply Forall_lookup_1 | unfold is_u64; lia]. Qed.

Lemma lex_step (a b c d m : Z) : 0 <= b < m -> 0 <= d < m -> (b + m * a <? d + m * c) = if decide (a = c) then b <? d else a <? c.
Proof.
  intros Hb Hd. case_decide as E; [subst; destruct (Z.ltb_spec b d), (Z.ltb_spec (b + m * c) (d + m * c)); lia|].
  destruct (Z.ltb_spec a c), (Z.ltb_spec (b + m * a) (d + m * c)); try done; nia.
Qed.

Lemma int128_order a b : Forall is_u64 (get_limbs a) -> Forall is_u64 (get_limbs b) ->
  int128_ltb (int128_key a) (int128_key b) = (value128 a <? value128 b).
Proof.
  intros Ha Hb. unfold int128_ltb, lex_ltb, int128_key, value128. cbn [fst snd]. symmetry.
  apply lex_step; apply limb_ok; done.
Qed.

Lemma int256_order a b : Forall is_u64 (get_limbs a) -> Forall is_u64 (get_limbs b) ->
  int256_ltb (int256_key a) (int256_key b) = (value256 a <? value256 b).
Proof.
  intros Ha Hb. unfold int256_ltb, lex_ltb, int256_key, value256. cbn [fst snd].
  pose proof (limb_ok _ 0 Ha) as A0. pose proof (limb_ok _ 1 Ha) as A1. pose proof (limb_ok _ 2 Ha) as A2.
  pose proof (limb_ok _ 0 Hb) as B0. pose proof (limb_ok _ 1 Hb) as B1. pose proof (limb_ok _ 2 Hb) as B2.
  unfold is_u64 in *. generalize dependent (nth 0 (get_limbs a) 0). generalize dependent (nth 1 (get_limbs a) 0).
  generalize dependent (nth 2 (get_limbs a) 0). generalize dependent (nth 0 (get_limbs b) 0). generalize dependent (nth 1 (get_limbs b) 0).
  generalize dependent (nth 2 (get_limbs b) 0). generalize (Int128.s64 (nth 3 (get_limbs a) 0)) (Int128.s64 (nth 3 (get_limbs b) 0)).
  intros a3 b3 b2 B2 b1 B1 b0 B0 a2 A2 a1 A1 a0 A0. symmetry.
  rewrite <- (lex_step a1 a0 b1 b0 (2 ^ 64)) by lia.
  rewrite <- (lex_step a2 (a0 + 2 ^ 64 * a1) b2 (b0 + 2 ^ 64 * b1) (2 ^ 128)) by lia.
  rewrite <- (lex_step a3 (a0 + 2 ^ 64 * a1 + 2 ^ 128 * a2) b3 (b0 + 2 ^ 64 * b1 + 2 ^ 128 * b2) (2 ^ 192)) by lia. done.
Qed.

Lemma sort_items_eq threads items kind group :
  items_ok kind items -> sort_items threads items kind group = reference kind items.
Proof.
  intros [Hn Hok]. unfold sort_items.
  assert (forall kBytes width, 2 ^ width = 256 ^ Z.of_nat kBytes -> 0 <= width ->
    forall k, (forall a b, slot_ltb k a b = (total_order (get_bits a) width <? total_order (get_bits b) width)) ->
    order_items Z.ltb (radix_sort unsigned_bits kBytes) (fun s => total_order (get_bits s) width) group items = reference k items) as Hf.
  { intros. apply order_items_reference; [apply _ | auto | intros _; by apply float_entries]. }
  destruct kind; try (by apply Hf).
  - apply order_items_reference; [apply _ | done | intros _; by apply signed_entries].
  - apply order_items_reference; [apply _ | done|]. intros _. apply radix_entries; [|done].
    intros e (s & Hs & E)%entries_elem. unfold unsigned_bits. rewrite E. by apply Hok.
  - apply order_items_reference; [apply _ | done | intros _; by apply signed_entries].
  - apply order_items_reference; [apply _ | |intros _; apply parallel_entries; [apply _ | by apply entries_sorted]].
    intros a b Ha Hb. apply string_key_order; [by apply Hok.. |]. intros i Hi. destruct group; [lia|]. by apply (common_prefix_spec items).
  - apply order_items_reference; [apply _ | |intros _; apply parallel_entries; [apply _ | by apply entries_sorted]].
    intros a b Ha%Hok Hb%Hok. apply int128_order; [apply Ha | apply Hb].
  - apply order_items_reference; [apply _ | |intros _; apply parallel_entries; [apply _ | by apply entries_sorted]].
    intros a b Ha%Hok Hb%Hok. apply int256_order; [apply Ha | apply Hb].
Qed.

(** ** Properties *)

(** C22: (equivalence): whatever the kind of the column, [sort_items] yields the reference order (the nulls in
    item order, then the values in their own order, ties in item order, with the place each distinct value
    begins at): as a BTREE sorts, by the radix sort or the parallel sort on as many threads as there are, and
    as a BITMAP groups, through the hash table. *)
Theorem sort_items_reference threads items kind group :
  items_ok kind items -> sort_items threads items kind group = reference kind items.
Proof. apply sort_items_eq. Qed.

(** Four items of a string column, the second null. *)
Definition sample_view : ArrayView :=
  Expr.View false 0 1 (Some [true; false; true; true]) [SBytes [117; 50]; SNone; SBytes [117; 49; 0]; SBytes [117; 50]] [].
Definition sample_items : Items := mkItems [sample_view] [mkItem 0 0 5; mkItem 0 1 6; mkItem 0 2 7; mkItem 0 3 8].

Lemma sort_items_witness :
  sort_items 4 sample_items Bytes false = reference Bytes sample_items /\
  reference Bytes sample_items = mkSorted [1; 2; 0; 3] [0; 1; 2]%nat 1.
Proof.
  split; [|vm_compute; reflexivity]. apply (sort_items_reference 4 sample_items Bytes false). split; [done|].
  intros s (it & Hit & Hn & <-). repeat (apply elem_of_cons in Hit as [->|Hit]); try by apply elem_of_nil in Hit.
  all: cbn in Hn |- *; try done; repeat (constructor; [unfold is_u8; lia|]); constructor.
Defined.

End ScalarSort.
