(* ===== verification/KeyOrder.v ===== *)
(** * Comparisons follow the order of keys (src/expr/expr.cpp, src/index/scalar/scalar_index.cpp)

    A scalar index is ordered by the keys of [ScalarSort] and searched with the comparisons of [Expr]. Here is
    what lets the one answer for the other: of two values of a column, the one with the smaller key compares
    no greater with any literal. *)

From S2P Require Import Prelude Json Int128 Decimal Expr StableSort ScalarSort.

Module KeyOrder.
Import Expr.

(** ** Doubles *)

Lemma num_scale k m1 e1 m2 e2 :
  k <= e1 -> k <= e2 -> num_ltb (Json.Finite m1 e1) (Json.Finite m2 e2) = (m1 * 2 ^ (e1 - k) <? m2 * 2 ^ (e2 - k)).
Proof.
  intros H1 H2. cbn. set (e := Z.min e1 e2). assert (0 < 2 ^ (e - k)) as Hp by (apply Z.pow_pos_nonneg; lia).
  replace (e1 - k) with ((e1 - e) + (e - k)) by lia. replace (e2 - k) with ((e2 - e) + (e - k)) by lia.
  rewrite !Z.pow_add_r, !Z.mul_assoc by lia. apply Bool.eq_iff_eq_true. rewrite !Z.ltb_lt. nia.
Qed.

Lemma num_le_trans x y z : num_ltb y x = false -> num_ltb z y = false -> num_ltb z x = false.
Proof.
  destruct x as [m1 e1|[]], y as [m2 e2|[]], z as [m3 e3|[]]; try done. set (k := Z.min e1 (Z.min e2 e3)).
  rewrite !(num_scale k) by lia. rewrite !Z.ltb_ge. lia.
Qed.

Lemma float_way_range x y : -1 <= float_way x y <= 1.
Proof. destruct x as [[]|x], y as [[]|y]; cbn; try lia. destruct (num_ltb x y), (num_ltb y x); lia. Qed.

(** A smaller float compares no greater with a third. *)
Lemma num_way_mono x y d :
  num_ltb y x = false -> float_way (Num x) (Num d) <= float_way (Num y) (Num d).
Proof.
  intros Eyx. cbn. destruct (num_ltb y d) eqn:E3.
  - destruct (num_ltb x d) eqn:E1; [lia|]. pose proof (num_le_trans d x y E1 Eyx). congruence.
  - destruct (num_ltb d y) eqn:E5; [destruct (num_ltb x d), (num_ltb d x); lia|].
    pose proof (num_le_trans x y d Eyx E5) as E2. rewrite E2. destruct (num_ltb x d); lia.
Qed.

Lemma float_way_mono x y d : float_way x y <= 0 -> float_way x d <= float_way y d.
Proof.
  intros H. pose proof (float_way_range x d). pose proof (float_way_range y d).
  destruct x as [[]|x], y as [[]|y], d as [[]|d]; try (cbn in *; lia). apply num_way_mono.
  cbn in H. destruct (num_ltb x y) eqn:E; [by apply num_ltb_asym | by destruct (num_ltb y x)].
Qed.

(** ** Integers as doubles *)

Lemma round_bounds a b : 0 < b -> a / b <= Json.round_half_even a b <= a / b + 1.
Proof.
  intros Hb. unfold Json.round_half_even. destruct (_ <? _); [lia|]. destruct (_ <? _); [lia|]. destruct (Z.even _); lia.
Qed.

Lemma round_mono a a' b : 0 < b -> a <= a' -> Json.round_half_even a b <= Json.round_half_even a' b.
Proof.
  intros Hb Ha. pose proof (Z.div_le_mono a a' b Hb Ha) as Hq. pose proof (round_bounds a b Hb). pose proof (round_bounds a' b Hb).
  destruct (Z.eq_dec (a / b) (a' / b)) as [E|E]; [|lia]. pose proof (Z.div_mod a b ltac:(lia)). pose proof (Z.div_mod a' b ltac:(lia)).
  unfold Json.round_half_even in *. rewrite <- E in *. assert (a mod b <= a' mod b) by nia.
  destruct (Z.ltb_spec (2 * (a mod b)) b), (Z.ltb_spec (2 * (a' mod b)) b), (Z.ltb_spec b (2 * (a mod b))), (Z.ltb_spec b (2 * (a' mod b)));
    try lia; destruct (Z.even _); lia.
Qed.

Lemma round_exact k b : 0 < b -> Json.round_half_even (k * b) b = k.
Proof.
  intros Hb. unfold Json.round_half_even. rewrite Z.mod_mul, Z.div_mul by lia. by known_true (2 * 0 <? b).
Qed.

(** 2^52 times a positive integer as a double. *)
Definition rounded (x : Z) : Z :=
  let l := Z.log2 x in if l <? 52 then x * 2 ^ 52 else Json.round_half_even x (2 ^ (l - 52)) * 2 ^ l.

Lemma rounded_bounds x : 0 < x -> 2 ^ (Z.log2 x + 52) <= rounded x <= 2 ^ (Z.log2 x + 53).
Proof.
  intros Hx. pose proof (Z.log2_spec x Hx) as [Hlo Hhi]. pose proof (Z.log2_nonneg x). unfold rounded. set (l := Z.log2 x) in *.
  replace (l + 53) with (Z.succ l + 52) by lia. rewrite !(Z.pow_add_r 2 _ 52) by lia. destruct (Z.ltb_spec l 52) as [|Hl]; [nia|].
  rewrite Z.pow_succ_r in * by lia. assert (0 < 2 ^ (l - 52)) as Hp by (apply Z.pow_pos_nonneg; lia).
  assert (2 ^ l = 2 ^ 52 * 2 ^ (l - 52)) as El by (rewrite <- Z.pow_add_r by lia; f_equal; lia).
  pose proof (round_mono (2 ^ 52 * 2 ^ (l - 52)) x (2 ^ (l - 52)) Hp ltac:(lia)) as R1.
  pose proof (round_mono x (2 * 2 ^ 52 * 2 ^ (l - 52)) (2 ^ (l - 52)) Hp ltac:(lia)) as R2. rewrite round_exact in R1, R2 by done. nia.
Qed.

Lemma rounded_mono x y : 0 < x -> x <= y -> rounded x <= rounded y.
Proof.
  intros Hx Hy. pose proof (Z.log2_le_mono x y Hy) as Hl. destruct (Z.eq_dec (Z.log2 x) (Z.log2 y)) as [E|E].
  - unfold rounded. rewrite <- E. destruct (Z.ltb_spec (Z.log2 x) 52) as [|H52]; [lia|].
    apply Z.mul_le_mono_nonneg_r; [apply Z.pow_nonneg; lia|]. apply round_mono; [apply Z.pow_pos_nonneg; lia | done].
  - pose proof (rounded_bounds x Hx). pose proof (rounded_bounds y ltac:(lia)). pose proof (Z.log2_nonneg x).
    pose proof (Z.pow_le_mono_r 2 (Z.log2 x + 53) (Z.log2 y + 52) ltac:(lia) ltac:(lia)). lia.
Qed.

Lemma round_double_int negative x : 0 < x < 2 ^ 64 ->
  exists m e, Json.round_double negative x 1 = Json.Finite (if negative then - m else m) e /\ -52 <= e /\ m * 2 ^ (e + 52) = rounded x.
Proof.
  intros Hx. pose proof (Z.log2_spec x ltac:(lia)) as [Hlo Hhi]. pose proof (Z.log2_nonneg x).
  pose proof (rounded_bounds x ltac:(lia)) as Hb. unfold rounded in *. set (l := Z.log2 x) in *.
  assert (l < 64) as H64 by (apply Z.log2_lt_pow2; lia).
  assert (Json.last_place x 1 = l - 52) as He.
  { unfold Json.last_place. change (Z.log2 1) with 0. fold l. rewrite Z.sub_0_r. known_false (l <? 0). known_false (x <? 1 * 2 ^ l). lia. }
  unfold Json.round_double. known_false (x =? 0). rewrite He. destruct (Z.ltb_spec l 52) as [Hl|Hl].
  - known_true (l - 52 <? 0). known_false (0 <? l - 52). cbn [andb]. exists (x * 2 ^ (- (l - 52))), (l - 52). rewrite Json.round_whole.
    split_and!; [done | lia |]. rewrite <- Z.mul_assoc, <- Z.pow_add_r by lia. do 2 f_equal. lia.
  - known_false (l - 52 <? 0). exists (Json.round_half_even x (2 ^ (l - 52))), (l - 52). rewrite Z.mul_1_l.
    replace (l - 52 + 52) with l by lia. split_and!; [|lia|done].
    assert (Json.round_half_even x (2 ^ (l - 52)) * 2 ^ (l - 52) < 2 ^ 1024) as Hs.
    { apply Z.le_lt_trans with (Json.round_half_even x (2 ^ (l - 52)) * 2 ^ l).
      - apply Z.mul_le_mono_nonneg_l; [|apply Z.pow_le_mono_r; lia]. assert (0 < 2 ^ l) by (apply Z.pow_pos_nonneg; lia).
        assert (0 <= 2 ^ (l + 52)) by (apply Z.pow_nonneg; lia). nia.
      - eapply Z.le_lt_trans; [apply Hb|]. apply Z.pow_lt_mono_r; lia. }
    known_false (2 ^ 1024 <=? Json.round_half_even x (2 ^ (l - 52)) * 2 ^ (l - 52)). by rewrite andb_false_r.
Qed.

(** 2^52 times an integer as a double. *)
Lemma double_of_int_scaled z : - 2 ^ 64 < z < 2 ^ 64 ->
  exists m e, double_of_int z = Num (Json.Finite m e) /\ -52 <= e /\ m * 2 ^ (e + 52) = Z.sgn z * (if z =? 0 then 0 else rounded (Z.abs z)).
Proof.
  intros Hz. unfold double_of_int. destruct (Z.eqb_spec z 0) as [->|Hne]; [by exists 0, 0|].
  destruct (round_double_int (z <? 0) (Z.abs z) ltac:(lia)) as (m & e & -> & He & Hm).
  exists (if z <? 0 then - m else m), e. split_and!; [done | done |]. destruct (Z.ltb_spec z 0); nia.
Qed.

Lemma double_of_int_mono x y : - 2 ^ 64 < x -> x <= y -> y < 2 ^ 64 -> float_way (double_of_int x) (double_of_int y) <= 0.
Proof.
  intros H1 H2 H3. destruct (double_of_int_scaled x ltac:(lia)) as (m & e & -> & He & Hm).
  destruct (double_of_int_scaled y ltac:(lia)) as (m' & e' & -> & He' & Hm'). unfold float_way.
  rewrite !(num_scale (-52)) by lia. replace (e - -52) with (e + 52) by lia. replace (e' - -52) with (e' + 52) by lia. rewrite Hm, Hm'.
  assert (Z.sgn x * (if x =? 0 then 0 else rounded (Z.abs x)) <= Z.sgn y * (if y =? 0 then 0 else rounded (Z.abs y))) as H.
  { assert (forall z, 0 < z -> 0 <= rounded z) as Hpos by (intros z Hz; pose proof (rounded_bounds z Hz); pose proof (Z.pow_nonneg 2 (Z.log2 z + 52)); lia).
    destruct (Z.eqb_spec x 0), (Z.eqb_spec y 0); [lia| | |].
    - pose proof (Hpos (Z.abs y) ltac:(lia)). nia.
    - pose proof (Hpos (Z.abs x) ltac:(lia)). nia.
    - pose proof (Hpos (Z.abs x) ltac:(lia)). pose proof (Hpos (Z.abs y) ltac:(lia)).
      destruct (Z.lt_ge_cases x 0), (Z.lt_ge_cases y 0).
      + pose proof (rounded_mono (Z.abs y) (Z.abs x) ltac:(lia) ltac:(lia)). nia.
      + nia.
      + lia.
      + pose proof (rounded_mono (Z.abs x) (Z.abs y) ltac:(lia) ltac:(lia)). nia. }
  destruct (Z.ltb_spec (Z.sgn x * (if x =? 0 then 0 else rounded (Z.abs x))) (Z.sgn y * (if y =? 0 then 0 else rounded (Z.abs y)))); [lia|].
  match goal with |- (if ?b then _ else _) <= 0 => destruct b eqn:E end; [apply Z.ltb_lt in E; lia | lia].
Qed.

(** ** Floats in total order *)

Section Floats.
Context (ebits mbits : Z) (Hebits : 1 < ebits) (Hmbits : 0 < mbits).
Notation width := (ebits + mbits + 1).
Notation top := (2 ^ (ebits + mbits)).

(** A pattern is a sign and a magnitude. *)
Definition pattern (negative : bool) (m : Z) : Z := (if negative then top else 0) + m.

Lemma top_split : top = 2 ^ ebits * 2 ^ mbits.
Proof. by rewrite Z.pow_add_r by lia. Qed.

Lemma pattern_spec bits : 0 <= bits < 2 ^ width -> exists n m, bits = pattern n m /\ 0 <= m < top.
Proof.
  rewrite (Z.pow_add_r 2 (ebits + mbits) 1), Z.pow_1_r by lia. unfold pattern. intros H. destruct (Z.lt_ge_cases bits top).
  - exists false, bits. lia.
  - exists true, (bits - top). lia.
Qed.

Lemma pattern_sign n m : 0 <= m < top -> Z.testbit (pattern n m) (ebits + mbits) = n.
Proof.
  intros Hm. rewrite Z.testbit_eqb by lia. unfold pattern. destruct n.
  - replace ((top + m) / top) with 1; [done|]. apply Z.div_unique with m; lia.
  - by rewrite Z.div_small by lia.
Qed.

Lemma total_order_pattern n m :
  0 <= m < top -> ScalarSort.total_order (pattern n m) width = if n then top - 1 - m else top + m.
Proof.
  intros Hm. unfold ScalarSort.total_order. replace (width - 1) with (ebits + mbits) by lia. rewrite Z.shiftl_1_l, land_pow2_testbit by lia.
  rewrite negb_involutive, pattern_sign by done. unfold pattern. assert (2 ^ width = top + top) as Hw.
  { rewrite (Z.pow_add_r 2 (ebits + mbits) 1), Z.pow_1_r by lia. lia. }
  unfold wrap. rewrite Hw. destruct n.
  - unfold Z.lnot. symmetry. apply Z.mod_unique with (-1); lia.
  - cbn [Z.add]. rewrite <- (Z.mul_1_l top) at 1. rewrite <- Z.shiftl_mul_pow2, lor_shiftl_add by lia. rewrite Z.mod_small; lia.
Qed.

Definition exponent_of (m : Z) : Z := m / 2 ^ mbits.
Definition fraction_of (m : Z) : Z := m mod 2 ^ mbits.
Definition effective (m : Z) : Z := if exponent_of m =? 0 then 1 else exponent_of m.
Definition significand (m : Z) : Z := if exponent_of m =? 0 then fraction_of m else fraction_of m + 2 ^ mbits.

Lemma decode_pattern n m :
  0 <= m < top ->
  decode_float ebits mbits (pattern n m) =
    (if exponent_of m =? 2 ^ ebits - 1 then (if fraction_of m =? 0 then Num (Json.Infinite n) else NaN n)
     else Num (Json.Finite (if n then - significand m else significand m) (effective m - (2 ^ (ebits - 1) - 1) - mbits))).
Proof.
  intros Hm. unfold decode_float. rewrite pattern_sign by done. rewrite Z.shiftr_div_pow2 by lia.
  assert (0 < 2 ^ mbits) as Hp by (apply Z.pow_pos_nonneg; lia).
  assert ((pattern n m / 2 ^ mbits) mod 2 ^ ebits = exponent_of m) as ->.
  { unfold pattern, exponent_of. rewrite top_split in *. assert (0 <= m / 2 ^ mbits < 2 ^ ebits) as Hr.
    { split; [apply Z.div_pos; lia | apply Z.div_lt_upper_bound; lia]. }
    destruct n; [|by apply Z.mod_small]. rewrite Z.add_comm, Z.div_add by lia.
    replace (m / 2 ^ mbits + 2 ^ ebits) with (m / 2 ^ mbits + 1 * 2 ^ ebits) by lia. rewrite Z.mod_add by lia. by apply Z.mod_small. }
  assert (pattern n m mod 2 ^ mbits = fraction_of m) as ->.
  { unfold pattern, fraction_of. rewrite top_split. destruct n; [by rewrite Z.add_comm, Z.mod_add by lia | done]. }
  destruct (exponent_of m =? 2 ^ ebits - 1); [done|]. unfold significand, effective. destruct (exponent_of m =? 0); done.
Qed.

(** The magnitude's number, scaled to an integer. *)
Definition scaled (m : Z) : Z := significand m * 2 ^ effective m.

Lemma magnitude_parts m : 0 <= m < top -> 0 <= exponent_of m < 2 ^ ebits /\ 0 <= fraction_of m < 2 ^ mbits /\ m = exponent_of m * 2 ^ mbits + fraction_of m.
Proof.
  intros Hm. assert (0 < 2 ^ mbits) as Hp by (apply Z.pow_pos_nonneg; lia). unfold exponent_of, fraction_of. rewrite top_split in Hm. split_and!.
  - apply Z.div_pos; lia.
  - apply Z.div_lt_upper_bound; lia.
  - by apply Z.mod_pos_bound.
  - by apply Z.mod_pos_bound.
  - pose proof (Z.div_mod m (2 ^ mbits) ltac:(lia)). lia.
Qed.

Lemma effective_pos m : 0 <= m < top -> 1 <= effective m.
Proof. intros Hm. destruct (magnitude_parts m Hm) as (He & _). unfold effective. destruct (Z.eqb_spec (exponent_of m) 0); lia. Qed.

Lemma scaled_nonneg m : 0 <= m < top -> 0 <= scaled m.
Proof.
  intros Hm. destruct (magnitude_parts m Hm) as (He & Hf & _). unfold scaled, significand.
  apply Z.mul_nonneg_nonneg; [destruct (_ =? _); lia | apply Z.pow_nonneg; lia].
Qed.

Lemma scaled_mono m m' : 0 <= m -> m <= m' -> m' < top -> scaled m <= scaled m'.
Proof.
  intros H0 Hle Hlt. destruct (magnitude_parts m ltac:(lia)) as (He & Hf & Em). destruct (magnitude_parts m' ltac:(lia)) as (He' & Hf' & Em').
  assert (0 < 2 ^ mbits) as Hp by (apply Z.pow_pos_nonneg; lia). assert (exponent_of m <= exponent_of m') as Hee by nia.
  unfold scaled, significand, effective. destruct (Z.eqb_spec (exponent_of m) 0) as [E|E], (Z.eqb_spec (exponent_of m') 0) as [E'|E']; [nia | | nia |].
  - rewrite <- (Z.mul_1_r 2) at 1. assert (2 ^ 1 <= 2 ^ exponent_of m') by (apply Z.pow_le_mono_r; lia). rewrite Z.mul_1_r. nia.
  - destruct (Z.eq_dec (exponent_of m) (exponent_of m')) as [Eq|Ne].
    + rewrite <- Eq in *. apply Z.mul_le_mono_nonneg_r; [apply Z.pow_nonneg; lia | nia].
    + assert (2 ^ (exponent_of m + 1) <= 2 ^ exponent_of m') as Hpow by (apply Z.pow_le_mono_r; lia).
      rewrite Z.pow_add_r, Z.pow_1_r in Hpow by lia. assert (0 <= 2 ^ exponent_of m) by (apply Z.pow_nonneg; lia). nia.
Qed.

Lemma float_way_finite s s' m m' : 0 <= m < top -> 0 <= m' < top ->
  s * 2 ^ effective m <= s' * 2 ^ effective m' ->
  float_way (Num (Json.Finite s (effective m - (2 ^ (ebits - 1) - 1) - mbits)))
            (Num (Json.Finite s' (effective m' - (2 ^ (ebits - 1) - 1) - mbits))) <= 0.
Proof.
  intros Hm Hm' H. pose proof (effective_pos m Hm). pose proof (effective_pos m' Hm').
  unfold float_way. set (k := - (2 ^ (ebits - 1) - 1) - mbits). rewrite !(num_scale k) by lia.
  replace (effective m - (2 ^ (ebits - 1) - 1) - mbits - k) with (effective m) by lia.
  replace (effective m' - (2 ^ (ebits - 1) - 1) - mbits - k) with (effective m') by lia.
  destruct (Z.ltb_spec (s * 2 ^ effective m) (s' * 2 ^ effective m')), (Z.ltb_spec (s' * 2 ^ effective m') (s * 2 ^ effective m)); lia.
Qed.

(** The total order of patterns is the order of the floats, NaNs at the ends. *)
Lemma decode_mono a b :
  0 <= a < 2 ^ width -> 0 <= b < 2 ^ width -> ScalarSort.total_order a width <= ScalarSort.total_order b width ->
  float_way (decode_float ebits mbits a) (decode_float ebits mbits b) <= 0.
Proof.
  intros (n & m & -> & Hm)%pattern_spec (n' & m' & -> & Hm')%pattern_spec. rewrite !total_order_pattern by done. intros Hle.
  destruct (magnitude_parts m Hm) as (He & Hf & Em). destruct (magnitude_parts m' Hm') as (He' & Hf' & Em').
  assert (0 < 2 ^ mbits) as Hp by (apply Z.pow_pos_nonneg; lia). rewrite !decode_pattern by done.
  pose proof (scaled_nonneg m Hm) as S1. pose proof (scaled_nonneg m' Hm') as S2. unfold scaled in *.
  destruct n, n'; [| |lia|].
  - pose proof (scaled_mono m' m ltac:(lia) ltac:(lia) ltac:(lia)) as Hs. unfold scaled in Hs. assert (exponent_of m' <= exponent_of m) by nia.
    destruct (Z.eqb_spec (exponent_of m) (2 ^ ebits - 1)) as [E|E], (Z.eqb_spec (exponent_of m') (2 ^ ebits - 1)) as [E'|E'];
      [| destruct (fraction_of m =? 0); cbn; lia | lia | apply float_way_finite; [done | done | lia]].
    destruct (Z.eqb_spec (fraction_of m) 0), (Z.eqb_spec (fraction_of m') 0); cbn; nia.
  - destruct (exponent_of m =? 2 ^ ebits - 1), (exponent_of m' =? 2 ^ ebits - 1);
      try (destruct (fraction_of m =? 0); destruct (fraction_of m' =? 0); cbn; lia). apply float_way_finite; [done | done | lia].
  - pose proof (scaled_mono m m' ltac:(lia) ltac:(lia) ltac:(lia)) as Hs. unfold scaled in Hs. assert (exponent_of m <= exponent_of m') by nia.
    destruct (Z.eqb_spec (exponent_of m) (2 ^ ebits - 1)) as [E|E], (Z.eqb_spec (exponent_of m') (2 ^ ebits - 1)) as [E'|E'];
      [| lia | destruct (fraction_of m' =? 0); cbn; lia | apply float_way_finite; [done | done | lia]].
    destruct (Z.eqb_spec (fraction_of m) 0), (Z.eqb_spec (fraction_of m') 0); cbn; nia.
Qed.

End Floats.

(** ** The other comparisons *)

Lemma three_way_mono x y d : x <= y -> three_way x d <= three_way y d.
Proof. intros. unfold three_way. destruct (Z.ltb_spec x d), (Z.ltb_spec y d), (Z.ltb_spec d x), (Z.ltb_spec d y); lia. Qed.

Lemma bytes_way_mono a b d : bytes_way a b <= 0 -> bytes_way a d <= bytes_way b d.
Proof.
  intros H. pose proof ScalarSort.bytes_total. pose proof (ScalarSort.bytes_way_range a d). pose proof (ScalarSort.bytes_way_range b d).
  assert (ScalarSort.bytes_ltb a b = true \/ a = b) as [Hlt| ->]; [|clear H|lia].
  { unfold ScalarSort.bytes_ltb. rewrite Z.ltb_lt. destruct (Z.eq_dec (bytes_way a b) 0) as [E|E]; [right; by apply ScalarSort.bytes_way_eq | left; lia]. }
  destruct (Z.lt_ge_cases (bytes_way b d) 0) as [Hb|Hb].
  - assert (ScalarSort.bytes_ltb a d = true) as Had by (apply (ScalarSort.lt_trans (ltb := ScalarSort.bytes_ltb) a b d Hlt); by apply Z.ltb_lt).
    unfold ScalarSort.bytes_ltb in Had. apply Z.ltb_lt in Had. lia.
  - destruct (Z.eq_dec (bytes_way b d) 0) as [E|E]; [apply ScalarSort.bytes_way_eq in E as ->; unfold ScalarSort.bytes_ltb in Hlt; apply Z.ltb_lt in Hlt; rewrite (proj2 (ScalarSort.bytes_way_eq d d) eq_refl); lia|lia].
Qed.

Lemma compare_scaled_spec x k y : 0 < k -> compare_scaled x k y = three_way (x * k) y.
Proof.
  intros Hk. unfold compare_scaled. pose proof (Z.quot_rem' y k) as E. pose proof (Z.rem_bound_abs y k ltac:(lia)).
  set (q := Z.quot y k) in *. set (r := Z.rem y k) in *. clearbody q r. unfold three_way. rewrite E. clear E y.
  assert (forall q r, 0 <= r < k -> (if q <? x then 1 else if x <? q then -1 else if 0 <? r then -1 else 0) =
    (if x * k <? k * q + r then -1 else if k * q + r <? x * k then 1 else 0)) as H'.
  { clear q r H. intros q r Hr. destruct (Z.ltb_spec q x); [assert (k * q + r < x * k) by nia|
      destruct (Z.ltb_spec x q); [assert (x * k < k * q + r) by nia | assert (x = q) as -> by lia; destruct (Z.ltb_spec 0 r)]];
      repeat case_bool; lia. }
  destruct (Z.ltb_spec r 0).
  - replace (k * q + r) with (k * (q - 1) + (r + k)) by lia. apply H'. lia.
  - apply H'. lia.
Qed.

Lemma unit_pos u : 0 < unit_to_ns u.
Proof. by destruct u. Qed.

Lemma compare_duration_mono a b u d ud : a <= b -> compare_duration a u d ud <= compare_duration b u d ud.
Proof.
  intros Hab. unfold compare_duration. destruct (_ =? _).
  - apply (three_way_mono a b d Hab).
  - assert (forall p q, unit_to_ns q < unit_to_ns p -> 0 < Z.quot (unit_to_ns p) (unit_to_ns q)) as Hq by (intros [] []; cbn; lia || done).
    destruct (Z.ltb_spec (unit_to_ns ud) (unit_to_ns u)) as [Hlt|Hge].
    + rewrite !compare_scaled_spec by auto. apply three_way_mono. apply Z.mul_le_mono_nonneg_r; [specialize (Hq u ud Hlt); lia | done].
    + destruct (Z.eq_dec (unit_to_ns u) (unit_to_ns ud)) as [E|E].
      * rewrite E, Z.quot_same by (pose proof (unit_pos ud); lia). rewrite !compare_scaled_spec by lia.
        unfold three_way. destruct (Z.ltb_spec (d * 1) a), (Z.ltb_spec (d * 1) b), (Z.ltb_spec a (d * 1)), (Z.ltb_spec b (d * 1)); lia.
      * rewrite !compare_scaled_spec by (apply Hq; lia). rewrite <- !three_way_opp. by apply three_way_mono.
Qed.

(** ** Decimals *)

Lemma sgn_mono x y : x <= y -> Decimal.sgn x <= Decimal.sgn y.
Proof. intros H. pose proof (Decimal.sgn_spec x). pose proof (Decimal.sgn_spec y). lia. Qed.

Lemma compare_decimal_mono a b sa d sd :
  Decimal.limbs_ok a -> Decimal.limbs_ok b -> Decimal.limbs_ok d -> Z.abs (sa - sd) <= 231 ->
  Decimal.signed a <= Decimal.signed b -> Decimal.compare_decimal a sa d sd <= Decimal.compare_decimal b sa d sd.
Proof.
  intros Ha Hb Hd Hs Hle. rewrite !Decimal.compare_decimal_sgn by done. apply sgn_mono.
  assert (0 < 10 ^ (Z.max sa sd - sa)) by (apply Z.pow_pos_nonneg; lia). nia.
Qed.

(** The signed value of four limbs. *)
Lemma signed_words a b c d :
  is_u64 a -> is_u64 b -> is_u64 c -> is_u64 d ->
  Decimal.signed [a; b; c; d] = a + 2 ^ 64 * b + 2 ^ 128 * c + 2 ^ 192 * Int128.s64 d /\ Decimal.limbs_ok [a; b; c; d].
Proof.
  intros Ha Hb Hc Hd. split; [|split; [repeat (apply Forall_cons; split; [assumption|]); apply Forall_nil_2 | done]]. unfold Decimal.signed, Decimal.limbs_negative, Int128.s64. cbn [nth Decimal.lval].
  rewrite Z.shiftr_div_pow2 by lia. unfold is_u64 in *. destruct (Z.ltb_spec d (2 ^ 63)).
  - rewrite (Z.div_small d) by lia. cbn [Z.eqb negb]. lia.
  - assert (d / 2 ^ 63 <> 0) as Hq%Z.eqb_neq by (pose proof (Z.div_le_lower_bound d (2 ^ 63) 1); lia). rewrite Hq. cbn [negb]. lia.
Qed.

Lemma U64_MAX_ok : is_u64 U64_MAX.
Proof. unfold is_u64, U64_MAX. lia. Qed.
Lemma zero_ok : is_u64 0.
Proof. unfold is_u64. lia. Qed.

Lemma signed128 x y : is_u64 x -> is_u64 y ->
  let fill := if Int128.s64 y <? 0 then U64_MAX else 0 in
  Decimal.signed [x; y; fill; fill] = x + 2 ^ 64 * Int128.s64 y /\ Decimal.limbs_ok [x; y; fill; fill].
Proof.
  intros Hx Hy fill. assert (is_u64 fill) as Hf by (unfold fill; destruct (_ <? _); [apply U64_MAX_ok | apply zero_ok]).
  destruct (signed_words x y fill fill) as [-> ?]; [done..|]. split; [|done]. unfold fill, Int128.s64, U64_MAX, is_u64 in *. repeat case_bool; lia.
Qed.

Lemma signed_int i : - 2 ^ 63 <= i < 2 ^ 63 ->
  Decimal.signed [u64 i; sign_limb i; sign_limb i; sign_limb i] = i /\ Decimal.limbs_ok [u64 i; sign_limb i; sign_limb i; sign_limb i].
Proof.
  intros Hi. assert (is_u64 (sign_limb i)) as Hs by (unfold sign_limb; destruct (_ <? _); [apply U64_MAX_ok | apply zero_ok]).
  destruct (signed_words (u64 i) (sign_limb i) (sign_limb i) (sign_limb i)) as [-> ?]; [apply u64_range | done..|]. split; [|done].
  unfold sign_limb, u64, wrap. destruct (Z.ltb_spec i 0).
  - rewrite <- (Z.mod_add i 1), Z.mod_small by lia. unfold Int128.s64, U64_MAX. repeat case_bool; lia.
  - rewrite Z.mod_small by lia. unfold Int128.s64. repeat case_bool; lia.
Qed.

Lemma signed_uint u : is_u64 u -> Decimal.signed [u; 0; 0; 0] = u /\ Decimal.limbs_ok [u; 0; 0; 0].
Proof.
  intros Hu. destruct (signed_words u 0 0 0) as [-> ?]; [done | apply zero_ok..|]. split; [|done]. change (Int128.s64 0) with 0. lia.
Qed.

(** ** A value of a column and a literal *)

(** What a slot of a type holds: times that fit the nanoseconds they are compared in. *)
Definition value_fits (t : ArrowType) (u : TimeUnit) (s : Slot) : Prop :=
  match t with
  | BOOL => get_int s = 0 \/ get_int s = 1
  | INT8 | INT16 | INT32 | INT64 | TIME32 | TIME64 | DURATION => - 2 ^ 63 <= get_int s < 2 ^ 63
  | UINT8 | UINT16 | UINT32 | UINT64 => is_u64 (get_int s)
  | HALF_FLOAT => 0 <= get_bits s < 2 ^ 16
  | FLOAT => 0 <= get_bits s < 2 ^ 32
  | DOUBLE => 0 <= get_bits s < 2 ^ 64
  | DATE32 => - 2 ^ 63 <= get_int s * 86400 * 1000000000 < 2 ^ 63
  | DATE64 => - 2 ^ 63 <= get_int s * 1000000 < 2 ^ 63
  | TIMESTAMP => - 2 ^ 63 <= get_int s * unit_to_ns u < 2 ^ 63
  | DECIMAL128 | DECIMAL256 => Decimal.limbs_ok (get_limbs s)
  | STRING | LARGE_STRING | BINARY | LARGE_BINARY | FIXED_SIZE_BINARY => True
  | NESTED => False
  end.

Definition is_decimal_type (t : ArrowType) : bool := match t with DECIMAL128 | DECIMAL256 => true | _ => false end.

(** A literal that compares exactly: integers of 64 bits, decimals of a scale near the column's; a decimal
    column is not compared with a float. *)
Definition literal_fits (t : ArrowType) (scale : Z) (lit : Value) : Prop :=
  match lit with
  | VInt i => - 2 ^ 63 <= i < 2 ^ 63 /\ Z.abs scale <= 231
  | VUInt u => is_u64 u /\ Z.abs scale <= 231
  | VDecimal d sd => Decimal.limbs_ok d /\ Z.abs sd <= 231 /\ Z.abs (scale - sd) <= 231
  | VDouble _ => is_decimal_type t = false
  | _ => True
  end.

Lemma int_way_mono a b lit : -2 ^ 63 <= a -> a <= b -> int_way (VInt a) lit <= int_way (VInt b) lit.
Proof.
  intros Ha Hab. destruct lit; cbn; try lia; [by apply three_way_mono|]. pose proof (three_way_mono a b u Hab).
  assert (three_way b u <= 1 /\ -1 <= three_way b u) by (unfold three_way; repeat case_bool; lia).
  destruct (Z.ltb_spec a 0), (Z.ltb_spec b 0); lia.
Qed.

Lemma uint_way_mono a b lit : a <= b -> int_way (VUInt a) lit <= int_way (VUInt b) lit.
Proof.
  intros Hab. destruct lit; cbn; try lia; [|by apply three_way_mono]. destruct (_ <? _); [lia | by apply three_way_mono].
Qed.

#[local] Opaque float_way three_way bytes_way compare_duration double_of_int decimal_as_double int_way i64.

Ltac injs := repeat match goal with H : Some _ = Some _ |- _ => injection H as <- end.

(** Integers, stored as they are compared. *)
Lemma compare_int_mono t sc lit a b ca cb :
  - 2 ^ 63 <= a < 2 ^ 63 -> - 2 ^ 63 <= b < 2 ^ 63 -> literal_fits t sc lit -> a <= b ->
  compare (VInt a) lit = Some ca -> compare (VInt b) lit = Some cb -> ca <= cb.
Proof.
  intros Ha Hb Hl Hab. destruct lit; cbn; try discriminate; intros; injs.
  - apply (int_way_mono a b (VInt i)); lia.
  - apply (int_way_mono a b (VUInt u)); lia.
  - apply float_way_mono, double_of_int_mono; lia.
  - destruct Hl as (Hd & Hs & _), (signed_int a Ha) as [Va Oa], (signed_int b Hb) as [Vb Ob].
    apply compare_decimal_mono; [done..| lia | lia].
Qed.

Lemma compare_uint_mono t sc lit a b ca cb :
  is_u64 a -> is_u64 b -> literal_fits t sc lit -> a <= b ->
  compare (VUInt a) lit = Some ca -> compare (VUInt b) lit = Some cb -> ca <= cb.
Proof.
  intros Ha Hb Hl Hab. destruct lit; cbn; try discriminate; intros; injs.
  - by apply (uint_way_mono a b (VInt i)).
  - by apply (uint_way_mono a b (VUInt u)).
  - unfold is_u64 in *. apply float_way_mono, double_of_int_mono; lia.
  - destruct Hl as (Hd & Hs & _), (signed_uint a Ha) as [Va Oa], (signed_uint b Hb) as [Vb Ob].
    apply compare_decimal_mono; [done..| lia | lia].
Qed.

Lemma compare_float_mono lit x y ca cb :
  float_way x y <= 0 -> compare (VDouble x) lit = Some ca -> compare (VDouble y) lit = Some cb -> ca <= cb.
Proof. intros Hxy. destruct lit; cbn; try discriminate; intros; injs; by apply float_way_mono. Qed.

Lemma compare_text_mono v w lit x y ca cb :
  (v = VString x /\ w = VString y) \/ (v = VBinary x /\ w = VBinary y) -> bytes_way x y <= 0 ->
  compare v lit = Some ca -> compare w lit = Some cb -> ca <= cb.
Proof. intros [[-> ->]|[-> ->]] Hxy; destruct lit; cbn; try discriminate; intros; injs; by apply bytes_way_mono. Qed.

Lemma compare_ns_mono v w lit ca cb :
  temporal v = true -> temporal w = true -> as_ns v <= as_ns w -> compare v lit = Some ca -> compare w lit = Some cb -> ca <= cb.
Proof.
  intros Hv Hw Hle. destruct v; try discriminate; destruct w; try discriminate; destruct lit; cbn; try discriminate;
    intros; injs; by apply three_way_mono.
Qed.

Lemma compare_decimals_mono t sc lit a b ca cb :
  is_decimal_type t = true -> Decimal.limbs_ok a -> Decimal.limbs_ok b -> Decimal.signed a <= Decimal.signed b -> literal_fits t sc lit ->
  compare (VDecimal a sc) lit = Some ca -> compare (VDecimal b sc) lit = Some cb -> ca <= cb.
Proof.
  intros Ht Ha Hb Hab Hl. destruct lit; cbn; try discriminate; intros; injs.
  - destruct Hl as [Hi Hs], (signed_int i Hi). apply compare_decimal_mono; [done..| lia | lia].
  - destruct Hl as [Hi Hs], (signed_uint u Hi). apply compare_decimal_mono; [done..| lia | lia].
  - cbn in Hl. congruence.
  - destruct Hl as (Hd & _ & Hs). by apply compare_decimal_mono.
Qed.

Lemma i64_mono x y : - 2 ^ 63 <= x < 2 ^ 63 -> - 2 ^ 63 <= y < 2 ^ 63 -> x <= y -> i64 x <= i64 y.
Proof. intros. by rewrite !i64_small. Qed.

Lemma bytes_ltb_false x y : ScalarSort.bytes_ltb y x = false -> bytes_way x y <= 0.
Proof. unfold ScalarSort.bytes_ltb. rewrite Z.ltb_ge, (bytes_way_opp y x). lia. Qed.

(** Of two values of a column the one that sorts no later compares no greater, with any literal. *)
Lemma compare_mono t name u sc kind lit a b ca cb :
  ScalarSort.key_kind_of t name = Ok kind -> value_fits t u a -> value_fits t u b -> literal_fits t sc lit ->
  ScalarSort.slot_ltb kind b a = false ->
  compare (read_scalar a t u sc) lit = Some ca -> compare (read_scalar b t u sc) lit = Some cb -> ca <= cb.
Proof.
  intros Hk Ha Hb Hl Hle.
  destruct t; cbn in Hk; try discriminate; injection Hk as <-; cbn [ScalarSort.slot_ltb] in Hle;
    try (rewrite Z.ltb_ge in Hle); cbn [read_scalar value_fits] in *;
    try (by apply (compare_int_mono INT64 sc); [done | done | by destruct lit | done]);
    try (by apply (compare_uint_mono UINT64 sc); [done | done | by destruct lit | done]).
  - destruct Ha as [Ea|Ea], Hb as [Eb|Eb]; rewrite ?Ea, ?Eb in *; try lia; destruct lit as [|bit| | | | | | | | | |]; cbn; try discriminate;
      intros; injs; destruct bit; cbn; lia.
  - apply compare_float_mono. apply (decode_mono 5 10); [lia | lia | done | done | done].
  - apply compare_float_mono. apply (decode_mono 8 23); [lia | lia | done | done | done].
  - apply compare_float_mono. apply (decode_mono 11 52); [lia | lia | done | done | done].
  - eapply compare_text_mono; [by left | by apply bytes_ltb_false].
  - eapply compare_text_mono; [by left | by apply bytes_ltb_false].
  - eapply compare_text_mono; [by right | by apply bytes_ltb_false].
  - eapply compare_text_mono; [by right | by apply bytes_ltb_false].
  - eapply compare_text_mono; [by right | by apply bytes_ltb_false].
  - apply compare_ns_mono; [done | done|]. apply i64_mono; [done | done | lia].
  - apply compare_ns_mono; [done | done|]. apply i64_mono; [done | done | lia].
  - apply compare_ns_mono; [done | done|]. apply i64_mono; [done | done | pose proof (unit_pos u); nia].
  - destruct lit; cbn; try discriminate; intros; injs. by apply compare_duration_mono.
  - unfold ScalarSort.value128 in Hle. destruct Ha as [Ha _], Hb as [Hb _].
    destruct (signed128 (nth 0 (get_limbs a) 0) (nth 1 (get_limbs a) 0)) as [Va Oa]; [by apply ScalarSort.limb_ok..|].
    destruct (signed128 (nth 0 (get_limbs b) 0) (nth 1 (get_limbs b) 0)) as [Vb Ob]; [by apply ScalarSort.limb_ok..|].
    apply (compare_decimals_mono DECIMAL128); [done | done | done | lia | by destruct lit].
  - unfold ScalarSort.value256 in Hle. apply (compare_decimals_mono DECIMAL256); [done | done | done | | by destruct lit].
    assert (forall s, Decimal.limbs_ok (get_limbs s) -> Decimal.signed (get_limbs s) =
      nth 0 (get_limbs s) 0 + 2 ^ 64 * nth 1 (get_limbs s) 0 + 2 ^ 128 * nth 2 (get_limbs s) 0 + 2 ^ 192 * Int128.s64 (nth 3 (get_limbs s) 0)) as Hs.
    { intros s [Hu Hn]. destruct (get_limbs s) as [|w [|x [|y [|z [|? ?]]]]]; try done. cbn [nth].
      apply Forall_cons in Hu as [? Hu]. apply Forall_cons in Hu as [? Hu]. apply Forall_cons in Hu as [? Hu]. apply Forall_cons in Hu as [? Hu].
      by apply signed_words. }
    rewrite !Hs by done. lia.
Qed.

End KeyOrder.
