(* ===== verification/ScalarIndex.v ===== *)
(** * Scalar indices: building and searching (src/index/scalar/scalar_index.cpp, src/index/index_search.cpp)

    A predicate of a filter tests a column against constants ([Predicate]). A BTREE holds the column's values
    in order, cut into pages with the bounds of each; a zone map the bounds of every zone of rows; a BITMAP the
    rows of every distinct value. A search keeps the pages or zones whose bounds admit a match
    ([prune_by_bounds]) and answers with the rows.

    Index files are written and read through the file layer, which is not modelled: a search takes the tables
    as they are loaded, a column as the views of the batches it is read in. Constants are as the filter bound
    them. *)

From S2P Require Import Prelude Json Int128 Decimal Expr StableSort ScalarSort KeyOrder Roaring RowSets.

Module ScalarIndex.
Import Expr (Value(..), Double(..), TimeUnit, ArrowType(..), ArrayView, Slot(..), View, ColumnRef, mkColumn, CmpOp(..),
  Node, Literal, Column, view_is_null, slot_at, no_view, get_double, read_scalar, is_null).
Import ScalarSort (Item, mkItem, Items, mkItems, its, views, i_addr, item_null, item_slot, KeyKind(..), Sorted, order, group_starts, nulls).
Import RowSets (RowSet, RowSet0, covered, rows, rows_of, exact, with_rows, add_addresses).

(** ** Predicates *)

Inductive Test := TCompare | TBetween | TIn | TIsNull | TIsNotNull | THasAny | THasAll | THas | TContains.
#[export] Instance Test_eq_dec : EqDecision Test.
Proof. solve_decision. Defined.

Record Predicate := mkPredicate { p_test : Test; p_op : CmpOp; p_constants : list Node }.

Definition constant (p : Predicate) (k : nat) : Node := nth k (p_constants p) (Literal VNull).
Definition compare_with (p : Predicate) (op : CmpOp) (k : nat) : Predicate := mkPredicate TCompare op [constant p k].

(** A column read from a file: the view of each batch, with the batch's length. *)
Definition Batches : Type := list (ArrayView * Z).

Section Search.
Context (float_op : Expr.ArithOp -> Double -> Double -> Double) (type : ArrowType) (unit : TimeUnit) (scale : Z).

(** The predicate as a tree over its column, or nothing for [contains], a function. *)
Definition predicate_node (p : Predicate) : option Node :=
  let key := Column (mkColumn [0%nat] type unit scale) in
  match p_test p with
  | TCompare => Some (Expr.Compare (p_op p) key (constant p 0))
  | TIn | THasAny | THasAll | THas => Some (Expr.In false key (p_constants p))
  | TBetween => Some (Expr.Between false key (constant p 0) (constant p 1))
  | TIsNull => Some (Expr.IsNull key)
  | TIsNotNull => Some (Expr.IsNotNull key)
  | TContains => None
  end.

Definition needs_constants (t : Test) : bool := match t with THasAny | THasAll | TIn => true | _ => false end.

Definition predicate_filter (p : Predicate) (values : ArrayView) (length : Z) : res (list bool) :=
  if needs_constants (p_test p) && bool_decide (p_constants p = []) then Ok (replicate (Z.to_nat length) false)
  else match predicate_node p with
       | Some n => Expr.filter float_op (View true 0 0 None [] [values]) length n
       | None => Err "contains is evaluated as a function"
       end.

Definition evaluate (p : Predicate) (table : Batches) : res (list bool) :=
  fold_res (fun pass b => part ← predicate_filter p b.1 b.2; Ok (pass ++ part)) table [].

Definition floating : bool := match type with FLOAT | DOUBLE | HALF_FLOAT => true | _ => false end.
Definition slot_nan (s : Slot) : bool := floating && match get_double type s with NaN _ => true | Num _ => false end.

(** Rows of a column: whether each is null, and NaN. *)
Definition nulls_of (table : Batches) : list (bool * bool) :=
  concat ((fun b => (fun r => let null := view_is_null b.1 r in (null, negb null && slot_nan (slot_at b.1 r))) <$> Expr.rows b.2) <$> table).

(** ** Bounds *)

(** [bound]: a comparison with the minima or the maxima, where they bound anything. *)
Definition bound_min (min_state max_state : bool * bool) (ok : bool) : bool :=
  let ok := if min_state.1 || min_state.2 then true else ok in if max_state.1 then false else ok.
Definition bound_max (max_state : bool * bool) (ok : bool) : bool :=
  let ok := if max_state.2 then true else ok in if max_state.1 then false else ok.

Section Prune.
Context (mins maxs : Batches) (null_counts : list Z).
Notation min_states := (nulls_of mins).
Notation max_states := (nulls_of maxs).

Definition bound_mins (q : Predicate) : res (list bool) :=
  ok ← evaluate q mins; Ok (zip_with (fun st o => bound_min st.1 st.2 o) (zip min_states max_states) ok).
Definition bound_maxs (q : Predicate) : res (list bool) :=
  ok ← evaluate q maxs; Ok (zip_with (fun st o => bound_max st o) max_states ok).

(** [max lo_op k_lo] and [min hi_op k_hi], each where it is asked. *)
Definition value_range (p : Predicate) (lo hi : option (CmpOp * nat)) : res (list bool) :=
  let all := (fun _ => true) <$> max_states in
  a ← match lo with Some (op, k) => bound_maxs (compare_with p op k) | None => Ok all end;
  b ← match hi with Some (op, k) => bound_mins (compare_with p op k) | None => Ok all end;
  Ok (zip_with (fun st ab => ab.1 && ab.2 && negb st.1) max_states (zip a b)).

Definition or_keep (keep one : list bool) : list bool := zip_with orb keep one.

(** The units that may hold a match; [None] for a predicate bounds do not decide. *)
Definition prune_by_bounds (p : Predicate) : res (option (list bool)) :=
  match p_test p with
  | TIsNull => Ok (Some ((fun n => 0 <? n) <$> null_counts))
  | TIsNotNull => Ok (Some ((fun st => negb st.1) <$> max_states))
  | TCompare =>
      keep ← match p_op p with
             | Eq => value_range p (Some (Ge, 0%nat)) (Some (Le, 0%nat))
             | Lt => value_range p None (Some (Lt, 0%nat))
             | Le => value_range p None (Some (Le, 0%nat))
             | Gt => value_range p (Some (Gt, 0%nat)) None
             | Ge => value_range p (Some (Ge, 0%nat)) None
             | Ne => value_range p None None
             end;
      Ok (Some keep)
  | TBetween =>
      if (length (p_constants p) =? 2)%nat
      then keep ← value_range p (Some (Ge, 0%nat)) (Some (Le, 1%nat)); Ok (Some keep)
      else Ok None
  | TIn =>
      keep ← fold_res (fun keep k => one ← value_range p (Some (Ge, k)) (Some (Le, k)); Ok (or_keep keep one))
               (seq 0 (length (p_constants p))) ((fun _ => false) <$> null_counts);
      Ok (Some keep)
  | _ => Ok None
  end.

End Prune.

(** ** BTREE *)

Record BTreeIndex := mkBTree {
  lookup_min : Batches; lookup_max : Batches; null_count : list Z; page_idx : list Z;
  batch_size : Z; read_pages : Z -> Z -> Batches * list Z }.

(** The ranges of pages to read: adjacent kept pages are one. *)
Fixpoint page_runs (pages : list (bool * Z)) (run : option (Z * Z)) : list (Z * Z) :=
  match pages with
  | [] => from_option (fun r => [r]) [] run
  | (false, _) :: pages => from_option (fun r => [r]) [] run ++ page_runs pages None
  | (true, p) :: pages =>
      match run with
      | None => page_runs pages (Some (p, p))
      | Some (a, b) => if p =? u32 (b + 1) then page_runs pages (Some (a, p)) else (a, b) :: page_runs pages (Some (p, p))
      end
  end.

Definition run_addresses (p : Predicate) (index : BTreeIndex) (run : Z * Z) : res (list Z) :=
  let '(values, ids) := read_pages index (u64 (run.1 * batch_size index)) (u64 (u32 (u32 (run.2 - run.1) + 1) * batch_size index)) in
  pass ← evaluate p values;
  Ok (filter (fun e => Is_true e.1) (zip pass ids)).*2.

Definition array_test (t : Test) : bool := match t with THasAny | THasAll | THas => true | _ => false end.

(** The answer, or nothing when the index does not answer the predicate. *)
Definition search_btree (p : Predicate) (index : BTreeIndex) (out : RowSet) : res (option RowSet) :=
  if array_test (p_test p) || bool_decide (p_test p = TContains) then Ok None
  else
    keep ← prune_by_bounds (lookup_min index) (lookup_max index) (null_count index) p;
    match keep with
    | None => Ok None
    | Some keep =>
        addrs ← fold_res (fun addrs run => more ← run_addresses p index run; Ok (addrs ++ more))
                  (page_runs (zip keep (page_idx index)) None) [];
        Ok (Some (add_addresses out addrs))
    end.

(** ** Zone maps *)

Record ZoneMapIndex := mkZoneMap {
  zm_min : Batches; zm_max : Batches; zm_null_count : list Z; zm_fragment : list Z; zm_start : list Z; zm_length : list Z }.

(** The rows of the kept zones. *)
Definition push_zone (r : gmap Z (list Z)) (z : bool * (Z * (Z * Z))) : gmap Z (list Z) :=
  let '(keep, (fragment, (start, length))) := z in
  if keep : bool then RowSets.push_rows (u32 fragment) (u32 <$> seqZ start (u64 (start + length) - start)) r else r.
Definition push_zones (out : RowSet) (keep : list bool) (fragments starts lengths : list Z) : RowSet :=
  with_rows out (foldl push_zone (rows out) (zip keep (zip fragments (zip starts lengths)))).

Definition nested : bool := match type with NESTED => true | _ => false end.
Definition fixed_binary : bool := match type with FIXED_SIZE_BINARY => true | _ => false end.

Definition search_zonemap (p : Predicate) (index : ZoneMapIndex) (out : RowSet) : res (option RowSet) :=
  if array_test (p_test p) || bool_decide (p_test p = TContains) then Ok None
  else if nested && negb (bool_decide (p_test p = TIsNull)) then Ok None
  else
    keep ← (if fixed_binary && negb (bool_decide (p_test p = TIsNull)) then Ok (Some ((fun _ => true) <$> zm_null_count index))
            else prune_by_bounds (zm_min index) (zm_max index) (zm_null_count index) p);
    match keep with
    | None => Ok None
    | Some keep => Ok (Some (push_zones out keep (zm_fragment index) (zm_start index) (zm_length index)))
    end.

(** ** BITMAP *)

Record BitmapIndex := mkBitmap { bm_keys : Batches; bm_list_nulls : option (list Z); bm_bitmap : Z -> option (list Z) }.

(** The rows of the keys at [key_rows], united; a null bitmap is skipped. *)
Definition bitmap_rows (index : BitmapIndex) (key_rows : list Z) (physical : gmap Z Z) (out : RowSet) : res RowSet :=
  fold_res (fun out r => match bm_bitmap index r with
                         | None => Ok out
                         | Some bytes => RowSets.read_treemap bytes physical out
                         end) key_rows out.

Definition matching (index : BitmapIndex) (q : Predicate) : res (list Z) :=
  pass ← evaluate q (bm_keys index);
  Ok (filter (fun e => Is_true e.1) (zip pass (seqZ 0 (zlen pass)))).*2.

Definition keep_common (one : RowSet) (f : Z) (l : list Z) (next : gmap Z (list Z)) : gmap Z (list Z) :=
  match rows one !! f with Some r => RowSets.add_nonempty f (RowSets.intersect l r) next | None => next end.

(** Every element's rows, intersected: the answers of the constants from one on. *)
Fixpoint has_all (index : BitmapIndex) (p : Predicate) (physical : gmap Z Z) (ks : list nat) (all : option (gmap Z (list Z)))
    : res (gmap Z (list Z)) :=
  match ks with
  | [] => Ok (default ∅ all)
  | k :: ks =>
      key_rows ← matching index (compare_with p Eq k);
      one ← bitmap_rows index key_rows physical RowSet0;
      match all with
      | None => has_all index p physical ks (Some (rows one))
      | Some m => has_all index p physical ks (Some (map_fold (keep_common one) ∅ m))
      end
  end.

Definition search_bitmap (label_list : bool) (p : Predicate) (index : BitmapIndex) (physical : gmap Z Z) (out : RowSet) : res (option RowSet) :=
  if bool_decide (p_test p = TContains) then Ok None
  else if negb (Bool.eqb (array_test (p_test p)) label_list) && negb (label_list && bool_decide (p_test p = TIsNull)) then Ok None
  else if bool_decide (p_test p = THasAll) && bool_decide (p_constants p = []) then Ok None
  else if label_list && bool_decide (p_test p = TIsNull) then
    match bm_list_nulls index with
    | None => Ok None
    | Some bytes => out ← RowSets.read_treemap bytes physical out; Ok (Some out)
    end
  else if bool_decide (p_test p = THasAll) then
    all ← has_all index p physical (seq 0 (length (p_constants p))) None;
    Ok (Some (with_rows out all))
  else
    key_rows ← matching index p;
    out ← bitmap_rows index key_rows physical out;
    Ok (Some out).

End Search.

(** ** Building *)

Definition kBTreePageRows : Z := 4096.
Definition kNoPick : Z := 2 ^ 32 - 1.

(** [gather]: the value of the item a pick names, null where it names none. *)
Definition item_row (items : Items) (pick : Z) : option Slot :=
  if pick =? kNoPick then None
  else match its items !! Z.to_nat pick with
       | Some it => if item_null items it then None else Some (item_slot items it)
       | None => None
       end.
Definition item_addr (items : Items) (pick : Z) : Z := match its items !! Z.to_nat pick with Some it => i_addr it | None => 0 end.

(** What the files of a BTREE hold: values and ids in order, and a row per page. *)
Definition btree_values (items : Items) (sorted : Sorted) : list (option Slot) := item_row items <$> order sorted.
Definition btree_ids (items : Items) (sorted : Sorted) : list Z := item_addr items <$> order sorted.

Record PageRow := mkPage { pg_min : option Slot; pg_max : option Slot; pg_nulls : Z; pg_idx : Z }.

Definition page_row (items : Items) (sorted : Sorted) (p : Z) : PageRow :=
  let n := zlen (order sorted) in
  let begin := p * kBTreePageRows in
  let end_ := Z.min n (begin + kBTreePageRows) in
  let none := Z.of_nat (nulls sorted) in
  mkPage (item_row items (nth (Z.to_nat begin) (order sorted) 0)) (item_row items (nth (Z.to_nat (end_ - 1)) (order sorted) 0))
    (u32 (if begin <? none then Z.min end_ none - begin else 0)) (u32 p).
Definition write_btree (items : Items) (sorted : Sorted) : list PageRow :=
  let n := zlen (order sorted) in
  page_row items sorted <$> seqZ 0 ((n + kBTreePageRows - 1) / kBTreePageRows).

(** A row per distinct value: the item it is taken from, and the addresses of its items serialized. *)
Definition bitmap_group (items : Items) (sorted : Sorted) (g : nat) : option Slot * list Z :=
  let begin := nth g (group_starts sorted) 0%nat in
  let end_ := if (S g <? length (group_starts sorted))%nat then nth (S g) (group_starts sorted) 0%nat else length (order sorted) in
  (item_row items (nth begin (order sorted) 0),
   RowSets.serialize_treemap (item_addr items <$> take (end_ - begin) (drop begin (order sorted)))).
Definition write_bitmap (items : Items) (sorted : Sorted) : list (option Slot * list Z) :=
  bitmap_group items sorted <$> seq 0 (length (group_starts sorted)).

(** *** Zones *)

Record Zone := mkZone {
  z_fragment : Z; z_start : Z; z_length : Z; z_nulls : Z; z_nans : Z; z_min : Z; z_max : Z; z_nan : Z }.

(** The loop of [cut_zones]: the zones so far, the zone of each item, the rows of the last zone. *)
Definition cut_zone (items : Items) (rows_per_zone : Z) (s : list Zone * list Z * Z) (it : Item) : list Zone * list Z * Z :=
  let '(zones, zone_of, count) := s in
  let fragment := Z.shiftr (i_addr it) 32 in
  let offset := Z.land (i_addr it) (2 ^ 32 - 1) in
  let fresh := match last zones with None => true | Some z => negb (z_fragment z =? fragment) || (count =? rows_per_zone) end in
  let zones := if fresh then zones ++ [mkZone fragment offset 0 0 0 kNoPick kNoPick kNoPick] else zones in
  let count := (if fresh then 0 else count) + 1 in
  let update z :=
    mkZone (z_fragment z) (z_start z) (u64 (offset - z_start z + 1)) (if item_null items it then u32 (z_nulls z + 1) else z_nulls z)
      (z_nans z) (z_min z) (z_max z) (z_nan z) in
  let zones := alter update (length zones - 1)%nat zones in
  (zones, zone_of ++ [u32 (zlen zones - 1)], count).
Definition cut_zones (items : Items) (rows_per_zone : Z) : list Zone * list Z :=
  (foldl (cut_zone items rows_per_zone) ([], [], 0) (its items)).1.

(** [zone_extrema], with the order of the keys: NaNs are counted apart. *)
Definition extend_zone (items : Items) (key_lt : Z -> Z -> bool) (is_nan : Z -> bool) (item : Z) (z : Zone) : Zone :=
  if is_nan item then
    mkZone (z_fragment z) (z_start z) (z_length z) (z_nulls z) (u32 (z_nans z + 1)) (z_min z) (z_max z)
      (if z_nan z =? kNoPick then item else z_nan z)
  else
    mkZone (z_fragment z) (z_start z) (z_length z) (z_nulls z) (z_nans z)
      (if (if z_min z =? kNoPick then true else key_lt item (z_min z)) then item else z_min z)
      (if (if z_max z =? kNoPick then true else key_lt (z_max z) item) then item else z_max z) (z_nan z).
Definition zone_extrema (items : Items) (zone_of : list Z) (key_lt : Z -> Z -> bool) (is_nan : Z -> bool) (zones : list Zone) : list Zone :=
  foldl (fun zones (k : nat) =>
           match its items !! k with
           | Some it =>
               if item_null items it then zones
               else alter (extend_zone items key_lt is_nan (u32 (Z.of_nat k))) (Z.to_nat (nth k zone_of 0)) zones
           | None => zones
           end) zones (seq 0 (length (its items))).

(** The keys [zone_extrema_of] compares. *)
Definition pick_slot (items : Items) (k : Z) : Slot := match its items !! Z.to_nat k with Some it => item_slot items it | None => SNone end.
Definition key_lt_of (items : Items) (kind : KeyKind) (a b : Z) : bool :=
  let x := pick_slot items a in
  let y := pick_slot items b in
  match kind with
  | KInt | KBool | KUInt => Expr.get_int x <? Expr.get_int y
  | Float16 => ScalarSort.total_order (Expr.get_bits x) 16 <? ScalarSort.total_order (Expr.get_bits y) 16
  | Float32 => ScalarSort.total_order (Expr.get_bits x) 32 <? ScalarSort.total_order (Expr.get_bits y) 32
  | Float64 => ScalarSort.total_order (Expr.get_bits x) 64 <? ScalarSort.total_order (Expr.get_bits y) 64
  | Decimal128 => ScalarSort.int128_ltb (ScalarSort.int128_key x) (ScalarSort.int128_key y)
  | Decimal256 => ScalarSort.int256_ltb (ScalarSort.int256_key x) (ScalarSort.int256_key y)
  | Bytes => ScalarSort.string_ltb (ScalarSort.string_key 0 x) (ScalarSort.string_key 0 y)
  end.
Definition zone_extrema_of (items : Items) (type : ArrowType) (kind : KeyKind) (zone_of : list Z) (zones : list Zone) : list Zone :=
  let float_kind := match kind with Float16 | Float32 | Float64 => true | _ => false end in
  zone_extrema items zone_of (key_lt_of items kind) (fun k => float_kind && slot_nan type (pick_slot items k)) zones.

(** The rows of zonemap.lance. *)
Record ZoneRow := mkZoneRow { zr_min : option Slot; zr_max : option Slot; zr_nulls : Z; zr_nans : Z; zr_fragment : Z; zr_start : Z; zr_length : Z }.
Definition zone_row (items : Items) (is_float is_nested : bool) (z : Zone) : ZoneRow :=
  mkZoneRow (if is_nested then None else item_row items (z_min z))
    (if is_nested then None else item_row items (if is_float && (0 <? z_nans z) then z_nan z else z_max z))
    (z_nulls z) (z_nans z) (z_fragment z) (z_start z) (z_length z).
(** The rows, and the buffer with the null rows' addresses. *)
Definition write_zonemap (items : Items) (is_float is_nested : bool) (zones : list Zone) : list ZoneRow * list Z :=
  (zone_row items is_float is_nested <$> zones,
   RowSets.serialize_treemap (i_addr <$> filter (fun it => Is_true (item_null items it)) (its items))).

(** ** Evaluating a predicate *)

Section Evaluate.
Context (float_op : Expr.ArithOp -> Double -> Double -> Double) (type : ArrowType) (unit : TimeUnit) (scale : Z).

(** The rows of a column: nothing for a null. *)
Definition view_rows (v : ArrayView) (n : Z) : list (option Slot) :=
  (fun r => if view_is_null v r then None else Some (slot_at v r)) <$> Expr.rows n.
Definition col_rows (table : Batches) : list (option Slot) := concat ((fun b => view_rows b.1 b.2) <$> table).
Definition row_value (o : option Slot) : Value := match o with None => VNull | Some s => read_scalar s type unit scale end.
Definition table_ok (table : Batches) : Prop := Forall (fun b => Expr.view_ok b.1 type b.2) table.

(** A predicate with literals for constants, on one value. *)
Definition with_literals (p : Predicate) (lits : list Value) : Prop := p_constants p = Literal <$> lits /\ Forall Expr.literal_ok lits.

Definition holds (p : Predicate) (lits : list Value) (v : Value) : res bool :=
  match p_test p with
  | TCompare => b ← Expr.eval_compare (p_op p) v (nth 0 lits VNull); Expr.keep_row b
  | TBetween => b ← Expr.eval_between false v (nth 0 lits VNull) (nth 1 lits VNull); Expr.keep_row b
  | TIsNull => Ok (is_null v)
  | TIsNotNull => Ok (negb (is_null v))
  | TIn | THasAny | THasAll | THas =>
      match lits with
      | [] => Ok false
      | _ => b ← (if is_null v then Ok v else Expr.eval_in false v (Ok <$> lits) false); Expr.keep_row b
      end
  | TContains => Err "contains is evaluated as a function"
  end.

Lemma read_key v r : Expr.read_column (mkColumn [0%nat] type unit scale) (View true 0 0 None [] [v]) r =
  row_value (if view_is_null v r then None else Some (slot_at v r)).
Proof.
  unfold Expr.read_column. cbn [Expr.c_indices Expr.walk_column]. cbn. rewrite Z.add_0_r. by destruct (view_is_null v r).
Qed.

Lemma constant_literal p lits k : with_literals p lits -> constant p k = Literal (nth k lits VNull).
Proof. intros [E _]. unfold constant. rewrite E. change (Literal VNull) with ((fun v => Literal v) VNull). apply map_nth. Qed.

Lemma slow_filter_inv batch n m keep :
  Expr.slow_filter float_op batch n m = Ok keep ->
  Forall2 (fun r b => (v ← Expr.eval float_op batch r m; Expr.keep_row v) = Ok b) (Expr.rows n) keep.
Proof.
  unfold Expr.slow_filter. generalize (Expr.rows n). intros l.
  assert (forall acc, fold_res (fun keep r => v ← Expr.eval float_op batch r m; b ← Expr.keep_row v; Ok (keep ++ [b])) l acc = Ok keep ->
    exists k, keep = acc ++ k /\ Forall2 (fun r b => (v ← Expr.eval float_op batch r m; Expr.keep_row v) = Ok b) l k) as H.
  { induction l as [|r l IH]; intros acc E; cbn in E; [injection E as <-; exists []; by rewrite app_nil_r|].
    unfold mbind, res_bind in *. destruct (Expr.eval float_op batch r m) as [v|] eqn:Ev; [|done].
    destruct (Expr.keep_row v) as [b|] eqn:Eb; [|done]. apply IH in E as (k & -> & Hk). exists (b :: k). rewrite <- app_assoc.
    split; [done|]. constructor; [by rewrite Ev | done]. }
  intros E. destruct (H [] E) as (k & -> & Hk). done.
Qed.

Lemma literal_ok_nth lits k : Forall Expr.literal_ok lits -> Expr.literal_ok (nth k lits VNull).
Proof. intros H. rewrite nth_lookup. destruct (lits !! k) eqn:E; cbn; [by eapply Forall_lookup_1 | done]. Qed.

Lemma predicate_node_ok p lits v n m :
  with_literals p lits -> Expr.view_ok v type n -> predicate_node type unit scale p = Some m ->
  Expr.node_ok (View true 0 0 None [] [v]) n m.
Proof.
  intros Hl Hv. pose proof (literal_ok_nth lits 0 (proj2 Hl)). pose proof (literal_ok_nth lits 1 (proj2 Hl)).
  unfold predicate_node. rewrite !(constant_literal p lits) by done. destruct (p_test p); intros [= <-]; cbn; auto.
Qed.

(** [predicate_filter] tests every row's value. *)
Lemma predicate_filter_rows p lits v n pass :
  with_literals p lits -> Expr.view_ok v type n -> predicate_filter float_op type unit scale p v n = Ok pass ->
  Forall2 (fun o b => holds p lits (row_value o) = Ok b) (view_rows v n) pass.
Proof.
  intros Hl Hv. unfold predicate_filter. pose proof Hl as [Ec _]. rewrite Ec.
  destruct (needs_constants (p_test p) && _) eqn:Hnc.
  - intros [= <-]. apply andb_true_iff in Hnc as [Hn He%bool_decide_eq_true]. destruct lits; [|done].
    unfold view_rows, Expr.rows. apply Forall2_fmap_l. assert (length (seqZ 0 n) = Z.to_nat n) as Hlen by apply length_seqZ.
    rewrite <- Hlen. generalize (seqZ 0 n). intros l. induction l as [|r l IH]; [constructor|]. cbn. constructor; [|done].
    unfold holds. by destruct (p_test p).
  - destruct (predicate_node type unit scale p) as [m|] eqn:Em; [|done].
    rewrite Expr.filter_slow by (done || by eapply predicate_node_ok). intros H%slow_filter_inv. unfold view_rows. apply Forall2_fmap_l.
    eapply Forall2_impl; [exact H|]. intros r b E. unfold compose. rewrite <- read_key. unfold predicate_node in Em. unfold holds.
    rewrite !(constant_literal p lits) in Em by done.
    destruct (p_test p) eqn:Et; try discriminate Em; injection Em as <-; cbn [Expr.eval] in E; unfold mbind, res_bind in *; try done.
    all: destruct lits as [|l lits]; [|rewrite Ec, <- list_fmap_compose in E; done].
    all: rewrite Ec in E; cbn in E, Hnc; try done.
    destruct (view_is_null v (r + 0)); [done | by rewrite Expr.read_scalar_not_null in E].
Qed.

Lemma evaluate_rows p lits table pass :
  with_literals p lits -> table_ok table -> evaluate float_op type unit scale p table = Ok pass ->
  Forall2 (fun o b => holds p lits (row_value o) = Ok b) (col_rows table) pass.
Proof.
  intros Hl Ht. unfold evaluate, col_rows.
  assert (forall acc, fold_res (fun pass b => part ← predicate_filter float_op type unit scale p b.1 b.2; Ok (pass ++ part)) table acc = Ok pass ->
    exists k, pass = acc ++ k /\ Forall2 (fun o b => holds p lits (row_value o) = Ok b) (concat ((fun b => view_rows b.1 b.2) <$> table)) k) as H.
  { induction Ht as [|[v n] table Hv Ht IH]; intros acc E; [injection E as <-; exists []; split; [by rewrite app_nil_r | constructor]|].
    cbn [fold_res fst snd] in E. unfold mbind, res_bind in *. destruct (predicate_filter _ _ _ _ p v n) as [part|] eqn:Ep; [|done].
    apply IH in E as (k & -> & Hk). exists (part ++ k). split; [by rewrite <- app_assoc|]. rewrite fmap_cons. cbn [concat fst snd].
    apply Forall2_app; [|done]. by eapply predicate_filter_rows. }
  intros E. destruct (H [] E) as (k & -> & Hk). done.
Qed.

(** The state of a row, as [nulls_of] reads it. *)
Definition row_state (o : option Slot) : bool * bool :=
  match o with None => (true, false) | Some s => (false, slot_nan type s) end.

Lemma nulls_of_rows table : nulls_of type table = row_state <$> col_rows table.
Proof.
  unfold nulls_of, col_rows. induction table as [|b table IH]; [done|]. rewrite !fmap_cons. cbn [concat]. rewrite fmap_app, IH. f_equal.
  unfold view_rows. rewrite <- list_fmap_compose. apply list_fmap_ext. intros i r _. unfold compose. by destruct (view_is_null b.1 r).
Qed.

End Evaluate.

(** ** Pruning keeps every match *)

Section PruneComplete.
Context (float_op : Expr.ArithOp -> Double -> Double -> Double) (type : ArrowType) (unit : TimeUnit) (scale : Z).
Context (kind : KeyKind) (name : string) (Hkind : ScalarSort.key_kind_of type name = Ok kind).
Context (mins maxs : Batches) (null_counts : list Z) (Hmins : table_ok type mins) (Hmaxs : table_ok type maxs).
Context (p : Predicate) (lits : list Value) (Hlits : with_literals p lits)
  (Hfit : Forall (KeyOrder.literal_fits type scale) lits).

Notation value := (row_value type unit scale).
Notation lit k := (nth k lits VNull).

Lemma compare_with_literals op k : with_literals (compare_with p op k) [lit k].
Proof.
  split; [unfold compare_with; cbn; by rewrite (constant_literal _ lits)|]. constructor; [|constructor]. by apply literal_ok_nth, Hlits.
Qed.

(** A comparison that does not fail: what it says. *)
Lemma holds_compare op k v b :
  holds (compare_with p op k) [lit k] v = Ok b ->
  if is_null v || is_null (lit k) then b = false else exists c, Expr.compare v (lit k) = Some c /\ b = Expr.wanted op c.
Proof.
  unfold holds, Expr.eval_compare. cbn. destruct (is_null v || is_null (lit k)); [by intros [= <-]|].
  destruct (Expr.compare v (lit k)) as [c|]; cbn; [|done]. intros [= <-]. eauto.
Qed.

Lemma fits_nth k : KeyOrder.literal_fits type scale (lit k).
Proof. rewrite nth_lookup. destruct (lits !! k) eqn:E; cbn; [by eapply Forall_lookup_1 | done]. Qed.

(** A match moved up passes what asks for no less, and one moved down what asks for no more. *)
Lemma compare_up op k x m b :
  KeyOrder.value_fits type unit x -> KeyOrder.value_fits type unit m -> ScalarSort.slot_ltb kind m x = false ->
  (op = Ge \/ op = Gt) -> is_null (lit k) = false ->
  (exists c, Expr.compare (value (Some x)) (lit k) = Some c /\ Expr.wanted op c = true) ->
  holds (compare_with p op k) [lit k] (value (Some m)) = Ok b -> b = true.
Proof.
  intros Hx Hm Hle Hop Hl (c & Hc & Hw) H%holds_compare. cbn [row_value] in *.
  rewrite Expr.read_scalar_not_null, Hl in H. destruct H as (c' & Hc' & ->).
  pose proof (KeyOrder.compare_mono _ _ _ _ _ _ _ _ _ _ Hkind Hx Hm (fits_nth k) Hle Hc Hc').
  destruct Hop as [-> | ->]; cbn in *; [apply Z.leb_le in Hw; apply Z.leb_le | apply Z.ltb_lt in Hw; apply Z.ltb_lt]; lia.
Qed.

Lemma compare_down op k x m b :
  KeyOrder.value_fits type unit x -> KeyOrder.value_fits type unit m -> ScalarSort.slot_ltb kind x m = false ->
  (op = Le \/ op = Lt) -> is_null (lit k) = false ->
  (exists c, Expr.compare (value (Some x)) (lit k) = Some c /\ Expr.wanted op c = true) ->
  holds (compare_with p op k) [lit k] (value (Some m)) = Ok b -> b = true.
Proof.
  intros Hx Hm Hle Hop Hl (c & Hc & Hw) H%holds_compare. cbn [row_value] in *.
  rewrite Expr.read_scalar_not_null, Hl in H. destruct H as (c' & Hc' & ->).
  pose proof (KeyOrder.compare_mono _ _ _ _ _ _ _ _ _ _ Hkind Hm Hx (fits_nth k) Hle Hc' Hc).
  destruct Hop as [-> | ->]; cbn in *; [apply Z.leb_le in Hw; apply Z.leb_le | apply Z.ltb_lt in Hw; apply Z.ltb_lt]; lia.
Qed.

(** The bounds of a unit hold for a value in it: the maximum is there and, unless it is a NaN, no value sorts
    after it; the minimum, unless it is missing or a NaN, sorts after none. *)
Record bounded (mn mx : option Slot) (x : Slot) : Prop := {
  bd_fits : KeyOrder.value_fits type unit x;
  bd_max : exists m, mx = Some m /\ KeyOrder.value_fits type unit m /\ (slot_nan type m = true \/ ScalarSort.slot_ltb kind m x = false);
  bd_min : forall m, mn = Some m -> KeyOrder.value_fits type unit m /\ (slot_nan type m = true \/ ScalarSort.slot_ltb kind x m = false) }.

Lemma bound_maxs_at q lits' ok i m :
  with_literals q lits' -> bound_maxs float_op type unit scale maxs q = Ok ok -> col_rows maxs !! i = Some (Some m) ->
  exists b, holds q lits' (value (Some m)) = Ok b /\ ok !! i = Some (bound_max (false, slot_nan type m) b).
Proof.
  intros Hq. unfold bound_maxs, mbind, res_bind. destruct (evaluate float_op type unit scale q maxs) as [pass|] eqn:E; [|done]. intros [= <-] Hi.
  apply (evaluate_rows float_op type unit scale q lits' maxs pass Hq Hmaxs) in E. destruct (Forall2_lookup_l _ _ _ _ _ E Hi) as (b & Hb & Hh).
  exists b. split; [done|]. by rewrite lookup_zip_with, nulls_of_rows, list_lookup_fmap, Hi, Hb.
Qed.

Lemma bound_mins_at q lits' ok i mn m :
  with_literals q lits' -> bound_mins float_op type unit scale mins maxs q = Ok ok ->
  col_rows mins !! i = Some mn -> col_rows maxs !! i = Some (Some m) ->
  exists b, holds q lits' (value mn) = Ok b /\ ok !! i = Some (bound_min (row_state type mn) (false, slot_nan type m) b).
Proof.
  intros Hq. unfold bound_mins, mbind, res_bind. destruct (evaluate float_op type unit scale q mins) as [pass|] eqn:E; [|done]. intros [= <-] Hn Hx.
  apply (evaluate_rows float_op type unit scale q lits' mins pass Hq Hmins) in E. destruct (Forall2_lookup_l _ _ _ _ _ E Hn) as (b & Hb & Hh).
  exists b. split; [done|]. by rewrite !lookup_zip_with, !nulls_of_rows, !list_lookup_fmap, Hn, Hx, Hb.
Qed.

(** A range that a value of the unit satisfies keeps the unit. *)
Definition up_ok (x : Slot) (lo : option (CmpOp * nat)) : Prop :=
  forall op k, lo = Some (op, k) -> (op = Ge \/ op = Gt) /\ is_null (lit k) = false /\
    exists c, Expr.compare (value (Some x)) (lit k) = Some c /\ Expr.wanted op c = true.
Definition down_ok (x : Slot) (hi : option (CmpOp * nat)) : Prop :=
  forall op k, hi = Some (op, k) -> (op = Le \/ op = Lt) /\ is_null (lit k) = false /\
    exists c, Expr.compare (value (Some x)) (lit k) = Some c /\ Expr.wanted op c = true.

Lemma value_range_keeps lo hi keep i mn mx x :
  value_range float_op type unit scale mins maxs p lo hi = Ok keep ->
  col_rows mins !! i = Some mn -> col_rows maxs !! i = Some mx -> bounded mn mx x -> up_ok x lo -> down_ok x hi ->
  keep !! i = Some true.
Proof.
  intros Hr Hn Hx Hb Hup Hdown. destruct Hb as [Fx (m & -> & Fm & Hmax) Hmin]. unfold value_range, mbind, res_bind in Hr.
  set (all := (fun _ => true) <$> nulls_of type maxs) in Hr.
  assert (all !! i = Some true) as Hall by (unfold all; rewrite list_lookup_fmap, nulls_of_rows, list_lookup_fmap, Hx; done).
  assert (forall a, match lo with Some (op, k) => bound_maxs float_op type unit scale maxs (compare_with p op k) | None => Ok all end = Ok a ->
    a !! i = Some true) as Ha.
  { intros a. destruct lo as [[op k]|]; [|by intros [= <-]]. intros E. destruct (Hup op k eq_refl) as (Hop & Hl & Hc).
    destruct (bound_maxs_at _ _ _ _ _ (compare_with_literals op k) E Hx) as (b & Hb & ->). unfold bound_max. cbn [fst snd].
    destruct (slot_nan type m) eqn:En; [done|]. destruct Hmax as [|Hmax]; [done|]. by rewrite (compare_up op k x m b). }
  assert (forall a, match hi with Some (op, k) => bound_mins float_op type unit scale mins maxs (compare_with p op k) | None => Ok all end = Ok a ->
    a !! i = Some true) as Hbb.
  { intros a. destruct hi as [[op k]|]; [|by intros [= <-]]. intros E. destruct (Hdown op k eq_refl) as (Hop & Hl & Hc).
    destruct (bound_mins_at _ _ _ _ _ _ (compare_with_literals op k) E Hn Hx) as (b & Hb & ->). unfold bound_min. cbn [fst snd].
    destruct mn as [l|]; [|done]. cbn [row_state fst snd orb]. destruct (slot_nan type l) eqn:En; [done|].
    destruct (Hmin l eq_refl) as [Fl [|Hle]]; [congruence|]. by rewrite (compare_down op k x l b). }
  destruct (match lo with Some (op, k) => bound_maxs float_op type unit scale maxs (compare_with p op k) | None => Ok all end) as [a|]; [|done].
  destruct (match hi with Some (op, k) => bound_mins float_op type unit scale mins maxs (compare_with p op k) | None => Ok all end) as [b|]; [|done].
  injection Hr as <-. by rewrite !lookup_zip_with, nulls_of_rows, list_lookup_fmap, Hx, (Ha a), (Hbb b).
Qed.

Lemma eval_in_match v items saw :
  Expr.eval_in false v (Ok <$> items) saw = Ok (VBool true) ->
  exists k, (k < length items)%nat /\ is_null (nth k items VNull) = false /\ Expr.compare v (nth k items VNull) = Some 0.
Proof.
  revert saw. induction items as [|b items IH]; intros saw; cbn; [by destruct saw|].
  destruct (is_null b) eqn:En; [intros (k & ? & ?)%IH; exists (S k); split; [lia | done]|].
  destruct (Expr.compare v b) as [c|] eqn:Ec; [|done]. destruct (Z.eqb_spec c 0) as [->|]; [intros _; exists 0%nat; split_and!; [lia | done | done]|].
  intros (k & ? & ?)%IH. exists (S k). split; [lia | done].
Qed.

Lemma keep_row_true v : Expr.keep_row v = Ok true -> v = VBool true.
Proof. destruct v; cbn; try done. by intros [= ->]. Qed.

(** What a value that passes says of the comparisons. *)
Lemma holds_value_compare x : p_test p = TCompare -> holds p lits (value (Some x)) = Ok true ->
  is_null (lit 0) = false /\ exists c, Expr.compare (value (Some x)) (lit 0) = Some c /\ Expr.wanted (p_op p) c = true.
Proof.
  intros Et. unfold holds. rewrite Et. unfold Expr.eval_compare, mbind, res_bind. cbn [row_value]. rewrite Expr.read_scalar_not_null. cbn [orb].
  destruct (is_null (lit 0)); [done|]. destruct (Expr.compare _ _) as [c|]; [|done]. cbn. intros [= Hw]. eauto.
Qed.

Lemma holds_value_between x : p_test p = TBetween -> holds p lits (value (Some x)) = Ok true ->
  is_null (lit 0) = false /\ is_null (lit 1) = false /\
  exists c1 c2, Expr.compare (value (Some x)) (lit 0) = Some c1 /\ Expr.compare (value (Some x)) (lit 1) = Some c2 /\ 0 <= c1 /\ c2 <= 0.
Proof.
  intros Et. unfold holds. rewrite Et. unfold Expr.eval_between, mbind, res_bind. cbn [row_value]. rewrite Expr.read_scalar_not_null. cbn [orb].
  destruct (is_null (lit 0)); [done|]. destruct (is_null (lit 1)); [done|]. cbn [orb].
  destruct (Expr.compare _ (lit 0)) as [c1|]; [|done]. destruct (Expr.compare _ (lit 1)) as [c2|]; [|done]. cbn.
  intros [= [H1%Z.leb_le H2%Z.leb_le]%andb_true_iff]. split_and!; eauto 10.
Qed.

Lemma holds_value_in x : p_test p = TIn -> holds p lits (value (Some x)) = Ok true ->
  exists k, (k < length lits)%nat /\ is_null (lit k) = false /\ Expr.compare (value (Some x)) (lit k) = Some 0.
Proof.
  intros Et. unfold holds. rewrite Et. destruct lits as [|l ls]; [done|]. unfold mbind, res_bind. cbn [row_value].
  rewrite Expr.read_scalar_not_null. destruct (Expr.eval_in false _ _ false) as [v|] eqn:E; [|done].
  intros ->%keep_row_true. by apply eval_in_match in E.
Qed.

Lemma null_holds : holds p lits VNull = Ok true -> p_test p = TIsNull.
Proof.
  unfold holds. destruct (p_test p); try done; unfold Expr.eval_compare, Expr.eval_between; cbn; try done; by destruct lits.
Qed.

(** The folded ranges of IN: a unit one of them keeps is kept. *)
Lemma in_fold_keeps ks acc keep i k :
  fold_res (fun keep k => one ← value_range float_op type unit scale mins maxs p (Some (Ge, k)) (Some (Le, k)); Ok (or_keep keep one)) ks acc = Ok keep ->
  is_Some (acc !! i) -> is_Some (col_rows maxs !! i) -> is_Some (col_rows mins !! i) ->
  (acc !! i = Some true \/ k ∈ ks /\ forall one, value_range float_op type unit scale mins maxs p (Some (Ge, k)) (Some (Le, k)) = Ok one -> one !! i = Some true) ->
  keep !! i = Some true.
Proof.
  intros Hf Ha [mx Hx] [mn Hn]. revert acc Hf Ha. induction ks as [|k' ks IH]; intros acc Hf [a Ha] Hk; cbn [fold_res] in Hf.
  { injection Hf as <-. destruct Hk as [|[?%elem_of_nil _]]; done. }
  destruct (value_range float_op type unit scale mins maxs p (Some (Ge, k')) (Some (Le, k'))) as [one|] eqn:E; [|done]. cbn [mbind res_bind] in Hf.
  assert (is_Some (one !! i)) as [o Ho].
  { unfold value_range, mbind, res_bind, bound_maxs, bound_mins, mbind, res_bind in E.
    destruct (evaluate float_op type unit scale (compare_with p Ge k') maxs) as [p1|] eqn:E1; [|done].
    destruct (evaluate float_op type unit scale (compare_with p Le k') mins) as [p2|] eqn:E2; [|done]. injection E as <-.
    apply (evaluate_rows _ _ _ _ _ _ _ _ (compare_with_literals Ge k') Hmaxs) in E1.
    apply (evaluate_rows _ _ _ _ _ _ _ _ (compare_with_literals Le k') Hmins) in E2.
    destruct (Forall2_lookup_l _ _ _ _ _ E1 Hx) as (b1 & B1 & _). destruct (Forall2_lookup_l _ _ _ _ _ E2 Hn) as (b2 & B2 & _).
    rewrite !lookup_zip_with, !nulls_of_rows, !list_lookup_fmap, Hx, Hn, B1, B2. cbn. eauto. }
  apply (IH (or_keep acc one)); [done | | ]; unfold or_keep; rewrite lookup_zip_with, Ha, Ho; cbn; [eauto|].
  destruct Hk as [Hk|[[->|Hk]%elem_of_cons Hone]]; [left | left | by right].
  - rewrite Ha in Hk. injection Hk as ->. done.
  - specialize (Hone one E). rewrite Ho in Hone. injection Hone as ->. by rewrite orb_true_r.
Qed.

(** A unit with a value, or a null, that passes is kept. *)
Lemma prune_keeps keep i mn mx nc o :
  prune_by_bounds float_op type unit scale mins maxs null_counts p = Ok (Some keep) ->
  col_rows mins !! i = Some mn -> col_rows maxs !! i = Some mx -> null_counts !! i = Some nc ->
  match o with None => 0 < nc | Some x => bounded mn mx x end -> holds p lits (value o) = Ok true -> keep !! i = Some true.
Proof.
  intros Hp Hn Hx Hc Ho Hh. unfold prune_by_bounds in Hp. destruct o as [x|].
  2:{ cbn [row_value] in Hh. apply null_holds in Hh. rewrite Hh in Hp. injection Hp as <-. rewrite list_lookup_fmap, Hc. cbn. f_equal. by apply Z.ltb_lt. }
  assert (forall lo hi, up_ok x lo -> down_ok x hi -> forall k, value_range float_op type unit scale mins maxs p lo hi = Ok k -> k !! i = Some true) as Hr
    by (intros; by eapply value_range_keeps).
  assert (up_ok x None) as U0 by done. assert (down_ok x None) as D0 by done. unfold mbind, res_bind in Hp.
  destruct (p_test p) eqn:Et; try discriminate Hp.
  - destruct (holds_value_compare x Et Hh) as (Hl & c & Hcmp & Hw).
    assert (forall op, (op = Ge \/ op = Gt) -> Expr.wanted op c = true -> up_ok x (Some (op, 0%nat))) as U by (intros op Hop Hw' ? ? [= <- <-]; eauto).
    assert (forall op, (op = Le \/ op = Lt) -> Expr.wanted op c = true -> down_ok x (Some (op, 0%nat))) as D by (intros op Hop Hw' ? ? [= <- <-]; eauto).
    destruct (p_op p) eqn:Eo;
      match type of Hp with match ?e with Ok _ => _ | Err _ => _ end = _ => destruct e as [k|] eqn:Ek; [|done] end; injection Hp as <-;
      (eapply Hr; [| |exact Ek]); auto.
    + apply U; [auto|]. cbn in *. apply Z.eqb_eq in Hw as ->. done.
    + apply D; [auto|]. cbn in *. apply Z.eqb_eq in Hw as ->. done.
  - destruct (length (p_constants p) =? 2)%nat; [|done]. destruct (value_range _ _ _ _ _ _ p _ _) as [k|] eqn:Ek; [|done]. injection Hp as <-.
    destruct (holds_value_between x Et Hh) as (L0 & L1 & c1 & c2 & C1 & C2 & H1 & H2). eapply Hr; [| |exact Ek].
    + intros op k' [= <- <-]. split_and!; [auto | done |]. exists c1. split; [done|]. cbn. by apply Z.leb_le.
    + intros op k' [= <- <-]. split_and!; [auto | done |]. exists c2. split; [done|]. cbn. by apply Z.leb_le.
  - destruct (holds_value_in x Et Hh) as (k & Hk & Hl & Hcmp).
    destruct (fold_res _ _ _) as [out|] eqn:Ef; [|done]. injection Hp as <-.
    eapply (in_fold_keeps _ _ _ _ k Ef); [rewrite list_lookup_fmap, Hc; eauto | by rewrite Hx | by rewrite Hn|]. right. split.
    + apply elem_of_seq. destruct Hlits as [E _]. rewrite E, length_fmap. lia.
    + intros one Eo. eapply Hr; [| |exact Eo]; (intros op k' [= <- <-]; split_and!; [auto | done |]; exists 0; done).
  - exfalso. unfold holds in Hh. rewrite Et in Hh. cbn [row_value] in Hh. by rewrite Expr.read_scalar_not_null in Hh.
  - injection Hp as <-. destruct Ho as [_ (m & -> & _) _]. by rewrite list_lookup_fmap, nulls_of_rows, list_lookup_fmap, Hx.
Qed.

Lemma evaluate_length q lits' table pass :
  with_literals q lits' -> table_ok type table -> evaluate float_op type unit scale q table = Ok pass -> length pass = length (col_rows table).
Proof. intros Hq Ht E. symmetry. eapply Forall2_length. by apply (evaluate_rows float_op type unit scale q lits' table pass Hq Ht). Qed.

Lemma value_range_length lo hi keep n :
  length (col_rows mins) = n -> length (col_rows maxs) = n ->
  value_range float_op type unit scale mins maxs p lo hi = Ok keep -> length keep = n.
Proof.
  intros Ln Lx. unfold value_range, bound_maxs, bound_mins, mbind, res_bind.
  assert (forall op k table pass, table_ok type table -> evaluate float_op type unit scale (compare_with p op k) table = Ok pass -> length pass = length (col_rows table)) as He
    by (intros; by eapply (evaluate_length _ _ _ _ (compare_with_literals op k))).
  destruct lo as [[op k]|]; [destruct (evaluate float_op type unit scale (compare_with p op k) maxs) as [a|] eqn:Ea; [apply He in Ea; [|done]|done]|];
    (destruct hi as [[op' k']|]; [destruct (evaluate float_op type unit scale (compare_with p op' k') mins) as [b|] eqn:Eb; [apply He in Eb; [|done]|done]|]);
    intros [= <-]; rewrite ?nulls_of_rows, ?length_zip_with, ?length_zip, ?length_fmap; rewrite ?length_zip_with, ?length_fmap; lia.
Qed.

Lemma prune_length keep n :
  length (col_rows mins) = n -> length (col_rows maxs) = n -> length null_counts = n ->
  prune_by_bounds float_op type unit scale mins maxs null_counts p = Ok (Some keep) -> length keep = n.
Proof.
  intros Ln Lx Lc. unfold prune_by_bounds, mbind, res_bind.
  assert (forall lo hi k, value_range float_op type unit scale mins maxs p lo hi = Ok k -> length k = n) as Hr by (intros; by eapply value_range_length).
  destruct (p_test p); try done.
  - destruct (p_op p); match goal with |- context [value_range _ _ _ _ _ _ p ?lo ?hi] => destruct (value_range float_op type unit scale mins maxs p lo hi) as [k|] eqn:E end;
      try done; intros [= <-]; by eapply Hr.
  - destruct (_ =? _)%nat; [|done]. destruct (value_range _ _ _ _ _ _ p _ _) as [k|] eqn:E; [|done]. intros [= <-]. by eapply Hr.
  - assert (forall ks acc out, length acc = n ->
      fold_res (fun keep k => one ← value_range float_op type unit scale mins maxs p (Some (Ge, k)) (Some (Le, k)); Ok (or_keep keep one)) ks acc = Ok out -> length out = n) as Hf.
    { induction ks as [|k ks IH]; intros acc out La; cbn [fold_res]; [by intros [= <-]|].
      destruct (value_range float_op type unit scale mins maxs p (Some (Ge, k)) (Some (Le, k))) as [one|] eqn:E; [|done]. cbn [mbind res_bind].
      apply IH. apply Hr in E. unfold or_keep. rewrite length_zip_with. lia. }
    destruct (fold_res _ _ _) as [out|] eqn:E; [|done]. intros [= <-]. eapply Hf; [|exact E]. by rewrite length_fmap.
  - intros [= <-]. by rewrite length_fmap.
  - intros [= <-]. by rewrite length_fmap, nulls_of_rows, length_fmap.
Qed.

End PruneComplete.

(** ** Evaluation without errors *)

Section Total.
Context (float_op : Expr.ArithOp -> Double -> Double -> Double) (type : ArrowType) (unit : TimeUnit) (scale : Z).

(** Literals every value of the column compares with, or NULL. *)
Definition comparable (lits : list Value) : Prop :=
  Forall (fun l => is_null l = true \/ forall s, is_Some (Expr.compare (read_scalar s type unit scale) l)) lits.

Lemma comparable_nth lits k s : comparable lits -> is_null (nth k lits VNull) = false ->
  exists c, Expr.compare (read_scalar s type unit scale) (nth k lits VNull) = Some c.
Proof.
  intros H Hn. rewrite nth_lookup in *. destruct (lits !! k) as [l|] eqn:E; [|done].
  destruct (Forall_lookup_1 _ _ _ _ H E) as [|Hc]; [cbn in *; congruence|]. apply Hc.
Qed.

Lemma holds_total p lits o : comparable lits -> p_test p <> TContains -> exists b, holds p lits (row_value type unit scale o) = Ok b.
Proof.
  intros Hc Ht. set (v := row_value type unit scale o).
  assert (forall k, is_null v || is_null (nth k lits VNull) = true \/ exists c, Expr.compare v (nth k lits VNull) = Some c) as Hk.
  { intros k. destruct o as [s|]; [|by left]. destruct (is_null (nth k lits VNull)) eqn:E; [left; apply orb_true_r|]. right. by apply comparable_nth. }
  assert (forall items, comparable items -> forall saw, is_null v = false -> exists b, (w ← Expr.eval_in false v (Ok <$> items) saw; Expr.keep_row w) = Ok b) as Hin.
  { intros items Hi saw Hv. revert saw. destruct o as [s|]; [|done]. induction Hi as [|l items Hl Hi IH]; intros saw; cbn; [destruct saw; cbn; eauto|].
    destruct (is_null l) eqn:El; [apply IH|]. destruct Hl as [|Hl]; [congruence|]. destruct (Hl s) as [c Ec]. cbn [v row_value] in Ec |- *.
    rewrite Ec. destruct (c =? 0); [cbn; eauto | apply IH]. }
  unfold holds. destruct (p_test p); try done; try (cbn; by eauto).
  3-6: destruct lits as [|l lits']; [eauto|]; (destruct (is_null v) eqn:Ev; [|by apply Hin]); destruct v; try done; cbn; eauto.
  - unfold Expr.eval_compare, mbind, res_bind. destruct (Hk 0%nat) as [-> |[c Ec]]; [cbn; eauto|].
    destruct (is_null v || _); [cbn; eauto|]. rewrite Ec. cbn. eauto.
  - unfold Expr.eval_between, mbind, res_bind. destruct (is_null v) eqn:Ev; [cbn; eauto|]. cbn [orb].
    destruct (is_null (nth 0 lits VNull)) eqn:E0; [cbn; eauto|]. destruct (is_null (nth 1 lits VNull)) eqn:E1; [cbn; eauto|]. cbn [orb].
    destruct (Hk 0%nat) as [?|[c0 ->]]; [by rewrite E0 in *|]. destruct (Hk 1%nat) as [?|[c1 ->]]; [by rewrite E1 in *|]. cbn. eauto.
Qed.

Lemma slow_filter_total batch n m :
  (forall r, r ∈ Expr.rows n -> exists b, (v ← Expr.eval float_op batch r m; Expr.keep_row v) = Ok b) ->
  exists keep, Expr.slow_filter float_op batch n m = Ok keep.
Proof.
  unfold Expr.slow_filter. generalize (Expr.rows n). intros l H.
  assert (forall acc, exists keep, fold_res (fun keep r => v ← Expr.eval float_op batch r m; b ← Expr.keep_row v; Ok (keep ++ [b])) l acc = Ok keep) as Hf; [|apply Hf].
  induction l as [|r l IH]; intros acc; cbn [fold_res]; [eauto|]. destruct (H r ltac:(by left)) as [b Hb]. unfold mbind, res_bind in *.
  destruct (Expr.eval float_op batch r m) as [v|]; [|done]. rewrite Hb. apply IH. intros. apply H. by right.
Qed.

Lemma predicate_filter_total p lits v n :
  with_literals p lits -> comparable lits -> p_test p <> TContains -> Expr.view_ok v type n ->
  exists pass, predicate_filter float_op type unit scale p v n = Ok pass.
Proof.
  intros Hl Hc Ht Hv. unfold predicate_filter. pose proof Hl as [Ec _]. destruct (_ && _) eqn:En; [eauto|].
  destruct (predicate_node type unit scale p) as [m|] eqn:Em; [|unfold predicate_node in Em; by destruct (p_test p)].
  rewrite Expr.filter_slow by (done || by eapply predicate_node_ok). apply slow_filter_total. intros r _.
  destruct (holds_total p lits (if view_is_null v r then None else Some (slot_at v r)) Hc Ht) as [b Hb]. rewrite <- read_key in Hb.
  unfold predicate_node in Em. rewrite !(constant_literal p lits) in Em by done. unfold holds in Hb.
  destruct (p_test p); try discriminate Em; injection Em as <-; cbn [Expr.eval]; unfold mbind, res_bind in *; try (by eauto).
  all: destruct lits as [|l lits]; [|rewrite Ec, <- list_fmap_compose; by exists b].
  all: rewrite Ec; set (w := Expr.read_column _ _ _); destruct (is_null w) eqn:Ew; [destruct w; try done|]; cbn; eauto.
Qed.

Lemma evaluate_total p lits table :
  with_literals p lits -> comparable lits -> p_test p <> TContains -> table_ok type table ->
  exists pass, evaluate float_op type unit scale p table = Ok pass.
Proof.
  intros Hl Hc Ht Hok. unfold evaluate. generalize (@nil bool) as acc. induction Hok as [|[v n] table Hv Hok IH]; intros acc; cbn [fold_res]; [eauto|].
  destruct (predicate_filter_total p lits v n Hl Hc Ht Hv) as [part Hp]. cbn [fst snd]. rewrite Hp. cbn [mbind res_bind]. apply IH.
Qed.

(** Tests bounds decide. *)
Definition decided (p : Predicate) : Prop :=
  match p_test p with
  | TCompare | TIn | TIsNull | TIsNotNull => True
  | TBetween => length (p_constants p) = 2%nat
  | _ => False
  end.

Lemma value_range_total p lits mins maxs lo hi :
  with_literals p lits -> comparable lits -> table_ok type mins -> table_ok type maxs ->
  exists keep, value_range float_op type unit scale mins maxs p lo hi = Ok keep.
Proof.
  intros Hl Hc Hn Hx. assert (forall op k table, table_ok type table -> exists pass, evaluate float_op type unit scale (compare_with p op k) table = Ok pass) as He.
  { intros op k table Ht. apply (evaluate_total _ [nth k lits VNull]); [by apply compare_with_literals | | done | done].
    constructor; [|constructor]. rewrite nth_lookup. destruct (lits !! k) eqn:E; cbn; [by apply (Forall_lookup_1 _ _ _ _ Hc E) | by left]. }
  unfold value_range, bound_maxs, bound_mins, mbind, res_bind.
  destruct lo as [[op k]|]; [destruct (He op k maxs Hx) as [a ->]|]; (destruct hi as [[op' k']|]; [destruct (He op' k' mins Hn) as [b ->]|]); eauto.
Qed.

Lemma prune_total p lits mins maxs null_counts :
  with_literals p lits -> comparable lits -> decided p -> table_ok type mins -> table_ok type maxs ->
  exists keep, prune_by_bounds float_op type unit scale mins maxs null_counts p = Ok (Some keep).
Proof.
  intros Hl Hc Hd Hn Hx. unfold prune_by_bounds, decided in *. unfold mbind, res_bind.
  assert (forall lo hi, exists keep, value_range float_op type unit scale mins maxs p lo hi = Ok keep) as Hr by (intros; by eapply value_range_total).
  destruct (p_test p); try done; try by eauto.
  - destruct (p_op p); match goal with |- context [value_range _ _ _ _ _ _ p ?lo ?hi] => destruct (Hr lo hi) as [keep ->] end; eauto.
  - rewrite Hd. cbn [Nat.eqb]. destruct (Hr (Some (Ge, 0%nat)) (Some (Le, 1%nat))) as [keep ->]. eauto.
  - generalize ((fun _ : Z => false) <$> null_counts) as acc. induction (seq 0 (length (p_constants p))) as [|k ks IH]; intros acc; cbn [fold_res]; [eauto|].
    destruct (Hr (Some (Ge, k)) (Some (Le, k))) as [one ->]. cbn [mbind res_bind]. apply IH.
Qed.

End Total.

(** ** The rows of an ordered index *)

Section Order.
Context (kind : KeyKind) (items : Items) (Hn : zlen (its items) < 2 ^ 32).

Definition row_of (it : Item) : option Slot := if item_null items it then None else Some (item_slot items it).

Lemma split_perm {A} (P : A -> bool) (l : list A) : filter P l ++ filter (fun x => negb (P x)) l ≡ₚ l.
Proof.
  induction l as [|x l IH]; [done|]. rewrite !filter_cons. destruct (P x) eqn:E; cbn [negb];
    rewrite (decide_True (P := Is_true true)), (decide_False (P := Is_true false)) by (done || tauto).
  - cbn. by rewrite IH.
  - rewrite <- Permutation_middle. by rewrite IH.
Qed.

Lemma order_perm : order (ScalarSort.reference kind items) ≡ₚ (ScalarSort.numbered items).*1.
Proof.
  unfold ScalarSort.reference, ScalarSort.sort_all. cbn [order]. rewrite StableSort.stable_sort_perm.
  unfold ScalarSort.null_order, ScalarSort.entries. rewrite <- list_fmap_compose. unfold compose. cbn.
  rewrite <- fmap_app. by rewrite (split_perm (fun e => item_null items e.2) (ScalarSort.numbered items)).
Qed.

Lemma numbered_rows e : e ∈ ScalarSort.numbered items -> item_row items e.1 = row_of e.2 /\ item_addr items e.1 = i_addr e.2.
Proof.
  unfold ScalarSort.numbered. intros (k & it & -> & Hk)%elem_of_lookup_imap. pose proof (lookup_lt_Some _ _ _ Hk). unfold zlen in Hn. cbn [fst snd].
  unfold item_row, item_addr, kNoPick. rewrite u32_small by (unfold is_u32; lia). rewrite Nat2Z.id, Hk. known_false (Z.of_nat k =? 2 ^ 32 - 1). done.
Qed.

(** The rows and ids are those of the items, in another order. *)
Lemma rows_perm sorted :
  order sorted ≡ₚ (ScalarSort.numbered items).*1 ->
  zip (btree_values items sorted) (btree_ids items sorted) ≡ₚ (fun it => (row_of it, i_addr it)) <$> its items.
Proof.
  intros Hp. unfold btree_values, btree_ids. rewrite zip_with_fmap_l, zip_with_fmap_r, zip_with_diag.
  rewrite Hp, <- list_fmap_compose. apply reflexive_eq. transitivity ((fun e => (row_of e.2, i_addr e.2)) <$> ScalarSort.numbered items).
  - apply list_fmap_ext. intros i e He%list_elem_of_lookup_2%numbered_rows. unfold compose. by destruct He as [-> ->].
  - unfold ScalarSort.numbered. rewrite fmap_imap. unfold compose. cbn. clear. induction (its items) as [|it l IH]; [done|].
    rewrite imap_cons, fmap_cons. f_equal. exact IH.
Qed.

Lemma slot_weak {A} (f : A -> Slot) : StableSort.WeakOrder (fun a b => ScalarSort.slot_ltb kind (f a) (f b)).
Proof.
  destruct kind; cbn [ScalarSort.slot_ltb];
    first [exact (ScalarSort.key_weak Z.ltb (fun a => Expr.get_int (f a)) ScalarSort.Z_total)
          | exact (ScalarSort.key_weak Z.ltb (fun a => ScalarSort.total_order (Expr.get_bits (f a)) _) ScalarSort.Z_total)
          | exact (ScalarSort.key_weak Z.ltb (fun a => ScalarSort.value128 (f a)) ScalarSort.Z_total)
          | exact (ScalarSort.key_weak Z.ltb (fun a => ScalarSort.value256 (f a)) ScalarSort.Z_total)
          | exact (ScalarSort.key_weak ScalarSort.bytes_ltb (fun a => Expr.get_bytes (f a)) ScalarSort.bytes_total)].
Qed.

Lemma slot_irrefl x : ScalarSort.slot_ltb kind x x = false.
Proof. exact (StableSort.wo_irrefl (WeakOrder := slot_weak (fun s => s)) x). Qed.

(** The values of the reference order: the nulls, then the values sorted. *)
Lemma reference_rows : exists values,
  btree_values items (ScalarSort.reference kind items) =
    replicate (nulls (ScalarSort.reference kind items)) None ++ (Some <$> values) /\
  StronglySorted (fun a b => ScalarSort.slot_ltb kind b a = false) values /\
  group_starts (ScalarSort.reference kind items) = ScalarSort.null_start (nulls (ScalarSort.reference kind items)) ++
    ScalarSort.starts (ScalarSort.slot_ltb kind) None (nulls (ScalarSort.reference kind items)) values.
Proof.
  unfold btree_values, ScalarSort.reference, ScalarSort.sort_all. cbn [order nulls group_starts].
  set (sorted := StableSort.stable_sort _ _).
  assert (sorted ≡ₚ ScalarSort.entries (fun s => s) items) as Hp by apply StableSort.stable_sort_perm.
  assert (StronglySorted (fun a b : Slot * Z => ScalarSort.slot_ltb kind b.1 a.1 = false) sorted) as Hs.
  { unfold sorted. pose proof (slot_weak (fst (A := Slot) (B := Z))) as W. by apply (StableSort.stable_sort_spec _ _). }
  exists sorted.*1. split_and!; [| |done].
  - rewrite fmap_app. f_equal.
    + assert (forall k, k ∈ ScalarSort.null_order items -> item_row items k = None) as Hk.
      { intros k (e & -> & [Hnull He]%list_elem_of_filter)%list_elem_of_fmap. destruct (numbered_rows e He) as [-> _].
        unfold row_of. by destruct (item_null items e.2). }
      induction (ScalarSort.null_order items) as [|k l IH]; [done|]. rewrite fmap_cons. cbn. f_equal; [apply Hk; by left | apply IH; intros; apply Hk; by right].
    + rewrite <- !list_fmap_compose. apply list_fmap_ext. intros i e He%list_elem_of_lookup_2. rewrite Hp in He. unfold compose.
      unfold ScalarSort.entries in He. apply list_elem_of_fmap in He as (e' & -> & [Hnull He]%list_elem_of_filter). cbn [fst snd].
      destruct (numbered_rows e' He) as [-> _]. unfold row_of. by destruct (item_null items e'.2).
  - by apply (ScalarSort.sorted_fmap (fun a b : Slot * Z => ScalarSort.slot_ltb kind b.1 a.1 = false)).
Qed.

Lemma sorted_lookup {A} (R : A -> A -> Prop) (l : list A) i j x y :
  StronglySorted R l -> (i < j)%nat -> l !! i = Some x -> l !! j = Some y -> R x y.
Proof.
  intros Hs. revert i j. induction Hs as [|z l Hl IH Hz]; intros i j Hij Hi Hj; [done|]. destruct i as [|i], j as [|j]; cbn in *; try lia.
  - injection Hi as <-. rewrite Forall_forall in Hz. apply Hz. by eapply list_elem_of_lookup_2.
  - eapply IH; [|done|done]. lia.
Qed.

(** Of two places of the order, the later one is a value if the earlier is, and sorts no earlier. *)
Lemma rows_ordered i j x :
  let values := btree_values items (ScalarSort.reference kind items) in
  (i <= j)%nat -> (j < length values)%nat -> values !! i = Some (Some x) ->
  exists y, values !! j = Some (Some y) /\ ScalarSort.slot_ltb kind y x = false.
Proof.
  destruct reference_rows as (S & E & Hs & _). cbn zeta. rewrite E. set (k := nulls _). intros Hij Hj Hi.
  rewrite length_app, length_replicate, length_fmap in Hj. assert (k <= i)%nat as Hk.
  { destruct (decide (k <= i)%nat) as [|Hlt]; [done|]. rewrite lookup_app_l in Hi by (rewrite length_replicate; lia).
    rewrite lookup_replicate_2 in Hi by lia. done. }
  rewrite lookup_app_r, length_replicate, list_lookup_fmap in Hi by (rewrite length_replicate; lia).
  rewrite lookup_app_r, length_replicate, list_lookup_fmap by (rewrite length_replicate; lia).
  destruct (S !! (i - k)%nat) as [x'|] eqn:Ex; [|done]. injection Hi as ->.
  destruct (S !! (j - k)%nat) as [y|] eqn:Ey; [|apply lookup_ge_None in Ey; lia]. exists y. split; [done|].
  destruct (decide (i = j)) as [->|]; [rewrite Ey in Ex; injection Ex as ->; apply slot_irrefl|].
  apply (sorted_lookup (fun a b => ScalarSort.slot_ltb kind b a = false) S (i - k) (j - k)); [done | lia | done | done].
Qed.

(** The nulls are the first places. *)
Lemma rows_null i :
  btree_values items (ScalarSort.reference kind items) !! i = Some None <-> (i < nulls (ScalarSort.reference kind items))%nat.
Proof.
  destruct reference_rows as (S & E & _). rewrite E. set (k := nulls _). split.
  - intros H. destruct (decide (i < k)%nat) as [|Hge]; [done|]. rewrite lookup_app_r, list_lookup_fmap in H by (rewrite length_replicate; lia).
    by destruct (S !! _).
  - intros H. rewrite lookup_app_l by (by rewrite length_replicate). by apply lookup_replicate_2.
Qed.

End Order.

(** ** Ranges of pages *)

Lemma page_runs_spec keep first n run :
  length keep = Z.to_nat n -> 0 <= first -> 0 <= n -> first + n <= 2 ^ 32 ->
  (forall a b, run = Some (a, b) -> 0 <= a <= b /\ b = first - 1) ->
  (forall r, r ∈ page_runs (zip keep (seqZ first n)) run -> 0 <= r.1 <= r.2 /\ r.2 < first + n) /\
  (forall q, (exists a b, run = Some (a, b) /\ a <= q <= b) \/ (first <= q /\ keep !! Z.to_nat (q - first) = Some true) ->
    exists r, r ∈ page_runs (zip keep (seqZ first n)) run /\ r.1 <= q <= r.2).
Proof.
  revert first n run. induction keep as [|b keep IH]; intros first n run Hl Hf Hn Hr Hrun; cbn in Hl.
  { cbn. destruct run as [[a b]|]; cbn.
    - destruct (Hrun a b eq_refl) as [? ->]. split; [intros r ->%list_elem_of_singleton; cbn; lia|].
      intros q [(a' & b' & [= <- <-] & Hq)|[_ Hq]]; [|done]. exists (a, first - 1). split; [by left | done].
    - split; [by intros r ?%elem_of_nil|]. intros q [(? & ? & ? & _)|[_ ?]]; done. }
  rewrite seqZ_cons by lia. cbn [zip_with]. set (n' := Z.pred n).
  assert (length keep = Z.to_nat n') as Hl' by lia.
  assert (forall run', (forall a b, run' = Some (a, b) -> 0 <= a <= b /\ b = first) ->
    (forall r, r ∈ page_runs (zip keep (seqZ (Z.succ first) n')) run' -> 0 <= r.1 <= r.2 /\ r.2 < first + n) /\
    (forall q, (exists a b, run' = Some (a, b) /\ a <= q <= b) \/ (Z.succ first <= q /\ keep !! Z.to_nat (q - Z.succ first) = Some true) ->
      exists r, r ∈ page_runs (zip keep (seqZ (Z.succ first) n')) run' /\ r.1 <= q <= r.2)) as Hrec.
  { intros run' Hrun'. destruct (IH (Z.succ first) n' run' Hl') as [I1 I2]; [lia | lia | lia | |].
    - intros a b' E. destruct (Hrun' a b' E). lia.
    - split; [intros r Hr'; specialize (I1 r Hr'); lia | done]. }
  assert (forall q, first <= q -> (b :: keep) !! Z.to_nat (q - first) = Some true ->
    (q = first /\ b = true) \/ (Z.succ first <= q /\ keep !! Z.to_nat (q - Z.succ first) = Some true)) as Hq.
  { intros q Hge E. destruct (Z.eq_dec q first) as [->|Hne]; [left; rewrite Z.sub_diag in E; by injection E|]. right. split; [lia|].
    replace (Z.to_nat (q - first)) with (S (Z.to_nat (q - Z.succ first))) in E by lia. done. }
  destruct b; cbn [page_runs].
  - destruct run as [[a b']|].
    + destruct (Hrun a b' eq_refl) as [Hab ->]. rewrite u32_small by (unfold is_u32; lia). known_true (first =? first - 1 + 1).
      destruct (Hrec (Some (a, first))) as [R1 R2]; [intros ? ? [= <- <-]; lia|]. split; [done|].
      intros q [(a' & b'' & [= <- <-] & Hqr)|[Hge E]]; apply R2; [left; exists a, first; split; [done | lia]|].
      destruct (Hq q Hge E) as [[-> _]|?]; [left; exists a, first; split; [done | lia] | by right].
    + destruct (Hrec (Some (first, first))) as [R1 R2]; [intros ? ? [= <- <-]; lia|]. split; [done|].
      intros q [(? & ? & ? & _)|[Hge E]]; [done|]. apply R2. destruct (Hq q Hge E) as [[-> _]|?]; [left; exists first, first; split; [done | lia] | by right].
  - destruct (Hrec None) as [R1 R2]; [done|]. split.
    + intros r [Hr'|Hr']%elem_of_app; [|auto]. destruct run as [[a b']|]; [|by apply elem_of_nil in Hr']. apply list_elem_of_singleton in Hr' as ->.
      destruct (Hrun a b' eq_refl). cbn. lia.
    + intros q [(a & b' & -> & Hqr)|[Hge E]]; [exists (a, b'); split; [by left | done]|].
      destruct (R2 q) as (r & Hr' & Hqr); [destruct (Hq q Hge E) as [[_ ?]|?]; [done | by right]|]. exists r. split; [apply elem_of_app; by right | done].
Qed.

(** ** A BTREE answers exactly *)

Lemma sort_unique_set l l' : (forall x, x ∈ l <-> x ∈ l') -> sort_unique l = sort_unique l'.
Proof.
  intros H. destruct (sort_unique_spec l) as [S1 S2], (sort_unique_spec l') as [S3 S4].
  apply ascending_ext; [done..|]. intros x. by rewrite S2, S4.
Qed.

#[local] Opaque ScalarSort.reference.

Section BTreeExact.
Context (float_op : Expr.ArithOp -> Double -> Double -> Double) (type : ArrowType) (unit : TimeUnit) (scale : Z).
Context (kind : KeyKind) (name : string) (Hkind : ScalarSort.key_kind_of type name = Ok kind).
Context (items : Items) (Hn : zlen (its items) < 2 ^ 32).
Context (Hvals : forall s, ScalarSort.item_valued items s -> KeyOrder.value_fits type unit s).
Context (p : Predicate) (lits : list Value) (Hlits : with_literals p lits)
  (Hfit : Forall (KeyOrder.literal_fits type scale) lits) (Hcomp : comparable type unit scale lits) (Hdec : decided p).

Notation value := (row_value type unit scale).

(** The index as it is loaded: the rows its files were written with. *)
Record btree_holds (index : BTreeIndex) (sorted : Sorted) : Prop := {
  bt_min : table_ok type (lookup_min index) /\ col_rows (lookup_min index) = pg_min <$> write_btree items sorted;
  bt_max : table_ok type (lookup_max index) /\ col_rows (lookup_max index) = pg_max <$> write_btree items sorted;
  bt_nulls : null_count index = pg_nulls <$> write_btree items sorted;
  bt_idx : page_idx index = pg_idx <$> write_btree items sorted;
  bt_batch : batch_size index = kBTreePageRows;
  bt_read : forall offset len, 0 <= offset -> 0 <= len ->
    table_ok type (read_pages index offset len).1 /\
    col_rows (read_pages index offset len).1 = take (Z.to_nat len) (drop (Z.to_nat offset) (btree_values items sorted)) /\
    (read_pages index offset len).2 = take (Z.to_nat len) (drop (Z.to_nat offset) (btree_ids items sorted)) }.

(** Whether the value of an item passes. *)
Definition passes (o : option Slot) : bool := match holds p lits (value o) with Ok b => b | Err _ => false end.

Lemma passes_true o : passes o = true <-> holds p lits (value o) = Ok true.
Proof. unfold passes. destruct (holds p lits (value o)) as [[]|]; split; done || by intros [=]. Qed.

Notation sorted := (ScalarSort.reference kind items).
Notation values := (btree_values items sorted).
Notation ids := (btree_ids items sorted).

Lemma values_length : length values = length (its items) /\ length (order sorted) = length (its items).
Proof.
  assert (length (order sorted) = length (its items)) as E.
  { rewrite (order_perm kind items). rewrite length_fmap. unfold ScalarSort.numbered. apply length_imap. }
  split; [|done]. unfold btree_values. by rewrite length_fmap.
Qed.

Lemma values_lookup k : (k < length values)%nat -> values !! k = Some (item_row items (nth k (order sorted) 0)).
Proof.
  intros Hk. unfold btree_values in *. rewrite length_fmap in Hk. rewrite list_lookup_fmap, nth_lookup.
  destruct (order sorted !! k) eqn:E; [done|]. apply lookup_ge_None in E. lia.
Qed.

Lemma values_fit k x : values !! k = Some (Some x) -> KeyOrder.value_fits type unit x.
Proof.
  intros Hk. destruct (ids !! k) as [a|] eqn:Ea.
  2:{ apply lookup_lt_Some in Hk. apply lookup_ge_None in Ea. assert (length ids = length values) by (unfold btree_ids, btree_values; by rewrite !length_fmap). lia. }
  assert ((Some x, a) ∈ zip values ids) as Hin.
  { eapply list_elem_of_lookup_2. by rewrite lookup_zip_with, Hk, Ea. }
  rewrite (rows_perm items Hn sorted (order_perm kind items)) in Hin. apply list_elem_of_fmap in Hin as (it & [= Er _] & Hit).
  apply Hvals. exists it. unfold row_of in Er. destruct (item_null items it); [done|]. injection Er as ->. done.
Qed.

(** The page of a place, and what its row says. *)
Lemma page_of_place i o :
  values !! i = Some o ->
  exists pg, write_btree items sorted !! Z.to_nat (Z.of_nat i / 4096) = Some pg /\
    match o with None => 0 < pg_nulls pg | Some x => bounded type unit kind (pg_min pg) (pg_max pg) x end.
Proof.
  intros Hi. pose proof (lookup_lt_Some _ _ _ Hi) as Hlt. destruct values_length as [Hl Ho]. unfold zlen in Hn.
  set (q := Z.of_nat i / 4096). assert (0 <= q /\ q * 4096 <= Z.of_nat i < q * 4096 + 4096) as [Hq0 Hq] by (unfold q; dlia).
  exists (page_row items sorted q). split.
  { unfold write_btree, zlen, kBTreePageRows. rewrite list_lookup_fmap, lookup_seqZ_lt; [cbn; do 2 f_equal; lia|]. rewrite Ho. dlia. }
  clearbody q. unfold page_row, zlen, kBTreePageRows. rewrite Ho. cbn [pg_min pg_max pg_nulls].
  set (n := length (its items)) in *. set (e := Z.min (Z.of_nat n) (q * 4096 + 4096)).
  set (s0 := Z.to_nat (q * 4096)). set (j := Z.to_nat (e - 1)). assert (i <= j < n)%nat as Hj by lia. assert (s0 <= i)%nat as Hs by lia.
  rewrite Hl in Hlt. destruct o as [x|].
  - split.
    + by eapply values_fit.
    + destruct (rows_ordered kind items Hn i j x) as (y & Hy & Hle); [lia | lia | done|]. exists y.
      rewrite values_lookup in Hy by lia. injection Hy as Hy. split; [done|]. split; [|by right].
      eapply (values_fit j). by rewrite values_lookup, Hy by lia.
    + intros m Hm. assert (values !! s0 = Some (Some m)) as Hv by (rewrite values_lookup by lia; by f_equal).
      split; [by eapply values_fit|]. right. destruct (rows_ordered kind items Hn s0 i m) as (y & Hy & Hle); [lia | lia | done|].
      rewrite Hi in Hy. by injection Hy as ->.
  - apply rows_null in Hi; [|done]. set (nn := nulls sorted) in *. known_true (q * 4096 <? Z.of_nat nn).
    rewrite u32_small by (unfold is_u32; lia). lia.
Qed.

(** The addresses of a range of pages: those whose value passes. *)
Lemma run_addresses_spec index a b :
  btree_holds index sorted -> 0 <= a <= b -> b < 2 ^ 32 - 1 ->
  exists l, run_addresses float_op type unit scale p index (a, b) = Ok l /\
    forall x, x ∈ l <-> exists i o, a * 4096 <= Z.of_nat i < (b + 1) * 4096 /\ values !! i = Some o /\ ids !! i = Some x /\ passes o = true.
Proof.
  intros Hidx Hab Hb. unfold run_addresses. cbn [fst snd]. rewrite (bt_batch _ _ Hidx). unfold kBTreePageRows.
  rewrite (u32_small (b - a)) by (unfold is_u32; lia). rewrite (u32_small (b - a + 1)) by (unfold is_u32; lia).
  rewrite !u64_small by (unfold is_u64; lia). destruct (bt_read _ _ Hidx (a * 4096) ((b - a + 1) * 4096) ltac:(lia) ltac:(lia)) as (Ht & Hv & Hi).
  destruct (read_pages index (a * 4096) ((b - a + 1) * 4096)) as [vals pids]. cbn [fst snd] in *. subst pids.
  assert (p_test p <> TContains) as Hc by (intros E; unfold decided in Hdec; by rewrite E in Hdec).
  destruct (evaluate_total float_op type unit scale p lits vals Hlits Hcomp Hc Ht) as [pass Hp]. rewrite Hp. cbn [mbind res_bind].
  eexists. split; [done|]. apply (evaluate_rows _ _ _ _ _ _ _ _ Hlits Ht) in Hp. rewrite Hv in Hp. intros x. rewrite list_elem_of_fmap. split.
  - intros ([bt x'] & -> & [Hbt Hin]%list_elem_of_filter). cbn in Hbt |- *. apply list_elem_of_lookup in Hin as [j Hj].
    apply lookup_zip_with_Some in Hj as (bt' & x'' & [= <- <-] & J1 & J2).
    destruct (Forall2_lookup_r _ _ _ _ _ Hp J1) as (o & Ho & Hh). apply lookup_take_Some in Ho as [Ho Hlt]. apply lookup_take_Some in J2 as [J2 _].
    rewrite lookup_drop in Ho. rewrite lookup_drop in J2. exists (Z.to_nat (a * 4096) + j)%nat, o. split_and!; [lia | lia | done | done |].
    apply passes_true. destruct bt; [done|]. done.
  - intros (i & o & Hi & Hvi & Hii & Hpass%passes_true). set (j := (i - Z.to_nat (a * 4096))%nat).
    assert (take (Z.to_nat ((b - a + 1) * 4096)) (drop (Z.to_nat (a * 4096)) values) !! j = Some o) as Hj.
    { apply lookup_take_Some. split; [|lia]. rewrite lookup_drop. by replace (Z.to_nat (a * 4096) + j)%nat with i by lia. }
    destruct (Forall2_lookup_l _ _ _ _ _ Hp Hj) as (bt & Hbt & Hh). exists (bt, x). split; [done|]. apply list_elem_of_filter. split.
    + cbn. rewrite Hpass in Hh. by injection Hh as <-.
    + eapply (list_elem_of_lookup_2 _ j). rewrite lookup_zip_with, Hbt. cbn. rewrite lookup_take_lt, lookup_drop by lia.
      by replace (Z.to_nat (a * 4096) + j)%nat with i by lia; rewrite Hii.
Qed.

Lemma fold_runs index runs acc :
  btree_holds index sorted -> (forall r, r ∈ runs -> 0 <= r.1 <= r.2 /\ r.2 < 2 ^ 32 - 1) ->
  exists l, fold_res (fun addrs run => more ← run_addresses float_op type unit scale p index run; Ok (addrs ++ more)) runs acc = Ok l /\
    forall x, x ∈ l <-> x ∈ acc \/ exists r i o, r ∈ runs /\ r.1 * 4096 <= Z.of_nat i < (r.2 + 1) * 4096 /\ values !! i = Some o /\ ids !! i = Some x /\ passes o = true.
Proof.
  intros Hidx. revert acc. induction runs as [|[a b] runs IH]; intros acc Hr; cbn [fold_res].
  { exists acc. split; [done|]. intros x. split; [by left|]. intros [?|(r & ? & ? & ?%elem_of_nil & _)]; done. }
  destruct (Hr (a, b) ltac:(by left)) as [Hab Hb]. cbn in Hab, Hb.
  destruct (run_addresses_spec index a b Hidx Hab Hb) as (more & -> & Hm). cbn [mbind res_bind].
  destruct (IH (acc ++ more)) as (l & E & Hl); [intros; apply Hr; by right|]. exists l. split; [done|]. intros x. rewrite Hl, elem_of_app, Hm. split.
  - intros [[?|(i & o & H)]|(r & i & o & Hin & H)]; [by left | right; exists (a, b), i, o; split; [by left | done] | right; exists r, i, o; split; [by right | done]].
  - intros [?|(r & i & o & [->|Hin]%elem_of_cons & H)]; [auto | left; right; eauto | right; eauto 10].
Qed.

(** The addresses of the items that pass. *)
Definition passing : list Z := i_addr <$> filter (fun it => passes (row_of items it)) (its items).

(** The kept pages hold the addresses of the items that pass. *)
Lemma kept_page_addresses index keep np :
  btree_holds index sorted -> length keep = Z.to_nat np -> 0 <= np < 2 ^ 32 - 1 ->
  (forall q pg, write_btree items sorted !! q = Some pg -> forall o,
     match o with None => 0 < pg_nulls pg | Some x => bounded type unit kind (pg_min pg) (pg_max pg) x end ->
     holds p lits (value o) = Ok true -> keep !! q = Some true) ->
  exists addrs, fold_res (fun addrs run => more ← run_addresses float_op type unit scale p index run; Ok (addrs ++ more))
      (page_runs (zip keep (seqZ 0 np)) None) [] = Ok addrs /\ forall x, x ∈ addrs <-> x ∈ passing.
Proof.
  intros Hidx Hkl Hnp Hkeep.
  destruct (page_runs_spec keep 0 np None Hkl ltac:(lia) ltac:(lia) ltac:(lia) ltac:(done)) as [P1 P2].
  destruct (fold_runs index (page_runs (zip keep (seqZ 0 np)) None) [] Hidx) as (addrs & -> & Ha).
  { intros r Hr. specialize (P1 r Hr). lia. }
  exists addrs. split; [done|]. intros x. unfold passing. rewrite Ha, list_elem_of_fmap.
  pose proof (rows_perm items Hn sorted (order_perm kind items)) as Hperm. split.
  - intros [?%elem_of_nil|(r & i & o & _ & _ & Hv & Hx & Hp)]; [done|].
    assert ((o, x) ∈ zip values ids) as Hin by (eapply (list_elem_of_lookup_2 _ i); by rewrite lookup_zip_with, Hv, Hx).
    rewrite Hperm in Hin. apply list_elem_of_fmap in Hin as (it & [= -> ->] & Hit). exists it. split; [done|]. apply list_elem_of_filter. by rewrite Hp.
  - intros (it & -> & [Hp%Is_true_true Hit]%list_elem_of_filter). right.
    assert ((row_of items it, i_addr it) ∈ zip values ids) as Hin by (rewrite Hperm; apply list_elem_of_fmap; eauto).
    apply list_elem_of_lookup in Hin as [i Hi']. apply lookup_zip_with_Some in Hi' as (o & x & [= <- <-] & Hv & Hx).
    destruct (page_of_place i _ Hv) as (pg & Hpg & Hb). apply passes_true in Hp as Hh.
    pose proof (Hkeep _ pg Hpg _ Hb Hh) as Hkq.
    destruct (P2 (Z.of_nat i / 4096)) as (r & Hr & Hq); [right; split; [dlia|]; by rewrite Z.sub_0_r|].
    exists r, i, (row_of items it). split_and!; [done | dlia | dlia | done | done | done].
Qed.

Lemma search_btree_exact index out :
  Forall (fun it => is_u64 (i_addr it)) (its items) -> btree_holds index sorted ->
  exists out', search_btree float_op type unit scale p index out = Ok (Some out') /\
    forall f, rows_of out' f = rows_of out f ++ sort_unique (u32 <$> filter (fun a => RowSets.fragment_of a = f) passing).
Proof.
  intros Haddr Hidx. unfold search_btree. assert (array_test (p_test p) || bool_decide (p_test p = TContains) = false) as ->.
  { unfold decided in Hdec. by destruct (p_test p). }
  destruct (bt_min _ _ Hidx) as [Tn Rn], (bt_max _ _ Hidx) as [Tx Rx].
  destruct (prune_total float_op type unit scale p lits (lookup_min index) (lookup_max index) (null_count index) Hlits Hcomp Hdec Tn Tx) as [keep Hk].
  rewrite Hk. cbn [mbind res_bind]. destruct values_length as [Hl Ho]. unfold zlen in Hn.
  set (np := (zlen (order sorted) + kBTreePageRows - 1) / kBTreePageRows).
  assert (0 <= np < 2 ^ 32 - 1) as Hnp by (unfold np, zlen, kBTreePageRows; rewrite Ho; dlia).
  assert (length (write_btree items sorted) = Z.to_nat np) as Hpl by (unfold write_btree; by rewrite length_fmap, length_seqZ).
  assert (page_idx index = seqZ 0 np) as ->.
  { rewrite (bt_idx _ _ Hidx). unfold write_btree. fold np. rewrite <- list_fmap_compose. transitivity (id <$> seqZ 0 np); [|apply list_fmap_id].
    apply list_fmap_ext. intros i q Hq%list_elem_of_lookup_2%elem_of_seqZ. unfold compose. cbn. apply u32_small. unfold is_u32. lia. }
  assert (length keep = Z.to_nat np) as Hkl.
  { eapply (prune_length float_op type unit scale _ _ (null_count index) Tn Tx p lits Hlits); [| | |exact Hk];
      rewrite ?Rn, ?Rx, ?(bt_nulls _ _ Hidx), length_fmap; exact Hpl. }
  destruct (kept_page_addresses index keep np Hidx Hkl Hnp) as (addrs & -> & Hset).
  { intros q pg Hq o Hb Hh. eapply (prune_keeps float_op type unit scale kind name Hkind _ _ _ Tn Tx p lits Hlits Hfit keep q (pg_min pg) (pg_max pg) (pg_nulls pg) o Hk);
      [rewrite Rn | rewrite Rx | rewrite (bt_nulls _ _ Hidx) | done | done]; rewrite list_lookup_fmap; by rewrite Hq. }
  cbn [mbind res_bind]. eexists. split; [done|]. intros f. rewrite RowSets.add_addresses_rows.
  2:{ apply Forall_forall. intros x Hx%Hset. unfold passing in Hx. apply list_elem_of_fmap in Hx as (it & -> & [_ Hit]%list_elem_of_filter).
      rewrite Forall_forall in Haddr. auto. }
  f_equal. apply sort_unique_set. intros x. rewrite !list_elem_of_fmap. setoid_rewrite list_elem_of_filter. by setoid_rewrite Hset.
Qed.

End BTreeExact.

(** ** A column in memory *)

(** The rows of a column as one batch. *)
Definition loaded (l : list (option Slot)) : Batches :=
  [(View false 0 (zlen (filter (fun o => o = None) l)) (Some ((fun o => bool_decide (is_Some o)) <$> l)) (default SNone <$> l) [], zlen l)].

Lemma loaded_rows l : col_rows (loaded l) = l.
Proof.
  unfold col_rows, loaded. cbn [fmap list_fmap concat fst snd]. rewrite app_nil_r. unfold view_rows, Expr.rows, zlen.
  apply list_eq. intros i. rewrite list_lookup_fmap. destruct (l !! i) as [o|] eqn:Ei.
  - pose proof (lookup_lt_Some _ _ _ Ei). rewrite lookup_seqZ_lt by lia. cbn [fmap option_fmap option_map].
    unfold view_is_null, slot_at. cbn [Expr.v_validity Expr.v_offset Expr.v_slots].
    replace (Z.to_nat (0 + (0 + Z.of_nat i))) with i by lia. rewrite !nth_lookup, !list_lookup_fmap, Ei. cbn.
    by destruct o.
  - apply lookup_ge_None in Ei. rewrite lookup_seqZ_ge by lia. done.
Qed.

Lemma loaded_ok type l : (forall s, Some s ∈ l -> Expr.slot_ok type s) -> Expr.slot_ok type SNone -> table_ok type (loaded l).
Proof.
  intros Hs H0. constructor; [|constructor]. cbn [fst snd]. split; intros; unfold view_is_null, slot_at; cbn [Expr.v_validity Expr.v_offset Expr.v_slots Expr.v_null_count] in *.
  - rewrite nth_lookup, list_lookup_fmap. destruct (l !! Z.to_nat (0 + r)) as [o|] eqn:E; [|done]. cbn. destruct o; [done|]. exfalso.
    assert (None ∈ filter (fun o : option Slot => o = None) l) as Hin by (apply list_elem_of_filter; split; [done | by eapply list_elem_of_lookup_2]).
    unfold zlen in *. destruct (filter _ l); [by apply elem_of_nil in Hin | done].
  - rewrite nth_lookup, list_lookup_fmap. destruct (l !! Z.to_nat (0 + r)) as [[s|]|] eqn:E; cbn; [|done..]. apply Hs. by eapply list_elem_of_lookup_2.
Qed.

(** The index of some items, in memory. *)
Definition loaded_btree (items : Items) (sorted : Sorted) : BTreeIndex :=
  let pages := write_btree items sorted in
  let part {A} (l : list A) offset len := take (Z.to_nat len) (drop (Z.to_nat offset) l) in
  mkBTree (loaded (pg_min <$> pages)) (loaded (pg_max <$> pages)) (pg_nulls <$> pages) (pg_idx <$> pages) kBTreePageRows
    (fun offset len => (loaded (part (btree_values items sorted) offset len), part (btree_ids items sorted) offset len)).

Lemma item_row_valued items k s : item_row items k = Some s -> ScalarSort.item_valued items s.
Proof.
  unfold item_row. destruct (k =? kNoPick); [done|]. destruct (its items !! Z.to_nat k) as [it|] eqn:E; [|done].
  destruct (item_null items it) eqn:En; [done|]. intros [= <-]. exists it. split_and!; [by eapply list_elem_of_lookup_2 | done | done].
Qed.

Lemma loaded_btree_holds type items sorted :
  (forall s, ScalarSort.item_valued items s -> Expr.slot_ok type s) -> Expr.slot_ok type SNone ->
  btree_holds type items (loaded_btree items sorted) sorted.
Proof.
  intros Hs H0. assert (forall l : list (option Slot), (forall o, o ∈ l -> exists k, o = item_row items k) -> table_ok type (loaded l)) as Ht.
  { intros l Hl. apply loaded_ok; [|done]. intros s (k & Hk)%Hl. by eapply Hs, item_row_valued. }
  split; cbn [lookup_min lookup_max null_count page_idx batch_size read_pages loaded_btree fst snd]; try done.
  - split; [|apply loaded_rows]. apply Ht. intros o (pg & -> & (q & -> & _)%list_elem_of_fmap)%list_elem_of_fmap. cbn. eauto.
  - split; [|apply loaded_rows]. apply Ht. intros o (pg & -> & (q & -> & _)%list_elem_of_fmap)%list_elem_of_fmap. cbn. eauto.
  - intros offset len _ _. split_and!; [|apply loaded_rows | done]. apply Ht.
    intros o Ho. apply elem_of_take in Ho as (i & Hi & _). rewrite lookup_drop in Hi. unfold btree_values in Hi. rewrite list_lookup_fmap in Hi.
    destruct (order sorted !! _); [|done]. injection Hi as <-. eauto.
Qed.

(** C9: (refinement): searching a BTREE answers the predicate exactly. The index holds the items of a column
    the way the builder sorts them ([sort_items]) and cuts them into pages ([write_btree]), read back through
    the files; the column's values and the literals are in range, and the literals compare with the column.
    Then the search succeeds, and the rows it adds to each fragment are the offsets, ascending and without
    repetition, of the items whose value passes the predicate when it is evaluated row by row: no page with a
    match is pruned, and nothing else is answered. *)
Theorem btree_search_exact float_op type unit scale name kind threads items p lits index out :
  ScalarSort.key_kind_of type name = Ok kind -> zlen (its items) < 2 ^ 32 -> ScalarSort.items_ok kind items ->
  (forall s, ScalarSort.item_valued items s -> KeyOrder.value_fits type unit s) ->
  Forall (fun it => is_u64 (i_addr it)) (its items) ->
  with_literals p lits -> Forall (KeyOrder.literal_fits type scale) lits -> comparable type unit scale lits -> decided p ->
  btree_holds type items index (ScalarSort.sort_items threads items kind false) ->
  exists out', search_btree float_op type unit scale p index out = Ok (Some out') /\
    forall f, rows_of out' f =
      rows_of out f ++ sort_unique (u32 <$> filter (fun a => RowSets.fragment_of a = f) (passing type unit scale items p lits)).
Proof.
  intros Hk Hn Hi Hv Ha Hl Hf Hc Hd. rewrite ScalarSort.sort_items_eq by done. intros Hidx. by eapply search_btree_exact.
Qed.

(** Four values of an int64 column in two fragments, one null, and BETWEEN 2 AND 9. *)
Definition sample_view : ArrayView := View false 0 1 (Some [true; false; true; true]) [SInt 9; SNone; SInt (-4); SInt 3] [].
Definition sample : Items :=
  mkItems [sample_view] [mkItem 0 0 5; mkItem 0 1 6; mkItem 0 2 (2 ^ 32); mkItem 0 3 (2 ^ 32 + 7)].
Definition sample_predicate : Predicate := mkPredicate TBetween Eq [Literal (VInt 2); Literal (VUInt 9)].

Lemma sample_valued (P : Slot -> Prop) : P (SInt 9) -> P (SInt (-4)) -> P (SInt 3) -> forall s, ScalarSort.item_valued sample s -> P s.
Proof.
  intros ? ? ? s (it & Hit & Hn & <-). repeat (apply elem_of_cons in Hit as [->|Hit]); try by apply elem_of_nil in Hit.
  all: cbn in Hn |- *; done.
Qed.

Lemma btree_search_witness :
  exists out', search_btree (fun _ a _ => a) INT64 Expr.Second 0 sample_predicate
      (loaded_btree sample (ScalarSort.sort_items 2 sample KInt false)) RowSet0 = Ok (Some out') /\
    rows_of out' 0 = [5] /\ rows_of out' 1 = [7] /\ rows_of out' 2 = [].
Proof.
  destruct (btree_search_exact (fun _ a _ => a) INT64 Expr.Second 0 "v" KInt 2 sample sample_predicate [VInt 2; VUInt 9]
    (loaded_btree sample (ScalarSort.sort_items 2 sample KInt false)) RowSet0) as (out' & E & H); try done.
  - split; [done|]. apply sample_valued; cbn; lia.
  - apply sample_valued; cbn; lia.
  - repeat constructor; unfold is_u64; cbn; lia.
  - split; [done|]. repeat constructor; cbn; unfold is_u64; lia.
  - repeat constructor; cbn; unfold is_u64; lia.
  - constructor; [|constructor; [|constructor]]; right; intros s; by eexists.
  - apply loaded_btree_holds; [apply sample_valued|]; cbn; lia.
  - exists out'. split; [exact E|]. split_and!; rewrite H; vm_compute; reflexivity.
Defined.

End ScalarIndex.
