(* ===== verification/ZoneMap.v ===== *)
(** * Zone maps keep every match (src/index/scalar/scalar_index.cpp, src/index/index_search.cpp)

    A zone map records, for every run of rows of a fragment, the rows' span and the bounds of their values. The
    definitions are those of [ScalarIndex]; here the zones cut from a column are shown to cover its rows and
    bound its values, so that a search prunes no zone with a match. The one exception is a negative NaN, which
    a filter orders below every value while the zones leave it out of their minima ([negative_nan_pruned]). *)

From S2P Require Import Prelude Json Int128 Decimal Expr StableSort ScalarSort KeyOrder RowSets ScalarIndex.

Module ZoneMap.
Import Expr (Value(..), Double(..), TimeUnit, ArrowType(..), ArrayView, Slot(..), View, CmpOp(..), Literal, get_double).
Import ScalarSort (Item, mkItem, Items, mkItems, its, i_addr, item_null, item_slot, KeyKind(..)).
Import RowSets (RowSet, RowSet0, rows, rows_of, with_rows).
Import ScalarIndex.

(** ** Cutting *)

Definition fragment (it : Item) : Z := Z.shiftr (i_addr it) 32.
Definition offset (it : Item) : Z := Z.land (i_addr it) (2 ^ 32 - 1).

Lemma offset_eq it : offset it = u32 (i_addr it).
Proof. unfold offset, u32, wrap. by rewrite land_low. Qed.

Lemma offset_range it : 0 <= offset it < 2 ^ 32.
Proof. rewrite offset_eq. apply u32_range. Qed.

(** Rows in address order. *)
Definition in_order (l : list Item) : Prop :=
  forall i a b, l !! i = Some a -> l !! S i = Some b -> fragment a = fragment b -> offset a <= offset b.

(** An item's row is in a zone. *)
Record in_zone (items : Items) (it : Item) (z : Zone) : Prop := {
  iz_fragment : z_fragment z = fragment it;
  iz_start : 0 <= z_start z <= offset it;
  iz_end : offset it < z_start z + z_length z <= 2 ^ 32;
  iz_null : item_null items it = true -> 0 < z_nulls z }.

Definition unpicked (z : Zone) : Prop := z_min z = kNoPick /\ z_max z = kNoPick /\ z_nan z = kNoPick /\ z_nans z = 0.

(** The state of the loop after the items of [pre]. *)
Record cut_inv (items : Items) (pre : list Item) (zones : list Zone) (zone_of : list Z) : Prop := {
  ci_length : length zone_of = length pre;
  ci_zones : (length zones <= length pre)%nat;
  ci_nulls : forall z, z ∈ zones -> 0 <= z_nulls z <= zlen pre /\ unpicked z;
  ci_item : forall k it, pre !! k = Some it -> exists q z, zone_of !! k = Some (Z.of_nat q) /\ zones !! q = Some z /\ in_zone items it z;
  ci_last : forall it, last pre = Some it -> exists z, last zones = Some z /\ z_fragment z = fragment it /\ 0 <= z_start z <= offset it /\
    z_start z + z_length z = offset it + 1 }.

Lemma alter_snoc {A} (f : A -> A) (l : list A) x : alter f (length (l ++ [x]) - 1)%nat (l ++ [x]) = l ++ [f x].
Proof. rewrite length_app. cbn. replace (length l + 1 - 1)%nat with (length l + 0)%nat by lia. by rewrite alter_app_r. Qed.

Lemma alter_lookup {A} (f : A -> A) (l : list A) i j : alter f i l !! j = if decide (i = j) then f <$> l !! j else l !! j.
Proof. rewrite list_lookup_alter. by case_decide; subst. Qed.

Section Cut.
Context (items : Items) (rows_per_zone : Z).

(** The zone an item extends: the last one, or a new one. *)
Definition extended (it : Item) (z : Zone) : Zone :=
  mkZone (z_fragment z) (z_start z) (u64 (offset it - z_start z + 1)) (if item_null items it then u32 (z_nulls z + 1) else z_nulls z)
    (z_nans z) (z_min z) (z_max z) (z_nan z).

Lemma cut_zone_eq zones zone_of count it :
  exists init z, (zones = init ++ [z] /\ z_fragment z = fragment it \/ zones = init /\ z = mkZone (fragment it) (offset it) 0 0 0 kNoPick kNoPick kNoPick) /\
    exists count', cut_zone items rows_per_zone (zones, zone_of, count) it =
      (init ++ [extended it z], zone_of ++ [u32 (zlen (init ++ [extended it z]) - 1)], count').
Proof.
  unfold cut_zone. fold (fragment it) (offset it).
  destruct (match last zones with None => true | Some z => _ end) eqn:Ef.
  - exists zones. eexists. split; [right; done|]. eexists. cbv zeta. rewrite alter_snoc. done.
  - destruct zones as [|z init _] using rev_ind; [done|]. rewrite last_snoc in Ef. exists init, z. apply orb_false_iff in Ef as [Ef _].
    apply negb_false_iff, Z.eqb_eq in Ef. split; [by left|]. eexists. cbv zeta. rewrite alter_snoc. done.
Qed.

Lemma cut_zone_inv pre zones zone_of count it :
  cut_inv items pre zones zone_of -> zlen pre < 2 ^ 32 - 1 ->
  (forall prev, last pre = Some prev -> fragment prev = fragment it -> offset prev <= offset it) ->
  exists zones' zone_of' count', cut_zone items rows_per_zone (zones, zone_of, count) it = (zones', zone_of', count') /\
    cut_inv items (pre ++ [it]) zones' zone_of'.
Proof.
  intros Hinv Hn Hord. destruct (cut_zone_eq zones zone_of count it) as (init & z & Hz & count' & ->).
  eexists _, _, count'. split; [done|]. unfold zlen in *. pose proof (offset_range it) as Ho. pose proof (ci_zones _ _ _ _ Hinv) as Hzl.
  assert ((length init <= length pre)%nat /\ (0 <= z_nulls z <= Z.of_nat (length pre) /\ unpicked z) /\ z_fragment z = fragment it /\ 0 <= z_start z <= offset it) as (Hi & (Hnz & Hu) & Hf & Hs).
  { destruct Hz as [[-> Hf]|[-> ->]]; [|cbn; split_and!; try done; lia]. rewrite length_app in Hzl. cbn in Hzl. split; [lia|].
    split; [apply (ci_nulls _ _ _ _ Hinv); set_solver|]. split; [done|]. destruct pre as [|prev pre' _] using rev_ind; [cbn in Hzl; lia|].
    destruct (ci_last _ _ _ _ Hinv prev ltac:(by rewrite last_snoc)) as (z' & Hz' & Hf' & Hs' & _). rewrite last_snoc in Hz'. injection Hz' as <-.
    specialize (Hord prev ltac:(by rewrite last_snoc) ltac:(congruence)). lia. }
  assert (z_start (extended it z) + z_length (extended it z) = offset it + 1) as Hend.
  { cbn. rewrite u64_small by (unfold is_u64; lia). lia. }
  assert (0 <= z_nulls z <= z_nulls (extended it z) /\ z_nulls (extended it z) <= Z.of_nat (length pre) + 1 /\ (item_null items it = true -> 0 < z_nulls (extended it z))) as Hnn.
  { cbn. destruct (item_null items it); [rewrite u32_small by (unfold is_u32; lia)|]; split_and!; try lia; done. }
  assert (u32 (Z.of_nat (length (init ++ [extended it z])) - 1) = Z.of_nat (length init)) as Hq.
  { rewrite length_app. cbn. rewrite u32_small by (unfold is_u32; lia). lia. }
  split; unfold zlen.
  - by rewrite !length_app, (ci_length _ _ _ _ Hinv).
  - rewrite !length_app. cbn. lia.
  - intros z' [Hz'| ->%list_elem_of_singleton]%elem_of_app; rewrite length_app; cbn [length].
    + destruct (ci_nulls _ _ _ _ Hinv z') as [? ?]; [destruct Hz as [[-> _]|[-> _]]; set_solver|]. unfold zlen in *. split; [lia | done].
    + split; [lia | done].
  - intros k it' [Hk|[Hk Hk']]%lookup_app_Some.
    + destruct (ci_item _ _ _ _ Hinv k it' Hk) as (q & z' & Hq' & Hz' & Hin). exists q. rewrite lookup_app_l by (by eapply lookup_lt_Some).
      destruct Hz as [[-> _]|[-> ->]].
      * apply lookup_app_Some in Hz' as [Hz'|[Hl Hz']].
        -- exists z'. split; [done|]. split; [by apply lookup_app_l_Some | done].
        -- apply list_lookup_singleton_Some in Hz' as [Hql <-]. exists (extended it z). split; [done|]. split; [rewrite lookup_app_r by lia; by replace (q - length init)%nat with 0%nat by lia|].
           destruct pre as [|prev pre' _] using rev_ind; [done|]. destruct (ci_last _ _ _ _ Hinv prev ltac:(by rewrite last_snoc)) as (z' & Ez & Hf' & Hs' & He').
           rewrite last_snoc in Ez. injection Ez as <-. specialize (Hord prev ltac:(by rewrite last_snoc) ltac:(congruence)). destruct Hin as [I1 I2 I3 I4].
           split; [done | done | lia | intros H; specialize (I4 H); lia].
      * exists z'. split; [done|]. split; [by apply lookup_app_l_Some | done].
    + apply list_lookup_singleton_Some in Hk' as [Hk0 <-]. exists (length init), (extended it z). rewrite Hq.
      split; [rewrite lookup_app_r by (rewrite (ci_length _ _ _ _ Hinv); lia); by rewrite (ci_length _ _ _ _ Hinv), Hk0|].
      split; [by rewrite lookup_app_r, Nat.sub_diag by lia|]. split; [done | done | lia | apply Hnn].
  - intros it'. rewrite last_snoc. intros [= <-]. exists (extended it z). rewrite last_snoc. done.
Qed.

Lemma cut_zones_inv : zlen (its items) < 2 ^ 32 -> in_order (its items) ->
  exists zones zone_of, cut_zones items rows_per_zone = (zones, zone_of) /\ cut_inv items (its items) zones zone_of.
Proof.
  intros Hn Hord. unfold cut_zones. assert (forall l pre, its items = pre ++ l -> forall zones zone_of count, cut_inv items pre zones zone_of ->
    exists zones' zone_of' count', foldl (cut_zone items rows_per_zone) (zones, zone_of, count) l = (zones', zone_of', count') /\
      cut_inv items (pre ++ l) zones' zone_of') as H.
  { induction l as [|it l IH]; intros pre E zones zone_of count Hinv; [rewrite app_nil_r; cbn; eauto|]. cbn [foldl].
    destruct (cut_zone_inv pre zones zone_of count it Hinv) as (zones' & zone_of' & count' & -> & Hinv').
    - rewrite E in Hn. unfold zlen in *. rewrite length_app in Hn. cbn in Hn. lia.
    - intros prev Hl. apply (Hord (length pre - 1)%nat); rewrite E, ?last_lookup in *.
      + rewrite <- Hl. destruct pre; [done|]. rewrite lookup_app_l by (cbn; lia). f_equal. cbn. lia.
      + destruct pre; [done|]. rewrite lookup_app_r by (cbn; lia). cbn. by rewrite Nat.sub_0_r, Nat.sub_diag.
    - rewrite (cons_middle it pre l), app_assoc. apply IH; [|done]. by rewrite <- app_assoc. }
  destruct (H (its items) [] eq_refl [] [] 0) as (zones & zone_of & count & -> & Hinv); [|by exists zones, zone_of].
  split; [done | done | intros z Hz%elem_of_nil; done | done | done].
Qed.

End Cut.

(** ** Extreme values *)

(** The order zones are bounded in is that of the column's keys. *)
Lemma key_lt_weak items kind : StableSort.WeakOrder (key_lt_of items kind).
Proof.
  assert (forall (K : Type) (ltb : K -> K -> bool) (key : Z -> K), ScalarSort.TotalLt ltb -> StableSort.WeakOrder (fun a b => ltb (key a) (key b))) as H
    by (intros; by apply ScalarSort.key_weak).
  destruct kind.
  all: [> exact (H _ Z.ltb (fun a => Expr.get_int (pick_slot items a)) ScalarSort.Z_total)
        | exact (H _ Z.ltb (fun a => Expr.get_int (pick_slot items a)) ScalarSort.Z_total)
        | exact (H _ Z.ltb (fun a => ScalarSort.total_order (Expr.get_bits (pick_slot items a)) 16) ScalarSort.Z_total)
        | exact (H _ Z.ltb (fun a => ScalarSort.total_order (Expr.get_bits (pick_slot items a)) 32) ScalarSort.Z_total)
        | exact (H _ Z.ltb (fun a => ScalarSort.total_order (Expr.get_bits (pick_slot items a)) 64) ScalarSort.Z_total)
        | exact (H _ Z.ltb (fun a => Expr.get_int (pick_slot items a)) ScalarSort.Z_total)
        | exact (H _ ScalarSort.string_ltb (fun a => ScalarSort.string_key 0 (pick_slot items a)) ScalarSort.string_total)
        | exact (H _ ScalarSort.int128_ltb (fun a => ScalarSort.int128_key (pick_slot items a)) ScalarSort.int128_total)
        | exact (H _ ScalarSort.int256_ltb (fun a => ScalarSort.int256_key (pick_slot items a)) ScalarSort.int256_total)].
Qed.

Lemma key_lt_slot items kind a b :
  ScalarSort.slot_ok kind (pick_slot items a) -> ScalarSort.slot_ok kind (pick_slot items b) ->
  key_lt_of items kind a b = ScalarSort.slot_ltb kind (pick_slot items a) (pick_slot items b).
Proof.
  intros Ha Hb. destruct kind; try done; cbn in *.
  - apply ScalarSort.string_key_order; [done | done | intros; lia].
  - apply ScalarSort.int128_order; [apply Ha | apply Hb].
  - apply ScalarSort.int256_order; [apply Ha | apply Hb].
Qed.

Section Extrema.
Context (items : Items) (zone_of : list Z) (key_lt : Z -> Z -> bool) (is_nan : Z -> bool) {Hweak : StableSort.WeakOrder key_lt}.
Context (Hn : zlen (its items) < 2 ^ 32).

(** What the loop leaves as it is. *)
Definition core (z : Zone) : Z * Z * Z * Z := (z_fragment z, z_start z, z_length z, z_nulls z).

(** Item [k] holds a value. *)
Definition valued (k : Z) : Prop := 0 <= k < 2 ^ 32 - 1 /\ exists it, its items !! Z.to_nat k = Some it /\ item_null items it = false.
Definition picked (k : Z) : Prop := k = kNoPick \/ valued k /\ is_nan k = false.

(** A zone's picks are items with a value, and a NaN where NaNs are counted. *)
Record picks_ok (n : nat) (z : Zone) : Prop := {
  po_min : picked (z_min z);
  po_max : picked (z_max z);
  po_nans : 0 <= z_nans z <= Z.of_nat n;
  po_nan : if z_nans z =? 0 then z_nan z = kNoPick else valued (z_nan z) /\ is_nan (z_nan z) = true }.

(** A value is within the bounds of a zone. *)
Definition within (k : Z) (z : Zone) : Prop :=
  if is_nan k then 0 < z_nans z
  else z_min z <> kNoPick /\ z_max z <> kNoPick /\ key_lt k (z_min z) = false /\ key_lt (z_max z) k = false.

Lemma extend_picks n k z :
  valued k -> (Z.of_nat n < 2 ^ 32 - 1) -> picks_ok n z -> picks_ok (S n) (extend_zone items key_lt is_nan k z) /\ within k (extend_zone items key_lt is_nan k z).
Proof.
  intros Hk Hlt [P1 P2 P3 P4]. unfold extend_zone, within. destruct (is_nan k) eqn:En.
  - cbn [z_nans]. rewrite u32_small by (unfold is_u32; lia). split; [|lia]. split; cbn [z_min z_max z_nans z_nan]; [done | done | lia|].
    known_false (z_nans z + 1 =? 0). destruct (Z.eqb_spec (z_nan z) kNoPick) as [|Hne]; [done|].
    destruct (Z.eqb_spec (z_nans z) 0); [congruence | done].
  - assert (k <> kNoPick) as Hne by (unfold kNoPick; destruct Hk; lia). assert (picked k) as Hp by (by right).
    split; [split; cbn [z_min z_max z_nans z_nan]; [by destruct (if z_min z =? _ then _ else _) | by destruct (if z_max z =? _ then _ else _) | lia | done]|]. cbn [z_min z_max].
    pose proof (StableSort.wo_irrefl (WeakOrder := Hweak) k) as Hirr.
    destruct (Z.eqb_spec (z_min z) kNoPick), (Z.eqb_spec (z_max z) kNoPick); cbn [orb];
      try destruct (key_lt k (z_min z)) eqn:E1; try destruct (key_lt (z_max z) k) eqn:E2; split_and!; congruence || done.
Qed.

Lemma extend_within k i z : valued i -> within k z -> 0 <= z_nans z < 2 ^ 32 - 1 -> within k (extend_zone items key_lt is_nan i z).
Proof.
  intros Hi Hw Hz. unfold extend_zone, within in *. assert (i <> kNoPick) as Hne by (unfold kNoPick; destruct Hi; lia).
  destruct (is_nan i) eqn:Ei, (is_nan k) eqn:Ek; cbn [z_nans z_min z_max]; try done.
  - rewrite u32_small by (unfold is_u32; lia). lia.
  - destruct Hw as (W1 & W2 & W3 & W4). rewrite (proj2 (Z.eqb_neq _ _) W1), (proj2 (Z.eqb_neq _ _) W2). cbn [orb].
    split_and!; [by destruct (key_lt i (z_min z)) | by destruct (key_lt (z_max z) i) | |].
    + destruct (key_lt i (z_min z)) eqn:E; [|done]. destruct (key_lt k i) eqn:E'; [|done].
      by rewrite (StableSort.wo_trans (WeakOrder := Hweak) k i (z_min z)) in W3.
    + destruct (key_lt (z_max z) i) eqn:E; [|done]. destruct (key_lt i k) eqn:E'; [|done].
      by rewrite (StableSort.wo_trans (WeakOrder := Hweak) (z_max z) i k) in W4.
Qed.

(** The zones after [n] items. *)
Record extrema_inv (zones0 : list Zone) (n : nat) (zones : list Zone) : Prop := {
  ei_core : core <$> zones = core <$> zones0;
  ei_picks : forall z, z ∈ zones -> picks_ok n z;
  ei_within : forall k it q z, (k < n)%nat -> its items !! k = Some it -> item_null items it = false ->
    zone_of !! k = Some (Z.of_nat q) -> zones !! q = Some z -> within (Z.of_nat k) z }.

Lemma picks_mono n z : picks_ok n z -> picks_ok (S n) z.
Proof. intros [? ? ? ?]. split; [done | done | lia | done]. Qed.

Lemma extrema_step zones0 n zones it :
  length zone_of = length (its items) -> extrema_inv zones0 n zones -> its items !! n = Some it ->
  extrema_inv zones0 (S n) (if item_null items it then zones
    else alter (extend_zone items key_lt is_nan (u32 (Z.of_nat n))) (Z.to_nat (nth n zone_of 0)) zones).
Proof.
  intros Hl [I1 I2 I3] Hit. pose proof (lookup_lt_Some _ _ _ Hit) as Hlt. unfold zlen in Hn. destruct (item_null items it) eqn:En.
  { split; [done | intros; by apply picks_mono, I2|]. intros k it' q z Hk Hk' Hnl. apply I3 with it'; [|done|done].
    assert (k <> n) by congruence. lia. }
  rewrite (u32_small (Z.of_nat n)) by (unfold is_u32; lia).
  assert (valued (Z.of_nat n)) as Hv by (split; [lia|]; exists it; by rewrite Nat2Z.id).
  set (f := extend_zone items key_lt is_nan (Z.of_nat n)). split.
  - rewrite <- I1. apply list_eq. intros i. rewrite !list_lookup_fmap, alter_lookup. case_decide; [|done].
    destruct (zones !! i); [|done]. cbn. unfold f, extend_zone. by destruct (is_nan _).
  - intros z (i & Hi)%list_elem_of_lookup. rewrite alter_lookup in Hi. case_decide.
    + destruct (zones !! i) as [z0|] eqn:E; [|done]. injection Hi as <-. apply extend_picks; [done | lia|]. by eapply I2, list_elem_of_lookup_2.
    + apply picks_mono, I2. by eapply list_elem_of_lookup_2.
  - intros k it' q z Hk Hk' Hnl Hq Hz. rewrite alter_lookup in Hz. case_decide as Hd.
    + destruct (zones !! q) as [z0|] eqn:E; [|done]. injection Hz as <-. pose proof (I2 z0 ltac:(by eapply list_elem_of_lookup_2)) as Hp.
      destruct (decide (k = n)) as [->|]; [apply (extend_picks n); [done | lia | done]|].
      apply extend_within; [done | eapply I3; eauto; lia | destruct Hp; lia].
    + assert (k <> n). { intros ->. apply Hd. rewrite nth_lookup, Hq. cbn. lia. } eapply I3; eauto. lia.
Qed.

Lemma zone_extrema_inv zones0 :
  length zone_of = length (its items) -> (forall z, z ∈ zones0 -> unpicked z) ->
  extrema_inv zones0 (length (its items)) (zone_extrema items zone_of key_lt is_nan zones0).
Proof.
  intros Hl Hu. unfold zone_extrema.
  assert (forall m n zones, (n + m = length (its items))%nat -> extrema_inv zones0 n zones ->
    extrema_inv zones0 (n + m) (foldl (fun zones (k : nat) => match its items !! k with
      | Some it => if item_null items it then zones
                   else alter (extend_zone items key_lt is_nan (u32 (Z.of_nat k))) (Z.to_nat (nth k zone_of 0)) zones
      | None => zones end) zones (seq n m))) as H.
  { induction m as [|m IH]; intros n zones Hnm Hi; [by rewrite Nat.add_0_r|]. cbn [seq foldl].
    destruct (its items !! n) as [it|] eqn:E; [|apply lookup_ge_None in E; lia].
    replace (n + S m)%nat with (S n + m)%nat by lia. apply IH; [lia|]. by apply extrema_step. }
  apply (H (length (its items)) 0%nat zones0 eq_refl). split; [done | |intros; lia].
  intros z (U1 & U2 & U3 & U4)%Hu. split; [by left | by left | lia | by rewrite U4].
Qed.

End Extrema.

(** ** Bounds *)

Definition negative_nan (type : ArrowType) (s : Slot) : bool :=
  floating type && match get_double type s with NaN true => true | _ => false end.

(** A positive NaN sorts after every number. *)
Lemma nan_last type name kind unit x m :
  ScalarSort.key_kind_of type name = Ok kind -> KeyOrder.value_fits type unit x -> KeyOrder.value_fits type unit m ->
  slot_nan type x = true -> negative_nan type x = false -> slot_nan type m = false -> ScalarSort.slot_ltb kind x m = false.
Proof.
  unfold slot_nan, negative_nan. intros Hk Hx Hm. destruct type; try done; cbn in Hk; injection Hk as <-; cbn [floating andb get_double ScalarSort.slot_ltb].
  all: intros X1 X2 M; apply not_true_iff_false; intros Hlt%Z.ltb_lt; cbn in Hx, Hm.
  - pose proof (KeyOrder.decode_mono 5 10 ltac:(lia) ltac:(lia) _ _ Hx Hm (Z.lt_le_incl _ _ Hlt)) as H.
    destruct (Expr.decode_float 5 10 (Expr.get_bits x)) as [[]|], (Expr.decode_float 5 10 (Expr.get_bits m)) as [|]; try done; by destruct H.
  - pose proof (KeyOrder.decode_mono 8 23 ltac:(lia) ltac:(lia) _ _ Hx Hm (Z.lt_le_incl _ _ Hlt)) as H.
    destruct (Expr.decode_float 8 23 (Expr.get_bits x)) as [[]|], (Expr.decode_float 8 23 (Expr.get_bits m)) as [|]; try done; by destruct H.
  - pose proof (KeyOrder.decode_mono 11 52 ltac:(lia) ltac:(lia) _ _ Hx Hm (Z.lt_le_incl _ _ Hlt)) as H.
    destruct (Expr.decode_float 11 52 (Expr.get_bits x)) as [[]|], (Expr.decode_float 11 52 (Expr.get_bits m)) as [|]; try done; by destruct H.
Qed.

Section Complete.
Context (type : ArrowType) (unit : TimeUnit) (kind : KeyKind) (name : string) (Hkind : ScalarSort.key_kind_of type name = Ok kind).
Context (items : Items) (Hn : zlen (its items) < 2 ^ 32) (Hok : ScalarSort.items_ok kind items).
Context (Hvals : forall s, ScalarSort.item_valued items s -> KeyOrder.value_fits type unit s).

Definition is_nan_at (k : Z) : bool := slot_nan type (pick_slot items k).

Lemma float_kind_type : match kind with Float16 | Float32 | Float64 => true | _ => false end = floating type.
Proof. clear Hok Hvals. destruct type; try discriminate; cbn in Hkind; by injection Hkind as <-. Qed.

Lemma nan_of k : (match kind with Float16 | Float32 | Float64 => true | _ => false end && slot_nan type (pick_slot items k)) = is_nan_at k.
Proof. rewrite float_kind_type. unfold is_nan_at, slot_nan. by destruct (floating type). Qed.

Lemma valued_row k : valued items k -> item_row items k = Some (pick_slot items k) /\ ScalarSort.item_valued items (pick_slot items k).
Proof.
  intros [Hk (it & Hit & Hnl)]. unfold item_row, pick_slot. rewrite (proj2 (Z.eqb_neq k kNoPick)) by (unfold kNoPick; lia). rewrite Hit, Hnl.
  split; [done|]. exists it. split_and!; [by eapply list_elem_of_lookup_2 | done | done].
Qed.

Lemma picked_row is_nan k m : picked items is_nan k -> item_row items k = Some m -> valued items k /\ is_nan k = false /\ m = pick_slot items k.
Proof.
  intros [->|[Hv Hnan]] Hr; [done|]. split; [done|]. split; [done|]. destruct (valued_row k Hv) as [E _]. congruence.
Qed.

(** What a zone says of its items. *)
Lemma zone_bounds n k it z :
  its items !! k = Some it -> item_null items it = false -> negative_nan type (item_slot items it) = false ->
  picks_ok items is_nan_at n z -> within (key_lt_of items kind) is_nan_at (Z.of_nat k) z ->
  bounded type unit kind (zr_min (zone_row items (floating type) false z)) (zr_max (zone_row items (floating type) false z)) (item_slot items it).
Proof.
  intros Hit Hnl Hneg [P1 P2 P3 P4] Hw. pose proof (lookup_lt_Some _ _ _ Hit) as Hlt. unfold zlen in Hn.
  assert (valued items (Z.of_nat k)) as Hv by (split; [lia|]; exists it; by rewrite Nat2Z.id).
  assert (pick_slot items (Z.of_nat k) = item_slot items it) as Hs by (unfold pick_slot; by rewrite Nat2Z.id, Hit).
  assert (forall j, valued items j -> KeyOrder.value_fits type unit (pick_slot items j) /\ ScalarSort.slot_ok kind (pick_slot items j)) as Hf.
  { intros j Hj. destruct (valued_row j Hj) as [_ H]. split; [by apply Hvals | by apply Hok]. }
  unfold zone_row. cbn [zr_min zr_max]. rewrite <- Hs in Hneg |- *. unfold within, is_nan_at in Hw.
  destruct (slot_nan type (pick_slot items (Z.of_nat k))) eqn:En.
  - assert (floating type = true) as -> by (unfold slot_nan in En; by destruct (floating type)). known_true (0 <? z_nans z). cbn [andb].
    destruct (Z.eqb_spec (z_nans z) 0); [lia|]. destruct P4 as [V4 N4]. split; [by apply Hf | |].
    + exists (pick_slot items (z_nan z)). destruct (valued_row _ V4). split; [done|]. split; [by apply Hf | by left].
    + intros m Hm. destruct (picked_row _ _ _ P1 Hm) as (V1 & N1 & ->). split; [by apply Hf|]. right.
      apply (nan_last type name kind unit); try done; by apply Hf.
  - destruct Hw as (W1 & W2 & W3 & W4). destruct P1 as [|[V1 N1]]; [done|]. destruct P2 as [|[V2 N2]]; [done|].
    rewrite key_lt_slot in W3 by (by apply Hf). rewrite key_lt_slot in W4 by (by apply Hf). split; [by apply Hf | |].
    + destruct (floating type && (0 <? z_nans z)) eqn:Ef.
      * apply andb_true_iff in Ef as [_ Hpos%Z.ltb_lt]. destruct (Z.eqb_spec (z_nans z) 0); [lia|]. destruct P4 as [V4 N4].
        exists (pick_slot items (z_nan z)). destruct (valued_row _ V4). split; [done|]. split; [by apply Hf | by left].
      * exists (pick_slot items (z_max z)). destruct (valued_row _ V2). split; [done|]. split; [by apply Hf | by right].
    + intros m Hm. destruct (valued_row _ V1) as [E _]. rewrite E in Hm. injection Hm as <-. split; [by apply Hf | by right].
Qed.

End Complete.

(** ** Searching *)

Lemma push_zones_rows f x zs r :
  x ∈ default [] (foldl push_zone r zs !! f) <->
  x ∈ default [] (r !! f) \/ exists fragment start len, (true, (fragment, (start, len))) ∈ zs /\ u32 fragment = f /\
    x ∈ u32 <$> seqZ start (u64 (start + len) - start).
Proof.
  revert r. induction zs as [|[keep [frag [start len]]] zs IH]; intros r; cbn [foldl].
  { split; [by left|]. intros [?|(? & ? & ? & ?%elem_of_nil & _)]; done. }
  rewrite IH. assert (x ∈ default [] (push_zone r (keep, (frag, (start, len))) !! f) <->
    x ∈ default [] (r !! f) \/ keep = true /\ u32 frag = f /\ x ∈ u32 <$> seqZ start (u64 (start + len) - start)) as ->.
  { unfold push_zone. destruct keep; [|naive_solver]. rewrite RowSets.push_rows_spec, elem_of_app.
    destruct (Z.eqb_spec (u32 frag) f) as [->|]; [naive_solver|]. split; [intros [?|?%elem_of_nil]; [by left | done]|]. intros [?|(_ & ? & _)]; [by left | done]. }
  split.
  - intros [[?|(-> & ? & ?)]|(a & b & c & Hin & ?)]; [by left | right; exists frag, start, len; split; [by left | done] | right; exists a, b, c; split; [by right | done]].
  - intros [?|(a & b & c & [E|Hin]%elem_of_cons & ?)]; [auto | injection E as <- -> -> ->; auto | right; eauto 10].
Qed.

(** The map as it is loaded: the rows its file was written with. *)
Record zonemap_holds (type : ArrowType) (index : ZoneMapIndex) (zones : list ZoneRow) : Prop := {
  zh_min : table_ok type (zm_min index) /\ col_rows (zm_min index) = zr_min <$> zones;
  zh_max : table_ok type (zm_max index) /\ col_rows (zm_max index) = zr_max <$> zones;
  zh_nulls : zm_null_count index = zr_nulls <$> zones;
  zh_fragment : zm_fragment index = zr_fragment <$> zones;
  zh_start : zm_start index = zr_start <$> zones;
  zh_length : zm_length index = zr_length <$> zones }.

(** The zones of a column. *)
Definition zones_of (items : Items) (type : ArrowType) (kind : KeyKind) (rows_per_zone : Z) : list Zone :=
  let '(zones, zone_of) := cut_zones items rows_per_zone in zone_extrema_of items type kind zone_of zones.

Lemma core_in_zone items it z z' : core z = core z' -> in_zone items it z -> in_zone items it z'.
Proof. destruct z, z'. intros [= -> -> -> ->] [? ? ? ?]. by split. Qed.

(** Every item has a zone with its row that bounds its value. *)
Lemma zones_of_items type unit kind name items rows_per_zone k it :
  ScalarSort.key_kind_of type name = Ok kind -> zlen (its items) < 2 ^ 32 -> in_order (its items) -> ScalarSort.items_ok kind items ->
  (forall s, ScalarSort.item_valued items s -> KeyOrder.value_fits type unit s) -> its items !! k = Some it ->
  exists q z, zones_of items type kind rows_per_zone !! q = Some z /\ in_zone items it z /\
    (item_null items it = false -> negative_nan type (item_slot items it) = false ->
     bounded type unit kind (zr_min (zone_row items (floating type) false z)) (zr_max (zone_row items (floating type) false z)) (item_slot items it)).
Proof.
  intros Hk Hn Hord Hok Hv Hit. unfold zones_of. destruct (cut_zones_inv items rows_per_zone Hn Hord) as (zones & zone_of & -> & [C1 C2 C3 C4 C5]).
  destruct (C4 k it Hit) as (q & z0 & Hq & Hz0 & Hin). unfold zone_extrema_of.
  pose proof (zone_extrema_inv items zone_of (key_lt_of items kind)
    (fun k => match kind with Float16 | Float32 | Float64 => true | _ => false end && slot_nan type (pick_slot items k))
    (Hweak := key_lt_weak items kind) Hn zones C1 (fun z Hz => proj2 (C3 z Hz))) as [E1 E2 E3].
  set (out := zone_extrema _ _ _ _ _) in *. clearbody out.
  assert (exists z, out !! q = Some z /\ core z = core z0) as (z & Hz & Hc).
  { assert ((core <$> out) !! q = Some (core z0)) as H by (by rewrite E1, list_lookup_fmap, Hz0). rewrite list_lookup_fmap in H.
    destruct (out !! q) as [z|]; [|done]. apply (inj Some) in H. by exists z. }
  exists q, z. split; [done|]. split; [by eapply core_in_zone|]. intros Hnl Hneg.
  assert (forall j, (match kind with Float16 | Float32 | Float64 => true | _ => false end && slot_nan type (pick_slot items j)) = is_nan_at type items j) as Hnan
    by (intros j; by eapply nan_of).
  eapply (zone_bounds type unit kind name Hk items Hn Hok Hv (length (its items)) k); try done.
  - destruct (E2 z ltac:(by eapply list_elem_of_lookup_2)) as [P1 P2 P3 P4].
    split; unfold picked; rewrite <- ?Hnan; assumption.
  - specialize (E3 k it q z ltac:(by eapply lookup_lt_Some) Hit Hnl Hq Hz). unfold within. rewrite <- Hnan. exact E3.
Qed.

Section Search.
Context (float_op : Expr.ArithOp -> Double -> Double -> Double) (type : ArrowType) (unit : TimeUnit) (scale : Z).
Context (kind : KeyKind) (name : string) (Hkind : ScalarSort.key_kind_of type name = Ok kind).
Context (items : Items) (Hn : zlen (its items) < 2 ^ 32) (Hord : in_order (its items)) (Hok : ScalarSort.items_ok kind items).
Context (Hvals : forall s, ScalarSort.item_valued items s -> KeyOrder.value_fits type unit s).
Context (p : Predicate) (lits : list Value) (Hlits : with_literals p lits)
  (Hfit : Forall (KeyOrder.literal_fits type scale) lits) (Hcomp : comparable type unit scale lits) (Hdec : decided p).
Context (rows_per_zone : Z) (index : ZoneMapIndex).
Notation zones := (zones_of items type kind rows_per_zone).
Context (Hidx : zonemap_holds type index (write_zonemap items (floating type) false zones).1).

(** A row of a kept zone is answered. *)
Lemma kept_zone_row out keep q z it :
  zones !! q = Some z -> in_zone items it z -> keep !! q = Some true ->
  u32 (i_addr it) ∈ rows_of (push_zones out keep (zm_fragment index) (zm_start index) (zm_length index)) (RowSets.fragment_of (i_addr it)).
Proof using Hidx.
  intros Hz [I1 I2 I3 _] Hk. unfold rows_of, push_zones, with_rows. cbn [rows]. apply push_zones_rows. right.
  exists (z_fragment z), (z_start z), (z_length z). rewrite (zh_fragment _ _ _ Hidx), (zh_start _ _ _ Hidx), (zh_length _ _ _ Hidx).
  unfold write_zonemap. cbn [fst]. rewrite <- !list_fmap_compose. split_and!.
  - eapply (list_elem_of_lookup_2 _ q). by rewrite !lookup_zip_with, !list_lookup_fmap, Hz, Hk.
  - by rewrite I1.
  - rewrite u64_small by (unfold is_u64; lia). apply list_elem_of_fmap. exists (offset it). rewrite elem_of_seqZ. split; [|lia].
    rewrite offset_eq, (u32_small (u32 _)); [done | apply u32_range].
Qed.

(** The zones a search keeps hold every match. *)
Lemma search_zonemap_keeps out :
  exists keep, search_zonemap float_op type unit scale p index out =
      Ok (Some (push_zones out keep (zm_fragment index) (zm_start index) (zm_length index))) /\
    forall q z o, zones !! q = Some z ->
      match o with
      | None => 0 < z_nulls z
      | Some x => bounded type unit kind (zr_min (zone_row items (floating type) false z)) (zr_max (zone_row items (floating type) false z)) x
      end -> holds p lits (row_value type unit scale o) = Ok true -> keep !! q = Some true.
Proof.
  unfold search_zonemap. assert (array_test (p_test p) || bool_decide (p_test p = TContains) = false) as ->.
  { unfold decided in Hdec. by destruct (p_test p). }
  assert (nested type = false) as -> by (clear -Hkind; by destruct type). cbn [andb].
  destruct (fixed_binary type && negb (bool_decide (p_test p = TIsNull))).
  - cbn [mbind res_bind]. eexists. split; [done|]. intros q z o Hz _ _. rewrite (zh_nulls _ _ _ Hidx). unfold write_zonemap. cbn [fst].
    by rewrite !list_lookup_fmap, Hz.
  - destruct (zh_min _ _ _ Hidx) as [Tn Rn], (zh_max _ _ _ Hidx) as [Tx Rx].
    destruct (prune_total float_op type unit scale p lits (zm_min index) (zm_max index) (zm_null_count index) Hlits Hcomp Hdec Tn Tx) as [keep Hk].
    rewrite Hk. cbn [mbind res_bind]. exists keep. split; [done|]. intros q z o Hz Hb Hh.
    eapply (prune_keeps float_op type unit scale kind name Hkind _ _ _ Tn Tx p lits Hlits Hfit keep q _ _ (z_nulls z) o Hk);
      [rewrite Rn | rewrite Rx | rewrite (zh_nulls _ _ _ Hidx) | exact Hb | exact Hh]; unfold write_zonemap; cbn [fst]; by rewrite !list_lookup_fmap, Hz.
Qed.

Lemma search_zonemap_complete out :
  exists out', search_zonemap float_op type unit scale p index out = Ok (Some out') /\
    (forall f x, x ∈ rows_of out f -> x ∈ rows_of out' f) /\
    forall it, it ∈ its items -> passes type unit scale p lits (row_of items it) = true ->
      (item_null items it = false -> negative_nan type (item_slot items it) = false) ->
      u32 (i_addr it) ∈ rows_of out' (RowSets.fragment_of (i_addr it)).
Proof.
  destruct (search_zonemap_keeps out) as (keep & -> & Hkeep). eexists. split; [done|]. split.
  - intros f x Hx. unfold rows_of, push_zones, with_rows in *. cbn [rows]. apply push_zones_rows. by left.
  - intros it (k & Hit)%list_elem_of_lookup Hp%passes_true Hneg.
    destruct (zones_of_items type unit kind name items rows_per_zone k it Hkind Hn Hord Hok Hvals Hit) as (q & z & Hz & Hin & Hb).
    eapply kept_zone_row; [done | done|]. eapply (Hkeep q z (row_of items it) Hz); [|done]. unfold row_of.
    destruct (item_null items it) eqn:En; [by apply (iz_null _ _ _ Hin) | auto].
Qed.

End Search.

(** C19: (safety): a zone map never loses a match. The map holds the zones cut from the items of a column in
    row address order ([cut_zones]) with the bounds of their values ([zone_extrema_of]), read back through its
    file; the column's values and the literals are in range, and the literals compare with the column. Then
    the search succeeds and keeps the rows it was given, and every row whose value passes the predicate, when
    it is evaluated row by row, is among the rows answered for its fragment, unless its value is a NaN with the
    sign bit set. *)
Theorem zonemap_search_complete float_op type unit scale name kind items rows_per_zone p lits index out :
  ScalarSort.key_kind_of type name = Ok kind -> zlen (its items) < 2 ^ 32 -> in_order (its items) -> ScalarSort.items_ok kind items ->
  (forall s, ScalarSort.item_valued items s -> KeyOrder.value_fits type unit s) ->
  with_literals p lits -> Forall (KeyOrder.literal_fits type scale) lits -> comparable type unit scale lits -> decided p ->
  zonemap_holds type index (write_zonemap items (floating type) false (zones_of items type kind rows_per_zone)).1 ->
  exists out', search_zonemap float_op type unit scale p index out = Ok (Some out') /\
    (forall f x, x ∈ rows_of out f -> x ∈ rows_of out' f) /\
    forall it, it ∈ its items -> passes type unit scale p lits (row_of items it) = true ->
      (item_null items it = false -> negative_nan type (item_slot items it) = false) ->
      u32 (i_addr it) ∈ rows_of out' (RowSets.fragment_of (i_addr it)).
Proof. intros. by eapply search_zonemap_complete. Qed.

(** The map of some zones, in memory. *)
Definition loaded_zonemap (zones : list ZoneRow) : ZoneMapIndex :=
  mkZoneMap (loaded (zr_min <$> zones)) (loaded (zr_max <$> zones)) (zr_nulls <$> zones) (zr_fragment <$> zones) (zr_start <$> zones) (zr_length <$> zones).

Lemma loaded_zonemap_holds type items is_float zones :
  (forall s, ScalarSort.item_valued items s -> Expr.slot_ok type s) -> Expr.slot_ok type SNone ->
  zonemap_holds type (loaded_zonemap (write_zonemap items is_float false zones).1) (write_zonemap items is_float false zones).1.
Proof.
  intros Hs H0. assert (forall l : list (option Slot), (forall o, o ∈ l -> exists k, o = item_row items k) -> table_ok type (loaded l)) as Ht.
  { intros l Hl. apply loaded_ok; [|done]. intros s (k & Hk)%Hl. by eapply Hs, item_row_valued. }
  split; cbn [zm_min zm_max zm_null_count zm_fragment zm_start zm_length loaded_zonemap]; try done.
  - split; [|apply loaded_rows]. apply Ht. intros o (r & -> & (z & -> & _)%list_elem_of_fmap)%list_elem_of_fmap. cbn. eauto.
  - split; [|apply loaded_rows]. apply Ht. intros o (r & -> & (z & -> & _)%list_elem_of_fmap)%list_elem_of_fmap. cbn. eauto.
Qed.

(** The sample of [ScalarIndex], in zones of two rows: 9 and a null, -4 and 3. *)
Lemma zonemap_search_witness :
  exists out', search_zonemap (fun _ a _ => a) INT64 Expr.Second 0 sample_predicate
      (loaded_zonemap (write_zonemap sample false false (zones_of sample INT64 KInt 2)).1) RowSet0 = Ok (Some out') /\
    5 ∈ rows_of out' 0 /\ 7 ∈ rows_of out' 1.
Proof.
  destruct (zonemap_search_complete (fun _ a _ => a) INT64 Expr.Second 0 "v" KInt sample 2 sample_predicate [VInt 2; VUInt 9]
    (loaded_zonemap (write_zonemap sample false false (zones_of sample INT64 KInt 2)).1) RowSet0) as (out' & E & _ & H); try done.
  - intros i a b. do 4 (destruct i as [|i]; [intros [= <-] [= <-]; vm_compute; intros; congruence|]). done.
  - split; [done|]. apply sample_valued; cbn; lia.
  - apply sample_valued; cbn; lia.
  - split; [done|]. repeat constructor; cbn; unfold is_u64; lia.
  - repeat constructor; cbn; unfold is_u64; lia.
  - constructor; [|constructor; [|constructor]]; right; intros s; by eexists.
  - apply loaded_zonemap_holds; [apply sample_valued|]; cbn; lia.
  - exists out'. split; [exact E|]. split.
    + apply (H (mkItem 0 0 5)); [by left | vm_compute; reflexivity | done].
    + apply (H (mkItem 0 3 (2 ^ 32 + 7))); [by do 3 right; left | vm_compute; reflexivity | done].
Defined.

(** A double column of one zone, a negative NaN and 5.0: the filter [x < 0.0] keeps the NaN's row, and the
    search of the map answers no row at all. *)
Definition nan_items : Items :=
  mkItems [View false 0 0 None [SFloat (2 ^ 64 - 1); SFloat 4617315517961601024] []] [mkItem 0 0 0; mkItem 0 1 1].
Definition below_zero : Predicate := mkPredicate TCompare Lt [Literal (VDouble (Num (Json.Finite 0 0)))].

Lemma negative_nan_pruned :
  passes DOUBLE Expr.Second 0 below_zero [VDouble (Num (Json.Finite 0 0))] (row_of nan_items (mkItem 0 0 0)) = true /\
  exists out', search_zonemap (fun _ a _ => a) DOUBLE Expr.Second 0 below_zero
    (loaded_zonemap (write_zonemap nan_items true false (zones_of nan_items DOUBLE Float64 8192)).1) RowSet0 = Ok (Some out') /\ rows_of out' 0 = [].
Proof. split; [vm_compute; reflexivity|]. eexists. split; [vm_compute; reflexivity|]. done. Qed.

End ZoneMap.
