(* ===== verification/SegmentSearch.v ===== *)
(** * The answers of a segment (src/index/scalar/scalar_index.cpp, src/index/index_search.cpp)

    A BITMAP answers a predicate exactly: its keys are the distinct values of the sorted column
    ([write_bitmap]), and the items of a key pass or fail together ([search_bitmap_exact]). The rows a zone map
    answers come in order, each once: zones are cut one after the other ([zonemap_rows_ascending]). *)

From S2P Require Import Prelude ProtoWire Roaring Json Int128 Decimal Expr StableSort ScalarSort KeyOrder RowSets ScalarIndex ZoneMap.

Module SegmentSearch.
Import Expr (Value(..), Double(..), TimeUnit, ArrowType(..), ArrayView, Slot(..), CmpOp(..), Node, Literal, is_null, read_scalar).
Import RowSets (RowSet, RowSet0, rows, rows_of, with_rows).
Import ScalarSort (Items, Item, its, i_addr, item_null, item_slot, Sorted, order, group_starts, nulls, KeyKind(..)).
Import ScalarIndex.

(** ** Values that sort alike *)

(** [holds] sees a value through its comparisons with the literals. *)
Lemma eval_in_same v w lits saw r :
  Forall (fun l => is_null l = true \/ Expr.compare v l = Expr.compare w l) lits ->
  Expr.eval_in false v (Ok <$> lits) saw = Ok r -> Expr.eval_in false w (Ok <$> lits) saw = Ok r.
Proof.
  intros Hl. revert saw. induction Hl as [|l lits Hl Hls IH]; intros saw; [done|]. cbn. destruct Hl as [->|<-]; [apply IH|].
  destruct (is_null l); [apply IH|]. destruct (Expr.compare v l) as [c|]; [|done]. destruct (c =? 0); [done | apply IH].
Qed.

Lemma holds_same p lits v w b :
  is_null v = false -> is_null w = false -> Forall (fun l => is_null l = true \/ Expr.compare v l = Expr.compare w l) lits ->
  holds p lits v = Ok b -> holds p lits w = Ok b.
Proof.
  intros Hv Hw Hl. assert (forall k, is_null (nth k lits VNull) = true \/ Expr.compare v (nth k lits VNull) = Expr.compare w (nth k lits VNull)) as Hk.
  { intros k. rewrite nth_lookup. destruct (lits !! k) eqn:E; [by apply (Forall_lookup_1 _ _ _ _ Hl E) | by left]. }
  assert ((r ← Expr.eval_in false v (Ok <$> lits) false; Expr.keep_row r) = Ok b -> (r ← Expr.eval_in false w (Ok <$> lits) false; Expr.keep_row r) = Ok b) as Hin.
  { unfold mbind, res_bind. destruct (Expr.eval_in false v _ false) as [r|] eqn:E; [|done]. by rewrite (eval_in_same v w lits false r Hl E). }
  unfold holds, Expr.eval_compare, Expr.eval_between. rewrite Hv, Hw. cbn [orb].
  destruct (p_test p); [| | | done | done | | | | done]; try (destruct lits; [done | exact Hin]).
  - destruct (Hk 0%nat) as [->| ->]; [done|]. destruct (is_null (nth 0 lits VNull)); [done|]. by destruct (Expr.compare w _).
  - destruct (Hk 0%nat) as [->| ->]; [done|]. destruct (Hk 1%nat) as [->| ->]; [by rewrite !orb_true_r|]. done.
Qed.

(** ** Groups *)

Lemma starts_ascending {K} (ltb : K -> K -> bool) prev at_ l :
  StronglySorted lt (ScalarSort.starts ltb prev at_ l) /\ Forall (fun j => at_ <= j < at_ + length l)%nat (ScalarSort.starts ltb prev at_ l).
Proof.
  revert prev at_. induction l as [|x l IH]; intros prev at_; cbn [ScalarSort.starts]; [split; constructor|].
  destruct (IH (Some x) (S at_)) as [I1 I2]. assert (Forall (fun j => at_ <= j < at_ + length (x :: l))%nat (ScalarSort.starts ltb (Some x) (S at_) l)) as I3.
  { eapply Forall_impl; [exact I2|]. cbn. lia. }
  destruct (match prev with None => _ | Some q => _ end); cbn [app]; [|done]. split; constructor; cbn; try done; [|lia].
  eapply Forall_impl; [exact I2|]. cbn. lia.
Qed.

(** A place that is no start holds a key not greater than the one before it. *)
Lemma starts_not {K} (ltb : K -> K -> bool) l prev at_ j x :
  l !! j = Some x -> (at_ + j)%nat ∉ ScalarSort.starts ltb prev at_ l ->
  exists y, match j with O => prev = Some y | S j => l !! j = Some y end /\ ltb y x = false.
Proof.
  revert prev at_ j. induction l as [|k l IH]; intros prev at_ j Hj Hs; [done|]. cbn [ScalarSort.starts] in Hs. destruct j as [|j].
  - injection Hj as ->. rewrite Nat.add_0_r in Hs. destruct prev as [q|]; [|set_solver]. exists q. split; [done|]. destruct (ltb q x); [set_solver | done].
  - rewrite <- Nat.add_succ_comm in Hs. destruct (IH (Some k) (S at_) j Hj ltac:(set_solver)) as (y & Hy & Hlt). exists y. split; [|done].
    destruct j; [by injection Hy as -> | done].
Qed.

(** The start at or before a place. *)
Lemma start_before (gs : list nat) i :
  StronglySorted lt gs -> (exists x, x ∈ gs /\ (x <= i)%nat) ->
  exists g b, gs !! g = Some b /\ (b <= i)%nat /\ forall b', gs !! S g = Some b' -> (i < b')%nat.
Proof.
  induction 1 as [|x gs Hs IH Hx]; intros (y & Hy & Hle); [by apply elem_of_nil in Hy|].
  destruct (decide (Exists (fun z => z <= i)%nat gs)) as [Hz|Hz]; rewrite Exists_exists in Hz.
  { destruct (IH Hz) as (g & b & ? & ? & ?). by exists (S g), b. }
  exists 0%nat, x. split; [done|]. apply elem_of_cons in Hy as [->|Hy]; [|destruct Hz; by exists y]. split; [done|].
  intros b' Hb'. destruct (decide (i < b')%nat) as [|Hb]; [done|]. destruct Hz. exists b'. split; [by eapply list_elem_of_lookup_2 | lia].
Qed.

Lemma between_starts (gs : list nat) g b j :
  StronglySorted lt gs -> gs !! g = Some b -> (b < j)%nat -> (forall b', gs !! S g = Some b' -> (j < b')%nat) -> j ∉ gs.
Proof.
  intros Hs Hg Hb He (k & Hk)%list_elem_of_lookup. destruct (decide (k = g)) as [->|Hne]; [rewrite Hg in Hk; injection Hk as ->; lia|].
  destruct (decide (k < g)%nat) as [Hlt|Hge]; [pose proof (sorted_lookup lt gs k g j b Hs Hlt Hk Hg); lia|].
  destruct (decide (k = S g)) as [->|Hne']; [specialize (He j Hk); lia|].
  destruct (gs !! S g) as [b'|] eqn:E; [|apply lookup_ge_None in E; apply lookup_lt_Some in Hk; lia].
  pose proof (sorted_lookup lt gs (S g) k b' j Hs ltac:(lia) E Hk). specialize (He b' eq_refl). lia.
Qed.

(** A BITMAP as it is loaded: the keys and bitmaps its file was written with. *)
Record bitmap_holds (type : ArrowType) (items : Items) (index : BitmapIndex) (sorted : Sorted) : Prop := {
  bh_keys : table_ok type (bm_keys index) /\ col_rows (bm_keys index) = (write_bitmap items sorted).*1;
  bh_bitmap : forall g k bytes, write_bitmap items sorted !! g = Some (k, bytes) -> bm_bitmap index (Z.of_nat g) = Some bytes }.

Section Bitmap.
Context (float_op : Expr.ArithOp -> Double -> Double -> Double) (type : ArrowType) (unit : TimeUnit) (scale : Z).
Context (kind : KeyKind) (name : string) (Hkind : ScalarSort.key_kind_of type name = Ok kind).
Context (items : Items) (Hn : zlen (its items) < 2 ^ 32).
Context (Hvals : forall s, ScalarSort.item_valued items s -> KeyOrder.value_fits type unit s).
Context (p : Predicate) (lits : list Value) (Hlits : with_literals p lits)
  (Hfit : Forall (KeyOrder.literal_fits type scale) lits) (Hcomp : comparable type unit scale lits) (Hdec : decided p).
Notation passes := (passes type unit scale p lits).
Notation sorted := (ScalarSort.reference kind items).
Notation values := (btree_values items sorted).
Notation ids := (btree_ids items sorted).

(** Values that sort alike pass alike. *)
Lemma passes_alike x y :
  KeyOrder.value_fits type unit x -> KeyOrder.value_fits type unit y ->
  ScalarSort.slot_ltb kind x y = false -> ScalarSort.slot_ltb kind y x = false -> passes (Some x) = passes (Some y).
Proof.
  intros Fx Fy Hxy Hyx.
  assert (Forall (fun l => is_null l = true \/ Expr.compare (read_scalar x type unit scale) l = Expr.compare (read_scalar y type unit scale) l) lits) as Hc.
  { apply Forall_forall. intros l Hl. rewrite Forall_forall in Hfit. specialize (Hfit l Hl). unfold comparable in Hcomp. rewrite Forall_forall in Hcomp.
    destruct (Hcomp l Hl) as [|Hs]; [by left|]. right. destruct (Hs x) as [cx Ex], (Hs y) as [cy Ey]. rewrite Ex, Ey. f_equal.
    pose proof (KeyOrder.compare_mono type name unit scale kind l x y cx cy Hkind Fx Fy Hfit Hyx Ex Ey).
    pose proof (KeyOrder.compare_mono type name unit scale kind l y x cy cx Hkind Fy Fx Hfit Hxy Ey Ex). lia. }
  apply eq_true_iff_eq. rewrite !passes_true. cbn [row_value].
  split; apply holds_same; try apply Expr.read_scalar_not_null; [done|]. eapply Forall_impl; [exact Hc|]. cbn. intros l [?|?]; [by left | by right].
Qed.

Lemma groups_ascending : StronglySorted lt (group_starts sorted) /\ (forall j, j ∈ group_starts sorted -> (j < length values)%nat) /\
  (values <> [] -> 0%nat ∈ group_starts sorted).
Proof.
  destruct (reference_rows kind items Hn) as (S & E & Hs & ->). rewrite E, length_app, length_replicate, length_fmap. set (n := nulls _).
  destruct (starts_ascending (ScalarSort.slot_ltb kind) None n S) as [A1 A2]. unfold ScalarSort.null_start. destruct n as [|n]; cbn [app].
  - split_and!; [done | intros j Hj; rewrite Forall_forall in A2; specialize (A2 j Hj); lia|]. cbn. destruct S; [done|]. intros _. cbn. by left.
  - split_and!.
    + constructor; [done|]. eapply Forall_impl; [exact A2|]. cbn. lia.
    + intros j [->|Hj]%elem_of_cons; [lia|]. rewrite Forall_forall in A2. specialize (A2 j Hj). lia.
    + intros _. by left.
Qed.

(** A place that starts no group passes as the place before it does. *)
Lemma same_as_before i o :
  values !! i = Some o -> i ∉ group_starts sorted -> exists i' o', i = S i' /\ values !! i' = Some o' /\ passes o = passes o'.
Proof.
  intros Hi Hg. pose proof (values_fit type unit kind items Hn Hvals) as Hv. destruct (reference_rows kind items Hn) as (S & E & Hs & Eg). rewrite Eg in Hg. rewrite E in Hi, Hv |- *. clear E Eg.
  set (n := nulls _) in *. apply lookup_app_Some in Hi as [[-> Hlt]%lookup_replicate|[Hge Hi]].
  - destruct n as [|n]; [lia|]. destruct i as [|i]; [cbn in Hg; set_solver|]. exists i, None. split_and!; [done | | done].
    rewrite lookup_app_l by (rewrite length_replicate; lia). apply lookup_replicate_2. lia.
  - rewrite length_replicate in Hge, Hi. rewrite list_lookup_fmap in Hi. destruct (S !! (i - n)%nat) as [x|] eqn:Ex; [|done]. injection Hi as <-.
    destruct (starts_not (ScalarSort.slot_ltb kind) S None n (i - n)%nat x Ex) as (y & Hy & Hlt).
    { replace (n + (i - n))%nat with i by lia. set_solver. }
    destruct (i - n)%nat as [|j] eqn:Ej; [done|]. exists (n + j)%nat, (Some y).
    assert ((replicate n None ++ (Some <$> S)) !! (n + j)%nat = Some (Some y)) as Hy'.
    { rewrite lookup_app_r, length_replicate, list_lookup_fmap by (rewrite length_replicate; lia). replace (n + j - n)%nat with j by lia. by rewrite Hy. }
    assert ((replicate n None ++ (Some <$> S)) !! i = Some (Some x)) as Hx'.
    { rewrite lookup_app_r, length_replicate, list_lookup_fmap by (rewrite length_replicate; lia). by rewrite Ej, Ex. }
    split_and!; [lia | done|]. apply passes_alike; [by eapply Hv | by eapply Hv | | done].
    apply (sorted_lookup (fun a b => ScalarSort.slot_ltb kind b a = false) S j (Datatypes.S j)); [done | lia | done | done].
Qed.

(** The items of a group pass as its key does. *)
Lemma group_alike g b i o o' :
  group_starts sorted !! g = Some b -> (b <= i)%nat -> (forall b', group_starts sorted !! S g = Some b' -> (i < b')%nat) ->
  values !! i = Some o -> values !! b = Some o' -> passes o = passes o'.
Proof.
  intros Hg Hb He Hi Hb'. revert o Hi He. induction Hb as [|i Hb IH]; intros o Hi He; [congruence|].
  destruct (same_as_before (S i) o Hi) as (i' & o1 & [= <-] & Ho1 & ->).
  - eapply (between_starts _ g b); [apply groups_ascending | done | lia | done].
  - apply IH; [done|]. intros b1 Hb1. specialize (He b1 Hb1). lia.
Qed.

(** ** Searching a BITMAP *)

(** A group's places and addresses. *)
Definition group_begin (g : nat) : nat := nth g (group_starts sorted) 0%nat.
Definition group_end (g : nat) : nat :=
  if (S g <? length (group_starts sorted))%nat then nth (S g) (group_starts sorted) 0%nat else length (order sorted).
Definition group_addrs (g : nat) : list Z := take (group_end g - group_begin g) (drop (group_begin g) ids).

Lemma group_at g : (g < length (group_starts sorted))%nat ->
  group_starts sorted !! g = Some (group_begin g) /\
  (forall i, (i < group_end g)%nat <-> (i < length values)%nat /\ forall b', group_starts sorted !! S g = Some b' -> (i < b')%nat) /\
  exists o, values !! group_begin g = Some o /\ write_bitmap items sorted !! g = Some (o, RowSets.serialize_treemap (group_addrs g)).
Proof.
  intros Hg. destruct groups_ascending as (Hs & Hlt & _). destruct (lookup_lt_is_Some_2 _ _ Hg) as [b Hb].
  assert (group_begin g = b) as Eb by (unfold group_begin; by apply nth_lookup_Some).
  assert (length values = length (order sorted)) as Hlen by (unfold btree_values; apply length_fmap).
  pose proof (Hlt b ltac:(by eapply list_elem_of_lookup_2)) as Hbl. split_and!; [by rewrite Eb | |].
  - intros i. unfold group_end. destruct (Nat.ltb_spec (S g) (length (group_starts sorted))) as [Hn'|Hn'].
    + destruct (lookup_lt_is_Some_2 _ _ Hn') as [b' Hb']. rewrite (nth_lookup_Some _ _ _ _ Hb'). pose proof (Hlt b' ltac:(by eapply list_elem_of_lookup_2)).
      split; [intros; split; [lia|]; intros ? [= <-]%(eq_trans (eq_sym Hb')); done | intros [_ H']; by apply H'].
    + rewrite <- Hlen. split; [intros; split; [done|]; intros b' Hb'%lookup_lt_Some; lia | by intros [? _]].
  - destruct (lookup_lt_is_Some_2 (order sorted) b ltac:(lia)) as [q Hq]. exists (item_row items q). rewrite Eb. split.
    + unfold btree_values. by rewrite list_lookup_fmap, Hq.
    + unfold write_bitmap. rewrite list_lookup_fmap, lookup_seq_lt by done. cbn [fmap option_fmap option_map Nat.add].
      unfold bitmap_group. fold (group_end g) (group_begin g). rewrite Eb, (nth_lookup_Some _ _ _ _ Hq). unfold group_addrs, btree_ids.
      by rewrite Eb, fmap_take, fmap_drop.
Qed.

Lemma group_addrs_elem g a : a ∈ group_addrs g <-> exists i, (group_begin g <= i < group_end g)%nat /\ ids !! i = Some a.
Proof.
  unfold group_addrs. rewrite list_elem_of_lookup. split.
  - intros [j [Hj Hlt]%lookup_take_Some]. rewrite lookup_drop in Hj. exists (group_begin g + j)%nat. split; [lia | done].
  - intros (i & Hi & Ha). exists (i - group_begin g)%nat. apply lookup_take_Some. rewrite lookup_drop. split; [|lia].
    by replace (group_begin g + (i - group_begin g))%nat with i by lia.
Qed.

(** The keys that match: those of the groups whose items pass. *)
Lemma matching_rows index :
  bitmap_holds type items index sorted -> exists key_rows, matching float_op type unit scale index p = Ok key_rows /\
    forall r, r ∈ key_rows <-> exists g o, r = Z.of_nat g /\ (write_bitmap items sorted).*1 !! g = Some o /\ passes o = true.
Proof.
  intros [[Ht Hk] _]. assert (p_test p <> TContains) as Hc by (intros E; unfold decided in Hdec; by rewrite E in Hdec).
  destruct (evaluate_total float_op type unit scale p lits _ Hlits Hcomp Hc Ht) as [pass Hp]. unfold matching. rewrite Hp. cbn [mbind res_bind].
  eexists. split; [done|]. apply (evaluate_rows _ _ _ _ _ _ _ _ Hlits Ht) in Hp. rewrite Hk in Hp. intros r. rewrite list_elem_of_fmap. split.
  - intros ([bt r'] & -> & [Hbt Hin]%list_elem_of_filter). apply list_elem_of_lookup in Hin as [g Hg].
    apply lookup_zip_with_Some in Hg as (bt' & r'' & [= <- <-] & J1 & J2). apply lookup_seqZ in J2 as [-> _].
    destruct (Forall2_lookup_r _ _ _ _ _ Hp J1) as (o & Ho & Hh). exists g, o. cbn in Hbt |- *. split_and!; [lia | done|]. apply passes_true. by destruct bt.
  - intros (g & o & -> & Ho & Hpass%passes_true). destruct (Forall2_lookup_l _ _ _ _ _ Hp Ho) as (bt & Hbt & Hh). exists (bt, Z.of_nat g). split; [done|].
    apply list_elem_of_filter. rewrite Hpass in Hh. injection Hh as <-. split; [done|]. eapply (list_elem_of_lookup_2 _ g).
    rewrite lookup_zip_with, Hbt. cbn. pose proof (lookup_lt_Some _ _ _ Hbt). by rewrite lookup_seqZ_lt by (unfold zlen; lia).
Qed.

(** The bitmaps of some keys, united. *)
Lemma bitmap_rows_spec index physical key_rows (addrs_of : Z -> list Z) out :
  (forall r, r ∈ key_rows -> bm_bitmap index r = Some (RowSets.serialize_treemap (addrs_of r)) /\ Forall is_u64 (addrs_of r) /\ zlen (addrs_of r) < 2 ^ 32) ->
  (forall f, ascending (rows_of out f)) ->
  exists out', bitmap_rows index key_rows physical out = Ok out' /\ forall f, ascending (rows_of out' f) /\
    forall x, x ∈ rows_of out' f <-> x ∈ rows_of out f \/ exists r a, r ∈ key_rows /\ a ∈ addrs_of r /\ RowSets.fragment_of a = f /\ x = u32 a.
Proof.
  unfold bitmap_rows. revert out. induction key_rows as [|r rs IH]; intros out Hr Ho; cbn [fold_res].
  { exists out. split; [done|]. intros f. split; [done|]. intros x. split; [by left|]. intros [?|(r & a & ?%elem_of_nil & _)]; done. }
  destruct (Hr r ltac:(by left)) as (-> & Hu & Hl).
  destruct (RowSets.treemap_addresses_roundtrip (addrs_of r) physical out Hu Hl Ho) as (mid & -> & _ & _ & Hm). cbn [mbind res_bind].
  assert (forall f, ascending (rows_of mid f) /\ forall x, x ∈ rows_of mid f <-> x ∈ rows_of out f \/ exists a, a ∈ addrs_of r /\ RowSets.fragment_of a = f /\ x = u32 a) as Hm'.
  { intros f. rewrite Hm. destruct (sort_unique_spec (rows_of out f ++ (u32 <$> filter (fun a => RowSets.fragment_of a = f) (addrs_of r)))) as [S1 S2].
    split; [done|]. intros x. rewrite S2, elem_of_app, list_elem_of_fmap. setoid_rewrite list_elem_of_filter. naive_solver. }
  destruct (IH mid) as (out' & E & H'); [intros; apply Hr; by right | apply Hm' |]. exists out'. split; [done|]. intros f. destruct (H' f) as [H1 H2]. split; [done|].
  intros x. rewrite H2, (proj2 (Hm' f)). split.
  - intros [[?|(a & ?)]|(r' & a & ? & ?)]; [by left | right; exists r, a; split; [by left | done] | right; exists r', a; split; [by right | done]].
  - intros [?|(r' & a & [->|Hin]%elem_of_cons & ?)]; [by left; left | left; right; eauto | right; eauto].
Qed.

Lemma search_bitmap_exact index physical :
  Forall (fun it => is_u64 (i_addr it)) (its items) -> bitmap_holds type items index sorted ->
  exists out, search_bitmap float_op type unit scale false p index physical RowSet0 = Ok (Some out) /\
    forall f, ascending (rows_of out f) /\ forall x, x ∈ rows_of out f <->
      exists it, it ∈ its items /\ RowSets.fragment_of (i_addr it) = f /\ u32 (i_addr it) = x /\ passes (row_of items it) = true.
Proof.
  intros Haddr Hidx. unfold search_bitmap. assert (p_test p <> TContains /\ p_test p <> THasAll /\ array_test (p_test p) = false) as (E1 & E2 & E3)
    by (unfold decided in Hdec; by destruct (p_test p)).
  rewrite (bool_decide_eq_false_2 (p_test p = TContains)), (bool_decide_eq_false_2 (p_test p = THasAll)), E3 by done. cbn [negb andb Bool.eqb].
  destruct (matching_rows index Hidx) as (key_rows & -> & Hkeys). cbn [mbind res_bind].
  pose proof (rows_perm items Hn sorted (order_perm kind items)) as Hperm. destruct groups_ascending as (Hs & _ & H0).
  assert (forall i o a, values !! i = Some o -> ids !! i = Some a -> exists it, it ∈ its items /\ o = row_of items it /\ a = i_addr it) as Hitem.
  { intros i o a Hv Ha. assert ((o, a) ∈ zip values ids) as Hin by (eapply (list_elem_of_lookup_2 _ i); by rewrite lookup_zip_with, Hv, Ha).
    rewrite Hperm in Hin. apply list_elem_of_fmap in Hin as (it & [= -> ->] & Hit). eauto. }
  assert (length ids = length values) as Hlen by (unfold btree_ids, btree_values; by rewrite !length_fmap).
  assert (forall g o, (write_bitmap items sorted).*1 !! g = Some o -> (g < length (group_starts sorted))%nat) as Hgl.
  { intros g o Hg%lookup_lt_Some. unfold write_bitmap in Hg. by rewrite !length_fmap, length_seq in Hg. }
  destruct (bitmap_rows_spec index physical key_rows (fun r => group_addrs (Z.to_nat r)) RowSet0) as (out & -> & Hout).
  { intros r (g & o & -> & Hg%Hgl & _)%Hkeys. rewrite Nat2Z.id. destruct (group_at g Hg) as (_ & _ & o' & _ & Hw). split; [by eapply bh_bitmap|]. split.
    - apply Forall_forall. intros a (i & Hi & Ha)%group_addrs_elem. destruct (lookup_lt_is_Some_2 values i) as [v Hv]; [rewrite <- Hlen; by eapply lookup_lt_Some|].
      destruct (Hitem i v a Hv Ha) as (it & Hit & _ & ->). rewrite Forall_forall in Haddr. by apply Haddr.
    - unfold group_addrs, zlen. rewrite length_take, length_drop. destruct (values_length kind items) as [Hvl _]. unfold zlen in Hn. lia. }
  { intros f. unfold rows_of. cbn. rewrite lookup_empty. constructor. }
  cbn [mbind res_bind]. exists out. split; [done|]. intros f. destruct (Hout f) as [H1 H2]. split; [done|]. intros x. rewrite H2. split.
  - intros [Hx|(r & a & (g & o & -> & Hg & Hp)%Hkeys & Ha & Hf & ->)]; [unfold rows_of in Hx; cbn in Hx; rewrite lookup_empty in Hx; by apply elem_of_nil in Hx|].
    rewrite Nat2Z.id in Ha. apply group_addrs_elem in Ha as (i & [Hb He] & Ha). pose proof (Hgl g o Hg) as Hgl'.
    destruct (group_at g Hgl') as (Hst & Hend & o' & Hv' & Hw). rewrite list_lookup_fmap, Hw in Hg. injection Hg as <-. apply Hend in He as [Hil He].
    destruct (lookup_lt_is_Some_2 _ _ Hil) as [v Hv]. destruct (Hitem i v a Hv Ha) as (it & Hit & -> & ->). exists it. split_and!; [done.. |].
    rewrite (group_alike g _ i _ _ Hst Hb He Hv Hv'). done.
  - intros (it & Hit & Hf & <- & Hp). right.
    assert ((row_of items it, i_addr it) ∈ zip values ids) as Hin by (rewrite Hperm; apply list_elem_of_fmap; eauto).
    apply list_elem_of_lookup in Hin as [i Hi]. apply lookup_zip_with_Some in Hi as (o & a & [= <- <-] & Hv & Ha).
    destruct (start_before (group_starts sorted) i Hs) as (g & b & Hg & Hb & He).
    { exists 0%nat. split; [apply H0; by intros E; rewrite E in Hv | lia]. }
    pose proof (lookup_lt_Some _ _ _ Hg) as Hgl'. destruct (group_at g Hgl') as (Hst & Hend & o' & Hv' & Hw). rewrite Hg in Hst. injection Hst as Eb. subst b.
    exists (Z.of_nat g), (i_addr it). split_and!; [| | done | done].
    + apply Hkeys. exists g, o'. split_and!; [done | by rewrite list_lookup_fmap, Hw|]. rewrite <- (group_alike g _ i _ _ Hg Hb He Hv Hv'). done.
    + rewrite Nat2Z.id. apply group_addrs_elem. exists i. split; [|done]. split; [done|]. apply Hend. split; [by eapply lookup_lt_Some | done].
Qed.

End Bitmap.

(** C20: (refinement): searching a BITMAP answers the predicate exactly. The index holds the items of a column
    sorted and grouped by value ([sort_items], [write_bitmap]): a key per distinct value with the serialized
    addresses of its items, read back through its file; the column's values and the literals are in range, and
    the literals compare with the column. Then the search succeeds, and the rows it answers for each fragment,
    ascending and each once, are those of the items whose value passes the predicate when it is evaluated row
    by row. *)
Theorem bitmap_search_exact float_op type unit scale name kind threads group items p lits index physical :
  ScalarSort.key_kind_of type name = Ok kind -> zlen (its items) < 2 ^ 32 -> ScalarSort.items_ok kind items ->
  (forall s, ScalarSort.item_valued items s -> KeyOrder.value_fits type unit s) ->
  Forall (fun it => is_u64 (i_addr it)) (its items) ->
  with_literals p lits -> Forall (KeyOrder.literal_fits type scale) lits -> comparable type unit scale lits -> decided p ->
  bitmap_holds type items index (ScalarSort.sort_items threads items kind group) ->
  exists out, search_bitmap float_op type unit scale false p index physical RowSet0 = Ok (Some out) /\
    forall f, ascending (rows_of out f) /\ forall x, x ∈ rows_of out f <->
      exists it, it ∈ its items /\ RowSets.fragment_of (i_addr it) = f /\ u32 (i_addr it) = x /\ passes type unit scale p lits (row_of items it) = true.
Proof.
  intros Hk Hn Hi Hv Ha Hl Hf Hc Hd. rewrite ScalarSort.sort_items_eq by done. intros Hidx. by eapply search_bitmap_exact.
Qed.

(** The index of some items, in memory. *)
Definition loaded_bitmap (items : Items) (sorted : Sorted) : BitmapIndex :=
  mkBitmap (loaded (write_bitmap items sorted).*1) None (fun r => snd <$> write_bitmap items sorted !! Z.to_nat r).

Lemma loaded_bitmap_holds type items sorted :
  (forall s, ScalarSort.item_valued items s -> Expr.slot_ok type s) -> Expr.slot_ok type SNone ->
  bitmap_holds type items (loaded_bitmap items sorted) sorted.
Proof.
  intros Hs H0. split; cbn [bm_keys bm_bitmap loaded_bitmap].
  - split; [|apply loaded_rows]. apply loaded_ok; [|done]. intros s (e & E & (g & -> & _)%list_elem_of_fmap)%list_elem_of_fmap. cbn in E.
    eapply Hs, item_row_valued. symmetry. exact E.
  - intros g k bytes Hg. by rewrite Nat2Z.id, Hg.
Qed.

(** The sample of [ScalarIndex], 9, a null, -4 and 3, under BETWEEN 2 AND 9. *)
Lemma bitmap_search_witness :
  exists out, search_bitmap (fun _ a _ => a) INT64 Expr.Second 0 false sample_predicate
      (loaded_bitmap sample (ScalarSort.sort_items 2 sample KInt true)) ∅ RowSet0 = Ok (Some out) /\ 5 ∈ rows_of out 0 /\ 7 ∈ rows_of out 1 /\ 6 ∉ rows_of out 0.
Proof.
  destruct (bitmap_search_exact (fun _ a _ => a) INT64 Expr.Second 0 "v" KInt 2 true sample sample_predicate [VInt 2; VUInt 9]
    (loaded_bitmap sample (ScalarSort.sort_items 2 sample KInt true)) ∅) as (out & E & H); try done.
  - split; [done|]. apply sample_valued; cbn; lia.
  - apply sample_valued; cbn; lia.
  - repeat constructor; unfold is_u64; cbn; lia.
  - split; [done|]. repeat constructor; cbn; unfold is_u64; lia.
  - repeat constructor; cbn; unfold is_u64; lia.
  - constructor; [|constructor; [|constructor]]; right; intros s; by eexists.
  - apply loaded_bitmap_holds; [apply sample_valued|]; cbn; lia.
  - exists out. split; [exact E|]. split_and!.
    + apply (H 0). exists (ScalarSort.mkItem 0 0 5). split; [by left|]. vm_compute. done.
    + apply (H 1). exists (ScalarSort.mkItem 0 3 (2 ^ 32 + 7)). split; [by do 3 right; left|]. vm_compute. done.
    + intros (it & Hit & _ & Ha & Hp)%(H 0). repeat (apply elem_of_cons in Hit as [->|Hit]); [..|by apply elem_of_nil in Hit];
        (discriminate Ha || discriminate Hp).
Defined.

(** ** The rows of zones *)

(** Zones as ranges of addresses. *)
Definition zone_lo (z : Zone) : Z := z_fragment z * 2 ^ 32 + z_start z.
Definition zone_hi (z : Zone) : Z := zone_lo z + z_length z.
Definition zone_ok (z : Zone) : Prop := 0 <= z_fragment z < 2 ^ 32 /\ 0 <= z_start z /\ 0 < z_length z /\ z_start z + z_length z <= 2 ^ 32.

Lemma item_address it : is_u64 (i_addr it) -> i_addr it = ZoneMap.fragment it * 2 ^ 32 + ZoneMap.offset it /\ 0 <= ZoneMap.fragment it < 2 ^ 32.
Proof.
  unfold is_u64, ZoneMap.fragment. intros H. rewrite ZoneMap.offset_eq, Z.shiftr_div_pow2 by lia. unfold u32, wrap. change (2 ^ 32) with 4294967296. dlia.
Qed.

(** Zones cut from ascending addresses follow one another. *)
Lemma cut_zone_ordered items rows_per_zone zones zone_of count it (bound : Z) :
  StronglySorted (fun a b => zone_hi a <= zone_lo b) zones -> Forall (fun z => zone_ok z /\ zone_hi z <= bound) zones ->
  is_u64 (i_addr it) -> bound <= i_addr it ->
  StronglySorted (fun a b => zone_hi a <= zone_lo b) (cut_zone items rows_per_zone (zones, zone_of, count) it).1.1 /\
  Forall (fun z => zone_ok z /\ zone_hi z <= i_addr it + 1) (cut_zone items rows_per_zone (zones, zone_of, count) it).1.1.
Proof.
  intros Hs Hz Ha Hb. destruct (item_address it Ha) as [Ea Hf]. pose proof (ZoneMap.offset_range it) as Ho.
  destruct (ZoneMap.cut_zone_eq items rows_per_zone zones zone_of count it) as (init & z & Hcase & count' & ->). cbn [fst].
  assert (StronglySorted (fun a b => zone_hi a <= zone_lo b) init /\ Forall (fun z => zone_ok z /\ zone_hi z <= bound) init /\
    Forall (fun a => zone_hi a <= zone_lo z) init /\ z_fragment z = ZoneMap.fragment it /\ 0 <= z_start z <= ZoneMap.offset it) as (Hi & Hzi & Hiz & Hfz & Hsz).
  { destruct Hcase as [[-> Hfz]|[-> ->]].
    - apply StronglySorted_app in Hs as (Hiz & Hi & _). apply Forall_app in Hz as [Hzi [[(? & ? & ? & ?) Hzb] _]%Forall_cons].
      split_and!; try done; unfold zone_hi, zone_lo in *; [|lia]. apply Forall_forall. intros a Ha'. apply Hiz; [done | by left].
    - split_and!; cbn; try done; try lia. eapply Forall_impl; [exact Hz|]. cbn. intros a [_ ?]. unfold zone_lo. cbn. lia. }
  assert (zone_lo (ZoneMap.extended items it z) = zone_lo z /\ zone_hi (ZoneMap.extended items it z) = i_addr it + 1 /\ zone_ok (ZoneMap.extended items it z)) as (E1 & E2 & E3).
  { unfold zone_hi, zone_lo, zone_ok. cbn. rewrite u64_small by (unfold is_u64; lia). rewrite Hfz. split_and!; lia. }
  split.
  - apply StronglySorted_app. split_and!; [| done | repeat constructor]. intros a b Ha' ->%list_elem_of_singleton. rewrite E1. rewrite Forall_forall in Hiz. by apply Hiz.
  - apply Forall_app. split; [|constructor; [split; [done | lia] | constructor]]. eapply Forall_impl; [exact Hzi|]. cbn. intros a [? ?]. split; [done | lia].
Qed.

Lemma cut_zones_ordered items rows_per_zone :
  ascending (i_addr <$> its items) -> Forall (fun it => is_u64 (i_addr it)) (its items) ->
  StronglySorted (fun a b => zone_hi a <= zone_lo b) (cut_zones items rows_per_zone).1 /\ Forall zone_ok (cut_zones items rows_per_zone).1.
Proof.
  intros Hasc Hu. unfold cut_zones.
  assert (forall l s bound, ascending (i_addr <$> l) -> Forall (fun it => is_u64 (i_addr it)) l -> Forall (fun it => bound <= i_addr it) l ->
    StronglySorted (fun a b => zone_hi a <= zone_lo b) s.1.1 -> Forall (fun z => zone_ok z /\ zone_hi z <= bound) s.1.1 ->
    StronglySorted (fun a b => zone_hi a <= zone_lo b) (foldl (cut_zone items rows_per_zone) s l).1.1 /\
    Forall zone_ok (foldl (cut_zone items rows_per_zone) s l).1.1) as H.
  { induction l as [|it l IH]; intros [[zones zone_of] count] bound Ha Hul Hb Hs Hz; cbn [foldl].
    { split; [done|]. eapply Forall_impl; [exact Hz|]. by intros ? []. }
    rewrite fmap_cons in Ha. apply ascending_cons in Ha as [Ha Hnext]. apply Forall_cons in Hul as [Hu1 Hul]. apply Forall_cons in Hb as [Hb1 Hb].
    destruct (cut_zone_ordered items rows_per_zone zones zone_of count it bound Hs Hz Hu1 Hb1) as [S1 S2]. apply (IH _ (i_addr it + 1)); try done.
    rewrite Forall_fmap in Hnext. eapply Forall_impl; [exact Hnext|]. unfold compose. cbn. intros. lia. }
  apply (H _ _ 0); try done; try constructor. eapply Forall_impl; [exact Hu|]. unfold is_u64. cbn. intros. lia.
Qed.

Lemma core_ordered zs zs' :
  ZoneMap.core <$> zs = ZoneMap.core <$> zs' -> StronglySorted (fun a b => zone_hi a <= zone_lo b) zs' /\ Forall zone_ok zs' ->
  StronglySorted (fun a b => zone_hi a <= zone_lo b) zs /\ Forall zone_ok zs.
Proof.
  assert (forall a b, ZoneMap.core a = ZoneMap.core b -> zone_lo a = zone_lo b /\ zone_hi a = zone_hi b /\ (zone_ok b -> zone_ok a)) as Hc.
  { intros [] []. unfold zone_hi, zone_lo, zone_ok, ZoneMap.core. cbn. intros [= -> -> -> ->]. done. }
  intros E%(proj1 (list_eq_Forall2 _ _)). rewrite Forall2_fmap in E. unfold compose in E. induction E as [|z z' zs zs' E1 E2 IH]; intros [Hs Hz]; [done|].
  apply Forall_cons in Hz as [Hz Hzs]. inversion Hs as [|? ? Hs' Hf]; subst. destruct (IH ltac:(done)) as [I1 I2]. destruct (Hc z z' E1) as (_ & Eh & Ho).
  split; constructor; [done | | by apply Ho | done]. apply Forall_forall. intros y (i & Hi)%list_elem_of_lookup.
  destruct (Forall2_lookup_l _ _ _ _ _ E2 Hi) as (y' & Hy' & Ey). destruct (Hc y y' Ey) as (El & _ & _). rewrite Eh, El.
  rewrite Forall_forall in Hf. apply Hf. by eapply list_elem_of_lookup_2.
Qed.

Lemma ascending_in_order l : ascending (i_addr <$> l) -> Forall (fun it => is_u64 (i_addr it)) l -> ZoneMap.in_order l.
Proof.
  intros Ha Hu i a b Hi Hj Hf. rewrite Forall_forall in Hu. pose proof (Hu a ltac:(by eapply list_elem_of_lookup_2)). pose proof (Hu b ltac:(by eapply list_elem_of_lookup_2)).
  destruct (item_address a) as [Ea _]; [done|]. destruct (item_address b) as [Eb _]; [done|].
  assert (i_addr a < i_addr b); [|lia]. eapply (sorted_lookup Z.lt (i_addr <$> l) i (S i)); [done | lia | by rewrite list_lookup_fmap, Hi | by rewrite list_lookup_fmap, Hj].
Qed.

Lemma zones_of_ordered items type kind rows_per_zone :
  zlen (its items) < 2 ^ 32 -> ascending (i_addr <$> its items) -> Forall (fun it => is_u64 (i_addr it)) (its items) ->
  StronglySorted (fun a b => zone_hi a <= zone_lo b) (ZoneMap.zones_of items type kind rows_per_zone) /\ Forall zone_ok (ZoneMap.zones_of items type kind rows_per_zone).
Proof.
  intros Hn Ha Hu. pose proof (cut_zones_ordered items rows_per_zone Ha Hu) as Ho. unfold ZoneMap.zones_of.
  destruct (ZoneMap.cut_zones_inv items rows_per_zone Hn (ascending_in_order _ Ha Hu)) as (zones & zone_of & E & [C1 C2 C3 C4 C5]). rewrite E in *. cbn [fst] in Ho.
  unfold zone_extrema_of. eapply core_ordered; [|exact Ho].
  pose proof (ZoneMap.zone_extrema_inv items zone_of (key_lt_of items kind)
    (fun k => match kind with Float16 | Float32 | Float64 => true | _ => false end && slot_nan type (pick_slot items k))
    (Hweak := ZoneMap.key_lt_weak items kind) Hn zones C1 (fun z Hz => proj2 (C3 z Hz))) as [E1 _ _]. exact E1.
Qed.

(** The rows pushed for a fragment, zone after zone. *)
Lemma push_zones_ascending zs keep r f :
  StronglySorted (fun a b => zone_hi a <= zone_lo b) zs -> Forall zone_ok zs -> ascending (default [] (r !! f)) ->
  (forall x z, x ∈ default [] (r !! f) -> z ∈ zs -> z_fragment z = f -> x < z_start z) ->
  ascending (default [] (foldl push_zone r (zip keep (zip (z_fragment <$> zs) (zip (z_start <$> zs) (z_length <$> zs)))) !! f)).
Proof.
  intros Hs Hz. revert keep r. induction Hs as [|z zs Hs IH Hf]; intros [|k keep] r Hr Hx; [done..|]. apply Forall_cons in Hz as [(Z1 & Z2 & Z3 & Z4) Hz].
  rewrite !fmap_cons. cbn [zip zip_with foldl]. apply IH; [done | |].
  - unfold push_zone. destruct k; [|done]. rewrite RowSets.push_rows_spec, (u32_small (z_fragment z)) by done. destruct (Z.eqb_spec (z_fragment z) f) as [Ef|]; [|by rewrite app_nil_r].
    rewrite u64_small by (unfold is_u64; lia). replace (z_start z + z_length z - z_start z) with (z_length z) by lia.
    assert (u32 <$> seqZ (z_start z) (z_length z) = seqZ (z_start z) (z_length z)) as ->.
    { transitivity (id <$> seqZ (z_start z) (z_length z)); [|apply list_fmap_id]. apply list_fmap_ext. intros i x Hi%list_elem_of_lookup_2%elem_of_seqZ.
      apply (u32_small x). unfold is_u32. lia. }
    apply ascending_app. split_and!; [done | apply seqZ_ascending|]. intros x y Hin Hy%elem_of_seqZ. specialize (Hx x z Hin ltac:(by left) Ef). lia.
  - intros x z' Hin Hz' Ef. rewrite Forall_forall in Hf, Hz. specialize (Hf z' Hz'). destruct (Hz z' Hz') as (? & ? & ? & ?).
    unfold push_zone in Hin. destruct k; [|apply (Hx x z'); [done | by right | done]].
    rewrite RowSets.push_rows_spec, (u32_small (z_fragment z)) in Hin by done. apply elem_of_app in Hin as [Hin|Hin]; [apply (Hx x z'); [done | by right | done]|].
    destruct (Z.eqb_spec (z_fragment z) f) as [Ef'|]; [|by apply elem_of_nil in Hin]. apply list_elem_of_fmap in Hin as (y & -> & Hy%elem_of_seqZ).
    rewrite u64_small in Hy by (unfold is_u64; lia). rewrite u32_small by (unfold is_u32; lia). unfold zone_hi, zone_lo in Hf. rewrite Ef, Ef' in Hf. lia.
Qed.

(** What a zone map answers is in order. *)
Lemma zonemap_rows_ascending type index items kind rows_per_zone is_float keep :
  zlen (its items) < 2 ^ 32 -> ascending (i_addr <$> its items) -> Forall (fun it => is_u64 (i_addr it)) (its items) ->
  ZoneMap.zonemap_holds type index (write_zonemap items is_float false (ZoneMap.zones_of items type kind rows_per_zone)).1 ->
  forall f, ascending (rows_of (push_zones RowSet0 keep (zm_fragment index) (zm_start index) (zm_length index)) f) /\
    forall x, x ∈ rows_of (push_zones RowSet0 keep (zm_fragment index) (zm_start index) (zm_length index)) f -> is_u32 f /\ is_u32 x.
Proof.
  intros Hn Ha Hu Hidx f. destruct (zones_of_ordered items type kind rows_per_zone Hn Ha Hu) as [Hs Hz]. split.
  - unfold rows_of, push_zones, with_rows. cbn [rows RowSets.RowSet0].
    rewrite (ZoneMap.zh_fragment _ _ _ Hidx), (ZoneMap.zh_start _ _ _ Hidx), (ZoneMap.zh_length _ _ _ Hidx). unfold write_zonemap. cbn [fst].
    rewrite <- !list_fmap_compose. apply (push_zones_ascending (ZoneMap.zones_of items type kind rows_per_zone) keep ∅ f Hs Hz).
    + rewrite lookup_empty. constructor.
    + intros x z. rewrite lookup_empty. by intros ?%elem_of_nil.
  - unfold rows_of, push_zones, with_rows. cbn [rows RowSets.RowSet0]. intros x [Hx|(a & b & c & _ & <- & (y & -> & _)%list_elem_of_fmap)]%ZoneMap.push_zones_rows.
    + rewrite lookup_empty in Hx. by apply elem_of_nil in Hx.
    + split; apply u32_range.
Qed.

End SegmentSearch.
