(* ===== verification/IndexSearch.v ===== *)
(** * Index search: the rows a filter's indices leave (src/index/index_search.cpp, src/expr/expr.cpp)

    A filter is seen as AND, OR and NOT over predicates ([conditions]); each predicate is answered by the
    indices of its column, an index by its segments ([predicate]): the segment's index is searched, its rows
    are translated to where they are now, and the fragments it is stale for are left to the scan. The answers
    are combined ([condition]) and cut to the fragments of the version ([index_candidates]).

    Outside this file: the index files, which [Files] gives as they are loaded, the conversion of a constant
    to a column's type ([constant_as]), the column's Arrow type, the trigrams of a text and the text of a
    predicate, which only the query plan shows. *)

From S2P Require Import Prelude ProtoWire Roaring Pb Json Int128 Decimal Expr Overlays FragReuse RowIdIndex Bloom StableSort ScalarSort.
From S2P Require Import KeyOrder RowSets ScalarIndex ZoneMap BasePaths.

Module IndexSearch.
Import Expr (Value(..), Double(..), TimeUnit, ArrowType(..), ArrayView, Slot(..), View, ColumnRef, CmpOp(..), Node, Literal, Column,
  get_double, get_int, get_bits, get_bytes, eval, flip).
Import RowSets (RowSet, mkRowSet, RowSet0, covered, rows, rows_of, exact, with_rows, unite, both, either, push_rows).
Import ScalarIndex (Test(..), Predicate, mkPredicate, p_test, p_op, p_constants, BTreeIndex, ZoneMapIndex, BitmapIndex,
  search_btree, search_zonemap, search_bitmap, push_zones).

#[local] Existing Instance ScalarIndex.Test_eq_dec.

(** ** Conditions *)

(** A JSON accessor a test reads its column through. *)
Record JsonAccess := mkJson { ja_path : string; ja_function : string }.

(** A predicate with its column. *)
Record Pred := mkPred { pr_column : ColumnRef; pr_json : option JsonAccess; pr_test : Predicate }.

Inductive Condition :=
  | CAnd (a b : Condition)
  | COr (a b : Condition)
  | CNot (a : Condition)
  | CPredicate (p : Pred)
  | COther.

(** Nothing of the node reads a column. *)
Fixpoint constant (n : Node) : bool :=
  match n with
  | Literal _ => true
  | Column _ => false
  | Expr.And a b | Expr.Or a b | Expr.Compare _ a b | Expr.Arith _ a b => constant a && constant b
  | Expr.Not a | Expr.IsNull a | Expr.IsNotNull a | Expr.Truth _ a | Expr.Neg a => constant a
  | Expr.In _ a items => constant a && forallb constant items
  | Expr.Between _ a lo hi => constant a && constant lo && constant hi
  end.

Definition column_of (n : Node) : option ColumnRef := match n with Column c => Some c | _ => None end.

Definition leaf (c : ColumnRef) (t : Test) (op : CmpOp) (constants : list Node) : Condition :=
  CPredicate (mkPred c None (mkPredicate t op constants)).

(** [Walk::at]. *)
Fixpoint conditions (n : Node) : Condition :=
  match n with
  | Expr.And a b => CAnd (conditions a) (conditions b)
  | Expr.Or a b => COr (conditions a) (conditions b)
  | Expr.Not a => CNot (conditions a)
  | Expr.Compare op a b =>
      match (if constant b then column_of a else None) with
      | Some c => leaf c TCompare op [b]
      | None =>
          match (if constant a then column_of b else None) with
          | Some c => leaf c TCompare (flip op) [a]
          | None => COther
          end
      end
  | Expr.In false a items =>
      match (if forallb constant items then column_of a else None) with
      | Some c => leaf c TIn Eq items
      | None => COther
      end
  | Expr.Between false a lo hi =>
      match (if constant lo && constant hi then column_of a else None) with
      | Some c => leaf c TBetween Eq [lo; hi]
      | None => COther
      end
  | Expr.IsNull a => match column_of a with Some c => leaf c TIsNull Eq [] | None => COther end
  | Expr.IsNotNull a => match column_of a with Some c => leaf c TIsNotNull Eq [] | None => COther end
  | _ => COther
  end.

(** ** Index files *)

(** The type of a column, with its Arrow format. *)
Record ColumnType := mkType { ct_type : ArrowType; ct_unit : TimeUnit; ct_scale : Z; ct_format : string }.

(** A row of bloomfilter.lance. *)
Record BloomZone := mkBloomZone { bz_fragment : Z; bz_start : Z; bz_length : Z; bz_has_null : bool; bz_filter : list Z }.

(** ngram_postings.lance: the file row of each token, and the posting list of a row. *)
Record NGramIndex := mkNGram { ng_rows : gmap Z Z; ng_posting : Z -> option (list Z) }.

Record Files := mkFiles {
  load_btree : string -> res (ColumnType * BTreeIndex);
  load_zonemap : string -> res (ColumnType * ZoneMapIndex);
  load_bitmap : string -> res (ColumnType * BitmapIndex);
  load_bloomfilter : string -> res (list BloomZone);
  load_ngram : string -> res NGramIndex }.

(** [Search]: the version, its fragments' rows, its row ids and the moves of a deferred compaction. *)
Record Search := mkSearch {
  s_dataset_path : string;
  s_manifest : pb.Manifest;
  s_physical : gmap Z Z;
  s_row_ids : RowIdIndex.RowIdToAddress;
  s_frag_reuse : option (list FragReuse.Step) }.

(** What the search calls outside this file. *)
Record Env := mkEnv {
  e_float_op : Expr.ArithOp -> Double -> Double -> Double;
  e_files : Files;
  e_constant_as : Node -> ArrowType -> res (option Slot);
  e_column_type : pb.Field -> res ColumnType;
  e_data_file : list Z -> option pb.DataFile;
  e_type_string : ArrowType -> string;
  e_ngram_tokens : list Z -> list Z;
  e_to_string : Pred -> string;
  e_path : ColumnRef -> list string }.

Section Search.
Context (env : Env).
Notation float_op := (e_float_op env).
Notation files := (e_files env).
Notation constant_as := (e_constant_as env).
Notation arrow_column_type := (e_column_type env).
Notation parse_data_file := (e_data_file env).
Notation type_string := (e_type_string env).
Notation ngram_tokens := (e_ngram_tokens env).
Notation to_string := (e_to_string env).
Notation path := (e_path env).

(** ** Bloom filters *)

Definition bloom_value_width (type : ArrowType) : res Z :=
  match type with
  | INT8 | UINT8 => Ok 1
  | INT16 | UINT16 => Ok 2
  | INT32 | UINT32 | FLOAT | DATE32 | TIME32 => Ok 4
  | INT64 | UINT64 | DOUBLE | DATE64 | TIME64 | TIMESTAMP => Ok 8
  | STRING | LARGE_STRING | BINARY | LARGE_BINARY => Ok 0
  | _ => Err ("a BLOOMFILTER index on a column of type " +:+ type_string type +:+ " is not supported")
  end.

(** The bytes of a value in its buffer. *)
Definition value_bytes (type : ArrowType) (s : Slot) (width : Z) : list Z :=
  if width =? 0 then get_bytes s
  else le_bytes (Z.to_nat width) (match type with FLOAT | DOUBLE => get_bits s | _ => wrap (8 * width) (get_int s) end).
Definition bloom_hash (type : ArrowType) (s : Slot) (width : Z) : Z := Bloom.xxh64 (value_bytes type s width).

Definition bloom_floating (type : ArrowType) : bool := match type with FLOAT | DOUBLE => true | _ => false end.
Definition bloom_temporal (type : ArrowType) : bool := match type with DATE32 | DATE64 | TIME32 | TIME64 | TIMESTAMP => true | _ => false end.

(** A zero or a NaN: values of other bit patterns match it. *)
Definition zero_or_nan (type : ArrowType) (s : Slot) : bool :=
  match get_double type s with NaN _ => true | Num (Json.Finite m _) => m =? 0 | Num (Json.Infinite _) => false end.

(** The hashes to probe with, or [None] to keep every zone; [Err] when a constant does not convert. *)
Fixpoint bloom_hashes (type : ArrowType) (width : Z) (constants : list Node) (hashes : list Z) : res (option (list Z)) :=
  match constants with
  | [] => Ok (Some hashes)
  | c :: constants =>
      v ← constant_as c type;
      match v with
      | None => bloom_hashes type width constants hashes
      | Some s =>
          if bloom_floating type && zero_or_nan type s then Ok None
          else bloom_hashes type width constants (hashes ++ [bloom_hash type s width])
      end
  end.

Definition bloom_equal (p : Predicate) : bool :=
  match p_test p with TIn => true | TCompare => match p_op p with Eq => true | _ => false end | _ => false end.

(** Each zone's filter probed. *)
Fixpoint probe_zones (zones : list BloomZone) (hashes : list Z) : res (list bool) :=
  match zones with
  | [] => Ok []
  | z :: zones =>
      let size := zlen (bz_filter z) in
      if (size <? 32) || negb (Z.land size (size - 1) =? 0)
      then Err "bloom filter index: a zone's filter is not a power of two of at least 32 bytes"
      else keep ← probe_zones zones hashes; Ok (existsb (Bloom.may_contain (bz_filter z) size) hashes :: keep)
  end.

Definition bloom_keep (zones : list BloomZone) (column : ColumnType) (p : Predicate) : res (option (list bool)) :=
  match p_test p with
  | TIsNull => Ok (Some (bz_has_null <$> zones))
  | _ =>
      width ← bloom_value_width (ct_type column);
      if bloom_temporal (ct_type column) then Ok (Some ((fun _ => true) <$> zones))
      else match bloom_hashes (ct_type column) width (p_constants p) [] with
           | Err _ => Ok None
           | Ok None => Ok (Some ((fun _ => true) <$> zones))
           | Ok (Some hashes) => keep ← probe_zones zones hashes; Ok (Some keep)
           end
  end.

Definition search_bloomfilter (dir : string) (column : ColumnType) (p : Predicate) (out : RowSet) : res (option RowSet) :=
  if negb (bool_decide (p_test p = TIsNull)) && negb (bloom_equal p) then Ok None
  else
    zones ← load_bloomfilter files dir;
    keep ← bloom_keep zones column p;
    match keep with
    | None => Ok None
    | Some keep => Ok (Some (push_zones out keep (bz_fragment <$> zones) (bz_start <$> zones) (bz_length <$> zones)))
    end.

(** ** Trigrams *)

(** UTF-8 code points. *)
Definition characters (text : list Z) : Z := zlen (filter (fun c => Z.land c 0xC0 <> 0x80) text).

Definition intersect64 := RowSets.intersect.

(** The ids of every posting list, intersected. *)
Fixpoint common_ids (postings : list (option (list Z))) (common : option (list Z)) : res (list Z) :=
  match postings with
  | [] => Ok (default [] common)
  | None :: postings => common_ids postings common
  | Some bytes :: postings =>
      ids ← Roaring.decode_treemap bytes;
      common_ids postings (Some (match common with None => ids | Some c => intersect64 c ids end))
  end.

Definition push_id (r : gmap Z (list Z)) (id : Z) : gmap Z (list Z) := push_rows (u32 (Z.shiftr id 32)) [u32 id] r.

Definition search_ngram (dir : string) (p : Predicate) (out : RowSet) : res (option RowSet) :=
  match p_test p, p_constants p with
  | TContains, [c] =>
      needle ← constant_as c STRING;
      match needle with
      | None => Ok None
      | Some s =>
          if characters (get_bytes s) <? 3 then Ok None
          else
            let tokens := ngram_tokens (get_bytes s) in
            if bool_decide (tokens = []) then Ok None
            else
              index ← load_ngram files dir;
              match mapM (fun t => ng_rows index !! t) tokens with
              | None => Ok (Some out)
              | Some at_ =>
                  common ← common_ids (ng_posting index <$> at_) None;
                  Ok (Some (with_rows out (foldl push_id (rows out) common)))
              end
      end
  | _, _ => Ok None
  end.

(** ** JSON indices *)

(** [json_index_path]: the first field 1, or the empty path of a message without one. *)
Definition json_index_path (details : list Z) : option string :=
  let '(fs, ok) := ProtoWire.fields details in
  match List.find (fun f => (ProtoWire.number f =? 1) && (ProtoWire.wire f =? 2)) fs with
  | Some f => Some (string_of_bytes (ProtoWire.field_bytes f))
  | None => if ok then Some "" else None
  end.

Definition accessor_format (fn : string) : string :=
  if String.eqb fn "json_get_int" then "l" else if String.eqb fn "json_get_float" then "g" else if String.eqb fn "json_get_bool" then "b" else "u".

Definition accessor_literal (fn : string) (v : Value) : bool :=
  if String.eqb fn "json_get_int" then match v with VInt _ => true | _ => false end
  else if String.eqb fn "json_get_float" then match v with VInt _ | VDouble _ => true | _ => false end
  else if String.eqb fn "json_get_bool" then match v with VBool _ => true | _ => false end
  else match v with VString _ => true | _ => false end.

Definition bool_equality (p : Predicate) : bool :=
  match p_test p with TIn => true | TCompare => match p_op p with Eq | Ne => true | _ => false end | _ => false end.

Definition routes_to_json_index (p : Pred) (value_format : string) : bool :=
  match pr_json p with
  | None => false
  | Some j =>
      String.eqb value_format (accessor_format (ja_function j)) &&
      forallb (fun c => match c with Literal v => accessor_literal (ja_function j) v | _ => false end) (p_constants (pr_test p)) &&
      negb (String.eqb (ja_function j) "json_get_bool" && bool_equality (pr_test p))
  end.

Definition search_btree_of (t : ColumnType) (p : Predicate) (index : BTreeIndex) (out : RowSet) : res (option RowSet) :=
  search_btree float_op (ct_type t) (ct_unit t) (ct_scale t) p index out.

Definition search_json (dir : string) (index : pb.IndexMetadata) (p : Pred) (out : RowSet) : res (option RowSet) :=
  match json_index_path (pb.ix_details_value index) with
  | None => Err "json index: malformed JsonIndexDetails"
  | Some at_ =>
      match pr_json p with
      | None => Ok None
      | Some j =>
          if negb (String.eqb at_ (ja_path j)) || negb (length (pb.ix_files index) =? 2)%nat then Ok None
          else
            b ← load_btree files dir;
            if negb (routes_to_json_index p (ct_format b.1)) then Ok None else search_btree_of b.1 (pr_test p) b.2 out
      end
  end.

(** ** One segment *)

Definition kJson : string := "/lance.index.pb.JsonIndexDetails".
Definition kBloom : string := "/lance.index.pb.BloomFilterIndexDetails".
Definition kZoneMap : string := "/lance.table.ZoneMapIndexDetails".
Definition kBTree : string := "/lance.table.BTreeIndexDetails".
Definition kBitmap : string := "/lance.table.BitmapIndexDetails".
Definition kLabelList : string := "/lance.table.LabelListIndexDetails".
Definition kNGram : string := "/lance.table.NGramIndexDetails".

Definition zoned (index : pb.IndexMetadata) : bool :=
  String.eqb (pb.ix_details_type_url index) kZoneMap || String.eqb (pb.ix_details_type_url index) kBloom.

Definition is_json (index : pb.IndexMetadata) : bool := String.eqb (pb.ix_details_type_url index) kJson.
Definition has_json (p : Pred) : bool := match pr_json p with Some _ => true | None => false end.

Definition has_files (index : pb.IndexMetadata) : bool := negb (bool_decide (pb.ix_files index = [])).
Definition btree_files (index : pb.IndexMetadata) : bool :=
  (length (pb.ix_files index) =? 2)%nat && existsb (fun f => String.eqb f.1 "page_lookup.lance") (pb.ix_files index).

(** The search by kind: the answer, if any, and whether answers of the kind are exact. *)
Definition search_segment (physical : gmap Z Z) (field : pb.Field) (p : Pred) (dir : string) (index : pb.IndexMetadata) : res (option RowSet * bool) :=
  let kind := pb.ix_details_type_url index in
  if is_json index then one ← search_json dir index p RowSet0; Ok (one, false)
  else if String.eqb kind kBTree && btree_files index then
    b ← load_btree files dir; one ← search_btree_of b.1 (pr_test p) b.2 RowSet0; Ok (one, true)
  else if String.eqb kind kBloom && has_files index then
    column ← arrow_column_type field; one ← search_bloomfilter dir column (pr_test p) RowSet0; Ok (one, false)
  else if zoned index && has_files index then
    z ← load_zonemap files dir;
    one ← search_zonemap float_op (ct_type z.1) (ct_unit z.1) (ct_scale z.1) (pr_test p) z.2 RowSet0; Ok (one, false)
  else if (String.eqb kind kBitmap || String.eqb kind kLabelList) && has_files index then
    b ← load_bitmap files dir;
    one ← search_bitmap float_op (ct_type b.1) (ct_unit b.1) (ct_scale b.1) (String.eqb kind kLabelList) (pr_test p) b.2 physical RowSet0;
    Ok (one, String.eqb kind kBitmap)
  else if String.eqb kind kNGram && has_files index then one ← search_ngram dir (pr_test p) RowSet0; Ok (one, false)
  else Ok (None, false).

(** ** Where the rows are now *)

Definition packed (f o : Z) : Z := Z.lor (Z.shiftl f 32) o.

Definition remap_offset (fri : list FragReuse.Step) (f : Z) (r : gmap Z (list Z)) (o : Z) : gmap Z (list Z) :=
  match FragReuse.resolve fri (packed f o) with FragReuse.At to => push_rows (u32 (Z.shiftr to 32)) [u32 to] r | _ => r end.
Definition remap_fragment (fri : list FragReuse.Step) (r : gmap Z (list Z)) (e : Z * list Z) : gmap Z (list Z) :=
  if negb (FragReuse.touches fri e.1) then push_rows e.1 e.2 r else foldl (remap_offset fri e.1) r e.2.
(** The map's entries by key. *)
Definition by_fragment (r : gmap Z (list Z)) : list (Z * list Z) :=
  (fun f => (f, default [] (r !! f))) <$> merge_sort Z.le (elements (dom r)).
Definition remap_rows (fri : list FragReuse.Step) (s : RowSet) : RowSet :=
  with_rows s (sort_unique <$> foldl (remap_fragment fri) ∅ (by_fragment (rows s))).

Definition address_offset (ids : RowIdIndex.RowIdToAddress) (high : Z) (r : gmap Z (list Z)) (o : Z) : gmap Z (list Z) :=
  match RowIdIndex.RowIdToAddress_find ids (packed high o) with Some a => push_rows (u32 (Z.shiftr a 32)) [u32 a] r | None => r end.
Definition address_fragment (ids : RowIdIndex.RowIdToAddress) (r : gmap Z (list Z)) (e : Z * list Z) : gmap Z (list Z) :=
  foldl (address_offset ids e.1) r e.2.
Definition to_addresses (ids : RowIdIndex.RowIdToAddress) (s : RowSet) : RowSet :=
  if negb (RowIdIndex.to_stable ids) then s
  else with_rows s (merge_sort Z.le <$> foldl (address_fragment ids) ∅ (by_fragment (rows s))).

(** ** The column of a predicate *)

Definition lower_name (s : string) : string :=
  string_of_bytes ((fun b => if (65 <=? b) && (b <=? 90) then b + 32 else b) <$> bytes_of_string s).

Definition find_field (fields : list pb.Field) (parent : Z) (name : string) : option pb.Field :=
  match List.find (fun f => (pb.fld_parent_id f =? parent) && String.eqb (pb.fld_name f) name) fields with
  | Some f => Some f
  | None =>
      match List.filter (fun f => (pb.fld_parent_id f =? parent) && String.eqb (lower_name (pb.fld_name f)) (lower_name name)) fields with
      | [f] => Some f
      | _ => None
      end
  end.

Fixpoint walk_fields (fields : list pb.Field) (parent : Z) (at_ : option pb.Field) (path : list string) : option pb.Field :=
  match path with
  | [] => at_
  | p :: path =>
      match find_field fields parent p with
      | None => None
      | Some f => walk_fields fields (pb.fld_id f) (Some f) path
      end
  end.

Definition joined (path : list string) : string :=
  foldl (fun j p => j +:+ (if String.eqb j "" then "" else ".") +:+ p) "" path.

Definition field_of (fields : list pb.Field) (path : list string) : option pb.Field :=
  match (if (1 <? length path)%nat then find_field fields (-1) (joined path) else None) with
  | Some f => Some f
  | None => walk_fields fields (-1) None path
  end.

(** ** The indices of a predicate *)

Section Dataset.
Context (search : Search).
Notation dataset_path := (s_dataset_path search).
Notation manifest := (s_manifest search).
Notation physical := (s_physical search).
Notation row_ids := (s_row_ids search).
Notation frag_reuse := (s_frag_reuse search).

(** The segments of the indices of a field, by name, in the manifest's order. *)
Definition indexes_field (field : pb.Field) (index : pb.IndexMetadata) : bool :=
  match pb.ix_fields index with [f] => f =? pb.fld_id field | _ => false end && pb.ix_has_fragment_bitmap index.
Fixpoint add_segment (index : pb.IndexMetadata) (by_name : list (string * list pb.IndexMetadata)) : list (string * list pb.IndexMetadata) :=
  match by_name with
  | [] => [(pb.ix_name index, [index])]
  | (name, segments) :: rest =>
      if String.eqb name (pb.ix_name index) then (name, segments ++ [index]) :: rest else (name, segments) :: add_segment index rest
  end.
Definition segments_by_name (field : pb.Field) : list (string * list pb.IndexMetadata) :=
  foldl (fun by_name index => if indexes_field field index then add_segment index by_name else by_name) [] (pb.mf_indices manifest).

(** The rows a segment answers, as addresses of the version. *)
Definition translate (index : pb.IndexMetadata) (one : RowSet) : RowSet :=
  let one := match frag_reuse with
             | Some fri => if negb (RowIdIndex.to_stable row_ids) then remap_rows fri one else one
             | None => one
             end in
  if negb (zoned index) then to_addresses row_ids one else one.

(** The fragments it answers for. *)
Definition coverage (index : pb.IndexMetadata) : gset Z :=
  list_to_set (match frag_reuse with Some fri => FragReuse.remap_coverage fri (pb.ix_fragment_ids index) | None => pb.ix_fragment_ids index end) ∖
  Overlays.fragments_stale_for_index parse_data_file manifest (pb.ix_fields index) (pb.ix_dataset_version index).

Definition unite_into (cov : gset Z) (f : Z) (l : list Z) (r : gmap Z (list Z)) : gmap Z (list Z) :=
  if bool_decide (f ∈ cov) then let to := default [] (r !! f) in <[f := if bool_decide (to = []) then l else unite to l]> r else r.
Definition merge_segment (set one : RowSet) (cov : gset Z) : RowSet :=
  mkRowSet (covered set ∪ cov) (map_fold (unite_into cov) (rows set) (rows one)) (exact set).

(** The segments of one index: the union of their answers and whether all are exact, or nothing. *)
Fixpoint search_segments (field : pb.Field) (p : Pred) (segments : list pb.IndexMetadata) (set : RowSet) (exact_all : bool)
    : res (option (RowSet * bool)) :=
  match segments with
  | [] => Ok (Some (set, exact_all))
  | index :: segments =>
      dir ← BasePaths.index_dir_of dataset_path manifest index;
      if negb (Bool.eqb (is_json index) (has_json p)) then Ok None
      else
        one ← search_segment physical field p dir index;
        match one with
        | (None, _) => Ok None
        | (Some one, exact_segment) =>
            search_segments field p segments (merge_segment set (translate index one) (coverage index)) (exact_all && exact_segment)
        end
  end.

Definition covers_live (set : RowSet) : bool := existsb (fun f => bool_decide (u32 (pb.fr_id f) ∈ covered set)) (pb.mf_fragments manifest).

(** The line of the query plan. *)
Fixpoint after_dot (s acc : string) : string :=
  match s with "" => acc | String c s' => after_dot s' (if Ascii.eqb c (Json.chr 46) then s' else acc) end.
Definition used_line (p : Pred) (name url : string) : string :=
  let t := after_dot url url in
  let t := String.substring 0 (String.length t - String.length "IndexDetails") t in
  "ScalarIndexQuery: query=[" +:+ to_string p +:+ "]@" +:+ name +:+ "(" +:+ (if String.eqb t "Json" then "BTree" else t) +:+ ")".

(** The first index that answers. *)
Fixpoint first_answer (field : pb.Field) (p : Pred) (by_name : list (string * list pb.IndexMetadata)) : res (option (RowSet * string)) :=
  match by_name with
  | [] => Ok None
  | (name, segments) :: rest =>
      a ← search_segments field p segments RowSet0 true;
      match a with
      | Some (set, exact_all) =>
          if covers_live set
          then Ok (Some (mkRowSet (covered set) (rows set) exact_all,
                         used_line p name (match segments with s :: _ => pb.ix_details_type_url s | [] => "" end)))
          else first_answer field p rest
      | None => first_answer field p rest
      end
  end.

Definition predicate (p : Pred) : res (option RowSet * list string) :=
  match field_of (pb.mf_fields manifest) (path (pr_column p)) with
  | None => Ok (None, [])
  | Some field =>
      a ← first_answer field p (segments_by_name field);
      Ok (match a with Some (set, line) => (Some set, [line]) | None => (None, []) end)
  end.

(** ** The filter *)

Definition prunes (s : RowSet) : RowSet := mkRowSet (covered s) (rows s) false.

Fixpoint condition (c : Condition) : res (option RowSet * list string) :=
  match c with
  | CPredicate p => predicate p
  | CAnd ca cb =>
      a ← condition ca; b ← condition cb;
      Ok (match a.1, b.1 with
          | Some x, Some y => Some (both x y)
          | Some x, None => Some (prunes x)
          | None, Some y => Some (prunes y)
          | None, None => None
          end, a.2 ++ b.2)
  | COr ca cb =>
      a ← condition ca; b ← condition cb;
      Ok (match a.1, b.1 with Some x, Some y => Some (either x y) | _, _ => None end, a.2 ++ b.2)
  | CNot _ | COther => Ok (None, [])
  end.

End Dataset.

Record IndexCandidates := mkCandidates { ic_rows : gmap Z (list Z); ic_used : list string; ic_exact : bool }.
Definition IndexCandidates0 : IndexCandidates := mkCandidates ∅ [] false.

Definition physical_of (manifest : pb.Manifest) : gmap Z Z :=
  foldl (fun m f => <[u32 (pb.fr_id f) := pb.fr_physical_rows f]> m) ∅ (pb.mf_fragments manifest).

(** The covered fragments of the version, with their rows. *)
Definition candidate_rows (physical : gmap Z Z) (answer : RowSet) : gmap Z (list Z) :=
  set_to_map (fun f => (f, rows_of answer f)) (covered answer ∩ dom physical).

Definition index_candidates (dataset_path : string) (manifest : pb.Manifest)
    (load_frag_reuse : res (option (list FragReuse.Step))) (build_row_ids : res RowIdIndex.RowIdToAddress) (filter : Node)
    : res IndexCandidates :=
  if bool_decide (pb.mf_indices manifest = []) then Ok IndexCandidates0
  else
    frag_reuse ← load_frag_reuse;
    resolver ← build_row_ids;
    let physical := physical_of manifest in
    answer ← condition (mkSearch dataset_path manifest physical resolver frag_reuse) (conditions filter);
    Ok (match answer with
        | (None, _) => IndexCandidates0
        | (Some answer, used) => mkCandidates (candidate_rows physical answer) used (exact answer)
        end).

End Search.

End IndexSearch.
