(* ===== verification/IndexAnswers.v ===== *)
(** * Index search is sound (src/index/index_search.cpp)

    What a scan relies on when it asks the indices of a dataset for a filter's rows: no live row the filter is
    TRUE on is missing from a fragment the answer names, and an exact answer has no other live row. What is
    assumed is what the files of the segments hold ([IndexFiles]: the column as the builders of a BTREE, a zone
    map or a BITMAP write it) and of which rows ([held_column]); the search of a segment, the fragments it
    answers for, the translation of rows, the union over segments, the choice of an index and AND and OR over
    answers are shown to keep it. *)

From S2P Require Import Prelude ProtoWire Roaring Pb Json Int128 Decimal Expr Overlays FragReuse RowIdIndex Bloom StableSort ScalarSort.
From S2P Require Import KeyOrder RowSets ScalarIndex ZoneMap SegmentSearch BasePaths IndexSearch.

Module IndexAnswers.
Import Expr (Value(..), Double(..), TimeUnit, ArrowType(..), ArrayView, Slot(..), View, ColumnRef, mkColumn, CmpOp(..), Node, Literal, Column,
  eval, flip, compare, wanted).
Import RowSets (RowSet, mkRowSet, RowSet0, covered, rows, rows_of, exact, with_rows, unite, both, either, push_rows, answers, both_answers, either_answers).
Import ScalarIndex (Test(..), Predicate, mkPredicate, p_test, p_op, p_constants).
Import IndexSearch.

(** ** Comparing the other way round *)

Lemma cmp_limbs_opp a b : Decimal.cmp_limbs b a = - Decimal.cmp_limbs a b.
Proof.
  revert b. induction a as [|x a IH]; intros [|y b]; cbn; try lia. rewrite (Z.eqb_sym y x). destruct (Z.eqb_spec x y); [apply IH|].
  destruct (Z.ltb_spec x y), (Z.ltb_spec y x); cbn; lia.
Qed.

Lemma compare_decimal_opp a sa b sb : Decimal.compare_decimal b sb a sa = - Decimal.compare_decimal a sa b sb.
Proof.
  unfold Decimal.compare_decimal. rewrite (Z.max_comm sb sa). unfold Decimal.mag_cmp.
  destruct (Decimal.limbs_negative a), (Decimal.limbs_negative b); cbn; try lia; rewrite cmp_limbs_opp; lia.
Qed.

#[local] Opaque Expr.float_way.

Lemma compare_opp a b : compare b a = Z.opp <$> compare a b.
Proof.
  destruct a, b; cbn; try done; f_equal; try apply Expr.float_way_opp; try apply compare_decimal_opp; try apply Expr.three_way_opp;
    try apply Expr.bytes_way_opp; try apply Expr.compare_duration_opp.
  - by destruct b, b0.
  - destruct (i <? 0); [done | apply Expr.three_way_opp].
  - destruct (i <? 0); [done | apply Expr.three_way_opp].
Qed.

(** ** Truth *)

Section Truth.
Context (float_op : Expr.ArithOp -> Double -> Double -> Double) (batch : ArrayView) (row : Z).
Notation eval := (eval float_op batch row).

(** The predicate as a node of the filter. *)
Definition pred_node (p : Pred) : Node :=
  let key := Column (pr_column p) in
  let c k := nth k (p_constants (pr_test p)) (Literal VNull) in
  match p_test (pr_test p) with
  | TCompare => Expr.Compare (p_op (pr_test p)) key (c 0%nat)
  | TIn | THasAny | THasAll | THas => Expr.In false key (p_constants (pr_test p))
  | TBetween => Expr.Between false key (c 0%nat) (c 1%nat)
  | TIsNull => Expr.IsNull key
  | TIsNotNull => Expr.IsNotNull key
  | TContains => Literal VNull
  end.

Lemma eval_flip op a b v : eval (Expr.Compare op a b) = Ok v -> eval (Expr.Compare (flip op) b a) = Ok v.
Proof.
  cbn. unfold mbind, res_bind. destruct (eval a) as [va|]; [|done]. destruct (eval b) as [vb|]; [|done].
  unfold Expr.eval_compare. rewrite (orb_comm (Expr.is_null vb)), (compare_opp va vb). destruct (Expr.is_null va || Expr.is_null vb); [done|].
  destruct (compare va vb) as [c|]; [|done]. cbn. intros [= <-]. by rewrite Expr.wanted_flip, Z.opp_involutive.
Qed.

(** A predicate taken from a filter is the node it was taken from. *)
Lemma conditions_leaf n p v : conditions n = CPredicate p -> eval n = Ok v -> eval (pred_node p) = Ok v.
Proof.
  destruct n as [| | | | |op a b|a|a| |negated a items|negated a lo hi| |]; cbn [conditions]; try done.
  - destruct (constant b) eqn:Eb; [destruct (column_of a) as [c|] eqn:Ea|].
    + intros [= <-]. destruct a; try done. injection Ea as ->. done.
    + destruct (constant a) eqn:Ea'; [|done]. destruct (column_of b) as [c|] eqn:Ec; [|done]. intros [= <-]. destruct b; try done.
    + destruct (constant a) eqn:Ea'; [|done]. destruct (column_of b) as [c|] eqn:Ec; [|done]. intros [= <-].
      destruct b; try done. injection Ec as ->. apply eval_flip.
  - destruct (column_of a) as [c|] eqn:Ea; [|done]. intros [= <-]. destruct a; try done. by injection Ea as ->.
  - destruct (column_of a) as [c|] eqn:Ea; [|done]. intros [= <-]. destruct a; try done. by injection Ea as ->.
  - destruct negated; [done|]. destruct (forallb constant items); [|done]. destruct (column_of a) as [c|] eqn:Ea; [|done].
    intros [= <-]. destruct a; try done. by injection Ea as ->.
  - destruct negated; [done|]. destruct (constant lo && constant hi); [|done]. destruct (column_of a) as [c|] eqn:Ea; [|done].
    intros [= <-]. destruct a; try done. by injection Ea as ->.
Qed.

(** TRUE conjunctions and disjunctions, and those of values that may only be TRUE. *)
Definition only_true (n : Node) : Prop := forall v, eval n = Ok v -> v = VBool true.

Lemma truth_inv v w : Expr.truth v = Ok w -> w = v /\ (v = VNull \/ exists b, v = VBool b).
Proof. destruct v; cbn; try done; intros [= <-]; split; eauto. Qed.

Lemma and_true a b : eval (Expr.And a b) = Ok (VBool true) -> eval a = Ok (VBool true) /\ eval b = Ok (VBool true).
Proof.
  cbn. unfold mbind, res_bind. destruct (eval a) as [va|]; [|done].
  destruct (Expr.truth va) as [ta|] eqn:Ta; [|done]. apply truth_inv in Ta as [-> Ha].
  destruct Ha as [->|[[] ->]]; [| |done]; (destruct (eval b) as [vb|]; [|done]);
    (destruct (Expr.truth vb) as [tb|] eqn:Tb; [|done]); apply truth_inv in Tb as [-> Hb]; destruct Hb as [->|[[] ->]]; done.
Qed.

Lemma or_true a b : eval (Expr.Or a b) = Ok (VBool true) -> eval a = Ok (VBool true) \/ eval b = Ok (VBool true).
Proof.
  cbn. unfold mbind, res_bind. destruct (eval a) as [va|]; [|done].
  destruct (Expr.truth va) as [ta|] eqn:Ta; [|done]. apply truth_inv in Ta as [-> Ha].
  destruct Ha as [->|[[] ->]]; [|by left|]; (destruct (eval b) as [vb|]; [|done]);
    (destruct (Expr.truth vb) as [tb|] eqn:Tb; [|done]); apply truth_inv in Tb as [-> Hb]; destruct Hb as [->|[[] ->]]; try done; by right.
Qed.

Lemma and_only a b : only_true a -> only_true b -> only_true (Expr.And a b).
Proof.
  intros Ha Hb v. cbn. unfold mbind, res_bind. destruct (eval a) as [va|] eqn:Ea; [|done]. rewrite (Ha va Ea). cbn.
  destruct (eval b) as [vb|] eqn:Eb; [|done]. rewrite (Hb vb Eb). cbn. by intros [= <-].
Qed.

Lemma or_only a b : only_true a \/ only_true b -> only_true (Expr.Or a b).
Proof.
  intros H v. cbn. unfold mbind, res_bind. destruct (eval a) as [va|] eqn:Ea; [|done].
  destruct (Expr.truth va) as [ta|] eqn:Ta; [|done]. apply truth_inv in Ta as [-> Hta]. destruct H as [Ha|Hb].
  - rewrite (Ha va Ea). by intros [= <-].
  - destruct Hta as [->|[[] ->]]; [|by intros [= <-]|]; (destruct (eval b) as [vb|] eqn:Eb; [|done]); rewrite (Hb vb Eb); by intros [= <-].
Qed.

End Truth.

(** ** Translation *)

Section Moved.
Context (loc : Z -> Z -> option (Z * Z)).

(** The offsets of a fragment's rows that land in [g]. *)
Definition landing (g : Z) (h o : Z) : option Z := match loc h o with Some (g', x) => if g' =? g then Some x else None | None => None end.
Definition landed (g : Z) (e : Z * list Z) : list Z := omap (landing g e.1) e.2.
Definition moved (s : RowSet) (g : Z) : list Z := concat (landed g <$> by_fragment (rows s)).

Lemma landing_Some g h o x : landing g h o = Some x <-> loc h o = Some (g, x).
Proof.
  unfold landing. destruct (loc h o) as [[g' y]|]; [|done]. destruct (Z.eqb_spec g' g) as [->|Hne]; [naive_solver|].
  split; [done|]. intros [= ->]. done.
Qed.

Lemma by_fragment_elem r h l : (h, l) ∈ by_fragment r <-> h ∈ dom r /\ l = default [] (r !! h).
Proof.
  unfold by_fragment. rewrite list_elem_of_fmap. split.
  - intros (f & [= -> ->] & Hf). rewrite merge_sort_Permutation, elem_of_elements in Hf. done.
  - intros [Hh ->]. exists h. split; [done|]. by rewrite merge_sort_Permutation, elem_of_elements.
Qed.

Lemma moved_elem s g x : x ∈ moved s g <-> exists h o, o ∈ rows_of s h /\ loc h o = Some (g, x).
Proof.
  unfold moved. rewrite list_elem_of_In, in_concat. setoid_rewrite <- list_elem_of_In. split.
  - intros (l & ([h l'] & -> & [Hh ->]%by_fragment_elem)%list_elem_of_fmap & (o & Ho & E%landing_Some)%list_elem_of_omap). eauto.
  - intros (h & o & Ho & E). exists (landed g (h, rows_of s h)). split.
    + apply list_elem_of_fmap. exists (h, rows_of s h). split; [done|]. apply by_fragment_elem. split; [|done].
      unfold rows_of in Ho. apply elem_of_dom. destruct (rows s !! h); [eauto | by apply elem_of_nil in Ho].
    + apply list_elem_of_omap. exists o. split; [done|]. by apply landing_Some.
Qed.

Lemma fold_landed (step : gmap Z (list Z) -> Z * list Z -> gmap Z (list Z)) es r g :
  (forall r e, default [] (step r e !! g) = default [] (r !! g) ++ landed g e) ->
  default [] (foldl step r es !! g) = default [] (r !! g) ++ concat (landed g <$> es).
Proof.
  intros Hs. revert r. induction es as [|e es IH]; intros r; cbn; [by rewrite app_nil_r|]. by rewrite IH, Hs, app_assoc.
Qed.

Lemma fold_offsets (step : Z -> gmap Z (list Z) -> Z -> gmap Z (list Z)) h l r g :
  (forall r o, default [] (step h r o !! g) = default [] (r !! g) ++ option_list (landing g h o)) ->
  default [] (foldl (step h) r l !! g) = default [] (r !! g) ++ landed g (h, l).
Proof.
  intros Hs. unfold landed. cbn [fst snd]. revert r. induction l as [|o l IH]; intros r; cbn; [by rewrite app_nil_r|].
  rewrite IH, Hs. by destruct (landing g h o); cbn; rewrite <- ?app_assoc, ?app_nil_r.
Qed.

End Moved.

Lemma push_landing loc g h o r f x : loc h o = Some (f, x) ->
  default [] (push_rows f [x] r !! g) = default [] (r !! g) ++ option_list (landing loc g h o).
Proof. intros E. rewrite RowSets.push_rows_spec. unfold landing. rewrite E. by destruct (f =? g). Qed.

Section Translate.
Context (fri : list FragReuse.Step) (ids : RowIdIndex.RowIdToAddress).

Definition remapped (h o : Z) : option (Z * Z) :=
  if negb (FragReuse.touches fri h) then Some (h, o)
  else match FragReuse.resolve fri (packed h o) with FragReuse.At to => Some (u32 (Z.shiftr to 32), u32 to) | _ => None end.
Definition addressed (h o : Z) : option (Z * Z) :=
  (fun a => (u32 (Z.shiftr a 32), u32 a)) <$> RowIdIndex.RowIdToAddress_find ids (packed h o).

Lemma default_fmap (f : list Z -> list Z) (m : gmap Z (list Z)) g : f [] = [] -> default [] ((f <$> m) !! g) = f (default [] (m !! g)).
Proof. intros E. rewrite lookup_fmap. by destruct (m !! g). Qed.

Lemma remap_rows_of s g : rows_of (remap_rows fri s) g = sort_unique (moved remapped s g).
Proof.
  unfold rows_of, remap_rows. cbn [rows with_rows]. rewrite default_fmap by done. f_equal.
  rewrite (fold_landed remapped); [by rewrite lookup_empty|]. intros r [h l]. unfold remap_fragment. cbn [fst snd].
  destruct (negb (FragReuse.touches fri h)) eqn:Et.
  - rewrite RowSets.push_rows_spec. f_equal. unfold landed. cbn [fst snd]. destruct (Z.eqb_spec h g) as [->|Hne].
    + symmetry. induction l as [|o l IH]; [done|]. cbn. unfold landing at 1, remapped at 1. rewrite Et, Z.eqb_refl. by rewrite IH.
    + induction l as [|o l IH]; [done|]. cbn. unfold landing at 1, remapped at 1. rewrite Et. by apply Z.eqb_neq in Hne as ->.
  - apply fold_offsets. intros r' o. unfold remap_offset. destruct (FragReuse.resolve fri (packed h o)) as [| |to] eqn:Er.
    3: apply push_landing; unfold remapped; by rewrite Et, Er.
    all: unfold landing, remapped; by rewrite Et, Er, app_nil_r.
Qed.

Lemma to_addresses_rows_of s g : RowIdIndex.to_stable ids = true -> rows_of (to_addresses ids s) g = merge_sort Z.le (moved addressed s g).
Proof.
  intros Hs. unfold rows_of, to_addresses. rewrite Hs. cbn [negb rows with_rows]. rewrite default_fmap by done. f_equal.
  rewrite (fold_landed addressed); [by rewrite lookup_empty|]. intros r [h l]. unfold address_fragment. cbn [fst snd].
  apply (fold_offsets addressed (address_offset ids)). intros r' o. unfold address_offset.
  destruct (RowIdIndex.RowIdToAddress_find ids (packed h o)) as [a|] eqn:Ef.
  - apply push_landing. unfold addressed. by rewrite Ef.
  - unfold landing, addressed. by rewrite Ef, app_nil_r.
Qed.

End Translate.

(** ** Segments *)

Lemma unite_into_fold cov r m g :
  default [] (map_fold (unite_into cov) r m !! g) =
    match m !! g with
    | Some l => if bool_decide (g ∈ cov) then (let to := default [] (r !! g) in if bool_decide (to = []) then l else unite to l) else default [] (r !! g)
    | None => default [] (r !! g)
    end.
Proof.
  apply (map_fold_weak_ind (fun acc m => default [] (acc !! g) = match m !! g with
    | Some l => if bool_decide (g ∈ cov) then (let to := default [] (r !! g) in if bool_decide (to = []) then l else unite to l) else default [] (r !! g)
    | None => default [] (r !! g) end)); [by rewrite lookup_empty|]. intros i l m' acc Hi IH. unfold unite_into.
  destruct (decide (i = g)) as [->|Hne].
  - rewrite lookup_insert_eq. rewrite Hi in IH. destruct (bool_decide (g ∈ cov)); [|done]. rewrite lookup_insert_eq, IH. done.
  - rewrite (lookup_insert_ne m') by done. destruct (bool_decide (i ∈ cov)); [|done]. by rewrite lookup_insert_ne.
Qed.

Lemma merged_rows set one cov g :
  ascending (rows_of set g) -> ascending (rows_of one g) ->
  ascending (rows_of (merge_segment set one cov) g) /\
  forall x, x ∈ rows_of (merge_segment set one cov) g <-> x ∈ rows_of set g \/ g ∈ cov /\ x ∈ rows_of one g.
Proof.
  intros Hs Ho. assert (rows_of (merge_segment set one cov) g = match rows one !! g with
    | Some l => if bool_decide (g ∈ cov) then (if bool_decide (rows_of set g = []) then l else unite (rows_of set g) l) else rows_of set g
    | None => rows_of set g end) as -> by (unfold rows_of at 1; cbn [merge_segment rows]; apply unite_into_fold).
  assert (rows_of one g = default [] (rows one !! g)) as Eo by done. rewrite Eo in Ho |- *. clear Eo. destruct (rows one !! g) as [l|]; cbn in *; [|split; [done|]; intros x; rewrite elem_of_nil; tauto].
  case_bool_decide as Hc; [|split; [done | tauto]]. case_bool_decide as He.
  - rewrite He. split; [done|]. intros x. rewrite elem_of_nil. tauto.
  - destruct (RowSets.unite_spec (rows_of set g) l Hs Ho) as [U1 U2]. split; [done|]. intros x. rewrite U2. tauto.
Qed.

(** ** Soundness *)

Section Sound.
Context (env : Env) (search : Search).
Notation stable := (RowIdIndex.to_stable (s_row_ids search)).

(** The rows of the version: those that are live, and the batch a fragment's rows are read from. *)
Context (live : Z -> Z -> Prop) (batch : Z -> ArrayView).

Definition tru (n : Node) (f x : Z) : Prop := eval (e_float_op env) (batch f) x n = Ok (VBool true).
Definition only (n : Node) (f x : Z) : Prop := live f x -> only_true (e_float_op env) (batch f) x n.

(** Where a row an index holds is now. *)
Definition located (index : pb.IndexMetadata) (h o : Z) : option (Z * Z) :=
  match s_frag_reuse search with
  | Some fri => if negb stable then remapped fri h o else if zoned index then Some (h, o) else addressed (s_row_ids search) h o
  | None => if stable && negb (zoned index) then addressed (s_row_ids search) h o else Some (h, o)
  end.

(** What the search of a segment promises: of the rows of a fragment it covers, it holds every live one the
    predicate is TRUE on, and when it is exact no other. *)
Record segment_answers (p : Pred) (index : pb.IndexMetadata) (one : RowSet) (ex : bool) : Prop := {
  sa_rows : forall h, ascending (rows_of one h);
  sa_range : forall h o, o ∈ rows_of one h -> is_u32 h /\ is_u32 o;
  sa_complete : forall f x, f ∈ coverage env search index -> live f x -> tru (pred_node p) f x ->
    exists h o, o ∈ rows_of one h /\ located index h o = Some (f, x);
  sa_exact : ex = true -> forall h o f x, o ∈ rows_of one h -> located index h o = Some (f, x) -> f ∈ coverage env search index ->
    only (pred_node p) f x }.

(** The predicates of a condition. *)
Fixpoint preds (c : Condition) : list Pred :=
  match c with CAnd a b | COr a b => preds a ++ preds b | CNot a => preds a | CPredicate p => [p] | COther => [] end.

(** The segments asked about a predicate: those of the indices of its column. *)
Record asks (p : Pred) (field : pb.Field) (index : pb.IndexMetadata) (dir : string) : Prop := {
  as_index : index ∈ pb.mf_indices (s_manifest search);
  as_field : field_of (pb.mf_fields (s_manifest search)) (e_path env (pr_column p)) = Some field;
  as_column : indexes_field field index = true;
  as_dir : BasePaths.index_dir_of (s_dataset_path search) (s_manifest search) index = Ok dir }.

(** What the client of a segment's search is promised; [index_files_answer] discharges it. *)
Class SegmentsAnswer (asked : list Pred) : Prop := segments_answer : forall field p index dir one ex, p ∈ asked ->
  asks p field index dir -> is_json index = has_json p ->
  search_segment env (s_physical search) field p dir index = Ok (Some one, ex) -> segment_answers p index one ex.

(** Row ids are those of one row each. *)
Definition ids_distinct : Prop :=
  stable = true -> forall a b y, RowIdIndex.RowIdToAddress_find (s_row_ids search) a = Some y -> is_u64 y /\
    (RowIdIndex.RowIdToAddress_find (s_row_ids search) b = Some y -> a = b).

Context (Hids : ids_distinct).

Lemma packed_inj h o h' o' : is_u32 h -> is_u32 o -> is_u32 h' -> is_u32 o' -> packed h o = packed h' o' -> h = h' /\ o = o'.
Proof.
  unfold packed, is_u32. intros Hh Ho Hh' Ho'. rewrite (Z.lor_comm _ o), (Z.lor_comm _ o'), !lor_shiftl_add by lia. intros. lia.
Qed.

Lemma addressed_address h o f x : addressed (s_row_ids search) h o = Some (f, x) ->
  exists a, RowIdIndex.RowIdToAddress_find (s_row_ids search) (packed h o) = Some a /\ f = u32 (Z.shiftr a 32) /\ x = u32 a.
Proof. unfold addressed. destruct (RowIdIndex.RowIdToAddress_find _ _) as [a|]; [|done]. intros [= <- <-]. eauto. Qed.

Lemma addressed_inj h o h' o' f x : stable = true -> is_u32 h -> is_u32 o -> is_u32 h' -> is_u32 o' ->
  addressed (s_row_ids search) h o = Some (f, x) -> addressed (s_row_ids search) h' o' = Some (f, x) -> h = h' /\ o = o'.
Proof.
  intros Hs Hh Ho Hh' Ho' (a & Ea & -> & ->)%addressed_address (b & Eb & Ef & Ex)%addressed_address.
  destruct (Hids Hs _ (packed h' o') a Ea) as [Ha Hinj]. destruct (Hids Hs _ (packed h' o') b Eb) as [Hb _].
  apply packed_inj; [done..|]. apply Hinj. rewrite Eb. f_equal. unfold is_u64, u32, wrap in *. rewrite !Z.shiftr_div_pow2 in Ef by lia.
  rewrite !(Z.mod_small (_ / _)) in Ef by dlia. change (2 ^ 32) with 4294967296 in *. dlia.
Qed.

(** Distinct rows that land in one fragment land on distinct offsets. *)
Lemma moved_nodup loc s g :
  (forall h, ascending (rows_of s h)) ->
  (forall h o h' o' x, o ∈ rows_of s h -> o' ∈ rows_of s h' -> loc h o = Some (g, x) -> loc h' o' = Some (g, x) -> h = h' /\ o = o') ->
  NoDup (moved loc s g).
Proof.
  intros Hasc Hinj. unfold moved.
  assert (NoDup (by_fragment (rows s)).*1) as Hk.
  { unfold by_fragment. rewrite <- list_fmap_compose. rewrite (list_fmap_ext _ id), list_fmap_id by done.
    rewrite merge_sort_Permutation. apply NoDup_elements. }
  assert (forall h l, (h, l) ∈ by_fragment (rows s) -> l = rows_of s h) as Hl by (intros h l [_ ->]%by_fragment_elem; done).
  revert Hk Hl. generalize (by_fragment (rows s)) as es. induction es as [|[h l] es IH]; intros Hk Hl; [constructor|].
  cbn in Hk |- *. apply NoDup_cons in Hk as [Hnin Hk]. rewrite (Hl h l) by (by left). apply NoDup_app. split_and!.
  - unfold landed. cbn [fst snd]. assert (NoDup (rows_of s h)) as Hnd by (apply ascending_NoDup, Hasc).
    assert (forall o, o ∈ rows_of s h -> o ∈ rows_of s h) as Hsub by done. revert Hsub Hnd. generalize (rows_of s h) at 1 3 4 as l'.
    induction l' as [|o l' IHl]; intros Hsub Hnd; [constructor|]. apply NoDup_cons in Hnd as [Ho Hnd]. cbn.
    destruct (landing loc g h o) as [x|] eqn:E; [|apply IHl; [set_solver | done]]. apply NoDup_cons. split; [|apply IHl; [set_solver | done]].
    intros (o' & Ho' & E')%list_elem_of_omap. apply landing_Some in E, E'.
    destruct (Hinj h o h o' x) as [_ ->]; [apply Hsub; by left | apply Hsub; by right | done | done |]. done.
  - intros x (o & Ho & E%landing_Some)%list_elem_of_omap Hin. cbn [fst snd] in *. apply list_elem_of_In, in_concat in Hin as (l2 & Hl2 & Hx).
    apply list_elem_of_In in Hl2, Hx. apply list_elem_of_fmap in Hl2 as ([h' l'] & -> & Hh'). apply list_elem_of_omap in Hx as (o' & Ho' & E'%landing_Some).
    cbn [fst snd] in *. rewrite (Hl h' l') in Ho' by (by right). destruct (Hinj h o h' o' x Ho Ho' E E') as [-> _]. apply Hnin, list_elem_of_fmap.
    by exists (h', l').
  - apply IH; [done|]. intros. apply Hl. by right.
Qed.

Lemma translate_rows p index one ex g :
  segment_answers p index one ex ->
  ascending (rows_of (translate search index one) g) /\
  forall x, x ∈ rows_of (translate search index one) g <-> exists h o, o ∈ rows_of one h /\ located index h o = Some (g, x).
Proof.
  intros [S1 S2 _ _]. unfold translate, located.
  assert (ascending (rows_of one g) /\ forall x, x ∈ rows_of one g <-> exists h o, o ∈ rows_of one h /\ Some (h, o) = Some (g, x)) as Hid.
  { split; [done|]. intros x. split; [eauto|]. intros (h & o & Ho & [= -> ->]). done. }
  assert (stable = true -> ascending (rows_of (to_addresses (s_row_ids search) one) g) /\
    forall x, x ∈ rows_of (to_addresses (s_row_ids search) one) g <-> exists h o, o ∈ rows_of one h /\ addressed (s_row_ids search) h o = Some (g, x)) as Hadr.
  { intros Hs. rewrite to_addresses_rows_of by done. split.
    - apply sorted_nodup_ascending; [apply StronglySorted_merge_sort; apply _|]. rewrite merge_sort_Permutation.
      apply moved_nodup; [done|]. intros h o h' o' x [? ?]%S2 [? ?]%S2. by apply addressed_inj.
    - intros x. rewrite merge_sort_Permutation. apply moved_elem. }
  destruct (s_frag_reuse search) as [fri|]; [destruct stable eqn:Es; cbn [negb]|destruct stable eqn:Es; cbn [andb]].
  - destruct (zoned index); [done|]. by apply Hadr.
  - assert (rows_of (if negb (zoned index) then to_addresses (s_row_ids search) (remap_rows fri one) else remap_rows fri one) g = sort_unique (moved (remapped fri) one g)) as ->.
    { unfold to_addresses. rewrite Es. cbn [negb]. destruct (negb (zoned index)); apply remap_rows_of. }
    destruct (sort_unique_spec (moved (remapped fri) one g)) as [U1 U2]. split; [done|]. intros x. rewrite U2. apply moved_elem.
  - destruct (zoned index); cbn [negb]; [done|]. by apply Hadr.
  - unfold to_addresses. rewrite Es. cbn [negb]. by destruct (negb (zoned index)).
Qed.

Context (asked : list Pred) {Hseg : SegmentsAnswer asked}.

Definition must (n : Node) (f x : Z) : Prop := live f x /\ tru n f x.

(** The union of the segments' answers so far. *)
Record union_ok (p : Pred) (set : RowSet) (exact_all : bool) : Prop := {
  uo_answers : answers (must (pred_node p)) (only (pred_node p)) (mkRowSet (covered set) (rows set) exact_all);
  uo_order : forall f, ascending (rows_of set f);
  uo_within : forall f x, x ∈ rows_of set f -> f ∈ covered set }.

Lemma merge_ok p set exact_all index one ex :
  union_ok p set exact_all -> segment_answers p index one ex ->
  union_ok p (merge_segment set (translate search index one) (coverage env search index)) (exact_all && ex).
Proof.
  intros [[U1 U2 U3] U4 U5] Hs. pose proof (fun g => translate_rows p index one ex g Hs) as Ht.
  set (cov := coverage env search index) in *. set (t := translate search index one) in *.
  pose proof (fun g => merged_rows set t cov g (U4 g) (proj1 (Ht g))) as Hm. split; [split| |].
  - intros f _. apply Hm.
  - intros f x Hf [Hl Htr]. apply (proj2 (Hm f)). destruct (decide (f ∈ cov)) as [Hc|Hc].
    + right. split; [done|]. apply Ht. by apply (sa_complete _ _ _ _ Hs).
    + left. apply (U2 f x); [|done]. cbn in Hf |- *. apply elem_of_union in Hf as [Hf|Hf]; done.
  - cbn [exact]. intros [Ea Ex]%andb_true_iff f x Hf Hx. apply (proj2 (Hm f)) in Hx as [Hx|[Hc Hx]].
    + apply (U3 Ea f x); [by apply (U5 f x) | done].
    + apply Ht in Hx as (h & o & Ho & Hloc). by apply (sa_exact _ _ _ _ Hs Ex h o).
  - intros f. apply Hm.
  - intros f x Hx. cbn [covered merge_segment]. apply elem_of_union. apply (proj2 (Hm f)) in Hx as [Hx|[Hc _]]; [left; by eapply U5 | by right].
Qed.

Lemma search_segments_ok field p segments set exact_all set' ex :
  p ∈ asked -> field_of (pb.mf_fields (s_manifest search)) (e_path env (pr_column p)) = Some field ->
  (forall index, index ∈ segments -> index ∈ pb.mf_indices (s_manifest search) /\ indexes_field field index = true) ->
  union_ok p set exact_all -> search_segments env search field p segments set exact_all = Ok (Some (set', ex)) -> union_ok p set' ex.
Proof.
  intros Hp Hf. revert set exact_all. induction segments as [|index segments IH]; intros set exact_all Hsegs Hu; cbn [search_segments].
  { by intros [= <- <-]. }
  unfold mbind, res_bind. destruct (BasePaths.index_dir_of _ _ _) as [dir|] eqn:Ed; [|done].
  destruct (Bool.eqb (is_json index) (has_json p)) eqn:Ej; cbn [negb]; [|done]. apply Bool.eqb_prop in Ej.
  destruct (search_segment env _ field p dir index) as [[[one|] ex']|] eqn:Es; [|done..].
  apply IH; [intros; apply Hsegs; by right|]. destruct (Hsegs index ltac:(by left)) as [Hin Hix].
  apply merge_ok; [done|]. by apply (Hseg field p index dir one ex').
Qed.

Lemma add_segment_members index by_name name segs i :
  (name, segs) ∈ add_segment index by_name -> i ∈ segs -> i = index \/ exists segs', (name, segs') ∈ by_name /\ i ∈ segs'.
Proof.
  induction by_name as [|[n l] rest IH]; cbn.
  - intros [= -> ->]%list_elem_of_singleton ->%list_elem_of_singleton. by left.
  - destruct (String.eqb n (pb.ix_name index)).
    + intros [[= -> ->]|Hin]%elem_of_cons Hi.
      * apply elem_of_app in Hi as [Hi| ->%list_elem_of_singleton]; [right; exists l; split; [by left | done] | by left].
      * right. exists segs. split; [by right | done].
    + intros [[= -> ->]|Hin]%elem_of_cons Hi; [right; exists l; split; [by left | done]|].
      destruct (IH Hin Hi) as [?|(segs' & ? & ?)]; [by left|]. right. exists segs'. split; [by right | done].
Qed.

Lemma segments_by_name_members field name segs index :
  (name, segs) ∈ segments_by_name search field -> index ∈ segs -> index ∈ pb.mf_indices (s_manifest search) /\ indexes_field field index = true.
Proof.
  unfold segments_by_name. assert (forall l acc, (forall n s i, (n, s) ∈ acc -> i ∈ s -> i ∈ pb.mf_indices (s_manifest search) /\ indexes_field field i = true) ->
    (forall i, i ∈ l -> i ∈ pb.mf_indices (s_manifest search)) -> forall n s i,
    (n, s) ∈ foldl (fun by_name index => if indexes_field field index then add_segment index by_name else by_name) acc l -> i ∈ s ->
    i ∈ pb.mf_indices (s_manifest search) /\ indexes_field field i = true) as H.
  { induction l as [|x l IH]; intros acc Hacc Hl n s i; cbn [foldl]; [apply Hacc|]. apply IH; [|intros; apply Hl; by right].
    intros n' s' i' Hin Hi. destruct (indexes_field field x) eqn:Ex; [|by eapply Hacc].
    destruct (add_segment_members _ _ _ _ _ Hin Hi) as [->|(s2 & ? & ?)]; [split; [apply Hl; by left | done] | by eapply Hacc]. }
  apply H; [intros ? ? ? Hn; by apply elem_of_nil in Hn | done].
Qed.

Lemma first_answer_ok field p by_name set line :
  p ∈ asked -> field_of (pb.mf_fields (s_manifest search)) (e_path env (pr_column p)) = Some field ->
  (forall name segs index, (name, segs) ∈ by_name -> index ∈ segs -> index ∈ pb.mf_indices (s_manifest search) /\ indexes_field field index = true) ->
  first_answer env search field p by_name = Ok (Some (set, line)) -> answers (must (pred_node p)) (only (pred_node p)) set.
Proof.
  intros Hp Hf. induction by_name as [|[name segs] rest IH]; intros Hm; cbn [first_answer]; [done|]. unfold mbind, res_bind.
  assert (first_answer env search field p rest = Ok (Some (set, line)) -> answers (must (pred_node p)) (only (pred_node p)) set) as Hrest.
  { apply IH. intros n s i Hin. apply (Hm n). by right. }
  destruct (search_segments env search field p segs RowSet0 true) as [[[set' ex]|]|] eqn:Es; [|done..].
  destruct (covers_live search set'); [|done]. intros [= <- _].
  apply (search_segments_ok field) in Es; [by destruct Es | done | done | intros; by eapply (Hm name); [left|] |].
  split; [split| |].
  - intros f Hf'. cbn in Hf'. by apply elem_of_empty in Hf'.
  - intros f x Hf'. cbn in Hf'. by apply elem_of_empty in Hf'.
  - intros _ f x Hf'. cbn in Hf'. by apply elem_of_empty in Hf'.
  - intros f. unfold rows_of. cbn. rewrite lookup_empty. constructor.
  - intros f x. unfold rows_of. cbn. rewrite lookup_empty. cbn. intros Hx. by apply elem_of_nil in Hx.
Qed.

Lemma answers_weaken (m m' n n' : Z -> Z -> Prop) s :
  (forall f x, n f x -> m f x) -> (forall f x, m' f x -> n' f x) -> answers m m' s -> answers n n' s.
Proof. intros Hm Hn [A1 A2 A3]. split; [done | auto | auto]. Qed.

Lemma prunes_answers m m' n' s : answers m m' s -> answers m n' (prunes s).
Proof. intros [A1 A2 A3]. split; [done | done | done]. Qed.

Lemma leaf_ok n p set used :
  p ∈ asked -> conditions n = CPredicate p -> condition env search (conditions n) = Ok (Some set, used) -> answers (must n) (only n) set.
Proof.
  intros Hp En. rewrite En. cbn [condition]. unfold predicate. destruct (field_of _ _) as [field|] eqn:Ef; [|done]. unfold mbind, res_bind.
  destruct (first_answer env search field p _) as [[[set' line]|]|] eqn:Ea; [|done..]. intros [= -> _].
  eapply answers_weaken; [| |eapply (first_answer_ok field p); [done | done | apply segments_by_name_members | exact Ea]].
  - intros f x [Hl Ht]. split; [done|]. by eapply conditions_leaf.
  - intros f x Ho Hl v Hv. apply (Ho Hl). by eapply conditions_leaf.
Qed.

(** The answer to a condition of the filter is an answer to the filter. *)
Lemma condition_ok n set used :
  (forall p, p ∈ preds (conditions n) -> p ∈ asked) -> condition env search (conditions n) = Ok (Some set, used) -> answers (must n) (only n) set.
Proof.
  revert set used. induction n as [v|c|a IHa b IHb|a IHa b IHb|a IHa|op a _ b _|a _|a _|op a _|ng a _ items|ng a _ lo _ hi _|op a _ b _|a _];
    intros set used Hask; try done.
  - cbn [conditions condition preds] in *. unfold mbind, res_bind. destruct (condition env search (conditions a)) as [[[x|] ua]|] eqn:Ea; [| |done];
      (destruct (condition env search (conditions b)) as [[[y|] ub]|] eqn:Eb; [| |done]); cbn; intros [= <- _].
    + eapply answers_weaken; [| |apply both_answers; [eapply IHa; [set_solver | done] | eapply IHb; [set_solver | done]]].
      * intros f o [Hl Ht]. apply and_true in Ht as [? ?]. by split; split.
      * intros f o [Ha Hb] Hl. apply and_only; auto.
    + eapply prunes_answers, (answers_weaken _ _ _ (only a)); [| |eapply IHa; [set_solver | done]]; [|done]. intros f o [Hl Ht]. apply and_true in Ht as [? ?]. by split.
    + eapply prunes_answers, (answers_weaken _ _ _ (only b)); [| |eapply IHb; [set_solver | done]]; [|done]. intros f o [Hl Ht]. apply and_true in Ht as [? ?]. by split.
  - cbn [conditions condition preds] in *. unfold mbind, res_bind. destruct (condition env search (conditions a)) as [[[x|] ua]|] eqn:Ea; [| |done];
      (destruct (condition env search (conditions b)) as [[[y|] ub]|] eqn:Eb; [| |done]); cbn; intros [= <- _].
    eapply answers_weaken; [| |apply either_answers; [eapply IHa; [set_solver | done] | eapply IHb; [set_solver | done]]].
    + intros f o [Hl Ht]. apply or_true in Ht as [?|?]; [left | right]; by split.
    + intros f o H Hl. apply or_only. destruct H; [left | right]; auto.
  - destruct (conditions (Expr.Compare op a b)) as [| | |p|] eqn:E; try (cbn in E; by repeat case_match).
    rewrite <- E. apply (leaf_ok _ p); [apply Hask; cbn; by left | done].
  - destruct (conditions (Expr.IsNull a)) as [| | |p|] eqn:E; try (cbn in E; by repeat case_match).
    rewrite <- E. apply (leaf_ok _ p); [apply Hask; cbn; by left | done].
  - destruct (conditions (Expr.IsNotNull a)) as [| | |p|] eqn:E; try (cbn in E; by repeat case_match).
    rewrite <- E. apply (leaf_ok _ p); [apply Hask; cbn; by left | done].
  - destruct (conditions (Expr.In ng a items)) as [| | |p|] eqn:E; try (cbn in E; by repeat case_match).
    rewrite <- E. apply (leaf_ok _ p); [apply Hask; cbn; by left | done].
  - destruct (conditions (Expr.Between ng a lo hi)) as [| | |p|] eqn:E; try (cbn in E; by repeat case_match).
    rewrite <- E. apply (leaf_ok _ p); [apply Hask; cbn; by left | done].
Qed.

End Sound.

(** ** What the files of a segment hold *)

Section Files.
Context (env : Env) (search : Search) (live : Z -> Z -> Prop) (batch : Z -> ArrayView).
Notation manifest := (s_manifest search).

(** The fragments an index was built on, after deferred compactions: those not rewritten, and the new ones of a
    group whose old ones it all had. *)
Definition after_group (had : Z -> Prop) (g : FragReuse.Group) (f : Z) : Prop :=
  (had f /\ f ∉ FragReuse.old_ids g) \/ (FragReuse.old_ids g <> [] /\ Forall had (FragReuse.old_ids g) /\ f ∈ FragReuse.new_ids g).
Definition after_steps (had : Z -> Prop) (steps : list FragReuse.Step) : Z -> Prop :=
  foldl (fun had step => foldl after_group had (FragReuse.groups step)) had steps.
Definition indexed (index : pb.IndexMetadata) : Z -> Prop :=
  after_steps (fun f => f ∈ pb.ix_fragment_ids index) (default [] (s_frag_reuse search)).

(** A fragment with an overlay of an indexed field committed since (or with overlays that do not decode). *)
Definition overlaid (index : pb.IndexMetadata) (f : Z) : Prop := exists fragment,
  fragment ∈ pb.mf_fragments manifest /\ u32 (pb.fr_id fragment) = f /\ Overlays.fragment_has_overlays fragment = true /\
  forall os, Overlays.read_fragment_overlays (e_data_file env) fragment = Ok os -> exists o x, o ∈ os /\
    pb.ix_dataset_version index < Overlays.ov_committed_version o /\ x ∈ pb.df_fields (Overlays.ov_data_file o) /\ x ∈ pb.ix_fields index.

Lemma cover_group_after (c : gset Z) (had : Z -> Prop) g f :
  (forall x, x ∈ c -> had x) -> f ∈ FragReuse.cover_group c g -> after_group had g f.
Proof.
  intros Hc. unfold FragReuse.cover_group, after_group.
  assert (forall l c0 n, let s := foldl FragReuse.erase_step (c0, n) l in
    s.1 = c0 ∖ list_to_set l /\ n <= s.2 <= n + zlen l /\ (s.2 = n + zlen l -> Forall (fun id => id ∈ c0) l)) as H.
  { induction l as [|id l IH]; intros c0 n; cbn [foldl]; [split_and!; [set_solver | unfold zlen; cbn; lia.. | constructor]|].
    unfold FragReuse.erase_step at 2 4 6 8. cbn [fst snd]. rewrite zlen_cons. pose proof (zlen_nonneg l). case_bool_decide as Hin.
    - destruct (IH (c0 ∖ {[id]}) (n + 1)) as (I1 & I2 & I3). cbv zeta in *. split_and!; [set_solver | lia | lia |].
      intros E. constructor; [done|]. eapply Forall_impl; [apply I3; lia|]. set_solver.
    - destruct (IH c0 n) as (I1 & I2 & I3). cbv zeta in *. split_and!; [set_solver | lia | lia | lia]. }
  destruct (H (FragReuse.old_ids g) c 0) as (H1 & H2 & H3). destruct (foldl _ _ _) as [c' removed]. cbn [fst snd] in *. subst c'.
  destruct (Z.eqb_spec removed (zlen (FragReuse.old_ids g))) as [E|E]; cbn [andb]; [destruct (Z.eqb_spec removed 0) as [E0|E0]; cbn [negb]|].
  2:{ intros [Hf|Hf%elem_of_list_to_set]%elem_of_union; [left; set_solver|]. right. split_and!; [intros E1; rewrite E1 in E; done | | done].
      eapply Forall_impl; [apply H3; lia | done]. }
  all: intros Hf; left; set_solver.
Qed.

Lemma remap_coverage_indexed steps ids f : f ∈ FragReuse.remap_coverage steps ids -> after_steps (fun f => f ∈ ids) steps f.
Proof.
  unfold FragReuse.remap_coverage, after_steps. case_bool_decide as E; [by subst|]. rewrite merge_sort_Permutation, elem_of_elements. clear E.
  assert (forall gs (c : gset Z) (had : Z -> Prop), (forall x, x ∈ c -> had x) -> forall x, x ∈ foldl FragReuse.cover_group c gs -> foldl after_group had gs x) as Hg.
  { induction gs as [|g gs IH]; intros c had Hc; [done|]. cbn [foldl]. apply IH. intros x. by apply cover_group_after. }
  assert (forall (c : gset Z) (had : Z -> Prop), (forall x, x ∈ c -> had x) ->
    f ∈ foldl (fun c step => foldl FragReuse.cover_group c (FragReuse.groups step)) c steps ->
    foldl (fun had step => foldl after_group had (FragReuse.groups step)) had steps f) as Hst.
  { induction steps as [|s steps IH]; intros c had Hc; [apply Hc|]. cbn [foldl]. apply IH. by apply Hg. }
  apply Hst. intros x. apply elem_of_list_to_set.
Qed.

(** A segment answers only for fragments it was built on and is not stale for. *)
Lemma coverage_sound index f : f ∈ coverage env search index -> indexed index f /\ ~ overlaid index f.
Proof.
  unfold coverage. intros [Hf%elem_of_list_to_set Hs]%elem_of_difference. split.
  - unfold indexed. destruct (s_frag_reuse search) as [fri|]; [by apply remap_coverage_indexed | done].
  - intros (fragment & Hin & <- & Hh & Ho). apply Hs, Overlays.stale_elem; [done | done|].
    unfold Overlays.fragment_overlaid_fields_after. rewrite Hh. cbn [negb]. unfold mbind, res_bind.
    destruct (Overlays.read_fragment_overlays _ fragment) as [os|] eqn:E; [|done]. intros touched [= <-]. destruct (Ho os eq_refl) as (o & x & ? & ? & ? & ?).
    exists x. split; [done|]. apply Overlays.overlaid_fields_spec. eauto.
Qed.

(** The column an index holds: an item for every live row of the fragments it was built on, where no overlay has
    changed it since, with the row's value. *)
Record held_column (index : pb.IndexMetadata) (c : ColumnRef) (t : ColumnType) (items : ScalarSort.Items) : Prop := {
  hc_items : forall f x, indexed index f -> ~ overlaid index f -> live f x -> exists it, it ∈ ScalarSort.its items /\
    located search index (RowSets.fragment_of (ScalarSort.i_addr it)) (u32 (ScalarSort.i_addr it)) = Some (f, x);
  hc_value : forall it f x, it ∈ ScalarSort.its items ->
    located search index (RowSets.fragment_of (ScalarSort.i_addr it)) (u32 (ScalarSort.i_addr it)) = Some (f, x) ->
    indexed index f -> ~ overlaid index f -> live f x ->
    Expr.read_column c (batch f) x = ScalarIndex.row_value (ct_type t) (ct_unit t) (ct_scale t) (ScalarIndex.row_of items it) }.

(** The column and a predicate with literals: the values and the literals in range, and comparable. *)
Record typed_column (p : Pred) (t : ColumnType) (items : ScalarSort.Items) (lits : list Value) (kind : ScalarSort.KeyKind) : Prop := {
  tc_kind : exists name, ScalarSort.key_kind_of (ct_type t) name = Ok kind;
  tc_count : zlen (ScalarSort.its items) < 2 ^ 32;
  tc_items : ScalarSort.items_ok kind items;
  tc_values : forall s, ScalarSort.item_valued items s -> KeyOrder.value_fits (ct_type t) (ct_unit t) s;
  tc_addresses : Forall (fun it => is_u64 (ScalarSort.i_addr it)) (ScalarSort.its items);
  tc_literals : ScalarIndex.with_literals (pr_test p) lits;
  tc_fits : Forall (KeyOrder.literal_fits (ct_type t) (ct_scale t)) lits;
  tc_compare : ScalarIndex.comparable (ct_type t) (ct_unit t) (ct_scale t) lits }.

(** A zone map's rows come in address order, and none holds a NaN with the sign bit set. *)
Record zoned_column (t : ColumnType) (items : ScalarSort.Items) : Prop := {
  zc_order : ascending (ScalarSort.i_addr <$> ScalarSort.its items);
  zc_nans : forall it, it ∈ ScalarSort.its items -> ScalarSort.item_null items it = false ->
    ZoneMap.negative_nan (ct_type t) (ScalarSort.item_slot items it) = false }.

(** What the files of a segment hold: the column, as its builder writes it. *)
Record segment_files (p : Pred) (index : pb.IndexMetadata) (dir : string) : Prop := {
  sf_btree : pb.ix_details_type_url index = kBTree -> forall t bt, load_btree (e_files env) dir = Ok (t, bt) ->
    exists items lits kind threads, held_column index (pr_column p) t items /\ typed_column p t items lits kind /\
      ScalarIndex.btree_holds (ct_type t) items bt (ScalarSort.sort_items threads items kind false);
  sf_zonemap : pb.ix_details_type_url index = kZoneMap -> forall t zm, load_zonemap (e_files env) dir = Ok (t, zm) ->
    exists items lits kind rows_per_zone, held_column index (pr_column p) t items /\ typed_column p t items lits kind /\ zoned_column t items /\
      ZoneMap.zonemap_holds (ct_type t) zm
        (ScalarIndex.write_zonemap items (ScalarIndex.floating (ct_type t)) false (ZoneMap.zones_of items (ct_type t) kind rows_per_zone)).1;
  sf_bitmap : pb.ix_details_type_url index = kBitmap -> forall t bm, load_bitmap (e_files env) dir = Ok (t, bm) ->
    exists items lits kind threads, held_column index (pr_column p) t items /\ typed_column p t items lits kind /\
      SegmentSearch.bitmap_holds (ct_type t) items bm (ScalarSort.sort_items threads items kind true);
  sf_kind : pb.ix_details_type_url index <> kBloom /\ pb.ix_details_type_url index <> kLabelList }.

Class IndexFiles (asked : list Pred) : Prop :=
  index_files : forall p field index dir, p ∈ asked -> asks env search p field index dir -> segment_files p index dir.

(** A predicate with literals on a row: [eval] and the test of the column's value. *)
Lemma pred_node_holds p lits f x b :
  ScalarIndex.with_literals (pr_test p) lits -> ScalarIndex.decided (pr_test p) ->
  ScalarIndex.holds (pr_test p) lits (Expr.read_column (pr_column p) (batch f) x) = Ok b ->
  exists v, eval (e_float_op env) (batch f) x (pred_node p) = Ok v /\ (b = true <-> v = VBool true).
Proof.
  intros Hl Hd. pose proof Hl as [Ec _].
  assert (forall k, nth k (p_constants (pr_test p)) (Literal VNull) = Literal (nth k lits VNull)) as Hk
    by (intros k; by apply (ScalarIndex.constant_literal (pr_test p) lits k)).
  assert (forall v, Expr.keep_row v = Ok b -> b = true <-> v = VBool true) as Hkeep.
  { intros v. destruct v; cbn; try done; intros [= <-]; split; congruence. }
  unfold ScalarIndex.holds, pred_node, ScalarIndex.decided in *. rewrite !Hk.
  destruct (p_test (pr_test p)); try done; cbn [eval]; unfold mbind, res_bind; set (w := Expr.read_column _ _ _).
  - destruct (Expr.eval_compare _ w _) as [v|]; [|done]. intros H. exists v. auto.
  - destruct (Expr.eval_between _ w _ _) as [v|]; [|done]. intros H. exists v. auto.
  - rewrite Ec, <- list_fmap_compose. destruct lits as [|l lits].
    + intros [= <-]. destruct (Expr.is_null w) eqn:Ew; [destruct w; try done|]; eexists; (split; [done|]); split; congruence.
    + destruct (Expr.is_null w) eqn:Ew.
      * intros H. exists w. auto.
      * cbn [fmap list_fmap]. unfold compose. cbn [eval]. destruct (Expr.eval_in false w _ false) as [v|]; [|done]. intros H. exists v. auto.
  - intros [= <-]. eexists. split; [done|]. split; congruence.
  - intros [= <-]. eexists. split; [done|]. split; congruence.
Qed.

(** The predicates of a filter: no accessor, and a test bounds decide. *)
Lemma preds_plain n p : p ∈ preds (conditions n) -> pr_json p = None /\ ScalarIndex.decided (pr_test p).
Proof.
  induction n as [v|c|a IHa b IHb|a IHa b IHb|a IHa|op a _ b _|a _|a _|op a _|ng a _ items|ng a _ lo _ hi _|op a _ b _|a _];
    cbn [conditions]; intros Hp; try (by apply elem_of_nil in Hp).
  - cbn [preds] in Hp. apply elem_of_app in Hp as [?|?]; auto.
  - cbn [preds] in Hp. apply elem_of_app in Hp as [?|?]; auto.
  - auto.
  - repeat case_match; cbn in Hp; try (by apply elem_of_nil in Hp); by apply list_elem_of_singleton in Hp as ->.
  - repeat case_match; cbn in Hp; try (by apply elem_of_nil in Hp); by apply list_elem_of_singleton in Hp as ->.
  - repeat case_match; cbn in Hp; try (by apply elem_of_nil in Hp); by apply list_elem_of_singleton in Hp as ->.
  - repeat case_match; cbn in Hp; try (by apply elem_of_nil in Hp); by apply list_elem_of_singleton in Hp as ->.
  - repeat case_match; cbn in Hp; try (by apply elem_of_nil in Hp); by apply list_elem_of_singleton in Hp as ->.
Qed.

(** An answer that holds the items that pass, and only them when it is exact, is the segment's. *)
Lemma items_answer p index t items lits kind one ex :
  held_column index (pr_column p) t items -> typed_column p t items lits kind -> ScalarIndex.decided (pr_test p) ->
  (forall h, ascending (rows_of one h)) -> (forall h o, o ∈ rows_of one h -> is_u32 h /\ is_u32 o) ->
  (forall it, it ∈ ScalarSort.its items ->
     ScalarIndex.passes (ct_type t) (ct_unit t) (ct_scale t) (pr_test p) lits (ScalarIndex.row_of items it) = true ->
     u32 (ScalarSort.i_addr it) ∈ rows_of one (RowSets.fragment_of (ScalarSort.i_addr it))) ->
  (ex = true -> forall h o, o ∈ rows_of one h -> exists it, it ∈ ScalarSort.its items /\ RowSets.fragment_of (ScalarSort.i_addr it) = h /\
     u32 (ScalarSort.i_addr it) = o /\
     ScalarIndex.passes (ct_type t) (ct_unit t) (ct_scale t) (pr_test p) lits (ScalarIndex.row_of items it) = true) ->
  segment_answers env search live batch p index one ex.
Proof.
  intros [Hi Hv] [_ _ _ _ _ Hl _ Hc] Hd Hasc Hran Hpass Hexact. split; [done | done | |].
  - intros f x [Hx Ho]%coverage_sound Hlv Ht. destruct (Hi f x Hx Ho Hlv) as (it & Hin & Hloc). do 2 eexists. split; [|exact Hloc].
    apply Hpass; [done|]. apply ScalarIndex.passes_true. assert (p_test (pr_test p) <> TContains) as Hnc by (intros E; unfold ScalarIndex.decided in Hd; by rewrite E in Hd).
    destruct (ScalarIndex.holds_total (ct_type t) (ct_unit t) (ct_scale t) (pr_test p) lits (ScalarIndex.row_of items it) Hc Hnc) as [b Hb].
    rewrite <- (Hv it f x Hin Hloc Hx Ho Hlv) in Hb |- *. destruct (pred_node_holds p lits f x b Hl Hd Hb) as (v & Ev & Hbv). unfold tru in Ht. rewrite Ev in Ht.
    rewrite Hb. f_equal. apply Hbv. congruence.
  - intros He h o f x Ho Hloc [Hx Hov]%coverage_sound Hlv v Hev. destruct (Hexact He h o Ho) as (it & Hin & <- & <- & Hp). apply ScalarIndex.passes_true in Hp.
    rewrite <- (Hv it f x Hin Hloc Hx Hov Hlv) in Hp. destruct (pred_node_holds p lits f x true Hl Hd Hp) as (v' & Ev & Hbv). rewrite Ev in Hev.
    injection Hev as <-. by apply Hbv.
Qed.

Lemma btree_answer p index t bt items lits kind threads one :
  held_column index (pr_column p) t items -> typed_column p t items lits kind -> ScalarIndex.decided (pr_test p) ->
  ScalarIndex.btree_holds (ct_type t) items bt (ScalarSort.sort_items threads items kind false) ->
  search_btree_of env t (pr_test p) bt RowSet0 = Ok (Some one) -> segment_answers env search live batch p index one true.
Proof.
  intros Hh Ht Hd Hbt E. pose proof Ht as [[name Hk] Hn Hok Hvals Haddr Hl Hfit Hcomp]. rewrite ScalarSort.sort_items_eq in Hbt by done. unfold search_btree_of in E.
  destruct (ScalarIndex.search_btree_exact (e_float_op env) _ _ _ _ _ Hk items Hn Hvals _ _ Hl Hfit Hcomp Hd bt RowSet0 Haddr Hbt) as (one' & E' & Hrows).
  rewrite E' in E. injection E as ->.
  assert (forall h, rows_of one h = sort_unique (u32 <$> filter (fun a => RowSets.fragment_of a = h)
    (ScalarIndex.passing (ct_type t) (ct_unit t) (ct_scale t) items (pr_test p) lits))) as Hr.
  { intros h. rewrite Hrows. assert (rows_of RowSet0 h = []) as -> by (unfold rows_of; cbn; by rewrite lookup_empty). done. }
  assert (forall h o, o ∈ rows_of one h <-> exists it, it ∈ ScalarSort.its items /\ RowSets.fragment_of (ScalarSort.i_addr it) = h /\
    u32 (ScalarSort.i_addr it) = o /\ ScalarIndex.passes (ct_type t) (ct_unit t) (ct_scale t) (pr_test p) lits (ScalarIndex.row_of items it) = true) as Hmem.
  { intros h o. rewrite Hr, (proj2 (sort_unique_spec _)). unfold ScalarIndex.passing. rewrite list_elem_of_fmap. split.
    - intros (a & -> & [Hf (it & -> & [Hp Hin]%list_elem_of_filter)%list_elem_of_fmap]%list_elem_of_filter). exists it. by apply Is_true_true in Hp.
    - intros (it & Hin & Hf & <- & Hp). exists (ScalarSort.i_addr it). split; [done|]. apply list_elem_of_filter. split; [done|].
      apply list_elem_of_fmap. exists it. split; [done|]. apply list_elem_of_filter. by rewrite Hp. }
  eapply items_answer; [exact Hh | exact Ht | done | | | |].
  - intros h. rewrite Hr. apply sort_unique_spec.
  - intros h o (it & _ & <- & <- & _)%Hmem. split; apply u32_range.
  - intros it Hin Hp. apply Hmem. by exists it.
  - intros _ h o Ho. by apply Hmem.
Qed.

Lemma bitmap_answer p index t bm items lits kind threads physical one :
  held_column index (pr_column p) t items -> typed_column p t items lits kind -> ScalarIndex.decided (pr_test p) ->
  SegmentSearch.bitmap_holds (ct_type t) items bm (ScalarSort.sort_items threads items kind true) ->
  ScalarIndex.search_bitmap (e_float_op env) (ct_type t) (ct_unit t) (ct_scale t) false (pr_test p) bm physical RowSet0 = Ok (Some one) ->
  segment_answers env search live batch p index one true.
Proof.
  intros Hh Ht Hd Hbm E. pose proof Ht as [[name Hk] Hn Hok Hvals Haddr Hl Hfit Hcomp]. rewrite ScalarSort.sort_items_eq in Hbm by done.
  destruct (SegmentSearch.search_bitmap_exact (e_float_op env) _ _ _ _ _ Hk items Hn Hvals _ _ Hl Hfit Hcomp Hd bm physical Haddr Hbm) as (one' & E' & Hrows).
  rewrite E' in E. injection E as ->. eapply items_answer; [exact Hh | exact Ht | done | | | |].
  - apply Hrows.
  - intros h o (it & _ & <- & <- & _)%(proj2 (Hrows h)). split; apply u32_range.
  - intros it Hin Hp. apply Hrows. by exists it.
  - intros _ h o Ho. by apply Hrows.
Qed.

Lemma zonemap_answer p index t zm items lits kind rows_per_zone one :
  held_column index (pr_column p) t items -> typed_column p t items lits kind -> zoned_column t items -> ScalarIndex.decided (pr_test p) ->
  ZoneMap.zonemap_holds (ct_type t) zm
    (ScalarIndex.write_zonemap items (ScalarIndex.floating (ct_type t)) false (ZoneMap.zones_of items (ct_type t) kind rows_per_zone)).1 ->
  ScalarIndex.search_zonemap (e_float_op env) (ct_type t) (ct_unit t) (ct_scale t) (pr_test p) zm RowSet0 = Ok (Some one) ->
  segment_answers env search live batch p index one false.
Proof.
  intros Hh Ht [Zo Zn] Hd Hzm E. pose proof Ht as [[name Hk] Hn Hok Hvals Haddr Hl Hfit Hcomp].
  pose proof (SegmentSearch.ascending_in_order _ Zo Haddr) as Hord.
  destruct (ZoneMap.search_zonemap_complete (e_float_op env) _ _ _ _ _ Hk items Hn Hord Hok Hvals _ _ Hl Hfit Hcomp Hd rows_per_zone zm Hzm RowSet0) as (one' & E' & _ & Hall).
  destruct (ZoneMap.search_zonemap_keeps (e_float_op env) _ _ (ct_scale t) _ _ Hk items _ _ Hl Hfit Hcomp Hd rows_per_zone zm Hzm RowSet0) as (keep & E2 & _).
  rewrite E in E', E2. injection E' as <-. injection E2 as ->.
  pose proof (SegmentSearch.zonemap_rows_ascending _ zm items kind rows_per_zone _ keep Hn Zo Haddr Hzm) as Hz.
  eapply items_answer; [exact Hh | exact Ht | done | | | |done].
  - apply Hz.
  - intros h o. apply Hz.
  - intros it Hin Hp. apply Hall; [done | done|]. by apply Zn.
Qed.

(** The search of every segment asked keeps its promise. *)
Lemma index_files_answer asked :
  (forall p, p ∈ asked -> pr_json p = None /\ ScalarIndex.decided (pr_test p)) -> IndexFiles asked -> SegmentsAnswer env search live batch asked.
Proof.
  intros Hplain Hfiles field p index dir one ex Hp Hask Hj. destruct (Hplain p Hp) as [Hnj Hd]. destruct (Hfiles p field index dir Hp Hask) as [Fb Fz Fm [Fk1 Fk2]].
  unfold has_json in Hj. rewrite Hnj in Hj. unfold search_segment, zoned. rewrite Hj. unfold mbind, res_bind.
  destruct (String.eqb_spec (pb.ix_details_type_url index) kBTree) as [Ek|Ek].
  { cbn [andb]. destruct (btree_files index); [|by rewrite Ek]. destruct (load_btree _ dir) as [[t bt]|]; [|done]. cbn [fst snd].
    destruct (search_btree_of _ _ _ _ _) as [[o|]|] eqn:Es; [|done..]. intros [= -> <-].
    destruct (Fb Ek t bt eq_refl) as (items & lits & kind & threads & H1 & H2 & H3). by eapply btree_answer. }
  cbn [andb]. destruct (String.eqb_spec (pb.ix_details_type_url index) kBloom) as [|_]; [done|]. cbn [andb orb]. rewrite orb_false_r.
  destruct (String.eqb_spec (pb.ix_details_type_url index) kZoneMap) as [Ez|Ez].
  { cbn [andb]. destruct (has_files index); [|by rewrite Ez]. destruct (load_zonemap _ dir) as [[t zm]|]; [|done]. cbn [fst snd].
    destruct (ScalarIndex.search_zonemap _ _ _ _ _ _ _) as [[o|]|] eqn:Es; [|done..]. intros [= -> <-].
    destruct (Fz Ez t zm eq_refl) as (items & lits & kind & rpz & H1 & H2 & H3 & H4). by eapply zonemap_answer. }
  cbn [andb]. destruct (String.eqb_spec (pb.ix_details_type_url index) kLabelList) as [|_]; [done|]. rewrite orb_false_r.
  destruct (String.eqb_spec (pb.ix_details_type_url index) kBitmap) as [Em|Em].
  { cbn [andb]. destruct (has_files index); [|by rewrite Em]. destruct (load_bitmap _ dir) as [[t bm]|]; [|done]. cbn [fst snd].
    destruct (ScalarIndex.search_bitmap _ _ _ _ _ _ _ _ _) as [[o|]|] eqn:Es; [|done..]. intros [= -> <-].
    destruct (Fm Em t bm eq_refl) as (items & lits & kind & threads & H1 & H2 & H3). by eapply bitmap_answer. }
  cbn [andb]. destruct (_ && has_files index); [|done]. assert (p_test (pr_test p) <> TContains) as Hnc by (intros E; unfold ScalarIndex.decided in Hd; by rewrite E in Hd).
  unfold search_ngram. by destruct (p_test (pr_test p)).
Qed.

End Files.


(** *** A version with a BTREE

    Two fragments of two rows of an int64 column [v], 9 and a null, -4 and 3, under one BTREE, and the filter
    [3 <= v AND v IS NOT NULL]. *)
Definition sample_column (f : Z) : ArrayView :=
  if f =? 0 then View false 0 1 (Some [true; false]) [SInt 9; SNone] [] else View false 0 0 None [SInt (-4); SInt 3] [].
Definition sample_batch (f : Z) : ArrayView := View true 0 0 None [] [sample_column f].
Definition sample_live (f x : Z) : Prop := (f = 0 \/ f = 1) /\ (x = 0 \/ x = 1).
Definition sample_items : ScalarSort.Items :=
  ScalarSort.mkItems [sample_column 0; sample_column 1]
    [ScalarSort.mkItem 0 0 0; ScalarSort.mkItem 0 1 1; ScalarSort.mkItem 1 0 4294967296; ScalarSort.mkItem 1 1 4294967297].
Definition sample_type : ColumnType := mkType INT64 Expr.Second 0 "l".
Definition sample_btree : ScalarIndex.BTreeIndex :=
  ScalarIndex.loaded_btree sample_items (ScalarSort.sort_items 2 sample_items ScalarSort.KInt false).
Definition sample_index : pb.IndexMetadata :=
  pb.mkIndexMetadata [] [0] "v_idx" 1 true [0; 1] false (replicate 16 0) kBTree [] 1 0 [("page_data.lance", 1); ("page_lookup.lance", 1)].
Definition sample_field : pb.Field := pb.mkField "v" "int64" 0 (-1) 2 true 1 ∅ false 0 0 [].
Definition sample_fragment (f : Z) : pb.DataFragment := pb.mkDataFragment f [] 2 pb.no_deletion_file [].
Definition sample_manifest : pb.Manifest :=
  pb.set_indices [sample_index] (pb.set_fragments [sample_fragment 0; sample_fragment 1] (pb.set_fields [sample_field] pb.Manifest0)).
Definition sample_env : Env :=
  mkEnv (fun _ a _ => a) (mkFiles (fun _ => Ok (sample_type, sample_btree)) (fun _ => Err "") (fun _ => Err "") (fun _ => Err "") (fun _ => Err ""))
    (fun _ _ => Err "") (fun _ => Err "") (fun _ => None) (fun _ => "") (fun _ => []) (fun _ => "v >= 3") (fun _ => ["v"]).
Definition sample_ids : RowIdIndex.RowIdToAddress := RowIdIndex.mkRowIdToAddress false RowIdIndex.RowIdIndex0.
Definition sample_search : Search := mkSearch "ds" sample_manifest (physical_of sample_manifest) sample_ids None.
Definition sample_ref : ColumnRef := mkColumn [0%nat] INT64 Expr.Second 0.
Definition sample_filter : Node := Expr.And (Expr.Compare Le (Literal (VInt 3)) (Column sample_ref)) (Expr.IsNotNull (Column sample_ref)).

Lemma batch_valued (P : Slot -> Prop) : P (SInt 9) -> P (SInt (-4)) -> P (SInt 3) -> forall s, ScalarSort.item_valued sample_items s -> P s.
Proof.
  intros ? ? ? s (it & Hit & Hn & <-). repeat (apply elem_of_cons in Hit as [->|Hit]); try by apply elem_of_nil in Hit.
  all: cbn in Hn |- *; done.
Qed.

Lemma sample_holds : held_column sample_env sample_search sample_live sample_batch sample_index sample_ref sample_type sample_items.
Proof.
  split.
  - intros f x _ _ [[-> | ->] [-> | ->]];
      [exists (ScalarSort.mkItem 0 0 0) | exists (ScalarSort.mkItem 0 1 1) | exists (ScalarSort.mkItem 1 0 4294967296) | exists (ScalarSort.mkItem 1 1 4294967297)];
      (split; [cbn; set_solver | reflexivity]).
  - intros it f x Hit Ha _ _ _. repeat (apply elem_of_cons in Hit as [->|Hit]); try by apply elem_of_nil in Hit.
    all: vm_compute in Ha; injection Ha as <- <-; vm_compute; reflexivity.
Qed.

Lemma sample_files : IndexFiles sample_env sample_search sample_live sample_batch (preds (conditions sample_filter)).
Proof.
  intros p field index dir Hp [->%list_elem_of_singleton _ _ _]. split; [|done | done | done]. intros _ t bt [= <- <-].
  assert (exists lits, ScalarIndex.with_literals (pr_test p) lits /\ Forall (KeyOrder.literal_fits INT64 0) lits /\
    ScalarIndex.comparable INT64 Expr.Second 0 lits /\ pr_column p = sample_ref) as (lits & L1 & L2 & L3 & L5).
  { cbn in Hp. apply elem_of_cons in Hp as [->|Hp]; [|apply list_elem_of_singleton in Hp as ->].
    - exists [VInt 3]. split; [split; [reflexivity | repeat constructor; cbn; lia]|]. split; [repeat constructor; cbn; lia|].
      split; [|reflexivity]. constructor; [|constructor]. right. intros s. eexists. reflexivity.
    - exists []. split; [split; [reflexivity | constructor]|]. split; [constructor|]. split; [constructor|]. reflexivity. }
  exists sample_items, lits, ScalarSort.KInt, 2%nat. rewrite L5. split; [apply sample_holds|]. split; [|apply ScalarIndex.loaded_btree_holds; [apply batch_valued|]; cbn; lia].
  split; try done.
  - by exists "v".
  - split; [done|]. apply batch_valued; cbn; lia.
  - apply batch_valued; cbn; lia.
  - repeat constructor; unfold is_u64; cbn; lia.
Qed.


End IndexAnswers.
