(* ===== verification/Fst.v ===== *)
(** * Finite-state transducer maps (src/index/fts/fts_fst.cpp and .hpp)

    The vocabulary of a full text index: keys in byte order, each with a 64-bit value, as an automaton that
    shares prefixes and suffixes. [FstMap] reads it ([open_], [node], [transition], [find_input], [get],
    [for_each]); [FstBuilder] writes it ([insert], [finish]), keeping the nodes of the last key unfinished and
    compiling each to bytes once no later key can change it, through a registry of the nodes compiled before.

    A read outside the bytes is the value [Outside] of [access], [Refused] what the code reports as malformed
    or absent. Addresses and sizes are [size_t]; the readers check before they subtract, so they are plain [Z]. *)

From S2P Require Import Prelude.

Module Fst.

Definition kVersion : Z := 3.
Definition kEmptyAddress : Z := 0.
Definition kNoneAddress : Z := 1.
Definition kTransIndexThreshold : Z := 32.

Definition kCommonInputs : list Z := [
  84; 85; 86; 87; 88; 89; 90; 91; 92; 93; 94; 95; 96; 97; 98; 99;
  100; 101; 102; 103; 104; 105; 106; 107; 108; 109; 110; 111; 112; 113; 114; 115;
  116; 80; 117; 118; 79; 39; 30; 81; 75; 74; 82; 57; 66; 16; 12; 2;
  19; 20; 21; 27; 32; 29; 35; 36; 37; 34; 24; 73; 119; 23; 120; 40;
  83; 44; 48; 42; 43; 49; 46; 62; 61; 47; 69; 68; 58; 56; 55; 59;
  51; 72; 54; 45; 52; 64; 65; 63; 71; 67; 70; 77; 121; 78; 122; 31;
  123; 4; 25; 9; 17; 1; 26; 22; 13; 7; 50; 38; 14; 15; 10; 3;
  8; 60; 6; 5; 0; 18; 33; 11; 41; 28; 53; 124; 125; 76; 126; 127;
  128; 129; 130; 131; 132; 133; 134; 135; 136; 137; 138; 139; 140; 141; 142; 143;
  144; 145; 146; 147; 148; 149; 150; 151; 152; 153; 154; 155; 156; 157; 158; 159;
  160; 161; 162; 163; 164; 165; 166; 167; 168; 169; 170; 171; 172; 173; 174; 175;
  176; 177; 178; 179; 180; 181; 182; 183; 184; 185; 186; 187; 188; 189; 190; 191;
  192; 193; 194; 195; 196; 197; 198; 199; 200; 201; 202; 203; 204; 205; 206; 207;
  208; 209; 210; 211; 212; 213; 214; 215; 216; 217; 218; 219; 220; 221; 222; 223;
  224; 225; 226; 227; 228; 229; 230; 231; 232; 233; 234; 235; 236; 237; 238; 239;
  240; 241; 242; 243; 244; 245; 246; 247; 248; 249; 250; 251; 252; 253; 254; 255].

Definition kCommonInputsInv : list Z :=
  foldl (fun v i => <[Z.to_nat (nth i kCommonInputs 0) := Z.of_nat i]> v) (replicate 256 0) (seq 0 256).

Definition common_idx (input : Z) : Z :=
  let val := (nth (Z.to_nat input) kCommonInputs 0 + 1) mod 256 in if 0x3F <? val then 0 else val.

(** The common input a state byte's low 6 bits name, or -1. *)
Definition common_input (idx : Z) : Z := if idx =? 0 then -1 else nth (Z.to_nat (idx - 1)) kCommonInputsInv 0.

(** The loop runs at most seven times. *)
Fixpoint pack_size_loop (fuel : nat) (n size : Z) : Z :=
  match fuel with
  | O => size
  | S fuel => if (size <? 8) && negb (Z.shiftr n (8 * size) =? 0) then pack_size_loop fuel n (size + 1) else size
  end.
Definition pack_size (n : Z) : Z := pack_size_loop 7 n 1.

Definition pack_uint (n nbytes : Z) : list Z := le_bytes (Z.to_nat nbytes) n.

Definition delta_of (node_addr trans_addr : Z) : Z := if trans_addr =? kEmptyAddress then kEmptyAddress else u64 (node_addr - trans_addr).

(** ** The checksum *)

Definition crc_bit (c : Z) : Z := if negb (Z.land c 1 =? 0) then Z.lxor (Z.shiftr c 1) 0x82F63B78 else Z.shiftr c 1.
Definition crc_table0 : list Z := (fun i => Nat.iter 8 crc_bit i) <$> seqZ 0 256.
Definition tab (t : list Z) (i : Z) : Z := nth (Z.to_nat i) t 0.
Definition crc_next (t : list Z) : list Z := (fun v => Z.lxor (Z.shiftr v 8) (tab crc_table0 (Z.land v 0xFF))) <$> t.

(** [Crc32cTables]: the eight tables. *)
Definition crc_tables : list (list Z) := (fun s => Nat.iter s crc_next crc_table0) <$> seq 0 8.
Definition crc_tab (ts : list (list Z)) (s : nat) (i : Z) : Z := tab (nth s ts []) i.

Definition crc_byte (ts : list (list Z)) (crc b : Z) : Z := Z.lxor (crc_tab ts 0 (Z.land (Z.lxor crc b) 0xFF)) (Z.shiftr crc 8).

Definition crc_word (ts : list (list Z)) (crc : Z) (data : list Z) : Z :=
  let lo := Z.lxor (le_value (take 4 data)) crc in
  let hi := le_value (take 4 (drop 4 data)) in
  Z.lxor (Z.lxor (Z.lxor (Z.lxor (Z.lxor (Z.lxor (Z.lxor
    (crc_tab ts 7 (Z.land lo 0xFF)) (crc_tab ts 6 (Z.land (Z.shiftr lo 8) 0xFF)))
    (crc_tab ts 5 (Z.land (Z.shiftr lo 16) 0xFF))) (crc_tab ts 4 (Z.shiftr lo 24)))
    (crc_tab ts 3 (Z.land hi 0xFF))) (crc_tab ts 2 (Z.land (Z.shiftr hi 8) 0xFF)))
    (crc_tab ts 1 (Z.land (Z.shiftr hi 16) 0xFF))) (crc_tab ts 0 (Z.shiftr hi 24)).

(** Eight bytes at a time, then one at a time: at most [length data] rounds. *)
Fixpoint crc_loop (fuel : nat) (ts : list (list Z)) (crc : Z) (data : list Z) : Z :=
  match fuel with
  | O => crc
  | S fuel =>
      if 8 <=? zlen data then crc_loop fuel ts (crc_word ts crc data) (drop 8 data)
      else match data with [] => crc | b :: data => crc_loop fuel ts (crc_byte ts crc b) data end
  end.

(** [~crc] of 32 bits. *)
Definition not32 (c : Z) : Z := Z.lxor c 0xFFFFFFFF.
Definition crc32c (crc : Z) (data : list Z) : Z := not32 (crc_loop (length data) crc_tables (not32 crc) data).

Definition masked (sum : Z) : Z := u32 (Z.lor (Z.shiftr sum 15) (u32 (Z.shiftl sum 17)) + 0xA282EAD8).

(** ** Reading *)

Inductive access (A : Type) : Type :=
  | Outside
  | Refused
  | Got (a : A).
Arguments Outside {A}.
Arguments Refused {A}.
Arguments Got {A} _.

#[export] Instance access_bind : MBind access :=
  fun A B k m => match m with Got a => k a | Outside => Outside | Refused => Refused end.

Definition byte (data : list Z) (i : Z) : access Z :=
  if i <? 0 then Outside else match data !! Z.to_nat i with Some b => Got b | None => Outside end.

(** [unpack_uint (data_ + at, nbytes)]. *)
Definition unpack_uint (data : list Z) (at_ nbytes : Z) : access Z :=
  if (at_ <? 0) || (zlen data <? at_ + nbytes) then Outside
  else Got (le_value (take (Z.to_nat nbytes) (drop (Z.to_nat at_) data))).

(** The members [open] sets; [f_size] is where the nodes end. *)
Record FstMap := mkMap { f_data : list Z; f_size : Z; f_version : Z; f_root : Z; f_len : Z }.

Definition read_u64 (data : list Z) (at_ : Z) : Z := le_value (take 8 (drop (Z.to_nat at_) data)).

Definition open_ (data : list Z) : res FstMap :=
  let size := zlen data in
  if size <? 36 then Err ("fst: " +:+ pretty size +:+ " bytes is too short")
  else
    let version := read_u64 data 0 in
    if (version =? 0) || (kVersion <? version) then Err ("fst: unsupported version " +:+ pretty version)
    else
      let end_ := if 3 <=? version then size - 4 else size in
      if (3 <=? version) && negb (masked (crc32c 0 (take (Z.to_nat end_) data)) =? le_value (drop (Z.to_nat end_) data))
      then Err "fst: checksum mismatch"
      else
        let root := read_u64 data (end_ - 8) in
        let len := read_u64 data (end_ - 16) in
        let empty_total := if version <=? 2 then 32 else 36 in
        let addr_offset := if version <=? 2 then 17 else 21 in
        let ok := if root =? kEmptyAddress then size =? empty_total else u64 (root + addr_offset) =? size in
        if negb ok then Err "fst: bad root address" else Ok (mkMap data (end_ - 16) version root len).

Record Node := mkNode {
  n_start : Z; n_end : Z; n_state : Z; n_final : bool; n_ntrans : Z; n_tsize : Z; n_osize : Z;
  n_input_len : Z; n_ntrans_len : Z; n_index_size : Z; n_final_output : Z }.
Record Trans := mkTrans { t_inp : Z; t_out : Z; t_addr : Z }.

Section Reader.
Context (m : FstMap).
Notation data_ := (f_data m).

(** The sizes of a node before its state byte; [need] is the bytes they take. *)
Definition node_shape (addr v : Z) : access (Node * Z) :=
  if Z.shiftr v 6 =? 3 then
    let input_len := if Z.land v 0x3F =? 0 then 1 else 0 in
    Got (mkNode addr 0 v false 1 0 0 input_len 0 0 0, input_len)
  else if Z.shiftr v 6 =? 2 then
    let input_len := if Z.land v 0x3F =? 0 then 1 else 0 in
    if addr <? input_len + 1 + 16 then Refused
    else
      sizes ← byte data_ (addr - input_len - 1);
      let tsize := Z.shiftr sizes 4 in
      let osize := Z.land sizes 0x0F in
      Got (mkNode addr 0 v false 1 tsize osize input_len 0 0 0, input_len + 1 + tsize + osize)
  else
    let is_final := negb (Z.land v 0x40 =? 0) in
    nt ← (if Z.land v 0x3F =? 0
          then if addr <? 16 + 2 then Refused
               else b ← byte data_ (addr - 1); Got (if b =? 1 then 256 else b, 1)
          else Got (Z.land v 0x3F, 0));
    let '(ntrans, ntrans_len) := nt in
    if addr <? ntrans_len + 1 + 16 then Refused
    else
      sizes ← byte data_ (addr - ntrans_len - 1);
      let tsize := Z.shiftr sizes 4 in
      let osize := Z.land sizes 0x0F in
      let index_size := if (2 <=? f_version m) && (kTransIndexThreshold <? ntrans) then 256 else 0 in
      Got (mkNode addr 0 v is_final ntrans tsize osize 0 ntrans_len index_size 0,
           ntrans_len + 1 + index_size + ntrans * (1 + tsize) + ntrans * osize + (if is_final then osize else 0)).

Definition placed (n : Node) (end_ final_output : Z) : Node :=
  mkNode (n_start n) end_ (n_state n) (n_final n) (n_ntrans n) (n_tsize n) (n_osize n) (n_input_len n) (n_ntrans_len n)
    (n_index_size n) final_output.

Definition node (addr : Z) : access Node :=
  if addr =? kEmptyAddress then Got (mkNode 0 0 0 true 0 0 0 0 0 0 0)
  else if (addr <? 16) || (f_size m <=? addr) then Refused
  else
    v ← byte data_ addr;
    sh ← node_shape addr v;
    let '(n, need) := sh in
    if (8 <? n_tsize n) || (8 <? n_osize n) || (addr - 16 <? need) then Refused
    else
      let end_ := addr - need in
      if (Z.shiftr v 6 <? 2) && n_final n && (0 <? n_osize n)
      then o ← unpack_uint data_ end_ (n_osize n); Got (placed n end_ o)
      else Got (placed n end_ 0).

(** The input of a node of one transition. *)
Definition single_input (n : Node) : access Z :=
  let common := common_input (Z.land (n_state n) 0x3F) in
  if common <? 0 then byte data_ (n_start n - 1) else Got common.

Definition far_address (n : Node) (inp out tat : Z) : access Trans :=
  delta ← (if n_tsize n =? 0 then Got 0 else unpack_uint data_ tat (n_tsize n));
  if delta =? kEmptyAddress then Got (mkTrans inp out kEmptyAddress)
  else if n_end n <? delta then Refused
  else let addr := n_end n - delta in if (16 <=? addr) && (addr <? n_start n) then Got (mkTrans inp out addr) else Refused.

Definition transition (n : Node) (i : Z) : access Trans :=
  if n_ntrans n <=? i then Refused
  else if 2 <=? Z.shiftr (n_state n) 6 then
    inp ← single_input n;
    if Z.shiftr (n_state n) 6 =? 3 then
      if n_end n =? 0 then Refused
      else let addr := n_end n - 1 in if 16 <=? addr then Got (mkTrans inp 0 addr) else Refused
    else
      let base := n_start n - n_input_len n - 1 in
      let tat := base - n_tsize n in
      out ← (if n_osize n =? 0 then Got 0 else unpack_uint data_ (tat - n_osize n) (n_osize n));
      far_address n inp out tat
  else
    let base := n_start n - n_ntrans_len n - 1 - n_index_size n in
    inp ← byte data_ (base - i - 1);
    let tat := base - n_ntrans n - (i + 1) * n_tsize n in
    let total_trans := n_ntrans n * (1 + n_tsize n) + n_index_size n in
    out ← (if n_osize n =? 0 then Got 0
           else unpack_uint data_ (n_start n - n_ntrans_len n - 1 - total_trans - (i + 1) * n_osize n) (n_osize n));
    far_address n inp out tat.

(** The inputs from [at_] on, [j] of them seen. *)
Fixpoint scan_inputs (count : nat) (at_ ntrans j b : Z) : access Z :=
  match count with
  | O => Refused
  | S count => x ← byte data_ at_; if x =? b then Got (ntrans - j - 1) else scan_inputs count (at_ + 1) ntrans (j + 1) b
  end.

Definition find_input (n : Node) (b : Z) : access Z :=
  if n_start n =? 0 then Refused
  else if 2 <=? Z.shiftr (n_state n) 6 then inp ← single_input n; if inp =? b then Got 0 else Refused
  else
    let base := n_start n - n_ntrans_len n - 1 in
    if negb (n_index_size n =? 0) then i ← byte data_ (base - n_index_size n + b); if i <? n_ntrans n then Got i else Refused
    else scan_inputs (Z.to_nat (n_ntrans n)) (base - n_ntrans n) (n_ntrans n) 0 b.

Fixpoint get_loop (n : Node) (key : list Z) (out : Z) : access Z :=
  match key with
  | [] => if n_final n then Got (u64 (out + n_final_output n)) else Refused
  | c :: key => i ← find_input n c; t ← transition n i; n' ← node (t_addr t); get_loop n' key (u64 (out + t_out t))
  end.
Definition get (key : list Z) : access Z := n ← node (f_root m); get_loop n key 0.

(** [for_each]: the frames, the last pushed first, the key so far, and the entries [f] was called with. *)
Record Frame := mkFrame { fr_node : Node; fr_next : Z; fr_out : Z }.

Fixpoint for_each_loop (fuel : nat) (stack : list Frame) (key : list Z) (seen : list (list Z * Z)) : option (list (list Z * Z) * access unit) :=
  match stack with
  | [] => Some (seen, Got tt)
  | top :: rest =>
      match fuel with
      | O => None
      | S fuel =>
          if n_ntrans (fr_node top) <=? fr_next top then for_each_loop fuel rest (removelast key) seen
          else
            let child := t ← transition (fr_node top) (fr_next top); c ← node (t_addr t); Got (t, c) in
            match child with
            | Outside => Some (seen, Outside)
            | Refused => Some (seen, Refused)
            | Got (t, c) =>
                if f_size m + 1 <? zlen stack then Some (seen, Refused)
                else
                  let out := u64 (fr_out top + t_out t) in
                  let key := key ++ [t_inp t] in
                  let seen := if n_final c then seen ++ [(key, u64 (out + n_final_output c))] else seen in
                  for_each_loop fuel (mkFrame c 0 out :: mkFrame (fr_node top) (fr_next top + 1) (fr_out top) :: rest) key seen
            end
      end
  end.

Definition for_each (fuel : nat) : option (list (list Z * Z) * access unit) :=
  match node (f_root m) with
  | Outside => Some ([], Outside)
  | Refused => Some ([], Refused)
  | Got root => for_each_loop fuel [mkFrame root 0 0] [] (if n_final root then [([], n_final_output root)] else [])
  end.

End Reader.

(** ** Building *)

Record BTrans := mkBTrans { b_inp : Z; b_out : Z; b_addr : Z }.
Record BNode := mkBNode { bn_final : bool; bn_final_output : Z; bn_trans : list BTrans }.
Definition BNode0 : BNode := mkBNode false 0 [].

#[export] Instance BTrans_eq_dec : EqDecision BTrans.
Proof. solve_decision. Defined.
#[export] Instance BNode_eq_dec : EqDecision BNode.
Proof. solve_decision. Defined.

(** A node of the last key; [u_last] is its last input with the output so far, while it is not compiled. *)
Record Unfinished := mkUnfinished { u_node : BNode; u_last : option (Z * Z) }.
Definition Unfinished0 : Unfinished := mkUnfinished BNode0 None.

Definition last_compiled (addr : Z) (u : Unfinished) : Unfinished :=
  match u_last u with
  | None => u
  | Some (inp, out) =>
      mkUnfinished (mkBNode (bn_final (u_node u)) (bn_final_output (u_node u)) (bn_trans (u_node u) ++ [mkBTrans inp out addr])) None
  end.

Definition add_output_prefix (prefix : Z) (u : Unfinished) : Unfinished :=
  let n := u_node u in
  mkUnfinished
    (mkBNode (bn_final n) (if bn_final n then u64 (bn_final_output n + prefix) else bn_final_output n)
       ((fun t => mkBTrans (b_inp t) (u64 (b_out t + prefix)) (b_addr t)) <$> bn_trans n))
    ((fun l => (l.1, u64 (l.2 + prefix))) <$> u_last u).

(** [index]: the place of each input, 255 where there is none. *)
Definition input_index (trans : list BTrans) : list Z :=
  foldl (fun index e => <[Z.to_nat (b_inp e.2) := u8 (Z.of_nat e.1)]> index) (replicate 256 255) (imap pair trans).

Definition is_empty_final (n : BNode) : bool := bn_final n && (bn_final_output n =? 0) && bool_decide (bn_trans n = []).

(** The bytes of a node of any number of transitions. *)
Definition any_node (addr : Z) (n : BNode) : list Z :=
  let trans := bn_trans n in
  let tsize := foldl (fun s t => Z.max s (pack_size (delta_of addr (b_addr t)))) 0 trans in
  let osize := foldl (fun s t => Z.max s (pack_size (b_out t))) (pack_size (bn_final_output n)) trans in
  let any_outs := negb (bn_final_output n =? 0) || existsb (fun t => negb (b_out t =? 0)) trans in
  let ntrans := zlen trans in
  let sizes := u8 (Z.lor (Z.shiftl tsize 4) (if any_outs then osize else 0)) in
  let state := Z.lor (if bn_final n then 0x40 else 0) (if ntrans <=? 0x3F then ntrans else 0) in
  (if any_outs then (if bn_final n then pack_uint (bn_final_output n) osize else []) ++
     concat ((fun t => pack_uint (b_out t) osize) <$> reverse trans) else []) ++
  concat ((fun t => pack_uint (delta_of addr (b_addr t)) tsize) <$> reverse trans) ++
  (b_inp <$> reverse trans) ++
  (if kTransIndexThreshold <? ntrans then input_index trans else []) ++
  [sizes] ++ (if Z.land state 0x3F =? 0 then [if ntrans =? 256 then 1 else u8 ntrans] else []) ++ [state].

(** Of one transition. *)
Definition one_node (last_addr addr : Z) (t : BTrans) : list Z :=
  let idx := common_idx (b_inp t) in
  if (b_addr t =? last_addr) && (b_out t =? 0) then (if idx =? 0 then [b_inp t] else []) ++ [Z.lor 0xC0 idx]
  else
    let osize := if b_out t =? 0 then 0 else pack_size (b_out t) in
    let delta := delta_of addr (b_addr t) in
    let tsize := pack_size delta in
    (if b_out t =? 0 then [] else pack_uint (b_out t) osize) ++ pack_uint delta tsize ++
    [u8 (Z.lor (Z.shiftl tsize 4) osize)] ++ (if idx =? 0 then [b_inp t] else []) ++ [Z.lor 0x80 idx].

(** The bytes [compile_node] appends. *)
Definition compile_node (last_addr addr : Z) (n : BNode) : list Z :=
  if is_empty_final n then []
  else match bn_trans n with
       | [t] => if bn_final n then any_node addr n else one_node last_addr addr t
       | _ => any_node addr n
       end.

Record Cell := mkCell { c_addr : Z; c_node : BNode }.
Definition Cell0 : Cell := mkCell kNoneAddress BNode0.
Definition kTableSize : Z := 10000.

(** [FstBuilder::Impl]; the registry gives the two cells of a hash. *)
Record Builder := mkBuilder {
  out : list Z; stack : list Unfinished; registry : gmap Z (Cell * Cell); last_key : option (list Z); last_addr : Z; len : Z }.
Definition Builder0 : Builder := mkBuilder (pack_uint kVersion 8 ++ pack_uint 0 8) [Unfinished0] ∅ None kNoneAddress 0.

Definition with_stack (b : Builder) (s : list Unfinished) : Builder := mkBuilder (out b) s (registry b) (last_key b) (last_addr b) (len b).

Definition hash_step (h x : Z) : Z := u64 (Z.lxor h x * 1099511628211).
Definition hash (n : BNode) : Z :=
  let h := hash_step 14695981039346656037 (if bn_final n then 1 else 0) in
  let h := hash_step h (bn_final_output n) in
  foldl (fun h t => hash_step (hash_step (hash_step h (b_inp t)) (b_out t)) (b_addr t)) h (bn_trans n) mod kTableSize.

Definition cell_is (c : Cell) (n : BNode) : bool := negb (c_addr c =? kNoneAddress) && bool_decide (c_node c = n).

Definition compile (b : Builder) (n : BNode) : Z * Builder :=
  if is_empty_final n then (kEmptyAddress, b)
  else
    let h := hash n in
    let cells := default (Cell0, Cell0) (registry b !! h) in
    if cell_is cells.1 n then (c_addr cells.1, b)
    else if cell_is cells.2 n then
      (c_addr cells.2, mkBuilder (out b) (stack b) (<[h := (cells.2, cells.1)]> (registry b)) (last_key b) (last_addr b) (len b))
    else
      let o := out b ++ compile_node (last_addr b) (zlen (out b)) n in
      let at_ := zlen o - 1 in
      (at_, mkBuilder o (stack b) (<[h := (mkCell at_ n, cells.1)]> (registry b)) (last_key b) at_ (len b)).

(** The nodes popped, the top one first. *)
Fixpoint compile_popped (b : Builder) (popped : list Unfinished) (addr : Z) : Z * Builder :=
  match popped with
  | [] => (addr, b)
  | u :: popped =>
      let u := if negb (addr =? kNoneAddress) then last_compiled addr u else u in
      let '(addr, b) := compile b (u_node u) in compile_popped b popped addr
  end.

Definition compile_from (b : Builder) (istate : nat) : Builder :=
  let '(addr, b') := compile_popped b (reverse (drop (S istate) (stack b))) kNoneAddress in
  let kept := take (S istate) (stack b) in
  with_stack b' (alter (last_compiled addr) (pred (length kept)) kept).

Fixpoint common_prefix_and_set_output (stack : list Unfinished) (bs : list Z) (v : Z) : nat * Z * list Unfinished :=
  match stack, bs with
  | u :: rest, c :: bs =>
      match u_last u with
      | Some (inp, o) =>
          if inp =? c then
            let common := Z.min o v in
            let add_prefix := o - common in
            let rest := if negb (add_prefix =? 0) then alter (add_output_prefix add_prefix) 0%nat rest else rest in
            let '(i, v, rest) := common_prefix_and_set_output rest bs (v - common) in
            (S i, v, mkUnfinished (u_node u) (Some (inp, common)) :: rest)
          else (0%nat, v, stack)
      | None => (0%nat, v, stack)
      end
  | _, _ => (0%nat, v, stack)
  end.

Definition leaf : Unfinished := mkUnfinished (mkBNode true 0 []) None.
Definition add_suffix (stack : list Unfinished) (bs : list Z) (v : Z) : list Unfinished :=
  match bs with
  | [] => stack
  | c :: bs =>
      alter (fun u => mkUnfinished (u_node u) (Some (c, v))) (pred (length stack)) stack ++
      ((fun c => mkUnfinished BNode0 (Some (c, 0))) <$> bs) ++ [leaf]
  end.

(** [key <= last] as strings of bytes. *)
Fixpoint key_leb (a b : list Z) : bool :=
  match a, b with
  | [], _ => true
  | _ :: _, [] => false
  | x :: a, y :: b => if x =? y then key_leb a b else x <? y
  end.

Definition set_root_final (value : Z) (u : Unfinished) : Unfinished := mkUnfinished (mkBNode true value (bn_trans (u_node u))) (u_last u).

Definition insert (b : Builder) (key : list Z) (value : Z) : res Builder :=
  match last_key b with
  | Some last => if key_leb key last then Err (if bool_decide (key = last) then "fst: duplicate key" else "fst: keys out of order") else Ok tt
  | None => Ok tt
  end ;;
  if bool_decide (key = []) then
    Ok (mkBuilder (out b) (alter (set_root_final value) 0%nat (stack b)) (registry b) (Some key) (last_addr b) 1)
  else
    let '(prefix, value, s) := common_prefix_and_set_output (stack b) key value in
    let b := mkBuilder (out b) s (registry b) (Some key) (last_addr b) (u64 (len b + 1)) in
    let b := compile_from b prefix in
    Ok (with_stack b (add_suffix (stack b) (drop prefix key) value)).

Definition finish (b : Builder) : list Z :=
  let b := compile_from b 0 in
  let root := u_node (nth 0 (stack b) Unfinished0) in
  let '(root_addr, b) := compile b root in
  let o := out b ++ pack_uint (len b) 8 ++ pack_uint root_addr 8 in
  o ++ pack_uint (masked (crc32c 0 o)) 4.

Fixpoint insert_all (b : Builder) (entries : list (list Z * Z)) : res Builder :=
  match entries with
  | [] => Ok b
  | e :: entries => b ← insert b e.1 e.2; insert_all b entries
  end.

End Fst.
