(* ===== verification/FstRead.v ===== *)
(** * Reading transducer nodes back (src/index/fts/fts_fst.cpp)

    The bytes [compile_node] writes for a node are read by [node], [transition] and [find_input] as that node,
    wherever they lie ([compiled_reads]); and on any bytes at all the reader stays inside them
    ([node_inside], [transition_inside], [find_input_inside]). *)

From S2P Require Import Prelude Fst.

Module FstRead.
Import Fst.

(** ** Bytes *)

Lemma byte_split data a x b i : data = a ++ x :: b -> i = zlen a -> byte data i = Got x.
Proof.
  intros -> ->. unfold byte, zlen. rewrite (proj2 (Z.ltb_ge _ _)) by lia. rewrite Nat2Z.id, lookup_app_r, Nat.sub_diag by lia. done.
Qed.

Lemma unpack_split data a s b i k : data = a ++ s ++ b -> i = zlen a -> k = zlen s -> unpack_uint data i k = Got (le_value s).
Proof.
  intros -> -> ->. unfold unpack_uint. autorewrite with nano. pose proof (zlen_nonneg a). pose proof (zlen_nonneg b).
  rewrite (proj2 (Z.ltb_ge _ _)), (proj2 (Z.ltb_ge (_ + _) _)) by lia. unfold zlen. rewrite !Nat2Z.id, drop_app_length, take_app_length. done.
Qed.

Lemma byte_inside data i : 0 <= i < zlen data -> exists b, byte data i = Got b.
Proof.
  intros Hi. unfold byte. rewrite (proj2 (Z.ltb_ge _ _)) by lia.
  destruct (lookup_lt_is_Some_2 data (Z.to_nat i)) as [b ->]; [unfold zlen in Hi; lia | by exists b].
Qed.

Lemma unpack_inside data i k : 0 <= i -> i + k <= zlen data -> exists v, unpack_uint data i k = Got v.
Proof. intros. unfold unpack_uint. rewrite (proj2 (Z.ltb_ge _ _)), (proj2 (Z.ltb_ge (zlen _) _)) by lia. by eexists. Qed.

(** ** Sizes, states and common inputs *)

Lemma pack_size_loop_spec fuel n size : 0 <= n < 2 ^ 64 -> 1 <= size <= 8 -> 8 - size <= Z.of_nat fuel ->
  1 <= pack_size_loop fuel n size <= 8 /\ n < 2 ^ (8 * pack_size_loop fuel n size).
Proof.
  intros Hn. revert size. induction fuel as [|fuel IH]; intros size Hs Hf; cbn [pack_size_loop].
  { replace size with 8 by lia. split; [lia|]. exact (proj2 Hn). }
  destruct (Z.ltb_spec size 8) as [Hlt|]; cbn [andb].
  - destruct (Z.eqb_spec (Z.shiftr n (8 * size)) 0) as [E|E]; cbn [negb]; [|apply IH; lia].
    split; [lia|]. rewrite Z.shiftr_div_pow2 in E by lia. apply Z.div_small_iff in E; [|apply Z.pow_nonzero; lia].
    destruct E as [E|E]; lia.
  - replace size with 8 by lia. split; [lia|]. exact (proj2 Hn).
Qed.

Lemma pack_size_spec n : is_u64 n -> 1 <= pack_size n <= 8 /\ n < 2 ^ (8 * pack_size n).
Proof. intros. apply pack_size_loop_spec; [done | lia..]. Qed.

(** A number packed in enough bytes. *)
Lemma packed_value n k : is_u64 n -> pack_size n <= k <= 8 -> le_value (pack_uint n k) = n /\ zlen (pack_uint n k) = k.
Proof.
  intros Hn Hk. destruct (pack_size_spec n Hn) as [Hs Hp]. unfold pack_uint. split; [|rewrite zlen_le_bytes; lia].
  apply le_value_le_bytes. split; [apply Hn|]. eapply Z.lt_le_trans; [exact Hp|]. apply Z.pow_le_mono_r; lia.
Qed.

Lemma all_below (n : Z) (f : Z -> bool) : forallb f (seqZ 0 n) = true -> forall i, 0 <= i < n -> f i = true.
Proof. intros H i Hi. rewrite forallb_forall in H. apply H, list_elem_of_In, elem_of_seqZ. lia. Qed.

Lemma sizes_byte t o : 0 <= t <= 8 -> 0 <= o <= 8 ->
  Z.shiftr (u8 (Z.lor (Z.shiftl t 4) o)) 4 = t /\ Z.land (u8 (Z.lor (Z.shiftl t 4) o)) 0x0F = o.
Proof.
  intros Ht Ho.
  pose proof (all_below 9 (fun t => forallb (fun o => (Z.shiftr (u8 (Z.lor (Z.shiftl t 4) o)) 4 =? t) &&
    (Z.land (u8 (Z.lor (Z.shiftl t 4) o)) 0x0F =? o)) (seqZ 0 9)) ltac:(vm_compute; reflexivity) t ltac:(lia)) as H.
  cbn beta in H. assert (0 <= o < 9) as Ho' by lia. pose proof (all_below 9 _ H o Ho') as H2. cbn beta in H2. bool_prop. done.
Qed.

(** The state of a node of any number of transitions. *)
Definition any_state (final : bool) (ntrans : Z) : Z := Z.lor (if final then 0x40 else 0) (if ntrans <=? 0x3F then ntrans else 0).

Lemma any_state_small (final : bool) k : 0 <= k <= 63 ->
  Z.shiftr (Z.lor (if final then 0x40 else 0) k) 6 < 2 /\
  negb (Z.land (Z.lor (if final then 0x40 else 0) k) 0x40 =? 0) = final /\ Z.land (Z.lor (if final then 0x40 else 0) k) 0x3F = k.
Proof.
  intros Hk. pose proof (all_below 64 (fun k => (Z.shiftr (Z.lor (if final then 0x40 else 0) k) 6 <? 2) &&
    Bool.eqb (negb (Z.land (Z.lor (if final then 0x40 else 0) k) 0x40 =? 0)) final && (Z.land (Z.lor (if final then 0x40 else 0) k) 0x3F =? k))
    ltac:(destruct final; vm_compute; reflexivity) k ltac:(lia)) as H. cbn beta in H. bool_prop.
  split_and!; [done | by apply eqb_prop | done].
Qed.

Lemma any_state_spec (final : bool) ntrans : 0 <= ntrans ->
  Z.shiftr (any_state final ntrans) 6 < 2 /\ negb (Z.land (any_state final ntrans) 0x40 =? 0) = final /\
  Z.land (any_state final ntrans) 0x3F = (if ntrans <=? 0x3F then ntrans else 0).
Proof. intros. unfold any_state. apply any_state_small. destruct (Z.leb_spec ntrans 0x3F); lia. Qed.

(** The state of a node of one transition: [mark] is 0xC0 or 0x80. *)
Lemma one_state_spec top k : top = 2 \/ top = 3 -> 0 <= k <= 63 ->
  Z.shiftr (Z.lor (64 * top) k) 6 = top /\ Z.land (Z.lor (64 * top) k) 0x3F = k.
Proof.
  intros Ht Hk. pose proof (all_below 64 (fun k => forallb (fun top => (Z.shiftr (Z.lor (64 * top) k) 6 =? top) &&
    (Z.land (Z.lor (64 * top) k) 0x3F =? k)) [2; 3]) ltac:(vm_compute; reflexivity) k ltac:(lia)) as H.
  rewrite forallb_forall in H. specialize (H top). cbn beta in H. rewrite andb_true_iff, !Z.eqb_eq in H. apply H. cbn. naive_solver.
Qed.

Lemma common_idx_spec b : is_u8 b -> 0 <= common_idx b <= 63 /\ (common_idx b <> 0 -> common_input (common_idx b) = b).
Proof.
  intros Hb. pose proof (all_below 256 (fun b => (0 <=? common_idx b) && (common_idx b <=? 63) &&
    ((common_idx b =? 0) || (common_input (common_idx b) =? b))) ltac:(vm_compute; reflexivity) b Hb) as H. cbn beta in H.
  apply andb_true_iff in H as [H Hc]. bool_prop. split; [lia|]. intros Hne. apply orb_true_iff in Hc as [Hc|Hc]; bool_prop; done.
Qed.

(** ** Layouts *)

Lemma rev_concat_split {A} (f : A -> list Z) l i x : l !! i = Some x ->
  concat (f <$> reverse l) = concat (f <$> reverse (drop (S i) l)) ++ f x ++ concat (f <$> reverse (take i l)).
Proof.
  intros Hi. rewrite <- (take_drop_middle l i x Hi) at 1. rewrite reverse_app, reverse_cons, !fmap_app, !concat_app. cbn. by rewrite app_nil_r, <- app_assoc.
Qed.

Lemma concat_zlen {A} (f : A -> list Z) k l : (forall x, x ∈ l -> zlen (f x) = k) -> zlen (concat (f <$> l)) = zlen l * k.
Proof.
  induction l as [|x l IH]; intros Hk; [done|]. rewrite fmap_cons. cbn [concat]. autorewrite with nano. rewrite Hk, IH by set_solver. lia.
Qed.

Lemma max_foldl {A} (f : A -> Z) l s : (forall x, x ∈ l -> f x <= foldl (fun s x => Z.max s (f x)) s l) /\ s <= foldl (fun s x => Z.max s (f x)) s l /\
  (forall b, s <= b -> (forall x, x ∈ l -> f x <= b) -> foldl (fun s x => Z.max s (f x)) s l <= b).
Proof.
  revert s. induction l as [|y l IH]; intros s; cbn [foldl].
  { split_and!; [by intros x ?%elem_of_nil | lia | done]. }
  destruct (IH (Z.max s (f y))) as (H1 & H2 & H3). split_and!; [| lia |].
  - intros x [->|Hx]%elem_of_cons; [lia | auto].
  - intros b Hs Hb. apply H3; [|intros; apply Hb; by right]. pose proof (Hb y ltac:(by left)). lia.
Qed.

Definition index_fill (index : list Z) (e : nat * BTrans) : list Z := <[Z.to_nat (b_inp e.2) := u8 (Z.of_nat e.1)]> index.

Lemma input_index_spec trans : NoDup (b_inp <$> trans) -> Forall is_u8 (b_inp <$> trans) -> zlen trans <= 256 ->
  length (input_index trans) = 256%nat /\
  (forall i t, trans !! i = Some t -> input_index trans !! Z.to_nat (b_inp t) = Some (Z.of_nat i)) /\
  (forall b, is_u8 b -> b ∉ b_inp <$> trans -> input_index trans !! Z.to_nat b = Some 255).
Proof.
  intros Hnd Hu Hl. unfold input_index. change (foldl _ _ _) with (foldl index_fill (replicate 256 255) (imap pair trans)).
  revert Hnd Hu Hl. induction trans as [|t trans IH] using rev_ind; intros Hnd Hu Hl.
  { split_and!; [done | done |]. intros b Hb _. apply lookup_replicate_2. unfold is_u8 in Hb. lia. }
  rewrite fmap_app in Hnd, Hu. apply NoDup_app in Hnd as (Hnd & Hni & _). apply Forall_app in Hu as [Hu Ht]. apply Forall_cons_1 in Ht as [Ht _].
  autorewrite with nano in Hl. change (zlen (@nil BTrans)) with 0 in Hl. pose proof (zlen_nonneg trans). destruct IH as (I1 & I2 & I3); [done | done | lia |].
  rewrite imap_app, foldl_app. cbn [imap foldl]. set (index := foldl index_fill (replicate 256 255) (imap pair trans)) in *.
  unfold index_fill at 1 2 3. cbn [fst snd]. rewrite length_insert. unfold is_u8 in Ht. split_and!; [done | |].
  - intros i t' Hi. apply lookup_snoc_Some in Hi as [[Hlt Hi]|[-> <-]].
    + rewrite list_lookup_insert_ne; [by apply I2|]. intros E. apply (Hni (b_inp t')); [by apply list_elem_of_fmap; exists t'; split; [|apply list_elem_of_lookup_2 in Hi]|].
      apply list_elem_of_singleton. assert (is_u8 (b_inp t')) as Hb; [|unfold is_u8 in Hb; lia].
      rewrite Forall_forall in Hu. apply Hu, list_elem_of_fmap. exists t'. split; [done | by apply list_elem_of_lookup_2 in Hi].
    + rewrite list_lookup_insert_eq by lia. rewrite Nat.add_0_r, u8_small; [done|]. unfold is_u8, zlen in *. lia.
  - intros b Hb Hn. rewrite fmap_app in Hn. assert (b ∉ b_inp <$> trans /\ b <> b_inp t) as [Hn1 Hn2] by set_solver.
    rewrite list_lookup_insert_ne; [by apply I3|]. unfold is_u8 in Hb. lia.
Qed.

(** ** Compiled nodes *)

(** A node whose transitions go to the empty node or to one before [before]. *)
Record bnode_ok (before : Z) (n : BNode) : Prop := {
  bo_nodup : NoDup (b_inp <$> bn_trans n);
  bo_inputs : Forall is_u8 (b_inp <$> bn_trans n);
  bo_final : is_u64 (bn_final_output n);
  bo_trans : forall t, t ∈ bn_trans n -> is_u64 (b_out t) /\ (b_addr t = kEmptyAddress \/ 16 <= b_addr t < before) }.

(** The reader sees node [bn] at [addr]. *)
Definition reads (m : FstMap) (addr : Z) (bn : BNode) : Prop := exists n, node m addr = Got n /\
  n_final n = bn_final bn /\ (bn_final bn = true -> n_final_output n = bn_final_output bn) /\ n_ntrans n = zlen (bn_trans bn) /\
  (forall i t, bn_trans bn !! i = Some t ->
     transition m n (Z.of_nat i) = Got (mkTrans (b_inp t) (b_out t) (b_addr t)) /\ find_input m n (b_inp t) = Got (Z.of_nat i)) /\
  (forall b, is_u8 b -> b ∉ b_inp <$> bn_trans bn -> find_input m n b = Refused).

(** The empty final node. *)
Lemma empty_reads m bn : is_empty_final bn = true -> reads m kEmptyAddress bn.
Proof.
  unfold is_empty_final. intros H. apply andb_true_iff in H as [H Ht%bool_decide_eq_true]. bool_prop.
  eexists. split; [reflexivity|]. rewrite Ht. cbn. split_and!; done.
Qed.

Lemma trans_count before n : bnode_ok before n -> zlen (bn_trans n) <= 256.
Proof.
  intros [Hnd Hu _ _]. assert (length (b_inp <$> bn_trans n) <= length (seqZ 0 256))%nat as H.
  { apply (submseteq_length _ _ (NoDup_submseteq _ _ Hnd (fun x Hx => proj2 (elem_of_seqZ 0 256 x) (proj1 (Forall_forall _ _) Hu x Hx)))). }
  rewrite length_fmap, length_seqZ in H. unfold zlen. lia.
Qed.

(** A node of 256 transitions has every input. *)
Lemma all_inputs (trans : list BTrans) b : NoDup (b_inp <$> trans) -> Forall is_u8 (b_inp <$> trans) -> 255 < zlen trans -> is_u8 b -> b ∈ b_inp <$> trans.
Proof.
  intros Hnd Hu Hl Hb. destruct (decide (b ∈ b_inp <$> trans)) as [|Hn]; [done|]. exfalso.
  assert (length (b :: (b_inp <$> trans)) <= length (seqZ 0 256))%nat as H.
  { apply submseteq_length, NoDup_submseteq; [by constructor|]. rewrite Forall_forall in Hu.
    intros x [->|Hx]%elem_of_cons; apply elem_of_seqZ; [exact Hb | exact (Hu x Hx)]. }
  cbn in H. rewrite length_fmap, length_seqZ in H. unfold zlen in Hl. lia.
Qed.

Lemma delta_small before t : before < 2 ^ 64 -> (b_addr t = kEmptyAddress \/ 16 <= b_addr t < before) ->
  is_u64 (delta_of before (b_addr t)) /\ (b_addr t = kEmptyAddress -> delta_of before (b_addr t) = 0) /\
  (b_addr t <> kEmptyAddress -> delta_of before (b_addr t) = before - b_addr t).
Proof.
  intros Hb Ht. unfold delta_of, kEmptyAddress in *. destruct (Z.eqb_spec (b_addr t) 0) as [E|E].
  - split_and!; [done | done | congruence].
  - split_and!; [apply u64_range | done |]. intros _. apply u64_small. unfold is_u64. lia.
Qed.

(** Where a transition goes, from the delta written for it. *)
Lemma far_address_reads m n inp out tat a s b t :
  f_data m = a ++ s ++ b -> tat = zlen a -> n_tsize n = zlen s -> s = pack_uint (delta_of (n_end n) (b_addr t)) (n_tsize n) ->
  n_end n < 2 ^ 64 -> (b_addr t = kEmptyAddress \/ 16 <= b_addr t < n_end n) -> n_end n <= n_start n ->
  pack_size (delta_of (n_end n) (b_addr t)) <= n_tsize n <= 8 ->
  far_address m n inp out tat = Got (mkTrans inp out (b_addr t)).
Proof.
  intros Hd Ht Hts Hs Hlt Hat Hse Hk. destruct (delta_small _ t Hlt Hat) as (Du & D0 & D1).
  destruct (packed_value _ _ Du Hk) as [Hv Hl]. unfold far_address. pose proof (pack_size_spec _ Du) as [Hp _].
  rewrite (proj2 (Z.eqb_neq (n_tsize n) 0)) by lia. rewrite (unpack_split _ a s b) by done. rewrite Hs, Hv. cbn [mbind access_bind]. unfold mbind, access_bind.
  destruct Hat as [E|Hat].
  - rewrite D0 by done. by rewrite E.
  - assert (b_addr t <> kEmptyAddress) as Hne by (unfold kEmptyAddress; lia). rewrite (D1 Hne).
    rewrite (proj2 (Z.eqb_neq _ kEmptyAddress)) by (unfold kEmptyAddress; lia). rewrite (proj2 (Z.ltb_ge (n_end n) _)) by lia.
    replace (n_end n - (n_end n - b_addr t)) with (b_addr t) by lia. rewrite (proj2 (Z.leb_le _ _)), (proj2 (Z.ltb_lt _ _)) by lia. done.
Qed.

Lemma scan_absent m l : forall a rest ntrans j b, f_data m = a ++ l ++ rest -> b ∉ l -> scan_inputs m (length l) (zlen a) ntrans j b = Refused.
Proof.
  induction l as [|x l IH]; intros a rest ntrans j b Hd Hb; [done|]. apply not_elem_of_cons in Hb as [Hx Hb]. cbn [length scan_inputs].
  rewrite (byte_split _ a x (l ++ rest)) by done. unfold mbind, access_bind. rewrite (proj2 (Z.eqb_neq x b)) by done.
  replace (zlen a + 1) with (zlen (a ++ [x])) by (rewrite zlen_app; reflexivity). apply (IH _ rest); [|done]. by rewrite Hd, <- app_assoc.
Qed.

Lemma scan_present m l1 : forall a l2 rest ntrans j b, f_data m = a ++ (l1 ++ b :: l2) ++ rest -> b ∉ l1 ->
  scan_inputs m (length (l1 ++ b :: l2)) (zlen a) ntrans j b = Got (ntrans - (j + zlen l1) - 1).
Proof.
  induction l1 as [|x l1 IH]; intros a l2 rest ntrans j b Hd Hb; cbn [length scan_inputs app].
  - rewrite (byte_split _ a b (l2 ++ rest)) by done. unfold mbind, access_bind. rewrite Z.eqb_refl. f_equal. unfold zlen. cbn. lia.
  - apply not_elem_of_cons in Hb as [Hx Hb]. rewrite (byte_split _ a x ((l1 ++ b :: l2) ++ rest)) by done. unfold mbind, access_bind.
    rewrite (proj2 (Z.eqb_neq x b)) by done. replace (zlen a + 1) with (zlen (a ++ [x])) by (rewrite zlen_app; reflexivity).
    rewrite (IH _ l2 rest); [autorewrite with nano; f_equal; lia | rewrite Hd, <- (app_assoc a [x]); done | done].
Qed.

Section Any.
Context (m : FstMap) (pre post : list Z) (bn : BNode).
Notation trans := (bn_trans bn).
Notation before := (zlen pre).
Hypothesis Hok : bnode_ok before bn.
Hypothesis Hbefore : 16 <= before < 2 ^ 64.
Hypothesis Hversion : f_version m = 3.

Definition any_tsize : Z := foldl (fun s t => Z.max s (pack_size (delta_of before (b_addr t)))) 0 trans.
Definition any_osize : Z :=
  if negb (bn_final_output bn =? 0) || existsb (fun t => negb (b_out t =? 0)) trans
  then foldl (fun s t => Z.max s (pack_size (b_out t))) (pack_size (bn_final_output bn)) trans else 0.

Definition part_final : list Z := if bn_final bn then pack_uint (bn_final_output bn) any_osize else [].
Definition part_outs : list Z := concat ((fun t => pack_uint (b_out t) any_osize) <$> reverse trans).
Definition part_deltas : list Z := concat ((fun t => pack_uint (delta_of before (b_addr t)) any_tsize) <$> reverse trans).
Definition part_inputs : list Z := b_inp <$> reverse trans.
Definition part_index : list Z := if kTransIndexThreshold <? zlen trans then input_index trans else [].
Definition part_sizes : Z := u8 (Z.lor (Z.shiftl any_tsize 4) any_osize).
Definition state : Z := any_state (bn_final bn) (zlen trans).
Definition part_count : list Z := if Z.land state 0x3F =? 0 then [if zlen trans =? 256 then 1 else u8 (zlen trans)] else [].

Lemma pack_zero n : pack_uint n 0 = [].
Proof. done. Qed.

Lemma concat_nils {A} (l : list A) : concat ((fun _ => @nil Z) <$> l) = [].
Proof. by induction l. Qed.

Lemma any_node_parts : any_node before bn =
  part_final ++ part_outs ++ part_deltas ++ part_inputs ++ part_index ++ [part_sizes] ++ part_count ++ [state].
Proof.
  unfold any_node, part_final, part_outs, part_deltas, part_inputs, part_index, part_sizes, part_count, state, any_state, any_osize.
  destruct (negb (bn_final_output bn =? 0) || existsb _ trans); rewrite <- ?app_assoc; [done|].
  change (fun t => pack_uint (b_out t) 0) with (fun _ : BTrans => @nil Z). rewrite concat_nils. by destruct (bn_final bn).
Qed.

Lemma any_tsize_bounds : 0 <= any_tsize <= 8 /\ forall t, t ∈ trans -> pack_size (delta_of before (b_addr t)) <= any_tsize.
Proof.
  destruct (max_foldl (fun t => pack_size (delta_of before (b_addr t))) trans 0) as (H1 & H2 & H3).
  split; [|exact H1]. split; [exact H2|]. apply H3; [lia|]. intros t Ht. destruct Hok as [_ _ _ Hts]. destruct (Hts t Ht) as [_ Ha].
  destruct (delta_small before t ltac:(lia) Ha) as [Du _]. pose proof (pack_size_spec _ Du). lia.
Qed.

Lemma pack_size_zero : pack_size 0 = 1.
Proof. reflexivity. Qed.

Lemma any_osize_bounds : 0 <= any_osize <= 8 /\
  (any_osize = 0 -> bn_final_output bn = 0 /\ forall t, t ∈ trans -> b_out t = 0) /\
  (any_osize <> 0 -> pack_size (bn_final_output bn) <= any_osize /\ forall t, t ∈ trans -> pack_size (b_out t) <= any_osize).
Proof.
  unfold any_osize. destruct Hok as [_ _ Hf Hts]. pose proof (pack_size_spec _ Hf) as [Hfs _].
  destruct (max_foldl (fun t => pack_size (b_out t)) trans (pack_size (bn_final_output bn))) as (H1 & H2 & H3).
  destruct (_ || _) eqn:E.
  - split_and!; [lia | | |].
    + apply H3; [lia|]. intros t Ht. destruct (Hts t Ht) as [Ho _]. pose proof (pack_size_spec _ Ho). lia.
    + intros E0. rewrite E0 in H2. lia.
    + intros _. split; [exact H2 | exact H1].
  - bool_prop. split_and!; [lia | lia | | done]. intros _. split; [done|]. intros t Ht. destruct (Z.eqb_spec (b_out t) 0) as [|Hn]; [done|].
    assert (existsb (fun t => negb (b_out t =? 0)) trans = true); [|congruence]. apply existsb_exists. exists t.
    split; [by apply list_elem_of_In|]. by rewrite (proj2 (Z.eqb_neq _ _) Hn).
Qed.

Lemma count_byte : exists L, part_count = L /\
  ((zlen trans <= 63 /\ zlen trans <> 0 /\ L = [] /\ Z.land state 0x3F = zlen trans) \/
   (exists b, L = [b] /\ Z.land state 0x3F = 0 /\ (if b =? 1 then 256 else b) = zlen trans)).
Proof.
  pose proof (trans_count _ _ Hok) as Hc. pose proof (zlen_nonneg trans) as H0. exists part_count. split; [done|].
  destruct (any_state_spec (bn_final bn) (zlen trans) H0) as (_ & _ & Hs). fold state in Hs. unfold part_count. rewrite Hs.
  destruct (Z.leb_spec (zlen trans) 0x3F) as [Hl|Hl].
  - destruct (Z.eqb_spec (zlen trans) 0) as [E|E]; [|by left]. right. eexists. split; [done|]. split; [done|]. by rewrite E.
  - right. eexists. split; [done|]. split; [done|]. destruct (Z.eqb_spec (zlen trans) 256) as [E|E]; [done|].
    rewrite u8_small by (unfold is_u8; lia). rewrite (proj2 (Z.eqb_neq (zlen trans) 1)) by lia. done.
Qed.

Hypothesis Hdata : f_data m = pre ++ any_node before bn ++ post.
Hypothesis Hsize : before + zlen (any_node before bn) <= f_size m.
Notation nt := (zlen trans).
Notation start := (before + zlen (any_node before bn) - 1).

Lemma zlen_pack n k : 0 <= k -> zlen (pack_uint n k) = k.
Proof. intros. unfold pack_uint. rewrite zlen_le_bytes. lia. Qed.

Lemma zlen_reverse {A} (l : list A) : zlen (reverse l) = zlen l.
Proof. unfold zlen. by rewrite length_reverse. Qed.

Lemma part_lengths :
  zlen part_final = (if bn_final bn then any_osize else 0) /\ zlen part_outs = nt * any_osize /\ zlen part_deltas = nt * any_tsize /\
  zlen part_inputs = nt /\ zlen part_index = (if kTransIndexThreshold <? nt then 256 else 0).
Proof.
  destruct any_osize_bounds as [Ho _], any_tsize_bounds as [Ht _]. split_and!.
  - unfold part_final. destruct (bn_final bn); [apply zlen_pack; lia | done].
  - unfold part_outs. rewrite (concat_zlen _ any_osize); [by rewrite zlen_reverse|]. intros. apply zlen_pack. lia.
  - unfold part_deltas. rewrite (concat_zlen _ any_tsize); [by rewrite zlen_reverse|]. intros. apply zlen_pack. lia.
  - unfold part_inputs, zlen. by rewrite length_fmap, length_reverse.
  - unfold part_index. destruct (kTransIndexThreshold <? nt); [|done]. destruct Hok as [Hnd Hu _ _].
    pose proof (input_index_spec trans Hnd Hu (trans_count _ _ Hok)) as [Hl _]. unfold zlen. by rewrite Hl.
Qed.

Lemma start_at : start = before + zlen part_final + zlen part_outs + zlen part_deltas + zlen part_inputs + zlen part_index + 1 + zlen part_count.
Proof. rewrite any_node_parts. autorewrite with nano. change (zlen (@nil Z)) with 0. lia. Qed.

Lemma start_ge : before + 1 + zlen part_count <= start.
Proof.
  pose proof start_at as Hs. pose proof (zlen_nonneg part_final). pose proof (zlen_nonneg part_outs). pose proof (zlen_nonneg part_deltas).
  pose proof (zlen_nonneg part_inputs). pose proof (zlen_nonneg part_index). lia.
Qed.

(** The bytes, cut before a part. *)
Lemma data_parts : f_data m = pre ++ part_final ++ part_outs ++ part_deltas ++ part_inputs ++ part_index ++ [part_sizes] ++ part_count ++ [state] ++ post.
Proof. rewrite Hdata, any_node_parts, <- !app_assoc. done. Qed.

Definition any_seen : Node :=
  mkNode start before state (bn_final bn) nt any_tsize any_osize 0 (zlen part_count) (zlen part_index)
    (if bn_final bn && (0 <? any_osize) then bn_final_output bn else 0).

Lemma read_state : byte (f_data m) start = Got state.
Proof.
  apply (byte_split _ (pre ++ part_final ++ part_outs ++ part_deltas ++ part_inputs ++ part_index ++ [part_sizes] ++ part_count) _ post).
  - rewrite data_parts, <- !app_assoc. done.
  - rewrite start_at. autorewrite with nano. change (zlen (@nil Z)) with 0. lia.
Qed.

Lemma read_sizes : byte (f_data m) (start - zlen part_count - 1) = Got part_sizes.
Proof.
  apply (byte_split _ (pre ++ part_final ++ part_outs ++ part_deltas ++ part_inputs ++ part_index) _ (part_count ++ [state] ++ post)).
  - rewrite data_parts, <- !app_assoc. done.
  - rewrite start_at. autorewrite with nano. lia.
Qed.

Lemma read_count b : part_count = [b] -> byte (f_data m) (start - 1) = Got b.
Proof.
  intros E. apply (byte_split _ (pre ++ part_final ++ part_outs ++ part_deltas ++ part_inputs ++ part_index ++ [part_sizes]) _ ([state] ++ post)).
  - rewrite data_parts, E, <- !app_assoc. done.
  - rewrite start_at, E. autorewrite with nano. change (zlen (@nil Z)) with 0. lia.
Qed.

Lemma any_shape : node_shape m start state = Got (
  mkNode start 0 state (bn_final bn) nt any_tsize any_osize 0 (zlen part_count) (zlen part_index) 0, start - before).
Proof.
  destruct any_osize_bounds as [Ho _], any_tsize_bounds as [Ht _], part_lengths as (L1 & L2 & L3 & L4 & L5).
  pose proof (zlen_nonneg trans) as Hn. destruct (any_state_spec (bn_final bn) nt Hn) as (S1 & S2 & _). fold state in S1, S2.
  destruct (sizes_byte any_tsize any_osize Ht Ho) as [Z1 Z2]. fold part_sizes in Z1, Z2.
  unfold node_shape. rewrite (proj2 (Z.eqb_neq _ 3)), (proj2 (Z.eqb_neq _ 2)), S2 by lia.
  assert ((nt' ← (if Z.land state 0x3F =? 0 then if start <? 16 + 2 then Refused else b ← byte (f_data m) (start - 1); Got (if b =? 1 then 256 else b, 1)
          else Got (Z.land state 0x3F, 0)); Got nt') = Got (nt, zlen part_count)) as Hnt.
  { destruct count_byte as (L & EL & [(C1 & C2 & C3 & C4)|(b & C1 & C2 & C3)]); subst L.
    - rewrite C4, C3, (proj2 (Z.eqb_neq nt 0)) by done. done.
    - rewrite C2. cbn [Z.eqb]. rewrite (proj2 (Z.ltb_ge start (16 + 2))).
      + rewrite (read_count b C1), C1, <- C3. done.
      + pose proof start_ge as Hs. rewrite C1 in Hs. change (zlen [b]) with 1 in Hs. lia. }
  revert Hnt. generalize (if Z.land state 0x3F =? 0 then if start <? 16 + 2 then Refused else b ← byte (f_data m) (start - 1); Got (if b =? 1 then 256 else b, 1)
          else Got (Z.land state 0x3F, 0)). intros [| |q] Hq; try discriminate Hq. injection Hq as ->.
  unfold mbind, access_bind. pose proof start_at as Hs. pose proof (zlen_nonneg part_count).
  rewrite (proj2 (Z.ltb_ge start _)) by (pose proof start_ge; lia). rewrite read_sizes, Z1, Z2, Hversion. cbn [Z.leb Z.compare Pos.compare Pos.compare_cont andb].
  rewrite L5. f_equal. f_equal. rewrite Hs, L1, L2, L3, L4, L5. destruct (bn_final bn); lia.
Qed.

Lemma any_node_seen : node m start = Got any_seen.
Proof.
  destruct any_osize_bounds as [Ho [Ho0 Ho1]], any_tsize_bounds as [Ht _], part_lengths as (L1 & L2 & L3 & L4 & L5).
  pose proof (zlen_nonneg trans) as Hn. destruct (any_state_spec (bn_final bn) nt Hn) as (S1 & _ & _). fold state in S1.
  pose proof start_at as Hs. pose proof (zlen_nonneg part_count) as Hc. pose proof (zlen_nonneg part_index) as Hi.
  assert (before < start) as Hlt by (pose proof start_ge; lia).
  unfold node. unfold kEmptyAddress. rewrite (proj2 (Z.eqb_neq start 0)), (proj2 (Z.ltb_ge start 16)), (proj2 (Z.leb_gt (f_size m) _)) by lia.
  cbn [orb]. unfold mbind, access_bind. rewrite read_state, any_shape. cbn [n_tsize n_osize n_final].
  rewrite (proj2 (Z.ltb_ge 8 any_tsize)), (proj2 (Z.ltb_ge 8 any_osize)), (proj2 (Z.ltb_ge (start - 16) _)) by lia. cbn [orb].
  rewrite (proj2 (Z.ltb_lt _ 2)) by done. cbn [andb]. replace (start - (start - before)) with before by lia.
  unfold any_seen, placed. cbn. destruct (bn_final bn) eqn:Ef; cbn [andb]; [|done]. destruct (Z.ltb_spec 0 any_osize) as [Hp|Hp]; [|done].
  destruct (Ho1 ltac:(lia)) as [Hof _]. destruct Hok as [_ _ Hfo _]. destruct (packed_value _ any_osize Hfo ltac:(lia)) as [Hv Hl].
  rewrite (unpack_split _ pre part_final (part_outs ++ part_deltas ++ part_inputs ++ part_index ++ [part_sizes] ++ part_count ++ [state] ++ post));
    [| apply data_parts | done | by rewrite L1]. unfold part_final. rewrite Ef, Hv. done.
Qed.

Lemma any_kind : (2 <=? Z.shiftr (n_state any_seen) 6) = false.
Proof. cbn. destruct (any_state_spec (bn_final bn) nt (zlen_nonneg trans)) as (S1 & _). apply Z.leb_gt. exact S1. Qed.

(** Input [i] is [i] from the end. *)
Lemma inputs_split i t : trans !! i = Some t ->
  exists a b, part_inputs = a ++ b_inp t :: b /\ zlen b = Z.of_nat i /\ zlen a = nt - Z.of_nat i - 1.
Proof.
  intros Hi. exists (b_inp <$> reverse (drop (S i) trans)), (b_inp <$> reverse (take i trans)). pose proof (lookup_lt_Some _ _ _ Hi).
  split; [|unfold zlen; rewrite !length_fmap, !length_reverse, length_take, length_drop; lia].
  unfold part_inputs. rewrite <- (take_drop_middle trans i t Hi) at 1. by rewrite reverse_app, reverse_cons, !fmap_app, <- app_assoc.
Qed.

Lemma packs_split k (f : BTrans -> Z) i t : 0 <= k -> trans !! i = Some t ->
  exists a b, concat ((fun t => pack_uint (f t) k) <$> reverse trans) = a ++ pack_uint (f t) k ++ b /\
    zlen b = Z.of_nat i * k /\ zlen a = (nt - Z.of_nat i - 1) * k.
Proof.
  intros Hk Hi. pose proof (lookup_lt_Some _ _ _ Hi). eexists _, _. split; [apply (rev_concat_split (fun t => pack_uint (f t) k) _ _ _ Hi)|].
  rewrite !(concat_zlen _ k) by (intros; by apply zlen_pack). rewrite !zlen_reverse. unfold zlen. rewrite length_take, length_drop. split; f_equal; lia.
Qed.

Lemma any_transition i t : trans !! i = Some t -> transition m any_seen (Z.of_nat i) = Got (mkTrans (b_inp t) (b_out t) (b_addr t)).
Proof.
  intros Hi. pose proof (lookup_lt_Some _ _ _ Hi) as Hlt. pose proof (list_elem_of_lookup_2 _ _ _ Hi) as Hin.
  destruct any_osize_bounds as [Ho [Ho0 Ho1]], any_tsize_bounds as [Ht Hts], part_lengths as (L1 & L2 & L3 & L4 & L5).
  destruct Hok as [_ _ _ Htr]. destruct (Htr t Hin) as [Hout Hadr]. pose proof start_at as Hs.
  unfold transition. rewrite any_kind. cbn [n_ntrans n_start n_ntrans_len n_index_size n_osize n_tsize any_seen].
  rewrite (proj2 (Z.leb_gt nt _)) by (unfold zlen; lia). unfold mbind, access_bind.
  destruct (inputs_split i t Hi) as (ia & ib & Ei & Hib & Hia).
  rewrite (byte_split _ (pre ++ part_final ++ part_outs ++ part_deltas ++ ia) (b_inp t) (ib ++ part_index ++ [part_sizes] ++ part_count ++ [state] ++ post)).
  2:{ rewrite data_parts, Ei, <- !app_assoc. done. }
  2:{ rewrite Hs. autorewrite with nano. lia. }
  destruct (packs_split any_osize b_out i t ltac:(lia) Hi) as (oa & ob & Eo & Hob & Hoa).
  destruct (packs_split any_tsize (fun t => delta_of before (b_addr t)) i t ltac:(lia) Hi) as (da & db & Ed & Hdb & Hda).
  assert ((if any_osize =? 0 then Got 0 else unpack_uint (f_data m)
    (start - zlen part_count - 1 - (nt * (1 + any_tsize) + zlen part_index) - (Z.of_nat i + 1) * any_osize) any_osize) = Got (b_out t)) as ->.
  { destruct (Z.eqb_spec any_osize 0) as [E|E]; [by rewrite (proj2 (Ho0 E) t Hin)|]. destruct (Ho1 E) as [_ Hos].
    destruct (packed_value _ any_osize Hout ltac:(specialize (Hos t Hin); lia)) as [Hv Hl].
    rewrite (unpack_split _ (pre ++ part_final ++ oa) (pack_uint (b_out t) any_osize)
      (ob ++ part_deltas ++ part_inputs ++ part_index ++ [part_sizes] ++ part_count ++ [state] ++ post)); [by rewrite Hv | | | done].
    - rewrite data_parts. unfold part_outs. rewrite Eo, <- !app_assoc. done.
    - rewrite Hs. autorewrite with nano. lia. }
  apply (far_address_reads m any_seen _ _ _ (pre ++ part_final ++ part_outs ++ da) (pack_uint (delta_of before (b_addr t)) any_tsize)
    (db ++ part_inputs ++ part_index ++ [part_sizes] ++ part_count ++ [state] ++ post)); cbn [n_tsize n_end n_start any_seen]; try done.
  - rewrite data_parts. unfold part_deltas. rewrite Ed, <- !app_assoc. done.
  - rewrite Hs. autorewrite with nano. lia.
  - rewrite zlen_pack; lia.
  - lia.
  - pose proof start_ge. pose proof (zlen_nonneg part_count). lia.
  - specialize (Hts t Hin). lia.
Qed.

Lemma any_index_read v b : is_u8 b -> kTransIndexThreshold < nt -> input_index trans !! Z.to_nat b = Some v ->
  byte (f_data m) (start - zlen part_count - 1 - zlen part_index + b) = Got v.
Proof.
  intros Hb Hn Hv. pose proof start_at as Hs. unfold is_u8 in Hb.
  assert (part_index = take (Z.to_nat b) part_index ++ v :: drop (S (Z.to_nat b)) part_index) as Ex.
  { symmetry. apply take_drop_middle. unfold part_index. by rewrite (proj2 (Z.ltb_lt _ _)). }
  apply (byte_split _ (pre ++ part_final ++ part_outs ++ part_deltas ++ part_inputs ++ take (Z.to_nat b) part_index) _
    (drop (S (Z.to_nat b)) part_index ++ [part_sizes] ++ part_count ++ [state] ++ post)).
  - rewrite data_parts. rewrite Ex at 1. rewrite <- !app_assoc. done.
  - rewrite Hs. autorewrite with nano. assert (zlen (take (Z.to_nat b) part_index) = b); [|lia].
    destruct part_lengths as (_ & _ & _ & _ & L5). rewrite (proj2 (Z.ltb_lt _ _)) in L5 by done. unfold zlen in *. rewrite length_take. lia.
Qed.

Lemma any_find_start : (n_start any_seen =? 0) = false.
Proof. cbn. apply Z.eqb_neq. pose proof start_ge. pose proof (zlen_nonneg part_count). lia. Qed.

Lemma inputs_at : zlen part_index = 0 -> start - zlen part_count - 1 - nt = zlen (pre ++ part_final ++ part_outs ++ part_deltas).
Proof. intros E. destruct part_lengths as (_ & _ & _ & L4 & _). rewrite start_at. autorewrite with nano. lia. Qed.

Lemma any_find_present i t : trans !! i = Some t -> find_input m any_seen (b_inp t) = Got (Z.of_nat i).
Proof.
  intros Hi. pose proof (lookup_lt_Some _ _ _ Hi) as Hlt. pose proof (list_elem_of_lookup_2 _ _ _ Hi) as Hin.
  destruct Hok as [Hnd Hu _ _]. pose proof (trans_count _ _ Hok) as Hc. destruct part_lengths as (_ & _ & _ & L4 & L5).
  assert (is_u8 (b_inp t)) as Hb by (rewrite Forall_forall in Hu; apply Hu, list_elem_of_fmap; eauto).
  unfold find_input. rewrite any_find_start, any_kind. cbn [n_start n_ntrans_len n_index_size n_ntrans any_seen]. unfold mbind, access_bind.
  destruct (Z.ltb_spec kTransIndexThreshold nt) as [Hn|Hn].
  - rewrite (proj2 (Z.eqb_neq (zlen part_index) 0)) by lia. cbn [negb].
    destruct (input_index_spec trans Hnd Hu Hc) as (_ & Hx & _). rewrite (any_index_read (Z.of_nat i) (b_inp t) Hb Hn (Hx i t Hi)).
    rewrite (proj2 (Z.ltb_lt _ _)) by (unfold zlen; lia). done.
  - rewrite (proj2 (Z.eqb_eq (zlen part_index) 0)) by lia. cbn [negb]. rewrite (inputs_at L5).
    destruct (inputs_split i t Hi) as (ia & ib & Ei & Hib & Hia).
    replace (Z.to_nat nt) with (length (ia ++ b_inp t :: ib)) by (rewrite <- Ei; unfold zlen in *; lia).
    rewrite (scan_present m ia _ ib (part_index ++ [part_sizes] ++ part_count ++ [state] ++ post)).
    + f_equal. lia.
    + rewrite <- Ei, data_parts, <- !app_assoc. done.
    + assert (NoDup part_inputs) as Hnr. { unfold part_inputs. rewrite fmap_reverse, reverse_Permutation. done. }
      rewrite Ei in Hnr. apply NoDup_app in Hnr as (_ & Hd & _). intros Hx. apply (Hd _ Hx). by left.
Qed.

Lemma any_find_absent b : is_u8 b -> b ∉ b_inp <$> trans -> find_input m any_seen b = Refused.
Proof.
  intros Hb Ha. destruct Hok as [Hnd Hu _ _]. pose proof (trans_count _ _ Hok) as Hc. destruct part_lengths as (_ & _ & _ & L4 & L5).
  unfold find_input. rewrite any_find_start, any_kind. cbn [n_start n_ntrans_len n_index_size n_ntrans any_seen]. unfold mbind, access_bind.
  destruct (Z.ltb_spec kTransIndexThreshold nt) as [Hn|Hn].
  - rewrite (proj2 (Z.eqb_neq (zlen part_index) 0)) by lia. cbn [negb].
    destruct (input_index_spec trans Hnd Hu Hc) as (_ & _ & Hx). rewrite (any_index_read 255 b Hb Hn (Hx b Hb Ha)).
    destruct (Z.ltb_spec 255 nt) as [Hall|]; [|done]. exfalso. apply Ha.
    by apply (all_inputs trans).
  - rewrite (proj2 (Z.eqb_eq (zlen part_index) 0)) by lia. cbn [negb]. rewrite (inputs_at L5).
    replace (Z.to_nat nt) with (length part_inputs) by (unfold zlen in *; lia).
    apply (scan_absent m part_inputs _ (part_index ++ [part_sizes] ++ part_count ++ [state] ++ post)).
    + rewrite data_parts, <- !app_assoc. done.
    + unfold part_inputs. by rewrite fmap_reverse, elem_of_reverse.
Qed.

Lemma any_reads : reads m start bn.
Proof.
  exists any_seen. split; [apply any_node_seen|]. split; [done|]. split.
  - intros Hf. cbn. rewrite Hf. cbn [andb]. destruct (Z.ltb_spec 0 any_osize); [done|]. destruct any_osize_bounds as (? & H0 & _).
    by rewrite (proj1 (H0 ltac:(lia))).
  - split; [done|]. split; [|apply any_find_absent]. intros i t Hi. split; [by apply any_transition | by apply any_find_present].
Qed.

End Any.

(** ** Nodes of one transition *)

Section One.
Context (m : FstMap) (pre post : list Z) (t : BTrans).
Notation before := (zlen pre).
Hypothesis Hbefore : 16 <= before < 2 ^ 64.
Hypothesis Hinp : is_u8 (b_inp t).
Hypothesis Hout : is_u64 (b_out t).
Hypothesis Haddr : b_addr t = kEmptyAddress \/ 16 <= b_addr t < before.
Notation idx := (common_idx (b_inp t)).
Definition part_input : list Z := if idx =? 0 then [b_inp t] else [].

(** The input of a node with the state of the transition, read back. *)
Lemma single_input_reads n top a : top = 2 \/ top = 3 -> n_state n = Z.lor (64 * top) idx -> n_start n = zlen a + zlen part_input ->
  f_data m = a ++ part_input ++ [Z.lor (64 * top) idx] ++ post -> single_input m n = Got (b_inp t).
Proof.
  intros Ht Hs Hn Hd. destruct (common_idx_spec _ Hinp) as [Hi Hc]. destruct (one_state_spec top idx Ht Hi) as [_ S2].
  unfold single_input. rewrite Hs, S2. unfold part_input in *. destruct (Z.eqb_spec idx 0) as [E|E].
  - rewrite E. cbn [common_input Z.eqb Z.ltb Z.compare]. change (common_input 0 <? 0) with true. cbv iota. apply (byte_split _ a _ ([Z.lor (64 * top) idx] ++ post)); [done|].
    rewrite Hn. change (zlen [b_inp t]) with 1. lia.
  - rewrite (Hc E). unfold is_u8 in Hinp. by rewrite (proj2 (Z.ltb_ge _ 0)) by lia.
Qed.

Lemma input_length : zlen part_input = (if idx =? 0 then 1 else 0).
Proof. unfold part_input. by destruct (idx =? 0). Qed.

(** A node whose only transition is read is the node. *)
Lemma one_reads start n : node m start = Got n -> n_start n = start -> n_final n = false -> n_ntrans n = 1 -> (2 <=? Z.shiftr (n_state n) 6) = true ->
  single_input m n = Got (b_inp t) -> transition m n 0 = Got (mkTrans (b_inp t) (b_out t) (b_addr t)) ->
  1 <= start -> reads m start (mkBNode false 0 [t]).
Proof.
  intros Hn Hst Hf Hnt Hk Hs Htr H1. assert (forall b, find_input m n b = if b_inp t =? b then Got 0 else Refused) as Hfind.
  { intros b. unfold find_input. rewrite Hst, (proj2 (Z.eqb_neq _ 0)), Hk by lia. unfold mbind, access_bind. by rewrite Hs. }
  exists n. split; [done|]. cbn. rewrite Hf. split_and!; [done | done | done | |].
  - intros [|i] t' Hi; [|done]. injection Hi as <-. split; [done|]. by rewrite Hfind, Z.eqb_refl.
  - intros b _ Hb. rewrite Hfind. rewrite (proj2 (Z.eqb_neq (b_inp t) b)); [done|]. intros <-. apply Hb. by left.
Qed.

Lemma one_node_near : f_data m = pre ++ part_input ++ [Z.lor (64 * 3) idx] ++ post -> before + zlen part_input < f_size m ->
  b_addr t = before - 1 -> b_out t = 0 -> reads m (before + zlen part_input) (mkBNode false 0 [t]).
Proof.
  intros Hdata Hsize Ha Ho. destruct (common_idx_spec _ Hinp) as [Hi _]. destruct (one_state_spec 3 idx (or_intror eq_refl) Hi) as [S1 S2].
  pose proof input_length as Hil. assert (zlen part_input = 0 \/ zlen part_input = 1) as Hil' by (rewrite Hil; destruct (idx =? 0); auto).
  set (n := mkNode (before + zlen part_input) before (Z.lor (64 * 3) idx) false 1 0 0 (zlen part_input) 0 0 0).
  assert (single_input m n = Got (b_inp t)) as Hsi by (apply (single_input_reads n 3 pre); [by right | done..]).
  apply (one_reads _ n); try done; cbn [n_state n_ntrans n]; [|by rewrite S1 | |lia].
  - unfold node, kEmptyAddress. rewrite (proj2 (Z.eqb_neq (before + _) 0)), (proj2 (Z.ltb_ge (before + _) 16)), (proj2 (Z.leb_gt (f_size m) _)) by lia.
    cbn [orb]. unfold mbind, access_bind. rewrite (byte_split _ (pre ++ part_input) (Z.lor (64 * 3) idx) post);
      [| by rewrite Hdata, <- ?app_assoc | by rewrite zlen_app]. unfold node_shape. rewrite S1, S2. change (3 =? 3) with true. cbv iota.
    rewrite <- Hil. cbn [n_tsize n_osize]. change (8 <? 0) with false. cbn [orb].
    rewrite (proj2 (Z.ltb_ge (before + zlen part_input - 16) _)) by lia. change (3 <? 2) with false. cbn [andb]. unfold placed, n. cbn.
    replace (before + zlen part_input - zlen part_input) with before by lia. done.
  - unfold transition. cbn [n_ntrans n_state n_end n]. rewrite S1. change (1 <=? 0) with false. change (2 <=? 3) with true. change (3 =? 3) with true. cbv iota.
    unfold mbind, access_bind. fold n. rewrite Hsi, Ho, Ha. rewrite (proj2 (Z.eqb_neq before 0)) by lia.
    destruct Haddr as [E|E]; [unfold kEmptyAddress in E; lia|]. rewrite (proj2 (Z.leb_le 16 _)) by lia. done.
Qed.

Notation osize := (if b_out t =? 0 then 0 else pack_size (b_out t)).
Notation delta := (delta_of before (b_addr t)).
Definition part_out : list Z := if b_out t =? 0 then [] else pack_uint (b_out t) osize.
Definition far_start : Z := before + osize + pack_size delta + 1 + zlen part_input.

Lemma one_node_far : f_data m = pre ++ part_out ++ pack_uint delta (pack_size delta) ++ [u8 (Z.lor (Z.shiftl (pack_size delta) 4) osize)] ++
    part_input ++ [Z.lor (64 * 2) idx] ++ post -> far_start < f_size m -> reads m far_start (mkBNode false 0 [t]).
Proof.
  intros Hdata Hsize. destruct (common_idx_spec _ Hinp) as [Hi _]. destruct (one_state_spec 2 idx (or_introl eq_refl) Hi) as [S1 S2].
  pose proof input_length as Hil. assert (zlen part_input = 0 \/ zlen part_input = 1) as Hil' by (rewrite Hil; destruct (idx =? 0); auto).
  destruct (delta_small before t ltac:(lia) Haddr) as [Du _]. pose proof (pack_size_spec _ Du) as [Dp _]. pose proof (pack_size_spec _ Hout) as [Op _].
  assert (0 <= osize <= 8) as Hos by (destruct (b_out t =? 0); lia).
  destruct (sizes_byte (pack_size delta) osize ltac:(lia) Hos) as [Z1 Z2]. set (sizes := u8 (Z.lor (Z.shiftl (pack_size delta) 4) osize)) in *.
  assert (zlen part_out = osize) as Hol. { unfold part_out. destruct (b_out t =? 0); [done | apply zlen_pack; lia]. }
  assert (zlen (pack_uint delta (pack_size delta)) = pack_size delta) as Hdl by (apply zlen_pack; lia).
  set (n := mkNode far_start before (Z.lor (64 * 2) idx) false 1 (pack_size delta) osize (zlen part_input) 0 0 0).
  assert (single_input m n = Got (b_inp t)) as Hsi.
  { apply (single_input_reads n 2 (pre ++ part_out ++ pack_uint delta (pack_size delta) ++ [sizes])); [by left | done | | by rewrite Hdata, <- ?app_assoc].
    cbn [n_start n]. unfold far_start. rewrite !zlen_app, Hol, Hdl. change (zlen [sizes]) with 1. lia. }
  assert (far_start - zlen part_input - 1 = zlen (pre ++ part_out ++ pack_uint delta (pack_size delta))) as Hsz.
  { unfold far_start. rewrite !zlen_app, Hol, Hdl. lia. }
  apply (one_reads _ n); try done; cbn [n_state n_ntrans n]; [|by rewrite S1 | |unfold far_start; lia].
  - unfold node, kEmptyAddress. rewrite (proj2 (Z.eqb_neq far_start 0)), (proj2 (Z.ltb_ge far_start 16)), (proj2 (Z.leb_gt (f_size m) _)) by (unfold far_start in *; lia).
    cbn [orb]. unfold mbind, access_bind.
    rewrite (byte_split _ (pre ++ part_out ++ pack_uint delta (pack_size delta) ++ [sizes] ++ part_input) (Z.lor (64 * 2) idx) post);
      [| by rewrite Hdata, <- ?app_assoc | unfold far_start; rewrite !zlen_app, Hol, Hdl; change (zlen [sizes]) with 1; lia].
    unfold node_shape. rewrite S1, S2. change (2 =? 3) with false. change (2 =? 2) with true. cbv iota. rewrite <- Hil.
    rewrite (proj2 (Z.ltb_ge far_start _)) by (unfold far_start; lia). unfold mbind, access_bind.
    rewrite (byte_split _ (pre ++ part_out ++ pack_uint delta (pack_size delta)) sizes (part_input ++ [Z.lor (64 * 2) idx] ++ post));
      [| by rewrite Hdata, <- ?app_assoc | exact Hsz]. rewrite Z1, Z2. cbn [n_tsize n_osize].
    rewrite (proj2 (Z.ltb_ge 8 (pack_size delta))), (proj2 (Z.ltb_ge 8 osize)), (proj2 (Z.ltb_ge (far_start - 16) _)) by (unfold far_start; lia).
    cbn [orb]. change (2 <? 2) with false. cbn [andb].
    replace (far_start - (zlen part_input + 1 + pack_size delta + osize)) with before by (unfold far_start; lia). done.
  - unfold transition. cbn [n_ntrans n_state n_end n n_start n_input_len n_tsize n_osize]. rewrite S1.
    change (1 <=? 0) with false. change (2 <=? 2) with true. change (2 =? 3) with false. cbv iota. unfold mbind, access_bind. fold n. rewrite Hsi, Hsz.
    assert ((if osize =? 0 then Got 0 else unpack_uint (f_data m) (zlen (pre ++ part_out ++ pack_uint delta (pack_size delta)) - pack_size delta - osize) osize)
      = Got (b_out t)) as ->.
    { unfold part_out in *. destruct (Z.eqb_spec (b_out t) 0) as [E|E]; [by rewrite E|]. rewrite (proj2 (Z.eqb_neq (pack_size (b_out t)) 0)) by lia.
      destruct (packed_value _ (pack_size (b_out t)) Hout ltac:(lia)) as [Hv Hl].
      rewrite (unpack_split _ pre (pack_uint (b_out t) (pack_size (b_out t))) (pack_uint delta (pack_size delta) ++ [sizes] ++ part_input ++ [Z.lor (64 * 2) idx] ++ post));
        [by rewrite Hv | by rewrite Hdata, <- ?app_assoc | rewrite !zlen_app, Hol, Hdl; lia | done]. }
    apply (far_address_reads m n _ _ _ (pre ++ part_out) (pack_uint delta (pack_size delta)) ([sizes] ++ part_input ++ [Z.lor (64 * 2) idx] ++ post)); try done.
    + by rewrite Hdata, <- ?app_assoc.
    + rewrite !zlen_app, Hol, Hdl. lia.
    + cbn [n_end n]. lia.
    + cbn [n_end n n_start]. unfold far_start. lia.
    + cbn [n_end n n_tsize]. lia.
Qed.

End One.

(** The bytes compiled for a node are read as the node, wherever they are and whatever follows. *)
Lemma compiled_reads m pre post last n :
  bnode_ok (zlen pre) n -> 16 <= zlen pre < 2 ^ 64 -> f_version m = 3 -> is_empty_final n = false ->
  (last <> kNoneAddress -> last = zlen pre - 1) -> f_data m = pre ++ compile_node last (zlen pre) n ++ post ->
  zlen pre + zlen (compile_node last (zlen pre) n) <= f_size m ->
  (bn_final n = false -> bn_final_output n = 0) ->
  reads m (zlen pre + zlen (compile_node last (zlen pre) n) - 1) n.
Proof.
  intros Hok Hb Hv He Hl Hd Hs Hf. unfold compile_node in *. rewrite He in *.
  destruct (bn_trans n) as [|t [|t2 ts]] eqn:Et; [by eapply any_reads | | by eapply any_reads].
  destruct (bn_final n) eqn:Ef; [by eapply any_reads|].
  destruct Hok as [_ Hi _ Ht]. rewrite Et in Hi, Ht. cbn in Hi. apply Forall_cons_1 in Hi as [Hi _]. destruct (Ht t ltac:(by left)) as [Hou Ha].
  replace n with (mkBNode false 0 [t]) by (destruct n; cbn in *; rewrite Ef, Et, Hf by done; done).
  unfold one_node in *. cbn zeta in *. destruct ((b_addr t =? last) && (b_out t =? 0)) eqn:E.
  - bool_prop. rewrite <- app_assoc in Hd. rewrite zlen_app in Hs |- *. fold (part_input t) in Hd, Hs |- *. change (zlen [_]) with 1 in *.
    replace (zlen pre + (zlen (part_input t) + 1) - 1) with (zlen pre + zlen (part_input t)) by lia.
    assert (last <> kNoneAddress) as Hne. { intros ->. unfold kNoneAddress, kEmptyAddress in *. lia. }
    apply (one_node_near m pre post); try done; [lia | rewrite (Hl Hne) in *; congruence].
  - rewrite <- !app_assoc in Hd. rewrite !zlen_app in Hs |- *. fold (part_input t) in Hd, Hs |- *. change (zlen [_]) with 1 in *.
    destruct (delta_small (zlen pre) t ltac:(lia) Ha) as [Du _]. pose proof (pack_size_spec _ Du) as [Dp _]. pose proof (pack_size_spec _ Hou) as [Op _].
    assert (zlen (if b_out t =? 0 then [] else pack_uint (b_out t) (if b_out t =? 0 then 0 else pack_size (b_out t))) = (if b_out t =? 0 then 0 else pack_size (b_out t))) as Hol.
    { destruct (b_out t =? 0); [done | apply zlen_pack; lia]. }
    rewrite Hol, zlen_pack in Hs |- * by lia.
    replace (zlen pre + _ - 1) with (far_start pre t) by (unfold far_start; lia).
    apply (one_node_far m pre post); try done. unfold far_start. lia.
Qed.

End FstRead.
