(* ===== verification/FstSafe.v ===== *)
(** * The transducer reader on any bytes (src/index/fts/fts_fst.cpp)

    Whatever the bytes are, [get] and [for_each] read inside them, and [for_each] ends: every transition the
    reader follows goes to a lower address. *)

From S2P Require Import Prelude Fst FstRead.

Module FstSafe.
Import Fst FstRead.

(** The bytes of a node before its state, from its sizes. *)
Definition need (n : Node) : Z :=
  if Z.shiftr (n_state n) 6 =? 3 then n_input_len n
  else if Z.shiftr (n_state n) 6 =? 2 then n_input_len n + 1 + n_tsize n + n_osize n
  else n_ntrans_len n + 1 + n_index_size n + n_ntrans n * (1 + n_tsize n) + n_ntrans n * n_osize n + (if n_final n then n_osize n else 0).

Record seen (m : FstMap) (n : Node) : Prop := {
  sn_start : 16 <= n_end n /\ n_start n < f_size m;
  sn_end : n_end n = n_start n - need n;
  sn_state : is_u8 (n_state n);
  sn_sizes : 0 <= n_tsize n <= 8 /\ 0 <= n_osize n <= 8;
  sn_counts : 0 <= n_ntrans n /\ 0 <= n_ntrans_len n /\ (n_index_size n = 0 \/ n_index_size n = 256);
  sn_single : 2 <= Z.shiftr (n_state n) 6 -> n_ntrans n = 1 /\ n_input_len n = (if Z.land (n_state n) 0x3F =? 0 then 1 else 0) }.

Definition empty_node : Node := mkNode 0 0 0 true 0 0 0 0 0 0 0.

(** A read that stays inside. *)
Definition inside {A} (P : A -> Prop) (a : access A) : Prop := match a with Outside => False | Refused => True | Got x => P x end.

Lemma inside_bind {A B} (P : A -> Prop) (Q : B -> Prop) (a : access A) (k : A -> access B) :
  inside P a -> (forall x, P x -> inside Q (k x)) -> inside Q (a ≫= k).
Proof. destruct a; cbn; auto. Qed.

Lemma inside_weaken {A} (P Q : A -> Prop) (a : access A) : (forall x, P x -> Q x) -> inside P a -> inside Q a.
Proof. destruct a; cbn; auto. Qed.

(** A node is found at the empty address or among the bytes of nodes. *)
Lemma node_address m addr n : node m addr = Got n -> addr = kEmptyAddress \/ 16 <= addr < f_size m.
Proof.
  unfold node. destruct (Z.eqb_spec addr kEmptyAddress) as [|Hne]; [by left|]. destruct ((addr <? 16) || (f_size m <=? addr)) eqn:E; [done|].
  bool_prop. intros _. right. lia.
Qed.

Section Any.
Context (m : FstMap) (Hbytes : bytes_ok (f_data m)) (Hsize : f_size m <= zlen (f_data m)).

Lemma byte_ok i : 0 <= i < f_size m -> inside is_u8 (byte (f_data m) i).
Proof.
  intros Hi. unfold byte. rewrite (proj2 (Z.ltb_ge _ _)) by lia.
  destruct (lookup_lt_is_Some_2 (f_data m) (Z.to_nat i)) as [b Hb]; [unfold zlen in Hsize; lia|]. rewrite Hb. cbn.
  by apply (Forall_lookup_1 _ _ _ _ Hbytes) in Hb.
Qed.

Lemma unpack_ok i k : 0 <= i -> i + k <= f_size m -> inside (fun v => 0 <= v) (unpack_uint (f_data m) i k).
Proof.
  intros Hi Hk. unfold unpack_uint. rewrite (proj2 (Z.ltb_ge _ _)), (proj2 (Z.ltb_ge (zlen _) _)) by lia. cbn.
  apply le_value_range. by apply Forall_take, Forall_drop.
Qed.

Lemma byte_parts v : is_u8 v -> 0 <= Z.shiftr v 6 <= 3 /\ 0 <= Z.land v 0x3F <= 63 /\ 0 <= Z.shiftr v 4 /\ 0 <= Z.land v 0x0F <= 15.
Proof.
  intros Hv. pose proof (all_below 256 (fun v => (0 <=? Z.shiftr v 6) && (Z.shiftr v 6 <=? 3) && (0 <=? Z.land v 0x3F) && (Z.land v 0x3F <=? 63) &&
    (0 <=? Z.shiftr v 4) && (0 <=? Z.land v 0x0F) && (Z.land v 0x0F <=? 15)) ltac:(vm_compute; reflexivity) v Hv) as H. cbn beta in H. bool_prop. lia.
Qed.

Lemma common_nonneg k : 0 < k <= 63 -> 0 <= common_input k.
Proof.
  intros Hk. pose proof (all_below 64 (fun k => (k =? 0) || (0 <=? common_input k)) ltac:(vm_compute; reflexivity) k ltac:(lia)) as H. cbn beta in H.
  apply orb_true_iff in H as [H|H]; bool_prop; lia.
Qed.

(** What [node_shape] gives, before the place is checked. *)
Lemma shape_inside addr v : 16 <= addr < f_size m -> is_u8 v -> inside (fun sh =>
    n_start sh.1 = addr /\ n_state sh.1 = v /\ need sh.1 = sh.2 /\ 0 <= n_tsize sh.1 /\ 0 <= n_osize sh.1 /\
    (0 <= n_ntrans sh.1 /\ 0 <= n_ntrans_len sh.1 /\ (n_index_size sh.1 = 0 \/ n_index_size sh.1 = 256)) /\
    (2 <= Z.shiftr v 6 -> n_ntrans sh.1 = 1 /\ n_input_len sh.1 = (if Z.land v 0x3F =? 0 then 1 else 0))) (node_shape m addr v).
Proof.
  intros Ha Hv. destruct (byte_parts v Hv) as (P1 & P2 & P3 & P4). unfold node_shape.
  destruct (Z.eqb_spec (Z.shiftr v 6) 3) as [E3|E3].
  { cbn. unfold need. cbn. rewrite E3. cbn. split_and!; try done; lia || auto. }
  destruct (Z.eqb_spec (Z.shiftr v 6) 2) as [E2|E2].
  { set (il := if Z.land v 0x3F =? 0 then 1 else 0). assert (0 <= il <= 1) as Hil by (subst il; destruct (_ =? 0); lia).
    destruct (Z.ltb_spec addr (il + 1 + 16)); [done|]. apply (inside_bind is_u8); [apply byte_ok; lia|]. intros sz Hsz.
    destruct (byte_parts sz Hsz) as (_ & _ & Q3 & Q4). cbn. unfold need. cbn. rewrite E2. cbn. split_and!; try done; lia || auto. }
  apply (inside_bind (fun q => 0 <= q.1 /\ (q.2 = 0 \/ q.2 = 1))).
  { destruct (Z.land v 0x3F =? 0); [|cbn; lia]. destruct (Z.ltb_spec addr (16 + 2)); [done|]. apply (inside_bind is_u8); [apply byte_ok; lia|].
    intros b Hb. unfold is_u8 in Hb. cbn. destruct (b =? 1); lia. }
  intros [ntrans nl] [Hn Hl]. cbn [fst snd] in Hn, Hl. destruct (Z.ltb_spec addr (nl + 1 + 16)); [done|].
  apply (inside_bind is_u8); [apply byte_ok; lia|]. intros sz Hsz. destruct (byte_parts sz Hsz) as (_ & _ & Q3 & Q4). cbn. unfold need. cbn.
  rewrite (proj2 (Z.eqb_neq (Z.shiftr v 6) 3)), (proj2 (Z.eqb_neq (Z.shiftr v 6) 2)) by done.
  split_and!; try done; try lia. destruct (_ && _); auto.
Qed.

Lemma need_nonneg n : is_u8 (n_state n) -> 0 <= n_tsize n /\ 0 <= n_osize n ->
  0 <= n_ntrans n /\ 0 <= n_ntrans_len n /\ (n_index_size n = 0 \/ n_index_size n = 256) ->
  (2 <= Z.shiftr (n_state n) 6 -> n_ntrans n = 1 /\ n_input_len n = (if Z.land (n_state n) 0x3F =? 0 then 1 else 0)) -> 0 <= need n.
Proof.
  intros Hv [Ht Ho] (G1 & G2 & G3) H7. unfold need. destruct (byte_parts _ Hv) as (P1 & _).
  destruct (Z.eqb_spec (Z.shiftr (n_state n) 6) 3); [destruct (H7 ltac:(lia)) as [_ ->]; destruct (_ =? 0); lia|].
  destruct (Z.eqb_spec (Z.shiftr (n_state n) 6) 2); [destruct (H7 ltac:(lia)) as [_ ->]; destruct (_ =? 0); lia|]. destruct (n_final n); nia.
Qed.

Lemma seen_need n : seen m n -> 0 <= need n.
Proof. intros [_ _ Hv [[? _] [? _]] Hc Hs]. by apply need_nonneg. Qed.

Lemma node_inside addr : inside (fun n => n = empty_node \/ (n_start n = addr /\ seen m n)) (node m addr).
Proof.
  unfold node. destruct (Z.eqb_spec addr kEmptyAddress) as [|Hne]; [by left|]. destruct ((addr <? 16) || (f_size m <=? addr)) eqn:E; [done|]. bool_prop.
  apply (inside_bind is_u8); [apply byte_ok; lia|]. intros v Hv. eapply inside_bind; [apply (shape_inside addr v); [lia | done]|].
  intros [n need_] (H1 & H2 & H3 & H4 & H5 & H6 & H7). cbn [fst snd] in *. destruct (_ || _) eqn:E2; [done|]. bool_prop.
  assert (0 <= need n) as Hneed by (apply need_nonneg; rewrite ?H2; auto).
  assert (forall o, seen m (placed n (addr - need_) o)) as Hs.
  { intros o. split; cbn [n_end n_start n_state n_tsize n_osize n_ntrans n_ntrans_len n_index_size n_input_len placed];
      [lia | by rewrite H1, <- H3 | by rewrite H2 | lia | done | by rewrite H2]. }
  destruct (_ && _ && _) eqn:E3; [|right; split; [done | apply Hs]]. bool_prop.
  eapply inside_bind; [apply (unpack_ok (addr - need_) (n_osize n)); [lia|]|intros o _; right; split; [done | apply Hs]].
  assert (n_osize n <= need n); [|lia]. unfold need. rewrite H2. rewrite (proj2 (Z.eqb_neq (Z.shiftr v 6) 3)), (proj2 (Z.eqb_neq (Z.shiftr v 6) 2)) by lia.
  destruct H6 as (G1 & G2 & G3). replace (n_final n) with true by done. nia.
Qed.

Lemma single_inside n : seen m n -> 2 <= Z.shiftr (n_state n) 6 -> inside is_u8 (single_input m n).
Proof.
  intros [[S1 S2] S3 S4 S5 S6 S7] Hk. destruct (S7 Hk) as [_ Hil]. destruct (byte_parts _ S4) as (P1 & P2 & _). unfold single_input.
  destruct (Z.ltb_spec (common_input (Z.land (n_state n) 0x3F)) 0) as [Hc|Hc].
  - assert (Z.land (n_state n) 0x3F = 0) as E0. { destruct (Z.eq_dec (Z.land (n_state n) 0x3F) 0); [done|]. pose proof (common_nonneg (Z.land (n_state n) 0x3F)). lia. }
    rewrite E0 in Hil. change (0 =? 0) with true in Hil. cbv iota in Hil. apply byte_ok.
    assert (1 <= need n); [|lia]. unfold need. rewrite Hil.
    destruct (Z.eqb_spec (Z.shiftr (n_state n) 6) 3); [lia|]. destruct (Z.eqb_spec (Z.shiftr (n_state n) 6) 2); lia.
  - cbn. assert (common_input (Z.land (n_state n) 0x3F) < 256) as Hlt; [|unfold is_u8; lia].
    pose proof (all_below 64 (fun k => common_input k <? 256) ltac:(vm_compute; reflexivity) (Z.land (n_state n) 0x3F) ltac:(lia)) as H. cbn beta in H. bool_prop. lia.
Qed.

Lemma far_inside n inp out tat : seen m n -> 16 <= tat -> tat + n_tsize n <= n_start n ->
  inside (fun t => t_addr t = kEmptyAddress \/ 16 <= t_addr t < n_start n) (far_address m n inp out tat).
Proof.
  intros [[S1 S2] S3 S4 S5 S6 S7] Ht Hs. unfold far_address. apply (inside_bind (fun v => 0 <= v)).
  { destruct (n_tsize n =? 0); [cbn; lia | apply unpack_ok; lia]. }
  intros d Hd. destruct (d =? kEmptyAddress); [by left|]. destruct (n_end n <? d); [done|].
  destruct ((16 <=? n_end n - d) && (n_end n - d <? n_start n)) eqn:E; [|done]. bool_prop. right. cbn. lia.
Qed.

Lemma transition_inside n i : n = empty_node \/ seen m n -> 0 <= i ->
  inside (fun t => t_addr t = kEmptyAddress \/ 16 <= t_addr t < n_start n) (transition m n i).
Proof.
  intros [->|Hs] Hi; unfold transition.
  { cbn. rewrite (proj2 (Z.leb_le 0 i)) by lia. done. }
  destruct (Z.leb_spec (n_ntrans n) i); [done|]. pose proof Hs as [[S1 S2] S3 S4 S5 S6 S7]. destruct (byte_parts _ S4) as (P1 & _).
  destruct (Z.leb_spec 2 (Z.shiftr (n_state n) 6)) as [Hk|Hk].
  - destruct (S7 Hk) as [_ Hil]. assert (0 <= n_input_len n <= 1) as Hil' by (rewrite Hil; destruct (_ =? 0); lia).
    eapply inside_bind; [by apply single_inside|]. intros inp _. unfold need in S3. destruct (Z.eqb_spec (Z.shiftr (n_state n) 6) 3) as [E3|E3].
    + destruct (n_end n =? 0); [done|]. destruct (Z.leb_spec 16 (n_end n - 1)); [|done]. right. cbn. lia.
    + rewrite (proj2 (Z.eqb_eq (Z.shiftr (n_state n) 6) 2)) in S3 by lia. apply (inside_bind (fun v => 0 <= v)).
      { destruct (n_osize n =? 0); [cbn; lia | apply unpack_ok; lia]. }
      intros o _. apply far_inside; [done | lia | lia].
  - unfold need in S3. rewrite (proj2 (Z.eqb_neq (Z.shiftr (n_state n) 6) 3)), (proj2 (Z.eqb_neq (Z.shiftr (n_state n) 6) 2)) in S3 by lia.
    assert (0 <= (if n_final n then n_osize n else 0)) as Hf by (destruct (n_final n); lia).
    assert (n_ntrans n * n_tsize n = (i + 1) * n_tsize n + (n_ntrans n - i - 1) * n_tsize n /\ 0 <= (n_ntrans n - i - 1) * n_tsize n /\ 0 <= (i + 1) * n_tsize n) as (T1 & T2 & T3) by (split_and!; nia).
    assert (n_ntrans n * n_osize n = (i + 1) * n_osize n + (n_ntrans n - i - 1) * n_osize n /\ 0 <= (n_ntrans n - i - 1) * n_osize n /\ 0 <= (i + 1) * n_osize n) as (O1 & O2 & O3) by (split_and!; nia).
    assert (n_tsize n <= (i + 1) * n_tsize n /\ n_osize n <= (i + 1) * n_osize n) as [T4 O4] by (split; nia).
    rewrite Z.mul_add_distr_l, Z.mul_1_r in S3 |- *. apply (inside_bind is_u8); [apply byte_ok; lia|]. intros inp _.
    apply (inside_bind (fun v => 0 <= v)).
    { destruct (n_osize n =? 0); [cbn; lia | apply unpack_ok; lia]. }
    intros o _. apply far_inside; [done | lia | lia].
Qed.

Lemma scan_inside n j b : forall count at_, 0 <= at_ -> at_ + Z.of_nat count <= f_size m -> 0 <= j -> Z.of_nat count + j = n ->
  inside (fun i => 0 <= i) (scan_inputs m count at_ n j b).
Proof.
  intros count. revert j. induction count as [|count IH]; intros j at_ Ha Hb Hj Hn; [done|]. cbn [scan_inputs].
  apply (inside_bind is_u8); [apply byte_ok; lia|]. intros x _. destruct (x =? b); [cbn; lia|]. apply IH; lia.
Qed.

Lemma find_input_inside n b : n = empty_node \/ seen m n -> is_u8 b -> inside (fun i => 0 <= i) (find_input m n b).
Proof.
  intros [->|Hs] Hb; unfold find_input; [done|]. pose proof Hs as [[S1 S2] S3 S4 S5 S6 S7]. unfold is_u8 in Hb. destruct (byte_parts _ S4) as (P1 & _).
  destruct (n_start n =? 0); [done|]. destruct (Z.leb_spec 2 (Z.shiftr (n_state n) 6)) as [Hk|Hk].
  { eapply inside_bind; [by apply single_inside|]. intros inp _. by destruct (inp =? b). }
  unfold need in S3. rewrite (proj2 (Z.eqb_neq (Z.shiftr (n_state n) 6) 3)), (proj2 (Z.eqb_neq (Z.shiftr (n_state n) 6) 2)) in S3 by lia.
  assert (0 <= (if n_final n then n_osize n else 0)) as Hf by (destruct (n_final n); lia).
  assert (0 <= n_ntrans n * n_tsize n /\ 0 <= n_ntrans n * n_osize n) as [T O] by (split; nia).
  rewrite Z.mul_add_distr_l, Z.mul_1_r in S3. destruct (Z.eqb_spec (n_index_size n) 0) as [E|E]; cbn [negb].
  - apply scan_inside; lia.
  - apply (inside_bind is_u8); [apply byte_ok; lia|]. intros i Hi. destruct (i <? n_ntrans n); [|done]. cbn. unfold is_u8 in Hi. lia.
Qed.

Lemma get_loop_inside key : bytes_ok key -> forall n out, n = empty_node \/ seen m n -> inside (fun _ => True) (get_loop m n key out).
Proof.
  induction 1 as [|c key Hc Hkey IH]; intros n out Hn; cbn [get_loop]; [by destruct (n_final n)|].
  eapply inside_bind; [by apply find_input_inside|]. intros i Hi. eapply inside_bind; [by apply transition_inside|]. intros t _.
  eapply inside_bind; [apply node_inside|]. intros n' Hn'. apply IH. destruct Hn' as [|[_ ?]]; auto.
Qed.

Definition frame_ok (f : Frame) : Prop := (fr_node f = empty_node \/ seen m (fr_node f)) /\ 0 <= fr_next f.

(** The next child of a frame. *)
Lemma child_inside f : frame_ok f -> inside (fun c => c.2 = empty_node \/ (n_start c.2 = t_addr c.1 /\ seen m c.2 /\ n_start c.2 < n_start (fr_node f)))
  (t ← transition m (fr_node f) (fr_next f); c ← node m (t_addr t); Got (t, c)).
Proof.
  intros [Hn Hx]. eapply inside_bind; [by apply transition_inside|]. intros t Ht. eapply inside_bind; [apply node_inside|]. intros c Hc. cbn.
  destruct Hc as [->|[E Hc]]; [by left|]. destruct Ht as [E0|Ht]; [|right; split_and!; [done | done | lia]].
  pose proof (seen_need c Hc). destruct Hc as [[? ?] Hend _ _ _ _]. unfold kEmptyAddress in E0. lia.
Qed.

Lemma for_each_inside fuel : forall stack key acc r, Forall frame_ok stack -> for_each_loop m fuel stack key acc = Some r -> r.2 <> Outside.
Proof.
  induction fuel as [|fuel IH]; intros stack key acc r Hs; (destruct stack as [|top rest]; [by intros [= <-]|]); [done|].
  apply Forall_cons_1 in Hs as [Ht Hr]. cbn [for_each_loop]. destruct (_ <=? _); [by apply IH|]. pose proof (child_inside top Ht) as Hc.
  destruct (transition m (fr_node top) (fr_next top) ≫= _) as [| |[t c]]; [done | by intros [= <-] |]. cbn in Hc.
  destruct (_ <? _); [by intros [= <-]|]. apply IH. constructor; [|constructor; [|done]].
  - split; cbn; [|lia]. destruct Hc as [|(_ & ? & _)]; auto.
  - destruct Ht as [? ?]. split; cbn; [done | lia].
Qed.

(** [for_each] ends from a stack whose lower frames it ends from. *)
Definition ends (stack : list Frame) : Prop := forall key acc, exists fuel r, for_each_loop m fuel stack key acc = Some r.

Lemma frame_ends : forall bound f rest, frame_ok f -> n_start (fr_node f) <= bound -> 0 <= bound -> ends rest -> ends (f :: rest).
Proof.
  intros bound f rest Hf Hb H0. revert f rest Hf Hb. pattern bound. apply Z_lt_induction; [|done]. clear bound H0. intros bound IHb f rest Hf Hb Hr.
  remember (Z.to_nat (n_ntrans (fr_node f) - fr_next f)) as k eqn:Ek. revert f Ek Hf Hb. induction k as [|k IHk]; intros f Ek Hf Hb key acc.
  { destruct (Hr (removelast key) acc) as (fuel & r & E). exists (S fuel), r. cbn [for_each_loop]. by rewrite (proj2 (Z.leb_le _ _)) by lia. }
  set (f' := mkFrame (fr_node f) (fr_next f + 1) (fr_out f)).
  assert (frame_ok f') as Hf' by (destruct Hf as [? ?]; split; cbn; [done | lia]).
  assert (ends (f' :: rest)) as He by (apply IHk; [cbn; lia | done | done]).
  pose proof (child_inside f Hf) as Hc.
  destruct (transition m (fr_node f) (fr_next f) ≫= fun t => node m (t_addr t) ≫= fun c => Got (t, c)) as [| |[t c]] eqn:Et.
  - exists 1%nat, (acc, Outside). cbn [for_each_loop]. rewrite (proj2 (Z.leb_gt _ _)) by lia. by rewrite Et.
  - exists 1%nat, (acc, Refused). cbn [for_each_loop]. rewrite (proj2 (Z.leb_gt _ _)) by lia. by rewrite Et.
  - cbn in Hc. assert (forall out, ends (mkFrame c 0 out :: f' :: rest)) as Hch.
    { intros out. destruct Hc as [->|(_ & Hc & Hlt)].
      - intros key' acc'. destruct (He (removelast key') acc') as (fuel & r & E). exists (S fuel), r. cbn [for_each_loop]. done.
      - pose proof (seen_need c Hc) as Hn. destruct Hc as [[C1 C2] C3 C4 C5 C6 C7].
        apply (IHb (n_start c)); [lia | | cbn; lia | done]. split; cbn; [right; by split | lia]. }
    destruct (f_size m + 1 <? zlen (f :: rest)) eqn:Ez.
    + exists 1%nat, (acc, Refused). cbn [for_each_loop]. rewrite (proj2 (Z.leb_gt _ _)) by lia. rewrite Et. by rewrite Ez.
    + destruct (Hch (u64 (fr_out f + t_out t)) (key ++ [t_inp t])
        (if n_final c then acc ++ [(key ++ [t_inp t], u64 (u64 (fr_out f + t_out t) + n_final_output c))] else acc)) as (fuel & r & E).
      exists (S fuel), r. cbn [for_each_loop]. rewrite (proj2 (Z.leb_gt _ _)) by lia. rewrite Et. rewrite Ez. exact E.
Qed.

End Any.

(** C37: (safety): whatever the bytes of a transducer map, once [open] accepts them every lookup reads inside them,
    and walking all the entries ends and reads inside them: a malformed node is refused, not followed. *)
Theorem fst_reader_safe data m : bytes_ok data -> open_ data = Ok m ->
  (forall key, bytes_ok key -> get m key <> Outside) /\
  (exists fuel r, for_each m fuel = Some r) /\ (forall fuel r, for_each m fuel = Some r -> r.2 <> Outside).
Proof.
  intros Hb Ho. assert (f_data m = data /\ f_size m <= zlen data) as [Hd Hs].
  { unfold open_ in Ho. repeat case_hyp Ho; injection Ho as <-; cbn; (split; [done|]); repeat case_bool; lia. }
  assert (bytes_ok (f_data m)) as Hb' by (by rewrite Hd). assert (f_size m <= zlen (f_data m)) as Hs' by (by rewrite Hd).
  pose proof (node_inside m Hb' Hs' (f_root m)) as Hr. split_and!.
  - intros key Hk. unfold get. pose proof (inside_bind _ (fun _ => True) _ (fun n => get_loop m n key 0) Hr) as Hi.
    intros E. unfold get in E. rewrite E in Hi. apply Hi. intros n Hn. apply get_loop_inside; auto. destruct Hn as [|[_ ?]]; auto.
  - unfold for_each. destruct (node m (f_root m)) as [| |root]; [by exists 0%nat; eexists | by exists 0%nat; eexists |].
    assert (ends m []) as He by (intros key acc; by exists 0%nat; eexists).
    assert (frame_ok m (mkFrame root 0 0)) as Hf by (split; cbn; [|lia]; destruct Hr as [|[_ ?]]; auto).
    destruct Hr as [->|[_ Hr]].
    + apply (frame_ends m Hb' Hs' 0 _ [] Hf); [cbn; lia | lia | done].
    + apply (frame_ends m Hb' Hs' (Z.max 0 (n_start root)) _ [] Hf); [cbn; lia | lia | done].
  - intros fuel r. unfold for_each. destruct (node m (f_root m)) as [| |root]; [done | by intros [= <-] |]. apply for_each_inside; auto.
    constructor; [|constructor]. split; cbn; [|lia]. destruct Hr as [|[_ ?]]; auto.
Qed.

(** A map of version 1, which has no checksum: one key, the byte 116, in a node whose transition leaves the bytes of the
    nodes. The map is opened and the lookup refused. *)
Definition hostile_map : list Z := [1; 0; 0; 0; 0; 0; 0; 0; 0; 0; 0; 0; 0; 0; 0; 0; 77; 200; 16; 129; 0; 0; 0; 0; 0; 0; 0; 0; 19; 0; 0; 0; 0; 0; 0; 0].

Lemma fst_reader_safe_witness : exists m, open_ hostile_map = Ok m /\ get m [116] = Refused /\ (forall key, bytes_ok key -> get m key <> Outside) /\
  (exists fuel r, for_each m fuel = Some r).
Proof.
  destruct (open_ hostile_map) as [m|] eqn:E; [|vm_compute in E; discriminate E].
  destruct (fst_reader_safe hostile_map m) as (Hg & Hf & _); [repeat constructor; unfold is_u8; lia | exact E |].
  exists m. repeat split; [|exact Hg | exact Hf]. vm_compute in E. injection E as <-. vm_compute. reflexivity.
Defined.

End FstSafe.
