(* ===== verification/FstBuild.v ===== *)
(** * Building a transducer map (src/index/fts/fts_fst.cpp)

    [den] is what an address means: the keys accepted from a compiled node, with the outputs along the way.
    [sden] is what the unfinished nodes of the last key mean. Every step of [insert] and [finish] is shown to
    keep the meaning of what was inserted: moving outputs along the common prefix, compiling the nodes a new
    key leaves behind (through the registry), adding the new suffix. *)

From S2P Require Import Prelude Fst FstRead.

Module FstBuild.
Import Fst FstRead.

(** ** What nodes mean *)

(** The compiled nodes by address. *)
Notation heap := (gmap Z BNode).

Definition node_of (H : heap) (addr : Z) : option BNode := if addr =? kEmptyAddress then Some (mkBNode true 0 []) else H !! addr.

Definition find_trans (c : Z) (l : list BTrans) : option BTrans := List.find (fun t => b_inp t =? c) l.
Definition plus (o : Z) (v : Z) : Z := u64 (o + v).
Definition end_value (n : BNode) : option Z := if bn_final n then Some (bn_final_output n) else None.

Fixpoint den (H : heap) (addr : Z) (key : list Z) : option Z :=
  n ← node_of H addr;
  match key with
  | [] => end_value n
  | c :: key => t ← find_trans c (bn_trans n); plus (b_out t) <$> den H (b_addr t) key
  end.

Definition tden (H : heap) (l : list BTrans) (c : Z) (key : list Z) : option Z := t ← find_trans c l; plus (b_out t) <$> den H (b_addr t) key.
Definition bden (H : heap) (n : BNode) (key : list Z) : option Z :=
  match key with [] => end_value n | c :: key => tden H (bn_trans n) c key end.

Fixpoint sden (H : heap) (us : list Unfinished) (key : list Z) : option Z :=
  match us with
  | [] => None
  | u :: rest =>
      match key with
      | [] => end_value (u_node u)
      | c :: key =>
          match u_last u with
          | Some (inp, o) => if inp =? c then plus o <$> sden H rest key else tden H (bn_trans (u_node u)) c key
          | None => tden H (bn_trans (u_node u)) c key
          end
      end
  end.

Lemma den_node H addr n key : node_of H addr = Some n -> den H addr key = bden H n key.
Proof. intros E. destruct key; cbn; by rewrite E. Qed.

Definition closed (H : heap) (n : BNode) : Prop := forall t, t ∈ bn_trans n -> is_Some (node_of H (b_addr t)).
Definition heap_closed (H : heap) : Prop := forall a n, H !! a = Some n -> closed H n.

Lemma find_trans_in c l t : find_trans c l = Some t -> t ∈ l /\ b_inp t = c.
Proof. intros E. apply List.find_some in E as [Hin E]. apply Z.eqb_eq in E. by rewrite list_elem_of_In. Qed.

Lemma node_of_mono H H' a n : H ⊆ H' -> node_of H a = Some n -> node_of H' a = Some n.
Proof. intros Hs. unfold node_of. destruct (_ =? _); [done|]. intros E. by eapply lookup_weaken. Qed.

(** A closed node means the same in a larger heap. *)
Lemma den_mono H H' key : H ⊆ H' -> heap_closed H -> forall a n, node_of H a = Some n -> den H' a key = den H a key.
Proof.
  intros Hs Hc. induction key as [|c key IH]; intros a n Ha; cbn; rewrite Ha, (node_of_mono H H' a n Hs Ha); [done|]. cbn.
  destruct (find_trans c (bn_trans n)) as [t|] eqn:Et; [|done]. cbn. apply find_trans_in in Et as [Ht _].
  assert (closed H n) as Hn.
  { unfold node_of in Ha. destruct (_ =? _); [injection Ha as <-; by intros ? ?%elem_of_nil | by apply (Hc a)]. }
  destruct (Hn t Ht) as [n' Hn']. by rewrite (IH _ _ Hn').
Qed.

Lemma tden_mono H H' l c key : H ⊆ H' -> heap_closed H -> (forall t, t ∈ l -> is_Some (node_of H (b_addr t))) -> tden H' l c key = tden H l c key.
Proof.
  intros Hs Hc Hl. unfold tden. destruct (find_trans c l) as [t|] eqn:Et; [|done]. cbn. apply find_trans_in in Et as [Ht _].
  destruct (Hl t Ht) as [n Hn]. by rewrite (den_mono H H' key Hs Hc _ _ Hn).
Qed.

Lemma bden_mono H H' n key : H ⊆ H' -> heap_closed H -> closed H n -> bden H' n key = bden H n key.
Proof. intros. destruct key; [done|]. by apply tden_mono. Qed.

Lemma sden_mono H H' us : H ⊆ H' -> heap_closed H -> Forall (fun u => closed H (u_node u)) us -> forall key, sden H' us key = sden H us key.
Proof.
  intros Hs Hc Hu. induction Hu as [|u us Hu Hus IH]; intros key; [done|]. destruct key as [|c key]; [done|]. cbn.
  rewrite (tden_mono H H' _ c key Hs Hc Hu). destruct (u_last u) as [[inp o]|]; [|done]. by rewrite IH.
Qed.

(** ** Nodes of the stack *)

Definition inputs (n : BNode) : list Z := b_inp <$> bn_trans n.

Record good (H : heap) (n : BNode) : Prop := {
  gd_sorted : StronglySorted Z.lt (inputs n);
  gd_bytes : Forall is_u8 (inputs n);
  gd_final : is_u64 (bn_final_output n) /\ (bn_final n = false -> bn_final_output n = 0);
  gd_outs : Forall (fun t => is_u64 (b_out t)) (bn_trans n);
  gd_closed : closed H n }.

(** The stack spells the last key: each node but the top has a last input, above all its compiled ones. *)
Inductive Spine (H : heap) : list Unfinished -> list Z -> Prop :=
  | spine_top u : u_last u = None -> good H (u_node u) -> Spine H [u] []
  | spine_more u c o us key : u_last u = Some (c, o) -> is_u64 o -> is_u8 c -> good H (u_node u) ->
      Forall (fun x => x < c) (inputs (u_node u)) -> Spine H us key -> Spine H (u :: us) (c :: key).

Lemma good_mono H H' n : H ⊆ H' -> good H n -> good H' n.
Proof. intros Hs [? ? ? ? Hc]. split; try done. intros t Ht. destruct (Hc t Ht) as [n' Hn]. exists n'. by eapply node_of_mono. Qed.

Lemma Spine_mono H H' us key : H ⊆ H' -> Spine H us key -> Spine H' us key.
Proof. intros Hs. induction 1; econstructor; eauto using good_mono. Qed.

Lemma Spine_closed H us key : Spine H us key -> Forall (fun u => closed H (u_node u)) us.
Proof. induction 1 as [u _ Hg|u c o us key _ _ _ Hg _ _ IH]; constructor; auto; apply Hg. Qed.

Lemma Spine_length H us key : Spine H us key -> length us = S (length key).
Proof. induction 1; cbn; lia. Qed.

Lemma plus_plus a b v : plus a (plus b v) = plus (a + b) v.
Proof. unfold plus, u64, wrap. rewrite Zplus_mod_idemp_r. f_equal. lia. Qed.

Lemma plus_wrap a v : plus (u64 a) v = plus a v.
Proof. unfold plus, u64, wrap. by rewrite Zplus_mod_idemp_l. Qed.

Lemma fmap_plus a b (o : option Z) : plus a <$> (plus b <$> o) = plus (a + b) <$> o.
Proof. destruct o; [|done]. cbn. by rewrite plus_plus. Qed.

(** ** Moving outputs *)

Lemma find_trans_map c p l : find_trans c ((fun t => mkBTrans (b_inp t) (u64 (b_out t + p)) (b_addr t)) <$> l) =
  (fun t => mkBTrans (b_inp t) (u64 (b_out t + p)) (b_addr t)) <$> find_trans c l.
Proof. unfold find_trans. induction l as [|t l IH]; [done|]. cbn. destruct (b_inp t =? c); [done | apply IH]. Qed.

Lemma tden_prefix H p l c key : tden H ((fun t => mkBTrans (b_inp t) (u64 (b_out t + p)) (b_addr t)) <$> l) c key = plus p <$> tden H l c key.
Proof.
  unfold tden. rewrite find_trans_map. destruct (find_trans c l) as [t|]; [|done]. cbn. rewrite fmap_plus.
  destruct (den H (b_addr t) key); [|done]. cbn. rewrite plus_wrap. by rewrite Z.add_comm.
Qed.

Lemma sden_prefix H p u us key : is_u64 (bn_final_output (u_node u)) -> sden H (add_output_prefix p u :: us) key = plus p <$> sden H (u :: us) key.
Proof.
  intros Hf. destruct key as [|c key].
  { cbn. unfold end_value. cbn. destruct (bn_final (u_node u)); [|done]. cbn. unfold plus. by rewrite Z.add_comm. }
  cbn. destruct (u_last u) as [[inp o]|]; cbn; [|apply tden_prefix]. destruct (inp =? c); [|apply tden_prefix].
  rewrite fmap_plus. destruct (sden H us key); [|done]. cbn. by rewrite plus_wrap, Z.add_comm.
Qed.

Lemma inputs_prefix p u : inputs (u_node (add_output_prefix p u)) = inputs (u_node u).
Proof. unfold inputs. cbn. rewrite <- list_fmap_compose. by apply list_fmap_ext. Qed.

Lemma good_prefix H p u : good H (u_node u) -> good H (u_node (add_output_prefix p u)).
Proof.
  intros [G1 G2 [G3 G3'] G4 G5]. split; rewrite ?inputs_prefix; try done.
  - cbn. destruct (bn_final (u_node u)); [split; [apply u64_range | done] | split; [exact G3 | exact G3']].
  - cbn. apply Forall_fmap, Forall_true. intros t. apply u64_range.
  - intros t Ht. cbn in Ht. apply list_elem_of_fmap in Ht as (t' & -> & Ht). exact (G5 t' Ht).
Qed.

Lemma Spine_prefix H p us key : Spine H us key -> Spine H (alter (add_output_prefix p) 0%nat us) key.
Proof.
  destruct 1 as [u E Hg|u c o us key E Ho Hc Hg Hi Hs].
  - apply spine_top; [cbn; by rewrite E | by apply good_prefix].
  - eapply spine_more; [cbn; by rewrite E | apply u64_range | done | by apply good_prefix | by rewrite inputs_prefix | done].
Qed.

(** The outputs of the first [i] last inputs. *)
Fixpoint path_sum (us : list Unfinished) (i : nat) : Z :=
  match us, i with
  | u :: us, S i => match u_last u with Some (_, o) => o | None => 0 end + path_sum us i
  | _, _ => 0
  end.

Definition top_clean (us : list Unfinished) : Prop := forall u, last us = Some u -> bn_trans (u_node u) = [].

Lemma top_clean_cons u us : us <> [] -> top_clean (u :: us) <-> top_clean us.
Proof. intros Hn. unfold top_clean. destruct us; [done|]. done. Qed.

Lemma Spine_nonempty H us key : Spine H us key -> us <> [].
Proof. by destruct 1. Qed.

Lemma top_clean_prefix p us : us <> [] -> top_clean us -> top_clean (alter (add_output_prefix p) 0%nat us).
Proof.
  intros Hn Hc u Hu. destruct us as [|u0 us]; [done|]. change (alter _ 0%nat (u0 :: us)) with (add_output_prefix p u0 :: us) in Hu.
  destruct us as [|u1 us]; [|by apply Hc]. injection Hu as <-. cbn. by rewrite (Hc u0 eq_refl).
Qed.

Lemma shared_prefix_spec H bs : forall us last v i v' us',
  Spine H us last -> top_clean us -> is_u64 v -> common_prefix_and_set_output us bs v = (i, v', us') ->
  Spine H us' last /\ top_clean us' /\ (forall key, sden H us' key = sden H us key) /\ is_u64 v' /\ path_sum us' i + v' = v /\
  (i <= length last)%nat /\ take i bs = take i last /\
  match drop i bs, drop i last with c :: _, d :: _ => c <> d | _, _ => True end.
Proof.
  induction bs as [|c bs IH]; intros us last v i v' us' Hs Ht Hv E.
  { assert (common_prefix_and_set_output us [] v = (0%nat, v, us)) as E' by (by destruct us). rewrite E' in E. injection E as <- <- <-.
    split_and!; first [done | destruct us; cbn; lia]. }
  destruct Hs as [u E1 Hg|u d o us key E1 Ho Hd Hg Hi Hs]; cbn [common_prefix_and_set_output] in E; rewrite E1 in E.
  { injection E as <- <- <-. split_and!; first [done | by constructor | cbn; lia]. }
  destruct (Z.eqb_spec d c) as [->|Hne].
  2:{ injection E as <- <- <-. split_and!; first [done | by econstructor | cbn; lia | cbn; congruence]. }
  set (us1 := if negb (o - Z.min o v =? 0) then alter (add_output_prefix (o - Z.min o v)) 0%nat us else us) in E.
  assert (Spine H us1 key /\ top_clean us1 /\ forall k, plus (Z.min o v) <$> sden H us1 k = plus o <$> sden H us k) as (S1 & T1 & D1).
  { apply (top_clean_cons u us) in Ht; [|by eapply Spine_nonempty]. subst us1. destruct (Z.eqb_spec (o - Z.min o v) 0) as [E0|E0]; cbn [negb].
    - split_and!; try done. by replace (Z.min o v) with o by lia.
    - split_and!; [by apply Spine_prefix | apply top_clean_prefix; [by eapply Spine_nonempty | done] |]. intros k.
      destruct us as [|u1 us1]; [by apply Spine_nonempty in Hs|]. change (alter _ 0%nat (u1 :: us1)) with (add_output_prefix (o - Z.min o v) u1 :: us1).
      rewrite sden_prefix; [|inversion Hs; subst; by match goal with G : good _ _ |- _ => apply (gd_final _ _ G) end].
      rewrite fmap_plus. f_equal. f_equal. lia. }
  destruct (common_prefix_and_set_output us1 bs (v - Z.min o v)) as [[i0 v0] us0] eqn:E0. injection E as <- <- <-.
  unfold is_u64 in Ho, Hv. assert (is_u64 (v - Z.min o v)) as Hv' by (unfold is_u64; lia).
  destruct (IH _ _ _ _ _ _ S1 T1 Hv' E0) as (R1 & R2 & R3 & R4 & R5 & R6 & R7 & R8).
  split_and!; [| | | done | cbn; lia | cbn; lia | cbn; by f_equal | done].
  - econstructor; [done | unfold is_u64; lia | done | done | done | done].
  - apply top_clean_cons; [by eapply Spine_nonempty | done].
  - intros [|k key']; [done|]. cbn. rewrite E1. destruct (c =? k); [|done]. by rewrite R3.
Qed.

(** ** Compiling *)

(** Node [n] is in the bytes at [a]. *)
Definition laid (data : list Z) (H : heap) (a : Z) (n : BNode) : Prop := exists pre post last,
  data = pre ++ compile_node last (zlen pre) n ++ post /\ a = zlen pre + zlen (compile_node last (zlen pre) n) - 1 /\ 16 <= zlen pre /\
  good H n /\ is_empty_final n = false /\ (last <> kNoneAddress -> last = zlen pre - 1) /\
  (forall t, t ∈ bn_trans n -> b_addr t = kEmptyAddress \/ 16 <= b_addr t < zlen pre).

Definition cell_ok (H : heap) (c : Cell) : Prop := c_addr c <> kNoneAddress -> H !! c_addr c = Some (c_node c).

Definition header : list Z := pack_uint kVersion 8 ++ pack_uint 0 8.

Record Inv (b : Builder) (H : heap) : Prop := {
  iv_laid : forall a n, H !! a = Some n -> laid (out b) H a n;
  iv_registry : forall h c1 c2, registry b !! h = Some (c1, c2) -> cell_ok H c1 /\ cell_ok H c2;
  iv_last : last_addr b <> kNoneAddress -> last_addr b = zlen (out b) - 1;
  iv_header : exists rest, out b = header ++ rest;
  iv_empty : H = ∅ -> out b = header }.

Lemma compile_node_bytes last addr n : is_empty_final n = false -> 1 <= zlen (compile_node last addr n).
Proof.
  intros He. unfold compile_node. rewrite He.
  assert (1 <= zlen (any_node addr n)) as Ha.
  { unfold any_node. rewrite !zlen_app. change (zlen [_]) with 1 at 1. pose proof (zlen_nonneg (A:=Z)) as Hz.
    repeat match goal with |- context [zlen ?l] => lazymatch l with [_] => fail | _ => let k := fresh "k" in pose proof (Hz l); set (k := zlen l) in *; clearbody k end end.
    change (zlen [_]) with 1. lia. }
  destruct (bn_trans n) as [|t [|t2 ts]]; [done | | done]. destruct (bn_final n); [done|].
  unfold one_node. destruct (_ && _); rewrite !zlen_app; pose proof (zlen_nonneg (A:=Z)) as Hz;
    repeat match goal with |- context [zlen ?l] => lazymatch l with [_] => fail | _ => let k := fresh "k" in pose proof (Hz l); set (k := zlen l) in *; clearbody k end end;
    change (zlen [_]) with 1; lia.
Qed.

Lemma laid_range data H a n : laid data H a n -> 16 <= a < zlen data.
Proof.
  intros (pre & post & last & -> & -> & Hp & _ & He & _). pose proof (compile_node_bytes last (zlen pre) n He). rewrite !zlen_app. pose proof (zlen_nonneg post). lia.
Qed.

Lemma node_of_heap b H a n : Inv b H -> H !! a = Some n -> node_of H a = Some n.
Proof.
  intros Hi Ha. unfold node_of. destruct (laid_range _ _ _ _ (iv_laid _ _ Hi a n Ha)) as [Hr _].
  rewrite (proj2 (Z.eqb_neq a kEmptyAddress)) by (unfold kEmptyAddress; lia). done.
Qed.

Lemma Inv_closed b H : Inv b H -> heap_closed H.
Proof. intros Hi a n Ha. destruct (iv_laid _ _ Hi a n Ha) as (pre & post & last & _ & _ & _ & Hg & _). apply Hg. Qed.

Lemma empty_final_eq n : is_empty_final n = true -> n = mkBNode true 0 [].
Proof.
  unfold is_empty_final. intros E. apply andb_true_iff in E as [E Ht%bool_decide_eq_true]. bool_prop. destruct n as [f o l]. cbn in *. by subst.
Qed.

Lemma trans_range b H n : Inv b H -> closed H n -> forall t, t ∈ bn_trans n -> b_addr t = kEmptyAddress \/ 16 <= b_addr t < zlen (out b).
Proof.
  intros Hi Hc t Ht. destruct (Hc t Ht) as [n' Hn]. unfold node_of in Hn. destruct (Z.eqb_spec (b_addr t) kEmptyAddress) as [|Hne]; [by left|]. right.
  by apply (laid_range (out b) H _ n'), (iv_laid _ _ Hi).
Qed.

Lemma laid_mono data data' H H' a n : H ⊆ H' -> laid data H a n -> laid (data ++ data') H' a n.
Proof.
  intros Hs (pre & post & last & -> & Ha & Hp & Hg & He). exists pre, (post ++ data'), last. split_and!; try done; try apply He.
  - by rewrite <- !app_assoc.
  - by eapply good_mono.
Qed.

Definition frame_of (b b' : Builder) : Prop := stack b' = stack b /\ last_key b' = last_key b /\ len b' = len b.

Lemma compile_spec b H n a b' : Inv b H -> good H n -> compile b n = (a, b') ->
  exists H', H ⊆ H' /\ Inv b' H' /\ node_of H' a = Some n /\ a <> kNoneAddress /\ frame_of b b' /\
    (H' = H \/ (H' = <[a := n]> H /\ a = zlen (out b') - 1)).
Proof.
  intros Hi Hg. unfold compile. destruct (is_empty_final n) eqn:He.
  { intros [= <- <-]. exists H. split_and!; try done; [|by left]. by rewrite (empty_final_eq n He). }
  set (cells := default (Cell0, Cell0) (registry b !! hash n)).
  assert (cell_ok H cells.1 /\ cell_ok H cells.2) as [C1 C2].
  { subst cells. destruct (registry b !! hash n) as [[c1 c2]|] eqn:Er; [by apply (iv_registry _ _ Hi _ _ _ Er) | split; intros Hc; by destruct Hc]. }
  destruct (cell_is cells.1 n) eqn:E1.
  { intros [= <- <-]. unfold cell_is in E1. apply andb_true_iff in E1 as [E1 E2%bool_decide_eq_true]. bool_prop. specialize (C1 E1). rewrite E2 in C1.
    exists H. split_and!; try done; [by eapply node_of_heap | by left]. }
  destruct (cell_is cells.2 n) eqn:E2.
  { intros [= <- <-]. unfold cell_is in E2. apply andb_true_iff in E2 as [E2 E3%bool_decide_eq_true]. bool_prop. specialize (C2 E2) as C3. rewrite E3 in C3.
    exists H. split_and!; try done; [|by eapply node_of_heap | by left]. destruct Hi as [I1 I2 I3 I4 I5]. split; try done. cbn. intros h c1 c2.
    destruct (decide (h = hash n)) as [->|Hne]; [rewrite lookup_insert_eq; by intros [= <- <-] | rewrite lookup_insert_ne by done; apply I2]. }
  intros [= <- <-]. set (at_ := zlen (out b ++ compile_node (last_addr b) (zlen (out b)) n) - 1).
  assert (H !! at_ = None) as Hnew.
  { destruct (H !! at_) as [n'|] eqn:E; [|done]. apply (iv_laid _ _ Hi), laid_range in E. pose proof (compile_node_bytes (last_addr b) (zlen (out b)) n He).
    subst at_. rewrite zlen_app in E. lia. }
  assert (H ⊆ <[at_ := n]> H) as Hsub by by apply insert_subseteq.
  assert (laid (out b ++ compile_node (last_addr b) (zlen (out b)) n) (<[at_ := n]> H) at_ n) as Hpl.
  { exists (out b), [], (last_addr b). rewrite app_nil_r. split_and!; try done.
    - subst at_. rewrite zlen_app. lia.
    - destruct (iv_header _ _ Hi) as [rest ->]. rewrite zlen_app. change (zlen header) with 16. pose proof (zlen_nonneg rest). lia.
    - by eapply good_mono.
    - apply (iv_last _ _ Hi).
    - eapply trans_range; [done | apply Hg]. }
  exists (<[at_ := n]> H). destruct (laid_range _ _ _ _ Hpl) as [Hr _]. split_and!; try done.
  - split; cbn.
    + intros a' n'. destruct (decide (a' = at_)) as [->|Hne]; [rewrite lookup_insert_eq; by intros [= <-]|]. rewrite lookup_insert_ne by done.
      intros Ha. eapply laid_mono; [done | by apply (iv_laid _ _ Hi)].
    + assert (cell_ok (<[at_ := n]> H) (mkCell at_ n)) as Hnc by (intros _; by rewrite lookup_insert_eq).
      assert (forall c, cell_ok H c -> cell_ok (<[at_ := n]> H) c) as Hcm by (intros c Hc Hn; eapply lookup_weaken; [by apply Hc | done]).
      intros h c1 c2. destruct (decide (h = hash n)) as [->|Hne]; [rewrite lookup_insert_eq; intros [= <- <-]; auto|].
      rewrite lookup_insert_ne by done. intros Hc. destruct (iv_registry _ _ Hi _ _ _ Hc). auto.
    + done.
    + destruct (iv_header _ _ Hi) as [rest ->]. eexists. by rewrite <- app_assoc.
    + intros E. by apply insert_non_empty in E.
  - unfold node_of. rewrite (proj2 (Z.eqb_neq at_ kEmptyAddress)) by (unfold kEmptyAddress; lia). by rewrite lookup_insert_eq.
  - unfold kNoneAddress. lia.
  - by right.
Qed.

(** ** Compiling what a new key leaves behind *)

Lemma compile_popped_app b l1 l2 a : compile_popped b (l1 ++ l2) a = let '(a1, b1) := compile_popped b l1 a in compile_popped b1 l2 a1.
Proof.
  revert b a. induction l1 as [|u l1 IH]; intros b a; [done|]. cbn. destruct (compile b _) as [a1 b1]. apply IH.
Qed.

Lemma find_trans_snoc x c l t : Forall (fun y => y < c) (b_inp <$> l) -> b_inp t = c -> find_trans x (l ++ [t]) = if c =? x then Some t else find_trans x l.
Proof.
  intros Hl Ht. unfold find_trans. induction l as [|t' l IH]; cbn.
  - rewrite Ht. by destruct (c =? x).
  - rewrite fmap_cons in Hl. apply Forall_cons_1 in Hl as [Hlt Hl]. rewrite (IH Hl). destruct (Z.eqb_spec (b_inp t') x) as [<-|]; [|done].
    by rewrite (proj2 (Z.eqb_neq c (b_inp t'))) by lia.
Qed.

Lemma increasing_snoc l c : StronglySorted Z.lt l -> Forall (fun y => y < c) l -> StronglySorted Z.lt (l ++ [c]).
Proof.
  induction 1 as [|x l Hl IH Hx]; intros Hc; cbn; [by repeat constructor|]. apply Forall_cons_1 in Hc as [Hxc Hc]. constructor; [by apply IH|].
  apply Forall_app. split; [done|]. by constructor.
Qed.

(** A node whose last input has been compiled. *)
Lemma last_compiled_spec H H1 u c o a us :
  u_last u = Some (c, o) -> is_u64 o -> is_u8 c -> good H (u_node u) -> Forall (fun x => x < c) (inputs (u_node u)) ->
  H ⊆ H1 -> heap_closed H -> is_Some (node_of H1 a) -> (forall k, den H1 a k = sden H us k) ->
  good H1 (u_node (last_compiled a u)) /\ u_last (last_compiled a u) = None /\
  (forall x, x ∈ inputs (u_node (last_compiled a u)) -> x <= c) /\
  forall key, bden H1 (u_node (last_compiled a u)) key = sden H (u :: us) key.
Proof.
  intros El Ho Hc [G1 G2 G3 G4 G5] Hi Hs Hcl Ha Hd. unfold last_compiled. rewrite El. cbn [u_node u_last].
  assert (inputs (mkBNode (bn_final (u_node u)) (bn_final_output (u_node u)) (bn_trans (u_node u) ++ [mkBTrans c o a])) = inputs (u_node u) ++ [c]) as Ein
    by (unfold inputs; cbn; by rewrite fmap_app).
  split_and!; [split; rewrite ?Ein; cbn [bn_trans bn_final bn_final_output] | done | | ].
  - by apply increasing_snoc.
  - apply Forall_app. split; [done|]. by constructor.
  - done.
  - apply Forall_app. split; [done|]. by constructor.
  - intros t Ht. cbn in Ht. apply elem_of_app in Ht as [Ht|Ht%list_elem_of_singleton].
    + destruct (G5 t Ht) as [n Hn]. exists n. by eapply node_of_mono.
    + by subst t.
  - intros x. rewrite Ein. rewrite elem_of_app. intros [Hx|Hx%list_elem_of_singleton]; [|lia]. rewrite Forall_forall in Hi. specialize (Hi x Hx). lia.
  - intros [|x key]; [done|]. change (tden H1 (bn_trans (u_node u) ++ [mkBTrans c o a]) x key = sden H (u :: us) (x :: key)). cbn [sden].
    rewrite El. unfold tden at 1. rewrite (find_trans_snoc x c _ (mkBTrans c o a)) by done.
    destruct (c =? x); [cbn; by rewrite Hd|]. apply (tden_mono H H1 (bn_trans (u_node u)) x key Hs Hcl G5).
Qed.

Lemma compile_popped_spec H us key : Spine H us key -> forall b a b', Inv b H -> compile_popped b (reverse us) kNoneAddress = (a, b') ->
  exists H', H ⊆ H' /\ Inv b' H' /\ is_Some (node_of H' a) /\ a <> kNoneAddress /\ frame_of b b' /\ (forall k, den H' a k = sden H us k) /\
    (forall a' n', H' !! a' = Some n' -> H !! a' = None -> exists p, forall k, is_Some (den H' a' k) -> is_Some (sden H us (p ++ k))).
Proof.
  induction 1 as [u El Hg|u c o us key El Ho Hc Hg Hi Hs IH]; intros b a b' Hinv E.
  - cbn in E. destruct (compile b (u_node u)) as [a1 b1] eqn:Ec. injection E as <- <-.
    destruct (compile_spec _ _ _ _ _ Hinv Hg Ec) as (H' & R1 & R2 & R3 & R4 & R5 & R6).
    assert (forall k, den H' a1 k = sden H [u] k) as Hd.
    { intros k. rewrite (den_node H' a1 _ k R3), (bden_mono H H' _ k R1 (Inv_closed _ _ Hinv) (gd_closed _ _ Hg)). destruct k; cbn; [done|]. by rewrite El. }
    exists H'. refine (conj R1 (conj R2 (conj (ex_intro _ _ R3) (conj R4 (conj R5 (conj Hd _)))))). intros a' n' Ha Hn. destruct R6 as [->|[-> _]]; [congruence|].
    destruct (decide (a' = a1)) as [->|Hne]; [|rewrite lookup_insert_ne in Ha by done; congruence]. exists []. intros k. by rewrite Hd.
  - rewrite reverse_cons, compile_popped_app in E. destruct (compile_popped b (reverse us) kNoneAddress) as [a1 b1] eqn:E1.
    destruct (IH b a1 b1 Hinv E1) as (H1 & R1 & R2 & R3 & R4 & R5 & R6 & R7). cbn in E. rewrite (proj2 (Z.eqb_neq a1 kNoneAddress) R4) in E. cbn [negb] in E.
    destruct (compile b1 (u_node (last_compiled a1 u))) as [a2 b2] eqn:E2. injection E as <- <-.
    destruct (last_compiled_spec H H1 u c o a1 us El Ho Hc Hg Hi R1 (Inv_closed _ _ Hinv) R3 R6) as (L1 & L2 & _ & L3).
    destruct (compile_spec _ _ _ _ _ R2 L1 E2) as (H2 & Q1 & Q2 & Q3 & Q4 & Q5 & Q6).
    assert (forall k, den H2 a2 k = sden H (u :: us) k) as Hd.
    { intros k. rewrite (den_node H2 a2 _ k Q3), (bden_mono H1 H2 _ k Q1 (Inv_closed _ _ R2) (gd_closed _ _ L1)). apply L3. }
    assert (frame_of b b2) as Hf by (destruct R5 as (? & ? & ?), Q5 as (? & ? & ?); unfold frame_of; split_and!; congruence).
    exists H2. refine (conj (transitivity R1 Q1) (conj Q2 (conj (ex_intro _ _ Q3) (conj Q4 (conj Hf (conj Hd _)))))).
    intros a' n' Ha Hn. destruct (H1 !! a') as [n1|] eqn:En.
    + destruct (R7 a' n1 En Hn) as [p Hp]. exists (c :: p). intros k Hk. cbn. rewrite El, Z.eqb_refl. apply fmap_is_Some, Hp.
        by rewrite <- (den_mono H1 H2 k Q1 (Inv_closed _ _ R2) a' n1 (node_of_heap _ _ _ _ R2 En)).
    + destruct Q6 as [->|[-> _]]; [congruence|]. destruct (decide (a' = a2)) as [->|Hne]; [|rewrite lookup_insert_ne in Ha by done; congruence].
        exists []. intros k. by rewrite Hd.
Qed.

Lemma Spine_split H us last i : Spine H us last -> (i <= length last)%nat ->
  exists us0 u us2, us = us0 ++ u :: us2 /\ length us0 = i /\ Spine H (u :: us2) (drop i last).
Proof.
  intros Hs. revert i. induction Hs as [u El Hg|u c o us key El Ho Hc Hg Hi Hs IH]; intros i Hle.
  - assert (i = 0%nat) as -> by (cbn in Hle; lia). exists [], u, []. split_and!; [done | done | by constructor].
  - destruct i as [|i]; [exists [], u, us; split_and!; [done | done | by econstructor]|].
    destruct (IH i ltac:(cbn in Hle; lia)) as (us0 & u' & us2 & -> & Hl & Hs'). exists (u :: us0), u', us2. split_and!; [done | cbn; lia | done].
Qed.

(** Replacing the top of the stack by nodes that mean the same. *)
Lemma swap_tail H H' us0 tail tail' last key' : H ⊆ H' -> heap_closed H -> Spine H (us0 ++ tail) last -> Spine H' tail' key' -> tail <> [] ->
  Spine H' (us0 ++ tail') (take (length us0) last ++ key') /\
  ((forall k, sden H' tail' k = sden H tail k) -> forall k, sden H' (us0 ++ tail') k = sden H (us0 ++ tail) k).
Proof.
  intros Hsub Hcl. revert last. induction us0 as [|u us0 IH]; intros last Hs Ht Hn; [done|]. cbn [app] in Hs.
  inversion Hs as [u' El Hg|u' c o us key El Ho Hc Hg Hi Hs']; subst; [by destruct us0, tail|].
  destruct (IH key Hs' Ht Hn) as [I1 I2]. split.
  - cbn. econstructor; [done | done | done | by eapply good_mono | done | done].
  - intros Hd [|x k]; [done|]. cbn. rewrite El, (tden_mono H H' _ x k Hsub Hcl (gd_closed _ _ Hg)), I2 by done. done.
Qed.

Lemma sden_path H us0 tail last k : Spine H (us0 ++ tail) last -> tail <> [] -> is_Some (sden H tail k) -> is_Some (sden H (us0 ++ tail) (take (length us0) last ++ k)).
Proof.
  revert last. induction us0 as [|u us0 IH]; intros last Hs Hn Hk; [done|]. cbn [app] in Hs.
  inversion Hs as [u' El Hg|u' c o us key El Ho Hc Hg Hi Hs']; subst; [by destruct us0, tail|]. cbn. rewrite El, Z.eqb_refl. apply fmap_is_Some. by apply IH.
Qed.

Lemma path_sum_app us0 tail : path_sum (us0 ++ tail) (length us0) = path_sum us0 (length us0).
Proof. induction us0 as [|u us0 IH]; cbn; [by destruct tail | by rewrite IH]. Qed.

Lemma alter_last_snoc {A} (f : A -> A) l x : alter f (pred (length (l ++ [x]))) (l ++ [x]) = l ++ [f x].
Proof.
  rewrite length_app. replace (pred (length l + length [x])) with (length l) by (cbn; lia). induction l as [|y l IH]; [done|]. cbn. by rewrite <- IH.
Qed.

Lemma compile_from_spec b H last i : Inv b H -> Spine H (stack b) last -> (i <= length last)%nat ->
  exists H', H ⊆ H' /\ Inv (compile_from b i) H' /\ last_key (compile_from b i) = last_key b /\ len (compile_from b i) = len b /\
    Spine H' (stack (compile_from b i)) (take i last) /\
    (forall k, sden H' (stack (compile_from b i)) k = sden H (stack b) k) /\
    path_sum (stack (compile_from b i)) i = path_sum (stack b) i /\ (drop i last = [] -> H' = H) /\
    (forall a' n', H' !! a' = Some n' -> H !! a' = None -> exists p, p <> [] /\ forall k, is_Some (den H' a' k) -> is_Some (sden H (stack b) (p ++ k))) /\
    exists us0 u, stack (compile_from b i) = us0 ++ [u] /\ length us0 = i /\ u_last u = None /\ good H' (u_node u) /\
      match drop i last with d :: _ => forall x, x ∈ inputs (u_node u) -> x <= d | [] => list.last (stack b) = Some u end.
Proof.
  intros Hinv Hs Hle. destruct (Spine_split H _ _ _ Hs Hle) as (us0 & u & us2 & E & Hl & Hsp). rewrite E in Hs.
  unfold compile_from. rewrite E. replace (S i) with (length (us0 ++ [u])) by (rewrite length_app; cbn; lia).
  replace (us0 ++ u :: us2) with ((us0 ++ [u]) ++ us2) by (by rewrite <- app_assoc). rewrite take_app_length, drop_app_length.
  pose proof (Spine_length _ _ _ Hsp) as Hlen. rewrite length_drop in Hlen.
  inversion Hsp as [u' El Hg|u' d o us key El Ho Hd Hg Hi Hsp']; subst.
  - cbn [reverse rev_append compile_popped]. rewrite alter_last_snoc. unfold last_compiled. rewrite El. cbn [stack with_stack last_key len]. rewrite app_nil_r.
    exists H. split_and!; try done.
    + destruct Hinv as [? ? ? ? ?]. by split.
    + replace (take _ last) with last; [done|]. symmetry. apply take_ge. cbn in Hlen. lia.
    + intros a' n' Ha Hn. congruence.
    + exists us0, u. split_and!; try done. by rewrite last_snoc.
  - destruct (compile_popped b (reverse us2) kNoneAddress) as [a b'] eqn:Ep.
    destruct (compile_popped_spec H us2 key Hsp' b a b' Hinv Ep) as (H' & R1 & R2 & R3 & R4 & R5 & R6 & R7).
    destruct (last_compiled_spec H H' u d o a us2 El Ho Hd Hg Hi R1 (Inv_closed _ _ Hinv) R3 R6) as (L1 & L2 & L3 & L4).
    cbn zeta. rewrite alter_last_snoc. cbn [stack with_stack last_key len].
    assert (Spine H' [last_compiled a u] []) as Hsp1 by by constructor.
    destruct (swap_tail H H' us0 (u :: us2) [last_compiled a u] last [] R1 (Inv_closed _ _ Hinv) Hs Hsp1 ltac:(done)) as [T1 T2].
    rewrite app_nil_r in T1. exists H'. destruct R5 as (F1 & F2 & F3). split_and!; try done.
    + destruct R2 as [? ? ? ? ?]. by split.
    + intros k. rewrite <- app_assoc. apply T2. intros [|x k']; [apply (L4 [])|]. rewrite <- L4. cbn. by rewrite L2.
    + rewrite <- app_assoc. by rewrite !path_sum_app.
    + intros a' n' Ha Hn. destruct (R7 a' n' Ha Hn) as [p Hp]. exists (take (length us0) last ++ d :: p). split; [by destruct (take _ last)|].
      intros k Hk. rewrite <- !app_assoc. apply sden_path; [done | done |]. cbn. rewrite El, Z.eqb_refl. by apply fmap_is_Some, Hp.
    + exists us0, (last_compiled a u). by split_and!.
Qed.

(** ** The suffix of a new key *)

Lemma good_plain H final : good H (mkBNode final 0 []).
Proof. split; try constructor; try done. by intros t ?%elem_of_nil. Qed.

Lemma suffix_tail H bs : bytes_ok bs ->
  Spine H (((fun c => mkUnfinished BNode0 (Some (c, 0))) <$> bs) ++ [leaf]) bs /\
  forall k, sden H (((fun c => mkUnfinished BNode0 (Some (c, 0))) <$> bs) ++ [leaf]) k = if decide (k = bs) then Some 0 else None.
Proof.
  induction 1 as [|c bs Hc Hbs [I1 I2]].
  { split; [constructor; [done | apply good_plain]|]. intros [|x k]; [done|]. cbn. by case_decide. }
  rewrite fmap_cons. cbn [app]. split.
  - eapply spine_more; [done | unfold is_u64; lia | done | apply good_plain | constructor | done].
  - intros [|x k]; [cbn; by case_decide|]. cbn [sden u_last]. rewrite I2. destruct (Z.eqb_spec c x) as [->|Hne].
    + repeat case_decide; simplify_eq; done.
    + cbn. case_decide; [congruence | done].
Qed.

Lemma find_trans_none c l : (forall x, x ∈ b_inp <$> l -> x < c) -> find_trans c l = None.
Proof.
  intros Hl. destruct (find_trans c l) as [t|] eqn:E; [|done]. apply find_trans_in in E as [Ht <-]. assert (b_inp t < b_inp t); [|lia].
  apply Hl, list_elem_of_fmap. eauto.
Qed.

Lemma add_suffix_spec H us0 u c bs v key0 : Spine H (us0 ++ [u]) key0 -> (forall x, x ∈ inputs (u_node u) -> x < c) -> is_u64 v -> bytes_ok (c :: bs) ->
  Spine H (add_suffix (us0 ++ [u]) (c :: bs) v) (key0 ++ c :: bs) /\ top_clean (add_suffix (us0 ++ [u]) (c :: bs) v) /\
  forall k, sden H (add_suffix (us0 ++ [u]) (c :: bs) v) k =
    if decide (k = key0 ++ c :: bs) then Some (u64 (path_sum us0 (length us0) + v)) else sden H (us0 ++ [u]) k.
Proof.
  intros Hs Hi Hv Hb. apply Forall_cons_1 in Hb as [Hc Hb]. destruct (suffix_tail H bs Hb) as [I1 I2].
  unfold add_suffix. rewrite alter_last_snoc. split_and!; [|intros x; rewrite !app_assoc, last_snoc; by intros [= <-] |];
    rewrite <- app_assoc; set (rest := _ <$> bs) in *; cbn [app]; revert key0 Hs; induction us0 as [|u0 us0 IH]; intros key0 Hs.
  - inversion Hs as [u' El Hg|? ? ? ? ? ? ? ? ? ? Hs']; subst; [|by inversion Hs']. cbn [app].
    eapply spine_more; [done | done | done | done | | done]. apply Forall_forall. exact Hi.
  - cbn [app] in Hs. inversion Hs as [u' El Hg|u' d o us key El Ho Hd Hg Hi' Hs']; subst; [by destruct us0|]. cbn [app].
    eapply spine_more; [done | done | done | done | done | by apply IH].
  - inversion Hs as [u' El Hg|? ? ? ? ? ? ? ? ? ? Hs']; subst; [|by inversion Hs']. cbn [app length path_sum]. intros [|x k].
    { case_decide; [done|]. done. }
    cbn [sden u_last u_node]. rewrite El. destruct (Z.eqb_spec c x) as [<-|Hne].
    + rewrite I2. unfold tden. rewrite find_trans_none by done. repeat case_decide; simplify_eq; try done. cbn. unfold plus. f_equal. f_equal. lia.
    + case_decide; [congruence | done].
  - cbn [app] in Hs. inversion Hs as [u' El Hg|u' d o us key El Ho Hd Hg Hi' Hs']; subst; [by destruct us0|]. cbn [app length path_sum]. rewrite El.
    intros [|x k]; [by case_decide|]. cbn [sden]. rewrite El. destruct (Z.eqb_spec d x) as [<-|Hne].
    + rewrite (IH key Hs'). repeat case_decide; simplify_eq; try done. cbn. unfold plus. f_equal. unfold u64, wrap. rewrite Zplus_mod_idemp_r. f_equal. lia.
    + case_decide; [congruence | done].
Qed.

(** ** The order of the keys *)

Lemma key_leb_refl a : key_leb a a = true.
Proof. induction a as [|x a IH]; [done|]. cbn. by rewrite Z.eqb_refl. Qed.

Lemma key_leb_total a b : key_leb a b = false -> key_leb b a = true.
Proof.
  revert b. induction a as [|x a IH]; intros [|y b]; cbn; try done. rewrite (Z.eqb_sym y x). destruct (Z.eqb_spec x y); [apply IH|]. intros ?%Z.ltb_ge.
  apply Z.ltb_lt. lia.
Qed.

Lemma key_leb_trans a b c : key_leb a b = true -> key_leb b c = true -> key_leb a c = true.
Proof.
  revert b c. induction a as [|x a IH]; intros [|y b] [|z c]; cbn; try done. destruct (Z.eqb_spec x y) as [->|Hxy].
  - destruct (Z.eqb_spec y z); [apply IH | done].
  - intros ?%Z.ltb_lt. destruct (Z.eqb_spec y z) as [->|Hyz].
    + intros _. rewrite (proj2 (Z.eqb_neq x z)) by lia. by apply Z.ltb_lt.
    + intros ?%Z.ltb_lt. rewrite (proj2 (Z.eqb_neq x z)) by lia. apply Z.ltb_lt. lia.
Qed.

Lemma key_leb_split i : forall a b, key_leb a b = false -> take i a = take i b ->
  match drop i a, drop i b with c :: _, d :: _ => c <> d | _, _ => True end ->
  (i <= length b)%nat -> exists c rest, drop i a = c :: rest /\ match drop i b with d :: _ => d < c | [] => True end.
Proof.
  induction i as [|i IH]; intros a b Hle Ht Hd Hl.
  - rewrite !drop_0 in *. destruct a as [|c a]; [done|]. exists c, a. split; [done|]. destruct b as [|d b]; [done|]. cbn in Hle.
    rewrite (proj2 (Z.eqb_neq c d)) in Hle by done. apply Z.ltb_ge in Hle. lia.
  - destruct b as [|d b]; [cbn in Hl; lia|]. destruct a as [|c a]; [done|]. cbn in Ht. injection Ht as -> Ht. cbn in Hle. rewrite Z.eqb_refl in Hle.
    apply (IH a b Hle Ht Hd). cbn in Hl. lia.
Qed.

End FstBuild.
