(* ===== verification/FstMaps.v ===== *)
(** * A transducer map holds what was inserted (src/index/fts/fts_fst.cpp)

    Keys inserted in order and read back through the bytes: every lookup and the walk over all entries. *)

From S2P Require Import Prelude Fst FstRead FstSafe FstBuild.

Module FstMaps.
Import Fst FstRead FstBuild.

(** ** The builder holds a map *)

Record Built (b : Builder) (m : gmap (list Z) Z) (H : heap) : Prop := {
  bt_inv : Inv b H;
  bt_spine : Spine H (stack b) (default [] (last_key b));
  bt_clean : top_clean (stack b);
  bt_den : forall k, sden H (stack b) k = m !! k;
  bt_values : map_Forall (fun k v => bytes_ok k /\ is_u64 v) m;
  bt_reach : forall a n, H !! a = Some n -> exists p, p <> [] /\ forall k, is_Some (den H a k) -> is_Some (m !! (p ++ k));
  bt_some : H = ∅ \/ exists k, k <> [] /\ is_Some (m !! k);
  bt_last : match last_key b with None => m = ∅ | Some l => is_Some (m !! l) /\ forall k, is_Some (m !! k) -> key_leb k l = true end;
  bt_len : len b = u64 (Z.of_nat (size m)) }.

Lemma built_initial : Built Builder0 ∅ ∅.
Proof.
  split; try done.
  - split; try done; by exists [].
  - constructor; [done | apply good_plain].
  - by intros u [= <-].
  - intros [|c k]; done.
  - by left.
Qed.

(** A key above the last one. *)
Definition follows (b : Builder) (key : list Z) : Prop := match last_key b with Some l => key_leb key l = false | None => True end.

Lemma follows_new b m H key : Built b m H -> follows b key -> m !! key = None.
Proof.
  intros Hb Hf. destruct (m !! key) as [v|] eqn:E; [|done]. pose proof (bt_last _ _ _ Hb) as Hl. unfold follows in Hf.
  destruct (last_key b) as [l|]; [|by rewrite Hl in E]. destruct Hl as [_ Hl]. rewrite (Hl key) in Hf; [done | by rewrite E].
Qed.

Lemma reach_mono (H : heap) (m m' : gmap (list Z) Z) : (forall k, is_Some (m !! k) -> is_Some (m' !! k)) ->
  (forall a n, H !! a = Some n -> exists p, p <> [] /\ forall k, is_Some (den H a k) -> is_Some (m !! (p ++ k))) ->
  (forall a n, H !! a = Some n -> exists p, p <> [] /\ forall k, is_Some (den H a k) -> is_Some (m' !! (p ++ k))).
Proof. intros Hm Hr a n Ha. destruct (Hr a n Ha) as (p & Hp & Hk). exists p. split; [done|]. auto. Qed.

Lemma insert_is_Some (m : gmap (list Z) Z) key v k : is_Some (m !! k) -> is_Some (<[key := v]> m !! k).
Proof. intros Hk. destruct (decide (k = key)) as [->|Hne]; [rewrite lookup_insert_eq; by eexists | by rewrite lookup_insert_ne]. Qed.

Lemma insert_last (b : Builder) (m : gmap (list Z) Z) H key v : Built b m H -> follows b key -> forall k, is_Some (<[key := v]> m !! k) -> key_leb k key = true.
Proof.
  intros Hb Hf k Hk. destruct (decide (k = key)) as [->|Hne]; [apply key_leb_refl|]. rewrite lookup_insert_ne in Hk by done.
  pose proof (bt_last _ _ _ Hb) as Hl. unfold follows in Hf. destruct (last_key b) as [l|]; [|rewrite Hl, lookup_empty in Hk; by destruct Hk].
  eapply key_leb_trans; [by apply Hl | by apply key_leb_total].
Qed.

Lemma size_insert (m : gmap (list Z) Z) key v : m !! key = None -> u64 (u64 (Z.of_nat (size m)) + 1) = u64 (Z.of_nat (size (<[key := v]> m))).
Proof. intros E. rewrite map_size_insert_None by done. unfold u64, wrap. rewrite Zplus_mod_idemp_l. f_equal. lia. Qed.

Lemma insert_empty_key b m H v b' : Built b m H -> follows b [] -> is_u64 v -> insert b [] v = Ok b' ->
  Built b' (<[[] := v]> m) H /\ last_key b' = Some [].
Proof.
  intros Hb Hf Hv. unfold follows in Hf. unfold insert. revert Hf. destruct (last_key b) as [l|] eqn:El; [done|]. intros _. cbn. intros [= <-]. split; [|done].
  destruct Hb as [B1 B2 B3 B4 B5 B6 B7 B8 B9]. rewrite El in B2, B8. cbn in B2. subst m.
  inversion B2 as [u E1 Hg E2|]. rewrite <- E2 in *. assert (bn_trans (u_node u) = []) as Et by (apply B3; done).
  split; cbn.
  - destruct B1. by split.
  - constructor; [done|]. cbn. rewrite Et. split; try constructor; cbn; try done; by intros t ?%elem_of_nil.
  - intros u' [= <-]. cbn. done.
  - intros [|c k]; cbn; [by rewrite lookup_insert_eq|]. rewrite E1, Et. cbn. by rewrite lookup_insert_ne, lookup_empty by done.
  - apply map_Forall_insert_2; [split; [constructor | done] | apply map_Forall_empty].
  - eapply reach_mono; [|done]. intros k. rewrite lookup_empty. by intros [].
  - destruct B7 as [->|(k & _ & Hk)]; [by left | rewrite lookup_empty in Hk; by destruct Hk].
  - rewrite lookup_insert_eq. split; [by eexists|]. intros k. destruct k; [done|]. rewrite lookup_insert_ne, lookup_empty by done. by intros [].
  - by rewrite insert_empty, map_size_singleton.
Qed.

Lemma insert_some_key b m H key v b' : Built b m H -> follows b key -> bytes_ok key -> key <> [] -> is_u64 v -> insert b key v = Ok b' ->
  exists H', Built b' (<[key := v]> m) H' /\ last_key b' = Some key.
Proof.
  intros Hb Hf Hk Hne Hv. unfold insert. pose proof (follows_new _ _ _ _ Hb Hf) as Hnew. pose proof (insert_last _ _ _ _ v Hb Hf) as Hlast.
  destruct (match last_key b with Some _ => _ | None => _ end) as [[]|e]; [|done]. cbn [mbind res_bind]. unfold mbind, res_bind.
  rewrite bool_decide_eq_false_2 by done. destruct (common_prefix_and_set_output (stack b) key v) as [[i v'] s] eqn:Ec.
  pose proof Hb as [B1 B2 B3 B4 B5 B6 B7 B8 B9]. set (last := default [] (last_key b)) in *.
  destruct (shared_prefix_spec H key (stack b) last v i v' s B2 B3 Hv Ec) as (C1 & C2 & C3 & C4 & C5 & C6 & C7 & C8).
  set (b1 := mkBuilder (out b) s (registry b) (Some key) (last_addr b) (u64 (len b + 1))).
  assert (Inv b1 H) as Hi1 by (destruct B1; by split).
  destruct (compile_from_spec b1 H last i Hi1 C1 C6) as (H' & D1 & D2 & D3 & D4 & D5 & D6 & D7 & D8 & D9 & us0 & u & D10 & D11 & D12 & D13 & D14).
  assert (exists c rest, drop i key = c :: rest /\ match drop i last with d :: _ => d < c | [] => True end) as (c & rest & Ek & Hc).
  { unfold follows in Hf. destruct (last_key b) as [l|]; [by apply key_leb_split|]. subst last. cbn in *. assert (i = 0%nat) as -> by lia.
    rewrite drop_0. destruct key as [|c key]; [done|]. by exists c, key. }
  assert (bytes_ok (c :: rest)) as Hcr by (rewrite <- Ek; by apply Forall_drop).
  assert (forall x, x ∈ inputs (u_node u) -> x < c) as Hlt.
  { destruct (drop i last) as [|d dl]; [|intros x Hx; specialize (D14 x Hx); lia]. assert (bn_trans (u_node u) = []) as Et by (apply C2; exact D14).
    unfold inputs. rewrite Et. by intros x ?%elem_of_nil. }
  rewrite D10 in D5, D6. destruct (add_suffix_spec H' us0 u c rest v' (take i last) D5 Hlt C4 Hcr) as (S1 & S2 & S3).
  rewrite <- C7, <- Ek, take_drop in S1, S3. rewrite D10, <- Ek in *. intros [= <-]. exists H'. split; [|cbn; by rewrite D3].
  assert (path_sum us0 (length us0) + v' = v) as Hsum.
  { rewrite <- D11 in D7 at 1. rewrite path_sum_app in D7. rewrite D7. exact C5. }
  assert (forall k, sden H' (add_suffix (us0 ++ [u]) (drop i key) v') k = <[key := v]> m !! k) as Hden.
  { intros k. rewrite S3, D6. cbn. rewrite C3, B4. case_decide; [subst k; rewrite lookup_insert_eq; f_equal; rewrite Hsum; by apply u64_small|].
    by rewrite lookup_insert_ne. }
  split; cbn [stack with_stack last_key len].
  - destruct D2. by split.
  - by rewrite D3.
  - done.
  - done.
  - by apply map_Forall_insert_2.
  - intros a n Ha. destruct (H !! a) as [n0|] eqn:E0.
    + destruct (B6 a n0 E0) as (p & Hp & Hpk). exists p. split; [done|]. intros k Hk'. apply insert_is_Some, Hpk.
      by rewrite <- (den_mono H H' k D1 (Inv_closed _ _ B1) a n0 (node_of_heap _ _ _ _ B1 E0)).
    + destruct (D9 a n Ha E0) as (p & Hp & Hpk). exists p. split; [done|]. intros k Hk'. apply insert_is_Some. rewrite <- B4, <- C3. by apply Hpk.
  - right. exists key. split; [done|]. rewrite lookup_insert_eq. by eexists.
  - rewrite D3. cbn. split; [rewrite lookup_insert_eq; by eexists | done].
  - rewrite D4. cbn. rewrite B9. by apply size_insert.
Qed.

(** Inserting a key above the last one succeeds and adds it. *)
Lemma insert_built b m H key v : Built b m H -> follows b key -> bytes_ok key -> is_u64 v ->
  exists b' H', insert b key v = Ok b' /\ Built b' (<[key := v]> m) H' /\ last_key b' = Some key.
Proof.
  intros Hb Hf Hk Hv. assert (exists b', insert b key v = Ok b') as [b' Ei].
  { unfold insert, follows in *. destruct (last_key b) as [l|]; [rewrite Hf|]; cbn;
      (case_bool_decide; [by eexists|]); destruct (common_prefix_and_set_output _ _ _) as [[? ?] ?]; by eexists. }
  destruct (decide (key = [])) as [->|Hne].
  - destruct (insert_empty_key b m H v b' Hb Hf Hv Ei) as [? ?]. by exists b', H.
  - destruct (insert_some_key b m H key v b' Hb Hf Hk Hne Hv Ei) as (H' & ? & ?). by exists b', H'.
Qed.

(** ** The finished bytes *)

(** A map of compiled nodes that the reader sees. *)
Definition shows (mp : FstMap) (H : heap) : Prop := forall a n, node_of H a = Some n -> reads mp a n /\ closed H n /\ good H n /\
  (forall t, t ∈ bn_trans n -> b_addr t = kEmptyAddress \/ b_addr t < a).

Lemma sorted_nodup l : StronglySorted Z.lt l -> NoDup l.
Proof.
  induction 1 as [|x l Hl IH Hx]; constructor; [|done]. intros Hin. rewrite Forall_forall in Hx. specialize (Hx x Hin). lia.
Qed.

Lemma inv_shows b H mp rest : Inv b H -> f_data mp = out b ++ rest -> f_version mp = 3 -> f_size mp = zlen (out b) -> zlen (out b) < 2 ^ 64 -> shows mp H.
Proof.
  intros Hi Hd Hv Hs Hlt a n Ha. unfold node_of in Ha. destruct (Z.eqb_spec a kEmptyAddress) as [->|Hne].
  { injection Ha as <-. split_and!; [by apply empty_reads | by intros t ?%elem_of_nil | apply good_plain | by intros t ?%elem_of_nil]. }
  destruct (iv_laid _ _ Hi a n Ha) as (pre & post & last & E & Ea & Hp & Hg & He & Hl & Ht).
  pose proof (compile_node_bytes last (zlen pre) n He) as Hb. rewrite E, !zlen_app in Hs, Hlt. pose proof (zlen_nonneg post). destruct Hg as [G1 G2 [G3 G3'] G4 G5].
  split_and!; [| done | by split | intros t Hin; destruct (Ht t Hin); [by left | right; lia]].
  rewrite Ea. apply (compiled_reads mp pre (post ++ rest)); try done; [| lia | by rewrite Hd, E, <- !app_assoc | lia].
  split; [by apply sorted_nodup | done | done |]. intros t Hin. split; [by rewrite Forall_forall in G4; apply G4 | by apply Ht].
Qed.

(** Looking a key up from a node. *)
Lemma get_loop_den mp H key : shows mp H -> bytes_ok key -> forall a n nd acc, node_of H a = Some n -> node mp a = Got nd ->
  get_loop mp nd key acc = match den H a key with Some v => Got (u64 (acc + v)) | None => Refused end.
Proof.
  intros Hsh. induction 1 as [|c key Hc Hk IH]; intros a n nd acc Ha Hn; rewrite (den_node H a n _ Ha);
    destruct (Hsh a n Ha) as ((nd' & R1 & R2 & R3 & R4 & R5 & R6) & Hcl & Hg & _); rewrite Hn in R1; injection R1 as <-.
  - cbn. rewrite R2. unfold end_value. destruct (bn_final n); [|done]. by rewrite R3.
  - cbn [get_loop bden]. unfold tden. destruct (find_trans c (bn_trans n)) as [t|] eqn:Et.
    + apply find_trans_in in Et as [Hin Ec]. apply list_elem_of_lookup in Hin as [i Hi]. destruct (R5 i t Hi) as [T1 T2]. rewrite Ec in T2.
      destruct (Hcl t ltac:(by apply list_elem_of_lookup_2 in Hi)) as [n' Hn']. destruct (Hsh _ _ Hn') as ((nd2 & N1 & _) & _).
      unfold mbind, access_bind. rewrite T2, T1. cbn [t_addr t_out]. rewrite N1, (IH _ _ _ _ Hn' N1). cbn. destruct (den H (b_addr t) key); [|done]. cbn. f_equal.
      unfold plus, u64, wrap. rewrite Zplus_mod_idemp_l, Zplus_mod_idemp_r. f_equal. lia.
    + unfold mbind, access_bind. rewrite R6; [done | done|]. intros Hx. apply list_elem_of_fmap in Hx as (t & -> & Hin).
      apply list_elem_of_In in Hin. apply (List.find_none _ _ Et) in Hin. by rewrite Z.eqb_refl in Hin.
Qed.

(** The root is compiled last, or is the empty node of a map without other nodes. *)
Lemma root_address (b : Builder) (m : gmap (list Z) Z) (H : heap) u ra (b2 : Builder) : Inv b H -> stack b = [u] -> u_last u = None -> good H (u_node u) ->
  (forall k, sden H [u] k = m !! k) ->
  (forall a n, H !! a = Some n -> exists p, p <> [] /\ forall k, is_Some (den H a k) -> is_Some (m !! (p ++ k))) ->
  (H = ∅ \/ exists k, k <> [] /\ is_Some (m !! k)) -> compile b (u_node u) = (ra, b2) ->
  exists H2, Inv b2 H2 /\ node_of H2 ra = Some (u_node u) /\ len b2 = len b /\ (forall k, den H2 ra k = m !! k) /\
    ((ra = kEmptyAddress /\ out b2 = header) \/ ra = zlen (out b2) - 1).
Proof.
  intros Hi Hst Hl Hg Hd Hr Hs Hc. destruct (compile_spec _ _ _ _ _ Hi Hg Hc) as (H2 & C1 & C2 & C3 & C4 & (C5 & C6 & C7) & C8).
  assert (forall k, den H2 ra k = m !! k) as Hden.
  { intros k. rewrite (den_node _ _ _ k C3), (bden_mono H H2 _ k C1 (Inv_closed _ _ Hi) (gd_closed _ _ Hg)), <- Hd. destruct k; cbn; [done|]. by rewrite Hl. }
  exists H2. split_and!; try done. destruct C8 as [->|[_ E]]; [|by right]. left.
  destruct (Z.eq_dec ra kEmptyAddress) as [->|Hne].
  - split; [done|]. assert (H = ∅) as ->; [|by apply (iv_empty _ _ C2)]. destruct Hs as [|(k & Hk & Hm)]; [done|].
    rewrite <- Hden in Hm. cbn in C3. destruct k as [|c k]; [done|]. cbn in Hm. by destruct Hm.
  - exfalso. unfold node_of in C3. rewrite (proj2 (Z.eqb_neq ra kEmptyAddress) Hne) in C3. destruct (Hr ra _ C3) as (p & Hp & Hpk).
    destruct Hs as [->|(k0 & _ & Hk0)]; [by rewrite lookup_empty in C3|].
    assert (exists k, is_Some (m !! k) /\ forall k', is_Some (m !! k') -> (length k' <= length k)%nat) as (k & Hk & Hmax).
    { assert (elements (dom m) <> []) as Hn. { intros E. apply elements_empty_inv in E. apply (is_Some_None (A:=Z)). apply elem_of_dom in Hk0. set_solver. }
      assert (forall l : list (list Z), l <> [] -> exists k, k ∈ l /\ forall k', k' ∈ l -> (length k' <= length k)%nat) as Hl0.
      { induction l as [|x l IH]; [done|]. intros _. destruct (decide (l = [])) as [->|Hnl]; [exists x; split; [by left|]; intros k' ->%list_elem_of_singleton; done|].
        destruct (IH Hnl) as (k & Hk & Hm). destruct (decide (length k <= length x)%nat).
        - exists x. split; [by left|]. intros k' [->|Hk']%elem_of_cons; [done|]. specialize (Hm k' Hk'). lia.
        - exists k. split; [by right|]. intros k' [->|Hk']%elem_of_cons; [lia | auto]. }
      destruct (Hl0 _ Hn) as (k & Hk & Hm). exists k. rewrite elem_of_elements, elem_of_dom in Hk. split; [done|]. intros k' Hk'. apply Hm.
      by apply elem_of_elements, elem_of_dom. }
    rewrite <- Hden in Hk. apply Hpk, Hmax in Hk. rewrite length_app in Hk. destruct p; [done|]. cbn in Hk. lia.
Qed.

(** The header, the footer and the checksum. *)
Lemma open_finished o ra ln : (exists rest, o = header ++ rest) -> is_u64 ra -> is_u64 ln -> zlen o + 20 < 2 ^ 64 ->
  ((ra = kEmptyAddress /\ o = header) \/ (ra <> kEmptyAddress /\ ra = zlen o - 1)) ->
  let body := o ++ pack_uint ln 8 ++ pack_uint ra 8 in
  let data := body ++ pack_uint (masked (crc32c 0 body)) 4 in
  open_ data = Ok (mkMap data (zlen o) 3 ra ln).
Proof.
  intros [rest Ho] Hra Hln Hlt Hroot body data.
  assert (zlen body = zlen o + 16) as Hbody by (subst body; rewrite !zlen_app; unfold pack_uint; rewrite !zlen_le_bytes; lia).
  assert (zlen data = zlen o + 20) as Hdata by (subst data; rewrite zlen_app, Hbody; unfold pack_uint; rewrite zlen_le_bytes; lia).
  assert (16 <= zlen o) as H16 by (rewrite Ho, zlen_app; change (zlen header) with 16; pose proof (zlen_nonneg rest); lia).
  assert (read_u64 data 0 = 3) as Hver.
  { unfold read_u64. change (Z.to_nat 0) with 0%nat. rewrite drop_0. subst data body. rewrite Ho. reflexivity. }
  assert (drop (Z.to_nat (zlen data - 4)) data = pack_uint (masked (crc32c 0 body)) 4) as Hcrc.
  { rewrite Hdata. replace (Z.to_nat (zlen o + 20 - 4)) with (length body) by (unfold zlen in *; lia). subst data. apply drop_app_length. }
  assert (take (Z.to_nat (zlen data - 4)) data = body) as Hbd.
  { rewrite Hdata. replace (Z.to_nat (zlen o + 20 - 4)) with (length body) by (unfold zlen in *; lia). subst data. apply take_app_length. }
  assert (forall v a c, data = a ++ pack_uint v 8 ++ c -> is_u64 v -> read_u64 data (zlen a) = v) as Hread.
  { intros v a c E Hv. unfold read_u64. rewrite E. unfold zlen. rewrite Nat2Z.id, drop_app_length. change 8%nat with (length (pack_uint v 8)).
    rewrite take_app_length. unfold pack_uint. apply le_value_le_bytes. exact Hv. }
  unfold open_. rewrite Hver. rewrite (proj2 (Z.ltb_ge (zlen data) 36)) by lia. change ((3 =? 0) || (kVersion <? 3)) with false. change (3 <=? 3) with true.
  change (3 <=? 2) with false. cbv iota zeta. cbn [andb]. rewrite Hcrc, Hbd.
  assert (le_value (pack_uint (masked (crc32c 0 body)) 4) = masked (crc32c 0 body)) as ->.
  { unfold pack_uint. apply le_value_le_bytes. apply u32_range. }
  rewrite Z.eqb_refl. cbn [negb]. cbv iota.
  replace (zlen data - 4 - 8) with (zlen (o ++ pack_uint ln 8)) by (rewrite zlen_app; unfold pack_uint; rewrite zlen_le_bytes; lia).
  rewrite (Hread ra _ (pack_uint (masked (crc32c 0 body)) 4)); [| subst data body; by rewrite <- !app_assoc | done].
  replace (zlen data - 4 - 16) with (zlen o) by lia.
  rewrite (Hread ln o (pack_uint ra 8 ++ pack_uint (masked (crc32c 0 body)) 4)); [| subst data body; by rewrite <- !app_assoc | done].
  destruct Hroot as [[-> E]|[Hne E]].
  - change (kEmptyAddress =? kEmptyAddress) with true. cbv iota. rewrite E in Hdata. change (zlen header) with 16 in Hdata. rewrite Hdata. done.
  - rewrite (proj2 (Z.eqb_neq ra kEmptyAddress) Hne). rewrite u64_small by (unfold is_u64 in *; lia). rewrite (proj2 (Z.eqb_eq (ra + 21) (zlen data))) by lia. done.
Qed.

(** The bytes [finish] gives are opened, and show the nodes that mean the map. *)
Lemma finish_shows b m H : Built b m H -> zlen (finish b) < 2 ^ 64 ->
  exists mp H2, open_ (finish b) = Ok mp /\ f_len mp = u64 (Z.of_nat (size m)) /\ shows mp H2 /\ is_Some (node_of H2 (f_root mp)) /\
    f_root mp < f_size mp /\ (forall k, den H2 (f_root mp) k = m !! k).
Proof.
  intros [B1 B2 B3 B4 B5 B6 B7 B8 B9] Hlt. unfold finish in *.
  destruct (compile_from_spec b H _ 0 B1 B2 ltac:(lia)) as (H1 & D1 & D2 & D3 & D4 & D5 & D6 & D7 & D8 & D9 & us0 & u & D10 & D11 & D12 & D13 & D14).
  destruct us0; [|done]. cbn [app] in D10. rewrite D10 in *. cbn [nth] in *.
  destruct (compile (compile_from b 0) (u_node u)) as [ra b2] eqn:Ec.
  destruct (root_address (compile_from b 0) m H1 u ra b2 D2 D10 D12 D13) as (H2 & R1 & R2 & R3 & R4 & R5); [| | | done |].
  - intros k. by rewrite D6, B4.
  - intros a n Ha. destruct (H !! a) as [n0|] eqn:E0.
    + destruct (B6 a n0 E0) as (p & Hp & Hpk). exists p. split; [done|]. intros k Hk. apply Hpk.
      by rewrite <- (den_mono H H1 k D1 (Inv_closed _ _ B1) a n0 (node_of_heap _ _ _ _ B1 E0)).
    + destruct (D9 a n Ha E0) as (p & Hp & Hpk). exists p. split; [done|]. intros k Hk. rewrite <- B4. by apply Hpk.
  - rewrite drop_0 in D8. destruct (last_key b) as [l|]; cbn in D8, B8; [|rewrite (D8 eq_refl); by destruct B7; [left | right]].
    destruct l as [|c l]; [rewrite (D8 eq_refl); by destruct B7; [left | right]|]. right. exists (c :: l). split; [done | apply B8].
  - set (body := out b2 ++ pack_uint (len b2) 8 ++ pack_uint ra 8) in *. set (data := body ++ pack_uint (masked (crc32c 0 body)) 4) in *.
    assert (zlen data = zlen (out b2) + 20) as Hdata.
    { subst data body. rewrite !zlen_app. unfold pack_uint. rewrite !zlen_le_bytes. lia. }
    assert (is_u64 (len b2)) as Hln by (rewrite R3, D4, B9; apply u64_range).
    assert (16 <= zlen (out b2)) as H16.
    { destruct (iv_header _ _ R1) as [rest ->]. rewrite zlen_app. change (zlen header) with 16. pose proof (zlen_nonneg rest). lia. }
    assert ((ra = kEmptyAddress /\ out b2 = header) \/ (ra <> kEmptyAddress /\ ra = zlen (out b2) - 1)) as Hroot.
    { destruct R5 as [?|?]; [by left|]. right. split; [|done]. unfold kEmptyAddress. lia. }
    assert (is_u64 ra) as Hra. { unfold is_u64. destruct Hroot as [[-> _]|[_ ->]]; [done | lia]. }
    pose proof (open_finished (out b2) ra (len b2) (iv_header _ _ R1) Hra Hln ltac:(lia) Hroot) as Hopen. cbn zeta in Hopen. fold body in Hopen. fold data in Hopen.
    exists (mkMap data (zlen (out b2)) 3 ra (len b2)), H2.
    refine (conj Hopen (conj _ (conj _ (conj (ex_intro _ _ R2) (conj _ R4))))); cbn [f_len f_root f_size].
    + by rewrite R3, D4.
    + eapply (inv_shows b2 H2 _ (pack_uint (len b2) 8 ++ pack_uint ra 8 ++ pack_uint (masked (crc32c 0 body)) 4)); cbn; try done; [|lia].
      subst data body. by rewrite <- !app_assoc.
    + destruct Hroot as [[-> _]|[_ ->]]; [unfold kEmptyAddress|]; lia.
Qed.

(** ** All entries in order *)

Definition here (n : BNode) (key : list Z) (out : Z) : list (list Z * Z) :=
  match end_value n with Some v => [(key, u64 (out + v))] | None => [] end.

(** The entries at and below a node, the paths at most [k] long. *)
Fixpoint entries_at (H : heap) (k : nat) (n : BNode) (key : list Z) (out : Z) : list (list Z * Z) :=
  here n key out ++
  match k with
  | O => []
  | S k => concat ((fun t => match node_of H (b_addr t) with
                             | Some n' => entries_at H k n' (key ++ [b_inp t]) (u64 (out + b_out t))
                             | None => []
                             end) <$> bn_trans n)
  end.

Definition entries_below (H : heap) (k : nat) (key : list Z) (out : Z) (l : list BTrans) : list (list Z * Z) :=
  concat ((fun t => match node_of H (b_addr t) with
                    | Some n' => entries_at H k n' (key ++ [b_inp t]) (u64 (out + b_out t))
                    | None => []
                    end) <$> l).

Lemma entries_at_S H k n key out : entries_at H (S k) n key out = here n key out ++ entries_below H k key out (bn_trans n).
Proof. done. Qed.

(** The walk over the transitions of a node from the [next]-th on. *)
Lemma walk_node mp H : shows mp H -> forall k a n nd, node_of H a = Some n -> node mp a = Got nd -> 0 <= a <= Z.of_nat k ->
  forall next rest key out seen, (next <= length (bn_trans n))%nat -> zlen rest + a <= f_size mp ->
  exists f0, forall fuel, for_each_loop mp (f0 + fuel) (mkFrame nd (Z.of_nat next) out :: rest) key seen =
    for_each_loop mp fuel rest (removelast key) (seen ++ entries_below H (pred k) key out (drop next (bn_trans n))).
Proof.
  intros Hsh k. induction k as [|k IH]; intros a n nd Ha Hn Hk next rest key out seen Hnext Hdepth;
    destruct (Hsh a n Ha) as ((nd' & R1 & R2 & R3 & R4 & R5 & R6) & Hcl & Hg & Hbelow); rewrite Hn in R1; injection R1 as <-.
  { assert (a = kEmptyAddress) as -> by (unfold kEmptyAddress; lia). injection Ha as <-. cbn in Hnext. assert (next = 0%nat) as -> by lia. cbn in R4.
    exists 1%nat. intros fuel. cbn [for_each_loop Nat.add fr_node fr_next]. rewrite R4. cbn. by rewrite app_nil_r. }
  cbn [pred]. remember (length (bn_trans n) - next)%nat as d eqn:Ed. revert next key out seen Hnext Ed. induction d as [|d IHd]; intros next key out seen Hnext Ed.
  { exists 1%nat. intros fuel. cbn [for_each_loop Nat.add fr_node fr_next]. rewrite R4, (proj2 (Z.leb_le (zlen _) _)) by (unfold zlen; lia).
    rewrite drop_ge by lia. unfold entries_below. cbn. by rewrite app_nil_r. }
  destruct (lookup_lt_is_Some_2 (bn_trans n) next ltac:(lia)) as [t Ht]. destruct (R5 next t Ht) as [T1 _]. pose proof (list_elem_of_lookup_2 _ _ _ Ht) as Hin.
  destruct (Hcl t Hin) as [n' Hn']. destruct (Hsh _ _ Hn') as ((c & C1 & C2 & C3 & _) & _ & _ & _).
  assert (a <> kEmptyAddress) as Hane. { intros ->. injection Ha as <-. by apply elem_of_nil in Hin. }
  assert (0 <= b_addr t < a) as Hta.
  { destruct (Hbelow t Hin) as [->|Hlt]; [unfold kEmptyAddress in *; lia|]. unfold node_of in Hn'. destruct (Z.eqb_spec (b_addr t) kEmptyAddress); [unfold kEmptyAddress in *; lia|].
    pose proof (FstSafe.node_address mp (b_addr t) c C1). unfold kEmptyAddress in *. lia. }
  set (key' := key ++ [b_inp t]). set (out' := u64 (out + b_out t)).
  set (seen' := if n_final c then seen ++ [(key', u64 (out' + n_final_output c))] else seen).
  destruct (IH (b_addr t) n' c Hn' C1 ltac:(lia) 0%nat (mkFrame nd (Z.of_nat (S next)) out :: rest) key' out' seen' ltac:(lia)) as [f1 Hf1];
    [rewrite zlen_cons; lia|].
  destruct (IHd (S next) key out (seen' ++ entries_below H (pred k) key' out' (drop 0 (bn_trans n'))) ltac:(lia) ltac:(lia)) as [f2 Hf2].
  exists (S (f1 + f2)). intros fuel. cbn [for_each_loop Nat.add fr_node fr_next fr_out]. rewrite R4, (proj2 (Z.leb_gt (zlen _) _)) by (unfold zlen; lia).
  unfold mbind at 1 2, access_bind. rewrite T1. cbn [t_addr t_out t_inp]. rewrite C1. rewrite (proj2 (Z.ltb_ge (f_size mp + 1) _)) by (rewrite zlen_cons; lia).
  cbn [t_inp t_out]. fold key'. fold out'. fold seen'. replace (Z.of_nat next + 1) with (Z.of_nat (S next)) by lia. change (mkFrame c 0 out') with (mkFrame c (Z.of_nat 0) out').
  rewrite <- Nat.add_assoc, (Hf1 (f2 + fuel)%nat).
  subst key'. rewrite removelast_last, Hf2. f_equal. rewrite (drop_S _ _ _ Ht). unfold entries_below at 3. cbn [fmap list_fmap concat]. rewrite Hn'.
  rewrite app_assoc. f_equal. rewrite drop_0. subst seen'. fold out'.
  assert (entries_at H k n' (key ++ [b_inp t]) out' = here n' (key ++ [b_inp t]) out' ++ entries_below H (pred k) (key ++ [b_inp t]) out' (bn_trans n')) as ->.
  { destruct k as [|k]; [|done]. assert (b_addr t = kEmptyAddress) as E0 by (unfold kEmptyAddress; lia). rewrite E0 in Hn'. injection Hn' as <-. done. }
  rewrite app_assoc. f_equal. unfold here, end_value. rewrite C2. destruct (bn_final n'); [by rewrite C3 | by rewrite app_nil_r].
Qed.

Lemma find_trans_sorted l t : StronglySorted Z.lt (b_inp <$> l) -> t ∈ l -> find_trans (b_inp t) l = Some t.
Proof.
  unfold find_trans. induction l as [|x l IH]; intros Hs Ht; [by apply elem_of_nil in Ht|]. rewrite fmap_cons in Hs. apply StronglySorted_inv in Hs as [Hs Hx].
  cbn. apply elem_of_cons in Ht as [->|Ht]; [by rewrite Z.eqb_refl|]. destruct (Z.eqb_spec (b_inp x) (b_inp t)) as [E|E]; [|by apply IH].
  rewrite Forall_forall in Hx. assert (b_inp x < b_inp t); [|lia]. apply Hx, list_elem_of_fmap. eauto.
Qed.

Lemma target_address mp H a n t : shows mp H -> node_of H a = Some n -> t ∈ bn_trans n -> exists n', node_of H (b_addr t) = Some n' /\ 0 <= b_addr t < a.
Proof.
  intros Hsh Ha Hin. destruct (Hsh a n Ha) as ((nd & R1 & _) & Hcl & _ & Hbelow). destruct (Hcl t Hin) as [n' Hn']. exists n'. split; [done|].
  assert (a <> kEmptyAddress) as Hane. { intros ->. injection Ha as <-. by apply elem_of_nil in Hin. }
  pose proof (FstSafe.node_address mp a nd R1) as Hr. destruct (Hsh _ _ Hn') as ((c & C1 & _) & _). pose proof (FstSafe.node_address mp _ c C1) as Hc.
  destruct (Hbelow t Hin) as [E|E]; unfold kEmptyAddress in *; lia.
Qed.

Lemma u64_plus o v w : u64 (u64 (o + v) + w) = u64 (o + plus v w).
Proof. unfold plus, u64, wrap. rewrite Zplus_mod_idemp_l, Zplus_mod_idemp_r. f_equal. lia. Qed.

Lemma entries_member mp H : shows mp H -> forall k a n, node_of H a = Some n -> 0 <= a <= Z.of_nat k -> forall key out q v,
  (q, v) ∈ entries_at H k n key out <-> exists s w, q = key ++ s /\ bden H n s = Some w /\ v = u64 (out + w).
Proof.
  intros Hsh k. induction k as [|k IH]; intros a n Ha Hk key out q v.
  { assert (a = kEmptyAddress) as -> by (unfold kEmptyAddress; lia). injection Ha as <-. cbn. rewrite list_elem_of_singleton. split.
    - intros [= -> ->]. exists [], 0. by rewrite app_nil_r.
    - intros ([|c s] & w & -> & Hw & ->); [|done]. injection Hw as <-. by rewrite app_nil_r. }
  rewrite entries_at_S. unfold entries_below. rewrite elem_of_app, elem_of_concat. split.
  - intros [Hh|(l & Hl & Hq)].
    + unfold here in Hh. destruct (end_value n) as [w|] eqn:Ew; [|by apply elem_of_nil in Hh]. apply list_elem_of_singleton in Hh as [= -> ->].
      exists [], w. by rewrite app_nil_r.
    + apply list_elem_of_fmap in Hl as (t & -> & Hin). destruct (target_address mp H a n t Hsh Ha Hin) as (n' & Hn' & Hlt). rewrite Hn' in Hq.
      apply (IH _ _ Hn' ltac:(lia)) in Hq as (s & w & -> & Hw & ->). exists (b_inp t :: s), (plus (b_out t) w).
      destruct (Hsh a n Ha) as (_ & _ & [G1 _ _ _ _] & _). split_and!; [by rewrite <- app_assoc | | apply u64_plus].
      cbn. unfold tden. rewrite (find_trans_sorted _ t G1 Hin). cbn. by rewrite (den_node H _ n' s Hn'), Hw.
  - intros ([|c s] & w & -> & Hw & ->).
    + left. cbn in Hw. unfold here. rewrite Hw, app_nil_r. by apply list_elem_of_singleton.
    + right. cbn in Hw. unfold tden in Hw. destruct (find_trans c (bn_trans n)) as [t|] eqn:Et; [|done]. apply find_trans_in in Et as [Hin <-].
      destruct (target_address mp H a n t Hsh Ha Hin) as (n' & Hn' & Hlt). cbn in Hw. rewrite (den_node H _ n' s Hn') in Hw.
      destruct (bden H n' s) as [w'|] eqn:Ew; [|done]. injection Hw as <-. eexists. split; [apply list_elem_of_fmap; exists t; split; [reflexivity | done]|].
      rewrite Hn'. apply (IH _ _ Hn' ltac:(lia)). exists s, w'. split_and!; [by rewrite <- app_assoc | done | symmetry; apply u64_plus].
Qed.

(** Entries by key. *)
Definition key_before (x y : list Z * Z) : Prop := key_leb y.1 x.1 = false.

Lemma key_leb_app p a b : key_leb (p ++ a) (p ++ b) = key_leb a b.
Proof. induction p as [|x p IH]; [done|]. cbn. by rewrite Z.eqb_refl. Qed.

Lemma sorted_app {A} (R : A -> A -> Prop) l1 l2 : StronglySorted R l1 -> StronglySorted R l2 -> (forall x y, x ∈ l1 -> y ∈ l2 -> R x y) -> StronglySorted R (l1 ++ l2).
Proof.
  induction 1 as [|x l1 Hl IH Hx]; intros H2 H12; [done|]. cbn. constructor.
  - apply IH; [done|]. intros. apply H12; [by right | done].
  - apply Forall_app. split; [done|]. apply Forall_forall. intros y Hy. apply H12; [by left | done].
Qed.

Lemma sorted_concat {A B} (R : B -> B -> Prop) (f : A -> list B) (S' : A -> A -> Prop) l : StronglySorted S' l -> (forall a, a ∈ l -> StronglySorted R (f a)) ->
  (forall a b x y, a ∈ l -> b ∈ l -> S' a b -> x ∈ f a -> y ∈ f b -> R x y) -> StronglySorted R (concat (f <$> l)).
Proof.
  induction 1 as [|a l Hl IH Ha]; intros Hf HR; [constructor|]. rewrite fmap_cons. cbn. apply sorted_app.
  - apply Hf. by left.
  - apply IH; [intros; apply Hf; by right | intros a' b' ? ? ? ?; apply HR; by right].
  - intros x y Hx Hy. apply elem_of_concat in Hy as (l' & Hl' & Hy). apply list_elem_of_fmap in Hl' as (b & -> & Hb).
    rewrite Forall_forall in Ha. apply (HR a b); [by left | by right | by apply Ha | done | done].
Qed.

Lemma sorted_by_input (l : list BTrans) : StronglySorted Z.lt (b_inp <$> l) -> StronglySorted (fun a b => b_inp a < b_inp b) l.
Proof.
  induction l as [|t l IH]; intros Hs; [constructor|]. rewrite fmap_cons in Hs. apply StronglySorted_inv in Hs as [Hs Ht]. constructor; [by apply IH|].
  rewrite Forall_fmap in Ht. exact Ht.
Qed.

Lemma walk_sorted mp H : shows mp H -> forall k a n, node_of H a = Some n -> 0 <= a <= Z.of_nat k -> forall key out, StronglySorted key_before (entries_at H k n key out).
Proof.
  intros Hsh k. induction k as [|k IH]; intros a n Ha Hk key out.
  { cbn. rewrite app_nil_r. unfold here. destruct (end_value n); repeat constructor. }
  rewrite entries_at_S. apply sorted_app.
  - unfold here. destruct (end_value n); repeat constructor.
  - destruct (Hsh a n Ha) as (_ & _ & [G1 _ _ _ _] & _). unfold entries_below. apply (sorted_concat _ _ (fun a b => b_inp a < b_inp b)); [by apply sorted_by_input | |].
    + intros t Hin. destruct (target_address mp H a n t Hsh Ha Hin) as (n' & Hn' & Hlt). rewrite Hn'. apply (IH _ _ Hn'). lia.
    + intros t t' [q v] [q' v'] Hin Hin' Hlt Hx Hy. destruct (target_address mp H a n t Hsh Ha Hin) as (n1 & Hn1 & Hl1), (target_address mp H a n t' Hsh Ha Hin') as (n2 & Hn2 & Hl2).
      rewrite Hn1 in Hx. rewrite Hn2 in Hy. apply (entries_member mp H Hsh k _ _ Hn1 ltac:(lia)) in Hx as (s1 & _ & -> & _). apply (entries_member mp H Hsh k _ _ Hn2 ltac:(lia)) in Hy as (s2 & _ & -> & _).
      unfold key_before. cbn. rewrite <- !app_assoc, key_leb_app. cbn. rewrite (proj2 (Z.eqb_neq _ _)) by lia. apply Z.ltb_ge. lia.
  - intros [q v] [q' v'] Hx Hy. unfold here in Hx. destruct (end_value n); [|by apply elem_of_nil in Hx]. apply list_elem_of_singleton in Hx as [= -> ->].
    unfold entries_below in Hy. apply elem_of_concat in Hy as (l' & Hl' & Hy). apply list_elem_of_fmap in Hl' as (t & -> & Hin).
    destruct (target_address mp H a n t Hsh Ha Hin) as (n1 & Hn1 & Hl1). rewrite Hn1 in Hy. apply (entries_member mp H Hsh k _ _ Hn1 ltac:(lia)) in Hy as (s1 & _ & -> & _).
    unfold key_before. cbn. rewrite <- (app_nil_r key) at 2. rewrite <- app_assoc, key_leb_app. done.
Qed.

Lemma sorted_unique (l1 l2 : list (list Z * Z)) : StronglySorted key_before l1 -> StronglySorted key_before l2 -> (forall x, x ∈ l1 <-> x ∈ l2) -> l1 = l2.
Proof.
  intros H1. revert l2. induction H1 as [|x l1 Hl1 IH Hx]; intros l2 H2 He.
  { destruct l2 as [|y l2]; [done|]. specialize (He y). rewrite elem_of_nil in He. exfalso. apply He. by left. }
  destruct H2 as [|y l2 Hl2 Hy]; [specialize (He x); rewrite elem_of_nil in He; exfalso; apply He; by left|]. rewrite Forall_forall in Hx, Hy.
  assert (forall a b, key_before a b -> key_before b a -> False) as Has. { unfold key_before. intros a b Hab Hba. apply key_leb_total in Hab. congruence. }
  assert (x = y) as ->.
  { pose proof (proj1 (He x) ltac:(by left)) as [E|Hin]%elem_of_cons; [done|]. pose proof (proj2 (He y) ltac:(by left)) as [E|Hin']%elem_of_cons; [done|].
    exfalso. eapply Has; [by apply Hx | by apply Hy]. }
  f_equal. apply IH; [done|]. intros z. split; intros Hz.
  - pose proof (proj1 (He z) ltac:(by right)) as [->|]%elem_of_cons; [|done]. exfalso. eapply Has; by apply Hx.
  - pose proof (proj2 (He z) ltac:(by right)) as [->|]%elem_of_cons; [|done]. exfalso. eapply Has; by apply Hy.
Qed.

(** ** Entries to bytes and back *)

Lemma insert_all_built entries : forall b m H, Built b m H -> StronglySorted key_before entries -> Forall (fun e => bytes_ok e.1 /\ is_u64 e.2) entries ->
  Forall (fun e => follows b e.1) entries -> exists b' m' H', insert_all b entries = Ok b' /\ Built b' m' H' /\
    size m' = (size m + length entries)%nat /\ forall k v, m' !! k = Some v <-> m !! k = Some v \/ (k, v) ∈ entries.
Proof.
  induction entries as [|[key v] entries IH]; intros b m H Hb Hs Hv Hf.
  { exists b, m, H. split_and!; [done | done | cbn; lia |]. intros k w. rewrite elem_of_nil. naive_solver. }
  apply StronglySorted_inv in Hs as [Hs Hk]. apply Forall_cons_1 in Hv as [[Hkey Hval] Hv], Hf as [Hf Hfs]. cbn [fst snd] in *.
  destruct (insert_built b m H key v Hb Hf Hkey Hval) as (b1 & H1 & E1 & Hb1 & El). cbn [insert_all fst snd]. rewrite E1. cbn [mbind res_bind]. unfold mbind, res_bind.
  destruct (IH b1 _ H1 Hb1 Hs Hv) as (b2 & m2 & H2 & E2 & Hb2 & Hsz & Hm).
  { unfold follows. rewrite El. exact Hk. }
  exists b2, m2, H2. pose proof (follows_new _ _ _ _ Hb Hf) as Hnew. split_and!; [done | done | |].
  - rewrite Hsz, map_size_insert_None by done. cbn. lia.
  - intros k w. rewrite Hm, elem_of_cons. destruct (decide (k = key)) as [->|Hne].
    + rewrite lookup_insert_eq, Hnew. naive_solver.
    + rewrite lookup_insert_ne by done. naive_solver.
Qed.

(** C10: (roundtrip): a transducer map holds exactly what was put into it. Keys with 64-bit values, inserted in
    strictly increasing byte order, are all accepted; the bytes [finish] gives (of a size that fits the machine)
    are opened, whatever prefixes and suffixes were shared, through the registry or not, and however the nodes
    were written; [get] gives each key its value and finds no other key, and [for_each] gives all entries in
    order. *)
Theorem fst_map_roundtrip entries : StronglySorted key_before entries -> Forall (fun e => bytes_ok e.1 /\ is_u64 e.2) entries ->
  exists b, insert_all Builder0 entries = Ok b /\ (zlen (finish b) < 2 ^ 64 ->
    exists m, open_ (finish b) = Ok m /\ f_len m = u64 (zlen entries) /\ (forall e, e ∈ entries -> get m e.1 = Got e.2) /\
      (forall key, bytes_ok key -> key ∉ entries.*1 -> get m key = Refused) /\ exists fuel, for_each m fuel = Some (entries, Got tt)).
Proof.
  intros Hs Hv. destruct (insert_all_built entries Builder0 ∅ ∅ built_initial Hs Hv) as (b & m & H & E & Hb & Hsz & Hm); [by apply Forall_true|].
  exists b. split; [done|]. intros Hlt. destruct (finish_shows b m H Hb Hlt) as (mp & H2 & Ho & Hln & Hsh & [root Hroot] & Hr & Hd).
  assert (forall k v, m !! k = Some v <-> (k, v) ∈ entries) as Hm'. { intros k v. rewrite Hm, lookup_empty. naive_solver. }
  pose proof (bt_values _ _ _ Hb) as Hval. destruct (Hsh _ _ Hroot) as ((nd & N1 & N2 & N3 & _) & _ & [_ _ [Gf _] _ _] & _).
  assert (forall key, bytes_ok key -> get mp key = match m !! key with Some v => Got v | None => Refused end) as Hget.
  { intros key Hk. unfold get. rewrite N1. unfold mbind, access_bind. rewrite (get_loop_den mp H2 key Hsh Hk _ _ _ 0 Hroot N1), Hd.
    destruct (m !! key) as [v|] eqn:Em; [|done]. f_equal. apply u64_small. by apply (Hval key v). }
  exists mp. split_and!; [done | | | |].
  - rewrite Hln, Hsz. unfold zlen. by rewrite map_size_empty.
  - intros [k v] He. cbn [fst snd]. rewrite Forall_forall in Hv. rewrite Hget by apply (Hv _ He). by rewrite (proj2 (Hm' k v) He).
  - intros key Hk Hn. rewrite Hget by done. destruct (m !! key) as [v|] eqn:Em; [|done]. exfalso. apply Hn, list_elem_of_fmap. exists (key, v). split; [done | by apply Hm'].
  - assert (0 <= f_root mp) as H0 by (pose proof (FstSafe.node_address _ _ _ N1); unfold kEmptyAddress in *; lia).
    set (k := S (Z.to_nat (f_root mp))).
    set (seen := if n_final nd then [([], n_final_output nd)] else @nil (list Z * Z)).
    destruct (walk_node mp H2 Hsh k (f_root mp) root nd Hroot N1 ltac:(lia) 0%nat [] [] 0 seen ltac:(lia)) as [f0 Hf0]; [change (zlen (@nil Frame)) with 0; lia|].
    exists (f0 + 0)%nat. unfold for_each. rewrite N1. fold seen. change (mkFrame nd 0 0) with (mkFrame nd (Z.of_nat 0) 0). rewrite Hf0. cbn [for_each_loop]. f_equal. f_equal.
    rewrite drop_0. change (pred k) with (Z.to_nat (f_root mp)).
    assert (seen ++ entries_below H2 (Z.to_nat (f_root mp)) [] 0 (bn_trans root) = entries_at H2 k root [] 0) as ->.
    { subst k. rewrite entries_at_S. f_equal. subst seen. unfold here, end_value. rewrite N2. destruct (bn_final root); [|done]. by rewrite N3, u64_small. }
    apply sorted_unique; [apply (walk_sorted mp H2 Hsh k _ _ Hroot); lia | done |].
    intros [q v]. rewrite (entries_member mp H2 Hsh k _ _ Hroot) by lia. rewrite <- Hm'. split.
    + intros (s & w & -> & Hw & ->). cbn [app]. rewrite <- (den_node H2 _ _ s Hroot), Hd in Hw. rewrite Hw. f_equal. symmetry. apply u64_small. by apply (Hval s w).
    + intros Em. exists q, v. rewrite <- (den_node H2 _ _ q Hroot), Hd. split_and!; [done | done |]. symmetry. apply u64_small. by apply (Hval q v).
Qed.

(** Eight keys with shared prefixes and suffixes, the empty key among them. *)
Definition sample_entries : list (list Z * Z) :=
  [([], 7); ([97], 3); ([97; 98; 99], 100); ([97; 98; 100], 5); ([98; 98; 99], 1); ([98; 98; 100], 9); ([200], 0); ([200; 97; 98; 99; 100], 2 ^ 64 - 1)].

Lemma fst_map_witness : exists data m, open_ data = Ok m /\ zlen data = 96 /\ get m [97; 98; 100] = Got 5 /\ get m [97; 98] = Refused /\
  exists fuel, for_each m fuel = Some (sample_entries, Got tt).
Proof.
  destruct (fst_map_roundtrip sample_entries) as (b & Eb & Hb).
  - repeat (constructor; [|repeat constructor]). constructor.
  - repeat (constructor; [split; [repeat constructor; unfold is_u8; cbn; lia | unfold is_u64; cbn; lia]|]). constructor.
  - assert (zlen (finish b) = 96) as Hl by (vm_compute in Eb; injection Eb as <-; vm_compute; reflexivity).
    destruct Hb as (m & Ho & _ & Hg & Hn & Hf); [rewrite Hl; reflexivity|]. exists (finish b), m.
    refine (conj Ho (conj Hl (conj (Hg ([97; 98; 100], 5) _) (conj (Hn [97; 98] _ _) Hf)))).
    + apply list_elem_of_lookup. by exists 3%nat.
    + repeat constructor; unfold is_u8; lia.
    + apply (bool_decide_unpack _). vm_compute. exact I.
Defined.

End FstMaps.
