(* ===== verification/FstChecksum.v ===== *)
(** * The checksum of a transducer map (src/index/fts/fts_fst.cpp)

    [crc32c] takes eight bytes per round through eight tables; it is shown to be the CRC taken a bit at a time.
    The step of a bit is linear in exclusive or ([crc_bit_lxor]), the table of a byte is eight such steps, and
    table [s] is [s] bytes of zeros more. *)

From S2P Require Import Prelude Fst FstRead.

Module FstChecksum.
Import Fst.

(** Eight bits of the register shifted out. *)
Definition shift8 (c : Z) : Z := Nat.iter 8 crc_bit c.

(** The reference: byte by byte, each bit by bit. *)
Definition crc32c_bits (crc : Z) (data : list Z) : Z := not32 (foldl (fun c b => shift8 (Z.lxor c b)) (not32 crc) data).

Lemma crc_bit_eq c : crc_bit c = Z.lxor (Z.shiftr c 1) (if Z.testbit c 0 then 0x82F63B78 else 0).
Proof.
  unfold crc_bit. change 1 with (2 ^ 0) at 1. rewrite land_pow2_testbit, negb_involutive by lia. destruct (Z.testbit c 0); [done|]. by rewrite Z.lxor_0_r.
Qed.

Lemma crc_bit_lxor a b : crc_bit (Z.lxor a b) = Z.lxor (crc_bit a) (crc_bit b).
Proof.
  rewrite !crc_bit_eq, Z.shiftr_lxor, Z.lxor_spec. destruct (Z.testbit a 0), (Z.testbit b 0); cbn [xorb]; rewrite ?Z.lxor_0_r.
  - rewrite <- !Z.lxor_assoc. rewrite (Z.lxor_assoc (Z.shiftr a 1)), (Z.lxor_comm 0x82F63B78 (Z.shiftr b 1)), <- Z.lxor_assoc.
    by rewrite (Z.lxor_assoc (Z.lxor _ _)), Z.lxor_nilpotent, Z.lxor_0_r.
  - by rewrite Z.lxor_assoc, (Z.lxor_comm (Z.shiftr b 1)), <- Z.lxor_assoc.
  - by rewrite Z.lxor_assoc.
  - done.
Qed.

Lemma iter_lxor k a b : Nat.iter k crc_bit (Z.lxor a b) = Z.lxor (Nat.iter k crc_bit a) (Nat.iter k crc_bit b).
Proof. induction k as [|k IH]; [done|]. cbn [Nat.iter nat_rect]. unfold Nat.iter in IH |- *. cbn. rewrite IH. apply crc_bit_lxor. Qed.

Lemma shift8_lxor a b : shift8 (Z.lxor a b) = Z.lxor (shift8 a) (shift8 b).
Proof. apply iter_lxor. Qed.

Lemma crc_bit_shiftl x j k : 0 <= k -> j = k + 1 -> crc_bit (Z.shiftl x j) = Z.shiftl x k.
Proof.
  intros Hk ->. rewrite crc_bit_eq, Z.shiftl_spec_low, Z.lxor_0_r by lia. rewrite Z.shiftr_shiftl_l by lia. f_equal. lia.
Qed.

Lemma shift8_shiftl x : shift8 (Z.shiftl x 8) = x.
Proof.
  unfold shift8. cbn [Nat.iter nat_rect]. unfold Nat.iter, nat_rect.
  rewrite (crc_bit_shiftl x 8 7), (crc_bit_shiftl x 7 6), (crc_bit_shiftl x 6 5), (crc_bit_shiftl x 5 4), (crc_bit_shiftl x 4 3), (crc_bit_shiftl x 3 2),
    (crc_bit_shiftl x 2 1), (crc_bit_shiftl x 1 0) by lia. apply Z.shiftl_0_r.
Qed.

(** A number from its low byte and the rest. *)
Lemma byte_split_lxor v : v = Z.lxor (Z.land v 0xFF) (Z.shiftl (Z.shiftr v 8) 8).
Proof.
  apply Z.bits_inj'. intros n Hn. rewrite Z.lxor_spec, Z.land_spec. change 0xFF with (Z.ones 8). destruct (Z.lt_ge_cases n 8).
  - rewrite Z.ones_spec_low, Z.shiftl_spec_low, andb_true_r, xorb_false_r by lia. done.
  - rewrite Z.ones_spec_high, Z.shiftl_spec, Z.shiftr_spec, andb_false_r, xorb_false_l by lia. f_equal. lia.
Qed.

Lemma shift8_split v : shift8 v = Z.lxor (shift8 (Z.land v 0xFF)) (Z.shiftr v 8).
Proof. rewrite (byte_split_lxor v) at 1. by rewrite shift8_lxor, shift8_shiftl. Qed.

Lemma lxor_u32 a b : is_u32 a -> is_u32 b -> is_u32 (Z.lxor a b).
Proof.
  intros [Ha Ha'] [Hb Hb']. split; [by apply Z.lxor_nonneg|]. destruct (Z.eq_dec (Z.lxor a b) 0) as [->|Hne]; [done|].
  pose proof (proj2 (Z.lxor_nonneg a b) ltac:(tauto)) as Hx. apply Z.log2_lt_pow2; [lia|]. pose proof (Z.log2_lxor a b Ha Hb).
  assert (forall x, 0 <= x < 2 ^ 32 -> Z.log2 x < 32) as Hl. { intros x Hx'. destruct (Z.eq_dec x 0) as [->|]; [done|]. apply Z.log2_lt_pow2; lia. }
  pose proof (Hl a ltac:(lia)). pose proof (Hl b ltac:(lia)). lia.
Qed.

Lemma shift8_u32 c : is_u32 c -> is_u32 (shift8 c).
Proof.
  assert (forall x, is_u32 x -> is_u32 (crc_bit x)) as Hb.
  { intros x [Hx Hx']. rewrite crc_bit_eq. apply lxor_u32.
    - rewrite Z.shiftr_div_pow2 by lia. split; [apply Z.div_pos; lia|]. apply Z.div_lt_upper_bound; lia.
    - destruct (Z.testbit x 0); done. }
  intros Hc. unfold shift8, Nat.iter, nat_rect. auto 10.
Qed.

(** ** The tables *)

Lemma land_byte v : 0 <= Z.land v 0xFF < 256.
Proof. change 0xFF with (2 ^ 8 - 1). rewrite land_low by lia. apply Z.mod_pos_bound. done. Qed.

Lemma table0 i : 0 <= i < 256 -> tab crc_table0 i = shift8 i.
Proof.
  intros Hi. unfold tab, crc_table0. rewrite nth_lookup, list_lookup_fmap, lookup_seqZ_lt by lia. cbn [fmap option_fmap option_map default].
  by replace (0 + Z.of_nat (Z.to_nat i)) with i by lia.
Qed.

#[local] Opaque shift8 crc_table0.

Lemma table_next v : Z.lxor (Z.shiftr v 8) (tab crc_table0 (Z.land v 0xFF)) = shift8 v.
Proof. rewrite table0 by apply land_byte. by rewrite (shift8_split v), Z.lxor_comm. Qed.

Lemma length_table s : length (Nat.iter s crc_next crc_table0) = 256%nat.
Proof. induction s as [|s IH]; [reflexivity|]. unfold Nat.iter in *. cbn. unfold crc_next at 1. by rewrite length_fmap. Qed.

Lemma table_spec s i : 0 <= i < 256 -> tab (Nat.iter s crc_next crc_table0) i = Nat.iter (S s) shift8 i.
Proof.
  intros Hi. induction s as [|s IH]; [by apply table0|]. pose proof (length_table s) as Hl.
  change (Nat.iter (S s) crc_next crc_table0) with (crc_next (Nat.iter s crc_next crc_table0)). unfold crc_next at 1, tab at 1.
  destruct (lookup_lt_is_Some_2 (Nat.iter s crc_next crc_table0) (Z.to_nat i)) as [v Hv]; [lia|].
  rewrite nth_lookup, list_lookup_fmap, Hv. cbn [fmap option_fmap option_map default]. rewrite table_next.
  unfold tab in IH. rewrite nth_lookup, Hv in IH. change (default 0 (Some v)) with v in IH. rewrite IH. reflexivity.
Qed.

Lemma crc_tab_spec s i : (s < 8)%nat -> 0 <= i < 256 -> crc_tab crc_tables s i = Nat.iter (S s) shift8 i.
Proof.
  intros Hs Hi. unfold crc_tab, crc_tables. rewrite (nth_lookup (_ <$> _)), list_lookup_fmap, lookup_seq_lt by lia. cbn [fmap option_fmap option_map default].
  by apply table_spec.
Qed.

Lemma iter8_lxor k a b : Nat.iter k shift8 (Z.lxor a b) = Z.lxor (Nat.iter k shift8 a) (Nat.iter k shift8 b).
Proof. induction k as [|k IH]; [done|]. unfold Nat.iter in *. cbn. rewrite IH. apply shift8_lxor. Qed.

Lemma iter8_shiftl k x : Nat.iter (S k) shift8 (Z.shiftl x 8) = Nat.iter k shift8 x.
Proof. rewrite <- (shift8_shiftl x) at 2. rewrite <- Nat.iter_succ_r. done. Qed.

(** A byte of the register. *)
Lemma iter8_split k v : Nat.iter (S k) shift8 v = Z.lxor (Nat.iter (S k) shift8 (Z.land v 0xFF)) (Nat.iter k shift8 (Z.shiftr v 8)).
Proof. rewrite (byte_split_lxor v) at 1. by rewrite iter8_lxor, iter8_shiftl. Qed.

(** ** Eight bytes at a time *)

Lemma crc_byte_spec c b : is_u8 b -> crc_byte crc_tables c b = shift8 (Z.lxor c b).
Proof.
  intros Hb. unfold crc_byte. rewrite crc_tab_spec; [|lia | apply land_byte]. rewrite (shift8_split (Z.lxor c b)), Z.shiftr_lxor.
  replace (Z.shiftr b 8) with 0; [by rewrite Z.lxor_0_r|]. symmetry. rewrite Z.shiftr_div_pow2 by lia. apply Z.div_small. exact Hb.
Qed.

Lemma four_bytes k v : 0 <= v < 2 ^ 32 -> Nat.iter (4 + k) shift8 v =
  Z.lxor (Z.lxor (Z.lxor (Nat.iter (4 + k) shift8 (Z.land v 0xFF)) (Nat.iter (3 + k) shift8 (Z.land (Z.shiftr v 8) 0xFF)))
    (Nat.iter (2 + k) shift8 (Z.land (Z.shiftr v 16) 0xFF))) (Nat.iter (1 + k) shift8 (Z.shiftr v 24)).
Proof.
  intros Hv. cbn [Nat.add]. rewrite (iter8_split (S (S (S k))) v), (iter8_split (S (S k)) (Z.shiftr v 8)), (iter8_split (S k) (Z.shiftr (Z.shiftr v 8) 8)).
  rewrite !Z.shiftr_shiftr by lia. cbn [Z.add Pos.add Pos.succ]. change (8 + 8) with 16. change (8 + 8 + 8) with 24. by rewrite !Z.lxor_assoc.
Qed.

Lemma byte_u32 b : is_u8 b -> is_u32 b.
Proof. unfold is_u8, is_u32. lia. Qed.

(** Four little-endian bytes, as exclusive or. *)
Lemma le4 b0 b1 b2 b3 : is_u8 b0 -> is_u8 b1 -> is_u8 b2 -> is_u8 b3 ->
  le_value [b0; b1; b2; b3] = Z.lxor b0 (Z.shiftl (Z.lxor b1 (Z.shiftl (Z.lxor b2 (Z.shiftl b3 8)) 8)) 8).
Proof.
  assert (forall b x, is_u8 b -> Z.lor b (Z.shiftl x 8) = Z.lxor b (Z.shiftl x 8)) as Hl.
  { intros b x [Hb Hb']. symmetry. apply Z.lxor_lor, Z.bits_inj'. intros n Hn. rewrite Z.land_spec, Z.bits_0. destruct (Z.lt_ge_cases n 8).
    - by rewrite Z.shiftl_spec_low, andb_false_r by lia.
    - rewrite <- (Z.mod_small b (2 ^ 8)), Z.mod_pow2_bits_high by lia. done. }
  intros H0 H1 H2 H3. cbn [le_value]. rewrite Z.shiftl_0_l, Z.lor_0_r, !Hl by done. done.
Qed.

Lemma four_steps k c b0 b1 b2 b3 : is_u8 b0 -> is_u8 b1 -> is_u8 b2 -> is_u8 b3 ->
  Nat.iter k shift8 (foldl (fun c b => shift8 (Z.lxor c b)) c [b0; b1; b2; b3]) = Nat.iter (4 + k) shift8 (Z.lxor (le_value [b0; b1; b2; b3]) c).
Proof.
  intros. rewrite le4 by done. cbn [foldl]. replace (4 + k)%nat with (k + 4)%nat by lia. rewrite Nat.iter_add. f_equal.
  unfold Nat.iter, nat_rect. repeat (rewrite shift8_lxor || rewrite shift8_shiftl). apply Z.bits_inj'. intros n _. rewrite !Z.lxor_spec.
  repeat match goal with |- context [Z.testbit ?x n] => destruct (Z.testbit x n) end; reflexivity.
Qed.

Lemma bytes4_u32 l : bytes_ok l -> length l = 4%nat -> is_u32 (le_value l).
Proof. intros Hb Hl. pose proof (le_value_range l Hb) as H. unfold zlen in H. rewrite Hl in H. exact H. Qed.

(** A round of eight bytes is eight rounds of a byte. *)
Lemma crc_word_spec c b0 b1 b2 b3 b4 b5 b6 b7 rest : is_u32 c -> bytes_ok [b0; b1; b2; b3; b4; b5; b6; b7] ->
  crc_word crc_tables c ([b0; b1; b2; b3; b4; b5; b6; b7] ++ rest) = foldl (fun c b => shift8 (Z.lxor c b)) c [b0; b1; b2; b3; b4; b5; b6; b7].
Proof.
  intros Hc Hb. assert (bytes_ok [b0; b1; b2; b3] /\ bytes_ok [b4; b5; b6; b7]) as [Hlo Hhi] by (apply (Forall_app is_u8 [b0; b1; b2; b3] [b4; b5; b6; b7]); exact Hb).
  unfold crc_word. cbn [app take drop]. rewrite ?take_0.
  pose proof (lxor_u32 _ _ (bytes4_u32 _ Hlo eq_refl) Hc) as Hl. pose proof (bytes4_u32 _ Hhi eq_refl) as Hh.
  set (lo := Z.lxor (le_value [b0; b1; b2; b3]) c) in *. set (hi := le_value [b4; b5; b6; b7]) in *.
  assert (forall x, is_u32 x -> 0 <= Z.shiftr x 24 < 256) as H24.
  { intros x [Hx Hx']. rewrite Z.shiftr_div_pow2 by lia. split; [apply Z.div_pos; lia | apply Z.div_lt_upper_bound; lia]. }
  rewrite !crc_tab_spec by (lia || apply land_byte || by apply H24).
  change ([b0; b1; b2; b3; b4; b5; b6; b7]) with ([b0; b1; b2; b3] ++ [b4; b5; b6; b7]). rewrite foldl_app.
  repeat (apply Forall_cons_1 in Hlo as [? Hlo]). repeat (apply Forall_cons_1 in Hhi as [? Hhi]).
  pose proof (four_steps 0 (foldl (fun c b => shift8 (Z.lxor c b)) c [b0; b1; b2; b3]) b4 b5 b6 b7 ltac:(done) ltac:(done) ltac:(done) ltac:(done)) as F2.
  change (Nat.iter 0 shift8 ?x) with x in F2. rewrite F2. fold hi. rewrite iter8_lxor.
  rewrite (four_steps (4 + 0) c b0 b1 b2 b3) by done. fold lo. rewrite (four_bytes (4 + 0) lo Hl), (four_bytes 0 hi Hh). cbn [Nat.add].
  apply Z.bits_inj'. intros n _. rewrite !Z.lxor_spec.
  repeat match goal with |- context [Z.testbit ?x n] => destruct (Z.testbit x n) end; reflexivity.
Qed.

Lemma bytes8 (data : list Z) : 8 <= zlen data -> exists b0 b1 b2 b3 b4 b5 b6 b7 rest, data = [b0; b1; b2; b3; b4; b5; b6; b7] ++ rest.
Proof. unfold zlen. intros Hl. do 8 (destruct data as [|? data]; [cbn in Hl; lia|]). by do 9 eexists. Qed.

Lemma crc_loop_spec fuel : forall c data, is_u32 c -> bytes_ok data -> (length data <= fuel)%nat ->
  crc_loop fuel crc_tables c data = foldl (fun c b => shift8 (Z.lxor c b)) c data.
Proof.
  induction fuel as [|fuel IH]; intros c data Hc Hb Hl; [by destruct data; [|cbn in Hl; lia]|]. cbn [crc_loop].
  destruct (Z.leb_spec 8 (zlen data)) as [H8|H8].
  - destruct (bytes8 data H8) as (b0 & b1 & b2 & b3 & b4 & b5 & b6 & b7 & rest & ->). apply Forall_app in Hb as [Hb Hr].
    rewrite crc_word_spec by done. change (drop 8 ([b0; b1; b2; b3; b4; b5; b6; b7] ++ rest)) with rest. rewrite foldl_app.
    apply IH; [|done | rewrite length_app in Hl; cbn in Hl; lia]. clear IH Hl H8 Hr. revert c Hc. induction Hb as [|b l Hb Hbs IHb]; intros c Hc; [done|].
    cbn [foldl]. apply IHb, shift8_u32, lxor_u32; [done | by apply byte_u32].
  - destruct data as [|b data]; [done|]. apply Forall_cons_1 in Hb as [Hb Hbs]. cbn [foldl]. rewrite crc_byte_spec by done.
    apply IH; [apply shift8_u32, lxor_u32; [done | by apply byte_u32] | done | cbn in Hl; lia].
Qed.

Lemma not32_u32 c : is_u32 c -> is_u32 (not32 c).
Proof. intros Hc. apply lxor_u32; [done|]. unfold is_u32. lia. Qed.

(** C38: (equivalence): the checksum of a transducer map, taken eight bytes at a time through eight tables and then
    byte by byte, is the CRC-32C taken one bit at a time, for any bytes and any starting value. *)
Theorem crc32c_bitwise crc data : is_u32 crc -> bytes_ok data -> crc32c crc data = crc32c_bits crc data.
Proof. intros Hc Hb. unfold crc32c, crc32c_bits. f_equal. apply crc_loop_spec; [by apply not32_u32 | done | done]. Qed.

(** The check value of CRC-32C: of the digits 1 to 9. *)
Lemma crc32c_witness : crc32c_bits 0 [49; 50; 51; 52; 53; 54; 55; 56; 57] = 0xE3069283.
Proof.
  rewrite <- (crc32c_bitwise 0 [49; 50; 51; 52; 53; 54; 55; 56; 57]); [vm_compute; reflexivity | unfold is_u32; lia |].
  repeat constructor; unfold is_u8; lia.
Defined.

End FstChecksum.
